(* ===== verification/_CoqProject ===== *)
-Q . S2P
Prelude.v
Status.v
Exec.v
Effects.v
Sha256.v
Identity.v
ShardIndex.v
RequestQueue.v
ExecutionBatch.v
Worklist.v
WorklistObservation.v
EngineResource.v
Transaction.v
Artifact.v
Qtype.v
Gguf.v
GgufText.v
GgufReader.v
GgufDecode.v
GgufOpen.v
Layout.v
Utf8.v
Json.v
JsonGrammar.v
Scheduler.v
SchedulerLeases.v
SchedulerBatch.v
UnicodeTables.v
Pretokenizer.v
Normalization.v
CanonicalForm.v
NormalizationPass.v
HashIndex.v
Vocabulary.v
Merges.v
AddedTokens.v
Bpe.v
TokenizerSeal.v
TokenizerEncode.v
TokenizerDecode.v
TokenizerRoundTrip.v
TokenizerStream.v
TokenSequence.v
HttpTransport.v
NativeTable.v
JsonObject.v
Safetensors.v
SourceTable.v
SourceSnapshot.v
PayloadPlan.v
PayloadIndex.v
Binary.v
Speculation.v
QuantScalar.v
