(* ===== verification/Prelude.v ===== *)
(** A verification library for the yvex runtime (C sources under [src/src] and [src/include]).

    * The program and what is modelled

    The repository is an inference runtime for large models: it admits GGUF containers, resolves their
    tensors, compiles graphs, and serves requests through sessions, a scheduler and device backends.
    The library models the parts that hold its invariants. Each file is one part.

    - [Status]: the vocabulary of [core/status.c] and [core.h], which everything uses: status codes,
      typed errors, checked 64-bit arithmetic, capacity growth, the byte arena, execution counters.
    - [Exec], [Effects]: how imperative code is written down. A [run] is C code over arrays that faults
      on an access outside an array, leaves early with a refusal, or finishes; a program of [Effects] is
      a tree of calls to an environment, with a logic for what holds after every run.
    - [Sha256]: [core/sha256.c], streaming hash, padding, hexadecimal text.
    - [Identity]: the pattern every sealed object follows, hash a list of fields to a hexadecimal
      identity, and the encoding of those fields.
    - [ShardIndex]: [core/shard_index.c], an ordered table of names found by binary search.
    - [RequestQueue]: [server/request_queue.c], the queue of the server and its workers. Lock sections
      are the steps of a transition relation over all interleavings.
    - [ExecutionBatch], [Worklist], [WorklistObservation]: [graph/worklist.c] and
      [execution_batch.h], what makes rows executable together and the distribution of routed rows into
      expert buckets. [Worklist] calls [ExecutionBatch], and both seal through [Identity] and [Sha256].
    - [EngineResource]: [runtime/resource.c], the catalogue of reference-counted resources of an engine,
      with its generation-checked handles, dependencies, two-phase release and close.
    - [Transaction]: [runtime/transaction.c], the protocol between a step of execution and its owner, and
      the loop of [runtime/latent.c] that drives it. Owner and clock are calls of [Effects].
    - [Artifact]: the positioned reads of [artifact/core.c] as an interface, with a memory instance.
    - [Qtype]: [gguf/qtype.c], the table of tensor storage types and its arithmetic.
    - [Gguf], [GgufText], [GgufReader], [GgufDecode], [GgufOpen]: [gguf/core.c]. [Gguf] has the parsed
      container, its accessors and the hash indices of names; [GgufText] the checks of texts;
      [GgufReader] the parser over [Artifact]; [GgufDecode] the encoding of a container as bytes and the
      correctness of every stage; [GgufOpen] the theorems on the whole of [yvex_gguf_open_ex].
    - [Layout]: [gguf/layout_integrity.c], which checks the placement of the tensors of an opened
      container against the bytes of the file. It reads [Gguf], [Qtype] and [Artifact].
    - [Json], [JsonGrammar]: the JSON cursor of [core/json.c] and the string writer of [io/writer.c], the
      inductive grammar of the documents the cursor accepts, and that of RFC 8259.
    - [Scheduler], [SchedulerLeases], [SchedulerBatch]: [runtime/scheduler.c]. [Scheduler] has the table
      of execution leases, who is granted a turn, and the invariant of the table; [SchedulerLeases] its
      clients, as a transition relation over all interleavings of their lock sections, up to close;
      [SchedulerBatch] the queue of works the worker coalesces into batches, over a store of works that
      the queue points into. A batch is one of the keys of [ExecutionBatch].
    - [Utf8], [UnicodeTables], [Pretokenizer], [Normalization], [CanonicalForm], [NormalizationPass]:
      [tokenizer/unicode.c] and [tokenizer/normalization.c], scalars and their bytes, character classes,
      the pieces of a text, and canonical composition. The tables are the code's.
    - [HashIndex], [Vocabulary], [Merges], [AddedTokens], [TokenizerSeal], [Bpe], [TokenizerEncode],
      [TokenizerDecode], [TokenizerRoundTrip]: [tokenizer/execution.c] and [tokenizer/decode.c], the
      indexes a tokenizer is sealed with, byte-pair merging, and encoding and decoding of whole texts.
      [HashIndex] is what open addressing has in common, which the native table uses as well.
    - [TokenizerStream], [TokenSequence]: the decoder that is pushed one token at a time, and the
      directory of the tokens of a sequence, each with its transactions.
    - [HttpTransport]: [server/openai/http.c], one request read from a connection that delivers bytes as
      it likes, and the framing of answers.
    - [NativeTable], [JsonObject], [Safetensors], [SourceTable], [SourceSnapshot], [PayloadIndex],
      [PayloadPlan]: the way of a source from a directory of safetensors files to chunks of bytes, in
      [source/]. [Safetensors] reads the header of a file with the cursor of [Json] ([JsonObject] is the
      loop over the members of an object) into the table of [NativeTable]; [SourceTable] scans the
      directory; [SourceSnapshot] seals the table with a catalog of shards; [PayloadIndex] places every
      tensor in its shard; [PayloadPlan] cuts a selection of them into chunks.
    - [Binary]: the floating-point numbers of C, on the specification of IEEE 754 in the standard library,
      with their signs, their rounding and their bit patterns. Two parts use it.
    - [Speculation]: [runtime/acceptance.c], which of a draft's tokens a target model keeps, the token that
      follows them, and how many tokens a cycle may publish.
    - [QuantScalar]: [gguf/quant_scalar.c], the conversions between binary32 and the small formats of
      stored tensors, and the readers of a source's scalars.

    * What the theorems show

    - Containers. [gguf_open_decodes]: what the reader accepts is a well-formed container within its
      limits whose bytes are the encoding of what it returns. [gguf_open_roundtrip]: every such container
      is accepted and returned unchanged, whatever the memory limits allow. [gguf_names_found]: the hash
      indices agree with a linear search. [admitted_file_partition]: an opened container whose layout is
      admitted is its directory, zero padding, and its tensors in order with zero padding, to the last
      byte. [qtype_tensor_storage_exact]: sizes are exact or refused, never wrapped.
    - Documents. [json_accepts_grammar]: the cursor accepts exactly its grammar, which is that of RFC 8259
      widened by vertical tabs and form feeds as white space and by strings that are not UTF-8.
      [json_string_roundtrip]: exactly which strings survive writing and reading. [json_u64_exact].
    - Worklists and batches. The build loops place every routed row once, in order, into its bucket and
      stay inside every array; validation accepts only such worklists; seals fail exactly on inadmissible
      batches and two different batches never hash the same field sequence.
    - The queue. No two workers serve one session, no request waits while a worker sleeps and its session
      is idle, requests of one session are served in order.
    - The catalogue. Counts are exact in every reachable state, a handle is never reused, nothing is
      released while it is borrowed or depended upon, and close terminates.
    - Transactions. Every run makes its calls in the order of an abstract protocol, publishes at most
      once, discards whatever it does not publish, and finishes when its owner makes progress.
    - The scheduler. Two clients of one sequence are never active together, nor more clients than the
      width; a client that could run is never left waiting, and whatever section runs, a turn it gives
      overtakes only older works whose own sequence runs; close lets every running client end and admits
      no other. A batch is the first work that is not cancelled and, in the order of the queue, the works
      of its key that fit the width left; while the scheduler runs, no work is lost and
      every work it refers to has a submitter that waits ([stop_abandons_work]: not so once it stops).
    - Tokenizers. The seal indexes exactly the vocabulary and the merges it is given, and finds the added
      tokens, the longest first where none is empty; byte-pair merging ends in the normal form of the
      merge ranks; encoding is the specification's, decoding gives back what was encoded
      ([tokenizer_roundtrip]), both where no token of a byte or a merge is an added one, which sealing does
      not check; decoding token by token gives what decoding at once gives ([stream_decodes_as_batch]),
      and what it keeps pending begins a scalar value or can no longer become text. Pieces partition a
      text and are those of a reference splitter on scalar values; composition is canonical.
    - Transport. [http_read_exact]: what is read is independent of how the bytes arrive and is the only
      request those bytes denote; [http_answers_framed]: answers are framed whatever the connection takes.
    - Sources. [safetensors_read_exact]: the rows read from a header are those its text denotes, up to its
      first zero byte, inside the payload of the file. [native_table_refines]: the table is a map from names to rows.
      [native_open_exact], [source_snapshot_exact]: a directory gives the rows of all its shards, sealed,
      in order and found by name. [payload_rows_exact]: exactly when every tensor lies in its shard, with
      as many bytes as its shape takes and none in common with another, the index holds its absolute
      range; this is what [payload_plan_exact] asks of a session, so a plan's chunks tile the selected
      tensors, in file order, inside the files. [snapshot_ok] and [session_rows] are the contracts between
      these parts.
    - Speculation. [speculation_accept_exact]: exactly when a request is answered, which tokens it
      commits, and that with greedy acceptance they are those the target alone would have chosen.
      [speculation_cycle_bounded]: a cycle publishes no more than is left of the turn.
    - Scalars. [scalar_encodings_round]: encoding is correct rounding, on all 2^32 patterns.
      [scalar_decodings_exact]: decoding is exact and inverts encoding. [source_scalars_exact]: the
      scalars read from a source are those its bytes denote.
    - The basis. SHA-256 streaming equals the hash of the concatenation; binary search, capacity growth,
      and checked arithmetic agree with their mathematical definitions.

    * Conventions

    Integers are [Z]; the width of a C type is written out as a wrap ([u8], [u32], [u64]) wherever an
    operation can leave it, and otherwise shown not to matter by a range invariant. Sizes of structs are
    those of an LP64 target. A C string is a [string], a counted text or buffer a list of bytes, a
    nullable text an [option]. A pointer to an array with its count is a list; where memory safety is
    claimed, accesses are checked ones. Pointers to the object an operation works on are non-null;
    pointers to data that the code tests for null are options. Enumerations the code range-checks are [Z]
    constants, others inductive types. Refusals are values with the status and the reason; the place
    name and the printf arguments of an error are not modelled, nor is a null error pointer except where
    a result depends on it ([ExecutionBatch]). Allocation, clocks, callbacks, file reads and threads are
    answers of an environment, quantified over in the theorems. A mutex section is one atomic step;
    failures of the lock calls themselves are not represented. A read interrupted by a signal is retried
    by the code and appears here as its final answer. Character classes are those of the C locale. Numbers
    the code hashes in its own byte order (the index of merges) are little-endian. A [float] or [double]
    is a [spec_float] of IEEE 754, rounded to the nearest, ties to even, and evaluated in its own format;
    where the code takes a [float] apart into its bits, it is its pattern of 32 bits. A directory
    is a tree of entries in the order the system lists them; [bsearch] of the C library is a bisection. A
    decoder refuses an operation while another is inside, so its operations are sequential.

    * Bounds and fuel

    Loops that are not structural carry fuel, computed from the input and never visible in a theorem: the
    hash probes run once round their table, doubling loops run at most 64 times, text loops once per
    byte, array parsing once per announced entry after its bytes are known to be there, JSON nesting to
    the cap of 64, members of a JSON object once per byte of text left, the fill of a plan once per chunk,
    the shift of a subnormal at most ten times. Each correctness theorem states what the loop returns, so
    too little fuel would make it false.

    * What is not modelled, and why

    Floating-point kernels (quantisation blocks, reference attention, CUDA code) have no exact
    specification to check against; conversions of scalars and tests of distributions do. Sockets and directories beyond what a read or a scan observes of
    them, subprocesses, terminal rendering and the
    command line are calls to the operating system. Tables of model families are data. The JSON helpers
    of [gguf/core.c] for quantization documents, the field probe and the file read of [core/json.c] are
    not modelled. In the parts that are, the text of error messages is not.

    * Where the library can grow

    Next in line: the capacity calculation and failure mapping of [runtime], the
    prefix store, the executors of scheduled batches, the request decoding of the server on top of
    [Json] and [HttpTransport], admission and streaming of payload files on top of [PayloadPlan],
    candidate plans and memory plans of [graph]. *)

From Stdlib Require Export ZArith Lia Ascii String.
From stdpp Require Export base list numbers strings gmap sorting.

#[export] Set Default Goal Selector "!".

(** * Scope *)

Declare Scope yvex_scope.
Delimit Scope yvex_scope with yvex.
#[global] Open Scope Z_scope.

(** * Functional update of C structs

    [r <| f := v |>] is the struct assignment [r.f = v]. The setter of a field is found by
    abstracting that field in the eta expansion of the record. *)

Class Eta (R : Type) : Type := eta_expand : R → R.

Class FieldSetter {R T : Type} (field : R → T) : Type := set_field : (T → T) → R → R.

Ltac derive_setter :=
  lazymatch goal with
  | |- @FieldSetter ?R ?T ?field =>
      let body := constr:(λ (update__ : T → T) (struct__ : R),
        ltac:(let inst := constr:(_ : Eta R) in
              let t := eval red in (inst struct__) in
              let t := eval cbv beta in t in
              lazymatch (eval pattern (field struct__) in t) with
              | ?ctx _ => let u := eval cbv beta in (ctx (update__ (field struct__))) in exact u
              end)) in
      exact body
  end.

#[export] Hint Extern 0 (FieldSetter _) => derive_setter : typeclass_instances.
#[global] Arguments set_field {R T} field {_} _ _ /.
#[global] Arguments eta_expand {R _} _ /.

Notation "r <| f := v |>" := (set_field f (λ _, v) r)
  (at level 12, left associativity, f at next level, v at level 200) : stdpp_scope.
Notation "r <| f ::= g |>" := (set_field f g r)
  (at level 12, left associativity, f at next level, g at level 200) : stdpp_scope.

(** * Machine integers *)

Definition UINT32_MAX : Z := 4294967295.
Definition ULLONG_MAX : Z := 18446744073709551615.
Definition SIZE_MAX : Z := ULLONG_MAX.

(** Wrap-around of unsigned 8-, 32- and 64-bit arithmetic. *)
Definition u8 (x : Z) : Z := x mod 256.
Definition u32 (x : Z) : Z := x mod 4294967296.
Definition u64 (x : Z) : Z := x mod 18446744073709551616.

Definition is_u8 (x : Z) : Prop := 0 ≤ x < 256.
Definition is_u32 (x : Z) : Prop := 0 ≤ x ≤ UINT32_MAX.
Definition is_u64 (x : Z) : Prop := 0 ≤ x ≤ ULLONG_MAX.

Ltac ulia := unfold is_u8, is_u32, is_u64, u8, u32, u64, SIZE_MAX, ULLONG_MAX, UINT32_MAX in *; lia.

(** Equality of lists of integers, element by element. *)
Ltac list_lia := repeat (apply (f_equal2 cons); [lia|]); reflexivity.

(** [Forall] over a literal list, one goal per cell. *)
Ltac forall_cells := repeat apply Forall_cons_2; try apply Forall_nil_2.

Lemma u64_id x : is_u64 x → u64 x = x.
Proof. intros H. apply Z.mod_small. ulia. Qed.

Lemma u32_id x : is_u32 x → u32 x = x.
Proof. intros H. apply Z.mod_small. ulia. Qed.

Lemma u8_id x : is_u8 x → u8 x = x.
Proof. intros H. apply Z.mod_small. ulia. Qed.

Lemma u64_range x : is_u64 (u64 x).
Proof. unfold u64. pose proof (Z.mod_pos_bound x 18446744073709551616). ulia. Qed.

Lemma u32_range x : is_u32 (u32 x).
Proof. unfold u32. pose proof (Z.mod_pos_bound x 4294967296). ulia. Qed.

Lemma u8_range x : is_u8 (u8 x).
Proof. unfold u8. pose proof (Z.mod_pos_bound x 256). ulia. Qed.

Create HintDb yvex discriminated.
#[export] Hint Resolve u64_range u32_range u8_range : yvex.

(** * Sums *)

Definition total (ps : list Z) : Z := foldr Z.add 0 ps.

Lemma total_app ps qs : total (ps ++ qs) = total ps + total qs.
Proof. unfold total. induction ps; simpl; lia. Qed.

Lemma total_cons p ps : total (p :: ps) = p + total ps.
Proof. done. Qed.

Lemma total_permutation {A} (f : A → Z) l m : l ≡ₚ m → total (f <$> l) = total (f <$> m).
Proof. induction 1; rewrite ?fmap_cons, ?total_cons; lia. Qed.

(** The product of a list of dimensions. *)
Definition product (dims : list Z) : Z := foldr Z.mul 1 dims.

Lemma product_pos dims : Forall (λ d, 0 < d) dims → 0 < product dims.
Proof. induction 1; simpl; lia. Qed.

Lemma total_zip_add l m : length l = length m → total (zip_with Z.add l m) = total l + total m.
Proof.
  revert m. induction l as [|x l IH]; intros [|y m] [=]; [done|].
  cbn [zip_with]. rewrite !total_cons, IH by done. lia.
Qed.

(** * Boolean guards of the C code *)

Create Rewrite HintDb guards.
#[export] Hint Rewrite orb_true_iff orb_false_iff andb_true_iff andb_false_iff negb_true_iff
  negb_false_iff Z.eqb_eq Z.eqb_neq Z.ltb_lt Z.ltb_ge Z.leb_le Z.leb_gt bool_decide_eq_true
  bool_decide_eq_false : guards.

(** Turn every boolean guard in the context into propositions. *)
Ltac guards := autorewrite with guards in *; destruct_and?.
Ltac guards_in H := autorewrite with guards in H; destruct_and? H.

(** Case analysis on the guard at the head of an [if] or [match], naming its value. *)
Ltac split_guard :=
  match goal with
  | |- context [if ?b then _ else _] => let E := fresh "E" in destruct b eqn:E
  | H : context [if ?b then _ else _] |- _ => let E := fresh "E" in destruct b eqn:E
  end.

(** * Byte encodings *)

(** The [n] low bytes of [v], least significant first. *)
Fixpoint le_bytes (n : nat) (v : Z) : list Z :=
  match n with
  | O => []
  | S n => v mod 256 :: le_bytes n (v / 256)
  end.

Fixpoint le_value (l : list Z) : Z :=
  match l with
  | [] => 0
  | b :: l => b + 256 * le_value l
  end.

Lemma length_le_bytes n v : length (le_bytes n v) = n.
Proof. revert v. induction n as [|n IH]; intros v; [done|]. simpl. by rewrite IH. Qed.

Lemma le_bytes_range n v : Forall is_u8 (le_bytes n v).
Proof.
  revert v. induction n as [|n IH]; intros v; constructor; [|apply IH].
  apply u8_range.
Qed.

Lemma le_value_bytes n v : 0 ≤ v < 256 ^ Z.of_nat n → le_value (le_bytes n v) = v.
Proof.
  revert v. induction n as [|n IH]; intros v Hv; [simpl in *; lia|].
  cbn [le_bytes le_value]. rewrite IH.
  - pose proof (Z.div_mod v 256). lia.
  - rewrite Nat2Z.inj_succ, Z.pow_succ_r in Hv by lia.
    split; [apply Z.div_pos; lia|]. apply Z.div_lt_upper_bound; lia.
Qed.

Lemma lor_low a x n : 0 ≤ n → 0 ≤ x < 2 ^ n → Z.lor (Z.shiftl a n) x = a * 2 ^ n + x.
Proof.
  intros Hn Hx. rewrite <- Z.shiftl_mul_pow2 by done. rewrite <- Z.add_lor_land.
  rewrite <- (Z.add_0_r (Z.lor _ _)) at 1. f_equal. symmetry. apply Z.bits_inj'. intros k Hk. rewrite Z.land_spec, Z.bits_0.
  destruct (Z.lt_ge_cases k n) as [Hlt|Hge].
  - by rewrite Z.shiftl_spec_low.
  - destruct (Z.eq_dec x 0) as [->|]; [by rewrite Z.bits_0, andb_false_r|].
    rewrite (Z.bits_above_log2 x k), andb_false_r; [done|lia|].
    apply Z.log2_lt_pow2; [lia|]. apply (Z.lt_le_trans _ (2 ^ n)); [lia|]. by apply Z.pow_le_mono_r.
Qed.

(** [bytes[0] | bytes[1] << 8 | ...] *)
Definition load_le (bytes : list Z) : Z :=
  (foldl (λ '(bits, shift) byte, (Z.lor bits (Z.shiftl byte shift), shift + 8)) (0, 0) bytes).1.

Lemma load_le_go bytes bits shift :
  Forall is_u8 bytes → 0 ≤ shift → 0 ≤ bits < 2 ^ shift →
  (foldl (λ '(bits, shift) byte, (Z.lor bits (Z.shiftl byte shift), shift + 8)) (bits, shift) bytes).1 =
  bits + 2 ^ shift * le_value bytes.
Proof.
  intros Hb. revert bits shift. induction Hb as [|b l Hb _ IH]; intros bits shift Hs Hbits; cbn [foldl le_value].
  - cbn. lia.
  - rewrite (Z.lor_comm bits), lor_low by done. rewrite IH; [|lia|].
    + rewrite Z.pow_add_r by lia. change (2 ^ 8) with 256. lia.
    + rewrite Z.pow_add_r by lia. change (2 ^ 8) with 256. ulia || (unfold is_u8 in Hb; nia).
Qed.

Lemma load_le_value bytes : Forall is_u8 bytes → load_le bytes = le_value bytes.
Proof. intros Hb. unfold load_le. rewrite load_le_go by (done || lia). cbn. lia. Qed.

Lemma le_value_range bytes : Forall is_u8 bytes → 0 ≤ le_value bytes < 256 ^ Z.of_nat (length bytes).
Proof.
  induction 1 as [|b l Hb _ IH]; [done|]. cbn [le_value length].
  rewrite Nat2Z.inj_succ, Z.pow_succ_r by lia. unfold is_u8 in Hb. lia.
Qed.

Lemma le_bytes_value bytes : Forall is_u8 bytes → le_bytes (length bytes) (le_value bytes) = bytes.
Proof.
  induction 1 as [|b l Hb _ IH]; [done|]. cbn [le_bytes le_value length]. unfold is_u8 in Hb.
  rewrite (Z.mul_comm 256), Z.mod_add, Z.div_add, Z.mod_small, Z.div_small by lia. by rewrite Z.add_0_l, IH.
Qed.

Lemma load_le_bytes n v : 0 ≤ v < 256 ^ Z.of_nat n → load_le (le_bytes n v) = v.
Proof. intros Hv. rewrite load_le_value by apply le_bytes_range. by apply le_value_bytes. Qed.

Lemma le_bytes_inj n v w :
  0 ≤ v < 256 ^ Z.of_nat n → 0 ≤ w < 256 ^ Z.of_nat n → le_bytes n v = le_bytes n w → v = w.
Proof. intros Hv Hw E. by rewrite <- (le_value_bytes n v), <- (le_value_bytes n w), E. Qed.

Lemma app_inj_len {A} (a b x y : list A) :
  length a = length b → a ++ x = b ++ y → a = b ∧ x = y.
Proof. intros Hl E. apply app_inj_1; done. Qed.

(** * C strings

    A C string is the bytes before its terminator. *)

Fixpoint cstr (s : string) : list Z :=
  match s with
  | EmptyString => []
  | String c s => Z.of_N (N_of_ascii c) :: cstr s
  end.

Definition strlen (s : string) : Z := Z.of_nat (length (cstr s)).

(** Evaluate the lengths of the string literals of the goal. *)
Ltac strlen_literals :=
  repeat match goal with
  | |- context [strlen (String ?c ?s)] =>
      let n := eval vm_compute in (strlen (String c s)) in
      change (strlen (String c s)) with n
  end.

Lemma cstr_range s : Forall is_u8 (cstr s).
Proof.
  induction s as [|c s IH]; constructor; [|done].
  pose proof (N_ascii_bounded c). ulia.
Qed.

#[export] Instance cstr_inj : Inj (=) (=) cstr.
Proof.
  intros s. induction s as [|c s IH]; intros [|d t] E; simplify_eq/=; try done.
  f_equal; [|by apply IH].
  rewrite <- (ascii_N_embedding c), <- (ascii_N_embedding d). by f_equal.
Qed.

(** [strcmp]: lexicographic order of the unsigned bytes. *)
Fixpoint bytes_compare (a b : list Z) : comparison :=
  match a, b with
  | [], [] => Eq
  | [], _ :: _ => Lt
  | _ :: _, [] => Gt
  | x :: a, y :: b =>
      match Z.compare x y with Eq => bytes_compare a b | c => c end
  end.

Definition strcmp (a b : string) : comparison := bytes_compare (cstr a) (cstr b).

Lemma bytes_compare_eq a b : bytes_compare a b = Eq ↔ a = b.
Proof.
  revert b. induction a as [|x a IH]; intros [|y b]; simpl; try done.
  destruct (Z.compare_spec x y) as [->|H|H].
  - rewrite IH. naive_solver.
  - split; intros; simplify_eq; lia.
  - split; intros; simplify_eq; lia.
Qed.

Lemma bytes_compare_antisym a b : bytes_compare b a = CompOpp (bytes_compare a b).
Proof.
  revert b. induction a as [|x a IH]; intros [|y b]; simpl; try done.
  rewrite (Z.compare_antisym x y). destruct (Z.compare x y); simpl; auto.
Qed.

Lemma bytes_compare_trans a b c :
  bytes_compare a b = Lt → bytes_compare b c = Lt → bytes_compare a c = Lt.
Proof.
  revert b c. induction a as [|x a IH]; intros [|y b] [|z c]; simpl; try done.
  destruct (Z.compare_spec x y), (Z.compare_spec y z); intros ??; try done.
  all: destruct (Z.compare_spec x z); try lia; try done; subst; try lia; by eapply IH.
Qed.

Lemma strcmp_eq a b : strcmp a b = Eq ↔ a = b.
Proof. unfold strcmp. rewrite bytes_compare_eq. split; [apply (inj cstr)|by intros ->]. Qed.

Lemma strcmp_antisym a b : strcmp b a = CompOpp (strcmp a b).
Proof. apply bytes_compare_antisym. Qed.

Lemma strcmp_trans a b c : strcmp a b = Lt → strcmp b c = Lt → strcmp a c = Lt.
Proof. apply bytes_compare_trans. Qed.

(** * Decimal text: [snprintf("%llu")] *)

Definition digit_char (d : Z) : ascii := ascii_of_N (Z.to_N (48 + d)).

(** At most [fuel] digits; twenty are enough for a 64-bit integer. *)
Fixpoint decimal_go (fuel : nat) (n : Z) (acc : string) : string :=
  match fuel with
  | O => acc
  | S fuel =>
      let acc := String (digit_char (n mod 10)) acc in
      if n <? 10 then acc else decimal_go fuel (n / 10) acc
  end.

Definition decimal (n : Z) : string := decimal_go 20 n "".

(** The value of a digit string, read after [v]. *)
Fixpoint decimal_value (v : Z) (s : string) : Z :=
  match s with
  | EmptyString => v
  | String c s => decimal_value (v * 10 + (Z.of_N (N_of_ascii c) - 48)) s
  end.

Fixpoint no_char (c : ascii) (s : string) : Prop :=
  match s with EmptyString => True | String d s => d ≠ c ∧ no_char c s end.

Lemma digit_char_code d : 0 ≤ d < 10 → Z.of_N (N_of_ascii (digit_char d)) = 48 + d.
Proof. intros H. unfold digit_char. rewrite N_ascii_embedding; lia. Qed.

Lemma decimal_go_value fuel n acc :
  0 ≤ n < 10 ^ Z.of_nat fuel → decimal_value 0 (decimal_go fuel n acc) = decimal_value n acc.
Proof.
  revert n acc. induction fuel as [|fuel IH]; intros n acc Hn.
  { simpl in *. by assert (n = 0) as -> by lia. }
  rewrite Nat2Z.inj_succ, Z.pow_succ_r in Hn by lia.
  pose proof (Z.div_mod n 10). pose proof (Z.mod_pos_bound n 10).
  cbn [decimal_go]. destruct (Z.ltb_spec n 10).
  - cbn. rewrite digit_char_code by lia. f_equal. rewrite Z.mod_small; lia.
  - rewrite IH.
    + cbn. rewrite digit_char_code by lia. f_equal. lia.
    + split; [apply Z.div_pos; lia|apply Z.div_lt_upper_bound; lia].
Qed.

Lemma decimal_inj m n : is_u64 m → is_u64 n → decimal m = decimal n → m = n.
Proof.
  intros Hm Hn E. assert (10 ^ Z.of_nat 20 = 100000000000000000000) as H by done.
  pose proof (decimal_go_value 20 m "" ltac:(ulia)) as Vm.
  pose proof (decimal_go_value 20 n "" ltac:(ulia)) as Vn.
  unfold decimal in E. simpl decimal_value in Vm at 2. rewrite E, Vn in Vm. done.
Qed.

Lemma decimal_no_char c n :
  is_u64 n → ((Z.of_N (N_of_ascii c) < 48) ∨ (57 < Z.of_N (N_of_ascii c))) → no_char c (decimal n).
Proof.
  intros _ Hc. unfold decimal. assert (Hacc : no_char c "") by done.
  revert n Hacc. generalize ""%string. generalize 20%nat.
  intros fuel. induction fuel as [|fuel IH]; intros acc n Hacc; [done|].
  assert (no_char c (String (digit_char (n mod 10)) acc)).
  { split; [|done]. intros E. pose proof (Z.mod_pos_bound n 10).
    pose proof (digit_char_code (n mod 10)). rewrite E in *. lia. }
  cbn [decimal_go]. split_guard; [done|]. by apply IH.
Qed.

(** A separator splits a string uniquely after a part that does not contain it. *)
Lemma split_at_char c x y s t :
  no_char c x → no_char c y → (x +:+ String c s = y +:+ String c t)%string → x = y ∧ s = t.
Proof.
  revert y. induction x as [|d x IH]; intros [|e y] Hx Hy E; simpl in *; simplify_eq.
  - done.
  - by destruct Hy.
  - by destruct Hx.
  - destruct Hx, Hy. by destruct (IH y) as [-> ->].
Qed.

Lemma length_cstr s : length (cstr s) = String.length s.
Proof. induction s; simpl; auto. Qed.

(** * Lists *)

Lemma take_snoc {A} (l : list A) (n : nat) x : l !! n = Some x → take (S n) l = take n l ++ [x].
Proof. intros H. by erewrite take_S_r. Qed.

Lemma filter_none {A} (P : A → Prop) `{∀ x, Decision (P x)} (l : list A) : Forall (λ x, ¬ P x) l → filter P l = [].
Proof. induction 1 as [|x l Hx _ IH]; [done|]. by rewrite filter_cons, decide_False. Qed.

Lemma filter_every {A} (P : A → Prop) `{∀ x, Decision (P x)} (l : list A) : Forall P l → filter P l = l.
Proof. induction 1 as [|x l Hx _ IH]; [done|]. rewrite filter_cons, decide_True by done. by f_equal. Qed.

Lemma filter_Forall {A} (P Q : A → Prop) `{∀ x, Decision (P x)} (l : list A) : Forall Q l → Forall Q (filter P l).
Proof. induction 1 as [|x l Hx Hl IH]; [done|]. rewrite filter_cons. case_decide; [by constructor|done]. Qed.

Lemma filter_length_le {A} (P : A → Prop) `{∀ x, Decision (P x)} (l : list A) : (length (filter P l) ≤ length l)%nat.
Proof. induction l as [|x l IH]; [done|]. rewrite filter_cons. case_decide; cbn; lia. Qed.

Lemma filter_sorted {A} (R : A → A → Prop) (P : A → Prop) `{∀ x, Decision (P x)} (l : list A) :
  StronglySorted R l → StronglySorted R (filter P l).
Proof.
  induction 1 as [|x l Hl IH Hx]; [constructor|]. rewrite filter_cons. case_decide; [|done].
  constructor; [done|]. by apply filter_Forall.
Qed.

Lemma mapM_lookup {A B} (f : A → option B) (l : list A) (k : list B) i x :
  mapM f l = Some k → l !! i = Some x → ∃ y, k !! i = Some y ∧ f x = Some y.
Proof. intros H%mapM_Some Hi. by apply (Forall2_lookup_l _ _ _ _ _ H Hi). Qed.

Lemma mapM_take {A B} (f : A → option B) (l : list A) (k : list B) n :
  mapM f l = Some k → mapM f (take n l) = Some (take n k).
Proof. intros H%mapM_Some. apply mapM_Some. by apply Forall2_take. Qed.

Lemma mapM_snoc {A B} (f : A → option B) (l : list A) (k : list B) x y :
  mapM f l = Some k → f x = Some y → mapM f (l ++ [x]) = Some (k ++ [y]).
Proof. intros H%mapM_Some Hx. apply mapM_Some. apply Forall2_app; [done|by constructor]. Qed.
