(* ===== verification/Status.v ===== *)
(** Status codes, typed errors, checked 64-bit arithmetic, observation counters and the bounded
    byte arena of [src/core/status.c] and [include/yvex/internal/core.h]. *)

From S2P Require Import Prelude.

(** * Status vocabulary *)

(** src/include/yvex/core.h, [yvex_status] *)
Inductive yvex_status : Type :=
  | YVEX_OK | YVEX_ERR | YVEX_ERR_NOMEM | YVEX_ERR_IO | YVEX_ERR_FORMAT | YVEX_ERR_UNSUPPORTED
  | YVEX_ERR_BACKEND | YVEX_ERR_BOUNDS | YVEX_ERR_STATE | YVEX_ERR_CANCELLED
  | YVEX_ERR_INVALID_ARG | YVEX_ERR_TIMEOUT.

#[export] Instance yvex_status_eq_dec : EqDecision yvex_status.
Proof. solve_decision. Defined.

(** src/src/core/status.c, [yvex_status_name] *)
Definition yvex_status_name (status : yvex_status) : string :=
  match status with
  | YVEX_OK => "YVEX_OK"
  | YVEX_ERR => "YVEX_ERR"
  | YVEX_ERR_NOMEM => "YVEX_ERR_NOMEM"
  | YVEX_ERR_IO => "YVEX_ERR_IO"
  | YVEX_ERR_FORMAT => "YVEX_ERR_FORMAT"
  | YVEX_ERR_UNSUPPORTED => "YVEX_ERR_UNSUPPORTED"
  | YVEX_ERR_BACKEND => "YVEX_ERR_BACKEND"
  | YVEX_ERR_BOUNDS => "YVEX_ERR_BOUNDS"
  | YVEX_ERR_STATE => "YVEX_ERR_STATE"
  | YVEX_ERR_CANCELLED => "YVEX_ERR_CANCELLED"
  | YVEX_ERR_INVALID_ARG => "YVEX_ERR_INVALID_ARG"
  | YVEX_ERR_TIMEOUT => "YVEX_ERR_TIMEOUT"
  end.

(** src/src/core/status.c, [yvex_status_is_ok] *)
Definition yvex_status_is_ok (status : yvex_status) : bool := bool_decide (status = YVEX_OK).

(** * Bounded text and typed errors *)

(** src/src/core/status.c, [yvex_core_text_copy]
    [snprintf(dst, cap, "%s", src)]: at most [cap - 1] bytes and a terminator. A zero capacity
    leaves the destination as it is; a null source copies as the empty string. *)
Definition yvex_core_text_copy (dst : string) (cap : nat) (src : option string) : string :=
  match cap with
  | O => dst
  | S n => substring 0 n (default ""%string src)
  end.

Record yvex_error := YvexError { err_code : yvex_status; err_where : string; err_message : string }.

(** src/src/core/status.c, [yvex_error_clear] *)
Definition yvex_error_clear (err : option yvex_error) : option yvex_error :=
  (λ _, YvexError YVEX_OK "" "") <$> err.

(** src/src/core/status.c, [yvex_error_set] *)
Definition yvex_error_set (err : option yvex_error) (code : yvex_status)
    (whence message : option string) : option yvex_error :=
  (λ e, YvexError code
          (yvex_core_text_copy (err_where e) 96 (Some (default "unknown"%string whence)))
          (yvex_core_text_copy (err_message e) 256 message)) <$> err.

(** src/src/core/status.c, [yvex_error_is_set] *)
Definition yvex_error_is_set (err : option yvex_error) : bool :=
  match err with None => false | Some e => bool_decide (err_code e ≠ YVEX_OK) end.

(** src/src/core/status.c, [yvex_error_code] *)
Definition yvex_error_code (err : option yvex_error) : yvex_status :=
  match err with None => YVEX_OK | Some e => err_code e end.

(** The result of a fallible operation: a value, or the status and the reason the code hands to
    [yvex_error_set]. *)
Inductive outcome (A : Type) : Type :=
  | Done (a : A)
  | Refused (status : yvex_status) (reason : string).
Arguments Done {A} a.
Arguments Refused {A} status reason.

Definition outcome_status {A} (o : outcome A) : yvex_status :=
  match o with Done _ => YVEX_OK | Refused st _ => st end.

#[export] Instance outcome_ret : MRet outcome := λ A a, Done a.
#[export] Instance outcome_bind : MBind outcome := λ A B f o,
  match o with Done a => f a | Refused st why => Refused st why end.

(** Every refusal of the development carries an error status, never [YVEX_OK]. *)
Definition proper_refusal {A} (o : outcome A) : Prop :=
  match o with Done _ => True | Refused st _ => st ≠ YVEX_OK end.

(** [err] after the operation: cleared on success, set on refusal. *)
Definition err_after {A} (err : option yvex_error) (whence : string) (o : outcome A) :=
  match o with
  | Done _ => yvex_error_clear err
  | Refused st why => yvex_error_set err st (Some whence) (Some why)
  end.

(** * Checked 64-bit arithmetic *)

(** src/src/core/status.c, [yvex_core_u64_add] *)
Definition yvex_core_u64_add (left right : Z) : option Z :=
  if ULLONG_MAX - right <? left then None else Some (left + right).

(** src/src/core/status.c, [yvex_core_u64_mul] *)
Definition yvex_core_u64_mul (left right : Z) : option Z :=
  if negb (left =? 0) && (ULLONG_MAX / left <? right) then None else Some (left * right).

Lemma u64_add_Some a b c :
  is_u64 a → is_u64 b → yvex_core_u64_add a b = Some c ↔ c = a + b ∧ is_u64 c.
Proof.
  intros Ha Hb. unfold yvex_core_u64_add. split_guard; guards.
  - split; [done|]. intros [-> ?]. ulia.
  - split; [intros [= <-]; split; [done|ulia]|by intros [-> _]].
Qed.

Lemma u64_add_None a b : is_u64 a → is_u64 b → yvex_core_u64_add a b = None ↔ ULLONG_MAX < a + b.
Proof.
  intros Ha Hb. unfold yvex_core_u64_add. split_guard; guards; split; try done; intros; ulia.
Qed.

Lemma u64_div_max_lt a b : 0 < a → ULLONG_MAX / a < b ↔ ULLONG_MAX < a * b.
Proof.
  intros Ha. split; intros H.
  - destruct (Z.le_gt_cases (a * b) ULLONG_MAX) as [Hle|]; [|done].
    apply Z.div_le_lower_bound in Hle; lia.
  - by apply Z.div_lt_upper_bound.
Qed.

Lemma u64_mul_Some a b c :
  is_u64 a → is_u64 b → yvex_core_u64_mul a b = Some c ↔ c = a * b ∧ is_u64 c.
Proof.
  intros Ha Hb. unfold yvex_core_u64_mul, is_u64 in *.
  destruct (Z.eqb_spec a 0) as [->|Hz]; simpl.
  - split; [intros [= <-]; ulia|by intros [-> _]].
  - destruct (Z.ltb_spec (ULLONG_MAX / a) b) as [H|H].
    + rewrite u64_div_max_lt in H by lia. split; [done|]. intros [-> ?]. lia.
    + rewrite Z.le_ngt, u64_div_max_lt in H by lia.
      split; [intros [= <-]; split; [done|nia]|by intros [-> _]].
Qed.

Lemma u64_mul_None a b : is_u64 a → is_u64 b → yvex_core_u64_mul a b = None ↔ ULLONG_MAX < a * b.
Proof.
  intros Ha Hb. destruct (yvex_core_u64_mul a b) eqn:E.
  - apply u64_mul_Some in E as [-> ?]; [|done..]. split; [done|]. ulia.
  - split; [|done]. intros _. destruct (Z.lt_ge_cases ULLONG_MAX (a * b)); [done|].
    assert (yvex_core_u64_mul a b = Some (a * b)); [|congruence].
    apply u64_mul_Some; [done..|]. split; [done|]. unfold is_u64 in *. nia.
Qed.

#[export] Hint Extern 1 (is_u64 _) => ulia : yvex.

(** * Execution observation *)

(** src/include/yvex/internal/core.h, [yvex_core_execution_observation_kind] *)
Inductive observation_kind : Type :=
  | YVEX_CORE_OBSERVE_SOURCE_HEADER | YVEX_CORE_OBSERVE_SOURCE_PAYLOAD_BYTES
  | YVEX_CORE_OBSERVE_TRANSFORM_PLAN | YVEX_CORE_OBSERVE_QUANT_PLAN
  | YVEX_CORE_OBSERVE_WRITER_PLAN | YVEX_CORE_OBSERVE_COUNT.

#[export] Instance observation_kind_eq_dec : EqDecision observation_kind.
Proof. solve_decision. Defined.

(** src/include/yvex/internal/core.h, [yvex_core_execution_observation] *)
Record execution_observation := ExecutionObservation {
  source_headers_read : Z;
  source_payload_bytes_read : Z;
  transform_plans_built : Z;
  quant_plans_built : Z;
  writer_plans_built : Z;
  observation_overflowed : bool;
}.

#[export] Instance execution_observation_eta : Eta execution_observation := λ o,
  ExecutionObservation (source_headers_read o) (source_payload_bytes_read o)
    (transform_plans_built o) (quant_plans_built o) (writer_plans_built o)
    (observation_overflowed o).

(** The counter an event kind selects, as a getter and a setter. *)
Definition observation_counter (kind : observation_kind)
    : option ((execution_observation → Z) * (Z → execution_observation → execution_observation)) :=
  match kind with
  | YVEX_CORE_OBSERVE_SOURCE_HEADER =>
      Some (source_headers_read, λ v o, o <| source_headers_read := v |>)
  | YVEX_CORE_OBSERVE_SOURCE_PAYLOAD_BYTES =>
      Some (source_payload_bytes_read, λ v o, o <| source_payload_bytes_read := v |>)
  | YVEX_CORE_OBSERVE_TRANSFORM_PLAN =>
      Some (transform_plans_built, λ v o, o <| transform_plans_built := v |>)
  | YVEX_CORE_OBSERVE_QUANT_PLAN =>
      Some (quant_plans_built, λ v o, o <| quant_plans_built := v |>)
  | YVEX_CORE_OBSERVE_WRITER_PLAN =>
      Some (writer_plans_built, λ v o, o <| writer_plans_built := v |>)
  | YVEX_CORE_OBSERVE_COUNT => None
  end.

(** src/src/core/status.c, [yvex_core_execution_observation_record] *)
Definition yvex_core_execution_observation_record (kind : observation_kind) (amount : Z)
    (observation : execution_observation) : execution_observation :=
  match observation_counter kind with
  | None => observation <| observation_overflowed := true |>
  | Some (get, put) =>
      if ULLONG_MAX - amount <? get observation
      then observation <| observation_overflowed := true |>
      else put (get observation + amount) observation
  end.

(** src/src/core/status.c, [yvex_core_execution_observation_delta] *)
Definition yvex_core_execution_observation_delta (before after : execution_observation)
    : option execution_observation :=
  if observation_overflowed before || observation_overflowed after then None
  else if (source_headers_read after <? source_headers_read before)
       || (source_payload_bytes_read after <? source_payload_bytes_read before)
       || (transform_plans_built after <? transform_plans_built before)
       || (quant_plans_built after <? quant_plans_built before)
       || (writer_plans_built after <? writer_plans_built before)
  then None
  else Some (ExecutionObservation
    (source_headers_read after - source_headers_read before)
    (source_payload_bytes_read after - source_payload_bytes_read before)
    (transform_plans_built after - transform_plans_built before)
    (quant_plans_built after - quant_plans_built before)
    (writer_plans_built after - writer_plans_built before)
    false).

(** Record a sequence of events, oldest first. *)
Definition record_events (events : list (observation_kind * Z)) (o : execution_observation) :=
  fold_left (λ o '(kind, amount), yvex_core_execution_observation_record kind amount o) events o.

(** The amount a sequence of events adds to the counter of [kind]. *)
Fixpoint events_total (kind : observation_kind) (events : list (observation_kind * Z)) : Z :=
  match events with
  | [] => 0
  | (k, amount) :: events =>
      (if bool_decide (kind = k) then amount else 0) + events_total kind events
  end.

(** * Bounded byte arena *)

Record yvex_core_bytes := CoreBytes {
  bytes_data : list Z;          (** the [count] bytes in use *)
  bytes_capacity : Z;
  bytes_maximum : Z;
  bytes_initial_capacity : Z;
}.

#[export] Instance yvex_core_bytes_eta : Eta yvex_core_bytes := λ b,
  CoreBytes (bytes_data b) (bytes_capacity b) (bytes_maximum b) (bytes_initial_capacity b).

Definition bytes_count (b : yvex_core_bytes) : Z := Z.of_nat (length (bytes_data b)).

(** The doubling loop of [yvex_core_bytes_reserve]; 64 rounds reach every [size_t]. *)
Fixpoint bytes_grow (fuel : nat) (maximum required capacity : Z) : Z :=
  match fuel with
  | O => capacity
  | S fuel =>
      if capacity <? required then
        if maximum / 2 <? capacity then maximum
        else bytes_grow fuel maximum required (capacity * 2)
      else capacity
  end.

(** src/include/yvex/internal/core.h, [yvex_core_bytes_reserve]
    [realloc_ok] is what [realloc] answers. [None] is the C result 0, with the arena unchanged. *)
Definition yvex_core_bytes_reserve (realloc_ok : bool) (bytes : yvex_core_bytes) (additional : Z)
    : option yvex_core_bytes :=
  if SIZE_MAX - bytes_count bytes <? additional then None
  else
    let required := bytes_count bytes + additional in
    if bytes_maximum bytes <? required then None
    else if required <=? bytes_capacity bytes then Some bytes
    else
      let capacity :=
        if bytes_capacity bytes =? 0 then bytes_initial_capacity bytes else bytes_capacity bytes in
      let capacity := if capacity =? 0 then 1 else capacity in
      let capacity := bytes_grow 64 (bytes_maximum bytes) required capacity in
      if capacity <? required then None
      else if negb realloc_ok then None
      else Some (bytes <| bytes_capacity := capacity |>).

(** src/include/yvex/internal/core.h, [yvex_core_bytes_append] *)
Definition yvex_core_bytes_append (realloc_ok : bool) (bytes : yvex_core_bytes) (data : list Z)
    : option yvex_core_bytes :=
  bytes ← yvex_core_bytes_reserve realloc_ok bytes (Z.of_nat (length data));
  Some (bytes <| bytes_data ::= λ d, d ++ data |>).

(** src/include/yvex/internal/core.h, [yvex_core_bytes_append_zero] *)
Definition yvex_core_bytes_append_zero (realloc_ok : bool) (bytes : yvex_core_bytes) (count : nat)
    : option yvex_core_bytes :=
  bytes ← yvex_core_bytes_reserve realloc_ok bytes (Z.of_nat count);
  Some (bytes <| bytes_data ::= λ d, d ++ replicate count 0 |>).

(** The arena is never larger than its allocation, nor the allocation than the budget. *)
Record bytes_wf (b : yvex_core_bytes) : Prop := BytesWf {
  bytes_wf_count : bytes_count b ≤ bytes_capacity b;
  bytes_wf_capacity : bytes_capacity b ≤ bytes_maximum b;
  bytes_wf_maximum : is_u64 (bytes_maximum b);
  bytes_wf_initial : 0 ≤ bytes_initial_capacity b ≤ bytes_maximum b;
}.

(** * Index hashes and table capacities *)

(** src/include/yvex/internal/core.h, [yvex_core_hash_mix_bytes]: FNV-1a. *)
Definition yvex_core_hash_mix_bytes (hash : Z) (data : list Z) : Z :=
  fold_left (λ h b, u64 (Z.lxor h b * 1099511628211)) data hash.

(** src/include/yvex/internal/core.h, [yvex_core_hash_mix_u64] *)
Definition yvex_core_hash_mix_u64 (hash value : Z) : Z :=
  yvex_core_hash_mix_bytes hash (le_bytes 8 value).

(** src/include/yvex/internal/core.h, [yvex_core_index_hash] *)
Definition yvex_core_index_hash (text : option string) : Z :=
  let hash := yvex_core_hash_mix_bytes 1469598103934665603 (cstr (default ""%string text)) in
  if hash =? 0 then 1 else hash.

(** The doubling loop of [yvex_core_power_of_two_capacity]; the guard refuses before the 64-bit
    capacity wraps, so 64 rounds are enough. *)
Fixpoint capacity_grow (fuel : nat) (capacity required : Z) : option Z :=
  match fuel with
  | O => None
  | S fuel =>
      if capacity <? required then
        if ULLONG_MAX / 2 <? capacity then None
        else capacity_grow fuel (capacity * 2) required
      else Some capacity
  end.

(** src/include/yvex/internal/core.h, [yvex_core_power_of_two_capacity] *)
Definition yvex_core_power_of_two_capacity
    (count minimum load_numerator load_denominator : Z) : option Z :=
  if (minimum =? 0) || negb (Z.land minimum (minimum - 1) =? 0) || (load_numerator =? 0)
     || (load_denominator =? 0) || (negb (count =? 0) && (ULLONG_MAX / count <? load_denominator))
  then None
  else
    let scaled := count * load_denominator in
    let required := scaled / load_numerator +
                    (if scaled mod load_numerator =? 0 then 0 else 1) in
    capacity_grow 65 minimum required.

(** ** Facts about the loops *)

Lemma capacity_grow_spec fuel e required :
  0 ≤ e ≤ 63 → is_u64 required → 63 - e < Z.of_nat fuel →
  match capacity_grow fuel (2 ^ e) required with
  | Some c => ∃ k, e ≤ k ≤ 63 ∧ c = 2 ^ k ∧ required ≤ c ∧ (c = 2 ^ e ∨ c < 2 * required)
  | None => 2 ^ 63 < required
  end.
Proof.
  revert e. induction fuel as [|fuel IH]; intros e He Hr Hf; [lia|]. cbn [capacity_grow].
  destruct (Z.ltb_spec (2 ^ e) required) as [Hlt|Hge].
  - destruct (Z.ltb_spec (ULLONG_MAX / 2) (2 ^ e)) as [Hbig|Hsmall].
    + assert (e = 63) as ->; [|done]. destruct (Z.eq_dec e 63); [done|].
      assert (2 ^ e ≤ 2 ^ 62) by (apply Z.pow_le_mono_r; lia).
      change (2 ^ 62) with 4611686018427387904 in *.
      change (ULLONG_MAX / 2) with 9223372036854775807 in Hbig. lia.
    + assert (e < 63).
      { destruct (Z.eq_dec e 63) as [->|]; [|lia].
        change (2 ^ 63) with 9223372036854775808 in *.
        change (ULLONG_MAX / 2) with 9223372036854775807 in Hsmall. lia. }
      replace (2 ^ e * 2) with (2 ^ (e + 1)) by (rewrite Z.pow_add_r; lia).
      specialize (IH (e + 1) ltac:(lia) Hr ltac:(lia)).
      destruct (capacity_grow fuel (2 ^ (e + 1)) required) as [c|]; [|done].
      destruct IH as (k & ? & -> & ? & Hmin). exists k. split; [lia|]. split_and!; [done..|].
      right. destruct Hmin as [->|]; [|done]. rewrite Z.pow_add_r by lia. lia.
  - exists e. split_and!; [lia..|done|done|by left].
Qed.

Lemma bytes_grow_spec fuel e maximum required capacity :
  0 < capacity → 0 ≤ e → 2 ^ e ≤ capacity → required ≤ 2 ^ (e + Z.of_nat fuel) →
  required ≤ maximum → capacity ≤ maximum →
  required ≤ bytes_grow fuel maximum required capacity ≤ maximum.
Proof.
  revert e capacity. induction fuel as [|fuel IH]; intros e capacity Hc He Hpow Hreq Hmax Hcm;
    cbn [bytes_grow].
  - rewrite Z.add_0_r in Hreq. lia.
  - destruct (Z.ltb_spec capacity required); [|lia].
    destruct (Z.ltb_spec (maximum / 2) capacity) as [|Hhalf]; [lia|].
    apply (IH (e + 1)); try lia.
    + rewrite Z.pow_add_r by lia. lia.
    + replace (e + 1 + Z.of_nat fuel) with (e + Z.of_nat (S fuel)) by lia. done.
    + pose proof (Z.div_mod maximum 2). pose proof (Z.mod_pos_bound maximum 2). lia.
Qed.

Lemma land_pred_pow2 m : 0 < m → Z.land m (m - 1) = 0 → m = 2 ^ Z.log2 m.
Proof.
  intros Hm Hl. pose proof (Z.log2_spec m Hm) as [Hlo Hhi]. set (k := Z.log2 m) in *.
  assert (0 ≤ k) by apply Z.log2_nonneg.
  destruct (Z.eq_dec m (2 ^ k)) as [|Hne]; [done|]. exfalso.
  assert (Z.testbit (Z.land m (m - 1)) k = true); [|rewrite Hl, Z.bits_0 in *; done].
  rewrite Z.land_spec. apply andb_true_intro. unfold k. split; [by apply Z.bit_log2|].
  replace (Z.log2 m) with (Z.log2 (m - 1)).
  - apply Z.bit_log2. pose proof (Z.pow_pos_nonneg 2 k). lia.
  - apply Z.log2_unique; [lia|]. fold k. lia.
Qed.

(** The smallest integer that is at least [n / d]. *)
Lemma ceil_div_spec n d c :
  0 ≤ n → 0 < d → n / d + (if n mod d =? 0 then 0 else 1) ≤ c ↔ n ≤ c * d.
Proof.
  intros Hn Hd. pose proof (Z.div_mod n d). pose proof (Z.mod_pos_bound n d).
  destruct (Z.eqb_spec (n mod d) 0); split; intros; nia.
Qed.

(** The arguments [yvex_core_power_of_two_capacity] refuses. *)
Definition capacity_request_bad (count minimum num den : Z) : Prop :=
  minimum = 0 ∨ Z.land minimum (minimum - 1) ≠ 0 ∨ num = 0 ∨ den = 0 ∨ ULLONG_MAX < count * den.

(** The table capacity the code derives is the least power of two, at or above the minimum,
    that keeps [count] entries within the load ratio; it is refused exactly for a malformed
    request, an overflowing product, or a table that would need more than 2^63 slots. *)
Theorem power_of_two_capacity_correct count minimum num den :
  is_u64 count → is_u64 minimum → is_u64 num → is_u64 den →
  match yvex_core_power_of_two_capacity count minimum num den with
  | Some c =>
      ¬ capacity_request_bad count minimum num den ∧
      (∃ k, 0 ≤ k ≤ 63 ∧ c = 2 ^ k) ∧ minimum ≤ c ∧ count * den ≤ c * num ∧
      (∀ k, 0 ≤ k → minimum ≤ 2 ^ k → count * den ≤ 2 ^ k * num → c ≤ 2 ^ k)
  | None =>
      capacity_request_bad count minimum num den ∨ 2 ^ 63 * num < count * den
  end.
Proof.
  intros Hc Hm Hn Hd. unfold yvex_core_power_of_two_capacity.
  destruct (_ || _ || _ || _ || _) eqn:E; guards.
  { left. unfold capacity_request_bad.
    destruct E as [[[[E|E]|E]|E]|[E1 E2]]; try tauto.
    right; right; right; right. apply u64_div_max_lt in E2; [done|]. ulia. }
  assert (Hok : ¬ ULLONG_MAX < count * den).
  { destruct (Z.eq_dec count 0) as [->|]; [ulia|].
    match goal with H : count = 0 ∨ _ |- _ => destruct H as [?|H]; [done|];
      rewrite Z.le_ngt, u64_div_max_lt in H by ulia; exact H end. }
  assert (0 ≤ count * den) by (unfold is_u64 in *; nia).
  assert (Hnb : ¬ capacity_request_bad count minimum num den).
  { unfold capacity_request_bad. tauto. }
  set (e := Z.log2 minimum). set (req := _ + _).
  assert (Hpow : minimum = 2 ^ e) by (apply land_pred_pow2; [unfold is_u64 in *; lia|done]).
  assert (Hreq : ∀ c, req ≤ c ↔ count * den ≤ c * num).
  { intros c. apply ceil_div_spec; unfold is_u64 in *; lia. }
  assert (0 ≤ e ≤ 63).
  { split; [apply Z.log2_nonneg|]. apply Z.lt_succ_r, Z.log2_lt_pow2; [unfold is_u64 in *; lia|].
    change (2 ^ Z.succ 63) with (ULLONG_MAX + 1). ulia. }
  assert (is_u64 req).
  { split.
    - unfold req. pose proof (Z.div_pos (count * den) num). case_match; unfold is_u64 in *; lia.
    - apply Hreq. unfold is_u64 in *. nia. }
  pose proof (capacity_grow_spec 65 e req ltac:(done) ltac:(done) ltac:(lia)) as G.
  rewrite <- Hpow in G. destruct (capacity_grow 65 minimum req) as [c|].
  - destruct G as (k & Hk & -> & Hge & Hmin).
    split; [done|]. split; [exists k; split; [lia|done]|].
    split; [rewrite Hpow; apply Z.pow_le_mono_r; lia|]. split; [by apply Hreq|].
    intros j Hj Hej Hcj. destruct Hmin as [->|Hmin]; [done|].
    apply Hreq in Hcj. apply Z.pow_le_mono_r; [lia|].
    destruct (Z.le_gt_cases k j); [done|].
    assert (2 ^ (j + 1) ≤ 2 ^ k) by (apply Z.pow_le_mono_r; lia).
    rewrite Z.pow_add_r in * by lia. lia.
  - right. destruct (Z.lt_ge_cases (2 ^ 63 * num) (count * den)) as [|Hle]; [done|].
    apply Hreq in Hle. lia.
Qed.

Lemma power_of_two_capacity_correct_witness :
  yvex_core_power_of_two_capacity 100 16 3 4 = Some 256 ∧ 16 ≤ 256 ∧ 100 * 4 ≤ 256 * 3.
Proof.
  pose proof (power_of_two_capacity_correct 100 16 3 4 ltac:(ulia) ltac:(ulia) ltac:(ulia)
    ltac:(ulia)) as (_ & _ & ? & ? & _).
  split; [vm_compute; reflexivity|]. split; assumption.
Defined.

(** Reserving room in the byte arena succeeds exactly when the request fits the budget (and
    the allocator answers when the arena must grow), keeps the bytes in use, leaves the arena well
    formed and makes the requested room available. *)
Theorem bytes_reserve_correct realloc_ok b additional :
  bytes_wf b → is_u64 additional →
  match yvex_core_bytes_reserve realloc_ok b additional with
  | Some b' =>
      bytes_wf b' ∧ bytes_data b' = bytes_data b ∧ bytes_maximum b' = bytes_maximum b ∧
      bytes_count b + additional ≤ bytes_capacity b'
  | None =>
      bytes_maximum b < bytes_count b + additional ∨
      (realloc_ok = false ∧ bytes_capacity b < bytes_count b + additional)
  end.
Proof.
  intros [Hcount Hcap Hmax Hinit] Ha. unfold yvex_core_bytes_reserve.
  assert (0 ≤ bytes_count b) by (unfold bytes_count; lia).
  destruct (Z.ltb_spec (SIZE_MAX - bytes_count b) additional); [left; ulia|].
  destruct (Z.ltb_spec (bytes_maximum b) (bytes_count b + additional)); [by left|].
  destruct (Z.leb_spec (bytes_count b + additional) (bytes_capacity b)).
  { split_and!; done. }
  set (c0 := if bytes_capacity b =? 0 then _ else _).
  set (c := if c0 =? 0 then 1 else c0).
  assert (0 < c ∧ c ≤ bytes_maximum b) as [Hc Hcm].
  { unfold c, c0. destruct (Z.eqb_spec (bytes_capacity b) 0); [|destruct (Z.eqb_spec (bytes_capacity b) 0); lia].
    destruct (Z.eqb_spec (bytes_initial_capacity b) 0); lia. }
  assert (bytes_count b + additional ≤ 2 ^ (0 + Z.of_nat 64)).
  { change (2 ^ (0 + Z.of_nat 64)) with (ULLONG_MAX + 1). ulia. }
  pose proof (bytes_grow_spec 64 0 (bytes_maximum b) (bytes_count b + additional) c
    ltac:(lia) ltac:(lia) ltac:(lia) ltac:(done) ltac:(lia) ltac:(lia)) as G.
  set (grown := bytes_grow _ _ _ _) in *. clearbody grown c.
  destruct (Z.ltb_spec grown (bytes_count b + additional)); [lia|].
  destruct realloc_ok; [|by right].
  split_and!; [|done..|cbn; lia].
  constructor; unfold bytes_count in *; cbn; lia || done.
Qed.

Lemma bytes_reserve_correct_witness :
  let b := CoreBytes [7; 8; 9] 3 100 16 in
  yvex_core_bytes_reserve true b 20 = Some (CoreBytes [7; 8; 9] 24 100 16) ∧ 3 + 20 ≤ 24.
Proof.
  intros b.
  assert (Hb : bytes_wf b) by (constructor; vm_compute; intuition discriminate).
  pose proof (bytes_reserve_correct true b 20 Hb ltac:(ulia)) as (_ & _ & _ & H).
  split; [vm_compute; reflexivity|exact H].
Defined.

(** ** Observation counters *)

(** The five counters in declaration order. *)
Definition counters (o : execution_observation) : list Z :=
  [source_headers_read o; source_payload_bytes_read o; transform_plans_built o;
   quant_plans_built o; writer_plans_built o].

Definition counter_totals (events : list (observation_kind * Z)) : list Z :=
  (λ kind, events_total kind events) <$>
    [YVEX_CORE_OBSERVE_SOURCE_HEADER; YVEX_CORE_OBSERVE_SOURCE_PAYLOAD_BYTES;
     YVEX_CORE_OBSERVE_TRANSFORM_PLAN; YVEX_CORE_OBSERVE_QUANT_PLAN;
     YVEX_CORE_OBSERVE_WRITER_PLAN].

Lemma observation_record_exact kind amount o :
  observation_overflowed (yvex_core_execution_observation_record kind amount o) = false →
  observation_overflowed o = false ∧
  counters (yvex_core_execution_observation_record kind amount o) =
    zip_with Z.add (counter_totals [(kind, amount)]) (counters o).
Proof.
  unfold yvex_core_execution_observation_record. destruct kind; simpl; try case_match;
    simpl; intros Ho; try done; (split; [done|]); cbv [counters counter_totals]; simpl; list_lia.
Qed.

Lemma counters_record_events events o :
  observation_overflowed (record_events events o) = false →
  observation_overflowed o = false ∧
  counters (record_events events o) = zip_with Z.add (counter_totals events) (counters o).
Proof.
  unfold record_events. revert o. induction events as [|[kind amount] events IH]; intros o Ho.
  { split; [done|]. cbn. list_lia. }
  cbn [fold_left] in *. apply IH in Ho as [Ho ->]. apply observation_record_exact in Ho as [Ho ->].
  split; [done|]. destruct kind; cbn -[events_total Z.add]; cbn [events_total bool_decide]; list_lia.
Qed.

(** Two snapshots taken around any sequence of observed events, with no counter overflowing,
    give a delta that is exactly the amount of each kind of event in between. *)
Theorem observation_delta_exact events before :
  Forall (λ '(_, amount), 0 ≤ amount) events →
  let after := record_events events before in
  observation_overflowed after = false →
  ∃ delta, yvex_core_execution_observation_delta before after = Some delta ∧
    counters delta = counter_totals events ∧ observation_overflowed delta = false.
Proof.
  intros Hpos after Hover. unfold after in *. apply counters_record_events in Hover as Hc.
  destruct Hc as [Hb Hc].
  assert (Hnn : ∀ kind, 0 ≤ events_total kind events).
  { intros kind. clear -Hpos. induction Hpos as [|[k a] l Ha _ IH]; simpl; [done|].
    case_match; lia. }
  destruct before, (record_events events _) as [a1 a2 a3 a4 a5 a6]. cbn in Hc, Hb, Hover.
  injection Hc as E1 E2 E3 E4 E5. subst.
  unfold yvex_core_execution_observation_delta; cbn.
  repeat match goal with |- context [?x <? ?y] => destruct (Z.ltb_spec x y) end;
    try (pose proof (Hnn YVEX_CORE_OBSERVE_SOURCE_HEADER);
         pose proof (Hnn YVEX_CORE_OBSERVE_SOURCE_PAYLOAD_BYTES);
         pose proof (Hnn YVEX_CORE_OBSERVE_TRANSFORM_PLAN);
         pose proof (Hnn YVEX_CORE_OBSERVE_QUANT_PLAN);
         pose proof (Hnn YVEX_CORE_OBSERVE_WRITER_PLAN); lia).
  eexists; split; [reflexivity|]. split; [|done].
  cbv [counters counter_totals]; cbn -[events_total]; list_lia.
Qed.

Lemma observation_delta_exact_witness :
  let events := [(YVEX_CORE_OBSERVE_QUANT_PLAN, 2); (YVEX_CORE_OBSERVE_SOURCE_HEADER, 5);
                 (YVEX_CORE_OBSERVE_QUANT_PLAN, 1)] in
  let before := ExecutionObservation 10 0 0 4 0 false in
  ∃ delta, yvex_core_execution_observation_delta before (record_events events before) = Some delta
    ∧ counters delta = [5; 0; 0; 3; 0] ∧ observation_overflowed delta = false.
Proof.
  intros events before.
  apply (observation_delta_exact events before); [repeat constructor; lia|reflexivity].
Defined.
