(* ===== verification/Exec.v ===== *)
(** Imperative C code over arrays: a run that may fault, refuse or finish, checked array accesses,
    and counted loops with an invariant rule.

    [None] is an access outside an array (undefined behaviour in C), so a theorem that a run is
    [Some _] is a memory-safety theorem. [Some (Refused status reason)] is an early return. *)

From S2P Require Import Prelude Status.

(** * Runs *)

Definition run (A : Type) : Type := option (outcome A).

Definition run_ret {A} (a : A) : run A := Some (Done a).
Definition run_refuse {A} (status : yvex_status) (reason : string) : run A :=
  Some (Refused status reason).
Definition run_bind {A B} (m : run A) (f : A → run B) : run B :=
  match m with
  | None => None
  | Some (Refused status reason) => Some (Refused status reason)
  | Some (Done a) => f a
  end.
(** An access that may fall outside its array. *)
Definition run_access {A} (m : option A) : run A :=
  match m with Some a => Some (Done a) | None => None end.

Notation "'let!' x := m 'in' k" := (run_bind m (λ x, k))
  (at level 10, x pattern, m at level 100, k at level 200) : stdpp_scope.
(** Leave with a refusal when the guard holds. *)
Notation "'refuse_when' b 'with' s r ; k" := (if b then run_refuse s r else k)
  (at level 10, b at level 99, s at level 9, r at level 9, k at level 200) : stdpp_scope.

Lemma run_bind_done {A B} (m : run A) (f : A → run B) a :
  m = Some (Done a) → run_bind m f = f a.
Proof. by intros ->. Qed.

Lemma run_bind_inv {A B} (m : run A) (f : A → run B) b :
  run_bind m f = Some (Done b) → ∃ a, m = Some (Done a) ∧ f a = Some (Done b).
Proof. destruct m as [[a|]|]; simpl; [|done..]. by exists a. Qed.

(** * Arrays *)

Definition array_get {A} (l : list A) (i : Z) : option A :=
  if i <? 0 then None else l !! Z.to_nat i.

Definition array_set {A} (l : list A) (i : Z) (v : A) : option (list A) :=
  if (0 <=? i) && (i <? Z.of_nat (length l)) then Some (<[Z.to_nat i := v]> l) else None.

Lemma array_get_nat {A} (l : list A) (i : nat) : array_get l (Z.of_nat i) = l !! i.
Proof. unfold array_get. destruct (Z.ltb_spec (Z.of_nat i) 0); [lia|]. by rewrite Nat2Z.id. Qed.

Lemma array_get_is_Some {A} (l : list A) i : 0 ≤ i < Z.of_nat (length l) → is_Some (array_get l i).
Proof.
  intros H. unfold array_get. destruct (Z.ltb_spec i 0); [lia|]. apply lookup_lt_is_Some. lia.
Qed.

Lemma array_get_Some {A} (l : list A) i x :
  array_get l i = Some x → 0 ≤ i < Z.of_nat (length l) ∧ l !! Z.to_nat i = Some x.
Proof.
  unfold array_get. destruct (Z.ltb_spec i 0); [done|]. intros E.
  pose proof (lookup_lt_Some _ _ _ E). split; [lia|done].
Qed.

Lemma array_set_inside {A} (l : list A) i v :
  0 ≤ i < Z.of_nat (length l) → array_set l i v = Some (<[Z.to_nat i := v]> l).
Proof.
  intros Hi. unfold array_set. by rewrite (proj2 (andb_true_iff _ _)) by (rewrite Z.leb_le, Z.ltb_lt; lia).
Qed.

Lemma array_get_after_set {A} (l : list A) i j v :
  0 ≤ i < Z.of_nat (length l) →
  array_get (<[Z.to_nat i := v]> l) j = if decide (j = i) then Some v else array_get l j.
Proof.
  intros Hi. unfold array_get. destruct (Z.ltb_spec j 0); case_decide; try done; [lia| |].
  - subst. apply list_lookup_insert_eq. lia.
  - apply list_lookup_insert_ne. lia.
Qed.

(** The first [n] cells, read one after another. *)
Lemma array_prefix {A} (l : list A) n :
  n ≤ Z.of_nat (length l) → mapM (array_get l) (seqZ 0 n) = Some (take (Z.to_nat n) l).
Proof.
  intros Hn. apply mapM_Some. apply Forall2_same_length_lookup. rewrite length_seqZ, length_take. split; [lia|].
  intros i j x Ei Ex. apply lookup_seqZ in Ei as [-> Hi]. apply lookup_take_Some in Ex as [Ex _].
  by rewrite Z.add_0_l, array_get_nat.
Qed.

(** A table of [n] computed cells. *)
Lemma table_get {A} (f : Z → A) n i : 0 ≤ i < n → array_get (f <$> seqZ 0 n) i = Some (f i).
Proof.
  intros Hi. unfold array_get. destruct (Z.ltb_spec i 0); [lia|]. rewrite list_lookup_fmap.
  rewrite (proj2 (lookup_seqZ 0 n (Z.to_nat i) i)); [done|lia].
Qed.

Lemma table_set {A} (f : Z → A) n i v :
  0 ≤ i < n →
  array_set (f <$> seqZ 0 n) i v = Some ((λ j, if j =? i then v else f j) <$> seqZ 0 n).
Proof.
  intros Hi. unfold array_set. rewrite length_fmap, length_seqZ.
  rewrite (proj2 (andb_true_iff _ _)) by (rewrite Z.leb_le, Z.ltb_lt; lia). f_equal.
  apply list_eq. intros k. rewrite list_lookup_insert, length_fmap, length_seqZ, !list_lookup_fmap.
  destruct (seqZ 0 n !! k) as [j|] eqn:Ej.
  - apply lookup_seqZ in Ej. cbn [fmap option_fmap option_map].
    destruct (Z.eqb_spec j i); [rewrite decide_True by lia|rewrite decide_False by lia]; done.
  - rewrite decide_False; [done|]. apply lookup_ge_None in Ej. rewrite length_seqZ in Ej. lia.
Qed.

(** [arr] starts with [xs]: what a fill loop has written so far. *)
Definition starts_with {A} (arr xs : list A) : Prop := xs `prefix_of` arr.

Lemma array_push {A} (arr xs : list A) v :
  starts_with arr xs → (length xs < length arr)%nat →
  ∃ arr', array_set arr (Z.of_nat (length xs)) v = Some arr' ∧
    starts_with arr' (xs ++ [v]) ∧ length arr' = length arr.
Proof.
  intros [ys ->] Hlen. rewrite length_app in Hlen. unfold array_set.
  destruct ys as [|y ys]; [simpl in Hlen; lia|].
  eexists. split; [|split].
  - rewrite (proj2 (andb_true_iff _ _)); [done|].
    rewrite Z.leb_le, Z.ltb_lt, length_app. simpl. lia.
  - rewrite Nat2Z.id, insert_app_r_alt, Nat.sub_diag by done. simpl.
    exists ys. by rewrite <- (assoc_L (++)).
  - by rewrite length_insert.
Qed.

Lemma array_get_starts {A} (arr xs : list A) i x :
  starts_with arr xs → xs !! i = Some x → array_get arr (Z.of_nat i) = Some x.
Proof. intros [ys ->] E. rewrite array_get_nat. by apply lookup_app_l_Some. Qed.

Lemma starts_with_get {A} (arr xs : list A) x :
  starts_with arr xs → array_get arr (Z.of_nat (length xs)) = Some x → starts_with arr (xs ++ [x]).
Proof.
  intros [ys ->] E. rewrite array_get_nat, lookup_app_r, Nat.sub_diag in E by done.
  destruct ys as [|y ys]; [done|]. injection E as ->. exists ys. by rewrite <- (assoc_L (++)).
Qed.

Lemma run_access_inv {A B} (m : option A) (f : A → run B) b :
  run_bind (run_access m) f = Some (Done b) → ∃ a, m = Some a ∧ f a = Some (Done b).
Proof. destruct m; [|done]. eauto. Qed.

Lemma refuse_when_inv {B} (g : bool) st why (k : run B) b :
  (refuse_when g with st why; k) = Some (Done b) → g = false ∧ k = Some (Done b).
Proof. by destruct g. Qed.

(** * Counted loops *)

(** [for (x in l) s = body(x, s)] with early exits. *)
Fixpoint for_each {A S} (body : A → S → run S) (l : list A) (s : S) : run S :=
  match l with
  | [] => run_ret s
  | x :: l => let! s := body x s in for_each body l s
  end.

(** [for (i = lo; i < hi; ++i)] *)
Definition for_range {S} (lo hi : Z) (body : Z → S → run S) (s : S) : run S :=
  for_each body (seqZ lo (hi - lo)) s.

Section loops.
Context {A S : Type} (body : A → S → run S).

Lemma for_each_app l m s :
  for_each body (l ++ m) s = let! s := for_each body l s in for_each body m s.
Proof.
  revert s. induction l as [|x l IH]; intros s; [done|]. simpl.
  destruct (body x s) as [[s'|]|]; simpl; auto.
Qed.

(** The invariant speaks of the elements processed so far. *)
Lemma for_each_invariant (I : list A → S → Prop) l s :
  I [] s →
  (∀ done_ x todo s, l = done_ ++ x :: todo → I done_ s →
     ∃ s', body x s = Some (Done s') ∧ I (done_ ++ [x]) s') →
  ∃ s', for_each body l s = Some (Done s') ∧ I l s'.
Proof.
  intros H0 Hstep. cut (∀ todo done_ s, l = done_ ++ todo → I done_ s →
    ∃ s', for_each body todo s = Some (Done s') ∧ I l s').
  { intros H. by apply (H l []). }
  induction todo as [|x todo IH]; intros done_ s' -> HI.
  - exists s'. split; [done|]. by rewrite app_nil_r.
  - destruct (Hstep done_ x todo s') as (s'' & E & HI'); [done..|].
    simpl. rewrite E. simpl. apply (IH (done_ ++ [x])); [|done]. by rewrite <- (assoc_L (++)).
Qed.

(** A loop whose body refuses at some element, after bodies that finish, refuses. *)
Lemma for_each_refuses (I : list A → S → Prop) l x m s st why :
  I [] s →
  (∀ done_ y todo s, l = done_ ++ y :: todo → I done_ s →
     ∃ s', body y s = Some (Done s') ∧ I (done_ ++ [y]) s') →
  (∀ s, I l s → body x s = Some (Refused st why)) →
  for_each body (l ++ x :: m) s = Some (Refused st why).
Proof.
  intros H0 Hstep Hx. rewrite for_each_app.
  destruct (for_each_invariant I l s H0 Hstep) as (s' & -> & HI). simpl. by rewrite Hx.
Qed.

(** An invariant of the elements processed so far, for a run that finished. *)
Lemma for_each_done (I : list A → S → Prop) l s s' :
  I [] s →
  (∀ done_ x todo s s', l = done_ ++ x :: todo → I done_ s → body x s = Some (Done s') →
     I (done_ ++ [x]) s') →
  for_each body l s = Some (Done s') → I l s'.
Proof.
  intros H0 Hstep. cut (∀ todo done_ s, l = done_ ++ todo → I done_ s →
    for_each body todo s = Some (Done s') → I l s').
  { intros H. by apply (H l []). }
  induction todo as [|x todo IH]; intros done_ s1 -> HI; simpl.
  - intros [= <-]. by rewrite app_nil_r.
  - intros (s2 & E1 & E2)%run_bind_inv. apply (IH (done_ ++ [x]) s2); [by rewrite <- (assoc_L (++))| |done].
    by eapply Hstep.
Qed.

(** Bodies that finish or refuse, never fault: so does the loop, and it refuses where a body does. *)
Lemma for_each_outcome (I : list A → S → Prop) (R : list A → A → yvex_status → string → Prop) l s :
  I [] s →
  (∀ done_ x todo s, l = done_ ++ x :: todo → I done_ s →
     (∃ s', body x s = Some (Done s') ∧ I (done_ ++ [x]) s') ∨
     (∃ st why, body x s = Some (Refused st why) ∧ R done_ x st why)) →
  (∃ s', for_each body l s = Some (Done s') ∧ I l s') ∨
  (∃ done_ x todo st why, l = done_ ++ x :: todo ∧ for_each body l s = Some (Refused st why) ∧ R done_ x st why).
Proof.
  intros H0 Hstep. cut (∀ todo done_ s, l = done_ ++ todo → I done_ s →
    (∃ s', for_each body todo s = Some (Done s') ∧ I l s') ∨
    (∃ done_ x rest st why, l = done_ ++ x :: rest ∧ for_each body todo s = Some (Refused st why) ∧ R done_ x st why)).
  { intros H. by apply (H l []). }
  induction todo as [|x todo IH]; intros done_ s1 -> HI.
  - left. exists s1. split; [done|]. by rewrite app_nil_r.
  - simpl. destruct (Hstep done_ x todo s1) as [(s2 & -> & HI2)|(st & why & -> & HR)]; [done..| |].
    + simpl. apply (IH (done_ ++ [x])); [by rewrite <- (assoc_L (++))|done].
    + right. by exists done_, x, todo, st, why.
Qed.

(** What a finished run preserves. *)
Lemma for_each_preserves (I : S → Prop) l s s' :
  (∀ x s s', x ∈ l → I s → body x s = Some (Done s') → I s') →
  I s → for_each body l s = Some (Done s') → I s'.
Proof.
  revert s. induction l as [|x l IH]; intros s Hb Hs; simpl.
  - by intros [= <-].
  - intros (s1 & E1 & E2)%run_bind_inv. apply (IH s1); [|by apply (Hb x s s1); [apply list_elem_of_here|..]|exact E2].
    intros x' s2 s3 Hx. apply Hb. by apply list_elem_of_further.
Qed.
End loops.

Lemma seqZ_split lo n done_ x todo :
  seqZ lo n = done_ ++ x :: todo →
  x = lo + Z.of_nat (length done_) ∧ lo ≤ x < lo + n ∧ done_ = seqZ lo (x - lo).
Proof.
  intros E. assert (Hlen : length (seqZ lo n) = length (done_ ++ x :: todo)) by by rewrite E.
  rewrite length_seqZ, length_app in Hlen. simpl in Hlen.
  assert (Hx : seqZ lo n !! length done_ = Some x) by (rewrite E; by apply list_lookup_middle).
  apply lookup_seqZ in Hx as [-> Hlt]. split; [done|]. split; [lia|].
  replace (lo + Z.of_nat (length done_) - lo) with (Z.of_nat (length done_)) by lia.
  assert (n = Z.of_nat (length done_) + (n - Z.of_nat (length done_))) as Hn by lia.
  rewrite Hn, seqZ_app in E by lia.
  apply app_inj_len in E as [E _]; [done|]. rewrite length_seqZ. lia.
Qed.
