(* ===== verification/Effects.v ===== *)
(** Programs that call back into code outside the development: a free monad over a set of calls, its
    runs against an arbitrary environment, and a program logic over a ghost protocol state.

    A program is a tree of calls; the environment has a state of its own, so a callback may answer
    differently each time. [accepts] verifies a program against a protocol automaton once and for all
    answers; [run_accepts] turns that into a statement about the log of every concrete run. *)

From S2P Require Import Prelude.

(** [E] is the type of calls and [R e] the type of answers to the call [e]. *)
Inductive prog (E : Type) (R : E → Type) (A : Type) : Type :=
  | Ret (a : A)
  | Call (e : E) (k : R e → prog E R A).
Arguments Ret {E R A} a.
Arguments Call {E R A} e k.

Fixpoint prog_bind {E R A B} (p : prog E R A) (f : A → prog E R B) : prog E R B :=
  match p with
  | Ret a => f a
  | Call e k => Call e (λ r, prog_bind (k r) f)
  end.

Definition call {E R} (e : E) : prog E R (R e) := Call e Ret.

Notation "x ⇐ p ; q" := (prog_bind p (λ x, q))
  (at level 20, p at level 100, q at level 200) : stdpp_scope.
Notation "' pat ⇐ p ; q" := (prog_bind p (λ x, match x with pat => q end))
  (at level 20, pat pattern, p at level 100, q at level 200) : stdpp_scope.

Section effects.
Context {E : Type} {R : E → Type}.

(** One logged call: what was asked and what was answered. *)
Definition logged : Type := sigT R.

(** ** Runs *)

Section run.
Context {W : Type} (respond : ∀ e, W → R e * W).

(** The log of calls, the final environment and the result. *)
Fixpoint run_prog {A} (p : prog E R A) (w : W) : list logged * W * A :=
  match p with
  | Ret a => ([], w, a)
  | Call e k =>
      let '(r, w) := respond e w in
      let '(log, w, a) := run_prog (k r) w in
      (existT e r :: log, w, a)
  end.

Definition run_log {A} (p : prog E R A) (w : W) : list logged := (run_prog p w).1.1.
Definition run_world {A} (p : prog E R A) (w : W) : W := (run_prog p w).1.2.
Definition run_result {A} (p : prog E R A) (w : W) : A := (run_prog p w).2.

Lemma run_bind {A B} (p : prog E R A) (f : A → prog E R B) w :
  run_prog (prog_bind p f) w =
    (run_log p w ++ run_log (f (run_result p w)) (run_world p w),
     run_world (f (run_result p w)) (run_world p w), run_result (f (run_result p w)) (run_world p w)).
Proof.
  unfold run_log, run_result, run_world. revert w. induction p as [a|e k IH]; intros w; cbn.
  - by destruct (run_prog (f a) w) as [[??]?].
  - destruct (respond e w) as [r w1]. rewrite IH. by destruct (run_prog (k r) w1) as [[??]?].
Qed.
End run.

(** ** A protocol automaton over calls *)

Section protocol.
Context {G : Type} (step : G → ∀ e, R e → option G).

(** The automaton reads a log. *)
Fixpoint follow (g : G) (log : list logged) : option G :=
  match log with
  | [] => Some g
  | existT e r :: log => match step g e r with Some g => follow g log | None => None end
  end.

Lemma follow_app g l m :
  follow g (l ++ m) = match follow g l with Some g => follow g m | None => None end.
Proof.
  revert g. induction l as [|[e r] l IH]; intros g; [done|]. cbn.
  destruct (step g e r); [apply IH|done].
Qed.

(** From [g], every call of [p] is allowed whatever the answers, and the result satisfies [Q]. *)
Fixpoint accepts {A} (g : G) (p : prog E R A) (Q : A → G → Prop) : Prop :=
  match p with
  | Ret a => Q a g
  | Call e k => ∀ r, match step g e r with Some g => accepts g (k r) Q | None => False end
  end.

Lemma accepts_mono {A} g (p : prog E R A) (P Q : A → G → Prop) :
  accepts g p P → (∀ a g, P a g → Q a g) → accepts g p Q.
Proof.
  intros Hp HPQ. revert g Hp. induction p as [a|e k IH]; intros g Hp; cbn in *; [by apply HPQ|].
  intros r. specialize (Hp r). destruct (step g e r); [by apply IH|done].
Qed.

Lemma accepts_bind {A B} g (p : prog E R A) (f : A → prog E R B) P Q :
  accepts g p P → (∀ a g, P a g → accepts g (f a) Q) → accepts g (prog_bind p f) Q.
Proof.
  intros Hp Hf. revert g Hp. induction p as [a|e k IH]; intros g Hp; cbn in *; [by apply Hf|].
  intros r. specialize (Hp r). destruct (step g e r); [by apply IH|done].
Qed.

Lemma run_accepts {W A} (respond : ∀ e, W → R e * W) g (p : prog E R A) Q w :
  accepts g p Q →
  ∃ g', follow g (run_log respond p w) = Some g' ∧ Q (run_result respond p w) g'.
Proof.
  unfold run_log, run_result. revert g w. induction p as [a|e k IH]; intros g w Hp; cbn in *.
  - by exists g.
  - destruct (respond e w) as [r w1]. specialize (Hp r). destruct (step g e r) as [g1|] eqn:Eg; [|done].
    destruct (IH r g1 w1 Hp) as (g' & Hg' & HQ). exists g'.
    destruct (run_prog respond (k r) w1) as [[log w2] a]. cbn in *. by rewrite Eg.
Qed.
End protocol.

(** ** Runs in a restricted environment *)

Section restricted.
Context (ok : ∀ e, R e → Prop).

(** Whatever the admissible answers, the result satisfies [Q]. *)
Fixpoint ensures {A} (p : prog E R A) (Q : A → Prop) : Prop :=
  match p with
  | Ret a => Q a
  | Call e k => ∀ r, ok e r → ensures (k r) Q
  end.

Lemma ensures_bind {A B} (p : prog E R A) (f : A → prog E R B) P Q :
  ensures p P → (∀ a, P a → ensures (f a) Q) → ensures (prog_bind p f) Q.
Proof.
  intros Hp Hf. induction p as [a|e k IH]; cbn in *; [by apply Hf|].
  intros r Hr. apply IH. by apply Hp.
Qed.

Lemma run_ensures {W A} (respond : ∀ e, W → R e * W) (p : prog E R A) Q w :
  (∀ e w, ok e (respond e w).1) → ensures p Q → Q (run_result respond p w).
Proof.
  intros Hok. unfold run_result. revert w. induction p as [a|e k IH]; intros w Hp; cbn in *; [done|].
  specialize (Hok e w). destruct (respond e w) as [r w1]. specialize (IH r w1 (Hp r Hok)).
  by destruct (run_prog respond (k r) w1) as [[??]?].
Qed.
End restricted.
End effects.

#[global] Arguments logged {E} R.
