(* ===== verification/Sha256.v ===== *)
(** Incremental SHA-256, its hexadecimal projection and the identity-field encodings of
    [src/core/sha256.c]; the one-shot specification they refine. *)

From S2P Require Import Prelude Status.

(** * The compression function *)

(** src/src/core/sha256.c, [sha256_rotate_right] *)
Definition sha256_rotate_right (value bits : Z) : Z :=
  Z.lor (Z.shiftr value bits) (u32 (Z.shiftl value (32 - bits))).

Definition quad (a b c d : Z) : list Z := [a; b; c; d].

(** src/src/core/sha256.c:21-38, [sha256_transform]
    The round constants, four to a group. *)
Definition sha256_constants : list Z :=
  quad 0x428a2f98 0x71374491 0xb5c0fbcf 0xe9b5dba5 ++ quad 0x3956c25b 0x59f111f1 0x923f82a4 0xab1c5ed5 ++
  quad 0xd807aa98 0x12835b01 0x243185be 0x550c7dc3 ++ quad 0x72be5d74 0x80deb1fe 0x9bdc06a7 0xc19bf174 ++
  quad 0xe49b69c1 0xefbe4786 0x0fc19dc6 0x240ca1cc ++ quad 0x2de92c6f 0x4a7484aa 0x5cb0a9dc 0x76f988da ++
  quad 0x983e5152 0xa831c66d 0xb00327c8 0xbf597fc7 ++ quad 0xc6e00bf3 0xd5a79147 0x06ca6351 0x14292967 ++
  quad 0x27b70a85 0x2e1b2138 0x4d2c6dfc 0x53380d13 ++ quad 0x650a7354 0x766a0abb 0x81c2c92e 0x92722c85 ++
  quad 0xa2bfe8a1 0xa81a664b 0xc24b8b70 0xc76c51a3 ++ quad 0xd192e819 0xd6990624 0xf40e3585 0x106aa070 ++
  quad 0x19a4c116 0x1e376c08 0x2748774c 0x34b0bcb5 ++ quad 0x391c0cb3 0x4ed8aa4a 0x5b9cca4f 0x682e6ff3 ++
  quad 0x748f82ee 0x78a5636f 0x84c87814 0x8cc70208 ++ quad 0x90befffa 0xa4506ceb 0xbef9a3f7 0xc67178f2.

Abbreviation word l i := (nth i l 0).

(** The sixteen big-endian words of a block. *)
Definition sha256_block_words (block : list Z) : list Z :=
  (λ i, Z.lor (Z.lor (Z.lor (Z.shiftl (word block (i * 4)) 24) (Z.shiftl (word block (i * 4 + 1)) 16))
                     (Z.shiftl (word block (i * 4 + 2)) 8))
              (word block (i * 4 + 3))) <$> seq 0 16.

(** One extension [words[index]] of the message schedule, [index] being the current length. *)
Definition sha256_schedule_word (words : list Z) (index : nat) : Z :=
  let w15 := word words (index - 15) in
  let w2 := word words (index - 2) in
  let s0 := Z.lxor (Z.lxor (sha256_rotate_right w15 7) (sha256_rotate_right w15 18)) (Z.shiftr w15 3) in
  let s1 := Z.lxor (Z.lxor (sha256_rotate_right w2 17) (sha256_rotate_right w2 19)) (Z.shiftr w2 10) in
  u32 (word words (index - 16) + s0 + word words (index - 7) + s1).

Definition sha256_schedule (block : list Z) : list Z :=
  fold_left (λ words index, words ++ [sha256_schedule_word words index])
    (seq 16 48) (sha256_block_words block).

(** One of the 64 rounds over the working variables [a..h]. *)
Definition sha256_round (words : list Z) (v : list Z) (index : nat) : list Z :=
  match v with
  | [a; b; c; d; e; f; g; h] =>
      let s1 := Z.lxor (Z.lxor (sha256_rotate_right e 6) (sha256_rotate_right e 11))
                       (sha256_rotate_right e 25) in
      let choose := Z.lxor (Z.land e f) (Z.land (u32 (Z.lnot e)) g) in
      let first := u32 (h + s1 + choose + word sha256_constants index + word words index) in
      let s0 := Z.lxor (Z.lxor (sha256_rotate_right a 2) (sha256_rotate_right a 13))
                       (sha256_rotate_right a 22) in
      let majority := Z.lxor (Z.lxor (Z.land a b) (Z.land a c)) (Z.land b c) in
      let second := u32 (s0 + majority) in
      [u32 (first + second); a; b; c; u32 (d + first); e; f; g]
  | _ => v
  end.

(** src/src/core/sha256.c, [sha256_transform]
    The new chaining state from the old one and one 64-byte block. *)
Definition sha256_transform (state block : list Z) : list Z :=
  let words := sha256_schedule block in
  zip_with (λ x y, u32 (x + y)) state (fold_left (sha256_round words) (seq 0 64) state).

(** * The incremental context *)

(** src/include/yvex/internal/core.h, [yvex_sha256] *)
Record yvex_sha256 := Sha256 {
  sha_state : list Z;      (** eight 32-bit words *)
  sha_length : Z;          (** bytes absorbed *)
  sha_block : list Z;      (** 64 bytes *)
  sha_used : nat;
  sha_finalized : bool;
}.

#[export] Instance yvex_sha256_eta : Eta yvex_sha256 := λ c,
  Sha256 (sha_state c) (sha_length c) (sha_block c) (sha_used c) (sha_finalized c).

Definition sha256_iv : list Z :=
  [0x6a09e667; 0xbb67ae85; 0x3c6ef372; 0xa54ff53a; 0x510e527f; 0x9b05688c; 0x1f83d9ab; 0x5be0cd19].

(** src/src/core/sha256.c, [yvex_sha256_init] *)
Definition yvex_sha256_init : yvex_sha256 := Sha256 sha256_iv 0 (replicate 64 0) 0 false.

(** [memcpy(block + at, src, length src)] within the block. *)
Definition memcpy_at (block : list Z) (at_ : nat) (src : list Z) : list Z :=
  take at_ block ++ src ++ drop (at_ + length src) block.

(** The absorbing loop of [yvex_sha256_update]: every round consumes at least one byte, so the
    number of bytes bounds the rounds. *)
Fixpoint sha256_absorb (fuel : nat) (context : yvex_sha256) (data : list Z) : yvex_sha256 :=
  match fuel, data with
  | S fuel, _ :: _ =>
      let available := (64 - sha_used context)%nat in
      let count := if decide (length data < available)%nat then length data else available in
      let block := memcpy_at (sha_block context) (sha_used context) (take count data) in
      let used := (sha_used context + count)%nat in
      let context := context <| sha_block := block |> <| sha_used := used |> in
      let context :=
        if decide (used = 64%nat)
        then context <| sha_state := sha256_transform (sha_state context) block |> <| sha_used := 0%nat |>
        else context in
      sha256_absorb fuel context (drop count data)
  | _, _ => context
  end.

(** src/src/core/sha256.c, [yvex_sha256_update]
    [None] is the C result 0, which leaves the context as it was. *)
Definition yvex_sha256_update (context : yvex_sha256) (data : list Z) : option yvex_sha256 :=
  if sha_finalized context || (ULLONG_MAX / 8 - sha_length context <? Z.of_nat (length data))
  then None
  else Some (sha256_absorb (length data)
               (context <| sha_length := sha_length context + Z.of_nat (length data) |>) data).

(** The [n] bytes of [v], most significant first. *)
Definition be_bytes (n : nat) (v : Z) : list Z := reverse (le_bytes n v).

(** src/src/core/sha256.c, [yvex_sha256_final]
    The finalized context and the 32-byte digest. *)
Definition yvex_sha256_final (context : yvex_sha256) : option (yvex_sha256 * list Z) :=
  if sha_finalized context || (ULLONG_MAX / 8 <? sha_length context) then None
  else
    let bit_length := sha_length context * 8 in
    let block := memcpy_at (sha_block context) (sha_used context) [0x80] in
    let used := S (sha_used context) in
    let '(state, block, used) :=
      if decide (56 < used)%nat then
        let block := memcpy_at block used (replicate (64 - used) 0) in
        (sha256_transform (sha_state context) block, block, 0%nat)
      else (sha_state context, block, used) in
    let block := memcpy_at block used (replicate (56 - used) 0) in
    let block := memcpy_at block 56 (be_bytes 8 bit_length) in
    let state := sha256_transform state block in
    Some (Sha256 state (sha_length context) (replicate 64 0) 0 true,
          mjoin (be_bytes 4 <$> state)).

(** * Hexadecimal text *)

Definition hex_alphabet : string := "0123456789abcdef".

Definition hex_char (n : Z) : ascii :=
  match String.get (Z.to_nat n) hex_alphabet with Some c => c | None => "0"%char end.

(** src/src/core/sha256.c, [yvex_sha256_hex] *)
Definition yvex_sha256_hex (digest : list Z) : string :=
  foldr (λ b s, String (hex_char (Z.shiftr b 4)) (String (hex_char (Z.land b 15)) s)) ""%string digest.

(** [isxdigit] of the C locale. *)
Definition isxdigit (c : ascii) : bool :=
  let n := N_of_ascii c in
  ((48 <=? n) && (n <=? 57) || (65 <=? n) && (n <=? 70) || (97 <=? n) && (n <=? 102))%N.

Fixpoint all_xdigit (s : string) : bool :=
  match s with EmptyString => true | String c s => isxdigit c && all_xdigit s end.

(** src/src/core/sha256.c, [yvex_sha256_hex_valid] *)
Definition yvex_sha256_hex_valid (text : option string) : bool :=
  match text with
  | None => false
  | Some text => (String.length text =? 64)%nat && all_xdigit text
  end.

(** * Identity-field encodings *)

(** src/src/core/sha256.c, [yvex_sha256_update_u64] *)
Definition yvex_sha256_update_u64 (context : yvex_sha256) (value : Z) : option yvex_sha256 :=
  yvex_sha256_update context (le_bytes 8 value).

(** src/src/core/sha256.c, [yvex_sha256_update_text] *)
Definition yvex_sha256_update_text (context : yvex_sha256) (text : option string)
    : option yvex_sha256 :=
  let text := default ""%string text in
  context ← yvex_sha256_update_u64 context (strlen text);
  yvex_sha256_update context (cstr text).

(** src/include/yvex/internal/core.h, [yvex_sha256_update_u64_be] *)
Definition yvex_sha256_update_u64_be (context : yvex_sha256) (value : Z) : option yvex_sha256 :=
  yvex_sha256_update context (be_bytes 8 value).

(** * One-shot specification *)

(** Merkle-Damgard padding of FIPS 180-4. *)
Definition sha256_pad (message : list Z) : list Z :=
  let n := length message in
  message ++ [0x80] ++ replicate ((119 - n mod 64) mod 64) 0 ++ be_bytes 8 (Z.of_nat n * 8).

(** The 64-byte blocks of a padded message. *)
Fixpoint sha256_blocks (fuel : nat) (bytes : list Z) : list (list Z) :=
  match fuel with
  | O => []
  | S fuel => take 64 bytes :: sha256_blocks fuel (drop 64 bytes)
  end.

Definition sha256_spec (message : list Z) : list Z :=
  let padded := sha256_pad message in
  mjoin (be_bytes 4 <$>
    fold_left sha256_transform (sha256_blocks (length padded / 64) padded) sha256_iv).

(** * Streaming refines the one-shot specification *)

#[global] Opaque sha256_transform.

(** The context holds the whole blocks [bs] in its chaining state and the remainder of the message
    [m] in its block buffer. *)
Definition sha256_absorbed (c : yvex_sha256) (m : list Z) : Prop :=
  ∃ bs r, m = mjoin bs ++ r ∧ Forall (λ b, length b = 64%nat) bs ∧
    length r = sha_used c ∧ (sha_used c < 64)%nat ∧ take (sha_used c) (sha_block c) = r ∧
    length (sha_block c) = 64%nat ∧ sha_state c = fold_left sha256_transform bs sha256_iv.

Record sha256_repr (c : yvex_sha256) (m : list Z) : Prop := Sha256Repr {
  repr_absorbed : sha256_absorbed c m;
  repr_length : sha_length c = Z.of_nat (length m);
  repr_bound : Z.of_nat (length m) ≤ ULLONG_MAX / 8;
  repr_open : sha_finalized c = false;
}.

Lemma length_memcpy_at block at_ src :
  (at_ + length src ≤ length block)%nat → length (memcpy_at block at_ src) = length block.
Proof.
  intros H. unfold memcpy_at. rewrite !length_app, length_take, length_drop. lia.
Qed.

Lemma take_memcpy_at block at_ src :
  (at_ + length src ≤ length block)%nat →
  take (at_ + length src) (memcpy_at block at_ src) = take at_ block ++ src.
Proof.
  intros H. unfold memcpy_at. rewrite (assoc_L (++)). apply take_app_length'.
  rewrite length_app, length_take. lia.
Qed.

Lemma memcpy_at_full block at_ src :
  (at_ + length src = length block)%nat → memcpy_at block at_ src = take at_ block ++ src.
Proof.
  intros H. unfold memcpy_at. rewrite drop_ge by lia. by rewrite app_nil_r.
Qed.

Lemma sha256_absorb_spec fuel c m data :
  sha256_absorbed c m → (length data ≤ fuel)%nat →
  let c' := sha256_absorb fuel c data in
  sha256_absorbed c' (m ++ data) ∧ sha_length c' = sha_length c ∧
  sha_finalized c' = sha_finalized c.
Proof.
  revert c m data. induction fuel as [|fuel IH]; intros c m data Hc Hf.
  { destruct data; [|simpl in Hf; lia]. by rewrite app_nil_r. }
  destruct data as [|d data]; [by rewrite app_nil_r|]. cbn [sha256_absorb].
  set (all := d :: data) in *.
  set (count := if decide (length all < 64 - sha_used c)%nat then length all
                else (64 - sha_used c)%nat).
  destruct Hc as (bs & r & -> & Hbs & Hr & Hu & Htake & Hblk & Hst).
  assert (0 < count ∧ count ≤ length all ∧ sha_used c + count ≤ 64)%nat as (Hc0 & Hc1 & Hc2).
  { unfold count, all. case_decide; simpl in *; lia. }
  assert (Hlt : length (take count all) = count) by (rewrite length_take; lia).
  pose proof (length_memcpy_at (sha_block c) (sha_used c) (take count all) ltac:(lia)) as Hlen.
  pose proof (take_memcpy_at (sha_block c) (sha_used c) (take count all) ltac:(lia)) as Htk.
  rewrite Hlt, Htake in Htk.
  set (block := memcpy_at _ _ _) in *. clearbody block.
  replace ((mjoin bs ++ r) ++ all) with (((mjoin bs ++ r) ++ take count all) ++ drop count all)
    by (rewrite <- (assoc_L (++)), take_drop; done).
  assert (Hd : (length (drop count all) ≤ fuel)%nat).
  { rewrite length_drop. unfold all in *. simpl in *. lia. }
  set (next := if decide (_ = 64%nat) then _ else _).
  assert (Hnext : sha256_absorbed next ((mjoin bs ++ r) ++ take count all)
                  ∧ sha_length next = sha_length c ∧ sha_finalized next = sha_finalized c).
  { unfold next. case_decide as Hfull; (split; [|done]).
    - exists (bs ++ [block]), []. cbn. rewrite fold_left_app, app_nil_r, <- Hst, Hlen. cbn.
      split_and!; try done || lia.
      + rewrite join_app. cbn. rewrite app_nil_r, <- (assoc_L (++)). f_equal.
        rewrite <- Htk. apply take_ge. lia.
      + apply Forall_app_2; [done|]. apply Forall_singleton. by rewrite Hlen.
    - exists bs, (r ++ take count all). cbn. rewrite Hlen, length_app.
      split_and!; try done || lia. by rewrite (assoc_L (++)). }
  destruct Hnext as (Hn & <- & <-). by apply IH.
Qed.

Lemma sha256_init_repr : sha256_repr yvex_sha256_init [].
Proof.
  constructor; try done. exists [], []. cbn. split_and!; try done; lia.
Qed.

Lemma sha256_update_repr c m data :
  sha256_repr c m →
  match yvex_sha256_update c data with
  | Some c' => sha256_repr c' (m ++ data)
  | None => ULLONG_MAX / 8 < Z.of_nat (length (m ++ data))
  end.
Proof.
  intros [Ha Hl Hb Ho]. unfold yvex_sha256_update. rewrite Ho, Hl, length_app. simpl.
  destruct (Z.ltb_spec (ULLONG_MAX / 8 - Z.of_nat (length m)) (Z.of_nat (length data))); [lia|].
  match goal with |- context [sha256_absorb _ ?c1 _] =>
    destruct (sha256_absorb_spec (length data) c1 m data Ha ltac:(done)) as (Hab & HL & HF) end.
  constructor; [exact Hab|rewrite HL, length_app; cbn; lia|rewrite length_app; lia|].
  rewrite HF. exact Ho.
Qed.

Lemma sha256_blocks_join bs :
  Forall (λ b, length b = 64%nat) bs → sha256_blocks (length bs) (mjoin bs) = bs.
Proof.
  induction 1 as [|b bs Hb _ IH]; [done|]. cbn [length sha256_blocks].
  change (mjoin (b :: bs)) with (b ++ mjoin bs).
  rewrite take_app_length', drop_app_length' by done. by rewrite IH.
Qed.

Lemma length_join_blocks (bs : list (list Z)) :
  Forall (λ b, length b = 64%nat) bs → length (mjoin bs) = (64 * length bs)%nat.
Proof.
  induction 1 as [|b bs Hb _ IH]; [done|]. change (mjoin (b :: bs)) with (b ++ mjoin bs).
  rewrite length_app, IH, Hb. simpl. lia.
Qed.

(** A message whose padding is the blocks [bs]. *)
Lemma sha256_spec_blocks m bs :
  Forall (λ b, length b = 64%nat) bs → sha256_pad m = mjoin bs →
  sha256_spec m = mjoin (be_bytes 4 <$> fold_left sha256_transform bs sha256_iv).
Proof.
  intros Hbs E. unfold sha256_spec. rewrite E, length_join_blocks by done.
  replace (64 * length bs / 64)%nat with (length bs)
    by (rewrite Nat.mul_comm, Nat.div_mul; lia).
  by rewrite sha256_blocks_join.
Qed.

Lemma length_be_bytes n v : length (be_bytes n v) = n.
Proof. unfold be_bytes. by rewrite length_reverse, length_le_bytes. Qed.

Lemma mjoin_one {A} (a : list A) : mjoin [a] = a.
Proof. apply app_nil_r. Qed.

Lemma mjoin_two {A} (a b : list A) : mjoin [a; b] = a ++ b.
Proof. change (mjoin [a; b]) with (a ++ mjoin [b]). by rewrite mjoin_one. Qed.

(** The zero bytes of the padding, by how much of the last block the message uses. *)
Lemma sha256_pad_zeros (bs : list (list Z)) (r : list Z) :
  Forall (λ b, length b = 64%nat) bs → (length r < 64)%nat →
  let n := length (mjoin bs ++ r) in
  ((119 - n mod 64) mod 64 =
     if decide (length r < 56) then 55 - length r else 119 - length r)%nat.
Proof.
  intros Hbs Hr n. unfold n. rewrite length_app, length_join_blocks by done.
  replace ((64 * length bs + length r) mod 64)%nat with (length r).
  - case_decide.
    + replace (119 - length r)%nat with ((55 - length r) + 1 * 64)%nat by lia.
      rewrite Nat.Div0.mod_add. apply Nat.mod_small. lia.
    + apply Nat.mod_small. lia.
  - rewrite Nat.add_comm, Nat.mul_comm, Nat.Div0.mod_add. symmetry. by apply Nat.mod_small.
Qed.

Lemma sha256_final_repr c m :
  sha256_repr c m →
  ∃ c', yvex_sha256_final c = Some (c', sha256_spec m) ∧ sha_finalized c' = true.
Proof.
  intros [(bs & r & Hm & Hbs & Hr & Hu & Htake & Hblk & Hst) Hl Hb Ho].
  unfold yvex_sha256_final. rewrite Ho, Hl.
  destruct (Z.ltb_spec (ULLONG_MAX / 8) (Z.of_nat (length m))); [lia|]. simpl orb. cbv iota.
  pose proof (sha256_pad_zeros bs r Hbs ltac:(lia)) as Hz. cbv zeta in Hz. rewrite <- Hm in Hz.
  destruct (be_bytes 8 (Z.of_nat (length m) * 8)) as [|bit bits'] eqn:Ebits; [done|].
  assert (Hbits : length (bit :: bits') = 8%nat) by (rewrite <- Ebits; apply length_be_bytes).
  set (bits := bit :: bits') in *. clearbody bits.
  pose proof (length_memcpy_at (sha_block c) (sha_used c) [128] ltac:(simpl; lia)) as L1.
  pose proof (take_memcpy_at (sha_block c) (sha_used c) [128] ltac:(simpl; lia)) as T1.
  rewrite Htake in T1. change (length [128]) with 1%nat in T1. rewrite Nat.add_1_r in T1.
  set (b1 := memcpy_at (sha_block c) (sha_used c) [128]) in *. clearbody b1.
  destruct (decide (56 < S (sha_used c))%nat) as [Hc|Hc]; cbv zeta beta iota.
  - set (b2 := memcpy_at b1 _ (replicate (64 - S (sha_used c)) 0)).
    assert (E2 : b2 = (r ++ [128]) ++ replicate (64 - S (sha_used c)) 0).
    { unfold b2. rewrite memcpy_at_full by (rewrite length_replicate; lia). by rewrite T1. }
    assert (L2 : length b2 = 64%nat).
    { rewrite E2, !length_app, length_replicate. simpl. lia. }
    set (b3 := memcpy_at b2 0 (replicate (56 - 0) 0)).
    assert (E3 : memcpy_at b3 56 bits = replicate 56 0 ++ bits).
    { pose proof (take_memcpy_at b2 0 (replicate (56 - 0) 0)) as T.
      pose proof (length_memcpy_at b2 0 (replicate (56 - 0) 0)) as L.
      rewrite !length_replicate in *. fold b3 in T, L.
      rewrite memcpy_at_full by (rewrite L; lia).
      change (0 + (56 - 0))%nat with 56%nat in T. by rewrite T by lia. }
    rewrite E3. eexists. split; [apply f_equal, (f_equal2 pair); [reflexivity|]|reflexivity].
    rewrite (sha256_spec_blocks m (bs ++ [b2; replicate 56 0 ++ bits])).
    + rewrite fold_left_app, <- Hst. done.
    + apply Forall_app_2; [done|]. apply Forall_cons_2; [done|].
      apply Forall_singleton. by rewrite length_app, Hbits.
    + unfold sha256_pad. rewrite Hz, decide_False, Ebits, join_app, mjoin_two, Hm, E2 by lia.
      rewrite <- !(assoc_L (++)). do 3 f_equal. rewrite (assoc_L (++)), <- replicate_add.
      do 2 f_equal. lia.
  - set (b3 := memcpy_at b1 (S (sha_used c)) (replicate (56 - S (sha_used c)) 0)).
    assert (E3 : memcpy_at b3 56 bits = r ++ [128] ++ replicate (55 - length r) 0 ++ bits).
    { pose proof (take_memcpy_at b1 (S (sha_used c)) (replicate (56 - S (sha_used c)) 0)) as T.
      pose proof (length_memcpy_at b1 (S (sha_used c)) (replicate (56 - S (sha_used c)) 0)) as L.
      rewrite !length_replicate in *. fold b3 in T, L.
      rewrite memcpy_at_full by (rewrite L; lia).
      replace 56%nat with (S (sha_used c) + (56 - S (sha_used c)))%nat at 1 by lia.
      rewrite T, T1 by lia. rewrite <- !(assoc_L (++)). rewrite Hr. done. }
    rewrite E3. eexists. split; [apply f_equal, (f_equal2 pair); [reflexivity|]|reflexivity].
    rewrite (sha256_spec_blocks m (bs ++ [r ++ [128] ++ replicate (55 - length r) 0 ++ bits])).
    + rewrite fold_left_app, <- Hst. done.
    + apply Forall_app_2; [done|]. apply Forall_singleton.
      rewrite !length_app, Hbits, length_replicate. simpl. lia.
    + unfold sha256_pad. rewrite Hz, decide_True, Ebits, join_app, mjoin_one, Hm by lia.
      by rewrite <- !(assoc_L (++)).
Qed.

(** Feed a sequence of chunks to [yvex_sha256_update], stopping at the first refusal. *)
Fixpoint sha256_feed (context : yvex_sha256) (chunks : list (list Z)) : option yvex_sha256 :=
  match chunks with
  | [] => Some context
  | chunk :: chunks => context ← yvex_sha256_update context chunk; sha256_feed context chunks
  end.

Lemma sha256_feed_repr c m chunks :
  sha256_repr c m → Z.of_nat (length (m ++ mjoin chunks)) ≤ ULLONG_MAX / 8 →
  ∃ c', sha256_feed c chunks = Some c' ∧ sha256_repr c' (m ++ mjoin chunks).
Proof.
  revert c m. induction chunks as [|chunk chunks IH]; intros c m Hc Hlen.
  { exists c. cbn. by rewrite app_nil_r. }
  change (mjoin (chunk :: chunks)) with (chunk ++ mjoin chunks) in *.
  rewrite (assoc_L (++)) in *. cbn [sha256_feed].
  pose proof (sha256_update_repr c m chunk Hc) as Hu.
  destruct (yvex_sha256_update c chunk) as [c'|]; [by apply IH|].
  rewrite length_app in Hlen. lia.
Qed.

(** C35: However a message is cut into updates, the incremental context accepts every chunk as long
    as the bit length fits 64 bits and finalizes to the one-shot SHA-256 of the whole message;
    finalization is one-shot: the finished context refuses further updates and a second digest. *)
Theorem sha256_stream_correct chunks :
  Z.of_nat (length (mjoin chunks)) ≤ ULLONG_MAX / 8 →
  ∃ c done, sha256_feed yvex_sha256_init chunks = Some c ∧
    yvex_sha256_final c = Some (done, sha256_spec (mjoin chunks)) ∧
    yvex_sha256_final done = None ∧ ∀ data, yvex_sha256_update done data = None.
Proof.
  intros Hlen. destruct (sha256_feed_repr _ _ chunks sha256_init_repr Hlen) as (c & Hc & Hr).
  destruct (sha256_final_repr c _ Hr) as (c' & Hf & Hdone).
  exists c, c'. split; [done|]. split; [done|].
  split; [|intros data]; unfold yvex_sha256_final, yvex_sha256_update; by rewrite Hdone.
Qed.

Lemma sha256_stream_correct_witness :
  ∃ c done, sha256_feed yvex_sha256_init [cstr "a"; []; cstr "bc"] = Some c ∧
    yvex_sha256_final c = Some (done, sha256_spec (cstr "abc")) ∧
    yvex_sha256_final done = None ∧ ∀ data, yvex_sha256_update done data = None.
Proof. apply (sha256_stream_correct [cstr "a"; []; cstr "bc"]). vm_compute. discriminate. Defined.

(** The FIPS 180-4 vector for a 56-byte message, whose padding needs a second block. *)
Example sha256_two_block_vector :
  yvex_sha256_hex (sha256_spec (cstr "abcdbcdecdefdefgefghfghighijhijkijkljklmklmnlmnomnopnopq")) =
  "248d6a61d20638b8e5c026930c3e6039a33ce45964ff2167f6ecedd419db06c1"%string.
Proof. vm_compute. reflexivity. Qed.

(** ** Shape of the digest *)

Lemma length_sha256_round words v index :
  length v = 8%nat → length (sha256_round words v index) = 8%nat.
Proof.
  intros H. destruct v as [|? [|? [|? [|? [|? [|? [|? [|? [|? ?]]]]]]]]]; done.
Qed.

Transparent sha256_transform.
Lemma length_sha256_transform state block :
  length state = 8%nat → length (sha256_transform state block) = 8%nat.
Proof.
  intros H. unfold sha256_transform. rewrite length_zip_with, H.
  assert (Hf : ∀ l v, length v = 8%nat →
    length (fold_left (sha256_round (sha256_schedule block)) l v) = 8%nat).
  { intros l. induction l as [|i l IH]; intros v Hv; [done|]. apply IH.
    by apply length_sha256_round. }
  by rewrite Hf.
Qed.
#[global] Opaque sha256_transform.

Lemma length_sha256_spec m : length (sha256_spec m) = 32%nat.
Proof.
  unfold sha256_spec. set (bs := sha256_blocks _ _). clearbody bs.
  assert (Hl : length (fold_left sha256_transform bs sha256_iv) = 8%nat).
  { assert (H : length sha256_iv = 8%nat) by done. revert H. generalize sha256_iv.
    induction bs as [|b bs IH]; intros iv Hiv; [done|]. apply IH. by apply length_sha256_transform. }
  destruct (fold_left _ _ _) as [|? [|? [|? [|? [|? [|? [|? [|? [|? ?]]]]]]]]]; done.
Qed.

Lemma be_bytes_range n v : Forall is_u8 (be_bytes n v).
Proof. unfold be_bytes. apply Forall_reverse, le_bytes_range. Qed.

Lemma sha256_spec_range m : Forall is_u8 (sha256_spec m).
Proof.
  unfold sha256_spec. apply Forall_join, Forall_fmap, Forall_true. intros v. apply be_bytes_range.
Qed.

(** ** Hexadecimal projection *)

Lemma hex_digits_split b : is_u8 b → b = 16 * Z.shiftr b 4 + Z.land b 15 ∧
  0 ≤ Z.shiftr b 4 < 16 ∧ 0 ≤ Z.land b 15 < 16.
Proof.
  intros H. rewrite Z.shiftr_div_pow2 by lia. change 15 with (Z.ones 4).
  rewrite Z.land_ones by lia. change (2 ^ 4) with 16.
  pose proof (Z.div_mod b 16). pose proof (Z.mod_pos_bound b 16).
  unfold is_u8 in H. split; [lia|]. split; [|lia].
  split; [apply Z.div_pos; lia|apply Z.div_lt_upper_bound; lia].
Qed.

Lemma hex_char_cases n : 0 ≤ n < 16 →
  n ∈ [0; 1; 2; 3; 4; 5; 6; 7; 8; 9; 10; 11; 12; 13; 14; 15].
Proof.
  intros H. replace [0; 1; 2; 3; 4; 5; 6; 7; 8; 9; 10; 11; 12; 13; 14; 15] with (seqZ 0 16) by done.
  apply elem_of_seqZ. lia.
Qed.

Lemma hex_char_inj m n : 0 ≤ m < 16 → 0 ≤ n < 16 → hex_char m = hex_char n → m = n.
Proof.
  intros Hm%hex_char_cases Hn%hex_char_cases.
  assert (H : Forall (λ m, Forall (λ n, hex_char m = hex_char n → m = n)
    [0; 1; 2; 3; 4; 5; 6; 7; 8; 9; 10; 11; 12; 13; 14; 15])
    [0; 1; 2; 3; 4; 5; 6; 7; 8; 9; 10; 11; 12; 13; 14; 15]).
  { repeat constructor; vm_compute; congruence. }
  rewrite Forall_forall in H. specialize (H m Hm). rewrite Forall_forall in H. by apply H.
Qed.

Lemma isxdigit_hex_char n : 0 ≤ n < 16 → isxdigit (hex_char n) = true.
Proof.
  intros Hn%hex_char_cases. revert n Hn. apply Forall_forall. repeat constructor.
Qed.

Lemma sha256_hex_inj d d' :
  Forall is_u8 d → Forall is_u8 d' → yvex_sha256_hex d = yvex_sha256_hex d' → d = d'.
Proof.
  intros Hd. revert d'. induction Hd as [|b d Hb Hd IH]; intros d' Hd' E; destruct Hd' as [|b' d' Hb' Hd'];
    try done.
  change (yvex_sha256_hex (?x :: ?l)) with
    (String (hex_char (Z.shiftr x 4)) (String (hex_char (Z.land x 15)) (yvex_sha256_hex l))) in E.
  injection E as E1 E2 E3. apply hex_digits_split in Hb as (? & ? & ?), Hb' as (? & ? & ?).
  apply hex_char_inj in E1; [|done..]. apply hex_char_inj in E2; [|done..].
  f_equal; [lia|by apply IH].
Qed.

Lemma sha256_hex_valid_digest d :
  Forall is_u8 d → length d = 32%nat → yvex_sha256_hex_valid (Some (yvex_sha256_hex d)) = true.
Proof.
  intros Hd Hl. unfold yvex_sha256_hex_valid. apply andb_true_intro. split.
  - apply Nat.eqb_eq. replace 64%nat with (2 * length d)%nat by lia. clear Hd Hl.
    induction d as [|b d IH]; [done|].
    change (String.length (yvex_sha256_hex (b :: d))) with (S (S (String.length (yvex_sha256_hex d)))).
    rewrite IH. simpl. lia.
  - clear Hl. induction Hd as [|b d Hb Hd IH]; [done|].
    change (isxdigit (hex_char (Z.shiftr b 4)) && (isxdigit (hex_char (Z.land b 15)) &&
      all_xdigit (yvex_sha256_hex d)) = true).
    apply hex_digits_split in Hb as (_ & ? & ?). by rewrite !isxdigit_hex_char, IH.
Qed.
