(* ===== verification/Identity.v ===== *)
(** Canonical identities: the typed fields a component hashes, their unambiguous byte encoding,
    and the 64-character SHA-256 text that names the result.

    Every [*_seal] function of the program initialises a hash, appends text and 64-bit fields with
    [yvex_sha256_update_text] / [yvex_sha256_update_u64], finalizes, and projects to hexadecimal
    ([worklist_hash_finish] and its siblings). The components state the list of fields; this file
    carries the run of the hash and the injectivity of the encoding. *)

From S2P Require Import Prelude Status Sha256.

(** One field of an identity preimage: an integer in either byte order, a text after its size, bytes after
    their size, which the code then writes big-endian. *)
Inductive field : Type :=
  | FU64 (value : Z)
  | FText (text : string)
  | FU64Be (value : Z)
  | FBytes (data : list Z).

(** Append one field, as the code's [yvex_sha256_update_*] calls do. *)
Definition sha256_update_field (context : yvex_sha256) (f : field) : option yvex_sha256 :=
  match f with
  | FU64 value => yvex_sha256_update_u64 context value
  | FText text => yvex_sha256_update_text context (Some text)
  | FU64Be value => yvex_sha256_update_u64_be context value
  | FBytes data =>
      context ← yvex_sha256_update_u64_be context (Z.of_nat (length data));
      yvex_sha256_update context data
  end.

(** A chain of [||]-joined updates: the first refusal stops the chain. *)
Fixpoint sha256_update_fields (context : yvex_sha256) (fs : list field) : option yvex_sha256 :=
  match fs with
  | [] => Some context
  | f :: fs => context ← sha256_update_field context f; sha256_update_fields context fs
  end.

(** src/src/graph/worklist.c, [worklist_hash_finish] *)
Definition hash_finish (hash : yvex_sha256) : option string :=
  '(_, digest) ← yvex_sha256_final hash; Some (yvex_sha256_hex digest).

(** Initialise, append the fields, finish: the identity of a preimage. *)
Definition sha256_identity (fs : list field) : option string :=
  hash ← sha256_update_fields yvex_sha256_init fs; hash_finish hash.

(** ** The encoding *)

Definition field_chunks (f : field) : list (list Z) :=
  match f with
  | FU64 value => [le_bytes 8 value]
  | FText text => [le_bytes 8 (strlen text); cstr text]
  | FU64Be value => [be_bytes 8 value]
  | FBytes data => [be_bytes 8 (Z.of_nat (length data)); data]
  end.

Definition field_bytes (f : field) : list Z := mjoin (field_chunks f).
Definition fields_bytes (fs : list field) : list Z := mjoin (field_bytes <$> fs).

(** The values the C types hold: a 64-bit integer, a string shorter than 2^64 bytes. *)
Definition field_ok (f : field) : Prop :=
  match f with
  | FU64 value | FU64Be value => is_u64 value
  | FText text => is_u64 (strlen text)
  | FBytes data => is_u64 (Z.of_nat (length data))
  end.

Definition same_kind (f g : field) : Prop :=
  match f, g with
  | FU64 _, FU64 _ | FText _, FText _ | FU64Be _, FU64Be _ | FBytes _, FBytes _ => True
  | _, _ => False
  end.

Lemma sha256_update_fields_feed context fs :
  sha256_update_fields context fs = sha256_feed context (fs ≫= field_chunks).
Proof.
  revert context. induction fs as [|f fs IH]; intros context; [done|].
  destruct f as [v|t|v|d]; cbn.
  - unfold yvex_sha256_update_u64. destruct (yvex_sha256_update context _); cbn; [apply IH|done].
  - unfold yvex_sha256_update_text, yvex_sha256_update_u64. cbn.
    destruct (yvex_sha256_update context _) as [c|]; cbn; [|done].
    destruct (yvex_sha256_update c _); cbn; [apply IH|done].
  - unfold yvex_sha256_update_u64_be. destruct (yvex_sha256_update context _); cbn; [apply IH|done].
  - unfold yvex_sha256_update_u64_be. destruct (yvex_sha256_update context _) as [c|]; cbn; [|done].
    destruct (yvex_sha256_update c _); cbn; [apply IH|done].
Qed.

Lemma fields_bytes_chunks fs : mjoin (fs ≫= field_chunks) = fields_bytes fs.
Proof.
  induction fs as [|f fs IH]; [done|].
  change (mjoin (field_chunks f ++ (fs ≫= field_chunks)) = field_bytes f ++ fields_bytes fs).
  by rewrite join_app, IH.
Qed.

(** The identity of a preimage of admissible size is the text of its one-shot SHA-256. *)
Lemma sha256_identity_spec fs :
  Z.of_nat (length (fields_bytes fs)) ≤ ULLONG_MAX / 8 →
  sha256_identity fs = Some (yvex_sha256_hex (sha256_spec (fields_bytes fs))).
Proof.
  intros Hlen. rewrite <- fields_bytes_chunks in *. unfold sha256_identity, hash_finish.
  rewrite sha256_update_fields_feed.
  destruct (sha256_feed_repr _ _ _ sha256_init_repr Hlen) as (c & -> & Hr). simpl.
  by destruct (sha256_final_repr c _ Hr) as (c' & -> & _).
Qed.

Lemma sha256_identity_valid fs id :
  sha256_identity fs = Some id → yvex_sha256_hex_valid (Some id) = true.
Proof.
  unfold sha256_identity, hash_finish. rewrite sha256_update_fields_feed.
  destruct (sha256_feed _ _) as [c|] eqn:Ef; [|done]. simpl.
  destruct (yvex_sha256_final c) as [[c' d]|] eqn:Efin; [|done]. intros [= <-].
  destruct (Z.le_gt_cases (Z.of_nat (length (mjoin (fs ≫= field_chunks)))) (ULLONG_MAX / 8)) as [Hle|Hgt].
  - destruct (sha256_feed_repr _ _ _ sha256_init_repr Hle) as (c2 & E2 & Hr).
    rewrite Ef in E2. injection E2 as <-.
    destruct (sha256_final_repr c _ Hr) as (c3 & E3 & _). rewrite Efin in E3. injection E3 as _ ->.
    apply sha256_hex_valid_digest; [apply sha256_spec_range|apply length_sha256_spec].
  - exfalso. cut (∀ c0 m chunks, sha256_repr c0 m → sha256_feed c0 chunks = Some c →
      Z.of_nat (length (m ++ mjoin chunks)) ≤ ULLONG_MAX / 8).
    { intros H. specialize (H _ _ _ sha256_init_repr Ef). simpl in H. lia. }
    clear. intros c0 m chunks. revert c0 m. induction chunks as [|x chunks IH]; intros c0 m Hr Hf.
    { cbn. rewrite app_nil_r. apply Hr. }
    cbn in Hf. pose proof (sha256_update_repr c0 m x Hr) as Hu.
    destruct (yvex_sha256_update c0 x) as [c1|]; [|done]. simpl in Hf.
    specialize (IH c1 (m ++ x) Hu Hf). by rewrite <- (assoc_L (++)) in IH.
Qed.

(** The same, update by update. *)
Lemma sha256_fields_repr c m fs :
  sha256_repr c m → Z.of_nat (length (m ++ fields_bytes fs)) ≤ ULLONG_MAX / 8 →
  ∃ c', sha256_update_fields c fs = Some c' ∧ sha256_repr c' (m ++ fields_bytes fs).
Proof.
  rewrite sha256_update_fields_feed, <- fields_bytes_chunks. by apply sha256_feed_repr.
Qed.

Lemma sha256_fields_sound c m fs c' :
  sha256_repr c m → sha256_update_fields c fs = Some c' → sha256_repr c' (m ++ fields_bytes fs).
Proof.
  rewrite sha256_update_fields_feed, <- fields_bytes_chunks. generalize (fs ≫= field_chunks). intros chunks.
  revert c m. induction chunks as [|x l IH]; intros c m Hr.
  - intros [= <-]. cbn. by rewrite app_nil_r.
  - cbn [sha256_feed]. pose proof (sha256_update_repr c m x Hr) as Hu.
    destruct (yvex_sha256_update c x) as [c1|]; [|done]. intros Hf.
    change (mjoin (x :: l)) with (x ++ mjoin l). rewrite (assoc_L (++)). by apply (IH c1).
Qed.

Lemma hash_finish_repr c m : sha256_repr c m → hash_finish c = Some (yvex_sha256_hex (sha256_spec m)).
Proof. intros Hr. unfold hash_finish. by destruct (sha256_final_repr c m Hr) as (c' & -> & _). Qed.

(** ** Unambiguity *)

Lemma be_bytes_inj n v w :
  0 ≤ v < 256 ^ Z.of_nat n → 0 ≤ w < 256 ^ Z.of_nat n → be_bytes n v = be_bytes n w → v = w.
Proof. intros Hv Hw E%(inj reverse). by apply (le_bytes_inj n). Qed.

Lemma field_bytes_inj f g x y :
  same_kind f g → field_ok f → field_ok g →
  field_bytes f ++ x = field_bytes g ++ y → f = g ∧ x = y.
Proof.
  assert (Hpow : 256 ^ Z.of_nat 8 = ULLONG_MAX + 1) by done.
  destruct f as [v|s|v|d], g as [w|t|w|e]; try done; intros _ Hf Hg; simpl in Hf, Hg.
  - change (field_bytes (FU64 ?v)) with (le_bytes 8 v ++ []). rewrite !app_nil_r. intros E.
    apply app_inj_len in E as [E ->]; [|by rewrite !length_le_bytes].
    apply le_bytes_inj in E as ->; [done|ulia..].
  - change (field_bytes (FText ?s)) with (le_bytes 8 (strlen s) ++ cstr s ++ []).
    rewrite !app_nil_r, <- !(assoc_L (++)). intros E.
    apply app_inj_len in E as [E1 E]; [|by rewrite !length_le_bytes].
    apply le_bytes_inj in E1; [|ulia..].
    apply app_inj_len in E as [E ->]; [|unfold strlen in E1; lia].
    by apply (inj cstr) in E as ->.
  - change (field_bytes (FU64Be ?v)) with (be_bytes 8 v ++ []). rewrite !app_nil_r. intros E.
    apply app_inj_len in E as [E ->]; [|by rewrite !length_be_bytes].
    apply be_bytes_inj in E as ->; [done|ulia..].
  - change (field_bytes (FBytes ?d)) with (be_bytes 8 (Z.of_nat (length d)) ++ d ++ []).
    rewrite !app_nil_r, <- !(assoc_L (++)). intros E.
    apply app_inj_len in E as [E1 E]; [|by rewrite !length_be_bytes].
    apply be_bytes_inj in E1; [|ulia..].
    by apply app_inj_len in E as [-> ->]; [|lia].
Qed.

(** Two preimages with the same kinds of fields have the same bytes only when they agree. *)
Lemma fields_bytes_inj fs gs :
  Forall2 same_kind fs gs → Forall field_ok fs → Forall field_ok gs →
  fields_bytes fs = fields_bytes gs → fs = gs.
Proof.
  intros Hk. induction Hk as [|f g fs gs Hfg Hk IH]; intros Hf Hg E; [done|].
  apply Forall_cons in Hf as [Hf Hfs], Hg as [Hg Hgs].
  apply (field_bytes_inj f g) in E as [-> E]; [|done..].
  f_equal. by apply IH.
Qed.

Lemma fields_bytes_app fs gs : fields_bytes (fs ++ gs) = fields_bytes fs ++ fields_bytes gs.
Proof. unfold fields_bytes. by rewrite fmap_app, join_app. Qed.

(** Preimages that agree on a prefix of the same shape. *)
Lemma fields_bytes_app_inj fs gs x y :
  Forall2 same_kind fs gs → Forall field_ok fs → Forall field_ok gs →
  fields_bytes (fs ++ x) = fields_bytes (gs ++ y) → fs = gs ∧ fields_bytes x = fields_bytes y.
Proof.
  intros Hk. revert x y. induction Hk as [|f g fs gs Hfg Hk IH]; intros x y Hf Hg E; [done|].
  apply Forall_cons in Hf as [Hf Hfs], Hg as [Hg Hgs].
  apply (field_bytes_inj f g) in E as [-> E]; [|done..].
  by apply IH in E as [-> ->].
Qed.

(** A table whose rows hash to fields of one shape. *)
Lemma fields_bind_kinds {A} (g : A → list field) (l m : list A) :
  (∀ a b, Forall2 same_kind (g a) (g b)) → length l = length m →
  Forall2 same_kind (l ≫= g) (m ≫= g).
Proof.
  intros Hg. revert m. induction l as [|a l IH]; intros [|b m] [=]; [constructor|].
  cbn. apply Forall2_app; [apply Hg|by apply IH].
Qed.

Lemma fields_bind_inj {A} (g : A → list field) (P : A → Prop) (l m : list A) x y :
  (∀ a b, P a → P b → g a = g b → a = b) → (∀ a b, length (g a) = length (g b)) →
  Forall P l → Forall P m → length l = length m →
  (l ≫= g) ++ x = (m ≫= g) ++ y → l = m ∧ x = y.
Proof.
  intros Hg Hlen. revert m. induction l as [|a l IH]; intros [|b m] Hl Hm [=] E; [done|].
  apply Forall_cons in Hl as [Ha Hl], Hm as [Hb Hm].
  cbn in E. rewrite <- !(assoc_L (++)) in E.
  apply app_inj_len in E as [E1 E2]; [|apply Hlen].
  apply IH in E2 as [-> ->]; [|done..]. by rewrite (Hg a b).
Qed.

(** The size of a preimage, for the bit-length bound. *)
Definition field_size (f : field) : Z :=
  match f with
  | FU64 _ | FU64Be _ => 8
  | FText text => 8 + strlen text
  | FBytes data => 8 + Z.of_nat (length data)
  end.

Definition fields_size (fs : list field) : Z := foldr (λ f n, field_size f + n) 0 fs.

Lemma fields_size_bytes fs : Z.of_nat (length (fields_bytes fs)) = fields_size fs.
Proof.
  induction fs as [|f fs IH]; [done|].
  change (fields_bytes (f :: fs)) with (field_bytes f ++ fields_bytes fs).
  rewrite length_app, Nat2Z.inj_add, IH. simpl. f_equal.
  destruct f as [v|t|v|d]; unfold field_bytes.
  - cbn. lia.
  - change (field_chunks (FText t)) with [le_bytes 8 (strlen t); cstr t].
    rewrite mjoin_two, length_app, length_le_bytes. simpl. unfold strlen. lia.
  - cbn [field_chunks field_size]. change (mjoin [be_bytes 8 v]) with (be_bytes 8 v ++ []).
    by rewrite app_nil_r, length_be_bytes.
  - change (field_chunks (FBytes d)) with [be_bytes 8 (Z.of_nat (length d)); d].
    rewrite mjoin_two, length_app, length_be_bytes. simpl. lia.
Qed.

Lemma fields_size_app fs gs : fields_size (fs ++ gs) = fields_size fs + fields_size gs.
Proof. induction fs as [|f fs IH]; simpl; lia. Qed.

Lemma fields_size_nonneg fs : 0 ≤ fields_size fs.
Proof. rewrite <- fields_size_bytes. lia. Qed.

Lemma fields_size_bind {A} (g : A → list field) (l : list A) k :
  Forall (λ a, fields_size (g a) ≤ k) l →
  fields_size (l ≫= g) ≤ k * Z.of_nat (length l).
Proof.
  induction 1 as [|a l Ha _ IH]; [simpl; lia|]. cbn. rewrite fields_size_app. simpl. lia.
Qed.

(** A digest is sixty-four characters. *)
Lemma sha256_identity_total fs :
  fields_size fs ≤ ULLONG_MAX / 8 → ∃ id, sha256_identity fs = Some id ∧ strlen id = 64.
Proof.
  intros Hs. rewrite <- fields_size_bytes in Hs. pose proof (sha256_identity_spec fs Hs) as E. eexists. split; [exact E|].
  pose proof (sha256_identity_valid _ _ E) as Hv. unfold yvex_sha256_hex_valid in Hv.
  apply andb_true_iff in Hv as [Hv%Nat.eqb_eq _]. unfold strlen. rewrite length_cstr. lia.
Qed.

(** The fields of a table, row after row. *)
Lemma rows_fields_snoc {A} (f : nat → A → list field) first (items : list A) (k : nat) item :
  items !! k = Some item →
  first :: mjoin (imap f (take (S k) items)) = (first :: mjoin (imap f (take k items))) ++ f k item.
Proof.
  intros Ht. rewrite (take_snoc _ _ item) by done.
  rewrite imap_app, join_app. cbn [imap]. rewrite length_take_le by (apply lookup_lt_Some in Ht; lia).
  change (mjoin [?x]) with (x ++ []). by rewrite app_nil_r, Nat.add_0_r.
Qed.

Lemma rows_fields_take {A} (f : nat → A → list field) first (items : list A) k :
  fields_size (first :: mjoin (imap f (take k items))) ≤ fields_size (first :: mjoin (imap f items)).
Proof.
  rewrite <- (take_drop k items) at 2. rewrite imap_app, join_app.
  rewrite app_comm_cons, fields_size_app.
  match goal with |- ?a ≤ ?a + fields_size ?x => pose proof (fields_size_nonneg x) end. lia.
Qed.

(** Within the 64-bit size bound, the identity a component seals is the SHA-256 text of the
    encoding of its fields, is accepted by the validity test, and two sealed preimages of the same
    shape whose digests have distinct SHA-256 preimages never share an encoding: equal encodings
    mean equal fields. *)
Theorem identity_faithful fs gs :
  fields_size fs ≤ ULLONG_MAX / 8 → Forall field_ok fs → Forall field_ok gs →
  Forall2 same_kind fs gs →
  ∃ id, sha256_identity fs = Some id ∧ yvex_sha256_hex_valid (Some id) = true ∧
    id = yvex_sha256_hex (sha256_spec (fields_bytes fs)) ∧
    (fields_bytes fs = fields_bytes gs ↔ fs = gs).
Proof.
  intros Hs Hf Hg Hk. rewrite <- fields_size_bytes in Hs. eexists. split; [by apply sha256_identity_spec|].
  split; [eapply sha256_identity_valid, sha256_identity_spec; exact Hs|].
  split; [done|]. split; [by apply fields_bytes_inj|by intros ->].
Qed.

Lemma identity_faithful_witness :
  let fs := [FText "ab"; FU64 7] in let gs := [FText "a"; FU64 7] in
  ∃ id, sha256_identity fs = Some id ∧ yvex_sha256_hex_valid (Some id) = true ∧
    id = yvex_sha256_hex (sha256_spec (fields_bytes fs)) ∧
    (fields_bytes fs = fields_bytes gs ↔ fs = gs).
Proof.
  intros fs gs. apply identity_faithful.
  - vm_compute. discriminate.
  - repeat constructor; vm_compute; discriminate.
  - repeat constructor; vm_compute; discriminate.
  - repeat constructor.
Defined.
