(* ===== verification/ShardIndex.v ===== *)
(** The allocation-free canonical key index of [src/core/shard_index.c]: admission of an ordered
    entry array and the binary search over it. *)

From S2P Require Import Prelude.

(** * Data *)

(** src/include/yvex/internal/core.h, [yvex_shard_index_entry] *)
Record yvex_shard_index_entry := ShardIndexEntry {
  canonical_id : Z;
  canonical_key : option string;
}.

(** src/include/yvex/internal/core.h, [yvex_shard_index_result] *)
Inductive yvex_shard_index_result : Type :=
  | YVEX_SHARD_INDEX_OK | YVEX_SHARD_INDEX_INVALID | YVEX_SHARD_INDEX_BUDGET
  | YVEX_SHARD_INDEX_DUPLICATE_ID | YVEX_SHARD_INDEX_DUPLICATE_KEY
  | YVEX_SHARD_INDEX_NONCANONICAL_ORDER.

(** src/include/yvex/internal/core.h, [yvex_shard_index]
    The borrowed array; [count] is its length, and [None] the zeroed index. *)
Record yvex_shard_index := ShardIndex { entries : option (list yvex_shard_index_entry) }.

Definition shard_index_count (index : yvex_shard_index) : Z :=
  match entries index with None => 0 | Some l => Z.of_nat (length l) end.

(** src/src/core/shard_index.c, [yvex_shard_index_reset] *)
Definition yvex_shard_index_reset (index : yvex_shard_index) : yvex_shard_index := ShardIndex None.

(** * Admission *)

(** The admission loop from [ordinal] on, [previous] being the key of the entry before. *)
Fixpoint shard_index_scan (ordinal : Z) (previous : option string)
    (l : list yvex_shard_index_entry) : yvex_shard_index_result :=
  match l with
  | [] => YVEX_SHARD_INDEX_OK
  | e :: l =>
      match canonical_key e with
      | None | Some EmptyString => YVEX_SHARD_INDEX_INVALID
      | Some key =>
          if negb (canonical_id e =? ordinal) then YVEX_SHARD_INDEX_DUPLICATE_ID
          else
            let order := if ordinal =? 0 then Lt else strcmp (default ""%string previous) key in
            match order with
            | Eq => YVEX_SHARD_INDEX_DUPLICATE_KEY
            | Gt => YVEX_SHARD_INDEX_NONCANONICAL_ORDER
            | Lt => shard_index_scan (ordinal + 1) (Some key) l
            end
      end
  end.

(** src/src/core/shard_index.c, [yvex_shard_index_init]
    The result and the index written; [array] is [None] for a null entry pointer. *)
Definition yvex_shard_index_init (array : option (list yvex_shard_index_entry))
    (maximum_entries : Z) : yvex_shard_index_result * yvex_shard_index :=
  match array with
  | None => (YVEX_SHARD_INDEX_INVALID, ShardIndex None)
  | Some l =>
      let count := Z.of_nat (length l) in
      if (count =? 0) || (maximum_entries =? 0) then (YVEX_SHARD_INDEX_INVALID, ShardIndex None)
      else if maximum_entries <? count then (YVEX_SHARD_INDEX_BUDGET, ShardIndex None)
      else match shard_index_scan 0 None l with
           | YVEX_SHARD_INDEX_OK => (YVEX_SHARD_INDEX_OK, ShardIndex (Some l))
           | refusal => (refusal, ShardIndex None)
           end
  end.

(** * Lookup *)

(** src/src/core/shard_index.c, [yvex_shard_index_at] *)
Definition yvex_shard_index_at (index : yvex_shard_index) (id : Z) : option yvex_shard_index_entry :=
  l ← entries index;
  if id <? Z.of_nat (length l) then l !! Z.to_nat id else None.

(** The bisection loop. The interval halves every round, so 64 rounds exhaust a 64-bit count. *)
Fixpoint shard_index_search (fuel : nat) (l : list yvex_shard_index_entry) (key : string)
    (lower upper comparisons : Z) : option yvex_shard_index_entry * Z :=
  match fuel with
  | O => (None, comparisons)
  | S fuel =>
      if lower <? upper then
        let middle := lower + (upper - lower) / 2 in
        let comparisons := comparisons + 1 in
        match l !! Z.to_nat middle with
        | None => (None, comparisons)
        | Some e =>
            match strcmp (default ""%string (canonical_key e)) key with
            | Eq => (Some e, comparisons)
            | Lt => shard_index_search fuel l key (middle + 1) upper comparisons
            | Gt => shard_index_search fuel l key lower middle comparisons
            end
        end
      else (None, comparisons)
  end.

(** src/src/core/shard_index.c, [yvex_shard_index_find]
    The entry found and the number of key comparisons. *)
Definition yvex_shard_index_find (index : yvex_shard_index) (key : option string)
    : option yvex_shard_index_entry * Z :=
  match entries index, key with
  | Some l, Some key => shard_index_search 65 l key 0 (Z.of_nat (length l)) 0
  | _, _ => (None, 0)
  end.

(** * Canonical arrays *)

(** Identifiers are positions, keys are present, non-empty and strictly increasing. *)
Definition shard_entries_canonical (l : list yvex_shard_index_entry) : Prop :=
  (∀ i e, l !! i = Some e → canonical_id e = Z.of_nat i ∧
    ∃ key, canonical_key e = Some key ∧ key ≠ ""%string) ∧
  (∀ i j e f k m, (i < j)%nat → l !! i = Some e → l !! j = Some f →
    canonical_key e = Some k → canonical_key f = Some m → strcmp k m = Lt).

(** The tail of a canonical array, starting at position [ordinal] after the key [previous]. *)
Fixpoint shard_tail_ok (ordinal : Z) (previous : option string)
    (l : list yvex_shard_index_entry) : Prop :=
  match l with
  | [] => True
  | e :: l => ∃ key, canonical_key e = Some key ∧ key ≠ ""%string ∧ canonical_id e = ordinal ∧
      (∀ p, previous = Some p → strcmp p key = Lt) ∧ shard_tail_ok (ordinal + 1) (Some key) l
  end.

Lemma shard_index_scan_ok ordinal previous l :
  0 ≤ ordinal → (previous = None ↔ ordinal = 0) →
  shard_index_scan ordinal previous l = YVEX_SHARD_INDEX_OK ↔ shard_tail_ok ordinal previous l.
Proof.
  revert ordinal previous. induction l as [|e l IH]; intros ordinal previous Ho Hp; [done|].
  cbn [shard_index_scan shard_tail_ok].
  destruct (canonical_key e) as [[|c s]|] eqn:Ek;
    [naive_solver| |naive_solver].
  set (key := String c s). assert (key ≠ ""%string) by done. clearbody key.
  specialize (IH (ordinal + 1) (Some key) ltac:(lia)).
  assert (Some key = None ↔ ordinal + 1 = 0) as Hs by (split; [done|lia]). specialize (IH Hs).
  destruct (Z.eqb_spec (canonical_id e) ordinal); simpl.
  2: { split; [done|]. intros (? & _ & _ & ? & _). done. }
  destruct previous as [p|]; simpl.
  - destruct (Z.eqb_spec ordinal 0) as [->|]; [by pose proof (proj2 Hp eq_refl)|].
    destruct (strcmp p key) eqn:Ecmp; rewrite ?IH; naive_solver congruence.
  - destruct (Z.eqb_spec ordinal 0); [|naive_solver]. rewrite IH. naive_solver.
Qed.

Lemma shard_tail_canonical ordinal previous l :
  shard_tail_ok ordinal previous l ↔
  (∀ i e, l !! i = Some e → canonical_id e = ordinal + Z.of_nat i ∧
     ∃ key, canonical_key e = Some key ∧ key ≠ ""%string ∧
       ∀ p, previous = Some p → strcmp p key = Lt) ∧
  (∀ i j e f k m, (i < j)%nat → l !! i = Some e → l !! j = Some f →
     canonical_key e = Some k → canonical_key f = Some m → strcmp k m = Lt).
Proof.
  revert ordinal previous. induction l as [|e l IH]; intros ordinal previous; [done|].
  cbn [shard_tail_ok]. setoid_rewrite IH. split.
  - intros (key & Hk & Hne & Hid & Hprev & Htail & Hord). split.
    + intros [|i] f Hf; simplify_eq/=; [split; [lia|by exists key]|].
      destruct (Htail i f Hf) as (? & k' & ? & ? & Hlt). split; [lia|].
      exists k'. split_and!; [done..|]. intros p Hp. eapply strcmp_trans; [by apply Hprev|by apply Hlt].
    + intros [|i] [|j] ???? Hij; simpl; intros; simplify_eq; try lia.
      * destruct (Htail j f) as (_ & k' & ? & _ & Hlt); [done|]. simplify_eq. by apply Hlt.
      * eapply (Hord i j); eauto. lia.
  - intros [Hall Hord]. destruct (Hall 0%nat e eq_refl) as (? & key & ? & ? & ?).
    exists key. split_and!; [done..|lia|done| |].
    + intros i f Hf. destruct (Hall (S i) f Hf) as (? & k' & ? & ? & ?). split; [lia|].
      exists k'. split_and!; [done..|]. intros p [= <-]. eapply (Hord 0%nat (S i)); eauto. lia.
    + intros i j ????? Hi Hj. eapply (Hord (S i) (S j)); eauto. lia.
Qed.

(** An entry array is admitted exactly when it is non-empty, within the budget and canonical;
    the admitted index then serves every position and nothing beyond. *)
Theorem shard_index_admission array maximum_entries :
  0 ≤ maximum_entries →
  let '(result, index) := yvex_shard_index_init (Some array) maximum_entries in
  (result = YVEX_SHARD_INDEX_OK ↔
     array ≠ [] ∧ Z.of_nat (length array) ≤ maximum_entries ∧ shard_entries_canonical array) ∧
  (result = YVEX_SHARD_INDEX_OK → ∀ i, 0 ≤ i → yvex_shard_index_at index i = array !! Z.to_nat i) ∧
  (result ≠ YVEX_SHARD_INDEX_OK → ∀ i, yvex_shard_index_at index i = None).
Proof.
  intros Hmax. unfold yvex_shard_index_init.
  assert (Hlen : array ≠ [] ↔ Z.of_nat (length array) ≠ 0) by (destruct array; simpl; naive_solver lia).
  assert (Hscan : shard_index_scan 0 None array = YVEX_SHARD_INDEX_OK ↔ shard_entries_canonical array).
  { rewrite shard_index_scan_ok, shard_tail_canonical by done. unfold shard_entries_canonical.
    split; intros [H1 H2]; (split; [|done]); intros i e Hi; specialize (H1 i e Hi); naive_solver. }
  destruct (_ || _) eqn:E; guards.
  { split; [|done]. split; [done|]. intros (?%Hlen & ? & _). lia. }
  destruct (Z.ltb_spec maximum_entries (Z.of_nat (length array))).
  { split; [|done]. split; [done|]. intros (_ & ? & _). lia. }
  destruct (shard_index_scan 0 None array); split; try naive_solver.
  split; [|done]. intros _ i Hi. unfold yvex_shard_index_at. simpl.
  destruct (Z.ltb_spec i (Z.of_nat (length array))); [done|].
  symmetry. apply lookup_ge_None. lia.
Qed.

Definition shard_sample : list yvex_shard_index_entry :=
  [ShardIndexEntry 0 (Some "a.bin"%string); ShardIndexEntry 1 (Some "b.bin"%string);
   ShardIndexEntry 2 (Some "b.binx"%string); ShardIndexEntry 3 (Some "c"%string)].

Lemma shard_index_admission_witness :
  (yvex_shard_index_init (Some shard_sample) 8).1 = YVEX_SHARD_INDEX_OK ∧
  shard_entries_canonical shard_sample.
Proof.
  split; [reflexivity|].
  pose proof (shard_index_admission shard_sample 8 ltac:(lia)) as H.
  apply (proj1 (proj1 H) eq_refl).
Defined.

(** ** The search *)

(** What is left to find lies in [[lower, upper)]. *)
Definition search_window (l : list yvex_shard_index_entry) (key : string) (lower upper : Z) : Prop :=
  ∀ i e, l !! i = Some e → canonical_key e = Some key → lower ≤ Z.of_nat i < upper.

Lemma strcmp_irrefl a : strcmp a a ≠ Lt.
Proof. by rewrite (proj2 (strcmp_eq a a) eq_refl). Qed.

Lemma search_window_right l key m e k lower upper :
  shard_entries_canonical l → l !! m = Some e → canonical_key e = Some k → strcmp k key = Lt →
  search_window l key lower upper → search_window l key (Z.of_nat m + 1) upper.
Proof.
  intros [_ Hord] He Hk Hlt Hwin i f Hi Hf. specialize (Hwin i f Hi Hf). split; [|lia].
  destruct (Nat.lt_trichotomy i m) as [Him|[->|]]; [| |lia].
  2: { assert (k = key) as -> by congruence. by destruct (strcmp_irrefl key). }
  pose proof (Hord i m f e key k Him Hi He Hf Hk) as H. rewrite strcmp_antisym, Hlt in H. done.
Qed.

Lemma search_window_left l key m e k lower upper :
  shard_entries_canonical l → l !! m = Some e → canonical_key e = Some k → strcmp k key = Gt →
  search_window l key lower upper → search_window l key lower (Z.of_nat m).
Proof.
  intros [_ Hord] He Hk Hgt Hwin i f Hi Hf. specialize (Hwin i f Hi Hf). split; [lia|].
  destruct (Nat.lt_trichotomy i m) as [|[->|Him]]; [lia| |].
  - assert (k = key) as -> by congruence. by rewrite (proj2 (strcmp_eq key key) eq_refl) in Hgt.
  - pose proof (Hord m i e f k key Him He Hi Hk Hf). congruence.
Qed.

Lemma canonical_key_unique l key m e :
  shard_entries_canonical l → l !! m = Some e → canonical_key e = Some key →
  ∀ f, Some e = Some f ↔ f ∈ l ∧ canonical_key f = Some key.
Proof.
  intros [_ Hord] He Hk f. split.
  - intros [= <-]. split; [by eapply list_elem_of_lookup_2|done].
  - intros [[i Hi]%list_elem_of_lookup Hf]. f_equal.
    destruct (Nat.lt_trichotomy i m) as [?|[->|?]]; [|congruence|].
    + destruct (strcmp_irrefl key). by eapply (Hord i m).
    + destruct (strcmp_irrefl key). by eapply (Hord m i).
Qed.

Lemma search_window_empty l key lower :
  search_window l key lower lower →
  ∀ e, (None : option yvex_shard_index_entry) = Some e ↔ e ∈ l ∧ canonical_key e = Some key.
Proof.
  intros Hwin e. split; [done|]. intros [[i Hi]%list_elem_of_lookup Hk].
  specialize (Hwin i e Hi Hk). lia.
Qed.

Lemma log2_halve w n : 0 ≤ w → 2 * w ≤ n → 0 < n → 1 + Z.log2 (2 * w) ≤ Z.log2 (2 * n).
Proof.
  intros Hw Hn Hpos. destruct (Z.eq_dec w 0) as [->|].
  - change (Z.log2 (2 * 0)) with 0. apply (Z.log2_le_mono 2 (2 * n)). lia.
  - rewrite Z.add_comm, Z.add_1_r, <- Z.log2_double by lia. apply Z.log2_le_mono. lia.
Qed.

Lemma shard_index_search_unfold fuel l key lower upper comparisons :
  shard_index_search (S fuel) l key lower upper comparisons =
  if lower <? upper then
    let middle := lower + (upper - lower) / 2 in
    match l !! Z.to_nat middle with
    | None => (None, comparisons + 1)
    | Some e =>
        match strcmp (default ""%string (canonical_key e)) key with
        | Eq => (Some e, comparisons + 1)
        | Lt => shard_index_search fuel l key (middle + 1) upper (comparisons + 1)
        | Gt => shard_index_search fuel l key lower middle (comparisons + 1)
        end
    end
  else (None, comparisons).
Proof. reflexivity. Qed.

Lemma shard_index_search_spec fuel l key lower upper comparisons :
  shard_entries_canonical l → 0 ≤ lower ≤ upper → upper ≤ Z.of_nat (length l) →
  upper - lower < 2 ^ Z.of_nat fuel → search_window l key lower upper →
  let '(found, n) := shard_index_search (S fuel) l key lower upper comparisons in
  (∀ e, found = Some e ↔ e ∈ l ∧ canonical_key e = Some key) ∧
  n ≤ comparisons + Z.log2 (2 * (upper - lower)).
Proof.
  intros Hcan. revert lower upper comparisons.
  induction fuel as [|fuel IH]; intros lower upper comparisons Hlo Hup Hfuel Hwin;
    rewrite shard_index_search_unfold;
    (destruct (Z.ltb_spec lower upper) as [Hlt|Hge];
     [|assert (upper = lower) as -> by lia; rewrite Z.sub_diag; split;
       [by apply (search_window_empty _ _ lower)|simpl; lia]]).
  { simpl in Hfuel. lia. }
  cbv zeta. set (half := (upper - lower) / 2).
  assert (0 ≤ half ∧ 2 * half ≤ upper - lower < 2 * half + 2) as [Hh0 Hh].
  { unfold half. pose proof (Z.div_mod (upper - lower) 2).
    pose proof (Z.mod_pos_bound (upper - lower) 2). lia. }
  set (m := Z.to_nat (lower + half)). assert (Hm : lower + half = Z.of_nat m) by lia.
  destruct (lookup_lt_is_Some_2 l m ltac:(lia)) as [e He]. rewrite He.
  destruct (proj1 Hcan _ e He) as (_ & k & Hk & _). rewrite Hk. change (default ""%string (Some k)) with k.
  rewrite Nat2Z.inj_succ, Z.pow_succ_r in Hfuel by lia.
  destruct (strcmp k key) eqn:Ecmp.
  - apply strcmp_eq in Ecmp as ->. split; [by eapply canonical_key_unique|].
    pose proof (log2_halve 0 (upper - lower)). change (Z.log2 (2 * 0)) with 0 in *. lia.
  - specialize (IH (lower + half + 1) upper (comparisons + 1)).
    destruct (shard_index_search _ l key (lower + half + 1) upper _) as [found c].
    cbv beta iota in IH. destruct IH as [IH1 IH2];
      [lia..|rewrite Hm; by eapply search_window_right|].
    split; [done|]. pose proof (log2_halve (upper - (lower + half + 1)) (upper - lower)). lia.
  - specialize (IH lower (lower + half) (comparisons + 1)).
    destruct (shard_index_search _ l key lower (lower + half) _) as [found c].
    cbv beta iota in IH. destruct IH as [IH1 IH2];
      [lia..|rewrite Hm; by eapply search_window_left|].
    split; [done|]. pose proof (log2_halve half (upper - lower)).
    replace (lower + half - lower) with half in IH2 by lia. lia.
Qed.

(** On an admitted index, the bisection terminates and finds a key exactly when some entry
    carries it, with at most log2(2n) key comparisons for n entries. *)
Theorem shard_index_find_correct array maximum_entries index key :
  maximum_entries ≤ ULLONG_MAX →
  yvex_shard_index_init (Some array) maximum_entries = (YVEX_SHARD_INDEX_OK, index) →
  let '(found, comparisons) := yvex_shard_index_find index (Some key) in
  (∀ e, found = Some e ↔ e ∈ array ∧ canonical_key e = Some key) ∧
  comparisons ≤ Z.log2 (2 * Z.of_nat (length array)).
Proof.
  intros Hmax Hinit. assert (0 ≤ maximum_entries) as Hpos.
  { unfold yvex_shard_index_init in Hinit. repeat case_match; simplify_eq; guards; lia. }
  pose proof (shard_index_admission array maximum_entries Hpos) as H. rewrite Hinit in H.
  destruct (proj1 (proj1 H) eq_refl) as (Hne & Hlen & Hcan).
  assert (index = ShardIndex (Some array)) as ->.
  { unfold yvex_shard_index_init in Hinit. repeat case_match; simplify_eq; done. }
  unfold yvex_shard_index_find. cbn [entries].
  pose proof (shard_index_search_spec 64 array key 0 (Z.of_nat (length array)) 0 Hcan) as S.
  destruct (shard_index_search 65 _ _ _ _ _) as [found n].
  rewrite Z.sub_0_r, Z.add_0_l in S. apply S; try lia.
  - change (2 ^ Z.of_nat 64) with (ULLONG_MAX + 1). lia.
  - intros i e Hi _. apply lookup_lt_Some in Hi. lia.
Qed.

Lemma shard_index_find_correct_witness :
  let index := ShardIndex (Some shard_sample) in
  (∀ e, (yvex_shard_index_find index (Some "b.bin"%string)).1 = Some e ↔
     e ∈ shard_sample ∧ canonical_key e = Some "b.bin"%string) ∧
  (yvex_shard_index_find index (Some "b.bin"%string)).2 ≤ 3.
Proof.
  apply (shard_index_find_correct shard_sample 8 (ShardIndex (Some shard_sample)) "b.bin");
    [vm_compute; discriminate|reflexivity].
Defined.
