(* ===== verification/RequestQueue.v ===== *)
(** The server's bounded request queue, [src/server/request_queue.c]: the operations under its
    mutex, the worker loop, and the interleavings of submitters, workers and the stop request. *)

From S2P Require Import Prelude Status.

(** * State *)

(** src/src/server/request_queue.c, [request_queue_entry]
    Work is an opaque pointer, never null here; the key is its bounded text. *)
Record request_queue_entry := RequestQueueEntry { rq_work : Z; rq_key : string }.

#[export] Instance request_queue_entry_eq_dec : EqDecision request_queue_entry.
Proof. solve_decision. Defined.

(** src/src/server/request_queue.c, [server_request_queue]
    [queue] and [active] are the used prefixes of the two bounded arrays, so [queue_count] and
    [active_count] are their lengths; slots beyond the counts are zero. *)
Record server_request_queue := ServerRequestQueue {
  queue : list request_queue_entry;
  active : list string;
  queue_capacity : Z;
  worker_count : Z;
  worker_started : Z;
  started : bool;
  stopping : bool;
  finished : bool;
}.

#[export] Instance server_request_queue_eta : Eta server_request_queue := λ q,
  ServerRequestQueue (queue q) (active q) (queue_capacity q) (worker_count q) (worker_started q)
    (started q) (stopping q) (finished q).

Definition queue_count (q : server_request_queue) : Z := Z.of_nat (length (queue q)).
Definition active_count (q : server_request_queue) : Z := Z.of_nat (length (active q)).

(** src/src/server/private.h, [SERVER_REQUEST_QUEUE_KEY_CAP] *)
Definition SERVER_REQUEST_QUEUE_KEY_CAP : Z := 224.

(** [sizeof] of the array elements on an LP64 target. *)
Definition sizeof_entry : Z := 232.
Definition sizeof_active : Z := 224.
Definition sizeof_thread : Z := 8.

(** * Operations *)

(** src/src/server/request_queue.c, [request_queue_key_active] *)
Definition request_queue_key_active (q : server_request_queue) (key : string) : bool :=
  existsb (λ a, bool_decide (a = key)) (active q).

(** The first queued entry whose key is not active, and the queue without it. *)
Fixpoint take_inactive (inactive : string → bool) (l : list request_queue_entry)
    : option (request_queue_entry * list request_queue_entry) :=
  match l with
  | [] => None
  | e :: l =>
      if inactive (rq_key e) then Some (e, l)
      else '(found, rest) ← take_inactive inactive l; Some (found, e :: rest)
  end.

(** src/src/server/request_queue.c, [request_queue_select_locked]
    The entry handed to the worker and the queue after the shift; its key joins [active]. *)
Definition request_queue_select_locked (q : server_request_queue)
    : option (request_queue_entry * server_request_queue) :=
  '(entry, rest) ← take_inactive (λ key, negb (request_queue_key_active q key)) (queue q);
  Some (entry, q <| queue := rest |> <| active ::= λ a, a ++ [rq_key entry] |>).

(** Remove the first occurrence. *)
Fixpoint remove_first (key : string) (l : list string) : list string :=
  match l with
  | [] => []
  | a :: l => if bool_decide (a = key) then l else a :: remove_first key l
  end.

(** src/src/server/request_queue.c, [request_queue_release_locked] *)
Definition request_queue_release_locked (q : server_request_queue) (key : string)
    : server_request_queue :=
  q <| active ::= remove_first key |>.

(** What a worker holding the mutex does next. *)
Inductive worker_decision : Type :=
  | WorkerExit
  | WorkerWait
  | WorkerExecute (entry : request_queue_entry) (q : server_request_queue).

(** src/src/server/request_queue.c, [request_queue_worker]
    One pass of the inner loop: leave when stopping with nothing queued, wait when nothing is
    queued or every queued key is active, otherwise take an entry. The callback and the release
    that follow are the worker steps below. *)
Definition request_queue_worker_pass (q : server_request_queue) : worker_decision :=
  if stopping q && (queue_count q =? 0) then WorkerExit
  else if queue_count q =? 0 then WorkerWait
  else match request_queue_select_locked q with
       | Some (entry, q) => WorkerExecute entry q
       | None => WorkerWait
       end.

(** src/src/server/request_queue.c, [yvex_server_request_queue_open]
    [memory_ok] is what the allocations answer and [sync_ok] the mutex and condition set-up. *)
Definition yvex_server_request_queue_open (capacity workers : Z) (execute_present memory_ok sync_ok : bool)
    : outcome server_request_queue :=
  if (capacity =? 0) || (workers =? 0) || negb execute_present
     || (SIZE_MAX / sizeof_entry <? capacity) || (SIZE_MAX / sizeof_thread <? workers)
     || (SIZE_MAX / sizeof_active <? workers)
  then Refused YVEX_ERR_INVALID_ARG
         "bounded queue, workers, execution callback, and output are required"
  else if negb memory_ok then
    Refused YVEX_ERR_NOMEM "request queue bounded storage allocation failed"
  else if negb sync_ok then
    Refused YVEX_ERR_STATE "request queue mutex initialization failed"
  else Done (ServerRequestQueue [] [] capacity workers 0 false false false).

(** src/src/server/request_queue.c, [yvex_server_request_queue_key] *)
Definition yvex_server_request_queue_key (engine_generation : Z) (serialization_scope : option string)
    : outcome string :=
  match serialization_scope with
  | Some (String _ _ as scope) =>
      if engine_generation =? 0 then
        Refused YVEX_ERR_INVALID_ARG
          "engine generation, serialization scope, and key output are required"
      else
        let output := (decimal engine_generation +:+ ":" +:+ scope)%string in
        if SERVER_REQUEST_QUEUE_KEY_CAP <=? strlen output then
          Refused YVEX_ERR_BOUNDS "engine request serialization key exceeds its bound"
        else Done output
  | _ =>
      Refused YVEX_ERR_INVALID_ARG
        "engine generation, serialization scope, and key output are required"
  end.

(** src/src/server/request_queue.c, [yvex_server_request_queue_submit]
    The new queue and the depth reported to the caller. *)
Definition yvex_server_request_queue_submit (q : server_request_queue) (work : option Z)
    (serialization_key : option string) : outcome (server_request_queue * Z) :=
  match work, serialization_key with
  | Some work, Some key =>
      if SERVER_REQUEST_QUEUE_KEY_CAP <=? strlen key then
        Refused YVEX_ERR_INVALID_ARG "request queue work and bounded key are required"
      else if negb (started q) || stopping q || (queue_count q =? queue_capacity q) then
        if queue_count q =? queue_capacity q
        then Refused YVEX_ERR_BOUNDS "bounded request queue is full"
        else Refused YVEX_ERR_STATE "request queue is not accepting work"
      else
        let q := q <| queue ::= λ l, l ++ [RequestQueueEntry work key] |> in
        Done (q, queue_count q)
  | _, _ => Refused YVEX_ERR_INVALID_ARG "request queue work and bounded key are required"
  end.

(** src/src/server/request_queue.c, [yvex_server_request_queue_request_stop] *)
Definition yvex_server_request_queue_request_stop (q : server_request_queue) : server_request_queue :=
  q <| stopping := true |>.

(** src/src/server/private.h, [server_request_queue_summary] *)
Record server_request_queue_summary := RequestQueueSummary {
  sum_queued : Z; sum_capacity : Z; sum_active : Z; sum_workers : Z;
}.

(** src/src/server/request_queue.c, [yvex_server_request_queue_snapshot] *)
Definition yvex_server_request_queue_snapshot (q : server_request_queue) : server_request_queue_summary :=
  RequestQueueSummary (queue_count q) (queue_capacity q) (active_count q) (worker_count q).

(** src/src/server/request_queue.c, [yvex_server_request_queue_finish]
    [joins] holds what [pthread_join] answers for each started worker. The queue is stopped and
    finished whatever the answers. *)
Definition yvex_server_request_queue_finish (q : server_request_queue) (joins : list bool)
    : server_request_queue * outcome unit :=
  let q := yvex_server_request_queue_request_stop q in
  if finished q then (q, Done tt)
  else (q <| worker_started := 0 |> <| finished := true |>,
        if forallb id joins then Done tt
        else Refused YVEX_ERR_STATE "request queue worker join failed").

(** The locked part of the start: a queue starts once and never after a stop. *)
Definition request_queue_start_locked (q : server_request_queue) : outcome server_request_queue :=
  if started q || stopping q then
    Refused YVEX_ERR_STATE "request queue cannot start twice or after stop"
  else Done (q <| started := true |>).

(** The thread-creation loop; [created] holds what [pthread_create] answers. *)
Fixpoint request_queue_create (q : server_request_queue) (created joins : list bool)
    : server_request_queue * outcome unit :=
  match created with
  | [] => (q, Done tt)
  | true :: created => request_queue_create (q <| worker_started ::= Z.succ |>) created joins
  | false :: _ =>
      let q := yvex_server_request_queue_request_stop q in
      ((yvex_server_request_queue_finish q joins).1,
       Refused YVEX_ERR_STATE "request queue worker creation failed")
  end.

(** src/src/server/request_queue.c, [yvex_server_request_queue_start] *)
Definition yvex_server_request_queue_start (q : server_request_queue) (created joins : list bool)
    : server_request_queue * outcome unit :=
  match request_queue_start_locked q with
  | Refused st why => (q, Refused st why)
  | Done q => request_queue_create q created joins
  end.

(** * Interleavings

    Every step is one critical section of the mutex. A worker is ready to take the mutex, asleep
    on the condition variable, executing an entry outside the mutex, or gone. The two logs record
    the entries in the order they were submitted and begun. *)

Inductive worker_status : Type :=
  | WReady
  | WAsleep
  | WExecuting (entry : request_queue_entry)
  | WExited.

#[export] Instance worker_status_eq_dec : EqDecision worker_status.
Proof. solve_decision. Defined.

Record rq_system := RqSystem {
  sys_queue : server_request_queue;
  sys_workers : list worker_status;
  sys_submitted : list request_queue_entry;
  sys_begun : list request_queue_entry;
}.

(** [pthread_cond_broadcast] *)
Definition broadcast (workers : list worker_status) : list worker_status :=
  (λ w, match w with WAsleep => WReady | w => w end) <$> workers.

Inductive rq_step : rq_system → rq_system → Prop :=
  | step_start q q' ws sub beg :
      request_queue_start_locked q = Done q' →
      rq_step (RqSystem q ws sub beg) (RqSystem q' ws sub beg)
  | step_spawn q ws sub beg :
      started q = true → Z.of_nat (length ws) < worker_count q →
      rq_step (RqSystem q ws sub beg)
        (RqSystem (q <| worker_started ::= Z.succ |>) (ws ++ [WReady]) sub beg)
  | step_submit q q' ws sub beg work key depth :
      yvex_server_request_queue_submit q (Some work) (Some key) = Done (q', depth) →
      rq_step (RqSystem q ws sub beg)
        (RqSystem q' (broadcast ws) (sub ++ [RequestQueueEntry work key]) beg)
  | step_stop q ws sub beg :
      rq_step (RqSystem q ws sub beg)
        (RqSystem (yvex_server_request_queue_request_stop q) (broadcast ws) sub beg)
  | step_wait q ws sub beg i :
      ws !! i = Some WReady → request_queue_worker_pass q = WorkerWait →
      rq_step (RqSystem q ws sub beg) (RqSystem q (<[i := WAsleep]> ws) sub beg)
  | step_exit q ws sub beg i :
      ws !! i = Some WReady → request_queue_worker_pass q = WorkerExit →
      rq_step (RqSystem q ws sub beg) (RqSystem q (<[i := WExited]> ws) sub beg)
  | step_begin q q' ws sub beg i e :
      ws !! i = Some WReady → request_queue_worker_pass q = WorkerExecute e q' →
      rq_step (RqSystem q ws sub beg) (RqSystem q' (<[i := WExecuting e]> ws) sub (beg ++ [e]))
  | step_end q ws sub beg i e :
      ws !! i = Some (WExecuting e) →
      rq_step (RqSystem q ws sub beg)
        (RqSystem (request_queue_release_locked q (rq_key e)) (broadcast (<[i := WReady]> ws)) sub beg)
  | step_spurious q ws sub beg i :
      ws !! i = Some WAsleep →
      rq_step (RqSystem q ws sub beg) (RqSystem q (<[i := WReady]> ws) sub beg).

Definition rq_initial (capacity workers : Z) : rq_system :=
  RqSystem (ServerRequestQueue [] [] capacity workers 0 false false false) [] [] [].

Definition rq_reachable (capacity workers : Z) (s : rq_system) : Prop :=
  rtc rq_step (rq_initial capacity workers) s.

(** The entries being executed. *)
Definition executing (ws : list worker_status) : list request_queue_entry :=
  omap (λ w, match w with WExecuting e => Some e | _ => None end) ws.

(** The entries of one session key, in order. *)
Definition of_key (key : string) (l : list request_queue_entry) : list request_queue_entry :=
  filter (λ e, rq_key e = key) l.

(** * Invariant *)

Lemma take_inactive_spec f l :
  match take_inactive f l with
  | Some (e, rest) => ∃ l1 l2, l = l1 ++ e :: l2 ∧ rest = l1 ++ l2 ∧ f (rq_key e) = true ∧
      Forall (λ x, f (rq_key x) = false) l1
  | None => Forall (λ x, f (rq_key x) = false) l
  end.
Proof.
  induction l as [|e l IH]; simpl; [done|]. destruct (f (rq_key e)) eqn:E.
  { exists [], l. done. }
  destruct (take_inactive f l) as [[e' rest]|]; simpl; [|by constructor].
  destruct IH as (l1 & l2 & -> & -> & ? & ?). exists (e :: l1), l2. split_and!; try done.
  by constructor.
Qed.

Lemma key_active_true q key : request_queue_key_active q key = true ↔ key ∈ active q.
Proof.
  unfold request_queue_key_active. rewrite existsb_exists. setoid_rewrite bool_decide_eq_true.
  rewrite list_elem_of_In. naive_solver.
Qed.

Lemma key_active_false q key : request_queue_key_active q key = false ↔ key ∉ active q.
Proof. rewrite <- key_active_true. by destruct (request_queue_key_active q key). Qed.

Lemma remove_first_perm key l : key ∈ l → l ≡ₚ key :: remove_first key l.
Proof.
  induction l as [|a l IH]; [by intros ?%elem_of_nil|]. simpl.
  case_bool_decide as E; [by subst|]. intros [->|H]%elem_of_cons; [done|].
  rewrite (IH H) at 1. apply perm_swap.
Qed.

Lemma executing_broadcast ws : executing (broadcast ws) = executing ws.
Proof. induction ws as [|[]]; cbn; try done. by f_equal. Qed.

Lemma length_executing ws : (length (executing ws) ≤ length ws)%nat.
Proof. induction ws as [|[] ws IH]; unfold executing in *; cbn in *; lia. Qed.

Lemma executing_insert ws i w w' :
  ws !! i = Some w →
  executing (<[i := w']> ws) ++ executing [w] ≡ₚ executing ws ++ executing [w'].
Proof.
  intros Hi. unfold executing. rewrite (insert_take_drop ws i w') by (by eapply lookup_lt_Some).
  rewrite <- (take_drop_middle ws i w Hi) at 3.
  change (w' :: drop (S i) ws) with ([w'] ++ drop (S i) ws).
  change (w :: drop (S i) ws) with ([w] ++ drop (S i) ws).
  rewrite !omap_app. solve_Permutation.
Qed.

Record rq_inv (capacity workers : Z) (s : rq_system) : Prop := RqInv {
  inv_capacity : queue_capacity (sys_queue s) = capacity;
  inv_worker_count : worker_count (sys_queue s) = workers;
  inv_queue : queue_count (sys_queue s) ≤ capacity;
  inv_workers : Z.of_nat (length (sys_workers s)) ≤ workers;
  inv_active : active (sys_queue s) ≡ₚ rq_key <$> executing (sys_workers s);
  inv_exclusive : NoDup (active (sys_queue s));
  inv_fifo : ∀ key, of_key key (sys_begun s) ++ of_key key (queue (sys_queue s)) =
                    of_key key (sys_submitted s);
  inv_asleep : WAsleep ∈ sys_workers s → request_queue_worker_pass (sys_queue s) = WorkerWait;
  inv_exited : WExited ∈ sys_workers s → stopping (sys_queue s) = true ∧ queue (sys_queue s) = [];
}.

Lemma select_locked_spec q e q' :
  request_queue_select_locked q = Some (e, q') →
  ∃ l1 l2, queue q = l1 ++ e :: l2 ∧ Forall (λ x, rq_key x ∈ active q) l1 ∧ rq_key e ∉ active q ∧
    q' = ((q <| queue := l1 ++ l2 |>) <| active := active q ++ [rq_key e] |>).
Proof.
  unfold request_queue_select_locked. pose proof (take_inactive_spec
    (λ key, negb (request_queue_key_active q key)) (queue q)) as H.
  destruct (take_inactive _ _) as [[e' rest]|]; [|done]. simpl. intros [= <- <-].
  destruct H as (l1 & l2 & Hq & -> & Hf & Hl1). exists l1, l2. split_and!; [done| | |done].
  - eapply Forall_impl; [exact Hl1|]. intros x Hx%negb_false_iff. by apply key_active_true.
  - by apply key_active_false, negb_true_iff.
Qed.

Lemma worker_pass_execute q e q' :
  request_queue_worker_pass q = WorkerExecute e q' → request_queue_select_locked q = Some (e, q').
Proof. unfold request_queue_worker_pass. repeat case_match; naive_solver. Qed.

Lemma worker_pass_wait q :
  request_queue_worker_pass q = WorkerWait ↔
  stopping q = false ∧ queue q = [] ∨ queue q ≠ [] ∧ Forall (λ x, rq_key x ∈ active q) (queue q).
Proof.
  unfold request_queue_worker_pass, queue_count.
  destruct (Z.eqb_spec (Z.of_nat (length (queue q))) 0) as [E|E].
  - assert (queue q = []) as -> by (destruct (queue q); done).
    destruct (stopping q); naive_solver.
  - assert (queue q ≠ []) by (intros Hq; by rewrite Hq in E).
    rewrite andb_false_r. unfold request_queue_select_locked.
    pose proof (take_inactive_spec (λ key, negb (request_queue_key_active q key)) (queue q)) as H2.
    destruct (take_inactive _ _) as [[e rest]|]; simpl; (split; [try done|]).
    + intros [[_ ?]|[_ Hall]]; [done|]. destruct H2 as (l1 & l2 & Hq & _ & He & _).
      rewrite Hq in Hall. apply Forall_app in Hall as [_ [He2 _]%Forall_cons].
      apply negb_true_iff, key_active_false in He. done.
    + intros _. right. split; [done|]. eapply Forall_impl; [exact H2|].
      intros x Hx%negb_false_iff. by apply key_active_true.
    + done.
Qed.

Lemma worker_pass_wait_ext q q' :
  stopping q' = stopping q → queue q' = queue q → active q' = active q →
  request_queue_worker_pass q = WorkerWait → request_queue_worker_pass q' = WorkerWait.
Proof. rewrite !worker_pass_wait. by intros -> -> ->. Qed.

Lemma of_key_app key l1 l2 : of_key key (l1 ++ l2) = of_key key l1 ++ of_key key l2.
Proof. apply filter_app. Qed.

(** The first entry of its key: nothing before it in the queue carries the same key. *)
Lemma of_key_select key l1 e l2 (act : list string) :
  Forall (λ x, rq_key x ∈ act) l1 → rq_key e ∉ act →
  of_key key [e] ++ of_key key (l1 ++ l2) = of_key key (l1 ++ e :: l2).
Proof.
  intros Hl1 He. rewrite !of_key_app. change (e :: l2) with ([e] ++ l2). rewrite of_key_app.
  destruct (decide (rq_key e = key)) as [<-|Hne].
  - replace (of_key (rq_key e) l1) with (@nil request_queue_entry); [done|].
    symmetry. induction Hl1 as [|x l1 Hx _ IH]; [done|].
    unfold of_key in *. rewrite filter_cons_False; [done|]. by intros E; rewrite E in Hx.
  - unfold of_key at 1 5. rewrite filter_cons_False by done. done.
Qed.

Lemma broadcast_no_sleeper ws : WAsleep ∉ broadcast ws.
Proof. unfold broadcast. intros ([] & ? & ?)%list_elem_of_fmap; done. Qed.

Lemma broadcast_exited ws : WExited ∈ broadcast ws → WExited ∈ ws.
Proof. unfold broadcast. intros ([] & ? & ?)%list_elem_of_fmap; done. Qed.

Lemma elem_insert_other {A} (l : list A) i x y : x ∈ <[i := y]> l → x = y ∨ x ∈ l.
Proof.
  intros [j Hj]%list_elem_of_lookup. rewrite list_lookup_insert in Hj.
  case_decide; simplify_eq; [by left|]. right. by eapply list_elem_of_lookup_2.
Qed.

Section invariant.
Context (capacity workers : Z).

Lemma inv_start q q' ws sub beg :
  request_queue_start_locked q = Done q' →
  rq_inv capacity workers (RqSystem q ws sub beg) → rq_inv capacity workers (RqSystem q' ws sub beg).
Proof.
  unfold request_queue_start_locked. case_match; [done|]. intros [= <-] [].
  constructor; try done. intros H2%inv_asleep0. by eapply worker_pass_wait_ext in H2.
Qed.

Lemma inv_spawn q ws sub beg :
  Z.of_nat (length ws) < worker_count q →
  rq_inv capacity workers (RqSystem q ws sub beg) →
  rq_inv capacity workers
    (RqSystem (q <| worker_started ::= Z.succ |>) (ws ++ [WReady]) sub beg).
Proof.
  intros Hws []. constructor; simpl in *; try done.
  - rewrite length_app. simpl. lia.
  - unfold executing. rewrite omap_app. simpl. by rewrite app_nil_r.
  - intros [H|?%list_elem_of_singleton]%elem_of_app; [|done].
    apply inv_asleep0 in H. by eapply worker_pass_wait_ext in H.
  - intros [?|?%list_elem_of_singleton]%elem_of_app; [|done]. by apply inv_exited0.
Qed.

Lemma inv_submit q q' ws sub beg work key depth :
  yvex_server_request_queue_submit q (Some work) (Some key) = Done (q', depth) →
  rq_inv capacity workers (RqSystem q ws sub beg) →
  rq_inv capacity workers
    (RqSystem q' (broadcast ws) (sub ++ [RequestQueueEntry work key]) beg).
Proof.
  unfold yvex_server_request_queue_submit. case_match; [done|].
  destruct (negb (started q) || stopping q || (queue_count q =? queue_capacity q)) eqn:E;
    [by case_match|].
  intros [= <- <-] []; guards. constructor; simpl in *; try done.
  - unfold queue_count in *. simpl. rewrite length_app. simpl. lia.
  - unfold broadcast. by rewrite length_fmap.
  - by rewrite executing_broadcast.
  - intros k. rewrite !of_key_app, (assoc_L (++)). by rewrite inv_fifo0.
  - intros Hbad%broadcast_no_sleeper; done.
  - intros Hbad%broadcast_exited%inv_exited0. destruct Hbad. congruence.
Qed.

Lemma inv_stop q ws sub beg :
  rq_inv capacity workers (RqSystem q ws sub beg) →
  rq_inv capacity workers
    (RqSystem (yvex_server_request_queue_request_stop q) (broadcast ws) sub beg).
Proof.
  intros []. constructor; simpl in *; try done.
  - unfold broadcast. by rewrite length_fmap.
  - by rewrite executing_broadcast.
  - intros Hbad%broadcast_no_sleeper; done.
  - intros Hbad%broadcast_exited%inv_exited0. by destruct Hbad.
Qed.

(** A worker that was ready goes to sleep, leaves, or is woken: nobody starts or stops executing. *)
Lemma inv_idle q ws sub beg i w w' :
  ws !! i = Some w → executing [w] = [] → executing [w'] = [] →
  (w' = WAsleep → request_queue_worker_pass q = WorkerWait) →
  (w' = WExited → stopping q = true ∧ queue q = []) →
  rq_inv capacity workers (RqSystem q ws sub beg) →
  rq_inv capacity workers (RqSystem q (<[i := w']> ws) sub beg).
Proof.
  intros Hi Hw Hw' Hs He [].
  pose proof (executing_insert ws i w w' Hi) as P. rewrite Hw, Hw', !app_nil_r in P.
  constructor; simpl in *; try done.
  - by rewrite length_insert.
  - rewrite inv_active0. by apply fmap_Permutation.
  - intros [H|H]%elem_insert_other; [by apply Hs|by apply inv_asleep0].
  - intros [H|H]%elem_insert_other; [by apply He|by apply inv_exited0].
Qed.

Lemma worker_pass_exit q :
  request_queue_worker_pass q = WorkerExit → stopping q = true ∧ queue q = [].
Proof.
  unfold request_queue_worker_pass, queue_count. intros H.
  destruct (stopping q); destruct (queue q); simpl in *; repeat case_match; done.
Qed.

Lemma inv_begin q q' ws sub beg i e :
  ws !! i = Some WReady → request_queue_worker_pass q = WorkerExecute e q' →
  rq_inv capacity workers (RqSystem q ws sub beg) →
  rq_inv capacity workers (RqSystem q' (<[i := WExecuting e]> ws) sub (beg ++ [e])).
Proof.
  intros Hi Hpass []. pose proof (worker_pass_execute _ _ _ Hpass) as Hsel.
  apply select_locked_spec in Hsel as (l1 & l2 & Hq & Hl1 & He & ->).
  constructor; simpl in *; try done.
  - unfold queue_count in *. simpl. rewrite Hq, !length_app in *. simpl in *. lia.
  - by rewrite length_insert.
  - rewrite inv_active0.
    pose proof (executing_insert ws i WReady (WExecuting e) Hi) as P.
    cbn in P. rewrite app_nil_r in P. rewrite P, fmap_app. done.
  - apply NoDup_app. split_and!; [done| |apply NoDup_singleton].
    intros x Hx ->%list_elem_of_singleton. done.
  - intros k. rewrite of_key_app, <- (assoc_L (++)).
    rewrite (of_key_select k l1 e l2 (active q)) by done. by rewrite <- Hq.
  - intros [H|H]%elem_insert_other; [done|]. apply inv_asleep0 in H. congruence.
  - intros [H|H]%elem_insert_other; [done|]. apply inv_exited0 in H as [? H].
    rewrite Hq in H. by destruct l1.
Qed.

Lemma inv_end q ws sub beg i e :
  ws !! i = Some (WExecuting e) →
  rq_inv capacity workers (RqSystem q ws sub beg) →
  rq_inv capacity workers
    (RqSystem (request_queue_release_locked q (rq_key e)) (broadcast (<[i := WReady]> ws)) sub beg).
Proof.
  intros Hi []. simpl in *.
  pose proof (executing_insert ws i (WExecuting e) WReady Hi) as P. cbn in P.
  rewrite app_nil_r in P.
  assert (Hact : active q ≡ₚ rq_key e :: (rq_key <$> executing (<[i := WReady]> ws))).
  { rewrite inv_active0, <- P, fmap_app. simpl. symmetry. apply Permutation_cons_append. }
  assert (Hin : rq_key e ∈ active q) by (rewrite Hact; by left).
  pose proof (remove_first_perm _ _ Hin) as Hrem.
  constructor; simpl; try done.
  - unfold broadcast. by rewrite length_fmap, length_insert.
  - rewrite executing_broadcast. apply (Permutation_cons_inv (a := rq_key e)).
    by rewrite <- Hrem, Hact.
  - rewrite Hrem in inv_exclusive0. by apply NoDup_cons in inv_exclusive0 as [_ ?].
  - intros Hbad%broadcast_no_sleeper; done.
  - intros [H|H]%broadcast_exited%elem_insert_other; [done|by apply inv_exited0].
Qed.

Lemma rq_step_inv s s' :
  rq_inv capacity workers s → rq_step s s' → rq_inv capacity workers s'.
Proof.
  intros Hinv Hstep. destruct Hstep.
  - by eapply inv_start.
  - by eapply inv_spawn.
  - by eapply inv_submit.
  - by eapply inv_stop.
  - by eapply (inv_idle _ _ _ _ _ WReady).
  - eapply (inv_idle _ _ _ _ _ WReady); try done. intros _. by apply worker_pass_exit.
  - by eapply inv_begin.
  - by eapply inv_end.
  - by eapply (inv_idle _ _ _ _ _ WAsleep).
Qed.

Lemma rq_reachable_inv s :
  0 ≤ capacity → 0 ≤ workers → rq_reachable capacity workers s → rq_inv capacity workers s.
Proof.
  intros Hc Hw. unfold rq_reachable. apply rtc_ind_r.
  - constructor; simpl; try done; try lia; try (by intros ?%elem_of_nil). apply NoDup_nil_2.
  - intros x y _ Hstep Hinv. by eapply rq_step_inv.
Qed.
End invariant.

(** C24: However submitters, workers and a stop request interleave, no two workers ever execute
    entries with the same serialization key, the active table holds exactly the keys being
    executed, and neither bounded array overflows. *)
Theorem request_queue_exclusive capacity workers s :
  0 ≤ capacity → 0 ≤ workers → rq_reachable capacity workers s →
  NoDup (rq_key <$> executing (sys_workers s)) ∧
  active (sys_queue s) ≡ₚ rq_key <$> executing (sys_workers s) ∧
  queue_count (sys_queue s) ≤ capacity ∧ active_count (sys_queue s) ≤ workers.
Proof.
  intros Hc Hw Hr. destruct (rq_reachable_inv _ _ _ Hc Hw Hr) as [? ? ? Hn Ha Hx _ _ _].
  split; [by rewrite <- Ha|]. split; [done|]. split; [done|].
  unfold active_count. rewrite Ha, length_fmap.
  pose proof (length_executing (sys_workers s)). lia.
Qed.

(** Work of one session is begun in the order it was submitted, each entry once: for every key
    the entries begun so far followed by those still queued are exactly those accepted. *)
Theorem request_queue_fifo_per_key capacity workers s key :
  0 ≤ capacity → 0 ≤ workers → rq_reachable capacity workers s →
  of_key key (sys_begun s) ++ of_key key (queue (sys_queue s)) = of_key key (sys_submitted s).
Proof. intros Hc Hw Hr. by apply (rq_reachable_inv capacity workers s). Qed.

(** C25: No wake-up is lost: when every started worker is asleep or gone, nothing is queued, and if
    a stop was requested then every worker has left, so the joins of the finish return. *)
Theorem request_queue_no_lost_wakeup capacity workers s :
  0 ≤ capacity → 0 ≤ workers → rq_reachable capacity workers s →
  sys_workers s ≠ [] → Forall (λ w, w = WAsleep ∨ w = WExited) (sys_workers s) →
  queue (sys_queue s) = [] ∧
  (stopping (sys_queue s) = true → Forall (λ w, w = WExited) (sys_workers s)).
Proof.
  intros Hc Hw Hr Hne Hidle.
  destruct (rq_reachable_inv _ _ _ Hc Hw Hr) as [_ _ _ _ Ha _ _ Hs He].
  destruct s as [q ws sub beg]; simpl in *.
  assert (Hex : executing ws = []).
  { clear -Hidle. induction Hidle as [|w ws [-> | ->] _ IH]; done. }
  assert (Hq : queue q = []).
  { destruct ws as [|w ws]; [done|]. apply Forall_cons in Hidle as [[-> | ->] _].
    - specialize (Hs ltac:(by left)). apply worker_pass_wait in Hs as [[_ ?]|[Hq Hall]]; [done|].
      destruct (queue q) as [|e l]; [done|]. apply Forall_cons in Hall as [Hin _].
      rewrite Ha, Hex in Hin. by apply elem_of_nil in Hin.
    - by apply He; left. }
  split; [done|]. intros Hstop. apply Forall_forall. intros w Hin.
  rewrite Forall_forall in Hidle. destruct (Hidle w Hin) as [->|]; [|done].
  specialize (Hs Hin). apply worker_pass_wait in Hs as [[? _]|[? _]]; congruence.
Qed.

(** ** Witness run

    One worker is started, two entries of one session arrive, the worker begins the first, a stop
    is requested, both entries are executed and the worker leaves. *)

Definition rq_run_entries : list request_queue_entry :=
  [RequestQueueEntry 10 "1:a"; RequestQueueEntry 11 "1:a"].

Definition rq_run_mid : rq_system :=
  RqSystem (ServerRequestQueue [RequestQueueEntry 11 "1:a"] ["1:a"%string] 4 1 1 true false false)
    [WExecuting (RequestQueueEntry 10 "1:a")] rq_run_entries [RequestQueueEntry 10 "1:a"].

Definition rq_run_final : rq_system :=
  RqSystem (ServerRequestQueue [] [] 4 1 1 true true false) [WExited] rq_run_entries rq_run_entries.

Lemma rq_run_mid_reachable : rq_reachable 4 1 rq_run_mid.
Proof.
  eapply rtc_l; [by eapply step_start|]. eapply rtc_l; [by eapply step_spawn|].
  eapply rtc_l; [by eapply (step_submit _ _ _ _ _ 10 "1:a")|].
  eapply rtc_l; [by eapply (step_submit _ _ _ _ _ 11 "1:a")|].
  eapply rtc_l; [by eapply (step_begin _ _ _ _ _ 0)|]. apply rtc_refl.
Qed.

Lemma rq_run_final_reachable : rq_reachable 4 1 rq_run_final.
Proof.
  unfold rq_reachable. etrans; [exact rq_run_mid_reachable|].
  eapply rtc_l; [by eapply step_stop|]. eapply rtc_l; [by eapply (step_end _ _ _ _ 0)|].
  eapply rtc_l; [by eapply (step_begin _ _ _ _ _ 0)|].
  eapply rtc_l; [by eapply (step_end _ _ _ _ 0)|].
  eapply rtc_l; [by eapply (step_exit _ _ _ _ 0)|]. apply rtc_refl.
Qed.

Lemma request_queue_exclusive_witness :
  NoDup ["1:a"%string] ∧ active (sys_queue rq_run_mid) ≡ₚ ["1:a"%string] ∧ 1 ≤ 4 ∧ 1 ≤ 1.
Proof. apply (request_queue_exclusive 4 1 rq_run_mid); [lia|lia|exact rq_run_mid_reachable]. Defined.

Lemma request_queue_fifo_per_key_witness :
  of_key "1:a" [RequestQueueEntry 10 "1:a"] ++ of_key "1:a" [RequestQueueEntry 11 "1:a"] =
  of_key "1:a" rq_run_entries.
Proof.
  apply (request_queue_fifo_per_key 4 1 rq_run_mid); [lia|lia|exact rq_run_mid_reachable].
Defined.

Lemma request_queue_no_lost_wakeup_witness :
  queue (sys_queue rq_run_final) = [] ∧
  (stopping (sys_queue rq_run_final) = true → Forall (λ w, w = WExited) (sys_workers rq_run_final)).
Proof.
  apply (request_queue_no_lost_wakeup 4 1 rq_run_final);
    [lia|lia|exact rq_run_final_reachable|discriminate|repeat constructor; right; reflexivity].
Defined.

(** * Serialization keys *)

(** A serialization key names exactly one engine generation and scope: two requests get the
    same bounded key only when both agree, whatever separators the scope contains. *)
Theorem request_queue_key_injective g g' scope scope' key :
  is_u64 g → is_u64 g' →
  yvex_server_request_queue_key g (Some scope) = Done key →
  yvex_server_request_queue_key g' (Some scope') = Done key →
  g = g' ∧ scope = scope' ∧ strlen key < SERVER_REQUEST_QUEUE_KEY_CAP.
Proof.
  intros Hg Hg'. unfold yvex_server_request_queue_key.
  destruct scope as [|c s], scope' as [|c' s']; try done.
  case_match; [done|]. case_match eqn:Elen; [done|]. intros [= <-].
  case_match; [done|]. case_match; [done|]. intros [= E].
  change (decimal g +:+ ":" +:+ String c s)%string
    with (decimal g +:+ String ":" (String c s))%string in *.
  change (decimal g' +:+ ":" +:+ String c' s')%string
    with (decimal g' +:+ String ":" (String c' s'))%string in *.
  symmetry in E. apply split_at_char in E as [Ed Es];
    [|apply decimal_no_char; [done|right; reflexivity]..].
  apply decimal_inj in Ed; [|done..]. split; [done|]. split; [done|].
  by apply Z.leb_gt in Elen.
Qed.

Lemma request_queue_key_injective_witness :
  12 = 12 ∧ "s:1"%string = "s:1"%string ∧ strlen "12:s:1" < SERVER_REQUEST_QUEUE_KEY_CAP.
Proof.
  apply (request_queue_key_injective 12 12 "s:1" "s:1" "12:s:1"); try reflexivity; ulia.
Defined.
