(* ===== verification/ExecutionBatch.v ===== *)
(** Execution batches, compatibility keys and the expert width policy of [src/graph/worklist.c]:
    sealing derives an identity from every field, validation re-derives it.

    C enumerations that the code range-checks are integers here. An array pointer and its count are
    one list; the [*_count] field of the struct is its length. *)

From S2P Require Import Prelude Status Sha256 Identity.

(** * Vocabulary *)

Definition YVEX_EXECUTION_BATCH_SCHEMA_V2 : Z := 2.
Definition YVEX_EXECUTION_COMPATIBILITY_SCHEMA_V2 : Z := 2.
Definition YVEX_EXPERT_WORKLIST_POLICY_SCHEMA_V2 : Z := 2.

(** src/include/yvex/internal/execution_batch.h, [yvex_engine_implementation] *)
Definition YVEX_ENGINE_IMPLEMENTATION_DEVICE_MATRIX_TILE : Z := 3.
Definition YVEX_ENGINE_IMPLEMENTATION_COUNT : Z := 4.

(** src/include/yvex/internal/execution_batch.h, [yvex_execution_phase] *)
Definition YVEX_EXECUTION_PHASE_PREFILL : Z := 0.
Definition YVEX_EXECUTION_PHASE_DECODE : Z := 1.
Definition YVEX_EXECUTION_PHASE_VERIFY : Z := 3.
Definition YVEX_EXECUTION_PHASE_COUNT : Z := 7.

(** src/include/yvex/internal/execution_batch.h, [yvex_execution_compatibility_operation] *)
Definition YVEX_EXECUTION_COMPATIBILITY_OPERATION_COUNT : Z := 3.

(** src/include/yvex/internal/execution_batch.h, [yvex_execution_batch_provenance] *)
Definition YVEX_EXECUTION_BATCH_SINGLE_ROW : Z := 0.
Definition YVEX_EXECUTION_BATCH_SPECULATIVE_VERIFICATION : Z := 1.
Definition YVEX_EXECUTION_BATCH_MULTI_SESSION : Z := 2.
Definition YVEX_EXECUTION_BATCH_PREFILL : Z := 3.
Definition YVEX_EXECUTION_BATCH_COMPILED_COMPATIBLE : Z := 4.

(** src/include/yvex/internal/execution_batch.h, [yvex_execution_batch_source] *)
Record yvex_execution_batch_source := BatchSource {
  src_execution_generation : Z;
  src_state_generation : Z;
  src_identity : string;
}.

(** src/include/yvex/internal/execution_batch.h, [yvex_execution_batch_row] *)
Record yvex_execution_batch_row := BatchRow {
  row_source_index : Z;
  row_source_row : Z;
  row_sequence_position : Z;
  row_candidate_ordinal : Z;
  row_publication_ordinal : Z;
  row_candidate_present : Z;
}.

(** src/include/yvex/internal/execution_batch.h, [yvex_execution_batch] *)
Record yvex_execution_batch := ExecutionBatch {
  eb_schema_version : Z;
  eb_provenance : Z;
  eb_phase : Z;
  eb_engine_generation : Z;
  eb_sources : list yvex_execution_batch_source;
  eb_rows : list yvex_execution_batch_row;
  eb_execution_profile_identity : string;
  eb_operation_identity : string;
  eb_identity : string;
}.

#[export] Instance yvex_execution_batch_eta : Eta yvex_execution_batch := λ b,
  ExecutionBatch (eb_schema_version b) (eb_provenance b) (eb_phase b) (eb_engine_generation b)
    (eb_sources b) (eb_rows b) (eb_execution_profile_identity b) (eb_operation_identity b)
    (eb_identity b).

Definition eb_row_count (b : yvex_execution_batch) : Z := Z.of_nat (length (eb_rows b)).
Definition eb_source_count (b : yvex_execution_batch) : Z := Z.of_nat (length (eb_sources b)).

(** The status and the [err] argument after a refusal or a success. *)
Definition conclude {A} (err : option yvex_error) (o : outcome A) : yvex_status * option yvex_error :=
  (outcome_status o, err_after err "graph.worklist" o).

(** src/src/graph/worklist.c, [worklist_refuse] *)
Definition worklist_refuse {A} (status : yvex_status) (reason : string) : outcome A :=
  Refused status reason.

(** src/src/graph/worklist.c, [worklist_identity_valid] *)
Definition worklist_identity_valid (identity : string) : bool :=
  yvex_sha256_hex_valid (Some identity).

(** * Sealing a batch *)

(** Every element of the tail differs from the head, all the way down the array. *)
Fixpoint pairwise {A} (differ : A → A → bool) (l : list A) : bool :=
  match l with
  | [] => true
  | a :: l => forallb (differ a) l && pairwise differ l
  end.

(** src/src/graph/worklist.c, [execution_batch_sources_valid] *)
Definition execution_batch_sources_valid (b : yvex_execution_batch) : bool :=
  negb ((eb_source_count b =? 0) || (eb_row_count b <? eb_source_count b)
        || ((eb_provenance b =? YVEX_EXECUTION_BATCH_MULTI_SESSION) && (eb_source_count b <? 2))
        || (negb (eb_provenance b =? YVEX_EXECUTION_BATCH_MULTI_SESSION)
            && negb (eb_source_count b =? 1)))
  && forallb (λ s, negb (src_execution_generation s =? 0) && worklist_identity_valid (src_identity s))
       (eb_sources b)
  && pairwise (λ s t, negb (bool_decide (src_identity s = src_identity t))) (eb_sources b)
  && forallb (λ r, negb ((eb_source_count b <=? row_source_index r)
                         || ((row_candidate_present r =? 0) && negb (row_candidate_ordinal r =? 0))))
       (eb_rows b)
  && pairwise (λ r t, negb ((row_source_index r =? row_source_index t)
                            && (row_source_row r =? row_source_row t))) (eb_rows b).

(** src/src/graph/worklist.c, [execution_batch_sources_hash] *)
Definition execution_batch_sources_fields (b : yvex_execution_batch) : list field :=
  (eb_sources b ≫= λ s,
     [FU64 (src_execution_generation s); FU64 (src_state_generation s); FText (src_identity s)]) ++
  (eb_rows b ≫= λ r,
     [FU64 (row_source_index r); FU64 (row_source_row r); FU64 (row_sequence_position r);
      FU64 (u64 (row_candidate_present r)); FU64 (row_candidate_ordinal r);
      FU64 (row_publication_ordinal r)]).

(** The guard of [yvex_execution_batch_seal]. *)
Definition execution_batch_admissible (b : yvex_execution_batch) : bool :=
  negb (negb (eb_schema_version b =? YVEX_EXECUTION_BATCH_SCHEMA_V2)
        || (YVEX_EXECUTION_BATCH_COMPILED_COMPATIBLE <? eb_provenance b)
        || (YVEX_EXECUTION_PHASE_COUNT <=? eb_phase b)
        || (eb_row_count b =? 0) || (64 <=? eb_row_count b)
        || ((eb_provenance b =? YVEX_EXECUTION_BATCH_SINGLE_ROW) && negb (eb_row_count b =? 1))
        || ((eb_provenance b =? YVEX_EXECUTION_BATCH_SPECULATIVE_VERIFICATION)
            && negb (eb_phase b =? YVEX_EXECUTION_PHASE_VERIFY))
        || ((eb_provenance b =? YVEX_EXECUTION_BATCH_MULTI_SESSION) && (eb_row_count b <? 2))
        || ((eb_provenance b =? YVEX_EXECUTION_BATCH_PREFILL)
            && negb (eb_phase b =? YVEX_EXECUTION_PHASE_PREFILL))
        || (eb_engine_generation b =? 0) || negb (execution_batch_sources_valid b)
        || negb (worklist_identity_valid (eb_execution_profile_identity b))
        || negb (worklist_identity_valid (eb_operation_identity b))).

(** The identity preimage of a batch. *)
Definition execution_batch_fields (b : yvex_execution_batch) : list field :=
  [FText "yvex.execution-batch.v2"; FU64 (eb_schema_version b); FU64 (eb_provenance b);
   FU64 (eb_phase b); FU64 (eb_row_count b); FU64 (eb_source_count b); FU64 (eb_engine_generation b)]
  ++ execution_batch_sources_fields b ++
  [FText (eb_execution_profile_identity b); FText (eb_operation_identity b)].

(** src/src/graph/worklist.c, [yvex_execution_batch_seal] *)
Definition yvex_execution_batch_seal (b : yvex_execution_batch) : outcome yvex_execution_batch :=
  if negb (execution_batch_admissible b) then
    worklist_refuse YVEX_ERR_INVALID_ARG "execution batch identity or provenance is incomplete"
  else match sha256_identity (execution_batch_fields b) with
       | None => worklist_refuse YVEX_ERR_STATE "execution batch identity derivation failed"
       | Some identity => Done (b <| eb_identity := identity |>)
       end.

(** src/src/graph/worklist.c, [yvex_execution_batch_validate]
    A refusal of the inner seal is reported as [yvex_error_code(err)]. *)
Definition yvex_execution_batch_validate (b : yvex_execution_batch) (err : option yvex_error)
    : yvex_status * option yvex_error :=
  if negb (worklist_identity_valid (eb_identity b)) then
    conclude err (@worklist_refuse unit YVEX_ERR_INVALID_ARG "execution batch identity is unavailable")
  else match yvex_execution_batch_seal b with
       | Refused st why =>
           let err := err_after err "graph.worklist" (@Refused unit st why) in
           (yvex_error_code err, err)
       | Done expected =>
           if negb (bool_decide (eb_identity b = eb_identity expected)) then
             conclude err (@worklist_refuse unit YVEX_ERR_FORMAT "execution batch identity is stale")
           else conclude err (Done tt)
       end.

(** * Compatibility keys *)

(** src/include/yvex/internal/execution_batch.h, [yvex_execution_compatibility_key] *)
Record yvex_execution_compatibility_key := CompatibilityKey {
  ck_schema_version : Z; ck_phase : Z; ck_operation : Z;
  ck_backend_kind : Z; ck_tensor_scope : Z; ck_execution_class : Z;
  ck_engine_generation : Z; ck_layer_ordinal : Z; ck_row_width : Z; ck_admitted_width : Z;
}.

(** src/src/graph/worklist.c, [yvex_execution_compatibility_key_validate]
    [None] is the null key. *)
Definition yvex_execution_compatibility_key_validate
    (key : option yvex_execution_compatibility_key) : outcome unit :=
  match key with
  | None => worklist_refuse YVEX_ERR_INVALID_ARG
              "execution compatibility geometry or engine handle is incomplete"
  | Some k =>
      if negb (ck_schema_version k =? YVEX_EXECUTION_COMPATIBILITY_SCHEMA_V2)
         || (YVEX_EXECUTION_PHASE_COUNT <=? ck_phase k)
         || (YVEX_EXECUTION_COMPATIBILITY_OPERATION_COUNT <=? ck_operation k)
         || (ck_engine_generation k =? 0) || (ck_row_width k =? 0) || (ck_admitted_width k =? 0)
         || (64 <=? ck_admitted_width k)
      then worklist_refuse YVEX_ERR_INVALID_ARG
             "execution compatibility geometry or engine handle is incomplete"
      else Done tt
  end.

(** src/src/graph/worklist.c, [yvex_execution_compatibility_keys_match] *)
Definition yvex_execution_compatibility_keys_match
    (left right : option yvex_execution_compatibility_key) : bool :=
  match yvex_execution_compatibility_key_validate left,
        yvex_execution_compatibility_key_validate right, left, right with
  | Done _, Done _, Some l, Some r =>
      (ck_phase l =? ck_phase r) && (ck_operation l =? ck_operation r)
      && (ck_backend_kind l =? ck_backend_kind r) && (ck_tensor_scope l =? ck_tensor_scope r)
      && (ck_execution_class l =? ck_execution_class r)
      && (ck_engine_generation l =? ck_engine_generation r)
      && (ck_layer_ordinal l =? ck_layer_ordinal r) && (ck_row_width l =? ck_row_width r)
      && (ck_admitted_width l =? ck_admitted_width r)
  | _, _, _, _ => false
  end.

(** * Width policies *)

(** src/include/yvex/internal/execution_batch.h, [yvex_expert_worklist_policy] *)
Record yvex_expert_worklist_policy := WorklistPolicy {
  wp_schema_version : Z;
  wp_supported_width_mask : Z;
  wp_matrix_tile_minimum : Z;
  wp_row_implementation : Z;
  wp_matrix_implementation : Z;
  wp_identity : string;
}.

#[export] Instance yvex_expert_worklist_policy_eta : Eta yvex_expert_worklist_policy := λ p,
  WorklistPolicy (wp_schema_version p) (wp_supported_width_mask p) (wp_matrix_tile_minimum p)
    (wp_row_implementation p) (wp_matrix_implementation p) (wp_identity p).

Definition expert_worklist_policy_fields (p : yvex_expert_worklist_policy) : list field :=
  [FText "yvex.expert-worklist-policy.v2"; FU64 (wp_schema_version p);
   FU64 (wp_supported_width_mask p); FU64 (wp_matrix_tile_minimum p);
   FU64 (wp_row_implementation p); FU64 (wp_matrix_implementation p)].

(** src/src/graph/worklist.c, [yvex_expert_worklist_policy_seal] *)
Definition yvex_expert_worklist_policy_seal (p : yvex_expert_worklist_policy)
    : outcome yvex_expert_worklist_policy :=
  if negb (wp_schema_version p =? YVEX_EXPERT_WORKLIST_POLICY_SCHEMA_V2)
     || (Z.land (wp_supported_width_mask p) 2 =? 0)
     || negb (Z.land (wp_supported_width_mask p) 1 =? 0)
     || negb (Z.shiftr (wp_supported_width_mask p) 63 =? 0)
     || (YVEX_ENGINE_IMPLEMENTATION_COUNT <=? wp_row_implementation p)
  then worklist_refuse YVEX_ERR_INVALID_ARG "expert worklist width policy is incomplete"
  else
    let matrix_tile := negb (wp_matrix_tile_minimum p =? 0) in
    if negb (Bool.eqb matrix_tile
               (negb (wp_matrix_implementation p =? YVEX_ENGINE_IMPLEMENTATION_COUNT)))
       || (matrix_tile &&
           ((63 <=? wp_matrix_tile_minimum p)
            || (Z.land (wp_supported_width_mask p) (Z.shiftl 1 (wp_matrix_tile_minimum p)) =? 0)
            || negb (wp_matrix_implementation p =? YVEX_ENGINE_IMPLEMENTATION_DEVICE_MATRIX_TILE)
            || (wp_row_implementation p =? wp_matrix_implementation p)))
    then worklist_refuse YVEX_ERR_INVALID_ARG "expert matrix-tile width policy is inconsistent"
    else match sha256_identity (expert_worklist_policy_fields p) with
         | None => worklist_refuse YVEX_ERR_STATE "expert worklist policy identity derivation failed"
         | Some identity => Done (p <| wp_identity := identity |>)
         end.

(** src/src/graph/worklist.c, [yvex_expert_worklist_policy_validate] *)
Definition yvex_expert_worklist_policy_validate (p : yvex_expert_worklist_policy)
    (err : option yvex_error) : yvex_status * option yvex_error :=
  if negb (worklist_identity_valid (wp_identity p)) then
    conclude err (@worklist_refuse unit YVEX_ERR_INVALID_ARG
                    "expert worklist policy identity is unavailable")
  else match yvex_expert_worklist_policy_seal p with
       | Refused st why =>
           let err := err_after err "graph.worklist" (@Refused unit st why) in
           (yvex_error_code err, err)
       | Done expected =>
           if negb (bool_decide (wp_identity p = wp_identity expected)) then
             conclude err (@worklist_refuse unit YVEX_ERR_FORMAT
                             "expert worklist policy identity is stale")
           else conclude err (Done tt)
       end.

(** * Facts about sealing *)

(** The machine ranges of the struct members. *)
Definition batch_in_range (b : yvex_execution_batch) : Prop :=
  is_u32 (eb_schema_version b) ∧ is_u32 (eb_provenance b) ∧ is_u32 (eb_phase b) ∧
  is_u64 (eb_engine_generation b) ∧
  Forall (λ s, is_u64 (src_execution_generation s) ∧ is_u64 (src_state_generation s)) (eb_sources b) ∧
  Forall (λ r, is_u64 (row_source_index r) ∧ is_u64 (row_source_row r) ∧
               is_u64 (row_sequence_position r) ∧ is_u64 (row_candidate_ordinal r) ∧
               is_u64 (row_publication_ordinal r) ∧
               -2147483648 ≤ row_candidate_present r < 2147483648) (eb_rows b).

Lemma identity_valid_length s : worklist_identity_valid s = true → strlen s = 64.
Proof.
  unfold worklist_identity_valid, yvex_sha256_hex_valid, strlen. rewrite length_cstr.
  intros [H%Nat.eqb_eq _]%andb_true_iff. lia.
Qed.

(** What the guard of the seal guarantees. *)
Record batch_admitted (b : yvex_execution_batch) : Prop := BatchAdmitted {
  adm_rows : 0 < eb_row_count b < 64;
  adm_sources : 0 < eb_source_count b ≤ eb_row_count b;
  adm_identities : Forall (λ s, worklist_identity_valid (src_identity s) = true) (eb_sources b);
  adm_profile : worklist_identity_valid (eb_execution_profile_identity b) = true;
  adm_operation : worklist_identity_valid (eb_operation_identity b) = true;
  adm_distinct : NoDup (src_identity <$> eb_sources b);
  adm_rows_distinct : NoDup ((λ r, (row_source_index r, row_source_row r)) <$> eb_rows b);
  adm_row_source : Forall (λ r, row_source_index r < eb_source_count b) (eb_rows b);
}.

Lemma pairwise_NoDup {A B} (f : A → B) (differ : A → A → bool) (l : list A) :
  (∀ x y, differ x y = true → f x ≠ f y) → pairwise differ l = true → NoDup (f <$> l).
Proof.
  intros Hd. induction l as [|a l IH]; simpl; [intros _; apply NoDup_nil_2|].
  intros [Ha Hl]%andb_true_iff. apply NoDup_cons_2; [|by apply IH].
  intros (x & E & Hx)%list_elem_of_fmap. rewrite forallb_forall in Ha.
  apply list_elem_of_In, Ha in Hx. by apply Hd in Hx.
Qed.

Lemma batch_admissible_spec b : execution_batch_admissible b = true → batch_admitted b.
Proof.
  unfold execution_batch_admissible, execution_batch_sources_valid.
  intros H. guards. constructor; try done; try lia.
  - rewrite Forall_forall. intros s Hs. rewrite forallb_forall in *.
    match goal with H : ∀ x, In x (eb_sources b) → _ |- _ =>
      specialize (H s ltac:(by apply list_elem_of_In)) end.
    guards. done.
  - eapply pairwise_NoDup; [|eassumption]. simpl. intros x y Hxy. by apply negb_true_iff, bool_decide_eq_false in Hxy.
  - eapply pairwise_NoDup; [|eassumption]. simpl. intros x y Hxy E. simplify_eq.
    apply negb_true_iff, andb_false_iff in Hxy. rewrite !Z.eqb_neq in Hxy. naive_solver.
  - rewrite Forall_forall. intros s Hs. rewrite !forallb_forall in *.
    match goal with H : ∀ x, In x (eb_rows b) → _ |- _ =>
      specialize (H s ltac:(by apply list_elem_of_In)) end.
    guards. done.
Qed.

Lemma batch_fields_size b :
  batch_admitted b → fields_size (execution_batch_fields b) ≤ ULLONG_MAX / 8.
Proof.
  intros [Hr Hs Hid Hp Ho _ _ _]. unfold execution_batch_fields, execution_batch_sources_fields.
  rewrite !fields_size_app. apply identity_valid_length in Hp, Ho.
  pose proof (fields_size_bind (λ s, [FU64 (src_execution_generation s);
    FU64 (src_state_generation s); FText (src_identity s)]) (eb_sources b) 88) as H1.
  pose proof (fields_size_bind (λ r, [FU64 (row_source_index r); FU64 (row_source_row r);
    FU64 (row_sequence_position r); FU64 (u64 (row_candidate_present r));
    FU64 (row_candidate_ordinal r); FU64 (row_publication_ordinal r)]) (eb_rows b) 48) as H2.
  assert (H1' : Forall (λ s, fields_size [FU64 (src_execution_generation s);
    FU64 (src_state_generation s); FText (src_identity s)] ≤ 88) (eb_sources b)).
  { eapply Forall_impl; [exact Hid|]. intros s Es%identity_valid_length. simpl. lia. }
  assert (H2' : Forall (λ r, fields_size [FU64 (row_source_index r); FU64 (row_source_row r);
    FU64 (row_sequence_position r); FU64 (u64 (row_candidate_present r));
    FU64 (row_candidate_ordinal r); FU64 (row_publication_ordinal r)] ≤ 48) (eb_rows b)).
  { apply Forall_true. intros r. simpl. lia. }
  specialize (H1 H1'). specialize (H2 H2'). unfold eb_row_count, eb_source_count in *.
  change (ULLONG_MAX / 8) with 2305843009213693951.
  set (l1 := fields_size (eb_sources b ≫= _)) in *. set (l2 := fields_size (eb_rows b ≫= _)) in *.
  simpl. rewrite Hp, Ho. strlen_literals. lia.
Qed.

Lemma batch_admissible_size b :
  execution_batch_admissible b = true → fields_size (execution_batch_fields b) ≤ ULLONG_MAX / 8.
Proof. intros H. by apply batch_fields_size, batch_admissible_spec. Qed.

(** ** Re-sealing

    [validate] in both families: check the identity text, seal a copy, compare the texts. *)

Section resealing.
Context {X : Type} (seal : X → outcome X) (identity : X → string) (put : string → X → X).
Context (unavailable stale : string).

Definition resealed (x : X) (err : option yvex_error) : yvex_status * option yvex_error :=
  if negb (worklist_identity_valid (identity x)) then
    conclude err (@worklist_refuse unit YVEX_ERR_INVALID_ARG unavailable)
  else match seal x with
       | Refused st why =>
           let err := err_after err "graph.worklist" (@Refused unit st why) in
           (yvex_error_code err, err)
       | Done expected =>
           if negb (bool_decide (identity x = identity expected)) then
             conclude err (@worklist_refuse unit YVEX_ERR_FORMAT stale)
           else conclude err (Done tt)
       end.

(** [seal] only writes the identity, with a valid text, and reports a real error otherwise. *)
Context (put_identity : ∀ x, put (identity x) x = x).
Context (identity_put : ∀ s x, identity (put s x) = s).
Context (seal_done : ∀ x y, seal x = Done y →
           y = put (identity y) x ∧ worklist_identity_valid (identity y) = true).
Context (seal_refused : ∀ x st why, seal x = Refused st why → st ≠ YVEX_OK).

Lemma resealed_with_err x e :
  (resealed x (Some e)).1 = YVEX_OK ↔ seal x = Done x.
Proof.
  unfold resealed. destruct (worklist_identity_valid (identity x)) eqn:Ev; simpl.
  - destruct (seal x) as [y|st why] eqn:Es.
    + destruct (seal_done x y Es) as [Ey _]. case_bool_decide as Ei; simpl.
      * split; [intros _|done]. by rewrite Ey, <- Ei, put_identity.
      * split; [done|]. by intros [= ->].
    + specialize (seal_refused x st why Es). simpl. by split.
  - split; [done|]. intros Es. destruct (seal_done x x Es). congruence.
Qed.

(** Without an error argument a refusal of the inner seal reads as success. *)
Lemma resealed_without_err x :
  (resealed x None).1 = YVEX_OK ↔
  worklist_identity_valid (identity x) = true ∧
  (seal x = Done x ∨ ∃ st why, seal x = Refused st why).
Proof.
  unfold resealed. destruct (worklist_identity_valid (identity x)) eqn:Ev; simpl.
  - destruct (seal x) as [y|st why] eqn:Es.
    + destruct (seal_done x y Es) as [Ey _]. case_bool_decide as Ei; simpl.
      * split; [intros _|done]. split; [done|]. left. by rewrite Ey, <- Ei, put_identity.
      * split; [done|]. intros [_ [[= ->]|(? & ? & ?)]]; done.
    + split; [|done]. intros _. split; [done|]. right. by eexists _, _.
  - by split; [|intros []].
Qed.
End resealing.

Lemma execution_batch_validate_resealed b err :
  yvex_execution_batch_validate b err =
  resealed yvex_execution_batch_seal eb_identity "execution batch identity is unavailable"
    "execution batch identity is stale" b err.
Proof. done. Qed.

Lemma expert_worklist_policy_validate_resealed p err :
  yvex_expert_worklist_policy_validate p err =
  resealed yvex_expert_worklist_policy_seal wp_identity
    "expert worklist policy identity is unavailable" "expert worklist policy identity is stale" p err.
Proof. done. Qed.

Lemma execution_batch_validated_identity b err :
  (yvex_execution_batch_validate b err).1 = YVEX_OK → worklist_identity_valid (eb_identity b) = true.
Proof. unfold yvex_execution_batch_validate. by destruct (worklist_identity_valid _). Qed.

Lemma expert_worklist_policy_validated_identity p err :
  (yvex_expert_worklist_policy_validate p err).1 = YVEX_OK →
  worklist_identity_valid (wp_identity p) = true.
Proof. unfold yvex_expert_worklist_policy_validate. by destruct (worklist_identity_valid _). Qed.

Lemma execution_batch_seal_done b c :
  yvex_execution_batch_seal b = Done c →
  c = b <| eb_identity := eb_identity c |> ∧ worklist_identity_valid (eb_identity c) = true.
Proof.
  unfold yvex_execution_batch_seal. split_guard; [done|].
  destruct (sha256_identity _) as [id|] eqn:Ei; [|done]. intros [= <-]. split; [done|].
  by eapply sha256_identity_valid.
Qed.

Lemma execution_batch_seal_refused b st why :
  yvex_execution_batch_seal b = Refused st why → st ≠ YVEX_OK.
Proof.
  unfold yvex_execution_batch_seal, worklist_refuse. split_guard; [by intros [= <- _]|].
  destruct (sha256_identity _); [done|]. by intros [= <- _].
Qed.

Lemma expert_worklist_policy_seal_done p c :
  yvex_expert_worklist_policy_seal p = Done c →
  c = p <| wp_identity := wp_identity c |> ∧ worklist_identity_valid (wp_identity c) = true.
Proof.
  unfold yvex_expert_worklist_policy_seal. split_guard; [done|]. cbv zeta. split_guard; [done|].
  destruct (sha256_identity _) as [id|] eqn:Ei; [|done]. intros [= <-]. split; [done|].
  by eapply sha256_identity_valid.
Qed.

Lemma expert_worklist_policy_seal_refused p st why :
  yvex_expert_worklist_policy_seal p = Refused st why → st ≠ YVEX_OK.
Proof.
  unfold yvex_expert_worklist_policy_seal, worklist_refuse. split_guard; [by intros [= <- _]|].
  cbv zeta. split_guard; [by intros [= <- _]|]. destruct (sha256_identity _); [done|]. by intros [= <- _].
Qed.

(** An execution batch seals exactly when the guard admits it: an inadmissible batch is refused
    as [YVEX_ERR_INVALID_ARG]; an admissible one always seals, its identity is the SHA-256 text of
    its field encoding, no other member changes, sealing is idempotent, and every validation of the
    sealed batch succeeds. *)
Theorem execution_batch_seal_correct b err :
  (execution_batch_admissible b = false →
     ∃ why, yvex_execution_batch_seal b = Refused YVEX_ERR_INVALID_ARG why) ∧
  (execution_batch_admissible b = true →
     let id := yvex_sha256_hex (sha256_spec (fields_bytes (execution_batch_fields b))) in
     let sealed := b <| eb_identity := id |> in
     yvex_execution_batch_seal b = Done sealed ∧
     yvex_execution_batch_seal sealed = Done sealed ∧
     (yvex_execution_batch_validate sealed err).1 = YVEX_OK).
Proof.
  split; intros Ha.
  { unfold yvex_execution_batch_seal. rewrite Ha. by eexists. }
  intros id sealed. assert (Hs : ∀ c, yvex_execution_batch_seal (b <| eb_identity := c |>) = Done sealed).
  { intros c. unfold yvex_execution_batch_seal.
    change (execution_batch_admissible (b <| eb_identity := c |>)) with (execution_batch_admissible b).
    change (execution_batch_fields (b <| eb_identity := c |>)) with (execution_batch_fields b).
    rewrite Ha, sha256_identity_spec; [done|].
    rewrite fields_size_bytes. by apply batch_admissible_size. }
  split; [by destruct b; apply (Hs _)|]. split; [apply Hs|].
  rewrite execution_batch_validate_resealed. unfold resealed.
  pose proof (execution_batch_seal_done _ _ (Hs id)) as [_ ->]. simpl.
  change (yvex_execution_batch_seal sealed) with (yvex_execution_batch_seal (b <| eb_identity := id |>)).
  rewrite Hs. by rewrite bool_decide_eq_true_2.
Qed.

(** A one-row decode batch with literal identities. *)
Definition sample_identity : string := "0123456789abcdef0123456789abcdef0123456789abcdef0123456789abcdef".
Definition sample_batch : yvex_execution_batch :=
  ExecutionBatch 2 YVEX_EXECUTION_BATCH_SINGLE_ROW YVEX_EXECUTION_PHASE_DECODE 7
    [BatchSource 3 0 sample_identity] [BatchRow 0 0 5 0 0 0] sample_identity sample_identity "".

Lemma execution_batch_seal_correct_witness :
  execution_batch_admissible sample_batch = true ∧
  yvex_execution_batch_seal sample_batch =
    Done (sample_batch <| eb_identity :=
            yvex_sha256_hex (sha256_spec (fields_bytes (execution_batch_fields sample_batch))) |>).
Proof.
  assert (H : execution_batch_admissible sample_batch = true) by (vm_compute; reflexivity).
  split; [exact H|]. exact (proj1 (proj2 (execution_batch_seal_correct sample_batch None) H)).
Defined.

(** ** What an identity pins down *)

Lemma identity_field_ok s : worklist_identity_valid s = true → field_ok (FText s).
Proof. intros H%identity_valid_length. simpl. ulia. Qed.

Lemma batch_source_inj s t :
  [FU64 (src_execution_generation s); FU64 (src_state_generation s); FText (src_identity s)] =
  [FU64 (src_execution_generation t); FU64 (src_state_generation t); FText (src_identity t)] → s = t.
Proof. destruct s, t. simpl. intros. by simplify_eq. Qed.

Definition row_fields (r : yvex_execution_batch_row) : list field :=
  [FU64 (row_source_index r); FU64 (row_source_row r); FU64 (row_sequence_position r);
   FU64 (u64 (row_candidate_present r)); FU64 (row_candidate_ordinal r);
   FU64 (row_publication_ordinal r)].

Lemma batch_row_inj r t :
  -2147483648 ≤ row_candidate_present r < 2147483648 →
  -2147483648 ≤ row_candidate_present t < 2147483648 → row_fields r = row_fields t → r = t.
Proof.
  destruct r as [? ? ? ? ? p], t as [? ? ? ? ? q]. unfold row_fields. simpl. intros Hp Hq E.
  injection E as -> -> -> E -> ->. f_equal. unfold u64 in E.
  pose proof (Z.div_mod p 18446744073709551616). pose proof (Z.div_mod q 18446744073709551616). lia.
Qed.

Lemma batch_fields_ok b :
  batch_in_range b → batch_admitted b → Forall field_ok (execution_batch_fields b).
Proof.
  intros (Hv & Hp & Hph & Hg & Hsrc & Hrow) [Hr Hs Hid Hpr Hop _ _ _].
  unfold execution_batch_fields, execution_batch_sources_fields.
  apply Forall_app; split.
  { forall_cells; unfold field_ok; try ulia.
    strlen_literals. ulia. }
  apply Forall_app; split; [apply Forall_app; split; apply Forall_bind|].
  - rewrite Forall_forall in *. intros s H. destruct (Hsrc s H).
    forall_cells; try done. by apply identity_field_ok, Hid.
  - eapply Forall_impl; [exact Hrow|]. intros r (? & ? & ? & ? & ? & ?).
    forall_cells; try done; apply u64_range.
  - forall_cells; by apply identity_field_ok.
Qed.

(** The encoding that a batch identity hashes is unambiguous: two admitted batches with the same
    encoding agree on every member but the identity, so (SHA-256 collisions aside) one identity names
    one provenance, phase, engine generation, source set, row set, profile and operation. *)
Theorem execution_batch_identity_unambiguous b c :
  batch_in_range b → batch_in_range c →
  execution_batch_admissible b = true → execution_batch_admissible c = true →
  fields_bytes (execution_batch_fields b) = fields_bytes (execution_batch_fields c) →
  c = b <| eb_identity := eb_identity c |>.
Proof.
  intros Rb Rc Hb%batch_admissible_spec Hc%batch_admissible_spec E.
  pose proof (batch_fields_ok b Rb Hb) as Ob. pose proof (batch_fields_ok c Rc Hc) as Oc.
  destruct Rb as (_ & _ & _ & _ & _ & Rb), Rc as (_ & _ & _ & _ & _ & Rc).
  assert (Hlen : length (eb_rows b) = length (eb_rows c) ∧ length (eb_sources b) = length (eb_sources c)).
  { apply Forall_app in Ob as [Ob _], Oc as [Oc _].
    apply fields_bytes_app_inj in E as [E _]; [|by repeat constructor|done..].
    injection E as _ _ _ Er Es _. unfold eb_row_count, eb_source_count in *. lia. }
  destruct Hlen as [Lr Ls].
  apply fields_bytes_inj in E; [|clear E|done..].
  2:{ repeat apply Forall2_app; try (apply fields_bind_kinds; [|done]); by repeat constructor. }
  unfold execution_batch_fields, execution_batch_sources_fields in E. simpl in E.
  injection E as Ev Epr Eph _ _ Eg E. rewrite <- !(assoc_L (++)) in E.
  apply fields_bind_inj with (P := λ _, True) in E as [Es E];
    [|intros ? ? _ _; apply batch_source_inj|done|by apply Forall_true..|done].
  apply fields_bind_inj with (P := λ r, -2147483648 ≤ row_candidate_present r < 2147483648) in E as [Er E];
    [|intros ? ?; apply batch_row_inj|done|..|done].
  - injection E as Ep Eo. destruct b, c. simpl in *. by subst.
  - eapply Forall_impl; [exact Rb|]. simpl. tauto.
  - eapply Forall_impl; [exact Rc|]. simpl. tauto.
Qed.

Lemma execution_batch_identity_unambiguous_witness :
  let c := sample_batch <| eb_identity := sample_identity |> in
  execution_batch_admissible c = true ∧ c = sample_batch <| eb_identity := eb_identity c |>.
Proof.
  intros c. split; [vm_compute; reflexivity|].
  apply (execution_batch_identity_unambiguous sample_batch c); [| |vm_compute; reflexivity..].
  all: unfold batch_in_range; cbn; repeat split; unfold is_u32, is_u64;
    forall_cells; cbn; repeat split; by vm_compute.
Defined.

(** ** Validation *)

(** C36: With an error argument, a batch or a width policy validates exactly when sealing it changes
    nothing. Without one, as the worklist admission calls both, the status of a refused inner seal is
    read from the null argument and is [YVEX_OK]: any inadmissible object whose identity text is
    merely well formed is accepted too. *)
Theorem validate_accepts_exactly b p e :
  ((yvex_execution_batch_validate b (Some e)).1 = YVEX_OK ↔ yvex_execution_batch_seal b = Done b) ∧
  ((yvex_expert_worklist_policy_validate p (Some e)).1 = YVEX_OK ↔
     yvex_expert_worklist_policy_seal p = Done p) ∧
  ((yvex_execution_batch_validate b None).1 = YVEX_OK ↔
     worklist_identity_valid (eb_identity b) = true ∧
     (yvex_execution_batch_seal b = Done b ∨ ∃ st why, yvex_execution_batch_seal b = Refused st why)) ∧
  ((yvex_expert_worklist_policy_validate p None).1 = YVEX_OK ↔
     worklist_identity_valid (wp_identity p) = true ∧
     (yvex_expert_worklist_policy_seal p = Done p ∨
      ∃ st why, yvex_expert_worklist_policy_seal p = Refused st why)).
Proof.
  rewrite !execution_batch_validate_resealed, !expert_worklist_policy_validate_resealed.
  assert (Hput : ∀ b, b <| eb_identity := eb_identity b |> = b) by (by intros []).
  assert (Hput' : ∀ p, p <| wp_identity := wp_identity p |> = p) by (by intros []).
  split; [|split; [|split]].
  - apply (resealed_with_err _ _ (λ s b, b <| eb_identity := s |>));
      eauto using execution_batch_seal_done, execution_batch_seal_refused.
  - apply (resealed_with_err _ _ (λ s p, p <| wp_identity := s |>));
      eauto using expert_worklist_policy_seal_done, expert_worklist_policy_seal_refused.
  - apply (resealed_without_err _ _ (λ s b, b <| eb_identity := s |>));
      eauto using execution_batch_seal_done, execution_batch_seal_refused.
  - apply (resealed_without_err _ _ (λ s p, p <| wp_identity := s |>));
      eauto using expert_worklist_policy_seal_done, expert_worklist_policy_seal_refused.
Qed.

(** An empty batch with a well-formed identity text passes without an error argument only. *)
Definition empty_batch : yvex_execution_batch := ExecutionBatch 2 0 0 0 [] [] "" "" sample_identity.

Example empty_batch_null_err_accepted :
  (yvex_execution_batch_validate empty_batch None).1 = YVEX_OK ∧
  (yvex_execution_batch_validate empty_batch (Some (YvexError YVEX_OK "" ""))).1 = YVEX_ERR_INVALID_ARG.
Proof. split; vm_compute; reflexivity. Qed.

Lemma keys_match_iff l r :
  yvex_execution_compatibility_keys_match (Some l) (Some r) = true ↔
    yvex_execution_compatibility_key_validate (Some l) = Done tt ∧ l = r.
Proof.
  unfold yvex_execution_compatibility_keys_match.
  destruct (yvex_execution_compatibility_key_validate (Some l)) as [[]|] eqn:El;
    [|split; [done|by intros [? _]]].
  destruct (yvex_execution_compatibility_key_validate (Some r)) as [[]|] eqn:Er;
    [|split; [done|intros [_ ->]; congruence]].
  simpl in El, Er. repeat split_guard; try done. guards. split.
  - intros H. guards. split; [done|]. destruct l, r. simpl in *. by subst.
  - intros [_ ->]. by repeat split.
Qed.

(** Compatibility of admitted keys is an equivalence: a key that validates matches itself,
    matching is symmetric and transitive, and keys match exactly when both validate and agree on
    every member; so rows grouped by matching keys share one geometry and one engine generation. *)
Theorem compatibility_keys_match_equivalence l r t :
  (yvex_execution_compatibility_keys_match (Some l) (Some r) = true ↔
     yvex_execution_compatibility_key_validate (Some l) = Done tt ∧ l = r) ∧
  yvex_execution_compatibility_keys_match (Some l) (Some r) =
    yvex_execution_compatibility_keys_match (Some r) (Some l) ∧
  (yvex_execution_compatibility_keys_match (Some l) (Some r) = true →
   yvex_execution_compatibility_keys_match (Some r) (Some t) = true →
   yvex_execution_compatibility_keys_match (Some l) (Some t) = true).
Proof.
  pose proof keys_match_iff as Heq.
  split; [apply Heq|]. split.
  - apply eq_true_iff_eq. rewrite !Heq. naive_solver.
  - rewrite !Heq. naive_solver.
Qed.
