(* ===== verification/Worklist.v ===== *)
(** Expert worklists of [src/graph/worklist.c]: routed (row, expert) pairs are lowered to an
    expert-major physical order that a device walks bucket by bucket.

    Arrays are lists accessed with bounds checks ([Exec.v]); a binary32 weight is its bit pattern.
    The caller's seven output arrays are one record, [yvex_expert_worklist_storage]. *)

From S2P Require Import Prelude Status Exec Sha256 Identity ExecutionBatch.

Definition YVEX_EXPERT_WORKLIST_SCHEMA_V1 : Z := 1.
Definition YVEX_EXPERT_WORKLIST_OBSERVATION_SCHEMA_V1 : Z := 1.
Definition YVEX_EXPERT_WORKLIST_HISTOGRAM_CAP : Z := 17.

(** * Data *)

(** src/include/yvex/internal/execution_batch.h, [yvex_expert_worklist_request] *)
Record yvex_expert_worklist_request := WorklistRequest {
  wr_schema_version : Z;
  wr_batch : yvex_execution_batch;
  wr_policy : yvex_expert_worklist_policy;
  wr_expert_count : Z;
  wr_experts_per_row : Z;
  wr_pair_count : Z;
  wr_selected_experts : list Z;
  wr_route_weights : list Z;
}.

(** src/include/yvex/internal/execution_batch.h, [yvex_expert_worklist_storage] *)
Record yvex_expert_worklist_storage := WorklistStorage {
  ws_expert_ids : list Z;
  ws_bucket_offsets : list Z;
  ws_bucket_populations : list Z;
  ws_source_pairs : list Z;
  ws_source_rows : list Z;
  ws_destination_rows : list Z;
  ws_route_weights : list Z;
  ws_bucket_capacity : Z;
  ws_pair_capacity : Z;
}.

#[export] Instance worklist_storage_eta : Eta yvex_expert_worklist_storage := λ s,
  WorklistStorage (ws_expert_ids s) (ws_bucket_offsets s) (ws_bucket_populations s)
    (ws_source_pairs s) (ws_source_rows s) (ws_destination_rows s) (ws_route_weights s)
    (ws_bucket_capacity s) (ws_pair_capacity s).

(** src/include/yvex/internal/execution_batch.h, [yvex_expert_worklist]
    The array members point into the storage; [wl_arrays] is that storage. *)
Record yvex_expert_worklist := Worklist {
  wl_schema_version : Z;
  wl_provenance : Z;
  wl_phase : Z;
  wl_actual_width : Z;
  wl_expert_count : Z;
  wl_pair_count : Z;
  wl_bucket_count : Z;
  wl_maximum_bucket_population : Z;
  wl_admitted_tile_width : Z;
  wl_matrix_tile_eligible_pairs : Z;
  wl_narrow_pairs : Z;
  wl_tail_rows : Z;
  wl_arrays : yvex_expert_worklist_storage;
  wl_population_histogram : list Z;
  wl_batch_identity : string;
  wl_policy_identity : string;
  wl_identity : string;
}.

#[export] Instance worklist_eta : Eta yvex_expert_worklist := λ w,
  Worklist (wl_schema_version w) (wl_provenance w) (wl_phase w) (wl_actual_width w)
    (wl_expert_count w) (wl_pair_count w) (wl_bucket_count w) (wl_maximum_bucket_population w)
    (wl_admitted_tile_width w) (wl_matrix_tile_eligible_pairs w) (wl_narrow_pairs w)
    (wl_tail_rows w) (wl_arrays w) (wl_population_histogram w) (wl_batch_identity w)
    (wl_policy_identity w) (wl_identity w).

(** [memset(worklist, 0, sizeof( *worklist))], with the storage it will point to. *)
Definition worklist_zero (s : yvex_expert_worklist_storage) : yvex_expert_worklist :=
  Worklist 0 0 0 0 0 0 0 0 0 0 0 0 s (replicate 17 0) "" "" "".

(** [isfinite]: the exponent field of the binary32 pattern is not all ones. *)
Definition isfinite (bits : Z) : bool := negb (Z.land (Z.shiftr bits 23) 255 =? 255).

(** * Admission *)

(** src/src/graph/worklist.c, [worklist_request_valid] *)
Definition worklist_request_valid (request : yvex_expert_worklist_request)
    (storage : yvex_expert_worklist_storage) : bool :=
  let rows := eb_row_count (wr_batch request) in
  (wr_schema_version request =? YVEX_EXPERT_WORKLIST_SCHEMA_V1)
  && bool_decide ((yvex_execution_batch_validate (wr_batch request) None).1 = YVEX_OK)
  && bool_decide ((yvex_expert_worklist_policy_validate (wr_policy request) None).1 = YVEX_OK)
  && negb (wr_expert_count request =? 0) && (wr_expert_count request <=? 256)
  && negb (wr_experts_per_row request =? 0)
  && (wr_experts_per_row request <=? wr_expert_count request)
  && (rows <? 63)
  && negb (Z.land (wp_supported_width_mask (wr_policy request)) (Z.shiftl 1 rows) =? 0)
  && match yvex_core_u64_mul rows (wr_experts_per_row request) with
     | Some pairs => pairs =? wr_pair_count request
     | None => false
     end
  && (wr_expert_count request <=? ws_bucket_capacity storage)
  && (wr_pair_count request <=? ws_pair_capacity storage).

Fixpoint maximum_width_go (fuel : nat) (mask width : Z) : Z :=
  match fuel with
  | O => width
  | S fuel =>
      let mask := Z.shiftr mask 1 in
      if mask =? 0 then width else maximum_width_go fuel mask (width + 1)
  end.

(** src/src/graph/worklist.c, [worklist_maximum_width]
    A 64-bit mask is zero after 64 shifts. *)
Definition worklist_maximum_width (mask : Z) : Z := maximum_width_go 64 mask 0.

(** * Sealing *)

(** The identity preimage; [None] is a read outside the arrays. *)
Definition worklist_fields (request : yvex_expert_worklist_request) (w : yvex_expert_worklist)
    : option (list field) :=
  let a := wl_arrays w in
  buckets ← mapM (λ bucket,
      expert ← array_get (ws_expert_ids a) bucket;
      offset ← array_get (ws_bucket_offsets a) bucket;
      population ← array_get (ws_bucket_populations a) bucket;
      Some [FU64 expert; FU64 offset; FU64 population]) (seqZ 0 (wl_bucket_count w));
  last ← array_get (ws_bucket_offsets a) (wl_bucket_count w);
  pairs ← mapM (λ routed,
      weight_bits ← array_get (ws_route_weights a) routed;
      source_pair ← array_get (ws_source_pairs a) routed;
      source_row ← array_get (ws_source_rows a) routed;
      destination_row ← array_get (ws_destination_rows a) routed;
      Some [FU64 source_pair; FU64 source_row; FU64 destination_row; FU64 weight_bits])
    (seqZ 0 (wr_pair_count request));
  Some ([FText "yvex.expert-worklist.v1"; FText (wl_batch_identity w); FText (wl_policy_identity w);
         FU64 (wl_actual_width w); FU64 (wl_expert_count w); FU64 (wl_pair_count w);
         FU64 (wl_bucket_count w); FU64 (wl_maximum_bucket_population w)]
        ++ mjoin buckets ++ [FU64 last] ++ mjoin pairs).

(** src/src/graph/worklist.c, [worklist_seal] *)
Definition worklist_seal (request : yvex_expert_worklist_request) (w : yvex_expert_worklist)
    : run yvex_expert_worklist :=
  let! fields := run_access (worklist_fields request w) in
  match sha256_identity fields with
  | Some identity => run_ret (w <| wl_identity := identity |>)
  | None => run_refuse YVEX_ERR_STATE "expert worklist identity derivation failed"
  end.

(** * Validating *)

(** The loop over the positions of one bucket; the state is the [seen] array.
    src/src/graph/worklist.c:406-419, [yvex_expert_worklist_validate] *)
Definition worklist_check_position (request : yvex_expert_worklist_request)
    (a : yvex_expert_worklist_storage) (expert position : Z) (seen : list bool) : run (list bool) :=
  let inexact := "expert worklist pair mapping is not exact"%string in
  let! routed := run_access (array_get (ws_source_pairs a) position) in
  refuse_when wr_pair_count request <=? routed with YVEX_ERR_FORMAT inexact;
  let! already := run_access (array_get seen routed) in
  refuse_when already with YVEX_ERR_FORMAT inexact;
  let! selected := run_access (array_get (wr_selected_experts request) routed) in
  refuse_when negb (selected =? expert) with YVEX_ERR_FORMAT inexact;
  let! row := run_access (array_get (ws_source_rows a) position) in
  refuse_when negb (row =? routed / wr_experts_per_row request) with YVEX_ERR_FORMAT inexact;
  let! destination := run_access (array_get (ws_destination_rows a) position) in
  refuse_when negb (destination =? routed) with YVEX_ERR_FORMAT inexact;
  let! weight := run_access (array_get (ws_route_weights a) position) in
  let! requested := run_access (array_get (wr_route_weights request) routed) in
  refuse_when negb (weight =? requested) with YVEX_ERR_FORMAT inexact;
  run_access (array_set seen routed true).

(** The loop over the buckets; the state is [seen] and the population sum.
    src/src/graph/worklist.c:393-420, [yvex_expert_worklist_validate] *)
Definition worklist_check_bucket (request : yvex_expert_worklist_request)
    (a : yvex_expert_worklist_storage) (bucket : Z) (st : list bool * Z) : run (list bool * Z) :=
  let '(seen, populations) := st in
  let malformed := "expert worklist bucket is malformed"%string in
  let! expert := run_access (array_get (ws_expert_ids a) bucket) in
  let! start := run_access (array_get (ws_bucket_offsets a) bucket) in
  let! stop := run_access (array_get (ws_bucket_offsets a) (bucket + 1)) in
  let! population := run_access (array_get (ws_bucket_populations a) bucket) in
  refuse_when wr_expert_count request <=? expert with YVEX_ERR_FORMAT malformed;
  let! disordered :=
    (if bucket =? 0 then run_ret false
     else let! previous := run_access (array_get (ws_expert_ids a) (bucket - 1)) in
          run_ret (expert <=? previous)) in
  refuse_when disordered || (stop <? start) || negb (stop - start =? population)
              || (population =? 0)
    with YVEX_ERR_FORMAT malformed;
  let! seen := for_range start stop (worklist_check_position request a expert) seen in
  run_ret (seen, u64 (populations + population)).

(** The guard at the entry of [yvex_expert_worklist_validate].
    src/src/graph/worklist.c:374-388, [yvex_expert_worklist_validate] *)
Definition worklist_structure_valid (request : yvex_expert_worklist_request)
    (w : yvex_expert_worklist) : run bool :=
  if negb (wl_schema_version w =? YVEX_EXPERT_WORKLIST_SCHEMA_V1)
     || negb (worklist_identity_valid (wl_identity w))
     || negb (bool_decide (wl_batch_identity w = eb_identity (wr_batch request)))
     || negb (bool_decide (wl_policy_identity w = wp_identity (wr_policy request)))
     || negb (wl_actual_width w =? eb_row_count (wr_batch request))
     || (wl_bucket_count w =? 0) || (wr_expert_count request <? wl_bucket_count w)
     || negb (wl_pair_count w =? wr_pair_count request)
  then run_ret false
  else
    let! first := run_access (array_get (ws_bucket_offsets (wl_arrays w)) 0) in
    if negb (first =? 0) then run_ret false
    else
      let! last := run_access (array_get (ws_bucket_offsets (wl_arrays w)) (wl_bucket_count w)) in
      run_ret (last =? wr_pair_count request).

(** src/src/graph/worklist.c, [yvex_expert_worklist_validate] *)
Definition yvex_expert_worklist_validate (calloc_ok : bool) (request : yvex_expert_worklist_request)
    (w : yvex_expert_worklist) : run unit :=
  let! valid := worklist_structure_valid request w in
  refuse_when negb valid
    with YVEX_ERR_INVALID_ARG "expert worklist structure or identity is invalid";
  refuse_when negb calloc_ok
    with YVEX_ERR_NOMEM "expert worklist validation allocation failed";
  let seen := replicate (Z.to_nat (wr_pair_count request)) false in
  let! (_, populations) := for_range 0 (wl_bucket_count w)
    (worklist_check_bucket request (wl_arrays w)) (seen, 0) in
  refuse_when negb (populations =? wr_pair_count request)
    with YVEX_ERR_FORMAT "expert worklist population sum is incomplete";
  run_ret tt.

(** * Building *)

(** One routed pair, scanned for one expert; the state is the arrays, [cursor] and [population].
    src/src/graph/worklist.c:306-319, [yvex_expert_worklist_build] *)
Definition worklist_place (request : yvex_expert_worklist_request) (expert routed : Z)
    (st : yvex_expert_worklist_storage * Z * Z) : run (yvex_expert_worklist_storage * Z * Z) :=
  let '(s, cursor, population) := st in
  let! weight := run_access (array_get (wr_route_weights request) routed) in
  let! selected := run_access (array_get (wr_selected_experts request) routed) in
  refuse_when (wr_expert_count request <=? selected) || negb (isfinite weight)
    with YVEX_ERR_FORMAT "routed pair has an invalid expert or weight";
  if negb (selected =? expert) then run_ret st
  else
    let! pairs := run_access (array_set (ws_source_pairs s) cursor routed) in
    let! rows := run_access (array_set (ws_source_rows s) cursor (routed / wr_experts_per_row request)) in
    let! destinations := run_access (array_set (ws_destination_rows s) cursor routed) in
    let! weights := run_access (array_set (ws_route_weights s) cursor weight) in
    run_ret (s <| ws_source_pairs := pairs |> <| ws_source_rows := rows |>
               <| ws_destination_rows := destinations |> <| ws_route_weights := weights |>,
             u64 (cursor + 1), u64 (population + 1)).

(** The statistics of a non-empty bucket.
    src/src/graph/worklist.c:324-335, [yvex_expert_worklist_build] *)
Definition worklist_account (request : yvex_expert_worklist_request) (maximum_width population : Z)
    (w : yvex_expert_worklist) : run yvex_expert_worklist :=
  let w := if wl_maximum_bucket_population w <? population
           then w <| wl_maximum_bucket_population := population |> else w in
  let slot := if population <? YVEX_EXPERT_WORKLIST_HISTOGRAM_CAP then population
              else YVEX_EXPERT_WORKLIST_HISTOGRAM_CAP - 1 in
  let! count := run_access (array_get (wl_population_histogram w) slot) in
  let! histogram := run_access (array_set (wl_population_histogram w) slot (u64 (count + 1))) in
  let w := w <| wl_population_histogram := histogram |> in
  let tile := wp_matrix_tile_minimum (wr_policy request) in
  if negb (tile =? 0) && (tile <=? population) then
    let w := w <| wl_matrix_tile_eligible_pairs ::= λ n, u64 (n + population) |> in
    (* a zero divisor is undefined behaviour *)
    let! tail := run_access (if maximum_width =? 0 then None else Some (population mod maximum_width)) in
    run_ret (if tail =? 0 then w
             else w <| wl_tail_rows ::= λ n, u64 (n + (maximum_width - tail)) |>)
  else run_ret w.

(** One expert; the state is the arrays, [cursor], [bucket] and the worklist's statistics.
    src/src/graph/worklist.c:304-337, [yvex_expert_worklist_build] *)
Definition worklist_emit (request : yvex_expert_worklist_request) (maximum_width expert : Z)
    (st : yvex_expert_worklist_storage * Z * Z * yvex_expert_worklist)
    : run (yvex_expert_worklist_storage * Z * Z * yvex_expert_worklist) :=
  let '(s, cursor, bucket, w) := st in
  let start := cursor in
  let! (s, cursor, population) :=
    for_range 0 (wr_pair_count request) (worklist_place request expert) (s, cursor, 0) in
  if population =? 0 then run_ret (s, cursor, bucket, w)
  else
    let! experts := run_access (array_set (ws_expert_ids s) bucket expert) in
    let! offsets := run_access (array_set (ws_bucket_offsets s) bucket start) in
    let! populations := run_access (array_set (ws_bucket_populations s) bucket population) in
    let! w := worklist_account request maximum_width population w in
    run_ret (s <| ws_expert_ids := experts |> <| ws_bucket_offsets := offsets |>
               <| ws_bucket_populations := populations |>, cursor, u64 (bucket + 1), w).

(** src/src/graph/worklist.c, [yvex_expert_worklist_build]
    On success the final contents of the arrays are [wl_arrays]. *)
Definition yvex_expert_worklist_build (calloc_ok : bool) (request : yvex_expert_worklist_request)
    (storage : yvex_expert_worklist_storage) : run yvex_expert_worklist :=
  refuse_when negb (worklist_request_valid request storage)
    with YVEX_ERR_INVALID_ARG "expert worklist request or storage is invalid";
  let maximum_width :=
    worklist_maximum_width (wp_supported_width_mask (wr_policy request)) in
  let! (s, cursor, bucket, w) :=
    for_range 0 (wr_expert_count request) (worklist_emit request maximum_width)
      (storage, 0, 0, worklist_zero storage) in
  let! offsets := run_access (array_set (ws_bucket_offsets s) bucket cursor) in
  refuse_when negb (cursor =? wr_pair_count request)
    with YVEX_ERR_STATE "expert worklist did not emit every routed pair";
  let w := w <| wl_schema_version := YVEX_EXPERT_WORKLIST_SCHEMA_V1 |>
             <| wl_provenance := eb_provenance (wr_batch request) |>
             <| wl_phase := eb_phase (wr_batch request) |>
             <| wl_actual_width := eb_row_count (wr_batch request) |>
             <| wl_expert_count := wr_expert_count request |>
             <| wl_pair_count := wr_pair_count request |>
             <| wl_bucket_count := bucket |>
             <| wl_admitted_tile_width := maximum_width |>
             <| wl_narrow_pairs := u64 (wr_pair_count request - wl_matrix_tile_eligible_pairs w) |>
             <| wl_arrays := s <| ws_bucket_offsets := offsets |> |>
             <| wl_batch_identity := yvex_core_text_copy "" 65 (Some (eb_identity (wr_batch request))) |>
             <| wl_policy_identity := yvex_core_text_copy "" 65 (Some (wp_identity (wr_policy request))) |> in
  let! w := worklist_seal request w in
  let! _ := yvex_expert_worklist_validate calloc_ok request w in
  run_ret w.

(** src/src/graph/worklist.c, [yvex_expert_worklist_routing_identity] *)
Definition yvex_expert_worklist_routing_identity (batch_identity policy_identity routing_identity : string)
    : outcome string :=
  if negb (worklist_identity_valid batch_identity) || negb (worklist_identity_valid policy_identity)
     || negb (worklist_identity_valid routing_identity)
  then worklist_refuse YVEX_ERR_INVALID_ARG "expert worklist routing identities are incomplete"
  else match sha256_identity [FText "yvex.expert-worklist-routing.v1"; FText batch_identity;
                              FText policy_identity; FText routing_identity] with
       | Some identity => Done identity
       | None => worklist_refuse YVEX_ERR_STATE "expert worklist routing identity derivation failed"
       end.

(** * Specification: stable expert-major grouping *)

Section specification.
Context (r : yvex_expert_worklist_request).

(** The pairs routed to an expert, in pair order. *)
Definition routed_to (expert : Z) : list Z :=
  filter (λ p, array_get (wr_selected_experts r) p = Some expert) (seqZ 0 (wr_pair_count r)).

(** The expert-major order of the pairs routed to the experts [es]. *)
Definition order (es : list Z) : list Z := es ≫= routed_to.

(** The non-empty buckets, as expert and pairs. *)
Definition buckets (es : list Z) : list (Z * list Z) :=
  filter (λ b, b.2 ≠ []) ((λ e, (e, routed_to e)) <$> es).

Definition route_weight (p : Z) : Z := default 0 (array_get (wr_route_weights r) p).

(** Every routed pair names an admitted expert and a finite weight. *)
Definition pair_good (p : Z) : Prop :=
  ∃ e w, array_get (wr_selected_experts r) p = Some e ∧ array_get (wr_route_weights r) p = Some w ∧
    0 ≤ e < wr_expert_count r ∧ isfinite w = true.

(** What the caller guarantees of the memory behind the request. *)
Record request_contract : Prop := RequestContract {
  rc_selected : Z.of_nat (length (wr_selected_experts r)) = wr_pair_count r;
  rc_weights : Z.of_nat (length (wr_route_weights r)) = wr_pair_count r;
  rc_selected_range : Forall is_u64 (wr_selected_experts r);
  rc_weight_range : Forall is_u32 (wr_route_weights r);
  rc_experts : 0 ≤ wr_expert_count r;
  rc_per_row : 0 ≤ wr_experts_per_row r;
  rc_mask : is_u64 (wp_supported_width_mask (wr_policy r));
  rc_tile : is_u64 (wp_matrix_tile_minimum (wr_policy r));
}.
End specification.

Definition population (b : Z * list Z) : Z := Z.of_nat (length b.2).

(** First positions of consecutive blocks. *)
Fixpoint starts (a : Z) (ps : list Z) : list Z :=
  match ps with [] => [] | p :: ps => a :: starts (a + p) ps end.

Lemma starts_snoc a ps p : starts a (ps ++ [p]) = starts a ps ++ [a + total ps].
Proof.
  revert a. induction ps as [|q ps IH]; intros a; simpl; [f_equal; lia|].
  f_equal. rewrite IH. do 2 f_equal. lia.
Qed.

Lemma length_starts a ps : length (starts a ps) = length ps.
Proof. revert a. induction ps; intros; simpl; auto. Qed.

Section order_facts.
Context (r : yvex_expert_worklist_request).

Lemma elem_of_routed_to e p :
  p ∈ routed_to r e ↔ array_get (wr_selected_experts r) p = Some e ∧ 0 ≤ p < wr_pair_count r.
Proof. unfold routed_to. rewrite list_elem_of_filter, elem_of_seqZ. naive_solver lia. Qed.

Lemma order_NoDup es : NoDup es → NoDup (order r es).
Proof.
  intros Hes. apply NoDup_bind; [| |done].
  - intros x y p _ _ [Hx _]%elem_of_routed_to [Hy _]%elem_of_routed_to. congruence.
  - intros x _. apply NoDup_filter, NoDup_seqZ.
Qed.

Lemma order_range es p : p ∈ order r es → 0 ≤ p < wr_pair_count r.
Proof. intros (e & Hp & _)%list_elem_of_bind. by apply elem_of_routed_to in Hp as [_ ?]. Qed.

Lemma order_length es : NoDup es → 0 ≤ wr_pair_count r → Z.of_nat (length (order r es)) ≤ wr_pair_count r.
Proof.
  intros Hes H0. assert (Hs : order r es ⊆+ seqZ 0 (wr_pair_count r)).
  { apply NoDup_submseteq; [by apply order_NoDup|]. intros p Hp%order_range. apply elem_of_seqZ. lia. }
  apply submseteq_length in Hs. rewrite length_seqZ in Hs. lia.
Qed.

(** When every pair names an admitted expert the order is a permutation of the pairs. *)
Lemma order_permutation :
  (∀ p, 0 ≤ p < wr_pair_count r → pair_good r p) →
  order r (seqZ 0 (wr_expert_count r)) ≡ₚ seqZ 0 (wr_pair_count r).
Proof.
  intros Hg. apply NoDup_Permutation; [apply order_NoDup, NoDup_seqZ|apply NoDup_seqZ|].
  intros p. rewrite elem_of_seqZ. split; [intros Hp%order_range; lia|].
  intros Hp. destruct (Hg p ltac:(lia)) as (e & w & He & _ & Hr & _).
  apply list_elem_of_bind. exists e. rewrite elem_of_routed_to, elem_of_seqZ. split; [done|lia].
Qed.

Lemma order_snoc es e : order r (es ++ [e]) = order r es ++ routed_to r e.
Proof. unfold order. rewrite bind_app. simpl. by rewrite app_nil_r. Qed.

Lemma buckets_snoc es e :
  buckets r (es ++ [e]) =
  buckets r es ++ (if bool_decide (routed_to r e = []) then [] else [(e, routed_to r e)]).
Proof.
  unfold buckets. rewrite fmap_app, filter_app. f_equal. cbn [fmap list_fmap].
  case_bool_decide as E.
  - rewrite filter_cons_False; [done|]. simpl. tauto.
  - by rewrite filter_cons_True.
Qed.

Lemma buckets_order es : mjoin (snd <$> buckets r es) = order r es.
Proof.
  induction es as [|e es IH] using rev_ind; [done|].
  rewrite buckets_snoc, order_snoc, fmap_app, join_app, IH. f_equal.
  case_bool_decide as E; [by rewrite E|]. cbn. by rewrite app_nil_r.
Qed.

Lemma length_buckets es : (length (buckets r es) ≤ length es)%nat.
Proof. unfold buckets. etrans; [apply length_filter|]. by rewrite length_fmap. Qed.

Lemma buckets_total es : total (population <$> buckets r es) = Z.of_nat (length (order r es)).
Proof.
  rewrite <- buckets_order. generalize (buckets r es) as B. intros B.
  induction B as [|b B IH]; [done|].
  change (population b + total (population <$> B) = Z.of_nat (length (b.2 ++ mjoin (snd <$> B)))).
  rewrite length_app, Nat2Z.inj_add, <- IH. done.
Qed.

(** The pairs of an expert while the scan has reached [done_]. *)
Definition scanned (e : Z) (done_ : list Z) : list Z :=
  filter (λ p, array_get (wr_selected_experts r) p = Some e) done_.

Lemma scanned_snoc e done_ p :
  scanned e (done_ ++ [p]) =
  scanned e done_ ++ (if bool_decide (array_get (wr_selected_experts r) p = Some e) then [p] else []).
Proof.
  unfold scanned. rewrite filter_app. f_equal. case_bool_decide as E.
  - by rewrite filter_cons_True.
  - by rewrite filter_cons_False.
Qed.
End order_facts.

(** * The build loops *)

(** The caller's arrays have the lengths the capacities announce. *)
Record storage_contract (s : yvex_expert_worklist_storage) : Prop := StorageContract {
  sc_expert_ids : Z.of_nat (length (ws_expert_ids s)) = ws_bucket_capacity s;
  sc_bucket_offsets : Z.of_nat (length (ws_bucket_offsets s)) = ws_bucket_capacity s + 1;
  sc_bucket_populations : Z.of_nat (length (ws_bucket_populations s)) = ws_bucket_capacity s;
  sc_source_pairs : Z.of_nat (length (ws_source_pairs s)) = ws_pair_capacity s;
  sc_source_rows : Z.of_nat (length (ws_source_rows s)) = ws_pair_capacity s;
  sc_destination_rows : Z.of_nat (length (ws_destination_rows s)) = ws_pair_capacity s;
  sc_route_weights : Z.of_nat (length (ws_route_weights s)) = ws_pair_capacity s;
}.

Record pairs_written (r : yvex_expert_worklist_request) (s : yvex_expert_worklist_storage)
    (P : list Z) : Prop := PairsWritten {
  pw_source_pairs : starts_with (ws_source_pairs s) P;
  pw_source_rows : starts_with (ws_source_rows s) ((λ p, p / wr_experts_per_row r) <$> P);
  pw_destination_rows : starts_with (ws_destination_rows s) P;
  pw_route_weights : starts_with (ws_route_weights s) (route_weight r <$> P);
}.

Record buckets_written (s : yvex_expert_worklist_storage) (B : list (Z * list Z)) : Prop :=
  BucketsWritten {
  bw_expert_ids : starts_with (ws_expert_ids s) (fst <$> B);
  bw_bucket_offsets : starts_with (ws_bucket_offsets s) (starts 0 (population <$> B));
  bw_bucket_populations : starts_with (ws_bucket_populations s) (population <$> B);
}.

(** Only the per-pair arrays differ. *)
Definition same_buckets (s t : yvex_expert_worklist_storage) : Prop :=
  ws_expert_ids t = ws_expert_ids s ∧ ws_bucket_offsets t = ws_bucket_offsets s ∧
  ws_bucket_populations t = ws_bucket_populations s ∧
  ws_bucket_capacity t = ws_bucket_capacity s ∧ ws_pair_capacity t = ws_pair_capacity s.

Lemma array_push_map {A B} (f : A → B) (arr : list B) (xs : list A) v :
  starts_with arr (f <$> xs) → (length xs < length arr)%nat →
  ∃ arr', array_set arr (Z.of_nat (length xs)) (f v) = Some arr' ∧
    starts_with arr' (f <$> (xs ++ [v])) ∧ length arr' = length arr.
Proof.
  intros Hs Hl. destruct (array_push arr (f <$> xs) (f v)) as (arr' & E & Hs' & Hl'); [done|..].
  - by rewrite length_fmap.
  - exists arr'. rewrite length_fmap in E. by rewrite fmap_app.
Qed.

Lemma array_push_eq {A} (arr xs : list A) v i :
  starts_with arr xs → i = Z.of_nat (length xs) → (length xs < length arr)%nat →
  ∃ arr', array_set arr i v = Some arr' ∧ starts_with arr' (xs ++ [v]) ∧ length arr' = length arr.
Proof. intros Hs -> Hl. by apply array_push. Qed.

Section building.
Context (r : yvex_expert_worklist_request).

(** One scan step appends the pair exactly when it is routed to the expert. *)
Lemma worklist_place_good e p s P k :
  let hit := if bool_decide (array_get (wr_selected_experts r) p = Some e) then [p] else [] in
  storage_contract s → pairs_written r s P → pair_good r p →
  Z.of_nat (length (P ++ hit)) ≤ ws_pair_capacity s → Z.of_nat (length (P ++ hit)) ≤ ULLONG_MAX →
  0 ≤ k ≤ Z.of_nat (length P) →
  ∃ s', worklist_place r e p (s, Z.of_nat (length P), k) =
          Some (Done (s', Z.of_nat (length (P ++ hit)), k + Z.of_nat (length hit))) ∧
    storage_contract s' ∧ pairs_written r s' (P ++ hit) ∧ same_buckets s s'.
Proof.
  intros hit Hc Hw (e' & w & He & Hwt & Hr & Hf) Hlt Hmax Hk. subst hit.
  unfold worklist_place. rewrite Hwt, He. cbn [run_access run_bind].
  rewrite (proj2 (Z.leb_gt _ _)) by lia. rewrite Hf. cbn [negb orb].
  destruct (Z.eqb_spec e' e) as [->|Hne]; cbn [negb].
  - rewrite bool_decide_eq_true_2 in * by done. rewrite length_app in Hlt, Hmax. cbn in Hlt, Hmax.
    destruct Hc as [? ? ? Hc1 Hc2 Hc3 Hc4], Hw as [H1 H2 H3 H4].
    destruct (array_push _ _ p H1) as (a1 & -> & ? & ?); [lia|].
    destruct (array_push_map _ _ _ p H2) as (a2 & E2 & ? & ?); [lia|]. cbv beta in E2. rewrite E2.
    destruct (array_push _ _ p H3) as (a3 & -> & ? & ?); [lia|].
    destruct (array_push_map _ _ _ p H4) as (a4 & E4 & ? & ?); [lia|].
    assert (route_weight r p = w) as Ew by (unfold route_weight; by rewrite Hwt).
    rewrite Ew in E4. rewrite E4. cbn [run_access run_bind]. eexists. split.
    + unfold run_ret. rewrite !u64_id by ulia. rewrite length_app. cbn [length].
      rewrite Nat2Z.inj_add. done.
    + split; [|split; [|done]]; constructor; cbn; try done; lia.
  - rewrite bool_decide_eq_false_2 by congruence. exists s.
    rewrite app_nil_r. cbn [length]. by rewrite Z.add_0_r.
Qed.

Lemma worklist_place_bad e p s c k :
  (∃ x w, array_get (wr_selected_experts r) p = Some x ∧ array_get (wr_route_weights r) p = Some w ∧
     (wr_expert_count r ≤ x ∨ isfinite w = false)) →
  worklist_place r e p (s, c, k) =
    Some (Refused YVEX_ERR_FORMAT "routed pair has an invalid expert or weight").
Proof.
  intros (x & w & Hx & Hw & Hbad). unfold worklist_place. rewrite Hw, Hx. cbn [run_access run_bind].
  rewrite (proj2 (orb_true_iff _ _)); [done|]. rewrite Z.leb_le, negb_true_iff. tauto.
Qed.

(** The scan for one expert appends its pairs in order, as long as it meets good pairs. *)
Lemma worklist_scan_prefix es e s d rest :
  seqZ 0 (wr_pair_count r) = d ++ rest → (∀ p, p ∈ d → pair_good r p) →
  storage_contract s → pairs_written r s (order r es) → NoDup (es ++ [e]) →
  0 ≤ wr_pair_count r ≤ ws_pair_capacity s → wr_pair_count r ≤ ULLONG_MAX →
  ∃ s', for_each (worklist_place r e) d (s, Z.of_nat (length (order r es)), 0) =
          Some (Done (s', Z.of_nat (length (order r es ++ scanned r e d)),
                      Z.of_nat (length (scanned r e d)))) ∧
    storage_contract s' ∧ pairs_written r s' (order r es ++ scanned r e d) ∧ same_buckets s s'.
Proof.
  intros Hall Hgood Hc Hw Hnd Hcap Hmax.
  set (I := λ (d : list Z) (st : yvex_expert_worklist_storage * Z * Z), ∃ s',
    st = (s', Z.of_nat (length (order r es ++ scanned r e d)), Z.of_nat (length (scanned r e d))) ∧
    storage_contract s' ∧ pairs_written r s' (order r es ++ scanned r e d) ∧ same_buckets s s').
  destruct (for_each_invariant (worklist_place r e) I d
              (s, Z.of_nat (length (order r es)), 0)) as (st & -> & s' & -> & HI).
  - exists s. cbn. rewrite app_nil_r. done.
  - intros d1 p todo st Hd (s' & -> & Hc' & Hw' & Hsame).
    pose proof (order_length r (es ++ [e]) Hnd ltac:(lia)) as Hlen.
    rewrite order_snoc, length_app in Hlen.
    set (P := order r es ++ scanned r e d1) in *.
    assert (HP : P ++ (if bool_decide (array_get (wr_selected_experts r) p = Some e) then [p] else [])
                 = order r es ++ scanned r e (d1 ++ [p])).
    { unfold P. by rewrite <- (assoc_L (++)), <- scanned_snoc. }
    assert (Hbound : (length (order r es ++ scanned r e (d1 ++ [p])) ≤
                      length (order r es) + length (routed_to r e))%nat).
    { unfold routed_to, scanned. rewrite Hall, Hd.
      replace ((d1 ++ p :: todo) ++ rest) with ((d1 ++ [p]) ++ todo ++ rest)
        by (by rewrite <- !(assoc_L (++))).
      rewrite (filter_app _ (d1 ++ [p])), !length_app. lia. }
    destruct Hsame as (Hs1 & Hs2 & Hs3 & Hs4 & Hs5).
    destruct (worklist_place_good e p s' P (Z.of_nat (length (scanned r e d1))) Hc' Hw')
      as (s'' & E & Hc'' & Hw'' & Hsame'); rewrite ?HP.
    1: { apply Hgood. rewrite Hd. apply elem_of_app. right. apply list_elem_of_here. }
    1-2: rewrite ?Hs5; ulia.
    1: unfold P; rewrite length_app; lia.
    rewrite HP in *. eexists. split; [exact E|]. exists s''. split; [|split; [done|split; [done|]]].
    + f_equal. rewrite scanned_snoc, length_app. lia.
    + destruct Hsame' as (? & ? & ? & ? & ?). repeat split; congruence.
  - by exists s'.
Qed.

Lemma worklist_scan es e s :
  storage_contract s → pairs_written r s (order r es) → NoDup (es ++ [e]) →
  0 ≤ wr_pair_count r ≤ ws_pair_capacity s → wr_pair_count r ≤ ULLONG_MAX →
  (∀ p, 0 ≤ p < wr_pair_count r → pair_good r p) →
  ∃ s', for_range 0 (wr_pair_count r) (worklist_place r e) (s, Z.of_nat (length (order r es)), 0) =
          Some (Done (s', Z.of_nat (length (order r (es ++ [e]))), Z.of_nat (length (routed_to r e)))) ∧
    storage_contract s' ∧ pairs_written r s' (order r (es ++ [e])) ∧ same_buckets s s'.
Proof.
  intros Hc Hw Hnd Hcap Hmax Hgood. unfold for_range. rewrite Z.sub_0_r, order_snoc.
  apply (worklist_scan_prefix es e s _ []); [by rewrite app_nil_r| |done..].
  intros p Hp%elem_of_seqZ. apply Hgood. lia.
Qed.

(** Some pair is not good. *)
Definition pair_bad (p : Z) : Prop :=
  ∃ x w, array_get (wr_selected_experts r) p = Some x ∧ array_get (wr_route_weights r) p = Some w ∧
    (wr_expert_count r ≤ x ∨ isfinite w = false).

Lemma pair_good_or_bad p :
  request_contract r → 0 ≤ p < wr_pair_count r → pair_good r p ∨ pair_bad p.
Proof.
  intros [H1 H2 H3 _ _ _ _ _] Hp.
  destruct (array_get_is_Some (wr_selected_experts r) p) as [x Hx]; [lia|].
  destruct (array_get_is_Some (wr_route_weights r) p) as [w Hw]; [lia|].
  assert (is_u64 x).
  { apply array_get_Some in Hx as [_ Hx]. by eapply Forall_lookup_1 in Hx; [|exact H3]. }
  destruct (isfinite w) eqn:Ef, (Z.le_gt_cases (wr_expert_count r) x).
  2: left; exists x, w; repeat split; try done; ulia.
  all: right; exists x, w; tauto.
Qed.

(** The first bad pair stops the scan of the first expert. *)
Lemma worklist_scan_bad e s q :
  request_contract r → storage_contract s → 0 ≤ wr_pair_count r ≤ ws_pair_capacity s →
  wr_pair_count r ≤ ULLONG_MAX → 0 ≤ q < wr_pair_count r → pair_bad q →
  for_range 0 (wr_pair_count r) (worklist_place r e) (s, 0, 0) =
    Some (Refused YVEX_ERR_FORMAT "routed pair has an invalid expert or weight").
Proof.
  intros Hr Hc Hcap Hmax Hq Hbad. unfold for_range. rewrite Z.sub_0_r.
  assert (Hfirst : ∃ d p rest, seqZ 0 (wr_pair_count r) = d ++ p :: rest ∧
    (∀ p, p ∈ d → pair_good r p) ∧ pair_bad p).
  { assert (Hin : q ∈ seqZ 0 (wr_pair_count r)) by (apply elem_of_seqZ; lia).
    assert (Hdec : Forall (λ p, pair_good r p ∨ pair_bad p) (seqZ 0 (wr_pair_count r))).
    { apply Forall_forall. intros p Hp%elem_of_seqZ. apply pair_good_or_bad; [done|lia]. }
    clear -Hin Hdec Hbad. induction Hdec as [|p l [Hg|Hb] _ IH]; [by apply not_elem_of_nil in Hin| |].
    - apply elem_of_cons in Hin as [->|Hin].
      + exists [], p, l. split; [done|]. split; [|done]. by intros ? ?%not_elem_of_nil.
      + destruct (IH Hin) as (d & p' & rest & -> & Hd & Hp'). exists (p :: d), p', rest.
        split; [done|]. split; [|done]. by intros p2 [->|Hp2]%elem_of_cons; [|apply Hd].
    - exists [], p, l. split; [done|]. split; [|done]. by intros ? ?%not_elem_of_nil. }
  destruct Hfirst as (d & p & rest & Hall & Hd & Hp). rewrite Hall, for_each_app.
  destruct (worklist_scan_prefix [] e s d (p :: rest) Hall Hd Hc) as (s' & E & _);
    [by constructor; apply prefix_nil|apply NoDup_singleton|done..|].
  change (Z.of_nat (length (order r []))) with 0 in E. rewrite E. cbn [run_bind for_each].
  by rewrite worklist_place_bad.
Qed.
End building.

(** ** Bucket statistics *)

Definition tile_eligible (tile p : Z) : bool := negb (tile =? 0) && (tile <=? p).
Definition histogram_slot (p : Z) : Z :=
  if p <? YVEX_EXPERT_WORKLIST_HISTOGRAM_CAP then p else YVEX_EXPERT_WORKLIST_HISTOGRAM_CAP - 1.

(** The facts a list of bucket populations determines: the largest, the number of buckets of each
    size class, the pairs in tile-eligible buckets and the padding of those to whole tiles. *)
Record worklist_stats (tile width : Z) (ps : list Z) (w : yvex_expert_worklist) : Prop :=
  WorklistStats {
  st_maximum : wl_maximum_bucket_population w = foldl Z.max 0 ps;
  st_histogram : wl_population_histogram w =
    (λ slot, Z.of_nat (length (filter (λ p, histogram_slot p = slot) ps))) <$> seqZ 0 17;
  st_eligible : wl_matrix_tile_eligible_pairs w = total (filter (λ p, tile_eligible tile p = true) ps);
  st_tail : wl_tail_rows w =
    total ((λ p, (- p) mod width) <$> filter (λ p, tile_eligible tile p = true) ps);
}.

Lemma total_filter_le f ps : Forall (λ p, 0 ≤ p) ps →
  0 ≤ total (filter (λ p, tile_eligible f p = true) ps) ≤ total ps.
Proof.
  induction 1 as [|p ps Hp _ IH]; [done|]. unfold total in *.
  rewrite filter_cons. case_decide; simpl; lia.
Qed.

Lemma total_tail_le f width ps : 0 < width →
  0 ≤ total ((λ p, (- p) mod width) <$> filter (λ p, tile_eligible f p = true) ps)
    ≤ width * Z.of_nat (length ps).
Proof.
  intros Hw. induction ps as [|p ps IH]; [simpl; lia|]. unfold total in *.
  pose proof (Z.mod_pos_bound (- p) width Hw).
  rewrite filter_cons. case_decide; cbn [fmap list_fmap foldr length]; rewrite ?Nat2Z.inj_succ; lia.
Qed.

Lemma round_up_tail p width : 0 < width →
  (if p mod width =? 0 then 0 else width - p mod width) = (- p) mod width.
Proof.
  intros Hw. destruct (Z.eqb_spec (p mod width) 0) as [E|E].
  - by rewrite Z.mod_opp_l_z by lia.
  - by rewrite Z.mod_opp_l_nz by lia.
Qed.

Lemma histogram_snoc ps p slot :
  Z.of_nat (length (filter (λ q, histogram_slot q = slot) (ps ++ [p]))) =
  Z.of_nat (length (filter (λ q, histogram_slot q = slot) ps)) +
  (if histogram_slot p =? slot then 1 else 0).
Proof.
  rewrite filter_app, length_app, Nat2Z.inj_add, filter_cons. f_equal.
  destruct (Z.eqb_spec (histogram_slot p) slot); case_decide; simpl; tauto || lia.
Qed.

(** Incrementing one slot of a table of counts. *)
Lemma array_increment (f : Z → Z) n slot :
  0 ≤ slot < n →
  array_get (f <$> seqZ 0 n) slot = Some (f slot) ∧
  array_set (f <$> seqZ 0 n) slot (f slot + 1) =
    Some ((λ i, f i + (if slot =? i then 1 else 0)) <$> seqZ 0 n).
Proof.
  intros Hs. rewrite table_get, table_set by done. split; [done|]. f_equal.
  apply list_fmap_ext. intros _ i _. rewrite (Z.eqb_sym slot).
  destruct (Z.eqb_spec i slot) as [->|]; lia.
Qed.

Lemma worklist_account_stats r width p ps w :
  0 < width < 64 → 0 < p → Forall (λ q, 0 ≤ q) ps → total (ps ++ [p]) ≤ 100000 →
  Z.of_nat (length ps) ≤ 256 → worklist_stats (wp_matrix_tile_minimum (wr_policy r)) width ps w →
  ∃ w', worklist_account r width p w = Some (Done w') ∧
    worklist_stats (wp_matrix_tile_minimum (wr_policy r)) width (ps ++ [p]) w'.
Proof.
  set (tile := wp_matrix_tile_minimum (wr_policy r)).
  intros Hwidth Hp Hps Htot Hlen [Hm Hh He Ht]. unfold worklist_account.
  rewrite total_app in Htot. change (total [p]) with (p + 0) in Htot.
  pose proof (total_filter_le tile ps Hps) as Hte.
  assert (Htt : 0 ≤ wl_tail_rows w ≤ 64 * 256).
  { rewrite Ht. pose proof (total_tail_le tile width ps ltac:(lia)). nia. }
  set (w1 := if wl_maximum_bucket_population w <? p
             then w <| wl_maximum_bucket_population := p |> else w).
  assert (H1 : wl_maximum_bucket_population w1 = foldl Z.max 0 (ps ++ [p]) ∧
    wl_population_histogram w1 = wl_population_histogram w ∧
    wl_matrix_tile_eligible_pairs w1 = wl_matrix_tile_eligible_pairs w ∧
    wl_tail_rows w1 = wl_tail_rows w).
  { rewrite foldl_app, <- Hm. cbn [foldl]. unfold w1.
    destruct (Z.ltb_spec (wl_maximum_bucket_population w) p); cbn; repeat split; lia. }
  clearbody w1. destruct H1 as (H1m & H1h & H1e & H1t).
  cbv zeta. fold (histogram_slot p). rewrite H1h, Hh.
  assert (Hslot : 0 ≤ histogram_slot p < 17)
    by (unfold histogram_slot, YVEX_EXPERT_WORKLIST_HISTOGRAM_CAP; destruct (Z.ltb_spec p 17); lia).
  set (f := λ slot, Z.of_nat (length (filter (λ q, histogram_slot q = slot) ps))).
  destruct (array_increment f 17 _ Hslot) as [Eg Es]. rewrite Eg. cbn [run_access run_bind].
  assert (Hf : f (histogram_slot p) ≤ 256).
  { unfold f. etrans; [apply inj_le, length_filter|done]. }
  assert (0 ≤ f (histogram_slot p)) by (unfold f; lia).
  rewrite u64_id, Es by ulia. cbn [run_access run_bind].
  assert (Hhist : (λ i, f i + (if histogram_slot p =? i then 1 else 0)) <$> seqZ 0 17 =
    (λ slot, Z.of_nat (length (filter (λ q, histogram_slot q = slot) (ps ++ [p])))) <$> seqZ 0 17).
  { apply list_fmap_ext. intros _ i _. by rewrite histogram_snoc. }
  fold tile. fold (tile_eligible tile p).
  pose proof (Z.mod_pos_bound (- p) width ltac:(lia)) as Hmod.
  destruct (tile_eligible tile p) eqn:Etile.
  - rewrite (proj2 (Z.eqb_neq _ _)) by lia. cbn [run_access run_bind]. eexists. split; [done|].
    pose proof (round_up_tail p width ltac:(lia)) as Hround.
    assert (Hfil : filter (λ q, tile_eligible tile q = true) (ps ++ [p]) =
                   filter (λ q, tile_eligible tile q = true) ps ++ [p]).
    { rewrite filter_app. by rewrite filter_cons_True. }
    destruct (p mod width =? 0); constructor; rewrite ?Hfil, ?fmap_app, ?total_app, <- ?He, <- ?Ht;
      cbn; rewrite ?H1e, ?H1t, ?u64_id; try done; try ulia.
  - eexists. split; [done|].
    assert (Hfil : filter (λ q, tile_eligible tile q = true) (ps ++ [p]) =
                   filter (λ q, tile_eligible tile q = true) ps).
    { rewrite filter_app, filter_cons_False, app_nil_r by congruence. done. }
    constructor; rewrite ?Hfil; cbn; rewrite ?H1e, ?H1t; done.
Qed.

(** ** The expert loop *)

Record request_facts (r : yvex_expert_worklist_request) (s : yvex_expert_worklist_storage) : Prop :=
  RequestFacts {
  rf_rows : 0 ≤ eb_row_count (wr_batch r) < 63;
  rf_mask : Z.testbit (wp_supported_width_mask (wr_policy r)) (eb_row_count (wr_batch r)) = true;
  rf_experts : 0 < wr_expert_count r ≤ 256;
  rf_per_row : 0 < wr_experts_per_row r ≤ wr_expert_count r;
  rf_pairs : wr_pair_count r = eb_row_count (wr_batch r) * wr_experts_per_row r;
  rf_bucket_capacity : wr_expert_count r ≤ ws_bucket_capacity s;
  rf_pair_capacity : wr_pair_count r ≤ ws_pair_capacity s;
  rf_batch_identity : strlen (eb_identity (wr_batch r)) = 64;
  rf_policy_identity : strlen (wp_identity (wr_policy r)) = 64;
}.

Lemma testbit_of_land mask i : 0 ≤ i → Z.land mask (Z.shiftl 1 i) ≠ 0 → Z.testbit mask i = true.
Proof.
  intros Hi H. destruct (Z.testbit mask i) eqn:E; [done|]. destruct H.
  apply Z.bits_inj'. intros n Hn. rewrite Z.land_spec, Z.bits_0, Z.shiftl_spec by done.
  destruct (Z.eq_dec n i) as [->|Hne]; [by rewrite E|].
  destruct (Z.le_gt_cases i n).
  - change 1 with (2 ^ 0). rewrite Z.pow2_bits_false by lia. apply andb_false_r.
  - rewrite (Z.testbit_neg_r 1) by lia. apply andb_false_r.
Qed.

Lemma worklist_request_facts r s :
  request_contract r → worklist_request_valid r s = true → request_facts r s.
Proof.
  intros [] H. unfold worklist_request_valid in H.
  destruct (yvex_core_u64_mul _ _) as [n|] eqn:Em; [|rewrite !andb_false_r in H; done].
  guards. assert (0 ≤ eb_row_count (wr_batch r)) by (unfold eb_row_count; lia).
  apply u64_mul_Some in Em as [-> ?]; [|ulia..].
  constructor; try lia.
  - by apply testbit_of_land.
  - by eapply identity_valid_length, execution_batch_validated_identity.
  - by eapply identity_valid_length, expert_worklist_policy_validated_identity.
Qed.

Lemma maximum_width_log2 fuel mask width :
  0 < mask < 2 ^ Z.of_nat fuel → maximum_width_go fuel mask width = width + Z.log2 mask.
Proof.
  revert mask width. induction fuel as [|fuel IH]; intros mask width Hm; [simpl in Hm; lia|].
  cbn [maximum_width_go]. rewrite Z.shiftr_div_pow2, Z.pow_1_r by lia. cbv zeta.
  rewrite Nat2Z.inj_succ, Z.pow_succ_r in Hm by lia.
  destruct (Z.eqb_spec (mask / 2) 0) as [E|E].
  - assert (mask = 1) as -> by (apply Z.div_small_iff in E; lia). simpl. lia.
  - assert (0 ≤ mask / 2) by (apply Z.div_pos; lia).
    rewrite IH.
    + assert (2 ≤ mask) by (destruct (Z.eq_dec mask 1) as [->|]; [done|lia]).
      replace (mask / 2) with (Z.shiftr mask 1) by (by rewrite Z.shiftr_div_pow2).
      rewrite Z.log2_shiftr by lia. pose proof (Z.log2_pos mask). lia.
    + split; [lia|]. apply Z.div_lt_upper_bound; lia.
Qed.

Lemma worklist_maximum_width_log2 mask :
  is_u64 mask → 0 < mask → worklist_maximum_width mask = Z.log2 mask.
Proof. intros Hm H0. apply maximum_width_log2. change (2 ^ Z.of_nat 64) with (ULLONG_MAX + 1). ulia. Qed.

Lemma width_range mask i :
  is_u64 mask → 0 < i → Z.testbit mask i = true → 0 < worklist_maximum_width mask < 64.
Proof.
  intros Hm Hi Ht. assert (H0 : 0 < mask).
  { destruct (Z.eq_dec mask 0) as [->|]; [by rewrite Z.bits_0 in Ht|ulia]. }
  rewrite worklist_maximum_width_log2 by done. split.
  - destruct (Z.le_gt_cases i (Z.log2 mask)); [lia|]. by rewrite Z.bits_above_log2 in Ht by lia.
  - apply Z.log2_lt_pow2; [done|]. change (2 ^ 64) with (ULLONG_MAX + 1). ulia.
Qed.

Section expert_loop.
Context (r : yvex_expert_worklist_request) (s0 : yvex_expert_worklist_storage) (width : Z).
Context (facts : request_facts r s0) (width_ok : 0 < width < 64).
Context (good : ∀ p, 0 ≤ p < wr_pair_count r → pair_good r p).

(** After the experts [es]: their buckets and pairs are in the arrays. *)
Definition emitted (es : list Z)
    (st : yvex_expert_worklist_storage * Z * Z * yvex_expert_worklist) : Prop :=
  ∃ s w, st = (s, Z.of_nat (length (order r es)), Z.of_nat (length (buckets r es)), w) ∧
    storage_contract s ∧ pairs_written r s (order r es) ∧ buckets_written s (buckets r es) ∧
    ws_bucket_capacity s = ws_bucket_capacity s0 ∧ ws_pair_capacity s = ws_pair_capacity s0 ∧
    worklist_stats (wp_matrix_tile_minimum (wr_policy r)) width (population <$> buckets r es) w.

Lemma pair_count_bound : 0 ≤ wr_pair_count r ≤ 62 * 256.
Proof using facts. destruct facts. nia. Qed.

Lemma populations_nonneg es : Forall (λ q, 0 ≤ q) (population <$> buckets r es).
Proof. apply Forall_fmap, Forall_true. intros b. unfold compose, population. lia. Qed.

Lemma worklist_emit_step es e st :
  NoDup (es ++ [e]) → Z.of_nat (length (es ++ [e])) ≤ wr_expert_count r → emitted es st →
  ∃ st', worklist_emit r width e st = Some (Done st') ∧ emitted (es ++ [e]) st'.
Proof using facts width_ok good.
  intros Hnd Hes (s & w & -> & Hc & Hw & Hb & Hbc & Hpc & Hst).
  pose proof pair_count_bound as Hpb. destruct facts as [_ _ ? _ _ ? ? _ _].
  unfold worklist_emit.
  destruct (worklist_scan r es e s) as (s' & -> & Hc' & Hw' & (E1 & E2 & E3 & E4 & E5));
    [done..|lia|ulia|done|].
  cbn [run_bind]. unfold emitted. rewrite buckets_snoc.
  destruct (Z.eqb_spec (Z.of_nat (length (routed_to r e))) 0) as [Hz|Hz].
  - rewrite bool_decide_eq_true_2 by (apply nil_length_inv; lia). rewrite app_nil_r.
    eexists. split; [done|]. exists s', w.
    split; [done|]. split; [done|]. split; [done|]. split; [|rewrite E4, E5; done].
    destruct Hb. constructor; congruence.
  - rewrite bool_decide_eq_false_2 by (intros E; by rewrite E in Hz).
    pose proof (length_buckets r es) as Hlb. rewrite length_app in Hes. cbn in Hes.
    pose proof (order_length r (es ++ [e]) Hnd ltac:(lia)) as Hlo.
    destruct Hb as [H1 H2 H3], Hc' as [L1 L2 L3 L4 L5 L6 L7].
    rewrite <- E1 in H1. rewrite <- E2 in H2. rewrite <- E3 in H3.
    destruct (array_push_eq _ _ e (Z.of_nat (length (buckets r es))) H1) as (a1 & -> & A1 & B1);
      [by rewrite length_fmap|rewrite length_fmap; lia|].
    destruct (array_push_eq _ _ (Z.of_nat (length (order r es)))
      (Z.of_nat (length (buckets r es))) H2) as (a2 & -> & A2 & B2);
      [by rewrite length_starts, length_fmap|rewrite length_starts, length_fmap; lia|].
    destruct (array_push_eq _ _ (Z.of_nat (length (routed_to r e)))
      (Z.of_nat (length (buckets r es))) H3) as (a3 & -> & A3 & B3);
      [by rewrite length_fmap|rewrite length_fmap; lia|].
    cbn [run_access run_bind].
    assert (Htot : total ((population <$> buckets r es) ++ [Z.of_nat (length (routed_to r e))]) =
                   Z.of_nat (length (order r (es ++ [e])))).
    { rewrite total_app, buckets_total, order_snoc, length_app. unfold total. simpl. lia. }
    destruct (worklist_account_stats r width (Z.of_nat (length (routed_to r e)))
      (population <$> buckets r es) w) as (w' & -> & Hst');
      [done|lia|apply populations_nonneg|lia|rewrite length_fmap; lia|done|].
    cbn [run_bind]. eexists. split; [done|]. eexists _, w'. split.
    { f_equal. f_equal. rewrite u64_id by ulia. rewrite length_app. simpl. lia. }
    split; [by constructor; cbn; lia|].
    split; [by destruct Hw'; constructor|]. split; [constructor; cbn; rewrite !fmap_app; try done|].
    + change (population <$> [(e, routed_to r e)]) with [Z.of_nat (length (routed_to r e))].
      by rewrite starts_snoc, buckets_total.
    + rewrite fmap_app. cbn. split; [congruence|]. split; [congruence|]. done.
Qed.

Lemma worklist_emit_all :
  storage_contract s0 →
  ∃ st, for_range 0 (wr_expert_count r) (worklist_emit r width) (s0, 0, 0, worklist_zero s0)
          = Some (Done st) ∧ emitted (seqZ 0 (wr_expert_count r)) st.
Proof using facts width_ok good.
  intros Hc. unfold for_range. rewrite Z.sub_0_r.
  apply (for_each_invariant (worklist_emit r width) emitted).
  - exists s0, (worklist_zero s0). split; [done|]. split; [done|].
    split; [by constructor; apply prefix_nil|]. split; [by constructor; apply prefix_nil|].
    split; [done|]. split; [done|]. by constructor.
  - intros d e todo st Hsplit Hem. apply worklist_emit_step; [| |done].
    + pose proof (NoDup_seqZ 0 (wr_expert_count r)) as Hnd. rewrite Hsplit in Hnd.
      replace (d ++ e :: todo) with ((d ++ [e]) ++ todo) in Hnd by (by rewrite <- (assoc_L (++))).
      by apply NoDup_app in Hnd as [? _].
    + pose proof (length_seqZ 0 (wr_expert_count r)) as Hl. rewrite Hsplit, length_app in Hl.
      rewrite length_app. simpl in *. destruct facts. lia.
Qed.
End expert_loop.

(** * Arrays that describe a bucket list *)

(** The six arrays hold the buckets [B] and their pairs, in order. *)
Record laid_out (r : yvex_expert_worklist_request) (a : yvex_expert_worklist_storage)
    (B : list (Z * list Z)) : Prop := LaidOut {
  lo_expert_ids : starts_with (ws_expert_ids a) (fst <$> B);
  lo_bucket_offsets :
    starts_with (ws_bucket_offsets a) (starts 0 (population <$> B) ++ [total (population <$> B)]);
  lo_bucket_populations : starts_with (ws_bucket_populations a) (population <$> B);
  lo_pairs : pairs_written r a (mjoin (snd <$> B));
}.

Lemma starts_lookup a ps k rest :
  starts a (ps ++ k :: rest) !! length ps = Some (a + total ps).
Proof.
  revert a. induction ps as [|p ps IH]; intros a; simpl; [f_equal; lia|]. rewrite IH. f_equal. lia.
Qed.

Lemma offsets_lookup ps qs :
  (starts 0 (ps ++ qs) ++ [total (ps ++ qs)]) !! length ps = Some (total ps).
Proof.
  destruct qs as [|q qs].
  - rewrite app_nil_r, lookup_app_r by by rewrite length_starts.
    by rewrite length_starts, Nat.sub_diag.
  - apply lookup_app_l_Some. by rewrite starts_lookup.
Qed.

Section checking.
Context (r : yvex_expert_worklist_request) (a : yvex_expert_worklist_storage).
Context (contract : request_contract r).

(** The [seen] array when the pairs [P] have been met. *)
Definition seen_array (P : list Z) : list bool :=
  (λ p, bool_decide (p ∈ P)) <$> seqZ 0 (wr_pair_count r).

Lemma seen_array_nil : seen_array [] = replicate (Z.to_nat (wr_pair_count r)) false.
Proof.
  unfold seen_array. replace (Z.to_nat (wr_pair_count r)) with (length (seqZ 0 (wr_pair_count r)))
    by apply length_seqZ.
  induction (seqZ 0 (wr_pair_count r)) as [|x l IH]; [done|]. cbn. by rewrite IH.
Qed.

Lemma seen_array_set P p :
  0 ≤ p < wr_pair_count r → array_set (seen_array P) p true = Some (seen_array (P ++ [p])).
Proof.
  intros Hp. unfold seen_array. rewrite table_set by done. f_equal.
  apply list_fmap_ext. intros _ j _. destruct (Z.eqb_spec j p) as [->|Hne].
  - rewrite bool_decide_eq_true_2; [done|]. set_solver.
  - apply bool_decide_ext. set_solver.
Qed.

(** A position holding an unseen pair of the expert is accepted. *)
Lemma check_position_good P p e :
  starts_with (ws_source_pairs a) (P ++ [p]) →
  starts_with (ws_source_rows a) ((λ p, p / wr_experts_per_row r) <$> (P ++ [p])) →
  starts_with (ws_destination_rows a) (P ++ [p]) →
  starts_with (ws_route_weights a) (route_weight r <$> (P ++ [p])) →
  p ∉ P → 0 ≤ p < wr_pair_count r → array_get (wr_selected_experts r) p = Some e →
  worklist_check_position r a e (Z.of_nat (length P)) (seen_array P) =
    Some (Done (seen_array (P ++ [p]))).
Proof using contract.
  intros H1 H2 H3 H4 Hnew Hp Hsel. unfold worklist_check_position.
  assert (Hlast : (P ++ [p]) !! length P = Some p) by (by apply list_lookup_middle).
  rewrite (array_get_starts _ _ _ _ H1 Hlast). cbn [run_access run_bind].
  rewrite (proj2 (Z.leb_gt _ _)) by lia.
  unfold seen_array at 1. rewrite table_get by done. cbn [run_access run_bind].
  rewrite bool_decide_eq_false_2, Hsel by done. cbn [run_access run_bind].
  rewrite Z.eqb_refl. cbn [negb].
  rewrite (array_get_starts _ _ (length P) (p / wr_experts_per_row r) H2)
    by (by rewrite list_lookup_fmap, Hlast).
  cbn [run_access run_bind]. rewrite Z.eqb_refl. cbn [negb].
  rewrite (array_get_starts _ _ _ _ H3 Hlast). cbn [run_access run_bind].
  rewrite Z.eqb_refl. cbn [negb].
  rewrite (array_get_starts _ _ (length P) (route_weight r p) H4)
    by (by rewrite list_lookup_fmap, Hlast).
  cbn [run_access run_bind].
  destruct contract as [_ Hwl _ _ _ _ _ _].
  destruct (array_get_is_Some (wr_route_weights r) p) as [w Hw]; [lia|].
  unfold route_weight. rewrite Hw. cbn [run_access run_bind default option_fmap from_option id].
  rewrite Z.eqb_refl. cbn [negb]. by rewrite seen_array_set.
Qed.

Context (B : list (Z * list Z)).
Context (laid : laid_out r a B).
Context (nodup : NoDup (mjoin (snd <$> B))).
Context (routed_ok : ∀ e ps p, (e, ps) ∈ B → p ∈ ps →
  0 ≤ p < wr_pair_count r ∧ array_get (wr_selected_experts r) p = Some e).

Lemma starts_with_app_l {A} (arr x y : list A) : starts_with arr (x ++ y) → starts_with arr x.
Proof. intros [k ->]. exists (y ++ k). by rewrite (assoc_L (++)). Qed.

Lemma check_positions B1 e ps B2 :
  B = B1 ++ (e, ps) :: B2 →
  let P := mjoin (snd <$> B1) in
  for_range (Z.of_nat (length P)) (Z.of_nat (length (P ++ ps))) (worklist_check_position r a e)
    (seen_array P) = Some (Done (seen_array (P ++ ps))).
Proof using laid contract nodup routed_ok.
  intros HB P. unfold for_range.
  set (lo := Z.of_nat (length P)).
  set (I := λ (d : list Z) (s : list bool), s = seen_array (P ++ take (length d) ps)).
  destruct (for_each_invariant (worklist_check_position r a e) I
    (seqZ lo (Z.of_nat (length (P ++ ps)) - lo)) (seen_array P)) as (s & -> & Hs).
  - unfold I. cbn. by rewrite app_nil_r.
  - intros d x todo s Hsplit ->. pose proof (seqZ_split _ _ _ _ _ Hsplit) as (-> & Hr & _).
    rewrite length_app in Hr. destruct (lookup_lt_is_Some_2 ps (length d)) as [p Hp]; [lia|].
    assert (Hall : mjoin (snd <$> B) = (P ++ take (length d) ps ++ [p]) ++
                     drop (S (length d)) ps ++ mjoin (snd <$> B2)).
    { rewrite HB, fmap_app, join_app. fold P. cbn [fmap list_fmap snd mjoin list_join].
      rewrite <- (take_drop_middle ps (length d) p Hp) at 1. by rewrite <- !(assoc_L (++)). }
    assert (Hin : p ∈ ps) by (by eapply list_elem_of_lookup_2).
    destruct (routed_ok e ps p) as [Hpr Hsel]; [rewrite HB; set_solver|done|].
    replace (lo + Z.of_nat (length d)) with (Z.of_nat (length (P ++ take (length d) ps)))
      by (rewrite length_app, length_take; lia).
    destruct laid as [_ _ _ [W1 W2 W3 W4]]. rewrite Hall in W1, W2, W3, W4, nodup.
    rewrite fmap_app in W2, W4. apply starts_with_app_l in W1, W2, W3, W4.
    rewrite (assoc_L (++)) in W1, W2, W3, W4.
    eexists. split.
    + apply check_position_good; try done.
      apply NoDup_app in nodup as (nodup' & _).
      rewrite (assoc_L (++)) in nodup'. apply NoDup_app in nodup' as (_ & Hd & _).
      intros Hp'. apply (Hd p Hp'). apply list_elem_of_here.
    + unfold I. rewrite length_app, Nat.add_1_r, (take_S_r _ _ p) by done.
      by rewrite (assoc_L (++)).
  - rewrite Hs. do 3 f_equal. unfold I. rewrite length_seqZ.
    replace (Z.to_nat _) with (length ps) by (unfold lo; rewrite length_app; lia).
    by rewrite firstn_all.
Qed.
Context (sorted : StronglySorted Z.lt (fst <$> B)).
Context (buckets_ok : ∀ e ps, (e, ps) ∈ B → ps ≠ [] ∧ 0 ≤ e < wr_expert_count r).
Context (covers : total (population <$> B) = wr_pair_count r) (small : wr_pair_count r ≤ ULLONG_MAX).

Lemma total_length (C : list (Z * list Z)) :
  total (population <$> C) = Z.of_nat (length (mjoin (snd <$> C))).
Proof.
  clear. induction C as [|b C IH]; [done|].
  change (population b + total (population <$> C) = Z.of_nat (length (b.2 ++ mjoin (snd <$> C)))).
  rewrite length_app, Nat2Z.inj_add, <- IH. done.
Qed.

Lemma check_bucket_good B1 e ps B2 :
  B = B1 ++ (e, ps) :: B2 →
  worklist_check_bucket r a (Z.of_nat (length B1))
    (seen_array (mjoin (snd <$> B1)), total (population <$> B1)) =
  Some (Done (seen_array (mjoin (snd <$> (B1 ++ [(e, ps)]))),
              total (population <$> (B1 ++ [(e, ps)])))).
Proof using laid contract nodup routed_ok sorted buckets_ok covers small.
  intros HB. pose proof (check_positions B1 e ps B2 HB) as Hpos. cbv zeta in Hpos.
  destruct (buckets_ok e ps) as [Hne He]; [rewrite HB; set_solver|].
  destruct laid as [L1 L2 L3 _].
  assert (Hpops : population <$> B = (population <$> B1) ++ population (e, ps) :: (population <$> B2))
    by (by rewrite HB, fmap_app).
  assert (Hpops' : population <$> B = (population <$> (B1 ++ [(e, ps)])) ++ (population <$> B2)).
  { rewrite Hpops, fmap_app. by rewrite <- (assoc_L (++)). }
  assert (Htot : total (population <$> (B1 ++ [(e, ps)])) = total (population <$> B1) + population (e, ps)).
  { rewrite fmap_app, total_app. unfold total. simpl. lia. }
  assert (0 ≤ total (population <$> B2)) by (rewrite total_length; lia).
  assert (0 ≤ total (population <$> B1)) by (rewrite total_length; lia).
  assert (0 < population (e, ps)).
  { unfold population. cbn. destruct ps; [done|]. cbn. lia. }
  rewrite Hpops', total_app, Htot in covers.
  unfold worklist_check_bucket.
  rewrite (array_get_starts _ _ _ e L1)
    by (rewrite list_lookup_fmap, HB, list_lookup_middle; done).
  cbn [run_access run_bind].
  rewrite (array_get_starts _ _ _ (total (population <$> B1)) L2)
    by (rewrite Hpops, <- (length_fmap population B1); apply offsets_lookup).
  cbn [run_access run_bind].
  replace (Z.of_nat (length B1) + 1) with (Z.of_nat (length (B1 ++ [(e, ps)])))
    by (rewrite length_app; simpl; lia).
  rewrite (array_get_starts _ _ _ (total (population <$> (B1 ++ [(e, ps)]))) L2)
    by (rewrite Hpops', <- (length_fmap population (B1 ++ [_])); apply offsets_lookup).
  cbn [run_access run_bind].
  rewrite (array_get_starts _ _ _ (population (e, ps)) L3)
    by (rewrite list_lookup_fmap, HB, list_lookup_middle; done).
  cbn [run_access run_bind]. rewrite (proj2 (Z.leb_gt _ _)) by lia.
  assert (Hprev : (if Z.of_nat (length B1) =? 0 then run_ret false
    else let! previous := run_access (array_get (ws_expert_ids a) (Z.of_nat (length B1) - 1)) in
         run_ret (e <=? previous)) = run_ret false).
  { destruct (Z.eqb_spec (Z.of_nat (length B1)) 0) as [|Hn]; [done|].
    destruct B1 as [|b B1' _] using rev_ind; [done|].
    replace (Z.of_nat (length (B1' ++ [b])) - 1) with (Z.of_nat (length B1'))
      by (rewrite length_app; simpl; lia).
    rewrite HB, <- (assoc_L (++)), fmap_app in L1, sorted. cbn [app fmap list_fmap] in L1, sorted.
    rewrite (array_get_starts _ _ _ b.1 L1)
      by (rewrite <- (length_fmap fst B1'); by apply list_lookup_middle).
    cbn [run_access run_bind]. f_equal. f_equal. apply Z.leb_gt.
    apply StronglySorted_app in sorted as (_ & _ & Hs).
    apply StronglySorted_inv in Hs as [_ Hs]. by apply Forall_cons in Hs as [Hs _]. }
  rewrite Hprev. cbn [run_ret run_bind]. rewrite Htot.
  rewrite (proj2 (Z.ltb_ge _ _)) by lia.
  rewrite (proj2 (Z.eqb_eq (_ - _) _)) by lia. rewrite (proj2 (Z.eqb_neq (population _) 0)) by lia.
  cbn [negb orb].
  rewrite fmap_app, join_app. cbn [fmap list_fmap snd mjoin list_join]. rewrite app_nil_r.
  rewrite total_length. replace (Z.of_nat _ + population (e, ps)) with
    (Z.of_nat (length (mjoin (snd <$> B1) ++ ps)))
    by (rewrite length_app; unfold population; simpl; lia).
  rewrite Hpos. cbn [run_bind]. unfold run_ret. do 3 f_equal.
  rewrite total_length in covers. unfold population in *. cbn in *.
  apply u64_id. rewrite length_app in *. ulia.
Qed.

Lemma check_buckets_good :
  for_range 0 (Z.of_nat (length B)) (worklist_check_bucket r a) (seen_array [], 0) =
  Some (Done (seen_array (mjoin (snd <$> B)), wr_pair_count r)).
Proof using laid contract nodup routed_ok sorted buckets_ok covers small.
  unfold for_range. rewrite Z.sub_0_r.
  set (I := λ (d : list Z) (st : list bool * Z),
    st = (seen_array (mjoin (snd <$> take (length d) B)), total (population <$> take (length d) B))).
  destruct (for_each_invariant (worklist_check_bucket r a) I (seqZ 0 (Z.of_nat (length B)))
              (seen_array [], 0)) as (s & -> & ->).
  - done.
  - intros d x todo s Hsplit ->. pose proof (seqZ_split _ _ _ _ _ Hsplit) as (-> & Hr & _).
    rewrite Z.add_0_l in *. destruct (lookup_lt_is_Some_2 B (length d)) as [[e ps] Hb]; [lia|].
    pose proof (take_drop_middle B (length d) _ Hb) as HB.
    pose proof (check_bucket_good (take (length d) B) e ps _ (eq_sym HB)) as Hg.
    rewrite length_take_le in Hg by lia. eexists. split; [exact Hg|]. unfold I.
    rewrite length_app, Nat.add_1_r. by rewrite (take_S_r _ _ (e, ps)).
  - rewrite length_seqZ, Nat2Z.id, firstn_all. by rewrite covers.
Qed.
End checking.

(** * The whole build *)

Lemma StronglySorted_seqZ lo n : StronglySorted Z.lt (seqZ lo n).
Proof.
  destruct (Z.le_gt_cases 0 n) as [Hn|Hn]; [|by rewrite seqZ_nil by lia; constructor].
  revert lo. pattern n. apply natlike_ind; [intros lo; constructor| |done].
  clear. intros n Hn IH lo. rewrite seqZ_cons, Z.pred_succ by lia. constructor; [apply IH|].
  apply Forall_forall. intros x Hx%elem_of_seqZ. lia.
Qed.

Lemma elem_of_buckets r es e ps : (e, ps) ∈ buckets r es ↔ e ∈ es ∧ ps = routed_to r e ∧ ps ≠ [].
Proof.
  unfold buckets. rewrite list_elem_of_filter, list_elem_of_fmap. simpl. naive_solver.
Qed.

Lemma buckets_sorted r es : StronglySorted Z.lt es → StronglySorted Z.lt (fst <$> buckets r es).
Proof.
  induction 1 as [|e es Hs IH Hf]; [constructor|]. unfold buckets in *.
  cbn [fmap list_fmap]. rewrite filter_cons. case_decide; [|done]. constructor; [done|].
  apply Forall_forall. intros x (b & -> & Hb)%list_elem_of_fmap. destruct b as [x ps].
  apply elem_of_buckets in Hb as (Hx & _). rewrite Forall_forall in Hf. by apply Hf.
Qed.

Lemma mapM_Some_all {A B} (f : A → option B) (l : list A) (P : B → Prop) :
  (∀ x, x ∈ l → ∃ y, f x = Some y ∧ P y) → ∃ k, mapM f l = Some k ∧ Forall P k ∧ length k = length l.
Proof.
  intros H. induction l as [|x l IH]; [by exists []|].
  destruct (H x) as (y & E & Hy); [apply list_elem_of_here|].
  destruct IH as (k & Ek & Hk & Hl); [intros z Hz; apply H; by apply list_elem_of_further|].
  exists (y :: k). cbn. rewrite E. cbn. rewrite Ek. cbn. split; [done|]. split; [by constructor|by rewrite Hl].
Qed.

Lemma fields_size_join (ls : list (list field)) k :
  Forall (λ l, fields_size l ≤ k) ls → fields_size (mjoin ls) ≤ k * Z.of_nat (length ls).
Proof. rewrite list_join_bind. apply (fields_size_bind id). Qed.

Lemma array_get_prefix {A} (arr xs : list A) i :
  starts_with arr xs → 0 ≤ i < Z.of_nat (length xs) → ∃ x, array_get arr i = Some x.
Proof.
  intros Hs Hi. destruct (lookup_lt_is_Some_2 xs (Z.to_nat i)) as [x Hx]; [lia|]. exists x.
  rewrite <- (Z2Nat.id i) by lia. by eapply array_get_starts.
Qed.

(** Sealing reads only written cells and stays far below the hash's length limit. *)
Lemma worklist_fields_ok r w B :
  laid_out r (wl_arrays w) B → wl_bucket_count w = Z.of_nat (length B) →
  total (population <$> B) = wr_pair_count r → wr_pair_count r ≤ 62 * 256 → Z.of_nat (length B) ≤ 256 →
  strlen (wl_batch_identity w) = 64 → strlen (wl_policy_identity w) = 64 →
  ∃ fs, worklist_fields r w = Some fs ∧ fields_size fs ≤ ULLONG_MAX / 8.
Proof.
  intros [L1 L2 L3 [W1 W2 W3 W4]] HB Ht Hp Hb Hi1 Hi2. unfold worklist_fields. rewrite HB.
  rewrite total_length in Ht.
  destruct (mapM_Some_all (λ bucket,
      expert ← array_get (ws_expert_ids (wl_arrays w)) bucket;
      offset ← array_get (ws_bucket_offsets (wl_arrays w)) bucket;
      pop ← array_get (ws_bucket_populations (wl_arrays w)) bucket;
      Some [FU64 expert; FU64 offset; FU64 pop]) (seqZ 0 (Z.of_nat (length B)))
      (λ l, fields_size l ≤ 24)) as (bs & -> & Fb & Nb).
  { intros i Hi%elem_of_seqZ.
    destruct (array_get_prefix _ _ i L1) as [x ->]; [rewrite length_fmap; lia|].
    destruct (array_get_prefix _ _ i L2) as [y ->];
      [rewrite length_app, length_starts, length_fmap; simpl; lia|].
    destruct (array_get_prefix _ _ i L3) as [z ->]; [rewrite length_fmap; lia|]. eexists. split; [done|]. by vm_compute. }
  destruct (array_get_prefix _ _ (Z.of_nat (length B)) L2) as [last Hlast];
    [rewrite length_app, length_starts, length_fmap; simpl; lia|].
  cbn [mbind option_bind]. rewrite Hlast. cbn [mbind option_bind].
  destruct (mapM_Some_all (λ p,
      weight_bits ← array_get (ws_route_weights (wl_arrays w)) p;
      source_pair ← array_get (ws_source_pairs (wl_arrays w)) p;
      source_row ← array_get (ws_source_rows (wl_arrays w)) p;
      destination_row ← array_get (ws_destination_rows (wl_arrays w)) p;
      Some [FU64 source_pair; FU64 source_row; FU64 destination_row; FU64 weight_bits])
      (seqZ 0 (wr_pair_count r)) (λ l, fields_size l ≤ 32)) as (ps & -> & Fp & Np).
  { intros i Hi%elem_of_seqZ.
    destruct (array_get_prefix _ _ i W4) as [x ->]; [rewrite length_fmap; lia|].
    destruct (array_get_prefix _ _ i W1) as [y ->]; [lia|].
    destruct (array_get_prefix _ _ i W2) as [z ->]; [rewrite length_fmap; lia|].
    destruct (array_get_prefix _ _ i W3) as [u ->]; [lia|]. eexists. split; [done|]. by vm_compute. }
  eexists. split; [done|]. rewrite !fields_size_app. cbn [fields_size foldr field_size].
  apply fields_size_join in Fb, Fp. rewrite length_seqZ in Nb, Np. rewrite Hi1, Hi2. strlen_literals.
  change (ULLONG_MAX / 8) with 2305843009213693951. lia.
Qed.

Lemma text_copy_id dst s : strlen s = 64 → yvex_core_text_copy dst 65 (Some s) = s.
Proof.
  unfold strlen, yvex_core_text_copy. rewrite length_cstr. intros H.
  assert (Hl : String.length s = 64%nat) by lia. cbn [default from_option id].
  rewrite <- Hl. clear. cbn. induction s as [|c s IH]; [done|]. cbn. by rewrite IH.
Qed.

Section build.
Context (r : yvex_expert_worklist_request) (s : yvex_expert_worklist_storage).
Context (rcontract : request_contract r) (scontract : storage_contract s).
Context (valid : worklist_request_valid r s = true) (rows : 0 < eb_row_count (wr_batch r)).

Definition all_buckets : list (Z * list Z) := buckets r (seqZ 0 (wr_expert_count r)).

Lemma width_admitted :
  0 < worklist_maximum_width (wp_supported_width_mask (wr_policy r)) < 64 ∧
  worklist_maximum_width (wp_supported_width_mask (wr_policy r)) =
    Z.log2 (wp_supported_width_mask (wr_policy r)).
Proof using rcontract valid rows.
  destruct (worklist_request_facts r s rcontract valid) as [_ Hm _ _ _ _ _ _ _].
  assert (Hw : is_u64 (wp_supported_width_mask (wr_policy r))) by apply rcontract.
  split; [by apply (width_range _ (eb_row_count (wr_batch r)))|].
  apply worklist_maximum_width_log2; [done|].
  destruct (Z.eq_dec (wp_supported_width_mask (wr_policy r)) 0) as [E|]; [|ulia].
  by rewrite E, Z.bits_0 in Hm.
Qed.

Lemma build_refuses_bad calloc_ok p :
  0 ≤ p < wr_pair_count r → pair_bad r p →
  yvex_expert_worklist_build calloc_ok r s =
    Some (Refused YVEX_ERR_FORMAT "routed pair has an invalid expert or weight").
Proof using rcontract scontract valid.
  intros Hp Hbad. pose proof (worklist_request_facts r s rcontract valid) as facts.
  pose proof (pair_count_bound r s facts) as Hb. destruct facts as [_ _ ? _ _ _ ? _ _].
  unfold yvex_expert_worklist_build. rewrite valid. cbn [negb]. unfold for_range at 1.
  rewrite Z.sub_0_r, seqZ_cons by lia. cbn [for_each]. unfold worklist_emit at 1.
  by rewrite (worklist_scan_bad r 0 s p) by (done || ulia).
Qed.

(** A request without rows routes no pair, so no bucket is emitted, and the validator refuses what was built. *)
Lemma build_refuses_empty calloc_ok : eb_row_count (wr_batch r) = 0 →
  yvex_expert_worklist_build calloc_ok r s =
    Some (Refused YVEX_ERR_INVALID_ARG "expert worklist structure or identity is invalid").
Proof using rcontract scontract valid.
  clear rows. intros Hrows. pose proof (worklist_request_facts r s rcontract valid) as facts.
  assert (Hp : wr_pair_count r = 0) by (rewrite (rf_pairs _ _ facts), Hrows; lia).
  unfold yvex_expert_worklist_build. rewrite valid. cbn [negb]. cbv zeta.
  assert (∀ width, for_range 0 (wr_expert_count r) (worklist_emit r width) (s, 0, 0, worklist_zero s) =
    Some (Done (s, 0, 0, worklist_zero s))) as ->.
  { intros width. unfold for_range at 1. generalize (seqZ 0 (wr_expert_count r - 0)). intros l. induction l as [|e l IH]; [done|].
    cbn [for_each]. unfold worklist_emit at 1. rewrite Hp. exact IH. }
  cbn [run_bind]. destruct (array_push_eq (ws_bucket_offsets s) [] 0 0) as (offs & -> & O1 & _);
    [by apply prefix_nil|done|pose proof (sc_bucket_offsets _ scontract); pose proof (rf_bucket_capacity _ _ facts); pose proof (rf_experts _ _ facts); cbn; lia|].
  cbn [run_access run_bind]. rewrite Hp. cbn [Z.eqb negb].
  rewrite !(text_copy_id "") by (by destruct facts).
  match goal with |- context [worklist_seal r ?x] => set (w := x) end.
  destruct (worklist_fields_ok r w []) as (fs & Hfs & Hsz);
    [|done|done|lia|done|by destruct facts|by destruct facts|].
  { constructor; cbn; [apply prefix_nil|exact O1|apply prefix_nil|constructor; apply prefix_nil]. }
  rewrite <- fields_size_bytes in Hsz. unfold worklist_seal. rewrite Hfs. cbn [run_access run_bind].
  rewrite (sha256_identity_spec fs Hsz). cbn [run_ret run_bind]. unfold yvex_expert_worklist_validate, worklist_structure_valid.
  change (wl_bucket_count (w <| wl_identity := _ |>)) with 0. rewrite Z.eqb_refl, !orb_true_r. done.
Qed.

Context (good : ∀ p, 0 ≤ p < wr_pair_count r → pair_good r p).

Lemma order_covers : Z.of_nat (length (order r (seqZ 0 (wr_expert_count r)))) = wr_pair_count r.
Proof using rcontract valid good.
  pose proof (order_permutation r good) as ->. rewrite length_seqZ.
  pose proof (pair_count_bound r s (worklist_request_facts r s rcontract valid)). lia.
Qed.

Lemma validate_built w :
  laid_out r (wl_arrays w) all_buckets →
  wl_schema_version w = YVEX_EXPERT_WORKLIST_SCHEMA_V1 →
  worklist_identity_valid (wl_identity w) = true →
  wl_batch_identity w = eb_identity (wr_batch r) → wl_policy_identity w = wp_identity (wr_policy r) →
  wl_actual_width w = eb_row_count (wr_batch r) → wl_bucket_count w = Z.of_nat (length all_buckets) →
  wl_pair_count w = wr_pair_count r →
  yvex_expert_worklist_validate true r w = Some (Done tt) ∧
  yvex_expert_worklist_validate false r w =
    Some (Refused YVEX_ERR_NOMEM "expert worklist validation allocation failed").
Proof using rcontract scontract valid rows good.
  intros Hl H1 H2 H3 H4 H5 H6 H7.
  pose proof (worklist_request_facts r s rcontract valid) as facts.
  pose proof (pair_count_bound r s facts) as Hpb. pose proof order_covers as Hoc.
  assert (Htot : total (population <$> all_buckets) = wr_pair_count r) by (by unfold all_buckets; rewrite buckets_total).
  assert (Hlen : 0 < Z.of_nat (length all_buckets) ≤ wr_expert_count r).
  { split.
    - destruct all_buckets as [|b B] eqn:E; [|simpl; lia]. cbn in Htot.
      destruct facts as [_ _ _ ? ? _ _ _ _]. nia.
    - pose proof (length_buckets r (seqZ 0 (wr_expert_count r))) as Hl'. rewrite length_seqZ in Hl'.
      pose proof (rf_experts _ _ facts). unfold all_buckets. lia. }
  unfold yvex_expert_worklist_validate, worklist_structure_valid.
  rewrite H1, H2, H3, H4, H5, H6, H7, !bool_decide_eq_true_2, !Z.eqb_refl by done.
  rewrite (proj2 (Z.eqb_neq _ 0)), (proj2 (Z.ltb_ge (wr_expert_count r) _)) by lia. cbn [negb orb].
  pose proof (lo_bucket_offsets _ _ _ Hl) as Ho.
  assert (Hfirst : array_get (ws_bucket_offsets (wl_arrays w)) 0 = Some 0).
  { apply (array_get_starts _ _ 0 0 Ho). exact (offsets_lookup [] (population <$> all_buckets)). }
  assert (Hlast : array_get (ws_bucket_offsets (wl_arrays w)) (Z.of_nat (length all_buckets)) =
                  Some (wr_pair_count r)).
  { rewrite <- (length_fmap population), <- Htot. apply (array_get_starts _ _ _ _ Ho).
    pose proof (offsets_lookup (population <$> all_buckets) []) as Hx. by rewrite app_nil_r in Hx. }
  rewrite Hfirst. cbn [run_access run_bind Z.eqb negb]. rewrite Hlast. cbn [run_access run_bind run_ret].
  rewrite Z.eqb_refl. cbn [negb]. split; [|done].
  rewrite <- seen_array_nil.
  rewrite (check_buckets_good r (wl_arrays w) rcontract all_buckets Hl).
  - cbn [run_bind]. by rewrite Z.eqb_refl.
  - unfold all_buckets. rewrite buckets_order. apply order_NoDup, NoDup_seqZ.
  - intros e ps p (_ & -> & _)%elem_of_buckets Hp%elem_of_routed_to. tauto.
  - apply buckets_sorted, StronglySorted_seqZ.
  - intros e ps (He%elem_of_seqZ & _ & ?)%elem_of_buckets. split; [done|lia].
  - done.
  - ulia.
Qed.

Lemma build_good :
  yvex_expert_worklist_build false r s =
    Some (Refused YVEX_ERR_NOMEM "expert worklist validation allocation failed") ∧
  ∃ w, yvex_expert_worklist_build true r s = Some (Done w) ∧
    yvex_expert_worklist_validate true r w = Some (Done tt) ∧
    laid_out r (wl_arrays w) all_buckets ∧
    wl_bucket_count w = Z.of_nat (length all_buckets) ∧ wl_pair_count w = wr_pair_count r ∧
    worklist_stats (wp_matrix_tile_minimum (wr_policy r)) (Z.log2 (wp_supported_width_mask (wr_policy r)))
      (population <$> all_buckets) w ∧
    wl_narrow_pairs w + wl_matrix_tile_eligible_pairs w = wr_pair_count r.
Proof using rcontract scontract valid rows good.
  pose proof (worklist_request_facts r s rcontract valid) as facts.
  pose proof (pair_count_bound r s facts) as Hpb. pose proof order_covers as Hoc.
  destruct width_admitted as [Hw Hlog].
  destruct (worklist_emit_all r s _ facts Hw good scontract)
    as (st & Hrun & a & w & -> & Hc & Hpw & [B1 B2 B3] & Hbc & Hpc & Hst).
  unfold yvex_expert_worklist_build. rewrite valid. cbn [negb]. cbv zeta. rewrite Hrun. cbn [run_bind].
  assert (Htot : total (population <$> all_buckets) = wr_pair_count r) by (by unfold all_buckets; rewrite buckets_total).
  pose proof (length_buckets r (seqZ 0 (wr_expert_count r))) as Hlb. rewrite length_seqZ in Hlb.
  destruct facts as [? _ ? _ _ ? ? Hbi Hpi]. fold all_buckets in *.
  destruct (array_push_eq _ _ (Z.of_nat (length (order r (seqZ 0 (wr_expert_count r)))))
    (Z.of_nat (length all_buckets)) B2) as (offs & -> & O1 & O2);
    [by rewrite length_starts, length_fmap|rewrite length_starts, length_fmap; destruct Hc; lia|].
  cbn [run_access run_bind]. rewrite Hoc, Z.eqb_refl. cbn [negb].
  assert (Hlaid : laid_out r (a <| ws_bucket_offsets := offs |>) all_buckets).
  { constructor; cbn; try done; [by rewrite Htot, <- Hoc|]. unfold all_buckets. rewrite buckets_order.
    by destruct Hpw. }
  rewrite !(text_copy_id "") by done.
  match goal with |- context [worklist_seal r ?x] => set (w1 := x) end.
  destruct (worklist_fields_ok r w1 all_buckets) as (fs & Hfs & Hsz);
    [done|done|done|lia|lia|done|done|].
  rewrite <- fields_size_bytes in Hsz. pose proof (sha256_identity_spec fs Hsz) as Hid.
  unfold worklist_seal. rewrite Hfs. cbn [run_access run_bind]. rewrite Hid. cbn [run_ret run_bind].
  destruct (validate_built (w1 <| wl_identity := yvex_sha256_hex (sha256_spec (fields_bytes fs)) |>))
    as [Hv1 Hv2]; [done|done|by eapply sha256_identity_valid|done..|].
  rewrite Hv1, Hv2. split; [done|]. eexists. split; [done|]. split; [exact Hv1|].
  split; [done|]. split; [done|]. split; [done|]. rewrite <- Hlog.
  destruct Hst as [S1 S2 S3 S4]. split; [by constructor|]. cbn.
  pose proof (total_filter_le (wp_matrix_tile_minimum (wr_policy r)) _ (populations_nonneg r (seqZ 0 (wr_expert_count r)))) as Hf.
  fold all_buckets in Hf. rewrite <- S3, Htot in Hf. rewrite u64_id by ulia. lia.
Qed.
End build.

(** C1: The worklist build is a total, memory-safe stable grouping. For every admitted request over
    caller memory of the announced sizes, no access leaves an array. A request whose batch has no rows, which
    admission lets through (it validates without an error argument), is refused by the validator at the end. In any
    other, an out-of-range expert or a non-finite weight is refused as a format error; otherwise the build
    finishes, its arrays hold the non-empty experts in increasing order with their offsets and populations,
    the pairs of each expert in pair order (a permutation of all pairs), the reported maximum, size
    histogram, tile-eligible pairs and tile padding are those of the buckets, narrow and eligible
    pairs partition the request, and the validator accepts the result. *)
Theorem expert_worklist_build_correct r s :
  request_contract r → storage_contract s → worklist_request_valid r s = true →
  (eb_row_count (wr_batch r) = 0 →
     ∀ calloc_ok, yvex_expert_worklist_build calloc_ok r s =
       Some (Refused YVEX_ERR_INVALID_ARG "expert worklist structure or identity is invalid")) ∧
  ((∃ p, 0 ≤ p < wr_pair_count r ∧ pair_bad r p) →
     ∀ calloc_ok, yvex_expert_worklist_build calloc_ok r s =
       Some (Refused YVEX_ERR_FORMAT "routed pair has an invalid expert or weight")) ∧
  (0 < eb_row_count (wr_batch r) → (∀ p, 0 ≤ p < wr_pair_count r → pair_good r p) →
     order r (seqZ 0 (wr_expert_count r)) ≡ₚ seqZ 0 (wr_pair_count r) ∧
     ∃ w, yvex_expert_worklist_build true r s = Some (Done w) ∧
       yvex_expert_worklist_validate true r w = Some (Done tt) ∧
       laid_out r (wl_arrays w) (all_buckets r) ∧
       wl_bucket_count w = Z.of_nat (length (all_buckets r)) ∧
       mjoin (snd <$> all_buckets r) = order r (seqZ 0 (wr_expert_count r)) ∧
       StronglySorted Z.lt (fst <$> all_buckets r) ∧
       worklist_stats (wp_matrix_tile_minimum (wr_policy r))
         (Z.log2 (wp_supported_width_mask (wr_policy r))) (population <$> all_buckets r) w ∧
       wl_narrow_pairs w + wl_matrix_tile_eligible_pairs w = wr_pair_count r).
Proof.
  intros Hr Hs Hv. split; [intros; by apply build_refuses_empty|]. split.
  - intros (p & Hp & Hbad) calloc_ok. by eapply build_refuses_bad.
  - intros Hrows Hgood. split; [by apply order_permutation|].
    destruct (build_good r s Hr Hs Hv Hrows Hgood) as (_ & w & E & Hval & Hl & Hb & _ & Hst & Hn).
    exists w. split; [done|]. split; [done|]. split; [done|]. split; [done|].
    split; [apply buckets_order|]. split; [|done]. apply buckets_sorted, StronglySorted_seqZ.
Qed.

(** A two-row prefill batch routed to three experts, and a policy that supports widths 1 and 2. *)
Definition sample_request : yvex_expert_worklist_request :=
  let b := ExecutionBatch 2 YVEX_EXECUTION_BATCH_PREFILL YVEX_EXECUTION_PHASE_PREFILL 7
    [BatchSource 3 0 sample_identity] [BatchRow 0 0 0 0 0 0; BatchRow 0 1 1 0 1 0]
    sample_identity sample_identity "" in
  let p := WorklistPolicy 2 6 2 1 3 "" in
  WorklistRequest 1
    (match yvex_execution_batch_seal b with Done b => b | _ => b end)
    (match yvex_expert_worklist_policy_seal p with Done p => p | _ => p end)
    3 2 4 [2; 0; 2; 1] [1065353216; 1056964608; 0; 1065353216].

Definition sample_storage : yvex_expert_worklist_storage :=
  let z (n : nat) := replicate n 0 in
  WorklistStorage (z 3%nat) (z 4%nat) (z 3%nat) (z 4%nat) (z 4%nat) (z 4%nat) (z 4%nat) 3 4.

Lemma sample_request_contract : request_contract sample_request.
Proof.
  constructor.
  1-2: vm_compute; reflexivity.
  1: change (wr_selected_experts sample_request) with [2; 0; 2; 1]; forall_cells.
  5: change (wr_route_weights sample_request) with [1065353216; 1056964608; 0; 1065353216]; forall_cells.
  all: unfold is_u64, is_u32; try split; vm_compute; discriminate.
Qed.

Lemma expert_worklist_build_correct_witness :
  worklist_request_valid sample_request sample_storage = true ∧
  order sample_request (seqZ 0 3) = [1; 3; 0; 2] ∧
  ∃ w, yvex_expert_worklist_build true sample_request sample_storage = Some (Done w) ∧
    yvex_expert_worklist_validate true sample_request w = Some (Done tt) ∧
    wl_bucket_count w = 3.
Proof.
  assert (Hv : worklist_request_valid sample_request sample_storage = true) by (vm_compute; reflexivity).
  split; [exact Hv|]. split; [vm_compute; reflexivity|].
  pose proof sample_request_contract as Hr.
  assert (Hs : storage_contract sample_storage) by (constructor; reflexivity).
  assert (Hg : ∀ p, 0 ≤ p < wr_pair_count sample_request → pair_good sample_request p).
  { intros p Hp. change (wr_pair_count sample_request) with 4 in Hp.
    assert (p = 0 ∨ p = 1 ∨ p = 2 ∨ p = 3) as [->|[->|[->| ->]]] by lia;
      [exists 2, 1065353216|exists 0, 1056964608|exists 2, 0|exists 1, 1065353216].
    all: split; [vm_compute; reflexivity|split; [vm_compute; reflexivity|]].
    all: change (wr_expert_count sample_request) with 3; split; [lia|vm_compute; reflexivity]. }
  assert (Hrows : 0 < eb_row_count (wr_batch sample_request)) by (vm_compute; reflexivity).
  destruct (proj2 (proj2 (expert_worklist_build_correct _ _ Hr Hs Hv)) Hrows Hg)
    as (_ & w & E & Hval & _ & Hb & _).
  exists w. split; [exact E|]. split; [exact Hval|]. rewrite Hb. vm_compute. reflexivity.
Defined.

(** * What the validator establishes *)

Section soundness.
Context (r : yvex_expert_worklist_request) (a : yvex_expert_worklist_storage).
Context (contract : request_contract r).
Context (ids_range : Forall is_u64 (ws_expert_ids a)).
Context (small : wr_pair_count r ≤ ULLONG_MAX).

Lemma seen_array_get P p : array_get (seen_array r P) p = Some false → 0 ≤ p < wr_pair_count r ∧ p ∉ P.
Proof.
  intros E. pose proof E as [Hp _]%array_get_Some.
  unfold seen_array in *. rewrite length_fmap, length_seqZ in Hp.
  assert (Hp' : 0 ≤ p < wr_pair_count r) by lia. rewrite table_get in E by done.
  injection E as E%bool_decide_eq_false. done.
Qed.

(** The pairs [P] are placed, distinct and seen. *)
Definition placed (P : list Z) (seen : list bool) : Prop :=
  seen = seen_array r P ∧ NoDup P ∧ (∀ p, p ∈ P → 0 ≤ p < wr_pair_count r) ∧ pairs_written r a P.

Lemma check_position_sound e P seen seen' :
  placed P seen →
  worklist_check_position r a e (Z.of_nat (length P)) seen = Some (Done seen') →
  ∃ p, placed (P ++ [p]) seen' ∧ array_get (wr_selected_experts r) p = Some e.
Proof.
  intros (-> & Hnd & Hr & [W1 W2 W3 W4]) H. unfold worklist_check_position in H.
  apply run_access_inv in H as (p & Ep & H). apply refuse_when_inv in H as [_ H].
  apply run_access_inv in H as (b & Eb & H). apply refuse_when_inv in H as [-> H].
  apply seen_array_get in Eb as [Hp Hnew].
  apply run_access_inv in H as (sel & Es & H). apply refuse_when_inv in H as [Hs H].
  apply run_access_inv in H as (row & Er & H). apply refuse_when_inv in H as [Hrow H].
  apply run_access_inv in H as (dst & Ed & H). apply refuse_when_inv in H as [Hd H].
  apply run_access_inv in H as (w & Ew & H). apply run_access_inv in H as (w' & Ew' & H).
  apply refuse_when_inv in H as [Hw H]. rewrite negb_false_iff, Z.eqb_eq in Hs, Hrow, Hd, Hw. subst.
  rewrite seen_array_set in H by done. injection H as <-.
  exists p. split; [|done]. split; [done|]. split; [|split].
  - apply NoDup_app. split; [done|]. split; [set_solver|apply NoDup_singleton].
  - intros q [Hq| ->%list_elem_of_singleton]%elem_of_app; auto.
  - rewrite <- (length_fmap (λ p, p / wr_experts_per_row r)) in Er.
    rewrite <- (length_fmap (route_weight r)) in Ew.
    constructor; rewrite ?fmap_app; apply starts_with_get; try done.
    unfold route_weight in *. by rewrite Ew'.
Qed.

Lemma check_positions_sound e P seen seen' n :
  0 ≤ n → placed P seen →
  for_range (Z.of_nat (length P)) (Z.of_nat (length P) + n) (worklist_check_position r a e) seen =
    Some (Done seen') →
  ∃ ps, placed (P ++ ps) seen' ∧ Z.of_nat (length ps) = n ∧
    ∀ p, p ∈ ps → array_get (wr_selected_experts r) p = Some e.
Proof.
  intros Hn HP H. unfold for_range in H. rewrite Z.add_simpl_l in H.
  pose (I := λ (d : list Z) seen, ∃ ps, placed (P ++ ps) seen ∧ length ps = length d ∧
    ∀ p, p ∈ ps → array_get (wr_selected_experts r) p = Some e).
  apply (for_each_done (worklist_check_position r a e) I) in H.
  - destruct H as (ps & Hps & Hl & Hall). exists ps. split; [done|]. split; [|done].
    rewrite Hl, length_seqZ. lia.
  - exists []. rewrite app_nil_r. split; [done|]. split; [done|]. by intros p ?%not_elem_of_nil.
  - intros d x todo s1 s2 Hsplit (ps & Hps & Hl & Hall) Hb.
    apply seqZ_split in Hsplit as (-> & _ & _).
    replace (Z.of_nat (length P) + Z.of_nat (length d)) with (Z.of_nat (length (P ++ ps))) in Hb
      by (rewrite length_app; lia).
    apply (check_position_sound _ _ _ _ Hps) in Hb as (p & Hp & Hsel).
    exists (ps ++ [p]). rewrite (assoc_L (++)), !length_app, Hl. split; [done|]. split; [done|].
    intros q [Hq| ->%list_elem_of_singleton]%elem_of_app; auto.
Qed.

(** The first buckets, as the validator has checked them. *)
Record checked (B : list (Z * list Z)) (st : list bool * Z) : Prop := Checked {
  ck_placed : placed (mjoin (snd <$> B)) st.1;
  ck_sum : st.2 = total (population <$> B);
  ck_ids : starts_with (ws_expert_ids a) (fst <$> B);
  ck_offsets : starts_with (ws_bucket_offsets a) (starts 0 (population <$> B) ++ [total (population <$> B)]);
  ck_populations : starts_with (ws_bucket_populations a) (population <$> B);
  ck_sorted : StronglySorted Z.lt (fst <$> B);
  ck_buckets : ∀ e ps, (e, ps) ∈ B → ps ≠ [] ∧ 0 ≤ e < wr_expert_count r ∧
    ∀ p, p ∈ ps → array_get (wr_selected_experts r) p = Some e;
}.

Lemma placed_length P seen : placed P seen → Z.of_nat (length P) ≤ Z.max 0 (wr_pair_count r).
Proof.
  intros (_ & Hnd & Hr & _). assert (Hs : P ⊆+ seqZ 0 (wr_pair_count r)).
  { apply NoDup_submseteq; [done|]. intros p Hp%Hr. apply elem_of_seqZ. lia. }
  apply submseteq_length in Hs. rewrite length_seqZ in Hs. lia.
Qed.
Lemma check_bucket_sound B st st' :
  checked B st →
  worklist_check_bucket r a (Z.of_nat (length B)) st = Some (Done st') →
  ∃ b, checked (B ++ [b]) st'.
Proof.
  intros [Hp Hsum H1 H2 H3 Hs Hb] H. destruct st as [seen sum]. cbn [fst snd] in *. subst sum.
  unfold worklist_check_bucket in H.
  apply run_access_inv in H as (e & Ee & H). apply run_access_inv in H as (lo & Elo & H).
  apply run_access_inv in H as (hi & Ehi & H). apply run_access_inv in H as (pop & Epop & H).
  apply refuse_when_inv in H as [He H]. apply run_bind_inv in H as (dis & Edis & H).
  apply refuse_when_inv in H as [Hg H]. guards_in He. guards_in Hg. subst.
  apply run_bind_inv in H as (seen' & Eseen & H). injection H as <-.
  (* the bucket starts where the previous ones end *)
  assert (lo = total (population <$> B)) as ->.
  { pose proof (offsets_lookup (population <$> B) []) as Hl. rewrite app_nil_r, length_fmap in Hl.
    rewrite (array_get_starts _ _ _ _ H2 Hl) in Elo. by injection Elo. }
  rewrite total_length in *. set (P := mjoin (snd <$> B)) in *.
  replace hi with (Z.of_nat (length P) + (hi - Z.of_nat (length P))) in Eseen by lia.
  apply (check_positions_sound e P seen seen') in Eseen as (ps & Hps & Hl & Hsel); [|lia|done].
  exists (e, ps).
  assert (HP : mjoin (snd <$> (B ++ [(e, ps)])) = P ++ ps).
  { rewrite fmap_app, join_app. cbn. by rewrite app_nil_r. }
  assert (Hpops : population <$> (B ++ [(e, ps)]) = (population <$> B) ++ [Z.of_nat (length ps)])
    by by rewrite fmap_app.
  assert (Htot : total (population <$> (B ++ [(e, ps)])) = hi).
  { rewrite total_length, HP, length_app. lia. }
  pose proof (array_get_Some _ _ _ Ee) as [_ Hin].
  apply (Forall_lookup_1 _ _ _ _ ids_range) in Hin.
  constructor; rewrite ?HP, ?Hpops, ?fmap_app; cbn [fst snd fmap list_fmap].
  - done.
  - rewrite <- Hpops, Htot, u64_id; [lia|].
    pose proof (placed_length _ _ Hps) as Hlen. rewrite length_app in Hlen. ulia.
  - apply starts_with_get; [done|]. by rewrite length_fmap.
  - rewrite <- Hpops, Htot, Hpops, starts_snoc, Z.add_0_l. apply starts_with_get; [by rewrite total_length in *|].
    rewrite length_app, length_starts, length_fmap. cbn [length].
    by replace (Z.of_nat (length B + 1)) with (Z.of_nat (length B) + 1) by lia.
  - apply starts_with_get; [done|]. rewrite length_fmap, Epop. f_equal. lia.
  - destruct B as [|b B' _] using rev_ind; [repeat constructor|].
    rewrite (proj2 (Z.eqb_neq _ 0)) in Edis by (rewrite length_app; cbn; lia).
    apply run_access_inv in Edis as (prev & Eprev & Edis). injection Edis as Edis. guards_in Edis.
    rewrite fmap_app in H1, Hs. cbn in H1, Hs.
    replace (Z.of_nat (length (B' ++ [b])) - 1) with (Z.of_nat (length (fst <$> B'))) in Eprev
      by (rewrite length_app, length_fmap; cbn; lia).
    rewrite (array_get_starts _ _ _ b.1 H1) in Eprev by by apply list_lookup_middle.
    injection Eprev as <-. rewrite fmap_app. cbn. apply StronglySorted_app. split; [|split; [done|repeat constructor]].
    intros x y Hx ->%list_elem_of_singleton.
    apply elem_of_app in Hx as [Hx| ->%list_elem_of_singleton]; [|done].
    apply StronglySorted_app in Hs as (Hs & _ & _). assert (x < b.1) by (apply Hs; [done|apply list_elem_of_here]). lia.
  - intros e' ps' [Hq|[= -> ->]%list_elem_of_singleton]%elem_of_app; [by apply Hb|].
    split; [by intros ->; cbn in Hl; lia|]. split; [ulia|done].
Qed.

Lemma check_buckets_sound n st :
  0 ≤ n → array_get (ws_bucket_offsets a) 0 = Some 0 →
  for_range 0 n (worklist_check_bucket r a) (seen_array r [], 0) = Some (Done st) →
  ∃ B, checked B st ∧ Z.of_nat (length B) = n.
Proof.
  intros Hn H0 H. unfold for_range in H. rewrite Z.sub_0_r in H.
  pose (I := λ (d : list Z) st, ∃ B, checked B st ∧ length B = length d).
  apply (for_each_done (worklist_check_bucket r a) I) in H.
  - destruct H as (B & HB & Hl). exists B. split; [done|]. rewrite Hl, length_seqZ. lia.
  - exists []. split; [|done]. constructor; cbn; try by apply prefix_nil.
    + split; [done|]. split; [apply NoDup_nil_2|]. split; [by intros p ?%not_elem_of_nil|].
      by constructor; apply prefix_nil.
    + done.
    + apply (starts_with_get _ []); [apply prefix_nil|done].
    + constructor.
    + by intros e ps ?%not_elem_of_nil.
  - intros d x todo s1 s2 Hsplit (B & HB & Hl) Hb. apply seqZ_split in Hsplit as (-> & _ & _).
    rewrite Z.add_0_l, <- Hl in Hb. apply (check_bucket_sound B _ _ HB) in Hb as (b & Hb).
    exists (B ++ [b]). rewrite !length_app, Hl. done.
Qed.
End soundness.

(** C2: The validator accepts only exact groupings: if it returns success for a worklist whose
    expert ids are 64-bit values, the arrays are laid out as some bucket list with strictly
    increasing admitted experts, no empty bucket, consecutive offsets, exact populations, each pair
    in the bucket of the expert it was routed to with its own row and weight, and every pair of the
    request exactly once. *)
Theorem expert_worklist_validate_sound calloc_ok r w :
  request_contract r → 0 ≤ wr_pair_count r ≤ ULLONG_MAX → 0 ≤ wl_bucket_count w →
  Forall is_u64 (ws_expert_ids (wl_arrays w)) →
  yvex_expert_worklist_validate calloc_ok r w = Some (Done tt) →
  ∃ B, laid_out r (wl_arrays w) B ∧ wl_bucket_count w = Z.of_nat (length B) ∧
    mjoin (snd <$> B) ≡ₚ seqZ 0 (wr_pair_count r) ∧ StronglySorted Z.lt (fst <$> B) ∧
    ∀ e ps, (e, ps) ∈ B → ps ≠ [] ∧ 0 ≤ e < wr_expert_count r ∧
      ∀ p, p ∈ ps → array_get (wr_selected_experts r) p = Some e.
Proof.
  intros Hr Hp Hn Hids H. unfold yvex_expert_worklist_validate in H.
  apply run_bind_inv in H as (v & Ev & H). apply refuse_when_inv in H as [Hv H].
  apply negb_false_iff in Hv as ->. apply refuse_when_inv in H as [_ H].
  unfold worklist_structure_valid in Ev. split_guard; [done|].
  apply run_access_inv in Ev as (f & Ef & Ev). split_guard; [done|]. guards. subst.
  rewrite <- seen_array_nil in H. apply run_bind_inv in H as ([seen sum] & Eb & H).
  apply check_buckets_sound in Eb as (B & [Ppl Psum P1 P2 P3 P4 P5] & Hl); [|done..|lia|done].
  destruct (Z.eqb_spec sum (wr_pair_count r)) as [->|]; [|done]. cbn [fst snd] in *.
  destruct Ppl as (_ & Hnd & Hrange & Hw). exists B.
  split; [by constructor|]. split; [done|]. split; [|done].
  rewrite total_length in Psum. apply submseteq_length_Permutation; [|rewrite length_seqZ; lia].
  apply NoDup_submseteq; [done|]. intros p Hin%Hrange. apply elem_of_seqZ. lia.
Qed.

Definition sample_worklist : yvex_expert_worklist :=
  Worklist 1 3 0 2 3 4 3 2 2 2 2 0
    (WorklistStorage [0; 1; 2] [0; 1; 2; 4] [1; 1; 2] [1; 3; 0; 2] [0; 1; 0; 1] [1; 3; 0; 2]
       [1056964608; 1065353216; 1065353216; 0] 3 4) (replicate 17 0)
    (eb_identity (wr_batch sample_request)) (wp_identity (wr_policy sample_request)) sample_identity.

Lemma expert_worklist_validate_sound_witness :
  yvex_expert_worklist_validate true sample_request sample_worklist = Some (Done tt) ∧
  ∃ B, laid_out sample_request (wl_arrays sample_worklist) B ∧ mjoin (snd <$> B) ≡ₚ seqZ 0 4.
Proof.
  assert (Hv : yvex_expert_worklist_validate true sample_request sample_worklist = Some (Done tt))
    by (vm_compute; reflexivity).
  split; [exact Hv|].
  assert (Hids : Forall is_u64 (ws_expert_ids (wl_arrays sample_worklist))).
  { change (ws_expert_ids (wl_arrays sample_worklist)) with [0; 1; 2]. forall_cells; ulia. }
  assert (Hp : 0 ≤ wr_pair_count sample_request ≤ ULLONG_MAX).
  { change (wr_pair_count sample_request) with 4. ulia. }
  assert (Hb : 0 ≤ wl_bucket_count sample_worklist).
  { change (wl_bucket_count sample_worklist) with 3. lia. }
  destruct (expert_worklist_validate_sound true _ _ sample_request_contract Hp Hb Hids Hv)
    as (B & Hl & _ & Hperm & _).
  exists B. split; [exact Hl|exact Hperm].
Defined.

(** A worklist whose first bucket claims two positions of a one-entry array: the validator reads
    past the array. *)
Definition overrun_request : yvex_expert_worklist_request :=
  WorklistRequest 1 (wr_batch sample_request) (wr_policy sample_request) 3 1 1 [0] [0].
Definition overrun_worklist : yvex_expert_worklist :=
  Worklist 1 0 0 2 3 1 2 2 1 0 1 0
    (WorklistStorage [0; 1; 0] [0; 2; 1; 0] [2; 1; 0] [0] [0] [0] [0] 3 1) (replicate 17 0)
    (eb_identity (wr_batch sample_request)) (wp_identity (wr_policy sample_request)) sample_identity.

Example expert_worklist_validate_overruns :
  yvex_expert_worklist_validate true overrun_request overrun_worklist = None.
Proof. vm_compute. reflexivity. Qed.
