(* ===== verification/WorklistObservation.v ===== *)
(** Additive worklist evidence of [src/graph/worklist.c]: the per-device observation records that are
    summed into a total, with every addition checked. *)

From S2P Require Import Prelude Status ExecutionBatch Worklist.

(** src/include/yvex/internal/execution_batch.h, [yvex_expert_worklist_observation] *)
Record yvex_expert_worklist_observation := WorklistObservation {
  wo_schema_version : Z;
  wo_worklist_count : Z;
  wo_pair_count : Z;
  wo_bucket_count : Z;
  wo_maximum_bucket_population : Z;
  wo_matrix_tile_eligible_pairs : Z;
  wo_matrix_tile_executed_pairs : Z;
  wo_narrow_pairs : Z;
  wo_tail_rows : Z;
  wo_width_histogram : list Z;
  wo_population_histogram : list Z;
  wo_provenance_counts : list Z;
}.

(** A running checked sum over an array. *)
Definition checked_sum (l : list Z) : option Z :=
  foldl (λ acc x, acc ← acc; yvex_core_u64_add acc x) (Some 0) l.

(** Element-wise checked addition of two arrays. *)
Fixpoint checked_adds (l m : list Z) : option (list Z) :=
  match l, m with
  | x :: l, y :: m => z ← yvex_core_u64_add x y; zs ← checked_adds l m; Some (z :: zs)
  | _, _ => Some []
  end.

(** The shape and the internal consistency required of a delta. *)
Definition observation_complete (d : yvex_expert_worklist_observation) : bool :=
  (wo_schema_version d =? YVEX_EXPERT_WORKLIST_OBSERVATION_SCHEMA_V1)
  && negb (wo_worklist_count d =? 0) && negb (wo_pair_count d =? 0) && negb (wo_bucket_count d =? 0)
  && negb (wo_maximum_bucket_population d =? 0)
  && match yvex_core_u64_add (wo_matrix_tile_eligible_pairs d) (wo_narrow_pairs d) with
     | Some classified_pairs => classified_pairs =? wo_pair_count d
     | None => false
     end.

(** The seven scalar additions, in the code's order.
    src/src/graph/worklist.c:487-505, [yvex_expert_worklist_observation_add] *)
Definition observation_add_counters (f d : yvex_expert_worklist_observation)
    : option (Z * Z * Z * Z * Z * Z * Z) :=
  worklists ← yvex_core_u64_add (wo_worklist_count f) (wo_worklist_count d);
  pairs ← yvex_core_u64_add (wo_pair_count f) (wo_pair_count d);
  buckets ← yvex_core_u64_add (wo_bucket_count f) (wo_bucket_count d);
  eligible ← yvex_core_u64_add (wo_matrix_tile_eligible_pairs f) (wo_matrix_tile_eligible_pairs d);
  executed ← yvex_core_u64_add (wo_matrix_tile_executed_pairs f) (wo_matrix_tile_executed_pairs d);
  narrow ← yvex_core_u64_add (wo_narrow_pairs f) (wo_narrow_pairs d);
  tail ← yvex_core_u64_add (wo_tail_rows f) (wo_tail_rows d);
  Some (worklists, pairs, buckets, eligible, executed, narrow, tail).

(** src/src/graph/worklist.c, [yvex_expert_worklist_observation_add]
    A refusal leaves [*facts] as it was: the candidate is only stored at the end. *)
Definition yvex_expert_worklist_observation_add (f d : yvex_expert_worklist_observation)
    : outcome yvex_expert_worklist_observation :=
  if negb (observation_complete d) then
    worklist_refuse YVEX_ERR_INVALID_ARG "expert worklist observation is incomplete"
  else match checked_sum (wo_width_histogram d), checked_sum (wo_population_histogram d) with
  | Some widths, Some populations =>
      match checked_sum (wo_provenance_counts d) with
      | None => worklist_refuse YVEX_ERR_BOUNDS "expert worklist provenance overflowed"
      | Some provenances =>
          if negb (widths =? wo_worklist_count d) || negb (populations =? wo_bucket_count d)
             || negb (provenances =? wo_worklist_count d)
          then worklist_refuse YVEX_ERR_FORMAT "expert worklist observation histograms diverge"
          else
            let version := if wo_schema_version f =? 0
                           then YVEX_EXPERT_WORKLIST_OBSERVATION_SCHEMA_V1
                           else wo_schema_version f in
            if negb (version =? YVEX_EXPERT_WORKLIST_OBSERVATION_SCHEMA_V1) then
              worklist_refuse YVEX_ERR_BOUNDS "expert worklist observation counters overflowed"
            else match observation_add_counters f d with
            | None => worklist_refuse YVEX_ERR_BOUNDS "expert worklist observation counters overflowed"
            | Some (worklists, pairs, buckets, eligible, executed, narrow, tail) =>
                let maximum :=
                  if wo_maximum_bucket_population f <? wo_maximum_bucket_population d
                  then wo_maximum_bucket_population d else wo_maximum_bucket_population f in
                match checked_adds (wo_width_histogram f) (wo_width_histogram d),
                      checked_adds (wo_population_histogram f) (wo_population_histogram d) with
                | Some width_histogram, Some population_histogram =>
                    match checked_adds (wo_provenance_counts f) (wo_provenance_counts d) with
                    | None => worklist_refuse YVEX_ERR_BOUNDS
                                "expert worklist provenance aggregation overflowed"
                    | Some provenance_counts =>
                        Done (WorklistObservation version worklists pairs buckets maximum eligible
                                executed narrow tail width_histogram population_histogram
                                provenance_counts)
                    end
                | _, _ => worklist_refuse YVEX_ERR_BOUNDS
                            "expert worklist observation aggregation overflowed"
                end
            end
      end
  | _, _ => worklist_refuse YVEX_ERR_BOUNDS "expert worklist observation histogram overflowed"
  end.

(** * Facts *)

Definition observation_counters (o : yvex_expert_worklist_observation) : list Z :=
  [wo_worklist_count o; wo_pair_count o; wo_bucket_count o; wo_matrix_tile_eligible_pairs o;
   wo_matrix_tile_executed_pairs o; wo_narrow_pairs o; wo_tail_rows o]
  ++ wo_width_histogram o ++ wo_population_histogram o ++ wo_provenance_counts o.

Record observation_wf (o : yvex_expert_worklist_observation) : Prop := ObservationWf {
  owf_widths : length (wo_width_histogram o) = 17%nat;
  owf_populations : length (wo_population_histogram o) = 17%nat;
  owf_provenances : length (wo_provenance_counts o) = 5%nat;
  owf_range : Forall is_u64 (observation_counters o);
}.

(** Classified pairs and histogram totals agree with the counts. *)
Record observation_consistent (o : yvex_expert_worklist_observation) : Prop := ObservationConsistent {
  oc_pairs : wo_matrix_tile_eligible_pairs o + wo_narrow_pairs o = wo_pair_count o;
  oc_widths : total (wo_width_histogram o) = wo_worklist_count o;
  oc_populations : total (wo_population_histogram o) = wo_bucket_count o;
  oc_provenances : total (wo_provenance_counts o) = wo_worklist_count o;
}.

Lemma checked_sum_from a l s :
  is_u64 a → Forall is_u64 l →
  foldl (λ acc x, acc ← acc; yvex_core_u64_add acc x) (Some a) l = Some s → s = a + total l.
Proof.
  intros Ha Hl. revert a Ha. induction Hl as [|x l Hx Hl IH]; intros a Ha; [cbn; intros [= ->]; unfold total; cbn; lia|].
  cbn [foldl]. cbn [mbind option_bind]. destruct (yvex_core_u64_add a x) as [b|] eqn:E.
  - apply u64_add_Some in E as [-> Hb]; [|done..]. intros H%IH; [|done]. rewrite total_cons. lia.
  - clear. intros H. exfalso. induction l; cbn in H; done.
Qed.

Lemma checked_sum_Some l s : Forall is_u64 l → checked_sum l = Some s → s = total l.
Proof. intros Hl H. apply checked_sum_from in H; [lia|ulia|done]. Qed.

Lemma checked_adds_spec l m :
  length l = length m → Forall is_u64 l → Forall is_u64 m →
  match checked_adds l m with
  | Some n => n = zip_with Z.add l m ∧ Forall is_u64 n
  | None => ¬ Forall is_u64 (zip_with Z.add l m)
  end.
Proof.
  revert m. induction l as [|x l IH]; intros [|y m] Hlen Hl Hm; try done.
  apply Forall_cons in Hl as [Hx Hl], Hm as [Hy Hm]. injection Hlen as Hlen.
  specialize (IH m Hlen Hl Hm). cbn. destruct (yvex_core_u64_add x y) as [z|] eqn:E.
  - apply u64_add_Some in E as [-> Hz]; [|done..]. cbn. destruct (checked_adds l m) as [n|]; cbn.
    + destruct IH as [-> ?]. split; [done|by constructor].
    + intros [_ ?]%Forall_cons. by apply IH.
  - apply u64_add_None in E; [|done..]. cbn. intros [? _]%Forall_cons. ulia.
Qed.


Lemma observation_complete_spec d :
  Forall is_u64 (observation_counters d) → observation_complete d = true →
  0 < wo_worklist_count d ∧ 0 < wo_pair_count d ∧ 0 < wo_bucket_count d ∧
  wo_matrix_tile_eligible_pairs d + wo_narrow_pairs d = wo_pair_count d.
Proof.
  unfold observation_complete, observation_counters. intros Hr H. cbn [app] in Hr.
  repeat apply Forall_cons in Hr as [? Hr].
  destruct (yvex_core_u64_add _ _) as [n|] eqn:E; [|rewrite andb_false_r in H; done].
  guards. apply u64_add_Some in E as [-> _]; [|done..]. ulia.
Qed.

Lemma checked_sum_complete l : Forall is_u64 l → is_u64 (total l) → checked_sum l = Some (total l).
Proof.
  intros Hl Ht. unfold checked_sum. cut (∀ a, is_u64 a → is_u64 (a + total l) →
    foldl (λ acc x, acc ← acc; yvex_core_u64_add acc x) (Some a) l = Some (a + total l)).
  { intros H. rewrite H; [done|ulia|by rewrite Z.add_0_l]. }
  clear Ht. assert (Hnn : ∀ l, Forall is_u64 l → 0 ≤ total l).
  { clear. induction 1; [done|]. rewrite total_cons. ulia. }
  induction Hl as [|x l Hx Hl IH]; intros a Ha Ht; [cbn; f_equal; unfold total; cbn; lia|].
  rewrite total_cons in *. specialize (Hnn l Hl). cbn [foldl mbind option_bind].
  rewrite (proj2 (u64_add_Some a x (a + x) Ha Hx)) by (split; [done|ulia]).
  rewrite IH; [f_equal; lia|ulia..].
Qed.

Lemma observation_add_counters_list f d :
  observation_add_counters f d =
  match checked_adds (take 7 (observation_counters f)) (take 7 (observation_counters d)) with
  | Some [w; p; b; e; x; n; t] => Some (w, p, b, e, x, n, t)
  | _ => None
  end.
Proof.
  unfold observation_add_counters. cbn.
  do 7 (match goal with |- ?m ≫= _ = _ => destruct m; cbn; [|done] end). done.
Qed.

Lemma Forall_counters f d :
  observation_wf f → observation_wf d →
  zip_with Z.add (observation_counters f) (observation_counters d) =
    zip_with Z.add (take 7 (observation_counters f)) (take 7 (observation_counters d)) ++
    zip_with Z.add (wo_width_histogram f) (wo_width_histogram d) ++
    zip_with Z.add (wo_population_histogram f) (wo_population_histogram d) ++
    zip_with Z.add (wo_provenance_counts f) (wo_provenance_counts d).
Proof.
  intros [A1 A2 A3 _] [B1 B2 B3 _]. unfold observation_counters. cbn [take app].
  rewrite <- !zip_with_app by congruence. done.
Qed.

Lemma observation_cells f :
  observation_wf f → Forall is_u64 (take 7 (observation_counters f)) ∧
  Forall is_u64 (wo_width_histogram f) ∧ Forall is_u64 (wo_population_histogram f) ∧
  Forall is_u64 (wo_provenance_counts f).
Proof.
  intros [_ _ _ H]. unfold observation_counters in *.
  apply Forall_app in H as [H1 H]. apply Forall_app in H as [H2 H]. apply Forall_app in H as [H3 H4]. done.
Qed.

Lemma observation_add_done f d g :
  observation_wf f → observation_wf d → yvex_expert_worklist_observation_add f d = Done g →
  observation_counters g = zip_with Z.add (observation_counters f) (observation_counters d) ∧
  wo_maximum_bucket_population g =
    Z.max (wo_maximum_bucket_population f) (wo_maximum_bucket_population d) ∧
  observation_wf g ∧ observation_consistent d ∧ (observation_consistent f → observation_consistent g).
Proof.
  intros Hf Hd. unfold yvex_expert_worklist_observation_add.
  destruct (observation_complete d) eqn:Ec; cbn [negb]; [|done].
  apply observation_complete_spec in Ec as (_ & _ & _ & Hcls); [|apply Hd].
  destruct (checked_sum (wo_width_histogram d)) as [sw|] eqn:Ew; [|done].
  destruct (checked_sum (wo_population_histogram d)) as [sp|] eqn:Ep; [|done].
  destruct (checked_sum (wo_provenance_counts d)) as [sv|] eqn:Ev; [|done].
  destruct (observation_cells f Hf) as (F0 & F1 & F2 & F3).
  destruct (observation_cells d Hd) as (D0 & D1 & D2 & D3).
  apply checked_sum_Some in Ew, Ep, Ev; [|done..].
  split_guard; [done|]. cbv zeta. set (version := if wo_schema_version f =? 0 then _ else _).
  split_guard; [done|]. clearbody version. guards. subst.
  rewrite observation_add_counters_list.
  pose proof (checked_adds_spec (take 7 (observation_counters f)) (take 7 (observation_counters d))
    eq_refl F0 D0) as K0.
  destruct (checked_adds (take 7 _) _) as [[|w [|p [|b [|e [|x [|n [|t []]]]]]]]|]; try done.
  pose proof Hf as [L1 L2 L3 _]. pose proof Hd as [M1 M2 M3 _].
  pose proof (checked_adds_spec _ _ (eq_trans L1 (eq_sym M1)) F1 D1) as K1.
  pose proof (checked_adds_spec _ _ (eq_trans L2 (eq_sym M2)) F2 D2) as K2.
  pose proof (checked_adds_spec _ _ (eq_trans L3 (eq_sym M3)) F3 D3) as K3.
  destruct (checked_adds (wo_width_histogram f) _) as [hw|]; [|done].
  destruct (checked_adds (wo_population_histogram f) _) as [hp|]; [|done].
  destruct (checked_adds (wo_provenance_counts f) _) as [hv|]; [|done].
  destruct K0 as [K0 R0], K1 as [-> R1], K2 as [-> R2], K3 as [-> R3]. intros [= <-].
  rewrite Forall_counters, <- K0 by done.
  split; [done|]. split; [cbn; destruct (Z.ltb_spec (wo_maximum_bucket_population f) (wo_maximum_bucket_population d)); lia|].
  split.
  { constructor; cbn [wo_width_histogram wo_population_histogram wo_provenance_counts].
    1-3: rewrite length_zip_with; lia.
    unfold observation_counters; cbn. apply (Forall_app_2 _ [_; _; _; _; _; _; _]); [done|]. by repeat apply Forall_app_2. }
  split; [by constructor|]. injection K0 as -> -> -> -> -> -> ->.
  intros [C1 C2 C3 C4]. constructor; cbn; rewrite ?total_zip_add; try lia; congruence.
Qed.

Lemma observation_add_refused f d st why :
  observation_wf f → observation_wf d → yvex_expert_worklist_observation_add f d = Refused st why →
  observation_complete d = true → observation_consistent d →
  wo_schema_version f = 0 ∨ wo_schema_version f = YVEX_EXPERT_WORKLIST_OBSERVATION_SCHEMA_V1 →
  ¬ Forall is_u64 (zip_with Z.add (observation_counters f) (observation_counters d)).
Proof.
  intros Hf Hd E Hc [C1 C2 C3 C4] Hv. rewrite Forall_counters by done. intros Hz.
  apply Forall_app in Hz as [Z0 Hz]. apply Forall_app in Hz as [Z1 Hz]. apply Forall_app in Hz as [Z2 Z3].
  destruct (observation_cells f Hf) as (F0 & F1 & F2 & F3).
  destruct (observation_cells d Hd) as (D0 & D1 & D2 & D3).
  unfold yvex_expert_worklist_observation_add in E. rewrite Hc in E. cbn [negb] in E.
  pose proof D0 as D0'. unfold observation_counters in D0'. cbn in D0'.
  repeat match type of D0' with Forall _ (_ :: _) => apply Forall_cons in D0' as [? D0'] end.
  rewrite !checked_sum_complete in E by (done || congruence).
  rewrite C2, C3, C4, !Z.eqb_refl in E. cbn [negb orb] in E. cbv zeta in E.
  assert (Hver : (if wo_schema_version f =? 0 then YVEX_EXPERT_WORKLIST_OBSERVATION_SCHEMA_V1
    else wo_schema_version f) = YVEX_EXPERT_WORKLIST_OBSERVATION_SCHEMA_V1).
  { destruct Hv as [-> | ->]; done. }
  rewrite Hver, Z.eqb_refl in E. cbn [negb] in E. rewrite observation_add_counters_list in E.
  pose proof (checked_adds_spec (take 7 (observation_counters f)) (take 7 (observation_counters d))
    eq_refl F0 D0) as K0.
  destruct (checked_adds (take 7 _) _) as [l|]; [|done]. destruct K0 as [-> _]. cbn in E.
  pose proof Hf as [L1 L2 L3 _]. pose proof Hd as [M1 M2 M3 _].
  pose proof (checked_adds_spec _ _ (eq_trans L1 (eq_sym M1)) F1 D1) as K1.
  pose proof (checked_adds_spec _ _ (eq_trans L2 (eq_sym M2)) F2 D2) as K2.
  pose proof (checked_adds_spec _ _ (eq_trans L3 (eq_sym M3)) F3 D3) as K3.
  destruct (checked_adds (wo_width_histogram f) _); [|done].
  destruct (checked_adds (wo_population_histogram f) _); [|done].
  by destruct (checked_adds (wo_provenance_counts f) _).
Qed.

(** Adding an observation is exact. If it succeeds, every counter, histogram cell and provenance
    count of the result is the sum of the two inputs and still a 64-bit value, the maximum is the
    larger one, and the delta was internally consistent; so consistent totals stay consistent. If
    the delta is consistent and complete and the totals carry the current schema, the addition is
    refused only when some counter or cell would overflow. *)
Theorem worklist_observation_add_exact f d :
  observation_wf f → observation_wf d →
  match yvex_expert_worklist_observation_add f d with
  | Done g =>
      observation_counters g = zip_with Z.add (observation_counters f) (observation_counters d) ∧
      wo_maximum_bucket_population g =
        Z.max (wo_maximum_bucket_population f) (wo_maximum_bucket_population d) ∧
      observation_wf g ∧ observation_consistent d ∧
      (observation_consistent f → observation_consistent g)
  | Refused _ _ =>
      observation_complete d = true → observation_consistent d →
      wo_schema_version f = 0 ∨ wo_schema_version f = YVEX_EXPERT_WORKLIST_OBSERVATION_SCHEMA_V1 →
      ¬ Forall is_u64 (zip_with Z.add (observation_counters f) (observation_counters d))
  end.
Proof.
  intros Hf Hd. destruct (yvex_expert_worklist_observation_add f d) as [g|st why] eqn:E.
  - by apply observation_add_done.
  - intros Hc Hcons Hv. exact (observation_add_refused f d st why Hf Hd E Hc Hcons Hv).
Qed.

(** One worklist with two buckets of one and two pairs. *)
Definition sample_observation : yvex_expert_worklist_observation :=
  WorklistObservation 1 1 3 2 2 2 2 1 0 (0 :: 1 :: replicate 15 0) (0 :: 1 :: 1 :: replicate 14 0)
    [1; 0; 0; 0; 0].

Lemma worklist_observation_add_exact_witness :
  observation_wf sample_observation ∧
  ∃ g, yvex_expert_worklist_observation_add sample_observation sample_observation = Done g ∧
    observation_consistent g ∧ wo_pair_count g = 6.
Proof.
  assert (Hw : observation_wf sample_observation).
  { constructor; [reflexivity..|]. cbn. forall_cells; ulia. }
  split; [exact Hw|].
  pose proof (worklist_observation_add_exact _ _ Hw Hw) as H.
  destruct (yvex_expert_worklist_observation_add sample_observation sample_observation) as [g|] eqn:E;
    [|vm_compute in E; discriminate].
  exists g. split; [reflexivity|]. destruct H as (_ & _ & _ & Hc & Hcc). split; [exact (Hcc Hc)|].
  vm_compute in E. injection E as <-. reflexivity.
Defined.
