(* ===== verification/EngineResource.v ===== *)
(** The engine resource catalogue of [src/runtime/resource.c]: bounded slots addressed by
    generation-checked handles, borrow and dependency counts, byte accounting, two-phase release.

    A mutex section is one atomic operation on the catalogue. Releasing runs the caller's callback
    between two sections, so it is two operations, [resource_release_begin] and
    [resource_release_finish], with the callback's status as an argument of the second. Pointers
    the catalogue only stores (the value, the release callback) are opaque integers. *)

From stdpp Require Import relations.
From S2P Require Import Prelude Status Exec Sha256.
#[local] Open Scope Z_scope.
#[local] Arguments total : simpl never.

(** * Data *)

(** src/include/yvex/internal/engine_resource.h, [yvex_engine_resource_kind] *)
Definition YVEX_ENGINE_RESOURCE_KIND_COUNT : Z := 10.
Definition YVEX_ENGINE_RESOURCE_PREPARED_TENSOR : Z := 1.
Definition YVEX_ENGINE_RESOURCE_PREPARED_LAYOUT : Z := 3.

(** src/include/yvex/internal/engine_resource.h, [yvex_engine_resource_owner] *)
Definition YVEX_ENGINE_RESOURCE_OWNER_EXECUTION : Z := 5.

(** src/include/yvex/internal/engine_resource.h, [yvex_engine_resource_lifetime] *)
Definition YVEX_ENGINE_RESOURCE_LIFETIME_QUANTUM : Z := 6.

(** src/include/yvex/internal/engine_resource.h, [yvex_engine_resource_numeric_class] *)
Definition YVEX_ENGINE_RESOURCE_NUMERIC_STATE : Z := 4.
Definition YVEX_ENGINE_RESOURCE_NUMERIC_CANONICAL_PACKAGE : Z := 1.
Definition YVEX_ENGINE_RESOURCE_NAME_CAP : Z := 48.

(** src/include/yvex/internal/engine_resource.h, [yvex_engine_resource_state] *)
Inductive yvex_engine_resource_state : Type :=
  | YVEX_ENGINE_RESOURCE_DECLARED | YVEX_ENGINE_RESOURCE_READY
  | YVEX_ENGINE_RESOURCE_RELEASING | YVEX_ENGINE_RESOURCE_FAILED.

#[export] Instance resource_state_eq_dec : EqDecision yvex_engine_resource_state.
Proof. solve_decision. Defined.

(** src/include/yvex/internal/engine_resource.h, [yvex_engine_resource_handle] *)
Record yvex_engine_resource_handle := Handle { h_engine_generation : Z; h_slot : Z; h_generation : Z }.

#[export] Instance resource_handle_eq_dec : EqDecision yvex_engine_resource_handle.
Proof. solve_decision. Defined.

Definition handle_zero : yvex_engine_resource_handle := Handle 0 0 0.

(** src/include/yvex/internal/engine_resource.h, [yvex_engine_resource_bytes] *)
Record yvex_engine_resource_bytes := ResourceBytes {
  mapped_package_bytes : Z;
  host_resident_bytes : Z;
  device_resident_bytes : Z;
  prepared_bytes : Z;
  sequence_state_bytes : Z;
  workspace_bytes : Z;
  temporary_bytes : Z;
}.

Definition bytes_zero : yvex_engine_resource_bytes := ResourceBytes 0 0 0 0 0 0 0.

(** The seven counters, in declaration order. *)
Definition byte_fields : list (yvex_engine_resource_bytes → Z) :=
  [mapped_package_bytes; host_resident_bytes; device_resident_bytes; prepared_bytes;
   sequence_state_bytes; workspace_bytes; temporary_bytes].

(** src/include/yvex/internal/engine_resource.h, [yvex_engine_resource_request] *)
Record yvex_engine_resource_request := ResourceRequest {
  rr_kind : Z;
  rr_owner : Z;
  rr_lifetime : Z;
  rr_numeric_class : Z;
  rr_name : option string;
  rr_package_identity : option string;
  rr_specialization_identity : option string;
  rr_admission_identity : option string;
  rr_dependency : yvex_engine_resource_handle;
  rr_bytes : yvex_engine_resource_bytes;
  rr_preparation_nanoseconds : Z;
  rr_value : Z;
  rr_release : option Z;
  rr_ready : bool;
  rr_evictable : bool;
}.

(** src/include/yvex/internal/engine_resource.h, [yvex_engine_resource_entry] *)
Record yvex_engine_resource_entry := ResourceEntry {
  re_handle : yvex_engine_resource_handle;
  re_dependency : yvex_engine_resource_handle;
  re_kind : Z;
  re_owner : Z;
  re_lifetime : Z;
  re_numeric_class : Z;
  re_state : yvex_engine_resource_state;
  re_bytes : yvex_engine_resource_bytes;
  re_consumer_count : Z;
  re_dependent_count : Z;
  re_acquisition_count : Z;
  re_preparation_nanoseconds : Z;
  re_name : string;
  re_package_identity : string;
  re_specialization_identity : string;
  re_admission_identity : string;
  re_evictable : bool;
}.

#[export] Instance resource_entry_eta : Eta yvex_engine_resource_entry := λ e,
  ResourceEntry (re_handle e) (re_dependency e) (re_kind e) (re_owner e) (re_lifetime e)
    (re_numeric_class e) (re_state e) (re_bytes e) (re_consumer_count e) (re_dependent_count e)
    (re_acquisition_count e) (re_preparation_nanoseconds e) (re_name e) (re_package_identity e)
    (re_specialization_identity e) (re_admission_identity e) (re_evictable e).

(** src/src/runtime/resource.c, [engine_resource_slot] *)
Record engine_resource_slot := ResourceSlot {
  sl_summary : yvex_engine_resource_entry;
  sl_value : Z;
  sl_release : option Z;
  sl_in_use : bool;
}.

#[export] Instance resource_slot_eta : Eta engine_resource_slot := λ s,
  ResourceSlot (sl_summary s) (sl_value s) (sl_release s) (sl_in_use s).

(** [memset(slot, 0, sizeof( *slot))] *)
Definition slot_zero : engine_resource_slot :=
  ResourceSlot (ResourceEntry handle_zero handle_zero 0 0 0 0 YVEX_ENGINE_RESOURCE_DECLARED bytes_zero
                  0 0 0 0 "" "" "" "" false) 0 None false.

(** src/include/yvex/internal/engine_resource.h, [yvex_engine_resource_summary] *)
Record yvex_engine_resource_summary := ResourceSummary {
  rs_engine_generation : Z;
  rs_capacity : Z;
  rs_resource_count : Z;
  rs_generation : Z;
  rs_registration_count : Z;
  rs_release_count : Z;
  rs_eviction_count : Z;
  rs_failed_release_count : Z;
  rs_acquisition_count : Z;
  rs_preparation_nanoseconds : Z;
  rs_ready_count : Z;
  rs_failed_count : Z;
  rs_count_by_kind : list Z;
  rs_bytes : yvex_engine_resource_bytes;
  rs_engine_identity : string;
  rs_closing : bool;
}.

#[export] Instance resource_summary_eta : Eta yvex_engine_resource_summary := λ s,
  ResourceSummary (rs_engine_generation s) (rs_capacity s) (rs_resource_count s) (rs_generation s)
    (rs_registration_count s) (rs_release_count s) (rs_eviction_count s) (rs_failed_release_count s)
    (rs_acquisition_count s) (rs_preparation_nanoseconds s) (rs_ready_count s) (rs_failed_count s)
    (rs_count_by_kind s) (rs_bytes s) (rs_engine_identity s) (rs_closing s).

(** src/src/runtime/resource.c, [yvex_engine_resource_catalog] *)
Record yvex_engine_resource_catalog := ResourceCatalog {
  ca_slots : list engine_resource_slot;
  ca_summary : yvex_engine_resource_summary;
  ca_next_generation : Z;
}.

#[export] Instance resource_catalog_eta : Eta yvex_engine_resource_catalog := λ c,
  ResourceCatalog (ca_slots c) (ca_summary c) (ca_next_generation c).

(** * Operations *)

(** src/src/runtime/resource.c, [resource_refuse] *)
Definition resource_refuse {A} (status : yvex_status) (reason : string) : outcome A :=
  Refused status reason.

(** src/src/runtime/resource.c, [optional_identity_valid] *)
Definition optional_identity_valid (identity : option string) : bool :=
  match identity with
  | None => true
  | Some text => bool_decide (text = ""%string) || yvex_sha256_hex_valid (Some text)
  end.

(** src/src/runtime/resource.c, [resource_bytes_add] *)
Definition resource_bytes_add (target value : yvex_engine_resource_bytes)
    : option yvex_engine_resource_bytes :=
  mapped ← yvex_core_u64_add (mapped_package_bytes target) (mapped_package_bytes value);
  host ← yvex_core_u64_add (host_resident_bytes target) (host_resident_bytes value);
  device ← yvex_core_u64_add (device_resident_bytes target) (device_resident_bytes value);
  prepared ← yvex_core_u64_add (prepared_bytes target) (prepared_bytes value);
  sequence ← yvex_core_u64_add (sequence_state_bytes target) (sequence_state_bytes value);
  workspace ← yvex_core_u64_add (workspace_bytes target) (workspace_bytes value);
  temporary ← yvex_core_u64_add (temporary_bytes target) (temporary_bytes value);
  Some (ResourceBytes mapped host device prepared sequence workspace temporary).

(** src/src/runtime/resource.c, [resource_bytes_subtract] *)
Definition resource_bytes_subtract (target value : yvex_engine_resource_bytes)
    : yvex_engine_resource_bytes :=
  ResourceBytes (u64 (mapped_package_bytes target - mapped_package_bytes value))
    (u64 (host_resident_bytes target - host_resident_bytes value))
    (u64 (device_resident_bytes target - device_resident_bytes value))
    (u64 (prepared_bytes target - prepared_bytes value))
    (u64 (sequence_state_bytes target - sequence_state_bytes value))
    (u64 (workspace_bytes target - workspace_bytes value))
    (u64 (temporary_bytes target - temporary_bytes value)).

(** src/src/runtime/resource.c, [handle_present] *)
Definition handle_present (handle : yvex_engine_resource_handle) : bool :=
  negb (h_engine_generation handle =? 0) || negb (h_slot handle =? 0) || negb (h_generation handle =? 0).

(** src/src/runtime/resource.c, [resource_slot_locked]
    The index of the live slot, with the slot. *)
Definition resource_slot_locked (catalog : yvex_engine_resource_catalog)
    (handle : yvex_engine_resource_handle) : option (nat * engine_resource_slot) :=
  if negb (h_engine_generation handle =? rs_engine_generation (ca_summary catalog))
     || (h_slot handle =? 0) || (rs_capacity (ca_summary catalog) <? h_slot handle)
     || (h_generation handle =? 0)
  then None
  else
    slot ← array_get (ca_slots catalog) (h_slot handle - 1);
    if sl_in_use slot && (h_generation (re_handle (sl_summary slot)) =? h_generation handle)
    then Some (Z.to_nat (h_slot handle - 1), slot) else None.

Definition text_present (text : option string) : bool :=
  match text with None => false | Some text => negb (bool_decide (text = ""%string)) end.

(** src/src/runtime/resource.c, [resource_request_valid] *)
Definition resource_request_valid (request : yvex_engine_resource_request) : bool :=
  let prepared := (YVEX_ENGINE_RESOURCE_PREPARED_TENSOR <=? rr_kind request)
                  && (rr_kind request <=? YVEX_ENGINE_RESOURCE_PREPARED_LAYOUT) in
  negb ((YVEX_ENGINE_RESOURCE_KIND_COUNT <=? rr_kind request)
        || (YVEX_ENGINE_RESOURCE_OWNER_EXECUTION <? rr_owner request)
        || (YVEX_ENGINE_RESOURCE_LIFETIME_QUANTUM <? rr_lifetime request)
        || (YVEX_ENGINE_RESOURCE_NUMERIC_STATE <? rr_numeric_class request)
        || negb (text_present (rr_name request))
        || (YVEX_ENGINE_RESOURCE_NAME_CAP <=? strlen (default ""%string (rr_name request)))
        || negb (yvex_sha256_hex_valid (rr_package_identity request))
        || negb (optional_identity_valid (rr_specialization_identity request))
        || negb (optional_identity_valid (rr_admission_identity request))
        || (prepared && (negb (text_present (rr_specialization_identity request))
                         || negb (text_present (rr_admission_identity request))))
        || ((rr_numeric_class request =? YVEX_ENGINE_RESOURCE_NUMERIC_CANONICAL_PACKAGE)
            && text_present (rr_specialization_identity request))
        || (rr_evictable request && negb (bool_decide (is_Some (rr_release request))))).

(** Write back a slot's entry. *)
Definition put_entry (index : nat) (f : yvex_engine_resource_entry → yvex_engine_resource_entry)
    (catalog : yvex_engine_resource_catalog) : yvex_engine_resource_catalog :=
  catalog <| ca_slots ::= alter (λ slot, slot <| sl_summary ::= f |>) index |>.

(** src/src/runtime/resource.c, [resource_dependency_drop_locked] *)
Definition resource_dependency_drop_locked (catalog : yvex_engine_resource_catalog)
    (entry : yvex_engine_resource_entry) : yvex_engine_resource_catalog :=
  if negb (handle_present (re_dependency entry)) then catalog
  else match resource_slot_locked catalog (re_dependency entry) with
       | Some (index, dependency) =>
           if re_dependent_count (sl_summary dependency) =? 0 then catalog
           else put_entry index (λ e, e <| re_dependent_count := re_dependent_count e - 1 |>) catalog
       | None => catalog
       end.

(** src/src/runtime/resource.c, [resource_remove_locked] *)
Definition resource_remove_locked (catalog : yvex_engine_resource_catalog) (index : nat)
    (slot : engine_resource_slot) (evicted : bool) : yvex_engine_resource_catalog :=
  let entry := sl_summary slot in
  let catalog := resource_dependency_drop_locked catalog entry in
  let summary := ca_summary catalog in
  let summary := summary
    <| rs_bytes := resource_bytes_subtract (rs_bytes summary) (re_bytes entry) |>
    <| rs_resource_count ::= λ n, u64 (n - 1) |>
    <| rs_count_by_kind ::= alter (λ n, u64 (n - 1)) (Z.to_nat (re_kind entry)) |>
    <| rs_ready_count ::= λ n,
         if decide (re_state entry = YVEX_ENGINE_RESOURCE_READY) then u64 (n - 1) else n |>
    <| rs_failed_count ::= λ n,
         if decide (re_state entry = YVEX_ENGINE_RESOURCE_FAILED) then u64 (n - 1) else n |>
    <| rs_release_count ::= λ n, u64 (n + 1) |>
    <| rs_eviction_count ::= λ n, u64 (n + (if evicted then 1 else 0)) |>
    <| rs_generation ::= λ n, u64 (n + 1) |> in
  catalog <| ca_summary := summary |> <| ca_slots ::= <[index := slot_zero]> |>.

(** The first locked section of [resource_release]: refuse, or mark the slot and hand out its
    release callback.
    src/src/runtime/resource.c:149-180, [resource_release] *)
Definition resource_release_begin (catalog : yvex_engine_resource_catalog)
    (handle : yvex_engine_resource_handle) (evict : bool)
    : outcome (yvex_engine_resource_catalog * option Z) :=
  if negb (handle_present handle) then
    resource_refuse YVEX_ERR_INVALID_ARG "one live engine resource handle is required"
  else match resource_slot_locked catalog handle with
  | None => resource_refuse YVEX_ERR_INVALID_ARG "resource is stale, referenced, or still has dependents"
  | Some (index, slot) =>
      let entry := sl_summary slot in
      if bool_decide (re_state entry = YVEX_ENGINE_RESOURCE_RELEASING)
         || negb (re_consumer_count entry =? 0) || negb (re_dependent_count entry =? 0)
         || (evict && negb (re_evictable entry))
      then resource_refuse YVEX_ERR_STATE
             (if evict && negb (re_evictable entry) then "resource is not eligible for eviction"
              else "resource is stale, referenced, or still has dependents")
      else
        let catalog := catalog <| ca_summary ::= λ summary, summary
          <| rs_ready_count ::= λ n,
               if decide (re_state entry = YVEX_ENGINE_RESOURCE_READY) then u64 (n - 1) else n |>
          <| rs_failed_count ::= λ n,
               if decide (re_state entry = YVEX_ENGINE_RESOURCE_FAILED) then u64 (n - 1) else n |> |> in
        Done (put_entry index (λ e, e <| re_state := YVEX_ENGINE_RESOURCE_RELEASING |>) catalog,
              sl_release slot)
  end.

(** The second locked section, after the callback answered [rc].
    src/src/runtime/resource.c:181-202, [resource_release] *)
Definition resource_release_finish (catalog : yvex_engine_resource_catalog)
    (handle : yvex_engine_resource_handle) (evict : bool) (rc : yvex_status)
    : yvex_engine_resource_catalog * yvex_status :=
  match resource_slot_locked catalog handle with
  | None => (catalog, YVEX_ERR_STATE)
  | Some (index, slot) =>
      if decide (rc = YVEX_OK) then (resource_remove_locked catalog index slot evict, YVEX_OK)
      else
        (put_entry index (λ e, e <| re_state := YVEX_ENGINE_RESOURCE_FAILED |>) catalog
           <| ca_summary ::= λ summary, summary
                <| rs_failed_count ::= λ n, u64 (n + 1) |>
                <| rs_failed_release_count ::= λ n, u64 (n + 1) |> |>, rc)
  end.

(** src/src/runtime/resource.c, [yvex_runtime_resource_catalog_open]
    The argument [memory_ok] is the answer of the two allocations and the mutex. The limit of 1024
    slots is below [SIZE_MAX / sizeof(slot)]. *)
Definition yvex_runtime_resource_catalog_open (memory_ok : bool) (engine_generation : Z)
    (engine_identity : option string) (capacity : Z) : outcome yvex_engine_resource_catalog :=
  if (engine_generation =? 0) || negb (yvex_sha256_hex_valid engine_identity)
     || (capacity =? 0) || (1024 <? capacity)
  then resource_refuse YVEX_ERR_INVALID_ARG "bounded engine generation and identity are required"
  else if negb memory_ok then
    resource_refuse YVEX_ERR_NOMEM "engine resource catalog allocation failed"
  else Done (ResourceCatalog (replicate (Z.to_nat capacity) slot_zero)
    (ResourceSummary engine_generation capacity 0 0 0 0 0 0 0 0 0 0 (replicate 10 0) bytes_zero
       (yvex_core_text_copy "" 65 engine_identity) false) 0).

(** The first free slot. *)
Definition first_free (catalog : yvex_engine_resource_catalog) : option nat :=
  fst <$> list_find (λ slot, sl_in_use slot = false) (ca_slots catalog).

(** [next_generation++], skipping zero. *)
Definition next_generation (generation : Z) : Z :=
  let generation := u64 (generation + 1) in
  if generation =? 0 then u64 (generation + 1) else generation.

Definition copy_optional (text : option string) : string :=
  match text with None => ""%string | Some _ => yvex_core_text_copy "" 65 text end.

(** src/src/runtime/resource.c, [yvex_runtime_resource_register] *)
Definition yvex_runtime_resource_register (catalog : yvex_engine_resource_catalog)
    (request : yvex_engine_resource_request)
    : outcome (yvex_engine_resource_catalog * yvex_engine_resource_handle) :=
  if negb (resource_request_valid request) then
    resource_refuse YVEX_ERR_INVALID_ARG "one complete engine resource declaration is required"
  else if rs_closing (ca_summary catalog) then
    resource_refuse YVEX_ERR_STATE "closing engine resource catalog rejects registration"
  else
    let dependency := if handle_present (rr_dependency request)
                      then resource_slot_locked catalog (rr_dependency request) else None in
    if handle_present (rr_dependency request)
       && negb match dependency with
               | Some (_, slot) => bool_decide (re_state (sl_summary slot) = YVEX_ENGINE_RESOURCE_READY)
               | None => false
               end
    then resource_refuse YVEX_ERR_STATE "resource dependency is stale or not ready"
    else match first_free catalog with
    | None => resource_refuse YVEX_ERR_NOMEM "engine resource catalog capacity is exhausted"
    | Some index =>
        match resource_bytes_add (rs_bytes (ca_summary catalog)) (rr_bytes request),
              yvex_core_u64_add (rs_preparation_nanoseconds (ca_summary catalog))
                (rr_preparation_nanoseconds request) with
        | Some totals, Some preparation_total =>
            let generation := next_generation (ca_next_generation catalog) in
            let handle := Handle (rs_engine_generation (ca_summary catalog))
                            (Z.of_nat index + 1) generation in
            let entry := ResourceEntry handle (rr_dependency request) (rr_kind request)
              (rr_owner request) (rr_lifetime request) (rr_numeric_class request)
              (if rr_ready request then YVEX_ENGINE_RESOURCE_READY else YVEX_ENGINE_RESOURCE_DECLARED)
              (rr_bytes request) 0 0 0 (rr_preparation_nanoseconds request)
              (yvex_core_text_copy "" 48 (rr_name request))
              (yvex_core_text_copy "" 65 (rr_package_identity request))
              (copy_optional (rr_specialization_identity request))
              (copy_optional (rr_admission_identity request)) (rr_evictable request) in
            let catalog := catalog <| ca_next_generation := generation |>
              <| ca_slots ::= <[index :=
                   ResourceSlot entry (rr_value request) (rr_release request) true]> |> in
            let catalog := match dependency with
              | Some (d, _) =>
                  put_entry d (λ e, e <| re_dependent_count ::= λ n, u64 (n + 1) |>) catalog
              | None => catalog
              end in
            Done (catalog <| ca_summary ::= λ summary, summary
                    <| rs_bytes := totals |>
                    <| rs_resource_count ::= λ n, u64 (n + 1) |>
                    <| rs_registration_count ::= λ n, u64 (n + 1) |>
                    <| rs_preparation_nanoseconds := preparation_total |>
                    <| rs_generation ::= λ n, u64 (n + 1) |>
                    <| rs_count_by_kind ::= alter (λ n, u64 (n + 1)) (Z.to_nat (rr_kind request)) |>
                    <| rs_ready_count ::= λ n, u64 (n + (if rr_ready request then 1 else 0)) |> |>,
                  handle)
        | _, _ => resource_refuse YVEX_ERR_BOUNDS "engine resource accounting overflowed"
        end
    end.

(** src/src/runtime/resource.c, [yvex_runtime_resource_acquire] *)
Definition yvex_runtime_resource_acquire (catalog : yvex_engine_resource_catalog)
    (handle : yvex_engine_resource_handle) : outcome (yvex_engine_resource_catalog * Z) :=
  match resource_slot_locked catalog handle with
  | Some (index, slot) =>
      let entry := sl_summary slot in
      if rs_closing (ca_summary catalog)
         || negb (bool_decide (re_state entry = YVEX_ENGINE_RESOURCE_READY))
         || (re_consumer_count entry =? ULLONG_MAX) || (re_acquisition_count entry =? ULLONG_MAX)
         || (rs_acquisition_count (ca_summary catalog) =? ULLONG_MAX)
      then resource_refuse YVEX_ERR_STATE "ready non-stale engine resource is required"
      else Done (put_entry index (λ e, e <| re_consumer_count ::= λ n, n + 1 |>
                                         <| re_acquisition_count ::= λ n, n + 1 |>) catalog
                   <| ca_summary ::= λ summary, summary <| rs_acquisition_count ::= λ n, n + 1 |> |>,
                 sl_value slot)
  | None => resource_refuse YVEX_ERR_STATE "ready non-stale engine resource is required"
  end.

(** src/src/runtime/resource.c, [yvex_runtime_resource_publish_ready] *)
Definition yvex_runtime_resource_publish_ready (catalog : yvex_engine_resource_catalog)
    (handle : yvex_engine_resource_handle) : outcome yvex_engine_resource_catalog :=
  match resource_slot_locked catalog handle with
  | Some (index, slot) =>
      if rs_closing (ca_summary catalog)
         || negb (bool_decide (re_state (sl_summary slot) = YVEX_ENGINE_RESOURCE_DECLARED))
      then resource_refuse YVEX_ERR_STATE "one declared resource in an open catalog is required"
      else Done (put_entry index (λ e, e <| re_state := YVEX_ENGINE_RESOURCE_READY |>) catalog
                   <| ca_summary ::= λ summary, summary <| rs_ready_count ::= λ n, u64 (n + 1) |>
                                                        <| rs_generation ::= λ n, u64 (n + 1) |> |>)
  | None => resource_refuse YVEX_ERR_STATE "one declared resource in an open catalog is required"
  end.

(** src/src/runtime/resource.c, [yvex_runtime_resource_drop] *)
Definition yvex_runtime_resource_drop (catalog : yvex_engine_resource_catalog)
    (handle : yvex_engine_resource_handle) : outcome yvex_engine_resource_catalog :=
  match resource_slot_locked catalog handle with
  | Some (index, slot) =>
      if re_consumer_count (sl_summary slot) =? 0
      then resource_refuse YVEX_ERR_STATE "one exact borrowed resource generation is required"
      else Done (put_entry index (λ e, e <| re_consumer_count ::= λ n, n - 1 |>) catalog)
  | None => resource_refuse YVEX_ERR_STATE "one exact borrowed resource generation is required"
  end.

(** Both sections of [resource_release] with nothing in between; [answer] is the callback. A slot
    without a callback is released at once.
    src/src/runtime/resource.c:149-203, [resource_release] *)
Definition resource_release (answer : Z → yvex_status) (catalog : yvex_engine_resource_catalog)
    (handle : yvex_engine_resource_handle) (evict : bool)
    : yvex_engine_resource_catalog * yvex_status :=
  match resource_release_begin catalog handle evict with
  | Refused status _ => (catalog, status)
  | Done (catalog, release) =>
      let rc := match release with Some callback => answer callback | None => YVEX_OK end in
      resource_release_finish catalog handle evict rc
  end.

(** src/src/runtime/resource.c, [yvex_runtime_resource_evict]
    The handle is cleared exactly on success. *)
Definition yvex_runtime_resource_evict (answer : Z → yvex_status)
    (catalog : yvex_engine_resource_catalog) (handle : option yvex_engine_resource_handle)
    : yvex_engine_resource_catalog * option yvex_engine_resource_handle * yvex_status :=
  match handle with
  | None => (catalog, None, YVEX_ERR_INVALID_ARG)
  | Some h =>
      let '(catalog, rc) := resource_release answer catalog h true in
      (catalog, Some (if decide (rc = YVEX_OK) then handle_zero else h), rc)
  end.

(** src/src/runtime/resource.c, [yvex_runtime_resource_snapshot]
    [entry_capacity = None] is the null entry array with capacity zero; a present array needs a
    positive capacity. The result is the summary, the entries written and the number of live slots;
    a short array is refused after writing. *)
Definition yvex_runtime_resource_snapshot (catalog : yvex_engine_resource_catalog)
    (entry_capacity : option Z)
    : option (yvex_engine_resource_summary * list yvex_engine_resource_entry * Z) * yvex_status :=
  let live := sl_summary <$> filter (λ slot, sl_in_use slot = true) (ca_slots catalog) in
  let count := Z.of_nat (length live) in
  match entry_capacity with
  | None => (Some (ca_summary catalog, [], count), YVEX_OK)
  | Some capacity =>
      if capacity =? 0 then (None, YVEX_ERR_INVALID_ARG)
      else (Some (ca_summary catalog, take (Z.to_nat capacity) live, count),
            if capacity <? count then YVEX_ERR_BOUNDS else YVEX_OK)
  end.

(** The last live slot with neither consumers nor dependents: the scan of the close loop. *)
Definition close_candidate (catalog : yvex_engine_resource_catalog) : yvex_engine_resource_handle :=
  match list_find (λ slot, sl_in_use slot && (re_consumer_count (sl_summary slot) =? 0)
                           && (re_dependent_count (sl_summary slot) =? 0) = true)
          (reverse (ca_slots catalog)) with
  | Some (_, slot) => re_handle (sl_summary slot)
  | None => handle_zero
  end.

(** Release candidates until none is left; each round removes one slot, so [fuel] above the number
    of live slots is never used up. [None] frees the catalogue. *)
Fixpoint resource_close_loop (fuel : nat) (answer : Z → yvex_status)
    (catalog : yvex_engine_resource_catalog) : option yvex_engine_resource_catalog * yvex_status :=
  let candidate := close_candidate catalog in
  if negb (handle_present candidate) then
    if rs_resource_count (ca_summary catalog) =? 0 then (None, YVEX_OK)
    else (Some catalog, YVEX_ERR_STATE)
  else match fuel with
  | O => (Some catalog, YVEX_ERR)
  | S fuel =>
      let '(catalog, rc) := resource_release answer catalog candidate false in
      if decide (rc = YVEX_OK) then resource_close_loop fuel answer catalog else (Some catalog, rc)
  end.

(** src/src/runtime/resource.c, [yvex_runtime_resource_catalog_close] *)
Definition yvex_runtime_resource_catalog_close (answer : Z → yvex_status)
    (catalog : option yvex_engine_resource_catalog)
    : option yvex_engine_resource_catalog * yvex_status :=
  match catalog with
  | None => (None, YVEX_OK)
  | Some catalog =>
      let catalog := catalog <| ca_summary ::= λ summary, summary <| rs_closing := true |> |> in
      resource_close_loop (S (length (ca_slots catalog))) answer catalog
  end.

(** * The catalogue under concurrent callers *)

(** The catalogue with what its callers hold: borrowed handles and releases whose callback runs. *)
Record resource_system := ResourceSystem {
  sys_catalog : yvex_engine_resource_catalog;
  sys_borrowed : list yvex_engine_resource_handle;
  sys_releasing : list yvex_engine_resource_handle;
}.

(** The machine ranges of a declaration. *)
Definition request_in_range (request : yvex_engine_resource_request) : Prop :=
  0 ≤ rr_kind request ∧ Forall (λ f, is_u64 (f (rr_bytes request))) byte_fields ∧
  is_u64 (rr_preparation_nanoseconds request).

(** One successful operation. A caller drops only what it borrowed; each begun release is finished
    by its caller; fewer than 2^64 resources are ever registered. *)
Inductive resource_step : resource_system → resource_system → Prop :=
  | step_register c b r request c' h :
      request_in_range request → ca_next_generation c < ULLONG_MAX →
      yvex_runtime_resource_register c request = Done (c', h) →
      resource_step (ResourceSystem c b r) (ResourceSystem c' b r)
  | step_publish c b r h c' :
      yvex_runtime_resource_publish_ready c h = Done c' →
      resource_step (ResourceSystem c b r) (ResourceSystem c' b r)
  | step_acquire c b r h c' value :
      yvex_runtime_resource_acquire c h = Done (c', value) →
      resource_step (ResourceSystem c b r) (ResourceSystem c' (h :: b) r)
  | step_drop c b b' r h c' :
      b ≡ₚ h :: b' → yvex_runtime_resource_drop c h = Done c' →
      resource_step (ResourceSystem c b r) (ResourceSystem c' b' r)
  | step_release_begin c b r h evict c' callback :
      resource_release_begin c h evict = Done (c', callback) →
      resource_step (ResourceSystem c b r) (ResourceSystem c' b (h :: r))
  | step_release_finish c b r r' h evict rc c' status :
      r ≡ₚ h :: r' → resource_release_finish c h evict rc = (c', status) →
      resource_step (ResourceSystem c b r) (ResourceSystem c' b r')
  | step_closing c b r :
      resource_step (ResourceSystem c b r)
        (ResourceSystem (c <| ca_summary ::= λ summary, summary <| rs_closing := true |> |>) b r).

Definition resource_reachable (memory_ok : bool) (generation : Z) (identity : option string)
    (capacity : Z) (s : resource_system) : Prop :=
  ∃ c, yvex_runtime_resource_catalog_open memory_ok generation identity capacity = Done c ∧
    rtc resource_step (ResourceSystem c [] []) s.

(** * Invariant *)

(** The slot at [i] is live under the handle [h]. *)
Definition live_at (slots : list engine_resource_slot) (h : yvex_engine_resource_handle) (i : nat)
    (slot : engine_resource_slot) : Prop :=
  slots !! i = Some slot ∧ sl_in_use slot = true ∧ re_handle (sl_summary slot) = h.

Definition occurrences (h : yvex_engine_resource_handle) (l : list yvex_engine_resource_handle) : Z :=
  Z.of_nat (length (filter (λ x, x = h) l)).

(** What a slot contributes to the counters. *)
Definition counts_live (slot : engine_resource_slot) : Z := if sl_in_use slot then 1 else 0.
Definition counts_state (state : yvex_engine_resource_state) (slot : engine_resource_slot) : Z :=
  if sl_in_use slot && bool_decide (re_state (sl_summary slot) = state) then 1 else 0.
Definition counts_kind (kind : Z) (slot : engine_resource_slot) : Z :=
  if sl_in_use slot && (re_kind (sl_summary slot) =? kind) then 1 else 0.
Definition counts_bytes (f : yvex_engine_resource_bytes → Z) (slot : engine_resource_slot) : Z :=
  if sl_in_use slot then f (re_bytes (sl_summary slot)) else 0.
Definition counts_dependent (h : yvex_engine_resource_handle) (slot : engine_resource_slot) : Z :=
  if sl_in_use slot && bool_decide (re_dependency (sl_summary slot) = h) then 1 else 0.

Record slot_wf (eg next : Z) (slots : list engine_resource_slot)
    (borrowed releasing : list yvex_engine_resource_handle) (i : nat) (slot : engine_resource_slot)
    : Prop := SlotWf {
  sw_handle : ∃ g, re_handle (sl_summary slot) = Handle eg (Z.of_nat i + 1) g ∧ 0 < g ≤ next;
  sw_kind : 0 ≤ re_kind (sl_summary slot) < YVEX_ENGINE_RESOURCE_KIND_COUNT;
  sw_bytes : Forall (λ f, 0 ≤ f (re_bytes (sl_summary slot))) byte_fields;
  sw_consumers : re_consumer_count (sl_summary slot) =
    occurrences (re_handle (sl_summary slot)) borrowed;
  sw_dependents : re_dependent_count (sl_summary slot) =
    total (counts_dependent (re_handle (sl_summary slot)) <$> slots);
  sw_releasing : re_state (sl_summary slot) = YVEX_ENGINE_RESOURCE_RELEASING ↔
    re_handle (sl_summary slot) ∈ releasing;
  sw_busy : re_consumer_count (sl_summary slot) ≠ 0 ∨ re_dependent_count (sl_summary slot) ≠ 0 →
    re_state (sl_summary slot) = YVEX_ENGINE_RESOURCE_READY;
  sw_dependency : handle_present (re_dependency (sl_summary slot)) = true →
    ∃ j d, live_at slots (re_dependency (sl_summary slot)) j d ∧
      h_generation (re_dependency (sl_summary slot)) < h_generation (re_handle (sl_summary slot));
}.

Record slots_wf (eg next : Z) (slots : list engine_resource_slot)
    (borrowed releasing : list yvex_engine_resource_handle) : Prop := SlotsWf {
  sws_slots : ∀ i slot, slots !! i = Some slot → sl_in_use slot = true →
    slot_wf eg next slots borrowed releasing i slot;
  sws_borrowed : ∀ h, h ∈ borrowed → ∃ i slot, live_at slots h i slot;
  sws_releasing : ∀ h, h ∈ releasing → ∃ i slot, live_at slots h i slot;
  sws_once : NoDup releasing;
}.

(** The summary counters are exactly the sums over the live slots. *)
Record accounts (slots : list engine_resource_slot) (summary : yvex_engine_resource_summary) : Prop :=
  Accounts {
  ac_count : rs_resource_count summary = total (counts_live <$> slots);
  ac_ready : rs_ready_count summary = total (counts_state YVEX_ENGINE_RESOURCE_READY <$> slots);
  ac_failed : rs_failed_count summary = total (counts_state YVEX_ENGINE_RESOURCE_FAILED <$> slots);
  ac_kinds : rs_count_by_kind summary = (λ k, total (counts_kind k <$> slots)) <$> seqZ 0 10;
  ac_bytes : Forall (λ f, f (rs_bytes summary) = total (counts_bytes f <$> slots) ∧
                          is_u64 (f (rs_bytes summary))) byte_fields;
}.

Record resource_inv (s : resource_system) : Prop := ResourceInv {
  ri_generation : rs_engine_generation (ca_summary (sys_catalog s)) ≠ 0;
  ri_capacity : 0 < rs_capacity (ca_summary (sys_catalog s)) ≤ 1024;
  ri_length : Z.of_nat (length (ca_slots (sys_catalog s))) = rs_capacity (ca_summary (sys_catalog s));
  ri_next : is_u64 (ca_next_generation (sys_catalog s));
  ri_slots : slots_wf (rs_engine_generation (ca_summary (sys_catalog s)))
    (ca_next_generation (sys_catalog s)) (ca_slots (sys_catalog s)) (sys_borrowed s) (sys_releasing s);
  ri_accounts : accounts (ca_slots (sys_catalog s)) (ca_summary (sys_catalog s));
}.

(** ** Sums over slots *)

Lemma total_insert {A} (f : A → Z) l i x y :
  l !! i = Some x → total (f <$> <[i := y]> l) = total (f <$> l) - f x + f y.
Proof.
  revert i. induction l as [|a l IH]; intros [|i] E; [done..| |].
  - injection E as ->.
    change (f y + total (f <$> l) = f x + total (f <$> l) - f x + f y). lia.
  - change (f a + total (f <$> <[i := y]> l) = f a + total (f <$> l) - f x + f y).
    rewrite (IH i) by done. lia.
Qed.

Lemma total_insert_same {A} (f : A → Z) l i x y :
  l !! i = Some x → f y = f x → total (f <$> <[i := y]> l) = total (f <$> l).
Proof. intros E Ef. rewrite (total_insert f l i x y E). lia. Qed.

Lemma total_nonneg {A} (f : A → Z) l : (∀ x, x ∈ l → 0 ≤ f x) → 0 ≤ total (f <$> l).
Proof.
  induction l as [|a l IH]; intros H; [done|]. rewrite fmap_cons, total_cons.
  specialize (H a (list_elem_of_here _ _)) as Ha. specialize (IH (λ x Hx, H x (list_elem_of_further _ _ _ Hx))).
  lia.
Qed.

Lemma total_ge {A} (f : A → Z) l i x :
  (∀ x, x ∈ l → 0 ≤ f x) → l !! i = Some x → f x ≤ total (f <$> l).
Proof.
  revert i. induction l as [|a l IH]; intros [|i] H E; [done..| |]; rewrite fmap_cons, total_cons.
  - injection E as ->. pose proof (total_nonneg f l (λ y Hy, H y (list_elem_of_further _ _ _ Hy))). lia.
  - specialize (IH i (λ y Hy, H y (list_elem_of_further _ _ _ Hy)) E).
    specialize (H a (list_elem_of_here _ _)). lia.
Qed.

Lemma total_le_length {A} (f : A → Z) l : (∀ x, f x ≤ 1) → total (f <$> l) ≤ Z.of_nat (length l).
Proof. intros H. induction l as [|a l IH]; [done|]. rewrite fmap_cons, total_cons. specialize (H a). cbn [length]. lia. Qed.

Lemma total_zero {A} (f : A → Z) l : (∀ x, x ∈ l → f x = 0) → total (f <$> l) = 0.
Proof.
  induction l as [|a l IH]; intros H; [done|].
  rewrite fmap_cons, total_cons, IH, H; [done|apply list_elem_of_here|]. intros x Hx. apply H. by apply list_elem_of_further.
Qed.

Lemma counts_range slot k st h :
  0 ≤ counts_live slot ≤ 1 ∧ 0 ≤ counts_state st slot ≤ 1 ∧ 0 ≤ counts_kind k slot ≤ 1 ∧
  0 ≤ counts_dependent h slot ≤ 1.
Proof.
  unfold counts_live, counts_state, counts_kind, counts_dependent.
  repeat case_match; lia.
Qed.

(** A 0/1 count over at most 1024 slots. *)
Lemma count_range (f : engine_resource_slot → Z) slots :
  (∀ x, 0 ≤ f x ≤ 1) → Z.of_nat (length slots) ≤ 1024 → 0 ≤ total (f <$> slots) ≤ 1024.
Proof.
  intros Hf Hl. split; [apply total_nonneg; intros; apply Hf|].
  pose proof (total_le_length f slots (λ x, proj2 (Hf x))). lia.
Qed.

Lemma alter_table (f : Z → Z) (g : Z → Z) n k :
  0 ≤ k < n →
  alter g (Z.to_nat k) (f <$> seqZ 0 n) = (λ j, if j =? k then g (f j) else f j) <$> seqZ 0 n.
Proof.
  intros Hk. apply list_eq. intros i. rewrite list_lookup_fmap.
  destruct (decide (i = Z.to_nat k)) as [->|Hne].
  - rewrite list_lookup_alter_eq, list_lookup_fmap.
    rewrite (proj2 (lookup_seqZ 0 n (Z.to_nat k) k)) by lia. cbn. by rewrite Z.eqb_refl.
  - rewrite list_lookup_alter_ne, list_lookup_fmap by done.
    destruct (seqZ 0 n !! i) as [j|] eqn:E; [|done]. apply lookup_seqZ in E. cbn.
    destruct (Z.eqb_spec j k); [lia|done].
Qed.

(** ** Handles *)

Lemma live_at_unique eg next slots b r h i j x y :
  slots_wf eg next slots b r → live_at slots h i x → live_at slots h j y → i = j ∧ x = y.
Proof.
  intros Hw (Ei & Ui & Hi) (Ej & Uj & Hj).
  destruct (sw_handle _ _ _ _ _ _ _ (sws_slots _ _ _ _ _ Hw i x Ei Ui)) as (g & Hg & _).
  destruct (sw_handle _ _ _ _ _ _ _ (sws_slots _ _ _ _ _ Hw j y Ej Uj)) as (g' & Hg' & _).
  rewrite Hi in Hg. rewrite Hj in Hg'. pose proof (f_equal h_slot (eq_trans (eq_sym Hg) Hg')) as E.
  cbn in E. assert (i = j) as -> by lia. by simplify_eq.
Qed.

(** The generation-checked lookup finds exactly the live slot. *)
Lemma resource_slot_locked_live c b r h i x :
  rs_engine_generation (ca_summary c) ≠ 0 →
  Z.of_nat (length (ca_slots c)) = rs_capacity (ca_summary c) →
  slots_wf (rs_engine_generation (ca_summary c)) (ca_next_generation c) (ca_slots c) b r →
  resource_slot_locked c h = Some (i, x) ↔ live_at (ca_slots c) h i x.
Proof.
  intros Heg Hlen Hw. unfold resource_slot_locked. split.
  - split_guard; [done|]. destruct (array_get _ _) as [slot|] eqn:Es; [|done]. cbn.
    apply array_get_Some in Es as [Hr Es]. destruct (sl_in_use slot) eqn:Eu; [|done]. cbn.
    destruct (Z.eqb_spec (h_generation (re_handle (sl_summary slot))) (h_generation h)) as [Eg|]; [|done].
    intros [= <- <-]. guards. split; [done|]. split; [done|].
    destruct (sw_handle _ _ _ _ _ _ _ (sws_slots _ _ _ _ _ Hw _ _ Es Eu)) as (g & Hg & _).
    rewrite Hg in *. destruct h as [eg' sl' g']. cbn in *. f_equal; [done|lia|done].
  - intros (E & Eu & Hh).
    destruct (sw_handle _ _ _ _ _ _ _ (sws_slots _ _ _ _ _ Hw _ _ E Eu)) as (g & Hg & Hr).
    pose proof (lookup_lt_Some _ _ _ E) as Hlt. subst h. rewrite Hg. cbn.
    rewrite Z.eqb_refl, !(proj2 (Z.eqb_neq _ 0)), (proj2 (Z.ltb_ge _ _)) by lia. cbn.
    replace (Z.of_nat i + 1 - 1) with (Z.of_nat i) by lia. rewrite array_get_nat, E. cbn.
    rewrite Eu, Hg. cbn. by rewrite Z.eqb_refl, Nat2Z.id.
Qed.

(** ** Transitions of the slot array *)

(** The members a state or borrow change leaves alone. *)
Definition same_identity (x y : engine_resource_slot) : Prop :=
  sl_in_use y = sl_in_use x ∧ re_handle (sl_summary y) = re_handle (sl_summary x) ∧
  re_dependency (sl_summary y) = re_dependency (sl_summary x) ∧
  re_kind (sl_summary y) = re_kind (sl_summary x) ∧
  re_bytes (sl_summary y) = re_bytes (sl_summary x).

Lemma live_at_insert slots i x y h j z :
  slots !! i = Some x → same_identity x y → live_at slots h j z →
  ∃ z', live_at (<[i := y]> slots) h j z' ∧ same_identity z z'.
Proof.
  intros Hi (U & Hh & Hd & Hk & Hb) (Ej & Uj & Hj). destruct (decide (i = j)) as [<-|Hne].
  - exists y. simplify_eq. split; [|done]. split; [|by rewrite U, Hh].
    apply list_lookup_insert_eq. by eapply lookup_lt_Some.
  - exists z. split; [|done]. split; [|done]. by rewrite list_lookup_insert_ne.
Qed.

Lemma dependents_insert_same slots i x y h :
  slots !! i = Some x → same_identity x y →
  total (counts_dependent h <$> <[i := y]> slots) = total (counts_dependent h <$> slots).
Proof.
  intros Hi (U & _ & Hd & _). eapply total_insert_same; [done|].
  unfold counts_dependent. by rewrite U, Hd.
Qed.

Section update.
Context (eg next : Z) (slots : list engine_resource_slot).
Context (b b' r r' : list yvex_engine_resource_handle).
Context (wf : slots_wf eg next slots b r).
Context (h : yvex_engine_resource_handle) (i : nat) (x y : engine_resource_slot).
Context (live : live_at slots h i x) (same : same_identity x y).
Context (dependents_same : re_dependent_count (sl_summary y) = re_dependent_count (sl_summary x)).
Context (consumers : re_consumer_count (sl_summary y) = occurrences h b').
Context (borrowed_other : ∀ h', h' ≠ h → occurrences h' b' = occurrences h' b).
Context (borrowed_from : ∀ h', h' ∈ b' → h' = h ∨ h' ∈ b).
Context (releasing_other : ∀ h', h' ≠ h → h' ∈ r' ↔ h' ∈ r).
Context (releasing_here : re_state (sl_summary y) = YVEX_ENGINE_RESOURCE_RELEASING ↔ h ∈ r').
Context (releasing_once : NoDup r').
Context (busy : re_consumer_count (sl_summary y) ≠ 0 ∨ re_dependent_count (sl_summary y) ≠ 0 →
  re_state (sl_summary y) = YVEX_ENGINE_RESOURCE_READY).

(** Changing the state or the borrow count of one live slot. *)
Lemma slots_wf_update : slots_wf eg next (<[i := y]> slots) b' r'.
Proof using All.
  destruct live as (Ei & Ui & Hi). pose proof same as (Uy & Hy & Dy & Ky & By).
  assert (Hdep : ∀ hd g, (∃ j d, live_at slots hd j d ∧ h_generation hd < g) →
    ∃ j d, live_at (<[i := y]> slots) hd j d ∧ h_generation hd < g).
  { intros hd g (j & d & Hl & Hg). destruct (live_at_insert slots i x y hd j d Ei same Hl) as (d' & ? & _).
    by exists j, d'. }
  constructor.
  - intros j z Ez Uz. destruct (decide (i = j)) as [<-|Hne].
    + rewrite list_lookup_insert_eq in Ez by (by eapply lookup_lt_Some). injection Ez as <-.
      destruct (sws_slots _ _ _ _ _ wf i x Ei Ui) as [S1 S2 S3 S4 S5 S6 S7 S8].
      constructor; rewrite ?Hy, ?Dy, ?Ky, ?By, ?Hi in *; try done.
      * by rewrite dependents_same, (dependents_insert_same slots i x y _ Ei same).
      * intros Hp. apply Hdep. by apply S8.
    + rewrite list_lookup_insert_ne in Ez by done.
      destruct (sws_slots _ _ _ _ _ wf j z Ez Uz) as [S1 S2 S3 S4 S5 S6 S7 S8].
      assert (Hother : re_handle (sl_summary z) ≠ h).
      { intros Heq. destruct (live_at_unique _ _ _ _ _ h i j x z wf live ltac:(done)). done. }
      constructor; try done.
      * by rewrite S4, borrowed_other.
      * by rewrite S5, (dependents_insert_same slots i x y _ Ei same).
      * by rewrite S6, releasing_other.
      * intros Hp. apply Hdep. by apply S8.
  - intros h' Hb. assert (∃ j z, live_at slots h' j z) as (j & z & Hl).
    { destruct (borrowed_from h' Hb) as [->|Hb']; [by exists i, x|].
      by apply (sws_borrowed _ _ _ _ _ wf). }
    destruct (live_at_insert slots i x y h' j z Ei same Hl) as (z' & ? & _). by exists j, z'.
  - intros h' Hr. assert (∃ j z, live_at slots h' j z) as (j & z & Hl).
    { destruct (decide (h' = h)) as [->|Hne]; [by exists i, x|].
      by apply (sws_releasing _ _ _ _ _ wf), releasing_other. }
    destruct (live_at_insert slots i x y h' j z Ei same Hl) as (z' & ? & _). by exists j, z'.
  - done.
Qed.
End update.

(** All slots but one keep everything except their dependent counts. *)
Definition framed (delta : yvex_engine_resource_handle → Z) (x y : engine_resource_slot) : Prop :=
  same_identity x y ∧ re_state (sl_summary y) = re_state (sl_summary x) ∧
  re_consumer_count (sl_summary y) = re_consumer_count (sl_summary x) ∧
  (sl_in_use x = true → re_dependent_count (sl_summary y) =
     re_dependent_count (sl_summary x) + delta (re_handle (sl_summary x))).

Definition framed_off (i : nat) (delta : yvex_engine_resource_handle → Z)
    (slots slots' : list engine_resource_slot) : Prop :=
  ∀ k, k ≠ i → option_relation (framed delta) (λ _, False) (λ _, False) (slots !! k) (slots' !! k).

Lemma framed_off_ext i delta delta' slots slots' :
  (∀ h, delta h = delta' h) → framed_off i delta slots slots' → framed_off i delta' slots slots'.
Proof.
  intros Hd Hf k Hk. specialize (Hf k Hk). destruct (slots !! k), (slots' !! k); try done.
  destruct Hf as (? & ? & ? & H). split; [done|]. split; [done|]. split; [done|].
  intros U. by rewrite (H U), Hd.
Qed.

Lemma framed_off_to i delta slots slots' k x :
  framed_off i delta slots slots' → k ≠ i → slots !! k = Some x →
  ∃ y, slots' !! k = Some y ∧ framed delta x y.
Proof. intros Hf Hk Hx. specialize (Hf k Hk). rewrite Hx in Hf. destruct (slots' !! k); [|done]. eauto. Qed.

Lemma framed_off_from i delta slots slots' k y :
  framed_off i delta slots slots' → k ≠ i → slots' !! k = Some y →
  ∃ x, slots !! k = Some x ∧ framed delta x y.
Proof. intros Hf Hk Hy. specialize (Hf k Hk). rewrite Hy in Hf. destruct (slots !! k); [|done]. eauto. Qed.

(** The dependency gains or loses one dependent; slot [i] is overwritten. *)
Lemma framed_off_alter slots i j d f new dep delta :
  slots !! j = Some d → j ≠ i → re_handle (sl_summary d) = dep → sl_in_use d = true →
  (∀ k x, k ≠ i → slots !! k = Some x → sl_in_use x = true →
     re_handle (sl_summary x) = dep → k = j) →
  re_dependent_count (f (sl_summary d)) = re_dependent_count (sl_summary d) + delta →
  (∀ e, re_handle (f e) = re_handle e ∧ re_dependency (f e) = re_dependency e ∧
        re_kind (f e) = re_kind e ∧ re_bytes (f e) = re_bytes e ∧ re_state (f e) = re_state e ∧
        re_consumer_count (f e) = re_consumer_count e) →
  framed_off i (λ h, if bool_decide (dep = h) then delta else 0) slots
    (alter (λ slot, slot <| sl_summary ::= f |>) j (<[i := new]> slots)) ∧
  framed_off i (λ h, if bool_decide (dep = h) then delta else 0) slots
    (<[i := new]> (alter (λ slot, slot <| sl_summary ::= f |>) j slots)).
Proof.
  intros Hj Hji Hd Hu Huniq Hf Hsame.
  assert (Hk : ∀ k, k ≠ i → option_relation (framed (λ h, if bool_decide (dep = h) then delta else 0))
    (λ _, False) (λ _, False) (slots !! k) (alter (λ slot, slot <| sl_summary ::= f |>) j slots !! k)).
  { intros k Hk. rewrite list_lookup_alter. case_decide as Ejk; [subst k|].
    - rewrite Hj. cbn. destruct (Hsame (sl_summary d)) as (? & ? & ? & ? & ? & ?).
      split; [done|]. split; [done|]. split; [done|]. intros _. cbn.
      by rewrite bool_decide_eq_true_2 by (by rewrite Hd).
    - destruct (slots !! k) as [x|] eqn:Ex; [|done]. cbn.
      split; [done|]. split; [done|]. split; [done|]. intros Ux. rewrite bool_decide_eq_false_2; [lia|].
      intros E. destruct Ejk. symmetry. by eapply Huniq. }
  split; intros k Hne.
  - specialize (Hk k Hne). rewrite list_lookup_alter in *. case_decide as Ejk; [subst k|].
    + by rewrite list_lookup_insert_ne.
    + by rewrite list_lookup_insert_ne.
  - rewrite list_lookup_insert_ne by done. by apply Hk.
Qed.

Lemma framed_off_insert slots i new : framed_off i (λ _, 0) slots (<[i := new]> slots).
Proof.
  intros k Hk. rewrite list_lookup_insert_ne by done. destruct (slots !! k); [|done]. cbn.
  split; [done|]. split; [done|]. split; [done|]. intros _. lia.
Qed.

Section reshape.
Context (eg next next' : Z) (slots slots' : list engine_resource_slot).
Context (b r r' : list yvex_engine_resource_handle) (i : nat) (delta : yvex_engine_resource_handle → Z).
Context (wf : slots_wf eg next slots b r) (next_le : next ≤ next').
Context (frame : framed_off i delta slots slots').
Context (dependents : ∀ h, total (counts_dependent h <$> slots') = total (counts_dependent h <$> slots) + delta h).
(** Nobody holds or depends on the overwritten slot. *)
Context (unheld : ∀ h x, live_at slots h i x → (h ∉ b) ∧ total (counts_dependent h <$> slots) = 0).
Context (releasing_other : ∀ h, h ∈ r' → h ∈ r ∧ ∀ x, ¬ live_at slots h i x).
Context (releasing_keep : ∀ h, h ∈ r → (∀ x, ¬ live_at slots h i x) → h ∈ r') (once : NoDup r').
(** A dependent count only grows from one of a slot that is ready. *)
Context (grown : ∀ h j d, live_at slots h j d → 0 < delta h →
   re_state (sl_summary d) = YVEX_ENGINE_RESOURCE_READY).
Context (here : ∀ y, slots' !! i = Some y → sl_in_use y = true → slot_wf eg next' slots' b r' i y).

Lemma reshape_live h j x : live_at slots h j x → j ≠ i → ∃ y, live_at slots' h j y.
Proof using frame.
  intros (E & U & H) Hj. destruct (framed_off_to _ _ _ _ _ _ frame Hj E) as (y & Ey & (U' & H' & _) & _).
  exists y. split; [done|]. split; [by rewrite U'|by rewrite H'].
Qed.

(** Overwriting one slot and adjusting its dependency. *)
Lemma slots_wf_reshape : slots_wf eg next' slots' b r'.
Proof using All.
  constructor; [|..|done].
  - intros j y Ey Uy. destruct (decide (j = i)) as [->|Hne]; [by apply here|].
    destruct (framed_off_from _ _ _ _ _ _ frame Hne Ey) as (x & Ex & (U & H & D & K & B) & St & C & Dp).
    rewrite U in Uy. specialize (Dp Uy).
    destruct (sws_slots _ _ _ _ _ wf j x Ex Uy) as [(g & S1 & Hg) S2 S3 S4 S5 S6 S7 S8].
    constructor; rewrite ?H, ?D, ?K, ?B, ?C, ?St, ?Dp, ?dependents; try done.
    + exists g. split; [done|lia].
    + by rewrite S5.
    + rewrite S6. split; intros Hr; [|by apply releasing_other].
      apply releasing_keep; [done|]. intros z Hz.
      by destruct (live_at_unique _ _ _ _ _ _ i j z x wf Hz ltac:(done)).
    + intros [Hc|Hd]; [by apply S7; left|].
      destruct (decide (re_dependent_count (sl_summary x) = 0)) as [E0|]; [|by apply S7; right].
      rewrite E0 in *. destruct (Z.lt_ge_cases 0 (delta (re_handle (sl_summary x)))) as [Hpos|].
      * by apply (grown (re_handle (sl_summary x)) j x).
      * assert (0 ≤ total (counts_dependent (re_handle (sl_summary x)) <$> slots')); [|rewrite dependents in *; lia].
        apply total_nonneg. intros z _. by apply (counts_range z 0 YVEX_ENGINE_RESOURCE_READY).
    + intros Hp. destruct (S8 Hp) as (k & d & Hl & Hlt). exists k.
      assert (k ≠ i) as Hki.
      { intros ->. destruct (unheld _ d Hl) as [_ H0].
        assert (counts_dependent (re_dependency (sl_summary x)) x = 1) as E1.
        { unfold counts_dependent. by rewrite Uy, bool_decide_eq_true_2. }
        assert (counts_dependent (re_dependency (sl_summary x)) x ≤ 0); [|lia]. rewrite <- H0.
        eapply total_ge; [|done]. intros z _. by apply (counts_range z 0 YVEX_ENGINE_RESOURCE_READY). }
      destruct (reshape_live _ _ _ Hl Hki) as (d' & ?). by exists d'.
  - intros h Hb. destruct (sws_borrowed _ _ _ _ _ wf h Hb) as (j & x & Hl).
    destruct (decide (j = i)) as [->|Hne]; [by destruct (unheld h x Hl)|].
    destruct (reshape_live _ _ _ Hl Hne) as (y & ?). by exists j, y.
  - intros h Hr. destruct (releasing_other h Hr) as [Hr' Hn].
    destruct (sws_releasing _ _ _ _ _ wf h Hr') as (j & x & Hl).
    destruct (decide (j = i)) as [->|Hne]; [by destruct (Hn x)|].
    destruct (reshape_live _ _ _ Hl Hne) as (y & ?). by exists j, y.
Qed.
End reshape.

(** ** Accounting *)

Lemma accounts_insert slots i x y summary summary' :
  slots !! i = Some x → accounts slots summary →
  rs_resource_count summary' = rs_resource_count summary - counts_live x + counts_live y →
  rs_ready_count summary' = rs_ready_count summary - counts_state YVEX_ENGINE_RESOURCE_READY x
    + counts_state YVEX_ENGINE_RESOURCE_READY y →
  rs_failed_count summary' = rs_failed_count summary - counts_state YVEX_ENGINE_RESOURCE_FAILED x
    + counts_state YVEX_ENGINE_RESOURCE_FAILED y →
  rs_count_by_kind summary' =
    (λ k, total (counts_kind k <$> slots) - counts_kind k x + counts_kind k y) <$> seqZ 0 10 →
  Forall (λ f, f (rs_bytes summary') = f (rs_bytes summary) - counts_bytes f x + counts_bytes f y ∧
               is_u64 (f (rs_bytes summary'))) byte_fields →
  accounts (<[i := y]> slots) summary'.
Proof.
  intros Hi [A1 A2 A3 A4 A5] H1 H2 H3 H4 H5.
  constructor; rewrite ?(total_insert _ slots i x y) by done; try lia.
  - rewrite H4. apply list_fmap_ext. intros _ k _. by rewrite (total_insert _ slots i x y).
  - rewrite !Forall_forall in *. intros f Hf. destruct (H5 f Hf) as [E ?], (A5 f Hf) as [E' _].
    split; [|done]. rewrite (total_insert _ slots i x y) by done. lia.
Qed.

Lemma counts_ext x y :
  same_identity x y → re_state (sl_summary y) = re_state (sl_summary x) →
  counts_live y = counts_live x ∧ (∀ st, counts_state st y = counts_state st x) ∧
  (∀ k, counts_kind k y = counts_kind k x) ∧ (∀ f, counts_bytes f y = counts_bytes f x).
Proof.
  intros (U & _ & _ & K & B) St. unfold counts_live, counts_state, counts_kind, counts_bytes.
  by rewrite U, K, B, St.
Qed.

Lemma alter_entry (slots : list engine_resource_slot) (j : nat) x f :
  slots !! j = Some x →
  alter (λ slot, slot <| sl_summary ::= f |>) j slots =
    <[j := x <| sl_summary := f (sl_summary x) |>]> slots.
Proof.
  intros Ej. apply list_eq. intros k. rewrite list_lookup_alter, list_lookup_insert.
  case_decide as E; [subst k|].
  - rewrite Ej, decide_True; [done|]. split; [done|by eapply lookup_lt_Some].
  - by rewrite decide_False by tauto.
Qed.

Lemma put_entry_insert c i x f :
  ca_slots c !! i = Some x →
  put_entry i f c = c <| ca_slots := <[i := x <| sl_summary := f (sl_summary x) |>]> (ca_slots c) |>.
Proof.
  intros E. unfold put_entry. change (ResourceCatalog
    (alter (λ slot, slot <| sl_summary ::= f |>) i (ca_slots c)) (ca_summary c) (ca_next_generation c)
    = c <| ca_slots := <[i := x <| sl_summary := f (sl_summary x) |>]> (ca_slots c) |>).
  by rewrite (alter_entry _ i x f E).
Qed.

Lemma put_dependency (dependency : option (nat * engine_resource_slot)) c f :
  match dependency with Some (d, _) => put_entry d f c | None => c end =
  c <| ca_slots := match dependency with
         | Some (d, _) => alter (λ slot, slot <| sl_summary ::= f |>) d (ca_slots c)
         | None => ca_slots c
         end |>.
Proof. by destruct dependency as [[? ?]|]; destruct c. Qed.

(** Dependent counts are not accounted. *)
Lemma accounts_alter slots j f summary :
  (∀ e, re_handle (f e) = re_handle e ∧ re_dependency (f e) = re_dependency e ∧
        re_kind (f e) = re_kind e ∧ re_bytes (f e) = re_bytes e ∧ re_state (f e) = re_state e ∧
        re_consumer_count (f e) = re_consumer_count e) →
  accounts slots summary → accounts (alter (λ slot, slot <| sl_summary ::= f |>) j slots) summary.
Proof.
  intros Hf Ha. destruct (slots !! j) as [x|] eqn:Ej.
  - rewrite (alter_entry slots j x f Ej). destruct (Hf (sl_summary x)) as (? & ? & ? & ? & ? & ?).
    destruct (counts_ext x (x <| sl_summary := f (sl_summary x) |>)) as (C1 & C2 & C3 & C4); [done|done|].
    pose proof Ha as [A1 A2 A3 A4 A5].
    apply (accounts_insert slots j x _ summary summary); rewrite ?C1, ?C2; try done; try lia.
    + rewrite A4. apply list_fmap_ext. intros _ k _. rewrite C3. lia.
    + eapply Forall_impl; [exact A5|]. intros g [_ ?]. split; [rewrite C4; lia|done].
  - assert (alter (λ slot, slot <| sl_summary ::= f |>) j slots = slots) as ->; [|done].
    apply list_eq. intros k. rewrite list_lookup_alter. case_decide as E; [subst k; by rewrite Ej|done].
Qed.

Lemma counts_state_here st x :
  sl_in_use x = true →
  counts_state st x = if decide (re_state (sl_summary x) = st) then 1 else 0.
Proof. intros Ux. unfold counts_state. rewrite Ux. cbn. by repeat case_match; case_bool_decide. Qed.

(** Changing only the state of a live slot. *)
Lemma accounts_state slots i x e' summary summary' :
  slots !! i = Some x → sl_in_use x = true → accounts slots summary →
  re_kind e' = re_kind (sl_summary x) → re_bytes e' = re_bytes (sl_summary x) →
  rs_resource_count summary' = rs_resource_count summary →
  rs_count_by_kind summary' = rs_count_by_kind summary → rs_bytes summary' = rs_bytes summary →
  rs_ready_count summary' = rs_ready_count summary
    - (if decide (re_state (sl_summary x) = YVEX_ENGINE_RESOURCE_READY) then 1 else 0)
    + (if decide (re_state e' = YVEX_ENGINE_RESOURCE_READY) then 1 else 0) →
  rs_failed_count summary' = rs_failed_count summary
    - (if decide (re_state (sl_summary x) = YVEX_ENGINE_RESOURCE_FAILED) then 1 else 0)
    + (if decide (re_state e' = YVEX_ENGINE_RESOURCE_FAILED) then 1 else 0) →
  accounts (<[i := x <| sl_summary := e' |>]> slots) summary'.
Proof.
  intros Hi Ux Ha Hk Hb H1 H2 H3 H4 H5. pose proof Ha as [A1 A2 A3 A4 A5].
  assert (Hlive : counts_live (x <| sl_summary := e' |>) = counts_live x) by done.
  assert (Hkind : ∀ k, counts_kind k (x <| sl_summary := e' |>) = counts_kind k x).
  { intros k. unfold counts_kind. cbn. by rewrite Hk. }
  assert (Hbytes : ∀ f, counts_bytes f (x <| sl_summary := e' |>) = counts_bytes f x).
  { intros f. unfold counts_bytes. cbn. by rewrite Hb. }
  apply (accounts_insert slots i x _ summary summary');
    rewrite ?counts_state_here, ?Hlive by done; cbn; try done; try lia.
  - rewrite H2, A4. apply list_fmap_ext. intros _ k _. rewrite Hkind. lia.
  - rewrite H3. eapply Forall_impl; [exact A5|]. intros f [_ ?]. split; [|done]. rewrite Hbytes. lia.
Qed.

(** ** Preservation *)

(** The counts of the catalogue's summary stay within its 1024 slots. *)
Lemma inv_counts s :
  resource_inv s →
  let slots := ca_slots (sys_catalog s) in let summary := ca_summary (sys_catalog s) in
  0 ≤ rs_resource_count summary ≤ 1024 ∧ 0 ≤ rs_ready_count summary ≤ 1024 ∧
  0 ≤ rs_failed_count summary ≤ 1024 ∧
  (∀ i x, slots !! i = Some x → sl_in_use x = true →
     1 ≤ rs_resource_count summary ∧
     (if decide (re_state (sl_summary x) = YVEX_ENGINE_RESOURCE_READY) then 1 else 0)
       ≤ rs_ready_count summary ∧
     (if decide (re_state (sl_summary x) = YVEX_ENGINE_RESOURCE_FAILED) then 1 else 0)
       ≤ rs_failed_count summary) ∧
  ∀ f, f ∈ byte_fields → ∀ i x, slots !! i = Some x → sl_in_use x = true →
     f (re_bytes (sl_summary x)) ≤ f (rs_bytes summary).
Proof.
  intros [_ Hcap Hlen _ Hw [A1 A2 A3 _ A5]] slots summary. subst slots summary.
  assert (Hl : Z.of_nat (length (ca_slots (sys_catalog s))) ≤ 1024) by lia.
  rewrite A1, A2, A3. split; [|split; [|split; [|split]]].
  1-3: apply count_range; [intros x; unfold counts_live, counts_state; repeat case_match; lia|done].
  - intros i x Ex Ux. rewrite <- !counts_state_here by done.
    split; [|split].
    + replace 1 with (counts_live x) by (unfold counts_live; by rewrite Ux).
      eapply total_ge; [|done]. intros y _. apply (counts_range y 0 YVEX_ENGINE_RESOURCE_READY handle_zero).
    + eapply total_ge; [|done]. intros y _. apply (counts_range y 0 _ handle_zero).
    + eapply total_ge; [|done]. intros y _. apply (counts_range y 0 _ handle_zero).
  - intros f Hf i x Ex Ux. rewrite Forall_forall in A5. destruct (A5 f Hf) as [-> _].
    replace (f (re_bytes (sl_summary x))) with (counts_bytes f x) by (unfold counts_bytes; by rewrite Ux).
    eapply total_ge; [|done]. intros y (j & Ey)%list_elem_of_lookup. unfold counts_bytes.
    destruct (sl_in_use y) eqn:Uy; [|done].
    pose proof (sw_bytes _ _ _ _ _ _ _ (sws_slots _ _ _ _ _ Hw j y Ey Uy)) as Hb.
    rewrite Forall_forall in Hb. by apply Hb.
Qed.

Lemma occurrences_cons h h' l : occurrences h (h' :: l) = (if decide (h' = h) then 1 else 0) + occurrences h l.
Proof. unfold occurrences. rewrite filter_cons. case_decide; cbn; lia. Qed.

Lemma occurrences_perm h l l' : l ≡ₚ l' → occurrences h l = occurrences h l'.
Proof. intros E. unfold occurrences. by rewrite E. Qed.

Lemma occurrences_pos h l : h ∈ l ↔ occurrences h l ≠ 0.
Proof.
  induction l as [|x l IH]; [split; [by intros ?%not_elem_of_nil|done]|].
  rewrite elem_of_cons, occurrences_cons, IH. assert (0 ≤ occurrences h l) by (unfold occurrences; lia).
  case_decide as E; [subst; split; [lia|by left]|]. split; [intros [->|?]; [done|lia]|right; lia].
Qed.

Section preservation.
Context (c : yvex_engine_resource_catalog) (b r : list yvex_engine_resource_handle).
Context (inv : resource_inv (ResourceSystem c b r)).

Lemma inv_lookup h i x : resource_slot_locked c h = Some (i, x) → live_at (ca_slots c) h i x.
Proof using inv.
  destruct inv as [Hg _ Hl _ Hw _]. cbn in *. by apply (resource_slot_locked_live c b r).
Qed.

Lemma inv_slot h i x :
  live_at (ca_slots c) h i x →
  slot_wf (rs_engine_generation (ca_summary c)) (ca_next_generation c) (ca_slots c) b r i x.
Proof using inv. intros (E & U & _). by apply (sws_slots _ _ _ _ _ (ri_slots _ inv)). Qed.

Lemma inv_publish h c' :
  yvex_runtime_resource_publish_ready c h = Done c' → resource_inv (ResourceSystem c' b r).
Proof using inv.
  unfold yvex_runtime_resource_publish_ready.
  destruct (resource_slot_locked c h) as [[i x]|] eqn:E; [|done]. apply inv_lookup in E as Hlive.
  pose proof Hlive as (Ei & Ui & Hi). pose proof (inv_slot h i x Hlive) as [S1 S2 S3 S4 S5 S6 S7 S8].
  destruct (inv_counts _ inv) as (_ & C2 & C3 & C4 & _). destruct (C4 i x Ei Ui) as (_ & C5 & C6).
  split_guard; [done|]. guards. rewrite (put_entry_insert _ i x) by exact Ei. intros [= <-]. cbn in *. rewrite H0 in *.
  pose proof inv as [I1 I2 I3 I4 I5 I6]. cbn in *.
  constructor; cbn; try done; [by rewrite length_insert|..].
  - apply (slots_wf_update _ _ _ b b r r I5 h i x); try done; cbn; try (by rewrite <- Hi).
    + by eauto.
    + rewrite <- Hi, <- S6. done.
    + apply I5.
  - eapply (accounts_state _ i x _ (ca_summary c)); try done; cbn.
    + rewrite u64_id by ulia. repeat case_decide; congruence || lia.
    + repeat case_decide; congruence || lia.
Qed.

Lemma inv_acquire h c' v :
  yvex_runtime_resource_acquire c h = Done (c', v) → resource_inv (ResourceSystem c' (h :: b) r).
Proof using inv.
  unfold yvex_runtime_resource_acquire.
  destruct (resource_slot_locked c h) as [[i x]|] eqn:E; [|done]. apply inv_lookup in E as Hlive.
  pose proof Hlive as (Ei & Ui & Hi). pose proof (inv_slot h i x Hlive) as [S1 S2 S3 S4 S5 S6 S7 S8].
  cbv zeta. split_guard; [done|]. guards. rewrite (put_entry_insert _ i x) by exact Ei. intros [= <- <-]. cbn in *.
  pose proof inv as [I1 I2 I3 I4 I5 I6]. cbn in *.
  constructor; cbn; try done; [by rewrite length_insert|..].
  - apply (slots_wf_update _ _ _ b (h :: b) r r I5 h i x); try done; cbn.
    + rewrite occurrences_cons, decide_True, <- Hi by done. lia.
    + intros h' Hne. rewrite occurrences_cons, decide_False by done. lia.
    + intros h' [->|?]%elem_of_cons; auto.
    + rewrite <- Hi, <- S6. done.
    + apply I5.
  - eapply (accounts_state _ i x _ (ca_summary c)); try done; cbn; repeat case_decide; congruence || lia.
Qed.

Lemma inv_drop h b' c' :
  b ≡ₚ h :: b' → yvex_runtime_resource_drop c h = Done c' → resource_inv (ResourceSystem c' b' r).
Proof using inv.
  intros Hb. unfold yvex_runtime_resource_drop.
  destruct (resource_slot_locked c h) as [[i x]|] eqn:E; [|done]. apply inv_lookup in E as Hlive.
  pose proof Hlive as (Ei & Ui & Hi). pose proof (inv_slot h i x Hlive) as [S1 S2 S3 S4 S5 S6 S7 S8].
  split_guard; [done|]. guards. rewrite (put_entry_insert _ i x) by exact Ei. intros [= <-]. cbn in *.
  pose proof inv as [I1 I2 I3 I4 I5 I6]. cbn in *.
  assert (Hocc : ∀ h', occurrences h' b = (if decide (h = h') then 1 else 0) + occurrences h' b').
  { intros h'. rewrite (occurrences_perm h' _ _ Hb). apply occurrences_cons. }
  constructor; cbn; try done; [by rewrite length_insert|..].
  - apply (slots_wf_update _ _ _ b b' r r I5 h i x); try done; cbn.
    + rewrite S4, Hi, Hocc, decide_True by done. lia.
    + intros h' Hne. rewrite Hocc, decide_False by done. lia.
    + intros h' Hin. right. rewrite Hb. by apply list_elem_of_further.
    + rewrite <- Hi, <- S6. done.
    + apply I5.
    + intros [Hc|Hd]; [|by apply S7; right]. apply S7. by left.
  - eapply (accounts_state _ i x _ (ca_summary c)); try done; cbn; repeat case_decide; congruence || lia.
Qed.

Lemma inv_release_begin h evict c' callback :
  resource_release_begin c h evict = Done (c', callback) → resource_inv (ResourceSystem c' b (h :: r)).
Proof using inv.
  unfold resource_release_begin. split_guard; [done|].
  destruct (resource_slot_locked c h) as [[i x]|] eqn:El; [|done]. apply inv_lookup in El as Hlive.
  pose proof Hlive as (Ei & Ui & Hi). pose proof (inv_slot h i x Hlive) as [S1 S2 S3 S4 S5 S6 S7 S8].
  destruct (inv_counts _ inv) as (_ & C2 & C3 & C4 & _). destruct (C4 i x Ei Ui) as (_ & C5 & C6).
  cbv zeta. split_guard; [done|]. apply orb_false_iff in E0 as [E0 _]. guards. rewrite (put_entry_insert _ i x) by exact Ei. intros [= <- <-]. cbn in *.
  pose proof inv as [I1 I2 I3 I4 I5 I6]. cbn in *.
  constructor; cbn; try done; [by rewrite length_insert|..].
  - apply (slots_wf_update _ _ _ b b r (h :: r) I5 h i x); try done; cbn.
    + by rewrite <- Hi.
    + by eauto.
    + intros h' Hne. rewrite elem_of_cons. naive_solver.
    + split; [intros _; apply list_elem_of_here|done].
    + apply NoDup_cons_2; [|apply I5]. rewrite <- Hi, <- S6. done.
    + lia.
  - eapply (accounts_state _ i x _ (ca_summary c)); try done; cbn.
    + repeat case_decide; rewrite ?u64_id by ulia; congruence || lia.
    + repeat case_decide; rewrite ?u64_id by ulia; congruence || lia.
Qed.
(** The live slot of a handle, as the lookup returns it. *)
Lemma inv_lookup_live h i x : live_at (ca_slots c) h i x → resource_slot_locked c h = Some (i, x).
Proof using inv.
  destruct inv as [Hg _ Hl _ Hw _]. cbn in *. by apply (resource_slot_locked_live c b r).
Qed.

(** A slot whose release is under way is held by nobody. *)
Lemma inv_releasing h :
  h ∈ r → ∃ i x, live_at (ca_slots c) h i x ∧ re_state (sl_summary x) = YVEX_ENGINE_RESOURCE_RELEASING ∧
    re_consumer_count (sl_summary x) = 0 ∧ re_dependent_count (sl_summary x) = 0.
Proof using inv.
  intros Hr. destruct (sws_releasing _ _ _ _ _ (ri_slots _ inv) h Hr) as (i & x & Hl).
  exists i, x. pose proof (inv_slot h i x Hl) as [S1 S2 S3 S4 S5 S6 S7 S8]. destruct Hl as (E & U & Hh).
  rewrite Hh in S6. assert (Hst : re_state (sl_summary x) = YVEX_ENGINE_RESOURCE_RELEASING) by by apply S6.
  split; [done|]. split; [done|]. rewrite Hst in S7.
  split; match goal with |- ?n = 0 => destruct (decide (n = 0)); [done|] end.
  - by discriminate S7; left.
  - by discriminate S7; right.
Qed.

Lemma inv_release_failed h i x r' :
  r ≡ₚ h :: r' → live_at (ca_slots c) h i x → re_state (sl_summary x) = YVEX_ENGINE_RESOURCE_RELEASING →
  resource_inv (ResourceSystem
    (put_entry i (λ e, e <| re_state := YVEX_ENGINE_RESOURCE_FAILED |>) c
       <| ca_summary ::= λ summary, summary
            <| rs_failed_count ::= λ n, u64 (n + 1) |>
            <| rs_failed_release_count ::= λ n, u64 (n + 1) |> |>) b r').
Proof using inv.
  intros Hr Hlive Hst. pose proof Hlive as (Ei & Ui & Hi).
  pose proof (inv_slot h i x Hlive) as [S1 S2 S3 S4 S5 S6 S7 S8].
  destruct (inv_counts _ inv) as (_ & C2 & C3 & C4 & _).
  rewrite (put_entry_insert _ i x) by exact Ei. pose proof inv as [I1 I2 I3 I4 I5 I6]. cbn in *.
  assert (Hnd : (h ∉ r') ∧ NoDup r').
  { pose proof (sws_once _ _ _ _ _ I5) as Hnd. rewrite Hr in Hnd. by apply NoDup_cons in Hnd. }
  assert (Hbusy : ¬ (re_consumer_count (sl_summary x) ≠ 0 ∨ re_dependent_count (sl_summary x) ≠ 0)).
  { intros Hx. specialize (S7 Hx). congruence. }
  constructor; cbn; try done; [by rewrite length_insert|..].
  - apply (slots_wf_update _ _ _ b b r r' I5 h i x); try done; cbn.
    + by rewrite <- Hi.
    + by eauto.
    + intros h' Hne. rewrite Hr, elem_of_cons. naive_solver.
    + split; [done|]. intros Hin. by destruct Hnd.
    + apply Hnd.
  - eapply (accounts_state _ i x _ (ca_summary c)); try done; cbn;
      repeat case_decide; rewrite ?u64_id by ulia; congruence || lia.
Qed.

(** The slot array after a removal, and its effect on the dependency. *)
Lemma remove_slots h i x (evicted : bool) :
  live_at (ca_slots c) h i x →
  ∃ slots1, ca_slots (resource_remove_locked c i x evicted) = <[i := slot_zero]> slots1 ∧
    slots1 !! i = Some x ∧
    accounts slots1 (ca_summary c) ∧ length slots1 = length (ca_slots c) ∧
    ca_summary (resource_dependency_drop_locked c (sl_summary x)) = ca_summary c ∧
    (∀ g, total (counts_dependent g <$> slots1) = total (counts_dependent g <$> ca_slots c)) ∧
    framed_off i (λ g, - counts_dependent g x) (ca_slots c) (<[i := slot_zero]> slots1).
Proof using inv.
  intros Hlive. pose proof Hlive as (Ei & Ui & Hi).
  pose proof (inv_slot h i x Hlive) as [S1 S2 S3 S4 S5 S6 S7 S8].
  unfold resource_remove_locked, resource_dependency_drop_locked.
  destruct (handle_present (re_dependency (sl_summary x))) eqn:Ep; cbn [negb].
  - destruct (S8 eq_refl) as (j & d & Hd & Hlt). rewrite (inv_lookup_live _ _ _ Hd).
    pose proof Hd as (Ej & Uj & Hj).
    assert (Hji : j ≠ i).
    { intros ->. rewrite Ei in Ej. injection Ej as <-. rewrite Hj in Hlt. lia. }
    pose proof (inv_slot _ _ _ Hd) as [T1 T2 T3 T4 T5 T6 T7 T8].
    assert (Hone : counts_dependent (re_dependency (sl_summary x)) x = 1).
    { unfold counts_dependent. by rewrite Ui, bool_decide_eq_true_2. }
    assert (Hpos : 1 ≤ re_dependent_count (sl_summary d)).
    { rewrite T5, <- Hone, Hj. eapply total_ge; [|done].
      intros z _. by apply (counts_range z 0 YVEX_ENGINE_RESOURCE_READY). }
    rewrite (proj2 (Z.eqb_neq _ _)) by lia.
    set (f := λ e, e <| re_dependent_count := re_dependent_count e - 1 |>).
    exists (alter (λ slot, slot <| sl_summary ::= f |>) j (ca_slots c)).
    split; [done|]. split; [by rewrite list_lookup_alter_ne|].
    split; [apply accounts_alter; [done|apply inv]|]. split; [by rewrite length_alter|].
    split; [done|]. split.
    { intros g. rewrite (alter_entry _ j d f Ej). by apply (dependents_insert_same _ j d). }
    assert (Huniq : ∀ k z, k ≠ i → ca_slots c !! k = Some z → sl_in_use z = true →
      re_handle (sl_summary z) = re_dependency (sl_summary x) → k = j).
    { intros k z Hk Ez Uz Hz. by apply (live_at_unique _ _ _ _ _ _ k j z d (ri_slots _ inv) ltac:(done) Hd). }
    assert (Hdelta : re_dependent_count (f (sl_summary d)) = re_dependent_count (sl_summary d) + -1)
      by (cbn; lia).
    destruct (framed_off_alter (ca_slots c) i j d f slot_zero (re_dependency (sl_summary x)) (-1)
      Ej Hji Hj Uj Huniq Hdelta (λ e, ltac:(done))) as [_ Hfr].
    eapply framed_off_ext; [|exact Hfr]. intros g. unfold counts_dependent. rewrite Ui. cbn.
    by case_bool_decide.
  - exists (ca_slots c). split; [done|]. split; [done|]. split; [apply inv|]. split; [done|].
    split; [done|]. split; [done|].
    intros k Hk. rewrite list_lookup_insert_ne by done. destruct (ca_slots c !! k) as [z|] eqn:Ez; [|done].
    cbn. split; [done|]. split; [done|]. split; [done|]. intros Uz.
    unfold counts_dependent. rewrite bool_decide_eq_false_2, andb_false_r; [lia|].
    intros Hz. destruct (sw_handle _ _ _ _ _ _ _ (inv_slot _ k z ltac:(done))) as (g & Hg & ?).
    rewrite Hz, Hg in Ep. unfold handle_present in Ep. cbn in Ep. guards. lia.
Qed.

Lemma inv_release_done h i x r' evict :
  r ≡ₚ h :: r' → live_at (ca_slots c) h i x → re_state (sl_summary x) = YVEX_ENGINE_RESOURCE_RELEASING →
  resource_inv (ResourceSystem (resource_remove_locked c i x evict) b r').
Proof using inv.
  intros Hr Hlive Hst. pose proof Hlive as (Ei & Ui & Hi).
  pose proof (inv_slot h i x Hlive) as [S1 S2 S3 S4 S5 S6 S7 S8].
  destruct (inv_counts _ inv) as (C1 & C2 & C3 & C4 & C5). destruct (C4 i x Ei Ui) as (C6 & _ & _).
  destruct (remove_slots h i x evict Hlive) as (slots1 & Hs & E1 & Hacc & Hlen & Hsum & Htot & Hfr).
  pose proof inv as [I1 I2 I3 I4 I5 I6].
  cbn [sys_catalog sys_borrowed sys_releasing] in C1, C5, C6, I1, I2, I3, I4, I5, I6.
  assert (Hnd : (h ∉ r') ∧ NoDup r').
  { pose proof (sws_once _ _ _ _ _ I5) as Hnd. rewrite Hr in Hnd. by apply NoDup_cons in Hnd. }
  assert (Hidle : re_consumer_count (sl_summary x) = 0 ∧ re_dependent_count (sl_summary x) = 0).
  { destruct (inv_releasing h) as (i' & x' & Hl' & _ & ?); [rewrite Hr; apply list_elem_of_here|].
    by destruct (live_at_unique _ _ _ _ _ _ _ _ _ _ I5 Hl' Hlive) as [_ <-]. }
  assert (Hzero : ∀ st, counts_state st x = 0 ∨ st = YVEX_ENGINE_RESOURCE_RELEASING).
  { intros st. rewrite counts_state_here by done. rewrite Hst. case_decide; auto. }
  assert (Hgen : ca_next_generation (resource_remove_locked c i x evict) = ca_next_generation c).
  { unfold resource_remove_locked, resource_dependency_drop_locked. cbn.
    destruct (negb _); [done|]. destruct (resource_slot_locked _ _) as [[j d]|]; [|done].
    by destruct (_ =? 0). }
  assert (Hsummary : ca_summary (resource_remove_locked c i x evict) = ca_summary c
    <| rs_bytes := resource_bytes_subtract (rs_bytes (ca_summary c)) (re_bytes (sl_summary x)) |>
    <| rs_resource_count ::= λ n, u64 (n - 1) |>
    <| rs_count_by_kind ::= alter (λ n, u64 (n - 1)) (Z.to_nat (re_kind (sl_summary x))) |>
    <| rs_release_count ::= λ n, u64 (n + 1) |>
    <| rs_eviction_count ::= λ n, u64 (n + (if evict then 1 else 0)) |>
    <| rs_generation ::= λ n, u64 (n + 1) |>).
  { unfold resource_remove_locked. cbn. rewrite Hsum, Hst. by rewrite !decide_False. }
  constructor; cbn [sys_catalog sys_borrowed sys_releasing]; rewrite ?Hgen, ?Hsummary, ?Hs; cbn; try done.
  - by rewrite length_insert, Hlen.
  - eapply (slots_wf_reshape _ _ _ _ _ b r r' i (λ g, - counts_dependent g x) I5 (Z.le_refl _) Hfr).
    + intros g. rewrite (total_insert _ slots1 i x slot_zero E1), Htot.
      unfold counts_dependent at 3. cbn. lia.
    + intros h' x' Hl'. assert (h' = h) as ->.
      { destruct Hl' as (Ei' & _ & <-). rewrite Ei in Ei'. by simplify_eq. }
      destruct (live_at_unique _ _ _ _ _ _ _ _ _ _ I5 Hl' Hlive) as [_ ->].
      rewrite <- Hi, <- S5. destruct Hidle as [Hc Hd]. split; [|done]. rewrite occurrences_pos, <- S4. lia.
    + intros h' Hin. rewrite Hr, elem_of_cons. split; [by right|]. intros x' (Ex' & _ & Hx').
      assert (h' = h) as -> by congruence. by destruct Hnd.
    + intros h' Hin Hno. rewrite Hr in Hin. apply elem_of_cons in Hin as [->|]; [|done].
      by destruct (Hno x).
    + apply Hnd.
    + intros h' j d _ Hpos. pose proof (counts_range x 0 YVEX_ENGINE_RESOURCE_READY h'). lia.
    + intros y Ey Uy. rewrite list_lookup_insert_eq in Ey by (by eapply lookup_lt_Some). by injection Ey as <-.
  - pose proof Hacc as [A1 A2 A3 A4 A5].
    eapply (accounts_insert slots1 i x slot_zero (ca_summary c)); try done; cbn.
    + unfold counts_live. rewrite Ui. cbn. rewrite u64_id by ulia. lia.
    + destruct (Hzero YVEX_ENGINE_RESOURCE_READY) as [->|]; [unfold counts_state; cbn; lia|done].
    + destruct (Hzero YVEX_ENGINE_RESOURCE_FAILED) as [->|]; [unfold counts_state; cbn; lia|done].
    + rewrite A4, alter_table by (unfold YVEX_ENGINE_RESOURCE_KIND_COUNT in *; lia).
      apply list_fmap_ext. intros _ k _. change (counts_kind k slot_zero) with 0.
      assert (Hx : counts_kind k x = if re_kind (sl_summary x) =? k then 1 else 0)
        by (unfold counts_kind; by rewrite Ui).
      rewrite Hx, (Z.eqb_sym k). destruct (Z.eqb_spec (re_kind (sl_summary x)) k) as [Ek|]; [|lia].
      rewrite <- Ek. clear Ek Hx k.
      assert (1 ≤ total (counts_kind (re_kind (sl_summary x)) <$> slots1) ≤ 1024).
      { split.
        - replace 1 with (counts_kind (re_kind (sl_summary x)) x)
            by (unfold counts_kind; by rewrite Ui, Z.eqb_refl).
          eapply total_ge; [|done]. intros z _. apply (counts_range z _ YVEX_ENGINE_RESOURCE_READY handle_zero).
        - apply count_range; [|lia]. intros z. apply (counts_range z _ YVEX_ENGINE_RESOURCE_READY handle_zero). }
      rewrite u64_id by ulia. lia.
    + unfold counts_bytes. rewrite Ui. cbn [sl_in_use slot_zero].
      assert (Hb : Forall (λ f, f (re_bytes (sl_summary x)) ≤ f (rs_bytes (ca_summary c))) byte_fields).
      { apply Forall_forall. intros f Hf. by apply (C5 f Hf i x). }
      assert (Hu : Forall (λ f, is_u64 (f (rs_bytes (ca_summary c)))) byte_fields).
      { eapply Forall_impl; [exact A5|]. simpl. tauto. }
      clear - Hb Hu S3. unfold byte_fields in *.
      repeat match goal with H : Forall _ (_ :: _) |- _ => apply Forall_cons in H as [? H] end.
      unfold resource_bytes_subtract. forall_cells; cbn in *; rewrite u64_id by ulia; split; ulia.
Qed.
(** A handle with a generation never issued is unknown to the catalogue. *)
Lemma inv_fresh h :
  ca_next_generation c < h_generation h → (∀ i x, ¬ live_at (ca_slots c) h i x) ∧ (h ∉ b) ∧ (h ∉ r) ∧
  total (counts_dependent h <$> ca_slots c) = 0.
Proof using inv.
  intros Hlt. assert (Hno : ∀ i x, ¬ live_at (ca_slots c) h i x).
  { intros i x Hl. destruct (sw_handle _ _ _ _ _ _ _ (inv_slot h i x Hl)) as (g & Hg & ?).
    destruct Hl as (_ & _ & Hh). rewrite Hh in Hg. rewrite Hg in Hlt. cbn in Hlt. lia. }
  split; [done|]. pose proof (ri_slots _ inv) as Hw. cbn in Hw. split; [|split].
  - intros Hb. destruct (sws_borrowed _ _ _ _ _ Hw h Hb) as (i & x & ?). by eapply Hno.
  - intros Hr. destruct (sws_releasing _ _ _ _ _ Hw h Hr) as (i & x & ?). by eapply Hno.
  - apply total_zero. intros x (i & Ex)%list_elem_of_lookup. unfold counts_dependent.
    destruct (sl_in_use x) eqn:Ux; [|done]. cbn. case_bool_decide as Hd; [|done].
    assert (Hp : handle_present h = true).
    { unfold handle_present. rewrite (proj2 (Z.eqb_neq (h_generation h) 0)); [by rewrite !orb_true_r|].
      pose proof (ri_next _ inv). cbn in *. ulia. }
    destruct (sw_dependency _ _ _ _ _ _ _ (sws_slots _ _ _ _ _ Hw i x Ex Ux)) as (j & d & Hl & _);
      rewrite Hd in *; [done|]. by destruct (Hno j d).
Qed.

Lemma resource_bytes_add_fields target value totals :
  Forall (λ f, is_u64 (f target)) byte_fields → Forall (λ f, is_u64 (f value)) byte_fields →
  resource_bytes_add target value = Some totals →
  Forall (λ f, f totals = f target + f value ∧ is_u64 (f totals)) byte_fields.
Proof.
  clear. unfold byte_fields. intros Ht Hv.
  repeat match goal with H : Forall _ (_ :: _) |- _ => apply Forall_cons in H as [? H] end.
  unfold resource_bytes_add.
  repeat match goal with
  | |- ?m ≫= _ = _ → _ => let E := fresh "E" in destruct m eqn:E; cbn; [|done];
                          apply u64_add_Some in E as [-> ?]; [|done..]
  end.
  intros [= <-]. forall_cells; cbn; done.
Qed.

Lemma next_generation_succ g : is_u64 g → g < ULLONG_MAX → next_generation g = g + 1.
Proof.
  clear. intros Hg Hlt. unfold next_generation. rewrite u64_id by ulia.
  rewrite (proj2 (Z.eqb_neq _ _)); [done|ulia].
Qed.

Lemma first_free_spec i :
  first_free c = Some i → ∃ x, ca_slots c !! i = Some x ∧ sl_in_use x = false.
Proof.
  clear. unfold first_free. destruct (list_find _ _) as [[j x]|] eqn:E; [|done].
  intros [= <-]. apply list_find_Some in E as (Ej & Hx & _). eauto.
Qed.

(** The slot array after a registration. *)
Lemma register_slots i x0 dep new (dependency : option (nat * engine_resource_slot)) :
  ca_slots c !! i = Some x0 → sl_in_use x0 = false → sl_in_use new = true →
  re_dependency (sl_summary new) = dep →
  dependency = (if handle_present dep then resource_slot_locked c dep else None) →
  (handle_present dep = true → is_Some dependency) →
  let slots' := match dependency with
    | Some (d, _) => alter (λ slot, slot <| sl_summary ::= λ e, e <| re_dependent_count ::= λ n, u64 (n + 1) |> |>) d
                       (<[i := new]> (ca_slots c))
    | None => <[i := new]> (ca_slots c)
    end in
  slots' !! i = Some new ∧ length slots' = length (ca_slots c) ∧
  framed_off i (λ g, counts_dependent g new) (ca_slots c) slots' ∧
  (∀ g, total (counts_dependent g <$> slots') = total (counts_dependent g <$> ca_slots c) + counts_dependent g new) ∧
  (∀ summary, accounts (<[i := new]> (ca_slots c)) summary → accounts slots' summary).
Proof using inv.
  intros Ei U0 Un Hdep -> Hsome. pose proof (lookup_lt_Some _ _ _ Ei) as Hlt.
  assert (Hzero : ∀ g, counts_dependent g x0 = 0) by (intros g; unfold counts_dependent; by rewrite U0).
  destruct (handle_present dep) eqn:Ep.
  - destruct (Hsome eq_refl) as [[j d] Ed]. rewrite Ed. cbn zeta.
    apply inv_lookup in Ed as Hd. pose proof Hd as (Ej & Uj & Hj).
    assert (Hji : j ≠ i) by congruence.
    pose proof (inv_slot _ _ _ Hd) as [T1 T2 T3 T4 T5 T6 T7 T8].
    set (f := λ e, e <| re_dependent_count ::= λ n, u64 (n + 1) |>).
    assert (Huniq : ∀ k z, k ≠ i → ca_slots c !! k = Some z → sl_in_use z = true →
      re_handle (sl_summary z) = dep → k = j).
    { intros k z Hk Ez Uz Hz. by apply (live_at_unique _ _ _ _ _ _ k j z d (ri_slots _ inv) ltac:(done) Hd). }
    assert (Hdelta : re_dependent_count (f (sl_summary d)) = re_dependent_count (sl_summary d) + 1).
    { cbn. apply u64_id. rewrite T5.
      assert (Hl : Z.of_nat (length (ca_slots c)) ≤ 1024) by (destruct inv as [_ ? ? _ _ _]; cbn in *; lia).
      pose proof (count_range (counts_dependent (re_handle (sl_summary d))) (ca_slots c)
        (λ z, proj2 (proj2 (proj2 (counts_range z 0 YVEX_ENGINE_RESOURCE_READY _)))) Hl). ulia. }
    destruct (framed_off_alter (ca_slots c) i j d f new dep 1
      Ej Hji Hj Uj Huniq Hdelta (λ e, ltac:(done))) as [Hfr _].
    assert (Ej' : <[i := new]> (ca_slots c) !! j = Some d) by (by rewrite list_lookup_insert_ne).
    split; [by rewrite list_lookup_alter_ne, list_lookup_insert_eq|].
    split; [by rewrite length_alter, length_insert|]. split; [|split].
    + eapply framed_off_ext; [|exact Hfr]. intros g. unfold counts_dependent. rewrite Un, Hdep. cbn.
      by case_bool_decide.
    + intros g. rewrite (alter_entry _ j d f Ej'), (dependents_insert_same _ j d) by done.
      rewrite (total_insert _ _ i x0 new Ei), Hzero. lia.
    + intros summary. by apply accounts_alter.
  - cbn zeta. split; [by rewrite list_lookup_insert_eq|]. split; [by rewrite length_insert|].
    split; [|split; [|done]].
    + intros k Hk. rewrite list_lookup_insert_ne by done. destruct (ca_slots c !! k) as [z|] eqn:Ez; [|done].
      cbn. split; [done|]. split; [done|]. split; [done|]. intros Uz.
      unfold counts_dependent. rewrite bool_decide_eq_false_2, andb_false_r; [lia|].
      rewrite Hdep. intros Hz. destruct (sw_handle _ _ _ _ _ _ _ (inv_slot _ k z ltac:(done))) as (g & Hg & ?).
      rewrite Hz, Hg in Ep. unfold handle_present in Ep. cbn in Ep. guards. lia.
    + intros g. rewrite (total_insert _ _ i x0 new Ei), Hzero. lia.
Qed.
(** The fresh entry is well formed in the new slot array. *)
Lemma register_fresh i slots' new g :
  g = ca_next_generation c + 1 → slots' !! i = Some new →
  re_handle (sl_summary new) = Handle (rs_engine_generation (ca_summary c)) (Z.of_nat i + 1) g →
  framed_off i (λ g, counts_dependent g new) (ca_slots c) slots' →
  (∀ g, total (counts_dependent g <$> slots') = total (counts_dependent g <$> ca_slots c) + counts_dependent g new) →
  (∃ x0, ca_slots c !! i = Some x0 ∧ sl_in_use x0 = false) →
  (handle_present (re_dependency (sl_summary new)) = true →
     ∃ j d, live_at (ca_slots c) (re_dependency (sl_summary new)) j d) →
  0 ≤ re_kind (sl_summary new) < YVEX_ENGINE_RESOURCE_KIND_COUNT →
  Forall (λ f, 0 ≤ f (re_bytes (sl_summary new))) byte_fields →
  re_consumer_count (sl_summary new) = 0 → re_dependent_count (sl_summary new) = 0 →
  re_state (sl_summary new) ≠ YVEX_ENGINE_RESOURCE_RELEASING →
  slot_wf (rs_engine_generation (ca_summary c)) g slots' b r i new.
Proof using inv.
  intros -> Ei Hh Hfr Htot (x0 & Ex0 & U0) Hdep Hk Hb Hcc Hdc Hst.
  set (h := re_handle (sl_summary new)) in *.
  destruct (inv_fresh h) as (Hno & Hnb & Hnr & H0); [rewrite Hh; cbn; lia|].
  pose proof (ri_next _ inv) as Hnext. cbn in Hnext.
  assert (Hdep' : handle_present (re_dependency (sl_summary new)) = true →
    ∃ j d, live_at slots' (re_dependency (sl_summary new)) j d ∧
      h_generation (re_dependency (sl_summary new)) < h_generation h).
  { intros Hp. destruct (Hdep Hp) as (j & d & Hl). pose proof Hl as (Ej & Uj & Hj).
    destruct (sw_handle _ _ _ _ _ _ _ (inv_slot _ _ _ Hl)) as (g & Hg & ?).
    assert (j ≠ i) as Hji by congruence.
    destruct (framed_off_to _ _ _ _ _ _ Hfr Hji Ej) as (y & Ey & (U & Hy & _) & _).
    exists j, y. split; [split; [done|split; [by rewrite U|by rewrite Hy]]|].
    rewrite Hh, <- Hj, Hg. cbn. lia. }
  constructor; rewrite ?Hcc, ?Hdc; fold h; try done.
  - exists (ca_next_generation c + 1). split; [done|ulia].
  - destruct (decide (occurrences h b = 0)) as [->|Hn]; [done|]. by apply occurrences_pos in Hn.
  - rewrite Htot, H0. unfold counts_dependent. rewrite bool_decide_eq_false_2; [by rewrite andb_false_r|].
    intros Hself. destruct Hdep' as (j & d & _ & Hlt); [|rewrite Hself in Hlt; lia].
    rewrite Hself, Hh. unfold handle_present. cbn. rewrite (proj2 (Z.eqb_neq (ca_next_generation c + 1) 0)).
    + by rewrite !orb_true_r.
    + ulia.
  - tauto.
Qed.

Lemma inv_register request c' h :
  request_in_range request → ca_next_generation c < ULLONG_MAX →
  yvex_runtime_resource_register c request = Done (c', h) → resource_inv (ResourceSystem c' b r).
Proof using inv.
  intros (Rk & Rb & Rp) Hmax. unfold yvex_runtime_resource_register.
  destruct (resource_request_valid request) eqn:Ev; cbn [negb]; [|done].
  destruct (rs_closing (ca_summary c)); [done|]. cbv zeta.
  set (dependency := if handle_present (rr_dependency request)
                     then resource_slot_locked c (rr_dependency request) else None).
  split_guard; [done|]. destruct (first_free c) as [i|] eqn:Ei; [|done].
  apply first_free_spec in Ei as (x0 & Ex0 & U0).
  destruct (resource_bytes_add _ _) as [totals|] eqn:Et; [|done].
  destruct (yvex_core_u64_add _ _) as [prep|]; [|done]. intros [= <- _].
  pose proof inv as [I1 I2 I3 I4 I5 I6]. cbn [sys_catalog sys_borrowed sys_releasing] in *.
  destruct (inv_counts _ inv) as (C1 & C2 & C3 & _). cbn [sys_catalog] in C1, C2, C3.
  rewrite next_generation_succ by done.
  match goal with |- context [ResourceSlot ?e ?v ?cb true] => set (new := ResourceSlot e v cb true) end.
  assert (Hkind : rr_kind request < YVEX_ENGINE_RESOURCE_KIND_COUNT).
  { unfold resource_request_valid in Ev. guards_in Ev. lia. }
  assert (Hready : handle_present (rr_dependency request) = true → ∃ j d, dependency = Some (j, d) ∧
    live_at (ca_slots c) (rr_dependency request) j d ∧ re_state (sl_summary d) = YVEX_ENGINE_RESOURCE_READY).
  { intros Hp. rewrite Hp in E. cbn in E. destruct dependency as [[j d]|] eqn:Ed; [|done].
    unfold dependency in Ed. rewrite Hp in Ed. exists j, d. split; [done|].
    split; [by apply inv_lookup|]. by apply negb_false_iff, bool_decide_eq_true in E. }
  destruct (register_slots i x0 (rr_dependency request) new dependency) as (N1 & N2 & N3 & N4 & N5);
    [done..|intros Hp; destruct (Hready Hp) as (? & ? & -> & _); eauto|].
  rewrite put_dependency. cbv zeta in N1, N2, N3, N4, N5.
  change (ca_slots (c <| ca_next_generation := ca_next_generation c + 1 |>
    <| ca_slots ::= <[i := new]> |>)) with (<[i := new]> (ca_slots c)).
  match type of N1 with ?l !! _ = _ => set (slots' := l) in * end.
  match goal with |- resource_inv (ResourceSystem ?k b r) =>
    let summary := eval cbn in (ca_summary k) in
    change k with (ResourceCatalog slots' summary (ca_next_generation c + 1))
  end. clearbody slots'.
  constructor; cbn [sys_catalog sys_borrowed sys_releasing]; cbn.
  - done.
  - done.
  - by rewrite N2.
  - ulia.
  - eapply (slots_wf_reshape _ _ (ca_next_generation c + 1) _ _ b r r i _ I5 ltac:(lia) N3 N4); try done.
    + intros h' x (Ex & Ux & _). congruence.
    + intros h' Hr. split; [done|]. intros x (Ex & Ux & _). congruence.
    + apply I5.
    + intros h' j d Hl Hpos. unfold counts_dependent in Hpos. cbn in Hpos. case_bool_decide as Hd; [|lia].
      subst h'. destruct (handle_present (rr_dependency request)) eqn:Ep.
      * destruct (Hready eq_refl) as (j' & d' & _ & Hl' & ?).
        by destruct (live_at_unique _ _ _ _ _ _ _ _ _ _ I5 Hl Hl') as [_ ->].
      * destruct (sw_handle _ _ _ _ _ _ _ (inv_slot _ _ _ Hl)) as (g & Hg & ?).
        destruct Hl as (_ & _ & Hh). rewrite <- Hh, Hg in Ep. unfold handle_present in Ep. cbn in Ep.
        guards. lia.
    + intros y Ey _. rewrite N1 in Ey. injection Ey as <-.
      eapply register_fresh; try done.
      * by exists x0.
      * intros Hp. destruct (Hready Hp) as (j & d & _ & ? & _). by exists j, d.
      * eapply Forall_impl; [exact Rb|]. simpl. intros; ulia.
      * cbn. by destruct (rr_ready request).
  - apply N5. pose proof I6 as [A1 A2 A3 A4 A5].
    assert (Z0 : counts_live x0 = 0 ∧ (∀ st, counts_state st x0 = 0) ∧ (∀ k, counts_kind k x0 = 0) ∧
      ∀ f, counts_bytes f x0 = 0).
    { unfold counts_live, counts_state, counts_kind, counts_bytes. by rewrite U0. }
    destruct Z0 as (Z1 & Z2 & Z3 & Z4).
    eapply (accounts_insert _ i x0 new (ca_summary c)); try done; cbn; rewrite ?Z1, ?Z2.
    + rewrite u64_id by ulia. unfold counts_live. cbn. lia.
    + rewrite counts_state_here by done. cbn.
      destruct (rr_ready request); case_decide; try done; rewrite u64_id by ulia; lia.
    + rewrite counts_state_here by done. cbn. destruct (rr_ready request); case_decide; try done; lia.
    + rewrite A4, alter_table by (unfold YVEX_ENGINE_RESOURCE_KIND_COUNT in *; lia).
      apply list_fmap_ext. intros _ k _. rewrite Z3.
      assert (Hnew : counts_kind k new = if rr_kind request =? k then 1 else 0) by done.
      rewrite Hnew, (Z.eqb_sym k). destruct (Z.eqb_spec (rr_kind request) k); [|lia].
      assert (0 ≤ total (counts_kind k <$> ca_slots c) ≤ 1024).
      { apply count_range; [|lia]. intros z. apply (counts_range z _ YVEX_ENGINE_RESOURCE_READY handle_zero). }
      rewrite u64_id by ulia. lia.
    + assert (Hu : Forall (λ f, is_u64 (f (rs_bytes (ca_summary c)))) byte_fields).
      { eapply Forall_impl; [exact A5|]. simpl. tauto. }
      pose proof (resource_bytes_add_fields _ _ _ Hu Rb Et) as Hsum.
      eapply Forall_impl; [exact Hsum|]. intros f [Hf ?]. split; [|done]. rewrite Z4, Hf.
      unfold counts_bytes. cbn. lia.
Qed.
End preservation.

Lemma inv_closing c b r :
  resource_inv (ResourceSystem c b r) →
  resource_inv (ResourceSystem (c <| ca_summary ::= λ summary, summary <| rs_closing := true |> |>) b r).
Proof. intros [I1 I2 I3 I4 I5 [A1 A2 A3 A4 A5]]. constructor; cbn in *; try done. Qed.

Lemma inv_release_finish c b r r' h evict rc c' status :
  resource_inv (ResourceSystem c b r) → r ≡ₚ h :: r' →
  resource_release_finish c h evict rc = (c', status) →
  resource_inv (ResourceSystem c' b r') ∧ status = rc.
Proof.
  intros inv Hr. unfold resource_release_finish.
  destruct (inv_releasing c b r inv h) as (i & x & Hl & Hst & _).
  { rewrite Hr. apply list_elem_of_here. }
  rewrite (inv_lookup_live c b r inv h i x Hl). case_decide as Erc.
  - intros [= <- <-]. split; [|done]. by eapply inv_release_done.
  - intros [= <- <-]. split; [|done]. by eapply inv_release_failed.
Qed.

Lemma resource_step_inv s s' : resource_inv s → resource_step s s' → resource_inv s'.
Proof.
  intros inv Hstep. destruct Hstep.
  - by eapply inv_register.
  - by eapply inv_publish.
  - by eapply inv_acquire.
  - by eapply inv_drop.
  - by eapply inv_release_begin.
  - by eapply inv_release_finish.
  - by apply inv_closing.
Qed.

Lemma total_replicate_zero {A} (f : A → Z) n x : f x = 0 → total (f <$> replicate n x) = 0.
Proof. intros E. apply total_zero. by intros y [-> _]%elem_of_replicate. Qed.

Lemma open_inv memory_ok generation identity capacity c :
  0 ≤ capacity → yvex_runtime_resource_catalog_open memory_ok generation identity capacity = Done c →
  resource_inv (ResourceSystem c [] []).
Proof.
  intros Hcap0. unfold yvex_runtime_resource_catalog_open. split_guard; [done|]. split_guard; [done|].
  guards. intros [= <-]. constructor; cbn.
  - done.
  - lia.
  - rewrite length_replicate. lia.
  - ulia.
  - constructor; [|by intros h ?%not_elem_of_nil..|constructor].
    intros i x Ex Ux. apply lookup_replicate in Ex as [-> _]. done.
  - constructor; cbn; rewrite ?total_replicate_zero; try done.
    + change (seqZ 0 10) with [0; 1; 2; 3; 4; 5; 6; 7; 8; 9]. cbn. by rewrite !total_replicate_zero.
    + forall_cells; cbn; rewrite total_replicate_zero by done; split; (done || ulia).
Qed.

Lemma resource_reachable_inv memory_ok generation identity capacity s :
  0 ≤ capacity → resource_reachable memory_ok generation identity capacity s → resource_inv s.
Proof.
  intros Hcap (c & Hc & Hs). apply open_inv in Hc; [|done].
  induction Hs as [|s1 s2 s3 H12 _ IH]; [done|]. by eapply IH, resource_step_inv.
Qed.

(** ** Stale handles *)

Lemma live_alter_back slots f j h i y :
  (∀ e, re_handle (f e) = re_handle e) →
  live_at (alter (λ slot, slot <| sl_summary ::= f |>) j slots) h i y →
  ∃ x, live_at slots h i x ∧ sl_value y = sl_value x.
Proof.
  intros Hf (E & U & H). rewrite list_lookup_alter in E. case_decide as Eij; [subst j|by exists y].
  destruct (slots !! i) as [x|] eqn:Ex; [|done]. injection E as <-. exists x. cbn in *.
  split; [|done]. split; [done|]. split; [done|]. by rewrite Hf in H.
Qed.

Ltac live_back f Hl :=
  cbn in Hl;
  match type of Hl with live_at (alter _ ?d ?slots) ?h ?i ?y =>
    pose proof (live_alter_back slots f d h i y (λ e, eq_refl) Hl) as Hback
  end.

(** What is live after a step was live before with the same value, or is newly issued. *)
Lemma resource_step_live s s' h i y :
  resource_inv s → resource_step s s' → live_at (ca_slots (sys_catalog s')) h i y →
  (∃ x, live_at (ca_slots (sys_catalog s)) h i x ∧ sl_value y = sl_value x) ∨
  ca_next_generation (sys_catalog s) < h_generation h.
Proof.
  intros inv Hstep Hl. destruct Hstep; cbn in *.
  - unfold yvex_runtime_resource_register in *. repeat (split_guard; [done|]).
    destruct (first_free c) as [k|] eqn:Ek; [|done].
    destruct (resource_bytes_add _ _) as [bytes|]; [|done]. destruct (yvex_core_u64_add _ _) as [prep|]; [|done].
    cbv zeta in H1. rewrite put_dependency in H1. injection H1 as <- _.
    apply first_free_spec in Ek as (x0 & Ek & _). pose proof (lookup_lt_Some _ _ _ Ek) as Hlt.
    assert (Hins : ∀ new y, re_handle (sl_summary new) = Handle (rs_engine_generation (ca_summary c))
        (Z.of_nat k + 1) (next_generation (ca_next_generation c)) →
      live_at (<[k := new]> (ca_slots c)) h i y →
      (∃ x, live_at (ca_slots c) h i x ∧ sl_value y = sl_value x) ∨ ca_next_generation c < h_generation h).
    { intros new z Hnew (Ez & Uz & Hz). destruct (decide (k = i)) as [->|Hne].
      - rewrite list_lookup_insert_eq in Ez by done. injection Ez as <-. right.
        rewrite <- Hz, Hnew. cbn. rewrite next_generation_succ by (apply inv || done). lia.
      - rewrite list_lookup_insert_ne in Ez by done. left. by exists z. }
    cbn in Hl. destruct (if handle_present _ then _ else _) as [[d d']|].
    + live_back (λ e : yvex_engine_resource_entry, e <| re_dependent_count ::= λ n, u64 (n + 1) |>) Hl.
      destruct Hback as (z & Hz & ->). by eapply Hins; [|exact Hz].
    + by eapply Hins; [|exact Hl].
  - left. unfold yvex_runtime_resource_publish_ready in *. destruct (resource_slot_locked _ _) as [[k x]|]; [|done].
    split_guard; [done|]. injection H as <-.
    by live_back (λ e : yvex_engine_resource_entry, e <| re_state := YVEX_ENGINE_RESOURCE_READY |>) Hl.
  - left. unfold yvex_runtime_resource_acquire in *. destruct (resource_slot_locked _ _) as [[k x]|]; [|done].
    cbv zeta in H. split_guard; [done|]. injection H as <- _.
    by live_back (λ e : yvex_engine_resource_entry, e <| re_consumer_count ::= λ n, n + 1 |>
                                       <| re_acquisition_count ::= λ n, n + 1 |>) Hl.
  - left. unfold yvex_runtime_resource_drop in *. destruct (resource_slot_locked _ _) as [[k x]|]; [|done].
    split_guard; [done|]. injection H0 as <-.
    by live_back (λ e : yvex_engine_resource_entry, e <| re_consumer_count ::= λ n, n - 1 |>) Hl.
  - left. unfold resource_release_begin in *. split_guard; [done|].
    destruct (resource_slot_locked _ _) as [[k x]|]; [|done]. cbv zeta in H. split_guard; [done|].
    injection H as <- _. by live_back (λ e : yvex_engine_resource_entry, e <| re_state := YVEX_ENGINE_RESOURCE_RELEASING |>) Hl.
  - left. unfold resource_release_finish in *. destruct (resource_slot_locked _ _) as [[k x]|]; [|injection H0 as <- _; by exists y].
    case_decide; injection H0 as <- _.
    + unfold resource_remove_locked in Hl. cbn in Hl. destruct Hl as (Ey & Uy & Hy).
      destruct (decide (k = i)) as [->|Hne].
      { destruct (decide (i < length (ca_slots (resource_dependency_drop_locked c (sl_summary x))))%nat) as [Hlt|Hge].
        - rewrite list_lookup_insert_eq in Ey by done. by injection Ey as <-.
        - rewrite (lookup_ge_None_2 (<[i := slot_zero]> _)) in Ey by (rewrite length_insert; lia). done. }
      rewrite list_lookup_insert_ne in Ey by done.
      unfold resource_dependency_drop_locked in Ey. split_guard; [by exists y|].
      destruct (resource_slot_locked c _) as [[d d']|]; [|by exists y]. split_guard; [by exists y|].
      apply (live_alter_back (ca_slots c)
        (λ e, e <| re_dependent_count := re_dependent_count e - 1 |>) d); [done|]. by split.
    + by live_back (λ e : yvex_engine_resource_entry, e <| re_state := YVEX_ENGINE_RESOURCE_FAILED |>) Hl.
  - left. by exists y.
Qed.

Lemma dependency_drop_next c e :
  ca_next_generation (resource_dependency_drop_locked c e) = ca_next_generation c.
Proof.
  unfold resource_dependency_drop_locked. destruct (negb _); [done|].
  destruct (resource_slot_locked _ _) as [[j d]|]; [|done]. by destruct (_ =? 0).
Qed.

Lemma resource_step_next s s' :
  resource_inv s → resource_step s s' →
  ca_next_generation (sys_catalog s) ≤ ca_next_generation (sys_catalog s').
Proof.
  intros inv Hstep. destruct Hstep; cbn in *.
  - unfold yvex_runtime_resource_register in *. repeat (split_guard; [done|]).
    destruct (first_free c) as [k|]; [|done].
    destruct (resource_bytes_add _ _); [|done]. destruct (yvex_core_u64_add _ _); [|done].
    cbv zeta in H1. rewrite put_dependency in H1. injection H1 as <- _. cbn.
    rewrite next_generation_succ by (apply inv || done). lia.
  - unfold yvex_runtime_resource_publish_ready in *. destruct (resource_slot_locked _ _) as [[k x]|]; [|done].
    split_guard; [done|]. by injection H as <-.
  - unfold yvex_runtime_resource_acquire in *. destruct (resource_slot_locked _ _) as [[k x]|]; [|done].
    cbv zeta in H. split_guard; [done|]. by injection H as <- _.
  - unfold yvex_runtime_resource_drop in *. destruct (resource_slot_locked _ _) as [[k x]|]; [|done].
    split_guard; [done|]. by injection H0 as <-.
  - unfold resource_release_begin in *. split_guard; [done|].
    destruct (resource_slot_locked _ _) as [[k x]|]; [|done]. cbv zeta in H. split_guard; [done|].
    by injection H as <- _.
  - unfold resource_release_finish in *. destruct (resource_slot_locked _ _) as [[k x]|]; [|by injection H0 as <- _].
    case_decide; injection H0 as <- _; [|done]. cbn. by rewrite dependency_drop_next.
  - done.
Qed.

Lemma resource_steps_live s s' h i y :
  resource_inv s → rtc resource_step s s' → live_at (ca_slots (sys_catalog s')) h i y →
  h_generation h ≤ ca_next_generation (sys_catalog s) →
  ∃ x, live_at (ca_slots (sys_catalog s)) h i x ∧ sl_value y = sl_value x.
Proof.
  intros inv Hs. revert y. induction Hs as [s|s1 s2 s3 H12 H23 IH]; intros y Hl Hg; [by exists y|].
  destruct (IH (resource_step_inv _ _ inv H12) y Hl) as (x & Hx & ->).
  { pose proof (resource_step_next _ _ inv H12). lia. }
  destruct (resource_step_live _ _ h i x inv H12 Hx) as [?|]; [done|lia].
Qed.

(** ** Closing *)

Lemma close_candidate_none c :
  (∀ x, x ∈ ca_slots c → sl_in_use x && (re_consumer_count (sl_summary x) =? 0)
                          && (re_dependent_count (sl_summary x) =? 0) = false) →
  close_candidate c = handle_zero.
Proof.
  intros H. unfold close_candidate. destruct (list_find _ _) as [[i x]|] eqn:E; [|done].
  apply list_find_Some in E as (Ex & Hx & _). apply list_elem_of_lookup_2 in Ex.
  rewrite elem_of_reverse in Ex. rewrite (H x Ex) in Hx. done.
Qed.

Lemma close_candidate_some c x :
  x ∈ ca_slots c → sl_in_use x = true → re_consumer_count (sl_summary x) = 0 →
  re_dependent_count (sl_summary x) = 0 →
  ∃ i y, ca_slots c !! i = Some y ∧ sl_in_use y = true ∧ re_consumer_count (sl_summary y) = 0 ∧
    re_dependent_count (sl_summary y) = 0 ∧ close_candidate c = re_handle (sl_summary y).
Proof.
  intros Hx Ux Cx Dx. unfold close_candidate.
  destruct (list_find _ (reverse (ca_slots c))) as [[i y]|] eqn:E.
  - apply list_find_Some in E as (Ey & Hy & _). apply list_elem_of_lookup_2 in Ey.
    rewrite elem_of_reverse in Ey. apply list_elem_of_lookup in Ey as [j Ey]. exists j, y. guards_in Hy. done.
  - apply list_find_None in E. rewrite Forall_forall in E. destruct (E x).
    + by rewrite elem_of_reverse.
    + by rewrite Ux, Cx, Dx.
Qed.

(** Some live slot has no dependents: dependencies point to older generations. *)
Lemma youngest_idle c :
  resource_inv (ResourceSystem c [] []) → (∃ x, x ∈ ca_slots c ∧ sl_in_use x = true) →
  ∃ x, x ∈ ca_slots c ∧ sl_in_use x = true ∧ re_consumer_count (sl_summary x) = 0 ∧
       re_dependent_count (sl_summary x) = 0.
Proof.
  intros inv Hsome. pose proof (ri_slots _ inv) as Hw. cbn in Hw.
  assert (Hmax : ∃ m, m ∈ ca_slots c ∧ sl_in_use m = true ∧ ∀ x, x ∈ ca_slots c → sl_in_use x = true →
    h_generation (re_handle (sl_summary x)) ≤ h_generation (re_handle (sl_summary m))).
  { clear - Hsome. induction (ca_slots c) as [|a l IH]; [by destruct Hsome as (x & ?%not_elem_of_nil & _)|].
    destruct (decide (Exists (λ x, sl_in_use x = true) l)) as [Hl|Hl]; rewrite Exists_exists in Hl.
    - destruct (IH Hl) as (m & Hm & Um & Hmax).
      destruct (sl_in_use a && (h_generation (re_handle (sl_summary m)) <? h_generation (re_handle (sl_summary a)))) eqn:E.
      + guards. exists a. split; [apply list_elem_of_here|]. split; [done|].
        intros x [->|Hx]%elem_of_cons Ux; [lia|]. specialize (Hmax x Hx Ux). lia.
      + exists m. split; [by apply list_elem_of_further|]. split; [done|].
        intros x [->|Hx]%elem_of_cons Ux; [|by apply Hmax]. rewrite Ux in E. cbn in E. guards. lia.
    - destruct Hsome as (x & [->|Hx]%elem_of_cons & Ux); [|by destruct Hl; exists x].
      exists a. split; [apply list_elem_of_here|]. split; [done|].
      intros y [->|Hy]%elem_of_cons Uy; [done|]. by destruct Hl; exists y. }
  destruct Hmax as (m & Hm & Um & Hmax). exists m. split; [done|]. split; [done|].
  pose proof Hm as [i Em]%list_elem_of_lookup.
  destruct (sws_slots _ _ _ _ _ Hw i m Em Um) as [S1 S2 S3 S4 S5 S6 S7 S8]. split; [by rewrite S4|].
  rewrite S5. apply total_zero. intros x Hx. unfold counts_dependent. destruct (sl_in_use x) eqn:Ux; [|done].
  cbn. case_bool_decide as Hd; [|done]. pose proof Hx as [j Ex]%list_elem_of_lookup.
  destruct (sw_dependency _ _ _ _ _ _ _ (sws_slots _ _ _ _ _ Hw j x Ex Ux)) as (k & d & _ & Hlt).
  - rewrite Hd. destruct S1 as (g & -> & ?). unfold handle_present. cbn.
    rewrite (proj2 (Z.eqb_neq g 0)) by lia. by rewrite !orb_true_r.
  - specialize (Hmax x Hx Ux). rewrite Hd in Hlt. lia.
Qed.

(** One round of the close loop: release an idle slot whose callback succeeds. *)
Lemma close_round answer c i x :
  resource_inv (ResourceSystem c [] []) → (∀ callback, answer callback = YVEX_OK) →
  ca_slots c !! i = Some x → sl_in_use x = true → re_consumer_count (sl_summary x) = 0 →
  re_dependent_count (sl_summary x) = 0 →
  handle_present (re_handle (sl_summary x)) = true ∧
  ∃ c', resource_release answer c (re_handle (sl_summary x)) false = (c', YVEX_OK) ∧
    resource_inv (ResourceSystem c' [] []) ∧
    rs_resource_count (ca_summary c') = rs_resource_count (ca_summary c) - 1.
Proof.
  intros inv Hok Ex Ux Cx Dx. set (h := re_handle (sl_summary x)).
  assert (Hl : live_at (ca_slots c) h i x) by done.
  pose proof (inv_slot c [] [] inv h i x Hl) as [(g & Hg & Hgr) _ _ _ _ S6 _ _]. fold h in Hg.
  assert (Hp : handle_present h = true).
  { rewrite Hg. unfold handle_present. cbn. rewrite (proj2 (Z.eqb_neq g 0)) by lia. by rewrite !orb_true_r. }
  split; [done|]. destruct (resource_release_begin c h false) as [[c1 cb]|st why] eqn:Eb.
  2:{ unfold resource_release_begin in Eb. rewrite Hp, (inv_lookup_live c [] [] inv h i x Hl) in Eb.
      cbn [negb] in Eb. cbv zeta in Eb. rewrite Cx, Dx in Eb. cbn in Eb. rewrite orb_false_r in Eb.
      rewrite bool_decide_eq_false_2 in Eb; [done|]. intros Hst. apply S6 in Hst.
      by apply not_elem_of_nil in Hst. }
  pose proof (inv_release_begin c [] [] inv h false c1 cb Eb) as inv1.
  destruct (resource_release_finish c1 h false YVEX_OK) as [c2 st] eqn:Ef.
  destruct (inv_release_finish c1 [] [h] [] h false YVEX_OK c2 st inv1 (Permutation_refl _) Ef) as [inv2 ->].
  exists c2. split; [|split; [done|]].
  - unfold resource_release. rewrite Eb. cbv zeta.
    replace (match cb with Some k => answer k | None => YVEX_OK end) with YVEX_OK by (by destruct cb; rewrite ?Hok).
    done.
  - assert (Hc1 : rs_resource_count (ca_summary c1) = rs_resource_count (ca_summary c)).
    { unfold resource_release_begin in Eb. rewrite Hp in Eb. cbn [negb] in Eb.
      destruct (resource_slot_locked c h) as [[k z]|]; [|done]. cbv zeta in Eb. split_guard; [done|].
      by injection Eb as <- _. }
    destruct (inv_releasing c1 [] [h] inv1 h (list_elem_of_here _ _)) as (k & z & Hz & Hst & _).
    unfold resource_release_finish in Ef. rewrite (inv_lookup_live c1 [] [h] inv1 h k z Hz) in Ef.
    rewrite decide_True in Ef by done. injection Ef as <-.
    destruct (inv_counts _ inv1) as (Hr & _ & _ & H4 & _). pose proof Hz as (Ez & Uz & _).
    destruct (H4 k z Ez Uz) as (H1 & _). cbn [sys_catalog] in Hr, H1.
    destruct (remove_slots c1 [] [h] inv1 h k z false Hz) as (s1 & _ & _ & _ & _ & Hsum & _).
    unfold resource_remove_locked. cbn. rewrite Hsum, u64_id by ulia. lia.
Qed.

Lemma resource_close_loop_ok fuel answer c :
  resource_inv (ResourceSystem c [] []) → (∀ callback, answer callback = YVEX_OK) →
  rs_resource_count (ca_summary c) < Z.of_nat fuel →
  resource_close_loop fuel answer c = (None, YVEX_OK).
Proof.
  revert c. induction fuel as [|fuel IH]; intros c inv Hok Hfuel.
  - pose proof (inv_counts _ inv) as (? & _). cbn in *. lia.
  - cbn [resource_close_loop].
    destruct (decide (Exists (λ x, sl_in_use x = true) (ca_slots c))) as [Hl|Hl]; rewrite Exists_exists in Hl.
    + destruct (youngest_idle c inv Hl) as (x & Hx & Ux & Cx & Dx).
      destruct (close_candidate_some c x Hx Ux Cx Dx) as (i & y & Ey & Uy & Cy & Dy & ->).
      destruct (close_round answer c i y inv Hok Ey Uy Cy Dy) as (-> & c' & -> & inv' & Hcount).
      cbn [negb]. rewrite decide_True by done. apply IH; [done|done|lia].
    + rewrite close_candidate_none.
      * cbn. destruct (ri_accounts _ inv) as [A1 _ _ _ _]. cbn in A1. rewrite A1, total_zero; [done|].
        intros x Hx. unfold counts_live. destruct (sl_in_use x) eqn:Ux; [|done]. by destruct Hl; exists x.
      * intros x Hx. destruct (sl_in_use x) eqn:Ux; [|done]. by destruct Hl; exists x.
Qed.

(** * Properties *)

(** C37: Under any interleaving of callers, the resource catalogue protects what is borrowed. In every
    reachable state a borrowed handle resolves to a ready slot whose consumer count is exactly the
    number of borrows, and releasing or evicting it is refused; a handle whose release callback runs
    resolves to a slot in state RELEASING without consumers or dependents, acquiring it and beginning a
    second release are refused, and no handle is being released twice; the dependency of a live
    resource is live and older. *)
Theorem resource_catalog_safe memory_ok generation identity capacity s :
  0 ≤ capacity → resource_reachable memory_ok generation identity capacity s →
  let c := sys_catalog s in
  (∀ h, h ∈ sys_borrowed s → ∃ i x, resource_slot_locked c h = Some (i, x) ∧
     re_state (sl_summary x) = YVEX_ENGINE_RESOURCE_READY ∧
     re_consumer_count (sl_summary x) = occurrences h (sys_borrowed s) ∧
     ∀ evict, outcome_status (resource_release_begin c h evict) = YVEX_ERR_STATE) ∧
  (∀ h, h ∈ sys_releasing s → ∃ i x, resource_slot_locked c h = Some (i, x) ∧
     re_state (sl_summary x) = YVEX_ENGINE_RESOURCE_RELEASING ∧
     re_consumer_count (sl_summary x) = 0 ∧ re_dependent_count (sl_summary x) = 0 ∧
     outcome_status (yvex_runtime_resource_acquire c h) = YVEX_ERR_STATE ∧
     ∀ evict, outcome_status (resource_release_begin c h evict) = YVEX_ERR_STATE) ∧
  NoDup (sys_releasing s) ∧
  (∀ h i x, resource_slot_locked c h = Some (i, x) →
     handle_present (re_dependency (sl_summary x)) = true →
     is_Some (resource_slot_locked c (re_dependency (sl_summary x))) ∧
     h_generation (re_dependency (sl_summary x)) < h_generation h).
Proof.
  intros Hcap Hs c. pose proof (resource_reachable_inv _ _ _ _ s Hcap Hs) as inv.
  destruct s as [c0 b r]. cbn in c. subst c. cbn [sys_catalog sys_borrowed sys_releasing].
  assert (Hpresent : ∀ h i x, live_at (ca_slots c0) h i x → handle_present h = true).
  { intros h i x Hl. destruct (sw_handle _ _ _ _ _ _ _ (inv_slot c0 b r inv h i x Hl)) as (g & Hg & ?).
    destruct Hl as (_ & _ & <-). rewrite Hg. unfold handle_present. cbn.
    rewrite (proj2 (Z.eqb_neq g 0)) by lia. by rewrite !orb_true_r. }
  split; [|split; [|split]].
  - intros h Hb. destruct (sws_borrowed _ _ _ _ _ (ri_slots _ inv) h Hb) as (i & x & Hl).
    exists i, x. pose proof (inv_lookup_live c0 b r inv h i x Hl) as Elook. split; [done|].
    pose proof (inv_slot c0 b r inv h i x Hl) as [_ _ _ S4 _ _ S7 _].
    rewrite (proj2 (proj2 Hl)) in S4. apply occurrences_pos in Hb as Hocc.
    split; [apply S7; left; by rewrite S4|]. split; [done|]. intros evict.
    unfold resource_release_begin. rewrite (Hpresent h i x Hl), Elook. cbn [negb]. cbv zeta.
    rewrite (proj2 (Z.eqb_neq (re_consumer_count _) 0)) by (by rewrite S4).
    cbn. by rewrite orb_true_r.
  - intros h Hr. destruct (inv_releasing c0 b r inv h Hr) as (i & x & Hl & Hst & Hc & Hd).
    exists i, x. pose proof (inv_lookup_live c0 b r inv h i x Hl) as Elook.
    do 4 (split; [done|]). split.
    + unfold yvex_runtime_resource_acquire. rewrite Elook. cbv zeta. rewrite Hst.
      rewrite bool_decide_eq_false_2 by done. cbn. by rewrite orb_true_r.
    + intros evict. unfold resource_release_begin. rewrite (Hpresent h i x Hl), Elook. cbn [negb]. cbv zeta.
      by rewrite Hst, bool_decide_eq_true_2.
  - apply (ri_slots _ inv).
  - intros h i x Elook Hp. apply (inv_lookup c0 b r inv) in Elook as Hl.
    destruct (sw_dependency _ _ _ _ _ _ _ (inv_slot c0 b r inv h i x Hl) Hp) as (j & d & Hd & Hlt).
    rewrite (inv_lookup_live c0 b r inv _ j d Hd). split; [by eexists|]. by rewrite <- (proj2 (proj2 Hl)).
Qed.

(** A handle names one registration for ever. From any reachable state, a handle that was issued and
    no longer resolves never resolves again, whatever happens later, and a handle that still resolves
    yields the value it was registered with. *)
Theorem resource_handle_never_reused memory_ok generation identity capacity s s' h :
  0 ≤ capacity → resource_reachable memory_ok generation identity capacity s →
  rtc resource_step s s' → h_generation h ≤ ca_next_generation (sys_catalog s) →
  match resource_slot_locked (sys_catalog s') h with
  | None => True
  | Some (i, y) => ∃ x, resource_slot_locked (sys_catalog s) h = Some (i, x) ∧ sl_value y = sl_value x
  end.
Proof.
  intros Hcap Hs Hrun Hg. pose proof (resource_reachable_inv _ _ _ _ s Hcap Hs) as inv.
  assert (inv' : resource_inv s').
  { clear - inv Hrun. induction Hrun as [|s1 s2 s3 H12 _ IH]; [done|]. by eapply IH, resource_step_inv. }
  destruct (resource_slot_locked (sys_catalog s') h) as [[i y]|] eqn:E; [|done].
  destruct s as [c b r], s' as [c' b' r']. cbn in *. apply (inv_lookup c' b' r' inv') in E.
  destruct (resource_steps_live _ _ h i y inv Hrun E Hg) as (x & Hx & Hv).
  exists x. split; [|done]. by apply (inv_lookup_live c b r inv).
Qed.

(** C38: The catalogue's accounting is exact in every reachable state: resource, ready, failed and
    per-kind counts are the numbers of such live slots, each byte counter is the sum over the live
    slots and a 64-bit value, so no subtraction ever wrapped. *)
Theorem resource_accounting_exact memory_ok generation identity capacity s :
  0 ≤ capacity → resource_reachable memory_ok generation identity capacity s →
  accounts (ca_slots (sys_catalog s)) (ca_summary (sys_catalog s)) ∧
  0 ≤ rs_resource_count (ca_summary (sys_catalog s)) ≤ rs_capacity (ca_summary (sys_catalog s)).
Proof.
  intros Hcap Hs. pose proof (resource_reachable_inv _ _ _ _ s Hcap Hs) as [_ _ Hlen _ _ Hacc].
  split; [done|]. destruct Hacc as [-> _ _ _ _]. rewrite <- Hlen. split.
  - apply total_nonneg. intros x _. unfold counts_live. case_match; lia.
  - apply total_le_length. intros x. unfold counts_live. case_match; lia.
Qed.

(** Closing always finishes. When nothing is borrowed and no release is under way, and every
    release callback succeeds, closing the catalogue returns success and frees it, whatever the
    dependencies between the resources: they are never cyclic, so the dependency-cycle refusal of the
    close loop is unreachable. *)
Theorem resource_close_terminates memory_ok generation identity capacity c answer :
  0 ≤ capacity → resource_reachable memory_ok generation identity capacity (ResourceSystem c [] []) →
  (∀ callback, answer callback = YVEX_OK) →
  yvex_runtime_resource_catalog_close answer (Some c) = (None, YVEX_OK).
Proof.
  intros Hcap Hs Hok. pose proof (resource_reachable_inv _ _ _ _ _ Hcap Hs) as inv.
  apply inv_closing in inv as inv'. unfold yvex_runtime_resource_catalog_close. cbv zeta.
  apply resource_close_loop_ok; [done|done|]. destruct (ri_accounts _ inv') as [A1 _ _ _ _].
  cbn in *. rewrite A1.
  pose proof (total_le_length counts_live (ca_slots c)) as Hl.
  assert (total (counts_live <$> ca_slots c) ≤ Z.of_nat (length (ca_slots c))); [|lia].
  apply Hl. intros x. unfold counts_live. case_match; lia.
Qed.

(** * A concrete run *)

(** A base resource, a second one depending on it, the second one borrowed. *)
Definition sample_identity : option string :=
  Some "00112233445566778899aabbccddeeff00112233445566778899aabbccddeeff"%string.

Definition sample_request (name : string) (dependency : yvex_engine_resource_handle) (value : Z)
    : yvex_engine_resource_request :=
  ResourceRequest 0 0 0 0 (Some name) sample_identity None None dependency
    (ResourceBytes 100 20 0 0 0 0 3) 7 value (Some 1) true true.

Definition sample_open : yvex_engine_resource_catalog := Eval vm_compute in
  match yvex_runtime_resource_catalog_open true 9 sample_identity 3 with
  | Done c => c
  | Refused _ _ => ResourceCatalog [] (ResourceSummary 0 0 0 0 0 0 0 0 0 0 0 0 [] bytes_zero "" false) 0
  end.

Definition sample_base : yvex_engine_resource_catalog := Eval vm_compute in
  match yvex_runtime_resource_register sample_open (sample_request "base" handle_zero 11) with
  | Done (c, _) => c | Refused _ _ => sample_open end.

Definition sample_catalog : yvex_engine_resource_catalog := Eval vm_compute in
  match yvex_runtime_resource_register sample_base (sample_request "client" (Handle 9 1 1) 12) with
  | Done (c, _) => c | Refused _ _ => sample_base end.

Definition sample_borrowed : yvex_engine_resource_catalog := Eval vm_compute in
  match yvex_runtime_resource_acquire sample_catalog (Handle 9 2 2) with
  | Done (c, _) => c | Refused _ _ => sample_catalog end.

Lemma sample_in_range name dependency value : request_in_range (sample_request name dependency value).
Proof. split; [done|]. split; [unfold byte_fields; forall_cells|]; cbn; ulia. Qed.

Lemma sample_registered :
  resource_reachable true 9 sample_identity 3 (ResourceSystem sample_catalog [] []).
Proof.
  exists sample_open. split; [vm_compute; reflexivity|].
  apply rtc_l with (ResourceSystem sample_base [] []).
  { apply (step_register _ _ _ (sample_request "base" handle_zero 11) _ (Handle 9 1 1));
      [apply sample_in_range|vm_compute; reflexivity|vm_compute; reflexivity]. }
  apply rtc_once.
  apply (step_register _ _ _ (sample_request "client" (Handle 9 1 1) 12) _ (Handle 9 2 2));
    [apply sample_in_range|vm_compute; reflexivity|vm_compute; reflexivity].
Qed.

Lemma sample_acquire :
  resource_step (ResourceSystem sample_catalog [] [])
    (ResourceSystem sample_borrowed [Handle 9 2 2] []).
Proof. apply (step_acquire _ _ _ (Handle 9 2 2) _ 12). vm_compute. reflexivity. Qed.

Lemma sample_reachable :
  resource_reachable true 9 sample_identity 3 (ResourceSystem sample_borrowed [Handle 9 2 2] []).
Proof.
  destruct sample_registered as (c & Ho & Hr). exists c. split; [done|].
  eapply rtc_r; [exact Hr|apply sample_acquire].
Qed.

(** The borrowed client and its base cannot be released. *)
Lemma resource_catalog_safe_witness :
  outcome_status (resource_release_begin sample_borrowed (Handle 9 2 2) true) = YVEX_ERR_STATE ∧
  outcome_status (resource_release_begin sample_borrowed (Handle 9 1 1) false) = YVEX_ERR_STATE.
Proof.
  destruct (resource_catalog_safe true 9 sample_identity 3
              (ResourceSystem sample_borrowed [Handle 9 2 2] []) ltac:(lia) sample_reachable)
    as (Hb & _).
  cbn [sys_catalog sys_borrowed] in Hb.
  destruct (Hb (Handle 9 2 2) (list_elem_of_here _ _)) as (i & x & _ & _ & _ & Hr).
  split; [exact (Hr true)|vm_compute; reflexivity].
Defined.

Lemma resource_handle_never_reused_witness :
  match resource_slot_locked sample_borrowed (Handle 9 1 1) with
  | None => True
  | Some (i, y) => ∃ x, resource_slot_locked sample_catalog (Handle 9 1 1) = Some (i, x) ∧
      sl_value y = sl_value x
  end ∧ is_Some (resource_slot_locked sample_borrowed (Handle 9 1 1)).
Proof.
  split; [|vm_compute; eexists; reflexivity].
  apply (resource_handle_never_reused true 9 sample_identity 3
    (ResourceSystem sample_catalog [] []) (ResourceSystem sample_borrowed [Handle 9 2 2] [])
    (Handle 9 1 1) ltac:(lia) sample_registered (rtc_once _ _ sample_acquire)).
  vm_compute. discriminate.
Defined.

Lemma resource_accounting_exact_witness :
  rs_resource_count (ca_summary sample_borrowed) = total (counts_live <$> ca_slots sample_borrowed) ∧
  rs_resource_count (ca_summary sample_borrowed) = 2.
Proof.
  destruct (resource_accounting_exact true 9 sample_identity 3
              (ResourceSystem sample_borrowed [Handle 9 2 2] []) ltac:(lia) sample_reachable) as [Ha _].
  split; [apply (ac_count _ _ Ha)|vm_compute; reflexivity].
Defined.

Lemma resource_close_terminates_witness :
  yvex_runtime_resource_catalog_close (λ _, YVEX_OK) (Some sample_catalog) = (None, YVEX_OK).
Proof.
  apply (resource_close_terminates true 9 sample_identity 3); [lia|exact sample_registered|done].
Defined.
