(* ===== verification/Transaction.v ===== *)
(** The execution transaction of [src/runtime/transaction.c]: admitted work is executed in quanta with
    a safe point after each, cancelled or yielded only there, and published at most once.

    The callbacks and the clock are calls of [Effects.prog], so an operation is a program over any
    environment. A fallible callback answers its status and the message it left in [err]. Function
    pointers and contexts are opaque integers, a null pointer is [None]. *)

From S2P Require Import Prelude Status Sha256 Effects.
#[local] Open Scope Z_scope.
#[local] Set Warnings "-notation-for-abbreviation,-clear-no-such-hyp".

(** * Data *)

(** src/include/yvex/internal/execution_transaction.h, [yvex_execution_transaction_state] *)
Inductive yvex_execution_transaction_state : Type :=
  | YVEX_EXECUTION_TRANSACTION_PREPARED
  | YVEX_EXECUTION_TRANSACTION_EXECUTING
  | YVEX_EXECUTION_TRANSACTION_SAFE
  | YVEX_EXECUTION_TRANSACTION_YIELDED
  | YVEX_EXECUTION_TRANSACTION_READY_TO_COMMIT
  | YVEX_EXECUTION_TRANSACTION_COMMITTED
  | YVEX_EXECUTION_TRANSACTION_ABORTED.

#[export] Instance transaction_state_eq_dec : EqDecision yvex_execution_transaction_state.
Proof. solve_decision. Defined.

(** src/include/yvex/internal/execution_transaction.h, [yvex_execution_safe_point_action] *)
Inductive yvex_execution_safe_point_action : Type :=
  | YVEX_EXECUTION_SAFE_POINT_CONTINUE
  | YVEX_EXECUTION_SAFE_POINT_YIELD
  | YVEX_EXECUTION_SAFE_POINT_CANCEL
  | YVEX_EXECUTION_SAFE_POINT_COMMIT.

(** src/include/yvex/internal/execution_transaction.h, [yvex_execution_resource_lease] *)
Record yvex_execution_resource_lease := ResourceLease {
  le_identity : option string;
  le_context : option Z;
  le_retain : option Z;
  le_release : option Z;
}.

(** src/include/yvex/internal/execution_transaction.h, [yvex_execution_transaction_options] *)
Record yvex_execution_transaction_options := TransactionOptions {
  op_request_identity : option string;
  op_quantum_count : Z;
  op_resource : option yvex_execution_resource_lease;
  op_execute : option Z;
  op_execution_context : Z;
  op_cancel_requested : option Z;
  op_cancel_context : Z;
  op_yield_requested : option Z;
  op_yield_context : Z;
  op_publish : option Z;
  op_discard : option Z;
  op_publication_context : Z;
}.

(** src/include/yvex/internal/execution_transaction.h, [yvex_execution_transaction_summary] *)
Record yvex_execution_transaction_summary := TransactionSummary {
  ts_state : yvex_execution_transaction_state;
  ts_admitted_quanta : Z;
  ts_started_quanta : Z;
  ts_completed_quanta : Z;
  ts_safe_points : Z;
  ts_yields : Z;
  ts_resumes : Z;
  ts_cancellations : Z;
  ts_publications : Z;
  ts_discards : Z;
  ts_retained_resources : Z;
  ts_setup_nanoseconds : Z;
  ts_quantum_wall_nanoseconds : Z;
  ts_safe_point_nanoseconds : Z;
  ts_request_identity : string;
  ts_resource_identity : string;
}.

#[export] Instance transaction_summary_eta : Eta yvex_execution_transaction_summary := λ s,
  TransactionSummary (ts_state s) (ts_admitted_quanta s) (ts_started_quanta s) (ts_completed_quanta s)
    (ts_safe_points s) (ts_yields s) (ts_resumes s) (ts_cancellations s) (ts_publications s)
    (ts_discards s) (ts_retained_resources s) (ts_setup_nanoseconds s) (ts_quantum_wall_nanoseconds s)
    (ts_safe_point_nanoseconds s) (ts_request_identity s) (ts_resource_identity s).

(** [struct timespec] *)
Record timespec := Timespec { tv_sec : Z; tv_nsec : Z }.

(** src/src/runtime/transaction.c, [yvex_runtime_execution_transaction] *)
Record yvex_runtime_execution_transaction := Transaction {
  t_options : yvex_execution_transaction_options;
  t_resource : yvex_execution_resource_lease;
  t_summary : yvex_execution_transaction_summary;
  t_quantum_started : timespec;
  t_resource_retained : bool;
  t_discarded : bool;
}.

#[export] Instance transaction_eta : Eta yvex_runtime_execution_transaction := λ t,
  Transaction (t_options t) (t_resource t) (t_summary t) (t_quantum_started t) (t_resource_retained t)
    (t_discarded t).

(** ** The environment's interface *)

(** What a transaction asks its environment, a callback with its context. *)
Inductive request : Type :=
  | Now
  | Allocate
  | CancelRequested (f : Z) (context : Z)
  | YieldRequested (f : Z) (context : Z)
  | Execute (f : option Z) (context : Z) (ordinal : Z)
  | Publish (f : Z) (context : Z)
  | Discard (f : Z) (context : Z)
  | Retain (f : option Z) (context : option Z)
  | Release (f : option Z) (context : option Z)
  | YieldResume (control : option (Z * Z)).

(** [clock_gettime] may fail; a fallible callback answers a status and perhaps a message. *)
Definition answer (e : request) : Type :=
  match e with
  | Now => option timespec
  | Allocate => bool
  | CancelRequested _ _ | YieldRequested _ _ => bool
  | Execute _ _ _ | Publish _ _ | Retain _ _ | Release _ _ | YieldResume _ =>
      yvex_status * option string
  | Discard _ _ => unit
  end.

Notation act := (prog request answer).
Notation asking e := (call (R := answer) e).

(** * Operations *)

(** src/src/runtime/transaction.c, [transaction_refuse] *)
Definition transaction_refuse {A} (status : yvex_status) (reason : string) : outcome A :=
  Refused status reason.

(** src/src/runtime/transaction.c, [transaction_now] *)
Definition transaction_now : act (option timespec) := asking Now.

(** src/src/runtime/transaction.c, [transaction_elapsed] *)
Definition transaction_elapsed (start finish : timespec) : Z :=
  if (tv_sec finish <? tv_sec start)
     || ((tv_sec finish =? tv_sec start) && (tv_nsec finish <? tv_nsec start))
  then 0
  else
    let seconds := u64 (tv_sec finish - tv_sec start) in
    if (tv_nsec start <=? tv_nsec finish) || negb (seconds =? 0) then
      let '(seconds, nanoseconds) :=
        if tv_nsec start <=? tv_nsec finish
        then (seconds, u64 (tv_nsec finish - tv_nsec start))
        else (seconds - 1, u64 (1000000000 + tv_nsec finish - tv_nsec start)) in
      if (ULLONG_MAX - nanoseconds) / 1000000000 <? seconds then ULLONG_MAX
      else seconds * 1000000000 + nanoseconds
    else 0.

(** src/src/runtime/transaction.c, [transaction_add] *)
Definition transaction_add (total value : Z) : Z :=
  if ULLONG_MAX - total <? value then ULLONG_MAX else total + value.

Definition in_state (t : yvex_runtime_execution_transaction)
    (state : yvex_execution_transaction_state) : bool :=
  bool_decide (ts_state (t_summary t) = state).

Definition set_state (state : yvex_execution_transaction_state)
    (t : yvex_runtime_execution_transaction) : yvex_runtime_execution_transaction :=
  t <| t_summary ::= λ s, s <| ts_state := state |> |>.

(** src/src/runtime/transaction.c, [transaction_discard] *)
Definition transaction_discard (t : yvex_runtime_execution_transaction)
    : act yvex_runtime_execution_transaction :=
  if t_discarded t || negb (ts_publications (t_summary t) =? 0) then Ret t
  else
    _ ⇐ match op_discard (t_options t) with
        | Some f => asking (Discard f (op_publication_context (t_options t)))
        | None => Ret tt
        end ;
    Ret (t <| t_discarded := true |>
           <| t_summary ::= λ s, s <| ts_discards ::= λ n, u64 (n + 1) |> |>).

(** src/src/runtime/transaction.c, [transaction_stop_quantum] *)
Definition transaction_stop_quantum (t : yvex_runtime_execution_transaction)
    : act yvex_runtime_execution_transaction :=
  if negb (in_state t YVEX_EXECUTION_TRANSACTION_EXECUTING) then Ret t
  else
    finish ⇐ transaction_now ;
    Ret match finish with
        | Some finish => t <| t_summary ::= λ s, s <| ts_quantum_wall_nanoseconds ::= λ n,
            transaction_add n (transaction_elapsed (t_quantum_started t) finish) |> |>
        | None => t
        end.

(** src/src/runtime/transaction.c, [transaction_cancel] *)
Definition transaction_cancel (t : yvex_runtime_execution_transaction)
    : act yvex_runtime_execution_transaction :=
  t ⇐ transaction_stop_quantum t ;
  t ⇐ transaction_discard (t <| t_summary ::= λ s, s <| ts_cancellations ::= λ n, u64 (n + 1) |> |>) ;
  Ret (set_state YVEX_EXECUTION_TRANSACTION_ABORTED t).

(** src/src/runtime/transaction.c, [transaction_cancel_requested] *)
Definition transaction_cancel_requested (t : yvex_runtime_execution_transaction) : act bool :=
  match op_cancel_requested (t_options t) with
  | Some f => asking (CancelRequested f (op_cancel_context (t_options t)))
  | None => Ret false
  end.

(** The guard of [yvex_runtime_execution_transaction_open] on the options. *)
Definition transaction_options_valid (options : yvex_execution_transaction_options) : bool :=
  yvex_sha256_hex_valid (op_request_identity options)
  && negb (op_quantum_count options =? 0)
  && bool_decide (is_Some (op_execute options))
  && match op_resource options with
     | None => true
     | Some lease =>
         yvex_sha256_hex_valid (le_identity lease) && bool_decide (is_Some (le_context lease))
         && bool_decide (is_Some (le_retain lease)) && bool_decide (is_Some (le_release lease))
     end.

(** Elapsed time between two readings, when both clocks answered. *)
Definition elapsed_between (start finish : option timespec) : option Z :=
  match start, finish with
  | Some start, Some finish => Some (transaction_elapsed start finish)
  | _, _ => None
  end.

(** [timed && transaction_now(&finish)]: the second reading is taken only after a first one. *)
Definition now_if_timed (start : option timespec) : act (option timespec) :=
  match start with Some _ => transaction_now | None => Ret None end.

(** src/src/runtime/transaction.c, [yvex_runtime_execution_transaction_open] *)
Definition yvex_runtime_execution_transaction_open
    (options : option yvex_execution_transaction_options)
    : act (outcome yvex_runtime_execution_transaction) :=
  match options with
  | None => Ret (transaction_refuse YVEX_ERR_INVALID_ARG
                   "one bounded identity-bound execution request is required")
  | Some options =>
      if negb (transaction_options_valid options)
      then Ret (transaction_refuse YVEX_ERR_INVALID_ARG
                  "one bounded identity-bound execution request is required")
      else
        start ⇐ transaction_now ;
        allocated ⇐ asking Allocate ;
        if negb allocated
        then Ret (transaction_refuse YVEX_ERR_NOMEM "execution transaction allocation failed")
        else
          let no_lease := ResourceLease None None None None in
          let t := Transaction options no_lease
            (TransactionSummary YVEX_EXECUTION_TRANSACTION_PREPARED (op_quantum_count options)
               0 0 0 0 0 0 0 0 0 0 0 0
               (yvex_core_text_copy "" 65 (op_request_identity options)) "")
            (Timespec 0 0) false false in
          admitted ⇐ match op_resource options with
            | None => Ret (Done t)
            | Some lease =>
                '(rc, reason) ⇐ asking (Retain (le_retain lease) (le_context lease)) ;
                Ret (if decide (rc = YVEX_OK)
                     then Done (t <| t_resource := lease |> <| t_resource_retained := true |>
                                  <| t_summary ::= λ s, s <| ts_retained_resources := 1 |>
                                       <| ts_resource_identity :=
                                            yvex_core_text_copy "" 65 (le_identity lease) |> |>)
                     else Refused rc (default ""%string reason))
            end ;
          match admitted with
          | Refused rc reason => Ret (Refused rc reason)
          | Done t =>
              finish ⇐ now_if_timed start ;
              Ret (Done match elapsed_between start finish with
                        | Some elapsed =>
                            t <| t_summary ::= λ s, s <| ts_setup_nanoseconds := elapsed |> |>
                        | None => t
                        end)
          end
  end.

(** src/src/runtime/transaction.c, [transaction_quantum_begin] *)
Definition transaction_quantum_begin (t : yvex_runtime_execution_transaction) (ordinal : Z)
    : act (yvex_runtime_execution_transaction * outcome unit) :=
  if negb (in_state t YVEX_EXECUTION_TRANSACTION_PREPARED || in_state t YVEX_EXECUTION_TRANSACTION_SAFE)
     || negb (ordinal =? ts_completed_quanta (t_summary t))
     || (ts_admitted_quanta (t_summary t) <=? ordinal)
  then Ret (t, transaction_refuse YVEX_ERR_STATE "the next admitted execution quantum is required")
  else
    cancelled ⇐ transaction_cancel_requested t ;
    if (cancelled : bool) then
      t ⇐ transaction_cancel t ;
      Ret (t, transaction_refuse YVEX_ERR_CANCELLED "execution was cancelled before the next quantum")
    else
      let t := set_state YVEX_EXECUTION_TRANSACTION_EXECUTING t
                 <| t_summary ::= λ s, s <| ts_started_quanta ::= λ n, u64 (n + 1) |> |> in
      now ⇐ transaction_now ;
      Ret (t <| t_quantum_started := default (Timespec 0 0) now |>, Done tt).

(** src/src/runtime/transaction.c, [transaction_safe_point] *)
Definition transaction_safe_point (t : yvex_runtime_execution_transaction)
    : act (yvex_runtime_execution_transaction * outcome yvex_execution_safe_point_action) :=
  if negb (in_state t YVEX_EXECUTION_TRANSACTION_EXECUTING)
  then Ret (t, transaction_refuse YVEX_ERR_STATE "one completed execution quantum is required")
  else
    t ⇐ transaction_stop_quantum t ;
    let t := t <| t_summary ::= λ s, s <| ts_completed_quanta ::= λ n, u64 (n + 1) |>
                                       <| ts_safe_points ::= λ n, u64 (n + 1) |> |> in
    start ⇐ transaction_now ;
    cancelled ⇐ transaction_cancel_requested t ;
    '(t, action) ⇐
      (if (cancelled : bool) then
         t ⇐ transaction_discard (t <| t_summary ::= λ s, s <| ts_cancellations ::= λ n, u64 (n + 1) |> |>) ;
         Ret (set_state YVEX_EXECUTION_TRANSACTION_ABORTED t, YVEX_EXECUTION_SAFE_POINT_CANCEL)
       else if ts_completed_quanta (t_summary t) =? ts_admitted_quanta (t_summary t) then
         Ret (set_state YVEX_EXECUTION_TRANSACTION_READY_TO_COMMIT t, YVEX_EXECUTION_SAFE_POINT_COMMIT)
       else
         yielded ⇐ match op_yield_requested (t_options t) with
                   | Some f => asking (YieldRequested f (op_yield_context (t_options t)))
                   | None => Ret false
                   end ;
         Ret (if (yielded : bool)
              then (set_state YVEX_EXECUTION_TRANSACTION_YIELDED
                      (t <| t_summary ::= λ s, s <| ts_yields ::= λ n, u64 (n + 1) |> |>),
                    YVEX_EXECUTION_SAFE_POINT_YIELD)
              else (set_state YVEX_EXECUTION_TRANSACTION_SAFE t, YVEX_EXECUTION_SAFE_POINT_CONTINUE))) ;
    finish ⇐ now_if_timed start ;
    Ret (match elapsed_between start finish with
         | Some elapsed => t <| t_summary ::= λ s,
             s <| ts_safe_point_nanoseconds ::= λ n, transaction_add n elapsed |> |>
         | None => t
         end, Done action).

(** src/src/runtime/transaction.c, [yvex_runtime_execution_transaction_abort] *)
Definition yvex_runtime_execution_transaction_abort (t : yvex_runtime_execution_transaction)
    : act (yvex_runtime_execution_transaction * outcome unit) :=
  if in_state t YVEX_EXECUTION_TRANSACTION_COMMITTED
  then Ret (t, transaction_refuse YVEX_ERR_STATE "a committed execution transaction cannot be aborted")
  else if in_state t YVEX_EXECUTION_TRANSACTION_ABORTED then Ret (t, Done tt)
  else
    t ⇐ transaction_stop_quantum t ;
    t ⇐ transaction_discard t ;
    Ret (set_state YVEX_EXECUTION_TRANSACTION_ABORTED t, Done tt).

(** src/src/runtime/transaction.c, [yvex_runtime_execution_transaction_execute_quantum]
    The callback's own error is kept over the abort's. *)
Definition yvex_runtime_execution_transaction_execute_quantum (t : yvex_runtime_execution_transaction)
    : act (yvex_runtime_execution_transaction * outcome yvex_execution_safe_point_action) :=
  let ordinal := ts_completed_quanta (t_summary t) in
  '(t, begun) ⇐ transaction_quantum_begin t ordinal ;
  match begun with
  | Refused rc reason => Ret (t, Refused rc reason)
  | Done _ =>
      '(rc, reason) ⇐ asking (Execute (op_execute (t_options t)) (op_execution_context (t_options t)) ordinal) ;
      if negb (bool_decide (rc = YVEX_OK)) then
        '(t, _) ⇐ yvex_runtime_execution_transaction_abort t ;
        Ret (t, Refused rc (default "execution quantum failed without an error"%string reason))
      else transaction_safe_point t
  end.

(** src/src/runtime/transaction.c, [yvex_runtime_execution_transaction_resume] *)
Definition yvex_runtime_execution_transaction_resume (t : yvex_runtime_execution_transaction)
    : act (yvex_runtime_execution_transaction * outcome unit) :=
  if negb (in_state t YVEX_EXECUTION_TRANSACTION_YIELDED)
  then Ret (t, transaction_refuse YVEX_ERR_STATE "a yielded execution transaction is required")
  else
    cancelled ⇐ transaction_cancel_requested t ;
    if (cancelled : bool) then
      t ⇐ transaction_cancel t ;
      Ret (t, transaction_refuse YVEX_ERR_CANCELLED "yielded execution was cancelled before resumption")
    else
      Ret (set_state YVEX_EXECUTION_TRANSACTION_SAFE t
             <| t_summary ::= λ s, s <| ts_resumes ::= λ n, u64 (n + 1) |> |>, Done tt).

(** src/src/runtime/transaction.c, [yvex_runtime_execution_transaction_commit] *)
Definition yvex_runtime_execution_transaction_commit (t : yvex_runtime_execution_transaction)
    : act (yvex_runtime_execution_transaction * outcome unit) :=
  if negb (in_state t YVEX_EXECUTION_TRANSACTION_READY_TO_COMMIT)
  then Ret (t, transaction_refuse YVEX_ERR_STATE
                 "a fully executed transaction is required for publication")
  else
    cancelled ⇐ transaction_cancel_requested t ;
    if (cancelled : bool) then
      t ⇐ transaction_cancel t ;
      Ret (t, transaction_refuse YVEX_ERR_CANCELLED "execution was cancelled before publication")
    else
      '(rc, reason) ⇐ match op_publish (t_options t) with
                      | Some f => asking (Publish f (op_publication_context (t_options t)))
                      | None => Ret (YVEX_OK, None)
                      end ;
      if negb (bool_decide (rc = YVEX_OK)) then
        t ⇐ transaction_discard t ;
        Ret (set_state YVEX_EXECUTION_TRANSACTION_ABORTED t,
             Refused rc (default "transaction publication failed without an error"%string reason))
      else
        Ret (set_state YVEX_EXECUTION_TRANSACTION_COMMITTED
               (t <| t_summary ::= λ s, s <| ts_publications ::= λ n, u64 (n + 1) |> |>), Done tt).

(** src/src/runtime/transaction.c, [yvex_runtime_execution_transaction_summary_copy] *)
Definition yvex_runtime_execution_transaction_summary_copy
    (t : option yvex_runtime_execution_transaction) : outcome yvex_execution_transaction_summary :=
  match t with
  | None => transaction_refuse YVEX_ERR_INVALID_ARG "execution transaction summary storage is required"
  | Some t => Done (t_summary t)
  end.

(** src/src/runtime/transaction.c, [yvex_runtime_execution_transaction_close]
    [None] is the cleared pointer of a freed transaction. *)
Definition yvex_runtime_execution_transaction_close (t : option yvex_runtime_execution_transaction)
    : act (option yvex_runtime_execution_transaction * yvex_status) :=
  match t with
  | None => Ret (None, YVEX_OK)
  | Some t =>
      t ⇐ (if in_state t YVEX_EXECUTION_TRANSACTION_COMMITTED
              || in_state t YVEX_EXECUTION_TRANSACTION_ABORTED
           then Ret t
           else t ⇐ transaction_stop_quantum t ;
                t ⇐ transaction_discard t ;
                Ret (set_state YVEX_EXECUTION_TRANSACTION_ABORTED t)) ;
      if t_resource_retained t then
        '(rc, _) ⇐ asking (Release (le_release (t_resource t)) (le_context (t_resource t))) ;
        Ret (if decide (rc = YVEX_OK) then (None, YVEX_OK) else (Some t, rc))
      else Ret (None, YVEX_OK)
  end.

(** ** The client's loop *)

(** The quanta still to run of a latent iteration, from [step] on. [control] is the request's yield
    control: its resume callback and context.
    src/src/runtime/latent.c:1807-1827, [yvex_runtime_latent_execute] *)
Fixpoint latent_iterate (control : option (Z * Z)) (step_count : Z) (remaining : nat) (step : Z)
    (t : yvex_runtime_execution_transaction) : act (yvex_runtime_execution_transaction * outcome unit) :=
  match remaining with
  | O => Ret (t, Done tt)
  | S remaining =>
      '(t, executed) ⇐ yvex_runtime_execution_transaction_execute_quantum t ;
      '(t, point) ⇐ match executed with
        | Refused rc reason => Ret (t, Refused rc reason)
        | Done YVEX_EXECUTION_SAFE_POINT_CANCEL =>
            Ret (t, Refused YVEX_ERR_CANCELLED "latent iteration was cancelled at a safe point")
        | Done YVEX_EXECUTION_SAFE_POINT_YIELD =>
            '(rc, reason) ⇐ asking (YieldResume control) ;
            if negb (bool_decide (rc = YVEX_OK)) then Ret (t, Refused rc (default ""%string reason))
            else
              '(t, resumed) ⇐ yvex_runtime_execution_transaction_resume t ;
              Ret (t, match resumed with
                      | Done _ => Done YVEX_EXECUTION_SAFE_POINT_CONTINUE
                      | Refused rc reason => Refused rc reason
                      end)
        | Done action => Ret (t, Done action)
        end ;
      match point with
      | Refused rc reason => Ret (t, Refused rc reason)
      | Done YVEX_EXECUTION_SAFE_POINT_COMMIT =>
          if step + 1 =? step_count then latent_iterate control step_count remaining (step + 1) t
          else Ret (t, Refused YVEX_ERR_STATE "latent safe-point action does not match execution progress")
      | Done YVEX_EXECUTION_SAFE_POINT_CONTINUE =>
          if step + 1 <? step_count then latent_iterate control step_count remaining (step + 1) t
          else Ret (t, Refused YVEX_ERR_STATE "latent safe-point action does not match execution progress")
      | Done _ =>
          Ret (t, Refused YVEX_ERR_STATE "latent safe-point action does not match execution progress")
      end
  end.

(** Any sequence of operations of a caller; a closed transaction takes no further effect. *)
Inductive transaction_op := OpExecuteQuantum | OpResume | OpCommit | OpAbort | OpClose.

Definition session_op (op : transaction_op) (t : yvex_runtime_execution_transaction)
    : act (option yvex_runtime_execution_transaction) :=
  match op with
  | OpExecuteQuantum => '(t, _) ⇐ yvex_runtime_execution_transaction_execute_quantum t ; Ret (Some t)
  | OpResume => '(t, _) ⇐ yvex_runtime_execution_transaction_resume t ; Ret (Some t)
  | OpCommit => '(t, _) ⇐ yvex_runtime_execution_transaction_commit t ; Ret (Some t)
  | OpAbort => '(t, _) ⇐ yvex_runtime_execution_transaction_abort t ; Ret (Some t)
  | OpClose => '(t, _) ⇐ yvex_runtime_execution_transaction_close (Some t) ; Ret t
  end.

Fixpoint session (ops : list transaction_op) (t : option yvex_runtime_execution_transaction)
    : act (option yvex_runtime_execution_transaction) :=
  match t, ops with
  | Some t, op :: ops => t ⇐ session_op op t ; session ops t
  | t, _ => Ret t
  end.

Definition transaction_session (options : yvex_execution_transaction_options)
    (ops : list transaction_op) : act (option yvex_runtime_execution_transaction) :=
  opened ⇐ yvex_runtime_execution_transaction_open (Some options) ;
  match opened with
  | Refused _ _ => Ret None
  | Done t => session ops (Some t)
  end.

(** * The protocol

    What a transaction promises its callbacks, as an automaton over the calls it makes. *)

Inductive protocol_phase := Running | Doomed | Dropped | Published.

#[export] Instance protocol_phase_eq_dec : EqDecision protocol_phase.
Proof. solve_decision. Defined.

(** Quanta executed successfully, the fate of the work, and whether the lease is held. *)
Record protocol := Protocol { p_executed : Z; p_phase : protocol_phase; p_leased : bool }.

#[export] Instance protocol_eq_dec : EqDecision protocol.
Proof. solve_decision. Defined.

Definition protocol_init : protocol := Protocol 0 Running false.

Definition allowed (P : Prop) `{Decision P} (g : protocol) : option protocol :=
  if decide P then Some g else None.

Section protocol.
Context (o : yvex_execution_transaction_options).

Definition leased_ok (g : protocol) : Prop := p_leased g = bool_decide (is_Some (op_resource o)).

#[export] Instance leased_ok_dec g : Decision (leased_ok g) := bool_eq_dec _ _.

Definition protocol_step (g : protocol) (e : request) : answer e → option protocol :=
  match e with
  | Now | Allocate => λ _, Some g
  | Retain f context => λ r,
      allowed (g = protocol_init ∧
               (op_resource o ≫= le_retain) = f ∧ is_Some f ∧ (op_resource o ≫= le_context) = context)
        (Protocol 0 Running (bool_decide (r.1 = YVEX_OK)))
  | CancelRequested f context => λ yes,
      allowed (p_phase g = Running ∧ leased_ok g ∧ op_cancel_requested o = Some f ∧
               op_cancel_context o = context)
        (Protocol (p_executed g) (if yes then Doomed else Running) (p_leased g))
  | YieldRequested f context => λ _,
      allowed (p_phase g = Running ∧ leased_ok g ∧ 0 < p_executed g < op_quantum_count o ∧
               op_yield_requested o = Some f ∧ op_yield_context o = context) g
  | YieldResume control => λ _,
      allowed (p_phase g = Running ∧ 0 < p_executed g < op_quantum_count o ∧
               is_Some (op_yield_requested o)) g
  | Execute f context ordinal => λ r,
      allowed (p_phase g = Running ∧ leased_ok g ∧ ordinal = p_executed g ∧
               p_executed g < op_quantum_count o ∧ op_execute o = f ∧ is_Some f ∧
               op_execution_context o = context)
        (if decide (r.1 = YVEX_OK) then Protocol (p_executed g + 1) Running (p_leased g)
         else Protocol (p_executed g) Doomed (p_leased g))
  | Publish f context => λ r,
      allowed (p_phase g = Running ∧ leased_ok g ∧ p_executed g = op_quantum_count o ∧
               op_publish o = Some f ∧ op_publication_context o = context)
        (Protocol (p_executed g) (if decide (r.1 = YVEX_OK) then Published else Doomed) (p_leased g))
  | Discard f context => λ _,
      allowed ((p_phase g = Running ∨ p_phase g = Doomed) ∧ leased_ok g ∧ op_discard o = Some f ∧
               op_publication_context o = context)
        (Protocol (p_executed g) Dropped (p_leased g))
  | Release f context => λ r,
      allowed (p_leased g = true ∧ (op_resource o ≫= le_release) = f ∧ is_Some f ∧
               (op_resource o ≫= le_context) = context ∧
               (p_phase g = Published ∨ p_phase g = Dropped ∨ op_discard o = None ∨
                op_publish o = None ∧ p_phase g = Running ∧ p_executed g = op_quantum_count o))
        (Protocol (p_executed g) (p_phase g) (negb (bool_decide (r.1 = YVEX_OK))))
  end.

(** ** The transaction against the protocol *)

(** [live] constrains the phase and the cancellations of a transaction that has not ended. *)
Record transaction_repr (live : protocol_phase → Z → Prop) (g : protocol)
    (t : yvex_runtime_execution_transaction) : Prop := TransactionRepr {
  tr_valid : transaction_options_valid o = true;
  tr_options : t_options t = o;
  tr_leased : leased_ok g;
  tr_retained : t_resource_retained t = p_leased g;
  tr_resource : p_leased g = true → op_resource o = Some (t_resource t);
  tr_admitted : ts_admitted_quanta (t_summary t) = op_quantum_count o;
  tr_executed : 0 ≤ p_executed g ≤ op_quantum_count o ≤ ULLONG_MAX;
  tr_completed : ts_completed_quanta (t_summary t) = p_executed g;
  tr_safe_points : ts_safe_points (t_summary t) = p_executed g;
  tr_discarded : t_discarded t = in_state t YVEX_EXECUTION_TRANSACTION_ABORTED;
  tr_discards : ts_discards (t_summary t) =
    if in_state t YVEX_EXECUTION_TRANSACTION_ABORTED then 1 else 0;
  tr_publications : ts_publications (t_summary t) =
    if in_state t YVEX_EXECUTION_TRANSACTION_COMMITTED then 1 else 0;
  tr_yields : 0 ≤ ts_resumes (t_summary t) ≤ ts_yields (t_summary t) ∧
    ts_yields (t_summary t) ≤ p_executed g;
  tr_state :
    let started := ts_started_quanta (t_summary t) in
    let pending := ts_yields (t_summary t) - ts_resumes (t_summary t) in
    let cancellations := ts_cancellations (t_summary t) in
    match ts_state (t_summary t) with
    | YVEX_EXECUTION_TRANSACTION_PREPARED =>
        live (p_phase g) cancellations ∧ p_executed g = 0 ∧ started = 0 ∧ pending = 0
    | YVEX_EXECUTION_TRANSACTION_EXECUTING =>
        live (p_phase g) cancellations ∧ p_executed g < op_quantum_count o ∧
        started = p_executed g + 1 ∧ pending = 0
    | YVEX_EXECUTION_TRANSACTION_SAFE =>
        live (p_phase g) cancellations ∧ 0 < p_executed g < op_quantum_count o ∧
        started = p_executed g ∧ pending = 0
    | YVEX_EXECUTION_TRANSACTION_YIELDED =>
        live (p_phase g) cancellations ∧ 0 < p_executed g < op_quantum_count o ∧
        started = p_executed g ∧ pending = 1
    | YVEX_EXECUTION_TRANSACTION_READY_TO_COMMIT =>
        live (p_phase g) cancellations ∧ p_executed g = op_quantum_count o ∧
        started = p_executed g ∧ pending = 0
    | YVEX_EXECUTION_TRANSACTION_COMMITTED =>
        p_phase g = (if decide (op_publish o = None) then Running else Published) ∧
        cancellations = 0 ∧ p_executed g = op_quantum_count o ∧ started = p_executed g ∧ pending = 0
    | YVEX_EXECUTION_TRANSACTION_ABORTED =>
        (if decide (op_discard o = None) then p_phase g = Running ∨ p_phase g = Doomed
         else p_phase g = Dropped) ∧
        0 ≤ cancellations ≤ 1 ∧ p_executed g ≤ started ≤ p_executed g + 1 ∧ 0 ≤ pending ≤ 1
    end;
}.


(** A transaction at rest: running, never cancelled. *)
Definition at_rest (p : protocol_phase) (cancellations : Z) : Prop := p = Running ∧ cancellations = 0.
(** A transaction about to be dropped. *)
Definition ending (p : protocol_phase) (cancellations : Z) : Prop :=
  (p = Running ∨ p = Doomed) ∧ 0 ≤ cancellations ≤ 1.

Definition live_state (t : yvex_runtime_execution_transaction) : Prop :=
  ts_state (t_summary t) ≠ YVEX_EXECUTION_TRANSACTION_COMMITTED ∧
  ts_state (t_summary t) ≠ YVEX_EXECUTION_TRANSACTION_ABORTED.

Notation accepts := (accepts protocol_step).

(** Fields of a transaction given field by field, and a guard that the state decides. *)
Ltac open_transaction t :=
  destruct t as [to tres [tst tadm tsta tcom tsaf tyie tres' tcan tpub tdis tret tset twall tsp tid trid]
                 tqs tretd tdisc]; cbn in *.

Lemma accepts_call {A} g e (k : answer e → act A) Q P (d : Decision P) f :
  protocol_step g e = (λ r, @allowed P d (f r)) →
  P → (∀ r, accepts (f r) (k r) Q) → accepts g (Call e k) Q.
Proof.
  intros E HP Hk r. rewrite E. unfold allowed. rewrite decide_True by done. apply Hk.
Qed.

Lemma accepts_now {A} g (k : option timespec → act A) Q :
  (∀ r, accepts g (k r) Q) → accepts g (Call Now k) Q.
Proof. intros Hk r. apply Hk. Qed.

Lemma accepts_now_if_timed {A} g start (k : option timespec → act A) Q :
  (∀ r, accepts g (k r) Q) → accepts g (prog_bind (now_if_timed start) k) Q.
Proof. intros Hk. destruct start; [by apply accepts_now|apply Hk]. Qed.

(** Discarding, as every ending path does it. *)
Lemma accepts_discard g t Q :
  (p_phase g = Running ∨ p_phase g = Doomed) → leased_ok g → t_options t = o →
  t_discarded t = false → ts_publications (t_summary t) = 0 →
  Q (t <| t_discarded := true |>
       <| t_summary ::= λ s, s <| ts_discards ::= λ n, u64 (n + 1) |> |>)
    (if decide (op_discard o = None) then g else Protocol (p_executed g) Dropped (p_leased g)) →
  accepts g (transaction_discard t) Q.
Proof.
  intros Hp Hl Ho Hd Hpub HQ. unfold transaction_discard. rewrite Hd, Hpub, Ho.
  change (false || negb (0 =? 0)) with false. cbv iota.
  destruct (op_discard o) as [f|] eqn:Ed.
  - eapply accepts_call; [reflexivity|by rewrite Ed|intros []].
    rewrite decide_False in HQ by done. exact HQ.
  - rewrite decide_True in HQ by done. exact HQ.
Qed.

(** Only the wall-clock total changes. *)
Lemma accepts_stop_quantum g t Q :
  (∀ wall, Q (t <| t_summary ::= λ s, s <| ts_quantum_wall_nanoseconds := wall |> |>) g) →
  accepts g (transaction_stop_quantum t) Q.
Proof.
  intros HQ. unfold transaction_stop_quantum. destruct (negb _).
  - specialize (HQ (ts_quantum_wall_nanoseconds (t_summary t))). by destruct t as [?? []].
  - apply accepts_now. intros [finish|].
    + apply HQ.
    + specialize (HQ (ts_quantum_wall_nanoseconds (t_summary t))). by destruct t as [?? []].
Qed.

(** Timing never matters to the protocol. *)
Lemma repr_timing live g t setup wall safe started :
  transaction_repr live g t →
  transaction_repr live g
    (t <| t_quantum_started := started |>
       <| t_summary ::= λ s, s <| ts_setup_nanoseconds := setup |>
                               <| ts_quantum_wall_nanoseconds := wall |>
                               <| ts_safe_point_nanoseconds := safe |> |>).
Proof. intros []. by constructor. Qed.

Lemma repr_wall live g t wall :
  transaction_repr live g t →
  transaction_repr live g (t <| t_summary ::= λ s, s <| ts_quantum_wall_nanoseconds := wall |> |>).
Proof. intros []. by constructor. Qed.

Lemma repr_safe live g t safe :
  transaction_repr live g t →
  transaction_repr live g (t <| t_summary ::= λ s, s <| ts_safe_point_nanoseconds := safe |> |>).
Proof. intros []. by constructor. Qed.

Lemma repr_ending g t : transaction_repr at_rest g t → transaction_repr ending g t.
Proof.
  intros []. constructor; try done. cbv zeta in *. unfold at_rest, ending in *.
  destruct (ts_state (t_summary t)); try done; destruct_and!; split_and!; try done; try (by left); lia.
Qed.

(** One more cancellation, and whatever the environment has decided. *)
Lemma repr_cancelled g t p :
  transaction_repr at_rest g t → live_state t → p = Running ∨ p = Doomed →
  transaction_repr ending (Protocol (p_executed g) p (p_leased g))
    (t <| t_summary ::= λ s, s <| ts_cancellations ::= λ n, u64 (n + 1) |> |>).
Proof.
  intros [] [Hc Ha] Hp. constructor; try done. cbv zeta in *. unfold at_rest, ending in *.
  cbn. destruct (ts_state (t_summary t)); try done; destruct_and!;
    match goal with H : ts_cancellations _ = 0 |- _ => rewrite H end; done.
Qed.

Definition aborted (t : yvex_runtime_execution_transaction) : Prop :=
  ts_state (t_summary t) = YVEX_EXECUTION_TRANSACTION_ABORTED.

(** Between two operations: related to the protocol, no quantum under way. *)
Definition resting (g : protocol) (t : yvex_runtime_execution_transaction) : Prop :=
  transaction_repr at_rest g t ∧ ts_state (t_summary t) ≠ YVEX_EXECUTION_TRANSACTION_EXECUTING.

(** Every ending path: discard, then ABORTED. Discarding does not look at the state, so any live
    state the other fields agree with will do. *)
Lemma accepts_drop_as {A} state g t (k : yvex_runtime_execution_transaction → act A) Q :
  transaction_repr ending g (set_state state t) → live_state (set_state state t) →
  (∀ t1 g1, resting g1 (set_state YVEX_EXECUTION_TRANSACTION_ABORTED t1) →
     p_executed g1 = p_executed g → accepts g1 (k t1) Q) →
  accepts g (prog_bind (transaction_discard t) k) Q.
Proof.
  intros [] [Hc Ha] HQ. cbn in Hc, Ha. cbv zeta in *. cbn in *.
  assert (Hph : p_phase g = Running ∨ p_phase g = Doomed).
  { unfold ending in *. by destruct state; destruct_and?. }
  unfold in_state in *. cbn in *. rewrite bool_decide_eq_false_2 in * by done.
  eapply accepts_bind with (P := λ t' g', t' = _ ∧ g' = _); [by eapply accepts_discard|].
  intros t' g' [-> ->]. apply HQ; [|by destruct (decide (op_discard o = None))]. split; [|done].
  assert (Hg : ∀ g', g' = (if decide (op_discard o = None) then g
                           else Protocol (p_executed g) Dropped (p_leased g)) →
    p_executed g' = p_executed g ∧ p_leased g' = p_leased g ∧
    if decide (op_discard o = None) then p_phase g' = p_phase g else p_phase g' = Dropped).
  { intros g' ->. by destruct (decide (op_discard o = None)); cbn. }
  destruct (Hg _ eq_refl) as (E1 & E2 & E3). clear Hg. set (g' := if decide _ then g else _) in *.
  clearbody g'. unfold leased_ok in *.
  constructor; unfold leased_ok, in_state; cbn; rewrite ?E1, ?E2; try done.
  - by rewrite tr_discards0.
  - unfold ending in *. split.
    { destruct (decide (op_discard o = None)); [by rewrite E3|done]. }
    destruct state; try done; destruct_and!; split_and!; lia.
Qed.

Lemma accepts_drop {A} g t (k : yvex_runtime_execution_transaction → act A) Q :
  transaction_repr ending g t → live_state t →
  (∀ t1 g1, resting g1 (set_state YVEX_EXECUTION_TRANSACTION_ABORTED t1) →
     p_executed g1 = p_executed g → accepts g1 (k t1) Q) →
  accepts g (prog_bind (transaction_discard t) k) Q.
Proof.
  assert (E : set_state (ts_state (t_summary t)) t = t) by by destruct t as [?? []].
  intros Hr Hl. apply (accepts_drop_as (ts_state (t_summary t))); by rewrite E.
Qed.

Definition doomed (g : protocol) : protocol := Protocol (p_executed g) Doomed (p_leased g).

Lemma repr_running g t : transaction_repr at_rest g t → live_state t → p_phase g = Running.
Proof.
  intros [] [Hc Ha]. cbv zeta in *. unfold at_rest in *.
  by destruct (ts_state (t_summary t)); destruct_and?.
Qed.

Lemma running_eta g : p_phase g = Running → Protocol (p_executed g) Running (p_leased g) = g.
Proof. by destruct g; cbn; intros ->. Qed.

Lemma accepts_stop_bind {A} g t (k : yvex_runtime_execution_transaction → act A) Q :
  (∀ wall, accepts g (k (t <| t_summary ::= λ s, s <| ts_quantum_wall_nanoseconds := wall |> |>)) Q) →
  accepts g (prog_bind (transaction_stop_quantum t) k) Q.
Proof.
  intros Hk. eapply accepts_bind; [|intros t' g' H; exact H]. by apply accepts_stop_quantum.
Qed.

Lemma accepts_cancel g t Q :
  transaction_repr at_rest g t → live_state t → (∀ t' g', resting g' t' → aborted t' → Q t' g') →
  accepts (doomed g) (transaction_cancel t) Q.
Proof.
  intros Hr Hl HQ. apply accepts_stop_bind. intros wall.
  eapply accepts_drop; [|exact Hl|intros t1 g1 Hrest _; by apply HQ].
  apply (repr_cancelled g (t <| t_summary ::= λ s, s <| ts_quantum_wall_nanoseconds := wall |> |>));
    [by apply repr_wall|exact Hl|by right].
Qed.

(** The cancellation question, asked while running. *)
Lemma accepts_cancel_requested {A} g t (k : bool → act A) Q :
  transaction_repr at_rest g t → live_state t →
  accepts (doomed g) (k true) Q → accepts g (k false) Q →
  accepts g (prog_bind (transaction_cancel_requested t) k) Q.
Proof.
  intros Hr Hl Ht Hf. pose proof (repr_running _ _ Hr Hl) as Hp. destruct Hr.
  unfold transaction_cancel_requested. rewrite tr_options0.
  destruct (op_cancel_requested o) as [f|] eqn:Ec; [|done].
  eapply accepts_call; [reflexivity|by rewrite Ec|]. intros [|]; cbn; [done|].
  by rewrite running_eta.
Qed.

Lemma accepts_abort g t Q :
  transaction_repr ending g t →
  ts_state (t_summary t) ≠ YVEX_EXECUTION_TRANSACTION_COMMITTED →
  ts_state (t_summary t) ≠ YVEX_EXECUTION_TRANSACTION_ABORTED →
  (∀ t' g', resting g' t' → aborted t' → Q (t', Done tt) g') →
  accepts g (yvex_runtime_execution_transaction_abort t) Q.
Proof.
  intros Hr Hc Ha HQ. unfold yvex_runtime_execution_transaction_abort, in_state.
  rewrite !bool_decide_eq_false_2 by done. apply accepts_stop_bind. intros wall.
  eapply accepts_drop; [by apply repr_wall|done|]. intros t1 g1 Hrest _. by apply HQ.
Qed.

(** What executing a quantum leaves behind. *)
Definition execute_post (g : protocol) (t : yvex_runtime_execution_transaction)
    (r : yvex_runtime_execution_transaction * outcome yvex_execution_safe_point_action)
    (g' : protocol) : Prop :=
  resting g' r.1 ∧
  match r.2 with
  | Refused _ _ => aborted r.1 ∨ r.1 = t ∧ g' = g ∧
      ¬ (ts_state (t_summary t) = YVEX_EXECUTION_TRANSACTION_PREPARED ∨
         ts_state (t_summary t) = YVEX_EXECUTION_TRANSACTION_SAFE)
  | Done action =>
      p_executed g' = p_executed g + 1 ∧
      match action with
      | YVEX_EXECUTION_SAFE_POINT_CONTINUE =>
          ts_state (t_summary r.1) = YVEX_EXECUTION_TRANSACTION_SAFE
      | YVEX_EXECUTION_SAFE_POINT_YIELD =>
          ts_state (t_summary r.1) = YVEX_EXECUTION_TRANSACTION_YIELDED ∧
          is_Some (op_yield_requested o)
      | YVEX_EXECUTION_SAFE_POINT_CANCEL => aborted r.1
      | YVEX_EXECUTION_SAFE_POINT_COMMIT =>
          ts_state (t_summary r.1) = YVEX_EXECUTION_TRANSACTION_READY_TO_COMMIT
      end
  end.

(** The counters of one more completed quantum. *)
Lemma repr_completed g t state yields :
  transaction_repr at_rest g t → ts_state (t_summary t) = YVEX_EXECUTION_TRANSACTION_EXECUTING →
  let executed := p_executed g + 1 in
  let pending := yields - ts_yields (t_summary t) in
  match state with
  | YVEX_EXECUTION_TRANSACTION_SAFE => executed < op_quantum_count o ∧ pending = 0
  | YVEX_EXECUTION_TRANSACTION_YIELDED => executed < op_quantum_count o ∧ pending = 1
  | YVEX_EXECUTION_TRANSACTION_READY_TO_COMMIT => executed = op_quantum_count o ∧ pending = 0
  | _ => False
  end →
  transaction_repr at_rest (Protocol (p_executed g + 1) Running (p_leased g))
    (set_state state (t <| t_summary ::= λ s, s <| ts_completed_quanta ::= λ n, u64 (n + 1) |>
       <| ts_safe_points ::= λ n, u64 (n + 1) |> <| ts_yields := yields |> |>)).
Proof.
  intros [] Est executed pending Hst. cbv zeta in *. unfold at_rest in *.
  rewrite Est in tr_state0. unfold in_state in *. rewrite Est in *.
  destruct_and!. subst executed pending.
  constructor; unfold leased_ok, in_state; cbn; try done.
  all: try (rewrite u64_id by ulia; lia).
  all: destruct state; try done; destruct_and!; try done; split_and!; try done; lia.
Qed.

Lemma accepts_begin g t Q :
  resting g t →
  (∀ why, ¬ (ts_state (t_summary t) = YVEX_EXECUTION_TRANSACTION_PREPARED ∨
             ts_state (t_summary t) = YVEX_EXECUTION_TRANSACTION_SAFE) →
     Q (t, Refused YVEX_ERR_STATE why) g) →
  (∀ t' g' why, resting g' t' → aborted t' → Q (t', Refused YVEX_ERR_CANCELLED why) g') →
  (∀ t', transaction_repr at_rest g t' →
     ts_state (t_summary t') = YVEX_EXECUTION_TRANSACTION_EXECUTING → Q (t', Done tt) g) →
  accepts g (transaction_quantum_begin t (ts_completed_quanta (t_summary t))) Q.
Proof.
  intros [Hr Hx] Hmis Hcan Hok. unfold transaction_quantum_begin. rewrite Z.eqb_refl.
  destruct (in_state t YVEX_EXECUTION_TRANSACTION_PREPARED ||
            in_state t YVEX_EXECUTION_TRANSACTION_SAFE) eqn:Est; unfold in_state in Est; guards.
  2:{ apply Hmis. by intros [?|?]. }
  assert (Hl : live_state t) by (unfold live_state; destruct Est as [->| ->]; done).
  assert (Hlt : p_executed g < op_quantum_count o ∧ 0 < op_quantum_count o).
  { destruct Hr. cbv zeta in *. unfold transaction_options_valid in tr_valid0. guards.
    destruct Est as [Est|Est]; rewrite Est in tr_state0; lia. }
  rewrite (tr_admitted _ _ _ Hr), (tr_completed _ _ _ Hr), (proj2 (Z.leb_gt _ _)) by lia.
  cbn [negb orb]. apply (accepts_cancel_requested g t); [done|done| |].
  - eapply accepts_bind; [apply (accepts_cancel g t (λ t' g', resting g' t' ∧ aborted t'));
      [done|done|by split]|]. intros t' g' [? ?]. by apply Hcan.
  - apply accepts_now. intros now. apply Hok; [|done].
    destruct Hr. cbv zeta in *. unfold at_rest in *.
    unfold in_state in *.
    constructor; unfold in_state; cbn; try done.
    all: destruct Est as [Est|Est]; rewrite Est in *; try done.
    all: destruct_and!; split_and!; try done; rewrite ?u64_id by ulia; lia.
Qed.

Lemma accepts_safe_point g t t0 :
  transaction_repr at_rest g t → ts_state (t_summary t) = YVEX_EXECUTION_TRANSACTION_EXECUTING →
  accepts (Protocol (p_executed g + 1) Running (p_leased g)) (transaction_safe_point t)
    (execute_post g t0).
Proof.
  intros Hr Est. unfold transaction_safe_point.
  assert (Hin : in_state t YVEX_EXECUTION_TRANSACTION_EXECUTING = true) by by apply bool_decide_eq_true_2.
  rewrite Hin. cbn [negb]. clear Hin. apply accepts_stop_bind. intros wall.
  apply (repr_wall _ _ _ wall) in Hr.
  set (t1 := t <| t_summary ::= _ |>) in *.
  assert (Est1 : ts_state (t_summary t1) = YVEX_EXECUTION_TRANSACTION_EXECUTING) by done.
  clearbody t1. clear Est t wall. cbv zeta. apply accepts_now. intros start.
  assert (Hlt : p_executed g + 1 ≤ op_quantum_count o ≤ ULLONG_MAX ∧ 0 ≤ p_executed g).
  { destruct Hr. cbv zeta in *. rewrite Est1 in tr_state0. lia. }
  assert (Hc : ts_completed_quanta (t_summary t1) = p_executed g ∧
               ts_admitted_quanta (t_summary t1) = op_quantum_count o) by (destruct Hr; done).
  set (st := if p_executed g + 1 =? op_quantum_count o then YVEX_EXECUTION_TRANSACTION_READY_TO_COMMIT
             else YVEX_EXECUTION_TRANSACTION_SAFE).
  assert (Hbase := repr_completed g t1 st (ts_yields (t_summary t1)) Hr Est1).
  cbv zeta in Hbase. assert (Hbase1 := Hbase ltac:(unfold st; destruct (Z.eqb_spec (p_executed g + 1) (op_quantum_count o)); lia)).
  clear Hbase.
  assert (Hlive : ∀ x : yvex_runtime_execution_transaction, live_state (set_state st x)).
  { intros x. unfold st. by destruct (_ =? _). }
  set (g1 := Protocol (p_executed g + 1) Running (p_leased g)) in *.
  assert (Htail : ∀ t' g' action start,
    execute_post g t0 (t', Done action) g' →
    accepts g' (finish ⇐ now_if_timed start ;
      Ret (match elapsed_between start finish with
           | Some elapsed => t' <| t_summary ::= λ s,
               s <| ts_safe_point_nanoseconds ::= λ n, transaction_add n elapsed |> |>
           | None => t'
           end, Done action)) (execute_post g t0)).
  { intros t' g' action start' [[Hr' Hx'] Hpost]. apply accepts_now_if_timed. intros finish.
    cbn [Effects.accepts]. destruct (elapsed_between start' finish) as [elapsed|]; [|done].
    split; [split; [by apply repr_safe|done]|]. exact Hpost. }
  eapply (accepts_cancel_requested g1 (set_state st
    (t1 <| t_summary ::= λ s, s <| ts_completed_quanta ::= λ n, u64 (n + 1) |>
                                <| ts_safe_points ::= λ n, u64 (n + 1) |> |>))); [exact Hbase1|apply Hlive|..].
  - apply accepts_bind with (P := λ r, execute_post g t0 (r.1, Done r.2));
      [|intros [t' action] g' HP; apply Htail; exact HP].
    eapply (accepts_drop_as st).
    + pose proof (repr_cancelled g1 _ Doomed Hbase1 (Hlive _) (or_intror eq_refl)) as Hcan. exact Hcan.
    + apply Hlive.
    + intros t2 g2 Hrest Hex. split; [done|]. by split.
  - change (ts_completed_quanta (t_summary (t1 <| t_summary ::= λ s,
        s <| ts_completed_quanta ::= λ n, u64 (n + 1) |> <| ts_safe_points ::= λ n, u64 (n + 1) |> |>)))
      with (u64 (ts_completed_quanta (t_summary t1) + 1)).
    change (ts_admitted_quanta (t_summary (t1 <| t_summary ::= λ s,
        s <| ts_completed_quanta ::= λ n, u64 (n + 1) |> <| ts_safe_points ::= λ n, u64 (n + 1) |> |>)))
      with (ts_admitted_quanta (t_summary t1)).
    destruct Hc as [-> ->]. rewrite u64_id by ulia. unfold st in *. clear st.
    apply accepts_bind with (P := λ r, execute_post g t0 (r.1, Done r.2));
      [|intros [t' action] g' HP; apply Htail; exact HP].
    destruct (Z.eqb_spec (p_executed g + 1) (op_quantum_count o)) as [Hn|Hn].
    + split; [by split|]. by split.
    + cbn [t_options]. change (t_options (t1 <| t_summary ::= _ |>)) with (t_options t1).
      eapply accepts_bind with (P := λ yes g', g' = g1 ∧ ((yes : bool) = true → is_Some (op_yield_requested o))).
      { destruct Hr. rewrite tr_options0. destruct (op_yield_requested o) as [f|] eqn:Ey; [|done].
        eapply accepts_call; [reflexivity| |by intros r]. unfold leased_ok in *. cbn. rewrite Ey.
        split_and!; try done; lia. }
      intros yes g' [-> Hy]. destruct yes; cbn [Effects.accepts].
      * split; [|split; [done|by split; [|apply Hy]]]. split; [|done].
        assert (Hyields : 0 ≤ ts_yields (t_summary t1) ≤ p_executed g) by (destruct Hr; lia).
        refine (repr_completed g t1 YVEX_EXECUTION_TRANSACTION_YIELDED
          (u64 (ts_yields (t_summary t1) + 1)) Hr Est1 _). rewrite u64_id by ulia. lia.
      * split; [by split|]. by split.
Qed.


(** One quantum, started between operations. *)
Lemma accepts_execute g t :
  resting g t → accepts g (yvex_runtime_execution_transaction_execute_quantum t) (execute_post g t).
Proof.
  intros Hrest. unfold yvex_runtime_execution_transaction_execute_quantum. cbv zeta.
  apply accepts_bind with (P := λ r g', match r.2 with
    | Refused _ _ => resting g' r.1 ∧ (aborted r.1 ∨ r.1 = t ∧ g' = g ∧
        ¬ (ts_state (t_summary t) = YVEX_EXECUTION_TRANSACTION_PREPARED ∨
           ts_state (t_summary t) = YVEX_EXECUTION_TRANSACTION_SAFE))
    | Done _ => g' = g ∧ transaction_repr at_rest g r.1 ∧
        ts_state (t_summary r.1) = YVEX_EXECUTION_TRANSACTION_EXECUTING end).
  { apply accepts_begin; [done|..]; cbn; [intros; split; [done|by right]|intros; split; [done|by left]|done]. }
  intros [t1 [[]|rc why]] g1; cbn [fst snd]; [|intros [Hr Ha]; by split].
  intros (-> & Hr & Est).
  assert (Hl : live_state t1) by by unfold live_state; rewrite Est.
  pose proof (repr_running _ _ Hr Hl) as Hp.
  assert (Hc : ts_completed_quanta (t_summary t) = p_executed g) by by destruct Hrest as [[] _].
  rewrite Hc. eapply accepts_call; [reflexivity| |].
  { destruct Hr. cbv zeta in *. rewrite Est in tr_state0. unfold transaction_options_valid in tr_valid0.
    guards. rewrite tr_options0. split_and!; done. }
  intros [rc why]. cbn. case_decide as Hrc.
  - rewrite bool_decide_eq_true_2 by done. cbn. by apply accepts_safe_point.
  - rewrite bool_decide_eq_false_2 by done. cbn.
    assert (Hd : transaction_repr ending (doomed g) t1).
    { destruct Hr. constructor; try done. cbv zeta in *. rewrite Est in *.
      unfold ending, at_rest, doomed in *. cbn. destruct_and!. split_and!; try done; [by right|lia..]. }
    apply accepts_bind with (P := λ r g', resting g' r.1 ∧ aborted r.1).
    { apply accepts_abort; [done|by rewrite Est|by rewrite Est|]. intros t2 g2 H1 H2. by split. }
    intros [t2 ?] g2 [H1 H2]. split; [done|by left].
Qed.

Lemma accepts_resume g t :
  resting g t →
  accepts g (yvex_runtime_execution_transaction_resume t) (λ r g', resting g' r.1 ∧
    match r.2 with
    | Done _ => g' = g ∧ ts_state (t_summary r.1) = YVEX_EXECUTION_TRANSACTION_SAFE
    | Refused _ _ => aborted r.1 ∨ ts_state (t_summary t) ≠ YVEX_EXECUTION_TRANSACTION_YIELDED
    end).
Proof.
  intros [Hr Hx]. unfold yvex_runtime_execution_transaction_resume.
  destruct (in_state t YVEX_EXECUTION_TRANSACTION_YIELDED) eqn:Est; unfold in_state in Est; guards.
  2:{ split; [done|by right]. }
  cbn [negb]. assert (Hl : live_state t) by by unfold live_state; rewrite Est.
  apply (accepts_cancel_requested g t); [done|done| |].
  - apply accepts_bind with (P := λ t' g', resting g' t' ∧ aborted t').
    { apply accepts_cancel; [done|done|by split]. }
    intros t' g' [? ?]. split; [done|by left].
  - split; [|done]. split; [|done]. destruct Hr. cbv zeta in *. unfold at_rest in *.
    constructor; unfold in_state in *; rewrite Est in *; cbn; try done.
    + rewrite u64_id by ulia. lia.
    + destruct_and!. split_and!; try done; rewrite ?u64_id by ulia; lia.
Qed.

(** Committing publishes or aborts, in the right state only. *)
Lemma accepts_commit g t :
  resting g t →
  accepts g (yvex_runtime_execution_transaction_commit t) (λ r g', resting g' r.1 ∧
    match r.2 with
    | Done _ => ts_state (t_summary r.1) = YVEX_EXECUTION_TRANSACTION_COMMITTED
    | Refused _ _ => aborted r.1 ∨ ts_state (t_summary t) ≠ YVEX_EXECUTION_TRANSACTION_READY_TO_COMMIT
    end).
Proof.
  intros [Hr Hx]. unfold yvex_runtime_execution_transaction_commit.
  destruct (in_state t YVEX_EXECUTION_TRANSACTION_READY_TO_COMMIT) eqn:Est; unfold in_state in Est; guards.
  2:{ split; [done|by right]. }
  cbn [negb]. assert (Hl : live_state t) by by unfold live_state; rewrite Est.
  pose proof (repr_running _ _ Hr Hl) as Hp.
  apply (accepts_cancel_requested g t); [done|done| |].
  { apply accepts_bind with (P := λ t' g', resting g' t' ∧ aborted t').
    { apply accepts_cancel; [done|done|by split]. }
    intros t' g' [? ?]. split; [done|by left]. }
  apply accepts_bind with (P := λ r g', g' = if decide (op_publish o = None) then g
      else Protocol (p_executed g) (if decide (r.1 = YVEX_OK) then Published else Doomed) (p_leased g)).
  { destruct Hr. cbv zeta in *. rewrite Est in tr_state0. rewrite tr_options0.
    destruct (op_publish o) as [f|] eqn:Ep; [|done].
    eapply accepts_call; [reflexivity| |intros r; done].
    rewrite Ep. split_and!; try done; lia. }
  intros [rc why] g' ->. cbn [fst snd].
  destruct (bool_decide (rc = YVEX_OK)) eqn:Erc; guards; cbn [negb].
  - rewrite (decide_True _ _ Erc). split; [|done].
    set (g2 := if decide (op_publish o = None) then g else _).
    assert (p_executed g2 = p_executed g ∧ p_leased g2 = p_leased g ∧
            p_phase g2 = if decide (op_publish o = None) then Running else Published) as (E1 & E2 & E3).
    { unfold g2. by destruct (decide (op_publish o = None)). }
    clearbody g2. split; [|done]. destruct Hr. cbv zeta in *. unfold at_rest, leased_ok in *.
    constructor; unfold leased_ok, in_state in *; rewrite Est in *; cbn; rewrite ?E1, ?E2, ?E3; try done.
    + by rewrite tr_publications0.
    + destruct_and!. by split_and!.
  - rewrite (decide_False _ _ Erc). eapply accepts_drop; [|exact Hl|].
    + destruct (decide (op_publish o = None)); [by apply repr_ending|].
      destruct Hr. constructor; try done. cbv zeta in *. rewrite Est in *. unfold ending, at_rest in *.
      cbn. destruct_and!. split_and!; try done; [by right|lia..].
    + intros t1 g1 Hrest _. split; [done|by left].
Qed.

Lemma accepts_abort_any g t :
  resting g t →
  accepts g (yvex_runtime_execution_transaction_abort t) (λ r g', resting g' r.1 ∧
    (aborted r.1 ∨ r.1 = t ∧ ts_state (t_summary t) = YVEX_EXECUTION_TRANSACTION_COMMITTED)).
Proof.
  intros [Hr Hx]. destruct (decide (ts_state (t_summary t) = YVEX_EXECUTION_TRANSACTION_COMMITTED)) as [Hc|Hc].
  { unfold yvex_runtime_execution_transaction_abort, in_state. rewrite bool_decide_eq_true_2 by done.
    split; [done|by right]. }
  destruct (decide (aborted t)) as [Ha|Ha].
  { unfold yvex_runtime_execution_transaction_abort, in_state. rewrite bool_decide_eq_false_2 by done.
    rewrite bool_decide_eq_true_2 by done. split; [done|by left]. }
  apply accepts_abort; [by apply repr_ending|done|done|]. intros. split; [done|by left].
Qed.

(** Closing releases the lease; a failed release keeps the ended transaction. *)
Lemma accepts_close g t :
  resting g t →
  accepts g (yvex_runtime_execution_transaction_close (Some t)) (λ r g',
    match r.1 with
    | None => p_leased g' = false ∧ r.2 = YVEX_OK
    | Some t' => resting g' t' ∧ r.2 ≠ YVEX_OK
    end).
Proof.
  intros [Hr Hx]. unfold yvex_runtime_execution_transaction_close.
  apply accepts_bind with (P := λ t' g', resting g' t' ∧
    (aborted t' ∨ ts_state (t_summary t') = YVEX_EXECUTION_TRANSACTION_COMMITTED)).
  { unfold in_state. destruct (bool_decide _ || bool_decide _) eqn:Est; guards.
    - split; [done|]. by destruct Est; [right|left].
    - apply accepts_stop_bind. intros wall. eapply accepts_drop; [by apply repr_wall, repr_ending|by split|].
      intros t1 g1 Hrest _. split; [done|by left]. }
  clear. intros t g [[Hr Hx] Hend]. destruct (t_resource_retained t) eqn:Eret.
  2:{ split; [|done]. destruct Hr. by rewrite <- tr_retained0. }
  destruct Hr. pose proof tr_retained0 as Hlease. rewrite Eret in Hlease. symmetry in Hlease.
  specialize (tr_resource0 Hlease). eapply accepts_call; [reflexivity| |].
  { rewrite tr_resource0. unfold transaction_options_valid in tr_valid0. rewrite tr_resource0 in tr_valid0.
    guards. split_and!; try done. cbv zeta in *. destruct Hend as [Hend|Hend]; rewrite Hend in *.
    - destruct (decide (op_discard o = None)); [by right; right; left|right; left; tauto].
    - destruct (decide (op_publish o = None)); [right; right; right; tauto|left; tauto]. }
  intros [rc why]. cbn. destruct (decide (rc = YVEX_OK)) as [Hrc|Hrc].
  - by rewrite bool_decide_eq_true_2.
  - rewrite bool_decide_eq_false_2 by done. split; [|done]. split; [|done].
    unfold leased_ok in *. rewrite Hlease in *. by constructor.
Qed.

Lemma accepts_session_op op g t :
  resting g t →
  accepts g (session_op op t) (λ r g',
    match r with None => p_leased g' = false | Some t' => resting g' t' end).
Proof.
  intros Hr. destruct op; cbn [session_op]; (eapply accepts_bind;
    [first [by apply accepts_execute|by apply accepts_resume|by apply accepts_commit
           |by apply accepts_abort_any|by apply accepts_close]|]); intros [r1 r2] g1; cbn [fst snd].
  1-4: by intros [??].
  destruct r1; [by intros [??]|by intros [??]].
Qed.

Lemma accepts_session ops g t :
  resting g t →
  accepts g (session ops (Some t)) (λ r g',
    match r with None => p_leased g' = false | Some t' => resting g' t' end).
Proof.
  revert g t. induction ops as [|op ops IH]; intros g t Hr; [done|]. cbn [session].
  eapply accepts_bind; [by apply accepts_session_op|]. intros [t1|] g1 H1; [by apply IH|].
  by destruct ops.
Qed.

Lemma accepts_open :
  is_u64 (op_quantum_count o) →
  accepts protocol_init (yvex_runtime_execution_transaction_open (Some o)) (λ r g,
    match r with
    | Refused _ _ => p_leased g = false
    | Done t => resting g t ∧ ts_state (t_summary t) = YVEX_EXECUTION_TRANSACTION_PREPARED ∧
        p_executed g = 0
    end).
Proof.
  intros HN. unfold yvex_runtime_execution_transaction_open.
  destruct (transaction_options_valid o) eqn:Ev; [|done]. cbn [negb].
  apply accepts_now. intros start. cbn. intros [|]; [|done]. cbn.
  apply accepts_bind with (P := λ r g, match r with
    | Refused _ _ => p_leased g = false
    | Done t => resting g t ∧ ts_state (t_summary t) = YVEX_EXECUTION_TRANSACTION_PREPARED ∧
        p_executed g = 0
    end).
  - pose proof Ev as Ev'. unfold transaction_options_valid in Ev'. guards.
    destruct (op_resource o) as [lease|] eqn:El; guards.
    + eapply accepts_call; [reflexivity|by rewrite El|]. intros [rc why]. cbn.
      destruct (decide (rc = YVEX_OK)) as [Hrc|Hrc];
        [rewrite bool_decide_eq_true_2 by done|rewrite bool_decide_eq_false_2 by done]; [|done].
      split; [|done]. split; [|done]. constructor; unfold leased_ok, at_rest; cbn; rewrite ?El; try done; ulia.
    + split; [|done]. split; [|done]. constructor; unfold leased_ok, at_rest; cbn; rewrite ?El; try done; ulia.
  - intros [t|rc why] g; [|done]. intros ([Hr Hx] & Hs & He). apply accepts_now_if_timed. intros finish.
    cbn. destruct (elapsed_between start finish) as [elapsed|]; [|by split].
    split; [|done]. split; [|done]. destruct Hr. by constructor.
Qed.

Lemma accepts_transaction_session ops :
  is_u64 (op_quantum_count o) →
  accepts protocol_init (transaction_session o ops) (λ r g,
    match r with None => p_leased g = false | Some t' => resting g t' end).
Proof.
  intros HN. unfold transaction_session. eapply accepts_bind; [by apply accepts_open|].
  intros [t|rc why] g; [|done]. intros (Hr & _). by apply accepts_session.
Qed.


(** ** The client's loop *)

Lemma accepts_latent control remaining step g t :
  resting g t → p_executed g = step → Z.of_nat remaining = op_quantum_count o - step →
  (ts_state (t_summary t) =
     if remaining is O then YVEX_EXECUTION_TRANSACTION_READY_TO_COMMIT
     else if step =? 0 then YVEX_EXECUTION_TRANSACTION_PREPARED else YVEX_EXECUTION_TRANSACTION_SAFE) →
  accepts g (latent_iterate control (op_quantum_count o) remaining step t) (λ r g', resting g' r.1 ∧
    match r.2 with
    | Done _ => ts_state (t_summary r.1) = YVEX_EXECUTION_TRANSACTION_READY_TO_COMMIT
    | Refused _ _ => aborted r.1 ∨ ts_state (t_summary r.1) = YVEX_EXECUTION_TRANSACTION_YIELDED
    end).
Proof.
  revert step g t. induction remaining as [|remaining IH]; intros step g t Hr Hex Hrem Hst; [done|].
  cbn [latent_iterate]. eapply accepts_bind; [by apply accepts_execute|].
  intros [t1 executed] g1 [Hr1 Hpost]. cbn [fst snd] in *.
  apply accepts_bind with (P := λ r g', resting g' r.1 ∧
    match r.2 with
    | Done YVEX_EXECUTION_SAFE_POINT_CONTINUE => p_executed g' = step + 1 ∧
        ts_state (t_summary r.1) = YVEX_EXECUTION_TRANSACTION_SAFE
    | Done YVEX_EXECUTION_SAFE_POINT_COMMIT => p_executed g' = step + 1 ∧
        ts_state (t_summary r.1) = YVEX_EXECUTION_TRANSACTION_READY_TO_COMMIT
    | Done _ => False
    | Refused _ _ => aborted r.1 ∨ ts_state (t_summary r.1) = YVEX_EXECUTION_TRANSACTION_YIELDED
    end).
  { destruct executed as [[| | |]|rc why]; cbn [Effects.accepts].
    - split; [done|]. cbn. by rewrite <- Hex.
    - destruct Hpost as (Hx1 & Hy & Hsome). eapply accepts_call; [reflexivity| |].
      + destruct Hr1 as [[] _]. cbv zeta in *. rewrite Hy in tr_state0. unfold at_rest in *.
        split_and!; [tauto|lia..|done].
      + intros [rc why]. cbn. destruct (bool_decide (rc = YVEX_OK)); cbn; [|split; [done|by right]].
        eapply accepts_bind; [by apply accepts_resume|]. intros [t2 [[]|rc2 why2]] g2 [Hr2 H2]; cbn in *.
        * destruct H2 as [-> ?]. split; [done|]. by rewrite <- Hex.
        * split; [done|]. destruct H2 as [?|?]; [by left|done].
    - destruct Hpost as [_ Ha]. split; [done|by left].
    - destruct Hpost as [Hx1 Ha]. split; [done|]. by rewrite <- Hex.
    - split; [done|]. destruct Hpost as [?|(-> & -> & Hn)]; [by left|]. destruct Hn. rewrite Hst.
      destruct (step =? 0); [by left|by right]. }
  intros [t2 [action|rc why]] g2 [Hr2 H2]; cbn [fst snd] in *; [|done].
  assert (Hstep : 0 ≤ step) by (destruct Hr as [[] _]; lia).
  assert (Hbound : match ts_state (t_summary t2) with
    | YVEX_EXECUTION_TRANSACTION_SAFE => p_executed g2 < op_quantum_count o
    | YVEX_EXECUTION_TRANSACTION_READY_TO_COMMIT => p_executed g2 = op_quantum_count o
    | _ => True end).
  { destruct Hr2 as [[] _]. cbv zeta in *. destruct (ts_state (t_summary t2)); tauto. }
  destruct action; try done; destruct H2 as [Hx2 Hs2]; rewrite Hs2 in Hbound.
  - rewrite (proj2 (Z.ltb_lt _ _)) by lia. apply IH; [done|done|lia|].
    rewrite Hs2. destruct remaining; [lia|]. by rewrite (proj2 (Z.eqb_neq _ _)) by lia.
  - rewrite (proj2 (Z.eqb_eq _ _)) by lia. apply IH; [done|done|lia|].
    rewrite Hs2. destruct remaining; [done|lia].
Qed.


(** ** What an accepted log says *)

(** A call that ends the work: an affirmative cancellation, a failed quantum, a publication, a
    discard. *)
Definition stops (c : logged answer) : Prop :=
  match c with
  | existT e r =>
      match e return answer e → Prop with
      | CancelRequested _ _ => λ yes, yes = true
      | Execute _ _ _ => λ r, r.1 ≠ YVEX_OK
      | Publish _ _ | Discard _ _ => λ _, True
      | _ => λ _, False
      end r
  end.

(** A call that settles the fate of the work. *)
Definition settles (c : logged answer) : Prop :=
  match c with
  | existT e r =>
      match e return answer e → Prop with
      | Publish _ _ => λ r, r.1 = YVEX_OK
      | Discard _ _ => λ _, True
      | _ => λ _, False
      end r
  end.

(** The ordinals of the quanta that succeeded, in order. *)
Definition succeeded_one (c : logged answer) : list Z :=
  match c with
  | existT e r =>
      match e return answer e → list Z with
      | Execute _ _ ordinal => λ r, if decide (r.1 = YVEX_OK) then [ordinal] else []
      | _ => λ _, []
      end r
  end.
Definition succeeded (log : list (logged answer)) : list Z := log ≫= succeeded_one.

(** Leases taken minus leases returned. *)
Definition lease_change (c : logged answer) : Z :=
  match c with
  | existT e r =>
      match e return answer e → Z with
      | Retain _ _ => λ r, if decide (r.1 = YVEX_OK) then 1 else 0
      | Release _ _ => λ r, if decide (r.1 = YVEX_OK) then -1 else 0
      | _ => λ _, 0
      end r
  end.
Definition lease_balance (log : list (logged answer)) : Z := total (lease_change <$> log).

Definition is_work (e : request) : bool :=
  match e with Execute _ _ _ | Publish _ _ => true | _ => false end.
Definition is_discard (e : request) : bool := match e with Discard _ _ => true | _ => false end.

Definition open_phase (p : protocol_phase) : Prop := p = Running ∨ p = Doomed.
Definition lease_count (g : protocol) : Z := if p_leased g then 1 else 0.

Lemma allowed_Some P `{Decision P} g g' : allowed P g = Some g' → P ∧ g = g'.
Proof. unfold allowed. by case_decide; [intros [= ->]|]. Qed.

(** One call. *)
Lemma step_facts g e r g' :
  protocol_step g e r = Some g' →
  (p_phase g' = Running → p_phase g = Running ∧ ¬ stops (existT e r)) ∧
  (open_phase (p_phase g') → open_phase (p_phase g) ∧ ¬ settles (existT e r)) ∧
  succeeded_one (existT e r) = seqZ (p_executed g) (p_executed g' - p_executed g) ∧
  p_executed g ≤ p_executed g' ∧
  lease_change (existT e r) = lease_count g' - lease_count g.
Proof.
  unfold open_phase, lease_count.
  destruct e; cbn; [| |intros [H <-]%allowed_Some ..]; try (intros [= <-]); cbn.
  all: rewrite ?Z.sub_diag; try case_decide; cbn.
  all: try (destruct r); cbn in *; destruct_and?.
  all: split_and!; try done; try lia; try tauto; try naive_solver.
  - rewrite Z.add_simpl_l. by simplify_eq.
  - by rewrite Z.sub_diag.
  - simplify_eq/=. by rewrite bool_decide_eq_false_2.
  - rewrite bool_decide_eq_true_2 by done. by match goal with H : p_leased g = true |- _ => rewrite H end.
  - rewrite bool_decide_eq_false_2 by done. by match goal with H : p_leased g = true |- _ => rewrite H end.
Qed.

Lemma log_facts log g g' :
  follow protocol_step g log = Some g' →
  (p_phase g' = Running → p_phase g = Running ∧ Forall (λ c, ¬ stops c) log) ∧
  (open_phase (p_phase g') → open_phase (p_phase g) ∧ Forall (λ c, ¬ settles c) log) ∧
  succeeded log = seqZ (p_executed g) (p_executed g' - p_executed g) ∧
  p_executed g ≤ p_executed g' ∧
  lease_balance log = lease_count g' - lease_count g.
Proof.
  revert g. induction log as [|[e r] log IH]; intros g; cbn [follow].
  { intros [= ->]. rewrite !Z.sub_diag. split_and!; try done. }
  destruct (protocol_step g e r) as [g1|] eqn:E1; [|done]. intros H.
  destruct (IH g1 H) as (A1 & A2 & A3 & A4 & A5). destruct (step_facts _ _ _ _ E1) as (B1 & B2 & B3 & B4 & B5).
  split_and!.
  - intros Hp. destruct (A1 Hp) as [Hp1 ?]. destruct (B1 Hp1). by split; [|constructor].
  - intros Hp. destruct (A2 Hp) as [Hp1 ?]. destruct (B2 Hp1). by split; [|constructor].
  - unfold succeeded in *. cbn [mbind list_bind]. rewrite A3, B3.
    replace (p_executed g' - p_executed g) with
      ((p_executed g1 - p_executed g) + (p_executed g' - p_executed g1)) by lia.
    rewrite (seqZ_app (p_executed g)) by lia. f_equal. f_equal. lia.
  - lia.
  - unfold lease_balance in *. rewrite fmap_cons, total_cons, A5, B5. lia.
Qed.

(** Discipline of an accepted log: work only while nothing has stopped it, publication only after
    every quantum, one settlement. *)
Definition disciplined (log : list (logged answer)) : Prop :=
  (∃ k, 0 ≤ k ≤ op_quantum_count o ∧ succeeded log = seqZ 0 k) ∧
  ∀ l1 e (r : answer e) l2, log = l1 ++ existT e r :: l2 →
    (is_work e = true → Forall (λ c, ¬ stops c) l1) ∧
    (match e with
     | Execute f context ordinal =>
         f = op_execute o ∧ context = op_execution_context o ∧
         succeeded l1 = seqZ 0 ordinal ∧ 0 ≤ ordinal < op_quantum_count o
     | Publish _ _ => succeeded l1 = seqZ 0 (op_quantum_count o)
     | Discard _ _ => Forall (λ c, ¬ settles c) l1
     | _ => True
     end).

Lemma follow_disciplined log g :
  0 ≤ op_quantum_count o → follow protocol_step protocol_init log = Some g →
  p_executed g ≤ op_quantum_count o → disciplined log.
Proof.
  intros HN Hg Hle. destruct (log_facts _ _ _ Hg) as (_ & _ & Hs & Hpos & _). cbn in Hs, Hpos.
  split; [exists (p_executed g); rewrite Z.sub_0_r in Hs; by split|].
  intros l1 e r l2 ->. rewrite follow_app in Hg.
  destruct (follow protocol_step protocol_init l1) as [g1|] eqn:E1; [|done]. cbn in Hg.
  destruct (protocol_step g1 e r) as [g2|] eqn:E2; [|done].
  destruct (log_facts _ _ _ E1) as (A1 & A2 & A3 & A4 & _). cbn in A3, A4. rewrite Z.sub_0_r in A3.
  destruct e; cbn in E2; try (split; done); apply allowed_Some in E2 as [H _]; destruct_and!.
  - split; [intros _; by apply A1|]. subst. by split_and!.
  - split; [intros _; by apply A1|]. rewrite A3. by f_equal.
  - split; [done|]. by apply A2.
Qed.

(** ** Progress in a well-behaved environment *)

(** Nothing is cancelled and no callback fails; clocks and yields are arbitrary. *)
Definition well_behaved (e : request) : answer e → Prop :=
  match e with
  | Allocate => λ b, b = true
  | CancelRequested _ _ => λ b, b = false
  | Execute _ _ _ | Publish _ _ | Retain _ _ | YieldResume _ => λ r, r.1 = YVEX_OK
  | _ => λ _, True
  end.

Notation ensures := (ensures well_behaved).

(** [k] quanta executed, in state [state]. *)
Definition progress (k : Z) (state : yvex_execution_transaction_state)
    (t : yvex_runtime_execution_transaction) : Prop :=
  t_options t = o ∧ ts_admitted_quanta (t_summary t) = op_quantum_count o ∧
  ts_completed_quanta (t_summary t) = k ∧ ts_state (t_summary t) = state.

Lemma ensures_cancel_requested {A} t (k : bool → act A) Q :
  ensures (k false) Q → ensures (prog_bind (transaction_cancel_requested t) k) Q.
Proof.
  intros Hk. unfold transaction_cancel_requested. destruct (op_cancel_requested (t_options t)); [|done].
  by intros r ->.
Qed.

Lemma ensures_stop {A} t (k : yvex_runtime_execution_transaction → act A) Q :
  (∀ wall, ensures (k (t <| t_summary ::= λ s, s <| ts_quantum_wall_nanoseconds := wall |> |>)) Q) →
  ensures (prog_bind (transaction_stop_quantum t) k) Q.
Proof.
  intros Hk. unfold transaction_stop_quantum.
  assert (Hs : t <| t_summary ::= λ s, s <| ts_quantum_wall_nanoseconds :=
    ts_quantum_wall_nanoseconds (t_summary t) |> |> = t) by by destruct t as [?? []].
  destruct (negb _); cbn.
  - by rewrite <- Hs.
  - intros [finish|] _; [apply Hk|by rewrite <- Hs].
Qed.

Definition next_state (k : Z) (action : yvex_execution_safe_point_action) : yvex_execution_transaction_state :=
  match action with
  | YVEX_EXECUTION_SAFE_POINT_CONTINUE => YVEX_EXECUTION_TRANSACTION_SAFE
  | YVEX_EXECUTION_SAFE_POINT_YIELD => YVEX_EXECUTION_TRANSACTION_YIELDED
  | _ => YVEX_EXECUTION_TRANSACTION_READY_TO_COMMIT
  end.

Definition executed_progress (k : Z)
    (r : yvex_runtime_execution_transaction * outcome yvex_execution_safe_point_action) : Prop :=
  ∃ action, r.2 = Done action ∧ progress (k + 1) (next_state k action) r.1 ∧
    (if k + 1 =? op_quantum_count o then action = YVEX_EXECUTION_SAFE_POINT_COMMIT
     else action = YVEX_EXECUTION_SAFE_POINT_CONTINUE ∨ action = YVEX_EXECUTION_SAFE_POINT_YIELD).

Lemma ensures_execute k st t :
  progress k st t → st = YVEX_EXECUTION_TRANSACTION_PREPARED ∨ st = YVEX_EXECUTION_TRANSACTION_SAFE →
  0 ≤ k < op_quantum_count o → op_quantum_count o ≤ ULLONG_MAX →
  ensures (yvex_runtime_execution_transaction_execute_quantum t) (executed_progress k).
Proof.
  intros (Ho & Ha & Hc & Hs) Hst Hk HN.
  unfold yvex_runtime_execution_transaction_execute_quantum, transaction_quantum_begin. cbv zeta.
  rewrite Z.eqb_refl, Ha, (proj2 (Z.leb_gt _ _)) by lia. unfold in_state at 1 2. rewrite Hs.
  replace (bool_decide (st = _) || bool_decide (st = _)) with true
    by (destruct Hst as [-> | ->]; reflexivity). cbn [negb orb].
  eapply ensures_bind with (P := λ r, r.2 = Done tt ∧ progress k YVEX_EXECUTION_TRANSACTION_EXECUTING r.1).
  { apply ensures_cancel_requested. by intros now _. }
  intros [t1 begun] [Hb (Ho1 & Ha1 & Hc1 & Hs1)]. cbn [fst snd] in *. subst begun. intros [rc why] Hrc. cbn in Hrc. cbn -[transaction_safe_point].
  rewrite bool_decide_eq_true_2 by done. cbn [negb].
  unfold transaction_safe_point. unfold in_state at 1. rewrite Hs1, bool_decide_eq_true_2 by done. cbn [negb].
  apply ensures_stop. intros wall. cbv zeta.
  set (t2 := t1 <| t_summary ::= _ |> <| t_summary ::= _ |>).
  assert (Hf : t_options t2 = o ∧ ts_admitted_quanta (t_summary t2) = op_quantum_count o ∧
               ts_completed_quanta (t_summary t2) = k + 1).
  { unfold t2. cbn. rewrite Hc1, u64_id by ulia. done. }
  clearbody t2. destruct Hf as (Ho2 & Ha2 & Hc2). intros start _. cbn [prog_bind].
  apply ensures_cancel_requested. rewrite Hc2, Ha2.
  apply ensures_bind with (P := λ r, executed_progress k (r.1, Done r.2)).
  - destruct (k + 1 =? op_quantum_count o) eqn:Ek.
    + exists YVEX_EXECUTION_SAFE_POINT_COMMIT. by rewrite Ek.
    + apply ensures_bind with (P := λ _, True); [by destruct (op_yield_requested (t_options t2))|].
      intros [|] _; [exists YVEX_EXECUTION_SAFE_POINT_YIELD|exists YVEX_EXECUTION_SAFE_POINT_CONTINUE];
        rewrite Ek; (split; [done|]); (split; [done|]); by (left + right).
  - intros [t3 action] H. cbn [fst snd] in H.
    apply ensures_bind with (P := λ _, True); [by destruct start|]. intros finish _.
    destruct (elapsed_between start finish); [|exact H]. exact H.
Qed.

Lemma ensures_latent control remaining k t :
  progress k (if remaining is O then YVEX_EXECUTION_TRANSACTION_READY_TO_COMMIT
              else if k =? 0 then YVEX_EXECUTION_TRANSACTION_PREPARED else YVEX_EXECUTION_TRANSACTION_SAFE) t →
  0 ≤ k → Z.of_nat remaining = op_quantum_count o - k → op_quantum_count o ≤ ULLONG_MAX →
  ensures (latent_iterate control (op_quantum_count o) remaining k t)
    (λ r, r.2 = Done tt ∧ progress (op_quantum_count o) YVEX_EXECUTION_TRANSACTION_READY_TO_COMMIT r.1).
Proof.
  revert k t. induction remaining as [|remaining IH]; intros k t Hp Hk Hrem HN.
  { cbn. replace (op_quantum_count o) with k by lia. done. }
  cbn [latent_iterate]. eapply ensures_bind.
  { eapply ensures_execute; [exact Hp| |lia|done]. destruct (k =? 0); [by left|by right]. }
  intros [t1 executed] (action & Hd & Hp1 & Hact). cbn [fst snd] in *. subst executed.
  apply ensures_bind with (P := λ r, if k + 1 =? op_quantum_count o
    then r.2 = Done YVEX_EXECUTION_SAFE_POINT_COMMIT ∧ progress (k + 1) YVEX_EXECUTION_TRANSACTION_READY_TO_COMMIT r.1
    else r.2 = Done YVEX_EXECUTION_SAFE_POINT_CONTINUE ∧ progress (k + 1) YVEX_EXECUTION_TRANSACTION_SAFE r.1).
  { destruct (k + 1 =? op_quantum_count o); [by subst|]. destruct Hact as [-> | ->]; [done|].
    intros [rc why] Hrc. cbn in Hrc. cbn -[yvex_runtime_execution_transaction_resume].
    rewrite bool_decide_eq_true_2 by done. cbn [negb].
    apply ensures_bind with (P := λ r, r.2 = Done tt ∧ progress (k + 1) YVEX_EXECUTION_TRANSACTION_SAFE r.1).
    - destruct Hp1 as (? & ? & ? & Hs1). unfold yvex_runtime_execution_transaction_resume, in_state.
      rewrite Hs1. cbn [next_state]. rewrite bool_decide_eq_true_2 by done. cbn [negb].
      by apply ensures_cancel_requested.
    - intros [t2 resumed] [Hres Hp2]. cbn [fst snd] in *. by subst resumed. }
  intros [t2 point]. destruct (Z.eqb_spec (k + 1) (op_quantum_count o)) as [He|He];
    intros [Hpt Hp2]; cbn [fst snd] in *; subst point.
  - apply IH; [|lia..]. by destruct remaining; [|lia].
  - rewrite (proj2 (Z.ltb_lt _ _)) by lia. apply IH; [|lia..].
    destruct remaining; [lia|]. by rewrite (proj2 (Z.eqb_neq _ _)) by lia.
Qed.

Lemma ensures_commit k t :
  progress k YVEX_EXECUTION_TRANSACTION_READY_TO_COMMIT t →
  ensures (yvex_runtime_execution_transaction_commit t)
    (λ r, r.2 = Done tt ∧ progress k YVEX_EXECUTION_TRANSACTION_COMMITTED r.1).
Proof.
  intros (Ho & Ha & Hc & Hs). unfold yvex_runtime_execution_transaction_commit, in_state.
  rewrite Hs, bool_decide_eq_true_2 by done. cbn [negb]. apply ensures_cancel_requested.
  apply ensures_bind with (P := λ r, r.1 = YVEX_OK); 
    [destruct (op_publish (t_options t)); [intros r Hr; exact Hr|done]|].
  intros [rc why] Hrc. cbn in Hrc. subst rc. cbn. done.
Qed.

Lemma ensures_open :
  transaction_options_valid o = true →
  ensures (yvex_runtime_execution_transaction_open (Some o))
    (λ r, ∃ t, r = Done t ∧ progress 0 YVEX_EXECUTION_TRANSACTION_PREPARED t).
Proof.
  intros Hv. unfold yvex_runtime_execution_transaction_open. rewrite Hv. cbn [negb].
  intros start _. cbn -[now_if_timed]. intros ? ->. cbn -[now_if_timed].
  apply ensures_bind with (P := λ r, ∃ t, r = Done t ∧ progress 0 YVEX_EXECUTION_TRANSACTION_PREPARED t).
  - destruct (op_resource o) as [lease|]; [|by eexists]. intros [rc why] Hrc. cbn in Hrc. subst rc. by eexists.
  - intros ? (t & -> & Hp). apply ensures_bind with (P := λ _, True); [by destruct start|]. intros finish _.
    destruct (elapsed_between start finish); by eexists.
Qed.


Lemma step_bound g e r g' :
  protocol_step g e r = Some g' → p_executed g ≤ op_quantum_count o → 0 ≤ op_quantum_count o →
  p_executed g' ≤ op_quantum_count o.
Proof.
  destruct e; cbn; try (by intros [= <-]); intros [H <-]%allowed_Some ? ?; cbn; try done.
  case_decide; cbn; lia.
Qed.

Lemma follow_bound log g g' :
  follow protocol_step g log = Some g' → p_executed g ≤ op_quantum_count o → 0 ≤ op_quantum_count o →
  p_executed g' ≤ op_quantum_count o.
Proof.
  intros Hf Hg HN. revert g Hf Hg. induction log as [|[e r] log IH]; intros g; cbn; [by intros [= ->]|].
  destruct (protocol_step g e r) as [g1|] eqn:E; [|done]. intros Hf Hg. apply (IH g1 Hf).
  by eapply step_bound.
Qed.

End protocol.

(** * Properties *)

(** C39: For every environment and every sequence of caller operations, the calls an execution transaction
    makes are a run of the protocol automaton, and the transaction that results agrees with the
    automaton's state: state, quantum, yield, publication, discard and cancellation counters, and the
    held lease; after a successful close no lease is held. *)
Theorem transaction_refines_protocol {W} (respond : ∀ e, W → answer e * W) w options ops :
  is_u64 (op_quantum_count options) →
  let log := run_log respond (transaction_session options ops) w in
  ∃ g, follow (protocol_step options) protocol_init log = Some g ∧
    match run_result respond (transaction_session options ops) w with
    | None => p_leased g = false
    | Some t => transaction_repr options at_rest g t ∧
        ts_state (t_summary t) ≠ YVEX_EXECUTION_TRANSACTION_EXECUTING
    end.
Proof.
  intros HN log. destruct (run_accepts (protocol_step options) respond protocol_init
    (transaction_session options ops) _ w (accepts_transaction_session options ops HN)) as (g & Hg & Hr).
  exists g. split; [done|]. by destruct (run_result _ _ _).
Qed.

(** Publication is atomic and the lease is returned. Whatever the environment answers and the caller
    does, quanta are executed in order without repetition, a quantum or a publication is attempted only
    while nothing was cancelled, failed, published or discarded, publication is attempted only after all
    admitted quanta succeeded and hence at most once, the work is discarded at most once and never after
    a successful publication, and leases taken and returned balance when the transaction is closed. *)
Theorem transaction_calls_disciplined {W} (respond : ∀ e, W → answer e * W) w options ops :
  is_u64 (op_quantum_count options) →
  let log := run_log respond (transaction_session options ops) w in
  disciplined options log ∧
  lease_balance log =
    match run_result respond (transaction_session options ops) w with
    | None => 0
    | Some t => if t_resource_retained t then 1 else 0
    end.
Proof.
  intros HN log. destruct (run_accepts (protocol_step options) respond protocol_init
    (transaction_session options ops) _ w (accepts_transaction_session options ops HN)) as (g & Hg & Hr).
  assert (0 ≤ op_quantum_count options) by ulia.
  split; [apply (follow_disciplined _ _ g); [done|done|by apply (follow_bound _ _ _ _ Hg)]|].
  destruct (log_facts _ _ _ _ Hg) as (_ & _ & _ & _ & Hb). unfold log. rewrite Hb.
  change (lease_count protocol_init) with 0. rewrite Z.sub_0_r. unfold lease_count.
  destruct (run_result _ _ _) as [t|]; [|by rewrite Hr]. destruct Hr as [[] _]. by rewrite tr_retained0.
Qed.

(** The loop of the latent client on a freshly opened transaction. *)
Definition latent_transaction (control : option (Z * Z)) (options : yvex_execution_transaction_options)
    : act (option (yvex_runtime_execution_transaction * outcome unit)) :=
  opened ⇐ yvex_runtime_execution_transaction_open (Some options) ;
  match opened with
  | Refused _ _ => Ret None
  | Done t =>
      r ⇐ latent_iterate control (op_quantum_count options) (Z.to_nat (op_quantum_count options)) 0 t ;
      Ret (Some r)
  end.

(** The iteration loop and the transaction agree on progress. When the loop finishes, every admitted
    quantum has succeeded once, in order, and the transaction awaits its commit; when it refuses, the
    transaction is aborted or was left yielded by a failed resume callback, so the refusal "safe-point
    action does not match execution progress" is unreachable. *)
Theorem latent_iteration_sound {W} (respond : ∀ e, W → answer e * W) w control options :
  is_u64 (op_quantum_count options) →
  let log := run_log respond (latent_transaction control options) w in
  match run_result respond (latent_transaction control options) w with
  | None => True
  | Some (t, Done _) => succeeded log = seqZ 0 (op_quantum_count options) ∧
      ts_state (t_summary t) = YVEX_EXECUTION_TRANSACTION_READY_TO_COMMIT
  | Some (t, Refused _ _) => ts_state (t_summary t) = YVEX_EXECUTION_TRANSACTION_ABORTED ∨
      ts_state (t_summary t) = YVEX_EXECUTION_TRANSACTION_YIELDED
  end.
Proof.
  intros HN log.
  assert (Hacc : accepts (protocol_step options) protocol_init (latent_transaction control options) (λ r g,
    match r with
    | None => True
    | Some (t, Done _) => resting options g t ∧
        ts_state (t_summary t) = YVEX_EXECUTION_TRANSACTION_READY_TO_COMMIT
    | Some (t, Refused _ _) => aborted t ∨ ts_state (t_summary t) = YVEX_EXECUTION_TRANSACTION_YIELDED
    end)).
  { unfold latent_transaction. eapply accepts_bind; [by apply accepts_open|].
    intros [t|rc why] g; [|done]. intros (Hr & Hs & He). eapply accepts_bind.
    - apply accepts_latent; [done|done|ulia|]. rewrite Hs.
      destruct Hr as [[] _]. unfold transaction_options_valid in tr_valid0. guards.
      destruct (Z.to_nat _) eqn:En; [ulia|done].
    - intros [t1 [[]|rc why]] g1 [Hr1 H1]; cbn in *; [by split|done]. }
  destruct (run_accepts (protocol_step options) respond _ _ _ w Hacc) as (g & Hg & Hr).
  destruct (run_result _ _ _) as [[t [[]|rc why]]|]; [|done|done].
  destruct Hr as [[Hrepr _] Hs]. split; [|done].
  destruct (log_facts _ _ _ _ Hg) as (_ & _ & Hsucc & _). unfold log. rewrite Hsucc. cbn.
  rewrite Z.sub_0_r. f_equal. destruct Hrepr. cbv zeta in *. rewrite Hs in tr_state0. tauto.
Qed.

(** C40: Progress. With valid options, an environment in which nothing is cancelled and no callback fails,
    however often it yields and whatever its clock says, runs the loop to the end, and the commit
    publishes: all admitted quanta complete and the transaction is COMMITTED. *)
Theorem transaction_completes {W} (respond : ∀ e, W → answer e * W) w control options :
  transaction_options_valid options = true → is_u64 (op_quantum_count options) →
  (∀ e w, well_behaved e (respond e w).1) →
  match run_result respond (r ⇐ latent_transaction control options ;
                            match r with
                            | Some (t, Done _) => r ⇐ yvex_runtime_execution_transaction_commit t ; Ret (Some r)
                            | r => Ret r
                            end) w with
  | Some (t, Done _) => ts_state (t_summary t) = YVEX_EXECUTION_TRANSACTION_COMMITTED ∧
      ts_completed_quanta (t_summary t) = op_quantum_count options
  | _ => False
  end.
Proof.
  intros Hv HN Hok. apply (run_ensures well_behaved respond); [done|].
  assert (Hpos : 0 < op_quantum_count options).
  { unfold transaction_options_valid in Hv. guards. ulia. }
  apply ensures_bind with (P := λ r, ∃ t, r = Some (t, Done tt) ∧
    progress options (op_quantum_count options) YVEX_EXECUTION_TRANSACTION_READY_TO_COMMIT t).
  - unfold latent_transaction. eapply ensures_bind; [by apply ensures_open|]. intros ? (t & -> & Hp).
    eapply ensures_bind.
    + apply ensures_latent; [|lia|ulia|ulia]. destruct (Z.to_nat _) eqn:En; [lia|done].
    + intros [t1 done_] [Hd H1]. cbn in Hd. subst done_. by exists t1.
  - intros ? (t & -> & Hp). eapply ensures_bind; [by apply (ensures_commit options)|].
    intros [t1 done_] [Hd (_ & _ & Hc & Hs)]. cbn in Hd. by subst done_.
Qed.

(** The overflow test of [transaction_elapsed] decides whether the sum fits. *)
Lemma elapsed_split seconds nanoseconds :
  0 ≤ seconds → 0 ≤ nanoseconds ≤ 18446744073709551615 →
  (if (18446744073709551615 - nanoseconds) / 1000000000 <? seconds then 18446744073709551615
   else seconds * 1000000000 + nanoseconds) =
    Z.min 18446744073709551615 (seconds * 1000000000 + nanoseconds).
Proof.
  intros Hs Hn.
  pose proof (Z.div_mod (18446744073709551615 - nanoseconds) 1000000000 ltac:(lia)) as Hd.
  pose proof (Z.mod_pos_bound (18446744073709551615 - nanoseconds) 1000000000 ltac:(lia)) as Hm.
  set (q := (18446744073709551615 - nanoseconds) / 1000000000) in *.
  set (m := (18446744073709551615 - nanoseconds) mod 1000000000) in *. clearbody q m.
  destruct (Z.ltb_spec q seconds); lia.
Qed.

(** The saturating elapsed time is exact. For normalised clock readings, [transaction_elapsed] is the
    difference in nanoseconds, zero when the clock went back and [ULLONG_MAX] when it does not fit. *)
Theorem transaction_elapsed_exact start finish :
  0 ≤ tv_sec start < 2 ^ 63 → 0 ≤ tv_sec finish < 2 ^ 63 →
  0 ≤ tv_nsec start < 1000000000 → 0 ≤ tv_nsec finish < 1000000000 →
  let nanoseconds t := tv_sec t * 1000000000 + tv_nsec t in
  transaction_elapsed start finish =
    Z.min ULLONG_MAX (Z.max 0 (nanoseconds finish - nanoseconds start)).
Proof.
  intros Hs Hf Hsn Hfn nanoseconds. unfold transaction_elapsed, nanoseconds. clear nanoseconds.
  destruct start as [s sn], finish as [f fn]. cbn [tv_sec tv_nsec] in *. unfold ULLONG_MAX.
  change (2 ^ 63) with 9223372036854775808 in *.
  destruct ((f <? s) || ((f =? s) && (fn <? sn))) eqn:E; guards; [lia|].
  rewrite (u64_id (f - s)) by ulia.
  destruct (sn <=? fn) eqn:En; guards; cbn [orb].
  - rewrite u64_id by ulia.
    rewrite elapsed_split by lia. lia.
  - rewrite (proj2 (Z.eqb_neq _ _)) by lia. cbn [negb]. rewrite u64_id by ulia.
    rewrite elapsed_split by lia. lia.
Qed.

(** * A concrete environment *)

(** Everything succeeds; the clock is the state, one second per reading; yields on odd seconds. *)
Definition sample_respond (e : request) (clock : Z) : answer e * Z :=
  match e return answer e * Z with
  | Now => (Some (Timespec clock 0), clock + 1)
  | Allocate => (true, clock)
  | CancelRequested _ _ => (false, clock)
  | YieldRequested _ _ => (Z.odd clock, clock)
  | Execute _ _ _ | Publish _ _ | Retain _ _ | Release _ _ | YieldResume _ => ((YVEX_OK, None), clock)
  | Discard _ _ => (tt, clock)
  end.

Definition sample_options : yvex_execution_transaction_options :=
  let identity := Some "00112233445566778899aabbccddeeff00112233445566778899aabbccddeeff"%string in
  TransactionOptions identity 3 (Some (ResourceLease identity (Some 70) (Some 71) (Some 72)))
    (Some 1) 10 (Some 2) 20 (Some 3) 30 (Some 4) (Some 5) 40.

Lemma sample_quanta : is_u64 (op_quantum_count sample_options).
Proof. cbn. ulia. Qed.

Lemma sample_well_behaved e w : well_behaved e (sample_respond e w).1.
Proof. by destruct e. Qed.

(** Three quanta and a commit: the log and the final state. *)
Lemma transaction_refines_protocol_witness :
  let ops := [OpExecuteQuantum; OpResume; OpExecuteQuantum; OpResume; OpExecuteQuantum; OpCommit] in
  (∃ g, follow (protocol_step sample_options) protocol_init
          (run_log sample_respond (transaction_session sample_options ops) 0) = Some g) ∧
  (ts_state ∘ t_summary <$> run_result sample_respond (transaction_session sample_options ops) 0) =
    Some YVEX_EXECUTION_TRANSACTION_COMMITTED.
Proof.
  intros ops. split; [|vm_compute; reflexivity].
  destruct (transaction_refines_protocol sample_respond 0 sample_options ops sample_quanta) as (g & Hg & _).
  exists g. exact Hg.
Defined.

Lemma transaction_calls_disciplined_witness :
  lease_balance (run_log sample_respond
    (transaction_session sample_options [OpExecuteQuantum; OpAbort; OpClose]) 0) = 0.
Proof.
  destruct (transaction_calls_disciplined sample_respond 0 sample_options
              [OpExecuteQuantum; OpAbort; OpClose] sample_quanta) as [_ H].
  rewrite H. vm_compute. reflexivity.
Defined.

Lemma latent_iteration_sound_witness :
  succeeded (run_log sample_respond (latent_transaction (Some (6, 60)) sample_options) 0) = seqZ 0 3.
Proof.
  pose proof (latent_iteration_sound sample_respond 0 (Some (6, 60)) sample_options sample_quanta) as H.
  cbv zeta in H.
  destruct (run_result sample_respond (latent_transaction (Some (6, 60)) sample_options) 0)
    as [[t [u|st why]]|] eqn:E; [exact (proj1 H)|vm_compute in E; discriminate..].
Defined.

Lemma transaction_completes_witness :
  match run_result sample_respond
      (r ⇐ latent_transaction None sample_options ;
       match r with
       | Some (t, Done _) => r ⇐ yvex_runtime_execution_transaction_commit t ; Ret (Some r)
       | r => Ret r
       end) 0 with
  | Some (t, Done _) => ts_state (t_summary t) = YVEX_EXECUTION_TRANSACTION_COMMITTED ∧
      ts_completed_quanta (t_summary t) = 3
  | _ => False
  end.
Proof.
  apply (transaction_completes sample_respond 0 None sample_options);
    [vm_compute; reflexivity|exact sample_quanta|exact sample_well_behaved].
Defined.

Lemma transaction_elapsed_exact_witness :
  transaction_elapsed (Timespec 5 900000000) (Timespec 7 100000000) = 1200000000.
Proof.
  rewrite (transaction_elapsed_exact (Timespec 5 900000000) (Timespec 7 100000000))
    by (cbn; lia). reflexivity.
Defined.
