(* ===== verification/Artifact.v ===== *)
(** Positioned reads of an opened artifact, [src/artifact/core.c]: the range check and the loop over
    [pread]. The file descriptor is a parameter, the answer of [pread] to an offset and a length, with
    [EINTR] retries already resolved; [None] is an error and [Some []] end of file. *)

From S2P Require Import Prelude Status.
#[local] Open Scope Z_scope.

Definition INT64_MAX : Z := 9223372036854775807.

(** src/src/artifact/core.c, [yvex_artifact]
    The size recorded when the artifact was opened, and its file descriptor. *)
Record yvex_artifact := Artifact {
  ar_size : Z;
  ar_pread : Z → Z → option (list Z);
}.

(** src/src/artifact/core.c, [yvex_artifact_size] *)
Definition yvex_artifact_size (artifact : option yvex_artifact) : Z :=
  match artifact with None => 0 | Some artifact => ar_size artifact end.

(** src/src/artifact/core.c, [yvex_range_check] *)
Definition yvex_range_check (file_size offset len : Z) : outcome unit :=
  if file_size <? offset then Refused YVEX_ERR_BOUNDS "offset exceeds file size"
  else if file_size - offset <? len then Refused YVEX_ERR_BOUNDS "range exceeds file size"
  else Done tt.

(** The reads still needed after [done_]; every round reads at least one byte, so a fuel of the length is
    never used up. *)
Fixpoint artifact_read_loop (fuel : nat) (artifact : yvex_artifact) (offset len : Z) (done_ : list Z)
    : outcome (list Z) :=
  if Z.of_nat (length done_) <? len then
    match fuel with
    | O => Refused YVEX_ERR "out of fuel"
    | S fuel =>
        let current := offset + Z.of_nat (length done_) in
        if INT64_MAX <? current
        then Refused YVEX_ERR_BOUNDS "artifact offset exceeds positioned IO range"
        else
          match ar_pread artifact current (len - Z.of_nat (length done_)) with
          | None => Refused YVEX_ERR_IO "positioned read failed"
          | Some [] => Refused YVEX_ERR_IO "short read"
          | Some bytes => artifact_read_loop fuel artifact offset len (done_ ++ bytes)
          end
    end
  else Done done_.

(** src/src/artifact/core.c, [yvex_artifact_read_at] *)
Definition yvex_artifact_read_at (artifact : yvex_artifact) (offset len : Z) : outcome (list Z) :=
  match yvex_range_check (ar_size artifact) offset len with
  | Refused _ reason => Refused YVEX_ERR_BOUNDS reason
  | Done _ => artifact_read_loop (Z.to_nat len) artifact offset len []
  end.

(** * What a descriptor promises *)

(** The bytes of [file] in [[a, b)]. *)
Definition file_range (file : list Z) (a b : Z) : list Z :=
  take (Z.to_nat (b - a)) (drop (Z.to_nat a) file).

(** [pread] answers bytes of the file, never more than asked. *)
Definition reads_file (artifact : yvex_artifact) (file : list Z) : Prop :=
  ar_size artifact = Z.of_nat (length file) ∧
  ∀ offset len bytes, 0 ≤ offset → 0 ≤ len → ar_pread artifact offset len = Some bytes →
    Z.of_nat (length bytes) ≤ len ∧ bytes `prefix_of` drop (Z.to_nat offset) file.

(** [pread] makes progress on every range inside the file. *)
Definition reads_all (artifact : yvex_artifact) : Prop :=
  ∀ offset len, 0 ≤ offset → 0 < len → offset + len ≤ ar_size artifact →
    ∃ b bytes, ar_pread artifact offset len = Some (b :: bytes).

Lemma file_range_app file a b c :
  0 ≤ a ≤ b → b ≤ c → file_range file a b ++ file_range file b c = file_range file a c.
Proof.
  intros Hab Hbc. unfold file_range.
  replace (Z.to_nat b) with (Z.to_nat a + Z.to_nat (b - a))%nat by lia.
  rewrite <- drop_drop. replace (Z.to_nat (c - a)) with (Z.to_nat (b - a) + Z.to_nat (c - b))%nat by lia.
  by rewrite take_take_drop.
Qed.

Lemma length_file_range file a b :
  0 ≤ a ≤ b → b ≤ Z.of_nat (length file) → Z.of_nat (length (file_range file a b)) = b - a.
Proof. intros. unfold file_range. rewrite length_take, length_drop. lia. Qed.

Lemma file_range_nil file a : file_range file a a = [].
Proof. unfold file_range. by rewrite Z.sub_diag. Qed.

Lemma file_range_all file : file_range file 0 (Z.of_nat (length file)) = file.
Proof. unfold file_range. rewrite Z.sub_0_r, Nat2Z.id, drop_0. by apply take_ge. Qed.

Lemma prefix_file_range bytes file a :
  0 ≤ a → bytes `prefix_of` drop (Z.to_nat a) file →
  bytes = file_range file a (a + Z.of_nat (length bytes)).
Proof.
  intros Ha [rest E]. unfold file_range.
  replace (Z.to_nat (a + Z.of_nat (length bytes) - a)) with (length bytes) by lia.
  by rewrite E, take_app_length.
Qed.

Section read.
Context (artifact : yvex_artifact) (file : list Z) (Hfile : reads_file artifact file).

Lemma read_loop_sound fuel offset len done_ bytes :
  0 ≤ offset → Z.of_nat (length done_) ≤ len →
  done_ = file_range file offset (offset + Z.of_nat (length done_)) →
  artifact_read_loop fuel artifact offset len done_ = Done bytes →
  bytes = file_range file offset (offset + len) ∧ Z.of_nat (length bytes) = len.
Proof.
  intros Ho. revert done_. induction fuel as [|fuel IH]; intros done_ Hlen Hd; cbn [artifact_read_loop].
  - split_guard; guards; [done|]. intros [= <-].
    assert (Z.of_nat (length done_) = len) as <- by lia. by split.
  - split_guard; guards.
    2:{ intros [= <-]. assert (Z.of_nat (length done_) = len) as <- by lia. by split. }
    cbv zeta. split_guard; [done|].
    destruct (ar_pread artifact _ _) as [[|b rest]|] eqn:Er; [done| |done].
    edestruct (proj2 Hfile) as [Hle Hpre]; [| |exact Er|]; [lia..|].
    apply prefix_file_range in Hpre; [|lia].
    apply IH; rewrite length_app.
    + lia.
    + rewrite Hd at 1. rewrite Hpre at 1.
      replace (offset + Z.of_nat (length done_ + length (b :: rest))) with
        (offset + Z.of_nat (length done_) + Z.of_nat (length (b :: rest))) by lia.
      by apply file_range_app; lia.
Qed.

Lemma read_loop_complete fuel offset len done_ :
  reads_all artifact → 0 ≤ offset → Z.of_nat (length done_) ≤ len →
  offset + len ≤ ar_size artifact → ar_size artifact ≤ INT64_MAX →
  len - Z.of_nat (length done_) ≤ Z.of_nat fuel →
  ∃ bytes, artifact_read_loop fuel artifact offset len done_ = Done bytes.
Proof.
  intros Hall Ho. revert done_. induction fuel as [|fuel IH]; intros done_ Hlen Hsz Hmax Hfuel;
    cbn [artifact_read_loop].
  - rewrite (proj2 (Z.ltb_ge _ _)) by lia. by eexists.
  - split_guard; guards; [|by eexists]. cbv zeta. rewrite (proj2 (Z.ltb_ge _ _)) by lia.
    destruct (Hall (offset + Z.of_nat (length done_)) (len - Z.of_nat (length done_)))
      as (b & bytes & Er); [lia..|]. rewrite Er.
    edestruct (proj2 Hfile) as [Hle _]; [| |exact Er|]; [lia..|].
    apply IH; rewrite ?length_app; cbn [length] in *; lia.
Qed.

(** A successful read returns exactly the range. *)
Lemma read_at_sound offset len bytes :
  0 ≤ offset → 0 ≤ len → yvex_artifact_read_at artifact offset len = Done bytes →
  bytes = file_range file offset (offset + len) ∧ Z.of_nat (length bytes) = len ∧
  offset + len ≤ ar_size artifact.
Proof.
  intros Ho Hl. unfold yvex_artifact_read_at, yvex_range_check. split_guard; [done|].
  split_guard; [done|]. guards. intros Hr.
  destruct (read_loop_sound (Z.to_nat len) offset len [] bytes Ho) as [H1 H2]; [cbn; lia| |done|].
  { cbn. by rewrite Z.add_0_r, file_range_nil. }
  split_and!; [done|done|lia].
Qed.

(** Reading inside the file succeeds when the descriptor makes progress. *)
Lemma read_at_complete offset len :
  reads_all artifact → 0 ≤ offset → 0 ≤ len → offset + len ≤ ar_size artifact →
  ar_size artifact ≤ INT64_MAX →
  yvex_artifact_read_at artifact offset len = Done (file_range file offset (offset + len)).
Proof.
  intros Hall Ho Hl Hsz Hmax.
  assert (∃ bytes, yvex_artifact_read_at artifact offset len = Done bytes) as [bytes E].
  { unfold yvex_artifact_read_at, yvex_range_check.
    rewrite (proj2 (Z.ltb_ge _ _)), (proj2 (Z.ltb_ge _ _)) by lia.
    apply read_loop_complete; cbn; (done || lia). }
  rewrite E. by destruct (read_at_sound offset len bytes Ho Hl E) as [-> _].
Qed.
End read.

(** * A file in memory *)

(** The artifact whose reads answer everything they can. *)
Definition memory_artifact (file : list Z) : yvex_artifact :=
  Artifact (Z.of_nat (length file)) (λ offset len, Some (take (Z.to_nat len) (drop (Z.to_nat offset) file))).

Lemma memory_artifact_reads file : reads_file (memory_artifact file) file.
Proof.
  split; [done|]. intros offset len bytes Ho Hl [= <-]. split.
  - rewrite length_take. lia.
  - apply prefix_take.
Qed.

Lemma memory_artifact_progress file : reads_all (memory_artifact file).
Proof.
  intros offset len Ho Hl Hin. cbn in *.
  destruct (take (Z.to_nat len) (drop (Z.to_nat offset) file)) as [|b l] eqn:E; [|by exists b, l].
  apply (f_equal length) in E. rewrite length_take, length_drop in E. cbn in E. lia.
Qed.
