(* ===== verification/Qtype.v ===== *)
(** Storage geometry of GGUF tensor types: the pinned type table and the byte arithmetic of
    [src/gguf/qtype.c].

    A dimension array with its rank is one list; only its first [rank] cells are read. *)

From S2P Require Import Prelude Status.
#[local] Open Scope Z_scope.

(** * Data *)

(** src/include/yvex/qtype.h, [YVEX_GGUF_QTYPE_ABI_UPSTREAM_MAX_ID] *)
Definition YVEX_GGUF_QTYPE_ABI_UPSTREAM_MAX_ID : Z := 42.
(** src/include/yvex/qtype.h, [YVEX_GGUF_QTYPE_MAX_DIMS] *)
Definition YVEX_GGUF_QTYPE_MAX_DIMS : Z := 4.

(** src/include/yvex/qtype.h, [yvex_gguf_qtype_identity_status] *)
Inductive yvex_gguf_qtype_identity_status : Type :=
  | YVEX_GGUF_QTYPE_IDENTITY_ADMITTED | YVEX_GGUF_QTYPE_IDENTITY_REMOVED
  | YVEX_GGUF_QTYPE_IDENTITY_RESERVED | YVEX_GGUF_QTYPE_IDENTITY_OUTSIDE_BASELINE
  | YVEX_GGUF_QTYPE_IDENTITY_UNKNOWN.

(** src/include/yvex/qtype.h, [yvex_gguf_qtype_storage_class] *)
Inductive yvex_gguf_qtype_storage_class : Type :=
  | YVEX_GGUF_QTYPE_STORAGE_UNKNOWN | YVEX_GGUF_QTYPE_STORAGE_SCALAR_FLOAT
  | YVEX_GGUF_QTYPE_STORAGE_SCALAR_INTEGER | YVEX_GGUF_QTYPE_STORAGE_BLOCK_QUANTIZED.

(** src/include/yvex/qtype.h, [yvex_gguf_qtype_storage_status] *)
Inductive yvex_gguf_qtype_storage_status : Type :=
  | YVEX_GGUF_QTYPE_STORAGE_OK
  | YVEX_GGUF_QTYPE_STORAGE_INVALID_ARGUMENT
  | YVEX_GGUF_QTYPE_STORAGE_UNKNOWN_ID
  | YVEX_GGUF_QTYPE_STORAGE_REMOVED_ID
  | YVEX_GGUF_QTYPE_STORAGE_RESERVED_ID
  | YVEX_GGUF_QTYPE_STORAGE_OUTSIDE_BASELINE
  | YVEX_GGUF_QTYPE_STORAGE_GEOMETRY_UNAVAILABLE
  | YVEX_GGUF_QTYPE_STORAGE_INVALID_RANK
  | YVEX_GGUF_QTYPE_STORAGE_INVALID_DIMENSION
  | YVEX_GGUF_QTYPE_STORAGE_ROW_BLOCK_MISMATCH
  | YVEX_GGUF_QTYPE_STORAGE_ELEMENT_COUNT_OVERFLOW
  | YVEX_GGUF_QTYPE_STORAGE_ROW_BYTE_OVERFLOW
  | YVEX_GGUF_QTYPE_STORAGE_ROW_COUNT_OVERFLOW
  | YVEX_GGUF_QTYPE_STORAGE_TOTAL_BYTE_OVERFLOW
  | YVEX_GGUF_QTYPE_STORAGE_EXPECTED_ACTUAL_MISMATCH.

#[export] Instance identity_status_eq_dec : EqDecision yvex_gguf_qtype_identity_status.
Proof. solve_decision. Defined.
#[export] Instance storage_class_eq_dec : EqDecision yvex_gguf_qtype_storage_class.
Proof. solve_decision. Defined.
#[export] Instance storage_status_eq_dec : EqDecision yvex_gguf_qtype_storage_status.
Proof. solve_decision. Defined.

(** src/include/yvex/qtype.h, [yvex_gguf_qtype_geometry] *)
Record yvex_gguf_qtype_geometry := QtypeGeometry {
  qg_qtype : Z;
  qg_name : string;
  qg_identity_status : yvex_gguf_qtype_identity_status;
  qg_storage_class : yvex_gguf_qtype_storage_class;
  qg_block_size : Z;
  qg_bytes_per_block : Z;
  qg_scalar_width : Z;
  qg_reason : string;
}.

#[export] Instance geometry_eq_dec : EqDecision yvex_gguf_qtype_geometry.
Proof. solve_decision. Defined.

(** src/include/yvex/qtype.h, [yvex_gguf_qtype_storage_result] *)
Record yvex_gguf_qtype_storage_result := StorageResult {
  st_status : yvex_gguf_qtype_storage_status;
  st_qtype : Z;
  st_rank : Z;
  st_row_width : Z;
  st_row_count : Z;
  st_element_count : Z;
  st_row_bytes : Z;
  st_total_bytes : Z;
  st_actual_bytes : Z;
  st_reason : string;
}.

#[export] Instance storage_result_eta : Eta yvex_gguf_qtype_storage_result := λ r,
  StorageResult (st_status r) (st_qtype r) (st_rank r) (st_row_width r) (st_row_count r)
    (st_element_count r) (st_row_bytes r) (st_total_bytes r) (st_actual_bytes r) (st_reason r).

(** The four shapes a row of the table takes. *)
Definition scalar_row (qtype : Z) (name : string) (class : yvex_gguf_qtype_storage_class) (width : Z) :=
  QtypeGeometry qtype name YVEX_GGUF_QTYPE_IDENTITY_ADMITTED class 1 width width
    "storage geometry admitted by pinned GGUF ABI".
Definition block_row (qtype : Z) (name : string) (block bytes : Z) :=
  QtypeGeometry qtype name YVEX_GGUF_QTYPE_IDENTITY_ADMITTED YVEX_GGUF_QTYPE_STORAGE_BLOCK_QUANTIZED
    block bytes 0 "storage geometry admitted by pinned GGUF ABI".
Definition newer_row (qtype : Z) (name : string) (block bytes : Z) :=
  QtypeGeometry qtype name YVEX_GGUF_QTYPE_IDENTITY_OUTSIDE_BASELINE
    YVEX_GGUF_QTYPE_STORAGE_BLOCK_QUANTIZED block bytes 0
    "qtype identity is newer than the pinned GGUF on-disk baseline".
Definition removed_row (qtype : Z) (name : string) :=
  QtypeGeometry qtype name YVEX_GGUF_QTYPE_IDENTITY_REMOVED YVEX_GGUF_QTYPE_STORAGE_UNKNOWN 0 0 0
    "qtype ID was removed from the pinned GGUF ABI".

(** src/src/gguf/qtype.c, [qtype_geometry] *)
Definition qtype_geometry : list yvex_gguf_qtype_geometry :=
  [ scalar_row 0 "F32" YVEX_GGUF_QTYPE_STORAGE_SCALAR_FLOAT 4;
    scalar_row 1 "F16" YVEX_GGUF_QTYPE_STORAGE_SCALAR_FLOAT 2;
    block_row 2 "Q4_0" 32 18;
    block_row 3 "Q4_1" 32 20;
    removed_row 4 "Q4_2";
    removed_row 5 "Q4_3";
    block_row 6 "Q5_0" 32 22;
    block_row 7 "Q5_1" 32 24;
    block_row 8 "Q8_0" 32 34;
    block_row 9 "Q8_1" 32 36;
    block_row 10 "Q2_K" 256 84;
    block_row 11 "Q3_K" 256 110;
    block_row 12 "Q4_K" 256 144;
    block_row 13 "Q5_K" 256 176;
    block_row 14 "Q6_K" 256 210;
    block_row 15 "Q8_K" 256 292;
    block_row 16 "IQ2_XXS" 256 66;
    block_row 17 "IQ2_XS" 256 74;
    block_row 18 "IQ3_XXS" 256 98;
    block_row 19 "IQ1_S" 256 50;
    block_row 20 "IQ4_NL" 32 18;
    block_row 21 "IQ3_S" 256 110;
    block_row 22 "IQ2_S" 256 82;
    block_row 23 "IQ4_XS" 256 136;
    scalar_row 24 "I8" YVEX_GGUF_QTYPE_STORAGE_SCALAR_INTEGER 1;
    scalar_row 25 "I16" YVEX_GGUF_QTYPE_STORAGE_SCALAR_INTEGER 2;
    scalar_row 26 "I32" YVEX_GGUF_QTYPE_STORAGE_SCALAR_INTEGER 4;
    scalar_row 27 "I64" YVEX_GGUF_QTYPE_STORAGE_SCALAR_INTEGER 8;
    scalar_row 28 "F64" YVEX_GGUF_QTYPE_STORAGE_SCALAR_FLOAT 8;
    block_row 29 "IQ1_M" 256 56;
    scalar_row 30 "BF16" YVEX_GGUF_QTYPE_STORAGE_SCALAR_FLOAT 2;
    removed_row 31 "Q4_0_4_4";
    removed_row 32 "Q4_0_4_8";
    removed_row 33 "Q4_0_8_8";
    block_row 34 "TQ1_0" 256 54;
    block_row 35 "TQ2_0" 256 66;
    removed_row 36 "IQ4_NL_4_4";
    removed_row 37 "IQ4_NL_4_8";
    removed_row 38 "IQ4_NL_8_8";
    block_row 39 "MXFP4" 32 17;
    newer_row 40 "NVFP4" 64 36;
    newer_row 41 "Q1_0" 128 18;
    newer_row 42 "Q2_0" 64 18 ].

(** src/src/gguf/qtype.c, [storage_status_texts]
    Name and reason of each status. *)
Definition storage_status_texts (status : yvex_gguf_qtype_storage_status) : string * string :=
  match status with
  | YVEX_GGUF_QTYPE_STORAGE_OK => ("ok", "GGUF tensor row geometry accepted")
  | YVEX_GGUF_QTYPE_STORAGE_INVALID_ARGUMENT =>
      ("invalid-argument", "qtype storage requires dimensions and an output result")
  | YVEX_GGUF_QTYPE_STORAGE_UNKNOWN_ID => ("unknown-qtype-id", "unknown GGUF qtype ID")
  | YVEX_GGUF_QTYPE_STORAGE_REMOVED_ID =>
      ("removed-qtype-id", "GGUF qtype ID was removed from the pinned on-disk ABI")
  | YVEX_GGUF_QTYPE_STORAGE_RESERVED_ID =>
      ("reserved-qtype-id", "GGUF qtype ID is reserved by the pinned on-disk ABI")
  | YVEX_GGUF_QTYPE_STORAGE_OUTSIDE_BASELINE =>
      ("outside-on-disk-baseline", "GGUF qtype ID is outside the pinned on-disk ABI")
  | YVEX_GGUF_QTYPE_STORAGE_GEOMETRY_UNAVAILABLE =>
      ("storage-geometry-unavailable", "admitted GGUF qtype has no storage geometry")
  | YVEX_GGUF_QTYPE_STORAGE_INVALID_RANK =>
      ("invalid-rank", "GGUF tensor rank is outside the admitted range")
  | YVEX_GGUF_QTYPE_STORAGE_INVALID_DIMENSION => ("invalid-dimension", "GGUF tensor dimension is zero")
  | YVEX_GGUF_QTYPE_STORAGE_ROW_BLOCK_MISMATCH =>
      ("row-width-block-mismatch", "GGUF row width is not divisible by qtype block width")
  | YVEX_GGUF_QTYPE_STORAGE_ELEMENT_COUNT_OVERFLOW =>
      ("element-count-overflow", "GGUF tensor element count overflows")
  | YVEX_GGUF_QTYPE_STORAGE_ROW_BYTE_OVERFLOW =>
      ("row-byte-overflow", "GGUF qtype row byte count overflows")
  | YVEX_GGUF_QTYPE_STORAGE_ROW_COUNT_OVERFLOW =>
      ("row-count-overflow", "GGUF tensor row count overflows")
  | YVEX_GGUF_QTYPE_STORAGE_TOTAL_BYTE_OVERFLOW =>
      ("total-byte-overflow", "GGUF tensor total byte count overflows")
  | YVEX_GGUF_QTYPE_STORAGE_EXPECTED_ACTUAL_MISMATCH =>
      ("expected-actual-storage-mismatch", "GGUF tensor storage bytes do not match qtype row geometry")
  end.

(** * Operations *)

(** src/src/gguf/qtype.c, [yvex_gguf_qtype_geometry_at] *)
Definition yvex_gguf_qtype_geometry_at (index : Z) : option yvex_gguf_qtype_geometry :=
  if Z.of_nat (length qtype_geometry) <=? index then None else qtype_geometry !! Z.to_nat index.

(** src/src/gguf/qtype.c, [yvex_gguf_qtype_geometry_find] *)
Definition yvex_gguf_qtype_geometry_find (qtype : Z) : option yvex_gguf_qtype_geometry :=
  if YVEX_GGUF_QTYPE_ABI_UPSTREAM_MAX_ID <? qtype then None else qtype_geometry !! Z.to_nat qtype.

(** src/src/gguf/qtype.c, [yvex_gguf_qtype_geometry_find_by_name] *)
Definition yvex_gguf_qtype_geometry_find_by_name (name : option string) : option yvex_gguf_qtype_geometry :=
  name ← name; snd <$> list_find (λ row, strcmp (qg_name row) name = Eq) qtype_geometry.

(** src/src/gguf/qtype.c, [yvex_gguf_qtype_name] *)
Definition yvex_gguf_qtype_name (qtype : Z) : string :=
  match yvex_gguf_qtype_geometry_find qtype with Some geometry => qg_name geometry | None => "UNKNOWN" end.

(** src/src/gguf/qtype.c, [storage_status_reason] *)
Definition storage_status_reason (status : yvex_gguf_qtype_storage_status) : string :=
  snd (storage_status_texts status).

(** src/src/gguf/qtype.c, [yvex_gguf_qtype_storage_status_name] *)
Definition yvex_gguf_qtype_storage_status_name (status : yvex_gguf_qtype_storage_status) : string :=
  fst (storage_status_texts status).

(** src/src/gguf/qtype.c, [qtype_admission_status] *)
Definition qtype_admission_status (geometry : option yvex_gguf_qtype_geometry)
    : yvex_gguf_qtype_storage_status :=
  match geometry with
  | None => YVEX_GGUF_QTYPE_STORAGE_UNKNOWN_ID
  | Some geometry =>
      match qg_identity_status geometry with
      | YVEX_GGUF_QTYPE_IDENTITY_ADMITTED =>
          if bool_decide (qg_storage_class geometry = YVEX_GGUF_QTYPE_STORAGE_UNKNOWN)
             || (qg_block_size geometry =? 0) || (qg_bytes_per_block geometry =? 0)
          then YVEX_GGUF_QTYPE_STORAGE_GEOMETRY_UNAVAILABLE
          else YVEX_GGUF_QTYPE_STORAGE_OK
      | YVEX_GGUF_QTYPE_IDENTITY_REMOVED => YVEX_GGUF_QTYPE_STORAGE_REMOVED_ID
      | YVEX_GGUF_QTYPE_IDENTITY_RESERVED => YVEX_GGUF_QTYPE_STORAGE_RESERVED_ID
      | YVEX_GGUF_QTYPE_IDENTITY_OUTSIDE_BASELINE => YVEX_GGUF_QTYPE_STORAGE_OUTSIDE_BASELINE
      | YVEX_GGUF_QTYPE_IDENTITY_UNKNOWN => YVEX_GGUF_QTYPE_STORAGE_UNKNOWN_ID
      end
  end.

(** src/src/gguf/qtype.c, [set_storage_status] *)
Definition set_storage_status (out : yvex_gguf_qtype_storage_result)
    (status : yvex_gguf_qtype_storage_status) : yvex_gguf_qtype_storage_result :=
  out <| st_status := status |> <| st_reason := storage_status_reason status |>.

(** The loop of the row count: the last product that fitted, and whether all did. *)
Fixpoint storage_row_count (count : Z) (dims : list Z) : Z * bool :=
  match dims with
  | [] => (count, true)
  | dim :: dims =>
      match yvex_core_u64_mul count dim with
      | Some count => storage_row_count count dims
      | None => (count, false)
      end
  end.

(** src/src/gguf/qtype.c, [yvex_gguf_qtype_tensor_storage]
    [None] dimensions are the null pointer; the status is in the result. *)
Definition yvex_gguf_qtype_tensor_storage (qtype : Z) (dims : option (list Z)) (rank : Z)
    : yvex_gguf_qtype_storage_result :=
  let out := StorageResult YVEX_GGUF_QTYPE_STORAGE_INVALID_ARGUMENT qtype rank 0 0 0 0 0 0
    (storage_status_reason YVEX_GGUF_QTYPE_STORAGE_INVALID_ARGUMENT) in
  match dims with
  | None => out
  | Some dims =>
      match qtype_admission_status (yvex_gguf_qtype_geometry_find qtype), yvex_gguf_qtype_geometry_find qtype with
      | YVEX_GGUF_QTYPE_STORAGE_OK, Some geometry =>
          if (rank =? 0) || (YVEX_GGUF_QTYPE_MAX_DIMS <? rank)
          then set_storage_status out YVEX_GGUF_QTYPE_STORAGE_INVALID_RANK
          else
            let dims := take (Z.to_nat rank) dims in
            if existsb (λ dim, dim =? 0) dims
            then set_storage_status out YVEX_GGUF_QTYPE_STORAGE_INVALID_DIMENSION
            else
              let out := out <| st_row_width := hd 0 dims |> in
              if negb (st_row_width out mod qg_block_size geometry =? 0)
              then set_storage_status out YVEX_GGUF_QTYPE_STORAGE_ROW_BLOCK_MISMATCH
              else
                let blocks := st_row_width out / qg_block_size geometry in
                match yvex_core_u64_mul blocks (qg_bytes_per_block geometry) with
                | None => set_storage_status out YVEX_GGUF_QTYPE_STORAGE_ROW_BYTE_OVERFLOW
                | Some row_bytes =>
                    let '(row_count, complete) := storage_row_count 1 (tl dims) in
                    let out := out <| st_row_bytes := row_bytes |> <| st_row_count := row_count |> in
                    if negb complete
                    then set_storage_status out YVEX_GGUF_QTYPE_STORAGE_ROW_COUNT_OVERFLOW
                    else
                      match yvex_core_u64_mul (st_row_width out) row_count with
                      | None => set_storage_status out YVEX_GGUF_QTYPE_STORAGE_ELEMENT_COUNT_OVERFLOW
                      | Some element_count =>
                          let out := out <| st_element_count := element_count |> in
                          match yvex_core_u64_mul row_bytes row_count with
                          | None => set_storage_status out YVEX_GGUF_QTYPE_STORAGE_TOTAL_BYTE_OVERFLOW
                          | Some total_bytes =>
                              set_storage_status (out <| st_total_bytes := total_bytes |>)
                                YVEX_GGUF_QTYPE_STORAGE_OK
                          end
                      end
                end
      | status, _ => set_storage_status out status
      end
  end.

(** src/src/gguf/qtype.c, [yvex_gguf_qtype_validate_tensor_storage] *)
Definition yvex_gguf_qtype_validate_tensor_storage (qtype : Z) (dims : option (list Z)) (rank : Z)
    (actual_storage_bytes : Z) : yvex_gguf_qtype_storage_result :=
  let out := yvex_gguf_qtype_tensor_storage qtype dims rank in
  if negb (bool_decide (st_status out = YVEX_GGUF_QTYPE_STORAGE_OK)) then out
  else
    let out := out <| st_actual_bytes := actual_storage_bytes |> in
    if negb (st_total_bytes out =? actual_storage_bytes)
    then set_storage_status out YVEX_GGUF_QTYPE_STORAGE_EXPECTED_ACTUAL_MISMATCH else out.

(** src/src/gguf/qtype.c, [yvex_gguf_qtype_supported_for_storage] *)
Definition yvex_gguf_qtype_supported_for_storage (qtype : Z) : bool * string :=
  let status := qtype_admission_status (yvex_gguf_qtype_geometry_find qtype) in
  (bool_decide (status = YVEX_GGUF_QTYPE_STORAGE_OK), storage_status_reason status).

(** src/src/gguf/qtype.c, [yvex_gguf_qtype_storage_bytes]
    The bytes on success, and the reason. *)
Definition yvex_gguf_qtype_storage_bytes (qtype row_element_count : Z) : option Z * string :=
  let result := yvex_gguf_qtype_tensor_storage qtype (Some [row_element_count]) 1 in
  (if bool_decide (st_status result = YVEX_GGUF_QTYPE_STORAGE_OK)
   then Some (st_total_bytes result) else None, st_reason result).

(** * The table *)

(** What every row satisfies: its index is its identity, its name finds it, and an admitted row has a
    geometry. *)
Definition row_consistent (index : nat) (row : yvex_gguf_qtype_geometry) : bool :=
  (qg_qtype row =? Z.of_nat index)
  && bool_decide (yvex_gguf_qtype_geometry_find_by_name (Some (qg_name row)) = Some row)
  && match qg_identity_status row with
     | YVEX_GGUF_QTYPE_IDENTITY_ADMITTED =>
         negb (bool_decide (qg_storage_class row = YVEX_GGUF_QTYPE_STORAGE_UNKNOWN))
         && (0 <? qg_block_size row) && (qg_block_size row <=? 256)
         && (0 <? qg_bytes_per_block row) && (qg_bytes_per_block row <=? 292)
     | YVEX_GGUF_QTYPE_IDENTITY_REMOVED | YVEX_GGUF_QTYPE_IDENTITY_OUTSIDE_BASELINE => true
     | _ => false
     end.

Lemma table_consistent :
  forallb (λ '(index, row), row_consistent index row) (zip (seq 0 43) qtype_geometry) = true.
Proof. vm_compute. reflexivity. Qed.

Lemma geometry_find_consistent qtype row :
  0 ≤ qtype → yvex_gguf_qtype_geometry_find qtype = Some row →
  row_consistent (Z.to_nat qtype) row = true ∧ qtype ≤ 42.
Proof.
  unfold yvex_gguf_qtype_geometry_find, YVEX_GGUF_QTYPE_ABI_UPSTREAM_MAX_ID.
  intros H0. split_guard; guards; [done|]. intros Hrow. split; [|done].
  pose proof table_consistent as H. rewrite forallb_forall in H.
  apply (H (Z.to_nat qtype, row)). apply list_elem_of_In, list_elem_of_lookup.
  exists (Z.to_nat qtype). apply lookup_zip_with_Some. exists (Z.to_nat qtype), row.
  split; [done|]. split; [|done]. apply lookup_seq. lia.
Qed.

Lemma geometry_find_total qtype :
  0 ≤ qtype → yvex_gguf_qtype_geometry_find qtype = None ↔ 42 < qtype.
Proof.
  unfold yvex_gguf_qtype_geometry_find, YVEX_GGUF_QTYPE_ABI_UPSTREAM_MAX_ID. intros H0.
  split_guard; guards; [done|]. split; [|lia]. intros Hn%lookup_ge_None.
  change (length qtype_geometry) with 43%nat in Hn. lia.
Qed.

(** * Storage arithmetic *)

Lemma u64_mul_spec a b :
  is_u64 a → is_u64 b →
  yvex_core_u64_mul a b = if a * b <=? ULLONG_MAX then Some (a * b) else None.
Proof.
  intros Ha Hb. destruct (Z.leb_spec (a * b) ULLONG_MAX) as [H|H].
  - apply u64_mul_Some; [done|done|]. split; [done|]. ulia.
  - destruct (yvex_core_u64_mul a b) eqn:E; [|done]. apply u64_mul_Some in E as [-> ?]; [ulia|done|done].
Qed.

(** The checked product stops exactly when the full product does not fit. *)
Lemma storage_row_count_spec count dims :
  is_u64 count → 0 < count → Forall (λ d, 0 < d) dims → Forall is_u64 dims →
  (storage_row_count count dims).2 = (count * product dims <=? ULLONG_MAX) ∧
  ((storage_row_count count dims).2 = true → (storage_row_count count dims).1 = count * product dims).
Proof.
  intros Hc Hp Hd Hu. revert count Hc Hp. induction dims as [|d dims IH]; intros count Hc Hp; cbn.
  - rewrite Z.mul_1_r. rewrite (proj2 (Z.leb_le _ _)) by ulia. done.
  - apply Forall_cons in Hd as [Hd0 Hd], Hu as [Hu0 Hu].
    pose proof (product_pos dims Hd) as Hpos. rewrite u64_mul_spec by done.
    destruct (Z.leb_spec (count * d) ULLONG_MAX) as [H|H]; cbn.
    + rewrite Z.mul_assoc. apply IH; [done|done|split; [nia|done]|nia].
    + change (foldr Z.mul 1 dims) with (product dims). rewrite (proj2 (Z.leb_gt _ _)); [done|]. nia.
Qed.

(** What the result says in terms of unbounded integers. *)
Definition storage_meaning (qtype : Z) (dims : list Z) (rank : Z) (r : yvex_gguf_qtype_storage_result)
    : Prop :=
  let width := hd 0 dims in
  let rows := product (tl dims) in
  let geometry_is P := ∃ g, yvex_gguf_qtype_geometry_find qtype = Some g ∧ P g in
  let admitted P := geometry_is (λ g, qg_identity_status g = YVEX_GGUF_QTYPE_IDENTITY_ADMITTED ∧ P g) in
  let well_formed P := admitted (λ g, 1 ≤ rank ≤ 4 ∧ Forall (λ d, 0 < d) dims ∧
                                      (qg_block_size g | width) ∧ P g) in
  let row_bytes g := width / qg_block_size g * qg_bytes_per_block g in
  match st_status r with
  | YVEX_GGUF_QTYPE_STORAGE_OK => well_formed (λ g,
      st_row_width r = width ∧ st_row_count r = rows ∧ st_element_count r = product dims ∧
      st_row_bytes r = row_bytes g ∧ st_total_bytes r = row_bytes g * rows ∧
      st_total_bytes r * qg_block_size g = st_element_count r * qg_bytes_per_block g ∧
      0 < st_total_bytes r ≤ ULLONG_MAX ∧ st_element_count r ≤ ULLONG_MAX)
  | YVEX_GGUF_QTYPE_STORAGE_UNKNOWN_ID => 42 < qtype
  | YVEX_GGUF_QTYPE_STORAGE_REMOVED_ID =>
      geometry_is (λ g, qg_identity_status g = YVEX_GGUF_QTYPE_IDENTITY_REMOVED)
  | YVEX_GGUF_QTYPE_STORAGE_OUTSIDE_BASELINE =>
      geometry_is (λ g, qg_identity_status g = YVEX_GGUF_QTYPE_IDENTITY_OUTSIDE_BASELINE)
  | YVEX_GGUF_QTYPE_STORAGE_INVALID_RANK => admitted (λ _, rank = 0 ∨ 4 < rank)
  | YVEX_GGUF_QTYPE_STORAGE_INVALID_DIMENSION => admitted (λ _, 0 ∈ dims)
  | YVEX_GGUF_QTYPE_STORAGE_ROW_BLOCK_MISMATCH => admitted (λ g, ¬ (qg_block_size g | width))
  | YVEX_GGUF_QTYPE_STORAGE_ROW_BYTE_OVERFLOW => well_formed (λ g, ULLONG_MAX < row_bytes g)
  | YVEX_GGUF_QTYPE_STORAGE_ROW_COUNT_OVERFLOW =>
      well_formed (λ g, row_bytes g ≤ ULLONG_MAX < rows)
  | YVEX_GGUF_QTYPE_STORAGE_ELEMENT_COUNT_OVERFLOW =>
      well_formed (λ g, row_bytes g ≤ ULLONG_MAX ∧ rows ≤ ULLONG_MAX < product dims)
  | YVEX_GGUF_QTYPE_STORAGE_TOTAL_BYTE_OVERFLOW =>
      well_formed (λ g, product dims ≤ ULLONG_MAX < row_bytes g * rows)
  | YVEX_GGUF_QTYPE_STORAGE_INVALID_ARGUMENT | YVEX_GGUF_QTYPE_STORAGE_RESERVED_ID
  | YVEX_GGUF_QTYPE_STORAGE_GEOMETRY_UNAVAILABLE
  | YVEX_GGUF_QTYPE_STORAGE_EXPECTED_ACTUAL_MISMATCH => False
  end.

Lemma existsb_zero dims : existsb (λ dim, dim =? 0) dims = true ↔ 0 ∈ dims.
Proof.
  rewrite existsb_exists. split.
  - intros (x & Hx & E). guards. subst. by apply list_elem_of_In.
  - intros H. exists 0. split; [by apply list_elem_of_In|done].
Qed.

Lemma tensor_storage_meaning qtype dims rank :
  is_u32 qtype → is_u32 rank → rank ≤ Z.of_nat (length dims) → Forall is_u64 dims →
  storage_meaning qtype (take (Z.to_nat rank) dims) rank
    (yvex_gguf_qtype_tensor_storage qtype (Some dims) rank).
Proof.
  intros Hq Hr Hlen Hu. unfold yvex_gguf_qtype_tensor_storage, qtype_admission_status. cbv zeta.
  destruct (yvex_gguf_qtype_geometry_find qtype) as [g|] eqn:Eg.
  2:{ cbn. apply geometry_find_total; [ulia|done]. }
  destruct (geometry_find_consistent qtype g ltac:(ulia) Eg) as [Hg _].
  unfold row_consistent in Hg. guards.
  destruct (qg_identity_status g) eqn:Eid; [|by exists g|done|by exists g|done].
  guards. rewrite bool_decide_eq_false_2, (proj2 (Z.eqb_neq (qg_block_size g) 0)),
    (proj2 (Z.eqb_neq (qg_bytes_per_block g) 0)) by (done || lia). cbn [orb].
  unfold YVEX_GGUF_QTYPE_MAX_DIMS. destruct ((rank =? 0) || (4 <? rank)) eqn:Erank.
  { guards. cbn. rewrite Eg. exists g. split; [done|]. split; [done|lia]. }
  guards. assert (Hu' : Forall is_u64 (take (Z.to_nat rank) dims)) by by apply Forall_take.
  assert (Hne : take (Z.to_nat rank) dims ≠ []).
  { intros E. apply (f_equal length) in E. rewrite length_take in E. cbn in E. unfold is_u32 in *. lia. }
  set (ds := take (Z.to_nat rank) dims) in *. clearbody ds. clear Hlen Hu dims.
  destruct (existsb _ ds) eqn:Ez.
  { apply existsb_zero in Ez. cbn. rewrite Eg. by exists g. }
  assert (Hpos : Forall (λ d, 0 < d) ds).
  { rewrite Forall_forall in Hu' |- *. intros x Hx. destruct (decide (x = 0)) as [->|]; [|specialize (Hu' x Hx); ulia].
    by apply existsb_zero in Hx; rewrite Hx in Ez. }
  cbn [st_row_width]. destruct ds as [|width rest]; [done|]. cbn [hd tl] in *.
  apply Forall_cons in Hpos as [Hw Hrest], Hu' as [Huw Hurest].
  change (st_row_width (_ <| st_row_width := width |>)) with width.
  destruct (width mod qg_block_size g =? 0) eqn:Emod; cbn [negb]; guards.
  2:{ cbn. rewrite Eg. exists g. split; [done|]. split; [done|]. by rewrite <- Z.mod_divide by lia. }
  apply Z.mod_divide in Emod as Hdiv; [|lia].
  assert (Hwf : ∀ P : yvex_gguf_qtype_geometry → Prop, P g →
    ∃ g', Some g = Some g' ∧ qg_identity_status g' = YVEX_GGUF_QTYPE_IDENTITY_ADMITTED ∧ 1 ≤ rank ≤ 4 ∧
      Forall (λ d, 0 < d) (width :: rest) ∧ (qg_block_size g' | width) ∧ P g').
  { intros P HP. exists g. split_and!; try done; [ulia|]. by constructor. }
  assert (Hq0 : 0 < width / qg_block_size g).
  { destruct Hdiv as [k ->]. rewrite Z.div_mul by lia. nia. }
  assert (Hqle : width / qg_block_size g ≤ width) by (apply Z.div_le_upper_bound; [lia|nia]).
  rewrite u64_mul_spec by ulia.
  destruct (Z.leb_spec (width / qg_block_size g * qg_bytes_per_block g) ULLONG_MAX) as [Hrb|Hrb].
  2:{ cbn. rewrite Eg. by apply Hwf. }
  destruct (storage_row_count_spec 1 rest ltac:(ulia) ltac:(lia) Hrest Hurest) as [Hfit Hval].
  destruct (storage_row_count 1 rest) as [rows complete]. cbn [fst snd] in Hfit, Hval.
  rewrite Z.mul_1_l in *. subst complete.
  pose proof (product_pos rest Hrest) as Hrows.
  destruct (Z.leb_spec (product rest) ULLONG_MAX) as [Hrc|Hrc]; cbn [negb].
  2:{ cbn. rewrite Eg. by apply Hwf. }
  rewrite (Hval eq_refl). clear Hval rows. cbv zeta.
  rewrite !u64_mul_spec by (cbn; ulia). cbn [st_row_width set_field].
  change (width * product rest) with (product (width :: rest)).
  destruct (Z.leb_spec (product (width :: rest)) ULLONG_MAX) as [Hel|Hel].
  2:{ cbn. rewrite Eg. by apply Hwf. }
  set (row_bytes := width / qg_block_size g * qg_bytes_per_block g) in *.
  destruct (Z.leb_spec (row_bytes * product rest) ULLONG_MAX) as [Htot|Htot].
  2:{ cbn. rewrite Eg. by apply Hwf. }
  cbn. rewrite Eg. apply Hwf. fold row_bytes.
  change (foldr Z.mul 1 rest) with (product rest). split_and!; try done.
  - unfold row_bytes. destruct Hdiv as [k ->]. rewrite Z.div_mul by lia. nia.
  - unfold row_bytes in *. nia.
Qed.

(** * Properties *)

(** The tensor storage calculation is exact. For every type, rank and dimensions, the status says which
    admission condition fails first, in unbounded arithmetic, and an accepted tensor's row width, row
    count, element count, row bytes and total bytes are the exact products, fit 64 bits, and satisfy
    total bytes * block size = elements * bytes per block. *)
Theorem qtype_tensor_storage_exact qtype dims rank :
  is_u32 qtype → is_u32 rank → rank ≤ Z.of_nat (length dims) → Forall is_u64 dims →
  storage_meaning qtype (take (Z.to_nat rank) dims) rank
    (yvex_gguf_qtype_tensor_storage qtype (Some dims) rank).
Proof. apply tensor_storage_meaning. Qed.

Lemma qtype_tensor_storage_exact_witness :
  storage_meaning 12 [512; 3; 7] 3 (yvex_gguf_qtype_tensor_storage 12 (Some [512; 3; 7]) 3) ∧
  st_total_bytes (yvex_gguf_qtype_tensor_storage 12 (Some [512; 3; 7]) 3) = 6048.
Proof.
  split; [|vm_compute; reflexivity].
  apply (qtype_tensor_storage_exact 12 [512; 3; 7] 3); [ulia|ulia|cbn; lia|].
  repeat (apply Forall_cons_2; [ulia|]). apply Forall_nil_2.
Defined.

(** The type table is consistent. Every identity up to 42 has a row carrying that identity, and looking
    the row's name up gives the same row back, so names and identities are in bijection. *)
Theorem qtype_name_roundtrip qtype :
  0 ≤ qtype ≤ 42 →
  ∃ g, yvex_gguf_qtype_geometry_find qtype = Some g ∧ qg_qtype g = qtype ∧
    yvex_gguf_qtype_geometry_find_by_name (Some (yvex_gguf_qtype_name qtype)) = Some g.
Proof.
  intros Hq. unfold yvex_gguf_qtype_name.
  destruct (yvex_gguf_qtype_geometry_find qtype) as [g|] eqn:Eg.
  - exists g. destruct (geometry_find_consistent qtype g ltac:(lia) Eg) as [Hg _].
    unfold row_consistent in Hg. guards. split; [done|]. split; [lia|done].
  - apply geometry_find_total in Eg; lia.
Qed.

Lemma qtype_name_roundtrip_witness :
  yvex_gguf_qtype_geometry_find_by_name (Some "Q4_K"%string) = yvex_gguf_qtype_geometry_find 12.
Proof.
  destruct (qtype_name_roundtrip 12 ltac:(lia)) as (g & Hg & _ & Hn). rewrite Hg. exact Hn.
Defined.
