(* ===== verification/Gguf.v ===== *)
(** The parsed view of a GGUF container, [include/yvex/gguf.h] and the accessors of [src/gguf/core.c]:
    metadata values, the tensor directory, and the open-addressed name indexes behind
    [yvex_gguf_metadata_find] and [yvex_gguf_tensor_find].

    A text read from a container is a counted byte array, the list of its bytes. An array and its
    count are one list. The union of a metadata value is one constructor per member, with the type
    tag inside; a binary floating value is kept as the bit pattern it was read from. *)

From S2P Require Import Prelude Status Exec.
#[local] Set Warnings "-register-all".
#[local] Open Scope Z_scope.

(** * Data *)

(** src/include/yvex/gguf.h, [yvex_gguf_value_type] *)
Inductive yvex_gguf_value_type : Type :=
  | YVEX_GGUF_VALUE_UINT8 | YVEX_GGUF_VALUE_INT8 | YVEX_GGUF_VALUE_UINT16 | YVEX_GGUF_VALUE_INT16
  | YVEX_GGUF_VALUE_UINT32 | YVEX_GGUF_VALUE_INT32 | YVEX_GGUF_VALUE_FLOAT32 | YVEX_GGUF_VALUE_BOOL
  | YVEX_GGUF_VALUE_STRING | YVEX_GGUF_VALUE_ARRAY | YVEX_GGUF_VALUE_UINT64 | YVEX_GGUF_VALUE_INT64
  | YVEX_GGUF_VALUE_FLOAT64 | YVEX_GGUF_VALUE_INVALID.

#[export] Instance value_type_eq_dec : EqDecision yvex_gguf_value_type.
Proof. solve_decision. Defined.

(** The enumeration in the order of its integer values, [YVEX_GGUF_VALUE_INVALID] apart. *)
Definition value_types : list yvex_gguf_value_type :=
  [YVEX_GGUF_VALUE_UINT8; YVEX_GGUF_VALUE_INT8; YVEX_GGUF_VALUE_UINT16; YVEX_GGUF_VALUE_INT16;
   YVEX_GGUF_VALUE_UINT32; YVEX_GGUF_VALUE_INT32; YVEX_GGUF_VALUE_FLOAT32; YVEX_GGUF_VALUE_BOOL;
   YVEX_GGUF_VALUE_STRING; YVEX_GGUF_VALUE_ARRAY; YVEX_GGUF_VALUE_UINT64; YVEX_GGUF_VALUE_INT64;
   YVEX_GGUF_VALUE_FLOAT64].

(** The integer value of an enumerator. *)
Definition value_type_code (type : yvex_gguf_value_type) : Z :=
  match type with
  | YVEX_GGUF_VALUE_UINT8 => 0 | YVEX_GGUF_VALUE_INT8 => 1 | YVEX_GGUF_VALUE_UINT16 => 2
  | YVEX_GGUF_VALUE_INT16 => 3 | YVEX_GGUF_VALUE_UINT32 => 4 | YVEX_GGUF_VALUE_INT32 => 5
  | YVEX_GGUF_VALUE_FLOAT32 => 6 | YVEX_GGUF_VALUE_BOOL => 7 | YVEX_GGUF_VALUE_STRING => 8
  | YVEX_GGUF_VALUE_ARRAY => 9 | YVEX_GGUF_VALUE_UINT64 => 10 | YVEX_GGUF_VALUE_INT64 => 11
  | YVEX_GGUF_VALUE_FLOAT64 => 12 | YVEX_GGUF_VALUE_INVALID => 13
  end.

Lemma value_types_code raw type : value_types !! raw = Some type → value_type_code type = Z.of_nat raw.
Proof. do 13 (destruct raw as [|raw]; [by intros [= <-]|]). done. Qed.

Lemma value_type_code_lookup type :
  type ≠ YVEX_GGUF_VALUE_INVALID → value_types !! Z.to_nat (value_type_code type) = Some type.
Proof. by destruct type. Qed.

(** A metadata value.
    src/src/gguf/core.c, [yvex_gguf_value] *)
Inductive yvex_gguf_value : Type :=
  | ValueUnsigned (type : yvex_gguf_value_type) (v_u64 : Z)
  | ValueSigned (type : yvex_gguf_value_type) (v_i64 : Z)
  | ValueFloat (type : yvex_gguf_value_type) (bits : Z)
  | ValueBool (v_bool : Z)
  | ValueString (data : list Z)
  | ValueArray (element_type : yvex_gguf_value_type) (items : list yvex_gguf_value).

(** src/src/gguf/core.c, [yvex_gguf_metadata_entry] *)
Record yvex_gguf_metadata_entry := MetadataEntry { me_key : list Z; me_value : yvex_gguf_value }.

(** src/include/yvex/gguf.h, [yvex_gguf_header] *)
Record yvex_gguf_header := GgufHeader { hd_version : Z; hd_metadata_count : Z; hd_tensor_count : Z }.

(** The dimension array has [YVEX_GGUF_MAX_DIMS] cells.
    src/include/yvex/gguf.h, [yvex_gguf_tensor_info] *)
Record yvex_gguf_tensor_info := TensorInfo {
  ti_name : list Z;
  ti_rank : Z;
  ti_dims : list Z;
  ti_ggml_type : Z;
  ti_ggml_type_name : string;
  ti_relative_offset : Z;
  ti_absolute_offset : Z;
  ti_storage_bytes : Z;
  ti_absolute_end_offset : Z;
  ti_range_addressable : bool;
}.

#[export] Instance tensor_info_eta : Eta yvex_gguf_tensor_info := λ t,
  TensorInfo (ti_name t) (ti_rank t) (ti_dims t) (ti_ggml_type t) (ti_ggml_type_name t)
    (ti_relative_offset t) (ti_absolute_offset t) (ti_storage_bytes t) (ti_absolute_end_offset t)
    (ti_range_addressable t).

(** src/include/yvex/gguf.h, [yvex_gguf_reader_stats] *)
Record yvex_gguf_reader_stats := ReaderStats {
  rs_file_size : Z;
  rs_structural_bytes_read : Z;
  rs_payload_bytes_read : Z;
  rs_read_calls : Z;
  rs_owned_bytes : Z;
  rs_total_string_bytes : Z;
  rs_total_array_entries : Z;
  rs_directory_end_offset : Z;
}.

#[export] Instance reader_stats_eta : Eta yvex_gguf_reader_stats := λ s,
  ReaderStats (rs_file_size s) (rs_structural_bytes_read s) (rs_payload_bytes_read s)
    (rs_read_calls s) (rs_owned_bytes s) (rs_total_string_bytes s) (rs_total_array_entries s)
    (rs_directory_end_offset s).

(** An open-addressed index: cell [0] is free, cell [n + 1] holds ordinal [n]. The capacity is the
    number of cells.
    src/src/gguf/core.c, [yvex_name_index] *)
Definition yvex_name_index : Type := list Z.

(** src/src/gguf/core.c, [yvex_gguf] *)
Record yvex_gguf := Gguf {
  gg_header : yvex_gguf_header;
  gg_metadata : list yvex_gguf_metadata_entry;
  gg_tensors : list yvex_gguf_tensor_info;
  gg_metadata_index : yvex_name_index;
  gg_tensor_index : yvex_name_index;
  gg_tensor_data_offset : Z;
  gg_alignment : Z;
  gg_stats : yvex_gguf_reader_stats;
}.

#[export] Instance gguf_eta : Eta yvex_gguf := λ g,
  Gguf (gg_header g) (gg_metadata g) (gg_tensors g) (gg_metadata_index g) (gg_tensor_index g)
    (gg_tensor_data_offset g) (gg_alignment g) (gg_stats g).

(** A counted text read as a C string: the bytes before the first null byte. *)
Fixpoint text_of_bytes (bytes : list Z) : string :=
  match bytes with
  | [] => ""
  | b :: bytes => if b =? 0 then "" else String (ascii_of_N (Z.to_N b)) (text_of_bytes bytes)
  end.

(** The least multiple of [alignment] that is not below [value]. *)
Definition round_up (alignment value : Z) : Z := (value + alignment - 1) / alignment * alignment.

(** * The name index *)

(** src/src/gguf/core.c, [name_hash] *)
Definition name_hash (name : list Z) : Z :=
  foldl (λ hash byte, u64 (Z.lxor hash byte * 1099511628211)) 1469598103934665603 name.

Definition index_capacity (index : yvex_name_index) : Z := Z.of_nat (length index).

(** src/src/gguf/core.c, [name_index_start] *)
Definition name_index_start (index : yvex_name_index) (name : list Z) : Z :=
  Z.land (name_hash name) (u64 (index_capacity index - 1)).

(** The end of a probe: a free cell, or the ordinal that holds the name. [ProbeLost] is an access
    outside an array, or more probes than the index has cells: a loop that does not end. *)
Inductive probe : Type :=
  | ProbeFree (slot : Z)
  | ProbeFound (ordinal : Z)
  | ProbeLost.

(** The [while] loop that inserting and finding share.
    src/src/gguf/core.c:594-604, [metadata_index_insert] *)
Fixpoint name_index_probe (fuel : nat) (names : list (list Z)) (index : yvex_name_index)
    (name : list Z) (slot : Z) : probe :=
  match fuel with
  | O => ProbeLost
  | S fuel =>
      match array_get index slot with
      | None => ProbeLost
      | Some cell =>
          if cell =? 0 then ProbeFree slot
          else match array_get names (u64 (cell - 1)) with
               | None => ProbeLost
               | Some prior =>
                   if decide (prior = name) then ProbeFound (u64 (cell - 1))
                   else name_index_probe fuel names index name
                          (Z.land (u64 (slot + 1)) (u64 (index_capacity index - 1)))
               end
      end
  end.

Definition name_index_lookup (names : list (list Z)) (index : yvex_name_index) (name : list Z) : probe :=
  name_index_probe (length index) names index name (name_index_start index name).

(** The ordinal of [name], [None] when the index does not hold it. *)
Definition name_index_find (names : list (list Z)) (index : yvex_name_index) (name : list Z) : option Z :=
  if index_capacity index =? 0 then None
  else match name_index_lookup names index name with ProbeFound ordinal => Some ordinal | _ => None end.

(** * Accessors *)

(** src/src/gguf/core.c, [yvex_gguf_metadata_count] *)
Definition yvex_gguf_metadata_count (gguf : yvex_gguf) : Z := hd_metadata_count (gg_header gguf).

(** src/src/gguf/core.c, [yvex_gguf_metadata_key] *)
Definition yvex_gguf_metadata_key (gguf : yvex_gguf) (index : Z) : option (list Z) :=
  if index <? yvex_gguf_metadata_count gguf then me_key <$> array_get (gg_metadata gguf) index else None.

(** src/src/gguf/core.c, [yvex_gguf_metadata_value] *)
Definition yvex_gguf_metadata_value (gguf : yvex_gguf) (index : Z) : option yvex_gguf_value :=
  if index <? yvex_gguf_metadata_count gguf then me_value <$> array_get (gg_metadata gguf) index else None.

(** src/src/gguf/core.c, [yvex_gguf_metadata_find] *)
Definition yvex_gguf_metadata_find (gguf : yvex_gguf) (key : option string) : option yvex_gguf_value :=
  key ← key;
  index ← name_index_find (me_key <$> gg_metadata gguf) (gg_metadata_index gguf) (cstr key);
  me_value <$> array_get (gg_metadata gguf) index.

(** src/src/gguf/core.c, [yvex_gguf_value_type_of] *)
Definition yvex_gguf_value_type_of (value : option yvex_gguf_value) : yvex_gguf_value_type :=
  match value with
  | Some (ValueUnsigned type _ | ValueSigned type _ | ValueFloat type _) => type
  | Some (ValueBool _) => YVEX_GGUF_VALUE_BOOL
  | Some (ValueString _) => YVEX_GGUF_VALUE_STRING
  | Some (ValueArray _ _) => YVEX_GGUF_VALUE_ARRAY
  | None => YVEX_GGUF_VALUE_INVALID
  end.

(** src/src/gguf/core.c, [yvex_gguf_value_as_u64] *)
Definition yvex_gguf_value_as_u64 (value : option yvex_gguf_value) : option Z :=
  match value with
  | Some (ValueUnsigned
      (YVEX_GGUF_VALUE_UINT8 | YVEX_GGUF_VALUE_UINT16 | YVEX_GGUF_VALUE_UINT32 | YVEX_GGUF_VALUE_UINT64)
      u64) => Some u64
  | _ => None
  end.

(** src/src/gguf/core.c, [yvex_gguf_value_as_i64] *)
Definition yvex_gguf_value_as_i64 (value : option yvex_gguf_value) : option Z :=
  match value with
  | Some (ValueSigned
      (YVEX_GGUF_VALUE_INT8 | YVEX_GGUF_VALUE_INT16 | YVEX_GGUF_VALUE_INT32 | YVEX_GGUF_VALUE_INT64)
      i64) => Some i64
  | _ => None
  end.

(** The bit pattern, with the type that says its width.
    src/src/gguf/core.c, [yvex_gguf_value_as_f64] *)
Definition yvex_gguf_value_as_f64 (value : option yvex_gguf_value) : option (yvex_gguf_value_type * Z) :=
  match value with
  | Some (ValueFloat ((YVEX_GGUF_VALUE_FLOAT32 | YVEX_GGUF_VALUE_FLOAT64) as type) bits) => Some (type, bits)
  | _ => None
  end.

(** src/src/gguf/core.c, [yvex_gguf_value_as_bool] *)
Definition yvex_gguf_value_as_bool (value : option yvex_gguf_value) : option Z :=
  match value with Some (ValueBool b) => Some b | _ => None end.

(** src/src/gguf/core.c, [yvex_gguf_value_as_string] *)
Definition yvex_gguf_value_as_string (value : option yvex_gguf_value) : option (list Z) :=
  match value with Some (ValueString data) => Some data | _ => None end.

(** src/src/gguf/core.c, [yvex_gguf_value_array_info] *)
Definition yvex_gguf_value_array_info (value : option yvex_gguf_value) : option (yvex_gguf_value_type * Z) :=
  match value with
  | Some (ValueArray element_type items) => Some (element_type, Z.of_nat (length items))
  | _ => None
  end.

(** src/src/gguf/core.c, [yvex_gguf_value_array_at] *)
Definition yvex_gguf_value_array_at (value : option yvex_gguf_value) (index : Z) : option yvex_gguf_value :=
  match value with Some (ValueArray _ items) => array_get items index | _ => None end.

(** src/src/gguf/core.c, [yvex_gguf_tensor_count] *)
Definition yvex_gguf_tensor_count (gguf : yvex_gguf) : Z := hd_tensor_count (gg_header gguf).

(** src/src/gguf/core.c, [yvex_gguf_tensor_at] *)
Definition yvex_gguf_tensor_at (gguf : yvex_gguf) (index : Z) : option yvex_gguf_tensor_info :=
  if index <? yvex_gguf_tensor_count gguf then array_get (gg_tensors gguf) index else None.

(** src/src/gguf/core.c, [yvex_gguf_tensor_find] *)
Definition yvex_gguf_tensor_find (gguf : yvex_gguf) (name : option string) : option yvex_gguf_tensor_info :=
  name ← name;
  index ← name_index_find (ti_name <$> gg_tensors gguf) (gg_tensor_index gguf) (cstr name);
  array_get (gg_tensors gguf) index.

(** src/src/gguf/core.c, [yvex_gguf_tensor_data_offset] *)
Definition yvex_gguf_tensor_data_offset (gguf : yvex_gguf) : Z := gg_tensor_data_offset gguf.

(** src/src/gguf/core.c, [yvex_gguf_alignment] *)
Definition yvex_gguf_alignment (gguf : yvex_gguf) : Z := gg_alignment gguf.

(** src/src/gguf/core.c, [yvex_gguf_file_size] *)
Definition yvex_gguf_file_size (gguf : yvex_gguf) : Z := rs_file_size (gg_stats gguf).

(** * Correctness of the name index *)

Section name_index.
Implicit Types (names : list (list Z)) (index : list Z) (name : list Z).

(** The cell [steps] probes after the start. *)
Definition probe_slot index (start : Z) (steps : nat) : Z :=
  (start + Z.of_nat steps) mod index_capacity index.

Definition occupied (cell : Z) : Prop := cell ≠ 0.
#[local] Instance occupied_dec cell : Decision (occupied cell).
Proof. unfold occupied. apply _. Defined.

(** The first [steps] cells from [start] are occupied. *)
Definition path_occupied index (start : Z) (steps : nat) : Prop :=
  ∀ j cell, (j < steps)%nat → array_get index (probe_slot index start j) = Some cell → occupied cell.

(** The capacity is a power of two, every name is reached from its start over occupied cells, an
    occupied cell holds an ordinal, and one cell is free. *)
Record index_ok names index : Prop := IndexOk {
  io_capacity : ∃ e, 0 ≤ e < 63 ∧ index_capacity index = 2 ^ e;
  io_cells : Forall (λ cell, 0 ≤ cell ≤ Z.of_nat (length names)) index;
  io_count : length (filter occupied index) = length names;
  io_free : (length names < length index)%nat;
  io_reach : ∀ n name, names !! n = Some name → ∃ k, (k < length index)%nat ∧
    array_get index (probe_slot index (name_index_start index name) k) = Some (Z.of_nat n + 1) ∧
    path_occupied index (name_index_start index name) k;
  io_nodup : NoDup names;
}.

Section ok.
Context names index (Hok : index_ok names index).

Lemma index_capacity_range : 0 < index_capacity index < 2 ^ 63.
Proof.
  destruct (io_capacity _ _ Hok) as (e & He & ->). split; [apply Z.pow_pos_nonneg; lia|].
  apply Z.pow_lt_mono_r; lia.
Qed.

Lemma index_mask x : 0 ≤ x → Z.land x (u64 (index_capacity index - 1)) = x mod index_capacity index.
Proof.
  intros Hx. pose proof index_capacity_range as Hc. change (2 ^ 63) with 9223372036854775808 in Hc.
  rewrite u64_id by ulia. destruct (io_capacity _ _ Hok) as (e & He & ->).
  rewrite <- Z.land_ones by lia. f_equal. rewrite Z.ones_equiv. lia.
Qed.

Lemma name_hash_range name : 0 ≤ name_hash name.
Proof.
  unfold name_hash. cut (∀ h, 0 ≤ h → 0 ≤ foldl (λ hash byte, u64 (Z.lxor hash byte * 1099511628211)) h name).
  { intros H. by apply H. }
  induction name as [|b name IH]; intros h Hh; [done|]. cbn [foldl]. apply IH. apply u64_range.
Qed.

Lemma index_start_slot name : name_index_start index name = probe_slot index (name_index_start index name) 0.
Proof.
  unfold probe_slot, name_index_start. rewrite index_mask by apply name_hash_range.
  rewrite Z.add_0_r, Zmod_mod. done.
Qed.

Lemma index_start_nonneg name : 0 ≤ name_index_start index name.
Proof.
  unfold name_index_start. rewrite index_mask by apply name_hash_range. apply Z.mod_pos_bound.
  apply index_capacity_range.
Qed.

Lemma probe_slot_range start k : 0 ≤ probe_slot index start k < index_capacity index.
Proof. apply Z.mod_pos_bound, index_capacity_range. Qed.

Lemma probe_slot_next start k :
  Z.land (u64 (probe_slot index start k + 1)) (u64 (index_capacity index - 1)) = probe_slot index start (S k).
Proof.
  pose proof (probe_slot_range start k). pose proof index_capacity_range as Hc.
  change (2 ^ 63) with 9223372036854775808 in Hc. rewrite u64_id by ulia. rewrite index_mask by lia.
  unfold probe_slot. rewrite Zplus_mod_idemp_l. f_equal. lia.
Qed.

(** Some probe within one round reaches a free cell. *)
Lemma probe_reaches_free start :
  0 ≤ start → ∃ k, (k < length index)%nat ∧ array_get index (probe_slot index start k) = Some 0.
Proof.
  intros Hs. assert (∃ s, index !! s = Some 0) as [s Hi].
  { destruct (decide (Exists (λ c, ¬ occupied c) index)) as [He|Hn].
    - apply Exists_exists in He as (c & [s Hi]%list_elem_of_lookup_1 & Hc). exists s.
      etrans; [exact Hi|]. f_equal. unfold occupied in Hc. lia.
    - exfalso. assert (filter occupied index = index) as E.
      { clear -Hn. induction index as [|c l IH]; [done|]. rewrite Exists_cons in Hn.
        rewrite filter_cons, decide_True by (destruct (decide (occupied c)); tauto). f_equal. tauto. }
      pose proof (io_count _ _ Hok) as H1. rewrite E in H1. pose proof (io_free _ _ Hok). lia. }
  pose proof (lookup_lt_Some _ _ _ Hi) as Hl. pose proof index_capacity_range as Hc.
  unfold index_capacity in *. set (cap := Z.of_nat (length index)) in *.
  exists (Z.to_nat ((Z.of_nat s - start) mod cap)).
  pose proof (Z.mod_pos_bound (Z.of_nat s - start) cap ltac:(lia)) as Hb. split; [lia|].
  unfold probe_slot, index_capacity. fold cap. rewrite Z2Nat.id by lia.
  rewrite Zplus_mod_idemp_r. replace (start + (Z.of_nat s - start)) with (Z.of_nat s) by lia.
  rewrite Z.mod_small by lia. by rewrite array_get_nat.
Qed.
(** Where a lookup ends. *)
Definition lookup_post name (p : probe) : Prop :=
  match p with
  | ProbeFound i => 0 ≤ i ∧ names !! Z.to_nat i = Some name
  | ProbeFree s => (name ∉ names) ∧ array_get index s = Some 0 ∧
      (∃ k, (k < length index)%nat ∧ s = probe_slot index (name_index_start index name) k ∧
         path_occupied index (name_index_start index name) k)
  | ProbeLost => False
  end.

Lemma array_get_total {A} (l : list A) i : 0 ≤ i < Z.of_nat (length l) → ∃ x, array_get l i = Some x.
Proof. apply array_get_is_Some. Qed.

(** Two probes of the same start that hit the same round number see the same cell. *)
Lemma probe_loop_spec name fuel k :
  (k + fuel = length index)%nat →
  (∃ k0, (k ≤ k0 < length index)%nat ∧
    array_get index (probe_slot index (name_index_start index name) k0) = Some 0) →
  (∀ j cell, (j < k)%nat → array_get index (probe_slot index (name_index_start index name) j) = Some cell →
     occupied cell ∧ names !! Z.to_nat (cell - 1) ≠ Some name) →
  lookup_post name (name_index_probe fuel names index name (probe_slot index (name_index_start index name) k)).
Proof.
  set (start := name_index_start index name).
  revert k. induction fuel as [|fuel IH]; intros k Hk (k0 & Hk0 & Hfree) Hpath; [lia|]. cbn [name_index_probe].
  destruct (array_get_total index (probe_slot index start k)) as [cell Hcell]; [apply probe_slot_range|].
  rewrite Hcell. pose proof (array_get_Some _ _ _ Hcell) as [_ Hin].
  pose proof (Forall_lookup_1 _ _ _ _ (io_cells _ _ Hok) Hin) as Hrange. cbn beta in Hrange.
  pose proof (io_free _ _ Hok) as Hlt. pose proof index_capacity_range as Hc.
  change (2 ^ 63) with 9223372036854775808 in Hc. unfold index_capacity in Hc.
  destruct (Z.eqb_spec cell 0) as [->|Hne].
  - split; [|split; [done|]].
    + intros [n Hn]%list_elem_of_lookup_1. destruct (io_reach _ _ Hok n name Hn) as (r & Hr & Hat & Hocc).
      fold start in Hat, Hocc. destruct (lt_eq_lt_dec r k) as [[H|H]|H].
      * destruct (Hpath r _ H Hat) as [_ []]. by replace (Z.to_nat (Z.of_nat n + 1 - 1)) with n by lia.
      * subst r. rewrite Hat in Hcell. injection Hcell. lia.
      * by destruct (Hocc k 0 H Hcell).
    + exists k. split; [lia|]. split; [done|]. intros j c Hj Hc'. by destruct (Hpath j c Hj Hc').
  - rewrite u64_id by ulia. destruct (array_get_total names (cell - 1)) as [prior Hprior]; [lia|].
    rewrite Hprior. apply array_get_Some in Hprior as [Hb Hp]. case_decide as Heq.
    + subst. by split; [lia|].
    + rewrite probe_slot_next. apply IH; [lia| |].
      * exists k0. split; [|done]. destruct (decide (k = k0)) as [->|]; [|lia].
        rewrite Hfree in Hcell. by injection Hcell as <-.
      * intros j c Hj Hc'. destruct (decide (j = k)) as [->|]; [|apply (Hpath j c); [lia|done]].
        rewrite Hcell in Hc'. injection Hc' as <-. split; [done|]. rewrite Hp. congruence.
Qed.

(** A lookup always ends, and finds exactly the names of the index. *)
Lemma name_index_lookup_spec name : lookup_post name (name_index_lookup names index name).
Proof.
  unfold name_index_lookup. rewrite index_start_slot at 1. apply probe_loop_spec; [done| |lia].
  destruct (probe_reaches_free (name_index_start index name)) as (k & Hk & Hf); [apply index_start_nonneg|].
  exists k. split; [lia|done].
Qed.

(** Finding agrees with a linear search. *)
Lemma name_index_find_spec name :
  name_index_find names index name = (λ found, Z.of_nat found.1) <$> list_find (λ prior, prior = name) names.
Proof.
  unfold name_index_find. pose proof index_capacity_range as Hc.
  rewrite (proj2 (Z.eqb_neq _ _)) by lia. pose proof (name_index_lookup_spec name) as Hl.
  destruct (name_index_lookup names index name) as [s|i|]; cbn [lookup_post] in Hl; [| |done].
  - destruct Hl as [Hnot _]. rewrite (proj2 (list_find_None _ _)); [done|].
    apply Forall_forall. intros x Hx ->. done.
  - destruct Hl as [Hi Hn]. destruct (list_find _ names) as [[j x]|] eqn:E.
    + apply list_find_Some in E as (E & -> & _). cbn. f_equal.
      pose proof (NoDup_lookup _ _ _ _ (io_nodup _ _ Hok) E Hn). lia.
    + apply list_find_None in E. rewrite Forall_lookup in E. by destruct (E _ _ Hn).
Qed.
End ok.

(** ** Building an index *)

Lemma index_ok_empty e :
  0 ≤ e < 63 → index_ok [] (replicate (Z.to_nat (2 ^ e)) 0).
Proof.
  intros He. assert (0 < 2 ^ e) by (apply Z.pow_pos_nonneg; lia). constructor.
  - exists e. split; [done|]. unfold index_capacity. rewrite length_replicate. lia.
  - apply Forall_replicate. by cbn.
  - cbn. generalize (Z.to_nat (2 ^ e)). intros n. by induction n.
  - rewrite length_replicate. cbn. lia.
  - done.
  - constructor.
Qed.

Lemma length_filter_insert index (s : nat) cell :
  index !! s = Some 0 → cell ≠ 0 →
  length (filter occupied (<[s := cell]> index)) = S (length (filter occupied index)).
Proof.
  revert s. induction index as [|c l IH]; intros [|s] Hs Hc; cbn in Hs |- *; simplify_eq.
  - rewrite decide_True, decide_False by (unfold occupied; lia). done.
  - case_decide; cbn [length]; by rewrite IH.
Qed.

(** Filling the free cell a lookup ended on adds the name. *)
Lemma index_ok_insert names index name s :
  index_ok names index → name_index_lookup names index name = ProbeFree s →
  (S (length names) < length index)%nat →
  0 ≤ s < index_capacity index ∧
  index_ok (names ++ [name]) (<[Z.to_nat s := Z.of_nat (length names) + 1]> index).
Proof.
  intros Hok Hl Hroom. pose proof (name_index_lookup_spec names index Hok name) as Hspec.
  rewrite Hl in Hspec. destruct Hspec as (Hnot & Hfree & k & Hk & Hs & Hocc).
  pose proof (probe_slot_range names index Hok (name_index_start index name) k) as Hr. rewrite <- Hs in Hr.
  split; [done|]. set (cell := Z.of_nat (length names) + 1). set (index' := <[Z.to_nat s := cell]> index).
  assert (Hlen : length index' = length index) by apply length_insert.
  assert (Hstart : ∀ n, name_index_start index' n = name_index_start index n)
    by (intros n; unfold name_index_start, index_capacity; by rewrite Hlen).
  assert (Hslot : ∀ st j, probe_slot index' st j = probe_slot index st j)
    by (intros st j; unfold probe_slot, index_capacity; by rewrite Hlen).
  assert (Hget : ∀ st j, array_get index' (probe_slot index st j) =
    if decide (probe_slot index st j = s) then Some cell else array_get index (probe_slot index st j)).
  { intros st j. by apply array_get_after_set. }
  assert (Hpath : ∀ st j, path_occupied index st j → path_occupied index' st j).
  { intros st j H i c Hi. rewrite Hslot, Hget. case_decide; [intros [= <-]; unfold occupied; lia|by apply H]. }
  constructor.
  - destruct (io_capacity _ _ Hok) as (e & He & Hc). exists e. split; [done|].
    unfold index_capacity. by rewrite Hlen.
  - apply Forall_insert; [|rewrite length_app; cbn; lia].
    eapply Forall_impl; [apply (io_cells _ _ Hok)|]. intros c Hc. cbn beta in *. rewrite length_app. lia.
  - unfold index'. rewrite length_filter_insert, (io_count _ _ Hok), length_app; [cbn; lia| |lia].
    apply array_get_Some in Hfree. tauto.
  - rewrite Hlen, length_app. cbn. lia.
  - intros n other Hn. rewrite Hstart. destruct (decide (n < length names)%nat) as [Hlt|Hge].
    + rewrite lookup_app_l in Hn by done. destruct (io_reach _ _ Hok n other Hn) as (r & Hrl & Hat & Ho).
      exists r. split; [lia|]. rewrite Hslot, Hget. split; [|by apply Hpath].
      rewrite decide_False; [done|]. intros E. rewrite E, Hfree in Hat. injection Hat. lia.
    + assert (n = length names) as ->.
      { apply lookup_lt_Some in Hn. rewrite length_app in Hn. cbn in Hn. lia. }
      rewrite list_lookup_middle in Hn by done. injection Hn as <-.
      exists k. split; [lia|]. rewrite Hslot, Hget, decide_True by done. split; [done|]. by apply Hpath.
  - apply NoDup_app. split; [apply (io_nodup _ _ Hok)|]. split; [|apply NoDup_singleton].
    intros x Hx ->%list_elem_of_singleton. done.
Qed.
End name_index.
