(* ===== verification/GgufText.v ===== *)
(** The texts of a GGUF container, [src/gguf/core.c]: UTF-8 validation and the grammar of metadata
    keys, against the encoding of RFC 3629 and an inductive grammar. *)

From S2P Require Import Prelude.
#[local] Open Scope Z_scope.

(** * UTF-8 *)

(** How many continuation bytes a lead byte announces, its payload bits and the least code point of
    that length.
    src/src/gguf/core.c:375-389, [utf8_valid] *)
Definition utf8_lead (first : Z) : option (nat * Z * Z) :=
  if (194 <=? first) && (first <=? 223) then Some (1%nat, Z.land first 31, 128)
  else if (224 <=? first) && (first <=? 239) then Some (2%nat, Z.land first 15, 2048)
  else if (240 <=? first) && (first <=? 244) then Some (3%nat, Z.land first 7, 65536)
  else None.

(** The continuation bytes, and what follows them. *)
Fixpoint utf8_continue (need : nat) (codepoint : Z) (text : list Z) : option (Z * list Z) :=
  match need, text with
  | O, _ => Some (codepoint, text)
  | S _, [] => None
  | S need, continuation :: text =>
      if negb (Z.land continuation 192 =? 128) then None
      else utf8_continue need (u32 (Z.lor (Z.shiftl codepoint 6) (Z.land continuation 63))) text
  end.

(** Every round consumes a byte. *)
Fixpoint utf8_loop (fuel : nat) (text : list Z) : bool :=
  match fuel, text with
  | _, [] => true
  | O, _ => false
  | S fuel, first :: text =>
      if first <? 128 then utf8_loop fuel text
      else match utf8_lead first with
           | None => false
           | Some (need, codepoint, minimum) =>
               if Z.of_nat (length text) <? Z.of_nat need then false
               else match utf8_continue need codepoint text with
                    | None => false
                    | Some (codepoint, text) =>
                        if (codepoint <? minimum) || (1114111 <? codepoint)
                           || ((55296 <=? codepoint) && (codepoint <=? 57343))
                        then false else utf8_loop fuel text
                    end
           end
  end.

(** src/src/gguf/core.c, [utf8_valid] *)
Definition utf8_valid (text : list Z) : bool := utf8_loop (length text) text.

(** ** The encoding *)

(** A Unicode scalar value. *)
Definition scalar_value (c : Z) : Prop := 0 ≤ c ≤ 1114111 ∧ ¬ (55296 ≤ c ≤ 57343).

(** RFC 3629, section 3. *)
Definition utf8_encode (c : Z) : list Z :=
  if c <? 128 then [c]
  else if c <? 2048 then [192 + c / 64; 128 + c mod 64]
  else if c <? 65536 then [224 + c / 4096; 128 + c / 64 mod 64; 128 + c mod 64]
  else [240 + c / 262144; 128 + c / 4096 mod 64; 128 + c / 64 mod 64; 128 + c mod 64].

(** A property of bytes, checked on all of them. *)
Lemma byte_cases (P : Z → Prop) `{!∀ b, Decision (P b)} b :
  forallb (λ b, bool_decide (P b)) (seqZ 0 256) = true → is_u8 b → P b.
Proof.
  intros Hall Hb. rewrite forallb_forall in Hall. apply (bool_decide_eq_true_1 (P b)), Hall.
  apply list_elem_of_In, elem_of_seqZ. ulia.
Qed.

Definition continuation (b : Z) : Prop := 128 ≤ b < 192.

Lemma continuation_byte b :
  is_u8 b → (Z.land b 192 =? 128) = bool_decide (continuation b) ∧ Z.land b 63 = b mod 64.
Proof.
  revert b. refine (λ b, byte_cases (λ b, (Z.land b 192 =? 128) = bool_decide (continuation b) ∧
    Z.land b 63 = b mod 64) b _). by vm_compute.
Qed.

(** One continuation byte appends its six bits. *)
Lemma utf8_continue_cons need cp b text :
  is_u8 b → 0 ≤ cp < 67108864 →
  utf8_continue (S need) cp (b :: text) =
    if bool_decide (continuation b) then utf8_continue need (cp * 64 + (b - 128)) text else None.
Proof.
  intros Hb Hcp. cbn [utf8_continue]. destruct (continuation_byte b Hb) as [-> ->].
  case_bool_decide as Hc; [|done]. cbn [negb]. f_equal. unfold continuation in Hc.
  assert (b mod 64 = b - 128) as -> by (pose proof (Z.div_mod b 64); pose proof (Z.mod_pos_bound b 64); lia).
  rewrite lor_low by (change (2 ^ 6) with 64; lia). change (2 ^ 6) with 64. apply u32_id. ulia.
Qed.

Lemma utf8_lead_byte b :
  is_u8 b →
  utf8_lead b = if bool_decide (194 ≤ b ≤ 223) then Some (1%nat, b - 192, 128)
                else if bool_decide (224 ≤ b ≤ 239) then Some (2%nat, b - 224, 2048)
                else if bool_decide (240 ≤ b ≤ 244) then Some (3%nat, b - 240, 65536)
                else None.
Proof.
  revert b. refine (λ b, byte_cases (λ b, utf8_lead b = _) b _). by vm_compute.
Qed.

(** Euclidean equations for the divisions and remainders in sight. *)
Ltac divlia := Z.to_euclidean_division_equations; lia.

Lemma utf8_encode_range c : scalar_value c → Forall is_u8 (utf8_encode c).
Proof.
  intros [Hc _]. unfold utf8_encode. repeat split_guard; guards; forall_cells; unfold is_u8; divlia.
Qed.

Lemma utf8_encode_length c : (1 ≤ length (utf8_encode c))%nat.
Proof. unfold utf8_encode. repeat split_guard; cbn; lia. Qed.

(** Decide the comparisons of a round by arithmetic. *)
Ltac utf8_decide :=
  repeat first
    [ rewrite utf8_lead_byte by done
    | rewrite (bool_decide_true (_ ≤ _ ≤ _)) by divlia
    | rewrite (bool_decide_false (_ ≤ _ ≤ _)) by divlia
    | rewrite utf8_continue_cons by (done || divlia)
    | rewrite (bool_decide_true (continuation _)) by (unfold continuation; divlia)
    | rewrite (proj2 (Z.ltb_ge _ _)) by (cbn [length]; divlia)
    | progress cbn [orb andb utf8_continue] ].

(** The last continuation byte and the range check of an accepted round. *)
Ltac utf8_finish :=
  split_guard; [done|];
  let Cn := fresh "Cn" in
  match goal with |- context [bool_decide (continuation ?b)] => destruct (decide (continuation b)) as [Cn|Cn] end;
  [rewrite bool_decide_true by exact Cn; unfold continuation in Cn; cbn [utf8_continue]
  |by rewrite bool_decide_false by exact Cn];
  match goal with |- context [?c <? ?m] =>
    match goal with |- context [utf8_loop _ ?rest] =>
      split_guard; [done|]; guards; intros; exists c, rest
    end
  end;
  split; [unfold scalar_value; lia|]; split; [|done];
  unfold utf8_encode; repeat split_guard; guards; try lia; cbn [app];
  repeat (apply (f_equal2 cons); [divlia|]); reflexivity.

(** A round of the loop consumes one encoded scalar value. *)
Lemma utf8_loop_encode fuel c text :
  scalar_value c → utf8_loop (S fuel) (utf8_encode c ++ text) = utf8_loop fuel text.
Proof.
  intros Hc. pose proof (utf8_encode_range c Hc) as Hr. destruct Hc as [Hc Hs]. revert Hr.
  unfold utf8_encode. repeat split_guard; guards; cbn [app]; intros Hr;
    repeat (apply Forall_cons in Hr as [? Hr]); cbn [utf8_loop].
  - by rewrite (proj2 (Z.ltb_lt _ _)) by done.
  - utf8_decide. rewrite (proj2 (andb_false_iff _ _)); [done|]. rewrite !Z.leb_gt. divlia.
  - utf8_decide. rewrite (proj2 (andb_false_iff _ _)); [done|]. rewrite !Z.leb_gt. divlia.
  - utf8_decide. rewrite (proj2 (andb_false_iff _ _)); [done|]. rewrite !Z.leb_gt. divlia.
Qed.

(** An accepted round consumed one. *)
Lemma utf8_loop_decode fuel text :
  Forall is_u8 text → text ≠ [] → utf8_loop (S fuel) text = true →
  ∃ c rest, scalar_value c ∧ text = utf8_encode c ++ rest ∧ utf8_loop fuel rest = true.
Proof.
  intros Ht Hne. destruct text as [|b0 text]; [done|]. apply Forall_cons in Ht as [H0 Ht].
  cbn [utf8_loop]. destruct (Z.ltb_spec b0 128) as [Hb|Hb].
  { exists b0, text. split; [unfold scalar_value; ulia|]. split; [|done].
    unfold utf8_encode. by rewrite (proj2 (Z.ltb_lt _ _)). }
  rewrite utf8_lead_byte by done. repeat case_bool_decide; [..|done].
  - destruct text as [|b1 text]; [done|]. apply Forall_cons in Ht as [B1 Ht].
    rewrite utf8_continue_cons by (done || lia). utf8_finish.
  - destruct text as [|b1 [|b2 text]]; [done|done|].
    apply Forall_cons in Ht as [B1 Ht]. apply Forall_cons in Ht as [B2 Ht].
    rewrite utf8_continue_cons by (done || lia). case_bool_decide as C1; [|by split_guard]. unfold continuation in C1.
    rewrite utf8_continue_cons by (done || lia). utf8_finish.
  - destruct text as [|b1 [|b2 [|b3 text]]]; [done|done|done|].
    apply Forall_cons in Ht as [B1 Ht]. apply Forall_cons in Ht as [B2 Ht]. apply Forall_cons in Ht as [B3 Ht].
    rewrite utf8_continue_cons by (done || lia). case_bool_decide as C1; [|by split_guard]. unfold continuation in C1.
    rewrite utf8_continue_cons by (done || lia). case_bool_decide as C2; [|by split_guard]. unfold continuation in C2.
    rewrite utf8_continue_cons by (done || lia). utf8_finish.
Qed.

(** Accepted exactly when the bytes are the encoding of a sequence of scalar values. *)
Lemma utf8_valid_spec text :
  Forall is_u8 text → utf8_valid text = true ↔ ∃ cps, Forall scalar_value cps ∧ text = cps ≫= utf8_encode.
Proof.
  intros Ht. unfold utf8_valid. split.
  - generalize (length text) at 1. intros fuel. revert text Ht. induction fuel as [|fuel IH]; intros text Ht.
    + destruct text; [|done]. intros _. by exists [].
    + destruct (decide (text = [])) as [->|Hne]; [intros _; by exists []|].
      intros (c & rest & Hc & -> & Hl)%utf8_loop_decode; [|done..].
      apply Forall_app in Ht as [_ Ht]. destruct (IH rest Ht Hl) as (cps & Hcps & ->).
      exists (c :: cps). by split; [constructor|].
  - intros (cps & Hcps & ->). assert (Hf : (length cps ≤ length (cps ≫= utf8_encode))%nat).
    { clear. induction cps as [|c cps IH]; [done|]. cbn. rewrite length_app.
      pose proof (utf8_encode_length c). lia. }
    revert Hf. generalize (length (cps ≫= utf8_encode)) at 1 2. intros fuel. clear Ht. revert fuel.
    induction Hcps as [|c cps Hc _ IH]; intros fuel Hf; [by destruct fuel|].
    destruct fuel as [|fuel]; [cbn in Hf; lia|]. cbn [mbind list_bind].
    rewrite utf8_loop_encode by done. apply IH. cbn in Hf. lia.
Qed.

(** * Metadata keys *)

Definition lower (ch : Z) : bool := (97 <=? ch) && (ch <=? 122).
Definition digit (ch : Z) : bool := (48 <=? ch) && (ch <=? 57).

(** The loop over the key.
    src/src/gguf/core.c:498-525, [metadata_key_valid] *)
Fixpoint metadata_key_loop (key : list Z) (segment_start previous_underscore : bool) : bool :=
  match key with
  | [] => negb segment_start && negb previous_underscore
  | ch :: key =>
      if 128 <=? ch then false
      else if ch =? 46 then
        if segment_start || previous_underscore || (match key with [] => true | _ => false end)
        then false else metadata_key_loop key true false
      else if segment_start then
        if negb (lower ch) then false else metadata_key_loop key false false
      else if ch =? 95 then
        if previous_underscore then false else metadata_key_loop key segment_start true
      else if negb (lower ch || digit ch) then false
      else metadata_key_loop key segment_start false
  end.

(** src/src/gguf/core.c, [metadata_key_valid] *)
Definition metadata_key_valid (key : list Z) : bool :=
  match key with [] => false | _ => metadata_key_loop key true false end.

(** The grammar: segments separated by dots; a segment is a letter, then letters, digits and single
    underscores inside. *)
Inductive key_tail : list Z → Prop :=
  | key_end : key_tail []
  | key_alnum ch key : lower ch || digit ch = true → key_tail key → key_tail (ch :: key)
  | key_underscore ch key : lower ch || digit ch = true → key_tail key → key_tail (95 :: ch :: key)
  | key_dot ch key : lower ch = true → key_tail key → key_tail (46 :: ch :: key).

Inductive key_grammar : list Z → Prop :=
  | key_start ch key : lower ch = true → key_tail key → key_grammar (ch :: key).

Lemma lower_range ch : lower ch = true → 97 ≤ ch ≤ 122.
Proof. unfold lower. intros. guards. lia. Qed.

Lemma alnum_range ch : lower ch || digit ch = true → 97 ≤ ch ≤ 122 ∨ 48 ≤ ch ≤ 57.
Proof. unfold lower, digit. intros. guards. lia. Qed.

Lemma key_grammar_cons ch key : key_grammar (ch :: key) ↔ lower ch = true ∧ key_tail key.
Proof. split; [by inversion 1|]. intros [? ?]. by constructor. Qed.

(** A character that an underscore needs after it. *)
Definition alnum_tail (key : list Z) : Prop :=
  match key with ch :: key => lower ch || digit ch = true ∧ key_tail key | [] => False end.

Lemma key_tail_cons ch key :
  key_tail (ch :: key) ↔
    if decide (ch = 46) then key_grammar key
    else if decide (ch = 95) then alnum_tail key
    else lower ch || digit ch = true ∧ key_tail key.
Proof.
  split.
  - inversion 1 as [|? ? Ha|? ? Ha|? ? Ha]; subst.
    + apply alnum_range in Ha as Hr. rewrite !decide_False by lia. done.
    + rewrite decide_False by done. by rewrite decide_True.
    + rewrite decide_True by done. by constructor.
  - repeat case_decide; subst.
    + inversion 1; subst. by constructor.
    + destruct key as [|c key]; [done|]. intros [? ?]. by constructor.
    + intros [? ?]. by constructor.
Qed.

(** What each state of the loop accepts. *)
Lemma metadata_key_loop_spec key :
  (metadata_key_loop key false false = true ↔ key_tail key) ∧
  (metadata_key_loop key true false = true ↔ key_grammar key) ∧
  (metadata_key_loop key false true = true ↔ alnum_tail key).
Proof.
  induction key as [|ch key (IH1 & IH2 & IH3)]; cbn [metadata_key_loop alnum_tail].
  { split_and!; split; try done; [constructor|inversion 1]. }
  rewrite key_tail_cons, key_grammar_cons. destruct (Z.leb_spec 128 ch) as [Hch|Hch].
  { rewrite !decide_False by lia. pose proof (alnum_range ch). pose proof (lower_range ch).
    split_and!; (split; [done|]); intros [? _]; (lia || (exfalso; naive_solver lia)). }
  destruct (Z.eqb_spec ch 46) as [->|H46].
  { rewrite decide_True by done. split_and!; [|by split; [|intros [? _]]..].
    cbn [orb]. destruct key; [split; [done|inversion 1]|done]. }
  rewrite decide_False by done. destruct (Z.eqb_spec ch 95) as [->|H95].
  { rewrite decide_True by done. split_and!; [done|by split; [|intros [? _]]..]. }
  rewrite decide_False by done. destruct (lower ch) eqn:El; destruct (digit ch) eqn:Ed; cbn [negb orb];
    rewrite ?IH1; naive_solver.
Qed.

(** A key is accepted exactly when the grammar derives it. *)
Lemma metadata_key_valid_spec key : metadata_key_valid key = true ↔ key_grammar key.
Proof.
  destruct key as [|ch key]; [split; [done|inversion 1]|]. apply (metadata_key_loop_spec (ch :: key)).
Qed.
