(* ===== verification/GgufReader.v ===== *)
(** The structural reader of [src/gguf/core.c]: from an opened artifact to the parsed view, under
    resource budgets.

    A parser is a function of the file cursor that fails with a parse result or returns a value and
    the next cursor. The artifact, the options and the allocator, which answers the n-th allocation,
    are variables of the section. The place names handed to [yvex_error_set] are not represented; the
    status of a failure is the one [parse_code_error] derives from its code. *)

From S2P Require Import Prelude Status Exec Artifact Qtype Gguf GgufText.
#[local] Open Scope Z_scope.

(** * Vocabulary *)

(** src/include/yvex/gguf.h, [yvex_gguf_parse_section] *)
Inductive yvex_gguf_parse_section : Type :=
  | YVEX_GGUF_PARSE_SECTION_NONE | YVEX_GGUF_PARSE_SECTION_FILE | YVEX_GGUF_PARSE_SECTION_CONTAINER
  | YVEX_GGUF_PARSE_SECTION_METADATA | YVEX_GGUF_PARSE_SECTION_TENSOR_INFO
  | YVEX_GGUF_PARSE_SECTION_QTYPE | YVEX_GGUF_PARSE_SECTION_RANGE | YVEX_GGUF_PARSE_SECTION_RESOURCE.

#[export] Instance parse_section_eq_dec : EqDecision yvex_gguf_parse_section.
Proof. solve_decision. Defined.

(** src/include/yvex/gguf.h, [yvex_gguf_parse_code] *)
Inductive yvex_gguf_parse_code : Type :=
  | YVEX_GGUF_PARSE_OK | YVEX_GGUF_PARSE_INVALID_ARGUMENT | YVEX_GGUF_PARSE_FILE_UNREADABLE
  | YVEX_GGUF_PARSE_SHORT_READ | YVEX_GGUF_PARSE_INVALID_MAGIC | YVEX_GGUF_PARSE_UNSUPPORTED_VERSION
  | YVEX_GGUF_PARSE_INVALID_COUNT | YVEX_GGUF_PARSE_RESOURCE_LIMIT | YVEX_GGUF_PARSE_MALFORMED_KEY
  | YVEX_GGUF_PARSE_DUPLICATE_METADATA_KEY | YVEX_GGUF_PARSE_UNSUPPORTED_METADATA_TYPE
  | YVEX_GGUF_PARSE_MALFORMED_VALUE | YVEX_GGUF_PARSE_MALFORMED_STRING
  | YVEX_GGUF_PARSE_MALFORMED_ARRAY | YVEX_GGUF_PARSE_INVALID_ALIGNMENT
  | YVEX_GGUF_PARSE_MALFORMED_TENSOR_NAME | YVEX_GGUF_PARSE_DUPLICATE_TENSOR_NAME
  | YVEX_GGUF_PARSE_INVALID_RANK | YVEX_GGUF_PARSE_INVALID_DIMENSION | YVEX_GGUF_PARSE_REFUSED_QTYPE
  | YVEX_GGUF_PARSE_OFFSET_OVERFLOW | YVEX_GGUF_PARSE_INCOMPLETE_DIRECTORY
  | YVEX_GGUF_PARSE_ALLOCATION_FAILURE | YVEX_GGUF_PARSE_EMPTY_METADATA_KEY
  | YVEX_GGUF_PARSE_EMPTY_TENSOR_NAME | YVEX_GGUF_PARSE_ELEMENT_COUNT_OVERFLOW
  | YVEX_GGUF_PARSE_ROW_COUNT_OVERFLOW | YVEX_GGUF_PARSE_ROW_BYTE_OVERFLOW
  | YVEX_GGUF_PARSE_TOTAL_BYTE_OVERFLOW.

#[export] Instance parse_code_eq_dec : EqDecision yvex_gguf_parse_code.
Proof. solve_decision. Defined.

(** src/include/yvex/gguf.h, [yvex_gguf_parse_result] *)
Record yvex_gguf_parse_result := ParseResult {
  pr_code : yvex_gguf_parse_code;
  pr_section : yvex_gguf_parse_section;
  pr_byte_offset : Z;
  pr_record_index : Z;
  pr_reason : string;
}.

(** src/include/yvex/gguf.h, [yvex_gguf_reader_options] *)
Record yvex_gguf_reader_options := ReaderOptions {
  ro_max_metadata_entries : Z;
  ro_max_tensor_entries : Z;
  ro_max_array_entries : Z;
  ro_max_total_array_entries : Z;
  ro_max_string_bytes : Z;
  ro_max_total_string_bytes : Z;
  ro_max_owned_bytes : Z;
  ro_max_structural_bytes : Z;
  ro_max_array_depth : Z;
}.

(** src/src/gguf/core.c, [yvex_gguf_reader_options_default] *)
Definition yvex_gguf_reader_options_default : yvex_gguf_reader_options :=
  ReaderOptions 1048576 1048576 16777216 33554432 67108864 1073741824 2147483648 2147483648 16.

(** src/src/gguf/core.c, [parse_code_error] *)
Definition parse_code_error (code : yvex_gguf_parse_code) : yvex_status :=
  match code with
  | YVEX_GGUF_PARSE_OK => YVEX_OK
  | YVEX_GGUF_PARSE_INVALID_ARGUMENT => YVEX_ERR_INVALID_ARG
  | YVEX_GGUF_PARSE_FILE_UNREADABLE => YVEX_ERR_IO
  | YVEX_GGUF_PARSE_SHORT_READ => YVEX_ERR_BOUNDS
  | YVEX_GGUF_PARSE_UNSUPPORTED_VERSION | YVEX_GGUF_PARSE_UNSUPPORTED_METADATA_TYPE
  | YVEX_GGUF_PARSE_REFUSED_QTYPE => YVEX_ERR_UNSUPPORTED
  | YVEX_GGUF_PARSE_RESOURCE_LIMIT | YVEX_GGUF_PARSE_OFFSET_OVERFLOW
  | YVEX_GGUF_PARSE_INCOMPLETE_DIRECTORY | YVEX_GGUF_PARSE_ELEMENT_COUNT_OVERFLOW
  | YVEX_GGUF_PARSE_ROW_COUNT_OVERFLOW | YVEX_GGUF_PARSE_ROW_BYTE_OVERFLOW
  | YVEX_GGUF_PARSE_TOTAL_BYTE_OVERFLOW => YVEX_ERR_BOUNDS
  | YVEX_GGUF_PARSE_ALLOCATION_FAILURE => YVEX_ERR_NOMEM
  | _ => YVEX_ERR_FORMAT
  end.

(** The offset, the counters and the diagnostic position of a running parse, and how many
    allocations it has made.
    src/src/gguf/core.c, [yvex_file_cursor] *)
Record yvex_file_cursor := FileCursor {
  fc_offset : Z;
  fc_stats : yvex_gguf_reader_stats;
  fc_section : yvex_gguf_parse_section;
  fc_record_index : Z;
  fc_allocations : nat;
}.

#[export] Instance file_cursor_eta : Eta yvex_file_cursor := λ c,
  FileCursor (fc_offset c) (fc_stats c) (fc_section c) (fc_record_index c) (fc_allocations c).

(** ** Parsers *)

Inductive parsed (A : Type) : Type :=
  | Parsed (a : A) (cur : yvex_file_cursor)
  | Unparsed (result : yvex_gguf_parse_result).
Arguments Parsed {A} a cur.
Arguments Unparsed {A} result.

Definition parser (A : Type) : Type := yvex_file_cursor → parsed A.

Definition parse_ret {A} (a : A) : parser A := λ cur, Parsed a cur.
Definition parse_bind {A B} (p : parser A) (f : A → parser B) : parser B := λ cur,
  match p cur with Parsed a cur => f a cur | Unparsed result => Unparsed result end.

Notation "'parse' x '<-' p ; q" := (parse_bind p (λ x, q))
  (at level 10, x pattern, p at level 100, q at level 200) : stdpp_scope.

(** src/src/gguf/core.c, [cursor_fail] *)
Definition cursor_fail {A} (code : yvex_gguf_parse_code) (section : yvex_gguf_parse_section)
    (reason : string) : parser A := λ cur,
  Unparsed (ParseResult code section (fc_offset cur) (fc_record_index cur) reason).

(** Fail in the cursor's own section. *)
Definition cursor_fail_here {A} (code : yvex_gguf_parse_code) (reason : string) : parser A := λ cur,
  cursor_fail code (fc_section cur) reason cur.

(** Fail when the guard holds. *)
Notation "'unless_' b 'fail' code section reason ; q" :=
  (if b then cursor_fail code section reason else q)
  (at level 10, b at level 99, code at level 9, section at level 9, reason at level 9, q at level 200)
  : stdpp_scope.

Definition get_stats : parser yvex_gguf_reader_stats := λ cur, Parsed (fc_stats cur) cur.
Definition get_offset : parser Z := λ cur, Parsed (fc_offset cur) cur.
Definition get_section : parser yvex_gguf_parse_section := λ cur, Parsed (fc_section cur) cur.
Definition modify_stats (f : yvex_gguf_reader_stats → yvex_gguf_reader_stats) : parser unit := λ cur,
  Parsed tt (cur <| fc_stats ::= f |>).
Definition set_section (section : yvex_gguf_parse_section) : parser unit := λ cur,
  Parsed tt (cur <| fc_section := section |>).
Definition set_record_index (index : Z) : parser unit := λ cur,
  Parsed tt (cur <| fc_record_index := index |>).

(** [n] runs of a parser, in order. *)
Fixpoint parse_times {A} (n : nat) (p : Z → parser A) (i : Z) : parser (list A) :=
  match n with
  | O => parse_ret []
  | S n => parse a <- p i ; parse l <- parse_times n p (i + 1) ; parse_ret (a :: l)
  end.

(** * The reader *)

(** [sizeof] on the LP64 data model. *)
Definition sizeof_gguf : Z := 152.
Definition sizeof_value : Z := 32.
Definition sizeof_metadata_entry : Z := 48.
Definition sizeof_tensor_info : Z := 112.
Definition sizeof_slot : Z := 8.

Definition YVEX_GGUF_MAGIC : Z := 1179993927.
Definition YVEX_GGUF_SUPPORTED_VERSION : Z := 3.
Definition YVEX_GGUF_DEFAULT_ALIGNMENT : Z := 32.
Definition YVEX_GGUF_MAX_KEY_LEN : Z := 65535.
Definition YVEX_GGUF_MAX_TENSOR_NAME_LEN : Z := 64.
Definition YVEX_GGUF_MAX_DIMS : Z := 4.

Section reader.
Context (artifact : yvex_artifact) (options : yvex_gguf_reader_options) (memory : nat → bool).

(** [malloc], [calloc]: the allocator's next answer. *)
Definition allocate (reason : string) : parser unit := λ cur,
  if memory (fc_allocations cur) then Parsed tt (cur <| fc_allocations ::= S |>)
  else cursor_fail YVEX_GGUF_PARSE_ALLOCATION_FAILURE YVEX_GGUF_PARSE_SECTION_RESOURCE reason cur.

(** src/src/gguf/core.c, [reserve_owned] *)
Definition reserve_owned (bytes : Z) : parser unit :=
  parse stats <- get_stats ;
  unless_ (ULLONG_MAX - rs_owned_bytes stats <? bytes)
          || (ro_max_owned_bytes options <? rs_owned_bytes stats + bytes)
    fail YVEX_GGUF_PARSE_RESOURCE_LIMIT YVEX_GGUF_PARSE_SECTION_RESOURCE "GGUF owned-memory budget exceeded";
  modify_stats (λ s, s <| rs_owned_bytes ::= λ n, n + bytes |>).

(** src/src/gguf/core.c, [cursor_read_exact] *)
Definition cursor_read_exact (len : Z) (field : string) : parser (list Z) :=
  parse stats <- get_stats ;
  parse offset <- get_offset ;
  parse section <- get_section ;
  let size := yvex_artifact_size (Some artifact) in
  unless_ size - (if offset <=? size then offset else size) <? len
    fail YVEX_GGUF_PARSE_SHORT_READ section field;
  unless_ (ULLONG_MAX - rs_structural_bytes_read stats <? len)
          || (ro_max_structural_bytes options <? rs_structural_bytes_read stats + len)
    fail YVEX_GGUF_PARSE_RESOURCE_LIMIT YVEX_GGUF_PARSE_SECTION_RESOURCE
      "GGUF structural-read budget exceeded";
  match yvex_artifact_read_at artifact offset len with
  | Refused _ _ => cursor_fail YVEX_GGUF_PARSE_SHORT_READ section field
  | Done bytes => λ cur,
      Parsed bytes (cur <| fc_offset := offset + len |>
                        <| fc_stats ::= λ s, s <| rs_structural_bytes_read ::= λ n, n + len |>
                                              <| rs_read_calls ::= λ n, u64 (n + 1) |> |>)
  end.

(** src/src/gguf/core.c, [cursor_read_u32le] *)
Definition cursor_read_u32le (field : string) : parser Z :=
  parse bytes <- cursor_read_exact 4 field ; parse_ret (load_le bytes).

(** src/src/gguf/core.c, [cursor_read_u64le] *)
Definition cursor_read_u64le (field : string) : parser Z :=
  parse bytes <- cursor_read_exact 8 field ; parse_ret (load_le bytes).

(** src/src/gguf/core.c, [string_parse_code] *)
Definition string_parse_code (section : yvex_gguf_parse_section) (format_max : Z) : yvex_gguf_parse_code :=
  if format_max =? 0 then YVEX_GGUF_PARSE_MALFORMED_STRING
  else if bool_decide (section = YVEX_GGUF_PARSE_SECTION_METADATA) then YVEX_GGUF_PARSE_MALFORMED_KEY
  else YVEX_GGUF_PARSE_MALFORMED_TENSOR_NAME.

(** src/src/gguf/core.c, [empty_identifier_parse_code] *)
Definition empty_identifier_parse_code (section : yvex_gguf_parse_section) : yvex_gguf_parse_code :=
  if bool_decide (section = YVEX_GGUF_PARSE_SECTION_METADATA) then YVEX_GGUF_PARSE_EMPTY_METADATA_KEY
  else YVEX_GGUF_PARSE_EMPTY_TENSOR_NAME.

Definition identifier_parse_code (section : yvex_gguf_parse_section) : yvex_gguf_parse_code :=
  if bool_decide (section = YVEX_GGUF_PARSE_SECTION_METADATA) then YVEX_GGUF_PARSE_MALFORMED_KEY
  else YVEX_GGUF_PARSE_MALFORMED_TENSOR_NAME.

(** A read whose failure is reported again as the failure of a text. *)
Definition read_text (len format_max : Z) (field : string) : parser (list Z) := λ cur,
  if len =? 0 then Parsed [] cur
  else match cursor_read_exact len field cur with
       | Parsed bytes cur => Parsed bytes cur
       | Unparsed _ => cursor_fail_here (string_parse_code (fc_section cur) format_max) field cur
       end.

(** src/src/gguf/core.c, [cursor_read_string] *)
Definition cursor_read_string (format_max : Z) (reject_empty reject_nul : bool) (field : string)
    : parser (list Z) :=
  parse len <- cursor_read_u64le field ;
  parse section <- get_section ;
  unless_ reject_empty && (len =? 0)
    fail (empty_identifier_parse_code section) section "GGUF identifier string is empty";
  unless_ negb (format_max =? 0) && (format_max <? len)
    fail (identifier_parse_code section) section "GGUF identifier exceeds the pinned format limit";
  unless_ ro_max_string_bytes options <? len
    fail YVEX_GGUF_PARSE_RESOURCE_LIMIT YVEX_GGUF_PARSE_SECTION_RESOURCE
      "GGUF string exceeds configured limit";
  parse stats <- get_stats ;
  unless_ (SIZE_MAX - 1 <? len) || (ULLONG_MAX - rs_total_string_bytes stats <? len)
          || (ro_max_total_string_bytes options <? rs_total_string_bytes stats + len)
    fail YVEX_GGUF_PARSE_RESOURCE_LIMIT YVEX_GGUF_PARSE_SECTION_RESOURCE
      "GGUF cumulative string budget exceeded";
  parse _ <- reserve_owned (len + 1) ;
  parse _ <- allocate "failed to allocate GGUF string" ;
  parse copy <- read_text len format_max field ;
  unless_ reject_nul && bool_decide (0 ∈ copy)
    fail (identifier_parse_code section) section "GGUF identifier contains an embedded null byte";
  unless_ negb (utf8_valid copy)
    fail (string_parse_code section format_max) section "GGUF string is not valid UTF-8";
  parse _ <- modify_stats (λ s, s <| rs_total_string_bytes ::= λ n, n + len |>) ;
  parse_ret copy.

(** Doubling from eight.
    src/src/gguf/core.c:558-565, [name_index_allocate] *)
Fixpoint index_capacity_loop (fuel : nat) (capacity wanted : Z) : option Z :=
  if capacity <? wanted then
    match fuel with
    | O => None
    | S fuel =>
        if SIZE_MAX / 2 <? capacity then None else index_capacity_loop fuel (capacity * 2) wanted
    end
  else Some capacity.

(** src/src/gguf/core.c, [name_index_allocate] *)
Definition name_index_allocate (count : Z) : parser yvex_name_index :=
  if count =? 0 then parse_ret []
  else
    unless_ ULLONG_MAX / 2 <? count
      fail YVEX_GGUF_PARSE_INVALID_COUNT YVEX_GGUF_PARSE_SECTION_RESOURCE
        "GGUF identifier count overflows index sizing";
    match index_capacity_loop 64 8 (count * 2) with
    | None =>
        cursor_fail YVEX_GGUF_PARSE_RESOURCE_LIMIT YVEX_GGUF_PARSE_SECTION_RESOURCE
          "GGUF identifier index exceeds address space"
    | Some capacity =>
        unless_ SIZE_MAX / sizeof_slot <? capacity
          fail YVEX_GGUF_PARSE_RESOURCE_LIMIT YVEX_GGUF_PARSE_SECTION_RESOURCE
            "GGUF identifier index allocation overflows";
        parse _ <- reserve_owned (capacity * sizeof_slot) ;
        parse _ <- allocate "failed to allocate GGUF identifier index" ;
        parse_ret (replicate (Z.to_nat capacity) 0)
    end.

(** Enter the name of ordinal [entry_index] among the [names] before it. A lost probe has no
    counterpart in the code; it is never the answer.
    src/src/gguf/core.c:589-607, [metadata_index_insert] *)
Definition name_index_insert (duplicate : yvex_gguf_parse_code) (section : yvex_gguf_parse_section)
    (reason : string) (names : list (list Z)) (index : yvex_name_index) (name : list Z) (entry_index : Z)
    : parser yvex_name_index :=
  match name_index_lookup names index name with
  | ProbeFound _ => cursor_fail duplicate section reason
  | ProbeFree slot => parse_ret (<[Z.to_nat slot := u64 (entry_index + 1)]> index)
  | ProbeLost => cursor_fail YVEX_GGUF_PARSE_INVALID_ARGUMENT section "lost"
  end.

(** src/src/gguf/core.c, [metadata_index_insert] *)
Definition metadata_index_insert :=
  name_index_insert YVEX_GGUF_PARSE_DUPLICATE_METADATA_KEY YVEX_GGUF_PARSE_SECTION_METADATA
    "duplicate GGUF metadata key".

(** src/src/gguf/core.c, [tensor_index_insert] *)
Definition tensor_index_insert :=
  name_index_insert YVEX_GGUF_PARSE_DUPLICATE_TENSOR_NAME YVEX_GGUF_PARSE_SECTION_TENSOR_INFO
    "duplicate GGUF tensor name".

(** src/src/gguf/core.c, [parse_value_type] *)
Definition parse_value_type (raw : Z) : parser yvex_gguf_value_type :=
  match array_get value_types raw with
  | None =>
      cursor_fail YVEX_GGUF_PARSE_UNSUPPORTED_METADATA_TYPE YVEX_GGUF_PARSE_SECTION_METADATA
        "unsupported GGUF metadata value type"
  | Some type => parse_ret type
  end.

(** ** Metadata values *)

Inductive scalar_kind : Type := SCALAR_UNSIGNED | SCALAR_SIGNED | SCALAR_FLOAT | SCALAR_BOOL.

(** The bytes of a scalar, its kind and the reason of a short read; [None] for a cell of the table
    that has no bytes.
    src/src/gguf/core.c, [scalar_specs] *)
Definition scalar_specs (type : yvex_gguf_value_type) : option (nat * scalar_kind * string) :=
  match type with
  | YVEX_GGUF_VALUE_UINT8 => Some (1%nat, SCALAR_UNSIGNED, "truncated uint8 metadata value"%string)
  | YVEX_GGUF_VALUE_INT8 => Some (1%nat, SCALAR_SIGNED, "truncated int8 metadata value"%string)
  | YVEX_GGUF_VALUE_UINT16 => Some (2%nat, SCALAR_UNSIGNED, "truncated uint16 metadata value"%string)
  | YVEX_GGUF_VALUE_INT16 => Some (2%nat, SCALAR_SIGNED, "truncated int16 metadata value"%string)
  | YVEX_GGUF_VALUE_UINT32 => Some (4%nat, SCALAR_UNSIGNED, "truncated uint32 metadata value"%string)
  | YVEX_GGUF_VALUE_INT32 => Some (4%nat, SCALAR_SIGNED, "truncated int32 metadata value"%string)
  | YVEX_GGUF_VALUE_FLOAT32 => Some (4%nat, SCALAR_FLOAT, "truncated float32 metadata value"%string)
  | YVEX_GGUF_VALUE_BOOL => Some (1%nat, SCALAR_BOOL, "truncated bool metadata value"%string)
  | YVEX_GGUF_VALUE_UINT64 => Some (8%nat, SCALAR_UNSIGNED, "truncated uint64 metadata value"%string)
  | YVEX_GGUF_VALUE_INT64 => Some (8%nat, SCALAR_SIGNED, "truncated int64 metadata value"%string)
  | YVEX_GGUF_VALUE_FLOAT64 => Some (8%nat, SCALAR_FLOAT, "truncated float64 metadata value"%string)
  | YVEX_GGUF_VALUE_STRING | YVEX_GGUF_VALUE_ARRAY | YVEX_GGUF_VALUE_INVALID => None
  end.

(** Sign extension of the low [8 * bytes] bits, as a two's-complement 64-bit integer.
    src/src/gguf/core.c:703-706, [parse_scalar] *)
Definition scalar_signed (bytes : nat) (bits : Z) : Z :=
  let width := Z.of_nat bytes * 8 in
  let bits :=
    if (Z.of_nat bytes <? 8) && negb (Z.land bits (Z.shiftl 1 (width - 1)) =? 0)
    then Z.lor bits (u64 (Z.shiftl ULLONG_MAX width)) else bits in
  if bits <? 9223372036854775808 then bits else bits - 18446744073709551616.

(** A type without a scalar specification is never asked for.
    src/src/gguf/core.c, [parse_scalar] *)
Definition parse_scalar (type : yvex_gguf_value_type) : parser yvex_gguf_value :=
  match scalar_specs type with
  | None => cursor_fail YVEX_GGUF_PARSE_INVALID_ARGUMENT YVEX_GGUF_PARSE_SECTION_METADATA "not a scalar"
  | Some (bytes, kind, truncated) =>
      parse raw <- cursor_read_exact (Z.of_nat bytes) truncated ;
      let bits := load_le raw in
      match kind with
      | SCALAR_UNSIGNED => parse_ret (ValueUnsigned type bits)
      | SCALAR_SIGNED => parse_ret (ValueSigned type (scalar_signed bytes bits))
      | SCALAR_FLOAT => parse_ret (ValueFloat type bits)
      | SCALAR_BOOL =>
          if bits <=? 1 then parse_ret (ValueBool (if negb (bits =? 0) then 1 else 0))
          else cursor_fail YVEX_GGUF_PARSE_MALFORMED_VALUE YVEX_GGUF_PARSE_SECTION_METADATA
                 "GGUF bool metadata value must be zero or one"
      end
  end.

(** [fuel] bounds the nesting that [depth] counts; [ro_max_array_depth] refuses before it is used up.
    src/src/gguf/core.c, [parse_value] *)
Fixpoint parse_value (fuel : nat) (type : yvex_gguf_value_type) (depth : Z) : parser yvex_gguf_value :=
  match type with
  | YVEX_GGUF_VALUE_STRING =>
      parse data <- cursor_read_string 0 false false "truncated GGUF metadata string" ;
      parse_ret (ValueString data)
  | YVEX_GGUF_VALUE_ARRAY =>
      unless_ ro_max_array_depth options <=? depth
        fail YVEX_GGUF_PARSE_RESOURCE_LIMIT YVEX_GGUF_PARSE_SECTION_RESOURCE
          "GGUF array nesting depth exceeds configured limit";
      parse raw_type <- cursor_read_u32le "truncated GGUF array element type" ;
      parse element_type <- parse_value_type raw_type ;
      parse count <- cursor_read_u64le "truncated GGUF array count" ;
      parse stats <- get_stats ;
      unless_ (ro_max_array_entries options <? count)
              || (ULLONG_MAX - rs_total_array_entries stats <? count)
              || (ro_max_total_array_entries options <? rs_total_array_entries stats + count)
        fail YVEX_GGUF_PARSE_RESOURCE_LIMIT YVEX_GGUF_PARSE_SECTION_RESOURCE
          "GGUF array entry budget exceeded";
      unless_ SIZE_MAX / sizeof_value <? count
        fail YVEX_GGUF_PARSE_RESOURCE_LIMIT YVEX_GGUF_PARSE_SECTION_RESOURCE
          "GGUF array allocation exceeds address space";
      parse _ <- modify_stats (λ s, s <| rs_total_array_entries ::= λ n, n + count |>) ;
      if count =? 0 then parse_ret (ValueArray element_type [])
      else
        parse _ <- reserve_owned (count * sizeof_value) ;
        parse _ <- allocate "failed to allocate GGUF array items" ;
        match fuel with
        | O => cursor_fail YVEX_GGUF_PARSE_INVALID_ARGUMENT YVEX_GGUF_PARSE_SECTION_RESOURCE "out of fuel"
        | S fuel =>
            parse items <- parse_times (Z.to_nat count) (λ _, parse_value fuel element_type (depth + 1)) 0 ;
            parse_ret (ValueArray element_type items)
        end
  | YVEX_GGUF_VALUE_INVALID =>
      cursor_fail YVEX_GGUF_PARSE_UNSUPPORTED_METADATA_TYPE YVEX_GGUF_PARSE_SECTION_METADATA
        "unsupported GGUF metadata value type"
  | _ => parse_scalar type
  end.

(** ** The directory *)

(** src/src/gguf/core.c, [parse_header] *)
Definition parse_header : parser yvex_gguf_header :=
  parse _ <- set_section YVEX_GGUF_PARSE_SECTION_CONTAINER ;
  parse _ <- set_record_index ULLONG_MAX ;
  parse magic <- cursor_read_u32le "truncated GGUF magic" ;
  unless_ negb (magic =? YVEX_GGUF_MAGIC)
    fail YVEX_GGUF_PARSE_INVALID_MAGIC YVEX_GGUF_PARSE_SECTION_CONTAINER "invalid GGUF magic";
  parse version <- cursor_read_u32le "truncated GGUF version" ;
  unless_ negb (version =? YVEX_GGUF_SUPPORTED_VERSION)
    fail YVEX_GGUF_PARSE_UNSUPPORTED_VERSION YVEX_GGUF_PARSE_SECTION_CONTAINER
      "unsupported GGUF container version";
  parse tensor_count <- cursor_read_u64le "truncated GGUF tensor count" ;
  parse metadata_count <- cursor_read_u64le "truncated GGUF metadata count" ;
  unless_ (ro_max_metadata_entries options <? metadata_count)
          || (ro_max_tensor_entries options <? tensor_count)
    fail YVEX_GGUF_PARSE_RESOURCE_LIMIT YVEX_GGUF_PARSE_SECTION_RESOURCE
      "GGUF directory count exceeds configured limit";
  parse_ret (GgufHeader version metadata_count tensor_count).

(** One directory row of the metadata, entered into the index before its value is read.
    src/src/gguf/core.c:869-894, [parse_metadata] *)
Definition parse_metadata_entry (metadata : list yvex_gguf_metadata_entry) (index : yvex_name_index)
    (i : Z) : parser (yvex_gguf_metadata_entry * yvex_name_index) :=
  parse _ <- set_record_index i ;
  parse key <- cursor_read_string YVEX_GGUF_MAX_KEY_LEN true true "truncated GGUF metadata key" ;
  unless_ negb (metadata_key_valid key)
    fail YVEX_GGUF_PARSE_MALFORMED_KEY YVEX_GGUF_PARSE_SECTION_METADATA
      "GGUF metadata key violates pinned key grammar";
  parse index <- metadata_index_insert (me_key <$> metadata) index key i ;
  parse raw_type <- cursor_read_u32le "truncated GGUF metadata value type" ;
  parse type <- parse_value_type raw_type ;
  parse value <- parse_value (Z.to_nat (ro_max_array_depth options)) type 0 ;
  parse_ret (MetadataEntry key value, index).

(** The table is filled in order; its cells after [i] are never read. *)
Fixpoint parse_metadata_loop (n : nat) (metadata : list yvex_gguf_metadata_entry)
    (index : yvex_name_index) : parser (list yvex_gguf_metadata_entry * yvex_name_index) :=
  match n with
  | O => parse_ret (metadata, index)
  | S n =>
      parse (entry, index) <- parse_metadata_entry metadata index (Z.of_nat (length metadata)) ;
      parse_metadata_loop n (metadata ++ [entry]) index
  end.

(** src/src/gguf/core.c, [parse_metadata] *)
Definition parse_metadata (header : yvex_gguf_header)
    : parser (list yvex_gguf_metadata_entry * yvex_name_index) :=
  let count := hd_metadata_count header in
  parse _ <- set_section YVEX_GGUF_PARSE_SECTION_METADATA ;
  if count =? 0 then parse_ret ([], [])
  else
    unless_ SIZE_MAX / sizeof_metadata_entry <? count
      fail YVEX_GGUF_PARSE_INVALID_COUNT YVEX_GGUF_PARSE_SECTION_RESOURCE
        "GGUF metadata count exceeds address space";
    parse _ <- reserve_owned (count * sizeof_metadata_entry) ;
    parse _ <- allocate "failed to allocate GGUF metadata table" ;
    parse index <- name_index_allocate count ;
    parse result <- parse_metadata_loop (Z.to_nat count) [] index ;
    parse _ <- set_record_index ULLONG_MAX ;
    parse_ret result.

(** src/src/gguf/core.c, [derive_alignment] *)
Definition derive_alignment (gguf : yvex_gguf) : parser Z :=
  match yvex_gguf_metadata_find gguf (Some "general.alignment"%string) with
  | None => parse_ret YVEX_GGUF_DEFAULT_ALIGNMENT
  | Some value =>
      let invalid := parse _ <- set_section YVEX_GGUF_PARSE_SECTION_METADATA ;
        cursor_fail YVEX_GGUF_PARSE_INVALID_ALIGNMENT YVEX_GGUF_PARSE_SECTION_METADATA
          "general.alignment must be uint32 and nonzero" in
      if negb (bool_decide (yvex_gguf_value_type_of (Some value) = YVEX_GGUF_VALUE_UINT32)) then invalid
      else match yvex_gguf_value_as_u64 (Some value) with
           | None => invalid
           | Some alignment =>
               if (alignment =? 0) || (UINT32_MAX <? alignment) then invalid
               else parse_ret (u32 alignment)
           end
  end.

(** src/src/gguf/core.c, [align_offset] *)
Definition align_offset (offset alignment : Z) : parser Z :=
  unless_ alignment =? 0
    fail YVEX_GGUF_PARSE_INVALID_ALIGNMENT YVEX_GGUF_PARSE_SECTION_RANGE "GGUF alignment is zero";
  let remainder := offset mod alignment in
  let padding := if remainder =? 0 then 0 else alignment - remainder in
  unless_ ULLONG_MAX - padding <? offset
    fail YVEX_GGUF_PARSE_OFFSET_OVERFLOW YVEX_GGUF_PARSE_SECTION_RANGE
      "GGUF tensor-data alignment overflows";
  parse_ret (offset + padding).

(** src/src/gguf/core.c, [qtype_parse_code] *)
Definition qtype_parse_code (status : yvex_gguf_qtype_storage_status) : yvex_gguf_parse_code :=
  match status with
  | YVEX_GGUF_QTYPE_STORAGE_INVALID_RANK => YVEX_GGUF_PARSE_INVALID_RANK
  | YVEX_GGUF_QTYPE_STORAGE_INVALID_DIMENSION => YVEX_GGUF_PARSE_INVALID_DIMENSION
  | YVEX_GGUF_QTYPE_STORAGE_ELEMENT_COUNT_OVERFLOW => YVEX_GGUF_PARSE_ELEMENT_COUNT_OVERFLOW
  | YVEX_GGUF_QTYPE_STORAGE_ROW_COUNT_OVERFLOW => YVEX_GGUF_PARSE_ROW_COUNT_OVERFLOW
  | YVEX_GGUF_QTYPE_STORAGE_ROW_BYTE_OVERFLOW => YVEX_GGUF_PARSE_ROW_BYTE_OVERFLOW
  | YVEX_GGUF_QTYPE_STORAGE_TOTAL_BYTE_OVERFLOW => YVEX_GGUF_PARSE_TOTAL_BYTE_OVERFLOW
  | _ => YVEX_GGUF_PARSE_REFUSED_QTYPE
  end.

(** src/src/gguf/core.c:1012-1022, [parse_tensors] *)
Definition parse_dimension (_ : Z) : parser Z :=
  parse dimension <- cursor_read_u64le "truncated GGUF tensor dimension" ;
  unless_ dimension =? 0
    fail YVEX_GGUF_PARSE_INVALID_DIMENSION YVEX_GGUF_PARSE_SECTION_TENSOR_INFO
      "GGUF tensor dimension is zero";
  parse_ret dimension.

(** One row of the tensor directory; its absolute range is filled in later.
    src/src/gguf/core.c:985-1045, [parse_tensors] *)
Definition parse_tensor (alignment : Z) (tensors : list yvex_gguf_tensor_info) (index : yvex_name_index)
    (i : Z) : parser (yvex_gguf_tensor_info * yvex_name_index) :=
  parse _ <- set_record_index i ;
  parse name <- cursor_read_string YVEX_GGUF_MAX_TENSOR_NAME_LEN true true "truncated GGUF tensor name" ;
  parse index <- tensor_index_insert (ti_name <$> tensors) index name i ;
  parse rank <- cursor_read_u32le "truncated GGUF tensor rank" ;
  unless_ (rank =? 0) || (YVEX_GGUF_MAX_DIMS <? rank)
    fail YVEX_GGUF_PARSE_INVALID_RANK YVEX_GGUF_PARSE_SECTION_TENSOR_INFO
      "GGUF tensor rank is outside the admitted range";
  parse dims <- parse_times (Z.to_nat rank) parse_dimension 0 ;
  let dims := dims ++ replicate (Z.to_nat (YVEX_GGUF_MAX_DIMS - rank)) 0 in
  parse type <- cursor_read_u32le "truncated GGUF tensor qtype" ;
  let storage := yvex_gguf_qtype_tensor_storage type (Some dims) rank in
  if negb (bool_decide (st_status storage = YVEX_GGUF_QTYPE_STORAGE_OK)) then
    parse _ <- set_section YVEX_GGUF_PARSE_SECTION_QTYPE ;
    cursor_fail (qtype_parse_code (st_status storage)) YVEX_GGUF_PARSE_SECTION_QTYPE (st_reason storage)
  else
    parse _ <- set_section YVEX_GGUF_PARSE_SECTION_TENSOR_INFO ;
    parse relative_offset <- cursor_read_u64le "truncated GGUF tensor relative offset" ;
    unless_ negb (relative_offset mod alignment =? 0)
      fail YVEX_GGUF_PARSE_INVALID_ALIGNMENT YVEX_GGUF_PARSE_SECTION_TENSOR_INFO
        "GGUF tensor relative offset is misaligned";
    parse_ret (TensorInfo name rank dims type (yvex_gguf_qtype_name type) relative_offset 0
                 (st_total_bytes storage) 0 false, index).

(** The table is filled in order. *)
Fixpoint parse_tensor_loop (n : nat) (alignment : Z) (tensors : list yvex_gguf_tensor_info)
    (index : yvex_name_index) : parser (list yvex_gguf_tensor_info * yvex_name_index) :=
  match n with
  | O => parse_ret (tensors, index)
  | S n =>
      parse (tensor, index) <- parse_tensor alignment tensors index (Z.of_nat (length tensors)) ;
      parse_tensor_loop n alignment (tensors ++ [tensor]) index
  end.

(** The absolute range of one row.
    src/src/gguf/core.c:1057-1071, [parse_tensors] *)
Definition place_tensor (tensor_data_offset : Z) (tensor : yvex_gguf_tensor_info) (i : Z)
    : parser yvex_gguf_tensor_info :=
  parse _ <- set_record_index i ;
  unless_ ULLONG_MAX - tensor_data_offset <? ti_relative_offset tensor
    fail YVEX_GGUF_PARSE_OFFSET_OVERFLOW YVEX_GGUF_PARSE_SECTION_RANGE
      "GGUF tensor absolute offset overflows";
  let absolute_offset := tensor_data_offset + ti_relative_offset tensor in
  unless_ ULLONG_MAX - absolute_offset <? ti_storage_bytes tensor
    fail YVEX_GGUF_PARSE_OFFSET_OVERFLOW YVEX_GGUF_PARSE_SECTION_RANGE
      "GGUF tensor absolute range overflows";
  let absolute_end_offset := absolute_offset + ti_storage_bytes tensor in
  parse_ret (tensor <| ti_absolute_offset := absolute_offset |>
                    <| ti_absolute_end_offset := absolute_end_offset |>
                    <| ti_range_addressable := absolute_end_offset <=? yvex_artifact_size (Some artifact) |>).

Fixpoint place_tensors (tensor_data_offset : Z) (tensors : list yvex_gguf_tensor_info) (i : Z)
    : parser (list yvex_gguf_tensor_info) :=
  match tensors with
  | [] => parse_ret []
  | tensor :: tensors =>
      parse tensor <- place_tensor tensor_data_offset tensor i ;
      parse tensors <- place_tensors tensor_data_offset tensors (i + 1) ;
      parse_ret (tensor :: tensors)
  end.

(** The directory with its index, its end and the start of the data section.
    src/src/gguf/core.c, [parse_tensors] *)
Definition parse_tensors (header : yvex_gguf_header) (alignment : Z)
    : parser (list yvex_gguf_tensor_info * yvex_name_index * Z) :=
  let count := hd_tensor_count header in
  parse _ <- set_section YVEX_GGUF_PARSE_SECTION_TENSOR_INFO ;
  if count =? 0 then
    parse offset <- get_offset ;
    parse _ <- modify_stats (λ s, s <| rs_directory_end_offset := offset |>) ;
    parse tensor_data_offset <- align_offset offset alignment ;
    parse_ret ([], [], tensor_data_offset)
  else
    unless_ SIZE_MAX / sizeof_tensor_info <? count
      fail YVEX_GGUF_PARSE_INVALID_COUNT YVEX_GGUF_PARSE_SECTION_RESOURCE
        "GGUF tensor count exceeds address space";
    parse _ <- reserve_owned (count * sizeof_tensor_info) ;
    parse _ <- allocate "failed to allocate GGUF tensor directory" ;
    parse index <- name_index_allocate count ;
    parse (tensors, index) <- parse_tensor_loop (Z.to_nat count) alignment [] index ;
    parse offset <- get_offset ;
    parse _ <- modify_stats (λ s, s <| rs_directory_end_offset := offset |>) ;
    parse _ <- set_section YVEX_GGUF_PARSE_SECTION_RANGE ;
    parse _ <- set_record_index ULLONG_MAX ;
    parse tensor_data_offset <- align_offset offset alignment ;
    unless_ yvex_artifact_size (Some artifact) <? tensor_data_offset
      fail YVEX_GGUF_PARSE_INCOMPLETE_DIRECTORY YVEX_GGUF_PARSE_SECTION_RANGE
        "GGUF tensor-data boundary exceeds file size";
    parse tensors <- place_tensors tensor_data_offset tensors 0 ;
    parse _ <- set_record_index ULLONG_MAX ;
    parse_ret (tensors, index, tensor_data_offset).

(** The four stages of a parse.
    src/src/gguf/core.c:1224-1232, [yvex_gguf_open_ex] *)
Definition parse_gguf : parser yvex_gguf :=
  parse header <- parse_header ;
  parse (metadata, metadata_index) <- parse_metadata header ;
  let view := Gguf header metadata [] metadata_index [] 0 YVEX_GGUF_DEFAULT_ALIGNMENT
                (ReaderStats 0 0 0 0 0 0 0 0) in
  parse alignment <- derive_alignment view ;
  parse (tensors, tensor_index, tensor_data_offset) <- parse_tensors header alignment ;
  parse stats <- get_stats ;
  parse_ret (Gguf header metadata tensors metadata_index tensor_index tensor_data_offset alignment
               (stats <| rs_payload_bytes_read := 0 |>)).
End reader.

Definition reader_fail (code : yvex_gguf_parse_code) (section : yvex_gguf_parse_section) (reason : string)
    : parsed yvex_gguf := Unparsed (ParseResult code section 0 ULLONG_MAX reason).

(** The view and the cursor after it, or the parse result of the failure. Null options mean the
    defaults.
    src/src/gguf/core.c, [yvex_gguf_open_ex] *)
Definition yvex_gguf_open_ex (memory : nat → bool) (artifact : option yvex_artifact)
    (options : option yvex_gguf_reader_options) : parsed yvex_gguf :=
  match artifact with
  | None =>
      reader_fail YVEX_GGUF_PARSE_INVALID_ARGUMENT YVEX_GGUF_PARSE_SECTION_FILE "artifact handle is required"
  | Some artifact =>
      let effective := default yvex_gguf_reader_options_default options in
      if (ro_max_metadata_entries effective =? 0) || (ro_max_tensor_entries effective =? 0)
         || (ro_max_array_entries effective =? 0) || (ro_max_total_array_entries effective =? 0)
         || (ro_max_string_bytes effective =? 0) || (ro_max_total_string_bytes effective =? 0)
         || (ro_max_owned_bytes effective =? 0) || (ro_max_structural_bytes effective =? 0)
         || (ro_max_array_depth effective =? 0)
      then reader_fail YVEX_GGUF_PARSE_INVALID_ARGUMENT YVEX_GGUF_PARSE_SECTION_RESOURCE
             "GGUF reader limits must be nonzero"
      else if negb (memory 0%nat)
      then reader_fail YVEX_GGUF_PARSE_ALLOCATION_FAILURE YVEX_GGUF_PARSE_SECTION_RESOURCE
             "failed to allocate GGUF view"
      else if ro_max_owned_bytes effective <? sizeof_gguf
      then reader_fail YVEX_GGUF_PARSE_RESOURCE_LIMIT YVEX_GGUF_PARSE_SECTION_RESOURCE
             "GGUF view exceeds owned-memory budget"
      else
        parse_gguf artifact effective memory
          (FileCursor 0 (ReaderStats (yvex_artifact_size (Some artifact)) 0 0 0 sizeof_gguf 0 0 0)
             YVEX_GGUF_PARSE_SECTION_NONE ULLONG_MAX 1)
  end.

(** src/src/gguf/core.c, [yvex_gguf_open] *)
Definition yvex_gguf_open (memory : nat → bool) (artifact : option yvex_artifact) : parsed yvex_gguf :=
  yvex_gguf_open_ex memory artifact None.

(** ** The fixed header *)

(** src/src/gguf/core.c, [yvex_gguf_read_header] *)
Definition yvex_gguf_read_header (artifact : option yvex_artifact) : outcome yvex_gguf_header :=
  match artifact with
  | None => Refused YVEX_ERR_INVALID_ARG "artifact and output are required"
  | Some artifact =>
      if yvex_artifact_size (Some artifact) <? 24 then Refused YVEX_ERR_FORMAT "GGUF header is truncated"
      else
        bytes ← yvex_artifact_read_at artifact 0 24;
        if negb (load_le (take 4 bytes) =? YVEX_GGUF_MAGIC) then Refused YVEX_ERR_FORMAT "invalid GGUF magic"
        else
          let version := load_le (take 4 (drop 4 bytes)) in
          if negb (version =? YVEX_GGUF_SUPPORTED_VERSION)
          then Refused YVEX_ERR_UNSUPPORTED "unsupported GGUF container version"
          else Done (GgufHeader version (load_le (take 8 (drop 16 bytes))) (load_le (take 8 (drop 8 bytes))))
  end.

(** The header when the file is a GGUF container, [None] when its first four bytes say otherwise.
    src/src/gguf/core.c, [yvex_gguf_probe_file] *)
Definition yvex_gguf_probe_file (artifact : option yvex_artifact) : outcome (option yvex_gguf_header) :=
  match artifact with
  | None => Refused YVEX_ERR_INVALID_ARG "artifact and output are required"
  | Some artifact =>
      foreign ← (if 4 <=? yvex_artifact_size (Some artifact) then
                   bytes ← yvex_artifact_read_at artifact 0 4;
                   Done (negb (load_le bytes =? YVEX_GGUF_MAGIC))
                 else Done false);
      if (foreign : bool) then Done None
      else header ← yvex_gguf_read_header (Some artifact); Done (Some header)
  end.
