(* ===== verification/GgufDecode.v ===== *)
(** What the GGUF reader accepts: the byte encoding of a directory, and the proof that an opened view
    is the decoding of the bytes before its data section.

    [decodes p R] is a program logic over parsers: when [p] returns [a] it has consumed bytes [w] of the
    file with [R a w], inside every budget. *)

From S2P Require Import Prelude Status Exec Artifact Qtype Gguf GgufText GgufReader.
#[local] Set Warnings "-register-all".
#[local] Open Scope Z_scope.

(** * The encoding *)

Definition encode_string (data : list Z) : list Z := le_bytes 8 (Z.of_nat (length data)) ++ data.

(** The payload of a metadata value. A negative integer is encoded in two's complement, which is what
    its low bytes are. *)
Fixpoint encode_value (value : yvex_gguf_value) : list Z :=
  match value with
  | ValueUnsigned type v | ValueSigned type v | ValueFloat type v =>
      match scalar_specs type with Some (bytes, _, _) => le_bytes bytes v | None => [] end
  | ValueBool b => [b]
  | ValueString data => encode_string data
  | ValueArray element_type items =>
      le_bytes 4 (value_type_code element_type) ++ le_bytes 8 (Z.of_nat (length items)) ++
      concat (encode_value <$> items)
  end.

Definition encode_entry (entry : yvex_gguf_metadata_entry) : list Z :=
  encode_string (me_key entry) ++
  le_bytes 4 (value_type_code (yvex_gguf_value_type_of (Some (me_value entry)))) ++
  encode_value (me_value entry).

Definition encode_tensor (tensor : yvex_gguf_tensor_info) : list Z :=
  encode_string (ti_name tensor) ++ le_bytes 4 (ti_rank tensor) ++
  (take (Z.to_nat (ti_rank tensor)) (ti_dims tensor) ≫= le_bytes 8) ++
  le_bytes 4 (ti_ggml_type tensor) ++ le_bytes 8 (ti_relative_offset tensor).

Definition encode_header (header : yvex_gguf_header) : list Z :=
  le_bytes 4 YVEX_GGUF_MAGIC ++ le_bytes 4 (hd_version header) ++
  le_bytes 8 (hd_tensor_count header) ++ le_bytes 8 (hd_metadata_count header).

(** Everything before the data section's padding. *)
Definition encode_directory (gguf : yvex_gguf) : list Z :=
  encode_header (gg_header gguf) ++ (gg_metadata gguf ≫= encode_entry) ++ (gg_tensors gguf ≫= encode_tensor).

(** * Footprints *)

(** What parsing consumes: bytes of the file and the three budgets. *)
Record footprint := Footprint { fp_bytes : list Z; fp_strings : Z; fp_arrays : Z; fp_owned : Z }.

Definition fp_nil : footprint := Footprint [] 0 0 0.
Definition fp_app (s t : footprint) : footprint :=
  Footprint (fp_bytes s ++ fp_bytes t) (fp_strings s + fp_strings t) (fp_arrays s + fp_arrays t)
    (fp_owned s + fp_owned t).
Definition fp_concat (l : list footprint) : footprint := foldr fp_app fp_nil l.
(** Bytes that cost nothing else. *)
Definition fp_raw (bytes : list Z) : footprint := Footprint bytes 0 0 0.
(** Memory that comes with no bytes. *)
Definition fp_memory (owned : Z) : footprint := Footprint [] 0 0 owned.

Lemma footprint_eq s t :
  fp_bytes s = fp_bytes t → fp_strings s = fp_strings t → fp_arrays s = fp_arrays t →
  fp_owned s = fp_owned t → s = t.
Proof. destruct s, t. cbn. by intros -> -> -> ->. Qed.

#[export] Instance fp_app_assoc : Assoc (=) fp_app.
Proof. intros s t u. apply footprint_eq; cbn; [by rewrite (assoc_L (++))|lia..]. Qed.
#[export] Instance fp_app_nil_l : LeftId (=) fp_nil fp_app.
Proof. intros s. apply footprint_eq; cbn; [done|lia..]. Qed.
#[export] Instance fp_app_nil_r : RightId (=) fp_nil fp_app.
Proof. intros s. apply footprint_eq; cbn; [apply app_nil_r|lia..]. Qed.

Lemma fp_concat_cons s l : fp_concat (s :: l) = fp_app s (fp_concat l).
Proof. done. Qed.

Lemma fp_concat_app l m : fp_concat (l ++ m) = fp_app (fp_concat l) (fp_concat m).
Proof.
  induction l as [|s l IH]; [symmetry; apply (left_id_L fp_nil fp_app)|].
  by rewrite <- app_comm_cons, !fp_concat_cons, IH, (assoc_L fp_app).
Qed.

Definition string_footprint (data : list Z) : footprint :=
  Footprint (encode_string data) (Z.of_nat (length data)) 0 (Z.of_nat (length data) + 1).

Fixpoint value_footprint (value : yvex_gguf_value) : footprint :=
  match value with
  | ValueString data => string_footprint data
  | ValueArray element_type items =>
      fp_app
        (Footprint (le_bytes 4 (value_type_code element_type) ++ le_bytes 8 (Z.of_nat (length items)))
           0 (Z.of_nat (length items)) (Z.of_nat (length items) * sizeof_value))
        (fp_concat (value_footprint <$> items))
  | _ => fp_raw (encode_value value)
  end.

Definition entry_footprint (entry : yvex_gguf_metadata_entry) : footprint :=
  fp_app (string_footprint (me_key entry))
    (fp_app (fp_raw (le_bytes 4 (value_type_code (yvex_gguf_value_type_of (Some (me_value entry))))))
       (value_footprint (me_value entry))).

Definition tensor_footprint (tensor : yvex_gguf_tensor_info) : footprint :=
  fp_app (string_footprint (ti_name tensor))
    (fp_raw (le_bytes 4 (ti_rank tensor) ++
       (take (Z.to_nat (ti_rank tensor)) (ti_dims tensor) ≫= le_bytes 8) ++
       le_bytes 4 (ti_ggml_type tensor) ++ le_bytes 8 (ti_relative_offset tensor))).

(** The cells of an index for [count] names. *)
Definition index_cells (count : Z) : Z :=
  if count =? 0 then 0 else 2 ^ Z.log2_up (Z.max 8 (2 * count)).

(** A directory table with its index. *)
Definition table_footprint {A} (row_size : Z) (row : A → footprint) (rows : list A) : footprint :=
  fp_app (fp_memory (Z.of_nat (length rows) * row_size + index_cells (Z.of_nat (length rows)) * sizeof_slot))
    (fp_concat (row <$> rows)).

Definition gguf_footprint (gguf : yvex_gguf) : footprint :=
  fp_app (fp_raw (encode_header (gg_header gguf)))
    (fp_app (table_footprint sizeof_metadata_entry entry_footprint (gg_metadata gguf))
       (table_footprint sizeof_tensor_info tensor_footprint (gg_tensors gguf))).

Lemma fp_concat_bytes {A} (f : A → footprint) l : fp_bytes (fp_concat (f <$> l)) = l ≫= (fp_bytes ∘ f).
Proof. induction l as [|x l IH]; [done|]. cbn. by f_equal. Qed.

(** The bytes of a footprint are the encoding. *)
Lemma value_footprint_bytes value : fp_bytes (value_footprint value) = encode_value value.
Proof.
  revert value. fix IH 1. intros [| | | | |type items]; [reflexivity..|].
  cbn [value_footprint encode_value fp_app fp_bytes]. rewrite <- (assoc_L (++)).
  apply (f_equal2 app); [reflexivity|]. apply (f_equal2 app); [reflexivity|].
  induction items as [|v items IHi]; [reflexivity|]. cbn. apply (f_equal2 app); [apply IH|apply IHi].
Qed.

Lemma gguf_footprint_bytes gguf : fp_bytes (gguf_footprint gguf) = encode_directory gguf.
Proof.
  unfold gguf_footprint, table_footprint, encode_directory. cbn [fp_app fp_raw fp_memory fp_bytes app].
  rewrite !fp_concat_bytes. apply (f_equal2 app); [done|]. apply (f_equal2 app); [|done].
  apply list_bind_ext; [|done]. intros entry. cbn. by rewrite value_footprint_bytes.
Qed.

(** * Little-endian loads *)

Lemma le_bytes_mod n v : le_bytes n (v mod 256 ^ Z.of_nat n) = le_bytes n v.
Proof.
  revert v. induction n as [|n IH]; intros v; [done|]. cbn [le_bytes].
  rewrite Nat2Z.inj_succ, Z.pow_succ_r by lia. assert (0 < 256 ^ Z.of_nat n) by (apply Z.pow_pos_nonneg; lia).
  assert (E : v mod (256 * 256 ^ Z.of_nat n) = v mod 256 + 256 * ((v / 256) mod 256 ^ Z.of_nat n))
    by (apply Z.rem_mul_r; lia).
  pose proof (Z.mod_pos_bound v 256). apply (f_equal2 cons).
  - by rewrite E, (Z.mul_comm 256), Z.mod_add, Zmod_mod by lia.
  - rewrite E, (Z.mul_comm 256), Z.div_add, (Z.div_small (v mod 256)) by lia. by rewrite Z.add_0_l, IH.
Qed.

(** ** Sign extension *)

Lemma land_bit x k : 0 ≤ k → (Z.land x (Z.shiftl 1 k) =? 0) = negb (Z.testbit x k).
Proof.
  intros Hk. rewrite Z.shiftl_1_l. destruct (Z.testbit x k) eqn:E; cbn [negb].
  - apply Z.eqb_neq. intros H0. apply (f_equal (λ y, Z.testbit y k)) in H0.
    by rewrite Z.land_spec, E, Z.pow2_bits_true, Z.bits_0 in H0.
  - apply Z.eqb_eq, Z.bits_inj'. intros n Hn. rewrite Z.land_spec, Z.bits_0, Z.pow2_bits_eqb by done.
    destruct (Z.eqb_spec k n) as [->|]; [by rewrite E|by rewrite andb_false_r].
Qed.

Lemma top_bit x k : 0 ≤ k → 0 ≤ x < 2 ^ (k + 1) → Z.testbit x k = (2 ^ k <=? x).
Proof.
  intros Hk Hx. rewrite Z.pow_add_r, Z.pow_1_r in Hx by lia.
  assert (0 < 2 ^ k) by (apply Z.pow_pos_nonneg; lia).
  destruct (Z.leb_spec (2 ^ k) x) as [Hle|Hlt].
  - apply Z.testbit_true; [done|]. replace x with ((x - 2 ^ k) + 1 * 2 ^ k) by lia.
    rewrite Z.div_add, Z.div_small by lia. done.
  - apply Z.testbit_false; [done|]. rewrite Z.div_small by lia. done.
Qed.

(** Widths a metadata integer can have. *)
Definition scalar_width (n : nat) : Prop := n = 1%nat ∨ n = 2%nat ∨ n = 4%nat ∨ n = 8%nat.

(** Sign extension of a narrow width, whose high bits are [high]. *)
Lemma scalar_signed_narrow n high bits :
  0 < Z.of_nat n < 8 → u64 (Z.shiftl ULLONG_MAX (Z.of_nat n * 8)) = Z.shiftl high (Z.of_nat n * 8) →
  high * 2 ^ (Z.of_nat n * 8) = 18446744073709551616 - 2 ^ (Z.of_nat n * 8) →
  2 ^ (Z.of_nat n * 8) = 2 * 2 ^ (Z.of_nat n * 8 - 1) →
  2 ^ (Z.of_nat n * 8) ≤ 4294967296 → 0 ≤ bits < 2 ^ (Z.of_nat n * 8) →
  scalar_signed n bits =
    if bits <? 2 ^ (Z.of_nat n * 8 - 1) then bits else bits - 2 ^ (Z.of_nat n * 8).
Proof.
  intros Hn Hhigh Hw H2 Hle Hb. unfold scalar_signed. cbv zeta.
  rewrite (proj2 (Z.ltb_lt (Z.of_nat n) 8)) by lia. cbn [andb].
  rewrite land_bit, negb_involutive by lia.
  rewrite top_bit by (replace (Z.of_nat n * 8 - 1 + 1) with (Z.of_nat n * 8) by lia; lia).
  destruct (Z.leb_spec (2 ^ (Z.of_nat n * 8 - 1)) bits).
  - rewrite Hhigh, Z.lor_comm, lor_low by lia.
    rewrite !(proj2 (Z.ltb_ge _ _)) by lia. lia.
  - by rewrite !(proj2 (Z.ltb_lt _ _)) by lia.
Qed.

Lemma scalar_signed_value n bits :
  scalar_width n → 0 ≤ bits < 2 ^ (Z.of_nat n * 8) →
  scalar_signed n bits =
    if bits <? 2 ^ (Z.of_nat n * 8 - 1) then bits else bits - 2 ^ (Z.of_nat n * 8).
Proof.
  intros [-> | [-> | [-> | ->]]] Hb; [..|done].
  - apply (scalar_signed_narrow 1 72057594037927935); (done || lia).
  - apply (scalar_signed_narrow 2 281474976710655); (done || lia).
  - apply (scalar_signed_narrow 4 4294967295); (done || lia).
Qed.

(** The signed integer of the bits, and back. *)
Lemma scalar_signed_roundtrip n bits :
  scalar_width n → 0 ≤ bits < 2 ^ (Z.of_nat n * 8) →
  - 2 ^ (Z.of_nat n * 8 - 1) ≤ scalar_signed n bits < 2 ^ (Z.of_nat n * 8 - 1) ∧
  scalar_signed n bits mod 2 ^ (Z.of_nat n * 8) = bits.
Proof.
  intros Hn Hb. rewrite scalar_signed_value by done.
  assert (2 ^ (Z.of_nat n * 8) = 2 * 2 ^ (Z.of_nat n * 8 - 1))
    by (rewrite <- Z.pow_succ_r by (destruct Hn as [-> | [-> | [-> | ->]]]; lia); f_equal; lia).
  destruct (Z.ltb_spec bits (2 ^ (Z.of_nat n * 8 - 1))).
  - split; [lia|by rewrite Z.mod_small].
  - split; [lia|]. rewrite <- (Z_mod_plus_full _ 1). rewrite Z.mod_small; lia.
Qed.

Lemma scalar_signed_unique n v :
  scalar_width n → - 2 ^ (Z.of_nat n * 8 - 1) ≤ v < 2 ^ (Z.of_nat n * 8 - 1) →
  scalar_signed n (v mod 2 ^ (Z.of_nat n * 8)) = v.
Proof.
  intros Hn Hv.
  assert (2 ^ (Z.of_nat n * 8) = 2 * 2 ^ (Z.of_nat n * 8 - 1))
    by (rewrite <- Z.pow_succ_r by (destruct Hn as [-> | [-> | [-> | ->]]]; lia); f_equal; lia).
  rewrite scalar_signed_value by (done || (apply Z.mod_pos_bound; lia)).
  destruct (Z.lt_ge_cases v 0) as [Hneg|Hpos].
  - rewrite <- (Z_mod_plus_full _ 1), Z.mod_small by lia. rewrite (proj2 (Z.ltb_ge _ _)) by lia. lia.
  - rewrite Z.mod_small by lia. rewrite (proj2 (Z.ltb_lt _ _)) by lia. done.
Qed.

Lemma pow_256 n : 256 ^ Z.of_nat n = 2 ^ (Z.of_nat n * 8).
Proof. rewrite Z.mul_comm, Z.pow_mul_r by lia. done. Qed.

(** * The logic *)

(** Limits are machine integers. *)
Definition options_in_range (options : yvex_gguf_reader_options) : Prop :=
  is_u64 (ro_max_total_array_entries options) ∧ is_u64 (ro_max_total_string_bytes options) ∧
  is_u64 (ro_max_owned_bytes options) ∧ is_u64 (ro_max_structural_bytes options) ∧
  is_u64 (ro_max_string_bytes options) ∧ is_u64 (ro_max_array_entries options) ∧
  is_u64 (ro_max_metadata_entries options) ∧ is_u64 (ro_max_tensor_entries options) ∧
  is_u32 (ro_max_array_depth options).

(** The counters of a cursor are inside their budgets, and every byte before it has been read once. *)
Record cursor_ok (artifact : yvex_artifact) (options : yvex_gguf_reader_options) (c : yvex_file_cursor)
    : Prop := CursorOk {
  co_offset : 0 ≤ fc_offset c ≤ ar_size artifact;
  co_structural : rs_structural_bytes_read (fc_stats c) = fc_offset c;
  co_structural_limit : fc_offset c ≤ ro_max_structural_bytes options;
  co_strings : 0 ≤ rs_total_string_bytes (fc_stats c) ≤ ro_max_total_string_bytes options;
  co_arrays : 0 ≤ rs_total_array_entries (fc_stats c) ≤ ro_max_total_array_entries options;
  co_owned : 0 ≤ rs_owned_bytes (fc_stats c) ≤ ro_max_owned_bytes options;
}.

(** From [c] to [c'] the footprint [t] of the file was consumed. *)
Record advanced (file : list Z) (c : yvex_file_cursor) (t : footprint) (c' : yvex_file_cursor) : Prop :=
  Advanced {
  ad_offset : fc_offset c' = fc_offset c + Z.of_nat (length (fp_bytes t));
  ad_bytes : file_range file (fc_offset c) (fc_offset c') = fp_bytes t;
  ad_structural : rs_structural_bytes_read (fc_stats c') =
    rs_structural_bytes_read (fc_stats c) + Z.of_nat (length (fp_bytes t));
  ad_strings : rs_total_string_bytes (fc_stats c') = rs_total_string_bytes (fc_stats c) + fp_strings t;
  ad_arrays : rs_total_array_entries (fc_stats c') = rs_total_array_entries (fc_stats c) + fp_arrays t;
  ad_owned : rs_owned_bytes (fc_stats c') = rs_owned_bytes (fc_stats c) + fp_owned t;
  ad_file_size : rs_file_size (fc_stats c') = rs_file_size (fc_stats c);
  ad_directory_end : rs_directory_end_offset (fc_stats c') = rs_directory_end_offset (fc_stats c);
}.

(** The file has the bytes of [t] at the cursor and the budgets allow it. *)
Record affordable (artifact : yvex_artifact) (options : yvex_gguf_reader_options) (file : list Z)
    (c : yvex_file_cursor) (t : footprint) : Prop := Affordable {
  af_size : fc_offset c + Z.of_nat (length (fp_bytes t)) ≤ ar_size artifact;
  af_bytes : file_range file (fc_offset c) (fc_offset c + Z.of_nat (length (fp_bytes t))) = fp_bytes t;
  af_structural : fc_offset c + Z.of_nat (length (fp_bytes t)) ≤ ro_max_structural_bytes options;
  af_strings : rs_total_string_bytes (fc_stats c) + fp_strings t ≤ ro_max_total_string_bytes options;
  af_arrays : rs_total_array_entries (fc_stats c) + fp_arrays t ≤ ro_max_total_array_entries options;
  af_owned : rs_owned_bytes (fc_stats c) + fp_owned t ≤ ro_max_owned_bytes options;
}.

(** Costs do not cancel. *)
Record fp_nonneg (t : footprint) : Prop := FpNonneg {
  fn_strings : 0 ≤ fp_strings t;
  fn_arrays : 0 ≤ fp_arrays t;
  fn_owned : 0 ≤ fp_owned t;
}.

(** Project a footprint without computing its bytes. *)
Ltac fp_simpl :=
  cbn [value_footprint fp_app fp_raw fp_memory fp_nil string_footprint fp_bytes fp_strings fp_arrays fp_owned].

Section logic.
Context (artifact : yvex_artifact) (options : yvex_gguf_reader_options) (file : list Z).
Context (Hfile : reads_file artifact file) (Hsize : ar_size artifact ≤ INT64_MAX).
Context (Hbytes : Forall is_u8 file) (Hoptions : options_in_range options).

Lemma advanced_nil c c' :
  fc_offset c' = fc_offset c → fc_stats c' = fc_stats c → advanced file c fp_nil c'.
Proof.
  intros Ho Hs. constructor; cbn; rewrite ?Ho, ?Hs; try lia. apply file_range_nil.
Qed.

Lemma advanced_app c s c' t c'' :
  0 ≤ fc_offset c → advanced file c s c' → advanced file c' t c'' → advanced file c (fp_app s t) c''.
Proof.
  intros Hc [] []. constructor; cbn; rewrite ?length_app; try lia.
  rewrite <- ad_bytes0, <- ad_bytes1. symmetry. apply file_range_app; lia.
Qed.

(** When [p] returns, what it consumed and what it returned are related. *)
Definition decodes {A} (p : parser A) (R : A → footprint → Prop) : Prop :=
  ∀ c a c', cursor_ok artifact options c → p c = Parsed a c' → cursor_ok artifact options c' ∧ ∃ t, advanced file c t c' ∧ R a t.

(** When the file goes on with [t] and the budgets allow it, [p] returns [a] and consumes [t]. *)
Definition encodes {A} (p : parser A) (a : A) (t : footprint) : Prop :=
  ∀ c, cursor_ok artifact options c → affordable artifact options file c t →
    ∃ c', p c = Parsed a c' ∧ cursor_ok artifact options c' ∧ advanced file c t c'.

Lemma decodes_weaken {A} (p : parser A) (R S : A → footprint → Prop) :
  decodes p R → (∀ a t, R a t → S a t) → decodes p S.
Proof. intros Hp HRS c a c' Hc E. destruct (Hp c a c' Hc E) as (? & t & ? & ?). eauto. Qed.

Lemma decodes_ret {A} (a : A) R : R a fp_nil → decodes (parse_ret a) R.
Proof.
  intros HR c a' c' Hc [= <- <-]. split; [done|]. exists fp_nil. split; [by apply advanced_nil|done].
Qed.

Lemma decodes_bind {A B} (p : parser A) (f : A → parser B) R S :
  decodes p R → (∀ a t, R a t → decodes (f a) (λ b t', S b (fp_app t t'))) → decodes (parse_bind p f) S.
Proof.
  intros Hp Hf c b c'' Hc. unfold parse_bind. destruct (p c) as [a c'|] eqn:E; [|done]. intros E'.
  destruct (Hp c a c' Hc E) as (Hc' & t & Hat & HR). destruct (Hf a t HR c' b c'' Hc' E') as (Hc'' & t' & Hat' & HS).
  split; [done|]. exists (fp_app t t'). split; [|done]. eapply advanced_app; [apply (co_offset _ _ _ Hc)|done..].
Qed.

(** A step that consumes nothing. *)
Lemma decodes_then {A B} (p : parser A) (f : A → parser B) (R : A → Prop) S :
  decodes p (λ a t, R a ∧ t = fp_nil) → (∀ a, R a → decodes (f a) S) → decodes (parse_bind p f) S.
Proof.
  intros Hp Hf. eapply decodes_bind; [exact Hp|]. intros a t [HR ->].
  eapply decodes_weaken; [by apply Hf|]. intros b t'. by rewrite (left_id_L fp_nil fp_app).
Qed.

Lemma decodes_fail {A} code section reason (R : A → footprint → Prop) :
  decodes (cursor_fail code section reason) R.
Proof. intros c a c' _. done. Qed.

Lemma decodes_guard {A} (b : bool) (p q : parser A) R :
  (b = true → decodes p R) → (b = false → decodes q R) → decodes (if b then p else q) R.
Proof. destruct b; auto. Qed.

Lemma encodes_ret {A} (a : A) : encodes (parse_ret a) a fp_nil.
Proof. intros c Hc _. exists c. split_and!; [done|done|by apply advanced_nil]. Qed.

Lemma affordable_split c s t :
  fp_nonneg t → affordable artifact options file c (fp_app s t) → 0 ≤ fc_offset c →
  affordable artifact options file c s ∧
  ∀ c', advanced file c s c' → affordable artifact options file c' t.
Proof.
  intros [N1 N2 N3] [A1 A2 A3 A4 A5 A6] Hc. cbn in *. rewrite length_app, Nat2Z.inj_add in *.
  destruct Hfile as [Hfs _].
  rewrite <- (file_range_app file _ (fc_offset c + Z.of_nat (length (fp_bytes s)))) in A2 by lia.
  apply app_inj_len in A2 as [A2 A2'].
  2:{ pose proof (length_file_range file (fc_offset c) (fc_offset c + Z.of_nat (length (fp_bytes s)))). lia. }
  split; [constructor; (done || lia)|]. intros c' []. constructor; try lia.
  rewrite ad_offset0. by rewrite <- Z.add_assoc.
Qed.

Lemma encodes_bind {A B} (p : parser A) (f : A → parser B) a b s t u :
  encodes p a s → encodes (f a) b t → fp_nonneg t → u = fp_app s t → encodes (parse_bind p f) b u.
Proof.
  intros Hp Hf Hn -> c Hc Ha. destruct (affordable_split c s t Hn Ha) as [Has Hat]; [apply Hc|].
  destruct (Hp c Hc Has) as (c' & E & Hc' & Had). destruct (Hf c' Hc' (Hat c' Had)) as (c'' & E' & Hc'' & Had').
  exists c''. unfold parse_bind. rewrite E. split_and!; [done|done|].
  eapply advanced_app; [apply Hc|done..].
Qed.

(** The same, with the premises in the order a proof meets them. *)
Lemma encodes_step {A B} (p : parser A) (f : A → parser B) a b s t u :
  u = fp_app s t → encodes p a s → fp_nonneg t → encodes (f a) b t → encodes (parse_bind p f) b u.
Proof. intros Hu Hp Hn Hf. by eapply encodes_bind. Qed.

(** A step that consumes nothing. *)
Lemma encodes_then {A B} (p : parser A) (f : A → parser B) a b t :
  encodes p a fp_nil → encodes (f a) b t → fp_nonneg t → encodes (parse_bind p f) b t.
Proof. intros Hp Hf Hn. eapply encodes_bind; [done|done|done|]. by rewrite (left_id_L fp_nil fp_app). Qed.

Lemma encodes_guard {A} (b : bool) (p q : parser A) a t :
  b = false → encodes q a t → encodes (if b then p else q) a t.
Proof. by intros ->. Qed.

(** ** Steps *)

Lemma decodes_set_section section : decodes (set_section section) (λ _ t, True ∧ t = fp_nil).
Proof.
  intros c a c' Hc [= <- <-]. split; [by destruct Hc|].
  exists fp_nil. split; [by apply advanced_nil|done].
Qed.

Lemma encodes_set_section section : encodes (set_section section) tt fp_nil.
Proof. intros c Hc _. eexists. split_and!; [done|by destruct Hc|by apply advanced_nil]. Qed.

Lemma decodes_set_record_index i : decodes (set_record_index i) (λ _ t, True ∧ t = fp_nil).
Proof.
  intros c a c' Hc [= <- <-]. split; [by destruct Hc|].
  exists fp_nil. split; [by apply advanced_nil|done].
Qed.

Lemma encodes_set_record_index i : encodes (set_record_index i) tt fp_nil.
Proof. intros c Hc _. eexists. split_and!; [done|by destruct Hc|by apply advanced_nil]. Qed.

Lemma decodes_get_section : decodes get_section (λ _ t, True ∧ t = fp_nil).
Proof.
  intros c a c' Hc [= <- <-]. split; [done|]. exists fp_nil. split; [by apply advanced_nil|done].
Qed.

Context (memory : nat → bool).

Lemma decodes_allocate reason : decodes (allocate memory reason) (λ _ t, True ∧ t = fp_nil).
Proof.
  intros c a c' Hc. unfold allocate. split_guard; [|done]. intros [= <- <-]. split; [by destruct Hc|].
  exists fp_nil. split; [by apply advanced_nil|done].
Qed.

Lemma encodes_allocate reason : (∀ n, memory n = true) → encodes (allocate memory reason) tt fp_nil.
Proof.
  intros Hm c Hc _. unfold allocate. rewrite Hm. eexists.
  split_and!; [done|by destruct Hc|by apply advanced_nil].
Qed.

Lemma advanced_memory c c' n :
  fc_offset c' = fc_offset c → fc_stats c' = fc_stats c <| rs_owned_bytes ::= λ m, m + n |> →
  advanced file c (fp_memory n) c'.
Proof. intros Ho Hs. constructor; rewrite ?Ho, ?Hs; cbn; try lia. apply file_range_nil. Qed.

Lemma decodes_reserve_owned n :
  0 ≤ n → decodes (reserve_owned options n) (λ _ t, t = fp_memory n).
Proof.
  intros Hn c a c' Hc. unfold reserve_owned, parse_bind, get_stats. split_guard; [done|]. guards.
  intros [= <- <-]. split; [|by exists (fp_memory n); split; [apply advanced_memory|]].
  destruct Hc. constructor; cbn; lia.
Qed.

Lemma encodes_reserve_owned n : 0 ≤ n → encodes (reserve_owned options n) tt (fp_memory n).
Proof.
  intros Hn c Hc [_ _ _ _ _ Ha]. cbn in Ha. unfold reserve_owned, parse_bind, get_stats.
  destruct Hoptions as (_ & _ & Hl & _). destruct Hc.
  rewrite (proj2 (orb_false_iff _ _)) by (rewrite !Z.ltb_ge; ulia).
  eexists. split; [done|]. split; [constructor; cbn; lia|by apply advanced_memory].
Qed.

Lemma decodes_read_exact n field :
  0 ≤ n →
  decodes (cursor_read_exact artifact options n field)
    (λ bytes t, t = fp_raw bytes ∧ Z.of_nat (length bytes) = n ∧ Forall is_u8 bytes).
Proof.
  intros Hn c a c' Hc. unfold cursor_read_exact, parse_bind, get_stats, get_offset, get_section. cbv zeta.
  split_guard; [done|]. split_guard; [done|]. destruct (yvex_artifact_read_at _ _ _) as [bytes|] eqn:Er; [|done].
  intros [= <- <-]. apply (read_at_sound artifact file Hfile) in Er as (Eb & El & Hend); [|by apply Hc|done].
  guards. destruct Hc. split.
  { constructor; cbn; lia. }
  exists (fp_raw bytes). split.
  - constructor; cbn; rewrite ?El; try lia. done.
  - split_and!; [done..|]. rewrite Eb. by apply Forall_take, Forall_drop.
Qed.

Lemma encodes_read_exact n field bytes :
  reads_all artifact → Z.of_nat (length bytes) = n →
  encodes (cursor_read_exact artifact options n field) bytes (fp_raw bytes).
Proof.
  intros Hall <- c Hc [A1 A2 A3 _ _ _]. cbn in *. destruct Hc.
  unfold cursor_read_exact, parse_bind, get_stats, get_offset, get_section. cbv zeta. cbn [yvex_artifact_size].
  rewrite (proj2 (Z.leb_le _ _)) by lia. rewrite (proj2 (Z.ltb_ge _ _)) by lia.
  destruct Hoptions as (_ & _ & _ & Hl & _).
  rewrite (proj2 (orb_false_iff _ _)) by (rewrite !Z.ltb_ge; ulia).
  rewrite (read_at_complete artifact file Hfile) by (done || lia). rewrite A2.
  eexists. split; [done|]. split; [constructor; cbn; lia|]. constructor; cbn; try lia. done.
Qed.

(** ** Integers *)

Lemma decodes_read_le n field (q : list Z → parser Z) :
  (∀ bytes, q bytes = parse_ret (load_le bytes)) →
  decodes (parse_bind (cursor_read_exact artifact options (Z.of_nat n) field) q)
    (λ v t, t = fp_raw (le_bytes n v) ∧ 0 ≤ v < 256 ^ Z.of_nat n).
Proof.
  intros Hq. eapply decodes_bind; [apply decodes_read_exact; lia|]. intros bytes t (-> & Hl & Hu).
  rewrite Hq. apply decodes_ret. rewrite (right_id_L fp_nil fp_app), load_le_value by done.
  assert (n = length bytes) as -> by lia. rewrite le_bytes_value by done. split; [done|by apply le_value_range].
Qed.

Lemma encodes_read_le n field (q : list Z → parser Z) v :
  reads_all artifact → (∀ bytes, q bytes = parse_ret (load_le bytes)) → 0 ≤ v < 256 ^ Z.of_nat n →
  encodes (parse_bind (cursor_read_exact artifact options (Z.of_nat n) field) q) v (fp_raw (le_bytes n v)).
Proof.
  intros Hall Hq Hv. eapply (encodes_bind _ _ (le_bytes n v) _ _ fp_nil).
  - apply encodes_read_exact; [done|]. by rewrite length_le_bytes.
  - rewrite Hq, load_le_bytes by done. apply encodes_ret.
  - done.
  - by rewrite (right_id_L fp_nil fp_app).
Qed.

Lemma decodes_u32le field :
  decodes (cursor_read_u32le artifact options field) (λ v t, t = fp_raw (le_bytes 4 v) ∧ is_u32 v).
Proof.
  eapply decodes_weaken; [by apply (decodes_read_le 4)|]. cbn beta. intros v t [-> Hv]. split; [done|].
  change (256 ^ Z.of_nat 4) with 4294967296 in Hv. ulia.
Qed.

Lemma decodes_u64le field :
  decodes (cursor_read_u64le artifact options field) (λ v t, t = fp_raw (le_bytes 8 v) ∧ is_u64 v).
Proof.
  eapply decodes_weaken; [by apply (decodes_read_le 8)|]. cbn beta. intros v t [-> Hv]. split; [done|].
  change (256 ^ Z.of_nat 8) with 18446744073709551616 in Hv. ulia.
Qed.

Lemma encodes_u32le field v :
  reads_all artifact → is_u32 v → encodes (cursor_read_u32le artifact options field) v (fp_raw (le_bytes 4 v)).
Proof.
  intros Hall Hv. apply (encodes_read_le 4); [done..|].
  change (256 ^ Z.of_nat 4) with 4294967296. ulia.
Qed.

Lemma encodes_u64le field v :
  reads_all artifact → is_u64 v → encodes (cursor_read_u64le artifact options field) v (fp_raw (le_bytes 8 v)).
Proof.
  intros Hall Hv. apply (encodes_read_le 8); [done..|].
  change (256 ^ Z.of_nat 8) with 18446744073709551616. ulia.
Qed.

(** ** Texts *)

(** A text the reader accepts in a place with these demands. *)
Record text_ok (format_max : Z) (reject_empty reject_nul : bool) (data : list Z) : Prop := TextOk {
  tx_bytes : Forall is_u8 data;
  tx_limit : Z.of_nat (length data) ≤ ro_max_string_bytes options;
  tx_address : Z.of_nat (length data) ≤ SIZE_MAX - 1;
  tx_utf8 : utf8_valid data = true;
  tx_empty : reject_empty = true → data ≠ [];
  tx_format : format_max ≠ 0 → Z.of_nat (length data) ≤ format_max;
  tx_nul : reject_nul = true → 0 ∉ data;
}.

Lemma parse_bind_inv {A B} (p : parser A) (f : A → parser B) c b c'' :
  parse_bind p f c = Parsed b c'' → ∃ a c', p c = Parsed a c' ∧ f a c' = Parsed b c''.
Proof. unfold parse_bind. destruct (p c) as [a c'|]; [eauto|done]. Qed.

Lemma parse_bind_run {A B} (p : parser A) (f : A → parser B) c a c' :
  p c = Parsed a c' → parse_bind p f c = f a c'.
Proof. unfold parse_bind. by intros ->. Qed.

Lemma decodes_read_text n format_max field :
  0 ≤ n →
  decodes (read_text artifact options n format_max field)
    (λ bytes t, t = fp_raw bytes ∧ Z.of_nat (length bytes) = n ∧ Forall is_u8 bytes).
Proof.
  intros Hn c a c' Hc. unfold read_text. destruct (Z.eqb_spec n 0) as [->|Hne].
  - intros [= <- <-]. split; [done|]. exists fp_nil. split; [by apply advanced_nil|]. split_and!; [done..|constructor].
  - destruct (cursor_read_exact _ _ _ _ c) as [bytes c1|] eqn:E; [|done]. intros [= <- <-].
    by apply (decodes_read_exact n field Hn c bytes c1).
Qed.

Lemma encodes_read_text n format_max field bytes :
  reads_all artifact → Z.of_nat (length bytes) = n →
  encodes (read_text artifact options n format_max field) bytes (fp_raw bytes).
Proof.
  intros Hall Hl c Hc Ha. unfold read_text. destruct (Z.eqb_spec n 0) as [->|Hne].
  - destruct bytes; [|done]. exists c. split_and!; [done|done|by apply advanced_nil].
  - destruct (encodes_read_exact n field bytes Hall Hl c Hc Ha) as (c' & -> & ? & ?). by exists c'.
Qed.

Lemma decodes_string format_max reject_empty reject_nul field :
  decodes (cursor_read_string artifact options memory format_max reject_empty reject_nul field)
    (λ data t, t = string_footprint data ∧ text_ok format_max reject_empty reject_nul data).
Proof.
  unfold cursor_read_string. eapply decodes_bind; [apply decodes_u64le|]. intros len t0 [-> Hlen].
  eapply decodes_then; [apply decodes_get_section|]. intros section _.
  apply decodes_guard; [intros; apply decodes_fail|intros Ge].
  apply decodes_guard; [intros; apply decodes_fail|intros Gf].
  apply decodes_guard; [intros; apply decodes_fail|intros Gs]. guards.
  intros c data c' Hc. unfold parse_bind at 1, get_stats. split_guard; [done|]. guards.
  intros (u1 & c1 & Hp1 & (u2 & c2 & Hp2 & (copy & c3 & Hp3 & Hp4)%parse_bind_inv)%parse_bind_inv)%parse_bind_inv.
  apply decodes_reserve_owned in Hp1 as (Hc1 & t1 & A1 & ->); [|ulia|done].
  apply decodes_allocate in Hp2 as (Hc2 & t2 & A2 & _ & ->); [|done].
  apply decodes_read_text in Hp3 as (Hc3 & t3 & A3 & -> & Hl & Hu); [|ulia|done].
  revert Hp4. split_guard; [done|]. split_guard; [done|]. intros [= <- <-]. guards.
  pose proof (ad_strings _ _ _ _ A1) as S1. pose proof (ad_strings _ _ _ _ A2) as S2.
  pose proof (ad_strings _ _ _ _ A3) as S3. cbn in S1, S2, S3.
  split.
  { destruct Hc3. constructor; cbn; try lia. }
  exists (Footprint copy (Z.of_nat (length copy)) 0 (Z.of_nat (length copy) + 1)). split.
  - pose proof (advanced_app _ _ _ _ _ (proj1 (co_offset _ _ _ Hc)) A1 A2) as A12.
    pose proof (advanced_app _ _ _ _ _ (proj1 (co_offset _ _ _ Hc)) A12 A3) as A123.
    destruct A123. cbn in *. constructor; cbn; (done || lia).
  - split; [apply footprint_eq; cbn; [|lia..]; unfold encode_string; by rewrite Hl|].
    constructor; try done; try lia.
    + intros ->. cbn in Ge. guards. destruct copy; [cbn in Hl; lia|done].
    + intros ->. naive_solver.
Qed.

Lemma encodes_string format_max reject_empty reject_nul field data :
  reads_all artifact → (∀ n, memory n = true) → text_ok format_max reject_empty reject_nul data →
  encodes (cursor_read_string artifact options memory format_max reject_empty reject_nul field) data
    (string_footprint data).
Proof.
  intros Hall Hm [T1 T2 T3 T4 T5 T6 T7]. unfold cursor_read_string. set (len := Z.of_nat (length data)) in *.
  eapply (encodes_bind _ _ len data _ (Footprint data len 0 (len + 1))).
  { apply encodes_u64le; [done|]. ulia. }
  2:{ constructor; cbn; lia. }
  2:{ apply footprint_eq; cbn; (done || lia). }
  intros c Hc Ha. unfold parse_bind at 1, get_section.
  rewrite (proj2 (andb_false_iff _ _)).
  2:{ destruct reject_empty; [right|by left]. apply Z.eqb_neq. specialize (T5 eq_refl).
      unfold len. destruct data; [done|cbn; lia]. }
  rewrite (proj2 (andb_false_iff _ _)).
  2:{ destruct (Z.eqb_spec format_max 0) as [|Hf]; [by left|right]. apply Z.ltb_ge. by apply T6. }
  rewrite (proj2 (Z.ltb_ge _ _)) by done. unfold parse_bind at 1, get_stats.
  destruct Hoptions as (_ & Hl & _). pose proof (af_strings _ _ _ _ _ Ha) as Hstr. cbn in Hstr.
  pose proof (co_strings _ _ _ Hc) as Hs0.
  rewrite (proj2 (orb_false_iff _ _)) by (rewrite orb_false_iff, !Z.ltb_ge; ulia).
  assert (Hmid : encodes
    (parse _ <- reserve_owned options (len + 1) ;
     parse _ <- allocate memory "failed to allocate GGUF string" ;
     read_text artifact options len format_max field) data (Footprint data 0 0 (len + 1))).
  { eapply (encodes_bind _ _ tt _ _ (fp_raw data)); [apply encodes_reserve_owned; lia| |done|].
    - eapply (encodes_then _ _ tt); [by apply encodes_allocate|by apply encodes_read_text|done].
    - apply footprint_eq; cbn; (done || lia). }
  destruct (Hmid c Hc) as (c' & E & Hc' & Had).
  { destruct Ha. constructor; cbn in *; (done || lia). }
  unfold parse_bind in E |- *.
  destruct (reserve_owned _ _ _) as [[] c1|]; [|done]. destruct (allocate _ _ _) as [[] c2|]; [|done].
  rewrite E. rewrite (proj2 (andb_false_iff _ _)).
  2:{ destruct reject_nul; [right|by left]. apply bool_decide_eq_false. by apply T7. }
  rewrite T4. cbn [negb]. eexists. split; [done|]. pose proof (ad_strings _ _ _ _ Had) as HS. cbn in HS.
  split.
  - destruct Hc'. constructor; cbn; try lia.
  - destruct Had. cbn in *. constructor; cbn; (done || lia).
Qed.

(** ** Repetition *)

Lemma fp_app_nonneg s t : fp_nonneg s → fp_nonneg t → fp_nonneg (fp_app s t).
Proof. intros [] []. constructor; cbn; lia. Qed.

Lemma fp_concat_nonneg l : Forall fp_nonneg l → fp_nonneg (fp_concat l).
Proof. induction 1; [by constructor|]. by apply fp_app_nonneg. Qed.

Lemma decodes_times {A} (p : Z → parser A) (Q : A → Prop) (T : A → footprint) n i :
  (∀ i, decodes (p i) (λ a t, t = T a ∧ Q a)) →
  decodes (parse_times n p i) (λ l t, t = fp_concat (T <$> l) ∧ length l = n ∧ Forall Q l).
Proof.
  intros Hp. revert i. induction n as [|n IH]; intros i; cbn [parse_times].
  - apply decodes_ret. by split_and!.
  - eapply decodes_bind; [apply Hp|]. intros a t [-> Ha].
    eapply decodes_bind; [apply IH|]. intros l t (-> & Hl & HQ). apply decodes_ret.
    rewrite (right_id_L fp_nil fp_app). split_and!; [done|cbn; lia|by constructor].
Qed.

Lemma encodes_times {A} (p : Z → parser A) (T : A → footprint) l i :
  Forall (λ a, fp_nonneg (T a) ∧ ∀ i, encodes (p i) a (T a)) l →
  encodes (parse_times (length l) p i) l (fp_concat (T <$> l)).
Proof.
  intros Hl. revert i. induction Hl as [|a l [Hn Ha] Hl IH]; intros i; cbn [parse_times length]; [apply encodes_ret|].
  assert (Hc : fp_nonneg (fp_concat (T <$> l))).
  { apply fp_concat_nonneg, Forall_fmap. eapply Forall_impl; [exact Hl|]. by intros x []. }
  eapply encodes_bind; [apply Ha| |exact Hc|done].
  eapply (encodes_bind _ _ l _ _ fp_nil); [apply IH|apply encodes_ret|done|].
  by rewrite (right_id_L fp_nil fp_app).
Qed.

(** ** Values *)

(** A value of the view: its members are in the range of their type, its texts are UTF-8, its arrays
    hold one type and respect the limits; [depth] counts the arrays around it. *)
Inductive value_ok : Z → yvex_gguf_value → Prop :=
  | value_ok_unsigned depth type n why v :
      scalar_specs type = Some (n, SCALAR_UNSIGNED, why) → 0 ≤ v < 2 ^ (Z.of_nat n * 8) →
      value_ok depth (ValueUnsigned type v)
  | value_ok_signed depth type n why v :
      scalar_specs type = Some (n, SCALAR_SIGNED, why) →
      - 2 ^ (Z.of_nat n * 8 - 1) ≤ v < 2 ^ (Z.of_nat n * 8 - 1) → value_ok depth (ValueSigned type v)
  | value_ok_float depth type n why v :
      scalar_specs type = Some (n, SCALAR_FLOAT, why) → 0 ≤ v < 2 ^ (Z.of_nat n * 8) →
      value_ok depth (ValueFloat type v)
  | value_ok_bool depth b : 0 ≤ b ≤ 1 → value_ok depth (ValueBool b)
  | value_ok_string depth data : text_ok 0 false false data → value_ok depth (ValueString data)
  | value_ok_array depth element_type items :
      depth < ro_max_array_depth options → element_type ≠ YVEX_GGUF_VALUE_INVALID →
      Z.of_nat (length items) ≤ ro_max_array_entries options →
      Z.of_nat (length items) ≤ SIZE_MAX / sizeof_value →
      Forall (λ item, yvex_gguf_value_type_of (Some item) = element_type) items →
      Forall (value_ok (depth + 1)) items →
      value_ok depth (ValueArray element_type items).

Lemma value_footprint_nonneg v : fp_nonneg (value_footprint v).
Proof.
  revert v. fix IH 1. intros [| | | |data|type items]; [by constructor..| |].
  - constructor; cbn; lia.
  - cbn [value_footprint]. apply fp_app_nonneg; [constructor; cbn; unfold sizeof_value; lia|].
    induction items as [|v items IHi]; [by constructor|]. cbn. apply fp_app_nonneg; [apply IH|apply IHi].
Qed.

Lemma scalar_specs_width type n kind why :
  scalar_specs type = Some (n, kind, why) → scalar_width n.
Proof. destruct type; intros [= <- <- <-]; unfold scalar_width; tauto. Qed.

Lemma decodes_scalar type depth :
  decodes (parse_scalar artifact options type)
    (λ v t, t = value_footprint v ∧ value_ok depth v ∧ yvex_gguf_value_type_of (Some v) = type).
Proof.
  unfold parse_scalar. destruct (scalar_specs type) as [[[n kind] why]|] eqn:Es; [|apply decodes_fail].
  pose proof (scalar_specs_width _ _ _ _ Es) as Hw.
  eapply decodes_bind; [apply decodes_read_exact; lia|]. intros raw t (-> & Hl & Hu). cbv zeta.
  rewrite load_le_value by done. pose proof (le_value_range raw Hu) as Hr. rewrite pow_256 in Hr.
  assert (Hb : le_bytes n (le_value raw) = raw) by (rewrite <- (le_bytes_value raw Hu) at 2; f_equal; lia).
  rewrite Hl in Hr. destruct kind.
  - apply decodes_ret. rewrite (right_id_L fp_nil fp_app). cbn. rewrite Es, Hb. by split_and!; [|econstructor|].
  - apply decodes_ret. rewrite (right_id_L fp_nil fp_app). cbn. rewrite Es.
    destruct (scalar_signed_roundtrip n _ Hw Hr) as [H1 H2].
    rewrite <- (le_bytes_mod n (scalar_signed n _)), pow_256, H2, Hb. by split_and!; [|econstructor|].
  - apply decodes_ret. rewrite (right_id_L fp_nil fp_app). cbn. rewrite Es, Hb. by split_and!; [|econstructor|].
  - apply decodes_guard; [|intros; apply decodes_fail]. intros Hle. apply Z.leb_le in Hle. apply decodes_ret.
    rewrite (right_id_L fp_nil fp_app).
    assert (n = 1%nat ∧ type = YVEX_GGUF_VALUE_BOOL) as [-> ->] by (destruct type; naive_solver).
    destruct raw as [|b [|b' raw]]; [cbn in Hl; lia| |cbn in Hl; lia]. cbn in Hle, Hr |- *.
    assert (b = 0 ∨ b = 1) as [-> | ->] by lia; by split_and!; [|constructor|].
Qed.

(** Reading a scalar whose bytes are those of [v]. *)
Lemma encodes_raw {A} n field (q : list Z → parser A) a bytes :
  reads_all artifact → Z.of_nat (length bytes) = n → q bytes = parse_ret a →
  encodes (parse_bind (cursor_read_exact artifact options n field) q) a (fp_raw bytes).
Proof.
  intros Hall Hl Hq. eapply (encodes_bind _ _ bytes _ _ fp_nil).
  - by apply encodes_read_exact.
  - rewrite Hq. apply encodes_ret.
  - done.
  - by rewrite (right_id_L fp_nil fp_app).
Qed.

Lemma encodes_scalar depth v n kind why :
  reads_all artifact → value_ok depth v →
  scalar_specs (yvex_gguf_value_type_of (Some v)) = Some (n, kind, why) →
  encodes (parse_scalar artifact options (yvex_gguf_value_type_of (Some v))) v (value_footprint v).
Proof.
  intros Hall Hv Es. unfold parse_scalar. rewrite Es.
  destruct Hv as [? type m w v Hs Hr|? type m w v Hs Hr|? type m w v Hs Hr|? b Hr|? data Hd|]; try done;
    cbn in Es; try (rewrite Hs in Es; injection Es as <- <- <-).
  - cbn [value_footprint encode_value]. rewrite Hs. apply encodes_raw; [done|by rewrite length_le_bytes|].
    by rewrite load_le_bytes by by rewrite pow_256.
  - cbn [value_footprint encode_value]. rewrite Hs. apply encodes_raw; [done|by rewrite length_le_bytes|].
    pose proof (scalar_specs_width _ _ _ _ Hs) as Hw.
    rewrite <- le_bytes_mod, load_le_bytes, pow_256 by (rewrite pow_256; apply Z.mod_pos_bound; lia).
    by rewrite scalar_signed_unique.
  - cbn [value_footprint encode_value]. rewrite Hs. apply encodes_raw; [done|by rewrite length_le_bytes|].
    by rewrite load_le_bytes by by rewrite pow_256.
  - injection Es as <- <- <-. apply encodes_raw; [done..|].
    assert (b = 0 ∨ b = 1) as [-> | ->] by lia; done.
Qed.

Lemma decodes_value_type raw :
  decodes (parse_value_type raw) (λ type t, (type ≠ YVEX_GGUF_VALUE_INVALID ∧ raw = value_type_code type) ∧ t = fp_nil).
Proof.
  unfold parse_value_type. destruct (array_get value_types raw) as [type|] eqn:E; [|apply decodes_fail].
  apply array_get_Some in E as [Hr E]. apply decodes_ret. split; [|done]. split.
  - intros ->. apply list_elem_of_lookup_2 in E. by vm_compute in E; set_solver.
  - apply value_types_code in E. lia.
Qed.

Lemma encodes_value_type type :
  type ≠ YVEX_GGUF_VALUE_INVALID → encodes (parse_value_type (value_type_code type)) type fp_nil.
Proof. intros Ht. destruct type; try done; apply encodes_ret. Qed.

(** The budget of an array's entries. *)
Lemma decodes_array_budget {B} count (g : bool) (fail1 fail2 q : parser B) S :
  0 ≤ count → (∀ R, decodes fail1 R) → (∀ R, decodes fail2 R) →
  (g = false → count ≤ ro_max_array_entries options →
     decodes q (λ b t, S b (fp_app (Footprint [] 0 count 0) t))) →
  decodes (parse stats <- get_stats ;
    if (ro_max_array_entries options <? count) || (ULLONG_MAX - rs_total_array_entries stats <? count)
       || (ro_max_total_array_entries options <? rs_total_array_entries stats + count)
    then fail1 else if g then fail2 else
    parse _ <- modify_stats (λ s, s <| rs_total_array_entries ::= λ n, n + count |>) ; q) S.
Proof.
  intros Hcount Hf1 Hf2 Hq c b c'' Hc. unfold parse_bind at 1, get_stats.
  destruct ((_ || _) || _) eqn:E; [by apply Hf1|]. guards. destruct g; [by apply Hf2|].
  unfold parse_bind, modify_stats. intros Hq'. apply Hq in Hq' as (Hc'' & t & Ha & HS); [|done|done|].
  2:{ destruct Hc. constructor; cbn; lia. }
  split; [done|]. exists (fp_app (Footprint [] 0 count 0) t). split; [|done].
  eapply advanced_app; [apply Hc| |exact Ha].
  constructor; cbn; try lia. apply file_range_nil.
Qed.

Lemma encodes_array_budget {B} count (g : bool) (fail1 fail2 q : parser B) b t u :
  0 ≤ count → g = false → count ≤ ro_max_array_entries options → encodes q b t →
  u = fp_app (Footprint [] 0 count 0) t → fp_nonneg t →
  encodes (parse stats <- get_stats ;
    if (ro_max_array_entries options <? count) || (ULLONG_MAX - rs_total_array_entries stats <? count)
       || (ro_max_total_array_entries options <? rs_total_array_entries stats + count)
    then fail1 else if g then fail2 else
    parse _ <- modify_stats (λ s, s <| rs_total_array_entries ::= λ n, n + count |>) ; q) b u.
Proof.
  intros Hcount -> Hmax Hq -> Hn c Hc Ha.
  destruct (affordable_split c (Footprint [] 0 count 0) t Hn Ha) as [Has Hat]; [apply Hc|].
  pose proof (af_arrays _ _ _ _ _ Has) as Hbudget. cbn in Hbudget.
  pose proof (co_arrays _ _ _ Hc) as H0. destruct Hoptions as (Hl & _).
  unfold parse_bind at 1, get_stats.
  rewrite (proj2 (orb_false_iff _ _)) by (rewrite orb_false_iff, !Z.ltb_ge; ulia).
  unfold parse_bind, modify_stats. set (c1 := c <| fc_stats ::= _ |>).
  assert (Had : advanced file c (Footprint [] 0 count 0) c1).
  { constructor; cbn; try lia. apply file_range_nil. }
  destruct (Hq c1) as (c' & E & Hc' & Had'); [|by apply Hat|].
  { destruct Hc. constructor; cbn; lia. }
  exists c'. split_and!; [done|done|]. eapply advanced_app; [apply Hc|done..].
Qed.

(** An array around the parser of its items. *)
Definition array_parser (depth : Z) (items : yvex_gguf_value_type → Z → parser yvex_gguf_value)
    : parser yvex_gguf_value :=
  unless_ ro_max_array_depth options <=? depth
    fail YVEX_GGUF_PARSE_RESOURCE_LIMIT YVEX_GGUF_PARSE_SECTION_RESOURCE
      "GGUF array nesting depth exceeds configured limit";
  parse raw_type <- cursor_read_u32le artifact options "truncated GGUF array element type" ;
  parse element_type <- parse_value_type raw_type ;
  parse count <- cursor_read_u64le artifact options "truncated GGUF array count" ;
  parse stats <- get_stats ;
  unless_ (ro_max_array_entries options <? count)
          || (ULLONG_MAX - rs_total_array_entries stats <? count)
          || (ro_max_total_array_entries options <? rs_total_array_entries stats + count)
    fail YVEX_GGUF_PARSE_RESOURCE_LIMIT YVEX_GGUF_PARSE_SECTION_RESOURCE
      "GGUF array entry budget exceeded";
  unless_ SIZE_MAX / sizeof_value <? count
    fail YVEX_GGUF_PARSE_RESOURCE_LIMIT YVEX_GGUF_PARSE_SECTION_RESOURCE
      "GGUF array allocation exceeds address space";
  parse _ <- modify_stats (λ s, s <| rs_total_array_entries ::= λ n, n + count |>) ;
  if count =? 0 then parse_ret (ValueArray element_type [])
  else
    parse _ <- reserve_owned options (count * sizeof_value) ;
    parse _ <- allocate memory "failed to allocate GGUF array items" ;
    items element_type count.

Definition items_ok (depth : Z) (element_type : yvex_gguf_value_type) (count : Z)
    (items : list yvex_gguf_value) : Prop :=
  Z.of_nat (length items) = count ∧
  Forall (λ item, yvex_gguf_value_type_of (Some item) = element_type) items ∧
  Forall (value_ok (depth + 1)) items.

Lemma decodes_array depth items :
  (∀ element_type count, 0 ≤ count → decodes (items element_type count)
     (λ v t, ∃ l, v = ValueArray element_type l ∧ t = fp_concat (value_footprint <$> l) ∧
        items_ok depth element_type count l)) →
  decodes (array_parser depth items)
    (λ v t, t = value_footprint v ∧ value_ok depth v ∧ yvex_gguf_value_type_of (Some v) = YVEX_GGUF_VALUE_ARRAY).
Proof.
  intros Hitems. unfold array_parser. apply decodes_guard; [intros; apply decodes_fail|intros Gd].
  eapply decodes_bind; [apply decodes_u32le|]. intros raw t0 [-> Hraw].
  eapply decodes_then; [apply decodes_value_type|]. intros element_type [Hinv ->].
  eapply decodes_bind; [apply decodes_u64le|]. intros count t1 [-> Hcount].
  apply decodes_array_budget; [ulia|intros; apply decodes_fail..|]. intros Gs Hmax.
  apply Z.ltb_ge in Gs. apply Z.leb_gt in Gd. apply decodes_guard; intros Gc; guards.
  - subst count. apply decodes_ret. split_and!; [by apply footprint_eq|by constructor|done].
  - eapply decodes_bind; [apply decodes_reserve_owned; unfold sizeof_value; ulia|]. intros _ t2 ->.
    eapply decodes_then; [apply decodes_allocate|]. intros _ _.
    eapply decodes_weaken; [apply Hitems; ulia|]. intros v t (l & -> & -> & Hl & Ht & Hok).
    split_and!; [|constructor; (done || lia)|done].
    apply footprint_eq; fp_simpl; rewrite ?Hl; [by rewrite <- !(assoc_L (++))|lia..].
Qed.

Lemma encodes_array depth items element_type l :
  reads_all artifact → (∀ n, memory n = true) → value_ok depth (ValueArray element_type l) →
  (l ≠ [] → encodes (items element_type (Z.of_nat (length l))) (ValueArray element_type l)
     (fp_concat (value_footprint <$> l))) →
  encodes (array_parser depth items) (ValueArray element_type l) (value_footprint (ValueArray element_type l)).
Proof.
  intros Hall Hm Hv Hitems. inversion Hv as [| | | | |? ? ? Hd Hinv Hmax Hsz Hty Hok]; subst.
  set (count := Z.of_nat (length l)) in *. destruct Hoptions as (_ & _ & _ & _ & _ & Hmaxr & _).
  assert (Hcn : fp_nonneg (fp_concat (value_footprint <$> l))).
  { apply fp_concat_nonneg, Forall_fmap. apply Forall_true. intros. apply value_footprint_nonneg. }
  assert (Htn : fp_nonneg (fp_app (fp_memory (count * sizeof_value)) (fp_concat (value_footprint <$> l)))).
  { apply fp_app_nonneg; [constructor; cbn; unfold sizeof_value; lia|done]. }
  assert (Han : fp_nonneg (Footprint [] 0 count 0)) by (constructor; cbn; lia).
  unfold array_parser. apply encodes_guard; [apply Z.leb_gt; lia|].
  eapply (encodes_bind _ _ (value_type_code element_type)).
  - apply encodes_u32le; [done|]. destruct element_type; cbn; ulia.
  - eapply (encodes_then _ _ element_type); [by apply encodes_value_type| |].
    + eapply (encodes_bind _ _ count); [apply encodes_u64le; [done|ulia]| | |reflexivity].
      * eapply encodes_array_budget; [lia|apply Z.ltb_ge; lia|done| |reflexivity|exact Htn].
        destruct (Z.eqb_spec count 0) as [Hz|Hz].
        -- destruct l; [|cbn in count; lia]. apply encodes_ret.
        -- eapply (encodes_bind _ _ tt); [apply encodes_reserve_owned; unfold sizeof_value; lia| |exact Hcn|reflexivity].
           eapply (encodes_then _ _ tt); [by apply encodes_allocate| |exact Hcn].
           apply Hitems. by destruct l.
      * by apply fp_app_nonneg.
    + apply fp_app_nonneg; [done|]. by apply fp_app_nonneg.
  - apply fp_app_nonneg; [done|]. by apply fp_app_nonneg.
  - apply footprint_eq; fp_simpl; fold count; [by rewrite <- !(assoc_L (++))|lia..].
Qed.

Lemma decodes_value fuel type depth :
  decodes (parse_value artifact options memory fuel type depth)
    (λ v t, t = value_footprint v ∧ value_ok depth v ∧ yvex_gguf_value_type_of (Some v) = type).
Proof.
  revert type depth. induction fuel as [|fuel IH]; intros type depth;
    (destruct (decide (type = YVEX_GGUF_VALUE_ARRAY)) as [->|Harr];
     [|destruct (decide (type = YVEX_GGUF_VALUE_STRING)) as [->|Hstr];
       [|destruct type; try done; try apply decodes_scalar; apply decodes_fail]]).
  2,4: (cbn [parse_value]; eapply decodes_bind; [apply decodes_string|]; intros data t [-> Hd];
    apply decodes_ret; rewrite (right_id_L fp_nil fp_app); by split_and!; [|constructor|]).
  - apply (decodes_array depth (λ _ _, cursor_fail _ _ _)). intros. apply decodes_fail.
  - apply (decodes_array depth (λ element_type count,
      parse items <- parse_times (Z.to_nat count) (λ _, parse_value artifact options memory fuel element_type (depth + 1)) 0 ;
      parse_ret (ValueArray element_type items))).
    intros element_type count Hcount. eapply decodes_bind.
    { apply (decodes_times _ (λ v, value_ok (depth + 1) v ∧ yvex_gguf_value_type_of (Some v) = element_type)
        value_footprint). intros _. apply IH. }
    intros l t (-> & Hl & Hok). apply decodes_ret. exists l. rewrite (right_id_L fp_nil fp_app).
    split_and!; [done|done|]. split_and!; [lia|..]; (eapply Forall_impl; [exact Hok|]); by intros v [].
Qed.

Lemma parse_value_scalar fuel type depth spec :
  scalar_specs type = Some spec →
  parse_value artifact options memory fuel type depth = parse_scalar artifact options type.
Proof. destruct fuel, type; done. Qed.

(** Fuel for the remaining nesting is enough. *)
Lemma encodes_value fuel depth v :
  reads_all artifact → (∀ n, memory n = true) → value_ok depth v →
  ro_max_array_depth options ≤ depth + Z.of_nat fuel →
  encodes (parse_value artifact options memory fuel (yvex_gguf_value_type_of (Some v)) depth) v
    (value_footprint v).
Proof.
  intros Hall Hm. revert depth v. induction fuel as [|fuel IH]; intros depth v Hv Hfuel.
  all: destruct (scalar_specs (yvex_gguf_value_type_of (Some v))) as [[[n kind] why]|] eqn:Es;
    [by erewrite parse_value_scalar; [eapply encodes_scalar|]|].
  all: inversion Hv as [? type n w x Hs|? type n w x Hs|? type n w x Hs|? b|? data Hd|? e l Hd Hinv Hmax Hsz Hty Hok];
    subst; try (cbn in Es; congruence).
  1,3: (cbn [parse_value yvex_gguf_value_type_of]; eapply (encodes_bind _ _ data _ _ fp_nil);
    [by apply encodes_string|apply encodes_ret|done|by rewrite (right_id_L fp_nil fp_app)]).
  - lia.
  - apply (encodes_array depth (λ element_type count,
      parse items <- parse_times (Z.to_nat count) (λ _, parse_value artifact options memory fuel element_type (depth + 1)) 0 ;
      parse_ret (ValueArray element_type items))); [done..|]. intros _.
    eapply (encodes_bind _ _ l _ _ fp_nil); [|apply encodes_ret|done|by rewrite (right_id_L fp_nil fp_app)].
    rewrite Nat2Z.id. apply encodes_times. apply Forall_forall. intros v Hin. split; [apply value_footprint_nonneg|].
    intros _. rewrite Forall_forall in Hty, Hok. rewrite <- (Hty v Hin). apply IH; [by apply Hok|lia].
Qed.

(** ** Names and tables *)

Lemma decodes_name_insert duplicate section reason names index name i :
  index_ok names index → (S (length names) < length index)%nat → i = Z.of_nat (length names) →
  decodes (name_index_insert duplicate section reason names index name i)
    (λ index' t, (index_ok (names ++ [name]) index' ∧ length index' = length index) ∧ t = fp_nil).
Proof.
  intros Hok Hroom ->. unfold name_index_insert. destruct (name_index_lookup names index name) as [slot|j|] eqn:El;
    [|apply decodes_fail..].
  destruct (index_ok_insert names index name slot Hok El Hroom) as [_ Hok'].
  apply decodes_ret. pose proof (index_capacity_range names index Hok) as Hc. unfold index_capacity in Hc.
  change (2 ^ 63) with 9223372036854775808 in Hc. rewrite u64_id by ulia.
  split; [|done]. split; [done|apply length_insert].
Qed.

Lemma encodes_name_insert duplicate section reason names index name i :
  index_ok names index → (S (length names) < length index)%nat → i = Z.of_nat (length names) → name ∉ names →
  ∃ index', encodes (name_index_insert duplicate section reason names index name i) index' fp_nil ∧
    index_ok (names ++ [name]) index' ∧ length index' = length index.
Proof.
  intros Hok Hroom -> Hnot. unfold name_index_insert.
  pose proof (name_index_lookup_spec names index Hok name) as Hl.
  destruct (name_index_lookup names index name) as [slot|j|] eqn:El; cbn in Hl.
  - destruct (index_ok_insert names index name slot Hok El Hroom) as [_ Hok'].
    pose proof (index_capacity_range names index Hok) as Hc. unfold index_capacity in Hc.
    change (2 ^ 63) with 9223372036854775808 in Hc. rewrite u64_id by ulia.
    eexists. split; [apply encodes_ret|]. split; [done|apply length_insert].
  - destruct Hl as [_ Hj]. by destruct Hnot; eapply list_elem_of_lookup_2.
  - done.
Qed.

Lemma index_capacity_loop_spec fuel k wanted :
  0 ≤ k ≤ 63 → 63 ≤ k + Z.of_nat fuel → 0 < wanted →
  index_capacity_loop fuel (2 ^ k) wanted =
    if wanted <=? 2 ^ 63 then Some (2 ^ Z.max k (Z.log2_up wanted)) else None.
Proof.
  intros Hk Hfuel Hw. revert k Hk Hfuel.
  assert (H63 : ∀ k, 0 ≤ k ≤ 63 → 2 ^ k ≤ 2 ^ 63) by (intros; apply Z.pow_le_mono_r; lia).
  assert (Hlog : ∀ k, 0 ≤ k → wanted ≤ 2 ^ k ↔ Z.log2_up wanted ≤ k) by (intros; by apply Z.log2_up_le_pow2).
  induction fuel as [|fuel IH]; intros k Hk Hfuel; cbn [index_capacity_loop];
    pose proof (H63 k Hk) as Hk63; pose proof (Hlog k ltac:(lia)) as Hl.
  - assert (k = 63) as -> by lia. destruct (Z.ltb_spec (2 ^ 63) wanted).
    + by rewrite (proj2 (Z.leb_gt _ _)).
    + rewrite (proj2 (Z.leb_le _ _)) by done. by rewrite Z.max_l by tauto.
  - destruct (Z.ltb_spec (2 ^ k) wanted) as [Hlt|Hge].
    + destruct (decide (k = 63)) as [->|Hne]; [by rewrite (proj2 (Z.leb_gt _ _))|].
      assert (2 ^ k ≤ 2 ^ 62) by (apply Z.pow_le_mono_r; lia).
      rewrite (proj2 (Z.ltb_ge _ _)) by (etrans; [eassumption|by vm_compute]).
      replace (2 ^ k * 2) with (2 ^ (k + 1)) by (rewrite Z.pow_add_r by lia; lia).
      rewrite IH by lia. split_guard; [|done]. do 2 f_equal. lia.
    + rewrite (proj2 (Z.leb_le _ _)) by lia. by rewrite Z.max_l by tauto.
Qed.

(** The cells allocated for [count] names. *)
Lemma index_capacity_loop_cells count :
  0 < count →
  index_capacity_loop 64 8 (count * 2) = if count * 2 <=? 2 ^ 63 then Some (index_cells count) else None.
Proof.
  intros Hc. change 8 with (2 ^ 3) at 1. rewrite index_capacity_loop_spec by lia.
  split_guard; [|done]. f_equal. unfold index_cells. rewrite (proj2 (Z.eqb_neq _ _)) by lia. f_equal.
  change 3 with (Z.log2_up 8).
  destruct (Z.max_spec 8 (2 * count)) as [[H ->]|[H ->]].
  - rewrite (Z.mul_comm count). rewrite Z.max_r; [done|]. apply Z.log2_up_le_mono. lia.
  - rewrite Z.max_l; [done|]. apply Z.log2_up_le_mono. lia.
Qed.

Lemma index_cells_spec count :
  0 < count → 2 * count ≤ index_cells count ∧ ∃ e, 3 ≤ e ∧ index_cells count = 2 ^ e.
Proof.
  intros Hc. unfold index_cells. rewrite (proj2 (Z.eqb_neq _ _)) by lia.
  destruct (Z.log2_up_spec (Z.max 8 (2 * count)) ltac:(lia)) as [_ Hhi]. split; [lia|].
  exists (Z.log2_up (Z.max 8 (2 * count))). split; [|done].
  change 3 with (Z.log2_up 8). apply Z.log2_up_le_mono. lia.
Qed.

(** The index for [count] names, with room for all of them. *)
Definition index_for (count : Z) (index : yvex_name_index) : Prop :=
  (count = 0 → index = []) ∧
  (count ≠ 0 → index_ok [] index ∧ 2 * count ≤ Z.of_nat (length index)).

Lemma decodes_name_index_allocate count :
  0 ≤ count →
  decodes (name_index_allocate options memory count)
    (λ index t, t = fp_memory (index_cells count * sizeof_slot) ∧ index_for count index).
Proof.
  intros Hc. unfold name_index_allocate, index_for. destruct (Z.eqb_spec count 0) as [->|Hne].
  { by apply decodes_ret. }
  apply decodes_guard; [intros; apply decodes_fail|intros _].
  rewrite index_capacity_loop_cells by lia. destruct (Z.leb_spec (count * 2) (2 ^ 63)); [|apply decodes_fail].
  destruct (index_cells_spec count ltac:(lia)) as (Hroom & e & He & Hcells).
  apply decodes_guard; [intros; apply decodes_fail|intros Hcap]. apply Z.ltb_ge in Hcap.
  eapply decodes_bind; [apply decodes_reserve_owned; unfold sizeof_slot; lia|]. intros _ t ->.
  eapply decodes_then; [apply decodes_allocate|]. intros _ _. apply decodes_ret.
  rewrite (right_id_L fp_nil fp_app). split; [done|]. split; [done|]. intros _. rewrite length_replicate. split; [|lia].
  rewrite Hcells. apply index_ok_empty. split; [lia|].
  destruct (Z.lt_ge_cases e 63) as [|Hge]; [done|]. exfalso.
  assert (2 ^ 63 ≤ 2 ^ e) by (apply Z.pow_le_mono_r; lia). rewrite Hcells in Hcap.
  change (2 ^ 63) with 9223372036854775808 in *. change (SIZE_MAX / sizeof_slot) with 2305843009213693951 in Hcap. lia.
Qed.

Lemma encodes_name_index_allocate count :
  (∀ n, memory n = true) → 0 ≤ count → index_cells count ≤ SIZE_MAX / sizeof_slot →
  ∃ index, encodes (name_index_allocate options memory count) index (fp_memory (index_cells count * sizeof_slot)) ∧
    index_for count index.
Proof.
  intros Hm Hc Hmax. unfold name_index_allocate. destruct (Z.eqb_spec count 0) as [->|Hne].
  { exists []. split; [apply encodes_ret|done]. }
  exists (replicate (Z.to_nat (index_cells count)) 0).
  destruct (index_cells_spec count ltac:(lia)) as (Hroom & e & He & Hcells).
  change (SIZE_MAX / sizeof_slot) with 2305843009213693951 in Hmax.
  split.
  2:{ split; [done|]. intros _. rewrite length_replicate. split; [|lia].
      rewrite Hcells. apply index_ok_empty. split; [lia|].
      destruct (Z.lt_ge_cases e 63) as [|Hge]; [done|]. exfalso.
      assert (2 ^ 63 ≤ 2 ^ e) by (apply Z.pow_le_mono_r; lia). rewrite Hcells in Hmax.
      change (2 ^ 63) with 9223372036854775808 in *. lia. }
  apply encodes_guard; [apply Z.ltb_ge; change (ULLONG_MAX / 2) with 9223372036854775807; lia|].
  rewrite index_capacity_loop_cells by lia. change (2 ^ 63) with 9223372036854775808.
  rewrite (proj2 (Z.leb_le _ _)) by lia. apply encodes_guard.
  { apply Z.ltb_ge. change (SIZE_MAX / sizeof_slot) with 2305843009213693951. lia. }
  eapply (encodes_bind _ _ tt _ _ fp_nil); [apply encodes_reserve_owned; unfold sizeof_slot; lia| |done|].
  - eapply (encodes_then _ _ tt); [by apply encodes_allocate|apply encodes_ret|done].
  - by rewrite (right_id_L fp_nil fp_app).
Qed.

(** ** The directory *)

Lemma encode_header_split header :
  fp_raw (encode_header header) =
  fp_app (fp_raw (le_bytes 4 YVEX_GGUF_MAGIC)) (fp_app (fp_raw (le_bytes 4 (hd_version header)))
    (fp_app (fp_raw (le_bytes 8 (hd_tensor_count header))) (fp_raw (le_bytes 8 (hd_metadata_count header))))).
Proof. done. Qed.

Record header_ok (header : yvex_gguf_header) : Prop := HeaderOk {
  ho_version : hd_version header = YVEX_GGUF_SUPPORTED_VERSION;
  ho_metadata : 0 ≤ hd_metadata_count header ≤ ro_max_metadata_entries options;
  ho_tensors : 0 ≤ hd_tensor_count header ≤ ro_max_tensor_entries options;
}.

Lemma decodes_header :
  decodes (parse_header artifact options) (λ header t, t = fp_raw (encode_header header) ∧ header_ok header).
Proof.
  unfold parse_header. eapply decodes_then; [apply decodes_set_section|]. intros _ _.
  eapply decodes_then; [apply decodes_set_record_index|]. intros _ _.
  eapply decodes_bind; [apply decodes_u32le|]. intros magic t0 [-> _].
  apply decodes_guard; [intros; apply decodes_fail|intros Hmagic].
  eapply decodes_bind; [apply decodes_u32le|]. intros version t1 [-> _].
  apply decodes_guard; [intros; apply decodes_fail|intros Hversion].
  eapply decodes_bind; [apply decodes_u64le|]. intros tensors t2 [-> Ht].
  eapply decodes_bind; [apply decodes_u64le|]. intros metadata t3 [-> Hm].
  apply decodes_guard; [intros; apply decodes_fail|intros Hlimits]. guards. subst. apply decodes_ret.
  rewrite (right_id_L fp_nil fp_app). split; [done|]. constructor; cbn; (done || ulia).
Qed.

Lemma encodes_header header :
  reads_all artifact → header_ok header →
  encodes (parse_header artifact options) header (fp_raw (encode_header header)).
Proof.
  intros Hall []. destruct header as [version metadata tensors].
  cbn [hd_version hd_metadata_count hd_tensor_count] in *. subst.
  destruct Hoptions as (_ & _ & _ & _ & _ & _ & Hm & Ht & _). rewrite encode_header_split.
  cbn [hd_version hd_metadata_count hd_tensor_count]. unfold parse_header. eapply (encodes_then _ _ tt); [apply encodes_set_section| |by constructor].
  eapply (encodes_then _ _ tt); [apply encodes_set_record_index| |by constructor].
  eapply (encodes_step _ _ YVEX_GGUF_MAGIC);
    [reflexivity|apply encodes_u32le; [done|unfold YVEX_GGUF_MAGIC; ulia]|by constructor|].
  apply encodes_guard; [done|].
  eapply (encodes_step _ _ YVEX_GGUF_SUPPORTED_VERSION);
    [reflexivity|apply encodes_u32le; [done|by split]|by constructor|].
  apply encodes_guard; [done|].
  eapply (encodes_step _ _ tensors); [reflexivity|apply encodes_u64le; [done|ulia]|by constructor|].
  eapply (encodes_step _ _ metadata _ _ fp_nil);
    [by rewrite (right_id_L fp_nil fp_app)|apply encodes_u64le; [done|ulia]|by constructor|].
  apply encodes_guard; [apply orb_false_iff; rewrite !Z.ltb_ge; lia|]. apply encodes_ret.
Qed.

(** A metadata row: its key is an identifier of the key grammar, its value is well formed. *)
Record entry_ok (entry : yvex_gguf_metadata_entry) : Prop := EntryOk {
  eo_key : text_ok YVEX_GGUF_MAX_KEY_LEN true true (me_key entry);
  eo_grammar : metadata_key_valid (me_key entry) = true;
  eo_value : value_ok 0 (me_value entry);
}.

Lemma decodes_entry metadata index i :
  index_ok (me_key <$> metadata) index → (S (length metadata) < length index)%nat →
  i = Z.of_nat (length metadata) →
  decodes (parse_metadata_entry artifact options memory metadata index i)
    (λ '(entry, index') t, t = entry_footprint entry ∧ entry_ok entry ∧
       index_ok (me_key <$> (metadata ++ [entry])) index' ∧ length index' = length index).
Proof.
  intros Hok Hroom Hi. unfold parse_metadata_entry.
  eapply decodes_then; [apply decodes_set_record_index|]. intros _ _.
  eapply decodes_bind; [apply decodes_string|]. intros key t0 [-> Hkey].
  apply decodes_guard; [intros; apply decodes_fail|intros Hvalid].
  eapply decodes_then; [apply decodes_name_insert; rewrite ?length_fmap; done|]. intros index' [Hok' Hlen].
  eapply decodes_bind; [apply decodes_u32le|]. intros raw t1 [-> _].
  eapply decodes_then; [apply decodes_value_type|]. intros type [_ ->].
  eapply decodes_bind; [apply decodes_value|]. intros value t2 (-> & Hv & <-). apply decodes_ret.
  rewrite (right_id_L fp_nil fp_app), fmap_app. split_and!; [done| |done..].
  constructor; cbn; [done|by apply negb_false_iff in Hvalid|done].
Qed.

Lemma decodes_metadata_loop n metadata index :
  index_ok (me_key <$> metadata) index → (length metadata + n < length index)%nat →
  decodes (parse_metadata_loop artifact options memory n metadata index)
    (λ '(entries, index') t, ∃ rows, entries = metadata ++ rows ∧ length rows = n ∧
       t = fp_concat (entry_footprint <$> rows) ∧ Forall entry_ok rows ∧
       index_ok (me_key <$> entries) index').
Proof.
  revert metadata index. induction n as [|n IH]; intros metadata index Hok Hroom; cbn [parse_metadata_loop].
  - apply decodes_ret. exists []. rewrite app_nil_r. by split_and!.
  - eapply decodes_bind; [apply decodes_entry; [done|lia|done]|]. intros [entry index'] t (-> & He & Hok' & Hl).
    eapply decodes_weaken; [apply IH; [done|rewrite length_app; cbn; lia]|].
    intros [entries index''] t' (rows & -> & Hn & -> & Hrows & Hok''). exists (entry :: rows).
    rewrite <- (assoc_L (++)). split_and!; [done|cbn; lia|done|by constructor|].
    by rewrite <- (assoc_L (++)) in Hok''.
Qed.

(** The index a table ends with. *)
Definition table_index (names : list (list Z)) (index : yvex_name_index) : Prop :=
  (names = [] → index = []) ∧ (names ≠ [] → index_ok names index).

Lemma decodes_metadata header :
  header_ok header →
  decodes (parse_metadata artifact options memory header)
    (λ '(entries, index) t, t = table_footprint sizeof_metadata_entry entry_footprint entries ∧
       Z.of_nat (length entries) = hd_metadata_count header ∧ Forall entry_ok entries ∧
       table_index (me_key <$> entries) index).
Proof.
  intros [_ Hcount _]. unfold parse_metadata. cbv zeta. set (count := hd_metadata_count header) in *.
  eapply decodes_then; [apply decodes_set_section|]. intros _ _.
  apply decodes_guard; intros Hz.
  { apply Z.eqb_eq in Hz. apply decodes_ret. split_and!; [by apply footprint_eq|cbn; lia|done|done]. }
  apply Z.eqb_neq in Hz. apply decodes_guard; [intros; apply decodes_fail|intros _].
  eapply decodes_bind; [apply decodes_reserve_owned; unfold sizeof_metadata_entry; lia|]. intros _ t0 ->.
  eapply decodes_then; [apply decodes_allocate|]. intros _ _.
  eapply decodes_bind; [apply decodes_name_index_allocate; lia|]. intros index t1 (-> & _ & Hindex).
  destruct (Hindex Hz) as [Hok Hroom].
  eapply decodes_bind; [apply decodes_metadata_loop; [done|cbn; lia]|].
  intros [entries index'] t2 (rows & -> & Hn & -> & Hrows & Hok').
  eapply decodes_then; [apply decodes_set_record_index|]. intros _ _. apply decodes_ret. cbn [app] in *.
  rewrite (right_id_L fp_nil fp_app). split_and!; [|lia|done|].
  - unfold table_footprint. replace (Z.of_nat (length rows)) with count by lia.
    apply footprint_eq; fp_simpl; (done || lia).
  - split; [|done]. intros ->%fmap_nil_inv. cbn in Hn. lia.
Qed.

Lemma entry_footprint_nonneg entry : fp_nonneg (entry_footprint entry).
Proof.
  apply fp_app_nonneg; [constructor; fp_simpl; lia|]. apply fp_app_nonneg; [done|]. apply value_footprint_nonneg.
Qed.

Lemma encodes_entry metadata index i entry :
  reads_all artifact → (∀ n, memory n = true) →
  index_ok (me_key <$> metadata) index → (S (length metadata) < length index)%nat →
  i = Z.of_nat (length metadata) → entry_ok entry → me_key entry ∉ me_key <$> metadata →
  ∃ index', encodes (parse_metadata_entry artifact options memory metadata index i) (entry, index')
      (entry_footprint entry) ∧
    index_ok (me_key <$> (metadata ++ [entry])) index' ∧ length index' = length index.
Proof.
  intros Hall Hm Hok Hroom Hi [Hkey Hvalid Hv] Hnew.
  destruct (encodes_name_insert YVEX_GGUF_PARSE_DUPLICATE_METADATA_KEY YVEX_GGUF_PARSE_SECTION_METADATA
    "duplicate GGUF metadata key" _ index (me_key entry) i Hok) as (index' & Hins & Hok' & Hlen);
    [by rewrite length_fmap|by rewrite length_fmap|done|].
  exists index'. rewrite fmap_app. split; [|done]. unfold parse_metadata_entry, entry_footprint.
  pose proof (value_footprint_nonneg (me_value entry)) as Hn.
  assert (Hn' : fp_nonneg (fp_app (fp_raw (le_bytes 4 (value_type_code
    (yvex_gguf_value_type_of (Some (me_value entry)))))) (value_footprint (me_value entry))))
    by by apply fp_app_nonneg.
  eapply (encodes_then _ _ tt); [apply encodes_set_record_index| |].
  2:{ apply fp_app_nonneg; [constructor; fp_simpl; lia|done]. }
  eapply (encodes_step _ _ (me_key entry)); [reflexivity|by apply encodes_string|done|].
  apply encodes_guard; [by apply negb_false_iff|].
  eapply encodes_then; [exact Hins| |done].
  assert (Htype : yvex_gguf_value_type_of (Some (me_value entry)) ≠ YVEX_GGUF_VALUE_INVALID).
  { destruct Hv; cbn; try done; congruence || (intros ->; cbn in *; congruence). }
  eapply (encodes_step _ _ (value_type_code (yvex_gguf_value_type_of (Some (me_value entry)))));
    [reflexivity| |done|].
  { apply encodes_u32le; [done|]. destruct (yvex_gguf_value_type_of _); cbn; ulia. }
  eapply encodes_then; [by apply encodes_value_type| |done].
  eapply (encodes_step _ _ (me_value entry) _ _ fp_nil); [by rewrite (right_id_L fp_nil fp_app)| |done|].
  { apply encodes_value; [done..|]. destruct Hoptions as (_ & _ & _ & _ & _ & _ & _ & _ & Hd). ulia. }
  destruct entry. apply encodes_ret.
Qed.

Lemma encodes_metadata_loop rows metadata index :
  reads_all artifact → (∀ n, memory n = true) →
  index_ok (me_key <$> metadata) index → (length metadata + length rows < length index)%nat →
  Forall entry_ok rows → NoDup (me_key <$> (metadata ++ rows)) →
  ∃ index', encodes (parse_metadata_loop artifact options memory (length rows) metadata index)
    (metadata ++ rows, index') (fp_concat (entry_footprint <$> rows)).
Proof.
  intros Hall Hm. revert metadata index. induction rows as [|entry rows IH]; intros metadata index Hok Hroom Hrows Hnd;
    cbn [parse_metadata_loop length].
  - exists index. rewrite app_nil_r. apply encodes_ret.
  - apply Forall_cons in Hrows as [He Hrows]. cbn [length] in Hroom.
    destruct (encodes_entry metadata index (Z.of_nat (length metadata)) entry) as (index1 & E1 & Hok1 & Hl1);
      [done|done|done|lia|done|done| |].
    { rewrite fmap_app, fmap_cons in Hnd. apply NoDup_app in Hnd as (_ & Hnd & _).
      intros Hin. apply (Hnd _ Hin). apply list_elem_of_here. }
    destruct (IH (metadata ++ [entry]) index1) as (index2 & E2);
      [done|rewrite length_app; cbn; lia|done|by rewrite <- (assoc_L (++))|].
    rewrite <- (assoc_L (++)) in E2. exists index2.
    eapply (encodes_step _ _ (entry, index1)); [reflexivity|done| |exact E2].
    apply fp_concat_nonneg, Forall_fmap, Forall_true. intros. apply entry_footprint_nonneg.
Qed.

(** The sizes of a table are addressable. *)
Definition table_addressable (row_size count : Z) : Prop :=
  count ≤ SIZE_MAX / row_size ∧ index_cells count ≤ SIZE_MAX / sizeof_slot.

Lemma encodes_metadata header rows :
  reads_all artifact → (∀ n, memory n = true) →
  Z.of_nat (length rows) = hd_metadata_count header →
  table_addressable sizeof_metadata_entry (hd_metadata_count header) →
  Forall entry_ok rows → NoDup (me_key <$> rows) →
  ∃ index, encodes (parse_metadata artifact options memory header) (rows, index)
    (table_footprint sizeof_metadata_entry entry_footprint rows).
Proof.
  intros Hall Hm Hcount [Hsz Hcells] Hrows Hnd. unfold parse_metadata. cbv zeta.
  set (count := hd_metadata_count header) in *.
  assert (Hn : fp_nonneg (fp_concat (entry_footprint <$> rows))).
  { apply fp_concat_nonneg, Forall_fmap, Forall_true. intros. apply entry_footprint_nonneg. }
  assert (Hc0 : 0 ≤ index_cells count).
  { unfold index_cells. split_guard; [done|]. apply Z.pow_nonneg. lia. }
  assert (Ht : fp_nonneg (table_footprint sizeof_metadata_entry entry_footprint rows)).
  { apply fp_app_nonneg; [|done]. rewrite Hcount. constructor; fp_simpl; [lia..|].
    unfold sizeof_metadata_entry, sizeof_slot. lia. }
  destruct (Z.eqb_spec count 0) as [Hz|Hz].
  { destruct rows; [|cbn in Hcount; lia]. exists []. eapply (encodes_then _ _ tt); [apply encodes_set_section| |done].
    replace (table_footprint _ _ _) with fp_nil by done. apply encodes_ret. }
  destruct (encodes_name_index_allocate count) as (index & Hidx & _ & Hfor); [done|lia|done|].
  destruct (Hfor Hz) as [Hok Hroom].
  destruct (encodes_metadata_loop rows [] index) as (index' & Hloop); [done..|cbn; lia|done|done|]. cbn [app] in Hloop.
  exists index'. eapply (encodes_then _ _ tt); [apply encodes_set_section| |done].
  apply encodes_guard; [by apply Z.ltb_ge|].
  assert (Hf : table_footprint sizeof_metadata_entry entry_footprint rows =
    fp_app (fp_memory (count * sizeof_metadata_entry))
      (fp_app (fp_memory (index_cells count * sizeof_slot)) (fp_concat (entry_footprint <$> rows)))).
  { unfold table_footprint. rewrite Hcount. fold count. apply footprint_eq; fp_simpl; (done || lia). }
  assert (Hn1 : fp_nonneg (fp_app (fp_memory (index_cells count * sizeof_slot)) (fp_concat (entry_footprint <$> rows)))).
  { apply fp_app_nonneg; [constructor; fp_simpl; unfold sizeof_slot; lia|done]. }
  eapply (encodes_step _ _ tt); [exact Hf|apply encodes_reserve_owned; unfold sizeof_metadata_entry; lia|done|].
  eapply (encodes_then _ _ tt); [by apply encodes_allocate| |done].
  eapply (encodes_step _ _ index); [reflexivity|exact Hidx|done|].
  eapply (encodes_step _ _ (rows, index') _ _ fp_nil);
    [by rewrite (right_id_L fp_nil fp_app)| |done|].
  { replace (Z.to_nat count) with (length rows) by lia. exact Hloop. }
  eapply (encodes_then _ _ tt); [apply encodes_set_record_index|apply encodes_ret|done].
Qed.

(** ** The alignment *)

Definition alignment_key : list Z := cstr "general.alignment".

(** The alignment the metadata declares, the default without the key; [None] when it is not a
    positive [uint32]. *)
Definition declared_alignment (rows : list yvex_gguf_metadata_entry) : option Z :=
  match list_find (λ row, me_key row = alignment_key) rows with
  | None => Some YVEX_GGUF_DEFAULT_ALIGNMENT
  | Some (_, row) =>
      match me_value row with
      | ValueUnsigned YVEX_GGUF_VALUE_UINT32 v => if 0 <? v then Some v else None
      | _ => None
      end
  end.

(** Finding a key is a linear search. *)
Lemma metadata_find_spec gguf key :
  table_index (me_key <$> gg_metadata gguf) (gg_metadata_index gguf) →
  yvex_gguf_metadata_find gguf (Some key) =
    (λ found, me_value found.2) <$> list_find (λ row, me_key row = cstr key) (gg_metadata gguf).
Proof.
  intros [Hnil Hok]. unfold yvex_gguf_metadata_find. cbn [mbind option_bind].
  destruct (decide (me_key <$> gg_metadata gguf = [])) as [E|Hne].
  - rewrite (Hnil E). apply fmap_nil_inv in E. by rewrite E.
  - rewrite name_index_find_spec, list_find_fmap by auto.
    change ((λ prior, prior = cstr key) ∘ me_key) with (λ row, me_key row = cstr key).
    destruct (list_find _ _) as [[i row]|] eqn:E; [|done]. cbn.
    apply list_find_Some in E as (E & _). by rewrite array_get_nat, E.
Qed.

Lemma entry_unsigned_range row v :
  entry_ok row → me_value row = ValueUnsigned YVEX_GGUF_VALUE_UINT32 v → is_u32 v.
Proof.
  intros [_ _ Hv] E. rewrite E in Hv. inversion Hv as [? ? n ? ? Hs Hr| | | | |]; subst.
  injection Hs as <- _. change (2 ^ (Z.of_nat 4 * 8)) with 4294967296 in Hr. ulia.
Qed.

Lemma derive_alignment_eq gguf :
  table_index (me_key <$> gg_metadata gguf) (gg_metadata_index gguf) →
  Forall entry_ok (gg_metadata gguf) →
  match declared_alignment (gg_metadata gguf) with
  | Some alignment => derive_alignment gguf = parse_ret alignment ∧ 0 < alignment ∧ is_u32 alignment
  | None => ∀ R, decodes (derive_alignment gguf) R
  end.
Proof.
  intros Hindex Hrows. unfold derive_alignment, declared_alignment. rewrite metadata_find_spec by done.
  fold alignment_key. destruct (list_find _ _) as [[i row]|] eqn:E; [|by split_and!].
  apply list_find_Some in E as (E & _). pose proof (Forall_lookup_1 _ _ _ _ Hrows E) as Hrow. cbn.
  assert (Hinv : ∀ (A : Type) (p : parser A) R, p = (parse _ <- set_section YVEX_GGUF_PARSE_SECTION_METADATA ;
      cursor_fail YVEX_GGUF_PARSE_INVALID_ALIGNMENT YVEX_GGUF_PARSE_SECTION_METADATA
        "general.alignment must be uint32 and nonzero") → decodes p R) by (intros A p R -> c a c' _; done).
  destruct (me_value row) as [[] v|[]|[]| | |] eqn:Ev; try (intros R; by apply Hinv).
  pose proof (entry_unsigned_range row v Hrow Ev) as Hv. cbn.
  destruct (Z.ltb_spec 0 v).
  - rewrite (proj2 (orb_false_iff _ _)) by (rewrite Z.eqb_neq, Z.ltb_ge; ulia).
    by rewrite u32_id.
  - intros R. apply Hinv. by rewrite (proj2 (orb_true_iff _ _)) by (left; apply Z.eqb_eq; ulia).
Qed.

Lemma round_up_remainder offset alignment :
  0 < alignment →
  offset + (if offset mod alignment =? 0 then 0 else alignment - offset mod alignment) =
    round_up alignment offset.
Proof.
  intros Ha. unfold round_up. pose proof (Z.div_mod offset alignment ltac:(lia)) as Hd.
  pose proof (Z.mod_pos_bound offset alignment Ha) as Hm.
  set (q := offset / alignment) in *. set (r := offset mod alignment) in *. clearbody q r. subst offset.
  destruct (Z.eqb_spec r 0) as [->|Hr].
  - replace (alignment * q + 0 + alignment - 1) with (alignment - 1 + q * alignment) by lia.
    rewrite Z.div_add, Z.div_small by lia. lia.
  - replace (alignment * q + r + alignment - 1) with (r - 1 + (q + 1) * alignment) by lia.
    rewrite Z.div_add, Z.div_small by lia. lia.
Qed.

Lemma align_offset_eq offset alignment :
  0 < alignment → 0 ≤ offset →
  if round_up alignment offset <=? ULLONG_MAX
  then align_offset offset alignment = parse_ret (round_up alignment offset)
  else ∀ R, decodes (align_offset offset alignment) R.
Proof.
  intros Ha Ho. unfold align_offset. rewrite (proj2 (Z.eqb_neq _ _)) by lia. cbv zeta.
  rewrite <- round_up_remainder by done.
  pose proof (Z.mod_pos_bound offset alignment Ha) as Hm.
  set (padding := if _ =? 0 then _ else _).
  destruct (Z.leb_spec (offset + padding) ULLONG_MAX).
  - by rewrite (proj2 (Z.ltb_ge _ _)) by lia.
  - rewrite (proj2 (Z.ltb_lt _ _)) by lia. intros R. apply decodes_fail.
Qed.

(** ** Tensors *)

(** The declared part of a tensor row; [ti_absolute_offset] and what follows from it come later. *)
Record tensor_declared (alignment : Z) (tensor : yvex_gguf_tensor_info) : Prop := TensorDeclared {
  td_name : text_ok YVEX_GGUF_MAX_TENSOR_NAME_LEN true true (ti_name tensor);
  td_rank : 1 ≤ ti_rank tensor ≤ YVEX_GGUF_MAX_DIMS;
  td_dims : ∃ dims, ti_dims tensor = dims ++ replicate (Z.to_nat (YVEX_GGUF_MAX_DIMS - ti_rank tensor)) 0 ∧
    Z.of_nat (length dims) = ti_rank tensor ∧ Forall (λ d, 0 < d ∧ is_u64 d) dims;
  td_type : is_u32 (ti_ggml_type tensor) ∧ ti_ggml_type_name tensor = yvex_gguf_qtype_name (ti_ggml_type tensor);
  td_storage : st_status (yvex_gguf_qtype_tensor_storage (ti_ggml_type tensor) (Some (ti_dims tensor))
      (ti_rank tensor)) = YVEX_GGUF_QTYPE_STORAGE_OK ∧
    ti_storage_bytes tensor = st_total_bytes (yvex_gguf_qtype_tensor_storage (ti_ggml_type tensor)
      (Some (ti_dims tensor)) (ti_rank tensor));
  td_offset : is_u64 (ti_relative_offset tensor) ∧ ti_relative_offset tensor mod alignment = 0;
}.

Lemma tensor_footprint_split name rank dims rest type type_name relative absolute storage final addressable :
  Z.of_nat (length dims) = rank →
  tensor_footprint (TensorInfo name rank (dims ++ rest) type type_name relative absolute storage final addressable) =
  fp_app (string_footprint name) (fp_app (fp_raw (le_bytes 4 rank))
    (fp_app (fp_concat ((λ d, fp_raw (le_bytes 8 d)) <$> dims))
      (fp_app (fp_raw (le_bytes 4 type)) (fp_raw (le_bytes 8 relative))))).
Proof.
  intros Hl. unfold tensor_footprint. cbn [ti_name ti_rank ti_dims ti_ggml_type ti_relative_offset].
  replace (Z.to_nat rank) with (length dims) by lia. rewrite take_app_length. f_equal.
  assert (Hz : ∀ (f : footprint → Z), f fp_nil = 0 → (∀ s t, f (fp_app s t) = f s + f t) →
    (∀ b, f (fp_raw b) = 0) → f (fp_concat ((λ d, fp_raw (le_bytes 8 d)) <$> dims)) = 0).
  { intros f H0 Ha Hr. clear Hl. induction dims as [|d l IH]; [done|]. rewrite fmap_cons, fp_concat_cons, Ha, Hr, IH. done. }
  apply footprint_eq; fp_simpl; rewrite ?Hz by done; try lia. by rewrite fp_concat_bytes.
Qed.

Lemma tensor_footprint_nonneg tensor : fp_nonneg (tensor_footprint tensor).
Proof. apply fp_app_nonneg; [constructor; fp_simpl; lia|done]. Qed.

Lemma decodes_dimension i :
  decodes (parse_dimension artifact options i) (λ d t, t = fp_raw (le_bytes 8 d) ∧ 0 < d ∧ is_u64 d).
Proof.
  unfold parse_dimension. eapply decodes_bind; [apply decodes_u64le|]. intros d t [-> Hd].
  apply decodes_guard; [intros; apply decodes_fail|intros Hz]. apply Z.eqb_neq in Hz. apply decodes_ret.
  rewrite (right_id_L fp_nil fp_app). split_and!; [done|ulia|done].
Qed.

Lemma decodes_tensor alignment tensors index i :
  index_ok (ti_name <$> tensors) index → (S (length tensors) < length index)%nat →
  i = Z.of_nat (length tensors) →
  decodes (parse_tensor artifact options memory alignment tensors index i)
    (λ '(tensor, index') t, t = tensor_footprint tensor ∧ tensor_declared alignment tensor ∧
       index_ok (ti_name <$> (tensors ++ [tensor])) index' ∧ length index' = length index).
Proof.
  intros Hok Hroom Hi. unfold parse_tensor. eapply decodes_then; [apply decodes_set_record_index|]. intros _ _.
  eapply decodes_bind; [apply decodes_string|]. intros name t0 [-> Hname].
  eapply decodes_then; [apply decodes_name_insert; rewrite ?length_fmap; done|]. intros index' [Hok' Hlen].
  eapply decodes_bind; [apply decodes_u32le|]. intros rank t1 [-> Hrank].
  apply decodes_guard; [intros; apply decodes_fail|intros Grank].
  eapply decodes_bind; [by apply (decodes_times _ (λ d, 0 < d ∧ is_u64 d)); intros; apply decodes_dimension|].
  intros dims t2 (-> & Hdl & Hdims). cbv zeta.
  eapply decodes_bind; [apply decodes_u32le|]. intros type t3 [-> Htype].
  set (row := dims ++ replicate _ 0). set (storage := yvex_gguf_qtype_tensor_storage _ _ _).
  apply decodes_guard; [intros _ c a c' _; done|intros Hst].
  eapply decodes_then; [apply decodes_set_section|]. intros _ _.
  eapply decodes_bind; [apply decodes_u64le|]. intros relative t4 [-> Hrel].
  apply decodes_guard; [intros; apply decodes_fail|intros Halign]. guards. apply decodes_ret.
  rewrite (right_id_L fp_nil fp_app). rewrite fmap_app. split_and!; [|constructor; cbn|done|done].
  - symmetry. apply tensor_footprint_split. ulia.
  - done.
  - ulia.
  - exists dims. split_and!; [done|ulia|done].
  - done.
  - done.
  - done.
Qed.

Lemma decodes_tensor_loop n alignment tensors index :
  index_ok (ti_name <$> tensors) index → (length tensors + n < length index)%nat →
  decodes (parse_tensor_loop artifact options memory n alignment tensors index)
    (λ '(rows', index') t, ∃ rows, rows' = tensors ++ rows ∧ length rows = n ∧
       t = fp_concat (tensor_footprint <$> rows) ∧ Forall (tensor_declared alignment) rows ∧
       index_ok (ti_name <$> rows') index').
Proof.
  revert tensors index. induction n as [|n IH]; intros tensors index Hok Hroom; cbn [parse_tensor_loop].
  - apply decodes_ret. exists []. rewrite app_nil_r. by split_and!.
  - eapply decodes_bind; [apply decodes_tensor; [done|lia|done]|]. intros [tensor index'] t (-> & He & Hok' & Hl).
    eapply decodes_weaken; [apply IH; [done|rewrite length_app; cbn; lia]|].
    intros [entries index''] t' (rows & -> & Hn & -> & Hrows & Hok''). exists (tensor :: rows).
    rewrite <- (assoc_L (++)). split_and!; [done|cbn; lia|done|by constructor|].
    by rewrite <- (assoc_L (++)) in Hok''.
Qed.

(** The row with its absolute range. *)
Definition place (base : Z) (tensor : yvex_gguf_tensor_info) : yvex_gguf_tensor_info :=
  tensor <| ti_absolute_offset := base + ti_relative_offset tensor |>
         <| ti_absolute_end_offset := base + ti_relative_offset tensor + ti_storage_bytes tensor |>
         <| ti_range_addressable :=
              base + ti_relative_offset tensor + ti_storage_bytes tensor <=? ar_size artifact |>.

Definition place_fits (base : Z) (tensor : yvex_gguf_tensor_info) : Prop :=
  base + ti_relative_offset tensor + ti_storage_bytes tensor ≤ ULLONG_MAX.

Lemma decodes_place_tensors base tensors i :
  decodes (place_tensors artifact base tensors i)
    (λ rows t, (rows = place base <$> tensors ∧ Forall (place_fits base) tensors) ∧ t = fp_nil).
Proof.
  revert i. induction tensors as [|tensor tensors IH]; intros i; cbn [place_tensors].
  - by apply decodes_ret.
  - eapply (decodes_then _ _ (λ row, row = place base tensor ∧ place_fits base tensor)).
    + unfold place_tensor. eapply decodes_then; [apply decodes_set_record_index|]. intros _ _.
      apply decodes_guard; [intros; apply decodes_fail|intros _]. cbv zeta.
      apply decodes_guard; [intros; apply decodes_fail|intros Hfits]. apply decodes_ret. split; [|done].
      split; [done|]. unfold place_fits. guards. lia.
    + intros row [-> Hfits]. eapply decodes_then; [apply IH|]. intros rows [-> Hall]. apply decodes_ret.
      split; [|done]. split; [done|]. by constructor.
Qed.

Lemma encodes_place_tensors base tensors i :
  Forall (λ tensor, place_fits base tensor ∧ 0 ≤ ti_storage_bytes tensor) tensors →
  encodes (place_tensors artifact base tensors i) (place base <$> tensors) fp_nil.
Proof.
  intros Hall. revert i. induction Hall as [|tensor tensors [Hfits Hst] _ IH]; intros i; cbn [place_tensors];
    [apply encodes_ret|].
  eapply (encodes_then _ _ (place base tensor)); [| |done].
  - unfold place_tensor. eapply (encodes_then _ _ tt); [apply encodes_set_record_index| |done]. unfold place_fits in Hfits.
    apply encodes_guard; [apply Z.ltb_ge; lia|]. cbv zeta.
    apply encodes_guard; [apply Z.ltb_ge; lia|]. apply encodes_ret.
  - eapply encodes_then; [apply IH|apply encodes_ret|done].
Qed.

(** The stages after the directory has been read: they consume nothing and record its end. *)
Definition directory_end (alignment : Z) {B} (k : Z → parser B) : parser B :=
  parse offset <- get_offset ;
  parse _ <- modify_stats (λ s, s <| rs_directory_end_offset := offset |>) ;
  k offset.

Lemma directory_end_run {B} alignment (k : Z → parser B) c :
  directory_end alignment k c = k (fc_offset c) (c <| fc_stats ::= λ s, s <| rs_directory_end_offset := fc_offset c |> |>).
Proof. done. Qed.

Lemma parse_bind_eq {A B} (p : parser A) (f : A → parser B) a : p = parse_ret a → parse_bind p f = f a.
Proof. by intros ->. Qed.

(** A run that also recorded the end of the directory. *)
Definition with_directory_end (n : Z) (c : yvex_file_cursor) : yvex_file_cursor :=
  c <| fc_stats ::= λ s, s <| rs_directory_end_offset := n |> |>.

Lemma advanced_directory_end c t c' n :
  advanced file c t c' → advanced file (with_directory_end n c) t (with_directory_end n c').
Proof. intros []. by constructor. Qed.

Lemma ok_directory_end n c : cursor_ok artifact options c → cursor_ok artifact options (with_directory_end n c).
Proof. intros []. by constructor. Qed.

(** The result of the tensor stage. *)
Record tensor_stage (header : yvex_gguf_header) (alignment : Z) (offset : Z) (rows : list yvex_gguf_tensor_info)
    (tensors : list yvex_gguf_tensor_info) (index : yvex_name_index) (base : Z) : Prop := TensorStage {
  ts_count : Z.of_nat (length rows) = hd_tensor_count header;
  ts_declared : Forall (tensor_declared alignment) rows;
  ts_placed : tensors = place base <$> rows;
  ts_fits : Forall (place_fits base) rows;
  ts_index : table_index (ti_name <$> rows) index;
  ts_base : base = round_up alignment offset;
  ts_address : base ≤ ULLONG_MAX;
  ts_inside : rows ≠ [] → base ≤ ar_size artifact;
}.

Lemma place_stage_sound header alignment rows index c tensors index' base c' :
  cursor_ok artifact options c → 0 < alignment → Z.of_nat (length rows) = hd_tensor_count header →
  Forall (tensor_declared alignment) rows → index_ok (ti_name <$> rows) index → rows ≠ [] →
  (parse offset <- get_offset ;
   parse _ <- modify_stats (λ s, s <| rs_directory_end_offset := offset |>) ;
   parse _ <- set_section YVEX_GGUF_PARSE_SECTION_RANGE ;
   parse _ <- set_record_index ULLONG_MAX ;
   parse tensor_data_offset <- align_offset offset alignment ;
   unless_ yvex_artifact_size (Some artifact) <? tensor_data_offset
     fail YVEX_GGUF_PARSE_INCOMPLETE_DIRECTORY YVEX_GGUF_PARSE_SECTION_RANGE
       "GGUF tensor-data boundary exceeds file size";
   parse tensors <- place_tensors artifact tensor_data_offset rows 0 ;
   parse _ <- set_record_index ULLONG_MAX ;
   parse_ret (tensors, index, tensor_data_offset)) c = Parsed (tensors, index', base) c' →
  cursor_ok artifact options c' ∧ advanced file (with_directory_end (fc_offset c) c) fp_nil c' ∧
  tensor_stage header alignment (fc_offset c) rows tensors index' base.
Proof.
  intros Hc Ha Hcount Hrows Hidx Hne. set (offset := fc_offset c).
  intros Hrun. unfold parse_bind at 1, get_offset in Hrun. fold offset in Hrun.
  unfold parse_bind at 1, modify_stats in Hrun. fold (with_directory_end offset c) in Hrun.
  assert (Hd : decodes (parse _ <- set_section YVEX_GGUF_PARSE_SECTION_RANGE ;
     parse _ <- set_record_index ULLONG_MAX ;
     parse tensor_data_offset <- align_offset offset alignment ;
     unless_ yvex_artifact_size (Some artifact) <? tensor_data_offset
       fail YVEX_GGUF_PARSE_INCOMPLETE_DIRECTORY YVEX_GGUF_PARSE_SECTION_RANGE
         "GGUF tensor-data boundary exceeds file size";
     parse tensors <- place_tensors artifact tensor_data_offset rows 0 ;
     parse _ <- set_record_index ULLONG_MAX ;
     parse_ret (tensors, index, tensor_data_offset))
    (λ '(tensors, index', base) t, tensor_stage header alignment offset rows tensors index' base ∧ t = fp_nil)).
  { eapply decodes_then; [apply decodes_set_section|]. intros _ _.
    eapply decodes_then; [apply decodes_set_record_index|]. intros _ _.
    pose proof (align_offset_eq offset alignment Ha (proj1 (co_offset _ _ _ Hc))) as Hal.
    destruct (Z.leb_spec (round_up alignment offset) ULLONG_MAX).
    2:{ eapply decodes_bind; [apply (Hal (λ _ _, False))|done]. }
    rewrite (parse_bind_eq _ _ _ Hal). apply decodes_guard; [intros; apply decodes_fail|intros Hsz].
    eapply decodes_then; [apply decodes_place_tensors|]. intros placed [-> Hfits].
    eapply decodes_then; [apply decodes_set_record_index|]. intros _ _. apply decodes_ret. split; [|done].
    constructor; try done.
    - split; [|done]. intros E%fmap_nil_inv. done.
    - intros _. by apply Z.ltb_ge in Hsz. }
  destruct (Hd _ _ _ (ok_directory_end offset c Hc) Hrun) as (Hc' & t & Hat & Hst & ->). done.
Qed.

Lemma parse_tensors_sound header alignment c tensors index base c' :
  cursor_ok artifact options c → header_ok header → 0 < alignment →
  parse_tensors artifact options memory header alignment c = Parsed (tensors, index, base) c' →
  cursor_ok artifact options c' ∧ ∃ rows,
    rs_directory_end_offset (fc_stats c') = fc_offset c' ∧
    advanced file (with_directory_end (fc_offset c') c)
      (table_footprint sizeof_tensor_info tensor_footprint rows) c' ∧
    tensor_stage header alignment (fc_offset c') rows tensors index base.
Proof.
  intros Hc [_ _ Hcount] Ha. unfold parse_tensors. cbv zeta. set (count := hd_tensor_count header) in *.
  destruct (Z.eqb_spec count 0) as [Hz|Hz].
  - intros Hrun. unfold parse_bind at 1, set_section in Hrun. unfold parse_bind at 1, get_offset in Hrun.
    cbn [fc_offset set_field file_cursor_eta eta_expand] in Hrun.
    pose proof (align_offset_eq (fc_offset c) alignment Ha (proj1 (co_offset _ _ _ Hc))) as Hal.
    unfold parse_bind at 1, modify_stats in Hrun.
    destruct (Z.leb_spec (round_up alignment (fc_offset c)) ULLONG_MAX).
    + rewrite (parse_bind_eq _ _ _ Hal) in Hrun. injection Hrun as <- <- <- <-.
      split; [by destruct Hc|]. exists []. split; [done|]. split; [by apply advanced_nil|].
      constructor; try done.
    + apply (decodes_bind _ _ (λ _ _, False) (λ _ _, False)) in Hrun as (_ & ? & _ & []); [apply Hal|done|].
      by destruct Hc.
  - intros (u & c0 & H0 & Hrun)%parse_bind_inv. apply decodes_set_section in H0 as (Hc0 & t0 & A0 & _ & ->); [|done].
    revert Hrun. split_guard; [done|].
    intros (u1 & c1 & Hp1 & (u2 & c2 & Hp2 & (idx & c3 & Hp3 & ([rows idx'] & c4 & Hp4 & Hrun)%parse_bind_inv)%parse_bind_inv)%parse_bind_inv)%parse_bind_inv.
    apply decodes_reserve_owned in Hp1 as (Hc1 & t1 & A1 & ->); [|unfold sizeof_tensor_info; lia|done].
    apply decodes_allocate in Hp2 as (Hc2 & t2 & A2 & _ & ->); [|done].
    apply decodes_name_index_allocate in Hp3 as (Hc3 & t3 & A3 & -> & _ & Hfor); [|lia|done].
    destruct (Hfor Hz) as [Hok Hroom].
    apply decodes_tensor_loop in Hp4 as (Hc4 & t4 & A4 & rows' & Hrows & Hlen & -> & Hdecl & Hok'); [|done|cbn; lia|done].
    cbn [app] in Hrows. subst rows'. apply (place_stage_sound header) in Hrun as (Hc' & Ad & Hst); [|done|done|lia|done|done|].
    2:{ intros ->. cbn in Hlen. lia. }
    pose proof (ad_offset _ _ _ _ Ad) as Ho. cbn in Ho. rewrite Z.add_0_r in Ho. rewrite <- Ho in Hst, Ad.
    split; [done|]. exists rows. split; [by rewrite (ad_directory_end _ _ _ _ Ad)|]. split; [|done].
    pose proof (proj1 (co_offset _ _ _ Hc)) as Hnn.
    pose proof (advanced_app _ _ _ _ _ Hnn A0 A1) as B1. pose proof (advanced_app _ _ _ _ _ Hnn B1 A2) as B2.
    pose proof (advanced_app _ _ _ _ _ Hnn B2 A3) as B3. pose proof (advanced_app _ _ _ _ _ Hnn B3 A4) as B4.
    apply (advanced_directory_end _ _ _ (fc_offset c')) in B4.
    pose proof (advanced_app (with_directory_end (fc_offset c') c) _ _ _ _ Hnn B4 Ad) as B5.
    match type of B5 with advanced _ _ ?t _ => replace (table_footprint _ _ _) with t; [exact B5|] end.
    unfold table_footprint. replace (Z.of_nat (length rows)) with count by lia.
    apply footprint_eq; fp_simpl; rewrite ?app_nil_r; (done || lia).
Qed.

Lemma encodes_dimension i d :
  reads_all artifact → 0 < d → is_u64 d → encodes (parse_dimension artifact options i) d (fp_raw (le_bytes 8 d)).
Proof.
  intros Hall Hd Hu. unfold parse_dimension.
  eapply (encodes_step _ _ d _ _ fp_nil); [by rewrite (right_id_L fp_nil fp_app)|by apply encodes_u64le|done|].
  apply encodes_guard; [apply Z.eqb_neq; lia|]. apply encodes_ret.
Qed.

(** The row as the directory loop leaves it. *)
Definition unplaced (tensor : yvex_gguf_tensor_info) : yvex_gguf_tensor_info :=
  tensor <| ti_absolute_offset := 0 |> <| ti_absolute_end_offset := 0 |> <| ti_range_addressable := false |>.

Lemma encodes_tensor alignment tensors index i tensor :
  reads_all artifact → (∀ n, memory n = true) →
  index_ok (ti_name <$> tensors) index → (S (length tensors) < length index)%nat →
  i = Z.of_nat (length tensors) → tensor_declared alignment tensor → ti_name tensor ∉ ti_name <$> tensors →
  ∃ index', encodes (parse_tensor artifact options memory alignment tensors index i) (unplaced tensor, index')
      (tensor_footprint tensor) ∧
    index_ok (ti_name <$> (tensors ++ [unplaced tensor])) index' ∧ length index' = length index.
Proof.
  intros Hall Hm Hok Hroom Hi [Hname Hrank (dims & Hdims & Hdl & Hpos) [Htype Htn] [Hst Hsb] [Hrel Hal]] Hnew.
  destruct tensor as [name rank row type type_name relative absolute storage final addressable].
  cbn [ti_name ti_rank ti_dims ti_ggml_type ti_ggml_type_name ti_storage_bytes ti_relative_offset] in *. subst row type_name.
  unfold YVEX_GGUF_MAX_DIMS in Hrank.
  destruct (encodes_name_insert YVEX_GGUF_PARSE_DUPLICATE_TENSOR_NAME YVEX_GGUF_PARSE_SECTION_TENSOR_INFO
    "duplicate GGUF tensor name" _ index name i Hok) as (index' & Hins & Hok' & Hlen);
    [by rewrite length_fmap|by rewrite length_fmap|done|].
  exists index'. rewrite fmap_app. split; [|done]. unfold parse_tensor. rewrite tensor_footprint_split by done.
  assert (Hn1 : fp_nonneg (fp_concat ((λ d, fp_raw (le_bytes 8 d)) <$> dims))).
  { apply fp_concat_nonneg, Forall_fmap, Forall_true. done. }
  assert (Hn2 : fp_nonneg (fp_app (fp_concat ((λ d, fp_raw (le_bytes 8 d)) <$> dims))
    (fp_app (fp_raw (le_bytes 4 type)) (fp_raw (le_bytes 8 relative))))) by (apply fp_app_nonneg; [done|by constructor]).
  assert (Hn3 : fp_nonneg (fp_app (fp_raw (le_bytes 4 rank)) (fp_app (fp_concat ((λ d, fp_raw (le_bytes 8 d)) <$> dims))
    (fp_app (fp_raw (le_bytes 4 type)) (fp_raw (le_bytes 8 relative)))))) by by apply fp_app_nonneg.
  eapply (encodes_then _ _ tt); [apply encodes_set_record_index| |].
  2:{ apply fp_app_nonneg; [constructor; fp_simpl; lia|done]. }
  eapply (encodes_step _ _ name); [reflexivity|by apply encodes_string|done|].
  eapply encodes_then; [exact Hins| |done].
  eapply (encodes_step _ _ rank); [reflexivity|apply encodes_u32le; [done|ulia]|done|].
  apply encodes_guard; [apply orb_false_iff; unfold YVEX_GGUF_MAX_DIMS; rewrite Z.eqb_neq, Z.ltb_ge; lia|].
  eapply (encodes_step _ _ dims); [reflexivity| |by constructor|].
  { replace (Z.to_nat rank) with (length dims) by lia.
    apply (encodes_times _ (λ d, fp_raw (le_bytes 8 d))). eapply Forall_impl; [exact Hpos|].
    intros d [Hd Hu]. split; [done|]. intros j. by apply encodes_dimension. }
  cbv zeta. eapply (encodes_step _ _ type); [reflexivity|by apply encodes_u32le|done|].
  apply encodes_guard; [apply negb_false_iff; by apply bool_decide_eq_true|].
  eapply (encodes_then _ _ tt); [apply encodes_set_section| |done].
  eapply (encodes_step _ _ relative _ _ fp_nil);
    [by rewrite (right_id_L fp_nil fp_app)|by apply encodes_u64le|done|].
  apply encodes_guard; [apply negb_false_iff; by apply Z.eqb_eq|].
  match goal with |- encodes _ ?r _ => replace r with
    (TensorInfo name rank (dims ++ replicate (Z.to_nat (YVEX_GGUF_MAX_DIMS - rank)) 0) type
       (yvex_gguf_qtype_name type) relative 0 (st_total_bytes (yvex_gguf_qtype_tensor_storage type
         (Some (dims ++ replicate (Z.to_nat (YVEX_GGUF_MAX_DIMS - rank)) 0)) rank)) 0 false, index')
    by (rewrite <- Hsb; done) end.
  apply encodes_ret.
Qed.

Lemma encodes_tensor_loop alignment rows tensors index :
  reads_all artifact → (∀ n, memory n = true) →
  index_ok (ti_name <$> tensors) index → (length tensors + length rows < length index)%nat →
  Forall (tensor_declared alignment) rows → NoDup (ti_name <$> (tensors ++ rows)) →
  ∃ index', encodes (parse_tensor_loop artifact options memory (length rows) alignment tensors index)
    (tensors ++ (unplaced <$> rows), index') (fp_concat (tensor_footprint <$> rows)).
Proof.
  intros Hall Hm. revert tensors index. induction rows as [|tensor rows IH]; intros tensors index Hok Hroom Hrows Hnd;
    cbn [parse_tensor_loop length].
  - exists index. rewrite app_nil_r. apply encodes_ret.
  - apply Forall_cons in Hrows as [He Hrows]. cbn [length] in Hroom.
    destruct (encodes_tensor alignment tensors index (Z.of_nat (length tensors)) tensor) as (index1 & E1 & Hok1 & Hl1);
      [done|done|done|lia|done|done| |].
    { rewrite fmap_app, fmap_cons in Hnd. apply NoDup_app in Hnd as (_ & Hnd & _).
      intros Hin. apply (Hnd _ Hin). apply list_elem_of_here. }
    destruct (IH (tensors ++ [unplaced tensor]) index1) as (index2 & E2);
      [done|rewrite length_app; cbn; lia|done|by rewrite !fmap_app, <- (assoc_L (++)) in *|].
    rewrite <- (assoc_L (++)) in E2. exists index2.
    eapply (encodes_step _ _ (unplaced tensor, index1)); [reflexivity|done| |exact E2].
    apply fp_concat_nonneg, Forall_fmap, Forall_true. intros. apply tensor_footprint_nonneg.
Qed.

Lemma declared_ranges alignment tensor :
  tensor_declared alignment tensor →
  is_u32 (ti_ggml_type tensor) ∧ is_u32 (ti_rank tensor) ∧ ti_rank tensor ≤ Z.of_nat (length (ti_dims tensor)) ∧
  Forall is_u64 (ti_dims tensor) ∧ is_u64 (ti_relative_offset tensor) ∧ 0 < ti_storage_bytes tensor ≤ ULLONG_MAX.
Proof.
  intros [_ Hrank (dims & Hdims & Hdl & Hpos) [Htype _] [Hst Hsb] [Hrel _]]. unfold YVEX_GGUF_MAX_DIMS in *.
  assert (Hu : Forall is_u64 (ti_dims tensor)).
  { rewrite Hdims. apply Forall_app. split; [eapply Forall_impl; [exact Hpos|by intros ? []]|].
    apply Forall_replicate. by split. }
  assert (Hl : ti_rank tensor ≤ Z.of_nat (length (ti_dims tensor))).
  { rewrite Hdims, length_app, length_replicate. lia. }
  split_and!; try done; try ulia; rewrite Hsb;
    pose proof (tensor_storage_meaning (ti_ggml_type tensor) (ti_dims tensor) (ti_rank tensor) Htype
      ltac:(ulia) Hl Hu) as H; unfold storage_meaning in H; rewrite Hst in H; cbv zeta in H;
    destruct H as (g & ? & ? & ? & ? & ? & H); destruct_and!; lia.
Qed.

Lemma parse_tensors_complete header alignment rows c :
  reads_all artifact → (∀ n, memory n = true) → cursor_ok artifact options c →
  affordable artifact options file c (table_footprint sizeof_tensor_info tensor_footprint rows) →
  Z.of_nat (length rows) = hd_tensor_count header →
  table_addressable sizeof_tensor_info (hd_tensor_count header) →
  0 < alignment → Forall (tensor_declared alignment) rows → NoDup (ti_name <$> rows) →
  let finish := fc_offset c + Z.of_nat (length (fp_bytes (table_footprint sizeof_tensor_info tensor_footprint rows))) in
  let base := round_up alignment finish in
  base ≤ ULLONG_MAX → (rows ≠ [] → base ≤ ar_size artifact) → Forall (place_fits base) rows →
  ∃ index c', parse_tensors artifact options memory header alignment c =
    Parsed (place base <$> rows, index, base) c' ∧ fc_offset c' = finish.
Proof.
  intros Hall Hm Hc Haff Hcount [Hsz Hcells] Ha Hrows Hnd finish base Hmax Hin Hfits.
  unfold parse_tensors. cbv zeta. set (count := hd_tensor_count header) in *.
  assert (Hn : fp_nonneg (fp_concat (tensor_footprint <$> rows))).
  { apply fp_concat_nonneg, Forall_fmap, Forall_true. intros. apply tensor_footprint_nonneg. }
  pose proof (proj1 (co_offset _ _ _ Hc)) as Hnn.
  assert (Hal : align_offset finish alignment = parse_ret base).
  { pose proof (align_offset_eq finish alignment Ha ltac:(unfold finish; lia)) as H.
    by rewrite (proj2 (Z.leb_le _ _)) in H. }
  destruct (Z.eqb_spec count 0) as [Hz|Hz].
  { destruct rows; [|cbn in Hcount; lia]. eexists [], _. unfold parse_bind at 1, set_section.
    unfold parse_bind at 1, get_offset. unfold parse_bind at 1, modify_stats.
    cbn [fc_offset set_field file_cursor_eta eta_expand]. unfold finish in Hal. cbn in Hal. rewrite Z.add_0_r in Hal.
    rewrite (parse_bind_eq _ _ _ Hal). split; [reflexivity|]. unfold finish. cbn. lia. }
  destruct (encodes_name_index_allocate count) as (index & Hidx & _ & Hfor); [done|lia|done|].
  destruct (Hfor Hz) as [Hok Hroom].
  destruct (encodes_tensor_loop alignment rows [] index) as (index' & Hloop); [done..|cbn; lia|done|done|].
  cbn [app] in Hloop. replace (length rows) with (Z.to_nat count) in Hloop by lia.
  set (t := table_footprint sizeof_tensor_info tensor_footprint rows) in *.
  assert (Hf : t = fp_app (fp_memory (count * sizeof_tensor_info))
      (fp_app (fp_memory (index_cells count * sizeof_slot)) (fp_concat (tensor_footprint <$> rows)))).
  { unfold t, table_footprint. rewrite Hcount. fold count. apply footprint_eq; fp_simpl; (done || lia). }
  assert (Hn1 : fp_nonneg (fp_app (fp_memory (index_cells count * sizeof_slot)) (fp_concat (tensor_footprint <$> rows)))).
  { apply fp_app_nonneg; [constructor; fp_simpl; [lia..|]|done]. unfold index_cells, sizeof_slot.
    split_guard; [done|]. apply Z.mul_nonneg_nonneg; [|done]. apply Z.pow_nonneg. lia. }
  assert (He : encodes (parse _ <- set_section YVEX_GGUF_PARSE_SECTION_TENSOR_INFO ;
     parse _ <- reserve_owned options (count * sizeof_tensor_info) ;
     parse _ <- allocate memory "failed to allocate GGUF tensor directory" ;
     parse index <- name_index_allocate options memory count ;
     parse_tensor_loop artifact options memory (Z.to_nat count) alignment [] index) (unplaced <$> rows, index') t).
  { assert (Hnt : fp_nonneg t).
    { rewrite Hf. apply fp_app_nonneg; [constructor; fp_simpl; unfold sizeof_tensor_info; lia|done]. }
    eapply (encodes_then _ _ tt); [apply encodes_set_section| |done].
    eapply (encodes_step _ _ tt); [exact Hf|apply encodes_reserve_owned; unfold sizeof_tensor_info; lia|done|].
    eapply (encodes_then _ _ tt); [by apply encodes_allocate| |done].
    eapply (encodes_step _ _ index); [reflexivity|exact Hidx|done|exact Hloop]. }
  assert (Hplaced : place base <$> (unplaced <$> rows) = place base <$> rows).
  { rewrite <- list_fmap_compose. by apply list_fmap_ext. }
  assert (Htail : encodes (parse _ <- set_section YVEX_GGUF_PARSE_SECTION_RANGE ;
     parse _ <- set_record_index ULLONG_MAX ;
     parse tensor_data_offset <- align_offset finish alignment ;
     unless_ yvex_artifact_size (Some artifact) <? tensor_data_offset
       fail YVEX_GGUF_PARSE_INCOMPLETE_DIRECTORY YVEX_GGUF_PARSE_SECTION_RANGE
         "GGUF tensor-data boundary exceeds file size";
     parse tensors <- place_tensors artifact tensor_data_offset (unplaced <$> rows) 0 ;
     parse _ <- set_record_index ULLONG_MAX ;
     parse_ret (tensors, index', tensor_data_offset)) (place base <$> rows, index', base) fp_nil).
  { eapply (encodes_then _ _ tt); [apply encodes_set_section| |done].
    eapply (encodes_then _ _ tt); [apply encodes_set_record_index| |done].
    rewrite (parse_bind_eq _ _ _ Hal). apply encodes_guard.
    { apply Z.ltb_ge. apply Hin. intros ->. cbn in Hcount. lia. }
    eapply (encodes_then _ _ (place base <$> rows)); [| |done].
    - rewrite <- Hplaced. apply encodes_place_tensors. apply Forall_fmap.
      rewrite Forall_forall in Hrows, Hfits. apply Forall_forall. intros tensor Ht.
      destruct (declared_ranges _ _ (Hrows _ Ht)) as (_ & _ & _ & _ & _ & Hs). split; [exact (Hfits _ Ht)|cbn; lia].
    - eapply (encodes_then _ _ tt); [apply encodes_set_record_index|apply encodes_ret|done]. }
  destruct (He c Hc Haff) as (c1 & E & Hc1 & Had).
  assert (Hfin : fc_offset c1 = finish) by (rewrite (ad_offset _ _ _ _ Had); done).
  destruct (Htail (with_directory_end finish c1)) as (c2 & E2 & Hc2 & Had2).
  { by apply ok_directory_end. }
  { destruct Hc1. constructor; cbn; try lia. rewrite Z.add_0_r. apply file_range_nil. }
  exists index', c2. split.
  - rewrite <- E2. revert E. rewrite (proj2 (Z.ltb_ge (SIZE_MAX / sizeof_tensor_info) count)) by done.
    intros (? & d1 & E1 & (? & d2 & R2 & (? & d3 & E3 & (? & d4 & E4 & E5)%parse_bind_inv)%parse_bind_inv)%parse_bind_inv)%parse_bind_inv.
    rewrite (parse_bind_run _ _ _ _ _ E1), (parse_bind_run _ _ _ _ _ R2), (parse_bind_run _ _ _ _ _ E3),
      (parse_bind_run _ _ _ _ _ E4), (parse_bind_run _ _ _ _ _ E5).
    unfold parse_bind at 1, get_offset. unfold parse_bind at 1, modify_stats. by rewrite Hfin.
  - rewrite (ad_offset _ _ _ _ Had2). cbn. lia.
Qed.
End logic.
