(* ===== verification/GgufOpen.v ===== *)
(** The contract of [yvex_gguf_open_ex]: what an opened view says about the file, which files are
    accepted, and that names are found. *)

From S2P Require Import Prelude Status Exec Artifact Qtype Gguf GgufText GgufReader GgufDecode.
#[local] Open Scope Z_scope.

(** * The contract *)

(** A well-formed view of a file of the artifact's size: every row respects the format and the limits,
    names are unique, the data section starts at the first aligned offset after the directory, and every
    absolute range is its relative offset moved there. *)
Record view_ok (artifact : yvex_artifact) (options : yvex_gguf_reader_options) (gguf : yvex_gguf) : Prop :=
  ViewOk {
  vo_header : header_ok options (gg_header gguf);
  vo_metadata_count : Z.of_nat (length (gg_metadata gguf)) = hd_metadata_count (gg_header gguf);
  vo_metadata : Forall (entry_ok options) (gg_metadata gguf);
  vo_metadata_names : NoDup (me_key <$> gg_metadata gguf);
  vo_alignment : declared_alignment (gg_metadata gguf) = Some (gg_alignment gguf);
  vo_tensor_count : Z.of_nat (length (gg_tensors gguf)) = hd_tensor_count (gg_header gguf);
  vo_tensors : Forall (tensor_declared options (gg_alignment gguf)) (gg_tensors gguf);
  vo_tensor_names : NoDup (ti_name <$> gg_tensors gguf);
  vo_base : gg_tensor_data_offset gguf =
    round_up (gg_alignment gguf) (Z.of_nat (length (encode_directory gguf)));
  vo_address : gg_tensor_data_offset gguf ≤ ULLONG_MAX;
  vo_inside : gg_tensors gguf ≠ [] → gg_tensor_data_offset gguf ≤ ar_size artifact;
  vo_placed : place artifact (gg_tensor_data_offset gguf) <$> gg_tensors gguf = gg_tensors gguf;
  vo_fits : Forall (place_fits (gg_tensor_data_offset gguf)) (gg_tensors gguf);
}.

(** The statistics of a parse of exactly the directory. *)
Record stats_exact (artifact : yvex_artifact) (gguf : yvex_gguf) : Prop := StatsExact {
  se_file_size : rs_file_size (gg_stats gguf) = ar_size artifact;
  se_structural : rs_structural_bytes_read (gg_stats gguf) = Z.of_nat (length (encode_directory gguf));
  se_payload : rs_payload_bytes_read (gg_stats gguf) = 0;
  se_directory_end : rs_directory_end_offset (gg_stats gguf) = Z.of_nat (length (encode_directory gguf));
  se_strings : rs_total_string_bytes (gg_stats gguf) = fp_strings (gguf_footprint gguf);
  se_arrays : rs_total_array_entries (gg_stats gguf) = fp_arrays (gguf_footprint gguf);
  se_owned : rs_owned_bytes (gg_stats gguf) = sizeof_gguf + fp_owned (gguf_footprint gguf);
}.

(** The footprint of a view is inside the limits. *)
Record within_limits (options : yvex_gguf_reader_options) (gguf : yvex_gguf) : Prop := WithinLimits {
  wl_structural : Z.of_nat (length (encode_directory gguf)) ≤ ro_max_structural_bytes options;
  wl_strings : fp_strings (gguf_footprint gguf) ≤ ro_max_total_string_bytes options;
  wl_arrays : fp_arrays (gguf_footprint gguf) ≤ ro_max_total_array_entries options;
  wl_owned : sizeof_gguf + fp_owned (gguf_footprint gguf) ≤ ro_max_owned_bytes options;
}.

Definition options_nonzero (o : yvex_gguf_reader_options) : Prop :=
  ro_max_metadata_entries o ≠ 0 ∧ ro_max_tensor_entries o ≠ 0 ∧ ro_max_array_entries o ≠ 0 ∧
  ro_max_total_array_entries o ≠ 0 ∧ ro_max_string_bytes o ≠ 0 ∧ ro_max_total_string_bytes o ≠ 0 ∧
  ro_max_owned_bytes o ≠ 0 ∧ ro_max_structural_bytes o ≠ 0 ∧ ro_max_array_depth o ≠ 0.

(** Both name indexes hold the names of their tables. *)
Definition indexes_ok (gguf : yvex_gguf) : Prop :=
  table_index (me_key <$> gg_metadata gguf) (gg_metadata_index gguf) ∧
  table_index (ti_name <$> gg_tensors gguf) (gg_tensor_index gguf).

Definition initial_cursor (artifact : yvex_artifact) : yvex_file_cursor :=
  FileCursor 0 (ReaderStats (ar_size artifact) 0 0 0 sizeof_gguf 0 0 0) YVEX_GGUF_PARSE_SECTION_NONE ULLONG_MAX 1.

Lemma table_index_nodup names index : table_index names index → NoDup names.
Proof.
  intros [_ Hok]. destruct (decide (names = [])) as [->|Hne]; [constructor|]. apply (io_nodup _ _ (Hok Hne)).
Qed.

Section stages.
Context (artifact : yvex_artifact) (options : yvex_gguf_reader_options) (file : list Z).
Context (Hfile : reads_file artifact file) (Hsize : ar_size artifact ≤ INT64_MAX).
Context (Hbytes : Forall is_u8 file) (Hoptions : options_in_range options) (memory : nat → bool).

Lemma initial_ok : sizeof_gguf ≤ ro_max_owned_bytes options → cursor_ok artifact options (initial_cursor artifact).
Proof.
  intros Ho. destruct Hoptions as (H1 & H2 & H3 & H4 & _). destruct Hfile as [Hs _].
  constructor; cbn; ulia || (unfold sizeof_gguf in *; ulia).
Qed.

Lemma placed_footprint base rows :
  table_footprint sizeof_tensor_info tensor_footprint (place artifact base <$> rows) =
  table_footprint sizeof_tensor_info tensor_footprint rows.
Proof.
  unfold table_footprint. rewrite length_fmap, <- list_fmap_compose. do 2 f_equal.
Qed.

Lemma placed_declared alignment base rows :
  Forall (tensor_declared options alignment) rows →
  Forall (tensor_declared options alignment) (place artifact base <$> rows).
Proof.
  intros H. apply Forall_fmap. eapply Forall_impl; [exact H|]. intros t []. by constructor.
Qed.

Lemma parse_gguf_sound gguf cur :
  sizeof_gguf ≤ ro_max_owned_bytes options →
  parse_gguf artifact options memory (initial_cursor artifact) = Parsed gguf cur →
  take (length (encode_directory gguf)) file = encode_directory gguf ∧
  view_ok artifact options gguf ∧ stats_exact artifact gguf ∧ within_limits options gguf ∧ indexes_ok gguf.
Proof.
  intros Ho. pose proof (initial_ok Ho) as Hc. set (c := initial_cursor artifact) in *. unfold parse_gguf.
  intros (header & c1 & R1 & ([metadata mindex] & c2 & R2 & (alignment & c3 & R3 &
    ([[tensors tindex] base] & c4 & R4 & Hret)%parse_bind_inv)%parse_bind_inv)%parse_bind_inv)%parse_bind_inv.
  unfold parse_bind, get_stats, parse_ret in Hret. injection Hret as <- <-.
  apply (decodes_header artifact options file Hfile Hbytes) in R1 as (Hc1 & t1 & A1 & -> & Hheader); [|done].
  apply (decodes_metadata artifact options file Hfile Hsize Hbytes Hoptions) in R2
    as (Hc2 & t2 & A2 & -> & Hmc & Hm & Hmi); [|done..].
  pose proof (derive_alignment_eq artifact options file (Gguf header metadata [] mindex [] 0 YVEX_GGUF_DEFAULT_ALIGNMENT
    (ReaderStats 0 0 0 0 0 0 0 0)) Hmi Hm) as Hal. cbn [gg_metadata] in Hal.
  destruct (declared_alignment metadata) as [a|] eqn:Ea.
  2:{ by destruct (Hal (λ _ _, False) c2 alignment c3 Hc2 R3) as (_ & ? & _ & []). }
  destruct Hal as (Hal & Hapos & Ha32). rewrite Hal in R3. injection R3 as -> ->.
  apply (parse_tensors_sound artifact options file Hfile Hbytes) in R4 as (Hc4 & rows & Hend & A4 & Hst); [|done..].
  destruct Hst as [S1 S2 S3 S4 S5 S6 S7 S8]. subst tensors.
  pose proof (advanced_app file c _ _ _ _ (Z.le_refl 0) A1 A2) as B2.
  apply (advanced_directory_end _ _ _ _ (fc_offset c4)) in B2.
  pose proof (advanced_app file (with_directory_end (fc_offset c4) c) _ _ _ _ (Z.le_refl 0) B2 A4) as B.
  set (gguf := Gguf _ _ _ _ _ _ _ _).
  rewrite <- (placed_footprint base), <- (assoc_L fp_app) in B. change (fp_app _ (fp_app _ _)) with (gguf_footprint gguf) in B.
  destruct B as [B1 B2' B3 B4 B5 B6 B7 B8]. rewrite gguf_footprint_bytes in *.
  set (bytes := encode_directory gguf) in *.
  change (rs_structural_bytes_read _) with 0 in B3 at 2. change (fc_offset (with_directory_end _ _)) with 0 in *.
  rewrite Z.add_0_l in *. rewrite B1 in *.
  assert (Hnames : ti_name <$> (place artifact base <$> rows) = ti_name <$> rows) by by rewrite <- list_fmap_compose.
  split_and!.
  - unfold file_range in B2'. by rewrite Z.sub_0_r, drop_0, Nat2Z.id in B2'.
  - constructor; try done; cbn [gg_header gg_metadata gg_tensors gg_alignment gg_tensor_data_offset gguf].
    + by eapply table_index_nodup.
    + by rewrite length_fmap.
    + by apply placed_declared.
    + rewrite Hnames. by eapply table_index_nodup.
    + intros Hne. apply S8. by intros ->.
    + rewrite <- list_fmap_compose. by apply list_fmap_ext.
    + apply Forall_fmap. eapply Forall_impl; [exact S4|]. done.
  - by constructor.
  - change (rs_total_string_bytes (fc_stats (with_directory_end _ _))) with 0 in B4.
    change (rs_total_array_entries (fc_stats (with_directory_end _ _))) with 0 in B5.
    change (rs_owned_bytes (fc_stats (with_directory_end _ _))) with sizeof_gguf in B6.
    destruct Hc4. constructor; fold bytes; lia.
  - split; [done|]. cbn. by rewrite Hnames.
Qed.

Lemma table_owned {A} row_size (row : A → footprint) rows :
  0 < row_size → (∀ r, fp_nonneg (row r)) →
  fp_nonneg (table_footprint row_size row rows) ∧
  (fp_owned (table_footprint row_size row rows) ≤ ULLONG_MAX →
   table_addressable row_size (Z.of_nat (length rows))).
Proof.
  intros Hsz Hrow. set (n := Z.of_nat (length rows)).
  assert (Hcells : 0 ≤ index_cells n).
  { unfold index_cells. split_guard; [done|]. apply Z.pow_nonneg. lia. }
  assert (Hn : fp_nonneg (fp_concat (row <$> rows))) by (apply fp_concat_nonneg, Forall_fmap, Forall_true; auto).
  assert (Hprod : 0 ≤ n * row_size) by (unfold n; lia). split.
  - apply fp_app_nonneg; [|done]. fold n. constructor; fp_simpl; unfold sizeof_slot; lia.
  - unfold table_footprint. fold n. intros Hmax. destruct Hn as [_ _ Hn]. cbn [fp_app fp_memory fp_owned] in Hmax.
    unfold sizeof_slot in *. split; apply Z.div_le_lower_bound; unfold sizeof_slot, SIZE_MAX; lia.
Qed.

Lemma parse_gguf_complete gguf :
  reads_all artifact → (∀ n, memory n = true) → view_ok artifact options gguf → within_limits options gguf →
  take (length (encode_directory gguf)) file = encode_directory gguf →
  ∃ view cur, parse_gguf artifact options memory (initial_cursor artifact) = Parsed view cur ∧
    gg_header view = gg_header gguf ∧ gg_metadata view = gg_metadata gguf ∧
    gg_tensors view = gg_tensors gguf ∧ gg_alignment view = gg_alignment gguf ∧
    gg_tensor_data_offset view = gg_tensor_data_offset gguf.
Proof.
  intros Hall Hm [] [] Hprefix. destruct (table_owned sizeof_metadata_entry entry_footprint (gg_metadata gguf))
    as [Nm Am]; [done|apply entry_footprint_nonneg|].
  destruct (table_owned sizeof_tensor_info tensor_footprint (gg_tensors gguf)) as [Nt At];
    [done|apply tensor_footprint_nonneg|].
  destruct Hoptions as (_ & _ & Ho & _).
  assert (Howned : fp_owned (gguf_footprint gguf) =
    fp_owned (table_footprint sizeof_metadata_entry entry_footprint (gg_metadata gguf)) +
    fp_owned (table_footprint sizeof_tensor_info tensor_footprint (gg_tensors gguf))) by (cbn [gguf_footprint fp_app fp_raw fp_owned]; lia).
  pose proof (fn_owned _ Nm) as Om. pose proof (fn_owned _ Nt) as Ot. unfold sizeof_gguf in wl_owned0.
  specialize (Am ltac:(ulia)). specialize (At ltac:(ulia)). rewrite vo_metadata_count0 in Am. rewrite vo_tensor_count0 in At.
  assert (Hc : cursor_ok artifact options (initial_cursor artifact)) by (apply initial_ok; unfold sizeof_gguf; lia).
  set (c := initial_cursor artifact) in *.
  set (size := length (encode_directory gguf)) in *.
  assert (Hlen : (size ≤ length file)%nat) by (apply (f_equal length) in Hprefix; rewrite length_take in Hprefix; fold size in Hprefix; lia).
  assert (Haff : affordable artifact options file c (gguf_footprint gguf)).
  { destruct Hfile as [Hfs _]. constructor; rewrite ?gguf_footprint_bytes; fold size;
      change (fc_offset c) with 0; rewrite ?Z.add_0_l; try done; try lia; try (cbn [c]; unfold sizeof_gguf; cbn; lia).
    unfold file_range. by rewrite Z.sub_0_r, drop_0, Nat2Z.id. }
  destruct (affordable_split artifact options file Hfile c _ _ (fp_app_nonneg _ _ Nm Nt) Haff (Z.le_refl 0)) as [Af1 Af2].
  destruct (encodes_header artifact options file Hfile Hsize Hoptions (gg_header gguf) Hall vo_header0 c Hc Af1)
    as (c1 & R1 & Hc1 & A1). specialize (Af2 c1 A1).
  destruct (affordable_split artifact options file Hfile c1 _ _ Nt Af2 (proj1 (co_offset _ _ _ Hc1))) as [Af3 Af4].
  destruct (encodes_metadata artifact options file Hfile Hsize Hoptions memory (gg_header gguf) (gg_metadata gguf)
    Hall Hm vo_metadata_count0 Am vo_metadata0 vo_metadata_names0) as (mindex & He).
  destruct (He c1 Hc1 Af3) as (c2 & R2 & Hc2 & A2). specialize (Af4 c2 A2).
  destruct (decodes_metadata artifact options file Hfile Hsize Hbytes Hoptions memory _ vo_header0 c1 _ c2 Hc1 R2)
    as (_ & ? & _ & _ & _ & _ & Hmi).
  pose proof (derive_alignment_eq artifact options file (Gguf (gg_header gguf) (gg_metadata gguf) [] mindex [] 0
    YVEX_GGUF_DEFAULT_ALIGNMENT (ReaderStats 0 0 0 0 0 0 0 0)) Hmi vo_metadata0) as Hal.
  cbn [gg_metadata] in Hal. rewrite vo_alignment0 in Hal. destruct Hal as (Hal & Hapos & _).
  assert (Hfin : fc_offset c2 + Z.of_nat (length (fp_bytes (table_footprint sizeof_tensor_info tensor_footprint
    (gg_tensors gguf)))) = Z.of_nat size).
  { rewrite (ad_offset _ _ _ _ A2), (ad_offset _ _ _ _ A1). change (fc_offset c) with 0. unfold size.
    rewrite <- gguf_footprint_bytes. unfold gguf_footprint. cbn [fp_app fp_bytes]. rewrite !length_app. lia. }
  destruct (parse_tensors_complete artifact options file Hfile Hsize Hoptions memory (gg_header gguf)
    (gg_alignment gguf) (gg_tensors gguf) c2) as (tindex & c3 & R3 & _); [done..| | | |].
  { rewrite Hfin, <- vo_base0. done. }
  { rewrite Hfin, <- vo_base0. done. }
  { rewrite Hfin, <- vo_base0. done. }
  rewrite Hfin, <- vo_base0, vo_placed0 in R3.
  eexists _, _. unfold parse_gguf. rewrite (parse_bind_run _ _ _ _ _ R1), (parse_bind_run _ _ _ _ _ R2).
  rewrite Hal. unfold parse_bind at 1, parse_ret at 1. rewrite (parse_bind_run _ _ _ _ _ R3).
  split; [reflexivity|]. done.
Qed.
End stages.

(** What the reader may rely on: a descriptor that answers bytes of a file no larger than positioned
    reads can address, and machine-range limits. *)
Record reader_environment (artifact : yvex_artifact) (file : list Z) (options : yvex_gguf_reader_options)
    : Prop := ReaderEnvironment {
  re_file : reads_file artifact file;
  re_size : ar_size artifact ≤ INT64_MAX;
  re_bytes : Forall is_u8 file;
  re_options : options_in_range options;
}.

Lemma open_ex_sound memory artifact file options gguf cur :
  let effective := default yvex_gguf_reader_options_default options in
  reader_environment artifact file effective →
  yvex_gguf_open_ex memory (Some artifact) options = Parsed gguf cur →
  take (length (encode_directory gguf)) file = encode_directory gguf ∧
  view_ok artifact effective gguf ∧ stats_exact artifact gguf ∧ within_limits effective gguf ∧ indexes_ok gguf.
Proof.
  intros effective [Hfile Hsize Hbytes Hopt]. unfold yvex_gguf_open_ex. cbv zeta. fold effective.
  split_guard; [done|]. split_guard; [done|]. split_guard; [done|]. apply Z.ltb_ge in E1.
  by apply parse_gguf_sound.
Qed.

(** ** Searching a table with unique names *)

Lemma find_unique {A} (f : A → list Z) (l : list A) key x :
  NoDup (f <$> l) → f x = key → snd <$> list_find (λ r, f r = key) l = Some x ↔ x ∈ l.
Proof.
  intros Hnd Hx. split.
  - intros ([i r] & E & Hr)%fmap_Some. cbn in Hr. subst r.
    apply list_find_Some in E as (E & _). by eapply list_elem_of_lookup_2.
  - intros [i Hi]%list_elem_of_lookup_1. destruct (list_find _ l) as [[j r]|] eqn:E; cbn.
    + apply list_find_Some in E as (E & Ek & _). f_equal.
      assert (i = j) as ->; [|congruence].
      apply (NoDup_lookup (f <$> l) i j (f x) Hnd); rewrite list_lookup_fmap, ?Hi, ?E; cbn; congruence.
    + apply list_find_None in E. rewrite Forall_forall in E. destruct (E x); [by eapply list_elem_of_lookup_2|done].
Qed.

Lemma tensor_find_spec gguf name :
  table_index (ti_name <$> gg_tensors gguf) (gg_tensor_index gguf) →
  yvex_gguf_tensor_find gguf (Some name) = snd <$> list_find (λ row, ti_name row = cstr name) (gg_tensors gguf).
Proof.
  intros [Hnil Hok]. unfold yvex_gguf_tensor_find. cbn [mbind option_bind].
  destruct (decide (ti_name <$> gg_tensors gguf = [])) as [E|Hne].
  - rewrite (Hnil E). apply fmap_nil_inv in E. by rewrite E.
  - rewrite name_index_find_spec, list_find_fmap by auto.
    change ((λ prior, prior = cstr name) ∘ ti_name) with (λ row, ti_name row = cstr name).
    destruct (list_find _ _) as [[i row]|] eqn:E; [|done]. cbn.
    apply list_find_Some in E as (E & _). by rewrite array_get_nat, E.
Qed.

(** * Properties *)

(** C4: An opened view is the decoding of the file. Whatever the allocator answers, if opening succeeds
    then the file begins with the encoding of the returned view: header, metadata rows with their typed
    and nested values, tensor rows. The view is well formed: keys obey the grammar, texts are UTF-8,
    names are unique, storage sizes are those of the qtype, the data section starts at the first aligned
    offset and absolute ranges follow from it. The statistics are exact: every directory byte was read
    once, no payload byte was, and string, array and memory totals are those of the view and inside
    their limits. *)
Theorem gguf_open_decodes memory artifact file options gguf cur :
  let effective := default yvex_gguf_reader_options_default options in
  reader_environment artifact file effective →
  yvex_gguf_open_ex memory (Some artifact) options = Parsed gguf cur →
  take (length (encode_directory gguf)) file = encode_directory gguf ∧
  view_ok artifact effective gguf ∧ stats_exact artifact gguf ∧ within_limits effective gguf.
Proof. intros effective He Hopen. by destruct (open_ex_sound _ _ _ _ _ _ He Hopen) as (? & ? & ? & ? & _). Qed.

(** ** A sample container *)

Definition sample_draft : yvex_gguf :=
  Gguf (GgufHeader 3 3 2)
    [MetadataEntry (cstr "general.alignment") (ValueUnsigned YVEX_GGUF_VALUE_UINT32 32);
     MetadataEntry (cstr "general.name") (ValueString (cstr "sample"));
     MetadataEntry (cstr "a.b_c") (ValueArray YVEX_GGUF_VALUE_INT16 [ValueSigned YVEX_GGUF_VALUE_INT16 (-3)])]
    [TensorInfo (cstr "x") 1 [3; 0; 0; 0] 0 "" 0 0 0 0 true;
     TensorInfo (cstr "y") 2 [2; 1; 0; 0] 0 "" 32 0 0 0 true] [] [] 0 0 (ReaderStats 0 0 0 0 0 0 0 0).

Definition sample_directory : list Z := Eval vm_compute in encode_directory sample_draft.

Definition sample_file : list Z := Eval vm_compute in
  sample_directory ++ replicate (Z.to_nat (- Z.of_nat (length sample_directory) mod 32)) 0 ++
  replicate 12 1 ++ replicate 20 0 ++ replicate 8 2 ++ replicate 24 0.

Definition sample_result : parsed yvex_gguf := Eval vm_compute in
  yvex_gguf_open_ex (λ _, true) (Some (memory_artifact sample_file)) None.

Definition sample_view : yvex_gguf := Eval vm_compute in
  match sample_result with Parsed gguf _ => gguf | Unparsed _ => sample_draft end.

Definition sample_cursor : yvex_file_cursor := Eval vm_compute in
  match sample_result with Parsed _ cur => cur | Unparsed _ => initial_cursor (memory_artifact []) end.

Lemma sample_opens :
  yvex_gguf_open_ex (λ _, true) (Some (memory_artifact sample_file)) None = Parsed sample_view sample_cursor.
Proof. vm_compute. reflexivity. Qed.

Lemma bytes_in_range l : forallb (λ b, (0 <=? b) && (b <? 256)) l = true → Forall is_u8 l.
Proof.
  intros H. apply Forall_forall. intros b Hb. rewrite forallb_forall in H.
  specialize (H b (proj1 (list_elem_of_In _ _) Hb)). unfold is_u8. guards. lia.
Qed.

Lemma sample_environment :
  reader_environment (memory_artifact sample_file) sample_file yvex_gguf_reader_options_default.
Proof.
  constructor.
  - apply memory_artifact_reads.
  - by vm_compute.
  - apply bytes_in_range. by vm_compute.
  - unfold options_in_range. cbn. split_and!; ulia.
Qed.

Lemma gguf_open_decodes_witness :
  take (length sample_directory) sample_file = sample_directory ∧
  encode_directory sample_view = sample_directory ∧
  view_ok (memory_artifact sample_file) yvex_gguf_reader_options_default sample_view ∧
  rs_payload_bytes_read (gg_stats sample_view) = 0.
Proof.
  destruct (gguf_open_decodes (λ _, true) (memory_artifact sample_file) sample_file None sample_view
    sample_cursor sample_environment sample_opens) as (Htake & Hview & Hstats & _).
  assert (E : encode_directory sample_view = sample_directory) by (vm_compute; reflexivity).
  rewrite E in Htake. split_and!; [exact Htake|exact E|exact Hview|apply (se_payload _ _ Hstats)].
Defined.

(** C5: Every well-formed directory within the limits is read back. If the file begins with the
    encoding of a well-formed view, reads make progress and memory suffices, then opening succeeds and
    returns the same header, metadata, tensors with their absolute ranges, alignment and data offset. *)
Theorem gguf_open_roundtrip memory artifact file options gguf :
  let effective := default yvex_gguf_reader_options_default options in
  reader_environment artifact file effective → options_nonzero effective →
  reads_all artifact → (∀ n, memory n = true) →
  view_ok artifact effective gguf → within_limits effective gguf →
  take (length (encode_directory gguf)) file = encode_directory gguf →
  ∃ view cur, yvex_gguf_open_ex memory (Some artifact) options = Parsed view cur ∧
    gg_header view = gg_header gguf ∧ gg_metadata view = gg_metadata gguf ∧
    gg_tensors view = gg_tensors gguf ∧ gg_alignment view = gg_alignment gguf ∧
    gg_tensor_data_offset view = gg_tensor_data_offset gguf.
Proof.
  intros effective [Hfile Hsize Hbytes Hopt] Hnz Hall Hm Hview Hwl Hpre. unfold yvex_gguf_open_ex. cbv zeta.
  fold effective. destruct Hnz as (Z1 & Z2 & Z3 & Z4 & Z5 & Z6 & Z7 & Z8 & Z9).
  repeat rewrite (proj2 (Z.eqb_neq _ 0)) by done. cbn [orb]. rewrite Hm. cbn [negb].
  rewrite (proj2 (Z.ltb_ge (ro_max_owned_bytes effective) sizeof_gguf)).
  2:{ destruct Hwl. destruct (table_owned sizeof_metadata_entry entry_footprint (gg_metadata gguf)) as [Nm _];
        [done|apply entry_footprint_nonneg|].
      destruct (table_owned sizeof_tensor_info tensor_footprint (gg_tensors gguf)) as [Nt _];
        [done|apply tensor_footprint_nonneg|].
      pose proof (fn_owned _ Nm). pose proof (fn_owned _ Nt).
      cbn [gguf_footprint fp_app fp_raw fp_owned] in *. lia. }
  by apply (parse_gguf_complete artifact effective file).
Qed.

Lemma gguf_open_roundtrip_witness :
  ∃ view cur, yvex_gguf_open_ex (λ _, true) (Some (memory_artifact sample_file)) None = Parsed view cur ∧
    gg_metadata view = gg_metadata sample_draft ∧ gg_alignment view = 32.
Proof.
  destruct (open_ex_sound (λ _, true) (memory_artifact sample_file) sample_file None sample_view
    sample_cursor sample_environment sample_opens) as (Htake & Hview & _ & Hwl & _).
  destruct (gguf_open_roundtrip (λ _, true) (memory_artifact sample_file) sample_file None sample_view
    sample_environment) as (view & cur & Hopen & _ & Hm & _ & Ha & _).
  - unfold options_nonzero. cbn. by split_and!.
  - apply memory_artifact_progress.
  - done.
  - exact Hview.
  - exact Hwl.
  - exact Htake.
  - exists view, cur. split_and!; [exact Hopen|exact Hm|exact Ha].
Defined.

(** In an opened view, finding a metadata key or a tensor name through the open-addressed index
    agrees with a linear search of the directory: the probe always ends, it finds the row that has
    the name, which is the only one, and nothing when there is none. *)
Theorem gguf_names_found memory artifact file options gguf cur name :
  reader_environment artifact file (default yvex_gguf_reader_options_default options) →
  yvex_gguf_open_ex memory (Some artifact) options = Parsed gguf cur →
  (∀ value, yvex_gguf_metadata_find gguf (Some name) = Some value ↔
     MetadataEntry (cstr name) value ∈ gg_metadata gguf) ∧
  (∀ tensor, yvex_gguf_tensor_find gguf (Some name) = Some tensor ↔
     tensor ∈ gg_tensors gguf ∧ ti_name tensor = cstr name).
Proof.
  intros He Hopen. destruct (open_ex_sound _ _ _ _ _ _ He Hopen) as (_ & Hv & _ & _ & Hmi & Hti). split.
  - intros value. rewrite metadata_find_spec by done.
    rewrite <- (find_unique me_key _ (cstr name) (MetadataEntry (cstr name) value)
      (vo_metadata_names _ _ _ Hv) eq_refl).
    destruct (list_find _ _) as [[i [key v]]|] eqn:E; cbn; [|done].
    apply list_find_Some in E as (_ & Ek & _). cbn in Ek. subst key. naive_solver.
  - intros tensor. rewrite tensor_find_spec by done. split.
    + destruct (list_find _ _) as [[i row]|] eqn:E; cbn; [|done]. intros [= ->].
      apply list_find_Some in E as (E & Ek & _). split; [by eapply list_elem_of_lookup_2|done].
    + intros [Hin Hname]. by apply (find_unique ti_name _ (cstr name) tensor (vo_tensor_names _ _ _ Hv) Hname).
Qed.

Lemma gguf_names_found_witness :
  yvex_gguf_metadata_find sample_view (Some "general.name"%string) = Some (ValueString (cstr "sample")) ∧
  yvex_gguf_tensor_find sample_view (Some "z"%string) = None.
Proof.
  split.
  - apply (gguf_names_found (λ _, true) (memory_artifact sample_file) sample_file None sample_view
      sample_cursor "general.name" sample_environment sample_opens).
    vm_compute. right. left.
  - destruct (yvex_gguf_tensor_find sample_view (Some "z"%string)) as [tensor|] eqn:E; [|done].
    apply (gguf_names_found (λ _, true) (memory_artifact sample_file) sample_file None sample_view
      sample_cursor "z" sample_environment sample_opens) in E as [Hin Hname].
    apply (list_elem_of_fmap_2 ti_name) in Hin. rewrite Hname in Hin. vm_compute in Hin. set_solver.
Defined.
