(* ===== verification/Layout.v ===== *)
(** Canonical layout admission of a parsed GGUF file, [src/gguf/layout_integrity.c]: interval arithmetic,
    zero padding, directory order and the exact file span.

    The parsed view is the one of [Gguf]; the two snapshot
    validations, which compare file status records of the operating system, answer a status each. A
    validation step passes a value or fails with the result record; a failure is [YVEX_ERR_FORMAT]. *)

From S2P Require Import Prelude Status Exec Artifact Qtype Gguf GgufReader GgufDecode GgufOpen.
#[local] Open Scope Z_scope.
#[local] Arguments total : simpl never.

(** * Data *)

(** src/include/yvex/gguf.h, [yvex_gguf_layout_code] *)
Inductive yvex_gguf_layout_code : Type :=
  | YVEX_GGUF_LAYOUT_OK | YVEX_GGUF_LAYOUT_INVALID_ARGUMENT | YVEX_GGUF_LAYOUT_INVALID_ALIGNMENT_TYPE
  | YVEX_GGUF_LAYOUT_INVALID_ALIGNMENT_VALUE | YVEX_GGUF_LAYOUT_ALIGNMENT_NOT_POWER_OF_TWO
  | YVEX_GGUF_LAYOUT_ALIGNMENT_OVERFLOW | YVEX_GGUF_LAYOUT_STORAGE_REFUSED
  | YVEX_GGUF_LAYOUT_FIRST_OFFSET_NOT_ZERO | YVEX_GGUF_LAYOUT_OFFSET_REVERSED
  | YVEX_GGUF_LAYOUT_UNEXPECTED_GAP | YVEX_GGUF_LAYOUT_DUPLICATE_START
  | YVEX_GGUF_LAYOUT_COMPLETE_OVERLAP | YVEX_GGUF_LAYOUT_PARTIAL_OVERLAP
  | YVEX_GGUF_LAYOUT_PADDED_OVERLAP | YVEX_GGUF_LAYOUT_RAW_END_OVERFLOW
  | YVEX_GGUF_LAYOUT_PADDED_END_OVERFLOW | YVEX_GGUF_LAYOUT_AGGREGATE_OVERFLOW
  | YVEX_GGUF_LAYOUT_TENSOR_PAYLOAD_TRUNCATED | YVEX_GGUF_LAYOUT_PADDING_TRUNCATED
  | YVEX_GGUF_LAYOUT_DIRECTORY_PADDING_NONZERO | YVEX_GGUF_LAYOUT_TENSOR_PADDING_NONZERO
  | YVEX_GGUF_LAYOUT_NONCANONICAL_TAIL | YVEX_GGUF_LAYOUT_FILE_IDENTITY_DRIFT
  | YVEX_GGUF_LAYOUT_IO_FAILURE | YVEX_GGUF_LAYOUT_VIEW_FILE_MISMATCH
  | YVEX_GGUF_LAYOUT_TENSOR_INFO_MISSING | YVEX_GGUF_LAYOUT_TENSOR_RANGE_MISMATCH.

#[export] Instance layout_code_eq_dec : EqDecision yvex_gguf_layout_code.
Proof. solve_decision. Defined.

(** src/include/yvex/gguf.h, [yvex_gguf_layout_result] *)
Record yvex_gguf_layout_result := LayoutResult {
  lr_code : yvex_gguf_layout_code;
  lr_accepted : bool;
  lr_reason : string;
  lr_alignment : Z;
  lr_tensor_count : Z;
  lr_tensors_validated : Z;
  lr_tensor_index : Z;
  lr_tensor_name : string;
  lr_expected_relative_offset : Z;
  lr_declared_relative_offset : Z;
  lr_tensor_raw_size : Z;
  lr_tensor_padded_size : Z;
  lr_tensor_raw_end : Z;
  lr_tensor_padded_end : Z;
  lr_failure_absolute_offset : Z;
  lr_directory_end : Z;
  lr_directory_padding_bytes : Z;
  lr_tensor_data_offset : Z;
  lr_raw_tensor_bytes : Z;
  lr_inter_tensor_padding_bytes : Z;
  lr_final_tensor_padding_bytes : Z;
  lr_total_padding_bytes : Z;
  lr_data_section_span : Z;
  lr_required_file_end : Z;
  lr_actual_file_size : Z;
  lr_trailing_bytes : Z;
  lr_structural_bytes_read : Z;
  lr_padding_bytes_read : Z;
  lr_tensor_payload_bytes_read : Z;
  lr_padding_read_calls : Z;
}.

#[export] Instance layout_result_eta : Eta yvex_gguf_layout_result := λ r,
  LayoutResult (lr_code r) (lr_accepted r) (lr_reason r) (lr_alignment r) (lr_tensor_count r)
    (lr_tensors_validated r) (lr_tensor_index r) (lr_tensor_name r) (lr_expected_relative_offset r)
    (lr_declared_relative_offset r) (lr_tensor_raw_size r) (lr_tensor_padded_size r)
    (lr_tensor_raw_end r) (lr_tensor_padded_end r) (lr_failure_absolute_offset r) (lr_directory_end r)
    (lr_directory_padding_bytes r) (lr_tensor_data_offset r) (lr_raw_tensor_bytes r)
    (lr_inter_tensor_padding_bytes r) (lr_final_tensor_padding_bytes r) (lr_total_padding_bytes r)
    (lr_data_section_span r) (lr_required_file_end r) (lr_actual_file_size r) (lr_trailing_bytes r)
    (lr_structural_bytes_read r) (lr_padding_bytes_read r) (lr_tensor_payload_bytes_read r)
    (lr_padding_read_calls r).

(** src/src/gguf/layout_integrity.c, [layout_cursor] *)
Record layout_cursor := LayoutCursor { cu_expected : Z; cu_previous_start : Z; cu_previous_raw_end : Z }.

(** ** Validation steps *)

Inductive checked (A : Type) : Type :=
  | Passed (a : A)
  | Failed (out : yvex_gguf_layout_result).
Arguments Passed {A} a.
Arguments Failed {A} out.

#[export] Instance checked_bind : MBind checked := λ A B f m,
  match m with Passed a => f a | Failed out => Failed out end.

(** * Operations *)

(** src/src/gguf/layout_integrity.c, [layout_result_init] *)
Definition layout_result_init : yvex_gguf_layout_result :=
  LayoutResult YVEX_GGUF_LAYOUT_INVALID_ARGUMENT false "layout not evaluated" 0 0 0 ULLONG_MAX ""
    0 0 0 0 0 0 0 0 0 0 0 0 0 0 0 0 0 0 0 0 0 0.

(** src/src/gguf/layout_integrity.c, [yvex_gguf_layout_sum_checked] *)
Definition yvex_gguf_layout_sum_checked (current addition : Z) : Z + yvex_gguf_layout_code :=
  if ULLONG_MAX - current <? addition then inr YVEX_GGUF_LAYOUT_AGGREGATE_OVERFLOW
  else inl (current + addition).

Definition power_of_two_bits (alignment : Z) : bool := Z.land alignment (u32 (alignment - 1)) =? 0.

(** src/src/gguf/layout_integrity.c, [align_up_power_of_two] *)
Definition align_up_power_of_two (value alignment : Z) : option Z :=
  if (alignment =? 0) || negb (power_of_two_bits alignment) then None
  else
    let mask := u64 (alignment - 1) in
    match yvex_gguf_layout_sum_checked value mask with
    | inl sum => Some (Z.land sum (u64 (Z.lnot mask)))
    | inr _ => None
    end.

(** src/src/gguf/layout_integrity.c, [yvex_gguf_layout_interval_measure]
    The raw and the padded end. *)
Definition yvex_gguf_layout_interval_measure (relative_offset raw_size alignment : Z)
    : (Z * Z) + yvex_gguf_layout_code :=
  if alignment =? 0 then inr YVEX_GGUF_LAYOUT_INVALID_ALIGNMENT_VALUE
  else if negb (power_of_two_bits alignment) then inr YVEX_GGUF_LAYOUT_ALIGNMENT_NOT_POWER_OF_TWO
  else if ULLONG_MAX - relative_offset <? raw_size then inr YVEX_GGUF_LAYOUT_RAW_END_OVERFLOW
  else
    let raw_end := relative_offset + raw_size in
    match align_up_power_of_two raw_end alignment with
    | Some padded_end => inl (raw_end, padded_end)
    | None => inr YVEX_GGUF_LAYOUT_PADDED_END_OVERFLOW
    end.

(** src/src/gguf/layout_integrity.c, [layout_fail] *)
Definition layout_fail {A} (out : yvex_gguf_layout_result) (code : yvex_gguf_layout_code)
    (reason : string) : checked A :=
  Failed (out <| lr_accepted := false |> <| lr_code := code |>
              <| lr_reason := yvex_core_text_copy "" 256 (Some reason) |>).

(** [fail_when b with out code reason; k]: refuse, or go on with [k]. *)
Notation "'fail_when' b 'with' out code reason ; k" :=
  (if b then layout_fail out code reason else k)
  (at level 10, b at level 99, out at level 9, code at level 9, reason at level 9, k at level 200)
  : stdpp_scope.

Definition YVEX_GGUF_LAYOUT_PADDING_CHUNK : Z := 4096.

(** The chunks still to read; [fuel] bounds their number. *)
Fixpoint zero_padding_loop (fuel : nat) (artifact : yvex_artifact) (offset length_ : Z)
    (nonzero_code : yvex_gguf_layout_code) (done_ : Z) (out : yvex_gguf_layout_result)
    : checked yvex_gguf_layout_result :=
  if done_ <? length_ then
    match fuel with
    | O => layout_fail out YVEX_GGUF_LAYOUT_IO_FAILURE "out of fuel"
    | S fuel =>
        let take_ := Z.min (length_ - done_) YVEX_GGUF_LAYOUT_PADDING_CHUNK in
        match yvex_artifact_read_at artifact (u64 (offset + done_)) take_ with
        | Refused _ _ =>
            layout_fail (out <| lr_failure_absolute_offset := u64 (offset + done_) |>)
              YVEX_GGUF_LAYOUT_IO_FAILURE "required GGUF padding could not be read"
        | Done bytes =>
            let out := out <| lr_padding_bytes_read ::= λ n, u64 (n + take_) |>
                           <| lr_padding_read_calls ::= λ n, u64 (n + 1) |> in
            match list_find (λ byte, byte ≠ 0) bytes with
            | Some (i, _) =>
                layout_fail (out <| lr_failure_absolute_offset := u64 (offset + done_ + Z.of_nat i) |>)
                  nonzero_code
                  (if bool_decide (nonzero_code = YVEX_GGUF_LAYOUT_DIRECTORY_PADDING_NONZERO)
                   then "GGUF directory-to-data padding contains a nonzero byte"
                   else "GGUF tensor padding contains a nonzero byte")
            | None =>
                zero_padding_loop fuel artifact offset length_ nonzero_code (done_ + take_) out
            end
        end
    end
  else Passed out.

(** src/src/gguf/layout_integrity.c, [read_zero_padding] *)
Definition read_zero_padding (artifact : yvex_artifact) (offset length_ : Z)
    (nonzero_code : yvex_gguf_layout_code) (out : yvex_gguf_layout_result)
    : checked yvex_gguf_layout_result :=
  zero_padding_loop (Z.to_nat (length_ / YVEX_GGUF_LAYOUT_PADDING_CHUNK + 1)) artifact offset length_
    nonzero_code 0 out.

(** Why a start that is not the expected one is refused.
    src/src/gguf/layout_integrity.c:206-228, [layout_validate_tensor] *)
Definition offset_refusal (cursor : layout_cursor) (relative_offset raw_end : Z)
    : yvex_gguf_layout_code * string :=
  if cu_expected cursor <? relative_offset then
    (YVEX_GGUF_LAYOUT_UNEXPECTED_GAP, "tensor offset leaves a gap after the previous padded interval"%string)
  else if relative_offset =? cu_previous_start cursor then
    (YVEX_GGUF_LAYOUT_DUPLICATE_START, "two directory entries declare the same tensor start"%string)
  else if relative_offset <? cu_previous_start cursor then
    (YVEX_GGUF_LAYOUT_OFFSET_REVERSED, "tensor offset reverses directory order"%string)
  else if relative_offset <? cu_previous_raw_end cursor then
    if raw_end <=? cu_previous_raw_end cursor then
      (YVEX_GGUF_LAYOUT_COMPLETE_OVERLAP, "tensor interval is contained in the previous tensor payload"%string)
    else
      (YVEX_GGUF_LAYOUT_PARTIAL_OVERLAP, "tensor interval partially overlaps the previous tensor payload"%string)
  else (YVEX_GGUF_LAYOUT_PADDED_OVERLAP, "tensor starts inside required padding"%string).

(** [layout_sum_checked] whose failure refuses the layout. *)
Definition sum_or_fail (out : yvex_gguf_layout_result) (reason : string) (a b : Z) : checked Z :=
  match yvex_gguf_layout_sum_checked a b with
  | inl sum => Passed sum
  | inr _ => layout_fail out YVEX_GGUF_LAYOUT_AGGREGATE_OVERFLOW reason
  end.

(** The geometry and start of one directory row: the raw and padded ends.
    src/src/gguf/layout_integrity.c:178-228, [layout_validate_tensor] *)
Definition layout_measure_tensor (tensor : yvex_gguf_tensor_info) (index : Z) (cursor : layout_cursor)
    (out : yvex_gguf_layout_result) : checked (yvex_gguf_layout_result * Z * Z * Z) :=
  let out := out <| lr_tensor_name := yvex_core_text_copy "" 128 (Some (text_of_bytes (ti_name tensor))) |>
                 <| lr_expected_relative_offset := cu_expected cursor |>
                 <| lr_declared_relative_offset := ti_relative_offset tensor |> in
  let storage := yvex_gguf_qtype_tensor_storage (ti_ggml_type tensor) (Some (ti_dims tensor)) (ti_rank tensor) in
  fail_when negb (bool_decide (st_status storage = YVEX_GGUF_QTYPE_STORAGE_OK))
    with out YVEX_GGUF_LAYOUT_STORAGE_REFUSED (st_reason storage);
  let raw_size := st_total_bytes storage in
  let out := out <| lr_tensor_raw_size := raw_size |> in
  fail_when negb (ti_storage_bytes tensor =? raw_size)
    with out YVEX_GGUF_LAYOUT_STORAGE_REFUSED
      "parsed tensor storage differs from canonical qtype geometry";
  match yvex_gguf_layout_interval_measure (ti_relative_offset tensor) raw_size (lr_alignment out) with
  | inr code =>
      layout_fail out code
        (if bool_decide (code = YVEX_GGUF_LAYOUT_RAW_END_OVERFLOW)
         then "tensor relative raw end overflows" else "tensor padded end overflows")
  | inl (raw_end, padded_end) =>
      let out := out <| lr_tensor_raw_end := raw_end |> <| lr_tensor_padded_end := padded_end |>
                     <| lr_tensor_padded_size := u64 (padded_end - ti_relative_offset tensor) |> in
      fail_when (index =? 0) && negb (ti_relative_offset tensor =? 0)
        with out YVEX_GGUF_LAYOUT_FIRST_OFFSET_NOT_ZERO "the first tensor must begin at relative offset zero";
      fail_when (0 <? index) && negb (ti_relative_offset tensor =? cu_expected cursor)
        with out (offset_refusal cursor (ti_relative_offset tensor) raw_end).1
          (offset_refusal cursor (ti_relative_offset tensor) raw_end).2;
      Passed (out, raw_size, raw_end, padded_end)
  end.

(** The absolute ranges of one measured row against the file.
    src/src/gguf/layout_integrity.c:229-249, [layout_validate_tensor] *)
Definition layout_place_tensor (tensor : yvex_gguf_tensor_info) (raw_size padded_end : Z)
    (out : yvex_gguf_layout_result) : checked yvex_gguf_layout_result :=
  let overflow := "absolute tensor layout arithmetic overflows"%string in
  raw_absolute ← sum_or_fail out overflow (lr_tensor_data_offset out) (ti_relative_offset tensor);
  raw_absolute_end ← sum_or_fail out overflow raw_absolute raw_size;
  padded_absolute ← sum_or_fail out overflow (lr_tensor_data_offset out) padded_end;
  fail_when negb (ti_absolute_offset tensor =? raw_absolute)
            || negb (ti_absolute_end_offset tensor =? raw_absolute_end)
    with out YVEX_GGUF_LAYOUT_TENSOR_RANGE_MISMATCH
      "parsed tensor absolute range differs from canonical layout";
  fail_when lr_actual_file_size out <? ti_absolute_end_offset tensor
    with (out <| lr_failure_absolute_offset := ti_absolute_end_offset tensor |>)
      YVEX_GGUF_LAYOUT_TENSOR_PAYLOAD_TRUNCATED "tensor payload interval exceeds the opened file";
  fail_when lr_actual_file_size out <? padded_absolute
    with (out <| lr_failure_absolute_offset := ti_absolute_end_offset tensor |>)
      YVEX_GGUF_LAYOUT_PADDING_TRUNCATED "required tensor padding exceeds the opened file";
  Passed out.

(** src/src/gguf/layout_integrity.c, [layout_validate_tensor] *)
Definition layout_validate_tensor (artifact : yvex_artifact) (gguf : yvex_gguf) (index : Z)
    (state : layout_cursor * yvex_gguf_layout_result) : checked (layout_cursor * yvex_gguf_layout_result) :=
  let '(cursor, out) := state in
  let out := out <| lr_tensor_index := index |> in
  match yvex_gguf_tensor_at gguf index with
  | None =>
      layout_fail out YVEX_GGUF_LAYOUT_TENSOR_INFO_MISSING "parsed tensor directory row is unavailable"
  | Some tensor =>
      '(out, raw_size, raw_end, padded_end) ← layout_measure_tensor tensor index cursor out;
      out ← layout_place_tensor tensor raw_size padded_end out;
      raw_bytes ← sum_or_fail out "aggregate raw tensor bytes overflow" (lr_raw_tensor_bytes out) raw_size;
      let out := out <| lr_raw_tensor_bytes := raw_bytes |> in
      let padding_bytes := u64 (padded_end - raw_end) in
      out ← (if u64 (index + 1) <? lr_tensor_count out then
               inter ← sum_or_fail out "aggregate inter-tensor padding overflows"
                         (lr_inter_tensor_padding_bytes out) padding_bytes;
               Passed (out <| lr_inter_tensor_padding_bytes := inter |>)
             else Passed (out <| lr_final_tensor_padding_bytes := padding_bytes |>));
      out ← read_zero_padding artifact (ti_absolute_end_offset tensor) padding_bytes
              YVEX_GGUF_LAYOUT_TENSOR_PADDING_NONZERO out;
      Passed (LayoutCursor padded_end (ti_relative_offset tensor) raw_end,
              out <| lr_tensors_validated ::= λ n, u64 (n + 1) |>)
  end.

(** The loop over the directory, from [index] on. *)
Fixpoint layout_tensors (remaining : nat) (artifact : yvex_artifact) (gguf : yvex_gguf) (index : Z)
    (state : layout_cursor * yvex_gguf_layout_result) : checked (layout_cursor * yvex_gguf_layout_result) :=
  match remaining with
  | O => Passed state
  | S remaining =>
      state ← layout_validate_tensor artifact gguf index state;
      layout_tensors remaining artifact gguf (index + 1) state
  end.

(** The file-wide facts before the directory loop.
    src/src/gguf/layout_integrity.c:301-358, [yvex_gguf_layout_validate] *)
Definition layout_admit_view (artifact : yvex_artifact) (gguf : yvex_gguf) (snapshot : yvex_status)
    : checked yvex_gguf_layout_result :=
  let out := layout_result_init <| lr_alignment := gg_alignment gguf |>
               <| lr_tensor_count := yvex_gguf_tensor_count gguf |>
               <| lr_tensor_data_offset := gg_tensor_data_offset gguf |>
               <| lr_actual_file_size := ar_size artifact |> in
  fail_when negb (yvex_gguf_file_size gguf =? lr_actual_file_size out)
    with out YVEX_GGUF_LAYOUT_VIEW_FILE_MISMATCH
      "parsed GGUF view does not describe the opened artifact size";
  let out := out <| lr_structural_bytes_read := rs_structural_bytes_read (gg_stats gguf) |>
                 <| lr_directory_end := rs_directory_end_offset (gg_stats gguf) |>
                 <| lr_tensor_payload_bytes_read := 0 |> in
  fail_when bool_decide (snapshot ≠ YVEX_OK)
    with out YVEX_GGUF_LAYOUT_FILE_IDENTITY_DRIFT "artifact identity changed before layout validation";
  let alignment_value := yvex_gguf_metadata_find gguf (Some "general.alignment"%string) in
  fail_when bool_decide (is_Some alignment_value)
            && (negb (bool_decide (yvex_gguf_value_type_of alignment_value = YVEX_GGUF_VALUE_UINT32))
                || negb (bool_decide (is_Some (yvex_gguf_value_as_u64 alignment_value))))
    with out YVEX_GGUF_LAYOUT_INVALID_ALIGNMENT_TYPE "general.alignment must have GGUF uint32 type";
  fail_when match yvex_gguf_value_as_u64 alignment_value with
            | Some alignment_metadata => negb (alignment_metadata =? lr_alignment out)
            | None => false
            end
    with out YVEX_GGUF_LAYOUT_VIEW_FILE_MISMATCH "parsed alignment differs from metadata";
  fail_when lr_alignment out =? 0
    with out YVEX_GGUF_LAYOUT_INVALID_ALIGNMENT_VALUE "general.alignment must be nonzero";
  fail_when negb (power_of_two_bits (lr_alignment out))
    with out YVEX_GGUF_LAYOUT_ALIGNMENT_NOT_POWER_OF_TWO "general.alignment must be a power of two";
  match align_up_power_of_two (lr_directory_end out) (lr_alignment out) with
  | None =>
      layout_fail out YVEX_GGUF_LAYOUT_ALIGNMENT_OVERFLOW "directory-to-data alignment overflows"
  | Some tensor_data_offset =>
      let out := out <| lr_tensor_data_offset := tensor_data_offset |> in
      fail_when negb (tensor_data_offset =? gg_tensor_data_offset gguf)
        with out YVEX_GGUF_LAYOUT_VIEW_FILE_MISMATCH
          "parsed tensor-data offset is not the canonical aligned directory end";
      let out := out <| lr_directory_padding_bytes := u64 (tensor_data_offset - lr_directory_end out) |> in
      fail_when lr_actual_file_size out <? tensor_data_offset
        with (out <| lr_failure_absolute_offset := lr_directory_end out |>)
          YVEX_GGUF_LAYOUT_PADDING_TRUNCATED "directory-to-data padding is truncated";
      read_zero_padding artifact (lr_directory_end out) (lr_directory_padding_bytes out)
        YVEX_GGUF_LAYOUT_DIRECTORY_PADDING_NONZERO out
  end.

(** The span of the whole file after the directory loop.
    src/src/gguf/layout_integrity.c:366-400, [yvex_gguf_layout_validate] *)
Definition layout_close_span (cursor : layout_cursor) (snapshot : yvex_status)
    (out : yvex_gguf_layout_result) : checked yvex_gguf_layout_result :=
  let overflow := "aggregate GGUF layout span overflows"%string in
  let out := out <| lr_data_section_span := cu_expected cursor |> in
  padding ← sum_or_fail out overflow (lr_directory_padding_bytes out) (lr_inter_tensor_padding_bytes out);
  let out := out <| lr_total_padding_bytes := padding |> in
  padding ← sum_or_fail out overflow (lr_total_padding_bytes out) (lr_final_tensor_padding_bytes out);
  let out := out <| lr_total_padding_bytes := padding |> in
  required ← sum_or_fail out overflow (lr_tensor_data_offset out) (lr_data_section_span out);
  let out := out <| lr_required_file_end := required |> in
  fail_when lr_actual_file_size out <? lr_required_file_end out
    with out YVEX_GGUF_LAYOUT_PADDING_TRUNCATED
      "GGUF file ends before the required padded data span";
  let out := out <| lr_trailing_bytes := u64 (lr_actual_file_size out - lr_required_file_end out) |> in
  fail_when negb (lr_trailing_bytes out =? 0)
    with (out <| lr_failure_absolute_offset := lr_required_file_end out |>)
      YVEX_GGUF_LAYOUT_NONCANONICAL_TAIL "bytes after the canonical padded data span are not admitted";
  fail_when bool_decide (snapshot ≠ YVEX_OK)
    with out YVEX_GGUF_LAYOUT_FILE_IDENTITY_DRIFT "artifact identity changed during layout validation";
  Passed (out <| lr_tensor_index := ULLONG_MAX |> <| lr_tensor_name := "" |>
            <| lr_code := YVEX_GGUF_LAYOUT_OK |> <| lr_accepted := true |>
            <| lr_reason :=
                 "canonical GGUF directory order, padded spans, and zero padding accepted" |>).

(** src/src/gguf/layout_integrity.c, [yvex_gguf_layout_validate]
    [before] and [after] are the answers of the two snapshot validations. *)
Definition yvex_gguf_layout_validate (artifact : option yvex_artifact) (gguf : option yvex_gguf)
    (before after : yvex_status) : yvex_gguf_layout_result * yvex_status :=
  let result :=
    match artifact, gguf with
    | Some artifact, Some gguf =>
        out ← layout_admit_view artifact gguf before;
        '(cursor, out) ← layout_tensors (Z.to_nat (lr_tensor_count out)) artifact gguf 0 (LayoutCursor 0 0 0, out);
        layout_close_span cursor after out
    | _, _ =>
        layout_fail layout_result_init YVEX_GGUF_LAYOUT_INVALID_ARGUMENT
          "artifact and parsed GGUF view are required"
    end in
  match result with
  | Passed out => (out, YVEX_OK)
  | Failed out => (out, YVEX_ERR_FORMAT)
  end.

(** * Alignment *)

Lemma power_of_two_bits_spec a :
  is_u32 a → a ≠ 0 → power_of_two_bits a = true → ∃ k, 0 ≤ k ∧ a = 2 ^ k.
Proof.
  intros Ha Hz. unfold power_of_two_bits. intros H. guards. rewrite u32_id in H by ulia.
  exists (Z.log2 a). split; [apply Z.log2_nonneg|].
  assert (0 < a) by ulia. pose proof (Z.log2_spec a ltac:(lia)) as [Hlo Hhi].
  destruct (Z.eq_dec a (2 ^ Z.log2 a)) as [|Hne]; [done|].
  assert (Hl : Z.log2 (a - 1) = Z.log2 a).
  { apply Z.log2_unique; [apply Z.log2_nonneg|lia]. }
  assert (Z.testbit (Z.land a (a - 1)) (Z.log2 a) = true) as Hbit.
  { rewrite Z.land_spec, Z.bit_log2 by lia. rewrite <- Hl. apply Z.bit_log2.
    pose proof (Z.pow_pos_nonneg 2 (Z.log2 a) ltac:(lia) ltac:(apply Z.log2_nonneg)). lia. }
  by rewrite H, Z.bits_0 in Hbit.
Qed.

Lemma pow2_power_of_two_bits k : 0 ≤ k → 2 ^ k ≤ UINT32_MAX → power_of_two_bits (2 ^ k) = true.
Proof.
  intros Hk Hle. unfold power_of_two_bits. pose proof (Z.pow_pos_nonneg 2 k ltac:(lia) Hk).
  rewrite u32_id by ulia. guards.
  replace (2 ^ k - 1) with (Z.ones k) by (rewrite Z.ones_equiv; lia).
  by rewrite Z.land_ones, Z.mod_same by lia.
Qed.

(** Clearing the low bits. *)
Lemma land_lnot_mask k sum :
  0 ≤ k → 2 ^ k ≤ UINT32_MAX → is_u64 sum →
  Z.land sum (u64 (Z.lnot (u64 (2 ^ k - 1)))) = sum / 2 ^ k * 2 ^ k.
Proof.
  intros Hk Hle Hs. pose proof (Z.pow_pos_nonneg 2 k ltac:(lia) Hk).
  rewrite (u64_id (2 ^ k - 1)) by ulia.
  replace (2 ^ k - 1) with (Z.ones k) by (rewrite Z.ones_equiv; lia).
  unfold u64. change 18446744073709551616 with (2 ^ 64). rewrite <- Z.land_ones by lia.
  rewrite (Z.land_comm (Z.lnot _)), Z.land_assoc, Z.land_ones by lia.
  rewrite Z.mod_small by (change (2 ^ 64) with 18446744073709551616; ulia).
  rewrite <- Z.ldiff_land, Z.ldiff_ones_r, Z.shiftr_div_pow2, Z.shiftl_mul_pow2 by lia. done.
Qed.

Lemma align_up_spec value alignment :
  is_u64 value → is_u32 alignment →
  align_up_power_of_two value alignment =
    if negb (alignment =? 0) && power_of_two_bits alignment && (value + alignment - 1 <=? ULLONG_MAX)
    then Some (round_up alignment value) else None.
Proof.
  intros Hv Ha. unfold align_up_power_of_two.
  destruct (Z.eqb_spec alignment 0) as [|Hz]; [done|]. cbn [orb negb andb].
  destruct (power_of_two_bits alignment) eqn:Hp; [|done]. cbn [negb andb].
  unfold yvex_gguf_layout_sum_checked. rewrite (u64_id (alignment - 1)) by ulia.
  destruct (Z.leb_spec (value + alignment - 1) ULLONG_MAX) as [Hle|Hle].
  - rewrite (proj2 (Z.ltb_ge _ _)) by lia.
    destruct (power_of_two_bits_spec alignment Ha Hz Hp) as (k & Hk & ->).
    rewrite <- (u64_id (2 ^ k - 1)) at 2 by ulia.
    rewrite land_lnot_mask; [|done|ulia|ulia]. unfold round_up. do 2 f_equal. f_equal. lia.
  - rewrite (proj2 (Z.ltb_lt _ _)) by lia. done.
Qed.

Lemma round_up_bounds alignment value :
  0 < alignment → value ≤ round_up alignment value < value + alignment.
Proof.
  intros Ha. unfold round_up.
  pose proof (Z.div_mod (value + alignment - 1) alignment ltac:(lia)).
  pose proof (Z.mod_pos_bound (value + alignment - 1) alignment Ha). lia.
Qed.

Lemma round_up_divide alignment value : (alignment | round_up alignment value).
Proof. unfold round_up. apply Z.divide_factor_r. Qed.

(** A multiple within one alignment above is the rounded value. *)
Lemma round_up_unique alignment value r :
  0 < alignment → (alignment | r) → value ≤ r < value + alignment → round_up alignment value = r.
Proof.
  intros Ha [k ->] Hr. unfold round_up.
  rewrite (Z.div_unique (value + alignment - 1) alignment k (value + alignment - 1 - k * alignment)); lia.
Qed.

(** * Zero padding *)

Lemma list_find_zero bytes : list_find (λ byte, byte ≠ 0) bytes = None → bytes = replicate (length bytes) 0.
Proof.
  rewrite list_find_None. induction 1 as [|b l Hb _ IH]; [done|]. cbn.
  destruct (decide (b = 0)) as [->|]; [by f_equal|done].
Qed.

Lemma list_find_replicate n : list_find (λ byte, byte ≠ 0) (replicate n 0) = None.
Proof. rewrite list_find_None. apply Forall_replicate. by intros []. Qed.

(** Pass the next guard of a validation, written [guard], keeping what its failure says. *)
Ltac pass_guard guard :=
  lazymatch goal with
  | |- (if ?b then _ else _) = _ → _ =>
      change b with guard; let E := fresh "E" in destruct guard eqn:E; [done|]
  end.

Section padding.
Context (artifact : yvex_artifact) (file : list Z) (Hfile : reads_file artifact file).
Context (Hsize : is_u64 (ar_size artifact)).

(** Only the two read counters change. *)
Definition padding_read (out : yvex_gguf_layout_result) (bytes calls : Z) : yvex_gguf_layout_result :=
  out <| lr_padding_bytes_read := bytes |> <| lr_padding_read_calls := calls |>.

Lemma zero_padding_loop_sound fuel offset length_ code done_ out out' :
  0 ≤ offset → 0 ≤ done_ ≤ length_ → offset + length_ ≤ ULLONG_MAX →
  zero_padding_loop fuel artifact offset length_ code done_ out = Passed out' →
  file_range file (offset + done_) (offset + length_) = replicate (Z.to_nat (length_ - done_)) 0 ∧
  (done_ < length_ → offset + length_ ≤ ar_size artifact) ∧
  ∃ calls, out' = padding_read out (u64 (lr_padding_bytes_read out + (length_ - done_))) calls ∨
           done_ = length_ ∧ out' = out.
Proof.
  intros Ho. revert done_ out. induction fuel as [|fuel IH]; intros done_ out Hd Hmax; cbn [zero_padding_loop].
  - split_guard; guards; [done|]. intros [= <-]. assert (done_ = length_) as -> by lia.
    rewrite Z.sub_diag, file_range_nil. split_and!; [done|lia|]. exists 0. by right.
  - split_guard; guards.
    2:{ intros [= <-]. assert (done_ = length_) as -> by lia.
        rewrite Z.sub_diag, file_range_nil. split_and!; [done|lia|]. exists 0. by right. }
    cbv zeta. set (n := Z.min (length_ - done_) YVEX_GGUF_LAYOUT_PADDING_CHUNK).
    assert (Hn : 0 < n ≤ length_ - done_) by (unfold n, YVEX_GGUF_LAYOUT_PADDING_CHUNK; lia).
    clearbody n. rewrite (u64_id (offset + done_)) by ulia.
    destruct (yvex_artifact_read_at artifact (offset + done_) n) as [bytes|] eqn:Er; [|done].
    apply (read_at_sound artifact file Hfile) in Er as (-> & Hlen & Hin); [|lia..].
    destruct (list_find _ _) as [[i b]|] eqn:Ef; [done|].
    apply list_find_zero in Ef. intros Hrest.
    destruct (IH (done_ + n) _ ltac:(lia) ltac:(lia) Hrest) as (H1 & H2 & calls & H3).
    rewrite <- (file_range_app file (offset + done_) (offset + done_ + n)) by lia.
    rewrite Z.add_assoc in H1. rewrite H1, Ef. split; [|split].
    + rewrite <- replicate_add. f_equal. lia.
    + intros _. destruct (decide (done_ + n < length_)); [by apply H2|lia].
    + destruct H3 as [-> | [Hd' ->]].
      * exists calls. left. unfold padding_read. cbn. f_equal.
        unfold u64. rewrite Zplus_mod_idemp_l. f_equal. lia.
      * exists (u64 (lr_padding_read_calls out + 1)). left. unfold padding_read. cbn.
        replace (length_ - done_) with n by lia. done.
Qed.

Lemma read_zero_padding_sound offset length_ code out out' :
  0 ≤ offset → 0 ≤ length_ → offset + length_ ≤ ULLONG_MAX → is_u64 (lr_padding_bytes_read out) →
  read_zero_padding artifact offset length_ code out = Passed out' →
  file_range file offset (offset + length_) = replicate (Z.to_nat length_) 0 ∧
  ∃ calls, out' = padding_read out (u64 (lr_padding_bytes_read out + length_)) calls.
Proof.
  intros Ho Hl Hmax Hread H. destruct (zero_padding_loop_sound _ offset length_ code 0 out out' Ho ltac:(lia) Hmax H)
    as (H1 & _ & calls & H3).
  rewrite Z.add_0_r, Z.sub_0_r in H1. split; [done|]. rewrite Z.sub_0_r in H3.
  destruct H3 as [->|[<- ->]]; [by exists calls|]. exists (lr_padding_read_calls out).
  rewrite Z.add_0_r, u64_id by done. by destruct out.
Qed.

Lemma zero_padding_loop_complete fuel offset length_ code done_ out :
  reads_all artifact → ar_size artifact ≤ INT64_MAX →
  0 ≤ offset → 0 ≤ done_ ≤ length_ → offset + length_ ≤ ar_size artifact →
  length_ - done_ ≤ 4096 * Z.of_nat fuel →
  file_range file (offset + done_) (offset + length_) = replicate (Z.to_nat (length_ - done_)) 0 →
  ∃ out', zero_padding_loop fuel artifact offset length_ code done_ out = Passed out'.
Proof.
  intros Hall Hmax Ho. revert done_ out. induction fuel as [|fuel IH]; intros done_ out Hd Hin Hfuel Hz;
    cbn [zero_padding_loop].
  - rewrite (proj2 (Z.ltb_ge _ _)) by lia. by eexists.
  - split_guard; guards; [|by eexists].
    cbv zeta. set (n := Z.min (length_ - done_) YVEX_GGUF_LAYOUT_PADDING_CHUNK).
    assert (Hn : 0 < n ≤ length_ - done_ ∧ (n = length_ - done_ ∨ n = 4096))
      by (unfold n, YVEX_GGUF_LAYOUT_PADDING_CHUNK; lia).
    clearbody n. rewrite (u64_id (offset + done_)) by ulia.
    rewrite (read_at_complete artifact file Hfile) by (done || lia).
    rewrite <- (file_range_app file (offset + done_) (offset + done_ + n)) in Hz by lia.
    replace (Z.to_nat (length_ - done_)) with (Z.to_nat n + Z.to_nat (length_ - (done_ + n)))%nat in Hz by lia.
    rewrite replicate_add in Hz. apply app_inj_len in Hz as [Hz1 Hz2].
    2:{ rewrite length_replicate. pose proof (length_file_range file (offset + done_) (offset + done_ + n)).
        destruct Hfile as [Hs _]. lia. }
    rewrite Hz1, list_find_replicate. apply IH; [lia|lia|lia|]. by rewrite Z.add_assoc.
Qed.
End padding.

(** * The canonical layout *)

(** One tensor's payload and the number of padding bytes after it. *)
Definition part : Type := list Z * Z.
Definition part_size (p : part) : Z := Z.of_nat (length p.1) + p.2.
Definition part_bytes (p : part) : list Z := p.1 ++ replicate (Z.to_nat p.2) 0.
Definition span (parts : list part) : Z := total (part_size <$> parts).
Definition parts_bytes (parts : list part) : list Z := parts ≫= part_bytes.

(** A directory row describes its part at the relative offset [rel] of a data section starting at
    [base]. *)
Record tensor_placed (alignment base rel : Z) (tensor : yvex_gguf_tensor_info) (p : part) : Prop :=
  TensorPlaced {
  tp_storage : st_status (yvex_gguf_qtype_tensor_storage (ti_ggml_type tensor) (Some (ti_dims tensor))
                            (ti_rank tensor)) = YVEX_GGUF_QTYPE_STORAGE_OK;
  tp_payload : st_total_bytes (yvex_gguf_qtype_tensor_storage (ti_ggml_type tensor)
                 (Some (ti_dims tensor)) (ti_rank tensor)) = Z.of_nat (length p.1);
  tp_size : ti_storage_bytes tensor = Z.of_nat (length p.1);
  tp_relative : ti_relative_offset tensor = rel;
  tp_absolute : ti_absolute_offset tensor = base + rel;
  tp_end : ti_absolute_end_offset tensor = base + rel + Z.of_nat (length p.1);
  tp_padding : 0 ≤ p.2 < alignment;
  tp_aligned : (alignment | rel + part_size p);
}.

(** The rows of the directory describe consecutive parts. *)
Definition tensors_placed (alignment base : Z) (tensors : list yvex_gguf_tensor_info)
    (parts : list part) : Prop :=
  length tensors = length parts ∧
  ∀ i tensor p, tensors !! i = Some tensor → parts !! i = Some p →
    tensor_placed alignment base (span (take i parts)) tensor p.

Lemma span_snoc parts p : span (parts ++ [p]) = span parts + part_size p.
Proof. unfold span. rewrite fmap_app, total_app, fmap_cons, total_cons. change (total (part_size <$> [])) with 0. lia. Qed.

Lemma parts_bytes_snoc parts p : parts_bytes (parts ++ [p]) = parts_bytes parts ++ part_bytes p.
Proof. unfold parts_bytes. rewrite bind_app. cbn. by rewrite app_nil_r. Qed.

Lemma tensors_placed_snoc alignment base tensors parts tensor p :
  tensors_placed alignment base tensors parts → tensor_placed alignment base (span parts) tensor p →
  tensors_placed alignment base (tensors ++ [tensor]) (parts ++ [p]).
Proof.
  intros [Hl H] Hp. split; [rewrite !length_app; cbn; lia|]. intros i t q Ht Hq.
  destruct (decide (i < length parts)%nat) as [Hi|Hi].
  - rewrite take_app_le by lia. rewrite lookup_app_l in Ht by lia. rewrite lookup_app_l in Hq by lia. by eapply H.
  - assert (i = length parts) as ->.
    { apply lookup_lt_Some in Hq. rewrite length_app in Hq. cbn in Hq. lia. }
    rewrite take_app_length. rewrite list_lookup_middle in Hq by done.
    rewrite list_lookup_middle in Ht by done. by simplify_eq.
Qed.

(** Machine ranges of a parsed view. *)
Definition tensor_in_range (tensor : yvex_gguf_tensor_info) : Prop :=
  is_u32 (ti_ggml_type tensor) ∧ is_u32 (ti_rank tensor) ∧
  ti_rank tensor ≤ Z.of_nat (length (ti_dims tensor)) ∧ Forall is_u64 (ti_dims tensor) ∧
  is_u64 (ti_relative_offset tensor).

Definition view_in_range (gguf : yvex_gguf) : Prop :=
  is_u32 (gg_alignment gguf) ∧
  (yvex_gguf_tensor_count gguf = Z.of_nat (length (gg_tensors gguf)) ∧
   is_u64 (yvex_gguf_tensor_count gguf)) ∧
  is_u64 (rs_directory_end_offset (gg_stats gguf)) ∧ Forall tensor_in_range (gg_tensors gguf).

(** The result without its diagnostics. *)
Definition erase (out : yvex_gguf_layout_result) : yvex_gguf_layout_result :=
  out <| lr_tensor_index := 0 |> <| lr_tensor_name := "" |> <| lr_expected_relative_offset := 0 |>
      <| lr_declared_relative_offset := 0 |> <| lr_tensor_raw_size := 0 |>
      <| lr_tensor_padded_size := 0 |> <| lr_tensor_raw_end := 0 |> <| lr_tensor_padded_end := 0 |>
      <| lr_failure_absolute_offset := 0 |> <| lr_tensors_validated := 0 |>
      <| lr_padding_read_calls := 0 |>.

Lemma storage_total_range tensor :
  tensor_in_range tensor →
  st_status (yvex_gguf_qtype_tensor_storage (ti_ggml_type tensor) (Some (ti_dims tensor)) (ti_rank tensor))
    = YVEX_GGUF_QTYPE_STORAGE_OK →
  0 < st_total_bytes (yvex_gguf_qtype_tensor_storage (ti_ggml_type tensor) (Some (ti_dims tensor))
                        (ti_rank tensor)) ≤ ULLONG_MAX.
Proof.
  intros (H1 & H2 & H3 & H4 & _) Hs. pose proof (tensor_storage_meaning _ _ _ H1 H2 H3 H4) as H.
  unfold storage_meaning in H. rewrite Hs in H. cbv zeta in H. by destruct H as (g & ? & ? & ? & ? & ? & H); destruct_and!.
Qed.

Lemma measure_tensor_sound tensor index cursor out out' raw_size raw_end padded_end :
  is_u32 (lr_alignment out) → tensor_in_range tensor → (index = 0 → cu_expected cursor = 0) → 0 ≤ index →
  layout_measure_tensor tensor index cursor out = Passed (out', raw_size, raw_end, padded_end) →
  erase out' = erase out ∧
  st_status (yvex_gguf_qtype_tensor_storage (ti_ggml_type tensor) (Some (ti_dims tensor)) (ti_rank tensor))
    = YVEX_GGUF_QTYPE_STORAGE_OK ∧
  raw_size = st_total_bytes (yvex_gguf_qtype_tensor_storage (ti_ggml_type tensor)
    (Some (ti_dims tensor)) (ti_rank tensor)) ∧
  ti_storage_bytes tensor = raw_size ∧ ti_relative_offset tensor = cu_expected cursor ∧
  raw_end = ti_relative_offset tensor + raw_size ∧
  0 < lr_alignment out ∧ padded_end = round_up (lr_alignment out) raw_end ∧
  raw_end + lr_alignment out - 1 ≤ ULLONG_MAX.
Proof.
  intros Ha Ht H0 Hi. pose proof (storage_total_range tensor Ht) as Hst.
  unfold layout_measure_tensor. cbv zeta.
  set (storage := yvex_gguf_qtype_tensor_storage _ _ _) in *.
  split_guard; [done|]. split_guard; [done|]. guards. specialize (Hst E).
  match goal with |- context [yvex_gguf_layout_interval_measure _ _ ?a] => change a with (lr_alignment out) end.
  unfold yvex_gguf_layout_interval_measure.
  destruct (lr_alignment out =? 0) eqn:Ez; [done|]. destruct (power_of_two_bits (lr_alignment out)) eqn:Ep; [|done].
  cbn [negb]. destruct (ULLONG_MAX - ti_relative_offset tensor <? st_total_bytes storage) eqn:Eo; [done|].
  guards. destruct Ht as (_ & _ & _ & _ & Hrel).
  rewrite align_up_spec by ulia. rewrite Ep. rewrite (proj2 (Z.eqb_neq _ _)) by done. cbn [negb andb].
  destruct (_ <=? ULLONG_MAX) eqn:El; [|done].
  destruct ((index =? 0) && negb (ti_relative_offset tensor =? 0)) eqn:E1; [done|].
  destruct ((0 <? index) && negb (ti_relative_offset tensor =? cu_expected cursor)) eqn:E2; [done|].
  intros [= <- <- <- <-]. guards.
  split_and!; try done; [|ulia].
  destruct (decide (index = 0)) as [->|Hne]; [rewrite H0 by done; lia|lia].
Qed.

Lemma sum_or_fail_inv {A} out reason a b (k : Z → checked A) r :
  mbind k (sum_or_fail out reason a b) = Passed r → a + b ≤ ULLONG_MAX ∧ k (a + b) = Passed r.
Proof.
  unfold sum_or_fail, yvex_gguf_layout_sum_checked. split_guard; [done|]. guards. split; [lia|done].
Qed.

Lemma place_tensor_sound tensor raw_size padded_end out out' :
  layout_place_tensor tensor raw_size padded_end out = Passed out' →
  out' = out ∧
  ti_absolute_offset tensor = lr_tensor_data_offset out + ti_relative_offset tensor ∧
  ti_absolute_end_offset tensor = lr_tensor_data_offset out + ti_relative_offset tensor + raw_size ∧
  ti_absolute_end_offset tensor ≤ lr_actual_file_size out ∧
  lr_tensor_data_offset out + padded_end ≤ lr_actual_file_size out.
Proof.
  unfold layout_place_tensor. cbv zeta.
  intros [_ [_ [_ H]%sum_or_fail_inv]%sum_or_fail_inv]%sum_or_fail_inv. cbn beta in H.
  split_guard; [done|]. split_guard; [done|]. split_guard; [done|]. guards. by injection H as <-.
Qed.

Section tensors.
Context (artifact : yvex_artifact) (file : list Z) (Hfile : reads_file artifact file).
Context (Hsize : is_u64 (ar_size artifact)).
Context (gguf : yvex_gguf) (Hview : view_in_range gguf).

(** The data section up to [parts] is the directory's first [length parts] rows; the counters of the
    result are exact. *)
Record layout_progress (parts : list part) (cursor : layout_cursor) (out : yvex_gguf_layout_result)
    : Prop := LayoutProgress {
  lp_alignment : lr_alignment out = gg_alignment gguf;
  lp_count : lr_tensor_count out = yvex_gguf_tensor_count gguf;
  lp_base : lr_tensor_data_offset out = gg_tensor_data_offset gguf;
  lp_size : lr_actual_file_size out = ar_size artifact;
  lp_directory : lr_directory_end out = rs_directory_end_offset (gg_stats gguf);
  lp_directory_padding : lr_directory_padding_bytes out =
    gg_tensor_data_offset gguf - rs_directory_end_offset (gg_stats gguf);
  lp_payload : lr_tensor_payload_bytes_read out = 0;
  lp_order : 0 ≤ rs_directory_end_offset (gg_stats gguf) ≤ gg_tensor_data_offset gguf;
  lp_expected : cu_expected cursor = span parts;
  lp_span : 0 ≤ span parts ∧ gg_tensor_data_offset gguf + span parts ≤ ar_size artifact;
  lp_placed : tensors_placed (gg_alignment gguf) (gg_tensor_data_offset gguf)
    (take (length parts) (gg_tensors gguf)) parts;
  lp_bytes : file_range file (gg_tensor_data_offset gguf) (gg_tensor_data_offset gguf + span parts) =
    parts_bytes parts;
  lp_raw : lr_raw_tensor_bytes out = total ((λ p, Z.of_nat (length p.1)) <$> parts);
  lp_paddings : 0 ≤ lr_inter_tensor_padding_bytes out ∧ 0 ≤ lr_final_tensor_padding_bytes out ∧
    lr_inter_tensor_padding_bytes out + lr_final_tensor_padding_bytes out = total (snd <$> parts) ∧
    ((length parts < length (gg_tensors gguf))%nat → lr_final_tensor_padding_bytes out = 0);
  lp_read : lr_padding_bytes_read out =
    gg_tensor_data_offset gguf - rs_directory_end_offset (gg_stats gguf) + total (snd <$> parts);
}.

Lemma progress_erase parts cursor out out' :
  erase out' = erase out → layout_progress parts cursor out → layout_progress parts cursor out'.
Proof.
  intros E []. constructor; try done.
  - by rewrite <- lp_alignment0; apply (f_equal lr_alignment) in E.
  - by rewrite <- lp_count0; apply (f_equal lr_tensor_count) in E.
  - by rewrite <- lp_base0; apply (f_equal lr_tensor_data_offset) in E.
  - by rewrite <- lp_size0; apply (f_equal lr_actual_file_size) in E.
  - by rewrite <- lp_directory0; apply (f_equal lr_directory_end) in E.
  - by rewrite <- lp_directory_padding0; apply (f_equal lr_directory_padding_bytes) in E.
  - by rewrite <- lp_payload0; apply (f_equal lr_tensor_payload_bytes_read) in E.
  - by rewrite <- lp_raw0; apply (f_equal lr_raw_tensor_bytes) in E.
  - apply (f_equal lr_inter_tensor_padding_bytes) in E as E1. apply (f_equal lr_final_tensor_padding_bytes) in E as E2.
    change (lr_inter_tensor_padding_bytes out' = lr_inter_tensor_padding_bytes out) in E1.
    change (lr_final_tensor_padding_bytes out' = lr_final_tensor_padding_bytes out) in E2.
    by rewrite E1, E2.
  - by rewrite <- lp_read0; apply (f_equal lr_padding_bytes_read) in E.
Qed.

Lemma payload_total_le parts : Forall (λ p, 0 ≤ p.2) parts →
  0 ≤ total (snd <$> parts) ∧ 0 ≤ total ((λ p : part, Z.of_nat (length p.1)) <$> parts) ∧
  span parts = total ((λ p : part, Z.of_nat (length p.1)) <$> parts) + total (snd <$> parts).
Proof.
  unfold span, part_size. induction 1 as [|p l Hp _ IH]; [by change (total _) with 0|].
  rewrite !fmap_cons, !total_cons. lia.
Qed.

Lemma placed_padding alignment base tensors parts :
  tensors_placed alignment base tensors parts → Forall (λ p, 0 ≤ p.2) parts.
Proof.
  intros [Hl H]. rewrite Forall_lookup. intros i p Hp.
  destruct (lookup_lt_is_Some_2 tensors i) as [t Ht]; [rewrite Hl; by eapply lookup_lt_Some|].
  apply (H i t p Ht Hp).
Qed.

Lemma bind_passed {A B} (m : checked A) (k : A → checked B) b :
  m ≫= k = Passed b → ∃ a, m = Passed a ∧ k a = Passed b.
Proof. destruct m as [a|]; [by exists a|done]. Qed.

Lemma validate_tensor_step parts cursor out state tensor :
  layout_progress parts cursor out → gg_tensors gguf !! length parts = Some tensor →
  layout_validate_tensor artifact gguf (Z.of_nat (length parts)) (cursor, out) = Passed state →
  ∃ p, layout_progress (parts ++ [p]) state.1 state.2.
Proof.
  intros Hp Ht. destruct Hview as (Va & [Vn Vc] & Vd & Vt).
  assert (Hlt : (length parts < length (gg_tensors gguf))%nat) by by eapply lookup_lt_Some.
  unfold layout_validate_tensor, yvex_gguf_tensor_at. rewrite Vn in *.
  rewrite (proj2 (Z.ltb_lt _ _)) by lia. rewrite array_get_nat, Ht.
  assert (Htr : tensor_in_range tensor) by by eapply Forall_lookup_1.
  apply (progress_erase _ _ _ (out <| lr_tensor_index := Z.of_nat (length parts) |>)) in Hp; [|done].
  set (out0 := out <| lr_tensor_index := _ |>) in *. clearbody out0. clear out.
  intros ([[[out1 raw_size] raw_end] padded_end] & Hm & H)%bind_passed.
  apply measure_tensor_sound in Hm as (He & Hst & Hraw & Hsb & Hrel & Hre & Hapos & Hpe & Hmax);
    [|by rewrite (lp_alignment _ _ _ Hp)|done| |lia].
  2:{ intros Hz. rewrite (lp_expected _ _ _ Hp). by destruct parts. }
  pose proof (storage_total_range tensor Htr Hst) as Hrs. rewrite <- Hraw in Hrs.
  rewrite (lp_alignment _ _ _ Hp) in *.
  apply (progress_erase _ _ _ out1) in Hp; [|done]. clear He out0.
  apply bind_passed in H as (out2 & Hpl & H). apply place_tensor_sound in Hpl as (-> & Habs & Hend & Hfit1 & Hfit2).
  rewrite (lp_base _ _ _ Hp) in *. rewrite (lp_size _ _ _ Hp) in *.
  apply sum_or_fail_inv in H as [Hsum H]. cbv zeta in H.
  pose proof (round_up_bounds (gg_alignment gguf) raw_end Hapos) as Hru. rewrite <- Hpe in Hru.
  rewrite (u64_id (padded_end - raw_end)) in H by ulia.
  set (pad := padded_end - raw_end) in *.
  destruct (lp_paddings _ _ _ Hp) as (Pi & Pf & Psum & Plast). specialize (Plast Hlt).
  rewrite Plast, Z.add_0_r in Psum.
  apply bind_passed in H as (out2 & Hpad & H).
  assert (Hout2 : ∃ inter final,
    out2 = out1 <| lr_raw_tensor_bytes := lr_raw_tensor_bytes out1 + raw_size |>
                <| lr_inter_tensor_padding_bytes := inter |>
                <| lr_final_tensor_padding_bytes := final |> ∧
    0 ≤ inter ∧ 0 ≤ final ∧ inter + final = total (snd <$> parts) + pad ∧
    ((S (length parts) < length (gg_tensors gguf))%nat → final = 0)).
  { change (lr_tensor_count (out1 <| lr_raw_tensor_bytes := _ |>)) with (lr_tensor_count out1) in Hpad.
    rewrite (lp_count _ _ _ Hp) in Hpad. rewrite Vn in Hpad.
    rewrite u64_id in Hpad by ulia. destruct (_ <? Z.of_nat (length (gg_tensors gguf))) eqn:El; guards.
    - apply sum_or_fail_inv in Hpad as [_ [= <-]].
      exists (lr_inter_tensor_padding_bytes out1 + pad), (lr_final_tensor_padding_bytes out1).
      rewrite Plast. split_and!; [by rewrite <- Plast|lia..].
    - injection Hpad as <-. exists (lr_inter_tensor_padding_bytes out1), pad. split_and!; [done|lia..]. }
  destruct Hout2 as (inter & final & -> & Hi & Hf & Hif & Hlast). clear Hpad.
  apply bind_passed in H as (out3 & Hread & [= <-]).
  assert (Hspan := lp_span _ _ _ Hp). assert (Hord := lp_order _ _ _ Hp).
  destruct (payload_total_le parts (placed_padding _ _ _ _ (lp_placed _ _ _ Hp))) as (T1 & T2 & T3).
  rewrite (lp_expected _ _ _ Hp) in Hrel.
  assert (Hps : 0 ≤ pad < gg_alignment gguf) by (unfold pad; lia).
  set (out2 := out1 <| lr_raw_tensor_bytes := _ |> <| lr_inter_tensor_padding_bytes := _ |>
    <| lr_final_tensor_padding_bytes := _ |>) in *.
  assert (Hru64 : is_u64 (lr_padding_bytes_read out2)).
  { change (is_u64 (lr_padding_bytes_read out1)). rewrite (lp_read _ _ _ Hp). ulia. }
  destruct (read_zero_padding_sound artifact file Hfile (ti_absolute_end_offset tensor) pad
    YVEX_GGUF_LAYOUT_TENSOR_PADDING_NONZERO out2 out3 ltac:(lia) ltac:(lia) ltac:(ulia) Hru64 Hread)
    as (Hzero & calls & Eout3).
  subst out3.
  set (payload := file_range file (gg_tensor_data_offset gguf + span parts) (ti_absolute_end_offset tensor)).
  assert (Hplen : Z.of_nat (length payload) = raw_size).
  { unfold payload. rewrite length_file_range; [lia|lia|]. destruct Hfile as [<- _]. lia. }
  assert (Hpsize : part_size (payload, pad) = padded_end - span parts).
  { unfold part_size. cbn [fst snd]. unfold pad. lia. }
  exists (payload, pad). clear Hrs. destruct Hp.
  constructor; try done; cbn [fst snd cu_expected].
  all: rewrite ?span_snoc, ?fmap_app, ?total_app, ?Hpsize.
  - lia.
  - lia.
  - rewrite length_app. cbn [length]. rewrite Nat.add_1_r, (take_S_r _ _ tensor) by done.
    apply tensors_placed_snoc; [done|]. constructor; cbn [fst snd]; try done; try lia.
    rewrite Hpsize. replace (span parts + (padded_end - span parts)) with padded_end by lia.
    subst padded_end. apply round_up_divide.
  - rewrite parts_bytes_snoc, <- lp_bytes0.
    rewrite <- (file_range_app file _ (gg_tensor_data_offset gguf + span parts)) by lia. f_equal.
    unfold part_bytes. cbn [fst snd]. rewrite <- Hzero. unfold payload. rewrite file_range_app by lia.
    f_equal. unfold pad. lia.
  - match goal with |- ?lhs = _ => change lhs with (lr_raw_tensor_bytes out1 + raw_size) end.
    rewrite lp_raw0, <- Hplen. cbn [fmap list_fmap fst]. rewrite total_cons. change (total []) with 0. lia.
  - match goal with |- 0 ≤ ?i ∧ 0 ≤ ?f ∧ _ => change i with inter; change f with final end.
    cbn [fmap list_fmap snd]. rewrite total_cons. change (total []) with 0. rewrite length_app. cbn [length].
    split_and!; [done|done|lia|]. intros Hl. apply Hlast. lia.
  - match goal with |- ?lhs = _ => change lhs with (u64 (lr_padding_bytes_read out1 + pad)) end.
    cbn [fmap list_fmap snd]. rewrite total_cons. change (total []) with 0. rewrite lp_read0, u64_id; [lia|].
    ulia.
Qed.

Lemma layout_tensors_sound remaining parts state state' :
  layout_progress parts state.1 state.2 →
  (length parts + remaining = length (gg_tensors gguf))%nat →
  layout_tensors remaining artifact gguf (Z.of_nat (length parts)) state = Passed state' →
  ∃ parts', layout_progress parts' state'.1 state'.2 ∧ length parts' = length (gg_tensors gguf).
Proof.
  revert parts state. induction remaining as [|remaining IH]; intros parts [cursor out] Hp Hlen; cbn [layout_tensors].
  - intros [= <-]. exists parts. split; [done|lia].
  - intros (state1 & H1 & H2)%bind_passed.
    destruct (lookup_lt_is_Some_2 (gg_tensors gguf) (length parts)) as [tensor Ht]; [lia|].
    destruct (validate_tensor_step _ _ _ _ _ Hp Ht H1) as [p Hp1].
    apply (IH (parts ++ [p]) state1 Hp1); rewrite length_app; cbn [length]; [lia|].
    by rewrite Nat2Z.inj_add.
Qed.

Lemma admit_view_sound before out :
  layout_admit_view artifact gguf before = Passed out →
  layout_progress [] (LayoutCursor 0 0 0) out ∧
  gg_tensor_data_offset gguf = round_up (gg_alignment gguf) (rs_directory_end_offset (gg_stats gguf)) ∧
  0 < gg_alignment gguf ∧ yvex_gguf_file_size gguf = ar_size artifact ∧ before = YVEX_OK ∧
  (∀ value, yvex_gguf_metadata_find gguf (Some "general.alignment"%string) = Some value →
     value = ValueUnsigned YVEX_GGUF_VALUE_UINT32 (gg_alignment gguf)) ∧
  file_range file (rs_directory_end_offset (gg_stats gguf)) (gg_tensor_data_offset gguf) =
    replicate (Z.to_nat (gg_tensor_data_offset gguf - rs_directory_end_offset (gg_stats gguf))) 0.
Proof.
  destruct Hview as (Va & [Vn Vc] & Vd & Vt).
  unfold layout_admit_view. cbv zeta.
  pass_guard (negb (yvex_gguf_file_size gguf =? ar_size artifact)).
  pass_guard (bool_decide (before ≠ YVEX_OK)).
  set (mv := yvex_gguf_metadata_find gguf (Some "general.alignment"%string)).
  pass_guard (bool_decide (is_Some mv) &&
    (negb (bool_decide (yvex_gguf_value_type_of mv = YVEX_GGUF_VALUE_UINT32))
     || negb (bool_decide (is_Some (yvex_gguf_value_as_u64 mv))))).
  pass_guard (match yvex_gguf_value_as_u64 mv with
              | Some m => negb (m =? gg_alignment gguf) | None => false end).
  pass_guard (gg_alignment gguf =? 0).
  pass_guard (negb (power_of_two_bits (gg_alignment gguf))).
  lazymatch goal with |- match ?b with _ => _ end = _ → _ =>
    change b with (align_up_power_of_two (rs_directory_end_offset (gg_stats gguf)) (gg_alignment gguf)) end.
  rewrite align_up_spec by done. rewrite E3. apply negb_false_iff in E4. rewrite E4. cbn [negb andb].
  set (base := round_up (gg_alignment gguf) (rs_directory_end_offset (gg_stats gguf))).
  destruct (_ <=? ULLONG_MAX) eqn:E7; [|done].
  pass_guard (negb (base =? gg_tensor_data_offset gguf)).
  pass_guard (ar_size artifact <? base).
  guards. assert (Hapos : 0 < gg_alignment gguf) by ulia.
  pose proof (round_up_bounds (gg_alignment gguf) (rs_directory_end_offset (gg_stats gguf)) Hapos) as Hru.
  fold base in Hru. intros Hread.
  match type of Hread with read_zero_padding _ _ _ _ ?o = _ => set (out1 := o) in Hread end.
  change (read_zero_padding artifact (rs_directory_end_offset (gg_stats gguf)) (u64 (base - rs_directory_end_offset (gg_stats gguf)))
            YVEX_GGUF_LAYOUT_DIRECTORY_PADDING_NONZERO out1 = Passed out) in Hread.
  rewrite u64_id in Hread by ulia.
  destruct (read_zero_padding_sound artifact file Hfile (rs_directory_end_offset (gg_stats gguf))
    (base - rs_directory_end_offset (gg_stats gguf)) YVEX_GGUF_LAYOUT_DIRECTORY_PADDING_NONZERO out1 out
    ltac:(ulia) ltac:(lia) ltac:(ulia) ltac:(change (is_u64 0); ulia) Hread) as (Hzero & calls & ->).
  rewrite <- E5 in *.
  replace (rs_directory_end_offset (gg_stats gguf) + (base - rs_directory_end_offset (gg_stats gguf))) with base in Hzero by lia.
  split; [|split_and!; try done].
  - constructor; try done; cbn [length].
    + match goal with |- ?lhs = _ => change lhs with (u64 (base - rs_directory_end_offset (gg_stats gguf))) end.
      rewrite u64_id by ulia. lia.
    + ulia.
    + change (span []) with 0. lia.
    + change (span []) with 0. rewrite Z.add_0_r. by rewrite file_range_nil.
    + match goal with |- ?lhs = _ => change lhs with (u64 (0 + (base - rs_directory_end_offset (gg_stats gguf)))) end.
      rewrite u64_id by ulia. cbn. change (total []) with 0. lia.
  - by destruct (decide (before = YVEX_OK)).
  - intros value Ev. rewrite Ev in E1, E2. unfold yvex_gguf_value_as_u64 in *. cbn in E1, E2.
    destruct value as [[] v|[]|[]| | |[]]; guards; try done;
      try (f_equal; lia); try (by destruct E1 as [[]|[??]]; [eexists|..]).
Qed.

Lemma close_span_sound parts cursor after out out' :
  layout_progress parts cursor out → layout_close_span cursor after out = Passed out' →
  layout_progress parts cursor out' ∧ after = YVEX_OK ∧
  gg_tensor_data_offset gguf + span parts = ar_size artifact ∧
  lr_accepted out' = true ∧ lr_code out' = YVEX_GGUF_LAYOUT_OK ∧ lr_trailing_bytes out' = 0 ∧
  lr_data_section_span out' = span parts ∧ lr_required_file_end out' = ar_size artifact ∧
  lr_total_padding_bytes out' =
    gg_tensor_data_offset gguf - rs_directory_end_offset (gg_stats gguf) + total (snd <$> parts).
Proof.
  intros Hp. unfold layout_close_span. cbv zeta.
  intros [_ [_ [Hreq H]%sum_or_fail_inv]%sum_or_fail_inv]%sum_or_fail_inv. cbn beta in H, Hreq.
  destruct (lp_paddings _ _ _ Hp) as (_ & _ & Hpad & _). destruct (lp_span _ _ _ Hp) as [Hs1 Hs2].
  pose proof (lp_order _ _ _ Hp) as Hord.
  revert H.
  pass_guard (lr_actual_file_size out <? lr_tensor_data_offset out + cu_expected cursor).
  pass_guard (negb (u64 (lr_actual_file_size out - (lr_tensor_data_offset out + cu_expected cursor)) =? 0)).
  pass_guard (bool_decide (after ≠ YVEX_OK)).
  rewrite (lp_size _ _ _ Hp), (lp_base _ _ _ Hp), (lp_expected _ _ _ Hp) in *. guards.
  rewrite u64_id in E0 by ulia. intros [= <-].
  split; [by destruct Hp; constructor|]. split_and!; try done.
  - by destruct (decide (after = YVEX_OK)).
  - lia.
  - cbn [lr_trailing_bytes]. rewrite (lp_size _ _ _ Hp), (lp_base _ _ _ Hp), u64_id by ulia. done.
  - cbn [lr_required_file_end]. rewrite (lp_base _ _ _ Hp). lia.
  - cbn [lr_total_padding_bytes]. rewrite (lp_directory_padding _ _ _ Hp). lia.
Qed.
End tensors.

(** ** The accepted file *)

(** What acceptance says of the file behind any parsed view in machine range. *)
Lemma layout_accepted_partition artifact file gguf before after out :
  reads_file artifact file → is_u64 (ar_size artifact) → view_in_range gguf →
  yvex_gguf_layout_validate (Some artifact) (Some gguf) before after = (out, YVEX_OK) →
  let base := gg_tensor_data_offset gguf in
  ∃ directory parts,
    file = directory ++ replicate (Z.to_nat (base - rs_directory_end_offset (gg_stats gguf))) 0 ++ parts_bytes parts ∧
    Z.of_nat (length directory) = rs_directory_end_offset (gg_stats gguf) ∧
    base = round_up (gg_alignment gguf) (rs_directory_end_offset (gg_stats gguf)) ∧
    tensors_placed (gg_alignment gguf) base (gg_tensors gguf) parts ∧
    lr_accepted out = true ∧ lr_trailing_bytes out = 0 ∧
    lr_required_file_end out = Z.of_nat (length file) ∧
    lr_raw_tensor_bytes out = total ((λ p : part, Z.of_nat (length p.1)) <$> parts) ∧
    lr_total_padding_bytes out = base - rs_directory_end_offset (gg_stats gguf) + total (snd <$> parts) ∧
    lr_padding_bytes_read out = lr_total_padding_bytes out ∧
    lr_tensor_payload_bytes_read out = 0.
Proof.
  intros Hfile Hsize Hview. unfold yvex_gguf_layout_validate.
  destruct (layout_admit_view artifact gguf before) as [out0|] eqn:E0; [|done]. cbn [mbind checked_bind].
  destruct (layout_tensors _ _ _ _ _) as [[cursor out1]|] eqn:E1; [|done].
  cbn [mbind checked_bind].
  destruct (layout_close_span cursor after out1) as [out2|] eqn:E2; [|done]. intros [= <-].
  apply (admit_view_sound artifact file Hfile Hsize gguf Hview) in E0
    as (Hp0 & Hbase & Hapos & _ & _ & _ & Hzero).
  assert (Hn : Z.to_nat (lr_tensor_count out0) = length (gg_tensors gguf)).
  { rewrite (lp_count _ _ _ _ _ _ Hp0). destruct Hview as (_ & [-> _] & _). lia. }
  rewrite Hn in E1.
  destruct (layout_tensors_sound artifact file Hfile Hsize gguf Hview _ [] (LayoutCursor 0 0 0, out0)
    (cursor, out1) Hp0 eq_refl E1) as (parts & Hp1 & Hlen). cbn [fst snd] in Hp1.
  destruct (close_span_sound artifact file Hsize gguf parts cursor after out1 out2 Hp1 E2)
    as (Hp2 & _ & Hend & Hacc & _ & Htr & _ & Hreq & Hpad).
  destruct Hfile as [Hfs _]. pose proof (lp_order _ _ _ _ _ _ Hp2) as Hord.
  destruct (lp_span _ _ _ _ _ _ Hp2) as [Hs1 Hs2].
  exists (file_range file 0 (rs_directory_end_offset (gg_stats gguf))), parts. split_and!; try done.
  - rewrite <- Hzero, <- (lp_bytes _ _ _ _ _ _ Hp2), Hend, Hfs.
    rewrite !file_range_app by (lia). by rewrite file_range_all.
  - rewrite length_file_range by lia. lia.
  - pose proof (lp_placed _ _ _ _ _ _ Hp2) as Hplaced. rewrite Hlen in Hplaced.
    rewrite take_ge in Hplaced; [exact Hplaced|done].
  - lia.
  - apply (lp_raw _ _ _ _ _ _ Hp2).
  - rewrite Hpad. apply (lp_read _ _ _ _ _ _ Hp2).
  - apply (lp_payload _ _ _ _ _ _ Hp2).
Qed.

Lemma opened_view_in_range artifact options gguf :
  options_in_range options → view_ok artifact options gguf → stats_exact artifact gguf →
  is_u64 (Z.of_nat (length (encode_directory gguf))) → view_in_range gguf.
Proof.
  intros Hopt Hview Hst Hlen. pose proof (vo_metadata _ _ _ Hview) as Hrows. unfold view_in_range, yvex_gguf_tensor_count.
  split_and!.
  - pose proof (vo_alignment _ _ _ Hview) as Ha. revert Ha. unfold declared_alignment.
    destruct (list_find _ _) as [[i row]|] eqn:E.
    + apply list_find_Some in E as (E & _). pose proof (Forall_lookup_1 _ _ _ _ Hrows E) as Hrow.
      destruct (me_value row) as [[] v|[]|[]| | |] eqn:Ev; try done. split_guard; [|done]. intros [= <-].
      by apply (entry_unsigned_range options row).
    + intros [= <-]. unfold YVEX_GGUF_DEFAULT_ALIGNMENT. ulia.
  - symmetry. apply (vo_tensor_count _ _ _ Hview).
  - destruct (vo_header _ _ _ Hview) as [_ _ H]. destruct Hopt as (_ & _ & _ & _ & _ & _ & _ & Ht & _). ulia.
  - by rewrite (se_directory_end _ _ Hst).
  - eapply Forall_impl; [apply (vo_tensors _ _ _ Hview)|]. intros tensor Ht.
    destruct (declared_ranges _ _ _ Ht) as (? & ? & ? & ? & ? & _). done.
Qed.

(** * Properties *)

(** C3: A file that opens and whose layout is accepted is exactly its canonical serialisation: the
    encoding of the parsed directory, zero padding up to the alignment, and for each tensor in directory
    order its payload followed by zero padding, with nothing after it. Each row's qtype storage size,
    relative offset and absolute range are those of its payload, padded ends are multiples of the
    alignment and padding is shorter than it, so payloads are disjoint and inside the file; the
    reported raw and padding byte counters are the exact sums and no payload byte was read. *)
Theorem admitted_file_partition memory artifact file options gguf cur before after out :
  reader_environment artifact file (default yvex_gguf_reader_options_default options) →
  yvex_gguf_open_ex memory (Some artifact) options = Parsed gguf cur →
  yvex_gguf_layout_validate (Some artifact) (Some gguf) before after = (out, YVEX_OK) →
  let base := gg_tensor_data_offset gguf in
  ∃ parts,
    file = encode_directory gguf ++
           replicate (Z.to_nat (base - Z.of_nat (length (encode_directory gguf)))) 0 ++ parts_bytes parts ∧
    tensors_placed (gg_alignment gguf) base (gg_tensors gguf) parts ∧
    lr_accepted out = true ∧ lr_required_file_end out = Z.of_nat (length file) ∧
    lr_raw_tensor_bytes out = total ((λ p : part, Z.of_nat (length p.1)) <$> parts) ∧
    lr_total_padding_bytes out =
      base - Z.of_nat (length (encode_directory gguf)) + total (snd <$> parts) ∧
    lr_padding_bytes_read out = lr_total_padding_bytes out ∧ lr_tensor_payload_bytes_read out = 0.
Proof.
  intros Henv Hopen Hlayout base. destruct (open_ex_sound _ _ _ _ _ _ Henv Hopen) as (Hpre & Hview & Hst & _).
  destruct Henv as [Hfile Hsize _ Hopt]. pose proof (proj1 Hfile) as Hs.
  assert (Hlen : (length (encode_directory gguf) ≤ length file)%nat).
  { apply (f_equal length) in Hpre. rewrite length_take in Hpre. lia. }
  destruct (layout_accepted_partition artifact file gguf before after out) as (directory & parts & H1 & H2 & _ & H3 &
    H4 & _ & H5 & H6 & H7 & H8 & H9); [done| | |done|].
  - unfold INT64_MAX in Hsize. ulia.
  - eapply opened_view_in_range; [done..|]. unfold INT64_MAX in Hsize. ulia.
  - fold base in H1, H3, H7. rewrite (se_directory_end _ _ Hst) in *. exists parts. split_and!; try done.
    rewrite H1 in Hpre. rewrite take_app_le in Hpre by lia. rewrite take_ge in Hpre by lia. by rewrite Hpre in H1.
Qed.

(** * Witnesses *)

Lemma admitted_file_partition_witness :
  ∃ parts, sample_file = sample_directory ++ parts ∧
    (yvex_gguf_layout_validate (Some (memory_artifact sample_file)) (Some sample_view) YVEX_OK YVEX_OK).2 = YVEX_OK.
Proof.
  destruct (yvex_gguf_layout_validate (Some (memory_artifact sample_file)) (Some sample_view) YVEX_OK YVEX_OK)
    as [out status] eqn:E.
  assert (status = YVEX_OK) as -> by (apply (f_equal snd) in E; vm_compute in E; by subst).
  destruct (admitted_file_partition (λ _, true) (memory_artifact sample_file) sample_file None sample_view
    sample_cursor YVEX_OK YVEX_OK out sample_environment sample_opens E) as (parts & Hf & _).
  eexists. split; [|done].
  replace sample_directory with (encode_directory sample_view) by (vm_compute; reflexivity). exact Hf.
Defined.
