(* ===== verification/Utf8.v ===== *)
(** UTF-8: the scanner of [src/tokenizer/unicode.c] that every text of the tokenizer goes through, and
    the writers of [src/tokenizer/execution.c] and [src/tokenizer/normalization.c].

    A scalar value has one encoding, the scanner accepts exactly these encodings, and a text is valid
    when it is a concatenation of them. *)

From S2P Require Import Prelude Status Exec.
#[local] Open Scope Z_scope.

(** * The code *)

(** The continuation bytes of a sequence.
    src/src/tokenizer/unicode.c:391-396, [yvex_tokenizer_utf8_next] *)
Fixpoint utf8_continue (needed : nat) (bytes : list Z) (cursor value : Z) : option (Z * Z) :=
  match needed with
  | O => Some (value, cursor)
  | S needed =>
      byte ← array_get bytes cursor;
      if negb (Z.land byte 192 =? 128) then None
      else utf8_continue needed bytes (cursor + 1) (Z.lor (Z.shiftl value 6) (Z.land byte 63))
  end.

(** The scalar value at [offset] and the offset after it. Every read is behind a bound.
    src/src/tokenizer/unicode.c, [yvex_tokenizer_utf8_next] *)
Definition yvex_tokenizer_utf8_next (bytes : list Z) (offset : Z) : option (Z * Z) :=
  let count := Z.of_nat (length bytes) in
  if count <=? offset then None
  else
    first ← array_get bytes offset;
    let cursor := offset + 1 in
    if first <=? 127 then Some (first, cursor)
    else
      '(value, needed) ←
        (if (194 <=? first) && (first <=? 223) then Some (Z.land first 31, 1%nat)
         else if (224 <=? first) && (first <=? 239) then Some (Z.land first 15, 2%nat)
         else if (240 <=? first) && (first <=? 244) then Some (Z.land first 7, 3%nat)
         else None);
      if count - cursor <? Z.of_nat needed then None
      else
        '(value, cursor) ← utf8_continue needed bytes cursor value;
        if (Nat.eqb needed 2 && (value <? 2048)) || (Nat.eqb needed 3 && (value <? 65536)) || (1114111 <? value)
           || ((55296 <=? value) && (value <=? 57343)) then None
        else Some (value, cursor).

(** The bytes of one scalar value.
    src/src/tokenizer/execution.c, [utf8_put] *)
Definition utf8_put (point : Z) : list Z :=
  if point <=? 127 then [u8 point]
  else if point <=? 2047 then
    [u8 (Z.lor 192 (Z.shiftr point 6)); u8 (Z.lor 128 (Z.land point 63))]
  else if point <=? 65535 then
    [u8 (Z.lor 224 (Z.shiftr point 12)); u8 (Z.lor 128 (Z.land (Z.shiftr point 6) 63));
     u8 (Z.lor 128 (Z.land point 63))]
  else
    [u8 (Z.lor 240 (Z.shiftr point 18)); u8 (Z.lor 128 (Z.land (Z.shiftr point 12) 63));
     u8 (Z.lor 128 (Z.land (Z.shiftr point 6) 63)); u8 (Z.lor 128 (Z.land point 63))].

(** The same bytes, written behind the output so far.
    src/src/tokenizer/normalization.c, [utf8_write] *)
Definition utf8_write (output : list Z) (scalar : Z) : list Z := output ++ utf8_put scalar.

(** src/src/tokenizer/normalization.c, [utf8_width] *)
Definition utf8_width (scalar : Z) : Z :=
  if scalar <=? 127 then 1 else if scalar <=? 2047 then 2 else if scalar <=? 65535 then 3 else 4.

(** The loop that scans a whole span.
    src/src/tokenizer/execution.c, [utf8_validate] *)
Fixpoint utf8_validate_from (fuel : nat) (bytes : list Z) (offset : Z) : bool :=
  if offset <? Z.of_nat (length bytes) then
    match fuel with
    | O => false
    | S fuel =>
        match yvex_tokenizer_utf8_next bytes offset with
        | None => false
        | Some (_, offset) => utf8_validate_from fuel bytes offset
        end
    end
  else true.

Definition utf8_validate (bytes : list Z) : bool := utf8_validate_from (length bytes) bytes 0.

(** Division and remainder by constants are linear. *)
#[local] Ltac Zify.zify_post_hook ::= Z.to_euclidean_division_equations.

(** * Scalar values *)

(** A Unicode scalar value: a code point that is no surrogate. *)
Definition is_scalar (point : Z) : Prop := 0 ≤ point < 55296 ∨ 57344 ≤ point ≤ 1114111.

#[export] Instance is_scalar_dec point : Decision (is_scalar point).
Proof. unfold is_scalar. apply _. Defined.

(** The encoding of a text. *)
Definition utf8_text (points : list Z) : list Z := mjoin (utf8_put <$> points).

(** ** Bits as arithmetic *)

Lemma lor_high k high low : 0 ≤ k → 0 ≤ low < 2 ^ k → Z.lor (high * 2 ^ k) low = high * 2 ^ k + low.
Proof.
  intros Hk Hl. rewrite <- (Z.mod_small low (2 ^ k)) by done.
  assert (Z.land (high * 2 ^ k) (low mod 2 ^ k) = 0) as H.
  { apply Z.bits_inj'. intros n Hn. rewrite Z.land_spec, Z.bits_0.
    destruct (Z.lt_ge_cases n k); [by rewrite Z.mul_pow2_bits_low by lia|].
    rewrite Z.mod_pow2_bits_high by lia. apply andb_false_r. }
  pose proof (Z.add_lor_land (high * 2 ^ k) (low mod 2 ^ k)) as E. lia.
Qed.

Lemma land_low k x : 0 ≤ k → Z.land x (2 ^ k - 1) = x mod 2 ^ k.
Proof. intros Hk. rewrite <- Z.land_ones by done. f_equal. rewrite Z.ones_equiv. lia. Qed.

Lemma land_63 x : Z.land x 63 = x mod 64.
Proof. exact (land_low 6 x ltac:(lia)). Qed.

Lemma shift_six value low : 0 ≤ low < 64 → Z.lor (Z.shiftl value 6) low = value * 64 + low.
Proof. intros H. rewrite Z.shiftl_mul_pow2 by lia. by apply (lor_high 6). Qed.

(** A decidable property of a byte, checked on all of them. *)
Lemma byte_forall (P : Z → bool) : forallb P (seqZ 0 256) = true → ∀ b, is_u8 b → P b = true.
Proof.
  rewrite forallb_forall. intros H b Hb. apply H. apply list_elem_of_In, elem_of_seqZ. ulia.
Qed.

(** A continuation byte. *)
Lemma continuation_byte_bit b : is_u8 b → (Z.land b 192 =? 128) = true ↔ 128 ≤ b < 192.
Proof.
  intros Hb. apply (bool_decide_eq_true (_ ↔ _)).
  revert b Hb. apply (byte_forall (λ b, bool_decide ((Z.land b 192 =? 128) = true ↔ 128 ≤ b < 192))).
  vm_compute. reflexivity.
Qed.

(** The bytes of a scalar value, as digits. *)
Definition utf8_digits (point : Z) : list Z :=
  if point <? 128 then [point]
  else if point <? 2048 then [192 + point / 64; 128 + point mod 64]
  else if point <? 65536 then [224 + point / 4096; 128 + point / 64 mod 64; 128 + point mod 64]
  else [240 + point / 262144; 128 + point / 4096 mod 64; 128 + point / 64 mod 64; 128 + point mod 64].

Lemma utf8_put_digits point : is_scalar point → utf8_put point = utf8_digits point.
Proof.
  intros Hs. assert (0 ≤ point ≤ 1114111) as Hr by (destruct Hs; lia).
  unfold utf8_put, utf8_digits. rewrite !Z.shiftr_div_pow2 by lia. rewrite !land_63.
  change (2 ^ 6) with 64. change (2 ^ 12) with 4096. change (2 ^ 18) with 262144.
  assert (∀ x, Z.lor 128 (x mod 64) = 128 + x mod 64) as Hc.
  { intros x. apply (lor_high 6 2); [lia|]. by apply Z.mod_pos_bound. }
  rewrite !Hc.
  assert (∀ x, u8 (128 + x mod 64) = 128 + x mod 64) as Hu.
  { intros x. apply u8_id. pose proof (Z.mod_pos_bound x 64 ltac:(lia)). ulia. }
  rewrite !Hu.
  repeat match goal with |- context [?a <=? ?b] => destruct (Z.leb_spec a b) end;
    repeat match goal with |- context [?a <? ?b] => destruct (Z.ltb_spec a b) end; try lia.
  - rewrite u8_id by ulia. done.
  - pose proof (Z.div_lt_upper_bound point 64 32). pose proof (Z.div_pos point 64).
    rewrite (lor_high 5 6) by lia. rewrite u8_id by ulia. done.
  - pose proof (Z.div_lt_upper_bound point 4096 16). pose proof (Z.div_pos point 4096).
    rewrite (lor_high 4 14) by lia. rewrite u8_id by ulia. done.
  - pose proof (Z.div_lt_upper_bound point 262144 5). pose proof (Z.div_pos point 262144).
    rewrite (lor_high 3 30) by lia. rewrite u8_id by ulia. done.
Qed.

(** * The scanner *)

Lemma array_get_drop {A} (l : list A) offset (i : nat) :
  0 ≤ offset → array_get l (offset + Z.of_nat i) = drop (Z.to_nat offset) l !! i.
Proof.
  intros H. rewrite lookup_drop. unfold array_get. destruct (Z.ltb_spec (offset + Z.of_nat i) 0); [lia|].
  f_equal. lia.
Qed.

(** The scalar value at the head of a text and the length of its encoding. *)
Definition utf8_head (rest : list Z) : option (Z * nat) :=
  first ← rest !! 0%nat;
  if first <=? 127 then Some (first, 1%nat)
  else
    '(value, needed) ←
      (if (194 <=? first) && (first <=? 223) then Some (Z.land first 31, 1%nat)
       else if (224 <=? first) && (first <=? 239) then Some (Z.land first 15, 2%nat)
       else if (240 <=? first) && (first <=? 244) then Some (Z.land first 7, 3%nat)
       else None);
    if bool_decide (length rest ≤ needed)%nat then None
    else
      '(value, _) ← utf8_continue needed rest 1 value;
      if (Nat.eqb needed 2 && (value <? 2048)) || (Nat.eqb needed 3 && (value <? 65536)) || (1114111 <? value)
         || ((55296 <=? value) && (value <=? 57343)) then None
      else Some (value, S needed).

Lemma utf8_continue_drop needed bytes offset i value :
  0 ≤ offset →
  utf8_continue needed bytes (offset + Z.of_nat i) value =
  (λ r, (r.1, offset + Z.of_nat i + Z.of_nat needed)) <$>
    utf8_continue needed (drop (Z.to_nat offset) bytes) (Z.of_nat i) value.
Proof.
  intros H. revert i value. induction needed as [|needed IH]; intros i value; cbn [utf8_continue].
  { cbn. do 2 f_equal. lia. }
  rewrite array_get_drop, array_get_nat by done. destruct (_ !! i) as [b|]; [|done]. cbn [mbind option_bind].
  destruct (negb _); [done|]. replace (offset + Z.of_nat i + 1) with (offset + Z.of_nat (S i)) by lia.
  replace (Z.of_nat i + 1) with (Z.of_nat (S i)) by lia. rewrite IH.
  destruct (utf8_continue needed _ _ _); cbn; [|done]. do 2 f_equal. lia.
Qed.

Lemma utf8_next_head bytes offset :
  0 ≤ offset →
  yvex_tokenizer_utf8_next bytes offset =
  (λ r, (r.1, offset + Z.of_nat r.2)) <$> utf8_head (drop (Z.to_nat offset) bytes).
Proof.
  intros H. unfold yvex_tokenizer_utf8_next, utf8_head.
  pose proof (length_drop bytes (Z.to_nat offset)) as Hlen.
  destruct (Z.leb_spec (Z.of_nat (length bytes)) offset) as [Hc|Hc].
  { by rewrite drop_ge by lia. }
  pose proof (array_get_drop bytes offset 0 H) as Hf. rewrite Z.add_0_r in Hf. rewrite Hf.
  destruct (drop _ bytes !! 0%nat) as [b|] eqn:Eb; [|done]. cbn [mbind option_bind].
  destruct (b <=? 127); [done|].
  match goal with |- mbind _ ?c = _ => destruct c as [[value needed]|]; [|done] end. cbn [mbind option_bind].
  replace (Z.of_nat (length bytes) - (offset + 1) <? Z.of_nat needed)
    with (bool_decide (length (drop (Z.to_nat offset) bytes) ≤ needed)%nat).
  - case_bool_decide; [done|]. pose proof (utf8_continue_drop needed bytes offset 1 value H) as E.
    change (Z.of_nat 1) with 1 in E. rewrite E. clear E.
    destruct (utf8_continue _ _ _ _) as [[v c]|]; cbn; [|done].
    match goal with |- (if ?b then _ else _) = _ => destruct b; [done|] end. cbn. do 2 f_equal. lia.
  - case_bool_decide; destruct (Z.ltb_spec (Z.of_nat (length bytes) - (offset + 1)) (Z.of_nat needed)); try done; lia.
Qed.

(** One continuation byte, as arithmetic. *)
Lemma utf8_continue_step needed l (i : nat) value :
  Forall is_u8 l →
  utf8_continue (S needed) l (Z.of_nat i) value =
  (b ← l !! i; if (128 <=? b) && (b <? 192) then utf8_continue needed l (Z.of_nat (S i)) (value * 64 + (b - 128)) else None).
Proof.
  intros Hu. cbn [utf8_continue]. rewrite array_get_nat. destruct (l !! i) as [b|] eqn:Eb; [|done].
  cbn [mbind option_bind]. pose proof (Forall_lookup_1 _ _ _ _ Hu Eb) as Hb.
  pose proof (continuation_byte_bit b Hb) as Hc. replace (Z.of_nat i + 1) with (Z.of_nat (S i)) by lia.
  destruct (Z.land b 192 =? 128); cbn [negb].
  - assert (128 ≤ b < 192) as Hr by tauto. rewrite (proj2 (Z.leb_le _ _)), (proj2 (Z.ltb_lt _ _)) by lia. cbn [andb].
    rewrite land_63, shift_six by (apply Z.mod_pos_bound; lia). do 2 f_equal. lia.
  - destruct (Z.leb_spec 128 b), (Z.ltb_spec b 192); cbn [andb]; try done. assert (false = true) by (apply Hc; lia). done.
Qed.

Lemma land_lead x : Z.land x 31 = x mod 32 ∧ Z.land x 15 = x mod 16 ∧ Z.land x 7 = x mod 8.
Proof. split_and!; [exact (land_low 5 x ltac:(lia))|exact (land_low 4 x ltac:(lia))|exact (land_low 3 x ltac:(lia))]. Qed.

(** Decide the comparisons of the goal. *)
Ltac compare_all :=
  repeat match goal with
  | |- context [?a <=? ?b] => destruct (Z.leb_spec a b); try (exfalso; lia); cbn [andb orb negb]
  | |- context [?a <? ?b] => destruct (Z.ltb_spec a b); try (exfalso; lia); cbn [andb orb negb]
  end.

(** Run the continuation bytes of a text whose bytes are known. *)
Ltac utf8_steps Hu :=
  repeat (match goal with |- context [utf8_continue (S ?n) ?l ?i ?v] =>
            let k := eval vm_compute in (Z.to_nat i) in
            change (utf8_continue (S n) l i v) with (utf8_continue (S n) l (Z.of_nat k) v);
            rewrite (utf8_continue_step n l k v Hu) end;
          cbn [lookup list_lookup mbind option_bind]; compare_all);
  cbn [utf8_continue mbind option_bind Nat.eqb andb orb].

(** The value that has been put together is [point]. *)
Ltac utf8_value point Hlead :=
  rewrite Hlead;
  match goal with |- context [Some (?v, _)] => replace v with point by lia end; by compare_all.

(** A text that starts with the encoding of a scalar value is read as that value. *)
Lemma utf8_head_complete rest point :
  Forall is_u8 rest → is_scalar point → utf8_digits point `prefix_of` rest →
  utf8_head rest = Some (point, length (utf8_digits point)).
Proof.
  intros Hu Hs [tl ->]. assert (0 ≤ point ≤ 1114111) as Hr by (destruct Hs; lia). unfold is_scalar in Hs.
  unfold utf8_digits in *. pose proof land_lead as Hl.
  destruct (Z.ltb_spec point 128); [|destruct (Z.ltb_spec point 2048); [|destruct (Z.ltb_spec point 65536)]];
    unfold utf8_head; cbn [lookup list_lookup app mbind option_bind].
  - by compare_all.
  - compare_all. cbn [mbind option_bind]. rewrite bool_decide_eq_false_2 by (cbn; lia).
    utf8_steps Hu. utf8_value point (proj1 (Hl (192 + point / 64))).
  - compare_all. cbn [mbind option_bind]. rewrite bool_decide_eq_false_2 by (cbn; lia).
    utf8_steps Hu. utf8_value point (proj1 (proj2 (Hl (224 + point / 4096)))).
  - compare_all. cbn [mbind option_bind]. rewrite bool_decide_eq_false_2 by (cbn; lia).
    utf8_steps Hu. utf8_value point (proj2 (proj2 (Hl (240 + point / 262144)))).
Qed.

(** The bytes that have been read are the encoding of the value they make. *)
Ltac utf8_sound Hu rest :=
  utf8_steps Hu; try done; compare_all; try done; intros [= <- <-];
  unfold is_scalar, utf8_digits; (split; [lia|]); compare_all;
  (split; [done|]); exists rest; cbn [app]; repeat (apply (f_equal2 (@cons Z)); [lia|]); done.

(** What is read is the encoding of a scalar value. *)
Lemma utf8_head_sound rest point n :
  Forall is_u8 rest → utf8_head rest = Some (point, n) →
  is_scalar point ∧ n = length (utf8_digits point) ∧ utf8_digits point `prefix_of` rest.
Proof.
  intros Hu. unfold utf8_head. destruct rest as [|b0 rest]; [done|].
  cbn [lookup list_lookup mbind option_bind]. pose proof land_lead as Hl.
  pose proof (Forall_inv Hu) as Hb0. cbn in Hb0. unfold is_u8 in Hb0.
  destruct (Z.leb_spec b0 127).
  { intros [= <- <-]. split; [left; lia|]. unfold utf8_digits. compare_all. split; [done|]. by exists rest. }
  destruct ((194 <=? b0) && (b0 <=? 223)) eqn:E1; [|destruct ((224 <=? b0) && (b0 <=? 239)) eqn:E2;
    [|destruct ((240 <=? b0) && (b0 <=? 244)) eqn:E3; [|done]]]; guards; cbn [mbind option_bind];
    case_bool_decide as Hlen; try done; cbn in Hlen.
  - destruct rest as [|b1 rest]; [cbn in Hlen; lia|]. rewrite (proj1 (Hl b0)). utf8_sound Hu rest.
  - destruct rest as [|b1 [|b2 rest]]; [cbn in Hlen; lia..|]. rewrite (proj1 (proj2 (Hl b0))).
    utf8_sound Hu rest.
  - destruct rest as [|b1 [|b2 [|b3 rest]]]; [cbn in Hlen; lia..|]. rewrite (proj2 (proj2 (Hl b0))).
    utf8_sound Hu rest.
Qed.

Lemma utf8_put_u8 point : Forall is_u8 (utf8_put point).
Proof. unfold utf8_put. repeat case_match; repeat constructor; apply u8_range. Qed.

Lemma utf8_put_length point : (1 ≤ length (utf8_put point) ≤ 4)%nat.
Proof. unfold utf8_put. repeat case_match; cbn; lia. Qed.

Lemma utf8_put_width point : Z.of_nat (length (utf8_put point)) = utf8_width point.
Proof. unfold utf8_put, utf8_width. by repeat case_match. Qed.

Lemma utf8_text_u8 points : Forall is_u8 (utf8_text points).
Proof.
  induction points as [|p points IH]; [done|]. apply Forall_app. split; [apply utf8_put_u8|done].
Qed.

Lemma utf8_text_app l m : utf8_text (l ++ m) = utf8_text l ++ utf8_text m.
Proof. unfold utf8_text. by rewrite fmap_app, join_app. Qed.

Lemma utf8_write_all output l : foldl utf8_write output l = output ++ utf8_text l.
Proof.
  revert output. induction l as [|p l IH]; intros output; [by rewrite app_nil_r|].
  cbn [foldl]. rewrite IH. unfold utf8_write. by rewrite <- (assoc_L (++)).
Qed.

Lemma utf8_text_cons p l : utf8_text (p :: l) = utf8_put p ++ utf8_text l.
Proof. done. Qed.

(** What the scanner reads at an offset. *)
Lemma utf8_next_spec bytes offset point next :
  Forall is_u8 bytes → 0 ≤ offset →
  yvex_tokenizer_utf8_next bytes offset = Some (point, next) ↔
  is_scalar point ∧ next = offset + Z.of_nat (length (utf8_put point)) ∧
  utf8_put point `prefix_of` drop (Z.to_nat offset) bytes.
Proof.
  intros Hu Ho. rewrite utf8_next_head by done.
  pose proof (Forall_drop _ (Z.to_nat offset) _ Hu) as Hd. split.
  - destruct (utf8_head _) as [[p n]|] eqn:E; [|done]. intros [= <- <-].
    apply utf8_head_sound in E as (Hs & -> & Hp); [|done]. by rewrite utf8_put_digits.
  - intros (Hs & -> & Hp). rewrite utf8_put_digits in * by done.
    by rewrite (utf8_head_complete _ point).
Qed.

Lemma utf8_next_grows bytes offset point next :
  Forall is_u8 bytes → 0 ≤ offset → yvex_tokenizer_utf8_next bytes offset = Some (point, next) →
  offset < next ≤ Z.of_nat (length bytes).
Proof.
  intros Hu Ho (_ & -> & Hp)%utf8_next_spec; [|done..]. apply prefix_length in Hp.
  rewrite length_drop in Hp. pose proof (utf8_put_length point). lia.
Qed.

(** How long an encoding is. *)
Lemma utf8_text_length l : (length l ≤ length (utf8_text l))%nat.
Proof.
  induction l as [|x l IH]; [done|]. rewrite utf8_text_cons, length_app. pose proof (utf8_put_length x). cbn. lia.
Qed.

Lemma utf8_text_bound l : (length (utf8_text l) ≤ 4 * length l)%nat.
Proof.
  induction l as [|x l IH]; [done|]. rewrite utf8_text_cons, length_app. pose proof (utf8_put_length x). cbn. lia.
Qed.

(** Reading a text at the start of one of its scalar values. *)
Lemma utf8_next_text before point after :
  Forall is_u8 before → Forall is_u8 after → is_scalar point →
  yvex_tokenizer_utf8_next (before ++ utf8_put point ++ after) (Z.of_nat (length before)) =
  Some (point, Z.of_nat (length before) + Z.of_nat (length (utf8_put point))).
Proof.
  intros Hb Ha Hs. apply utf8_next_spec; [|lia|].
  - rewrite !Forall_app. split_and!; [done|apply utf8_put_u8|done].
  - split; [done|]. split; [done|]. rewrite Nat2Z.id, drop_app_length. by exists after.
Qed.

(** The scan of a suffix accepts the encodings of texts. *)
Lemma utf8_validate_from_spec bytes fuel offset :
  Forall is_u8 bytes → 0 ≤ offset ≤ Z.of_nat (length bytes) → (length bytes ≤ fuel + Z.to_nat offset)%nat →
  utf8_validate_from fuel bytes offset = true ↔
  ∃ points, Forall is_scalar points ∧ drop (Z.to_nat offset) bytes = utf8_text points.
Proof.
  intros Hu. revert offset. induction fuel as [|fuel IH]; intros offset Ho Hf; cbn [utf8_validate_from];
    destruct (Z.ltb_spec offset (Z.of_nat (length bytes))); try lia.
  - split; [|done]. intros _. exists []. split; [done|]. by rewrite drop_ge by lia.
  - destruct (yvex_tokenizer_utf8_next bytes offset) as [[p next]|] eqn:E.
    + pose proof (utf8_next_grows bytes offset p next Hu (proj1 Ho) E) as Hn.
      apply utf8_next_spec in E as (Hs & Enext & [tl Htl]); [|done|lia]. rewrite IH by lia.
      assert (drop (Z.to_nat next) bytes = tl) as ->.
      { replace (Z.to_nat next) with (Z.to_nat offset + length (utf8_put p))%nat by lia.
        rewrite <- drop_drop, Htl. apply drop_app_length. }
      rewrite Htl. split.
      * intros (points & Hps & ->). exists (p :: points). split; [by constructor|done].
      * intros (points & Hps & Hp). destruct points as [|q points].
        { pose proof (utf8_put_length p). destruct (utf8_put p); cbn in *; [lia|done]. }
        apply Forall_cons in Hps as [Hq Hps]. rewrite utf8_text_cons in Hp.
        assert (utf8_head (utf8_put p ++ tl) = utf8_head (utf8_put q ++ utf8_text points)) as Eh by by rewrite Hp.
        rewrite (utf8_put_digits p), (utf8_put_digits q) in Eh by done.
        assert (Forall is_u8 (utf8_put p ++ tl)) as Hu'.
        { rewrite <- Htl. by apply Forall_drop. }
        rewrite (utf8_head_complete _ p) in Eh; [|by rewrite <- utf8_put_digits|done|by exists tl].
        rewrite (utf8_head_complete _ q) in Eh; [| |done|by exists (utf8_text points)].
        -- injection Eh as <-. apply (inj (app _)) in Hp as ->. by exists points.
        -- rewrite <- utf8_put_digits, <- Hp by done. done.
    + split; [done|]. intros (points & Hps & Hp). exfalso. destruct points as [|q points].
      { apply (f_equal length) in Hp. rewrite length_drop in Hp. cbn in Hp. lia. }
      apply Forall_cons in Hps as [Hq Hps].
      rewrite (proj2 (utf8_next_spec bytes offset q (offset + Z.of_nat (length (utf8_put q))) Hu (proj1 Ho))) in E; [done|].
      split; [done|]. split; [done|]. rewrite Hp. by exists (utf8_text points).
  - split; [|done]. intros _. exists []. split; [done|]. by rewrite drop_ge by lia.
Qed.

(** ** Uniqueness *)

Lemma utf8_put_inj p q x y :
  is_scalar p → is_scalar q → Forall is_u8 x → Forall is_u8 y →
  utf8_put p ++ x = utf8_put q ++ y → p = q ∧ x = y.
Proof.
  intros Hp Hq Hx Hy E.
  pose proof (utf8_next_text [] p x ltac:(done) Hx Hp) as E1.
  pose proof (utf8_next_text [] q y ltac:(done) Hy Hq) as E2. cbn [app length] in E1, E2.
  rewrite E, E2 in E1. injection E1 as -> _. split; [done|]. by apply (inj (app _)) in E.
Qed.

Lemma utf8_text_inj ps qs :
  Forall is_scalar ps → Forall is_scalar qs → utf8_text ps = utf8_text qs → ps = qs.
Proof.
  intros Hps. revert qs. induction Hps as [|p ps Hp _ IH]; intros [|q qs] Hqs E.
  - done.
  - exfalso. pose proof (utf8_put_length q). rewrite utf8_text_cons in E. destruct (utf8_put q); cbn in *; [lia|done].
  - exfalso. pose proof (utf8_put_length p). rewrite utf8_text_cons in E. destruct (utf8_put p); cbn in *; [lia|done].
  - apply Forall_cons in Hqs as [Hq Hqs]. rewrite !utf8_text_cons in E.
    apply utf8_put_inj in E as [-> E]; [|done..|apply utf8_text_u8|apply utf8_text_u8]. f_equal. by apply IH.
Qed.

(** A text that starts with another continues it. *)
Lemma utf8_text_strip ps points after :
  Forall is_scalar ps → Forall is_scalar points → Forall is_u8 after →
  utf8_text points = utf8_text ps ++ after → ∃ rest, points = ps ++ rest ∧ after = utf8_text rest.
Proof.
  intros Hs. revert points. induction Hs as [|p ps Hsp Hs IH]; intros points Hp Ha E.
  { exists points. by split. }
  rewrite utf8_text_cons, <- (assoc_L (++)) in E. destruct points as [|q points].
  { pose proof (utf8_put_length p). destruct (utf8_put p); cbn in *; [lia|done]. }
  apply Forall_cons in Hp as [Hq Hp]. rewrite utf8_text_cons in E. apply utf8_put_inj in E as [-> E]; [|done..| |].
  - destruct (IH points Hp Ha E) as (rest & -> & Er). by exists rest.
  - apply utf8_text_u8.
  - apply Forall_app. split; [apply utf8_text_u8|done].
Qed.

(** C23: the scanner reads at an offset exactly the encoding of a scalar value that starts there, and a span
    is valid exactly when it is the encoding of a text; the text of a valid span is unique. Overlong
    forms, surrogates, values past the last code point and truncated sequences are refused. *)
Theorem utf8_scanner_exact bytes :
  Forall is_u8 bytes →
  (∀ offset point next, 0 ≤ offset →
     yvex_tokenizer_utf8_next bytes offset = Some (point, next) ↔
     is_scalar point ∧ next = offset + utf8_width point ∧
     utf8_put point `prefix_of` drop (Z.to_nat offset) bytes) ∧
  (utf8_validate bytes = true ↔ ∃ points, Forall is_scalar points ∧ bytes = utf8_text points) ∧
  (∀ points, Forall is_scalar points → bytes = utf8_text points →
     ∀ others, Forall is_scalar others → bytes = utf8_text others → others = points).
Proof.
  intros Hu. split; [|split].
  - intros offset point next Ho. rewrite utf8_next_spec by done. by rewrite utf8_put_width.
  - unfold utf8_validate. rewrite utf8_validate_from_spec; [done|done|lia|lia].
  - intros points Hp -> others Ho E. symmetry. by apply utf8_text_inj.
Qed.
Lemma utf8_scanner_exact_witness :
  Forall is_u8 [226; 130; 172] ∧ utf8_validate [226; 130; 172] = true ∧
  yvex_tokenizer_utf8_next [226; 130; 172] 0 = Some (8364, 3).
Proof.
  assert (Forall is_u8 [226; 130; 172]) as Hu by (repeat constructor; ulia). split; [exact Hu|].
  destruct (utf8_scanner_exact [226; 130; 172] Hu) as (Hn & Hv & _). split.
  - apply Hv. exists [8364]. split; [apply Forall_singleton; left; lia|vm_compute; reflexivity].
  - apply Hn; [lia|]. split; [left; lia|]. split; [vm_compute; reflexivity|].
    exists []. vm_compute. reflexivity.
Defined.
