(* ===== verification/Json.v ===== *)
(** The bounded JSON cursor of [src/core/json.c] and the string writer of [src/io/writer.c].

    A cursor is the list of bytes still to read; a function that moves it returns it, also when it
    fails. An output buffer and its capacity are one list, a null buffer is [None]. Character classes
    are those of the C locale. *)

From S2P Require Import Prelude Status Exec.
#[local] Open Scope Z_scope.

(** * Data *)

(** src/include/yvex/internal/core.h, [yvex_json] *)
Record yvex_json := JsonCursor { js_cursor : list Z; js_depth : Z; js_extensions : Z }.

#[export] Instance yvex_json_eta : Eta yvex_json := λ j,
  JsonCursor (js_cursor j) (js_depth j) (js_extensions j).

(** src/include/yvex/internal/core.h, [yvex_json_item] *)
Inductive yvex_json_item : Type := YVEX_JSON_ITEM_ERROR | YVEX_JSON_ITEM_END | YVEX_JSON_ITEM_READY.

(** src/include/yvex/internal/core.h, [yvex_json_collection] *)
Inductive yvex_json_collection : Type := YVEX_JSON_COLLECTION_OBJECT | YVEX_JSON_COLLECTION_ARRAY.

#[export] Instance json_collection_eq_dec : EqDecision yvex_json_collection.
Proof. solve_decision. Defined.

(** src/include/yvex/internal/core.h, [yvex_json_iter] *)
Record yvex_json_iter := JsonIter {
  it_count : Z;
  it_closing : Z;
  it_complete : bool;
  it_trailing_separator : bool;
}.

#[export] Instance json_iter_eta : Eta yvex_json_iter := λ i,
  JsonIter (it_count i) (it_closing i) (it_complete i) (it_trailing_separator i).

Definition YVEX_JSON_DEPTH_CAP : Z := 64.
Definition YVEX_JSON_KEY_CAP : nat := 1024.
Definition YVEX_JSON_EXTENSION_POSITIVE_INFINITY : Z := 1.

Definition isspace (ch : Z) : bool := (ch =? 32) || ((9 <=? ch) && (ch <=? 13)).
Definition isdigit (ch : Z) : bool := (48 <=? ch) && (ch <=? 57).

(** * Operations *)

(** src/src/core/json.c, [yvex_json_init] *)
Definition yvex_json_init (data : list Z) : yvex_json := JsonCursor data 0 0.

Fixpoint skip_while (p : Z → bool) (text : list Z) : list Z :=
  match text with
  | ch :: rest => if p ch then skip_while p rest else text
  | [] => []
  end.

(** src/src/core/json.c, [yvex_json_space] *)
Definition yvex_json_space (json : yvex_json) : yvex_json := json <| js_cursor ::= skip_while isspace |>.

(** src/src/core/json.c, [yvex_json_iter_begin] *)
Definition yvex_json_iter_begin (json : yvex_json) (collection : yvex_json_collection)
    : option yvex_json_iter * yvex_json :=
  let '(opening, closing) :=
    match collection with YVEX_JSON_COLLECTION_OBJECT => (123, 125) | YVEX_JSON_COLLECTION_ARRAY => (91, 93) end in
  let json := yvex_json_space json in
  match js_cursor json with
  | [] => (None, json)
  | ch :: rest =>
      (if ch =? opening then Some (JsonIter 0 closing false false) else None, json <| js_cursor := rest |>)
  end.

(** src/src/core/json.c, [json_iter_advance] *)
Definition json_iter_advance (iter : yvex_json_iter) (json : yvex_json)
    : yvex_json_item * yvex_json_iter * yvex_json :=
  if it_complete iter then (YVEX_JSON_ITEM_ERROR, iter, json)
  else
    let json := yvex_json_space json in
    match js_cursor json with
    | [] => (YVEX_JSON_ITEM_ERROR, iter, json)
    | ch :: rest =>
        if ch =? it_closing iter then
          (YVEX_JSON_ITEM_END, iter <| it_complete := true |>, json <| js_cursor := rest |>)
        else if negb (it_count iter =? 0) then
          let json := json <| js_cursor := rest |> in
          if negb (ch =? 44) then (YVEX_JSON_ITEM_ERROR, iter, json)
          else
            let json := yvex_json_space json in
            match js_cursor json with
            | [] => (YVEX_JSON_ITEM_ERROR, iter, json)
            | ch :: rest =>
                if ch =? it_closing iter then
                  (YVEX_JSON_ITEM_END,
                   iter <| it_complete := true |> <| it_trailing_separator := true |>,
                   json <| js_cursor := rest |>)
                else (YVEX_JSON_ITEM_READY, iter <| it_count ::= λ n, u64 (n + 1) |>, json)
            end
        else (YVEX_JSON_ITEM_READY, iter <| it_count ::= λ n, u64 (n + 1) |>, json)
    end.

(** src/src/core/json.c, [yvex_json_array_value] *)
Definition yvex_json_array_value := json_iter_advance.

(** src/src/core/json.c, [source_json_hex] *)
Definition source_json_hex (ch : Z) : bool :=
  isdigit ch || ((97 <=? ch) && (ch <=? 102)) || ((65 <=? ch) && (ch <=? 70)).

(** The digits of [\u]: whether all [n] are hexadecimal, and the cursor after the last one read.
    src/src/core/json.c:260-264, [yvex_json_string] *)
Fixpoint json_hex_digits (n : nat) (text : list Z) : bool * list Z :=
  match n, text with
  | O, _ => (true, text)
  | S _, [] => (false, [])
  | S n, ch :: text => if source_json_hex ch then json_hex_digits n text else (false, text)
  end.

(** The single-character escapes.
    src/src/core/json.c:267-277, [yvex_json_string] *)
Definition json_unescape (escaped : Z) : option Z :=
  if escaped =? 34 then Some 34
  else if escaped =? 92 then Some 92
  else if escaped =? 47 then Some 47
  else if escaped =? 98 then Some 8
  else if escaped =? 102 then Some 12
  else if escaped =? 110 then Some 10
  else if escaped =? 114 then Some 13
  else if escaped =? 116 then Some 9
  else None.

(** [if (out && length + 1 < cap) out[length] = ch] *)
Definition json_put (out : option (list Z)) (len ch : Z) : option (list Z) :=
  (λ buffer, if len + 1 <? Z.of_nat (length buffer) then <[Z.to_nat len := ch]> buffer else buffer) <$> out.

(** The terminator. *)
Definition json_terminate (out : option (list Z)) (len : Z) : option (list Z) :=
  (λ buffer, <[Z.to_nat (Z.min len (Z.of_nat (length buffer) - 1)) := 0]> buffer) <$> out.

(** Every round consumes a byte. [len] counts the decoded bytes, also those that do not fit.
    src/src/core/json.c:248-283, [yvex_json_string] *)
Fixpoint json_string_loop (fuel : nat) (text : list Z) (out : option (list Z)) (len : Z)
    : bool * list Z * option (list Z) :=
  match fuel, text with
  | O, _ | _, [] => (false, text, out)
  | S fuel, ch :: text =>
      if ch =? 34 then
        (match out with None => true | Some buffer => len <? Z.of_nat (length buffer) end, text,
         json_terminate out len)
      else if ch <? 32 then (false, text, out)
      else if ch =? 92 then
        match text with
        | [] => (false, [], out)
        | escaped :: text =>
            if escaped =? 117 then
              let '(hex, text) := json_hex_digits 4 text in
              if hex then json_string_loop fuel text (json_put out len 63) (len + 1) else (false, text, out)
            else match json_unescape escaped with
                 | None => (false, text, out)
                 | Some ch => json_string_loop fuel text (json_put out len ch) (len + 1)
                 end
        end
      else json_string_loop fuel text (json_put out len ch) (len + 1)
  end.

(** Whether a string of the capacity was read, the cursor after it and the buffer.
    src/src/core/json.c, [yvex_json_string] *)
Definition yvex_json_string (json : yvex_json) (out : option (list Z)) : bool * yvex_json * option (list Z) :=
  let json := yvex_json_space json in
  match js_cursor json with
  | [] => (false, json, out)
  | ch :: rest =>
      if negb (ch =? 34) then (false, json <| js_cursor := rest |>, out)
      else
        let '(ok, rest, out) := json_string_loop (length rest) rest out 0 in
        (ok, json <| js_cursor := rest |>, out)
  end.

(** The allocated value, or [None] with the cursor as it was. The buffer has room for every encoded byte
    between the quotes and a terminator.
    src/src/core/json.c, [yvex_json_string_dup] *)
Definition yvex_json_string_dup (memory_ok : bool) (json : yvex_json) (cap : Z) : option (list Z) * yvex_json :=
  if cap =? 0 then (None, json)
  else
    let start := js_cursor (yvex_json_space json) in
    let '(ok, probe, _) := yvex_json_string (yvex_json_space json) None in
    if negb ok then (None, json)
    else
      let encoded := Z.of_nat (length start) - Z.of_nat (length (js_cursor probe)) in
      if (encoded <? 2) || (cap <? encoded - 1) then (None, json)
      else if negb memory_ok then (None, json)
      else match yvex_json_string json (Some (replicate (Z.to_nat encoded) 0)) with
           | (true, json, value) => (value, json)
           | (false, _, _) => (None, json)
           end.

(** src/src/core/json.c, [yvex_json_object_member] *)
Definition yvex_json_object_member (iter : yvex_json_iter) (json : yvex_json) (key : option (list Z))
    : yvex_json_item * yvex_json_iter * yvex_json * option (list Z) :=
  match json_iter_advance iter json with
  | (YVEX_JSON_ITEM_READY, iter, json) =>
      match yvex_json_string json key with
      | (false, json, key) => (YVEX_JSON_ITEM_ERROR, iter, json, key)
      | (true, json, key) =>
          let json := yvex_json_space json in
          match js_cursor json with
          | [] => (YVEX_JSON_ITEM_ERROR, iter, json, key)
          | ch :: rest =>
              (if ch =? 58 then YVEX_JSON_ITEM_READY else YVEX_JSON_ITEM_ERROR, iter,
               json <| js_cursor := rest |>, key)
          end
      end
  | (item, iter, json) => (item, iter, json, key)
  end.

(** One or more digits. *)
Definition json_digits (text : list Z) : bool * list Z :=
  match text with
  | ch :: rest => if isdigit ch then (true, skip_while isdigit rest) else (false, text)
  | [] => (false, [])
  end.

(** [.5]
    src/src/core/json.c:362-368, [source_json_skip_number] *)
Definition json_fraction (text : list Z) : bool * list Z :=
  match text with
  | ch :: rest => if ch =? 46 then json_digits rest else (true, text)
  | [] => (true, [])
  end.

(** An optional minus. *)
Definition json_sign (text : list Z) : list Z :=
  match text with
  | ch :: rest => if ch =? 45 then rest else text
  | [] => []
  end.

(** [0], or digits.
    src/src/core/json.c:354-361, [source_json_skip_number] *)
Definition json_whole (text : list Z) : bool * list Z :=
  match text with
  | ch :: rest => if ch =? 48 then (true, rest) else json_digits text
  | [] => (false, [])
  end.

(** [e-7]
    src/src/core/json.c:369-378, [source_json_skip_number] *)
Definition json_exponent (text : list Z) : bool * list Z :=
  match text with
  | ch :: rest =>
      if (ch =? 101) || (ch =? 69) then
        json_digits (match rest with
                     | ch :: rest' => if (ch =? 43) || (ch =? 45) then rest' else rest
                     | [] => []
                     end)
      else (true, text)
  | [] => (true, [])
  end.

(** src/src/core/json.c, [source_json_skip_number] *)
Definition source_json_skip_number (json : yvex_json) : bool * yvex_json :=
  let json := yvex_json_space json in
  let '(ok, text) := json_whole (json_sign (js_cursor json)) in
  if negb ok then (false, json <| js_cursor := text |>)
  else
    let '(ok, text) := json_fraction text in
    if negb ok then (false, json <| js_cursor := text |>)
    else
      let '(ok, text) := json_exponent text in
      (ok, json <| js_cursor := text |>).

(** src/src/core/json.c, [source_json_literal] *)
Definition source_json_literal (json : yvex_json) (literal : list Z) : bool * yvex_json :=
  let json := yvex_json_space json in
  let length_ := length literal in
  if (length (js_cursor json) <? length_)%nat || negb (bool_decide (take length_ (js_cursor json) = literal))
  then (false, json)
  else (true, json <| js_cursor ::= drop length_ |>).

(** [depth++] and [depth--] of an [unsigned int]. *)
Definition json_deeper (json : yvex_json) : yvex_json := json <| js_depth ::= λ d, u32 (d + 1) |>.
Definition json_shallower (json : yvex_json) : yvex_json := json <| js_depth ::= λ d, u32 (d - 1) |>.

(** The loop of both collections: [next] moves to the next entry, [skip] reads its value. Every round
    consumes a byte.
    src/src/core/json.c:320-325, [json_skip_array] *)
Fixpoint json_skip_entries (next : yvex_json_iter → yvex_json → yvex_json_item * yvex_json_iter * yvex_json)
    (skip : yvex_json → bool * yvex_json) (fuel : nat) (iter : yvex_json_iter) (json : yvex_json)
    : bool * yvex_json :=
  match fuel with
  | O => (false, json)
  | S fuel =>
      match next iter json with
      | (YVEX_JSON_ITEM_READY, iter, json) =>
          match skip json with
          | (false, json) => (false, json)
          | (true, json) => json_skip_entries next skip fuel iter json
          end
      | (YVEX_JSON_ITEM_END, iter, json) =>
          if it_trailing_separator iter then (false, json) else (true, json_shallower json)
      | (YVEX_JSON_ITEM_ERROR, _, json) => (false, json)
      end
  end.

(** src/src/core/json.c, [json_skip_array] *)
Definition json_skip_array (skip : yvex_json → bool * yvex_json) (json : yvex_json) : bool * yvex_json :=
  if YVEX_JSON_DEPTH_CAP <=? js_depth json then (false, json)
  else match yvex_json_iter_begin json YVEX_JSON_COLLECTION_ARRAY with
       | (None, json) => (false, json)
       | (Some iter, json) =>
           json_skip_entries yvex_json_array_value skip (S (length (js_cursor json))) iter (json_deeper json)
       end.

(** The key buffer, whose content is not read. *)
Definition json_key : option (list Z) := Some (replicate YVEX_JSON_KEY_CAP 0).

(** One member of a skipped object.
    src/src/core/json.c:337-338, [json_skip_object] *)
Definition json_next_member (iter : yvex_json_iter) (json : yvex_json)
    : yvex_json_item * yvex_json_iter * yvex_json :=
  let '(item, iter, json, _) := yvex_json_object_member iter json json_key in (item, iter, json).

(** src/src/core/json.c, [json_skip_object] *)
Definition json_skip_object (skip : yvex_json → bool * yvex_json) (json : yvex_json) : bool * yvex_json :=
  if YVEX_JSON_DEPTH_CAP <=? js_depth json then (false, json)
  else match yvex_json_iter_begin json YVEX_JSON_COLLECTION_OBJECT with
       | (None, json) => (false, json)
       | (Some iter, json) =>
           json_skip_entries json_next_member skip (S (length (js_cursor json))) iter (json_deeper json)
       end.

Definition text_true : list Z := cstr "true".
Definition text_false : list Z := cstr "false".
Definition text_null : list Z := cstr "null".
Definition text_infinity : list Z := cstr "Infinity".

(** [fuel] bounds the nesting.
    src/src/core/json.c, [yvex_json_skip_value] *)
Fixpoint json_skip_nested (fuel : nat) (json : yvex_json) : bool * yvex_json :=
  match fuel with
  | O => (false, json)
  | S fuel =>
      let json := yvex_json_space json in
      match js_cursor json with
      | [] => (false, json)
      | ch :: _ =>
          if ch =? 123 then json_skip_object (json_skip_nested fuel) json
          else if ch =? 91 then json_skip_array (json_skip_nested fuel) json
          else if ch =? 34 then (yvex_json_string json None).1
          else if ch =? 116 then source_json_literal json text_true
          else if ch =? 102 then source_json_literal json text_false
          else if ch =? 110 then source_json_literal json text_null
          else if (ch =? 73) && negb (Z.land (js_extensions json) YVEX_JSON_EXTENSION_POSITIVE_INFINITY =? 0)
          then source_json_literal json text_infinity
          else source_json_skip_number json
      end
  end.

(** A value nests at most [64 - depth] collections, and needs one more unit of fuel for what they hold.
    src/src/core/json.c, [yvex_json_skip_value] *)
Definition yvex_json_skip_value (json : yvex_json) : bool * yvex_json :=
  json_skip_nested (S (Z.to_nat (YVEX_JSON_DEPTH_CAP - js_depth json))) json.

(** src/src/core/json.c, [yvex_json_complete] *)
Definition yvex_json_complete (json : yvex_json) : bool * yvex_json :=
  let json := yvex_json_space json in
  (match js_cursor json with [] => js_depth json =? 0 | _ => false end, json).

(** [None] is the refused overflow.
    src/src/core/json.c:423-428, [yvex_json_u64] *)
Fixpoint json_u64_loop (value : Z) (text : list Z) : option Z * list Z :=
  match text with
  | ch :: rest =>
      if isdigit ch then
        let digit := ch - 48 in
        if (ULLONG_MAX - digit) / 10 <? value then (None, rest)
        else json_u64_loop (u64 (u64 (value * 10) + digit)) rest
      else (Some value, text)
  | [] => (Some value, [])
  end.

(** src/src/core/json.c, [yvex_json_u64] *)
Definition yvex_json_u64 (json : yvex_json) : option Z * yvex_json :=
  let json := yvex_json_space json in
  match js_cursor json with
  | [] => (None, json)
  | ch :: _ =>
      if negb (isdigit ch) then (None, json)
      else let '(value, rest) := json_u64_loop 0 (js_cursor json) in (value, json <| js_cursor := rest |>)
  end.

(** src/src/core/json.c, [yvex_json_bool] *)
Definition yvex_json_bool (json : yvex_json) : option Z * yvex_json :=
  match source_json_literal json text_true with
  | (true, json) => (Some 1, json)
  | (false, json) =>
      match source_json_literal json text_false with
      | (true, json) => (Some 0, json)
      | (false, json) => (None, json)
      end
  end.

(** The text of a number and its terminator, in a buffer of [cap] bytes.
    src/src/core/json.c, [yvex_json_number_text] *)
Definition yvex_json_number_text (json : yvex_json) (cap : Z) : option (list Z) * yvex_json :=
  if cap =? 0 then (None, json)
  else
    let json := yvex_json_space json in
    let start := js_cursor json in
    match source_json_skip_number json with
    | (false, json) => (None, json)
    | (true, json) =>
        let text := take (length start - length (js_cursor json)) start in
        if (Z.of_nat (length text) =? 0) || (cap <=? Z.of_nat (length text)) then (None, json)
        else (Some (text ++ [0]), json)
    end.

(** The values read so far are [values], the room for them [cap].
    src/src/core/json.c:474-481, [yvex_json_u64_array] *)
Fixpoint json_u64_array_loop (fuel : nat) (cap : Z) (values : list Z) (iter : yvex_json_iter) (json : yvex_json)
    : option (list Z) * yvex_json :=
  match fuel with
  | O => (None, json)
  | S fuel =>
      match yvex_json_array_value iter json with
      | (YVEX_JSON_ITEM_READY, iter, json) =>
          if cap <=? Z.of_nat (length values) then (None, json)
          else match yvex_json_u64 json with
               | (None, json) => (None, json)
               | (Some value, json) => json_u64_array_loop fuel cap (values ++ [value]) iter json
               end
      | (item, iter, json) =>
          (match item with
           | YVEX_JSON_ITEM_END =>
               if it_trailing_separator iter || (Z.of_nat (length values) =? 0) then None else Some values
           | _ => None
           end, json)
      end
  end.

(** src/src/core/json.c, [yvex_json_u64_array] *)
Definition yvex_json_u64_array (json : yvex_json) (cap : Z) : option (list Z) * yvex_json :=
  if cap =? 0 then (None, json)
  else match yvex_json_iter_begin json YVEX_JSON_COLLECTION_ARRAY with
       | (None, json) => (None, json)
       | (Some iter, json) => json_u64_array_loop (S (length (js_cursor json))) cap [] iter json
       end.

(** ** The writer *)

(** [%x] of one digit. *)
Definition hex_digit (d : Z) : Z := if d <? 10 then 48 + d else 87 + d.

(** src/src/io/writer.c:16-45, [yvex_file_json_write_string] *)
Definition json_write_char (ch : Z) : list Z :=
  if ch =? 34 then [92; 34]
  else if ch =? 92 then [92; 92]
  else if ch =? 8 then [92; 98]
  else if ch =? 12 then [92; 102]
  else if ch =? 10 then [92; 110]
  else if ch =? 13 then [92; 114]
  else if ch =? 9 then [92; 116]
  else if ch <? 32 then [92; 117; 48; 48; hex_digit (ch / 16); hex_digit (ch mod 16)]
  else [ch].

(** The bytes written for a string; a null one is empty.
    src/src/io/writer.c, [yvex_file_json_write_string] *)
Definition yvex_file_json_write_string (s : option string) : list Z :=
  34 :: (cstr (default ""%string s) ≫= json_write_char) ++ [34].

(** src/src/io/writer.c, [yvex_file_json_write_field] *)
Definition yvex_file_json_write_field (indent name value : option string) (comma : bool) : list Z :=
  cstr (default ""%string indent) ++ yvex_file_json_write_string name ++ [58; 32] ++ yvex_file_json_write_string value
    ++ if comma then [44; 10] else [10].
