(* ===== verification/JsonGrammar.v ===== *)
(** The grammar of JSON documents, inductively, and what the cursor of [Json] accepts and decodes: the
    documents of the grammar within its caps, the decoded text of a string, the value of an unsigned
    integer. The standard grammar, and what the cursor accepts beyond it. *)

From S2P Require Import Prelude Status Exec Utf8 Json.
#[local] Open Scope Z_scope.

(** * Grammar *)

Definition spaces (ws : list Z) : Prop := Forall (λ ch, isspace ch = true) ws.
Definition digits (ds : list Z) : Prop := ds ≠ [] ∧ Forall (λ ch, isdigit ch = true) ds.

(** The characters between two quotes, and the bytes the reader makes of them. *)
Inductive json_chars : list Z → list Z → Prop :=
  | chars_nil : json_chars [] []
  | chars_plain ch raw text :
      32 ≤ ch → ch ≠ 34 → ch ≠ 92 → json_chars raw text → json_chars (ch :: raw) (ch :: text)
  | chars_escape e ch raw text :
      json_unescape e = Some ch → json_chars raw text → json_chars (92 :: e :: raw) (ch :: text)
  | chars_unicode hex raw text :
      length hex = 4%nat → Forall (λ ch, source_json_hex ch = true) hex → json_chars raw text →
      json_chars (92 :: 117 :: hex ++ raw) (63 :: text).

Inductive json_integer : list Z → Prop :=
  | integer_zero : json_integer [48]
  | integer_digits ds : digits ds → head ds ≠ Some 48 → json_integer ds.

Inductive json_fractional : list Z → Prop :=
  | fraction_none : json_fractional []
  | fraction_some ds : digits ds → json_fractional (46 :: ds).

Inductive json_scale : list Z → Prop :=
  | scale_none : json_scale []
  | scale_some e sign ds :
      e = 101 ∨ e = 69 → sign ∈ [[]; [43]; [45]] → digits ds → json_scale (e :: sign ++ ds).

Inductive json_number : list Z → Prop :=
  | number_of sign whole part scale :
      sign ∈ [[]; [45]] → json_integer whole → json_fractional part → json_scale scale →
      json_number (sign ++ whole ++ part ++ scale).

(** What stands before the value of an entry: nothing in an array, a key of bounded decoded length and
    a colon in an object. *)
Inductive json_prefix : yvex_json_collection → list Z → Prop :=
  | prefix_array : json_prefix YVEX_JSON_COLLECTION_ARRAY []
  | prefix_object raw key ws :
      json_chars raw key → (length key < YVEX_JSON_KEY_CAP)%nat → spaces ws →
      json_prefix YVEX_JSON_COLLECTION_OBJECT ((34 :: raw ++ [34]) ++ ws ++ [58]).

Definition json_opening (collection : yvex_json_collection) : Z :=
  match collection with YVEX_JSON_COLLECTION_OBJECT => 123 | YVEX_JSON_COLLECTION_ARRAY => 91 end.
Definition json_closing (collection : yvex_json_collection) : Z :=
  match collection with YVEX_JSON_COLLECTION_OBJECT => 125 | YVEX_JSON_COLLECTION_ARRAY => 93 end.

(** Values that nest at most [d] collections, with the enabled extensions. *)
Inductive json_value (ext : Z) : nat → list Z → Prop :=
  | value_string d raw text : json_chars raw text → json_value ext d (34 :: raw ++ [34])
  | value_literal d text : text ∈ [text_true; text_false; text_null] → json_value ext d text
  | value_infinity d : Z.land ext YVEX_JSON_EXTENSION_POSITIVE_INFINITY ≠ 0 → json_value ext d text_infinity
  | value_number d text : json_number text → json_value ext d text
  | value_empty d c ws : spaces ws → json_value ext (S d) (json_opening c :: ws ++ [json_closing c])
  | value_collection d c body :
      json_body ext c d body → json_value ext (S d) (json_opening c :: body ++ [json_closing c])
with json_body (ext : Z) : yvex_json_collection → nat → list Z → Prop :=
  | body_last c d ws prefix ws' v ws'' :
      spaces ws → json_prefix c prefix → spaces ws' → json_value ext d v → spaces ws'' →
      json_body ext c d (ws ++ prefix ++ ws' ++ v ++ ws'')
  | body_more c d ws prefix ws' v ws'' body :
      spaces ws → json_prefix c prefix → spaces ws' → json_value ext d v → spaces ws'' →
      json_body ext c d body →
      json_body ext c d (ws ++ prefix ++ ws' ++ v ++ ws'' ++ 44 :: body).

Scheme json_value_mind := Minimality for json_value Sort Prop
  with json_body_mind := Minimality for json_body Sort Prop.
Combined Scheme json_grammar_ind from json_value_mind, json_body_mind.

(** A document: one value and white space, within the nesting cap. *)
Definition json_document (ext : Z) (text : list Z) : Prop :=
  ∃ ws v ws', spaces ws ∧ spaces ws' ∧ json_value ext (Z.to_nat YVEX_JSON_DEPTH_CAP) v ∧ text = ws ++ v ++ ws'.

(** * The lexical level *)

(** Concatenations associated to the right. *)
Ltac app_norm := repeat first [rewrite <- !app_assoc | progress cbn [app]].

Definition not_head (p : Z → bool) (rest : list Z) : Prop :=
  match rest with [] => True | ch :: _ => p ch = false end.

(** A text at which a number ends. *)
Definition stops (rest : list Z) : Prop :=
  not_head (λ ch, isdigit ch || (ch =? 46) || (ch =? 101) || (ch =? 69)) rest.

Lemma skip_while_split p text :
  ∃ ws, Forall (λ ch, p ch = true) ws ∧ text = ws ++ skip_while p text ∧ not_head p (skip_while p text).
Proof.
  induction text as [|ch text (ws & Hws & E & Hn)]; [by exists []|]. cbn [skip_while].
  destruct (p ch) eqn:Ep.
  - exists (ch :: ws). split; [by constructor|]. split; [by rewrite <- app_comm_cons, <- E|done].
  - by exists [].
Qed.

Lemma skip_while_app p ws rest :
  Forall (λ ch, p ch = true) ws → not_head p rest → skip_while p (ws ++ rest) = rest.
Proof.
  intros Hws Hn. induction Hws as [|ch ws Hch _ IH]; cbn [app skip_while]; [|by rewrite Hch].
  destruct rest as [|ch rest]; [done|]. cbn in *. by rewrite Hn.
Qed.

Lemma space_split json :
  ∃ ws rest, spaces ws ∧ js_cursor json = ws ++ rest ∧ not_head isspace rest ∧
    yvex_json_space json = json <| js_cursor := rest |>.
Proof.
  destruct (skip_while_split isspace (js_cursor json)) as (ws & Hws & E & Hn).
  exists ws, (skip_while isspace (js_cursor json)). done.
Qed.

Lemma space_app json ws rest :
  js_cursor json = ws ++ rest → spaces ws → not_head isspace rest →
  yvex_json_space json = json <| js_cursor := rest |>.
Proof. intros E Hws Hn. destruct json. cbn in *. rewrite E. unfold yvex_json_space. cbn. by rewrite skip_while_app. Qed.

Lemma json_digits_sound text rest :
  json_digits text = (true, rest) →
  ∃ ds, digits ds ∧ text = ds ++ rest ∧ head ds = head text.
Proof.
  destruct text as [|ch text]; cbn; [done|]. destruct (isdigit ch) eqn:Ech; [|done]. intros [= <-].
  destruct (skip_while_split isdigit text) as (ds & Hds & E & _).
  exists (ch :: ds). split; [|by rewrite <- app_comm_cons, <- E]. split; [done|by constructor].
Qed.

Lemma json_digits_complete ds rest :
  digits ds → not_head isdigit rest → json_digits (ds ++ rest) = (true, rest).
Proof.
  intros [Hne Hds] Hn. destruct Hds as [|ch ds Hch Hds]; [done|]. cbn. rewrite Hch.
  by rewrite skip_while_app.
Qed.

Lemma json_fraction_sound text rest :
  json_fraction text = (true, rest) → ∃ part, json_fractional part ∧ text = part ++ rest.
Proof.
  destruct text as [|ch text]; cbn [json_fraction]; [intros [= <-]; exists []; split; [constructor|done]|].
  destruct (Z.eqb_spec ch 46) as [->|].
  - intros E. destruct (json_digits_sound _ _ E) as (ds & Hds & -> & _).
    exists (46 :: ds). split; [by constructor|done].
  - intros [= <-]. exists []. split; [constructor|done].
Qed.

Lemma json_exponent_sound text rest :
  json_exponent text = (true, rest) → ∃ scale, json_scale scale ∧ text = scale ++ rest.
Proof.
  destruct text as [|e text]; cbn [json_exponent]; [intros [= <-]; exists []; split; [constructor|done]|].
  destruct ((e =? 101) || (e =? 69)) eqn:Ee.
  2: { intros [= <-]. exists []. split; [constructor|done]. }
  intros E. apply orb_true_iff in Ee. rewrite !Z.eqb_eq in Ee.
  assert (∃ sign rest', sign ∈ [[]; [43]; [45]] ∧ text = sign ++ rest' ∧ json_digits rest' = (true, rest))
    as (sign & rest' & Hsign & -> & E').
  { destruct text as [|ch text]; [done|]. destruct ((ch =? 43) || (ch =? 45)) eqn:Ech.
    - exists [ch], text. split; [|done]. guards. destruct Ech; subst; set_solver.
    - exists [], (ch :: text). split; [set_solver|done]. }
  destruct (json_digits_sound _ _ E') as (ds & Hds & -> & _).
  exists (e :: sign ++ ds). split; [by constructor|]. by rewrite <- app_comm_cons, (assoc_L (++)).
Qed.

Lemma stops_digit rest : stops rest → not_head isdigit rest.
Proof. destruct rest as [|ch rest]; [done|]. cbn. intros H. by guards. Qed.

Lemma json_exponent_complete scale rest :
  json_scale scale → stops rest → json_exponent (scale ++ rest) = (true, rest).
Proof.
  intros [|e sign ds He Hsign Hds] Hn.
  - destruct rest as [|ch rest]; [done|]. cbn in *. guards.
    rewrite (proj2 (Z.eqb_neq ch 101)), (proj2 (Z.eqb_neq ch 69)) by done. done.
  - apply stops_digit in Hn. cbn [app json_exponent].
    replace ((e =? 101) || (e =? 69)) with true by (destruct He; subst; done).
    rewrite <- (assoc_L (++)). destruct Hds as [Hne Hds].
    rewrite <- (json_digits_complete ds rest) by done. f_equal.
    destruct Hds as [|ch ds Hch Hds]; [done|]. cbn [app].
    assert (ch =? 43 = false ∧ ch =? 45 = false) as [E1 E2] by (unfold isdigit in Hch; guards; lia).
    apply elem_of_cons in Hsign as [-> | Hsign]; [cbn; by rewrite E1, E2|].
    apply elem_of_cons in Hsign as [-> | Hsign]; [done|].
    apply list_elem_of_singleton in Hsign as ->. done.
Qed.

(** What may stand after the part before the exponent. *)
Lemma scale_not_digit scale rest : json_scale scale → stops rest → not_head isdigit (scale ++ rest).
Proof. intros [|e sign ds He _ _] Hn; [by apply stops_digit|]. cbn. by destruct He; subst. Qed.

Lemma json_fraction_complete part scale rest :
  json_fractional part → json_scale scale → stops rest →
  json_fraction (part ++ scale ++ rest) = (true, scale ++ rest).
Proof.
  intros [|ds Hds] Hs Hn.
  - destruct Hs as [|e sign ds He _ _]; [|cbn; by destruct He; subst].
    destruct rest as [|ch rest]; [done|]. cbn in *. guards. by rewrite (proj2 (Z.eqb_neq ch 46)).
  - cbn [app json_fraction]. apply json_digits_complete; [done|]. by apply scale_not_digit.
Qed.

Lemma fraction_not_digit part scale rest :
  json_fractional part → json_scale scale → stops rest → not_head isdigit (part ++ scale ++ rest).
Proof. intros [|ds Hds] Hs Hn; [exact (scale_not_digit _ _ Hs Hn)|done]. Qed.

Lemma json_whole_sound text rest :
  json_whole text = (true, rest) → ∃ whole, json_integer whole ∧ text = whole ++ rest.
Proof.
  destruct text as [|ch text]; cbn [json_whole]; [done|]. destruct (Z.eqb_spec ch 48) as [->|].
  - intros [= <-]. exists [48]. split; [constructor|done].
  - intros E. destruct (json_digits_sound _ _ E) as (ds & Hds & Et & Hh).
    exists ds. split; [|done]. apply integer_digits; [done|]. rewrite Hh. cbn. congruence.
Qed.

Lemma json_whole_complete whole rest :
  json_integer whole → not_head isdigit rest → json_whole (whole ++ rest) = (true, rest).
Proof.
  intros [|ds Hds Hh] Hn; [done|]. rewrite <- (json_digits_complete ds rest) by done.
  destruct Hds as [Hne Hds]. destruct ds as [|ch ds]; [done|]. cbn in Hh. cbn [app json_whole].
  destruct (Z.eqb_spec ch 48); [congruence|done].
Qed.

Lemma json_sign_split text : ∃ sign, sign ∈ [[]; [45]] ∧ text = sign ++ json_sign text.
Proof.
  destruct text as [|ch text]; [exists []; split; [set_solver|done]|]. cbn [json_sign].
  destruct (Z.eqb_spec ch 45) as [->|]; [exists [45]|exists []]; (split; [set_solver|done]).
Qed.

Lemma skip_number_sound json json' :
  source_json_skip_number json = (true, json') →
  ∃ ws v rest, spaces ws ∧ json_number v ∧ js_cursor json = ws ++ v ++ rest ∧ json' = json <| js_cursor := rest |>.
Proof.
  unfold source_json_skip_number. destruct (space_split json) as (ws & text & Hws & E & _ & ->).
  cbn [js_cursor set_field eta_expand]. destruct (json_sign_split text) as (sign & Hsign & Et).
  remember (json_sign text) as text' eqn:Etext'. clear Etext'.
  destruct (json_whole text') as [[] t1] eqn:E1; [|done]. cbn [negb].
  destruct (json_fraction t1) as [[] t2] eqn:E2; [|done]. cbn [negb].
  destruct (json_exponent t2) as [ok t3] eqn:E3. intros [= -> <-].
  apply json_whole_sound in E1 as (whole & Hwhole & ->).
  apply json_fraction_sound in E2 as (part & Hpart & ->).
  apply json_exponent_sound in E3 as (scale & Hscale & ->).
  exists ws, (sign ++ whole ++ part ++ scale), t3. split; [done|]. split; [by constructor|].
  rewrite E, Et, <- !(assoc_L (++)). done.
Qed.

Lemma isdigit_range ch : isdigit ch = true → 48 ≤ ch ≤ 57.
Proof. unfold isdigit. intros H. guards. lia. Qed.

Lemma integer_head whole : json_integer whole → ∃ ch v, whole = ch :: v ∧ 48 ≤ ch ≤ 57.
Proof.
  intros [|ds [Hne Hds] _]; [by exists 48, []|]. destruct Hds as [|ch ds Hch _]; [done|].
  exists ch, ds. split; [done|by apply isdigit_range].
Qed.

Lemma number_head v : json_number v → ∃ ch v', v = ch :: v' ∧ (ch = 45 ∨ 48 ≤ ch ≤ 57).
Proof.
  intros [sign whole part scale Hsign Hwhole _ _].
  destruct (integer_head _ Hwhole) as (ch & w & -> & Hch).
  apply elem_of_cons in Hsign as [-> | Hsign]; [exists ch, (w ++ part ++ scale); split; [done|lia]|].
  apply list_elem_of_singleton in Hsign as ->. eexists _, _. split; [done|lia].
Qed.

Lemma skip_number_complete json v rest :
  js_cursor json = v ++ rest → json_number v → stops rest →
  source_json_skip_number json = (true, json <| js_cursor := rest |>).
Proof.
  intros E Hv Hn. unfold source_json_skip_number.
  destruct (number_head v Hv) as (ch & v' & Ev & Hch).
  rewrite (space_app json [] (v ++ rest)); [|done|constructor|].
  2: { rewrite Ev. cbn. unfold isspace. lia. }
  destruct Hv as [sign whole part scale Hsign Hwhole Hpart Hscale]. clear Ev Hch E.
  cbn [js_cursor set_field eta_expand].
  assert (json_sign ((sign ++ whole ++ part ++ scale) ++ rest) = whole ++ part ++ scale ++ rest) as ->.
  { rewrite <- !(assoc_L (++)). destruct (integer_head _ Hwhole) as (c & w & -> & Hc).
    apply elem_of_cons in Hsign as [-> | Hsign].
    - cbn. by rewrite (proj2 (Z.eqb_neq c 45)) by lia.
    - by apply list_elem_of_singleton in Hsign as ->. }
  rewrite (json_whole_complete whole), (json_fraction_complete part), (json_exponent_complete scale);
    [done|done..|]. by apply fraction_not_digit.
Qed.

Lemma literal_sound json literal json' :
  source_json_literal json literal = (true, json') →
  ∃ ws rest, spaces ws ∧ js_cursor json = ws ++ literal ++ rest ∧ json' = json <| js_cursor := rest |>.
Proof.
  unfold source_json_literal. destruct (space_split json) as (ws & text & Hws & E & _ & ->).
  cbn [js_cursor set_field eta_expand]. split_guard; [done|]. intros [= <-]. guards.
  exists ws, (drop (length literal) text). split; [done|]. split; [|done].
  rewrite E. f_equal. rewrite <- (take_drop (length literal) text) at 1. congruence.
Qed.

Lemma literal_complete json literal rest :
  js_cursor json = literal ++ rest → not_head isspace (literal ++ rest) →
  source_json_literal json literal = (true, json <| js_cursor := rest |>).
Proof.
  intros E Hn. unfold source_json_literal.
  rewrite (space_app json [] (literal ++ rest)) by (done || constructor).
  cbn [js_cursor set_field eta_expand]. rewrite take_app_length, drop_app_length, bool_decide_true by done.
  rewrite (proj2 (Nat.ltb_ge _ _)); [done|]. rewrite length_app. lia.
Qed.

(** ** Strings *)

(** What the decoded text leaves in a buffer. *)
Definition json_stored (out : option (list Z)) (text : list Z) (len : Z) : option (list Z) :=
  (foldl (λ '(out, len) ch, (json_put out len ch, len + 1)) (out, len) text).1.

Definition json_fits (out : option (list Z)) (len : Z) : bool :=
  match out with None => true | Some buffer => len <? Z.of_nat (length buffer) end.

Lemma json_put_length out len ch : length <$> json_put out len ch = length <$> out.
Proof. destruct out as [b|]; [|done]. cbn. case_match; [|done]. by rewrite length_insert. Qed.

Lemma json_fits_put out n len ch : json_fits (json_put out n ch) len = json_fits out len.
Proof.
  pose proof (json_put_length out n ch) as E. destruct out as [b|]; [|done]. cbn in *. by injection E as ->.
Qed.

Lemma stored_cons out ch text len : json_stored out (ch :: text) len = json_stored (json_put out len ch) text (len + 1).
Proof. done. Qed.

Lemma hex_digits_sound n text rest :
  json_hex_digits n text = (true, rest) →
  ∃ hex, length hex = n ∧ Forall (λ ch, source_json_hex ch = true) hex ∧ text = hex ++ rest.
Proof.
  revert text. induction n as [|n IH]; intros text; cbn.
  { intros [= <-]. exists []. repeat split; constructor. }
  destruct text as [|ch text]; [done|]. destruct (source_json_hex ch) eqn:Ech; [|done]. intros E.
  destruct (IH _ E) as (hex & <- & Hhex & ->). exists (ch :: hex). repeat split; by constructor.
Qed.

Lemma hex_digits_complete hex rest :
  Forall (λ ch, source_json_hex ch = true) hex → json_hex_digits (length hex) (hex ++ rest) = (true, rest).
Proof. intros H. induction H as [|ch hex Hch _ IH]; [done|]. cbn. by rewrite Hch. Qed.

Lemma string_loop_sound fuel text out len rest out' :
  json_string_loop fuel text out len = (true, rest, out') →
  ∃ raw decoded, json_chars raw decoded ∧ text = raw ++ 34 :: rest ∧
    json_fits out (len + Z.of_nat (length decoded)) = true ∧
    out' = json_terminate (json_stored out decoded len) (len + Z.of_nat (length decoded)).
Proof.
  revert text out len. induction fuel as [|fuel IH]; intros text out len; [done|].
  assert (Hstep : ∀ pre ch text',
    (∀ raw decoded, json_chars raw decoded → json_chars (pre ++ raw) (ch :: decoded)) →
    json_string_loop fuel text' (json_put out len ch) (len + 1) = (true, rest, out') →
    ∃ raw decoded, json_chars raw decoded ∧ pre ++ text' = raw ++ 34 :: rest ∧
      json_fits out (len + Z.of_nat (length decoded)) = true ∧
      out' = json_terminate (json_stored out decoded len) (len + Z.of_nat (length decoded))).
  { intros pre ch text' Hpre E. destruct (IH _ _ _ E) as (raw & decoded & Hc & -> & Hfit & ->).
    exists (pre ++ raw), (ch :: decoded). rewrite stored_cons, <- (assoc_L (++)). cbn [length].
    rewrite json_fits_put in Hfit.
    replace (len + Z.of_nat (S (length decoded))) with (len + 1 + Z.of_nat (length decoded)) by lia.
    by split; [apply Hpre|]. }
  destruct text as [|ch text]; [done|]. cbn [json_string_loop].
  destruct (Z.eqb_spec ch 34) as [->|].
  { intros E. injection E as Hfit -> <-. exists [], []. cbn [length]. rewrite Z.add_0_r. repeat split; [constructor|done]. }
  destruct (Z.ltb_spec ch 32); [done|].
  destruct (Z.eqb_spec ch 92) as [->|].
  2: { apply (Hstep [ch]). intros. by apply chars_plain. }
  destruct text as [|e text]; [done|]. destruct (Z.eqb_spec e 117) as [->|].
  - destruct (json_hex_digits 4 text) as [[] text'] eqn:Eh; [|done].
    destruct (hex_digits_sound _ _ _ Eh) as (hex & Hlen & Hhex & ->).
    apply (Hstep (92 :: 117 :: hex)). intros. by apply (chars_unicode hex).
  - destruct (json_unescape e) as [ch|] eqn:Ee; [|done].
    apply (Hstep [92; e]). intros. by apply chars_escape.
Qed.

Lemma string_loop_complete raw decoded fuel out len rest :
  json_chars raw decoded → (length raw < fuel)%nat →
  json_string_loop fuel (raw ++ 34 :: rest) out len =
    (json_fits out (len + Z.of_nat (length decoded)), rest,
     json_terminate (json_stored out decoded len) (len + Z.of_nat (length decoded))).
Proof.
  intros Hc. revert fuel out len.
  assert (Hlen : ∀ len n, len + Z.of_nat (S n) = len + 1 + Z.of_nat n) by lia.
  induction Hc as [|ch raw decoded H32 H34 H92 _ IH|e ch raw decoded He _ IH|hex raw decoded Hn Hhex _ IH];
    intros [|fuel] out len Hf; cbn [length] in Hf; [lia| |lia| |lia| |lia|].
  - cbn [app length]. by rewrite Z.add_0_r.
  - cbn [app json_string_loop length].
    rewrite (proj2 (Z.eqb_neq ch 34)), (proj2 (Z.ltb_ge ch 32)), (proj2 (Z.eqb_neq ch 92)) by lia.
    by rewrite IH, json_fits_put, Hlen by lia.
  - cbn [app json_string_loop length Z.eqb Z.ltb Z.compare Pos.eqb Pos.compare Pos.compare_cont].
    assert (e =? 117 = false) as ->.
    { apply Z.eqb_neq. intros ->. done. }
    by rewrite He, IH, json_fits_put, Hlen by lia.
  - rewrite length_app in Hf.
    cbn [app json_string_loop length Z.eqb Z.ltb Z.compare Pos.eqb Pos.compare Pos.compare_cont].
    rewrite <- (assoc_L (++)), <- Hn, hex_digits_complete by done. by rewrite IH, json_fits_put, Hlen by lia.
Qed.

Lemma json_put_in_room b len ch :
  0 ≤ len → len + 1 < Z.of_nat (length b) → json_put (Some b) len ch = Some (<[Z.to_nat len := ch]> b).
Proof. intros _ H. cbn. by rewrite (proj2 (Z.ltb_lt _ _) H). Qed.

Lemma insert_middle before after (x y : Z) :
  <[length before := y]> (before ++ x :: after) = before ++ y :: after.
Proof. induction before as [|b before IH]; [done|]. cbn. by f_equal. Qed.

Lemma stored_in_room before text after :
  after ≠ [] → (length text < length after)%nat →
  json_stored (Some (before ++ after)) text (Z.of_nat (length before)) =
    Some (before ++ text ++ drop (length text) after).
Proof.
  revert before after. induction text as [|ch text IH]; intros before after Hne Hlt; [done|].
  destruct after as [|a after]; [done|]. cbn [length] in Hlt. rewrite stored_cons, json_put_in_room.
  2: lia. 2: { rewrite length_app. cbn [length]. lia. }
  rewrite Nat2Z.id, (insert_middle before after a ch).
  replace (Z.of_nat (length before) + 1) with (Z.of_nat (length (before ++ [ch]))).
  2: { rewrite length_app. cbn [length]. lia. }
  replace (before ++ ch :: after) with ((before ++ [ch]) ++ after) by (by rewrite <- (assoc_L (++))).
  rewrite IH; [|destruct after; [cbn in Hlt; lia|done]|lia]. by rewrite <- !(assoc_L (++)).
Qed.

(** A buffer with room holds the text, its terminator and what it held behind them. *)
Lemma string_in_room b text :
  (length text < length b)%nat →
  json_terminate (json_stored (Some b) text 0) (Z.of_nat (length text)) =
    Some (text ++ 0 :: drop (S (length text)) b).
Proof.
  intros H. assert (b ≠ []) as Hb by (by intros ->; cbn in H; lia).
  pose proof (stored_in_room [] text b Hb H) as E. cbn [app length] in E. change (Z.of_nat 0) with 0 in E. rewrite E. clear E. cbn [app json_terminate fmap option_fmap option_map].
  rewrite length_app, length_drop. f_equal.
  replace (Z.to_nat _) with (length text) by lia.
  destruct (drop (length text) b) as [|x after] eqn:E.
  { apply (f_equal length) in E. rewrite length_drop in E. cbn in E. lia. }
  rewrite insert_middle. f_equal. f_equal.
  rewrite <- Nat.add_1_r, <- drop_drop, E. done.
Qed.

Lemma json_string_sound json out json' out' :
  yvex_json_string json out = (true, json', out') →
  ∃ ws raw text rest, spaces ws ∧ json_chars raw text ∧ js_cursor json = ws ++ (34 :: raw ++ [34]) ++ rest ∧
    json' = json <| js_cursor := rest |> ∧ json_fits out (Z.of_nat (length text)) = true ∧
    out' = json_terminate (json_stored out text 0) (Z.of_nat (length text)).
Proof.
  unfold yvex_json_string. destruct (space_split json) as (ws & text & Hws & E & _ & ->).
  cbn [js_cursor set_field eta_expand]. destruct text as [|ch text]; [done|].
  destruct (Z.eqb_spec ch 34) as [->|]; [|done]. cbn [negb].
  destruct (json_string_loop _ text out 0) as [[ok rest] out''] eqn:El. intros [= -> <- <-].
  apply string_loop_sound in El as (raw & decoded & Hc & -> & Hfit & ->).
  exists ws, raw, decoded, rest. repeat split; try done. by rewrite E, <- !app_comm_cons, <- (assoc_L (++)).
Qed.

Lemma json_string_complete json out ws raw text rest :
  js_cursor json = ws ++ (34 :: raw ++ [34]) ++ rest → spaces ws → json_chars raw text →
  yvex_json_string json out =
    (json_fits out (Z.of_nat (length text)), json <| js_cursor := rest |>,
     json_terminate (json_stored out text 0) (Z.of_nat (length text))).
Proof.
  intros E Hws Hc. unfold yvex_json_string. rewrite (space_app json ws _ E Hws) by done.
  cbn [js_cursor set_field eta_expand app negb Z.eqb Pos.eqb]. rewrite <- (assoc_L (++)). cbn [app].
  rewrite (string_loop_complete raw text) by (done || (rewrite length_app; cbn [length]; lia)). done.
Qed.

(** * Collections *)

(** One step of the loop of a collection. *)
Definition json_next (c : yvex_json_collection) :=
  match c with YVEX_JSON_COLLECTION_OBJECT => json_next_member | YVEX_JSON_COLLECTION_ARRAY => yvex_json_array_value end.

(** The iterator that has passed [k] entries. *)
Definition json_at (c : yvex_json_collection) (k : Z) : yvex_json_iter := JsonIter k (json_closing c) false false.

(** What stands before entry number [k]. *)
Definition json_separator (k : Z) (sep : list Z) : Prop :=
  if k =? 0 then sep = [] else ∃ ws, spaces ws ∧ sep = ws ++ [44].

Lemma spaces_nil : spaces [].
Proof. constructor. Qed.

Lemma spaces_app ws ws' : spaces ws → spaces ws' → spaces (ws ++ ws').
Proof. apply Forall_app_2. Qed.

#[local] Hint Resolve spaces_nil spaces_app : core.

Lemma advance_ready_sound c k json iter json' :
  json_iter_advance (json_at c k) json = (YVEX_JSON_ITEM_READY, iter, json') →
  ∃ sep ws rest, json_separator k sep ∧ spaces ws ∧ js_cursor json = sep ++ ws ++ rest ∧
    json' = json <| js_cursor := rest |> ∧ iter = json_at c (u64 (k + 1)).
Proof.
  unfold json_iter_advance, json_at, json_separator. cbn [it_complete it_closing it_count set_field eta_expand].
  destruct (space_split json) as (ws & text & Hws & E & _ & ->).
  cbn [js_cursor set_field eta_expand]. destruct text as [|ch text]; [done|].
  destruct (ch =? json_closing c); [done|]. destruct (Z.eqb_spec k 0) as [->|Hk]; cbn [negb].
  - intros [= <- <-]. by exists [], ws, (ch :: text).
  - destruct (Z.eqb_spec ch 44) as [->|]; [|done]. cbn [negb].
    match goal with |- context [yvex_json_space ?j] =>
      destruct (space_split j) as (ws' & rest & Hws' & E' & _ & ->) end.
    cbn [js_cursor set_field eta_expand] in *. destruct rest as [|ch rest]; [done|].
    destruct (ch =? json_closing c); [done|]. intros [= <- <-].
    exists (ws ++ [44]), ws', (ch :: rest). repeat split; try done; [by exists ws|].
    rewrite E, E', <- (assoc_L (++)). done.
Qed.

Lemma advance_end_sound c k json iter json' :
  json_iter_advance (json_at c k) json = (YVEX_JSON_ITEM_END, iter, json') → it_trailing_separator iter = false →
  ∃ ws rest, spaces ws ∧ js_cursor json = ws ++ json_closing c :: rest ∧ json' = json <| js_cursor := rest |>.
Proof.
  unfold json_iter_advance, json_at. cbn [it_complete it_closing it_count].
  destruct (space_split json) as (ws & text & Hws & E & _ & ->).
  cbn [js_cursor set_field eta_expand]. destruct text as [|ch text]; [done|].
  destruct (Z.eqb_spec ch (json_closing c)) as [->|].
  { intros [= <- <-] _. by exists ws, text. }
  destruct (negb (k =? 0)); [|done]. destruct (negb (ch =? 44)); [done|].
  destruct (js_cursor (yvex_json_space _)) as [|ch' rest] eqn:Er; [done|].
  destruct (ch' =? json_closing c); [|done]. by intros [= <- <-].
Qed.

Lemma next_ready_sound c k json iter json' :
  json_next c (json_at c k) json = (YVEX_JSON_ITEM_READY, iter, json') →
  ∃ sep ws prefix rest, json_separator k sep ∧ spaces ws ∧ json_prefix c prefix ∧
    js_cursor json = sep ++ ws ++ prefix ++ rest ∧
    json' = json <| js_cursor := rest |> ∧ iter = json_at c (u64 (k + 1)).
Proof.
  destruct c; cbn [json_next].
  2: { intros E. destruct (advance_ready_sound _ _ _ _ _ E) as (sep & ws & rest & Hs & Hws & -> & -> & ->).
       exists sep, ws, [], rest. repeat split; [done..|constructor]. }
  unfold json_next_member, yvex_json_object_member.
  destruct (json_iter_advance _ json) as [[item it] j1] eqn:Ea. destruct item; [done..|].
  destruct (advance_ready_sound _ _ _ _ _ Ea) as (sep & ws & r1 & Hs & Hws & E1 & -> & ->).
  destruct (yvex_json_string _ json_key) as [[[] j2] key] eqn:Ek; [|done].
  destruct (json_string_sound _ _ _ _ Ek) as (ws2 & raw & text & r2 & Hws2 & Hc & E2 & -> & Hfit & _).
  destruct (space_split (json <| js_cursor := r1 |> <| js_cursor := r2 |>)) as (ws3 & r3 & Hws3 & E3 & _ & ->).
  cbn [js_cursor set_field eta_expand] in *. destruct r3 as [|ch r3]; [done|].
  destruct (Z.eqb_spec ch 58) as [->|]; [|done]. intros [= <- <-].
  exists sep, (ws ++ ws2), ((34 :: raw ++ [34]) ++ ws3 ++ [58]), r3.
  repeat split; [done|auto|econstructor; [done| |done]|by rewrite E1, E2, E3, <- !(assoc_L (++))].
  unfold json_fits, json_key in Hfit. rewrite length_replicate in Hfit. guards. lia.
Qed.

Lemma next_end_sound c k json iter json' :
  json_next c (json_at c k) json = (YVEX_JSON_ITEM_END, iter, json') → it_trailing_separator iter = false →
  ∃ ws rest, spaces ws ∧ js_cursor json = ws ++ json_closing c :: rest ∧ json' = json <| js_cursor := rest |>.
Proof.
  destruct c; cbn [json_next]; [|apply (advance_end_sound YVEX_JSON_COLLECTION_ARRAY)].
  unfold json_next_member, yvex_json_object_member.
  destruct (json_iter_advance _ json) as [[item it] j1] eqn:Ea. destruct item; [done| |].
  - intros [= <- <-]. by apply (advance_end_sound YVEX_JSON_COLLECTION_OBJECT k).
  - destruct (yvex_json_string _ json_key) as [[[] j2] key]; [|done].
    destruct (js_cursor (yvex_json_space j2)) as [|ch rest]; [done|]. by destruct (ch =? 58).
Qed.

(** What is left of a collection after [k] entries, before its closing bracket. *)
Definition json_tail (ext : Z) (c : yvex_json_collection) (d : nat) (k : Z) (text : list Z) : Prop :=
  spaces text ∨ ∃ sep body, json_separator k sep ∧ json_body ext c d body ∧ text = sep ++ body.

(** [skip] reads a value that nests at most [d] collections. *)
Definition skip_sound (ext : Z) (d : nat) (depth : Z) (skip : yvex_json → bool * yvex_json) : Prop :=
  ∀ json json', skip json = (true, json') → js_depth json = depth → js_extensions json = ext →
    Z.of_nat (length (js_cursor json)) ≤ ULLONG_MAX →
    ∃ ws v rest, spaces ws ∧ json_value ext d v ∧ js_cursor json = ws ++ v ++ rest ∧
      json' = json <| js_cursor := rest |>.

Lemma value_head ext d v :
  json_value ext d v → ∃ ch v', v = ch :: v' ∧ isspace ch = false ∧ ch ≠ 93 ∧ ch ≠ 125 ∧ ch ≠ 44.
Proof.
  intros [d' raw text _|d' text Ht|d' _|d' text Hn|d' c ws _|d' c body _].
  - by exists 34, (raw ++ [34]).
  - apply elem_of_cons in Ht as [-> | Ht]; [by eexists _, _|].
    apply elem_of_cons in Ht as [-> | Ht]; [by eexists _, _|].
    apply list_elem_of_singleton in Ht as ->. by eexists _, _.
  - by eexists _, _.
  - destruct (number_head _ Hn) as (ch & v' & -> & Hch). exists ch, v'. unfold isspace. split; [done|]. lia.
  - eexists _, _. split; [done|]. by destruct c.
  - eexists _, _. split; [done|]. by destruct c.
Qed.

Lemma entries_sound ext c d depth skip fuel k json json' :
  skip_sound ext d depth skip → js_depth json = depth → js_extensions json = ext →
  0 ≤ k → k + Z.of_nat (length (js_cursor json)) ≤ ULLONG_MAX →
  json_skip_entries (json_next c) skip fuel (json_at c k) json = (true, json') →
  ∃ text rest, json_tail ext c d k text ∧ js_cursor json = text ++ json_closing c :: rest ∧
    json' = json_shallower (json <| js_cursor := rest |>).
Proof.
  intros Hskip. revert k json. induction fuel as [|fuel IH]; intros k json Hd He Hk Hlen; [done|].
  cbn [json_skip_entries]. destruct (json_next c (json_at c k) json) as [[item iter] j1] eqn:En.
  destruct item; [done| |].
  - destruct (it_trailing_separator iter) eqn:Et; [done|]. intros [= <-].
    destruct (next_end_sound _ _ _ _ _ En Et) as (ws & rest & Hws & E & ->).
    exists ws, rest. split; [by left|done].
  - destruct (next_ready_sound _ _ _ _ _ En) as (sep & ws & prefix & r1 & Hsep & Hws & Hp & E1 & -> & ->).
    destruct (skip (json <| js_cursor := r1 |>)) as [[] j2] eqn:Es; [|done].
    assert (k + Z.of_nat (length r1) ≤ ULLONG_MAX) as Hlen1 by (rewrite E1, !length_app in Hlen; lia).
    destruct (Hskip _ _ Es Hd He ltac:(cbn; lia)) as (ws' & v & r2 & Hws' & Hv & E2 & ->).
    cbn [js_cursor set_field eta_expand] in E2. subst r1.
    destruct (value_head _ _ _ Hv) as (ch & v' & Ev & _).
    assert (k + 1 + Z.of_nat (length r2) ≤ ULLONG_MAX) as Hlen2.
    { rewrite E1, Ev, !length_app in Hlen. cbn [length] in Hlen. lia. }
    rewrite u64_id by ulia. intros E. apply IH in E; [|done|done|lia|done].
    destruct E as (text & rest & Htail & E3 & ->). cbn [js_cursor set_field eta_expand] in E3. subst r2.
    destruct Htail as [Htail|(sep2 & body & Hsep2 & Hbody & ->)].
    + exists (sep ++ ws ++ prefix ++ ws' ++ v ++ text), rest. split; [|by rewrite E1, <- !(assoc_L (++))].
      right. exists sep, (ws ++ prefix ++ ws' ++ v ++ text). repeat split; [done|by constructor].
    + unfold json_separator in Hsep2. rewrite (proj2 (Z.eqb_neq _ _)) in Hsep2 by lia.
      destruct Hsep2 as (ws'' & Hws'' & ->).
      exists (sep ++ ws ++ prefix ++ ws' ++ v ++ ws'' ++ 44 :: body), rest.
      split; [|by rewrite E1; app_norm].
      right. eexists sep, _. repeat split; [done|]. by apply body_more.
Qed.

Lemma tail_zero_value ext c d text :
  json_tail ext c d 0 text → json_value ext (S d) (json_opening c :: text ++ [json_closing c]).
Proof.
  intros [Hws|(sep & body & Hsep & Hbody & ->)]; [by constructor|].
  cbv [json_separator Z.eqb] in Hsep. subst sep. by constructor.
Qed.

Lemma iter_begin_sound c json iter json' :
  yvex_json_iter_begin json c = (Some iter, json') →
  ∃ ws rest, spaces ws ∧ js_cursor json = ws ++ json_opening c :: rest ∧
    json' = json <| js_cursor := rest |> ∧ iter = json_at c 0.
Proof.
  unfold yvex_json_iter_begin. destruct (space_split json) as (ws & text & Hws & E & _ & ->).
  destruct c; cbn [js_cursor set_field eta_expand]; (destruct text as [|ch text]; [done|]);
    match goal with |- context [ch =? ?x] => destruct (Z.eqb_spec ch x) as [->|] end; try done;
    intros [= <- <-]; by exists ws, text.
Qed.

Lemma shallower_deeper json text :
  0 ≤ js_depth json < UINT32_MAX → json_shallower (json_deeper json <| js_cursor := text |>) = json <| js_cursor := text |>.
Proof.
  intros Hd. unfold json_shallower, json_deeper. cbn. f_equal. rewrite (u32_id (_ + 1)) by ulia.
  rewrite u32_id by ulia. lia.
Qed.

(** Both collections: [json_skip_object] and [json_skip_array]. *)
Lemma skip_collection_eq skip json c :
  match c with YVEX_JSON_COLLECTION_OBJECT => json_skip_object skip json
             | YVEX_JSON_COLLECTION_ARRAY => json_skip_array skip json end =
  if YVEX_JSON_DEPTH_CAP <=? js_depth json then (false, json)
  else match yvex_json_iter_begin json c with
       | (None, json) => (false, json)
       | (Some iter, json) => json_skip_entries (json_next c) skip (S (length (js_cursor json))) iter (json_deeper json)
       end.
Proof. by destruct c. Qed.

Lemma skip_collection_sound skip json json' c :
  match c with YVEX_JSON_COLLECTION_OBJECT => json_skip_object skip json
             | YVEX_JSON_COLLECTION_ARRAY => json_skip_array skip json end = (true, json') →
  0 ≤ js_depth json → Z.of_nat (length (js_cursor json)) ≤ ULLONG_MAX →
  (js_depth json < 64 → skip_sound (js_extensions json) (Z.to_nat (64 - (js_depth json + 1))) (js_depth json + 1) skip) →
  ∃ ws v rest, spaces ws ∧ json_value (js_extensions json) (Z.to_nat (64 - js_depth json)) v ∧
    js_cursor json = ws ++ v ++ rest ∧ json' = json <| js_cursor := rest |>.
Proof.
  rewrite skip_collection_eq. intros E H0 Hlen Hskip. unfold YVEX_JSON_DEPTH_CAP in *.
  destruct (Z.leb_spec 64 (js_depth json)); [done|]. specialize (Hskip ltac:(lia)).
  destruct (yvex_json_iter_begin json c) as [[iter|] j1] eqn:Eb; [|done].
  destruct (iter_begin_sound _ _ _ _ Eb) as (ws & r1 & Hws & E1 & -> & ->).
  rewrite E1, length_app in Hlen. cbn [length] in Hlen.
  eapply entries_sound in E as (text & rest & Htail & E2 & ->); [|exact Hskip|..].
  - exists ws, (json_opening c :: text ++ [json_closing c]), rest.
    apply tail_zero_value in Htail. cbn [js_cursor json_deeper set_field eta_expand] in E2. subst r1.
    replace (Z.to_nat (64 - js_depth json)) with (S (Z.to_nat (64 - (js_depth json + 1)))) by lia.
    repeat split; [done|done|rewrite E1; by app_norm|].
    by rewrite shallower_deeper by (cbn; ulia).
  - cbn. by rewrite u32_id by ulia.
  - done.
  - done.
  - cbn. lia.
Qed.

Lemma skip_nested_sound n json json' :
  json_skip_nested n json = (true, json') → 0 ≤ js_depth json →
  Z.of_nat (length (js_cursor json)) ≤ ULLONG_MAX →
  ∃ ws v rest, spaces ws ∧ json_value (js_extensions json) (Z.to_nat (64 - js_depth json)) v ∧
    js_cursor json = ws ++ v ++ rest ∧ json' = json <| js_cursor := rest |>.
Proof.
  revert json json'. induction n as [|n IH]; intros json json'; [done|]. cbn [json_skip_nested].
  destruct (space_split json) as (ws & text & Hws & E & _ & ->). cbn [js_cursor set_field eta_expand].
  destruct text as [|ch text]; [done|]. intros Eskip H0 Hlen.
  set (inner := json <| js_cursor := ch :: text |>) in *.
  assert (∃ ws v rest, spaces ws ∧ json_value (js_extensions inner) (Z.to_nat (64 - js_depth inner)) v ∧
    js_cursor inner = ws ++ v ++ rest ∧ json' = inner <| js_cursor := rest |>)
    as (ws' & v & rest & Hws' & Hv & E' & ->).
  2: { exists (ws ++ ws'), v, rest. repeat split; [auto|done| ]. rewrite E. cbn in E'. rewrite E'. by app_norm. }
  assert (Z.of_nat (length (js_cursor inner)) ≤ ULLONG_MAX) as Hlen'.
  { rewrite E, length_app in Hlen. cbn [inner js_cursor set_field eta_expand]. lia. }
  assert (Hin : js_depth inner < 64 →
    skip_sound (js_extensions inner) (Z.to_nat (64 - (js_depth inner + 1))) (js_depth inner + 1) (json_skip_nested n)).
  { intros _ j j' Ej Hd He Hl. rewrite <- Hd, <- He. apply IH; [done| |done]. change (js_depth inner) with (js_depth json) in Hd. lia. }
  destruct (ch =? 123).
  { by apply (skip_collection_sound _ _ _ YVEX_JSON_COLLECTION_OBJECT) in Eskip. }
  destruct (ch =? 91).
  { by apply (skip_collection_sound _ _ _ YVEX_JSON_COLLECTION_ARRAY) in Eskip. }
  destruct (ch =? 34).
  { change ((yvex_json_string inner None).1 = (true, json')) in Eskip.
    destruct (yvex_json_string inner None) as [[ok j] o] eqn:Es. injection Eskip as -> ->.
    destruct (json_string_sound _ _ _ _ Es) as (ws' & raw & t & rest & Hws' & Hc & E' & -> & _).
    exists ws', (34 :: raw ++ [34]), rest. repeat split; [done|by econstructor|done]. }
  assert (Hlit : ∀ l, source_json_literal inner l = (true, json') →
    json_value (js_extensions inner) (Z.to_nat (64 - js_depth inner)) l →
    ∃ ws v rest, spaces ws ∧ json_value (js_extensions inner) (Z.to_nat (64 - js_depth inner)) v ∧
      js_cursor inner = ws ++ v ++ rest ∧ json' = inner <| js_cursor := rest |>).
  { intros l El Hl. destruct (literal_sound _ _ _ El) as (ws' & rest & ? & ? & ->). by exists ws', l, rest. }
  destruct (ch =? 116); [apply (Hlit _ Eskip), value_literal; set_solver|].
  destruct (ch =? 102); [apply (Hlit _ Eskip), value_literal; set_solver|].
  destruct (ch =? 110); [apply (Hlit _ Eskip), value_literal; set_solver|].
  destruct ((ch =? 73) && _) eqn:Ei.
  { apply (Hlit _ Eskip), value_infinity. by guards. }
  destruct (skip_number_sound _ _ Eskip) as (ws' & v & rest & Hws' & Hv & E' & ->).
  exists ws', v, rest. repeat split; [done|by apply value_number|done].
Qed.

(** ** Completeness *)

Lemma closing_not_space c : isspace (json_closing c) = false.
Proof. by destruct c. Qed.

(** The head of what follows a separator, behind white space: not a space, not the closing bracket. *)
Definition json_entry_head (c : yvex_json_collection) (rest : list Z) : Prop :=
  ∃ ch text, rest = ch :: text ∧ isspace ch = false ∧ ch ≠ json_closing c ∧ ch ≠ 44.

Lemma separator_cases k sep :
  json_separator k sep → (k = 0 ∧ sep = []) ∨ (k ≠ 0 ∧ ∃ ws, spaces ws ∧ sep = ws ++ [44]).
Proof. unfold json_separator. destruct (Z.eqb_spec k 0); [by left|by right]. Qed.

Lemma advance_ready_complete c k json sep ws rest :
  js_cursor json = sep ++ ws ++ rest → json_separator k sep → spaces ws → json_entry_head c rest →
  json_iter_advance (json_at c k) json =
    (YVEX_JSON_ITEM_READY, json_at c (u64 (k + 1)), json <| js_cursor := rest |>).
Proof.
  intros E Hsep Hws (ch & text & -> & Hsp & Hcl & Hcomma).
  unfold json_iter_advance, json_at. cbn [it_complete it_closing it_count set_field eta_expand].
  destruct (separator_cases _ _ Hsep) as [[-> ->]|[Hk (ws0 & Hws0 & ->)]].
  - rewrite (space_app json ws (ch :: text)) by done. cbn [js_cursor set_field eta_expand negb Z.eqb].
    by rewrite (proj2 (Z.eqb_neq _ _) Hcl).
  - rewrite <- (assoc_L (++)) in E. cbn [app] in E. rewrite (space_app json ws0 _ E Hws0) by done.
    cbn [js_cursor set_field eta_expand].
    assert (44 =? json_closing c = false) as -> by (by destruct c).
    rewrite (proj2 (Z.eqb_neq _ _) Hk). cbn [negb Z.eqb Pos.eqb].
    match goal with |- context [yvex_json_space ?j] => rewrite (space_app j ws (ch :: text)) by done end.
    cbn [js_cursor set_field eta_expand]. by rewrite (proj2 (Z.eqb_neq _ _) Hcl).
Qed.

Lemma advance_end_complete c k json ws rest :
  js_cursor json = ws ++ json_closing c :: rest → spaces ws →
  ∃ iter, json_iter_advance (json_at c k) json = (YVEX_JSON_ITEM_END, iter, json <| js_cursor := rest |>) ∧
    it_trailing_separator iter = false.
Proof.
  intros E Hws. unfold json_iter_advance, json_at. cbn [it_complete it_closing it_count].
  rewrite (space_app json ws _ E Hws) by apply closing_not_space. cbn [js_cursor set_field eta_expand].
  rewrite Z.eqb_refl. by eexists.
Qed.

Lemma next_ready_complete c k json sep ws prefix ws' ext d v rest :
  js_cursor json = sep ++ ws ++ prefix ++ ws' ++ v ++ rest →
  json_separator k sep → spaces ws → json_prefix c prefix → spaces ws' → json_value ext d v →
  ∃ ws1, spaces ws1 ∧ json_next c (json_at c k) json =
    (YVEX_JSON_ITEM_READY, json_at c (u64 (k + 1)), json <| js_cursor := ws1 ++ v ++ rest |>).
Proof.
  intros E Hsep Hws Hp Hws' Hv. destruct (value_head _ _ _ Hv) as (ch & v' & Ev & Hch).
  destruct Hp as [|raw key ws2 Hc Hkey Hws2]; cbn [json_next].
  - exists []. split; [done|]. apply (advance_ready_complete YVEX_JSON_COLLECTION_ARRAY k json sep (ws ++ ws')); [|done|auto|].
    + rewrite E. by app_norm.
    + exists ch, (v' ++ rest). rewrite Ev. naive_solver.
  - exists ws'. split; [done|]. unfold json_next_member, yvex_json_object_member.
    rewrite (advance_ready_complete YVEX_JSON_COLLECTION_OBJECT k json sep ws _ E Hsep Hws) by (by eexists _, _).
    erewrite (json_string_complete _ json_key [] raw key (ws2 ++ 58 :: ws' ++ v ++ rest)) by
      (done || (cbn [js_cursor set_field eta_expand]; by app_norm)).
    assert (json_fits json_key (Z.of_nat (length key)) = true) as ->.
    { unfold json_fits, json_key. rewrite length_replicate. apply Z.ltb_lt. lia. }
    match goal with |- context [yvex_json_space ?j] =>
      rewrite (space_app j ws2 (58 :: ws' ++ v ++ rest)) by done end. done.
Qed.

Lemma next_end_complete c k json ws rest :
  js_cursor json = ws ++ json_closing c :: rest → spaces ws →
  ∃ iter, json_next c (json_at c k) json = (YVEX_JSON_ITEM_END, iter, json <| js_cursor := rest |>) ∧
    it_trailing_separator iter = false.
Proof.
  intros E Hws. destruct c; cbn [json_next].
  - destruct (advance_end_complete YVEX_JSON_COLLECTION_OBJECT k json ws rest E Hws) as (iter & Ea & Ht).
    exists iter. unfold json_next_member, yvex_json_object_member. by rewrite Ea.
  - by apply (advance_end_complete YVEX_JSON_COLLECTION_ARRAY k json ws rest).
Qed.

Lemma stops_spaces ws rest : spaces ws → stops rest → stops (ws ++ rest).
Proof.
  intros [|ch ws' Hch _] Hn; [done|]. cbn. unfold isspace in Hch. unfold isdigit. guards. lia.
Qed.

Lemma stops_closing c rest : stops (json_closing c :: rest).
Proof. by destruct c. Qed.

(** The cursor as a value nested at most [d] collections deep finds it. *)
Definition json_room (ext : Z) (d : nat) (json : yvex_json) : Prop :=
  0 ≤ js_depth json ∧ js_depth json + Z.of_nat d ≤ 64 ∧ js_extensions json = ext.

Definition value_read (ext : Z) (d : nat) (v : list Z) : Prop := ∀ n json ws rest,
  js_cursor json = ws ++ v ++ rest → spaces ws → stops rest → (d < n)%nat → json_room ext d json →
  Z.of_nat (length v) ≤ ULLONG_MAX →
  json_skip_nested n json = (true, json <| js_cursor := rest |>).

Definition body_read (ext : Z) (c : yvex_json_collection) (d : nat) (body : list Z) : Prop :=
  ∀ n fuel k sep json rest,
  js_cursor json = sep ++ body ++ json_closing c :: rest → json_separator k sep → (d < n)%nat →
  json_room ext d json → 0 ≤ k → k + Z.of_nat (length body) ≤ ULLONG_MAX → (length body < fuel)%nat →
  json_skip_entries (json_next c) (json_skip_nested n) fuel (json_at c k) json =
    (true, json_shallower (json <| js_cursor := rest |>)).

Lemma entries_end fuel c k skip json ws rest :
  js_cursor json = ws ++ json_closing c :: rest → spaces ws → (0 < fuel)%nat →
  json_skip_entries (json_next c) skip fuel (json_at c k) json =
    (true, json_shallower (json <| js_cursor := rest |>)).
Proof.
  intros E Hws Hf. destruct fuel; [lia|]. cbn [json_skip_entries].
  destruct (next_end_complete c k json ws rest E Hws) as (iter & -> & Ht). by rewrite Ht.
Qed.

(** One entry of the loop. *)
Lemma entries_step ext c d n fuel k sep ws prefix ws' v json rest :
  value_read ext d v → json_value ext d v →
  js_cursor json = sep ++ ws ++ prefix ++ ws' ++ v ++ rest →
  json_separator k sep → spaces ws → json_prefix c prefix → spaces ws' → stops rest → (d < n)%nat →
  json_room ext d json → 0 ≤ k → k + Z.of_nat (length v) ≤ ULLONG_MAX →
  json_skip_entries (json_next c) (json_skip_nested n) (S fuel) (json_at c k) json =
    json_skip_entries (json_next c) (json_skip_nested n) fuel (json_at c (k + 1)) (json <| js_cursor := rest |>).
Proof.
  intros Hread Hv E Hsep Hws Hp Hws' Hn Hd Hroom Hk Hlen. cbn [json_skip_entries].
  destruct (value_head _ _ _ Hv) as (ch & v' & Ev & _).
  assert (k + 1 ≤ ULLONG_MAX) by (rewrite Ev in Hlen; cbn [length] in Hlen; lia).
  destruct (next_ready_complete c k json sep ws prefix ws' ext d v rest) as (ws1 & Hws1 & ->); [done..|].
  rewrite u64_id by ulia.
  by rewrite (Hread n (json <| js_cursor := ws1 ++ v ++ rest |>) ws1 rest) by (done || lia).
Qed.

Lemma collection_read ext c d n json ws text rest :
  (∀ fuel json, js_cursor json = text ++ json_closing c :: rest → json_room ext d json → (length text < fuel)%nat →
     json_skip_entries (json_next c) (json_skip_nested n) fuel (json_at c 0) json =
       (true, json_shallower (json <| js_cursor := rest |>))) →
  js_cursor json = ws ++ (json_opening c :: text ++ [json_closing c]) ++ rest → spaces ws →
  json_room ext (S d) json →
  json_skip_nested (S n) json = (true, json <| js_cursor := rest |>).
Proof.
  intros Hentries E Hws (H0 & Hd & He). cbn [json_skip_nested].
  rewrite (space_app json ws _ E Hws) by (by destruct c). cbn [js_cursor set_field eta_expand app].
  set (inner := json <| js_cursor := json_opening c :: (text ++ [json_closing c]) ++ rest |>).
  transitivity (match c with YVEX_JSON_COLLECTION_OBJECT => json_skip_object (json_skip_nested n) inner
             | YVEX_JSON_COLLECTION_ARRAY => json_skip_array (json_skip_nested n) inner end).
  { by destruct c. }
  rewrite skip_collection_eq. unfold YVEX_JSON_DEPTH_CAP.
  rewrite (proj2 (Z.leb_gt _ _)) by (cbn; lia).
  assert (yvex_json_iter_begin inner c = (Some (json_at c 0), inner <| js_cursor := (text ++ [json_closing c]) ++ rest |>)) as ->.
  { unfold yvex_json_iter_begin. rewrite (space_app inner [] (js_cursor inner)) by (done || by destruct c). by destruct c. }
  rewrite Hentries; [by rewrite shallower_deeper by (cbn; ulia)|..].
  - cbn. by app_norm.
  - unfold json_room. cbn. rewrite u32_id by ulia. split; [lia|]. split; [lia|done].
  - cbn. rewrite !length_app. lia.
Qed.

Lemma grammar_read ext :
  (∀ d v, json_value ext d v → value_read ext d v) ∧ (∀ c d body, json_body ext c d body → body_read ext c d body).
Proof.
  assert (Hinner : ∀ json ws v rest ch v', js_cursor json = ws ++ v ++ rest → spaces ws → v = ch :: v' →
    isspace ch = false → yvex_json_space json = json <| js_cursor := v ++ rest |>).
  { intros json ws v rest ch v' E Hws -> Hch. by apply (space_app json ws). }
  apply json_grammar_ind.
  - intros d raw text Hc [|n] json ws rest E Hws Hn Hd Hroom Hlen; [lia|]. cbn [json_skip_nested].
    rewrite (Hinner _ _ _ _ 34 (raw ++ [34]) E) by done. cbn [js_cursor set_field eta_expand app].
    cbn [Z.eqb Pos.eqb]. by rewrite (json_string_complete _ None [] raw text rest).
  - intros d text Ht [|n] json ws rest E Hws Hn Hd Hroom Hlen; [lia|]. cbn [json_skip_nested].
    repeat (apply elem_of_cons in Ht as [-> | Ht];
      [erewrite (Hinner _ _ _ _ _ _ E) by done; cbn; by rewrite ?take_0, ?drop_0|]). by apply elem_of_nil in Ht.
  - intros d Hi [|n] json ws rest E Hws Hn Hd Hroom Hlen; [lia|]. cbn [json_skip_nested].
    erewrite (Hinner _ _ _ _ _ _ E) by done. destruct Hroom as (_ & _ & He). cbn. rewrite He.
    rewrite (proj2 (Z.eqb_neq _ _) Hi). cbn. by rewrite ?take_0, ?drop_0.
  - intros d text Ht [|n] json ws rest E Hws Hn Hd Hroom Hlen; [lia|]. cbn [json_skip_nested].
    destruct (number_head _ Ht) as (ch & v' & -> & Hch).
    rewrite (Hinner _ _ _ _ ch v' E) by (done || (unfold isspace; lia)). cbn [js_cursor set_field eta_expand app].
    rewrite !(proj2 (Z.eqb_neq ch _)) by lia. cbn [andb].
    by rewrite (skip_number_complete _ (ch :: v') rest).
  - intros d c ws' Hws' [|n] json ws rest E Hws Hn Hd Hroom Hlen; [lia|].
    apply (collection_read ext c d n json ws ws' rest); [|done..].
    intros fuel j Ej _ Hf. apply (entries_end _ _ _ _ _ ws'); [done|done|lia].
  - intros d c body Hbody IH [|n] json ws rest E Hws Hn Hd Hroom Hlen; [lia|].
    apply (collection_read ext c d n json ws body rest); [|done..].
    intros fuel j Ej Hr Hf. apply (IH n fuel 0 []); try done; [lia|].
    cbn [length] in Hlen. rewrite length_app in Hlen. lia.
  - intros c d ws prefix ws' v ws'' Hws Hp Hws' Hv IH Hws'' n fuel k sep json rest E Hsep Hn Hroom Hk Hlen Hf.
    destruct (value_head _ _ _ Hv) as (ch & v' & Ev & _).
    rewrite !length_app in Hlen, Hf. destruct fuel as [|fuel]; [lia|].
    rewrite (entries_step ext c d n fuel k sep ws prefix ws' v json (ws'' ++ json_closing c :: rest));
      [|done|done|rewrite E; by app_norm|done..| | | | |lia]; try done.
    + rewrite (entries_end _ _ _ _ _ ws'' rest); [done|done|done|]. rewrite Ev in Hf. cbn [length] in Hf. lia.
    + apply stops_spaces; [done|apply stops_closing].
  - intros c d ws prefix ws' v ws'' body Hws Hp Hws' Hv IH Hws'' Hbody IHbody
      n fuel k sep json rest E Hsep Hn Hroom Hk Hlen Hf.
    destruct (value_head _ _ _ Hv) as (ch & v' & Ev & _).
    rewrite !length_app in Hlen, Hf. cbn [length] in Hlen, Hf. destruct fuel as [|fuel]; [lia|].
    rewrite (entries_step ext c d n fuel k sep ws prefix ws' v json (ws'' ++ 44 :: body ++ json_closing c :: rest));
      [|done|done|rewrite E; by app_norm|done..| | | | |lia]; try done.
    + rewrite (IHbody n fuel (k + 1) (ws'' ++ [44]) _ rest); [done| | | | | | |]; try done; try lia.
      * by app_norm.
      * unfold json_separator. rewrite (proj2 (Z.eqb_neq _ _)) by lia. by exists ws''.
    + by apply stops_spaces.
Qed.

(** * Documents *)

(** * The standard grammar *)

(** The grammar of RFC 8259, over bytes: a text is UTF-8, white space is one of four characters, and the
    characters of a string are scalar values or escapes. Two limits, which the standard allows an
    implementation to set, are those of the source: how deep collections nest, and how long the decoded
    name of a member is, an escape counting for one byte. *)
Definition rfc_space (ch : Z) : Prop := ch ∈ [32; 9; 10; 13].
Definition rfc_spaces (ws : list Z) : Prop := Forall rfc_space ws.
Definition rfc_hex (ch : Z) : Prop := 48 ≤ ch ≤ 57 ∨ 65 ≤ ch ≤ 70 ∨ 97 ≤ ch ≤ 102.

(** The characters of a string, with the length of what they decode to. *)
Inductive rfc_chars : list Z → nat → Prop :=
  | rfc_nil : rfc_chars [] 0
  | rfc_unescaped point raw n :
      is_scalar point → 32 ≤ point → point ≠ 34 → point ≠ 92 → rfc_chars raw n →
      rfc_chars (utf8_put point ++ raw) (length (utf8_put point) + n)
  | rfc_escape e raw n : e ∈ [34; 92; 47; 98; 102; 110; 114; 116] → rfc_chars raw n → rfc_chars (92 :: e :: raw) (S n)
  | rfc_unicode hex raw n :
      length hex = 4%nat → Forall rfc_hex hex → rfc_chars raw n → rfc_chars (92 :: 117 :: hex ++ raw) (S n).

Inductive rfc_name : yvex_json_collection → list Z → Prop :=
  | name_array : rfc_name YVEX_JSON_COLLECTION_ARRAY []
  | name_object raw n ws :
      rfc_chars raw n → (n < YVEX_JSON_KEY_CAP)%nat → rfc_spaces ws →
      rfc_name YVEX_JSON_COLLECTION_OBJECT ((34 :: raw ++ [34]) ++ ws ++ [58]).

Inductive rfc_value : nat → list Z → Prop :=
  | rfc_string d raw n : rfc_chars raw n → rfc_value d (34 :: raw ++ [34])
  | rfc_literal d text : text ∈ [text_true; text_false; text_null] → rfc_value d text
  | rfc_number d text : json_number text → rfc_value d text
  | rfc_empty d c ws : rfc_spaces ws → rfc_value (S d) (json_opening c :: ws ++ [json_closing c])
  | rfc_collection d c entries :
      rfc_entries c d entries → rfc_value (S d) (json_opening c :: entries ++ [json_closing c])
with rfc_entries : yvex_json_collection → nat → list Z → Prop :=
  | rfc_last c d ws name ws' v ws'' :
      rfc_spaces ws → rfc_name c name → rfc_spaces ws' → rfc_value d v → rfc_spaces ws'' →
      rfc_entries c d (ws ++ name ++ ws' ++ v ++ ws'')
  | rfc_more c d ws name ws' v ws'' entries :
      rfc_spaces ws → rfc_name c name → rfc_spaces ws' → rfc_value d v → rfc_spaces ws'' →
      rfc_entries c d entries → rfc_entries c d (ws ++ name ++ ws' ++ v ++ ws'' ++ 44 :: entries).

Scheme rfc_value_mind := Minimality for rfc_value Sort Prop
  with rfc_entries_mind := Minimality for rfc_entries Sort Prop.
Combined Scheme rfc_grammar_ind from rfc_value_mind, rfc_entries_mind.

Definition rfc_text (text : list Z) : Prop :=
  ∃ ws v ws', rfc_spaces ws ∧ rfc_spaces ws' ∧ rfc_value (Z.to_nat YVEX_JSON_DEPTH_CAP) v ∧ text = ws ++ v ++ ws'.

(** What the cursor does not check: the text is UTF-8, and has no vertical tab and no form feed. *)
Definition rfc_bytes (text : list Z) : Prop :=
  Forall (λ ch, ch ≠ 11 ∧ ch ≠ 12) text ∧ ∃ points, Forall is_scalar points ∧ text = utf8_text points.

Definition ascii (ch : Z) : Prop := 0 ≤ ch < 128.

(** A text after which a character ends. *)
Definition ascii_head (rest : list Z) : Prop := match rest with [] => True | ch :: _ => ascii ch end.

Lemma ascii_put ch : ascii ch → is_scalar ch ∧ utf8_put ch = [ch].
Proof.
  intros H. assert (is_scalar ch) as Hs by (unfold ascii, is_scalar in *; lia). split; [done|].
  rewrite utf8_put_digits by done. unfold utf8_digits, ascii in *. by rewrite (proj2 (Z.ltb_lt ch 128)) by lia.
Qed.

(** A scalar value beyond ASCII has no ASCII byte. *)
Lemma high_put point : is_scalar point → 128 ≤ point → Forall (λ b, 128 ≤ b) (utf8_put point).
Proof.
  intros Hp H. rewrite utf8_put_digits by done. unfold utf8_digits, is_scalar in *.
  repeat (case_match; guards); repeat constructor; try lia; pose proof (Z.mod_pos_bound point 64);
    pose proof (Z.mod_pos_bound (point / 64) 64); pose proof (Z.mod_pos_bound (point / 4096) 64);
    pose proof (Z.div_pos point 64); pose proof (Z.div_pos point 4096); pose proof (Z.div_pos point 262144); lia.
Qed.

Lemma rfc_bytes_nil : rfc_bytes [].
Proof. split; [constructor|]. by exists []. Qed.

Lemma rfc_bytes_app a b : rfc_bytes a → rfc_bytes b → rfc_bytes (a ++ b).
Proof.
  intros [Ha (ps & Hps & ->)] [Hb (qs & Hqs & ->)]. split; [by apply Forall_app|].
  exists (ps ++ qs). split; [by apply Forall_app|]. by rewrite utf8_text_app.
Qed.

Lemma rfc_bytes_put point : is_scalar point → 32 ≤ point → rfc_bytes (utf8_put point).
Proof.
  intros Hp H. split; [|exists [point]; split; [by constructor|]; unfold utf8_text; cbn; by rewrite app_nil_r].
  destruct (decide (point < 128)) as [Hlt|Hge].
  - rewrite (proj2 (ascii_put point ltac:(split; lia))). constructor; [lia|done].
  - eapply Forall_impl; [apply high_put; [done|lia]|]. cbn. lia.
Qed.

Lemma rfc_bytes_ascii a : Forall (λ ch, ascii ch ∧ ch ≠ 11 ∧ ch ≠ 12) a → rfc_bytes a.
Proof.
  intros H. induction H as [|ch a (Hch & Hne) _ IH]; [apply rfc_bytes_nil|].
  change (ch :: a) with ([ch] ++ a). apply rfc_bytes_app; [|done]. destruct (ascii_put ch Hch) as [Hs Ep].
  split; [by constructor|]. exists [ch]. split; [by constructor|]. unfold utf8_text. cbn. by rewrite app_nil_r.
Qed.

(** Characters end where an ASCII character begins. *)
Lemma rfc_bytes_split a b : rfc_bytes (a ++ b) → ascii_head b → rfc_bytes a ∧ rfc_bytes b.
Proof.
  intros [Hn (points & Hps & E)] Hb. apply Forall_app in Hn as [Ha Hb'].
  cut ((∃ ps, Forall is_scalar ps ∧ a = utf8_text ps) ∧ ∃ qs, Forall is_scalar qs ∧ b = utf8_text qs).
  { intros [H1 H2]. by split. }
  clear Ha Hb'. revert a E. induction Hps as [|p ps Hp Hps IH]; intros a E.
  { apply app_eq_nil in E as [-> ->]. split; by exists []. }
  destruct a as [|x a]; [split; [by exists []|exists (p :: ps); split; [by constructor|done]]|].
  rewrite utf8_text_cons in E.
  destruct (decide (length (utf8_put p) ≤ length (x :: a))%nat) as [Hle|Hgt].
  - apply app_eq_inv in E as [(k & E1 & E2)|(k & E1 & E2)].
    + destruct (IH k (eq_sym E2)) as [(l & Hl & ->) Hr]. split; [|done].
      exists (p :: l). split; [by constructor|]. by rewrite utf8_text_cons.
    + assert (k = []) as ->.
      { apply nil_length_inv. apply (f_equal length) in E1. rewrite length_app in E1. lia. }
      rewrite app_nil_r in E1. cbn [app] in E2. split; [|exists ps; by split].
      exists [p]. split; [by constructor|]. unfold utf8_text. cbn [fmap list_fmap mjoin list_join]. by rewrite app_nil_r.
  - exfalso. apply app_eq_inv in E as [(k & E1 & E2)|(k & E1 & E2)].
    { apply (f_equal length) in E1. rewrite length_app in E1. lia. }
    destruct k as [|y k]; [rewrite app_nil_r in E1; rewrite E1 in Hgt; lia|].
    rewrite E2 in Hb. cbn in Hb. destruct (decide (p < 128)) as [Hlt|Hge].
    + rewrite (proj2 (ascii_put p ltac:(unfold is_scalar in Hp; split; lia))) in Hgt. cbn in Hgt. lia.
    + pose proof (high_put p Hp ltac:(lia)) as Hh. rewrite E1 in Hh. apply Forall_app in Hh as [_ Hh].
      inversion Hh; subst. unfold ascii in Hb. lia.
Qed.

Lemma rfc_bytes_tail a b : Forall ascii a → rfc_bytes (a ++ b) → rfc_bytes b.
Proof.
  intros Ha [Hn (points & Hps & E)]. apply Forall_app in Hn as [_ Hn]. split; [done|]. clear Hn.
  revert points Hps E. induction Ha as [|ch a Hch _ IH]; intros points Hps E; [by exists points|].
  destruct Hps as [|p ps Hp Hps]; [done|]. apply (IH ps Hps). rewrite utf8_text_cons in E.
  destruct (decide (p < 128)) as [Hlt|Hge].
  - rewrite (proj2 (ascii_put p ltac:(unfold is_scalar in Hp; split; lia))) in E. by injection E.
  - pose proof (high_put p Hp ltac:(lia)) as Hh. pose proof (utf8_put_length p) as Hl.
    destruct (utf8_put p) as [|y k]; [cbn in Hl; lia|]. injection E as -> _. inversion Hh; subst. unfold ascii in Hch. lia.
Qed.

Lemma rfc_space_space ch : rfc_space ch ↔ isspace ch = true ∧ ch ≠ 11 ∧ ch ≠ 12.
Proof.
  unfold rfc_space, isspace. rewrite !elem_of_cons, elem_of_nil. split.
  - intros [->|[->|[->|[->|[]]]]]; by repeat split.
  - intros (H & H1 & H2). guards. lia.
Qed.

Lemma rfc_spaces_spaces ws : rfc_spaces ws → spaces ws ∧ rfc_bytes ws.
Proof.
  intros H. split; [eapply Forall_impl; [exact H|]; intros ch Hch; by apply rfc_space_space|].
  apply rfc_bytes_ascii. eapply Forall_impl; [exact H|]. intros ch Hch. apply rfc_space_space in Hch as (Hs & Hn).
  split; [|done]. unfold isspace, ascii in *. guards; lia.
Qed.

Lemma spaces_ascii ws : spaces ws → Forall ascii ws.
Proof. intros H. eapply Forall_impl; [exact H|]. intros ch Hch. unfold isspace, ascii in *. guards; lia. Qed.

(** White space of a text whose bytes the standard allows. *)
Lemma spaces_rfc ws rest : spaces ws → rfc_bytes (ws ++ rest) → rfc_spaces ws ∧ rfc_bytes rest.
Proof.
  intros Hs Hb. split; [|by apply (rfc_bytes_tail ws), Hb; apply spaces_ascii].
  destruct Hb as [Hn _]. apply Forall_app in Hn as [Hn _]. unfold spaces, rfc_spaces in *. rewrite Forall_forall in *.
  intros ch Hin. apply rfc_space_space. split; [by apply Hs|by apply Hn].
Qed.

Lemma ascii_head_spaces ws rest : spaces ws → ascii_head rest → ascii_head (ws ++ rest).
Proof. intros Hs Hr. apply spaces_ascii in Hs. by destruct Hs. Qed.

Lemma rfc_hex_hex ch : rfc_hex ch ↔ source_json_hex ch = true.
Proof.
  unfold rfc_hex, source_json_hex, isdigit. split; [|intros H; guards; lia].
  intros [H|[H|H]]; apply orb_true_iff; rewrite orb_true_iff, !andb_true_iff, !Z.leb_le; lia.
Qed.

Lemma rfc_escape_escape e : e ∈ [34; 92; 47; 98; 102; 110; 114; 116] ↔ is_Some (json_unescape e).
Proof.
  rewrite !elem_of_cons, elem_of_nil. unfold json_unescape. split.
  - intros H. repeat (case_match; guards); try done; lia.
  - intros [ch H]. repeat (case_match; guards; try tauto). done.
Qed.

Lemma hex_ascii hex : Forall (λ ch, source_json_hex ch = true) hex → Forall ascii hex.
Proof. intros H. eapply Forall_impl; [exact H|]. intros ch Hch%rfc_hex_hex. unfold rfc_hex, ascii in *. lia. Qed.

(** The bytes of one unescaped character. *)
Lemma chars_bytes bs raw text :
  Forall (λ b, 32 ≤ b ∧ b ≠ 34 ∧ b ≠ 92) bs → json_chars raw text → json_chars (bs ++ raw) (bs ++ text).
Proof. intros H Hc. induction H as [|b bs (? & ? & ?) _ IH]; [done|]. by apply chars_plain. Qed.

Lemma chars_high bs raw text :
  Forall (λ b, 128 ≤ b) bs → json_chars (bs ++ raw) text → ∃ rest, text = bs ++ rest ∧ json_chars raw rest.
Proof.
  intros H. revert text. induction H as [|b bs Hb _ IH]; intros text Hc; [by exists text|].
  inversion Hc as [|ch raw' text' _ _ _ Hc'| |]; subst; [|lia..].
  destruct (IH _ Hc') as (rest & -> & Hr). by exists rest.
Qed.

Lemma rfc_chars_chars raw n :
  rfc_chars raw n → ∃ text, json_chars raw text ∧ length text = n ∧ rfc_bytes raw.
Proof.
  intros H. induction H as [|p raw n Hp H32 H34 H92 _ (text & Hc & Hn & Hb)|e raw n He _ (text & Hc & Hn & Hb)|
    hex raw n Hl Hh _ (text & Hc & Hn & Hb)].
  - exists []. split; [constructor|]. split; [done|apply rfc_bytes_nil].
  - exists (utf8_put p ++ text). split; [|split].
    + apply chars_bytes; [|done]. destruct (decide (p < 128)) as [Hlt|Hge].
      * rewrite (proj2 (ascii_put p ltac:(split; lia))). by repeat constructor.
      * eapply Forall_impl; [apply high_put; [done|lia]|]. cbn. lia.
    + rewrite length_app. lia.
    + apply rfc_bytes_app; [by apply rfc_bytes_put|done].
  - pose proof He as He'. apply rfc_escape_escape in He as [ch Ech]. exists (ch :: text). split; [by apply chars_escape|].
    split; [cbn; lia|]. change (92 :: e :: raw) with ([92; e] ++ raw). apply rfc_bytes_app; [|done].
    apply rfc_bytes_ascii. rewrite !elem_of_cons, elem_of_nil in He'. unfold ascii. repeat constructor; lia.
  - exists (63 :: text). split; [|split; [cbn; lia|]].
    + apply chars_unicode; [done| |done]. eapply Forall_impl; [exact Hh|]. intros ch. by rewrite rfc_hex_hex.
    + change (92 :: 117 :: hex ++ raw) with ([92; 117] ++ hex ++ raw).
      apply rfc_bytes_app; [by apply rfc_bytes_ascii; repeat constructor|]. apply rfc_bytes_app; [|done].
      apply rfc_bytes_ascii. eapply Forall_impl; [exact Hh|]. intros ch. unfold rfc_hex, ascii. cbn. lia.
Qed.

Lemma chars_rfc k raw text : (length raw < k)%nat → json_chars raw text → rfc_bytes raw → rfc_chars raw (length text).
Proof.
  revert raw text. induction k as [|k IH]; intros raw text Hk Hc Hb; [lia|].
  pose proof Hb as [_ (points & Hps & E)]. destruct Hps as [|p ps Hp Hps].
  { cbn in E. subst raw. inversion Hc; subst. constructor. }
  rewrite utf8_text_cons in E. destruct (decide (p < 128)) as [Hlt|Hge].
  - destruct (ascii_put p ltac:(unfold is_scalar in Hp; split; lia)) as [_ Ep]. rewrite Ep in E. cbn [app] in E.
    inversion Hc as [|ch raw' text' H32 H34 H92 Hc'|e ch raw' text' He Hc'|hex raw' text' Hl Hh Hc']; subst; cbn [length] in *;
      [done|..]; simplify_eq.
    + change (p :: utf8_text ps) with ([p] ++ utf8_text ps). rewrite <- Ep.
      change (S (length text')) with (1 + length text')%nat. replace 1%nat with (length (utf8_put p)) by by rewrite Ep.
      apply rfc_unescaped; try done. apply IH; [lia|done|]. by split; [by destruct Hb as [Hb _]; inversion Hb|exists ps].
    + match goal with H : _ = utf8_text ps |- _ => rewrite <- H in * end. cbn [length] in Hk.
      assert (e ∈ [34; 92; 47; 98; 102; 110; 114; 116]) as He' by (apply rfc_escape_escape; by eexists).
      apply rfc_escape; [done|]. apply IH; [lia|done|]. apply (rfc_bytes_tail [92; e]); [|done].
      rewrite !elem_of_cons, elem_of_nil in He'. unfold ascii. repeat constructor; lia.
    + match goal with H : _ = utf8_text ps |- _ => rewrite <- H in * end. cbn [length] in Hk. rewrite length_app in Hk.
      apply rfc_unicode; [done| |].
      * eapply Forall_impl; [exact Hh|]. intros ch. by rewrite rfc_hex_hex.
      * apply IH; [lia|done|]. apply (rfc_bytes_tail hex); [by apply hex_ascii|].
        apply (rfc_bytes_tail [92; 117]); [by repeat constructor|done].
  - pose proof (high_put p Hp ltac:(lia)) as Hh. subst raw. pose proof (utf8_put_length p) as Hl. rewrite length_app in Hk.
    destruct (chars_high _ _ _ Hh Hc) as (rest & -> & Hc'). rewrite length_app. apply rfc_unescaped; try (done || lia).
    apply IH; [lia|done|]. split; [by destruct Hb as [Hb _]; apply Forall_app in Hb as [_ Hb]|by exists ps].
Qed.

Lemma rfc_bytes_one ch : ascii ch → ch ≠ 11 → ch ≠ 12 → rfc_bytes [ch].
Proof. intros. apply rfc_bytes_ascii. constructor; [by split|constructor]. Qed.

(** A quoted string of characters. *)
Lemma rfc_quoted raw n : rfc_chars raw n → ∃ text, json_chars raw text ∧ length text = n ∧ rfc_bytes (34 :: raw ++ [34]).
Proof.
  intros (text & Hc & Hn & Hb)%rfc_chars_chars. exists text. split; [done|]. split; [done|].
  change (34 :: raw ++ [34]) with ([34] ++ raw ++ [34]). apply rfc_bytes_app; [|apply rfc_bytes_app; [done|]]; by apply rfc_bytes_one.
Qed.

Lemma quoted_rfc raw text rest :
  json_chars raw text → rfc_bytes (34 :: raw ++ 34 :: rest) → rfc_chars raw (length text) ∧ rfc_bytes rest.
Proof.
  intros Hc Hb. apply (rfc_bytes_tail [34]) in Hb; [|by repeat constructor].
  apply rfc_bytes_split in Hb as [Hr Hb]; [|done]. split; [apply (chars_rfc (S (length raw))); [lia|done|done]|].
  apply (rfc_bytes_tail [34]) in Hb; [done|by repeat constructor].
Qed.

Lemma rfc_name_prefix c name : rfc_name c name → json_prefix c name ∧ rfc_bytes name.
Proof.
  intros [|raw n ws Hc Hn Hws]; [split; [constructor|apply rfc_bytes_nil]|].
  destruct (rfc_quoted _ _ Hc) as (text & Hc' & <- & Hb). destruct (rfc_spaces_spaces _ Hws) as [Hs Hsb].
  split; [by eapply prefix_object|]. apply rfc_bytes_app; [done|]. apply rfc_bytes_app; [done|by apply rfc_bytes_one].
Qed.

Lemma prefix_rfc c prefix rest :
  json_prefix c prefix → rfc_bytes (prefix ++ rest) → rfc_name c prefix ∧ rfc_bytes rest.
Proof.
  intros [|raw key ws Hc Hn Hws] Hb; [split; [constructor|done]|].
  assert (rfc_bytes (34 :: raw ++ 34 :: ws ++ 58 :: rest)) as Hb0 by (revert Hb; by app_norm).
  destruct (quoted_rfc _ _ _ Hc Hb0) as [Hr Hb1]. destruct (spaces_rfc _ _ Hws Hb1) as [Hs Hb2].
  split; [exact (name_object raw (length key) ws Hr Hn Hs)|]. apply (rfc_bytes_tail [58]) in Hb2; [done|by repeat constructor].
Qed.

Lemma literal_bytes text : text ∈ [text_true; text_false; text_null] → rfc_bytes text.
Proof.
  rewrite !elem_of_cons, elem_of_nil. intros [->|[->|[->|[]]]]; apply rfc_bytes_ascii; unfold ascii; by repeat constructor.
Qed.

Lemma digits_bytes ds : Forall (λ ch, isdigit ch = true) ds → rfc_bytes ds.
Proof.
  intros H. apply rfc_bytes_ascii. eapply Forall_impl; [exact H|]. intros ch Hch%isdigit_range. unfold ascii. cbn. lia.
Qed.

Lemma number_bytes text : json_number text → rfc_bytes text.
Proof.
  assert (Hsign : ∀ sign, sign ∈ [[]; [43]; [45]] → rfc_bytes sign).
  { intros sign. rewrite !elem_of_cons, elem_of_nil.
    intros [->|[->|[->|[]]]]; apply rfc_bytes_ascii; unfold ascii; by repeat constructor. }
  intros [sign whole part scale Hs Hw Hp Hsc]. apply rfc_bytes_app; [|apply rfc_bytes_app; [|apply rfc_bytes_app]].
  - apply Hsign. rewrite !elem_of_cons, elem_of_nil in *. tauto.
  - destruct Hw as [|ds [_ Hd] _]; [by apply rfc_bytes_one|by apply digits_bytes].
  - destruct Hp as [|ds [_ Hd]]; [apply rfc_bytes_nil|]. apply (rfc_bytes_app [46]); [by apply rfc_bytes_one|by apply digits_bytes].
  - destruct Hsc as [|e sg ds He Hsg [_ Hd]]; [apply rfc_bytes_nil|]. apply (rfc_bytes_app [e]).
    { apply rfc_bytes_one; unfold ascii; lia. }
    apply rfc_bytes_app; [by apply Hsign|by apply digits_bytes].
Qed.

Lemma opening_byte c : rfc_bytes [json_opening c].
Proof. by destruct c; apply rfc_bytes_one. Qed.

Lemma closing_byte c : rfc_bytes [json_closing c].
Proof. by destruct c; apply rfc_bytes_one. Qed.

Lemma opening_ascii c : Forall ascii [json_opening c].
Proof. by destruct c; repeat constructor. Qed.

(** Every text of the standard grammar is one of the cursor's. *)
Lemma rfc_grammar_sound :
  (∀ d v, rfc_value d v → json_value 0 d v ∧ rfc_bytes v) ∧
  (∀ c d entries, rfc_entries c d entries → json_body 0 c d entries ∧ rfc_bytes entries).
Proof.
  apply rfc_grammar_ind.
  - intros d raw n (text & Hc & _ & Hb)%rfc_quoted. split; [by eapply value_string|done].
  - intros d text H. split; [by apply value_literal|by apply literal_bytes].
  - intros d text H. split; [by apply value_number|by apply number_bytes].
  - intros d c ws [Hs Hb]%rfc_spaces_spaces. split; [by apply value_empty|].
    apply (rfc_bytes_app [_]); [apply opening_byte|apply rfc_bytes_app; [done|apply closing_byte]].
  - intros d c entries _ [Hj Hb]. split; [by apply value_collection|].
    apply (rfc_bytes_app [_]); [apply opening_byte|apply rfc_bytes_app; [done|apply closing_byte]].
  - intros c d ws name ws' v ws'' [Hs Hb]%rfc_spaces_spaces [Hn Hnb]%rfc_name_prefix [Hs' Hb']%rfc_spaces_spaces
      _ [Hv Hvb] [Hs'' Hb'']%rfc_spaces_spaces.
    split; [by apply body_last|]. by repeat apply rfc_bytes_app.
  - intros c d ws name ws' v ws'' entries [Hs Hb]%rfc_spaces_spaces [Hn Hnb]%rfc_name_prefix [Hs' Hb']%rfc_spaces_spaces
      _ [Hv Hvb] [Hs'' Hb'']%rfc_spaces_spaces _ [He Heb].
    split; [by apply body_more|]. repeat apply rfc_bytes_app; try done.
    change (44 :: entries) with ([44] ++ entries). apply rfc_bytes_app; [by apply rfc_bytes_one|done].
Qed.

(** One entry, of a text whose bytes the standard allows. *)
Lemma entry_rfc c ws prefix ws' v ws'' rest :
  spaces ws → json_prefix c prefix → spaces ws' → spaces ws'' → ascii_head rest →
  rfc_bytes (ws ++ prefix ++ ws' ++ v ++ ws'' ++ rest) →
  rfc_spaces ws ∧ rfc_name c prefix ∧ rfc_spaces ws' ∧ rfc_bytes v ∧ rfc_spaces ws'' ∧ rfc_bytes rest.
Proof.
  intros Hs Hp Hs' Hs'' Hr Hb.
  destruct (spaces_rfc _ _ Hs Hb) as [Hr1 Hb1]. destruct (prefix_rfc _ _ _ Hp Hb1) as [Hr2 Hb2].
  destruct (spaces_rfc _ _ Hs' Hb2) as [Hr3 Hb3].
  destruct (rfc_bytes_split _ _ Hb3) as [Hr4 Hb4]; [by apply ascii_head_spaces|].
  by destruct (spaces_rfc _ _ Hs'' Hb4) as [Hr5 Hb5].
Qed.

Lemma rfc_grammar_complete :
  (∀ d v, json_value 0 d v → rfc_bytes v → rfc_value d v) ∧
  (∀ c d body, json_body 0 c d body → rfc_bytes body → rfc_entries c d body).
Proof.
  apply json_grammar_ind.
  - intros d raw text Hc Hb. eapply rfc_string. by apply (quoted_rfc raw text []).
  - intros d text H _. by apply rfc_literal.
  - intros d H. by rewrite Z.land_0_l in H.
  - intros d text H _. by apply rfc_number.
  - intros d c ws Hs Hb. apply rfc_empty. apply (rfc_bytes_tail [_]) in Hb; [|apply opening_ascii].
    by apply (spaces_rfc _ _ Hs Hb).
  - intros d c body _ IH Hb. apply rfc_collection, IH. apply (rfc_bytes_tail [_]) in Hb; [|apply opening_ascii].
    apply rfc_bytes_split in Hb as [Hb _]; [done|]. by destruct c.
  - intros c d ws prefix ws' v ws'' Hs Hp Hs' _ IH Hs'' Hb.
    destruct (entry_rfc c ws prefix ws' v ws'' [] Hs Hp Hs' Hs'' I) as (? & ? & ? & ? & ? & _).
    { by rewrite app_nil_r. }
    apply rfc_last; auto.
  - intros c d ws prefix ws' v ws'' body Hs Hp Hs' _ IH Hs'' _ IHb Hb.
    destruct (entry_rfc c ws prefix ws' v ws'' (44 :: body) Hs Hp Hs' Hs'') as (? & ? & ? & ? & ? & Hr); [done|done|].
    apply (rfc_bytes_tail [44]) in Hr; [|by repeat constructor]. apply rfc_more; auto.
Qed.

Lemma rfc_text_document text : rfc_text text ↔ json_document 0 text ∧ rfc_bytes text.
Proof.
  split.
  - intros (ws & v & ws' & [Hs Hb]%rfc_spaces_spaces & [Hs' Hb']%rfc_spaces_spaces & [Hv Hvb]%rfc_grammar_sound & ->).
    split; [by exists ws, v, ws'|]. by repeat apply rfc_bytes_app.
  - intros [(ws & v & ws' & Hs & Hs' & Hv & ->) Hb]. destruct (spaces_rfc _ _ Hs Hb) as [Hr Hb1].
    destruct (rfc_bytes_split _ _ Hb1) as [Hvb Hb2].
    { rewrite <- (app_nil_r ws'). by apply ascii_head_spaces. }
    exists ws, v, ws'. split; [done|]. split; [|split; [by apply rfc_grammar_complete|done]].
    rewrite <- (app_nil_r ws') in Hb2. by apply (spaces_rfc _ _ Hs' Hb2).
Qed.

(** How a caller reads a whole document: one value, then [yvex_json_complete]. *)
Definition json_accepts (ext : Z) (text : list Z) : bool :=
  let '(ok, json) := yvex_json_skip_value (yvex_json_init text <| js_extensions := ext |>) in
  ok && (yvex_json_complete json).1.

Lemma complete_spec json :
  (yvex_json_complete json).1 = true ↔ spaces (js_cursor json) ∧ js_depth json = 0.
Proof.
  unfold yvex_json_complete. destruct (space_split json) as (ws & rest & Hws & E & Hn & ->).
  cbn. rewrite E. destruct rest as [|ch rest]; [rewrite app_nil_r, Z.eqb_eq; naive_solver|].
  split; [done|]. intros [Hs _]. apply Forall_app in Hs as [_ Hs]. inversion Hs; subst. cbn in Hn. congruence.
Qed.

(** C8: the cursor accepts a whole text, by [yvex_json_skip_value] followed by [yvex_json_complete],
    exactly when the text is a document of the inductive grammar: one value surrounded by white space,
    at most sixty-four collections deep, member names shorter than the key buffer, no trailing comma,
    and [Infinity] only where the caller enabled it. That grammar is wider than RFC 8259: its white
    space is that of [isspace], so vertical tabs and form feeds pass, inside collections too, and the
    bytes of a string above 127 are not checked to be UTF-8. It is wider by nothing else: without
    extensions, the cursor accepts a text that is UTF-8 and has neither of the two characters exactly
    when the text is one of the standard grammar, within the two limits. *)
Theorem json_accepts_grammar ext text :
  Z.of_nat (length text) ≤ SIZE_MAX →
  (json_accepts ext text = true ↔ json_document ext text) ∧
  (json_accepts 0 text = true ∧ rfc_bytes text ↔ rfc_text text).
Proof.
  intros Hlen.
  assert (Hall : ∀ ext, json_accepts ext text = true ↔ json_document ext text).
  { clear ext. intros ext. unfold json_accepts, yvex_json_skip_value.
    set (json := yvex_json_init text <| js_extensions := ext |>). split.
    - destruct (json_skip_nested _ json) as [[] j] eqn:E; [|done]. intros Hc. apply complete_spec in Hc as [Hs _].
      destruct (skip_nested_sound _ _ _ E) as (ws & v & rest & Hws & Hv & Et & ->); [done|done|].
      by exists ws, v, rest.
    - intros (ws & v & ws' & Hws & Hws' & Hv & Et).
      rewrite (proj1 (grammar_read ext) _ _ Hv _ json ws ws'); [by apply complete_spec|done|done| | | |].
      + rewrite <- (app_nil_r ws'). by apply stops_spaces.
      + cbn. lia.
      + done.
      + rewrite Et, !length_app in Hlen. ulia. }
  split; [apply Hall|]. by rewrite Hall, rfc_text_document.
Qed.

(** A vertical tab, and a string of one byte that no UTF-8 text has, are accepted, and are not standard. *)
Example wide_spaces : json_accepts 0 [91; 11; 93] = true ∧ json_accepts 0 [34; 255; 34] = true.
Proof. split; vm_compute; reflexivity. Qed.

(** An object of every construct, and the cursor's verdict. *)
Definition json_sample : list Z :=
  (λ ch, if ch =? 39 then 34 else ch) <$> cstr "{ 'a\u00e9': [1, -2.5e+3, true, null, {}], 'b': 'x\n' } ".
Lemma json_accepts_grammar_witness :
  Z.of_nat (length json_sample) ≤ SIZE_MAX ∧ json_document 0 json_sample ∧ rfc_text json_sample.
Proof.
  assert (Z.of_nat (length json_sample) ≤ SIZE_MAX) as Hlen by (vm_compute; discriminate).
  destruct (json_accepts_grammar 0 json_sample Hlen) as [H1 H2].
  assert (json_accepts 0 json_sample = true) as Ha by (vm_compute; reflexivity).
  split; [exact Hlen|]. split; [exact (proj1 H1 Ha)|]. apply H2. split; [exact Ha|].
  apply rfc_bytes_ascii. unfold ascii. vm_compute. repeat constructor; discriminate.
Defined.

(** * Strings written and read *)

(** A control character that the writer emits as [\u00xx] is read back as a question mark. *)
Definition json_read_back (ch : Z) : Z :=
  if (ch <? 32) && negb (bool_decide (ch ∈ [8; 9; 10; 12; 13])) then 63 else ch.

Lemma hex_digit_hex d : 0 ≤ d < 16 → source_json_hex (hex_digit d) = true.
Proof. intros H. unfold source_json_hex, hex_digit, isdigit. split_guard; guards; lia. Qed.

Lemma write_char_chars ch raw text :
  is_u8 ch → json_chars raw text → json_chars (json_write_char ch ++ raw) (json_read_back ch :: text).
Proof.
  intros Hch Hc. unfold json_write_char.
  destruct (Z.eqb_spec ch 34) as [->|]; [by apply chars_escape|].
  destruct (Z.eqb_spec ch 92) as [->|]; [by apply chars_escape|].
  destruct (Z.eqb_spec ch 8) as [->|]; [by apply chars_escape|].
  destruct (Z.eqb_spec ch 12) as [->|]; [by apply chars_escape|].
  destruct (Z.eqb_spec ch 10) as [->|]; [by apply chars_escape|].
  destruct (Z.eqb_spec ch 13) as [->|]; [by apply chars_escape|].
  destruct (Z.eqb_spec ch 9) as [->|]; [by apply chars_escape|].
  unfold json_read_back. rewrite bool_decide_false by (rewrite !elem_of_cons, elem_of_nil; lia).
  destruct (Z.ltb_spec ch 32); cbn [andb negb].
  - apply (chars_unicode [48; 48; hex_digit (ch / 16); hex_digit (ch mod 16)]); [done| |done].
    forall_cells; try done; apply hex_digit_hex; [|apply Z.mod_pos_bound; lia].
    split; [apply Z.div_pos; ulia|apply Z.div_lt_upper_bound; lia].
  - by apply chars_plain.
Qed.

Lemma written_chars bs : Forall is_u8 bs → json_chars (bs ≫= json_write_char) (json_read_back <$> bs).
Proof. intros H. induction H as [|ch bs Hch _ IH]; [constructor|]. by apply write_char_chars. Qed.

Lemma chars_length raw text : json_chars raw text → (length text ≤ length raw)%nat.
Proof. intros H. induction H; cbn [length]; rewrite ?length_app; lia. Qed.

(** The allocated copy of a string. *)
Lemma string_dup_read json ws raw text rest cap :
  js_cursor json = ws ++ (34 :: raw ++ [34]) ++ rest → spaces ws → json_chars raw text →
  Z.of_nat (length raw) < cap →
  ∃ spare, yvex_json_string_dup true json cap = (Some (text ++ 0 :: spare), json <| js_cursor := rest |>).
Proof.
  intros E Hws Hc Hcap. pose proof (chars_length _ _ Hc) as Hlen. unfold yvex_json_string_dup.
  rewrite (proj2 (Z.eqb_neq cap 0)) by lia. rewrite (space_app json ws _ E Hws) by done.
  rewrite (json_string_complete _ None [] raw text rest); [|done..]. cbn [json_fits negb js_cursor set_field eta_expand].
  rewrite !length_app. cbn [length app]. rewrite !length_app. cbn [length].
  replace (Z.of_nat _ - Z.of_nat _) with (Z.of_nat (length raw + 2)) by lia.
  rewrite (proj2 (Z.ltb_ge _ 2)), (proj2 (Z.ltb_ge cap _)) by lia. cbn [orb].
  rewrite (json_string_complete json _ ws raw text rest) by done.
  rewrite string_in_room by (rewrite length_replicate; lia).
  unfold json_fits. rewrite length_replicate, (proj2 (Z.ltb_lt _ _)) by lia. by eexists.
Qed.

(** C9: reading the string that [yvex_file_json_write_string] wrote gives the text back, with the cursor
    behind the closing quote, up to the control characters without a short escape: the writer spells
    them [\u00xx], the reader makes a question mark of every [\u] escape, so the round trip is exact
    for a text without them and only for those. *)
Theorem json_string_roundtrip s json ws rest cap :
  js_cursor json = ws ++ yvex_file_json_write_string (Some s) ++ rest → spaces ws →
  Z.of_nat (length (yvex_file_json_write_string (Some s))) ≤ cap + 1 →
  (∃ spare, yvex_json_string_dup true json cap =
     (Some ((json_read_back <$> cstr s) ++ 0 :: spare), json <| js_cursor := rest |>)) ∧
  (json_read_back <$> cstr s = cstr s ↔ Forall (λ ch, ¬ (ch < 32 ∧ ch ∉ [8; 9; 10; 12; 13])) (cstr s)).
Proof.
  unfold yvex_file_json_write_string. change (default ""%string (Some s)) with s. intros E Hws Hcap. split.
  - apply (string_dup_read json ws (cstr s ≫= json_write_char)); [done|done|apply written_chars, cstr_range|].
    cbn [length] in Hcap. rewrite length_app in Hcap. cbn [length] in Hcap. lia.
  - clear. pose proof (cstr_range s) as Hr. induction Hr as [|ch bs Hch _ IH]; [by split|].
    rewrite fmap_cons, Forall_cons, <- IH. clear IH.
    assert (json_read_back ch = ch ↔ ¬ (ch < 32 ∧ ch ∉ [8; 9; 10; 12; 13])) as <-.
    { unfold json_read_back. destruct (Z.ltb_spec ch 32); cbn [andb]; [|split; [lia|done]].
      case_bool_decide; cbn [negb]; [naive_solver|]. split; [lia|naive_solver]. }
    split; [by intros [= -> ->]|by intros [-> ->]].
Qed.
Lemma json_string_roundtrip_witness :
  (∃ spare, yvex_json_string_dup true (yvex_json_init (cstr " " ++ yvex_file_json_write_string (Some "a\b/c"%string) ++ [44])) 64 =
     (Some ((json_read_back <$> cstr "a\b/c"%string) ++ 0 :: spare), JsonCursor [44] 0 0)) ∧
  (json_read_back <$> cstr "a\b/c"%string = cstr "a\b/c"%string ↔
     Forall (λ ch, ¬ (ch < 32 ∧ ch ∉ [8; 9; 10; 12; 13])) (cstr "a\b/c"%string)).
Proof.
  apply (json_string_roundtrip "a\b/c" (yvex_json_init (cstr " " ++ yvex_file_json_write_string (Some "a\b/c"%string) ++ [44])) (cstr " ")).
  - reflexivity.
  - by constructor.
  - vm_compute. discriminate.
Defined.

(** * Unsigned integers *)

Definition digits_value (value : Z) (ds : list Z) : Z := foldl (λ v ch, v * 10 + (ch - 48)) value ds.

Lemma digits_value_le value ds : Forall (λ ch, isdigit ch = true) ds → 0 ≤ value → value ≤ digits_value value ds.
Proof.
  intros H. revert value. induction H as [|ch ds Hch _ IH]; intros value Hv; cbn; [lia|].
  apply isdigit_range in Hch. specialize (IH (value * 10 + (ch - 48)) ltac:(lia)). unfold digits_value in IH. lia.
Qed.

Lemma u64_loop_spec value ds rest :
  Forall (λ ch, isdigit ch = true) ds → not_head isdigit rest → is_u64 value →
  (digits_value value ds ≤ ULLONG_MAX ∧ json_u64_loop value (ds ++ rest) = (Some (digits_value value ds), rest)) ∨
  (ULLONG_MAX < digits_value value ds ∧ (json_u64_loop value (ds ++ rest)).1 = None).
Proof.
  intros H Hn. revert value. induction H as [|ch ds Hch Hds IH]; intros value Hv.
  - left. cbn [digits_value foldl]. split; [ulia|]. cbn [app]. destruct rest as [|ch rest]; [done|]. cbn in *. by rewrite Hn.
  - cbn [app json_u64_loop digits_value foldl]. rewrite Hch. pose proof (isdigit_range _ Hch) as Hr.
    destruct (Z.ltb_spec ((ULLONG_MAX - (ch - 48)) / 10) value) as [Hlt|Hge].
    + right. split; [|done]. pose proof (digits_value_le (value * 10 + (ch - 48)) ds Hds ltac:(ulia)) as Hle.
      unfold digits_value in Hle. pose proof (Z.mul_succ_div_gt (ULLONG_MAX - (ch - 48)) 10). lia.
    + pose proof (Z.mul_div_le (ULLONG_MAX - (ch - 48)) 10). rewrite !u64_id by (rewrite ?u64_id; ulia).
      apply (IH (value * 10 + (ch - 48))). ulia.
Qed.

(** [yvex_json_u64] returns a value exactly when white space and a digit come next and the whole run
    of digits denotes at most [ULLONG_MAX]; the value is then the number denoted and the cursor stands
    behind the last digit. No arithmetic on the way wraps around. *)
Theorem json_u64_exact json value json' :
  yvex_json_u64 json = (Some value, json') ↔
  ∃ ws ds rest, spaces ws ∧ digits ds ∧ not_head isdigit rest ∧ js_cursor json = ws ++ ds ++ rest ∧
    digits_value 0 ds ≤ ULLONG_MAX ∧ value = digits_value 0 ds ∧ json' = json <| js_cursor := rest |>.
Proof.
  unfold yvex_json_u64. split.
  - destruct (space_split json) as (ws & text & Hws & E & _ & ->). cbn [js_cursor set_field eta_expand].
    destruct text as [|ch text]; [done|]. destruct (isdigit ch) eqn:Ech; [|done]. cbn [negb].
    destruct (skip_while_split isdigit (ch :: text)) as (ds & Hds & Et & Hn).
    assert (digits ds) as Hdig.
    { split; [|done]. intros ->. cbn [app] in Et. rewrite <- Et in Hn. cbn in Hn. congruence. }
    destruct (json_u64_loop 0 (ch :: text)) as [v rest] eqn:El. intros [= -> <-].
    rewrite Et in El. destruct (u64_loop_spec 0 ds _ Hds Hn ltac:(ulia)) as [[Hle Eq]|[_ Eq]].
    + rewrite Eq in El. injection El as <- <-. exists ws, ds, (skip_while isdigit (ch :: text)).
      repeat split; try done; [by apply Hdig| ]. by rewrite E, <- Et.
    + by rewrite El in Eq.
  - intros (ws & ds & rest & Hws & [Hne Hds] & Hn & E & Hle & -> & ->).
    destruct Hds as [|ch ds Hch Hds]; [done|]. pose proof (isdigit_range _ Hch) as Hr.
    rewrite (space_app json ws _ E Hws) by (cbn; unfold isspace; lia). cbn [js_cursor set_field eta_expand app].
    rewrite Hch. cbn [negb].
    destruct (u64_loop_spec 0 (ch :: ds) rest ltac:(by constructor) Hn ltac:(ulia)) as [[_ Eq]|[Hgt _]]; [|lia].
    cbn [app] in Eq. by rewrite Eq.
Qed.
