(* ===== verification/Scheduler.v ===== *)
(** The engine scheduler of [src/runtime/scheduler.c], its state and the leases by which sequences take
    turns on an engine. [SchedulerBatch] has the other half, the batches of compatible work.

    A mutex section is one atomic operation. A wait on a condition ends a section, and what the code
    does after it is an operation of its own, [progress_wake]. The clock and the cancellation callbacks,
    which are asked under the mutex, are the answers of a section, [section_env]. A lease names its slot;
    a zeroed one is [None]. There is one scheduler, so a lease's scheduler pointer is not a field. *)

From S2P Require Import Prelude Status.
#[local] Open Scope Z_scope.

(** * Data *)

(** src/include/yvex/internal/engine_scheduler.h:12-21, [yvex_engine_progress_kind] *)
Definition YVEX_ENGINE_PROGRESS_KIND_COUNT : Z := 7.

(** src/include/yvex/internal/engine_scheduler.h, [yvex_engine_scheduler_summary] *)
Record yvex_engine_scheduler_summary := SchedulerSummary {
  ss_enabled : bool; ss_admitted_maximum_width : Z; ss_sequence_capacity : Z; ss_runnable_capacity : Z;
  ss_cooperative_width : Z; ss_coalescing_limit_ns : Z; ss_rendezvous_limit_ns : Z;
  ss_ready_sequence_work : Z; ss_active_sequences : Z;
  ss_maximum_ready_sequence_work : Z; ss_maximum_active_sequences : Z;
  ss_progress_submissions : Z; ss_progress_transitions : Z;
  ss_progress_completions : Z; ss_progress_cancellations : Z; ss_progress_failures : Z;
  ss_cooperative_yields : Z; ss_cooperative_resumes : Z;
  ss_scheduler_wait_nanoseconds : Z; ss_maximum_quantum_nanoseconds : Z; ss_sequence_conflicts : Z;
  ss_progress_submissions_by_kind : list Z; ss_progress_completions_by_kind : list Z;
  ss_submissions : Z; ss_physical_batches : Z; ss_multi_source_batches : Z;
  ss_submitted_rows : Z; ss_executed_rows : Z; ss_maximum_width : Z;
  ss_multi_source_rows : Z; ss_maximum_multi_source_width : Z; ss_maximum_source_count : Z;
  ss_multi_source_worklists : Z; ss_multi_source_expert_pairs : Z;
  ss_maximum_multi_source_bucket_population : Z;
  ss_multi_source_matrix_tile_eligible_pairs : Z; ss_multi_source_matrix_tile_executed_pairs : Z;
  ss_multi_source_narrow_pairs : Z; ss_multi_source_population_histogram : list Z;
  ss_cancellations : Z; ss_failures : Z; ss_active : Z; ss_queued : Z;
  ss_registered_producers : Z; ss_coalescing_waits : Z; ss_coalescing_timeouts : Z; ss_coalescing_ns : Z;
  ss_compatibility_candidates : Z; ss_compatibility_mismatches : Z;
  ss_phase_mismatches : Z; ss_layer_mismatches : Z; ss_operation_mismatches : Z;
  ss_geometry_mismatches : Z; ss_profile_mismatches : Z; ss_identity_mismatches : Z;
  ss_rendezvous_submissions : Z; ss_rendezvous_steps : Z; ss_multi_source_rendezvous : Z;
  ss_maximum_rendezvous_width : Z;
  ss_submissions_by_phase : list Z; ss_physical_batches_by_phase : list Z;
  ss_executed_rows_by_phase : list Z; ss_rendezvous_steps_by_phase : list Z;
}.

#[export] Instance scheduler_summary_eta : Eta yvex_engine_scheduler_summary := λ s,
  SchedulerSummary (ss_enabled s) (ss_admitted_maximum_width s) (ss_sequence_capacity s)
    (ss_runnable_capacity s) (ss_cooperative_width s) (ss_coalescing_limit_ns s) (ss_rendezvous_limit_ns s)
    (ss_ready_sequence_work s) (ss_active_sequences s)
    (ss_maximum_ready_sequence_work s) (ss_maximum_active_sequences s)
    (ss_progress_submissions s) (ss_progress_transitions s)
    (ss_progress_completions s) (ss_progress_cancellations s) (ss_progress_failures s)
    (ss_cooperative_yields s) (ss_cooperative_resumes s)
    (ss_scheduler_wait_nanoseconds s) (ss_maximum_quantum_nanoseconds s) (ss_sequence_conflicts s)
    (ss_progress_submissions_by_kind s) (ss_progress_completions_by_kind s)
    (ss_submissions s) (ss_physical_batches s) (ss_multi_source_batches s)
    (ss_submitted_rows s) (ss_executed_rows s) (ss_maximum_width s)
    (ss_multi_source_rows s) (ss_maximum_multi_source_width s) (ss_maximum_source_count s)
    (ss_multi_source_worklists s) (ss_multi_source_expert_pairs s)
    (ss_maximum_multi_source_bucket_population s)
    (ss_multi_source_matrix_tile_eligible_pairs s) (ss_multi_source_matrix_tile_executed_pairs s)
    (ss_multi_source_narrow_pairs s) (ss_multi_source_population_histogram s)
    (ss_cancellations s) (ss_failures s) (ss_active s) (ss_queued s)
    (ss_registered_producers s) (ss_coalescing_waits s) (ss_coalescing_timeouts s) (ss_coalescing_ns s)
    (ss_compatibility_candidates s) (ss_compatibility_mismatches s)
    (ss_phase_mismatches s) (ss_layer_mismatches s) (ss_operation_mismatches s)
    (ss_geometry_mismatches s) (ss_profile_mismatches s) (ss_identity_mismatches s)
    (ss_rendezvous_submissions s) (ss_rendezvous_steps s) (ss_multi_source_rendezvous s)
    (ss_maximum_rendezvous_width s)
    (ss_submissions_by_phase s) (ss_physical_batches_by_phase s)
    (ss_executed_rows_by_phase s) (ss_rendezvous_steps_by_phase s).

(** src/src/runtime/scheduler.c:17-25, [runtime_engine_progress_work]
    The cancellation callback and its context are answered by [section_env]. *)
Record runtime_engine_progress_work := ProgressWork {
  pw_generation : Z; pw_submission_ordinal : Z;
  pw_engine_generation : Z; pw_sequence_handle : Z;
  pw_ready_since_ns : Z; pw_active_since_ns : Z;
  pw_kind : Z;
  pw_in_use : bool; pw_queued : bool; pw_active : bool; pw_status : yvex_status;
}.

#[export] Instance progress_work_eta : Eta runtime_engine_progress_work := λ w,
  ProgressWork (pw_generation w) (pw_submission_ordinal w) (pw_engine_generation w) (pw_sequence_handle w)
    (pw_ready_since_ns w) (pw_active_since_ns w) (pw_kind w) (pw_in_use w) (pw_queued w) (pw_active w)
    (pw_status w).

(** A cleared slot. *)
Definition progress_zero : runtime_engine_progress_work :=
  ProgressWork 0 0 0 0 0 0 0 false false false YVEX_OK.

(** src/src/runtime/scheduler.c:27-44, [runtime_engine_scheduler]
    The queue of tickets is the used prefix of its array, the progress array all of its slots; tickets
    are named by their addresses. *)
Record runtime_engine_scheduler := EngineScheduler {
  es_queue : list Z;
  es_queue_capacity : Z;
  es_producer_count : Z;
  es_producer_arrival_floor : Z;
  es_progress : list runtime_engine_progress_work;
  es_progress_in_use_count : Z;
  es_progress_active_limit : Z;
  es_progress_ready_count : Z;
  es_progress_active_count : Z;
  es_next_progress_generation : Z;
  es_next_progress_ordinal : Z;
  es_summary : yvex_engine_scheduler_summary;
  es_worker_started : bool;
  es_stopping : bool;
}.

#[export] Instance engine_scheduler_eta : Eta runtime_engine_scheduler := λ s,
  EngineScheduler (es_queue s) (es_queue_capacity s) (es_producer_count s) (es_producer_arrival_floor s)
    (es_progress s) (es_progress_in_use_count s) (es_progress_active_limit s) (es_progress_ready_count s)
    (es_progress_active_count s) (es_next_progress_generation s) (es_next_progress_ordinal s)
    (es_summary s) (es_worker_started s) (es_stopping s).

(** src/include/yvex/internal/engine_scheduler.h, [yvex_runtime_execution_lease] *)
Record yvex_runtime_execution_lease := ExecutionLease { lease_slot : nat; lease_generation : Z }.

(** What a section is answered: whether the work in a slot is cancelled, at each scan of the slots, and
    the clock, at each reading. *)
Record section_env := SectionEnv { se_cancelled : nat → nat → bool; se_now : nat → Z }.

(** * Observations *)

(** src/src/runtime/scheduler.c, [scheduler_observation_add] *)
Definition scheduler_observation_add (total value : Z) : Z :=
  if ULLONG_MAX - total <? value then ULLONG_MAX else total + value.

(** A cell of an array of counters. *)
Definition observation_cell (index value : Z) (cells : list Z) : list Z :=
  alter (λ total, scheduler_observation_add total value) (Z.to_nat index) cells.

(** src/src/runtime/scheduler.c, [progress_summary_locked] *)
Definition progress_summary_locked (s : runtime_engine_scheduler) : runtime_engine_scheduler :=
  let ready := es_progress_ready_count s in
  let active := es_progress_active_count s in
  s <| es_summary ::= λ m,
    m <| ss_ready_sequence_work := ready |> <| ss_active_sequences := active |>
      <| ss_maximum_ready_sequence_work ::= λ n, if n <? ready then ready else n |>
      <| ss_maximum_active_sequences ::= λ n, if n <? active then active else n |> |>.

(** * Slots *)

(** [scheduler->progress[i]] updated in place. *)
Definition slot_update (i : nat) (f : runtime_engine_progress_work → runtime_engine_progress_work)
    (s : runtime_engine_scheduler) : runtime_engine_scheduler := s <| es_progress ::= alter f i |>.

(** src/src/runtime/scheduler.c, [progress_slot_locked] *)
Definition progress_slot_locked (s : runtime_engine_scheduler) (lease : option yvex_runtime_execution_lease)
    : option (nat * runtime_engine_progress_work) :=
  lease ← lease;
  work ← es_progress s !! lease_slot lease;
  if pw_in_use work && (pw_generation work =? lease_generation lease)
  then Some (lease_slot lease, work) else None.

(** src/src/runtime/scheduler.c, [progress_active_conflict_locked] *)
Definition progress_active_conflict_locked (s : runtime_engine_scheduler) (candidate : nat) : bool :=
  match es_progress s !! candidate with
  | None => false
  | Some c =>
      existsb (λ index,
        match es_progress s !! index with
        | Some a =>
            negb (index =? candidate)%nat && pw_in_use a && pw_active a
            && (pw_engine_generation a =? pw_engine_generation c)
            && (pw_sequence_handle a =? pw_sequence_handle c)
        | None => false
        end) (seq 0 (length (es_progress s)))
  end.

(** src/src/runtime/scheduler.c, [progress_active_remove_locked] *)
Definition progress_active_remove_locked (s : runtime_engine_scheduler) (i : nat) : runtime_engine_scheduler :=
  match es_progress s !! i with
  | Some work =>
      if negb (pw_active work) then s
      else slot_update i (λ w, w <| pw_active := false |>) s <| es_progress_active_count ::= λ n, u64 (n - 1) |>
  | None => s
  end.

(** src/src/runtime/scheduler.c, [progress_complete_kind_locked] *)
Definition progress_complete_kind_locked (now : Z) (s : runtime_engine_scheduler) (i : nat)
    : runtime_engine_scheduler :=
  match es_progress s !! i with
  | Some work =>
      let elapsed := if negb (pw_active_since_ns work =? 0) && (pw_active_since_ns work <=? now)
                     then now - pw_active_since_ns work else 0 in
      slot_update i (λ w, w <| pw_active_since_ns := 0 |>) s <| es_summary ::= λ m,
        m <| ss_maximum_quantum_nanoseconds ::= λ n, if n <? elapsed then elapsed else n |>
          <| ss_progress_completions ::= λ n, scheduler_observation_add n 1 |>
          <| ss_progress_completions_by_kind ::= observation_cell (pw_kind work) 1 |> |>
  | None => s
  end.

(** src/src/runtime/scheduler.c, [progress_cancel_ready_locked] *)
Definition progress_cancel_ready_locked (s : runtime_engine_scheduler) (i : nat) : runtime_engine_scheduler :=
  match es_progress s !! i with
  | Some work =>
      if negb (pw_queued work) then s
      else slot_update i (λ w, w <| pw_queued := false |> <| pw_status := YVEX_ERR_CANCELLED |>) s
        <| es_progress_ready_count ::= λ n, u64 (n - 1) |>
        <| es_summary ::= λ m, m <| ss_progress_cancellations ::= λ n, scheduler_observation_add n 1 |> |>
  | None => s
  end.

(** One candidate of the scan: the selected slot so far, and the scheduler.
    src/src/runtime/scheduler.c:164-181, [progress_next_ready_locked] *)
Definition progress_consider (cancelled : nat → bool) (acc : option nat * runtime_engine_scheduler) (index : nat)
    : option nat * runtime_engine_scheduler :=
  let '(selected, s) := acc in
  match es_progress s !! index with
  | None => acc
  | Some candidate =>
      if negb (pw_in_use candidate) || negb (pw_queued candidate) then acc
      else if cancelled index then (selected, progress_cancel_ready_locked s index)
      else if progress_active_conflict_locked s index then
        (selected, s <| es_summary ::= λ m,
           m <| ss_sequence_conflicts ::= λ n, scheduler_observation_add n 1 |> |>)
      else match selected ≫= λ i, es_progress s !! i with
           | Some best =>
               (if pw_submission_ordinal candidate <? pw_submission_ordinal best then Some index else selected, s)
           | None => (Some index, s)
           end
  end.

(** src/src/runtime/scheduler.c, [progress_next_ready_locked] *)
Definition progress_next_ready_locked (cancelled : nat → bool) (s : runtime_engine_scheduler)
    : option nat * runtime_engine_scheduler :=
  foldl (progress_consider cancelled) (None, s) (seq 0 (length (es_progress s))).

(** The candidate takes its turn.
    src/src/runtime/scheduler.c:191-203, [progress_grant_locked] *)
Definition progress_activate (now : Z) (s : runtime_engine_scheduler) (i : nat) : runtime_engine_scheduler :=
  match es_progress s !! i with
  | Some candidate =>
      let s := if negb (pw_ready_since_ns candidate =? 0) && (pw_ready_since_ns candidate <=? now)
               then s <| es_summary ::= λ m,
                 m <| ss_scheduler_wait_nanoseconds ::= λ n,
                   scheduler_observation_add n (now - pw_ready_since_ns candidate) |> |>
               else s in
      slot_update i (λ w, w <| pw_queued := false |> <| pw_active := true |>
                            <| pw_active_since_ns := now |> <| pw_ready_since_ns := 0 |>) s
        <| es_progress_ready_count ::= λ n, u64 (n - 1) |>
        <| es_progress_active_count ::= λ n, u64 (n + 1) |>
  | None => s
  end.

(** Every round activates one slot, so the free places bound the rounds. *)
Fixpoint progress_grant_loop (fuel scan : nat) (env : section_env) (s : runtime_engine_scheduler)
    : runtime_engine_scheduler :=
  match fuel with
  | O => s
  | S fuel =>
      if es_stopping s || negb (es_progress_active_count s <? es_progress_active_limit s) then s
      else match progress_next_ready_locked (se_cancelled env scan) s with
           | (None, s) => s
           | (Some i, s) => progress_grant_loop fuel (S scan) env (progress_activate (se_now env scan) s i)
           end
  end.

(** src/src/runtime/scheduler.c, [progress_grant_locked] *)
Definition progress_grant_locked (env : section_env) (s : runtime_engine_scheduler) : runtime_engine_scheduler :=
  progress_summary_locked
    (progress_grant_loop (S (Z.to_nat (es_progress_active_limit s - es_progress_active_count s))) 0 env s).

(** The counters of ordinals and generations skip zero when they wrap around. *)
Definition next_nonzero (n : Z) : Z := let n := u64 (n + 1) in if n =? 0 then u64 (n + 1) else n.

(** src/src/runtime/scheduler.c, [progress_enqueue_locked] *)
Definition progress_enqueue_locked (now : Z) (env : section_env) (s : runtime_engine_scheduler) (i : nat)
    : runtime_engine_scheduler :=
  let ordinal := next_nonzero (es_next_progress_ordinal s) in
  let kind := match es_progress s !! i with Some w => pw_kind w | None => 0 end in
  progress_grant_locked env
    (slot_update i (λ w, w <| pw_submission_ordinal := ordinal |> <| pw_ready_since_ns := now |>
                           <| pw_queued := true |> <| pw_active := false |> <| pw_status := YVEX_OK |>) s
       <| es_next_progress_ordinal := ordinal |>
       <| es_progress_ready_count ::= λ n, u64 (n + 1) |>
       <| es_summary ::= λ m,
         m <| ss_progress_submissions ::= λ n, scheduler_observation_add n 1 |>
           <| ss_progress_submissions_by_kind ::= observation_cell kind 1 |> |>).

(** src/src/runtime/scheduler.c, [progress_release_locked] *)
Definition progress_release_locked (s : runtime_engine_scheduler) (i : nat) : runtime_engine_scheduler :=
  match es_progress s !! i with
  | Some work =>
      if negb (pw_in_use work) then s
      else
        let s := if pw_queued work
                 then slot_update i (λ w, w <| pw_queued := false |>) s
                        <| es_progress_ready_count ::= λ n, u64 (n - 1) |>
                 else s in
        let s := progress_active_remove_locked s i in
        progress_summary_locked
          (slot_update i (λ _, progress_zero) s <| es_progress_in_use_count ::= λ n, u64 (n - 1) |>)
  | None => s
  end.

(** * The wait for a turn *)

Inductive wait_kind : Type := WAIT_ENTER | WAIT_YIELD | WAIT_TRANSITION.

(** The loop test and the answer of [progress_wait_locked]: [None] is to wait on.
    src/src/runtime/scheduler.c, [progress_wait_locked] *)
Definition progress_wait_locked (s : runtime_engine_scheduler) (work : runtime_engine_progress_work)
    : option (outcome unit) :=
  if pw_queued work && negb (es_stopping s) then None
  else Some (if pw_active work then Done tt
             else if bool_decide (pw_status work = YVEX_ERR_CANCELLED) then
               Refused YVEX_ERR_CANCELLED "ready sequence work was cancelled before admission"
             else Refused YVEX_ERR_STATE "engine scheduler stopped before sequence work admission").

(** What the operation that waits does with the answer: a refused work is released, a resumed one is
    counted.
    src/src/runtime/scheduler.c:937-945, [yvex_runtime_execution_yield_resume] *)
Definition progress_settle (wait : wait_kind) (s : runtime_engine_scheduler) (i : nat)
    : option (outcome unit) * runtime_engine_scheduler :=
  match es_progress s !! i with
  | None => (None, s)
  | Some work =>
      match progress_wait_locked s work with
      | None => (None, s)
      | Some (Done _) =>
          (Some (Done tt),
           match wait with
           | WAIT_YIELD => s <| es_summary ::= λ m,
               m <| ss_cooperative_resumes ::= λ n, scheduler_observation_add n 1 |> |>
           | _ => s
           end)
      | Some (Refused status reason) => (Some (Refused status reason), progress_release_locked s i)
      end
  end.

(** The section after a wake-up, signalled or by its ten milliseconds.
    src/src/runtime/scheduler.c:233-245, [progress_wait_locked] *)
Definition progress_wake (wait : wait_kind) (env : section_env) (s : runtime_engine_scheduler) (i : nat)
    : option (outcome unit) * runtime_engine_scheduler :=
  progress_settle wait (progress_grant_locked env s) i.

(** * Operations *)

(** The first free slot. *)
Definition progress_free_slot (s : runtime_engine_scheduler) : option nat :=
  fst <$> list_find (λ w, pw_in_use w = false) (es_progress s).

(** The first section: the lease of the slot taken, the answer of the wait if it has one already.
    src/src/runtime/scheduler.c, [yvex_runtime_execution_enter] *)
Definition yvex_runtime_execution_enter (now : Z) (env : section_env) (s : runtime_engine_scheduler)
    (engine_generation sequence_handle kind : Z)
    : outcome (yvex_runtime_execution_lease * option (outcome unit) * runtime_engine_scheduler) :=
  if (engine_generation =? 0) || (sequence_handle =? 0) || (YVEX_ENGINE_PROGRESS_KIND_COUNT <=? kind) then
    Refused YVEX_ERR_INVALID_ARG "bounded engine-generation work identity is required"
  else if es_stopping s then
    Refused YVEX_ERR_STATE "draining engine scheduler cannot admit sequence work"
  else match progress_free_slot s with
       | None => Refused YVEX_ERR_BOUNDS "engine ready-work capacity is exhausted"
       | Some index =>
           let generation := next_nonzero (es_next_progress_generation s) in
           let s := slot_update index (λ _,
               progress_zero <| pw_generation := generation |>
                 <| pw_engine_generation := engine_generation |> <| pw_sequence_handle := sequence_handle |>
                 <| pw_kind := kind |> <| pw_in_use := true |>) s
             <| es_next_progress_generation := generation |>
             <| es_progress_in_use_count ::= λ n, u64 (n + 1) |> in
           let '(answer, s) := progress_settle WAIT_ENTER (progress_enqueue_locked now env s index) index in
           Done (ExecutionLease index generation, answer, s)
       end.

(** src/src/runtime/scheduler.c, [yvex_runtime_execution_yield_requested] *)
Definition yvex_runtime_execution_yield_requested (s : runtime_engine_scheduler)
    (lease : option yvex_runtime_execution_lease) : bool :=
  match progress_slot_locked s lease with
  | Some (_, work) => pw_active work && (es_stopping s || negb (es_progress_ready_count s =? 0))
  | None => false
  end.

(** src/src/runtime/scheduler.c, [yvex_runtime_execution_yield_resume] *)
Definition yvex_runtime_execution_yield_resume (now : Z) (env : section_env) (s : runtime_engine_scheduler)
    (lease : option yvex_runtime_execution_lease) : option (outcome unit) * runtime_engine_scheduler :=
  match lease with
  | None => (Some (Refused YVEX_ERR_INVALID_ARG "active execution lease is required for yield"), s)
  | Some _ =>
      match progress_slot_locked s lease with
      | None => (Some (Refused YVEX_ERR_STATE "execution yield has a stale active lease"), s)
      | Some (i, work) =>
          if negb (pw_active work) then
            (Some (Refused YVEX_ERR_STATE "execution yield has a stale active lease"), s)
          else
            let s := progress_complete_kind_locked now s i in
            let s := progress_active_remove_locked s i in
            let s := s <| es_summary ::= λ m,
              m <| ss_cooperative_yields ::= λ n, scheduler_observation_add n 1 |> |> in
            if es_stopping s then
              (Some (Refused YVEX_ERR_STATE "draining scheduler rejected execution yield"),
               progress_release_locked s i)
            else progress_settle WAIT_YIELD (progress_enqueue_locked now env s i) i
      end
  end.

(** src/src/runtime/scheduler.c, [yvex_runtime_private_engine_progress_transition] *)
Definition yvex_runtime_private_engine_progress_transition (now : Z) (env : section_env)
    (s : runtime_engine_scheduler) (lease : option yvex_runtime_execution_lease) (kind : Z)
    : option (outcome unit) * runtime_engine_scheduler :=
  match lease with
  | None => (Some (Refused YVEX_ERR_INVALID_ARG "active engine sequence work and next kind are required"), s)
  | Some _ =>
      if YVEX_ENGINE_PROGRESS_KIND_COUNT <=? kind then
        (Some (Refused YVEX_ERR_INVALID_ARG "active engine sequence work and next kind are required"), s)
      else match progress_slot_locked s lease with
      | None => (Some (Refused YVEX_ERR_STATE "engine progress transition has a stale sequence lease"), s)
      | Some (i, work) =>
          if negb (pw_active work) then
            (Some (Refused YVEX_ERR_STATE "engine progress transition has a stale sequence lease"), s)
          else
            let s := progress_complete_kind_locked now s i in
            let s := progress_active_remove_locked s i in
            let s := s <| es_summary ::= λ m,
              m <| ss_progress_transitions ::= λ n, scheduler_observation_add n 1 |> |> in
            if es_stopping s then
              (Some (Refused YVEX_ERR_STATE "draining engine scheduler rejected a phase transition"),
               progress_release_locked
                 (s <| es_summary ::= λ m,
                    m <| ss_progress_failures ::= λ n, scheduler_observation_add n 1 |> |>) i)
            else progress_settle WAIT_TRANSITION
                   (progress_enqueue_locked now env (slot_update i (λ w, w <| pw_kind := kind |>) s) i) i
      end
  end.

(** [status] is what the work ended with; the answer is the status the caller gets.
    src/src/runtime/scheduler.c, [yvex_runtime_execution_leave] *)
Definition yvex_runtime_execution_leave (now : Z) (env : section_env) (s : runtime_engine_scheduler)
    (lease : option yvex_runtime_execution_lease) (status : yvex_status)
    : outcome unit * runtime_engine_scheduler :=
  let answer (reason : string) (refusal : yvex_status) : outcome unit :=
    if bool_decide (status = YVEX_OK) then Refused refusal reason else Refused status "" in
  match lease with
  | None => (answer "engine progress lease is required" YVEX_ERR_INVALID_ARG, s)
  | Some _ =>
      match progress_slot_locked s lease with
      | None => (answer "engine progress lease is stale" YVEX_ERR_STATE, s)
      | Some (i, work) =>
          let s := if pw_active work
                   then progress_active_remove_locked (progress_complete_kind_locked now s i) i else s in
          let s :=
            if bool_decide (status = YVEX_ERR_CANCELLED) && bool_decide (pw_status work ≠ YVEX_ERR_CANCELLED) then
              s <| es_summary ::= λ m, m <| ss_progress_cancellations ::= λ n, scheduler_observation_add n 1 |> |>
            else if bool_decide (status ≠ YVEX_OK) then
              s <| es_summary ::= λ m, m <| ss_progress_failures ::= λ n, scheduler_observation_add n 1 |> |>
            else s in
          let s := progress_grant_locked env (progress_release_locked s i) in
          (if bool_decide (status = YVEX_OK) then Done tt else Refused status "", s)
      end
  end.

(** src/src/runtime/scheduler.c:771-775, [yvex_runtime_execution_coordinator_close] *)
Definition close_slot (s : runtime_engine_scheduler) (index : nat) : runtime_engine_scheduler :=
  match es_progress s !! index with
  | Some w => if pw_in_use w && pw_queued w then progress_cancel_ready_locked s index else s
  | None => s
  end.

(** The first section; the owner then waits until no slot is in use.
    src/src/runtime/scheduler.c:767-779, [yvex_runtime_execution_coordinator_close] *)
Definition coordinator_close_begin (s : runtime_engine_scheduler) : runtime_engine_scheduler :=
  progress_summary_locked
    (foldl close_slot (s <| es_stopping := true |>) (seq 0 (length (es_progress s)))).

(** src/src/runtime/scheduler.c:780-782, [yvex_runtime_execution_coordinator_close] *)
Definition coordinator_close_ready (s : runtime_engine_scheduler) : bool := es_progress_in_use_count s =? 0.

(** * Invariant *)

(** How many slots satisfy [p]. *)
Definition tally (p : runtime_engine_progress_work → bool) (l : list runtime_engine_progress_work) : Z :=
  total ((λ w, Z.b2z (p w)) <$> l).

Lemma tally_insert p l i w w' :
  l !! i = Some w → tally p (<[i := w']> l) = tally p l - Z.b2z (p w) + Z.b2z (p w').
Proof.
  intros E. rewrite <- (list_insert_id l i w E) at 2. unfold tally. pose proof (lookup_lt_Some _ _ _ E).
  rewrite !insert_take_drop, !fmap_app, !fmap_cons, !total_app, !total_cons by done. lia.
Qed.

Lemma tally_range p l : 0 ≤ tally p l ≤ Z.of_nat (length l).
Proof.
  unfold tally. induction l as [|w l IH]; [done|]. rewrite fmap_cons, total_cons. cbn [length].
  destruct (p w); cbn [Z.b2z]; lia.
Qed.

Lemma tally_pos p l i w : l !! i = Some w → p w = true → 0 < tally p l.
Proof.
  intros E Hp. pose proof (tally_insert (λ _, false) l i w w E). pose proof (tally_range p (<[i := progress_zero]> l)).
  rewrite <- (list_insert_id l i w E). unfold tally. pose proof (lookup_lt_Some _ _ _ E).
  rewrite insert_take_drop, fmap_app, fmap_cons, total_app, total_cons by done. rewrite Hp. cbn [Z.b2z].
  pose proof (tally_range p (take i l)). pose proof (tally_range p (drop (S i) l)). unfold tally in *. lia.
Qed.

(** A positive tally has a slot to show. *)
Lemma tally_witness p l : 0 < tally p l → ∃ i w, l !! i = Some w ∧ p w = true.
Proof.
  induction l as [|w l IH]; [done|]. unfold tally in *. rewrite fmap_cons, total_cons.
  destruct (p w) eqn:Ep; [intros _; by exists 0%nat, w|]. cbn [Z.b2z]. intros H.
  destruct (IH ltac:(lia)) as (i & v & E & Hv). by exists (S i), v.
Qed.

Lemma tally_false p l i w : tally p l = 0 → l !! i = Some w → p w = false.
Proof. intros H E. destruct (p w) eqn:Ep; [|done]. pose proof (tally_pos p l i w E Ep). lia. Qed.

(** A slot is waiting or running only in use, and never both. *)
Record slot_ok (w : runtime_engine_progress_work) : Prop := {
  so_queued : pw_queued w = true → pw_in_use w = true;
  so_active : pw_active w = true → pw_in_use w = true;
  so_turn : pw_queued w = true → pw_active w = false;
}.

(** Two works of one sequence of one engine generation. *)
Definition same_sequence (v w : runtime_engine_progress_work) : Prop :=
  pw_engine_generation v = pw_engine_generation w ∧ pw_sequence_handle v = pw_sequence_handle w.

(** Another slot runs the sequence of slot [i]. *)
Definition conflicts (l : list runtime_engine_progress_work) (i : nat) : Prop :=
  ∃ j a c, j ≠ i ∧ l !! i = Some c ∧ l !! j = Some a ∧ pw_active a = true ∧ same_sequence a c.

Record progress_inv (s : runtime_engine_scheduler) : Prop := {
  pi_slots : Forall slot_ok (es_progress s);
  pi_size : Z.of_nat (length (es_progress s)) < ULLONG_MAX;
  pi_in_use : es_progress_in_use_count s = tally pw_in_use (es_progress s);
  pi_ready : es_progress_ready_count s = tally pw_queued (es_progress s);
  pi_active : es_progress_active_count s = tally pw_active (es_progress s);
  pi_limit : es_progress_active_count s ≤ es_progress_active_limit s;
  pi_places : 1 ≤ es_progress_active_limit s;
  pi_exclusive : ∀ i w, es_progress s !! i = Some w → pw_active w = true → ¬ conflicts (es_progress s) i;
}.

Lemma inv_slot_ok s i w : progress_inv s → es_progress s !! i = Some w → slot_ok w.
Proof. intros H E. exact (Forall_lookup_1 _ _ _ _ (pi_slots _ H) E). Qed.

Lemma conflict_locked_spec s i :
  progress_inv s → progress_active_conflict_locked s i = true ↔ conflicts (es_progress s) i.
Proof.
  intros H. unfold progress_active_conflict_locked, conflicts, same_sequence.
  destruct (es_progress s !! i) as [c|] eqn:Ec; [|split; [done|by intros (j & a & c & _ & ? & _)]].
  rewrite existsb_exists. split.
  - intros (j & _ & Hj). destruct (es_progress s !! j) as [a|] eqn:Ea; [|done].
    rewrite !andb_true_iff, negb_true_iff, Nat.eqb_neq, !Z.eqb_eq in Hj. exists j, a, c. naive_solver.
  - intros (j & a & c' & Hne & [= <-] & Ea & Hact & Hgen & Hseq). exists j. split.
    + apply in_seq. pose proof (lookup_lt_Some _ _ _ Ea). lia.
    + rewrite Ea, Hact, (so_active _ (inv_slot_ok _ _ _ H Ea) Hact), Hgen, Hseq, !Z.eqb_refl.
      by rewrite (proj2 (Nat.eqb_neq j i)).
Qed.

(** A change of one slot. [b2z] counts what the change adds. *)
Lemma progress_inv_slot s s' i w w' :
  progress_inv s → es_progress s !! i = Some w → slot_ok w' →
  es_progress s' = <[i := w']> (es_progress s) →
  es_progress_active_limit s' = es_progress_active_limit s →
  es_progress_in_use_count s' = es_progress_in_use_count s - Z.b2z (pw_in_use w) + Z.b2z (pw_in_use w') →
  es_progress_ready_count s' = es_progress_ready_count s - Z.b2z (pw_queued w) + Z.b2z (pw_queued w') →
  es_progress_active_count s' = es_progress_active_count s - Z.b2z (pw_active w) + Z.b2z (pw_active w') →
  es_progress_active_count s' ≤ es_progress_active_limit s →
  (pw_active w' = true → (pw_active w = true ∧ same_sequence w' w) ∨
     (same_sequence w' w ∧ ¬ conflicts (es_progress s) i)) →
  progress_inv s'.
Proof.
  intros H Ew Hok Ep El Eu Er Ea Hlim Hact. split; rewrite ?Ep, ?length_insert.
  - apply Forall_insert; [apply H|done].
  - apply H.
  - by rewrite Eu, (tally_insert _ _ _ _ _ Ew), (pi_in_use _ H).
  - by rewrite Er, (tally_insert _ _ _ _ _ Ew), (pi_ready _ H).
  - by rewrite Ea, (tally_insert _ _ _ _ _ Ew), (pi_active _ H).
  - by rewrite El.
  - rewrite El. apply H.
  - pose proof (lookup_lt_Some _ _ _ Ew) as Hi.
    assert (Hclear : pw_active w' = true → ¬ conflicts (es_progress s) i ∧ same_sequence w' w).
    { intros Hw'. destruct (Hact Hw') as [[Hw Hs]|[Hs Hc]]; [|done]. split; [by eapply (pi_exclusive _ H)|done]. }
    intros j v Ev Hv (k & a & c & Hne & Ec & Eak & Hak & Hsame).
    rewrite Ev in Ec. injection Ec as <-.
    destruct (decide (j = i)) as [->|Hji].
    + rewrite list_lookup_insert_eq in Ev by done. injection Ev as <-. destruct (Hclear Hv) as [Hno Hs].
      rewrite list_lookup_insert_ne in Eak by done. apply Hno. exists k, a, w. unfold same_sequence in *. naive_solver congruence.
    + rewrite list_lookup_insert_ne in Ev by done. destruct (decide (k = i)) as [->|Hki].
      * rewrite list_lookup_insert_eq in Eak by done. injection Eak as <-. destruct (Hclear Hak) as [Hno Hs].
        apply Hno. exists j, v, w. unfold same_sequence in *. naive_solver congruence.
      * rewrite list_lookup_insert_ne in Eak by done. apply (pi_exclusive _ H j v Ev Hv). by exists k, a, v.
Qed.

Lemma progress_counts_range s :
  progress_inv s → 0 ≤ es_progress_in_use_count s < ULLONG_MAX ∧ 0 ≤ es_progress_ready_count s < ULLONG_MAX ∧
    0 ≤ es_progress_active_count s < ULLONG_MAX.
Proof.
  intros H. rewrite (pi_in_use _ H), (pi_ready _ H), (pi_active _ H). pose proof (pi_size _ H).
  pose proof (tally_range pw_in_use (es_progress s)). pose proof (tally_range pw_queued (es_progress s)).
  pose proof (tally_range pw_active (es_progress s)). lia.
Qed.

Lemma inv_summary f s : progress_inv s → progress_inv (s <| es_summary ::= f |>).
Proof. intros H. destruct H. by split. Qed.

Lemma alter_insert (l : list runtime_engine_progress_work) i w f :
  l !! i = Some w → alter f i l = <[i := f w]> l.
Proof.
  intros E. apply list_eq. intros j. destruct (decide (j = i)) as [->|].
  - rewrite list_lookup_alter_eq, E, list_lookup_insert_eq; [done|by eapply lookup_lt_Some].
  - by rewrite list_lookup_alter_ne, list_lookup_insert_ne.
Qed.

(** * Granting turns *)

(** What names a work and does not change while it waits or runs. *)
Definition pw_identity (w : runtime_engine_progress_work) :=
  (pw_generation w, pw_submission_ordinal w, pw_engine_generation w, pw_sequence_handle w, pw_kind w, pw_in_use w).

(** What granting may do to a slot: nothing, refuse a cancelled work, or give a waiting one its turn. *)
Inductive slot_evolves (w : runtime_engine_progress_work) : runtime_engine_progress_work → Prop :=
  | evolves_same : slot_evolves w w
  | evolves_cancelled w' : pw_queued w = true → pw_queued w' = false → pw_active w' = pw_active w →
      pw_status w' = YVEX_ERR_CANCELLED → pw_identity w' = pw_identity w → slot_evolves w w'
  | evolves_granted w' : pw_queued w = true → pw_queued w' = false → pw_active w' = true →
      pw_status w' = pw_status w → pw_identity w' = pw_identity w → slot_evolves w w'.

(** The rest of the scheduler, which granting leaves alone. *)
Definition es_frame (s : runtime_engine_scheduler) :=
  (es_queue s, es_queue_capacity s, es_producer_count s, es_producer_arrival_floor s, es_progress_in_use_count s,
   es_progress_active_limit s, es_next_progress_generation s, es_next_progress_ordinal s, es_worker_started s,
   es_stopping s).

Definition grants (s s' : runtime_engine_scheduler) : Prop :=
  Forall2 slot_evolves (es_progress s) (es_progress s') ∧ es_frame s' = es_frame s.

Lemma evolves_trans w v u : slot_evolves w v → slot_evolves v u → slot_evolves w u.
Proof.
  intros H1 H2. destruct H1 as [|v Hq1 Hq1' Ha1 Hs1 Hi1|v Hq1 Hq1' Ha1 Hs1 Hi1]; [done|..];
    (destruct H2 as [|u Hq2 Hq2' Ha2 Hs2 Hi2|u Hq2 Hq2' Ha2 Hs2 Hi2]; [|congruence..]).
  - by apply evolves_cancelled.
  - by apply evolves_granted.
Qed.

#[export] Instance grants_refl : Reflexive grants.
Proof. intros s. split; [|done]. apply Forall2_same_length_lookup_2; [done|]. intros i w v Ew Ev. simplify_eq. constructor. Qed.

#[export] Instance grants_trans : Transitive grants.
Proof.
  intros s t u [H1 F1] [H2 F2]. split; [|congruence]. revert H2. generalize (es_progress u). induction H1 as [|w v l k Hwv _ IH]; intros m H2; inversion H2; subst; constructor.
  - by eapply evolves_trans.
  - by apply IH.
Qed.

Lemma grants_slot s s' i w w' :
  es_progress s !! i = Some w → es_progress s' = <[i := w']> (es_progress s) → es_frame s' = es_frame s →
  slot_evolves w w' → grants s s'.
Proof.
  intros Ew Ep Ef Hev. split; [|done]. rewrite Ep. rewrite <- (list_insert_id _ _ _ Ew) at 1.
  apply Forall2_insert; [|done]. apply (proj1 (grants_refl s)).
Qed.

Lemma grants_same s s' : es_progress s' = es_progress s → es_frame s' = es_frame s → grants s s'.
Proof. intros Ep Ef. split; [|done]. rewrite Ep. apply (proj1 (grants_refl s)). Qed.

Lemma grants_lookup s s' i w : grants s s' → es_progress s !! i = Some w → ∃ w', es_progress s' !! i = Some w' ∧ slot_evolves w w'.
Proof. intros [H _] E. exact (Forall2_lookup_l _ _ _ _ _ H E). Qed.

Lemma grants_lookup_r s s' i w' : grants s s' → es_progress s' !! i = Some w' → ∃ w, es_progress s !! i = Some w ∧ slot_evolves w w'.
Proof. intros [H _] E. exact (Forall2_lookup_r _ _ _ _ _ H E). Qed.

(** Running works keep running, so conflicts stay. *)
Lemma evolves_active w w' : slot_evolves w w' → pw_active w = true → pw_active w' = true.
Proof. intros [|? ? ? Ha|? ? ? Ha]; congruence. Qed.

Lemma evolves_identity w w' : slot_evolves w w' → pw_identity w' = pw_identity w.
Proof. by intros []. Qed.

Lemma identity_sequence v v' w w' :
  pw_identity v' = pw_identity v → pw_identity w' = pw_identity w → same_sequence v w → same_sequence v' w'.
Proof. unfold pw_identity, same_sequence. intros [= _ _ E1 E2 _ _] [= _ _ E3 E4 _ _] [H1 H2]. split; congruence. Qed.

Lemma conflicts_grow s s' i : grants s s' → conflicts (es_progress s) i → conflicts (es_progress s') i.
Proof.
  intros G (j & a & c & Hne & Ec & Ea & Hact & Hs).
  destruct (grants_lookup _ _ _ _ G Ec) as (c' & Ec' & Hc). destruct (grants_lookup _ _ _ _ G Ea) as (a' & Ea' & Ha).
  exists j, a', c'. split; [done|]. split; [done|]. split; [done|]. split; [by eapply evolves_active|].
  eapply identity_sequence; [by apply evolves_identity..|done].
Qed.

Lemma cancel_ready_ok s i w :
  progress_inv s → es_progress s !! i = Some w → pw_queued w = true →
  let w' := w <| pw_queued := false |> <| pw_status := YVEX_ERR_CANCELLED |> in
  let s' := progress_cancel_ready_locked s i in
  progress_inv s' ∧ grants s s' ∧ es_progress s' = <[i := w']> (es_progress s).
Proof.
  intros H Ew Hq w' s'. assert (es_progress s' = <[i := w']> (es_progress s)) as Ep.
  { unfold s', progress_cancel_ready_locked. rewrite Ew, Hq. cbn. exact (alter_insert _ _ _ _ Ew). }
  pose proof (inv_slot_ok _ _ _ H Ew) as Hok. pose proof (progress_counts_range _ H) as (_ & Hr & _).
  pose proof (tally_pos pw_queued _ _ _ Ew Hq) as Hpos. rewrite <- (pi_ready _ H) in Hpos.
  split; [|split; [|done]].
  - eapply (progress_inv_slot s s' i w w'); try done.
    + split; cbn; [done|apply Hok|done].
    + unfold s', progress_cancel_ready_locked. by rewrite Ew, Hq.
    + unfold s', progress_cancel_ready_locked. rewrite Ew, Hq. cbn. lia.
    + unfold s', progress_cancel_ready_locked. rewrite Ew, Hq. cbn. rewrite u64_id by ulia. lia.
    + unfold s', progress_cancel_ready_locked. rewrite Ew, Hq. cbn. lia.
    + unfold s', progress_cancel_ready_locked. rewrite Ew, Hq. cbn. apply H.
    + cbn. intros Ha. by left.
  - eapply grants_slot; [done|done| |by apply evolves_cancelled].
    unfold s', progress_cancel_ready_locked. by rewrite Ew, Hq.
Qed.

Lemma activate_ok now s i w :
  progress_inv s → es_progress s !! i = Some w → pw_queued w = true →
  ¬ conflicts (es_progress s) i → es_progress_active_count s < es_progress_active_limit s →
  let w' := w <| pw_queued := false |> <| pw_active := true |>
              <| pw_active_since_ns := now |> <| pw_ready_since_ns := 0 |> in
  let s' := progress_activate now s i in
  progress_inv s' ∧ grants s s' ∧ es_progress s' = <[i := w']> (es_progress s) ∧
    es_progress_active_count s' = es_progress_active_count s + 1.
Proof.
  intros H Ew Hq Hc Hlim w' s'.
  set (s1 := if negb (pw_ready_since_ns w =? 0) && (pw_ready_since_ns w <=? now)
             then s <| es_summary ::= λ m,
               m <| ss_scheduler_wait_nanoseconds ::= λ n,
                 scheduler_observation_add n (now - pw_ready_since_ns w) |> |> else s).
  assert (s' = slot_update i (λ w, w <| pw_queued := false |> <| pw_active := true |>
              <| pw_active_since_ns := now |> <| pw_ready_since_ns := 0 |>) s1
        <| es_progress_ready_count ::= λ n, u64 (n - 1) |>
        <| es_progress_active_count ::= λ n, u64 (n + 1) |>) as ->.
  { unfold s', progress_activate. by rewrite Ew. }
  assert (progress_inv s1 ∧ es_progress s1 = es_progress s ∧ es_frame s1 = es_frame s ∧
    es_progress_active_count s1 = es_progress_active_count s ∧ es_progress_ready_count s1 = es_progress_ready_count s)
    as (H1 & Ep1 & Ef1 & Ea1 & Er1).
  { unfold s1. destruct (negb _ && _); [|done]. split; [by apply inv_summary|done]. }
  assert (es_progress_in_use_count s1 = es_progress_in_use_count s ∧
    es_progress_active_limit s1 = es_progress_active_limit s) as [Eu1 El1].
  { unfold es_frame in Ef1. by simplify_eq. }
  clearbody s1.
  pose proof (inv_slot_ok _ _ _ H Ew) as Hok. pose proof (progress_counts_range _ H) as (_ & Hr & Ha).
  pose proof (tally_pos pw_queued _ _ _ Ew Hq) as Hpos. rewrite <- (pi_ready _ H) in Hpos.
  pose proof (so_turn _ Hok Hq) as Hnact.
  assert (alter (λ w, w <| pw_queued := false |> <| pw_active := true |>
              <| pw_active_since_ns := now |> <| pw_ready_since_ns := 0 |>) i (es_progress s1) = <[i := w']> (es_progress s)) as Ealt.
  { rewrite Ep1. exact (alter_insert _ _ _ _ Ew). }
  split; [|split; [|split; [exact Ealt|cbn; rewrite Ea1, u64_id by ulia; done]]].
  - eapply (progress_inv_slot s _ i w w'); try done; cbn; rewrite ?Eu1, ?Er1, ?Ea1, ?Hq, ?Hnact.
    + split; cbn; [done|intros _; by apply Hok|done].
    + cbn. lia.
    + rewrite u64_id by ulia. cbn. lia.
    + rewrite u64_id by ulia. cbn. lia.
    + rewrite u64_id by ulia. lia.
    + intros _. right. by split; [split|].
  - eapply grants_slot; [exact Ew|exact Ealt| |by apply evolves_granted].
    exact Ef1.
Qed.

(** Conflicts depend on which works run and on their names. *)
Definition running (l : list runtime_engine_progress_work) := (λ w, (pw_active w, pw_identity w)) <$> l.

Lemma conflicts_running l l' i : running l = running l' → conflicts l i → conflicts l' i.
Proof.
  intros E (j & a & c & Hne & Ec & Ea & Hact & Hs).
  assert (Hlook : ∀ k w, l !! k = Some w → ∃ w', l' !! k = Some w' ∧ pw_active w' = pw_active w ∧ pw_identity w' = pw_identity w).
  { intros k w Ek. assert (running l' !! k = Some (pw_active w, pw_identity w)) as Ek'.
    { rewrite <- E. unfold running. by rewrite list_lookup_fmap, Ek. }
    unfold running in Ek'. rewrite list_lookup_fmap in Ek'. destruct (l' !! k) as [w'|]; [|done].
    exists w'. cbn in Ek'. split; [done|]. split; congruence. }
  destruct (Hlook _ _ Ec) as (c' & Ec' & _ & Hc). destruct (Hlook _ _ Ea) as (a' & Ea' & Haa & Ha).
  exists j, a', c'. repeat split; [done..|congruence| |]; by eapply (identity_sequence a a' c c').
Qed.

Lemma running_insert l i w w' :
  l !! i = Some w → pw_active w' = pw_active w → pw_identity w' = pw_identity w → running (<[i := w']> l) = running l.
Proof.
  intros E Ha Hi. unfold running. rewrite list_fmap_insert, Ha, Hi. apply list_insert_id.
  by rewrite list_lookup_fmap, E.
Qed.

Lemma identity_ordinal w w' : pw_identity w' = pw_identity w → pw_submission_ordinal w' = pw_submission_ordinal w.
Proof. unfold pw_identity. congruence. Qed.

(** What a scan has found among the first [k] slots. *)
Definition scan_found (l : list runtime_engine_progress_work) (k : nat) (selected : option nat) : Prop :=
  match selected with
  | None => ∀ j v, (j < k)%nat → l !! j = Some v → pw_queued v = true → conflicts l j
  | Some i => ∃ w, l !! i = Some w ∧ pw_queued w = true ∧ ¬ conflicts l i ∧
      ∀ j v, (j < k)%nat → l !! j = Some v → pw_queued v = true →
        conflicts l j ∨ pw_submission_ordinal w ≤ pw_submission_ordinal v
  end.

Lemma scan_found_cancel l k w w' selected :
  scan_found l k selected → l !! k = Some w → selected ≠ Some k → pw_queued w' = false →
  pw_active w' = pw_active w → pw_identity w' = pw_identity w → scan_found (<[k := w']> l) (S k) selected.
Proof.
  intros Hf Ew Hsel Hq Ha Hid.
  pose proof (running_insert _ _ _ _ Ew Ha Hid) as Er.
  assert (Hc : ∀ j, conflicts l j ↔ conflicts (<[k:=w']> l) j).
  { intros j. split; apply conflicts_running; congruence. }
  assert (Hlook : ∀ j v, (j < S k)%nat → <[k:=w']> l !! j = Some v → pw_queued v = true → (j < k)%nat ∧ l !! j = Some v).
  { intros j v Hj Ej Hv. destruct (decide (j = k)) as [->|Hjk].
    - rewrite list_lookup_insert_eq in Ej by (by eapply lookup_lt_Some). congruence.
    - rewrite list_lookup_insert_ne in Ej by done. split; [lia|done]. }
  destruct selected as [i|]; cbn [scan_found] in *.
  - destruct Hf as (x & Ex & Hx & Hnc & Hmin). exists x. rewrite <- Hc.
    split; [by rewrite list_lookup_insert_ne by congruence|]. split; [done|]. split; [done|].
    intros j v Hj Ej Hv. destruct (Hlook j v Hj Ej Hv) as [Hjk Ej']. rewrite <- Hc. by apply (Hmin j v).
  - intros j v Hj Ej Hv. destruct (Hlook j v Hj Ej Hv) as [Hjk Ej']. rewrite <- Hc. by apply (Hf j v).
Qed.

Definition scan_inv (s0 : runtime_engine_scheduler) (k : nat) (acc : option nat * runtime_engine_scheduler) : Prop :=
  progress_inv acc.2 ∧ grants s0 acc.2 ∧ es_progress_active_count acc.2 = es_progress_active_count s0 ∧
  running (es_progress acc.2) = running (es_progress s0) ∧
  scan_found (es_progress acc.2) k acc.1 ∧ (∀ i, acc.1 = Some i → (i < k)%nat).

(** Slot [k] does not wait, or waits behind its own sequence. *)
Lemma scan_found_skip l k selected :
  scan_found l k selected → (∀ v, l !! k = Some v → pw_queued v = true → conflicts l k) →
  scan_found l (S k) selected.
Proof.
  intros Hf Hk.
  assert (Hj : ∀ j v, (j < S k)%nat → l !! j = Some v → pw_queued v = true → (j < k)%nat ∨ conflicts l j).
  { intros j v Hj Ej Hv. destruct (decide (j = k)) as [->|]; [right; by eapply Hk|left; lia]. }
  destruct selected as [i|]; cbn [scan_found] in *.
  - destruct Hf as (x & Ex & Hx & Hnc & Hmin). exists x. split; [done|]. split; [done|]. split; [done|].
    intros j v Hjk Ej Hv. destruct (Hj j v Hjk Ej Hv); [by apply (Hmin j v)|by left].
  - intros j v Hjk Ej Hv. destruct (Hj j v Hjk Ej Hv); [by apply (Hf j v)|done].
Qed.

Lemma consider_inv cancelled s0 k acc :
  scan_inv s0 k acc → scan_inv s0 (S k) (progress_consider cancelled acc k).
Proof.
  destruct acc as [selected s]. intros (H & G & Ha & Hrun & Hf & Hlt). cbn [fst snd] in *. unfold progress_consider.
  assert (Hskip : (∀ v, es_progress s !! k = Some v → pw_queued v = true → conflicts (es_progress s) k) →
    scan_inv s0 (S k) (selected, s)).
  { intros Hk. split; [done|]. split; [done|]. split; [done|]. split; [done|]. split; [by apply scan_found_skip|].
    intros i Ei. cbn in Ei. specialize (Hlt i Ei). lia. }
  destruct (es_progress s !! k) as [c|] eqn:Ec; [|by apply Hskip].
  destruct (pw_queued c) eqn:Hq.
  2: { rewrite orb_true_r. apply Hskip. intros v [= ->]. congruence. }
  rewrite (so_queued _ (inv_slot_ok _ _ _ H Ec) Hq). cbn [negb orb].
  destruct (cancelled k).
  - destruct (cancel_ready_ok s k c H Ec Hq) as (H' & G' & Ep'). split; [done|].
    split; [by etransitivity|]. split.
    { cbn [snd]. rewrite <- Ha. unfold progress_cancel_ready_locked. by rewrite Ec, Hq. }
    cbn [fst snd]. split; [rewrite Ep', <- Hrun; by apply (running_insert _ _ c)|]. split.
    + rewrite Ep'. eapply scan_found_cancel; [exact Hf|exact Ec| |done..].
      intros E. specialize (Hlt _ E). lia.
    + intros i Ei. specialize (Hlt i Ei). lia.
  - destruct (progress_active_conflict_locked s k) eqn:Hc.
    { apply conflict_locked_spec in Hc; [|done].
      destruct (Hskip (λ _ _ _, Hc)) as (_ & _ & _ & _ & Hf' & Hlt'). split; [by apply inv_summary|].
      split; [etransitivity; [exact G|by apply grants_same]|]. split; [done|]. split; [done|]. split; [done|exact Hlt']. }
    assert (¬ conflicts (es_progress s) k) as Hnc.
    { intros Hcc. apply conflict_locked_spec in Hcc; [congruence|done]. }
    destruct selected as [i|]; cbn [mbind option_bind].
    + destruct Hf as (w & Ew & Hwq & Hwc & Hmin). rewrite Ew.
      destruct (Z.ltb_spec (pw_submission_ordinal c) (pw_submission_ordinal w)).
      * split; [done|]. split; [done|]. split; [done|]. split; [done|]. split; [|intros ? [= <-]; lia].
        exists c. split; [done|]. split; [done|]. split; [done|].
        cbn [fst snd]. intros j v Hj Ej Hv.
        destruct (decide (j = k)) as [->|]; [right; simplify_eq; lia|].
        destruct (Hmin j v ltac:(lia) Ej Hv); [by left|right; lia].
      * split; [done|]. split; [done|]. split; [done|]. split; [done|]. split; [|intros i' [= <-]; specialize (Hlt i eq_refl); lia].
        exists w. split; [done|]. split; [done|]. split; [done|].
        cbn [fst snd]. intros j v Hj Ej Hv.
        destruct (decide (j = k)) as [->|]; [right; simplify_eq; lia|].
        apply (Hmin j v ltac:(lia) Ej Hv).
    + split; [done|]. split; [done|]. split; [done|]. split; [done|]. split; [|intros ? [= <-]; lia].
      exists c. split; [done|]. split; [done|]. split; [done|].
      cbn [fst snd]. intros j v Hj Ej Hv.
        destruct (decide (j = k)) as [->|]; [right; simplify_eq; lia|].
      left. apply (Hf j v ltac:(lia) Ej Hv).
Qed.

Lemma scan_prefix cancelled s n :
  progress_inv s → scan_inv s n (foldl (progress_consider cancelled) (None, s) (seq 0 n)).
Proof.
  intros H. induction n as [|n IH].
  { split; [done|]. split; [done|]. split; [done|]. split; [done|]. split; [|done]. intros j v Hj. lia. }
  rewrite seq_S, foldl_app. by apply consider_inv.
Qed.

Lemma next_ready_spec cancelled s selected s' :
  progress_inv s → progress_next_ready_locked cancelled s = (selected, s') →
  progress_inv s' ∧ grants s s' ∧ es_progress_active_count s' = es_progress_active_count s ∧
  running (es_progress s') = running (es_progress s) ∧
  scan_found (es_progress s') (length (es_progress s')) selected.
Proof.
  intros H E. unfold progress_next_ready_locked in E.
  destruct (scan_prefix cancelled s (length (es_progress s)) H) as (H' & G & Ha & Hr & Hf & _).
  rewrite E in H', G, Ha, Hr, Hf. cbn [fst snd] in *. rewrite <- (Forall2_length _ _ _ (proj1 G)). done.
Qed.

(** No turn is withheld: the scheduler is stopping, every place is taken, or whatever waits waits for its
    own sequence. *)
Definition work_conserving (s : runtime_engine_scheduler) : Prop :=
  es_stopping s = true ∨ es_progress_active_count s = es_progress_active_limit s ∨
  ∀ i w, es_progress s !! i = Some w → pw_queued w = true → conflicts (es_progress s) i.

(** A work that was given its turn has overtaken only works whose own sequence runs. *)
Definition granted_in_order (s s' : runtime_engine_scheduler) : Prop := ∀ i j w w' v,
  es_progress s !! i = Some w → pw_queued w = true → es_progress s' !! i = Some w' → pw_active w' = true →
  es_progress s' !! j = Some v → pw_queued v = true → pw_submission_ordinal v < pw_submission_ordinal w' →
  conflicts (es_progress s') j.

Lemma running_lookup l l' i w' :
  running l' = running l → l' !! i = Some w' → ∃ w, l !! i = Some w ∧ pw_active w = pw_active w' ∧ pw_identity w = pw_identity w'.
Proof.
  intros E Ew. assert (running l !! i = Some (pw_active w', pw_identity w')) as El.
  { rewrite <- E. unfold running. by rewrite list_lookup_fmap, Ew. }
  unfold running in El. rewrite list_lookup_fmap in El. destruct (l !! i) as [w|]; [|done].
  exists w. cbn in El. split; [done|]. split; congruence.
Qed.

(** A work that waits now waited before. *)
Lemma grants_queued s s' i v' :
  grants s s' → es_progress s' !! i = Some v' → pw_queued v' = true → es_progress s !! i = Some v'.
Proof.
  intros G E Hq. destruct (grants_lookup_r _ _ _ _ G E) as (v & Ev & Hv). destruct Hv; [done|congruence..].
Qed.

Lemma in_order_scan s0 s s1 :
  granted_in_order s0 s → grants s s1 → running (es_progress s1) = running (es_progress s) → granted_in_order s0 s1.
Proof.
  intros Hf G Er i j w w' v Ew Hw Ew' Ha Ev Hv Hlt.
  destruct (running_lookup _ _ _ _ Er Ew') as (x & Ex & Hxa & Hxi).
  eapply conflicts_grow; [exact G|]. eapply (Hf i j w x v Ew Hw Ex); [congruence| |done|].
  - by eapply grants_queued.
  - by rewrite (identity_ordinal _ _ Hxi).
Qed.

Lemma in_order_activate s0 s s' i w w' :
  granted_in_order s0 s → grants s s' → es_progress s !! i = Some w → pw_identity w' = pw_identity w →
  es_progress s' = <[i := w']> (es_progress s) → pw_queued w' = false →
  (∀ j v, es_progress s !! j = Some v → pw_queued v = true →
     conflicts (es_progress s) j ∨ pw_submission_ordinal w ≤ pw_submission_ordinal v) →
  granted_in_order s0 s'.
Proof.
  intros Hf G Ew Hid Ep Hq Hmin k j x x' v Ex Hx Ex' Ha Ev Hv Hlt.
  assert (es_progress s !! j = Some v) as Ev0 by (by eapply grants_queued).
  eapply conflicts_grow; [exact G|]. rewrite Ep in Ex'. destruct (decide (k = i)) as [->|Hki].
  - rewrite list_lookup_insert_eq in Ex' by (by eapply lookup_lt_Some). injection Ex' as <-.
    rewrite (identity_ordinal _ _ Hid) in Hlt. destruct (Hmin j v Ev0 Hv); [done|lia].
  - rewrite list_lookup_insert_ne in Ex' by done. by eapply (Hf k j x x' v).
Qed.

Lemma grant_loop_spec fuel scan env s0 s :
  progress_inv s → grants s0 s → granted_in_order s0 s →
  (Z.to_nat (es_progress_active_limit s - es_progress_active_count s) < fuel)%nat →
  let s' := progress_grant_loop fuel scan env s in
  progress_inv s' ∧ grants s0 s' ∧ granted_in_order s0 s' ∧ work_conserving s'.
Proof.
  revert scan s. induction fuel as [|fuel IH]; intros scan s H G Hf Hfuel; [lia|]. cbn [progress_grant_loop].
  destruct (es_stopping s) eqn:Hstop; cbn [orb]; [by repeat split; try apply H; try apply G; try left|].
  destruct (Z.ltb_spec (es_progress_active_count s) (es_progress_active_limit s)) as [Hlim|Hlim]; cbn [negb].
  2: { split; [done|]. split; [done|]. split; [done|]. right. left. pose proof (pi_limit _ H). lia. }
  destruct (progress_next_ready_locked (se_cancelled env scan) s) as [selected s1] eqn:En.
  destruct (next_ready_spec _ _ _ _ H En) as (H1 & G1 & Ha1 & Hr1 & Hfound).
  assert (Hf1 : granted_in_order s0 s1) by (by eapply in_order_scan).
  assert (Hall : ∀ j v, es_progress s1 !! j = Some v → (j < length (es_progress s1))%nat) by (intros; by eapply lookup_lt_Some).
  assert (es_progress_active_limit s1 = es_progress_active_limit s) as El.
  { destruct G1 as [_ F]. unfold es_frame in F. congruence. }
  destruct selected as [i|]; cbn [scan_found] in Hfound.
  - destruct Hfound as (w & Ew & Hq & Hnc & Hmin).
    destruct (activate_ok (se_now env scan) s1 i w) as (H2 & G2 & Ep2 & Ea2); [done..|lia|].
    apply IH; [done|etransitivity; [exact G|etransitivity; [exact G1|exact G2]]| |].
    + eapply in_order_activate; [exact Hf1|exact G2|exact Ew| |exact Ep2|done|]; [done|]. intros j v Ev Hv. eauto.
    + assert (es_progress_active_limit (progress_activate (se_now env scan) s1 i) = es_progress_active_limit s1) as ->.
      { destruct G2 as [_ F]. unfold es_frame in F. congruence. }
      lia.
  - split; [done|]. split; [by etransitivity|]. split; [done|]. right. right. intros j v Ev Hv. eauto.
Qed.

Lemma in_order_refl s : progress_inv s → granted_in_order s s.
Proof.
  intros H i j w w' v Ew Hq Ew' Ha. simplify_eq. pose proof (so_turn _ (inv_slot_ok _ _ _ H Ew) Hq). congruence.
Qed.

(** The contract of [progress_grant_locked]. *)
Lemma grant_locked_spec env s :
  progress_inv s →
  let s' := progress_grant_locked env s in
  progress_inv s' ∧ grants s s' ∧ granted_in_order s s' ∧ work_conserving s'.
Proof.
  intros H s'. 
  destruct (grant_loop_spec (S (Z.to_nat (es_progress_active_limit s - es_progress_active_count s))) 0 env s s H)
    as (H' & G & Hf & Hw); [done|by apply in_order_refl|lia|].
  split; [by apply inv_summary|]. split; [etransitivity; [exact G|by apply grants_same]|]. done.
Qed.

(** * Opening *)

Definition COMPATIBLE_COALESCING_NS : Z := 5000000.
Definition COMPATIBLE_LOGITS_COALESCING_NS : Z := 1000000.
Definition COMPATIBLE_PRODUCER_ARRIVAL_NS : Z := 1000000.
Definition COMPATIBLE_RENDEZVOUS_NS : Z := 50000000.

Definition YVEX_EXECUTION_PHASE_CELLS : nat := 7.
Definition WORKLIST_HISTOGRAM_CELLS : nat := 17.

(** A cleared summary. *)
Definition summary_zero : yvex_engine_scheduler_summary :=
  let kinds := replicate (Z.to_nat YVEX_ENGINE_PROGRESS_KIND_COUNT) 0 in
  let phases := replicate YVEX_EXECUTION_PHASE_CELLS 0 in
  SchedulerSummary false 0 0 0 0 0 0 0 0 0 0 0 0 0 0 0 0 0 0 0 0 kinds kinds
    0 0 0 0 0 0 0 0 0 0 0 0 0 0 0 (replicate WORKLIST_HISTOGRAM_CELLS 0)
    0 0 0 0 0 0 0 0 0 0 0 0 0 0 0 0 0 0 0 0 phases phases phases phases.

(** [memory_ok] is what the allocations and the mutex answer, [sync_ok] the conditions.
    src/src/runtime/scheduler.c, [yvex_runtime_execution_coordinator_open] *)
Definition yvex_runtime_execution_coordinator_open (queue_capacity cooperative_width : Z)
    (scheduler_ok memory_ok sync_ok : bool) : outcome runtime_engine_scheduler :=
  if (queue_capacity =? 0) || (64 <? queue_capacity) || (cooperative_width =? 0)
     || (queue_capacity <? cooperative_width) || (SIZE_MAX / 8 <? queue_capacity) then
    Refused YVEX_ERR_INVALID_ARG "bounded engine scheduler capacity is required"
  else if negb scheduler_ok then Refused YVEX_ERR_NOMEM "engine scheduler allocation failed"
  else if negb memory_ok then Refused YVEX_ERR_NOMEM "engine scheduler queue allocation failed"
  else if negb sync_ok then Refused YVEX_ERR_STATE "engine scheduler conditions are unavailable"
  else Done (EngineScheduler [] queue_capacity 0 0
               (replicate (Z.to_nat queue_capacity) progress_zero) 0 cooperative_width 0 0 0 0
               (summary_zero <| ss_enabled := true |> <| ss_sequence_capacity := queue_capacity |>
                  <| ss_runnable_capacity := queue_capacity |> <| ss_cooperative_width := cooperative_width |>
                  <| ss_coalescing_limit_ns := COMPATIBLE_COALESCING_NS |>
                  <| ss_rendezvous_limit_ns := COMPATIBLE_RENDEZVOUS_NS |>) false false).

Lemma tally_idle p n : p progress_zero = false → tally p (replicate n progress_zero) = 0.
Proof.
  intros Hp. unfold tally. induction n as [|n IH]; [done|]. cbn [replicate]. rewrite fmap_cons, total_cons, IH, Hp. done.
Qed.

Lemma progress_open_inv capacity width a b c s :
  is_u64 capacity → is_u64 width →
  yvex_runtime_execution_coordinator_open capacity width a b c = Done s →
  progress_inv s ∧ es_progress_active_limit s = width ∧ es_stopping s = false ∧
  (∀ i w, es_progress s !! i = Some w → w = progress_zero).
Proof.
  intros Hc Hw. unfold yvex_runtime_execution_coordinator_open. destruct (_ || _) eqn:E; [done|].
  destruct a, b, c; [|done..]. intros [= <-]. guards. split; [|split; [done|split; [done|]]].
  - split; cbn [es_progress es_progress_in_use_count es_progress_ready_count es_progress_active_count es_progress_active_limit].
    + apply Forall_replicate. by split.
    + rewrite length_replicate. ulia.
    + by rewrite tally_idle.
    + by rewrite tally_idle.
    + by rewrite tally_idle.
    + ulia.
    + ulia.
    + intros i w Ei Ha. apply lookup_replicate in Ei as [-> _]. done.
  - cbn. intros i w Ei. by apply lookup_replicate in Ei as [-> _].
Qed.
