(* ===== verification/SchedulerLeases.v ===== *)
(** The clients of [Scheduler]: every interleaving of the sections of [yvex_runtime_execution_enter],
    its siblings and the close, and what holds in every state they reach. *)

From S2P Require Import Prelude Status Scheduler.
#[local] Open Scope Z_scope.

(** * Operations on one slot *)

(** The fields a slot operation leaves alone. *)
Definition es_fixed (s : runtime_engine_scheduler) :=
  (es_queue s, es_queue_capacity s, es_progress_active_limit s, es_next_progress_generation s, es_stopping s).

Lemma complete_kind_ok now s i w :
  progress_inv s → es_progress s !! i = Some w →
  let s' := progress_complete_kind_locked now s i in
  progress_inv s' ∧ es_progress s' = <[i := w <| pw_active_since_ns := 0 |>]> (es_progress s) ∧
  es_progress_active_count s' = es_progress_active_count s ∧ es_fixed s' = es_fixed s.
Proof.
  intros H Ew s'. assert (es_progress s' = <[i := w <| pw_active_since_ns := 0 |>]> (es_progress s)) as Ep.
  { unfold s', progress_complete_kind_locked. rewrite Ew. cbn. exact (alter_insert _ _ _ _ Ew). }
  unfold s', progress_complete_kind_locked in *. rewrite Ew in *. split; [|split; [exact Ep|done]].
  eapply (progress_inv_slot s _ i w _ H Ew); [|exact Ep|cbn; try lia; try apply H..].
  - destruct (inv_slot_ok _ _ _ H Ew). by split.
  - intros Ha. by left.
Qed.

Lemma active_remove_ok s i w :
  progress_inv s → es_progress s !! i = Some w → pw_active w = true →
  let s' := progress_active_remove_locked s i in
  progress_inv s' ∧ es_progress s' = <[i := w <| pw_active := false |>]> (es_progress s) ∧
  es_progress_active_count s' = es_progress_active_count s - 1 ∧ es_fixed s' = es_fixed s.
Proof.
  intros H Ew Ha s'. assert (es_progress s' = <[i := w <| pw_active := false |>]> (es_progress s)) as Ep.
  { unfold s', progress_active_remove_locked. rewrite Ew, Ha. cbn. exact (alter_insert _ _ _ _ Ew). }
  pose proof (progress_counts_range _ H) as (_ & _ & Hc). pose proof (tally_pos pw_active _ _ _ Ew Ha) as Hpos.
  rewrite <- (pi_active _ H) in Hpos. pose proof (pi_limit _ H).
  assert (es_progress_active_count s' = es_progress_active_count s - 1) as Ec.
  { unfold s', progress_active_remove_locked. rewrite Ew, Ha. cbn. apply u64_id. ulia. }
  split; [|split; [exact Ep|split; [exact Ec|]]].
  - eapply (progress_inv_slot s s' i w _ H Ew); [|exact Ep|..].
    + destruct (inv_slot_ok _ _ _ H Ew). by split.
    + unfold s', progress_active_remove_locked. by rewrite Ew, Ha.
    + unfold s', progress_active_remove_locked. rewrite Ew, Ha. cbn. lia.
    + unfold s', progress_active_remove_locked. rewrite Ew, Ha. cbn. lia.
    + rewrite Ec, Ha. cbn. lia.
    + lia.
    + done.
  - unfold s', progress_active_remove_locked. by rewrite Ew, Ha.
Qed.

(** A work that does not run gives its slot back. *)
Lemma release_ok s i w :
  progress_inv s → es_progress s !! i = Some w → pw_in_use w = true → pw_active w = false →
  let s' := progress_release_locked s i in
  progress_inv s' ∧ es_progress s' = <[i := progress_zero]> (es_progress s) ∧
  es_progress_active_count s' = es_progress_active_count s ∧ es_fixed s' = es_fixed s ∧
  es_progress_in_use_count s' = es_progress_in_use_count s - 1.
Proof.
  intros H Ew Hu Ha s'. pose proof (progress_counts_range _ H) as (Hcu & Hcr & _).
  pose proof (tally_pos pw_in_use _ _ _ Ew Hu) as Hpu. rewrite <- (pi_in_use _ H) in Hpu.
  set (s1 := if pw_queued w then slot_update i (λ w, w <| pw_queued := false |>) s
               <| es_progress_ready_count ::= λ n, u64 (n - 1) |> else s).
  set (w1 := w <| pw_queued := false |>).
  assert (es_progress s1 = <[i := w1]> (es_progress s)) as Ep1.
  { unfold s1. destruct (pw_queued w) eqn:Eq; [cbn; exact (alter_insert _ _ _ _ Ew)|].
    unfold w1. symmetry. apply list_insert_id. rewrite Ew. f_equal. destruct w; cbn in *. by rewrite Eq. }
  assert (es_progress s1 !! i = Some w1) as Ew1.
  { rewrite Ep1. apply list_lookup_insert_eq. by eapply lookup_lt_Some. }
  assert (s' = progress_summary_locked (slot_update i (λ _, progress_zero) s1 <| es_progress_in_use_count ::= λ n, u64 (n - 1) |>)) as Es'.
  { unfold s', progress_release_locked. rewrite Ew, Hu. cbn [negb]. fold s1.
    unfold progress_active_remove_locked. rewrite Ew1. unfold w1. cbn [pw_active set_field eta_expand]. by rewrite Ha. }
  clearbody s'.
  assert (es_progress s' = <[i := progress_zero]> (es_progress s)) as Ep.
  { rewrite Es'. cbn. rewrite (alter_insert _ _ _ _ Ew1), Ep1. apply list_insert_insert_eq. }
  assert (es_progress_in_use_count s1 = es_progress_in_use_count s ∧ es_fixed s1 = es_fixed s ∧
    es_progress_active_count s1 = es_progress_active_count s) as (Eu1 & Ef1 & Ea1).
  { unfold s1. by destruct (pw_queued w). }
  assert (es_progress_ready_count s1 = es_progress_ready_count s - Z.b2z (pw_queued w)) as Er1.
  { unfold s1. destruct (pw_queued w) eqn:Eq; cbn; [|lia]. apply u64_id.
    pose proof (tally_pos pw_queued _ _ _ Ew Eq) as Hpq. rewrite <- (pi_ready _ H) in Hpq. ulia. }
  split; [|split; [exact Ep|rewrite Es'; split; [exact Ea1|split; [exact Ef1|]]]].
  - assert (es_progress_active_limit s1 = es_progress_active_limit s) as El1 by (unfold es_fixed in Ef1; congruence).
    eapply (progress_inv_slot s s' i w _ H Ew); [|exact Ep|rewrite ?Es'; cbn..].
    + by split.
    + exact El1.
    + rewrite Eu1, Hu, u64_id by ulia. cbn. lia.
    + rewrite Er1. lia.
    + rewrite Ea1, Ha. cbn. lia.
    + rewrite Ea1. apply H.
    + done.
  - cbn. rewrite Eu1. apply u64_id. ulia.
Qed.

(** A work that neither waits nor runs joins the ready ones; turns are then granted. *)
Lemma enqueue_ok now env s i w :
  progress_inv s → es_progress s !! i = Some w → pw_in_use w = true → pw_queued w = false → pw_active w = false →
  ∃ s1 w1, progress_enqueue_locked now env s i = progress_grant_locked env s1 ∧ progress_inv s1 ∧
    es_progress s1 = <[i := w1]> (es_progress s) ∧ pw_queued w1 = true ∧ pw_active w1 = false ∧
    pw_in_use w1 = true ∧ pw_generation w1 = pw_generation w ∧ same_sequence w1 w ∧
    es_fixed s1 = es_fixed s ∧ es_progress_in_use_count s1 = es_progress_in_use_count s.
Proof.
  intros H Ew Hu Hq Ha.
  set (w1 := w <| pw_submission_ordinal := next_nonzero (es_next_progress_ordinal s) |> <| pw_ready_since_ns := now |>
           <| pw_queued := true |> <| pw_active := false |> <| pw_status := YVEX_OK |>).
  eexists _, w1. split; [reflexivity|].
  pose proof (progress_counts_range _ H) as (_ & Hcr & _).
  match goal with |- progress_inv ?s1 ∧ _ => assert (es_progress s1 = <[i := w1]> (es_progress s)) as Ep end.
  { cbn. exact (alter_insert _ _ _ _ Ew). }
  split; [|split; [exact Ep|by repeat split]].
  eapply (progress_inv_slot s _ i w w1 H Ew); [|exact Ep|cbn..]; rewrite ?Hq, ?Ha, ?Hu; cbn; try lia; try done.
  - rewrite u64_id by ulia. lia.
  - apply H.
Qed.

(** * Clients *)

(** A thread that holds a lease, [cl_wait] being [None], or waits for its turn. *)
Record sched_client := SchedClient {
  cl_lease : yvex_runtime_execution_lease;
  cl_engine_generation : Z;
  cl_sequence_handle : Z;
  cl_wait : option wait_kind;
}.

Definition client_slot (c : sched_client) : nat := lease_slot (cl_lease c).

(** The scheduler and its clients by thread. *)
Record sched_system := SchedSystem {
  sy_scheduler : runtime_engine_scheduler;
  sy_clients : gmap nat sched_client;
}.

(** The client after its section answered: it waits on, holds its lease, or is gone. *)
Definition client_answer (id : nat) (lease : yvex_runtime_execution_lease) (engine_generation sequence_handle : Z)
    (wait : wait_kind) (answer : option (outcome unit)) (clients : gmap nat sched_client) : gmap nat sched_client :=
  match answer with
  | None => <[id := SchedClient lease engine_generation sequence_handle (Some wait)]> clients
  | Some (Done _) => <[id := SchedClient lease engine_generation sequence_handle None]> clients
  | Some (Refused _ _) => delete id clients
  end.

(** One section of one thread. The kind of a transition is one of the enumeration. *)
Inductive sched_step : sched_system → sched_system → Prop :=
  | step_enter id now env s C generation handle kind lease answer s' :
      C !! id = None → 0 ≤ kind →
      yvex_runtime_execution_enter now env s generation handle kind = Done (lease, answer, s') →
      sched_step (SchedSystem s C) (SchedSystem s' (client_answer id lease generation handle WAIT_ENTER answer C))
  | step_wake id env s C lease generation handle wait answer s' :
      C !! id = Some (SchedClient lease generation handle (Some wait)) →
      progress_wake wait env s (lease_slot lease) = (answer, s') →
      sched_step (SchedSystem s C) (SchedSystem s' (client_answer id lease generation handle wait answer C))
  | step_yield id now env s C lease generation handle answer s' :
      C !! id = Some (SchedClient lease generation handle None) →
      yvex_runtime_execution_yield_resume now env s (Some lease) = (answer, s') →
      sched_step (SchedSystem s C) (SchedSystem s' (client_answer id lease generation handle WAIT_YIELD answer C))
  | step_transition id now env s C lease generation handle kind answer s' :
      C !! id = Some (SchedClient lease generation handle None) → 0 ≤ kind < YVEX_ENGINE_PROGRESS_KIND_COUNT →
      yvex_runtime_private_engine_progress_transition now env s (Some lease) kind = (answer, s') →
      sched_step (SchedSystem s C) (SchedSystem s' (client_answer id lease generation handle WAIT_TRANSITION answer C))
  | step_leave id now env s C lease generation handle status answer s' :
      C !! id = Some (SchedClient lease generation handle None) →
      yvex_runtime_execution_leave now env s (Some lease) status = (answer, s') →
      sched_step (SchedSystem s C) (SchedSystem s' (delete id C))
  | step_close s C :
      es_stopping s = false → sched_step (SchedSystem s C) (SchedSystem (coordinator_close_begin s) C).

(** The states reached from a freshly opened scheduler of [width] places. *)
Inductive sched_reachable (capacity width : Z) : sched_system → Prop :=
  | reach_open a b c s :
      yvex_runtime_execution_coordinator_open capacity width a b c = Done s →
      sched_reachable capacity width (SchedSystem s ∅)
  | reach_step σ σ' : sched_reachable capacity width σ → sched_step σ σ' → sched_reachable capacity width σ'.

(** ** Slots and their clients *)

(** What a client relies on while another one's section runs. *)
Definition keeps (w w' : runtime_engine_progress_work) : Prop :=
  (pw_active w = true → pw_active w' = true) ∧ pw_generation w' = pw_generation w ∧
  same_sequence w' w ∧ pw_in_use w' = pw_in_use w.

(** Every slot but [i] keeps its work. *)
Definition others (i : nat) (l l' : list runtime_engine_progress_work) : Prop :=
  ∀ j, j ≠ i → ∀ w', l' !! j = Some w' → ∃ w, l !! j = Some w ∧ keeps w w'.

Lemma keeps_refl w : keeps w w.
Proof. by repeat split. Qed.

Lemma keeps_trans w v u : keeps w v → keeps v u → keeps w u.
Proof. unfold keeps, same_sequence. intros (? & ? & [] & ?) (? & ? & [] & ?). split; [auto|]. repeat split; congruence. Qed.

Lemma others_trans i l m k : others i l m → others i m k → others i l k.
Proof.
  intros H1 H2 j Hj w Ew. destruct (H2 j Hj w Ew) as (v & Ev & Hv). destruct (H1 j Hj v Ev) as (u & Eu & Hu).
  exists u. split; [done|]. by eapply keeps_trans.
Qed.

Lemma others_insert i l w : others i l (<[i := w]> l).
Proof. intros j Hj v Ev. rewrite list_lookup_insert_ne in Ev by done. exists v. split; [done|apply keeps_refl]. Qed.

Lemma evolves_keeps w w' : slot_evolves w w' → keeps w w'.
Proof.
  intros Hev. pose proof (evolves_identity _ _ Hev) as Hid. unfold pw_identity in Hid.
  split; [by apply evolves_active|]. unfold same_sequence. repeat split; congruence.
Qed.

Lemma others_grants i s s' : grants s s' → others i (es_progress s) (es_progress s').
Proof.
  intros G j _ w' Ew'. destruct (grants_lookup_r _ _ _ _ G Ew') as (w & Ew & Hev).
  exists w. split; [done|by apply evolves_keeps].
Qed.

(** The work of a client. *)
Record client_work (c : sched_client) (w : runtime_engine_progress_work) : Prop := {
  cw_in_use : pw_in_use w = true;
  cw_generation : pw_generation w = lease_generation (cl_lease c);
  cw_engine : pw_engine_generation w = cl_engine_generation c;
  cw_sequence : pw_sequence_handle w = cl_sequence_handle c;
  cw_holds : cl_wait c = None → pw_active w = true;
}.

Definition client_ok (l : list runtime_engine_progress_work) (c : sched_client) : Prop :=
  ∃ w, l !! client_slot c = Some w ∧ client_work c w.

(** Clients and used slots correspond one to one. *)
Record clients_ok (l : list runtime_engine_progress_work) (C : gmap nat sched_client) : Prop := {
  cs_client : ∀ id c, C !! id = Some c → client_ok l c;
  cs_distinct : ∀ id id' c c', C !! id = Some c → C !! id' = Some c' → client_slot c = client_slot c' → id = id';
  cs_owned : ∀ i w, l !! i = Some w → pw_in_use w = true → ∃ id c, C !! id = Some c ∧ client_slot c = i;
}.

(** The change of the client of slot [i]: another state, or none and a free slot. *)
Definition client_set (id : nat) (co : option sched_client) (C : gmap nat sched_client) : gmap nat sched_client :=
  match co with Some c => <[id := c]> C | None => delete id C end.

Lemma client_set_ne id id' co C : id' ≠ id → client_set id co C !! id' = C !! id'.
Proof. intros H. destruct co; [by apply lookup_insert_ne|by apply lookup_delete_ne]. Qed.

Lemma client_set_eq id co C : client_set id co C !! id = co.
Proof. destruct co; [apply lookup_insert_eq|apply lookup_delete_eq]. Qed.

Lemma clients_ok_set l l' C id i co :
  clients_ok l C → others i l l' → length l' = length l →
  (∀ c, C !! id = Some c → client_slot c = i) →
  (∀ id' c, C !! id' = Some c → client_slot c = i → id' = id) →
  (∀ c, co = Some c → client_slot c = i ∧ client_ok l' c) →
  (co = None → ∀ w, l' !! i = Some w → pw_in_use w = false) →
  clients_ok l' (client_set id co C).
Proof.
  intros H Ho Hlen Hid Hi Hsome Hnone.
  assert (Hother : ∀ id' c, id' ≠ id → C !! id' = Some c → client_slot c ≠ i).
  { intros id' c Hne Ec E. by apply Hne, (Hi id' c). }
  split.
  - intros id' c Ec. destruct (decide (id' = id)) as [->|Hne].
    { rewrite client_set_eq in Ec. by apply Hsome. }
    rewrite client_set_ne in Ec by done. destruct (cs_client _ _ H _ _ Ec) as (w & Ew & Hw).
    destruct (lookup_lt_is_Some_2 l' (client_slot c)) as [w' Ew'].
    { rewrite Hlen. by eapply lookup_lt_Some. }
    destruct (Ho _ (Hother _ _ Hne Ec) _ Ew') as (v & Ev & Ha & Hg & [He Hs] & Hu). simplify_eq.
    exists w'. split; [done|]. destruct Hw. split; try congruence. auto.
  - intros id1 id2 c1 c2 E1 E2 Es. destruct (decide (id1 = id)) as [->|H1], (decide (id2 = id)) as [->|H2]; [done| | |].
    + rewrite client_set_eq in E1. rewrite client_set_ne in E2 by done. destruct (Hsome _ E1) as [Hs _].
      exfalso. apply (Hother _ _ H2 E2). congruence.
    + rewrite client_set_eq in E2. rewrite client_set_ne in E1 by done. destruct (Hsome _ E2) as [Hs _].
      exfalso. apply (Hother _ _ H1 E1). congruence.
    + rewrite client_set_ne in E1, E2 by done. by eapply (cs_distinct _ _ H).
  - intros j w Ew Hu. destruct (decide (j = i)) as [->|Hj].
    + destruct co as [c|]; [|rewrite (Hnone eq_refl w Ew) in Hu; done].
      exists id, c. split; [apply client_set_eq|]. by apply Hsome.
    + destruct (Ho j Hj w Ew) as (v & Ev & _ & _ & _ & Huv). rewrite Huv in Hu.
      destruct (cs_owned _ _ H _ _ Ev Hu) as (id' & c & Ec & Es). exists id', c. split; [|done].
      rewrite client_set_ne; [done|]. intros ->. apply Hj. rewrite <- Es. by apply Hid.
Qed.

(** ** The invariant *)

Record sys_inv (σ : sched_system) : Prop := {
  si_progress : progress_inv (sy_scheduler σ);
  si_clients : clients_ok (es_progress (sy_scheduler σ)) (sy_clients σ);
  si_busy : work_conserving (sy_scheduler σ);
  si_drained : es_stopping (sy_scheduler σ) = true →
    ∀ i w, es_progress (sy_scheduler σ) !! i = Some w → pw_queued w = false;
}.

(** The part of it that sections keep whichever slot they work on. *)
Record sched_ok (s : runtime_engine_scheduler) : Prop := {
  sk_progress : progress_inv s;
  sk_busy : work_conserving s;
  sk_drained : es_stopping s = true → ∀ i w, es_progress s !! i = Some w → pw_queued w = false;
}.

Lemma release_sched_ok s i w :
  sched_ok s → es_progress s !! i = Some w → pw_in_use w = true → pw_active w = false →
  sched_ok (progress_release_locked s i).
Proof.
  intros [H Hb Hd] Ew Hu Ha. destruct (release_ok s i w H Ew Hu Ha) as (H' & Ep & Ec & Ef & _).
  unfold es_fixed in Ef. injection Ef as _ _ El _ Es.
  assert (Hlook : ∀ j v, es_progress (progress_release_locked s i) !! j = Some v → pw_queued v = true →
    j ≠ i ∧ es_progress s !! j = Some v).
  { intros j v Ev Hv. rewrite Ep in Ev. destruct (decide (j = i)) as [->|Hj].
    - rewrite list_lookup_insert_eq in Ev by (by eapply lookup_lt_Some). by injection Ev as <-.
    - by rewrite list_lookup_insert_ne in Ev by done. }
  split; [done| |].
  - destruct Hb as [Hb|[Hb|Hb]]; [left; congruence|right; left; congruence|right; right].
    intros j v Ev Hv. destruct (Hlook j v Ev Hv) as [Hj Ev']. destruct (Hb j v Ev' Hv) as (k & a & c & Hk & Ec' & Ea & Hact & Hs).
    exists k, a, c. assert (k ≠ i) by (intros ->; congruence).
    rewrite Ep, !list_lookup_insert_ne by done. done.
  - intros Hst j v Ev. destruct (pw_queued v) eqn:Hv; [|done]. destruct (Hlook j v Ev Hv) as [_ Ev'].
    rewrite Es in Hst. by rewrite (Hd Hst j v Ev') in Hv.
Qed.

Lemma grant_sched_ok env s :
  progress_inv s → (es_stopping s = true → ∀ i w, es_progress s !! i = Some w → pw_queued w = false) →
  sched_ok (progress_grant_locked env s).
Proof.
  intros H Hd. destruct (grant_locked_spec env s H) as (H' & G & _ & Hb). split; [done|done|].
  intros Hst i w' Ew'. destruct (pw_queued w') eqn:Hq; [|done].
  assert (es_stopping s = true) as Hst'.
  { destruct G as [_ F]. unfold es_frame in F. congruence. }
  rewrite (Hd Hst' i w' (grants_queued _ _ _ _ G Ew' Hq)) in Hq. done.
Qed.

(** What the answer says of the slot. *)
Definition settled (answer : option (outcome unit)) (s : runtime_engine_scheduler) (i : nat)
    (w : runtime_engine_progress_work) : Prop :=
  match answer with
  | None => es_stopping s = false ∧ es_progress s !! i = Some w ∧ pw_queued w = true
  | Some (Done _) => es_progress s !! i = Some w ∧ pw_active w = true
  | Some (Refused _ _) => es_progress s !! i = Some progress_zero ∧ pw_active w = false
  end.

Lemma settle_ok wait s i w answer s' :
  sched_ok s → es_progress s !! i = Some w → pw_in_use w = true → progress_settle wait s i = (answer, s') →
  sched_ok s' ∧ others i (es_progress s) (es_progress s') ∧ length (es_progress s') = length (es_progress s) ∧
  es_stopping s' = es_stopping s ∧ settled answer s' i w.
Proof.
  intros Hok Ew Hu. unfold progress_settle. rewrite Ew. unfold progress_wait_locked.
  assert (Hrefl : others i (es_progress s) (es_progress s)).
  { intros j _ v Ev. exists v. split; [done|apply keeps_refl]. }
  destruct (pw_queued w && negb (es_stopping s)) eqn:Eq.
  { intros [= <- <-]. guards. by repeat split; try apply Hok. }
  destruct (pw_active w) eqn:Ha.
  { intros [= <- <-]. destruct wait; (split; [|done]); [exact Hok| |exact Hok].
    destruct Hok as [H Hb Hd]. split; [destruct H; by split|exact Hb|exact Hd]. }
  assert (Hrel : sched_ok (progress_release_locked s i) ∧ others i (es_progress s) (es_progress (progress_release_locked s i)) ∧
    length (es_progress (progress_release_locked s i)) = length (es_progress s) ∧
    es_stopping (progress_release_locked s i) = es_stopping s ∧
    es_progress (progress_release_locked s i) !! i = Some progress_zero).
  { destruct (release_ok s i w (sk_progress _ Hok) Ew Hu Ha) as (_ & Ep & _ & Ef & _).
    split; [by eapply release_sched_ok|]. rewrite Ep. split; [apply others_insert|].
    split; [apply length_insert|]. split; [unfold es_fixed in Ef; congruence|].
    apply list_lookup_insert_eq. by eapply lookup_lt_Some. }
  destruct Hrel as (? & ? & ? & ? & ?).
  case_bool_decide; intros [= <- <-]; done.
Qed.

(** ** Preservation *)

(** Slot [i] belongs to [id], or to nobody. *)
Definition owner (C : gmap nat sched_client) (id i : nat) : Prop :=
  (∀ c, C !! id = Some c → client_slot c = i) ∧ (∀ id' c, C !! id' = Some c → client_slot c = i → id' = id).

Lemma owner_client l C id c : clients_ok l C → C !! id = Some c → owner C id (client_slot c).
Proof.
  intros H Ec. split; [intros c' E; congruence|]. intros id' c' Ec' Es. by eapply (cs_distinct _ _ H).
Qed.

Lemma owner_free l C id i w : clients_ok l C → C !! id = None → l !! i = Some w → pw_in_use w = false → owner C id i.
Proof.
  intros H Ec Ew Hu. split; [congruence|]. intros id' c Ec' Es.
  destruct (cs_client _ _ H _ _ Ec') as (v & Ev & Hv). rewrite Es in Ev. pose proof (cw_in_use _ _ Hv). congruence.
Qed.

Lemma clients_answer l s' C id i lease g h wait answer w :
  clients_ok l C → others i l (es_progress s') → length (es_progress s') = length l → owner C id i →
  lease_slot lease = i → pw_in_use w = true → pw_generation w = lease_generation lease →
  pw_engine_generation w = g → pw_sequence_handle w = h → settled answer s' i w →
  clients_ok (es_progress s') (client_answer id lease g h wait answer C).
Proof.
  intros H Ho Hlen [Hid Hi] Hs Hu Hg He Hh Hset.
  assert (∃ co, client_answer id lease g h wait answer C = client_set id co C ∧
    (∀ c, co = Some c → client_slot c = i ∧ client_ok (es_progress s') c) ∧
    (co = None → ∀ v, es_progress s' !! i = Some v → pw_in_use v = false)) as (co & -> & Hsome & Hnone).
  2: by eapply clients_ok_set.
  destruct answer as [[[]|st why]|]; cbn [settled client_answer] in *.
  - destruct Hset as [Ew Ha]. eexists (Some _). split; [reflexivity|]. split; [|done]. intros c [= <-].
    split; [done|]. exists w. split; [by rewrite <- Hs in Ew|by split].
  - destruct Hset as [Ew _]. exists None. split; [reflexivity|]. split; [done|]. intros _ v Ev. by simplify_eq.
  - destruct Hset as (_ & Ew & _). eexists (Some _). split; [reflexivity|]. split; [|done]. intros c [= <-].
    split; [done|]. exists w. split; [by rewrite <- Hs in Ew|by split].
Qed.

(** A free turn is asked for again. *)
Lemma enqueue_settle now env wait s i w answer s' :
  progress_inv s → es_stopping s = false → es_progress s !! i = Some w → pw_in_use w = true →
  pw_queued w = false → pw_active w = false →
  progress_settle wait (progress_enqueue_locked now env s i) i = (answer, s') →
  sched_ok s' ∧ others i (es_progress s) (es_progress s') ∧ length (es_progress s') = length (es_progress s) ∧
  es_stopping s' = false ∧
  ∃ w', pw_in_use w' = true ∧ pw_generation w' = pw_generation w ∧ same_sequence w' w ∧ settled answer s' i w'.
Proof.
  intros H Hst Ew Hu Hq Ha E.
  destruct (enqueue_ok now env s i w H Ew Hu Hq Ha) as (s1 & w1 & Es1 & H1 & Ep1 & Hq1 & Ha1 & Hu1 & Hg1 & Hs1 & Ef1 & _).
  rewrite Es1 in E. clear Es1.
  assert (es_stopping s1 = false) as Hst1 by (unfold es_fixed in Ef1; congruence).
  pose proof (grant_sched_ok env s1 H1 ltac:(congruence)) as Hok2.
  destruct (grant_locked_spec env s1 H1) as (_ & G & _ & _). set (s2 := progress_grant_locked env s1) in *.
  assert (es_progress s1 !! i = Some w1) as Ew1.
  { rewrite Ep1. apply list_lookup_insert_eq. by eapply lookup_lt_Some. }
  destruct (grants_lookup _ _ _ _ G Ew1) as (w2 & Ew2 & Hev). apply evolves_keeps in Hev as (_ & Hg2 & Hs2 & Hu2).
  destruct (settle_ok wait s2 i w2 answer s' Hok2 Ew2 ltac:(congruence) E) as (Hok & Ho & Hlen & Hst' & Hset).
  split; [done|]. split.
  { eapply others_trans; [|exact Ho]. eapply others_trans; [|by apply others_grants].
    rewrite Ep1. apply others_insert. }
  split. { rewrite Hlen. rewrite <- (Forall2_length _ _ _ (proj1 G)), Ep1. apply length_insert. }
  split. { rewrite Hst'. destruct G as [_ F]. unfold es_frame in F. congruence. }
  exists w2. split; [congruence|]. split; [congruence|]. split; [|done].
  unfold same_sequence in *. naive_solver congruence.
Qed.

(** The running work of slot [i] gives its turn back. *)
Lemma turn_end now s i w :
  progress_inv s → es_progress s !! i = Some w → pw_active w = true →
  ∃ w', let s' := progress_active_remove_locked (progress_complete_kind_locked now s i) i in
  progress_inv s' ∧ es_progress s' = <[i := w']> (es_progress s) ∧ es_stopping s' = es_stopping s ∧
  pw_in_use w' = true ∧ pw_queued w' = false ∧ pw_active w' = false ∧ pw_generation w' = pw_generation w ∧
  same_sequence w' w.
Proof.
  intros H Ew Ha. destruct (inv_slot_ok _ _ _ H Ew) as [Hoq Hoa Hot].
  destruct (complete_kind_ok now s i w H Ew) as (H1 & Ep1 & _ & Ef1).
  set (w1 := w <| pw_active_since_ns := 0 |>) in *.
  assert (es_progress (progress_complete_kind_locked now s i) !! i = Some w1) as Ew1.
  { rewrite Ep1. apply list_lookup_insert_eq. by eapply lookup_lt_Some. }
  destruct (active_remove_ok _ i w1 H1 Ew1 Ha) as (H2 & Ep2 & _ & Ef2).
  exists (w1 <| pw_active := false |>). split; [done|]. split; [by rewrite Ep2, Ep1, list_insert_insert_eq|].
  split; [unfold es_fixed in *; congruence|]. cbn. split; [auto|]. split; [|done].
  destruct (pw_queued w) eqn:Hq; [|done]. rewrite Hot in Ha; done.
Qed.

Lemma slot_locked_client s C id c :
  clients_ok (es_progress s) C → C !! id = Some c →
  ∃ w, progress_slot_locked s (Some (cl_lease c)) = Some (client_slot c, w) ∧
    es_progress s !! client_slot c = Some w ∧ client_work c w.
Proof.
  intros H Ec. destruct (cs_client _ _ H _ _ Ec) as (w & Ew & Hw). exists w. split; [|done].
  unfold progress_slot_locked. cbn [mbind option_bind]. unfold client_slot in Ew. rewrite Ew.
  cbn. rewrite (cw_in_use _ _ Hw), (cw_generation _ _ Hw), Z.eqb_refl. done.
Qed.

Lemma sys_inv_of s C : sched_ok s → clients_ok (es_progress s) C → sys_inv (SchedSystem s C).
Proof. intros [H Hb Hd] Hc. by split. Qed.

Lemma sys_sched_ok s C : sys_inv (SchedSystem s C) → sched_ok s.
Proof. intros [H Hc Hb Hd]. by split. Qed.

(** The client of slot [i], in a scheduler where its work has just stopped running. *)
Record turn_over (s : runtime_engine_scheduler) (C : gmap nat sched_client) (id : nat) (c : sched_client)
    (s2 : runtime_engine_scheduler) (w2 : runtime_engine_progress_work) : Prop := {
  to_inv : progress_inv s2;
  to_progress : es_progress s2 = <[client_slot c := w2]> (es_progress s);
  to_stopping : es_stopping s2 = es_stopping s;
  to_in_use : pw_in_use w2 = true;
  to_queued : pw_queued w2 = false;
  to_active : pw_active w2 = false;
  to_generation : pw_generation w2 = lease_generation (cl_lease c);
  to_engine : pw_engine_generation w2 = cl_engine_generation c;
  to_sequence : pw_sequence_handle w2 = cl_sequence_handle c;
}.

Lemma turn_over_end now s C id c :
  sys_inv (SchedSystem s C) → C !! id = Some c → cl_wait c = None →
  ∃ w w2, progress_slot_locked s (Some (cl_lease c)) = Some (client_slot c, w) ∧ pw_active w = true ∧
    turn_over s C id c (progress_active_remove_locked (progress_complete_kind_locked now s (client_slot c)) (client_slot c)) w2.
Proof.
  intros [H Hc Hb Hd] Ec Hwait. cbn [sy_scheduler sy_clients] in *.
  destruct (slot_locked_client s C id c Hc Ec) as (w & El & Ew & Hw). pose proof (cw_holds _ _ Hw Hwait) as Ha.
  destruct (turn_end now s _ w H Ew Ha) as (w2 & H2 & Ep2 & Hst2 & Hu2 & Hq2 & Ha2 & Hg2 & [He2 Hs2]).
  exists w, w2. split; [done|]. split; [done|]. destruct Hw. by split; try congruence.
Qed.

Lemma turn_over_summary s C id c s2 w2 f :
  turn_over s C id c s2 w2 → turn_over s C id c (s2 <| es_summary ::= f |>) w2.
Proof. intros [[] ? ? ? ? ? ? ? ?]. by split. Qed.

Lemma turn_over_lookup s C id c s2 w2 :
  sys_inv (SchedSystem s C) → C !! id = Some c → turn_over s C id c s2 w2 →
  es_progress s2 !! client_slot c = Some w2.
Proof.
  intros Hsys Ec Ht. rewrite (to_progress _ _ _ _ _ _ Ht). apply list_lookup_insert_eq.
  destruct (cs_client _ _ (si_clients _ Hsys) _ _ Ec) as (w & Ew & _). by eapply lookup_lt_Some.
Qed.

Lemma turn_over_drained s C id c s2 w2 :
  sys_inv (SchedSystem s C) → C !! id = Some c → turn_over s C id c s2 w2 → es_stopping s2 = true →
  ∀ j v, es_progress s2 !! j = Some v → pw_queued v = false.
Proof.
  intros Hsys Ec Ht Hst j v Ev. rewrite (to_progress _ _ _ _ _ _ Ht) in Ev.
  destruct (decide (j = client_slot c)) as [->|Hj].
  - rewrite <- (to_progress _ _ _ _ _ _ Ht), (turn_over_lookup s C id c s2 w2 Hsys Ec Ht) in Ev.
    injection Ev as <-. apply Ht.
  - rewrite list_lookup_insert_ne in Ev by done. apply (si_drained _ Hsys) in Ev; [done|].
    cbn. by rewrite <- (to_stopping _ _ _ _ _ _ Ht).
Qed.

(** The client gives its slot back. *)
Lemma turn_over_release s C id c s2 w2 :
  sys_inv (SchedSystem s C) → C !! id = Some c → turn_over s C id c s2 w2 →
  let s3 := progress_release_locked s2 (client_slot c) in
  progress_inv s3 ∧ clients_ok (es_progress s3) (delete id C) ∧ es_stopping s3 = es_stopping s ∧
  (es_stopping s = true → ∀ j v, es_progress s3 !! j = Some v → pw_queued v = false) ∧
  es_progress_in_use_count s3 = es_progress_in_use_count s2 - 1.
Proof.
  intros Hsys Ec Ht s3. pose proof (si_clients _ Hsys) as Hc. cbn in Hc.
  pose proof (turn_over_lookup s C id c s2 w2 Hsys Ec Ht) as Ew2.
  destruct (release_ok s2 _ w2 (to_inv _ _ _ _ _ _ Ht) Ew2) as (H3 & Ep3 & _ & Ef3 & Eu3); [by apply Ht..|].
  fold s3 in H3, Ep3, Ef3, Eu3. rewrite (to_progress _ _ _ _ _ _ Ht), list_insert_insert_eq in Ep3.
  assert (es_stopping s3 = es_stopping s) as Hst3.
  { rewrite <- (to_stopping _ _ _ _ _ _ Ht). unfold es_fixed in Ef3. congruence. }
  assert (es_progress s3 !! client_slot c = Some progress_zero) as Ez.
  { rewrite Ep3. apply list_lookup_insert_eq.
    destruct (cs_client _ _ Hc _ _ Ec) as (w & Ew & _). by eapply lookup_lt_Some. }
  split; [done|]. split; [|split; [done|split; [|done]]].
  - destruct (owner_client _ _ _ _ Hc Ec) as [Hid Hi].
    apply (clients_ok_set (es_progress s) _ C id (client_slot c) None); [done| | |done|done|done|].
    + rewrite Ep3. apply others_insert.
    + rewrite Ep3. apply length_insert.
    + intros _ v Ev. by simplify_eq.
  - intros Hst j v Ev. destruct (decide (j = client_slot c)) as [->|Hj]; [by simplify_eq|].
    rewrite Ep3, list_lookup_insert_ne in Ev by done. by apply (si_drained _ Hsys) in Ev.
Qed.

(** The client asks for its next turn. *)
Lemma turn_over_again now env wait s C id c s2 w2 answer s' :
  sys_inv (SchedSystem s C) → C !! id = Some c → turn_over s C id c s2 w2 → es_stopping s = false →
  progress_settle wait (progress_enqueue_locked now env s2 (client_slot c)) (client_slot c) = (answer, s') →
  sys_inv (SchedSystem s' (client_answer id (cl_lease c) (cl_engine_generation c) (cl_sequence_handle c) wait answer C)).
Proof.
  intros Hsys Ec Ht Hst E. pose proof (si_clients _ Hsys) as Hc. cbn in Hc.
  pose proof (turn_over_lookup s C id c s2 w2 Hsys Ec Ht) as Ew2. pose proof (to_progress _ _ _ _ _ _ Ht) as Ep2.
  destruct (enqueue_settle now env wait s2 (client_slot c) w2 answer s' (to_inv _ _ _ _ _ _ Ht)) as
    (Hok & Ho & Hlen & _ & w' & Hu' & Hg' & [He' Hs'] & Hset); [|exact Ew2|by apply Ht..|exact E|].
  { by rewrite (to_stopping _ _ _ _ _ _ Ht). }
  destruct Ht as [_ _ _ _ _ _ Hg He Hs].
  apply sys_inv_of; [done|]. eapply (clients_answer (es_progress s) s' C id (client_slot c)); [done| | | |done|..|exact Hset];
    try congruence.
  - eapply others_trans; [|exact Ho]. rewrite Ep2. apply others_insert.
  - rewrite Hlen, Ep2. apply length_insert.
  - by eapply owner_client.
Qed.

(** ** Steps *)

Lemma yield_step now env s C id c answer s' :
  sys_inv (SchedSystem s C) → C !! id = Some c → cl_wait c = None →
  yvex_runtime_execution_yield_resume now env s (Some (cl_lease c)) = (answer, s') →
  sys_inv (SchedSystem s' (client_answer id (cl_lease c) (cl_engine_generation c) (cl_sequence_handle c) WAIT_YIELD answer C)).
Proof.
  intros Hsys Ec Hw. destruct (turn_over_end now s C id c Hsys Ec Hw) as (w & w2 & El & Ha & Ht).
  unfold yvex_runtime_execution_yield_resume. rewrite El, Ha. cbn [negb].
  match goal with |- context [_ <| es_summary ::= ?f |>] => apply (turn_over_summary _ _ _ _ _ _ f) in Ht end.
  match type of Ht with turn_over _ _ _ _ ?s2 _ => set (s2' := s2) in *; clearbody s2' end.
  rewrite (to_stopping _ _ _ _ _ _ Ht). destruct (es_stopping s) eqn:Hst.
  - intros [= <- <-]. cbn [client_answer].
    destruct (turn_over_release _ _ _ _ _ _ Hsys Ec Ht) as (H3 & Hc3 & Hst3 & Hd3 & _).
    apply sys_inv_of; [|done]. split; [done|left; congruence|intros _; by apply Hd3].
  - by apply (turn_over_again now env WAIT_YIELD s C id c s2' w2).
Qed.

Lemma turn_over_kind s C id c s2 w2 kind :
  sys_inv (SchedSystem s C) → C !! id = Some c → turn_over s C id c s2 w2 →
  turn_over s C id c (slot_update (client_slot c) (λ w, w <| pw_kind := kind |>) s2) (w2 <| pw_kind := kind |>).
Proof.
  intros Hsys Ec Ht. pose proof (turn_over_lookup s C id c s2 w2 Hsys Ec Ht) as Ew2.
  destruct Ht as [H2 Ep Hst Hu Hq Ha Hg He Hs]. split; try done.
  - eapply (progress_inv_slot s2 _ (client_slot c) w2 (w2 <| pw_kind := kind |>) H2 Ew2);
      [|exact (alter_insert _ _ _ _ Ew2)|cbn; try lia; try apply H2..].
    + destruct (inv_slot_ok _ _ _ H2 Ew2). by split.
    + intros Hact. by left.
  - cbn. rewrite (alter_insert _ _ _ _ Ew2), Ep. apply list_insert_insert_eq.
Qed.

Lemma transition_step now env s C id c kind answer s' :
  sys_inv (SchedSystem s C) → C !! id = Some c → cl_wait c = None → kind < YVEX_ENGINE_PROGRESS_KIND_COUNT →
  yvex_runtime_private_engine_progress_transition now env s (Some (cl_lease c)) kind = (answer, s') →
  sys_inv (SchedSystem s' (client_answer id (cl_lease c) (cl_engine_generation c) (cl_sequence_handle c) WAIT_TRANSITION answer C)).
Proof.
  intros Hsys Ec Hw Hk. destruct (turn_over_end now s C id c Hsys Ec Hw) as (w & w2 & El & Ha & Ht).
  unfold yvex_runtime_private_engine_progress_transition.
  rewrite (proj2 (Z.leb_gt _ _) Hk), El, Ha. cbn [negb].
  match goal with |- context [if es_stopping (_ <| es_summary ::= ?f |>) then _ else _] =>
    apply (turn_over_summary _ _ _ _ _ _ f) in Ht end.
  match type of Ht with turn_over _ _ _ _ ?s2 _ => set (s2' := s2) in *; clearbody s2' end.
  rewrite (to_stopping _ _ _ _ _ _ Ht). destruct (es_stopping s) eqn:Hst.
  - intros E. apply pair_equal_spec in E as [<- <-]. cbn [client_answer].
    match goal with |- context [progress_release_locked (_ <| es_summary ::= ?f |>) _] =>
      apply (turn_over_summary _ _ _ _ _ _ f) in Ht end.
    destruct (turn_over_release _ _ _ _ _ _ Hsys Ec Ht) as (H3 & Hc3 & Hst3 & Hd3 & _).
    apply sys_inv_of; [|done]. split; [done|left; congruence|intros _; by apply Hd3].
  - apply (turn_over_again now env WAIT_TRANSITION s C id c _ (w2 <| pw_kind := kind |>)); [done|done| |done].
    by apply turn_over_kind.
Qed.

Lemma clients_ok_grants s s' C :
  clients_ok (es_progress s) C → grants s s' → clients_ok (es_progress s') C.
Proof.
  intros H G. split.
  - intros id c Ec. destruct (cs_client _ _ H _ _ Ec) as (w & Ew & Hw).
    destruct (grants_lookup _ _ _ _ G Ew) as (w' & Ew' & Hev). apply evolves_keeps in Hev as (Ha & Hg & [He Hs] & Hu).
    exists w'. split; [done|]. destruct Hw. split; try congruence. auto.
  - apply (cs_distinct _ _ H).
  - intros i w' Ew' Hu'. destruct (grants_lookup_r _ _ _ _ G Ew') as (w & Ew & Hev).
    apply evolves_keeps in Hev as (_ & _ & _ & Hu). apply (cs_owned _ _ H i w Ew). congruence.
Qed.

Lemma leave_step now env s C id c status answer s' :
  sys_inv (SchedSystem s C) → C !! id = Some c → cl_wait c = None →
  yvex_runtime_execution_leave now env s (Some (cl_lease c)) status = (answer, s') →
  sys_inv (SchedSystem s' (delete id C)).
Proof.
  intros Hsys Ec Hw. destruct (turn_over_end now s C id c Hsys Ec Hw) as (w & w2 & El & Ha & Ht).
  unfold yvex_runtime_execution_leave. rewrite El, Ha.
  set (s1 := progress_active_remove_locked _ _) in *. clearbody s1.
  intros E. apply pair_equal_spec in E as [_ <-].
  match goal with |- context [progress_release_locked ?s2 _] => assert (turn_over s C id c s2 w2) as Ht2 end.
  { destruct (_ && _); [by apply turn_over_summary|]. destruct (bool_decide _); [by apply turn_over_summary|done]. }
  destruct (turn_over_release _ _ _ _ _ _ Hsys Ec Ht2) as (H3 & Hc3 & Hst3 & Hd3 & _).
  match goal with |- context [progress_grant_locked env ?s3] => set (s3' := s3) in * end.
  destruct (grant_locked_spec env s3' H3) as (_ & G & _).
  apply sys_inv_of; [|by eapply clients_ok_grants]. apply grant_sched_ok; [done|]. rewrite Hst3. done.
Qed.

Lemma wake_step env s C id c wait answer s' :
  sys_inv (SchedSystem s C) → C !! id = Some c → cl_wait c = Some wait →
  progress_wake wait env s (client_slot c) = (answer, s') →
  sys_inv (SchedSystem s' (client_answer id (cl_lease c) (cl_engine_generation c) (cl_sequence_handle c) wait answer C)).
Proof.
  intros Hsys Ec Hw E. pose proof Hsys as [H Hc Hb Hd]. cbn in *. unfold progress_wake in E.
  pose proof (grant_sched_ok env s H Hd) as Hok. destruct (grant_locked_spec env s H) as (_ & G & _).
  set (s1 := progress_grant_locked env s) in *. pose proof (clients_ok_grants _ _ _ Hc G) as Hc1.
  destruct (cs_client _ _ Hc1 _ _ Ec) as (w & Ew & []).
  destruct (settle_ok wait s1 _ w answer s' Hok Ew) as (Hok' & Ho & Hlen & _ & Hset); [done|exact E|].
  apply sys_inv_of; [done|].
  eapply (clients_answer (es_progress s1) s' C id (client_slot c)); [done|done|done| |done|..|exact Hset]; try done.
  by eapply owner_client.
Qed.

(** An admitted work: its slot was free, and it asks for a turn. *)
Lemma enter_slot now env s generation handle kind lease answer s' :
  progress_inv s → yvex_runtime_execution_enter now env s generation handle kind = Done (lease, answer, s') →
  ∃ i w s1 w1, es_progress s !! i = Some w ∧ pw_in_use w = false ∧ lease = ExecutionLease i (pw_generation w1) ∧
    progress_inv s1 ∧ es_stopping s1 = false ∧ es_progress s1 = <[i := w1]> (es_progress s) ∧
    pw_in_use w1 = true ∧ pw_queued w1 = false ∧ pw_active w1 = false ∧
    pw_engine_generation w1 = generation ∧ pw_sequence_handle w1 = handle ∧
    progress_settle WAIT_ENTER (progress_enqueue_locked now env s1 i) i = (answer, s').
Proof.
  intros H. unfold yvex_runtime_execution_enter.
  destruct (_ || _); [done|]. destruct (es_stopping s) eqn:Hst; [done|].
  destruct (progress_free_slot s) as [i|] eqn:Ef; [|done].
  unfold progress_free_slot in Ef. apply fmap_Some in Ef as [[i' w] [Ef ->]]. cbn [fst].
  apply list_find_Some in Ef as (Ew & Hu & _).
  set (g := next_nonzero _).
  set (w1 := progress_zero <| pw_generation := g |> <| pw_engine_generation := generation |>
               <| pw_sequence_handle := handle |> <| pw_kind := kind |> <| pw_in_use := true |>).
  set (s1 := slot_update i' (λ _, _) s <| es_next_progress_generation := g |> <| es_progress_in_use_count ::= _ |>).
  destruct (inv_slot_ok _ _ _ H Ew) as [Hoq Hoa _].
  assert (pw_queued w = false) as Hq by (destruct (pw_queued w); [rewrite Hoq in Hu|]; done).
  assert (pw_active w = false) as Ha by (destruct (pw_active w); [rewrite Hoa in Hu|]; done).
  pose proof (progress_counts_range _ H) as (Hcu & _ & _).
  assert (es_progress s1 = <[i' := w1]> (es_progress s)) as Ep1 by exact (alter_insert _ _ _ _ Ew).
  assert (progress_inv s1) as H1.
  { eapply (progress_inv_slot s s1 i' w w1 H Ew); [by split|exact Ep1|done|..]; cbn; rewrite ?Hu, ?Hq, ?Ha; cbn; try lia; try done.
    - rewrite u64_id by ulia. lia.
    - apply H. }
  destruct (progress_settle _ _ i') as [answer' s2] eqn:E. intros [= <- <- <-].
  by exists i', w, s1, w1.
Qed.

Lemma enter_step id now env s C generation handle kind lease answer s' :
  sys_inv (SchedSystem s C) → C !! id = None → 0 ≤ kind →
  yvex_runtime_execution_enter now env s generation handle kind = Done (lease, answer, s') →
  sys_inv (SchedSystem s' (client_answer id lease generation handle WAIT_ENTER answer C)).
Proof.
  intros Hsys Ec _ E. pose proof Hsys as [H Hc Hb Hd]. cbn in *.
  destruct (enter_slot _ _ _ _ _ _ _ _ _ H E) as (i & w & s1 & w1 & Ew & Hu & -> & H1 & Hst & Ep1 & Hu1 & Hq1 & Ha1 & He1 & Hs1 & Es).
  assert (es_progress s1 !! i = Some w1) as Ew1.
  { rewrite Ep1. apply list_lookup_insert_eq. by eapply lookup_lt_Some. }
  destruct (enqueue_settle now env WAIT_ENTER s1 i w1 _ _ H1 Hst Ew1 Hu1 Hq1 Ha1 Es) as
    (Hok & Ho & Hlen & _ & w' & Hu' & Hg' & [He' Hs'] & Hset).
  apply sys_inv_of; [done|].
  eapply (clients_answer (es_progress s) s' C id i); [done| | |by eapply owner_free|done|..|exact Hset]; try done; try congruence.
  - eapply others_trans; [|exact Ho]. rewrite Ep1. apply others_insert.
  - rewrite Hlen, Ep1. apply length_insert.
Qed.

(** Closing refuses what waits. *)
Lemma close_begin_spec s n :
  progress_inv s → (n ≤ length (es_progress s))%nat →
  let s' := foldl close_slot s (seq 0 n) in
  progress_inv s' ∧ grants s s' ∧ ∀ j v, (j < n)%nat → es_progress s' !! j = Some v → pw_queued v = false.
Proof.
  intros H. induction n as [|n IH]; intros Hn.
  { split; [done|]. split; [done|]. intros j v Hj. lia. }
  rewrite seq_S, foldl_app. cbn [foldl Nat.add]. destruct (IH ltac:(lia)) as (H' & G & Hq).
  set (s1 := foldl _ s (seq 0 n)) in *. clearbody s1. unfold close_slot.
  assert (Hkeep : (∀ v, es_progress s1 !! n = Some v → pw_queued v = false) →
    ∀ j v, (j < S n)%nat → es_progress s1 !! j = Some v → pw_queued v = false).
  { intros Hv j v Hj Ev. destruct (decide (j = n)) as [->|]; [by apply Hv|]. apply (Hq j v); [lia|done]. }
  destruct (es_progress s1 !! n) as [w|] eqn:Ew; [|split; [done|split; [done|apply Hkeep; congruence]]].
  destruct (pw_queued w) eqn:Hwq.
  2: { rewrite andb_false_r. split; [done|split; [done|apply Hkeep; congruence]]. }
  rewrite (so_queued _ (inv_slot_ok _ _ _ H' Ew) Hwq). cbn [andb].
  destruct (cancel_ready_ok s1 n w H' Ew Hwq) as (H2 & G2 & Ep2).
  split; [done|]. split; [by etransitivity|]. intros j v Hj Ev. rewrite Ep2 in Ev.
  destruct (decide (j = n)) as [->|Hjn].
  - rewrite list_lookup_insert_eq in Ev by (by eapply lookup_lt_Some). by injection Ev as <-.
  - rewrite list_lookup_insert_ne in Ev by done. apply (Hq j v); [lia|done].
Qed.

Lemma close_step s C :
  sys_inv (SchedSystem s C) → sys_inv (SchedSystem (coordinator_close_begin s) C).
Proof.
  intros [H Hc Hb Hd]. cbn in *.
  assert (progress_inv (s <| es_stopping := true |>)) as H1 by (destruct H; by split).
  destruct (close_begin_spec (s <| es_stopping := true |>) (length (es_progress s)) H1 ltac:(done)) as (H2 & G2 & Hq2).
  unfold coordinator_close_begin. change (es_progress (s <| es_stopping := true |>)) with (es_progress s) in *.
  set (s2 := foldl _ _ _) in *.
  assert (es_stopping s2 = true) as Hst2 by (destruct G2 as [_ F]; unfold es_frame in F; by simplify_eq/=).
  apply sys_inv_of.
  - split; [by apply inv_summary|by left|]. intros _ j v Ev. apply (Hq2 j v); [|exact Ev].
    pose proof (Forall2_length _ _ _ (proj1 G2)) as Hl. cbn in Hl. rewrite Hl. by eapply lookup_lt_Some.
  - cbn [es_progress progress_summary_locked set_field eta_expand]. eapply clients_ok_grants; [|exact G2]. exact Hc.
Qed.

Lemma sched_step_inv σ σ' : sys_inv σ → sched_step σ σ' → sys_inv σ'.
Proof.
  intros Hsys Hstep. destruct Hstep as [id now env s C g h kind lease answer s' Ec Hk E|
    id env s C lease g h wait answer s' Ec E|id now env s C lease g h answer s' Ec E|
    id now env s C lease g h kind answer s' Ec Hk E|id now env s C lease g h status answer s' Ec E|s C Hst].
  - by eapply enter_step.
  - exact (wake_step env s C id _ wait answer s' Hsys Ec eq_refl E).
  - exact (yield_step now env s C id _ answer s' Hsys Ec eq_refl E).
  - exact (transition_step now env s C id _ kind answer s' Hsys Ec eq_refl (proj2 Hk) E).
  - exact (leave_step now env s C id _ status answer s' Hsys Ec eq_refl E).
  - by apply close_step.
Qed.

(** ** The order of the turns *)

(** A work that runs now, and did not run like this before, has overtaken only works whose own sequence
    runs: every other work that still waits was submitted after it. *)
Definition turns_in_order (s s' : runtime_engine_scheduler) : Prop := ∀ i j w v,
  es_progress s' !! i = Some w → pw_active w = true → es_progress s !! i ≠ Some w →
  es_progress s' !! j = Some v → pw_queued v = true → pw_submission_ordinal v < pw_submission_ordinal w →
  conflicts (es_progress s') j.

(** Whatever runs in [s'] ran in [s] already. *)
Definition no_new_turn (s s' : runtime_engine_scheduler) : Prop := ∀ i w,
  es_progress s' !! i = Some w → pw_active w = true → es_progress s !! i = Some w.

Lemma no_turn_order s s' : no_new_turn s s' → turns_in_order s s'.
Proof. intros H i j w v Ew Ha Hne. by destruct Hne; apply H. Qed.

Lemma no_turn_insert s s' i w :
  es_progress s' = <[i := w]> (es_progress s) → pw_active w = false → no_new_turn s s'.
Proof.
  intros Ep Hw k v. rewrite Ep. intros Ev Ha. apply list_lookup_insert_Some in Ev as [(-> & <- & _)|[_ Ev]]; congruence.
Qed.

Lemma no_turn_trans s t u : no_new_turn s t → no_new_turn t u → no_new_turn s u.
Proof. unfold no_new_turn. auto. Qed.

Lemma grant_turns env s s1 : progress_inv s1 → no_new_turn s s1 → turns_in_order s (progress_grant_locked env s1).
Proof.
  intros H1 Hn i j w' v Ew' Ha Hne Ev Hv Hlt. destruct (grant_locked_spec env s1 H1) as (_ & G & Hord & _).
  destruct (grants_lookup_r _ _ _ _ G Ew') as (w & Ew & Hev).
  destruct Hev as [|w' Hq _ Ha' _ _|w' Hq _ _ _ _].
  - by destruct Hne; apply Hn.
  - pose proof (so_turn _ (inv_slot_ok _ _ _ H1 Ew) Hq). congruence.
  - by apply (Hord i j w w' v).
Qed.

Lemma enqueue_turns now env s0 s i w :
  progress_inv s → no_new_turn s0 s → es_progress s !! i = Some w → pw_in_use w = true → pw_queued w = false →
  pw_active w = false → turns_in_order s0 (progress_enqueue_locked now env s i).
Proof.
  intros H Hn Ew Hu Hq Ha.
  destruct (enqueue_ok now env s i w H Ew Hu Hq Ha) as (s1 & w1 & -> & H1 & Ep1 & _ & Ha1 & _).
  apply grant_turns; [done|]. eapply no_turn_trans; [exact Hn|by eapply no_turn_insert].
Qed.

(** The end of a section withdraws no turn. *)
Lemma settle_turns wait s0 s i answer s' :
  progress_inv s → turns_in_order s0 s → progress_settle wait s i = (answer, s') → turns_in_order s0 s'.
Proof.
  intros H Ht. unfold progress_settle. destruct (es_progress s !! i) as [w|] eqn:Ew; [|by intros [= _ <-]].
  destruct (progress_wait_locked s w) as [[|st why]|] eqn:Ea; [intros [= _ <-]; by destruct wait| |by intros [= _ <-]].
  intros [= _ <-].
  assert (pw_active w = false) as Ha.
  { unfold progress_wait_locked in Ea. destruct (_ && _); [done|]. by destruct (pw_active w). }
  destruct (pw_in_use w) eqn:Hu; [|by unfold progress_release_locked; rewrite Ew, Hu].
  destruct (release_ok s i w H Ew Hu Ha) as (_ & Ep & _).
  pose proof (lookup_lt_Some _ _ _ Ew) as Hlt.
  intros k j v x. rewrite Ep. intros Ev Hav Hne Ex Hx Ho.
  apply list_lookup_insert_Some in Ev as [(_ & <- & _)|[_ Ev]]; [done|].
  apply list_lookup_insert_Some in Ex as [(_ & <- & _)|[Hji Ex]]; [done|].
  destruct (Ht k j v x Ev Hav Hne Ex Hx Ho) as (m & a & c & Hm & Ec & Em & Hact & Hs).
  exists m, a, c. assert (m ≠ i) by (intros ->; congruence). by rewrite !list_lookup_insert_ne.
Qed.

Lemma enqueue_settle_turns now env wait s0 s i w answer s' :
  progress_inv s → no_new_turn s0 s → es_progress s !! i = Some w → pw_in_use w = true → pw_queued w = false →
  pw_active w = false → progress_settle wait (progress_enqueue_locked now env s i) i = (answer, s') →
  turns_in_order s0 s'.
Proof.
  intros H Hn Ew Hu Hq Ha. apply settle_turns; [|by eapply enqueue_turns].
  destruct (enqueue_ok now env s i w H Ew Hu Hq Ha) as (s1 & w1 & -> & H1 & _). by apply grant_locked_spec.
Qed.

Lemma turn_over_no_turn s C id c s2 w2 : turn_over s C id c s2 w2 → no_new_turn s s2.
Proof. intros Ht. eapply no_turn_insert; apply Ht. Qed.

Lemma turn_over_release_no_turn s C id c s2 w2 :
  sys_inv (SchedSystem s C) → C !! id = Some c → turn_over s C id c s2 w2 →
  no_new_turn s (progress_release_locked s2 (client_slot c)).
Proof.
  intros Hsys Ec Ht. eapply no_turn_trans; [by eapply turn_over_no_turn|].
  destruct (release_ok s2 _ w2 (to_inv _ _ _ _ _ _ Ht) (turn_over_lookup _ _ _ _ _ _ Hsys Ec Ht)) as (_ & Ep & _); [by apply Ht..|].
  by eapply no_turn_insert.
Qed.

(** The client whose turn is over waits for the next one. *)
Lemma turn_over_again_turns now env wait s C id c s2 w2 answer s' :
  sys_inv (SchedSystem s C) → C !! id = Some c → turn_over s C id c s2 w2 →
  progress_settle wait (progress_enqueue_locked now env s2 (client_slot c)) (client_slot c) = (answer, s') →
  turns_in_order s s'.
Proof.
  intros Hsys Ec Ht. apply (enqueue_settle_turns now env wait s s2 (client_slot c) w2); [by apply Ht| | |by apply Ht..].
  - by eapply turn_over_no_turn.
  - by eapply turn_over_lookup.
Qed.

Lemma yield_turns now env s C id c answer s' :
  sys_inv (SchedSystem s C) → C !! id = Some c → cl_wait c = None →
  yvex_runtime_execution_yield_resume now env s (Some (cl_lease c)) = (answer, s') → turns_in_order s s'.
Proof.
  intros Hsys Ec Hw. destruct (turn_over_end now s C id c Hsys Ec Hw) as (w & w2 & El & Ha & Ht).
  unfold yvex_runtime_execution_yield_resume. rewrite El, Ha. cbn [negb].
  match goal with |- context [_ <| es_summary ::= ?f |>] => apply (turn_over_summary _ _ _ _ _ _ f) in Ht end.
  match type of Ht with turn_over _ _ _ _ ?s2 _ => set (s2' := s2) in *; clearbody s2' end.
  destruct (es_stopping s2').
  - intros [= _ <-]. apply no_turn_order. by eapply turn_over_release_no_turn.
  - by apply (turn_over_again_turns now env WAIT_YIELD s C id c s2' w2).
Qed.

Lemma transition_turns now env s C id c kind answer s' :
  sys_inv (SchedSystem s C) → C !! id = Some c → cl_wait c = None → kind < YVEX_ENGINE_PROGRESS_KIND_COUNT →
  yvex_runtime_private_engine_progress_transition now env s (Some (cl_lease c)) kind = (answer, s') →
  turns_in_order s s'.
Proof.
  intros Hsys Ec Hw Hk. destruct (turn_over_end now s C id c Hsys Ec Hw) as (w & w2 & El & Ha & Ht).
  unfold yvex_runtime_private_engine_progress_transition.
  rewrite (proj2 (Z.leb_gt _ _) Hk), El, Ha. cbn [negb].
  match goal with |- context [if es_stopping (_ <| es_summary ::= ?f |>) then _ else _] =>
    apply (turn_over_summary _ _ _ _ _ _ f) in Ht end.
  match type of Ht with turn_over _ _ _ _ ?s2 _ => set (s2' := s2) in *; clearbody s2' end.
  destruct (es_stopping s2').
  - intros E. apply pair_equal_spec in E as [_ <-]. apply no_turn_order.
    match goal with |- context [progress_release_locked (_ <| es_summary ::= ?f |>) _] =>
      apply (turn_over_summary _ _ _ _ _ _ f) in Ht end.
    by eapply turn_over_release_no_turn.
  - apply (turn_over_again_turns now env WAIT_TRANSITION s C id c _ (w2 <| pw_kind := kind |>)); [done|done|].
    by apply turn_over_kind.
Qed.

Lemma leave_turns now env s C id c status answer s' :
  sys_inv (SchedSystem s C) → C !! id = Some c → cl_wait c = None →
  yvex_runtime_execution_leave now env s (Some (cl_lease c)) status = (answer, s') → turns_in_order s s'.
Proof.
  intros Hsys Ec Hw. destruct (turn_over_end now s C id c Hsys Ec Hw) as (w & w2 & El & Ha & Ht).
  unfold yvex_runtime_execution_leave. rewrite El, Ha.
  set (s1 := progress_active_remove_locked _ _) in *. clearbody s1.
  intros E. apply pair_equal_spec in E as [_ <-].
  match goal with |- context [progress_release_locked ?s2 _] => assert (turn_over s C id c s2 w2) as Ht2 end.
  { destruct (_ && _); [by apply turn_over_summary|]. destruct (bool_decide _); [by apply turn_over_summary|done]. }
  destruct (turn_over_release _ _ _ _ _ _ Hsys Ec Ht2) as (H3 & _).
  apply grant_turns; [exact H3|]. by eapply turn_over_release_no_turn.
Qed.

(** The close gives no turn: nothing waits after it. *)
Lemma close_turns s : progress_inv s → turns_in_order s (coordinator_close_begin s).
Proof.
  intros H i j w v _ _ _ Ev Hv.
  assert (progress_inv (s <| es_stopping := true |>)) as H1 by (destruct H; by split).
  destruct (close_begin_spec (s <| es_stopping := true |>) (length (es_progress s)) H1 ltac:(done)) as (_ & G & Hq).
  unfold coordinator_close_begin in Ev. change (es_progress (s <| es_stopping := true |>)) with (es_progress s) in *.
  rewrite (Hq j v) in Hv; [done| |exact Ev].
  pose proof (Forall2_length _ _ _ (proj1 G)) as Hl. cbn in Hl. rewrite Hl. by eapply lookup_lt_Some.
Qed.

(** Whatever section runs, the turns it gives are in order. *)
Lemma sched_step_turns σ σ' : sys_inv σ → sched_step σ σ' → turns_in_order (sy_scheduler σ) (sy_scheduler σ').
Proof.
  intros Hsys Hstep. destruct Hstep as [id now env s C g h kind lease answer s' Ec Hk E|
    id env s C lease g h wait answer s' Ec E|id now env s C lease g h answer s' Ec E|
    id now env s C lease g h kind answer s' Ec Hk E|id now env s C lease g h status answer s' Ec E|s C Hst];
    cbn [sy_scheduler]; pose proof (si_progress _ Hsys) as H; cbn [sy_scheduler] in H.
  - destruct (enter_slot _ _ _ _ _ _ _ _ _ H E) as (i & w & s1 & w1 & Ew & _ & _ & H1 & _ & Ep1 & Hu1 & Hq1 & Ha1 & _ & _ & Es).
    apply (enqueue_settle_turns now env WAIT_ENTER s s1 i w1 answer); [done| |
      |done..].
    + by eapply no_turn_insert.
    + rewrite Ep1. apply list_lookup_insert_eq. by eapply lookup_lt_Some.
  - unfold progress_wake in E. eapply settle_turns; [|apply grant_turns; [exact H|by intros ? ?]|exact E].
    by apply grant_locked_spec.
  - exact (yield_turns now env s C id _ answer s' Hsys Ec eq_refl E).
  - exact (transition_turns now env s C id _ kind answer s' Hsys Ec eq_refl (proj2 Hk) E).
  - exact (leave_turns now env s C id _ status answer s' Hsys Ec eq_refl E).
  - by apply close_turns.
Qed.

(** ** What no section changes *)

Definition es_sealed (s : runtime_engine_scheduler) : Z * bool := (es_progress_active_limit s, es_stopping s).

Ltac limit_cases := repeat (case_match; simplify_eq; try done).

Lemma sealed_summary f s : es_sealed (s <| es_summary ::= f |>) = es_sealed s.
Proof. done. Qed.

Lemma sealed_slot i f s : es_sealed (slot_update i f s) = es_sealed s.
Proof. done. Qed.

Lemma sealed_remove s i : es_sealed (progress_active_remove_locked s i) = es_sealed s.
Proof. unfold progress_active_remove_locked. limit_cases. Qed.

Lemma sealed_complete now s i : es_sealed (progress_complete_kind_locked now s i) = es_sealed s.
Proof. unfold progress_complete_kind_locked. limit_cases. Qed.

Lemma sealed_cancel s i : es_sealed (progress_cancel_ready_locked s i) = es_sealed s.
Proof. unfold progress_cancel_ready_locked. limit_cases. Qed.

Lemma sealed_release s i : es_sealed (progress_release_locked s i) = es_sealed s.
Proof.
  unfold progress_release_locked. destruct (es_progress s !! i) as [w|]; [|done]. destruct (negb _); [done|].
  match goal with |- es_sealed (progress_summary_locked (slot_update _ _ ?t <| es_progress_in_use_count ::= _ |>)) = _ =>
    transitivity (es_sealed t); [done|] end.
  rewrite sealed_remove. by destruct (pw_queued w).
Qed.

Lemma sealed_consider p acc k : es_sealed (progress_consider p acc k).2 = es_sealed acc.2.
Proof. destruct acc as [o t]. unfold progress_consider. repeat (case_match; try done). apply sealed_cancel. Qed.

Lemma sealed_next_ready p s : es_sealed (progress_next_ready_locked p s).2 = es_sealed s.
Proof.
  unfold progress_next_ready_locked. change (es_sealed s) with (es_sealed (@None nat, s).2).
  generalize (@None nat, s). generalize (seq 0 (length (es_progress s))).
  intros l. induction l as [|k l IHl]; intros acc; [done|]. cbn [foldl]. by rewrite IHl, sealed_consider.
Qed.

Lemma sealed_activate now s i : es_sealed (progress_activate now s i) = es_sealed s.
Proof. unfold progress_activate. destruct (es_progress s !! i) as [w|]; [|done]. by destruct (negb _ && _). Qed.

Lemma sealed_grant env s : es_sealed (progress_grant_locked env s) = es_sealed s.
Proof.
  unfold progress_grant_locked.
  assert (Hloop : ∀ fuel scan s, es_sealed (progress_grant_loop fuel scan env s) = es_sealed s).
  { clear. intros fuel. induction fuel as [|fuel IH]; intros scan s; [done|]. cbn [progress_grant_loop].
    destruct (_ || _); [done|]. pose proof (sealed_next_ready (se_cancelled env scan) s) as E.
    destruct (progress_next_ready_locked _ s) as [[i|] s1]; [|done]. by rewrite IH, sealed_activate. }
  exact (Hloop _ _ _).
Qed.

Lemma sealed_settle wait s i : es_sealed (progress_settle wait s i).2 = es_sealed s.
Proof.
  unfold progress_settle. destruct (es_progress s !! i); [|done].
  destruct (progress_wait_locked s r) as [[]|]; [|apply sealed_release|done]. by destruct wait.
Qed.

Lemma sealed_enqueue now env s i : es_sealed (progress_enqueue_locked now env s i) = es_sealed s.
Proof. unfold progress_enqueue_locked. by rewrite sealed_grant. Qed.

Lemma sealed_close s : es_sealed (coordinator_close_begin s) = (es_progress_active_limit s, true).
Proof.
  assert (Hf : ∀ l t, es_sealed (foldl close_slot t l) = es_sealed t).
  { intros l. induction l as [|k l IH]; intros t; [done|]. cbn [foldl]. rewrite IH. unfold close_slot.
    repeat (case_match; try done). apply sealed_cancel. }
  exact (Hf _ _).
Qed.

Ltac sealed := repeat first [rewrite sealed_summary | rewrite sealed_slot | rewrite sealed_grant
  | rewrite sealed_release | rewrite sealed_remove | rewrite sealed_complete | rewrite sealed_enqueue]; try done.

Lemma sealed_step σ σ' : sched_step σ σ' →
  es_sealed (sy_scheduler σ') = es_sealed (sy_scheduler σ) ∨
  es_sealed (sy_scheduler σ') = (es_progress_active_limit (sy_scheduler σ), true).
Proof.
  assert (Hsettle : ∀ wait s i answer s', progress_settle wait s i = (answer, s') → es_sealed s' = es_sealed s).
  { intros wait s i answer s' E. rewrite <- (sealed_settle wait s i). by rewrite E. }
  intros [id now env s C g h kind lease answer s' _ _ E|id env s C lease g h wait answer s' _ E|
    id now env s C lease g h answer s' _ E|id now env s C lease g h kind answer s' _ _ E|
    id now env s C lease g h status answer s' _ E|s C _]; cbn [sy_scheduler]; [left..|right].
  - unfold yvex_runtime_execution_enter in E. repeat (case_match; try done). simplify_eq.
    match goal with H : progress_settle _ _ _ = _ |- _ => rewrite (Hsettle _ _ _ _ _ H) end. by rewrite sealed_enqueue.
  - unfold progress_wake in E. rewrite (Hsettle _ _ _ _ _ E). by rewrite sealed_grant.
  - unfold yvex_runtime_execution_yield_resume in E. destruct (progress_slot_locked _ _) as [[i w]|]; [|by simplify_eq].
    destruct (negb _); [by simplify_eq|]. destruct (es_stopping _).
    + apply pair_equal_spec in E as [_ <-]. sealed.
    + rewrite (Hsettle _ _ _ _ _ E). sealed.
  - unfold yvex_runtime_private_engine_progress_transition in E. destruct (_ <=? kind); [by simplify_eq|].
    destruct (progress_slot_locked _ _) as [[i w]|]; [|by simplify_eq].
    destruct (negb _); [by simplify_eq|]. destruct (es_stopping _).
    + apply pair_equal_spec in E as [_ <-]. sealed.
    + rewrite (Hsettle _ _ _ _ _ E). sealed.
  - unfold yvex_runtime_execution_leave in E. destruct (progress_slot_locked _ _) as [[i w]|]; [|by simplify_eq].
    apply pair_equal_spec in E as [_ <-]. sealed. destruct (pw_active w); repeat case_match; sealed.
  - apply sealed_close.
Qed.

Lemma reachable_inv capacity width σ :
  is_u64 capacity → is_u64 width → sched_reachable capacity width σ →
  sys_inv σ ∧ es_progress_active_limit (sy_scheduler σ) = width.
Proof.
  intros Hc Hw H. induction H as [a b c s E|σ σ' _ [Hsys Hl] Hstep].
  - destruct (progress_open_inv _ _ _ _ _ _ Hc Hw E) as (Hi & Hl & Hst & Hz). split; [|done]. apply sys_inv_of.
    + split; [done| |cbn; congruence]. right. right. intros i w Ew Hq. by rewrite (Hz i w Ew) in Hq.
    + split; [done|done|]. intros i w Ew Hu. by rewrite (Hz i w Ew) in Hu.
  - split; [by eapply sched_step_inv|]. destruct (sealed_step _ _ Hstep) as [E|E]; injection E as E _; congruence.
Qed.

(** ** Counting clients *)

(** The slots that satisfy [p]. *)
Definition slots_where (p : runtime_engine_progress_work → bool) (l : list runtime_engine_progress_work) : list nat :=
  List.filter (λ i, match l !! i with Some w => p w | None => false end) (seq 0 (length l)).

Lemma slots_where_spec p l i : i ∈ slots_where p l ↔ ∃ w, l !! i = Some w ∧ p w = true.
Proof.
  unfold slots_where. rewrite list_elem_of_In, List.filter_In, in_seq. split.
  - intros [_ H]. destruct (l !! i) as [w|]; [|done]. by exists w.
  - intros (w & Ew & Hp). rewrite Ew. pose proof (lookup_lt_Some _ _ _ Ew). split; [lia|done].
Qed.

Lemma tally_slots p l : tally p l = Z.of_nat (length (slots_where p l)).
Proof.
  induction l as [|w l IH] using rev_ind; [done|]. unfold tally, slots_where in *.
  rewrite fmap_app, total_app, IH, length_app. cbn [length].
  rewrite Nat.add_1_r, seq_S, List.filter_app, length_app.
  cbn [List.filter Nat.add]. rewrite lookup_app_r, Nat.sub_diag by done. cbn [lookup list_lookup].
  rewrite (List.filter_ext_in (λ i, match (l ++ [w]) !! i with Some w => p w | None => false end)
             (λ i, match l !! i with Some w => p w | None => false end) (seq 0 (length l))).
  - cbn [fmap list_fmap total foldr]. destruct (p w); cbn [Z.b2z length]; lia.
  - intros i Hi. apply in_seq in Hi. by rewrite lookup_app_l by lia.
Qed.

Lemma slots_where_NoDup p l : NoDup (slots_where p l).
Proof. apply NoDup_ListNoDup, List.NoDup_filter, seq_NoDup. Qed.

(** The slots of the clients that satisfy [q]. *)
Definition client_slots (q : sched_client → bool) (C : gmap nat sched_client) : list nat :=
  (λ x : nat * sched_client, client_slot x.2) <$> map_to_list (filter (λ x : nat * sched_client, q x.2 = true) C).

Lemma client_slots_spec q C i : i ∈ client_slots q C ↔ ∃ id c, C !! id = Some c ∧ q c = true ∧ client_slot c = i.
Proof.
  unfold client_slots. rewrite list_elem_of_fmap. split.
  - intros ([id c] & -> & Hin). apply elem_of_map_to_list, map_lookup_filter_Some in Hin as [Ec Hq]. by exists id, c.
  - intros (id & c & Ec & Hq & <-). exists (id, c). split; [done|]. by apply elem_of_map_to_list, map_lookup_filter_Some.
Qed.

Lemma client_slots_NoDup q l C : clients_ok l C → NoDup (client_slots q C).
Proof.
  intros H. apply NoDup_fmap_2_strong; [|apply NoDup_map_to_list].
  intros [id c] [id' c'] Hin Hin' Es. cbn in Es.
  apply elem_of_map_to_list, map_lookup_filter_Some in Hin as [Ec _].
  apply elem_of_map_to_list, map_lookup_filter_Some in Hin' as [Ec' _].
  pose proof (cs_distinct _ _ H _ _ _ _ Ec Ec' Es). by simplify_eq.
Qed.

Lemma client_slots_size q C : length (client_slots q C) = size (filter (λ x : nat * sched_client, q x.2 = true) C).
Proof. unfold client_slots. by rewrite length_fmap, length_map_to_list. Qed.

(** The clients that satisfy [q] are at most as many as the slots that satisfy [p]. *)
Lemma clients_tally l C (q : sched_client → bool) p :
  clients_ok l C → (∀ id c w, C !! id = Some c → q c = true → l !! client_slot c = Some w → p w = true) →
  Z.of_nat (size (filter (λ x : nat * sched_client, q x.2 = true) C)) ≤ tally p l.
Proof.
  intros H Hq. rewrite tally_slots, <- client_slots_size. apply Nat2Z.inj_le, submseteq_length, NoDup_submseteq.
  { by eapply client_slots_NoDup. }
  intros i (id & c & Ec & Hqc & <-)%client_slots_spec. destruct (cs_client _ _ H _ _ Ec) as (w & Ew & _).
  apply slots_where_spec. exists w. split; [done|]. by eapply Hq.
Qed.

Lemma clients_in_use l C : clients_ok l C → tally pw_in_use l = Z.of_nat (size C).
Proof.
  intros H. rewrite tally_slots.
  assert (size C = length (client_slots (λ _, true) C)) as ->.
  { rewrite client_slots_size. f_equal. symmetry. by apply map_filter_id. }
  f_equal. apply Permutation_length, NoDup_Permutation; [apply slots_where_NoDup|by eapply client_slots_NoDup|].
  intros i. rewrite slots_where_spec, client_slots_spec. split.
  - intros (w & Ew & Hu). destruct (cs_owned _ _ H i w Ew Hu) as (id & c & Ec & Es). by exists id, c.
  - intros (id & c & Ec & _ & <-). destruct (cs_client _ _ H _ _ Ec) as (w & Ew & Hw). exists w. split; [done|]. apply Hw.
Qed.

Definition holds (c : sched_client) : bool := match cl_wait c with None => true | Some _ => false end.

(** * Properties *)

(** C26: in every state that any interleaving of enters, wake-ups, yields, transitions, leaves and the
    close reaches, at most [width] clients hold a lease, two of them never run the same sequence of the
    same engine generation, every lease that was given still names its own slot, and a slot is in use
    exactly when it has a client. *)
Theorem scheduler_leases_exclusive capacity width σ :
  is_u64 capacity → is_u64 width → sched_reachable capacity width σ →
  Z.of_nat (size (filter (λ x : nat * sched_client, holds x.2 = true) (sy_clients σ))) ≤ width ∧
  (∀ id id' c c', sy_clients σ !! id = Some c → sy_clients σ !! id' = Some c' → id ≠ id' →
     holds c = true → holds c' = true →
     ¬ (cl_engine_generation c = cl_engine_generation c' ∧ cl_sequence_handle c = cl_sequence_handle c')) ∧
  (∀ id c, sy_clients σ !! id = Some c → ∃ w,
     progress_slot_locked (sy_scheduler σ) (Some (cl_lease c)) = Some (client_slot c, w) ∧
     (holds c = true → pw_active w = true)) ∧
  es_progress_in_use_count (sy_scheduler σ) = Z.of_nat (size (sy_clients σ)).
Proof.
  intros Hcap Hwidth Hr. destruct (reachable_inv _ _ _ Hcap Hwidth Hr) as [[H Hc Hb Hd] Hl].
  destruct σ as [s C]. cbn in *.
  assert (Hholds : ∀ id c w, C !! id = Some c → holds c = true → es_progress s !! client_slot c = Some w → pw_active w = true).
  { intros id c w Ec Hh Ew. destruct (cs_client _ _ Hc _ _ Ec) as (w' & Ew' & Hw). simplify_eq.
    apply (cw_holds _ _ Hw). unfold holds in Hh. by destruct (cl_wait c). }
  split; [|split; [|split]].
  - rewrite <- Hl. etransitivity; [by apply (clients_tally _ _ _ pw_active Hc Hholds)|].
    rewrite <- (pi_active _ H). apply H.
  - intros id id' c c' Ec Ec' Hne Hh Hh' [Hg Hs].
    destruct (cs_client _ _ Hc _ _ Ec) as (w & Ew & Hw). destruct (cs_client _ _ Hc _ _ Ec') as (w' & Ew' & Hw').
    apply (pi_exclusive _ H _ _ Ew (Hholds id c w Ec Hh Ew)). exists (client_slot c'), w', w.
    split; [|split; [done|split; [done|split; [exact (Hholds id' c' w' Ec' Hh' Ew')|]]]].
    + intros E. apply Hne. by apply (cs_distinct _ _ Hc id id' c c').
    + destruct Hw, Hw'. split; congruence.
  - intros id c Ec. destruct (slot_locked_client s C id c Hc Ec) as (w & El & Ew & Hw).
    exists w. split; [done|]. intros Hh. exact (Hholds id c w Ec Hh Ew).
  - rewrite (pi_in_use _ H). by apply clients_in_use.
Qed.

(** A work that does not wait is not touched by granting. *)
Lemma grants_settled s s' i w :
  grants s s' → es_progress s !! i = Some w → pw_queued w = false → es_progress s' !! i = Some w.
Proof.
  intros G Ew Hq. destruct (grants_lookup _ _ _ _ G Ew) as (w' & Ew' & Hev). destruct Hev; [done|congruence..].
Qed.

Lemma wake_answer wait env s i w :
  progress_inv s → es_progress s !! i = Some w → pw_queued w = false →
  (pw_active w = true → (progress_wake wait env s i).1 = Some (Done tt)) ∧
  (pw_active w = false → ∃ st why, (progress_wake wait env s i).1 = Some (Refused st why)).
Proof.
  intros H Ew Hq. destruct (grant_locked_spec env s H) as (_ & G & _).
  pose proof (grants_settled _ _ _ _ G Ew Hq) as Ew'. unfold progress_wake, progress_settle. rewrite Ew'.
  unfold progress_wait_locked. rewrite Hq. cbn [andb]. split; intros ->; [done|].
  case_bool_decide; by eexists _, _.
Qed.

(** C27: turns are neither withheld nor given out of order. From every reachable state, whatever section
    runs next (an enter, a wake-up, a yield, a transition, a leave or the close): if a work runs after it
    that did not run like this before it, then every work that still waits with a smaller submission
    ordinal waits for its own sequence, which another slot runs. And in every reachable state a waiting
    client is in one of three positions: its turn is given, and its next wake-up returns it; it was
    refused, and its next wake-up says so; or it still waits, the scheduler is not stopping, and either
    all [width] places are taken or another client runs the same sequence. *)
Theorem scheduler_turns_fair capacity width σ :
  is_u64 capacity → is_u64 width → sched_reachable capacity width σ →
  (∀ σ', sched_step σ σ' → turns_in_order (sy_scheduler σ) (sy_scheduler σ')) ∧
  ∀ id c wait, sy_clients σ !! id = Some c → cl_wait c = Some wait →
  ∃ w, es_progress (sy_scheduler σ) !! client_slot c = Some w ∧
    ((pw_active w = true ∧ ∀ env, (progress_wake wait env (sy_scheduler σ) (client_slot c)).1 = Some (Done tt)) ∨
     (pw_queued w = false ∧
      ∀ env, ∃ st why, (progress_wake wait env (sy_scheduler σ) (client_slot c)).1 = Some (Refused st why)) ∨
     (pw_queued w = true ∧ es_stopping (sy_scheduler σ) = false ∧
      (es_progress_active_count (sy_scheduler σ) = width ∨
       ∃ id' c' w', id' ≠ id ∧ sy_clients σ !! id' = Some c' ∧
         cl_engine_generation c' = cl_engine_generation c ∧ cl_sequence_handle c' = cl_sequence_handle c ∧
         es_progress (sy_scheduler σ) !! client_slot c' = Some w' ∧ pw_active w' = true))).
Proof.
  intros Hcap Hwidth Hr. destruct (reachable_inv _ _ _ Hcap Hwidth Hr) as [Hsys Hl].
  split; [intros σ'; by apply sched_step_turns|].
  destruct Hsys as [H Hc Hb Hd]. destruct σ as [s C]. cbn in *.
  intros id c wait Ec Hw. destruct (cs_client _ _ Hc _ _ Ec) as (w & Ew & Hcw). exists w. split; [done|].
  destruct (pw_queued w) eqn:Hq.
  - right. right. assert (es_stopping s = false) as Hst.
    { destruct (es_stopping s) eqn:Est; [|done]. by rewrite (Hd eq_refl _ _ Ew) in Hq. }
    split; [done|]. split; [done|]. destruct Hb as [Hb|[Hb|Hb]]; [congruence|left; congruence|right].
    destruct (Hb _ _ Ew Hq) as (j & a & w' & Hne & Ew' & Ea & Hact & [Hg Hs]). simplify_eq.
    destruct (cs_owned _ _ Hc j a Ea (so_active _ (inv_slot_ok _ _ _ H Ea) Hact)) as (id' & c' & Ec' & Es').
    destruct (cs_client _ _ Hc _ _ Ec') as (a' & Ea' & Hca). rewrite Es' in Ea'. simplify_eq.
    exists id', c', a. split; [congruence|]. destruct Hcw, Hca. repeat split; congruence.
  - destruct (pw_active w) eqn:Ha; [left|right; left]; (split; [done|]); intros env;
      destruct (wake_answer wait env s _ w H Ew Hq) as [H1 H2]; auto.
Qed.

(** ** Closing *)

(** A waiting client has two sections to come, one that holds its lease one. *)
Definition client_weight (c : sched_client) : nat := if holds c then 1 else 2.

Definition sections_left (C : gmap nat sched_client) : nat := map_fold (λ _ c n, client_weight c + n)%nat 0%nat C.

Lemma sections_left_delete C id c :
  C !! id = Some c → sections_left C = (client_weight c + sections_left (delete id C))%nat.
Proof.
  intros Ec. unfold sections_left.
  apply (map_fold_delete_L (λ _ c n, client_weight c + n)%nat 0%nat id c C); [lia|done].
Qed.

Lemma sections_left_insert C id c :
  sections_left (<[id := c]> C) = (client_weight c + sections_left (delete id C))%nat.
Proof.
  rewrite <- insert_delete_eq. rewrite (sections_left_delete _ id c) by apply lookup_insert_eq.
  by rewrite delete_insert_id by apply lookup_delete_eq.
Qed.

Lemma sections_left_gone id c C : C !! id = Some c → (sections_left (delete id C) < sections_left C)%nat.
Proof. intros Ec. rewrite (sections_left_delete C id c Ec). unfold client_weight. destruct (holds c); lia. Qed.

(** A section of a scheduler that stops. *)
Lemma stopping_step σ σ' :
  sys_inv σ → es_stopping (sy_scheduler σ) = true → sched_step σ σ' →
  (sections_left (sy_clients σ') < sections_left (sy_clients σ))%nat.
Proof.
  intros Hsys Hst Hstep. destruct Hstep as [id now env s C g h kind lease answer s' Ec Hk E|
    id env s C lease g h wait answer s' Ec E|id now env s C lease g h answer s' Ec E|
    id now env s C lease g h kind answer s' Ec Hk E|id now env s C lease g h status answer s' Ec E|s C Hst'];
    cbn [sy_scheduler sy_clients] in *.
  - unfold yvex_runtime_execution_enter in E. rewrite Hst in E. by destruct (_ || _).
  - destruct Hsys as [H Hc Hb Hd]. cbn in *. destruct (cs_client _ _ Hc _ _ Ec) as (w & Ew & Hw).
    pose proof (Hd Hst _ _ Ew) as Hq. destruct (wake_answer wait env s _ w H Ew Hq) as [H1 H2].
    unfold client_slot in H1, H2. cbn [cl_lease] in H1, H2. rewrite E in H1, H2. cbn [fst] in H1, H2.
    destruct (pw_active w).
    + rewrite (H1 eq_refl). cbn [client_answer].
      rewrite sections_left_insert, (sections_left_delete C id _ Ec). cbn. lia.
    + destruct (H2 eq_refl) as (st & why & ->). by apply (sections_left_gone id _ C Ec).
  - destruct (turn_over_end now s C id _ Hsys Ec eq_refl) as (w & w2 & El & Ha & Ht). cbn [cl_lease client_slot] in *.
    unfold yvex_runtime_execution_yield_resume in E. rewrite El, Ha in E. cbn [negb] in E.
    match type of E with context [if es_stopping ?t then _ else _] => assert (es_stopping t = true) as Et end.
    { by rewrite <- Hst, <- (to_stopping _ _ _ _ _ _ Ht). }
    rewrite Et in E. apply pair_equal_spec in E as [<- _]. by apply (sections_left_gone id _ C Ec).
  - destruct (turn_over_end now s C id _ Hsys Ec eq_refl) as (w & w2 & El & Ha & Ht). cbn [cl_lease client_slot] in *.
    unfold yvex_runtime_private_engine_progress_transition in E.
    rewrite (proj2 (Z.leb_gt _ _) (proj2 Hk)), El, Ha in E. cbn [negb] in E.
    match type of E with context [if es_stopping ?t then _ else _] => assert (es_stopping t = true) as Et end.
    { by rewrite <- Hst, <- (to_stopping _ _ _ _ _ _ Ht). }
    rewrite Et in E. apply pair_equal_spec in E as [<- _]. by apply (sections_left_gone id _ C Ec).
  - by apply (sections_left_gone id _ C Ec).
  - congruence.
Qed.

(** C29: once the close has begun no client is admitted, every section that still runs brings a client
    nearer to its end, while there are clients one of them can take a step, and the wait of the close
    ends exactly when there are none: closing terminates after at most two sections for every client. *)
Theorem scheduler_close_terminates capacity width σ :
  is_u64 capacity → is_u64 width → sched_reachable capacity width σ → es_stopping (sy_scheduler σ) = true →
  (∀ σ', sched_step σ σ' →
     (sections_left (sy_clients σ') < sections_left (sy_clients σ))%nat ∧ es_stopping (sy_scheduler σ') = true) ∧
  (sy_clients σ ≠ ∅ → ∃ σ', sched_step σ σ') ∧
  (coordinator_close_ready (sy_scheduler σ) = true ↔ sy_clients σ = ∅).
Proof.
  intros Hcap Hwidth Hr Hst. destruct (reachable_inv _ _ _ Hcap Hwidth Hr) as [Hsys Hl].
  pose proof Hsys as [H Hc Hb Hd]. destruct σ as [s C]. cbn in *. split; [|split].
  - intros σ' Hstep. split; [exact (stopping_step _ _ Hsys Hst Hstep)|].
    destruct (sealed_step _ _ Hstep) as [E|E]; injection E as _ E; congruence.
  - intros Hne. apply map_choose in Hne as (id & c & Ec). destruct c as [lease g h [wait|]].
    + eexists. by eapply (step_wake id (SectionEnv (λ _ _, false) (λ _, 0))); [exact Ec|apply surjective_pairing].
    + eexists. by eapply (step_leave id 0 (SectionEnv (λ _ _, false) (λ _, 0)) s C lease g h YVEX_OK); [exact Ec|apply surjective_pairing].
  - unfold coordinator_close_ready. rewrite Z.eqb_eq, (pi_in_use _ H), (clients_in_use _ _ Hc), <- map_size_empty_iff. lia.
Qed.

(** ** A run *)

(** The section of an enter, as a function. *)
Definition sample_enter (id : nat) (generation handle : Z) (σ : sched_system) : sched_system :=
  match yvex_runtime_execution_enter 1 (SectionEnv (λ _ _, false) (λ _, 2)) (sy_scheduler σ) generation handle 1 with
  | Done (lease, answer, s) => SchedSystem s (client_answer id lease generation handle WAIT_ENTER answer (sy_clients σ))
  | Refused _ _ => σ
  end.

Definition sample_open : sched_system :=
  match yvex_runtime_execution_coordinator_open 4 2 true true true with
  | Done s => SchedSystem s ∅
  | Refused _ _ => SchedSystem (EngineScheduler [] 0 0 0 [] 0 0 0 0 0 0 summary_zero false false) ∅
  end.

(** Two sequences run; a second work of the first and a third sequence wait. *)
Definition sample_run : sched_system :=
  sample_enter 4 7 3 (sample_enter 3 7 1 (sample_enter 2 7 2 (sample_enter 1 7 1 sample_open))).

Lemma sample_enter_step id g h σ :
  sy_clients σ !! id = None →
  (match yvex_runtime_execution_enter 1 (SectionEnv (λ _ _, false) (λ _, 2)) (sy_scheduler σ) g h 1 with
   | Done _ => true | Refused _ _ => false end) = true →
  sched_step σ (sample_enter id g h σ).
Proof.
  intros Hid. unfold sample_enter. destruct (yvex_runtime_execution_enter _ _ _ _ _ _) as [[[lease answer] s]|] eqn:E; [|done].
  intros _. destruct σ as [s0 C].
  apply (step_enter id 1 (SectionEnv (λ _ _, false) (λ _, 2)) s0 C g h 1 lease answer s Hid); [lia|exact E].
Qed.

Lemma sample_run_reachable : sched_reachable 4 2 sample_run.
Proof.
  repeat (eapply reach_step; [|apply sample_enter_step; vm_compute; reflexivity]).
  by apply (reach_open 4 2 true true true).
Qed.

Lemma scheduler_leases_exclusive_witness :
  (holds <$> sy_clients sample_run !! 1%nat) = Some true ∧ (holds <$> sy_clients sample_run !! 2%nat) = Some true ∧
  Z.of_nat (size (filter (λ x : nat * sched_client, holds x.2 = true) (sy_clients sample_run))) ≤ 2.
Proof.
  split; [vm_compute; reflexivity|]. split; [vm_compute; reflexivity|].
  refine (proj1 (scheduler_leases_exclusive 4 2 sample_run _ _ sample_run_reachable)); ulia.
Defined.

(** The second sequence ends: its place goes to the third one, past the older work of the first. *)
Definition sample_left : sched_system :=
  match sy_clients sample_run !! 2%nat with
  | Some c => SchedSystem (yvex_runtime_execution_leave 3 (SectionEnv (λ _ _, false) (λ _, 4)) (sy_scheduler sample_run)
                             (Some (cl_lease c)) YVEX_OK).2 (delete 2%nat (sy_clients sample_run))
  | None => sample_run
  end.

Lemma sample_left_step : sched_step sample_run sample_left.
Proof.
  assert (∃ lease g h, sy_clients sample_run !! 2%nat = Some (SchedClient lease g h None)) as (lease & g & h & Ec).
  { vm_compute. by eexists _, _, _. }
  unfold sample_left. rewrite Ec. cbn [cl_lease]. destruct sample_run as [s C]. cbn [sy_scheduler sy_clients] in *.
  eapply step_leave; [exact Ec|apply surjective_pairing].
Qed.

(** What a slot shows of its work. *)
Definition slot_view (σ : sched_system) (i : nat) : option (bool * bool * Z) :=
  (λ w, (pw_active w, pw_queued w, pw_submission_ordinal w)) <$> es_progress (sy_scheduler σ) !! i.

Lemma scheduler_turns_fair_witness :
  slot_view sample_run 3 = Some (false, true, 4) ∧ slot_view sample_left 3 = Some (true, false, 4) ∧
  slot_view sample_left 2 = Some (false, true, 3) ∧ conflicts (es_progress (sy_scheduler sample_left)) 2.
Proof.
  split; [vm_compute; reflexivity|]. split; [vm_compute; reflexivity|]. split; [vm_compute; reflexivity|].
  assert (∃ w v u, es_progress (sy_scheduler sample_left) !! 3%nat = Some w ∧ pw_active w = true ∧
    es_progress (sy_scheduler sample_run) !! 3%nat = Some u ∧ pw_active u = false ∧
    es_progress (sy_scheduler sample_left) !! 2%nat = Some v ∧ pw_queued v = true ∧
    pw_submission_ordinal v < pw_submission_ordinal w) as (w & v & u & Ew & Ha & Eu & Hu & Ev & Hq & Hlt).
  { vm_compute. by repeat eexists. }
  refine (proj1 (scheduler_turns_fair 4 2 sample_run _ _ sample_run_reachable) sample_left sample_left_step 3%nat 2%nat w v
    Ew Ha _ Ev Hq Hlt); [ulia..|congruence].
Defined.

(** The close of that run. *)
Definition sample_closed : sched_system :=
  SchedSystem (coordinator_close_begin (sy_scheduler sample_run)) (sy_clients sample_run).

Lemma sample_closed_reachable : sched_reachable 4 2 sample_closed.
Proof.
  eapply reach_step; [exact sample_run_reachable|]. unfold sample_closed.
  destruct sample_run as [s C] eqn:E. apply step_close.
  change s with (sy_scheduler (SchedSystem s C)). rewrite <- E. vm_compute. reflexivity.
Qed.

Lemma scheduler_close_terminates_witness :
  es_stopping (sy_scheduler sample_closed) = true ∧ sections_left (sy_clients sample_closed) = 6%nat ∧
  ((sy_clients sample_closed ≠ ∅ → ∃ σ', sched_step sample_closed σ') ∧
   (coordinator_close_ready (sy_scheduler sample_closed) = true ↔ sy_clients sample_closed = ∅)).
Proof.
  assert (es_stopping (sy_scheduler sample_closed) = true) as Hst by (vm_compute; reflexivity).
  split; [exact Hst|]. split; [vm_compute; reflexivity|].
  refine (proj2 (scheduler_close_terminates 4 2 sample_closed _ _ sample_closed_reachable Hst)); ulia.
Defined.
