(* ===== verification/SchedulerBatch.v ===== *)
(** The other half of the engine scheduler of [src/runtime/scheduler.c]: submitted work waits in a queue
    until the worker forms a physical batch of works with one compatibility key, within the admitted
    width, executes it and completes every work of it.

    A work item is an object of its submitter, so the queue holds addresses and the objects are a store,
    [gmap Z runtime_engine_work]. The cancellation callbacks, which are asked under the mutex, and the
    execution itself, which runs outside it, are answers to the operations. *)

From S2P Require Import Prelude Status ExecutionBatch Worklist WorklistObservation Scheduler.
#[local] Open Scope Z_scope.

(** * Data *)

(** src/src/runtime/private.h:131-134, [runtime_engine_work_kind] *)
Inductive runtime_engine_work_kind : Type := RUNTIME_ENGINE_WORK_PHYSICAL | RUNTIME_ENGINE_WORK_RENDEZVOUS.

#[export] Instance work_kind_eq_dec : EqDecision runtime_engine_work_kind.
Proof. solve_decision. Defined.

(** src/src/runtime/private.h, [runtime_engine_work]
    The callback that executes the work is an address, [None] when it is null. *)
Record runtime_engine_work := EngineWork {
  ew_key : yvex_execution_compatibility_key;
  ew_row_count : Z;
  ew_actual_width : Z;
  ew_group_size : Z;
  ew_coalescing_limit_ns : Z;
  ew_execute : option Z;
  ew_failure : yvex_error;
  ew_worklists : yvex_expert_worklist_observation;
  ew_kind : runtime_engine_work_kind;
  ew_status : yvex_status;
  ew_done : bool;
}.

#[export] Instance engine_work_eta : Eta runtime_engine_work := λ w,
  EngineWork (ew_key w) (ew_row_count w) (ew_actual_width w) (ew_group_size w) (ew_coalescing_limit_ns w)
    (ew_execute w) (ew_failure w) (ew_worklists w) (ew_kind w) (ew_status w) (ew_done w).

(** The work items by address. *)
Abbreviation work_store := (gmap Z runtime_engine_work).

(** The same update of every work of a list. *)
Definition update_all (f : runtime_engine_work → runtime_engine_work) (l : list Z) (store : work_store) : work_store :=
  foldl (λ store address, alter f address store) store l.

(** An update of the summary. *)
Definition observe (f : yvex_engine_scheduler_summary → yvex_engine_scheduler_summary)
    (s : runtime_engine_scheduler) : runtime_engine_scheduler := s <| es_summary ::= f |>.

(** A counter that is incremented without a check. *)
Definition increment (n : Z) : Z := u64 (n + 1).

(** * Coalescing *)

(** One candidate: the works counted and the rows they take.
    src/src/runtime/scheduler.c:283-290, [scheduler_compatible_count_locked] *)
Definition compatible_count_step (store : work_store) (first : runtime_engine_work) (acc : Z * Z) (address : Z)
    : Z * Z :=
  let '(count, rows) := acc in
  match store !! address with
  | Some candidate =>
      if negb (yvex_execution_compatibility_keys_match (Some (ew_key first)) (Some (ew_key candidate)))
         || (u64 (ck_admitted_width (ew_key first) - rows) <? ew_row_count candidate)
      then (count, rows)
      else (u64 (count + 1), u64 (rows + ew_row_count candidate))
  | None => (count, rows)
  end.

(** src/src/runtime/scheduler.c, [scheduler_compatible_count_locked] *)
Definition scheduler_compatible_count_locked (s : runtime_engine_scheduler) (store : work_store) : Z :=
  match head (es_queue s) ≫= λ address, store !! address with
  | None => 0
  | Some first => (foldl (compatible_count_step store first) (0, 0) (es_queue s)).1
  end.

(** The used prefix of the queue array as its count. *)
Definition queue_count (s : runtime_engine_scheduler) : Z := Z.of_nat (length (es_queue s)).

(** src/src/runtime/scheduler.c, [scheduler_possible_compatible_count_locked] *)
Definition scheduler_possible_compatible_count_locked (s : runtime_engine_scheduler) (store : work_store)
    (expected : Z) : Z :=
  let compatible := scheduler_compatible_count_locked s store in
  let potential_producers := if expected <? es_producer_count s then es_producer_count s else expected in
  let available := if queue_count s <? potential_producers then potential_producers - queue_count s else 0 in
  if ULLONG_MAX - available <? compatible then ULLONG_MAX else compatible + available.

(** How many compatible works the worker hopes for.
    src/src/runtime/scheduler.c:318-320, [scheduler_coalesce_locked] *)
Definition coalesce_expected (s : runtime_engine_scheduler) : Z :=
  if es_producer_arrival_floor s <? es_producer_count s then es_producer_count s else es_producer_arrival_floor s.

(** Whether the worker waits for more work, and for how many nanoseconds at most.
    src/src/runtime/scheduler.c:311-344, [scheduler_coalesce_locked] *)
Definition scheduler_coalesce_begin (clock_ok : bool) (s : runtime_engine_scheduler) (store : work_store)
    : option (Z * Z) * runtime_engine_scheduler :=
  if (queue_count s =? 0) || es_stopping s then (None, s)
  else
    let expected := coalesce_expected s in
    if (expected <? 2) || (expected <=? scheduler_compatible_count_locked s store)
       || (scheduler_possible_compatible_count_locked s store expected <? expected)
    then (None, s <| es_producer_arrival_floor := 0 |>)
    else
      let limit := match head (es_queue s) ≫= λ address, store !! address with
                   | Some first => if ew_coalescing_limit_ns first =? 0 then COMPATIBLE_COALESCING_NS
                                   else ew_coalescing_limit_ns first
                   | None => COMPATIBLE_COALESCING_NS
                   end in
      let limit := if (es_producer_count s <? es_producer_arrival_floor s) && (COMPATIBLE_PRODUCER_ARRIVAL_NS <? limit)
                   then COMPATIBLE_PRODUCER_ARRIVAL_NS else limit in
      if negb clock_ok then (None, s <| es_producer_arrival_floor := 0 |>)
      else (Some (expected, limit), observe (λ m, m <| ss_coalescing_waits ::= increment |>) s).

(** The test of the wait, [expected] being what it waits for.
    src/src/runtime/scheduler.c:345-348, [scheduler_coalesce_locked] *)
Definition scheduler_coalesce_more (expected : Z) (timed_out : bool) (s : runtime_engine_scheduler)
    (store : work_store) : bool :=
  negb (es_stopping s) && (scheduler_compatible_count_locked s store <? expected)
  && (expected <=? scheduler_possible_compatible_count_locked s store expected) && negb timed_out.

(** [elapsed] is [None] when the clock failed.
    src/src/runtime/scheduler.c:351-359, [scheduler_coalesce_locked] *)
Definition scheduler_coalesce_end (timed_out : bool) (elapsed : option Z) (s : runtime_engine_scheduler)
    : runtime_engine_scheduler :=
  let s := if timed_out then observe (λ m, m <| ss_coalescing_timeouts ::= increment |>) s else s in
  let s := match elapsed with
           | Some elapsed => observe (λ m, m <| ss_coalescing_ns ::= λ n, scheduler_observation_add n elapsed |>) s
           | None => s
           end in
  s <| es_producer_arrival_floor := 0 |>.

(** * Selection *)

(** src/src/runtime/scheduler.c, [scheduler_remove] *)
Definition scheduler_remove (s : runtime_engine_scheduler) (index : nat) : runtime_engine_scheduler :=
  s <| es_queue ::= delete index |>.

Definition cancelled_error : yvex_error :=
  YvexError YVEX_ERR_CANCELLED "runtime.engine-scheduler" "compatible execution was cancelled before dispatch".

Definition cancel_work (w : runtime_engine_work) : runtime_engine_work :=
  w <| ew_status := YVEX_ERR_CANCELLED |> <| ew_done := true |> <| ew_failure := cancelled_error |>.

(** src/src/runtime/scheduler.c, [scheduler_complete_cancelled] *)
Definition scheduler_complete_cancelled (s : runtime_engine_scheduler) (store : work_store) (index : nat)
    : runtime_engine_scheduler * work_store :=
  match es_queue s !! index with
  | None => (s, store)
  | Some ticket =>
      (observe (λ m, m <| ss_cancellations ::= increment |>) (scheduler_remove s index),
       alter cancel_work ticket store)
  end.

(** src/src/runtime/scheduler.c, [scheduler_keys_match] *)
Definition scheduler_keys_match (s : runtime_engine_scheduler) (left right : yvex_execution_compatibility_key)
    : bool * runtime_engine_scheduler :=
  let s := observe (λ m, m <| ss_compatibility_candidates ::= increment |>) s in
  if yvex_execution_compatibility_keys_match (Some left) (Some right) then (true, s)
  else
    let s := observe (λ m, m <| ss_compatibility_mismatches ::= increment |>) s in
    (false, observe (λ m,
       if negb (ck_phase left =? ck_phase right) then m <| ss_phase_mismatches ::= increment |>
       else if negb (ck_operation left =? ck_operation right) then m <| ss_operation_mismatches ::= increment |>
       else if negb (ck_layer_ordinal left =? ck_layer_ordinal right) then m <| ss_layer_mismatches ::= increment |>
       else if negb (ck_tensor_scope left =? ck_tensor_scope right) || negb (ck_row_width left =? ck_row_width right)
               || negb (ck_admitted_width left =? ck_admitted_width right)
       then m <| ss_geometry_mismatches ::= increment |>
       else if negb (ck_backend_kind left =? ck_backend_kind right)
               || negb (ck_execution_class left =? ck_execution_class right)
       then m <| ss_profile_mismatches ::= increment |>
       else m <| ss_identity_mismatches ::= increment |>) s).

(** The cancelled works at the head of the queue.
    src/src/runtime/scheduler.c:429-430, [scheduler_select_locked] *)
Fixpoint scheduler_drop_cancelled (fuel : nat) (cancelled : Z → bool) (s : runtime_engine_scheduler)
    (store : work_store) : runtime_engine_scheduler * work_store :=
  match fuel, es_queue s with
  | S fuel, address :: _ =>
      if cancelled address then
        let '(s, store) := scheduler_complete_cancelled s store 0 in
        scheduler_drop_cancelled fuel cancelled s store
      else (s, store)
  | _, _ => (s, store)
  end.

(** The rest of the queue from [index] on: every round removes a work or passes it.
    src/src/runtime/scheduler.c:436-450, [scheduler_select_locked] *)
Fixpoint scheduler_select_loop (fuel : nat) (cancelled : Z → bool) (first : runtime_engine_work) (index : nat)
    (selected : list Z) (rows : Z) (s : runtime_engine_scheduler) (store : work_store)
    : list Z * Z * runtime_engine_scheduler * work_store :=
  match fuel, es_queue s !! index with
  | S fuel, Some address =>
      if cancelled address then
        let '(s, store) := scheduler_complete_cancelled s store index in
        scheduler_select_loop fuel cancelled first index selected rows s store
      else match store !! address with
           | None => (selected, rows, s, store)
           | Some candidate =>
               let '(matches, s) := scheduler_keys_match s (ew_key first) (ew_key candidate) in
               if matches && (ew_row_count candidate <=? u64 (ck_admitted_width (ew_key first) - rows)) then
                 scheduler_select_loop fuel cancelled first index (selected ++ [address])
                   (u64 (rows + ew_row_count candidate)) (scheduler_remove s index) store
               else scheduler_select_loop fuel cancelled first (S index) selected rows s store
           end
  | _, _ => (selected, rows, s, store)
  end.

(** The works of the batch, in the order of the queue.
    src/src/runtime/scheduler.c, [scheduler_select_locked] *)
Definition scheduler_select_locked (cancelled : Z → bool) (s : runtime_engine_scheduler) (store : work_store)
    : list Z * runtime_engine_scheduler * work_store :=
  let '(s, store) := scheduler_drop_cancelled (length (es_queue s)) cancelled s store in
  match es_queue s with
  | [] => ([], s, store)
  | address :: rest =>
      match store !! address with
      | None => ([], s, store)
      | Some first =>
          let '(selected, rows, s, store) :=
            scheduler_select_loop (length rest) cancelled first 0 [address] (ew_row_count first)
              (scheduler_remove s 0) store in
          let count := Z.of_nat (length selected) in
          (selected,
           observe (λ m, m <| ss_active := count |>) s,
           update_all (λ w, w <| ew_actual_width := rows |> <| ew_group_size := count |>) selected store)
      end
  end.

(** * Completion *)

(** The counters of a batch of several sources that carries expert worklists.
    src/src/runtime/scheduler.c:483-514, [scheduler_finish_locked] *)
Definition finish_multi_source (count width : Z) (worklists : yvex_expert_worklist_observation)
    (m : yvex_engine_scheduler_summary) : yvex_engine_scheduler_summary :=
  let m := m <| ss_multi_source_batches ::= increment |> <| ss_multi_source_rows ::= λ n, u64 (n + width) |>
             <| ss_maximum_multi_source_width ::= Z.max width |> <| ss_maximum_source_count ::= Z.max count |> in
  if wo_worklist_count worklists =? 0 then m
  else m <| ss_multi_source_worklists ::= λ n, scheduler_observation_add n (wo_worklist_count worklists) |>
         <| ss_multi_source_expert_pairs ::= λ n, scheduler_observation_add n (wo_pair_count worklists) |>
         <| ss_multi_source_matrix_tile_eligible_pairs ::= λ n,
              scheduler_observation_add n (wo_matrix_tile_eligible_pairs worklists) |>
         <| ss_multi_source_matrix_tile_executed_pairs ::= λ n,
              scheduler_observation_add n (wo_matrix_tile_executed_pairs worklists) |>
         <| ss_multi_source_narrow_pairs ::= λ n, scheduler_observation_add n (wo_narrow_pairs worklists) |>
         <| ss_maximum_multi_source_bucket_population ::= Z.max (wo_maximum_bucket_population worklists) |>
         <| ss_multi_source_population_histogram ::= λ cells,
              zip_with scheduler_observation_add cells (wo_population_histogram worklists) |>.

(** [status] is what the execution answered; [failure] its error.
    src/src/runtime/scheduler.c, [scheduler_finish_locked] *)
Definition scheduler_finish_locked (selected : list Z) (status : yvex_status) (failure : yvex_error)
    (s : runtime_engine_scheduler) (store : work_store) : runtime_engine_scheduler * work_store :=
  let count := Z.of_nat (length selected) in
  let leader := head selected ≫= λ address, store !! address in
  let phase := from_option (λ w, ck_phase (ew_key w)) 0 leader in
  let width := from_option ew_actual_width 0 leader in
  let rendezvous := from_option (λ w, bool_decide (ew_kind w = RUNTIME_ENGINE_WORK_RENDEZVOUS)) false leader in
  let s :=
    if rendezvous then
      observe (λ m,
        m <| ss_rendezvous_steps ::= increment |> <| ss_rendezvous_steps_by_phase ::= observation_cell phase 1 |>
          <| ss_multi_source_rendezvous ::= λ n, if 1 <? count then increment n else n |>
          <| ss_maximum_rendezvous_width ::= Z.max width |>) s
    else
      observe (λ m,
        let m := m <| ss_physical_batches ::= increment |> <| ss_executed_rows ::= λ n, u64 (n + width) |>
                   <| ss_physical_batches_by_phase ::= observation_cell phase 1 |>
                   <| ss_executed_rows_by_phase ::= observation_cell phase width |>
                   <| ss_maximum_width ::= Z.max width |> in
        match leader with
        | Some w => if 1 <? count then finish_multi_source count width (ew_worklists w) m else m
        | None => m
        end) s in
  let failed := negb (bool_decide (status = YVEX_OK)) in
  (observe (λ m, m <| ss_failures ::= λ n, if failed then increment n else n |> <| ss_active := 0 |>) s,
   update_all (λ w, (if failed then w <| ew_failure := failure |> else w)
                      <| ew_status := status |> <| ew_done := true |>) selected store).

(** * Callers *)

(** src/src/runtime/scheduler.c, [yvex_runtime_private_engine_scheduler_set_producers] *)
Definition yvex_runtime_private_engine_scheduler_set_producers (s : runtime_engine_scheduler) (producers : Z)
    : outcome runtime_engine_scheduler :=
  if es_queue_capacity s <? producers then Refused YVEX_ERR_INVALID_ARG "bounded producer population is required"
  else
    let s := if (es_producer_count s =? 0) && (producers =? 1) && (2 <=? es_queue_capacity s)
             then s <| es_producer_arrival_floor := 2 |>
             else if producers =? 0 then s <| es_producer_arrival_floor := 0 |> else s in
    Done (observe (λ m, m <| ss_registered_producers := producers |>) (s <| es_producer_count := producers |>)).

(** [thread_ok] is what the creation of the worker answers.
    src/src/runtime/scheduler.c, [yvex_runtime_private_engine_scheduler_start] *)
Definition yvex_runtime_private_engine_scheduler_start (thread_ok : bool) (s : runtime_engine_scheduler)
    : outcome runtime_engine_scheduler :=
  if es_worker_started s || es_stopping s then Refused YVEX_ERR_STATE "engine scheduler cannot start twice"
  else if negb thread_ok then Refused YVEX_ERR_STATE "engine scheduler worker creation failed"
  else Done (s <| es_worker_started := true |>).

(** What a caller may submit.
    src/src/runtime/scheduler.c:685-689, [yvex_runtime_private_engine_scheduler_submit] *)
Definition work_admissible (w : runtime_engine_work) : bool :=
  match ew_execute w with Some _ => true | None => false end && negb (ew_row_count w =? 0)
  && match yvex_execution_compatibility_key_validate (Some (ew_key w)) with Done _ => true | Refused _ _ => false end
  && (ew_row_count w <=? ck_admitted_width (ew_key w)).

(** The section that queues the work; the caller then waits.
    src/src/runtime/scheduler.c:680-716, [yvex_runtime_private_engine_scheduler_submit] *)
Definition scheduler_submit_begin (s : runtime_engine_scheduler) (store : work_store) (address : Z)
    : outcome (runtime_engine_scheduler * work_store) :=
  match store !! address with
  | None => Refused YVEX_ERR_INVALID_ARG "one admitted executable work item is required"
  | Some ticket =>
      if negb (work_admissible ticket) then
        Refused YVEX_ERR_INVALID_ARG "one admitted executable work item is required"
      else if es_stopping s || (queue_count s =? es_queue_capacity s) then
        if queue_count s =? es_queue_capacity s then Refused YVEX_ERR_BOUNDS "engine scheduler queue is full"
        else Refused YVEX_ERR_STATE "engine scheduler is stopping"
      else
        let s := s <| es_queue ::= λ q, q ++ [address] |> in
        Done (observe (λ m,
                let m := m <| ss_submissions_by_phase ::= observation_cell (ck_phase (ew_key ticket)) 1 |> in
                let m := match ew_kind ticket with
                         | RUNTIME_ENGINE_WORK_RENDEZVOUS => m <| ss_rendezvous_submissions ::= increment |>
                         | RUNTIME_ENGINE_WORK_PHYSICAL =>
                             m <| ss_submissions ::= increment |>
                               <| ss_submitted_rows ::= λ n, u64 (n + ew_row_count ticket) |>
                         end in
                m <| ss_queued := queue_count s |>) s,
              <[address := ticket <| ew_actual_width := 0 |> <| ew_group_size := 0 |> <| ew_status := YVEX_OK |>
                  <| ew_done := false |> <| ew_failure := YvexError YVEX_OK "" "" |>]> store)
  end.

(** The test of the caller's wait and its answer: [None] is to wait on.
    src/src/runtime/scheduler.c:717-731, [yvex_runtime_private_engine_scheduler_submit] *)
Definition scheduler_submit_answer (s : runtime_engine_scheduler) (ticket : runtime_engine_work)
    : option (outcome unit) :=
  if ew_done ticket then
    Some (if bool_decide (ew_status ticket = YVEX_OK) then Done tt
          else Refused (ew_status ticket)
                 (if bool_decide (err_code (ew_failure ticket) = YVEX_OK) then "scheduled work stopped before completion"
                  else err_message (ew_failure ticket)))
  else if es_stopping s then Some (Refused YVEX_ERR_STATE "scheduled work stopped before completion")
  else None.

(** * The store *)

Lemma lookup_update_all_ne f l store a : a ∉ l → update_all f l store !! a = store !! a.
Proof.
  unfold update_all. revert store. induction l as [|b l IH]; intros store Ha; [done|]. cbn [foldl].
  apply not_elem_of_cons in Ha as [Hne Ha]. by rewrite IH, lookup_alter_ne by done.
Qed.

Lemma lookup_update_all f l store a : NoDup l → a ∈ l → update_all f l store !! a = f <$> store !! a.
Proof.
  unfold update_all. intros Hl. revert store. induction Hl as [|b l Hb _ IH]; intros store Ha; [by apply elem_of_nil in Ha|].
  cbn [foldl]. destruct (decide (a = b)) as [->|Hne].
  - fold (update_all f l (alter f b store)). by rewrite lookup_update_all_ne, lookup_alter_eq.
  - apply elem_of_cons in Ha as [?|Ha]; [done|]. by rewrite IH, lookup_alter_ne by done.
Qed.

Lemma update_all_app f l k store : update_all f (l ++ k) store = update_all f k (update_all f l store).
Proof. unfold update_all. apply foldl_app. Qed.

(** * Selection is correct *)

(** A work that was admitted. *)
Definition work_ok (w : runtime_engine_work) : Prop := work_admissible w = true ∧ 0 ≤ ew_row_count w.

Definition queue_ok (s : runtime_engine_scheduler) (store : work_store) : Prop :=
  NoDup (es_queue s) ∧ ∀ a, a ∈ es_queue s → ∃ w, store !! a = Some w ∧ work_ok w.

Lemma work_ok_range w :
  work_ok w → 1 ≤ ew_row_count w ≤ ck_admitted_width (ew_key w) ∧ ck_admitted_width (ew_key w) < 64 ∧
    yvex_execution_compatibility_key_validate (Some (ew_key w)) = Done tt.
Proof.
  intros [Ha H0]. unfold work_admissible in Ha.
  destruct (yvex_execution_compatibility_key_validate (Some (ew_key w))) as [[]|] eqn:E; [|by rewrite andb_false_r in Ha].
  rewrite !andb_true_iff, negb_true_iff, Z.eqb_neq, Z.leb_le in Ha. cbn in E.
  destruct (_ || _) eqn:Eg; [done|]. rewrite !orb_false_iff, !Z.leb_gt in Eg. split; [lia|]. split; [lia|done].
Qed.

(** The rows of the works of a list. *)
Definition rows_of (store : work_store) (l : list Z) : Z :=
  total ((λ a, from_option ew_row_count 0 (store !! a)) <$> l).

Lemma rows_of_app store l k : rows_of store (l ++ k) = rows_of store l + rows_of store k.
Proof. unfold rows_of. by rewrite fmap_app, total_app. Qed.

Lemma rows_of_nonneg store l : (∀ a, a ∈ l → ∃ w, store !! a = Some w ∧ work_ok w) → 0 ≤ rows_of store l.
Proof.
  unfold rows_of. induction l as [|a l IH]; intros H; [done|]. rewrite fmap_cons, total_cons.
  destruct (H a ltac:(set_solver)) as (w & -> & [_ Hw]). cbn. specialize (IH ltac:(set_solver)). lia.
Qed.

(** A queue split into the works taken, refused and left, each in its order. *)
Inductive split3 : list Z → list Z → list Z → list Z → Prop :=
  | split3_nil : split3 [] [] [] []
  | split3_take a l t d k : split3 l t d k → split3 (a :: l) (a :: t) d k
  | split3_drop a l t d k : split3 l t d k → split3 (a :: l) t (a :: d) k
  | split3_keep a l t d k : split3 l t d k → split3 (a :: l) t d (a :: k).

Lemma split3_perm l t d k : split3 l t d k → t ++ d ++ k ≡ₚ l.
Proof. intros H. induction H; cbn; [done|by f_equiv|rewrite <- IHsplit3|rewrite <- IHsplit3]; solve_Permutation. Qed.

Lemma split3_sublist l t d k : split3 l t d k → t `sublist_of` l ∧ k `sublist_of` l.
Proof. intros H. induction H as [|a l t d k _ []|a l t d k _ []|a l t d k _ []]; split; by constructor. Qed.

(** The scheduler apart from its queue of works and its counters. *)
Definition es_outside (s : runtime_engine_scheduler) :=
  (es_queue_capacity s, es_producer_count s, es_producer_arrival_floor s, es_progress s, es_stopping s).

Lemma delete_middle (l k : list Z) a : delete (length l) (l ++ a :: k) = l ++ k.
Proof. induction l as [|b l IH]; [done|]. cbn. by f_equal. Qed.

Lemma lookup_middle_Z (l k : list Z) a : (l ++ a :: k) !! length l = Some a.
Proof. by rewrite lookup_app_r, Nat.sub_diag. Qed.

#[local] Instance compatibility_key_eq_dec : EqDecision yvex_execution_compatibility_key.
Proof. solve_decision. Defined.

(** Which of some works join a batch that [first] starts and that has [rows] rows, and which stay: in their order, those
    of its key whose rows fit what is left of its width. *)
Fixpoint batch_fill (store : work_store) (first : runtime_engine_work) (rows : Z) (works : list Z) : list Z * list Z :=
  match works with
  | [] => ([], [])
  | a :: works =>
      match store !! a with
      | Some w =>
          if bool_decide (ew_key w = ew_key first) && (rows + ew_row_count w <=? ck_admitted_width (ew_key first))
          then let '(taken, kept) := batch_fill store first (rows + ew_row_count w) works in (a :: taken, kept)
          else let '(taken, kept) := batch_fill store first rows works in (taken, a :: kept)
      | None => ([], [])
      end
  end.

(** What the loop does with the rest of the queue, [pending], behind the works it has passed. *)
Record loop_result (cancelled : Z → bool) (first : runtime_engine_work) (store0 store : work_store)
    (passed pending selected : list Z) (rows : Z) (s : runtime_engine_scheduler)
    (r : list Z * Z * runtime_engine_scheduler * work_store) (taken dropped kept : list Z) : Prop := {
  lr_split : split3 pending taken dropped kept;
  lr_selected : r.1.1.1 = selected ++ taken;
  lr_rows : r.1.1.2 = rows + rows_of store0 taken;
  lr_queue : es_queue r.1.2 = passed ++ kept;
  lr_outside : es_outside r.1.2 = es_outside s;
  lr_store : r.2 = update_all cancel_work dropped store;
  lr_width : rows + rows_of store0 taken ≤ ck_admitted_width (ew_key first);
  lr_cancelled : ∀ a, a ∈ dropped → cancelled a = true;
  lr_admitted : ∀ a, a ∈ taken ++ kept → cancelled a = false;
  lr_keys : ∀ a, a ∈ taken → ∃ w, store0 !! a = Some w ∧ ew_key w = ew_key first;
  lr_left : ∀ a, a ∈ kept → ∃ w, store0 !! a = Some w ∧
    (ew_key w ≠ ew_key first ∨ ck_admitted_width (ew_key first) < rows + rows_of store0 taken + ew_row_count w);
  lr_fill : batch_fill store0 first rows (filter (λ a, cancelled a = false) pending) = (taken, kept);
  lr_dropped : dropped = filter (λ a, cancelled a = true) pending;
}.

Lemma select_loop_spec cancelled first store0 pending : ∀ fuel passed selected rows s store,
  work_ok first → 1 ≤ rows ≤ ck_admitted_width (ew_key first) →
  es_queue s = passed ++ pending → (length pending ≤ fuel)%nat → NoDup pending →
  (∀ a, a ∈ pending → store !! a = store0 !! a ∧ ∃ w, store0 !! a = Some w ∧ work_ok w) →
  ∃ taken dropped kept, loop_result cancelled first store0 store passed pending selected rows s
    (scheduler_select_loop fuel cancelled first (length passed) selected rows s store) taken dropped kept.
Proof.
  induction pending as [|a pending IH]; intros fuel passed selected rows s store Hfirst Hrows Eq Hf Hnd Hst.
  { exists [], [], []. assert (es_queue s !! length passed = None) as E.
    { rewrite Eq, app_nil_r. by apply lookup_ge_None. }
    assert (scheduler_select_loop fuel cancelled first (length passed) selected rows s store = (selected, rows, s, store)) as ->.
    { destruct fuel; [done|]. cbn [scheduler_select_loop]. by rewrite E. }
    rewrite app_nil_r in Eq.
    split; cbn; rewrite ?app_nil_r; try done; try (by intros b Hb%elem_of_nil); unfold rows_of; cbn; try lia; constructor. }
  destruct fuel as [|fuel]; [cbn in Hf; lia|]. cbn [length] in Hf.
  apply NoDup_cons in Hnd as [Hna Hnd]. destruct (work_ok_range _ Hfirst) as (_ & Hw64 & Hval).
  destruct (Hst a ltac:(set_solver)) as (Esa & c & Ec & Hc). destruct (work_ok_range _ Hc) as (Hcr & _ & _).
  cbn [scheduler_select_loop]. rewrite Eq, lookup_middle_Z.
  destruct (cancelled a) eqn:Hca.
  - unfold scheduler_complete_cancelled. rewrite Eq, lookup_middle_Z.
    match goal with |- context [scheduler_select_loop fuel cancelled first _ selected rows ?s1 ?st1] =>
      destruct (IH fuel passed selected rows s1 st1) as (t & d & k & []); [done|done| |lia|done| |] end.
    + cbn. by rewrite Eq, delete_middle.
    + intros b Hb. rewrite lookup_alter_ne by (intros ->; done). by apply Hst; set_solver.
    + exists t, (a :: d), k. split; try done; [by constructor|intros b [->|Hb]%elem_of_cons; [done|auto]| |].
      * by rewrite filter_cons_False by congruence.
      * rewrite filter_cons_True by done. by f_equal.
  - rewrite Esa, Ec. destruct (scheduler_keys_match s (ew_key first) (ew_key c)) as [m s1] eqn:Em.
    assert (m = yvex_execution_compatibility_keys_match (Some (ew_key first)) (Some (ew_key c)) ∧
      es_queue s1 = es_queue s ∧ es_outside s1 = es_outside s) as (-> & Eq1 & Eo1).
    { unfold scheduler_keys_match in Em. destruct (yvex_execution_compatibility_keys_match _ _); by simplify_eq. }
    rewrite (u64_id (ck_admitted_width (ew_key first) - rows)) by ulia.
    assert (Hkey : yvex_execution_compatibility_keys_match (Some (ew_key first)) (Some (ew_key c)) = true ↔ ew_key c = ew_key first).
    { rewrite keys_match_iff. naive_solver. }
    destruct (yvex_execution_compatibility_keys_match _ _ && _) eqn:Efit.
    + apply andb_true_iff in Efit as [Ek Er]. apply Hkey in Ek. apply Z.leb_le in Er.
      rewrite u64_id by ulia.
      destruct (IH fuel passed (selected ++ [a]) (rows + ew_row_count c) (scheduler_remove s1 (length passed)) store)
        as (t & d & k & []); [done|lia| |lia|done| |].
      * cbn. by rewrite Eq1, Eq, delete_middle.
      * intros b Hb. apply Hst. set_solver.
      * assert (rows_of store0 (a :: t) = ew_row_count c + rows_of store0 t) as Ert.
        { unfold rows_of. rewrite fmap_cons, total_cons, Ec. done. }
        exists (a :: t), d, k. split; try done.
        -- by constructor.
        -- by rewrite lr_selected0, <- (assoc_L (++)).
        -- rewrite lr_rows0, Ert. lia.
        -- by rewrite lr_outside0, <- Eo1.
        -- rewrite Ert. lia.
        -- intros b. cbn [app]. intros [->|Hb]%elem_of_cons; [done|auto].
        -- intros b [->|Hb]%elem_of_cons; [by exists c|auto].
        -- intros b Hb. destruct (lr_left0 b Hb) as (w & Ew & Hw). exists w. split; [done|].
           destruct Hw; [by left|right; rewrite Ert; lia].
        -- rewrite filter_cons_True by done. cbn [batch_fill]. rewrite Ec, bool_decide_eq_true_2, (proj2 (Z.leb_le _ _)) by (done || lia).
           cbn [andb]. by rewrite lr_fill0.
        -- by rewrite filter_cons_False by congruence.
    + assert (es_queue s1 = (passed ++ [a]) ++ pending) as Eq2 by (rewrite Eq1, Eq; by rewrite <- (assoc_L (++))).
      destruct (IH fuel (passed ++ [a]) selected rows s1 store) as (t & d & k & []); [done|done|done|lia|done| |].
      * intros b Hb. apply Hst. set_solver.
      * rewrite length_app, Nat.add_1_r in *.
        exists t, d, (a :: k). split; try done.
        -- by constructor.
        -- by rewrite lr_queue0, <- (assoc_L (++)).
        -- by rewrite lr_outside0.
        -- intros b. rewrite elem_of_app, elem_of_cons. intros [Hb|[->|Hb]]; [|done|]; apply lr_admitted0; set_solver.
        -- intros b [->|Hb]%elem_of_cons; [|auto]. exists c. split; [done|].
           apply andb_false_iff in Efit as [Ek|Er].
           ++ left. intros E. apply Hkey in E. congruence.
           ++ right. apply Z.leb_gt in Er.
              assert (0 ≤ rows_of store0 t).
              { apply rows_of_nonneg. intros b Hb. apply Hst.
                destruct (split3_sublist _ _ _ _ lr_split0) as [Hsub _]. apply elem_of_cons. right.
                eapply sublist_elem_of; [exact Hb|exact Hsub] || (by eapply elem_of_sublist). }
              lia.
        -- rewrite filter_cons_True by done. cbn [batch_fill]. rewrite Ec.
           assert (bool_decide (ew_key c = ew_key first) && (rows + ew_row_count c <=? ck_admitted_width (ew_key first)) = false) as ->.
           { apply andb_false_iff. apply andb_false_iff in Efit as [Ek|Er]; [left|right].
             - apply bool_decide_eq_false_2. intros E. apply Hkey in E. congruence.
             - apply Z.leb_gt in Er. apply Z.leb_gt. lia. }
           by rewrite lr_fill0.
        -- by rewrite filter_cons_False by congruence.
Qed.

(** Refused works, and the others. *)
Lemma filter_cancelled (cancelled : Z → bool) (l : list Z) : (∀ a, a ∈ l → cancelled a = true) →
  filter (λ a, cancelled a = true) l = l ∧ filter (λ a, cancelled a = false) l = [].
Proof.
  induction l as [|a l IH]; intros H; [done|]. destruct IH as [E1 E2]; [intros b Hb; apply H; by right|].
  pose proof (H a ltac:(by left)). rewrite filter_cons_True, filter_cons_False by congruence. by rewrite E1, E2.
Qed.

Lemma drop_cancelled_spec cancelled : ∀ fuel s store,
  (length (es_queue s) ≤ fuel)%nat →
  ∃ dropped s', scheduler_drop_cancelled fuel cancelled s store = (s', update_all cancel_work dropped store) ∧
    es_queue s = dropped ++ es_queue s' ∧ es_outside s' = es_outside s ∧ (∀ a, a ∈ dropped → cancelled a = true) ∧
    (∀ a, head (es_queue s') = Some a → cancelled a = false).
Proof.
  induction fuel as [|fuel IH]; intros s store Hf.
  { destruct (es_queue s) as [|a q] eqn:Eq; [|cbn in Hf; lia]. exists [], s. rewrite Eq.
    repeat split; try done. by intros a Ha%elem_of_nil. }
  cbn [scheduler_drop_cancelled]. destruct (es_queue s) as [|a q] eqn:Eq.
  { exists [], s. rewrite Eq. repeat split; try done. by intros a Ha%elem_of_nil. }
  destruct (cancelled a) eqn:Hca.
  - unfold scheduler_complete_cancelled. rewrite Eq. cbn [lookup list_lookup].
    match goal with |- context [scheduler_drop_cancelled fuel cancelled ?s1 ?st1] =>
      destruct (IH s1 st1) as (dropped & s' & -> & Eq' & Eo & Hd & Hh) end.
    { cbn. rewrite Eq. cbn in *. lia. }
    cbn in Eq'. rewrite Eq in Eq'. cbn in Eq'.
    exists (a :: dropped), s'. split; [done|]. split; [cbn; congruence|]. split; [by rewrite Eo|]. split; [|done].
    intros b [->|Hb]%elem_of_cons; [done|auto].
  - exists [], s. rewrite Eq. repeat split; try done; [by intros b Hb%elem_of_nil|]. intros b [= <-]. done.
Qed.

(** What [scheduler_select_locked] makes of a queue. *)
Record selection (cancelled : Z → bool) (s : runtime_engine_scheduler) (store : work_store) (selected : list Z)
    (s' : runtime_engine_scheduler) (store' : work_store) (dropped : list Z) : Prop := {
  sl_perm : selected ++ dropped ++ es_queue s' ≡ₚ es_queue s;
  sl_order : selected `sublist_of` es_queue s ∧ es_queue s' `sublist_of` es_queue s;
  sl_outside : es_outside s' = es_outside s;
  sl_cancelled : ∀ a, a ∈ dropped → cancelled a = true ∧ store' !! a = cancel_work <$> store !! a;
  sl_admitted : ∀ a, a ∈ selected ++ es_queue s' → cancelled a = false;
  sl_kept : ∀ a, a ∉ selected ++ dropped → store' !! a = store !! a;
  sl_empty : selected = [] → es_queue s' = [];
  sl_batch : ∀ a, head selected = Some a → ∃ first, store !! a = Some first ∧
    (∀ b, b ∈ selected → ∃ w, store !! b = Some w ∧ ew_key w = ew_key first ∧
       store' !! b = Some (w <| ew_actual_width := rows_of store selected |>
                             <| ew_group_size := Z.of_nat (length selected) |>)) ∧
    1 ≤ rows_of store selected ≤ ck_admitted_width (ew_key first) ∧
    (∀ b, b ∈ es_queue s' → ∃ w, store !! b = Some w ∧
       (ew_key w ≠ ew_key first ∨ ck_admitted_width (ew_key first) < rows_of store selected + ew_row_count w));
  sl_dropped : dropped = filter (λ a, cancelled a = true) (es_queue s);
  sl_fill : match filter (λ a, cancelled a = false) (es_queue s) with
    | [] => selected = [] ∧ es_queue s' = []
    | a :: rest => ∃ first taken kept, store !! a = Some first ∧
        batch_fill store first (ew_row_count first) rest = (taken, kept) ∧ selected = a :: taken ∧ es_queue s' = kept
    end;
}.

Lemma batch_select_spec cancelled s store :
  queue_ok s store →
  ∃ selected s' store' dropped, scheduler_select_locked cancelled s store = (selected, s', store') ∧
    selection cancelled s store selected s' store' dropped.
Proof.
  intros [Hnd Hst]. unfold scheduler_select_locked.
  destruct (drop_cancelled_spec cancelled (length (es_queue s)) s store) as (d0 & s1 & -> & Eq & Eo & Hd0 & Hh); [done|].
  destruct (es_queue s1) as [|a rest] eqn:Eq1.
  { exists [], s1, (update_all cancel_work d0 store), d0. split; [done|].
    rewrite app_nil_r in Eq. split; try done; rewrite ?Eq1.
    - by rewrite app_nil_r, Eq.
    - split; apply sublist_nil_l.
    - intros a Ha. split; [auto|]. rewrite Eq in Hnd. by apply lookup_update_all.
    - by intros a Ha%elem_of_nil.
    - intros a Ha. by apply lookup_update_all_ne.
    - rewrite Eq. by destruct (filter_cancelled cancelled d0 Hd0) as [-> _].
    - rewrite Eq. by destruct (filter_cancelled cancelled d0 Hd0) as [_ ->]. }
  rewrite Eq in Hnd. apply NoDup_app in Hnd as (Hnd0 & Hdis & Hnd1). apply NoDup_cons in Hnd1 as [Hna Hnd1].
  assert (Hsame : ∀ b, b ∈ a :: rest → update_all cancel_work d0 store !! b = store !! b).
  { intros b Hb. apply lookup_update_all_ne. intros Hbd. by apply (Hdis b Hbd). }
  destruct (Hst a) as (first & Ea & Hfirst). { rewrite Eq. set_solver. }
  rewrite Hsame, Ea by set_solver. destruct (work_ok_range _ Hfirst) as (Hrow & Hw64 & _).
  destruct (select_loop_spec cancelled first store rest (length rest) [] [a] (ew_row_count first)
    (scheduler_remove s1 0) (update_all cancel_work d0 store)) as (t & d & k & R); [done|lia| |done|done| |].
  { cbn. by rewrite Eq1. }
  { intros b Hb. split; [apply Hsame; set_solver|]. apply Hst. rewrite Eq. set_solver. }
  cbn [length] in R. destruct (scheduler_select_loop _ _ _ _ _ _ _ _) as [[[selected rows] s2] store2].
  destruct R as [Rsplit Rsel Rrows Rqueue Rout Rstore Rwidth Rcan Radm Rkeys Rleft Rfill Rdropped].
  cbn -[batch_fill filter] in *.
  set (sel := a :: t). assert (selected = sel) as -> by done. clear Rsel.
  assert (rows = rows_of store sel) as ->.
  { unfold sel, rows_of. rewrite fmap_cons, total_cons, Ea. cbn. exact Rrows. }
  assert (rows_of store sel = ew_row_count first + rows_of store t) as Erows.
  { unfold sel, rows_of. by rewrite fmap_cons, total_cons, Ea. }
  pose proof (split3_perm _ _ _ _ Rsplit) as Hperm. destruct (split3_sublist _ _ _ _ Rsplit) as [Hsubt Hsubk].
  assert (NoDup (t ++ d ++ k)) as Hnd2 by (by rewrite Hperm).
  apply NoDup_app in Hnd2 as (Hndt & Hdist & Hnd3). apply NoDup_app in Hnd3 as (Hndd & Hdisd & _).
  assert (Hin : ∀ b, b ∈ t ∨ b ∈ d ∨ b ∈ k → b ∈ rest) by (intros b Hb; rewrite <- Hperm; set_solver).
  assert (NoDup sel) as Hnds by (unfold sel; constructor; [intros Hat; apply Hna; auto|done]).
  assert (store2 = update_all cancel_work (d0 ++ d) store) as Est2 by (by rewrite update_all_app).
  assert (NoDup (d0 ++ d)) as Hndd0.
  { apply NoDup_app. split; [done|]. split; [|done]. intros b Hb Hbd. apply (Hdis b Hb). set_solver. }
  assert (Hselout : ∀ b, b ∈ sel → b ∉ d0 ++ d).
  { intros b Hb Hbd. apply elem_of_app in Hbd as [Hbd|Hbd].
    - apply (Hdis b Hbd). unfold sel in Hb. set_solver.
    - unfold sel in Hb. apply elem_of_cons in Hb as [->|Hb]; [apply Hna; auto|apply (Hdist b Hb); set_solver]. }
  assert (0 ≤ rows_of store t).
  { apply rows_of_nonneg. intros b Hb. apply Hst. rewrite Eq. apply elem_of_app. right. apply elem_of_cons. auto. }
  eexists sel, _, _, (d0 ++ d). split; [reflexivity|].
  split; cbn [es_queue observe set_field eta_expand]; rewrite ?Rqueue.
  - rewrite Eq, <- Hperm. unfold sel. cbn [app]. rewrite <- !(assoc_L (++)). solve_Permutation.
  - rewrite Eq. split; [apply sublist_inserts_l, sublist_skip, Hsubt|apply sublist_inserts_l, sublist_cons, Hsubk].
  - by rewrite <- Eo.
  - intros b Hb. split; [apply elem_of_app in Hb as [Hb|Hb]; auto|].
    rewrite lookup_update_all_ne by (intros Hbs; by apply (Hselout b Hbs)). rewrite Est2. by apply lookup_update_all.
  - intros b Hb. unfold sel in Hb. cbn [app] in Hb. apply elem_of_cons in Hb as [->|Hb]; [by apply Hh|auto].
  - intros b Hb. apply not_elem_of_app in Hb as [Hb1 Hb2]. rewrite lookup_update_all_ne by done.
    rewrite Est2. by apply lookup_update_all_ne.
  - done.
  - intros a' [= <-]. exists first. split; [done|]. split; [|split; [lia|]].
    + intros b Hb. assert (∃ w, store !! b = Some w ∧ ew_key w = ew_key first) as (w & Ew & Ek).
      { unfold sel in Hb. apply elem_of_cons in Hb as [->|Hb]; [by exists first|auto]. }
      exists w. split; [done|]. split; [done|]. rewrite lookup_update_all by done.
      rewrite Est2, lookup_update_all_ne by auto. by rewrite Ew.
    + intros b Hb. destruct (Rleft b Hb) as (w & Ew & Hw). exists w. split; [done|].
      destruct Hw; [by left|right; lia].
  - rewrite Eq, filter_app, filter_cons_False by (rewrite Hh by done; done).
    destruct (filter_cancelled cancelled d0 Hd0) as [-> _]. by f_equal.
  - rewrite Eq, filter_app, filter_cons_True by (by apply Hh).
    destruct (filter_cancelled cancelled d0 Hd0) as [_ ->]. cbn [app]. by exists first, t, k.
Qed.

(** C28: the batch the worker forms. The works of the queue are split, each part in the order of the queue,
    into those refused because they were cancelled, those of the batch, and those that stay. The split is
    determined: the refused are exactly the cancelled ones; the batch starts with the first work that is not
    cancelled, and of the others, in their order, it takes each one that has the first one's key and whose
    rows fit what the works taken so far leave of the key's admitted width. Every work of the batch is told its
    width and its size. A work that stays has another key or more rows than the batch has left. Only a queue
    of nothing but cancelled works gives no batch, and a batch never outgrows the worker's array, which has
    the capacity of the queue. *)
Theorem scheduler_batch_select cancelled s store :
  queue_ok s store → queue_count s ≤ es_queue_capacity s →
  ∃ selected s' store' dropped, scheduler_select_locked cancelled s store = (selected, s', store') ∧
    selection cancelled s store selected s' store' dropped ∧
    Z.of_nat (length selected) ≤ es_queue_capacity s.
Proof.
  intros Hq Hcap. destruct (batch_select_spec cancelled s store Hq) as (selected & s' & store' & dropped & E & Hsel).
  exists selected, s', store', dropped. split; [done|]. split; [done|].
  apply sl_perm, Permutation_length in Hsel. rewrite !length_app in Hsel. unfold queue_count in Hcap. lia.
Qed.

(** * The worker and its submitters *)

(** What the worker does outside the mutex. *)
Inductive worker_state : Type := WorkerIdle | WorkerExecuting (selected : list Z) | WorkerExited.

(** The scheduler, the work items, the addresses of those whose submitter waits, and the worker. A work item
    lives on its submitter's stack, so it ends when the submitter returns. *)
Record batch_system := BatchSystem {
  by_scheduler : runtime_engine_scheduler;
  by_store : work_store;
  by_waiting : gset Z;
  by_worker : worker_state;
}.

Inductive batch_step : batch_system → batch_system → Prop :=
  | batch_submit s store waiting worker address w s' store' :
      address ∉ waiting → store !! address = None → 0 ≤ ew_row_count w →
      scheduler_submit_begin s (<[address := w]> store) address = Done (s', store') →
      batch_step (BatchSystem s store waiting worker) (BatchSystem s' store' ({[address]} ∪ waiting) worker)
  | batch_return s store waiting worker address w answer :
      address ∈ waiting → store !! address = Some w → scheduler_submit_answer s w = Some answer →
      batch_step (BatchSystem s store waiting worker)
        (BatchSystem s (delete address store) (waiting ∖ {[address]}) worker)
  | batch_coalesce_begin s store waiting clock_ok wait s' :
      scheduler_coalesce_begin clock_ok s store = (wait, s') →
      batch_step (BatchSystem s store waiting WorkerIdle) (BatchSystem s' store waiting WorkerIdle)
  | batch_coalesce_end s store waiting timed_out elapsed :
      batch_step (BatchSystem s store waiting WorkerIdle)
        (BatchSystem (scheduler_coalesce_end timed_out elapsed s) store waiting WorkerIdle)
  | batch_take s store waiting cancelled selected s' store' :
      es_worker_started s = true → es_queue s ≠ [] →
      scheduler_select_locked cancelled s store = (selected, s', store') →
      batch_step (BatchSystem s store waiting WorkerIdle)
        (BatchSystem (observe (λ m, m <| ss_queued := queue_count s' |>) s') store' waiting
           (if bool_decide (selected = []) then WorkerIdle else WorkerExecuting selected))
  | batch_finish s store waiting selected status failure s' store' :
      scheduler_finish_locked selected status failure s store = (s', store') →
      batch_step (BatchSystem s store waiting (WorkerExecuting selected)) (BatchSystem s' store' waiting WorkerIdle)
  | batch_exit s store waiting :
      es_stopping s = true → es_queue s = [] →
      batch_step (BatchSystem s store waiting WorkerIdle) (BatchSystem s store waiting WorkerExited)
  | batch_start s store waiting worker s' :
      yvex_runtime_private_engine_scheduler_start true s = Done s' →
      batch_step (BatchSystem s store waiting worker) (BatchSystem s' store waiting worker)
  | batch_producers s store waiting worker producers s' :
      yvex_runtime_private_engine_scheduler_set_producers s producers = Done s' →
      batch_step (BatchSystem s store waiting worker) (BatchSystem s' store waiting worker)
  | batch_stop s store waiting worker :
      batch_step (BatchSystem s store waiting worker) (BatchSystem (coordinator_close_begin s) store waiting worker).

Inductive batch_reachable (capacity width : Z) : batch_system → Prop :=
  | batch_open a b c s :
      yvex_runtime_execution_coordinator_open capacity width a b c = Done s →
      batch_reachable capacity width (BatchSystem s ∅ ∅ WorkerIdle)
  | batch_next β β' : batch_reachable capacity width β → batch_step β β' → batch_reachable capacity width β'.

(** The works the scheduler still refers to. *)
Definition executing (worker : worker_state) : list Z :=
  match worker with WorkerExecuting selected => selected | _ => [] end.

Definition in_flight (β : batch_system) : list Z := executing (by_worker β) ++ es_queue (by_scheduler β).

(** While the scheduler does not stop: what it refers to is alive, waited for and not done; what is waited
    for is in flight or done. *)
Record flight_ok (β : batch_system) : Prop := {
  fl_distinct : NoDup (in_flight β);
  fl_live : ∀ a, a ∈ in_flight β → a ∈ by_waiting β ∧ ∃ w, by_store β !! a = Some w ∧ work_ok w ∧ ew_done w = false;
  fl_waiting : ∀ a, a ∈ by_waiting β → a ∉ in_flight β → ∃ w, by_store β !! a = Some w ∧ ew_done w = true;
}.

Definition batch_inv (β : batch_system) : Prop :=
  queue_count (by_scheduler β) ≤ es_queue_capacity (by_scheduler β) ∧
  (es_stopping (by_scheduler β) = false → flight_ok β).

Lemma flight_same β s' worker :
  flight_ok β → es_queue s' = es_queue (by_scheduler β) → executing worker = executing (by_worker β) →
  flight_ok (BatchSystem s' (by_store β) (by_waiting β) worker).
Proof.
  intros [Hd Hl Hw] Eq Ee. unfold in_flight in *.
  split; unfold in_flight; cbn [by_scheduler by_store by_waiting by_worker]; rewrite Eq, Ee; done.
Qed.

Lemma submit_flight s store waiting worker address w s' store' :
  address ∉ waiting → store !! address = None → 0 ≤ ew_row_count w →
  scheduler_submit_begin s (<[address := w]> store) address = Done (s', store') →
  batch_inv (BatchSystem s store waiting worker) →
  batch_inv (BatchSystem s' store' ({[address]} ∪ waiting) worker).
Proof.
  intros Hnw Hns Hrow E [Hcap Hfl]. unfold scheduler_submit_begin in E. rewrite lookup_insert_eq in E.
  destruct (work_admissible w) eqn:Hadm; [|done]. cbn [negb] in E.
  destruct (es_stopping s) eqn:Hst; [by destruct (queue_count s =? es_queue_capacity s)|]. cbn [orb] in E.
  destruct (Z.eqb_spec (queue_count s) (es_queue_capacity s)) as [|Hne]; [done|].
  injection E as <- <-. destruct (Hfl Hst) as [Hd Hl Hw]. unfold in_flight in *.
  cbn [by_scheduler by_store by_waiting by_worker] in *.
  assert (address ∉ executing worker ++ es_queue s) as Hnf by (intros Hin; by apply Hnw, Hl).
  split.
  { unfold queue_count in *. cbn. rewrite length_app. cbn. lia. }
  intros _. split; unfold in_flight; cbn [by_scheduler by_store by_waiting by_worker es_queue observe set_field eta_expand];
    rewrite ?insert_insert_eq.
  - rewrite (assoc_L (++)). apply NoDup_app. split; [done|]. split; [|apply NoDup_singleton].
    intros b Hb ->%list_elem_of_singleton. done.
  - intros b. rewrite (assoc_L (++)), elem_of_app, list_elem_of_singleton. intros [Hb| ->].
    + destruct (Hl b Hb) as (Hbw & v & Ev & Hv). split; [set_solver|]. exists v. split; [|done].
      rewrite lookup_insert_ne; [done|]. intros ->. done.
    + split; [set_solver|]. eexists. rewrite lookup_insert_eq. split; [done|]. done.
  - intros b Hb Hnb. rewrite (assoc_L (++)), elem_of_app, list_elem_of_singleton in Hnb.
    assert (b ≠ address) as Hba by naive_solver.
    destruct (Hw b) as (v & Ev & Hv); [set_solver|naive_solver|]. exists v. by rewrite lookup_insert_ne.
Qed.

Lemma return_flight s store waiting worker address w answer :
  address ∈ waiting → store !! address = Some w → scheduler_submit_answer s w = Some answer →
  batch_inv (BatchSystem s store waiting worker) →
  batch_inv (BatchSystem s (delete address store) (waiting ∖ {[address]}) worker).
Proof.
  intros Hin Ew Ea [Hcap Hfl]. split; [done|]. intros Hst. cbn in Hst. destruct (Hfl Hst) as [Hd Hl Hw].
  unfold scheduler_submit_answer in Ea. rewrite Hst in Ea. destruct (ew_done w) eqn:Hdone; [|done].
  assert (address ∉ executing worker ++ es_queue s) as Hnf.
  { intros Hf. destruct (Hl address Hf) as (_ & v & Ev & _ & Hv). cbn in Ev. congruence. }
  unfold in_flight in *. cbn [by_scheduler by_store by_waiting by_worker] in *.
  split; unfold in_flight; cbn [by_scheduler by_store by_waiting by_worker]; [done| |].
  - intros b Hb. destruct (Hl b Hb) as (Hbw & v & Ev & Hv).
    assert (b ≠ address) by (intros ->; done). split; [set_solver|]. exists v. by rewrite lookup_delete_ne.
  - intros b Hb Hnb. destruct (Hw b) as (v & Ev & Hv); [set_solver|done|]. exists v.
    by rewrite lookup_delete_ne by set_solver.
Qed.

(** Selecting shortens the queue and leaves the rest of the scheduler alone, whatever the store holds. *)
Lemma complete_cancelled_shrinks s store i :
  (length (es_queue (scheduler_complete_cancelled s store i).1) ≤ length (es_queue s))%nat ∧
  es_outside (scheduler_complete_cancelled s store i).1 = es_outside s.
Proof.
  unfold scheduler_complete_cancelled. destruct (es_queue s !! i) as [a|] eqn:E; [|done]. cbn. split; [|done].
  rewrite length_delete by (by rewrite E). lia.
Qed.

Lemma remove_shrinks s i : (length (es_queue (scheduler_remove s i)) ≤ length (es_queue s))%nat.
Proof.
  cbn. generalize (es_queue s). intros l. revert i. induction l as [|a l IH]; intros [|i]; cbn; try lia.
  specialize (IH i). unfold delete in *. lia.
Qed.

Lemma keys_match_same s l r : es_queue (scheduler_keys_match s l r).2 = es_queue s ∧
  es_outside (scheduler_keys_match s l r).2 = es_outside s.
Proof. unfold scheduler_keys_match. by destruct (yvex_execution_compatibility_keys_match _ _). Qed.

Lemma drop_cancelled_shrinks cancelled fuel s store :
  (length (es_queue (scheduler_drop_cancelled fuel cancelled s store).1) ≤ length (es_queue s))%nat ∧
  es_outside (scheduler_drop_cancelled fuel cancelled s store).1 = es_outside s.
Proof.
  revert s store. induction fuel as [|fuel IH]; intros s store; [done|]. cbn [scheduler_drop_cancelled].
  destruct (es_queue s) as [|a q] eqn:Eq; [cbn [fst]; by rewrite Eq|].
  destruct (cancelled a); [|cbn [fst]; by rewrite Eq].
  destruct (complete_cancelled_shrinks s store 0) as [H1 H2]. rewrite Eq in H1.
  destruct (scheduler_complete_cancelled s store 0) as [s1 st1]. cbn in *.
  destruct (IH s1 st1) as [H3 H4]. split; [lia|congruence].
Qed.

Lemma select_loop_shrinks cancelled first fuel index selected rows s store :
  let r := scheduler_select_loop fuel cancelled first index selected rows s store in
  (length (es_queue r.1.2) ≤ length (es_queue s))%nat ∧ es_outside r.1.2 = es_outside s.
Proof.
  revert index selected rows s store. induction fuel as [|fuel IH]; intros index selected rows s store; [done|].
  cbn [scheduler_select_loop]. destruct (es_queue s !! index) as [a|]; [|done]. destruct (cancelled a).
  - destruct (complete_cancelled_shrinks s store index) as [H1 H2].
    destruct (scheduler_complete_cancelled s store index) as [s1 st1]. cbn [fst] in *.
    destruct (IH index selected rows s1 st1) as [H3 H4]. split; [lia|congruence].
  - destruct (store !! a) as [c|]; [|done]. destruct (keys_match_same s (ew_key first) (ew_key c)) as [Hq Ho].
    destruct (scheduler_keys_match s (ew_key first) (ew_key c)) as [m s1]. cbn [snd] in *. destruct (m && _).
    + pose proof (remove_shrinks s1 index) as Hr.
      destruct (IH index (selected ++ [a]) (u64 (rows + ew_row_count c)) (scheduler_remove s1 index) store) as [H3 H4].
      split; [rewrite Hq in Hr; lia|by rewrite H4, <- Ho].
    + destruct (IH (S index) selected rows s1 store) as [H3 H4]. rewrite Hq in H3. split; [lia|congruence].
Qed.

Lemma select_shrinks cancelled s store selected s' store' :
  scheduler_select_locked cancelled s store = (selected, s', store') →
  (length (es_queue s') ≤ length (es_queue s))%nat ∧ es_outside s' = es_outside s.
Proof.
  unfold scheduler_select_locked. destruct (drop_cancelled_shrinks cancelled (length (es_queue s)) s store) as [H1 H2].
  destruct (scheduler_drop_cancelled _ cancelled s store) as [s1 st1]. cbn [fst] in *.
  destruct (es_queue s1) as [|a rest] eqn:Eq; [intros [= <- <- <-]; rewrite Eq; split; [cbn; lia|done]|].
  destruct (st1 !! a) as [first|]; [|intros [= <- <- <-]; by rewrite Eq].
  destruct (select_loop_shrinks cancelled first (length rest) 0 [a] (ew_row_count first) (scheduler_remove s1 0) st1) as [H3 H4].
  pose proof (remove_shrinks s1 0) as H5. rewrite Eq in H5.
  destruct (scheduler_select_loop _ _ _ _ _ _ _ _) as [[[sel rows] s2] st2]. cbn [fst snd] in *.
  intros E. apply pair_equal_spec in E as [E _]. apply pair_equal_spec in E as [_ <-].
  cbn [es_queue observe set_field eta_expand]. split; [lia|]. by rewrite <- H2.
Qed.

Lemma take_flight s store waiting cancelled selected s' store' :
  scheduler_select_locked cancelled s store = (selected, s', store') →
  batch_inv (BatchSystem s store waiting WorkerIdle) →
  batch_inv (BatchSystem (observe (λ m, m <| ss_queued := queue_count s' |>) s') store' waiting
    (if bool_decide (selected = []) then WorkerIdle else WorkerExecuting selected)).
Proof.
  intros E [Hcap Hfl]. destruct (select_shrinks _ _ _ _ _ _ E) as [Hlen Hout]. unfold es_outside in Hout.
  cbn [by_scheduler] in *. split.
  { unfold queue_count in *. cbn. assert (es_queue_capacity s' = es_queue_capacity s) as -> by congruence. lia. }
  cbn [by_scheduler es_stopping observe set_field eta_expand]. intros Hst.
  destruct (Hfl ltac:(congruence)) as [Hd Hl Hw]. unfold in_flight in *. cbn [by_scheduler by_store by_waiting by_worker executing app] in *.
  assert (queue_ok s store) as Hq.
  { split; [done|]. intros a Ha. destruct (Hl a Ha) as (_ & w & Ew & Hok & _). by exists w. }
  destruct (batch_select_spec cancelled s store Hq) as (sel & s1 & st1 & dropped & E' & []).
  rewrite E in E'. injection E' as <- <- <-.
  assert (Hexec : executing (if bool_decide (selected = []) then WorkerIdle else WorkerExecuting selected) = selected).
  { case_bool_decide; by subst. }
  assert (NoDup (selected ++ dropped ++ es_queue s')) as Hnd by (by rewrite sl_perm0).
  assert (Hin : ∀ a, a ∈ selected ++ es_queue s' → a ∈ es_queue s) by (intros a Ha; rewrite <- sl_perm0; set_solver).
  apply NoDup_app in Hnd as (Hnds & Hdis & Hnd). apply NoDup_app in Hnd as (Hndd & Hdisd & Hndq).
  split; unfold in_flight; cbn [by_scheduler by_store by_waiting by_worker es_queue observe set_field eta_expand]; rewrite Hexec.
  - apply NoDup_app. split; [done|]. split; [|done]. intros a Ha Hb. apply (Hdis a Ha). set_solver.
  - intros a Ha. destruct (Hl a (Hin a Ha)) as (Haw & w & Ew & Hok & Hdone). split; [done|].
    apply elem_of_app in Ha as [Ha|Ha].
    + destruct (head selected) as [a0|] eqn:Eh; [|destruct selected; [by apply elem_of_nil in Ha|done]].
      destruct (sl_batch0 a0 eq_refl) as (first & _ & Hb & _). destruct (Hb a Ha) as (v & Ev & _ & Es).
      simplify_eq. eexists. split; [exact Es|]. done.
    + exists w. split; [|done]. rewrite sl_kept0; [done|]. intros [Hs|Hs]%elem_of_app; [apply (Hdis a Hs)|apply (Hdisd a Hs)]; set_solver.
  - intros a Ha Hna. destruct (decide (a ∈ dropped)) as [Hda|Hda].
    + destruct (sl_cancelled0 a Hda) as [_ Es].
      destruct (Hl a) as (_ & w & Ew & _); [rewrite <- sl_perm0; set_solver|].
      rewrite Ew in Es. eexists. split; [exact Es|]. done.
    + destruct (Hw a Ha) as (w & Ew & Hdone).
      { rewrite <- sl_perm0. rewrite !elem_of_app in *. naive_solver. }
      exists w. split; [|done]. rewrite sl_kept0; [done|]. rewrite !elem_of_app in *. naive_solver.
Qed.

Lemma finish_flight s store waiting selected status failure s' store' :
  scheduler_finish_locked selected status failure s store = (s', store') →
  batch_inv (BatchSystem s store waiting (WorkerExecuting selected)) →
  batch_inv (BatchSystem s' store' waiting WorkerIdle).
Proof.
  intros E [Hcap Hfl]. unfold scheduler_finish_locked in E. apply pair_equal_spec in E as [E <-].
  assert (es_queue s' = es_queue s ∧ es_queue_capacity s' = es_queue_capacity s ∧ es_stopping s' = es_stopping s) as (Eq & Ec & Es).
  { rewrite <- E. by destruct (from_option (λ w, bool_decide (ew_kind w = RUNTIME_ENGINE_WORK_RENDEZVOUS)) _ _). }
  clear E. cbn [by_scheduler] in *. split; [unfold queue_count in *; cbn; by rewrite Eq, Ec|].
  cbn. intros Hst. destruct (Hfl ltac:(cbn; congruence)) as [Hd Hl Hw].
  unfold in_flight in *. cbn [by_scheduler by_store by_waiting by_worker executing app] in *.
  apply NoDup_app in Hd as (Hds & Hdis & Hdq).
  split; unfold in_flight; cbn [by_scheduler by_store by_waiting by_worker executing app]; rewrite Eq; [done| |].
  - intros a Ha. destruct (Hl a) as (Haw & w & Ew & Hok); [set_solver|]. split; [done|]. exists w. split; [|done].
    rewrite lookup_update_all_ne; [done|]. intros Hs. by apply (Hdis a Hs).
  - intros a Ha Hna. destruct (decide (a ∈ selected)) as [Hs|Hs].
    + destruct (Hl a) as (_ & w & Ew & _); [set_solver|]. rewrite lookup_update_all, Ew by done.
      eexists. split; [reflexivity|]. by destruct (negb _).
    + destruct (Hw a Ha) as (w & Ew & Hdone); [set_solver|]. exists w. split; [|done]. by rewrite lookup_update_all_ne.
Qed.

Lemma close_queue s :
  es_queue (coordinator_close_begin s) = es_queue s ∧
  es_queue_capacity (coordinator_close_begin s) = es_queue_capacity s ∧ es_stopping (coordinator_close_begin s) = true.
Proof.
  assert (Hf : ∀ l t, es_queue (foldl close_slot t l) = es_queue t ∧
    es_queue_capacity (foldl close_slot t l) = es_queue_capacity t ∧ es_stopping (foldl close_slot t l) = es_stopping t).
  { intros l. induction l as [|k l IH]; intros t; [done|]. cbn [foldl].
    destruct (IH (close_slot t k)) as (-> & -> & ->). unfold close_slot.
    destruct (es_progress t !! k) as [w|] eqn:Ek; [|done]. destruct (pw_in_use w && pw_queued w); [|done].
    unfold progress_cancel_ready_locked. rewrite Ek. by destruct (negb (pw_queued w)). }
  exact (Hf (seq 0 (length (es_progress s))) (s <| es_stopping := true |>)).
Qed.

Lemma batch_step_inv β β' : batch_inv β → batch_step β β' → batch_inv β'.
Proof.
  intros Hinv Hstep.
  destruct Hstep as [s store waiting worker address w s' store' Hnw Hns Hrow E|s store waiting worker address w answer Hin Ew Ea|
    s store waiting clock_ok wait s' E|s store waiting timed_out elapsed|s store waiting cancelled selected s' store' _ _ E|
    s store waiting selected status failure s' store' E|s store waiting Hst Hq|s store waiting worker s' E|
    s store waiting worker producers s' E|s store waiting worker].
  - by eapply submit_flight.
  - by eapply return_flight.
  - assert (es_queue s' = es_queue s ∧ es_queue_capacity s' = es_queue_capacity s ∧ es_stopping s' = es_stopping s) as (Eq & Ec & Es).
    { unfold scheduler_coalesce_begin in E. repeat (case_match; simplify_eq; try done). }
    destruct Hinv as [Hcap Hfl]. split; [unfold queue_count in *; cbn in *; by rewrite Eq, Ec|].
    cbn in *. rewrite Es. intros Hst. by apply (flight_same (BatchSystem s store waiting WorkerIdle)); [apply Hfl|..].
  - assert (es_queue (scheduler_coalesce_end timed_out elapsed s) = es_queue s ∧
      es_queue_capacity (scheduler_coalesce_end timed_out elapsed s) = es_queue_capacity s ∧
      es_stopping (scheduler_coalesce_end timed_out elapsed s) = es_stopping s) as (Eq & Ec & Es).
    { unfold scheduler_coalesce_end. by destruct timed_out, elapsed. }
    destruct Hinv as [Hcap Hfl]. split; [unfold queue_count in *; cbn in *; by rewrite Eq, Ec|].
    cbn in *. rewrite Es. intros Hst. by apply (flight_same (BatchSystem s store waiting WorkerIdle)); [apply Hfl|..].
  - by eapply take_flight.
  - by eapply finish_flight.
  - destruct Hinv as [Hcap Hfl]. split; [done|]. cbn in *. congruence.
  - unfold yvex_runtime_private_engine_scheduler_start in E. destruct (_ || _); [done|]. injection E as <-.
    destruct Hinv as [Hcap Hfl]. split; [done|]. intros Hst. by apply (flight_same (BatchSystem s store waiting worker)); [apply Hfl|..].
  - unfold yvex_runtime_private_engine_scheduler_set_producers in E. destruct (_ <? producers); [done|].
    assert (es_queue s' = es_queue s ∧ es_queue_capacity s' = es_queue_capacity s ∧ es_stopping s' = es_stopping s) as (Eq & Ec & Es).
    { injection E as <-. cbn. destruct (_ && _); [done|]. by destruct (producers =? 0). }
    destruct Hinv as [Hcap Hfl]. split; [unfold queue_count in *; cbn in *; by rewrite Eq, Ec|].
    cbn in *. rewrite Es. intros Hst. by apply (flight_same (BatchSystem s store waiting worker)); [apply Hfl|..].
  - destruct (close_queue s) as (Eq & Ec & Es). destruct Hinv as [Hcap _].
    split; [unfold queue_count in *; cbn in *; by rewrite Eq, Ec|]. cbn [by_scheduler]. congruence.
Qed.

Lemma batch_reachable_inv capacity width β :
  is_u64 capacity → is_u64 width → batch_reachable capacity width β → batch_inv β.
Proof.
  intros Hc Hw H. induction H as [a b c s E|β β' _ IH Hstep]; [|by eapply batch_step_inv].
  unfold yvex_runtime_execution_coordinator_open in E. destruct (_ || _); [done|].
  destruct a, b, c; [|done..]. injection E as <-. split; [unfold queue_count; cbn; ulia|].
  intros _. split; unfold in_flight; cbn; [constructor|by intros a Ha%elem_of_nil|set_solver].
Qed.

(** One work and the run that abandons it. *)
Definition sample_work : runtime_engine_work :=
  EngineWork (CompatibilityKey YVEX_EXECUTION_COMPATIBILITY_SCHEMA_V2 1 1 0 0 0 7 0 8 4) 1 0 0 0 (Some 9)
    (YvexError YVEX_OK "" "") (WorklistObservation 0 0 0 0 0 0 0 0 0 [] [] []) RUNTIME_ENGINE_WORK_PHYSICAL YVEX_OK false.

Definition sample_scheduler : runtime_engine_scheduler :=
  match yvex_runtime_execution_coordinator_open 2 1 true true true with
  | Done s => s <| es_worker_started := true |>
  | Refused _ _ => EngineScheduler [] 0 0 0 [] 0 0 0 0 0 0 summary_zero false false
  end.

Definition sample_submitted : runtime_engine_scheduler * work_store :=
  match scheduler_submit_begin sample_scheduler (<[5 := sample_work]> ∅) 5 with
  | Done r => r
  | Refused _ _ => (sample_scheduler, ∅)
  end.

Definition sample_flight : batch_system :=
  BatchSystem sample_submitted.1 sample_submitted.2 ({[5]} ∪ ∅) WorkerIdle.

Lemma sample_flight_reachable : batch_reachable 2 1 sample_flight.
Proof.
  eapply batch_next; [eapply batch_next; [by apply (batch_open 2 1 true true true)|by eapply batch_start]|].
  apply (batch_submit sample_scheduler ∅ ∅ WorkerIdle 5 sample_work); [set_solver|done|vm_compute; discriminate|].
  vm_compute. reflexivity.
Qed.

(** Until the scheduler stops, every work it refers to, in its queue or in the batch that executes, is
    the live, unfinished work of a submitter that still waits, and stands in one place only; no work is
    lost, every other waiting submitter's work is done; and a submitter returns exactly when the
    scheduler no longer refers to its work. The queue never outgrows its array. *)
Theorem scheduler_tickets_live capacity width β :
  is_u64 capacity → is_u64 width → batch_reachable capacity width β → es_stopping (by_scheduler β) = false →
  NoDup (in_flight β) ∧
  (∀ a, a ∈ in_flight β → a ∈ by_waiting β ∧ ∃ w, by_store β !! a = Some w ∧ ew_done w = false) ∧
  (∀ a, a ∈ by_waiting β → a ∉ in_flight β → ∃ w, by_store β !! a = Some w ∧ ew_done w = true) ∧
  (∀ a, a ∈ by_waiting β →
     ((∃ w answer, by_store β !! a = Some w ∧ scheduler_submit_answer (by_scheduler β) w = Some answer) ↔ a ∉ in_flight β)) ∧
  queue_count (by_scheduler β) ≤ es_queue_capacity (by_scheduler β).
Proof.
  intros Hc Hw Hr Hst. destruct (batch_reachable_inv _ _ _ Hc Hw Hr) as [Hcap Hfl].
  destruct (Hfl Hst) as [Hd Hl Hwait]. split; [done|]. split; [|split; [done|split; [|done]]].
  - intros a Ha. destruct (Hl a Ha) as (Haw & w & Ew & _ & Hdone). split; [done|]. by exists w.
  - intros a Ha. unfold scheduler_submit_answer. rewrite Hst. split.
    + intros (w & answer & Ew & Ean) Hin. destruct (Hl a Hin) as (_ & v & Ev & _ & Hdone). simplify_eq.
      by rewrite Hdone in Ean.
    + intros Hin. destruct (Hwait a Ha Hin) as (w & Ew & Hdone). eexists w, _. split; [done|]. by rewrite Hdone.
Qed.
Lemma scheduler_tickets_live_witness :
  in_flight sample_flight = [5] ∧ ∃ w, by_store sample_flight !! 5 = Some w ∧ ew_done w = false.
Proof.
  assert (in_flight sample_flight = [5]) as E by (vm_compute; reflexivity).
  split; [exact E|].
  refine (proj2 (proj1 (proj2 (scheduler_tickets_live 2 1 sample_flight _ _ sample_flight_reachable _)) 5 _)).
  - ulia.
  - ulia.
  - vm_compute. reflexivity.
  - rewrite E. set_solver.
Defined.

(** The first batch of three works of one key and one of another. *)
Definition sample_batch : runtime_engine_scheduler := sample_scheduler <| es_queue := [1; 2; 3] |> <| es_queue_capacity := 4 |>.
Definition sample_batch_store : work_store :=
  <[1 := sample_work]> (<[2 := sample_work <| ew_key := CompatibilityKey YVEX_EXECUTION_COMPATIBILITY_SCHEMA_V2 2 1 0 0 0 7 0 8 4 |>]>
    (<[3 := sample_work]> ∅)).

Lemma scheduler_batch_select_witness :
  queue_ok sample_batch sample_batch_store ∧
  (scheduler_select_locked (λ _, false) sample_batch sample_batch_store).1.1 = [1; 3] ∧
  ∃ selected s' store' dropped,
    scheduler_select_locked (λ _, false) sample_batch sample_batch_store = (selected, s', store') ∧
    selection (λ _, false) sample_batch sample_batch_store selected s' store' dropped ∧
    Z.of_nat (length selected) ≤ es_queue_capacity sample_batch.
Proof.
  assert (queue_ok sample_batch sample_batch_store) as Hq.
  { split; [apply (bool_decide_unpack (NoDup [1; 2; 3])); vm_compute; exact I|]. intros a Ha. cbn in Ha.
    repeat (apply elem_of_cons in Ha as [->|Ha]; [eexists; split; [reflexivity|split; [reflexivity|vm_compute; discriminate]]|]).
    by apply elem_of_nil in Ha. }
  split; [exact Hq|]. split; [vm_compute; reflexivity|].
  apply (scheduler_batch_select (λ _, false) sample_batch sample_batch_store Hq). vm_compute. discriminate.
Defined.

(** Stopping ends that discipline: a submitter that waits when the scheduler stops returns with an error,
    its work, now dead, stays in the queue, and the worker takes the queue's works before it exits. *)
Lemma stop_abandons_work : ∃ β,
  batch_reachable 2 1 β ∧ by_worker β = WorkerIdle ∧ es_queue (by_scheduler β) = [5] ∧ by_store β !! 5 = None.
Proof.
  exists (BatchSystem (coordinator_close_begin sample_submitted.1) (delete 5 sample_submitted.2)
    (({[5]} ∪ ∅) ∖ {[5]}) WorkerIdle).
  split; [|split; [done|split; [vm_compute; reflexivity|apply lookup_delete_eq]]].
  eapply batch_next; [eapply batch_next; [exact sample_flight_reachable|apply batch_stop]|].
  eapply (batch_return _ _ _ _ 5); [set_solver|vm_compute; reflexivity|vm_compute; reflexivity].
Qed.
