(* ===== verification/Pretokenizer.v ===== *)
(** The pre-tokenizer: the Unicode classes of [src/tokenizer/unicode.c] and the splitting of a span into
    pieces of [src/tokenizer/execution.c].

    A walk is a sequence of scalar values the scanner reads one after another. Every rule of the splitter
    walks, so a piece is never empty, never passes the end, and cuts no scalar value. *)

From S2P Require Import Prelude Status Exec Utf8 UnicodeTables.
#[local] Open Scope Z_scope.

(** * Unicode classes *)

(** src/src/tokenizer/unicode.c:336-344, [range_contains] *)
Fixpoint range_search (fuel : nat) (ranges : list (Z * Z)) (point low high : Z) : bool :=
  match fuel with
  | O => false
  | S fuel =>
      if low <? high then
        let middle := low + (high - low) / 2 in
        match array_get ranges middle with
        | None => false
        | Some (first, last) =>
            if point <? first then range_search fuel ranges point low middle
            else if last <? point then range_search fuel ranges point (middle + 1) high
            else true
        end
      else false
  end.

(** src/src/tokenizer/unicode.c, [range_contains] *)
Definition range_contains (ranges : list (Z * Z)) (point : Z) : bool :=
  range_search (S (length ranges)) ranges point 0 (Z.of_nat (length ranges)).

Definition TOKENIZER_UNICODE_NUMBER : Z := 1.
Definition TOKENIZER_UNICODE_LETTER_MARK : Z := 2.
Definition TOKENIZER_UNICODE_PUNCT_SYMBOL : Z := 4.
Definition TOKENIZER_UNICODE_SPACE : Z := 8.

(** src/src/tokenizer/unicode.c, [yvex_tokenizer_unicode_class] *)
Definition yvex_tokenizer_unicode_class (point : Z) : Z :=
  let mark ranges bit result := if range_contains ranges point then Z.lor result bit else result in
  mark space_ranges TOKENIZER_UNICODE_SPACE
    (mark punct_symbol_ranges TOKENIZER_UNICODE_PUNCT_SYMBOL
       (mark letter_mark_ranges TOKENIZER_UNICODE_LETTER_MARK
          (mark number_ranges TOKENIZER_UNICODE_NUMBER 0))).

Definition has_class (point required : Z) : bool :=
  negb (Z.land (yvex_tokenizer_unicode_class point) required =? 0).

(** * The splitter

    A span is its bytes; an offset into it is an argument. *)

(** src/src/tokenizer/execution.c, [span_peek] *)
Definition span_peek (bytes : list Z) (offset : Z) : option (Z * Z) :=
  if Z.of_nat (length bytes) <=? offset then None else yvex_tokenizer_utf8_next bytes offset.

(** The loop that every rule shares: advance while the next scalar value passes the test. *)
Fixpoint span_while (fuel : nat) (test : Z → bool) (bytes : list Z) (offset : Z) : Z :=
  match fuel with
  | O => offset
  | S fuel =>
      match span_peek bytes offset with
      | Some (point, next) => if test point then span_while fuel test bytes next else offset
      | None => offset
      end
  end.

Definition take_while (test : Z → bool) (bytes : list Z) (offset : Z) : Z :=
  span_while (length bytes) test bytes offset.

(** src/src/tokenizer/execution.c, [is_cjk_split] *)
Definition is_cjk_split (point : Z) : bool :=
  ((19968 <=? point) && (point <=? 40869)) || ((12352 <=? point) && (point <=? 12447))
  || ((12448 <=? point) && (point <=? 12543)).

(** src/src/tokenizer/execution.c, [is_ascii_punctuation] *)
Definition is_ascii_punctuation (point : Z) : bool :=
  ((33 <=? point) && (point <=? 47)) || ((58 <=? point) && (point <=? 64))
  || ((91 <=? point) && (point <=? 96)) || ((123 <=? point) && (point <=? 126)).

Definition is_ascii_letter (point : Z) : bool :=
  ((65 <=? point) && (point <=? 90)) || ((97 <=? point) && (point <=? 122)).

Definition is_newline (point : Z) : bool := (point =? 13) || (point =? 10).

(** src/src/tokenizer/execution.c, [take_class] *)
Definition take_class (bytes : list Z) (offset required : Z) : Z :=
  take_while (λ point, has_class point required) bytes offset.

(** src/src/tokenizer/execution.c, [take_numbers] *)
Definition take_numbers (bytes : list Z) (offset : Z) (maximum : nat) : Z :=
  span_while maximum (λ point, has_class point TOKENIZER_UNICODE_NUMBER) bytes offset.

(** src/src/tokenizer/execution.c, [take_cjk] *)
Definition take_cjk (bytes : list Z) (offset : Z) : Z := take_while is_cjk_split bytes offset.

(** Whether the scalar value at an offset passes a test. *)
Definition peek_is (test : Z → bool) (bytes : list Z) (offset : Z) : bool :=
  match span_peek bytes offset with Some (point, _) => test point | None => false end.

(** src/src/tokenizer/execution.c, [take_word_or_symbol] *)
Definition take_word_or_symbol (bytes : list Z) (offset point next : Z) : Z :=
  if is_ascii_punctuation point && peek_is is_ascii_letter bytes next then
    take_while is_ascii_letter bytes next
  else if has_class point TOKENIZER_UNICODE_LETTER_MARK then
    take_class bytes offset TOKENIZER_UNICODE_LETTER_MARK
  else if negb (is_newline point)
          && negb (has_class point (Z.lor TOKENIZER_UNICODE_LETTER_MARK TOKENIZER_UNICODE_PUNCT_SYMBOL))
          && peek_is (λ following, has_class following TOKENIZER_UNICODE_LETTER_MARK) bytes next then
    take_class bytes next TOKENIZER_UNICODE_LETTER_MARK
  else if has_class point TOKENIZER_UNICODE_PUNCT_SYMBOL then
    take_while is_newline bytes (take_class bytes offset TOKENIZER_UNICODE_PUNCT_SYMBOL)
  else offset.

(** The run of spaces: its end, the start of its last scalar value, how many there are, and whether one is
    a line break.
    src/src/tokenizer/execution.c:1000-1007, [take_space] *)
Fixpoint space_run (fuel : nat) (bytes : list Z) (run_end prior : Z) (scalar_count : Z) (has_newline : bool)
    : Z * Z * Z * bool :=
  match fuel with
  | O => (run_end, prior, scalar_count, has_newline)
  | S fuel =>
      match span_peek bytes run_end with
      | Some (point, next) =>
          if has_class point TOKENIZER_UNICODE_SPACE then
            space_run fuel bytes next run_end (u32 (scalar_count + 1)) (has_newline || is_newline point)
          else (run_end, prior, scalar_count, has_newline)
      | None => (run_end, prior, scalar_count, has_newline)
      end
  end.

(** src/src/tokenizer/execution.c, [take_space] *)
Definition take_space (bytes : list Z) (offset : Z) : Z :=
  let '(run_end, prior, scalar_count, has_newline) := space_run (length bytes) bytes offset offset 0 false in
  if has_newline || (run_end =? Z.of_nat (length bytes)) then run_end
  else if peek_is (λ following, has_class following TOKENIZER_UNICODE_LETTER_MARK) bytes run_end then
    if 1 <? scalar_count then prior else take_class bytes run_end TOKENIZER_UNICODE_LETTER_MARK
  else if bool_decide (array_get bytes prior = Some 32)
          && peek_is (λ following, has_class following TOKENIZER_UNICODE_PUNCT_SYMBOL) bytes run_end then
    if 1 <? scalar_count then prior
    else take_while is_newline bytes (take_class bytes run_end TOKENIZER_UNICODE_PUNCT_SYMBOL)
  else run_end.

(** src/src/tokenizer/execution.c, [next_piece] *)
Definition next_piece (bytes : list Z) (offset : Z) (qwen2_pretokenizer : bool) : Z :=
  match span_peek bytes offset with
  | None => Z.of_nat (length bytes)
  | Some (point, next) =>
      if has_class point TOKENIZER_UNICODE_NUMBER then
        take_numbers bytes offset (if qwen2_pretokenizer then 1 else 3)
      else if negb qwen2_pretokenizer && is_cjk_split point then take_cjk bytes offset
      else
        let end_ := take_word_or_symbol bytes offset point next in
        if negb (end_ =? offset) then end_
        else if has_class point TOKENIZER_UNICODE_SPACE then take_space bytes offset
        else next
  end.

(** The loop over the pieces of a span; [encode] is what is done with a piece.
    src/src/tokenizer/execution.c, [ordinary_encode] *)
Fixpoint ordinary_encode_loop {S : Type} (encode : list Z → S → run S) (fuel : nat) (bytes : list Z)
    (offset : Z) (qwen2_pretokenizer : bool) (s : S) : run S :=
  if offset <? Z.of_nat (length bytes) then
    match fuel with
    | O => None
    | Datatypes.S fuel =>
        let end_ := next_piece bytes offset qwen2_pretokenizer in
        if (end_ <=? offset) || (Z.of_nat (length bytes) <? end_) then
          run_refuse YVEX_ERR_FORMAT "pre-tokenizer failed to advance canonically"
        else
          let! s := encode (take (Z.to_nat (end_ - offset)) (drop (Z.to_nat offset) bytes)) s in
          ordinary_encode_loop encode fuel bytes end_ qwen2_pretokenizer s
    end
  else run_ret s.

(** * Classes agree with their tables *)

(** Every range is ordered and ends before the next one starts. *)
Fixpoint ranges_sorted (ranges : list (Z * Z)) : bool :=
  match ranges with
  | [] => true
  | (first, last) :: rest =>
      (first <=? last) && match rest with (next, _) :: _ => last <? next | [] => true end && ranges_sorted rest
  end.

Definition in_ranges (ranges : list (Z * Z)) (point : Z) : Prop :=
  ∃ first last, (first, last) ∈ ranges ∧ first ≤ point ≤ last.

Lemma ranges_sorted_tail r rest : ranges_sorted (r :: rest) = true → ranges_sorted rest = true.
Proof. destruct r. cbn. intros H. by apply andb_true_iff in H as [_ H]. Qed.

Lemma ranges_sorted_lookup ranges (i j : nat) a b c d :
  ranges_sorted ranges = true → ranges !! i = Some (a, b) → ranges !! j = Some (c, d) → (i < j)%nat →
  a ≤ b ∧ b < c ∧ c ≤ d.
Proof.
  revert i j a b. induction ranges as [|[f l] rest IH]; intros i j a b Hs Hi Hj Hij; [done|].
  destruct i as [|i]; [|destruct j as [|j]; [lia|]; apply (IH i j); [by eapply ranges_sorted_tail|done..|lia]].
  destruct j as [|j]; [lia|]. cbn in Hi, Hj. injection Hi as <- <-.
  cbn in Hs. destruct rest as [|[f' l'] rest]; [done|]. guards. destruct j as [|j].
  - cbn in Hj. injection Hj as <- <-. cbn in *. guards. lia.
  - destruct (IH 0%nat (S j) f' l') as (? & ? & ?); [by guards|done..|lia|]. lia.
Qed.

(** The binary search, on a window outside which no range holds the point. *)
Lemma range_search_spec ranges point fuel low high :
  ranges_sorted ranges = true → 0 ≤ low ≤ high → high ≤ Z.of_nat (length ranges) → (Z.to_nat (high - low) < fuel)%nat →
  (∀ i a b, ranges !! i = Some (a, b) → a ≤ point ≤ b → low ≤ Z.of_nat i < high) →
  range_search fuel ranges point low high = true ↔ in_ranges ranges point.
Proof.
  intros Hs. revert low high. induction fuel as [|fuel IH]; intros low high Hlh Hh Hf Hout; [lia|].
  cbn [range_search]. destruct (Z.ltb_spec low high) as [Hlt|Hge].
  - set (middle := low + (high - low) / 2). assert (low ≤ middle < high) as Hm.
    { pose proof (Z.div_pos (high - low) 2). pose proof (Z.div_lt (high - low) 2). lia. }
    destruct (array_get_is_Some ranges middle) as [[f l] E]; [lia|]. rewrite E.
    apply array_get_Some in E as [_ E].
    destruct (Z.ltb_spec point f).
    { apply IH; [lia..|]. intros i a b Hi Hp. pose proof (Hout i a b Hi Hp).
      destruct (Z.lt_ge_cases (Z.of_nat i) middle); [lia|]. exfalso.
      destruct (decide (i = Z.to_nat middle)) as [->|]; [simplify_eq; lia|].
      pose proof (ranges_sorted_lookup ranges (Z.to_nat middle) i f l a b Hs E Hi ltac:(lia)). lia. }
    destruct (Z.ltb_spec l point).
    { apply IH; [lia..|]. intros i a b Hi Hp. pose proof (Hout i a b Hi Hp).
      destruct (Z.lt_ge_cases middle (Z.of_nat i)); [lia|]. exfalso.
      destruct (decide (i = Z.to_nat middle)) as [->|]; [simplify_eq; lia|].
      pose proof (ranges_sorted_lookup ranges i (Z.to_nat middle) a b f l Hs Hi E ltac:(lia)). lia. }
    split; [|done]. intros _. exists f, l. split; [by eapply list_elem_of_lookup_2|lia].
  - split; [done|]. intros (a & b & [i Hi]%list_elem_of_lookup_1 & Hp). pose proof (Hout i a b Hi Hp). lia.
Qed.

Lemma range_contains_spec ranges point :
  ranges_sorted ranges = true → range_contains ranges point = true ↔ in_ranges ranges point.
Proof.
  intros Hs. apply range_search_spec; [done|lia..|]. intros i a b Hi _. apply lookup_lt_Some in Hi. lia.
Qed.

Lemma unicode_ranges_sorted :
  ranges_sorted number_ranges = true ∧ ranges_sorted letter_mark_ranges = true ∧
  ranges_sorted punct_symbol_ranges = true ∧ ranges_sorted space_ranges = true.
Proof. split_and!; vm_compute; reflexivity. Qed.

(** A class bit is set exactly when a range of its table holds the point. *)
Lemma has_class_spec point :
  (has_class point TOKENIZER_UNICODE_NUMBER = true ↔ in_ranges number_ranges point) ∧
  (has_class point TOKENIZER_UNICODE_LETTER_MARK = true ↔ in_ranges letter_mark_ranges point) ∧
  (has_class point TOKENIZER_UNICODE_PUNCT_SYMBOL = true ↔ in_ranges punct_symbol_ranges point) ∧
  (has_class point TOKENIZER_UNICODE_SPACE = true ↔ in_ranges space_ranges point).
Proof.
  destruct unicode_ranges_sorted as (Hn & Hl & Hp & Hs).
  rewrite <- !range_contains_spec by done. unfold has_class, yvex_tokenizer_unicode_class.
  by repeat match goal with |- context [range_contains ?r point] => destruct (range_contains r point) end.
Qed.

(** * Walks *)

(** The scanner reads [points] one after another, from one offset to another. *)
Inductive reads (bytes : list Z) : Z → list Z → Z → Prop :=
  | reads_none offset : reads bytes offset [] offset
  | reads_next offset point next points to :
      yvex_tokenizer_utf8_next bytes offset = Some (point, next) → reads bytes next points to →
      reads bytes offset (point :: points) to.

Section walks.
Context (bytes : list Z) (Hbytes : Forall is_u8 bytes).
Let count := Z.of_nat (length bytes).

Lemma reads_app from ps middle qs to :
  reads bytes from ps middle → reads bytes middle qs to → reads bytes from (ps ++ qs) to.
Proof. induction 1; intros H'; [done|]. cbn. eapply reads_next; eauto. Qed.

Lemma span_peek_next offset point next :
  0 ≤ offset → span_peek bytes offset = Some (point, next) →
  yvex_tokenizer_utf8_next bytes offset = Some (point, next) ∧ offset < next ≤ count.
Proof.
  intros Ho. unfold span_peek. split_guard; [done|]. intros H. split; [done|].
  by eapply utf8_next_grows.
Qed.

Lemma reads_bounds from ps to :
  0 ≤ from ≤ count → reads bytes from ps to → from + Z.of_nat (length ps) ≤ to ≤ count.
Proof.
  intros Hf Hw. induction Hw as [|x p y ps z Hp _ IH]; [cbn; lia|].
  pose proof (utf8_next_grows bytes x p y Hbytes ltac:(lia) Hp). cbn [length]. lia.
Qed.

Lemma reads_some from ps to : 0 ≤ from ≤ count → reads bytes from ps to → ps ≠ [] → from < to.
Proof. intros Hf Hr Hp. pose proof (reads_bounds _ _ _ Hf Hr). destruct ps; [done|]. cbn in *. lia. Qed.

(** What has been read is the encoding of the points. *)
Lemma reads_text from ps to :
  0 ≤ from ≤ count → reads bytes from ps to →
  Forall is_scalar ps ∧ take (Z.to_nat (to - from)) (drop (Z.to_nat from) bytes) = utf8_text ps.
Proof.
  intros Hf Hw. revert Hf. induction Hw as [x|x p y ps z Hp Hw IH]; intros Hf.
  { by rewrite Z.sub_diag. }
  pose proof (utf8_next_grows bytes x p y Hbytes ltac:(lia) Hp) as Hg.
  apply utf8_next_spec in Hp as (Hs & -> & [tl Htl]); [|done|lia].
  destruct IH as (Hps & E); [lia|]. split; [by constructor|].
  rewrite utf8_text_cons, <- E. set (n := length (utf8_put p)) in *.
  pose proof (reads_bounds (x + Z.of_nat n) ps z ltac:(lia) Hw).
  replace (Z.to_nat (z - x)) with (n + Z.to_nat (z - (x + Z.of_nat n)))%nat by lia.
  replace (Z.to_nat (x + Z.of_nat n)) with (Z.to_nat x + n)%nat by lia.
  rewrite <- drop_drop, Htl, drop_app_length' by done. by rewrite take_app_add'.
Qed.

Lemma span_while_reads fuel test offset :
  0 ≤ offset ≤ count →
  ∃ ps, reads bytes offset ps (span_while fuel test bytes offset) ∧ Forall (λ p, test p = true) ps ∧
    (length ps ≤ fuel)%nat ∧ ((0 < fuel)%nat → peek_is test bytes offset = true → ps ≠ []).
Proof.
  revert offset. induction fuel as [|fuel IH]; intros offset Ho; cbn [span_while].
  { exists []. split_and!; [constructor|done|done|lia]. }
  unfold peek_is. destruct (span_peek bytes offset) as [[p next]|] eqn:E; [destruct (test p) eqn:Et|].
  2,3: exists []; split_and!; [constructor|done|cbn; lia|done].
  apply span_peek_next in E as [E Hn]; [|lia]. destruct (IH next ltac:(lia)) as (ps & Hr & Hps & Hl & _).
  exists (p :: ps). split_and!; [by eapply reads_next|by constructor|cbn; lia|done].
Qed.

Lemma take_while_reads test offset :
  0 ≤ offset ≤ count →
  ∃ ps, reads bytes offset ps (take_while test bytes offset) ∧ Forall (λ p, test p = true) ps ∧
    (peek_is test bytes offset = true → ps ≠ []).
Proof.
  intros Ho. destruct (span_while_reads (length bytes) test offset Ho) as (ps & Hr & Hps & _ & Hne).
  exists ps. split_and!; [done|done|]. intros Hp. apply Hne; [|done]. unfold peek_is, span_peek in Hp.
  destruct (Z.leb_spec (Z.of_nat (length bytes)) offset); [done|lia].
Qed.

(** A loop ends where its test fails. *)
Lemma span_while_stops fuel test offset :
  0 ≤ offset ≤ count → count - offset < Z.of_nat fuel →
  peek_is test bytes (span_while fuel test bytes offset) = false.
Proof.
  revert offset. induction fuel as [|fuel IH]; intros offset Ho Hf; [lia|]. cbn [span_while].
  destruct (span_peek bytes offset) as [[p next]|] eqn:E.
  - destruct (test p) eqn:Et; [|by unfold peek_is; rewrite E].
    apply span_peek_next in E as [E Hn]; [|lia]. apply IH; lia.
  - unfold peek_is. by rewrite E.
Qed.

Lemma peek_is_Some test offset point next :
  span_peek bytes offset = Some (point, next) → peek_is test bytes offset = test point.
Proof. unfold peek_is. by intros ->. Qed.

(** What a rule reads from an offset. *)
Definition reads_piece (offset to : Z) : Prop := ∃ ps, reads bytes offset ps to ∧ ps ≠ [].

Lemma class_split point a b :
  has_class point (Z.lor a b) = has_class point a || has_class point b.
Proof.
  unfold has_class. rewrite Z.land_lor_distr_r.
  destruct (Z.eqb_spec (Z.land (yvex_tokenizer_unicode_class point) a) 0) as [->|Ha];
    destruct (Z.eqb_spec (Z.land (yvex_tokenizer_unicode_class point) b) 0) as [->|Hb]; cbn; [done|..];
    rewrite (proj2 (Z.eqb_neq _ _)); try done; rewrite Z.lor_eq_0_iff; tauto.
Qed.

Lemma take_word_or_symbol_piece offset point next :
  0 ≤ offset ≤ count → span_peek bytes offset = Some (point, next) →
  take_word_or_symbol bytes offset point next = offset ∨
  reads_piece offset (take_word_or_symbol bytes offset point next).
Proof.
  intros Ho E. pose proof (span_peek_next _ _ _ (proj1 Ho) E) as [Es Hn].
  unfold take_word_or_symbol, take_class.
  split_guard; [|split_guard; [|split_guard; [|split_guard; [|by left]]]]; right.
  - guards_in E0. destruct (take_while_reads is_ascii_letter next ltac:(lia)) as (ps & Hr & Hps & Hne).
    exists (point :: ps). split; [by eapply reads_next|done].
  - destruct (take_while_reads (λ p, has_class p TOKENIZER_UNICODE_LETTER_MARK) offset Ho) as (ps & Hr & Hps & Hne).
    rewrite (peek_is_Some _ _ _ _ E) in Hne. specialize (Hne ltac:(done)).
    by exists ps.
  - destruct (take_while_reads (λ p, has_class p TOKENIZER_UNICODE_LETTER_MARK) next ltac:(lia)) as (ps & Hr & Hps & Hne).
    exists (point :: ps). split; [by eapply reads_next|done].
  - destruct (take_while_reads (λ p, has_class p TOKENIZER_UNICODE_PUNCT_SYMBOL) offset Ho) as (ps & Hr & Hps & Hne).
    rewrite (peek_is_Some _ _ _ _ E) in Hne. specialize (Hne ltac:(done)).
    pose proof (reads_bounds _ _ _ Ho Hr).
    destruct (take_while_reads is_newline (take_while (λ p, has_class p TOKENIZER_UNICODE_PUNCT_SYMBOL) bytes offset)
      ltac:(lia)) as (ns & Hr2 & Hns & _).
    exists (ps ++ ns). split; [by eapply reads_app|by destruct ps].
Qed.

(** The run of spaces that starts at [offset]. *)
Lemma space_run_reads offset fuel run_end prior ps newline run_end' prior' c' newline' :
  0 ≤ offset ≤ count → reads bytes offset ps run_end →
  Forall (λ p, has_class p TOKENIZER_UNICODE_SPACE = true) ps →
  (∃ qs, reads bytes offset qs prior ∧ Forall (λ p, has_class p TOKENIZER_UNICODE_SPACE = true) qs ∧
     length qs = pred (length ps)) →
  space_run fuel bytes run_end prior (u32 (Z.of_nat (length ps))) newline = (run_end', prior', c', newline') →
  ∃ ps' qs', reads bytes offset ps' run_end' ∧ reads bytes offset qs' prior' ∧
    Forall (λ p, has_class p TOKENIZER_UNICODE_SPACE = true) ps' ∧
    Forall (λ p, has_class p TOKENIZER_UNICODE_SPACE = true) qs' ∧
    (length ps ≤ length ps')%nat ∧ (1 < c' → qs' ≠ []).
Proof.
  intros Ho. revert run_end prior ps newline.
  assert (∀ ps qs : list Z, length qs = pred (length ps) → 1 < u32 (Z.of_nat (length ps)) → qs ≠ []) as Hend.
  { intros ps [|q qs] Hl H; [|done]. cbn in Hl. unfold u32 in H. rewrite Z.mod_small in H; lia. }
  induction fuel as [|fuel IH]; intros run_end prior ps newline Hr Hps (qs & Hq & Hqs & Hl); cbn [space_run].
  { intros [= <- <- <- _]. exists ps, qs. split_and!; eauto. }
  pose proof (reads_bounds _ _ _ Ho Hr) as Hb.
  destruct (span_peek bytes run_end) as [[p next]|] eqn:E; [destruct (has_class p TOKENIZER_UNICODE_SPACE) eqn:Ec|].
  2,3: intros [= <- <- <- _]; exists ps, qs; split_and!; eauto.
  apply span_peek_next in E as [E Hn]; [|lia]. intros Er.
  assert (u32 (u32 (Z.of_nat (length ps)) + 1) = u32 (Z.of_nat (length (ps ++ [p])))) as Eu.
  { unfold u32. rewrite Zplus_mod_idemp_l, length_app. f_equal. cbn. lia. }
  rewrite Eu in Er. apply IH in Er as (ps' & qs' & ? & ? & ? & ? & Hle & ?).
  - exists ps', qs'. split_and!; try done. rewrite length_app in Hle. lia.
  - eapply reads_app; [done|]. eapply reads_next; [done|constructor].
  - apply Forall_app. by split; [|constructor].
  - exists ps. split_and!; [done..|]. rewrite length_app. cbn. lia.
Qed.

Lemma take_space_piece offset point next :
  0 ≤ offset ≤ count → span_peek bytes offset = Some (point, next) →
  has_class point TOKENIZER_UNICODE_SPACE = true → reads_piece offset (take_space bytes offset).
Proof.
  intros Ho E Hc. pose proof (span_peek_next _ _ _ (proj1 Ho) E) as [Es Hn].
  unfold take_space. destruct (space_run _ _ _ _ _ _) as [[[e pr] c] nl] eqn:Er.
  assert (∃ fuel, length bytes = S fuel) as [fuel El] by (exists (pred (length bytes)); lia).
  rewrite El in Er. cbn [space_run] in Er. rewrite E, Hc in Er.
  change (u32 (0 + 1)) with (u32 (Z.of_nat (length [point]))) in Er.
  apply (space_run_reads offset) in Er as (ps & qs & Hr & Hq & Hps & Hqs & Hlen & Hne).
  2: exact Ho.
  2: { eapply reads_next; [done|constructor]. }
  2: by constructor.
  2: { exists []. split_and!; [constructor|done..]. }
  assert (ps ≠ []) as Hpne by (by destruct ps; [cbn in Hlen; lia|]).
  pose proof (reads_bounds _ _ _ Ho Hr) as Hb.
  assert (reads_piece offset e) as Hspaces.
  { by exists ps. }
  assert (1 < c → reads_piece offset pr) as Hprior.
  { intros H. exists qs. split; [done|auto]. }
  split_guard; [done|]. split_guard; [split_guard|split_guard; [split_guard|done]].
  1,3: apply Hprior; by apply Z.ltb_lt.
  - destruct (take_while_reads (λ p, has_class p TOKENIZER_UNICODE_LETTER_MARK) e ltac:(lia)) as (ls & Hl & Hls & _).
    exists (ps ++ ls). split; [by eapply reads_app|by destruct ps].
  - destruct (take_while_reads (λ p, has_class p TOKENIZER_UNICODE_PUNCT_SYMBOL) e ltac:(lia))
      as (ls & Hl & Hls & Hlne).
    pose proof (reads_bounds e ls _ ltac:(lia) Hl).
    destruct (take_while_reads is_newline (take_class bytes e TOKENIZER_UNICODE_PUNCT_SYMBOL)
      ltac:(unfold take_class; lia)) as (ns & Hr2 & Hns & _).
    exists (ps ++ ls ++ ns). split; [eapply reads_app; [done|by eapply reads_app]|by destruct ps].
Qed.

(** A piece that starts at a scalar value reads some. *)
Lemma next_piece_reads qwen2 offset point next :
  0 ≤ offset ≤ count → span_peek bytes offset = Some (point, next) →
  reads_piece offset (next_piece bytes offset qwen2).
Proof.
  intros Ho E. pose proof (span_peek_next _ _ _ (proj1 Ho) E) as [Es Hn].
  unfold next_piece. rewrite E. split_guard; [|split_guard].
  - destruct (span_while_reads (if qwen2 then 1 else 3) (λ p, has_class p TOKENIZER_UNICODE_NUMBER) offset Ho)
      as (ps & Hr & Hps & Hl & Hne).
    rewrite (peek_is_Some _ _ _ _ E) in Hne. specialize (Hne ltac:(destruct qwen2; lia) ltac:(done)).
    exists ps. split; [by destruct qwen2|done].
  - guards_in E1. destruct (take_while_reads is_cjk_split offset Ho) as (ps & Hr & Hps & Hne).
    rewrite (peek_is_Some _ _ _ _ E) in Hne. exists ps. split; [done|auto].
  - destruct (take_word_or_symbol_piece offset point next Ho E) as [Heq|Ha].
    + rewrite Heq, Z.eqb_refl. cbn [negb]. split_guard; [by eapply take_space_piece|].
      exists [point]. split; [eapply reads_next; [done|constructor]|done].
    + destruct Ha as (ps & Hr & Hne). pose proof (reads_some _ _ _ Ho Hr Hne).
      rewrite (proj2 (Z.eqb_neq _ _)) by lia. by exists ps.
Qed.

Lemma next_piece_bounds offset qwen2 :
  0 ≤ offset < count → offset < next_piece bytes offset qwen2 ≤ count.
Proof.
  intros Ho. destruct (span_peek bytes offset) as [[point next]|] eqn:E.
  - destruct (next_piece_reads qwen2 offset point next ltac:(lia) E) as (ps & Hr & Hne).
    pose proof (reads_bounds offset ps _ ltac:(lia) Hr). pose proof (reads_some offset ps _ ltac:(lia) Hr Hne). lia.
  - unfold next_piece. rewrite E. fold count. lia.
Qed.

(** Reading a valid text reads its scalar values. *)
Lemma reads_of_text from ps to points :
  0 ≤ from ≤ count → reads bytes from ps to → Forall is_scalar points →
  drop (Z.to_nat from) bytes = utf8_text points →
  ∃ rest, points = ps ++ rest ∧ drop (Z.to_nat to) bytes = utf8_text rest.
Proof.
  intros Hf Hr Hp Ht. destruct (reads_text from ps to Hf Hr) as [Hs E].
  pose proof (reads_bounds _ _ _ Hf Hr) as Hb.
  assert (utf8_text points = utf8_text ps ++ drop (Z.to_nat to) bytes) as Ej.
  { rewrite <- E, <- Ht. replace (Z.to_nat to) with (Z.to_nat from + Z.to_nat (to - from))%nat by lia.
    rewrite <- drop_drop. by rewrite take_drop. }
  apply utf8_text_strip; [done|done|by apply Forall_drop|done].
Qed.

Lemma text_peek from points :
  0 ≤ from < count → Forall is_scalar points → drop (Z.to_nat from) bytes = utf8_text points →
  ∃ point next, span_peek bytes from = Some (point, next).
Proof.
  intros Hf Hp Ht. destruct points as [|p points].
  { apply (f_equal length) in Ht. rewrite length_drop in Ht. cbn in Ht. lia. }
  apply Forall_cons in Hp as [Hp _]. exists p, (from + Z.of_nat (length (utf8_put p))).
  unfold span_peek. rewrite (proj2 (Z.leb_gt _ _)) by lia.
  apply utf8_next_spec; [done|lia|]. split; [done|]. split; [done|]. rewrite Ht. by exists (utf8_text points).
Qed.
End walks.

(** * The pieces of a span *)

Fixpoint span_pieces (fuel : nat) (bytes : list Z) (offset : Z) (qwen2 : bool) : list (list Z) :=
  match fuel with
  | O => []
  | S fuel =>
      if offset <? Z.of_nat (length bytes) then
        let end_ := next_piece bytes offset qwen2 in
        take (Z.to_nat (end_ - offset)) (drop (Z.to_nat offset) bytes) :: span_pieces fuel bytes end_ qwen2
      else []
  end.

Section pieces.
Context (bytes : list Z) (Hbytes : Forall is_u8 bytes) (qwen2 : bool).

Lemma encode_loop_pieces {S : Type} (encode : list Z → S → run S) fuel offset s :
  0 ≤ offset ≤ Z.of_nat (length bytes) → Z.of_nat (length bytes) - offset ≤ Z.of_nat fuel →
  ordinary_encode_loop encode fuel bytes offset qwen2 s = for_each encode (span_pieces fuel bytes offset qwen2) s.
Proof.
  revert offset s. induction fuel as [|fuel IH]; intros offset s Ho Hf; cbn [ordinary_encode_loop span_pieces];
    destruct (Z.ltb_spec offset (Z.of_nat (length bytes))); try done; [lia|].
  pose proof (next_piece_bounds bytes Hbytes offset qwen2 ltac:(lia)) as Hb.
  rewrite (proj2 (Z.leb_gt _ _)), (proj2 (Z.ltb_ge _ _)) by lia. cbn [orb for_each].
  destruct (encode _ s) as [[s'|]|]; [|done..]. cbn. apply IH; lia.
Qed.

Lemma span_pieces_join fuel offset :
  0 ≤ offset ≤ Z.of_nat (length bytes) → Z.of_nat (length bytes) - offset ≤ Z.of_nat fuel →
  mjoin (span_pieces fuel bytes offset qwen2) = drop (Z.to_nat offset) bytes ∧
  Forall (λ piece, piece ≠ []) (span_pieces fuel bytes offset qwen2).
Proof.
  revert offset. induction fuel as [|fuel IH]; intros offset Ho Hf; cbn [span_pieces].
  { split; [|done]. by rewrite drop_ge by lia. }
  destruct (Z.ltb_spec offset (Z.of_nat (length bytes))); [|split; [by rewrite drop_ge by lia|done]].
  pose proof (next_piece_bounds bytes Hbytes offset qwen2 ltac:(lia)) as Hb.
  destruct (IH (next_piece bytes offset qwen2)) as [E Hne]; [lia..|].
  set (end_ := next_piece bytes offset qwen2) in *. split.
  - change (mjoin (?x :: ?l)) with (x ++ mjoin l). rewrite E.
    replace (Z.to_nat end_) with (Z.to_nat offset + Z.to_nat (end_ - offset))%nat by lia.
    by rewrite <- drop_drop, take_drop.
  - constructor; [|done]. intros E0. apply (f_equal length) in E0. rewrite length_take, length_drop in E0. cbn in E0. lia.
Qed.

Lemma span_pieces_texts fuel offset points :
  0 ≤ offset ≤ Z.of_nat (length bytes) → Z.of_nat (length bytes) - offset ≤ Z.of_nat fuel →
  Forall is_scalar points → drop (Z.to_nat offset) bytes = utf8_text points →
  ∃ texts, span_pieces fuel bytes offset qwen2 = utf8_text <$> texts ∧
    points = mjoin texts.
Proof.
  revert offset points. induction fuel as [|fuel IH]; intros offset points Ho Hf Hp Ht; cbn [span_pieces].
  { rewrite drop_ge in Ht by lia. exists []. split; [done|]. by apply (utf8_text_inj points []). }
  destruct (Z.ltb_spec offset (Z.of_nat (length bytes))).
  - destruct (text_peek bytes Hbytes offset points ltac:(lia) Hp Ht) as (point & next & E).
    destruct (next_piece_reads bytes Hbytes qwen2 offset point next ltac:(lia) E) as (ps & Hr & Hne).
    pose proof (next_piece_bounds bytes Hbytes offset qwen2 ltac:(lia)) as Hb.
    set (end_ := next_piece bytes offset qwen2) in *.
    destruct (reads_text bytes Hbytes offset ps end_ ltac:(lia) Hr) as [_ Etake].
    destruct (reads_of_text bytes Hbytes offset ps end_ points ltac:(lia) Hr Hp Ht) as (rest & -> & Erest).
    apply Forall_app in Hp as [_ Hp].
    destruct (IH end_ rest) as (texts & E1 & E2); [lia|lia|done|done|].
    exists (ps :: texts). split; [by rewrite Etake, E1|by rewrite E2].
  - rewrite drop_ge in Ht by lia. exists []. split; [done|]. by apply (utf8_text_inj points []).
Qed.
End pieces.

(** * The splitting grammar

    The reference splitter works on the scalar values of a text. Its rules are alternatives tried in order, each taking
    as many values as it can. *)

(** The longest beginning whose values pass a test. *)
Fixpoint leading (test : Z → bool) (points : list Z) : list Z :=
  match points with
  | [] => []
  | p :: points => if test p then p :: leading test points else []
  end.

Definition head_is (test : Z → bool) (points : list Z) : bool :=
  match points with [] => false | p :: _ => test p end.

Abbreviation is_number := (λ p, has_class p TOKENIZER_UNICODE_NUMBER).
Abbreviation is_letter := (λ p, has_class p TOKENIZER_UNICODE_LETTER_MARK).
Abbreviation is_symbol := (λ p, has_class p TOKENIZER_UNICODE_PUNCT_SYMBOL).
Abbreviation is_space := (λ p, has_class p TOKENIZER_UNICODE_SPACE).

(** Symbols and the line breaks after them. *)
Definition symbols_of (points : list Z) : list Z :=
  let symbols := leading is_symbol points in
  symbols ++ leading is_newline (drop (length symbols) points).

(** Of a run of spaces, everything when a line break is in it or the text ends behind it, and otherwise everything but
    the space before a word, or the U+0020 before symbols; one such U+0020 alone goes with its symbols. *)
Definition spaces_of (points : list Z) : list Z :=
  let spaces := leading is_space points in
  let rest := drop (length spaces) points in
  if existsb is_newline spaces || bool_decide (rest = []) then spaces
  else if head_is is_letter rest then
    if (1 <? length spaces)%nat then take (length spaces - 1) spaces else spaces ++ leading is_letter rest
  else if bool_decide (last spaces = Some 32) && head_is is_symbol rest then
    if (1 <? length spaces)%nat then take (length spaces - 1) spaces else spaces ++ symbols_of rest
  else spaces.

Definition first_piece (qwen2 : bool) (points : list Z) : list Z :=
  match points with
  | [] => []
  | p :: rest =>
      if is_number p then take (if qwen2 then 1 else 3) (leading is_number points)
      else if negb qwen2 && is_cjk_split p then leading is_cjk_split points
      else if is_ascii_punctuation p && head_is is_ascii_letter rest then p :: leading is_ascii_letter rest
      else if is_letter p then leading is_letter points
      else if negb (is_newline p) && negb (is_symbol p) && head_is is_letter rest then p :: leading is_letter rest
      else if is_symbol p then symbols_of points
      else if is_space p then spaces_of points
      else [p]
  end.

Fixpoint split_from (fuel : nat) (qwen2 : bool) (points : list Z) : list (list Z) :=
  match fuel, points with
  | S fuel, _ :: _ =>
      let piece := first_piece qwen2 points in piece :: split_from fuel qwen2 (drop (length piece) points)
  | _, _ => []
  end.

Definition split_text (qwen2 : bool) (points : list Z) : list (list Z) := split_from (length points) qwen2 points.

(** ** The shapes of a piece *)

Definition all_of (test : Z → bool) (points : list Z) : Prop := points ≠ [] ∧ Forall (λ p, test p = true) points.

Inductive piece_shape (qwen2 : bool) : list Z → Prop :=
  | shape_numbers ps : all_of is_number ps → (length ps ≤ if qwen2 then 1 else 3)%nat → piece_shape qwen2 ps
  | shape_cjk ps : qwen2 = false → all_of is_cjk_split ps → piece_shape qwen2 ps
  | shape_ascii_word p ps : is_ascii_punctuation p = true → all_of is_ascii_letter ps → piece_shape qwen2 (p :: ps)
  | shape_letters ps : all_of is_letter ps → piece_shape qwen2 ps
  | shape_prefixed_letters p ps :
      is_newline p = false → is_letter p = false → is_symbol p = false → all_of is_letter ps → piece_shape qwen2 (p :: ps)
  | shape_symbols blank ps newlines :
      blank = [] ∨ blank = [32] → all_of is_symbol ps → Forall (λ p, is_newline p = true) newlines →
      piece_shape qwen2 (blank ++ ps ++ newlines)
  | shape_spaces spaces : all_of is_space spaces → piece_shape qwen2 spaces
  | shape_other p : is_number p = false → is_letter p = false → is_symbol p = false → is_space p = false → piece_shape qwen2 [p].

Lemma leading_all test points : Forall (λ p, test p = true) (leading test points).
Proof. induction points as [|p points IH]; cbn; [constructor|]. destruct (test p) eqn:E; by constructor. Qed.

Lemma leading_prefix test points : points = leading test points ++ drop (length (leading test points)) points.
Proof. induction points as [|p points IH]; cbn; [done|]. destruct (test p); [|done]. cbn. by f_equal. Qed.

Lemma leading_head test points : head_is test points = true → leading test points ≠ [].
Proof. destruct points as [|p points]; [done|]. cbn. by intros ->. Qed.

Lemma leading_all_of test points : head_is test points = true → all_of test (leading test points).
Proof. split; [by apply leading_head|apply leading_all]. Qed.

Lemma symbols_shape blank points : head_is is_symbol points = true → blank = [] ∨ blank = [32] →
  ∀ qwen2, piece_shape qwen2 (blank ++ symbols_of points).
Proof. intros Hh Hb qwen2. unfold symbols_of. apply shape_symbols; [done|by apply leading_all_of|apply leading_all]. Qed.

Lemma spaces_shape qwen2 points :
  head_is is_space points = true → head_is is_letter points = false → head_is is_symbol points = false →
  piece_shape qwen2 (spaces_of points).
Proof.
  intros Hh Hnl Hns. pose proof (leading_prefix is_space points) as Epre. pose proof (leading_all_of _ _ Hh) as Hs. unfold spaces_of. set (spaces := leading is_space points) in *.
  set (rest := drop (length spaces) points). pose proof (shape_spaces qwen2 _ Hs) as Hall.
  assert ((1 <? length spaces)%nat = true → piece_shape qwen2 (take (length spaces - 1) spaces)) as Htake.
  { intros Hl%Nat.ltb_lt. apply shape_spaces. split; [|apply Forall_take, Hs].
    intros E. apply (f_equal length) in E. rewrite length_take in E. cbn in E. lia. }
  destruct (existsb is_newline spaces || _) eqn:Enl; [done|]. apply orb_false_iff in Enl as [Enl _].
  destruct (head_is is_letter rest) eqn:El; [|destruct (bool_decide (last spaces = Some 32) && head_is is_symbol rest) eqn:Es; [|done]];
    (destruct (1 <? length spaces)%nat eqn:E1; [by apply Htake|]); apply Nat.ltb_ge in E1;
    destruct spaces as [|p [|]]; cbn [length] in *; try lia; try by destruct Hs.
  - cbn [existsb] in Enl. apply orb_false_iff in Enl as [Enl _]. rewrite Epre in Hnl, Hns. cbn [app head_is] in Hnl, Hns.
    cbn [app]. apply shape_prefixed_letters; [done..|]. by apply leading_all_of.
  - apply andb_true_iff in Es as [[= ->]%bool_decide_eq_true Es]. apply (symbols_shape [32]); [done|by right].
Qed.

Lemma first_piece_shape qwen2 points : points ≠ [] → piece_shape qwen2 (first_piece qwen2 points).
Proof.
  destruct points as [|p points]; [done|]. intros _. cbn [first_piece].
  destruct (is_number p) eqn:En.
  { apply shape_numbers; [|rewrite length_take; destruct qwen2; lia]. cbn [leading]. rewrite En.
    split; [by destruct qwen2|]. apply Forall_take. constructor; [done|apply leading_all]. }
  destruct (negb qwen2 && is_cjk_split p) eqn:Ec.
  { apply andb_true_iff in Ec as [Hq%negb_true_iff Ec]. apply shape_cjk; [done|by apply leading_all_of]. }
  destruct (is_ascii_punctuation p && _) eqn:Ep.
  { apply andb_true_iff in Ep as [Hp Hl]. apply shape_ascii_word; [done|by apply leading_all_of]. }
  destruct (is_letter p) eqn:El; [apply shape_letters; by apply leading_all_of|].
  destruct (negb (is_newline p) && negb (is_symbol p) && _) eqn:Ex.
  { apply andb_true_iff in Ex as [[Hn%negb_true_iff Hs%negb_true_iff]%andb_true_iff Hl].
    apply shape_prefixed_letters; [done..|by apply leading_all_of]. }
  destruct (is_symbol p) eqn:Es; [apply (symbols_shape []); [done|by left]|].
  destruct (is_space p) eqn:Ew; [by apply spaces_shape|by apply shape_other].
Qed.

Lemma first_piece_prefix qwen2 points :
  points ≠ [] → first_piece qwen2 points ≠ [] ∧ ∃ rest, points = first_piece qwen2 points ++ rest.
Proof.
  intros Hne. split.
  { intros E. pose proof (first_piece_shape qwen2 points Hne) as Hs. rewrite E in Hs.
    assert (∀ ps, piece_shape qwen2 ps → ps ≠ []) as H; [|by apply (H [])].
    intros ps [? []|? ? []|? ? ? []|? []|? ? ? ? ? []|? ? ? ? [] ?|? []|]; try done.
    by intros [_ [? _]%app_eq_nil]%app_eq_nil. }
  assert (∀ test l, ∃ rest, l = leading test l ++ rest) as Hl by (intros test l; eexists; apply leading_prefix).
  assert (∀ l, ∃ rest, l = symbols_of l ++ rest) as Hsym.
  { intros l. unfold symbols_of. destruct (Hl is_newline (drop (length (leading is_symbol l)) l)) as [rest E].
    exists rest. rewrite <- (assoc_L (++)), <- E. apply leading_prefix. }
  destruct points as [|p points]; [done|]. cbn [first_piece].
  destruct (is_number p).
  { exists (drop (if qwen2 then 1 else 3) (leading is_number (p :: points)) ++ drop (length (leading is_number (p :: points))) (p :: points)).
    rewrite (assoc_L (++)), take_drop. apply leading_prefix. }
  destruct (negb qwen2 && _); [apply Hl|].
  destruct (is_ascii_punctuation p && _); [destruct (Hl is_ascii_letter points) as [rest E]; exists rest; by rewrite E at 1|].
  destruct (is_letter p); [apply (Hl is_letter)|].
  destruct (_ && head_is is_letter points); [destruct (Hl is_letter points) as [rest E]; exists rest; by rewrite E at 1|].
  destruct (is_symbol p); [apply Hsym|]. destruct (is_space p); [|by exists points].
  unfold spaces_of. set (spaces := leading is_space (p :: points)). pose proof (leading_prefix is_space (p :: points)) as E. fold spaces in E.
  set (rest := drop (length spaces) (p :: points)) in *.
  assert (∃ after, p :: points = take (length spaces - 1) spaces ++ after) as Htake.
  { exists (drop (length spaces - 1) spaces ++ rest). by rewrite (assoc_L (++)), take_drop. }
  destruct (_ || _); [by exists rest|]. destruct (head_is is_letter rest).
  { destruct (_ <? _)%nat; [done|]. destruct (Hl is_letter rest) as [after Ea]. exists after. by rewrite <- (assoc_L (++)), <- Ea. }
  destruct (_ && _); [|by exists rest].
  destruct (_ <? _)%nat; [done|]. destruct (Hsym rest) as [after Ea]. exists after. by rewrite <- (assoc_L (++)), <- Ea.
Qed.

Lemma split_text_exact qwen2 points : mjoin (split_text qwen2 points) = points ∧ Forall (piece_shape qwen2) (split_text qwen2 points).
Proof.
  unfold split_text. assert (∀ fuel points, (length points ≤ fuel)%nat →
    mjoin (split_from fuel qwen2 points) = points ∧ Forall (piece_shape qwen2) (split_from fuel qwen2 points)) as H; [|by apply H].
  clear points. induction fuel as [|fuel IH]; intros points Hf; destruct points as [|p points]; cbn [length] in Hf; try done; [lia|].
  cbn [split_from]. destruct (first_piece_prefix qwen2 (p :: points)) as (Hne & rest & E); [done|].
  pose proof (first_piece_shape qwen2 (p :: points) ltac:(done)) as Hs. set (piece := first_piece qwen2 (p :: points)) in *. clearbody piece.
  assert (drop (length piece) (p :: points) = rest) as -> by (rewrite E; apply drop_app_length).
  destruct (IH rest) as [Ej Hall].
  { apply (f_equal length) in E. rewrite length_app in E. cbn [length] in E. destruct piece; [done|]. cbn [length] in E. lia. }
  split; [|by constructor]. change (mjoin (?x :: ?l)) with (x ++ mjoin l). by rewrite Ej.
Qed.

(** ** The splitter follows the grammar *)

Section grammar.
Context (bytes : list Z) (Hbytes : Forall is_u8 bytes).

(** The text from an offset on. *)
Record stands (offset : Z) (points : list Z) : Prop := Stands {
  st_offset : 0 ≤ offset ≤ Z.of_nat (length bytes);
  st_points : Forall is_scalar points;
  st_text : drop (Z.to_nat offset) bytes = utf8_text points;
}.

Definition after (offset : Z) (points : list Z) : Z := offset + Z.of_nat (length (utf8_text points)).

Lemma after_nil offset : after offset [] = offset.
Proof. unfold after. cbn. lia. Qed.

Lemma after_app offset ps qs : after offset (ps ++ qs) = after (after offset ps) qs.
Proof. unfold after. rewrite utf8_text_app, length_app. lia. Qed.

Lemma stands_after offset ps rest : stands offset (ps ++ rest) → stands (after offset ps) rest.
Proof.
  intros [Ho Hp Ht]. apply Forall_app in Hp as [_ Hp]. rewrite utf8_text_app in Ht. unfold after.
  pose proof (f_equal length Ht) as El. rewrite length_drop, length_app in El.
  constructor; [lia|done|]. replace (Z.to_nat (offset + _)) with (Z.to_nat offset + length (utf8_text ps))%nat by lia.
  rewrite <- drop_drop, Ht. apply drop_app_length.
Qed.

Lemma stands_end offset points : stands offset points → offset + Z.of_nat (length (utf8_text points)) = Z.of_nat (length bytes).
Proof. intros [Ho _ Ht]. apply (f_equal length) in Ht. rewrite length_drop in Ht. lia. Qed.

Lemma stands_length offset points : stands offset points → (length points ≤ length bytes)%nat.
Proof. intros H. pose proof (stands_end _ _ H). pose proof (utf8_text_length points). destruct H. lia. Qed.

Lemma peek_stands offset points : stands offset points →
  span_peek bytes offset = match points with [] => None | p :: _ => Some (p, after offset [p]) end.
Proof.
  intros H. pose proof (stands_end _ _ H) as He. destruct H as [Ho Hp Ht]. unfold span_peek. destruct points as [|p points].
  - cbn in He. by rewrite (proj2 (Z.leb_le _ _)) by lia.
  - apply Forall_cons in Hp as [Hp _]. pose proof (utf8_put_length p). rewrite utf8_text_cons, length_app in He.
    rewrite (proj2 (Z.leb_gt _ _)) by lia. apply utf8_next_spec; [done|lia|]. split; [done|].
    split; [unfold after; by rewrite utf8_text_cons, app_nil_r|]. rewrite Ht, utf8_text_cons. by eexists.
Qed.

Lemma peek_is_stands test offset points : stands offset points → peek_is test bytes offset = head_is test points.
Proof. intros H. unfold peek_is. rewrite (peek_stands _ _ H). by destruct points. Qed.

Lemma span_while_stands test points : ∀ fuel offset, stands offset points →
  span_while fuel test bytes offset = after offset (take fuel (leading test points)).
Proof.
  induction points as [|p points IH]; intros [|fuel] offset H; cbn [span_while]; try by rewrite after_nil.
  - rewrite (peek_stands _ _ H). cbn. by rewrite after_nil.
  - rewrite (peek_stands _ _ H). cbn [leading]. destruct (test p); [|by rewrite after_nil]. cbn [take].
    apply (stands_after offset [p]) in H. rewrite IH by done. by rewrite <- after_app.
Qed.

Lemma leading_length test points : (length (leading test points) ≤ length points)%nat.
Proof. rewrite (leading_prefix test points) at 2. rewrite length_app. lia. Qed.

Lemma take_while_stands test offset points : stands offset points →
  take_while test bytes offset = after offset (leading test points).
Proof.
  intros H. unfold take_while. rewrite (span_while_stands _ points) by done. rewrite take_ge; [done|].
  etrans; [apply leading_length|by eapply stands_length].
Qed.

Lemma stands_leading test offset points : stands offset points →
  stands (after offset (leading test points)) (drop (length (leading test points)) points).
Proof. intros H. apply stands_after. by rewrite <- leading_prefix. Qed.

Lemma symbols_stands offset points : stands offset points →
  take_while is_newline bytes (take_class bytes offset TOKENIZER_UNICODE_PUNCT_SYMBOL) = after offset (symbols_of points).
Proof.
  intros H. unfold take_class. rewrite (take_while_stands _ _ _ H).
  rewrite (take_while_stands _ _ _ (stands_leading _ _ _ H)). unfold symbols_of. by rewrite after_app.
Qed.

(** The run of spaces, what ends before its last one, how many there are. *)
Lemma space_run_stands points : ∀ fuel offset prior c newline,
  stands offset points → (length points ≤ fuel)%nat → 0 ≤ c → c + Z.of_nat (length points) ≤ UINT32_MAX →
  let spaces := leading is_space points in
  space_run fuel bytes offset prior c newline =
    (after offset spaces, (if decide (spaces = []) then prior else after offset (take (length spaces - 1) spaces)),
     c + Z.of_nat (length spaces), newline || existsb is_newline spaces).
Proof.
  induction points as [|p points IH]; intros [|fuel] offset prior c newline H Hf Hc0 Hc; cbn [length] in *; try lia; cbn [space_run leading];
    rewrite ?(peek_stands _ _ H); try (cbn; by rewrite after_nil, Z.add_0_r, orb_false_r).
  destruct (is_space p); [|cbn; by rewrite after_nil, Z.add_0_r, orb_false_r].
  pose proof (stands_after offset [p] points H) as H'. cbn zeta. rewrite u32_id by ulia.
  pose proof (IH fuel (after offset [p]) offset (c + 1) (newline || is_newline p) H' ltac:(lia) ltac:(lia) ltac:(lia)) as E.
  cbn zeta in E. rewrite E. rewrite <- after_app. cbn [app length existsb].
  destruct (decide (p :: leading is_space points = [])) as [|_]; [done|].
  rewrite orb_assoc. replace (S (length (leading is_space points)) - 1)%nat with (length (leading is_space points)) by lia.
  do 2 f_equal; [f_equal|lia]. destruct (leading is_space points) as [|q l] eqn:El.
  - rewrite decide_True by done. cbn. by rewrite after_nil.
  - destruct (decide (q :: l = [])) as [|_]; [done|]. rewrite <- after_app. f_equal. cbn [app length take].
    by replace (S (length l) - 1)%nat with (length l) by lia.
Qed.

(** The byte of the last space is U+0020 exactly when that space is. *)
Lemma byte_stands offset p points b : stands offset (p :: points) → 0 ≤ b < 128 →
  bool_decide (array_get bytes offset = Some b) = bool_decide (p = b).
Proof.
  intros [Ho Hp Ht] Hb. apply Forall_cons in Hp as [Hp _]. apply bool_decide_ext.
  rewrite <- (Z2Nat.id offset), array_get_nat by lia. pose proof (lookup_drop bytes (Z.to_nat offset) 0) as Hd.
  rewrite Nat.add_0_r in Hd. rewrite <- Hd, Ht, utf8_text_cons, utf8_put_digits by done. unfold utf8_digits.
  assert (0 ≤ p ≤ 1114111) by (destruct Hp; lia).
  pose proof (Z.div_pos p 64). pose proof (Z.div_pos p 4096). pose proof (Z.div_pos p 262144).
  destruct (Z.ltb_spec p 128); [|destruct (Z.ltb_spec p 2048); [|destruct (Z.ltb_spec p 65536)]]; cbn; split; intros; simplify_eq; try lia; done.
Qed.

Lemma spaces_stands offset points :
  stands offset points → head_is is_space points = true → Z.of_nat (length points) ≤ UINT32_MAX →
  take_space bytes offset = after offset (spaces_of points).
Proof.
  intros H Hh Hmax. unfold take_space. pose proof (stands_length _ _ H) as Hl.
  pose proof (space_run_stands points (length bytes) offset offset 0 false H Hl ltac:(lia) ltac:(lia)) as E. cbn zeta in E. rewrite E. clear E.
  unfold spaces_of. set (spaces := leading is_space points). assert (spaces ≠ []) as Hne by (by apply leading_head).
  set (rest := drop (length spaces) points). pose proof (stands_leading is_space _ _ H) as Hr. fold spaces rest in Hr.
  destruct (decide (spaces = [])) as [|_]; [done|]. cbn [orb]. rewrite Z.add_0_l.
  assert ((after offset spaces =? Z.of_nat (length bytes)) = bool_decide (rest = [])) as ->.
  { pose proof (stands_end _ _ Hr) as He. destruct rest as [|q rest'] eqn:Er.
    - rewrite bool_decide_eq_true_2 by done. apply Z.eqb_eq. cbn in He. lia.
    - rewrite bool_decide_eq_false_2 by done. apply Z.eqb_neq. rewrite utf8_text_cons, length_app in He. pose proof (utf8_put_length q). lia. }
  destruct (existsb is_newline spaces || _); [done|].
  rewrite (peek_is_stands _ _ _ Hr). replace (1 <? Z.of_nat (length spaces)) with (1 <? length spaces)%nat
    by (destruct (Nat.ltb_spec 1 (length spaces)), (Z.ltb_spec 1 (Z.of_nat (length spaces))); (done || lia)).
  destruct (head_is is_letter rest).
  { destruct (1 <? length spaces)%nat; [done|]. unfold take_class. by rewrite (take_while_stands _ _ _ Hr), <- after_app. }
  rewrite (peek_is_stands _ _ _ Hr).
  assert (bool_decide (array_get bytes (after offset (take (length spaces - 1) spaces)) = Some 32) = bool_decide (last spaces = Some 32)) as ->.
  { destruct (exists_last Hne) as (init & p & Es).
    assert (take (length spaces - 1) spaces = init) as -> by (rewrite Es, length_app; cbn; by rewrite Nat.add_sub, take_app_length).
    assert (stands (after offset init) (p :: rest)) as Hp.
    { apply stands_after. replace (init ++ p :: rest) with (spaces ++ rest) by (rewrite Es, <- (assoc_L (++)); done).
      unfold spaces, rest. by rewrite <- leading_prefix. }
    rewrite (byte_stands _ _ _ 32 Hp) by lia. rewrite Es, last_snoc. apply bool_decide_ext. split; [by intros ->|by intros [= ->]]. }
  destruct (_ && head_is is_symbol rest); [|done]. destruct (1 <? length spaces)%nat; [done|].
  by rewrite (symbols_stands _ _ Hr), <- after_app.
Qed.

(** A piece is what the grammar's first piece reads. *)
Lemma next_piece_grammar qwen2 offset points :
  stands offset points → Z.of_nat (length points) ≤ UINT32_MAX → points ≠ [] →
  next_piece bytes offset qwen2 = after offset (first_piece qwen2 points).
Proof.
  intros H Hmax Hne. destruct points as [|p points]; [done|]. clear Hne. unfold next_piece. rewrite (peek_stands _ _ H). cbn [first_piece].
  pose proof (stands_after offset [p] points H) as H'.
  assert (∀ ps, after (after offset [p]) ps = after offset (p :: ps)) as Hcons by (intros ps; by rewrite <- after_app).
  destruct (is_number p).
  { unfold take_numbers. rewrite (span_while_stands _ _ _ _ H). by destruct qwen2. }
  destruct (negb qwen2 && is_cjk_split p); [by apply (take_while_stands _ _ _ H)|].
  assert (∀ q ps, after offset (q :: ps) ≠ offset) as Hgrow.
  { intros q ps. unfold after. rewrite utf8_text_cons, length_app. pose proof (utf8_put_length q). lia. }
  unfold take_word_or_symbol. rewrite !(peek_is_stands _ _ _ H'), class_split.
  destruct (is_ascii_punctuation p && _) eqn:Ea.
  { rewrite (take_while_stands _ _ _ H'), Hcons, (proj2 (Z.eqb_neq _ _)) by done. done. }
  destruct (is_letter p) eqn:El.
  { unfold take_class. rewrite (take_while_stands _ _ _ H). cbn [leading]. rewrite El, (proj2 (Z.eqb_neq _ _)) by done. done. }
  cbn [orb]. destruct (_ && _ && head_is is_letter points).
  { unfold take_class. rewrite (take_while_stands _ _ _ H'), Hcons, (proj2 (Z.eqb_neq _ _)) by done. done. }
  destruct (is_symbol p) eqn:Es.
  { rewrite (symbols_stands _ _ H). unfold symbols_of. cbn [leading]. rewrite Es. cbn [app]. rewrite (proj2 (Z.eqb_neq _ _)) by done. done. }
  rewrite Z.eqb_refl. cbn [negb]. destruct (is_space p) eqn:Ew; [by apply spaces_stands|done].
Qed.

Lemma span_pieces_grammar qwen2 fuel offset points n :
  stands offset points → Z.of_nat (length points) ≤ UINT32_MAX → (length bytes ≤ fuel + Z.to_nat offset)%nat → (length points ≤ n)%nat →
  span_pieces fuel bytes offset qwen2 = utf8_text <$> split_from n qwen2 points.
Proof.
  revert offset points n. induction fuel as [|fuel IH]; intros offset points n H Hmax Hf Hn; pose proof (stands_end _ _ H) as He;
    pose proof (st_offset _ _ H) as Ho; cbn [span_pieces].
  - pose proof (utf8_text_length points). destruct points; [by destruct n|]. cbn [length] in *. lia.
  - destruct points as [|p points].
    { cbn in He. rewrite (proj2 (Z.ltb_ge _ _)) by lia. by destruct n. }
    destruct n as [|n]; [cbn in Hn; lia|]. pose proof (utf8_put_length p). pose proof He as He'. rewrite utf8_text_cons, length_app in He'.
    rewrite (proj2 (Z.ltb_lt _ _)) by lia. rewrite (next_piece_grammar qwen2 _ _ H Hmax) by done. cbn [split_from].
    destruct (first_piece_prefix qwen2 (p :: points)) as (Hne & rest & E); [done|]. set (piece := first_piece qwen2 (p :: points)) in *.
    clearbody piece. rewrite E in H |- *. rewrite drop_app_length. cbn [fmap list_fmap]. f_equal.
    + unfold after. replace (Z.to_nat _) with (length (utf8_text piece)) by lia. rewrite (st_text _ _ H), utf8_text_app. apply take_app_length.
    + assert (length (p :: points) = (length piece + length rest)%nat) as El by (by rewrite E, length_app). cbn [length] in *.
      assert (0 < length piece)%nat by (destruct piece; [done|cbn; lia]). pose proof (utf8_text_length piece).
      apply IH; [by apply stands_after|lia|unfold after; lia|lia].
Qed.
End grammar.

(** C22: the pre-tokenizer partitions, and into the pieces of its grammar. Whatever the bytes, the loop over the pieces
    never refuses to advance nor runs out: it hands pieces to the encoder one after another, none is empty, and together
    they are the span. The pieces of valid UTF-8 cut no scalar value, and those of a text of less than 2^32 scalar values
    (a run of spaces is counted in 32 bits) are exactly the pieces of [split_text], which applies the rules to the scalar
    values. Each then has one of these shapes: numbers by three (by one for qwen2), ideographs, letters after at most one
    other character, symbols after at most one U+0020 and before their line breaks, spaces alone, one remaining character. *)
Theorem pretokenizer_partitions {S : Type} (encode : list Z → S → run S) bytes qwen2 s :
  Forall is_u8 bytes →
  ∃ pieces, ordinary_encode_loop encode (length bytes) bytes 0 qwen2 s = for_each encode pieces s ∧
    mjoin pieces = bytes ∧ Forall (λ piece, piece ≠ []) pieces ∧
    (utf8_validate bytes = true → ∃ texts, pieces = utf8_text <$> texts) ∧
    (∀ points, Forall is_scalar points → bytes = utf8_text points → Z.of_nat (length points) ≤ UINT32_MAX →
       pieces = utf8_text <$> split_text qwen2 points ∧ mjoin (split_text qwen2 points) = points ∧
       Forall (piece_shape qwen2) (split_text qwen2 points)).
Proof.
  intros Hu. exists (span_pieces (length bytes) bytes 0 qwen2). split.
  { apply encode_loop_pieces; [done|lia..]. }
  destruct (span_pieces_join bytes Hu qwen2 (length bytes) 0) as [Ej Hne]; [lia..|].
  split; [done|]. split; [done|]. split.
  - intros Hv. unfold utf8_validate in Hv. apply utf8_validate_from_spec in Hv as (points & Hp & Et); [|done|lia..].
    destruct (span_pieces_texts bytes Hu qwen2 (length bytes) 0 points) as (texts & E & _); [lia..|done|done|]. by exists texts.
  - intros points Hp Et Hmax. split; [|apply split_text_exact].
    apply (span_pieces_grammar bytes Hu qwen2 (length bytes) 0 points (length points)); [|done|lia|done].
    constructor; [lia|done|exact Et].
Qed.

(** Letters, a number too long for one piece, two spaces before a word and one before a symbol. *)
Lemma pretokenizer_partitions_witness :
  ∃ pieces, ordinary_encode_loop (λ piece s, run_ret (s ++ [piece])) 13 (cstr "ab 1234  cd ,") 0 false [] =
      for_each (λ piece s, run_ret (s ++ [piece])) pieces [] ∧ mjoin pieces = cstr "ab 1234  cd ," ∧
    pieces = [cstr "ab"; cstr " "; cstr "123"; cstr "4"; cstr " "; cstr " cd"; cstr " ,"].
Proof.
  destruct (pretokenizer_partitions (λ piece s, run_ret (s ++ [piece])) (cstr "ab 1234  cd ,") false [])
    as (pieces & E & Ej & _ & _ & H).
  - apply cstr_range.
  - exists pieces. split; [exact E|]. split; [exact Ej|].
    destruct (H (cstr "ab 1234  cd ,")) as (-> & _); [|vm_compute; reflexivity|vm_compute; discriminate|vm_compute; reflexivity].
    apply Forall_forall. intros p Hp. left. apply list_elem_of_In in Hp.
    assert (forallb (λ p, (0 <=? p) && (p <? 55296)) (cstr "ab 1234  cd ,") = true) as Hall by (vm_compute; reflexivity).
    rewrite forallb_forall in Hall. apply Hall in Hp. guards. lia.
Defined.

Example pretokenizer_sample :
  span_pieces 20 (cstr "ab 1234 ,") 0 false = [cstr "ab"; cstr " "; cstr "123"; cstr "4"; cstr " ,"].
Proof. vm_compute. reflexivity. Qed.
