(* ===== verification/Normalization.v ===== *)
(** Canonical composition (NFC) of tokenizer input, [src/tokenizer/normalization.c]: decomposition by table,
    canonical ordering, composition.

    Two texts are canonically equivalent when, for every combining class, the starters and the marks of that
    class appear in the same order in both full decompositions. The ordering pass picks the one ordered list
    of a class of equivalence, and the composition pass stays in its class, so normalising keeps the meaning
    of a text, is idempotent, and identifies exactly the texts with the same canonical decomposition. *)

From S2P Require Import Prelude Status Exec Utf8 UnicodeTables.
#[local] Open Scope Z_scope.

(** * The buffer of scalar values *)

(** src/src/tokenizer/normalization.c, [scalar_buffer] *)
Record scalar_buffer := ScalarBuffer { sb_data : list Z; sb_capacity : Z }.

#[export] Instance scalar_buffer_eta : Eta scalar_buffer := λ b, ScalarBuffer (sb_data b) (sb_capacity b).

Definition sb_count (b : scalar_buffer) : Z := Z.of_nat (length (sb_data b)).

(** Sixty-four doublings pass every 64-bit extent. *)
Fixpoint scalar_grow (fuel : nat) (capacity required : Z) : outcome Z :=
  if capacity <? required then
    match fuel with
    | O => Refused YVEX_ERR_BOUNDS "NFC scalar capacity overflowed"
    | S fuel =>
        if SIZE_MAX / 2 <? capacity then Refused YVEX_ERR_BOUNDS "NFC scalar capacity overflowed"
        else scalar_grow fuel (capacity * 2) required
    end
  else Done capacity.

(** [realloc] answers whether that many bytes can be had.
    src/src/tokenizer/normalization.c, [scalar_reserve] *)
Definition scalar_reserve (realloc : Z → bool) (buffer : scalar_buffer) (extra : Z) : outcome scalar_buffer :=
  if SIZE_MAX - sb_count buffer <? extra then Refused YVEX_ERR_BOUNDS "NFC scalar count overflowed"
  else
    let required := sb_count buffer + extra in
    if required <=? sb_capacity buffer then Done buffer
    else
      capacity ← scalar_grow 64 (if sb_capacity buffer =? 0 then 32 else sb_capacity buffer) required;
      if SIZE_MAX / 4 <? capacity then Refused YVEX_ERR_BOUNDS "NFC scalar allocation overflowed"
      else if realloc (capacity * 4) then Done (buffer <| sb_capacity := capacity |>)
      else Refused YVEX_ERR_NOMEM "NFC scalar allocation failed".

(** * The tables *)

(** The first row of a table whose key is not below [point], among the rows from [low] to [high].
    src/src/tokenizer/normalization.c:1242-1247, [decomposition_find] *)
Fixpoint lower_bound (fuel : nat) (keys : list Z) (point low high : Z) : Z :=
  match fuel with
  | O => low
  | S fuel =>
      if low <? high then
        let mid := low + (high - low) / 2 in
        match array_get keys mid with
        | None => low
        | Some key =>
            if key <? point then lower_bound fuel keys point (mid + 1) high
            else lower_bound fuel keys point low mid
        end
      else low
  end.

Definition sorted_search (keys : list Z) (point : Z) : option nat :=
  let low := lower_bound (S (length keys)) keys point 0 (Z.of_nat (length keys)) in
  if bool_decide (array_get keys low = Some point) then Some (Z.to_nat low) else None.

Definition decomposition_keys : list Z := (λ row, row.1.1) <$> decompositions.
Definition combining_keys : list Z := fst <$> combining_classes.

(** The two parts of a decomposition; a second part of zero is none.
    src/src/tokenizer/normalization.c, [decomposition_find] *)
Definition decomposition_find (scalar : Z) : option (Z * Z) :=
  row ← sorted_search decomposition_keys scalar ≫= λ index, decompositions !! index;
  Some (row.1.2, row.2).

(** src/src/tokenizer/normalization.c, [combining_class] *)
Definition combining_class (scalar : Z) : Z :=
  match sorted_search combining_keys scalar ≫= λ index, combining_classes !! index with
  | Some (_, value) => value
  | None => 0
  end.

(** Zero when the pair composes to nothing.
    src/src/tokenizer/normalization.c, [composition_find] *)
Definition composition_find (first second : Z) : Z :=
  match list_find (λ row, row.1 = (first, second)) compositions with
  | Some (_, (_, composite)) => composite
  | None => 0
  end.

Definition HANGUL_S_BASE : Z := 44032.
Definition HANGUL_L_BASE : Z := 4352.
Definition HANGUL_V_BASE : Z := 4449.
Definition HANGUL_T_BASE : Z := 4519.
Definition HANGUL_L_COUNT : Z := 19.
Definition HANGUL_V_COUNT : Z := 21.
Definition HANGUL_T_COUNT : Z := 28.
Definition HANGUL_N_COUNT : Z := HANGUL_V_COUNT * HANGUL_T_COUNT.
Definition HANGUL_S_COUNT : Z := HANGUL_L_COUNT * HANGUL_N_COUNT.

(** * The passes *)

(** A refused reservation is reported by the code of the error object, which is [YVEX_OK] when the caller
    gave none ([err] false): the scalar value is then lost without a refusal.
    src/src/tokenizer/normalization.c:1304-1306, [scalar_append_decomposed] *)
Definition scalar_append (err : bool) (realloc : Z → bool) (buffer : scalar_buffer) (scalar : Z)
    : outcome scalar_buffer :=
  match scalar_reserve realloc buffer 1 with
  | Refused status reason => if err then Refused status reason else Done buffer
  | Done buffer => Done (buffer <| sb_data ::= λ data, data ++ [scalar] |>)
  end.

(** [room] is what is left of the nine levels the depth admits.
    src/src/tokenizer/normalization.c, [scalar_append_decomposed] *)
Fixpoint scalar_append_decomposed (err : bool) (realloc : Z → bool) (room : nat) (buffer : scalar_buffer)
    (scalar : Z) : outcome scalar_buffer :=
  match room with
  | O => Refused YVEX_ERR_FORMAT "NFC decomposition depth is invalid"
  | S room =>
      if (HANGUL_S_BASE <=? scalar) && (scalar <? HANGUL_S_BASE + HANGUL_S_COUNT) then
        let index := scalar - HANGUL_S_BASE in
        let leading := HANGUL_L_BASE + index / HANGUL_N_COUNT in
        let vowel := HANGUL_V_BASE + (index mod HANGUL_N_COUNT) / HANGUL_T_COUNT in
        let trailing := index mod HANGUL_T_COUNT in
        buffer ← scalar_append_decomposed err realloc room buffer leading;
        buffer ← scalar_append_decomposed err realloc room buffer vowel;
        if trailing =? 0 then Done buffer
        else scalar_append_decomposed err realloc room buffer (HANGUL_T_BASE + trailing)
      else
        match decomposition_find scalar with
        | Some (first, second) =>
            buffer ← scalar_append_decomposed err realloc room buffer first;
            if second =? 0 then Done buffer else scalar_append_decomposed err realloc room buffer second
        | None => scalar_append err realloc buffer scalar
        end
  end.

(** Move a mark back past the marks of higher class before it.
    src/src/tokenizer/normalization.c:1316-1322, [canonical_order] *)
Fixpoint order_shift (position : nat) (scalar value : Z) (data : list Z) : list Z :=
  match position with
  | O => <[O := scalar]> data
  | S before =>
      match data !! before with
      | None => data
      | Some prior =>
          if (combining_class prior =? 0) || (combining_class prior <=? value) then <[S before := scalar]> data
          else order_shift before scalar value (<[S before := prior]> data)
      end
  end.

(** One scalar value of the ordering pass.
    src/src/tokenizer/normalization.c:1313-1324, [canonical_order] *)
Definition order_step (data : list Z) (index : nat) : list Z :=
  match data !! index with
  | None => data
  | Some scalar =>
      let value := combining_class scalar in
      if value =? 0 then data else order_shift index scalar value data
  end.

(** src/src/tokenizer/normalization.c, [canonical_order] *)
Definition canonical_order (data : list Z) : list Z := foldl order_step data (seq 1 (length data - 1)).

(** src/src/tokenizer/normalization.c, [hangul_compose] *)
Definition hangul_compose (first second : Z) : Z :=
  if (HANGUL_L_BASE <=? first) && (first <? HANGUL_L_BASE + HANGUL_L_COUNT)
     && (HANGUL_V_BASE <=? second) && (second <? HANGUL_V_BASE + HANGUL_V_COUNT) then
    HANGUL_S_BASE + ((first - HANGUL_L_BASE) * HANGUL_V_COUNT + second - HANGUL_V_BASE) * HANGUL_T_COUNT
  else if (HANGUL_S_BASE <=? first) && (first <? HANGUL_S_BASE + HANGUL_S_COUNT)
     && ((first - HANGUL_S_BASE) mod HANGUL_T_COUNT =? 0)
     && (HANGUL_T_BASE <? second) && (second <? HANGUL_T_BASE + HANGUL_T_COUNT) then
    first + second - HANGUL_T_BASE
  else 0.

(** The composition pass writes behind where it reads: [kept] is what it has written. *)
Record compose_state := ComposeState {
  cs_kept : list Z;
  cs_starter_index : nat;
  cs_starter : Z;
  cs_last_class : Z;
}.

(** One scalar value of the pass.
    src/src/tokenizer/normalization.c:1346-1361, [canonical_compose] *)
Definition compose_step (s : compose_state) (scalar : Z) : compose_state :=
  let value := combining_class scalar in
  let written := negb (Nat.eqb (length (cs_kept s)) 0) in
  let composite := if written then hangul_compose (cs_starter s) scalar else 0 in
  let composite := if (composite =? 0) && written then composition_find (cs_starter s) scalar else composite in
  if negb (composite =? 0) && ((cs_last_class s <? value) || (cs_last_class s =? 0)) then
    ComposeState (<[cs_starter_index s := composite]> (cs_kept s)) (cs_starter_index s) composite (cs_last_class s)
  else
    let '(starter_index, starter) :=
      if value =? 0 then (length (cs_kept s), scalar) else (cs_starter_index s, cs_starter s) in
    ComposeState (cs_kept s ++ [scalar]) starter_index starter value.

(** src/src/tokenizer/normalization.c, [canonical_compose] *)
Definition canonical_compose (data : list Z) : list Z :=
  cs_kept (foldl compose_step (ComposeState [] 0 0 0) data).

(** Decompose the scalar values of a span one after another.
    src/src/tokenizer/normalization.c:1406-1411, [yvex_tokenizer_nfc_normalize] *)
Fixpoint decompose_span (fuel : nat) (err : bool) (realloc : Z → bool) (input : list Z) (cursor : Z)
    (scalars : scalar_buffer) : outcome scalar_buffer :=
  if cursor <? Z.of_nat (length input) then
    match fuel with
    | O => Refused YVEX_ERR_FORMAT "input is not canonical UTF-8"
    | S fuel =>
        match yvex_tokenizer_utf8_next input cursor with
        | None => Refused YVEX_ERR_FORMAT "input is not canonical UTF-8"
        | Some (scalar, cursor) =>
            scalars ← scalar_append_decomposed err realloc 9 scalars scalar;
            decompose_span fuel err realloc input cursor scalars
        end
    end
  else Done scalars.

(** The size of the output.
    src/src/tokenizer/normalization.c:1415-1422, [yvex_tokenizer_nfc_normalize] *)
Fixpoint nfc_bytes (scalars : list Z) (bytes : Z) : outcome Z :=
  match scalars with
  | [] => Done bytes
  | scalar :: scalars =>
      if SIZE_MAX - utf8_width scalar <? bytes then Refused YVEX_ERR_BOUNDS "NFC byte count overflowed"
      else nfc_bytes scalars (bytes + utf8_width scalar)
  end.

(** [err] says whether the caller gave an error object, [malloc] whether that many bytes can be had.
    src/src/tokenizer/normalization.c, [yvex_tokenizer_nfc_normalize] *)
Definition yvex_tokenizer_nfc_normalize (err : bool) (realloc malloc : Z → bool) (input : list Z)
    : outcome (list Z) :=
  scalars ← decompose_span (length input) err realloc input 0 (ScalarBuffer [] 0);
  let composed := canonical_compose (canonical_order (sb_data scalars)) in
  bytes ← nfc_bytes composed 0;
  if negb (bytes =? 0) && negb (malloc bytes) then Refused YVEX_ERR_NOMEM "NFC output allocation failed"
  else Done (foldl utf8_write [] composed).

(** * Facts of the tables *)

(** The decomposition of a scalar value, without the buffer, over a way to find its row. *)
Fixpoint decompose_with (find : Z → option (Z * Z)) (room : nat) (scalar : Z) : option (list Z) :=
  match room with
  | O => None
  | S room =>
      if (HANGUL_S_BASE <=? scalar) && (scalar <? HANGUL_S_BASE + HANGUL_S_COUNT) then
        let index := scalar - HANGUL_S_BASE in
        leading ← decompose_with find room (HANGUL_L_BASE + index / HANGUL_N_COUNT);
        vowel ← decompose_with find room (HANGUL_V_BASE + (index mod HANGUL_N_COUNT) / HANGUL_T_COUNT);
        trailing ← (if index mod HANGUL_T_COUNT =? 0 then Some []
                    else decompose_with find room (HANGUL_T_BASE + index mod HANGUL_T_COUNT));
        Some (leading ++ vowel ++ trailing)
      else
        match find scalar with
        | Some (first, second) =>
            head ← decompose_with find room first;
            tail ← (if second =? 0 then Some [] else decompose_with find room second);
            Some (head ++ tail)
        | None => Some [scalar]
        end
  end.

Definition decompose : nat → Z → option (list Z) := decompose_with decomposition_find.

Fixpoint strictly_sorted (keys : list Z) : bool :=
  match keys with
  | x :: (y :: _) as rest => (x <? y) && strictly_sorted rest
  | _ => true
  end.

Lemma strictly_sorted_tail x rest : strictly_sorted (x :: rest) = true → strictly_sorted rest = true.
Proof. destruct rest as [|y rest]; [done|]. intros H. by apply andb_true_iff in H as [_ H]. Qed.

Lemma strictly_sorted_lt keys (i j : nat) x y :
  strictly_sorted keys = true → keys !! i = Some x → keys !! j = Some y → (i < j)%nat → x < y.
Proof.
  revert i j x. induction keys as [|k keys IH]; intros i j x Hs Hi Hj Hij; [done|].
  destruct j as [|j]; [lia|]. destruct i as [|i]; [|apply (IH i j); [by eapply strictly_sorted_tail|done..|lia]].
  cbn in Hi, Hj. injection Hi as <-. destruct keys as [|k' keys]; [done|].
  pose proof Hs as Hlt. cbn in Hlt. apply andb_true_iff in Hlt as [Hlt%Z.ltb_lt _].
  destruct j as [|j]; [cbn in Hj; by injection Hj as <-|].
  pose proof (IH 0%nat (S j) k' (strictly_sorted_tail _ _ Hs) eq_refl Hj ltac:(lia)). lia.
Qed.

(** The search ends at the first key that is not below the point. *)
Lemma lower_bound_spec keys point fuel low high :
  strictly_sorted keys = true → 0 ≤ low ≤ high → high ≤ Z.of_nat (length keys) → (Z.to_nat (high - low) < fuel)%nat →
  (∀ i x, keys !! i = Some x → Z.of_nat i < low → x < point) →
  (∀ i x, keys !! i = Some x → high ≤ Z.of_nat i → point ≤ x) →
  let at_ := lower_bound fuel keys point low high in
  0 ≤ at_ ≤ Z.of_nat (length keys) ∧
  (∀ i x, keys !! i = Some x → Z.of_nat i < at_ → x < point) ∧
  (∀ i x, keys !! i = Some x → at_ ≤ Z.of_nat i → point ≤ x).
Proof.
  intros Hs. revert low high. induction fuel as [|fuel IH]; intros low high Hlh Hh Hf Hl Hg; [lia|].
  cbn [lower_bound]. destruct (Z.ltb_spec low high) as [Hlt|Hge].
  - set (mid := low + (high - low) / 2). assert (low ≤ mid < high) as Hm.
    { pose proof (Z.div_pos (high - low) 2). pose proof (Z.div_lt (high - low) 2). lia. }
    destruct (array_get_is_Some keys mid) as [key E]; [lia|]. rewrite E. apply array_get_Some in E as [_ E].
    destruct (Z.ltb_spec key point); apply IH; try lia; try done.
    + intros i x Hi Hlow. destruct (decide (i = Z.to_nat mid)) as [->|]; [by simplify_eq|].
      pose proof (strictly_sorted_lt keys i (Z.to_nat mid) x key Hs Hi E ltac:(lia)). lia.
    + intros i x Hi Hhigh. destruct (decide (i = Z.to_nat mid)) as [->|]; [by simplify_eq|].
      pose proof (strictly_sorted_lt keys (Z.to_nat mid) i key x Hs E Hi ltac:(lia)). lia.
  - split; [lia|]. split; [done|]. intros i x Hi Hi'. apply (Hg i x Hi). lia.
Qed.

Lemma sorted_search_spec keys point n :
  strictly_sorted keys = true → sorted_search keys point = Some n ↔ keys !! n = Some point.
Proof.
  intros Hs. unfold sorted_search.
  destruct (lower_bound_spec keys point (S (length keys)) 0 (Z.of_nat (length keys))) as (Hr & Hlt & Hge);
    [done|lia..| |].
  { intros i x Hi. apply lookup_lt_Some in Hi. lia. }
  set (at_ := lower_bound _ _ _ _ _) in *. case_bool_decide as E.
  - apply array_get_Some in E as [Hb E]. split; [by intros [= <-]|]. intros Hn. f_equal.
    destruct (lt_eq_lt_dec n (Z.to_nat at_)) as [[H|H]|H]; [|done|].
    + pose proof (strictly_sorted_lt keys _ _ _ _ Hs Hn E H). lia.
    + pose proof (strictly_sorted_lt keys _ _ _ _ Hs E Hn H). lia.
  - split; [done|]. intros Hn. exfalso. apply E.
    assert (at_ ≤ Z.of_nat n) as Hle.
    { destruct (Z.le_gt_cases at_ (Z.of_nat n)) as [|H]; [done|]. specialize (Hlt n point Hn H). lia. }
    pose proof (lookup_lt_Some _ _ _ Hn). destruct (array_get_is_Some keys at_) as [x Hx]; [lia|].
    rewrite Hx. f_equal. apply array_get_Some in Hx as [_ Hx]. specialize (Hge _ _ Hx ltac:(lia)).
    destruct (decide (Z.to_nat at_ = n)) as [<-|]; [by simplify_eq|].
    pose proof (strictly_sorted_lt keys (Z.to_nat at_) n x point Hs Hx Hn ltac:(lia)). lia.
Qed.

(** A table as a map from its keys. *)
Lemma sorted_search_map {B} (table : list (Z * B)) point :
  strictly_sorted table.*1 = true →
  (sorted_search table.*1 point ≫= λ index, table !! index) =
  (λ value, (point, value)) <$> (list_to_map table : gmap Z B) !! point.
Proof.
  intros Hs. assert (NoDup table.*1) as Hnd.
  { apply NoDup_alt. intros i j x Hi Hj. destruct (lt_eq_lt_dec i j) as [[H|H]|H]; [|done|].
    - pose proof (strictly_sorted_lt _ _ _ _ _ Hs Hi Hj H). lia.
    - pose proof (strictly_sorted_lt _ _ _ _ _ Hs Hj Hi H). lia. }
  destruct ((list_to_map table : gmap Z B) !! point) as [value|] eqn:E.
  - apply elem_of_list_to_map in E as [n Hn]%list_elem_of_lookup_1; [|done].
    rewrite (proj2 (sorted_search_spec _ point n Hs)); [done|]. by rewrite list_lookup_fmap, Hn.
  - apply not_elem_of_list_to_map in E. destruct (sorted_search table.*1 point) as [n|] eqn:En; [|done].
    apply sorted_search_spec in En; [|done]. exfalso. apply E. by eapply list_elem_of_lookup_2.
Qed.

Definition decomposition_rows : list (Z * (Z * Z)) := (λ row, (row.1.1, (row.1.2, row.2))) <$> decompositions.
Definition decomposition_map : gmap Z (Z * Z) := list_to_map decomposition_rows.
Definition combining_map : gmap Z Z := list_to_map combining_classes.

Lemma decomposition_find_map scalar : decomposition_find scalar = decomposition_map !! scalar.
Proof.
  unfold decomposition_find, decomposition_map.
  assert (decomposition_keys = decomposition_rows.*1) as E.
  { unfold decomposition_keys, decomposition_rows. by rewrite <- list_fmap_compose. }
  rewrite E. pose proof (sorted_search_map decomposition_rows scalar) as H.
  specialize (H ltac:(vm_compute; reflexivity)).
  transitivity (snd <$> ((λ value, (scalar, value)) <$> (list_to_map decomposition_rows : gmap Z (Z * Z)) !! scalar)).
  - rewrite <- H. destruct (sorted_search _ _) as [n|]; [|done]. cbn.
    unfold decomposition_rows. rewrite list_lookup_fmap. by destruct (decompositions !! n) as [[[a b] c]|].
  - by destruct (_ !! scalar).
Qed.

Lemma combining_class_map scalar : combining_class scalar = default 0 (combining_map !! scalar).
Proof.
  unfold combining_class, combining_map, combining_keys.
  rewrite (sorted_search_map combining_classes) by (vm_compute; reflexivity). by destruct (_ !! scalar).
Qed.

Lemma decomposition_map_row scalar row : decomposition_map !! scalar = Some row → (scalar, row) ∈ decomposition_rows.
Proof. apply elem_of_list_to_map_2. Qed.

Lemma combining_map_row scalar value : combining_map !! scalar = Some value → (scalar, value) ∈ combining_classes.
Proof. apply elem_of_list_to_map_2. Qed.

Lemma composition_find_row first second :
  composition_find first second ≠ 0 → ((first, second), composition_find first second) ∈ compositions.
Proof.
  unfold composition_find. destruct (list_find _ _) as [[n [pair composite]]|] eqn:E; [|done]. intros _.
  apply list_find_Some in E as (E & Hp & _). cbn in Hp. subst pair. by eapply list_elem_of_lookup_2.
Qed.

#[global] Opaque combining_class decomposition_find composition_find decomposition_map combining_map decomposition_rows.

(** A scalar value that no rule decomposes. *)
Definition stable_with (find : Z → option (Z * Z)) (scalar : Z) : bool :=
  bool_decide (is_scalar scalar) && bool_decide (find scalar = None)
  && negb ((HANGUL_S_BASE <=? scalar) && (scalar <? HANGUL_S_BASE + HANGUL_S_COUNT)).

Definition is_stable : Z → bool := stable_with decomposition_find.

Lemma decompose_with_ext find find' room scalar :
  (∀ x, find x = find' x) → decompose_with find room scalar = decompose_with find' room scalar.
Proof.
  intros H. revert scalar. induction room as [|room IH]; intros scalar; [done|]. cbn [decompose_with].
  rewrite !IH, H. repeat case_match; rewrite ?IH; congruence || done.
Qed.

Lemma stable_with_ext find find' scalar : find scalar = find' scalar → stable_with find scalar = stable_with find' scalar.
Proof. unfold stable_with. by intros ->. Qed.

(** Every row expands to at most four stable scalar values, in at most six levels. *)
Definition rows_expand (rows : list (Z * (Z * Z))) (find : Z → option (Z * Z)) : bool :=
  forallb (λ row, match decompose_with find 6 row.1 with
    | Some points => (length points <=? 4)%nat && forallb (stable_with find) points
    | None => false
    end) rows.

Lemma decompositions_expand : rows_expand decomposition_rows (λ x, decomposition_map !! x) = true.
Proof. vm_compute. reflexivity. Qed.

(** A composition undoes a decomposition of two parts, and joins starters to starters. *)
Definition rows_compose (rows : list (Z * Z * Z)) (find : Z → option (Z * Z)) (class : Z → option Z) : bool :=
  forallb (λ row, negb (row.2 =? 0) && negb (row.1.1 =? 0) && negb (row.1.2 =? 0)
    && bool_decide (find row.2 = Some row.1)
    && bool_decide (class row.1.1 = None) && bool_decide (class row.2 = None)
    && bool_decide (is_scalar row.2)
    && negb ((HANGUL_S_BASE <=? row.2) && (row.2 <? HANGUL_S_BASE + HANGUL_S_COUNT))) rows.

Lemma compositions_compose :
  rows_compose compositions (λ x, decomposition_map !! x) (λ x, combining_map !! x) = true.
Proof. vm_compute. reflexivity. Qed.

Lemma hangul_rows :
  forallb (λ x, bool_decide (decomposition_map !! x = None) && bool_decide (combining_map !! x = None))
    (seqZ HANGUL_L_BASE HANGUL_L_COUNT ++ seqZ HANGUL_V_BASE HANGUL_V_COUNT ++ seqZ HANGUL_T_BASE HANGUL_T_COUNT) = true.
Proof. vm_compute. reflexivity. Qed.

Lemma combining_rows :
  forallb (λ row, (0 <? row.2) && negb ((HANGUL_S_BASE <=? row.1) && (row.1 <? HANGUL_S_BASE + HANGUL_S_COUNT)))
    combining_classes = true.
Proof. vm_compute. reflexivity. Qed.

Lemma combining_class_nonneg x : 0 ≤ combining_class x.
Proof.
  rewrite combining_class_map. destruct (_ !! x) as [v|] eqn:E; [|done]. cbn.
  apply combining_map_row in E. pose proof combining_rows as H. rewrite forallb_forall in H.
  apply list_elem_of_In in E. specialize (H _ E). cbn in H. guards. lia.
Qed.

(** What the checks say of the code's lookups. *)
Lemma decomposition_row scalar first second :
  decomposition_find scalar = Some (first, second) →
  ∃ points, decompose 6 scalar = Some points ∧ (length points ≤ 4)%nat ∧ forallb is_stable points = true.
Proof.
  rewrite decomposition_find_map. intros E. apply decomposition_map_row in E.
  pose proof decompositions_expand as H. unfold rows_expand in H. rewrite forallb_forall in H.
  apply list_elem_of_In in E. specialize (H _ E). cbn [fst] in H.
  unfold decompose. rewrite (decompose_with_ext _ (λ x, decomposition_map !! x)) by apply decomposition_find_map.
  destruct (decompose_with _ 6 scalar) as [points|]; [|done]. exists points. split; [done|].
  apply andb_true_iff in H as [Hl H]. apply Nat.leb_le in Hl. split; [done|].
  rewrite forallb_forall in H |- *. intros x Hx. rewrite <- (H x Hx). apply stable_with_ext, decomposition_find_map.
Qed.

Lemma composition_row first second :
  composition_find first second ≠ 0 →
  let composite := composition_find first second in
  decomposition_find composite = Some (first, second) ∧ first ≠ 0 ∧ second ≠ 0 ∧
  combining_class first = 0 ∧ combining_class composite = 0 ∧ is_scalar composite ∧
  ¬ (HANGUL_S_BASE ≤ composite < HANGUL_S_BASE + HANGUL_S_COUNT).
Proof.
  intros E%composition_find_row. set (composite := composition_find first second) in *. cbn zeta.
  pose proof compositions_compose as H. unfold rows_compose in H. rewrite forallb_forall in H.
  apply list_elem_of_In in E. specialize (H _ E). cbn [fst snd] in H.
  rewrite !decomposition_find_map, !combining_class_map.
  rewrite !andb_true_iff, !bool_decide_eq_true, !negb_true_iff, !Z.eqb_neq, andb_false_iff, Z.leb_gt, Z.ltb_ge in H.
  destruct H as [[[[[[[? ?] ?] ?] ->] ->] ?] Hh].
  split_and!; [assumption|assumption|assumption|reflexivity|reflexivity|assumption|].
  clear -Hh. lia.
Qed.

Lemma jamo_row x :
  HANGUL_L_BASE ≤ x < HANGUL_L_BASE + HANGUL_L_COUNT ∨ HANGUL_V_BASE ≤ x < HANGUL_V_BASE + HANGUL_V_COUNT ∨
  HANGUL_T_BASE ≤ x < HANGUL_T_BASE + HANGUL_T_COUNT →
  decomposition_find x = None ∧ combining_class x = 0.
Proof.
  intros Hx. pose proof hangul_rows as H. rewrite forallb_forall in H.
  specialize (H x). rewrite <- list_elem_of_In, !elem_of_app, !elem_of_seqZ in H. specialize (H Hx).
  apply andb_true_iff in H as [H1%bool_decide_eq_true H2%bool_decide_eq_true].
  split; [rewrite decomposition_find_map; exact H1|rewrite combining_class_map, H2; reflexivity].
Qed.

Lemma syllable_class x : HANGUL_S_BASE ≤ x < HANGUL_S_BASE + HANGUL_S_COUNT → combining_class x = 0.
Proof.
  intros Hx. rewrite combining_class_map. destruct (_ !! x) as [v|] eqn:E; [|done]. exfalso.
  apply combining_map_row in E. pose proof combining_rows as H. rewrite forallb_forall in H.
  apply list_elem_of_In in E. specialize (H _ E). cbn [fst snd] in H.
  apply andb_true_iff in H as [_ H%negb_true_iff]. apply andb_false_iff in H as [H%Z.leb_gt|H%Z.ltb_ge]; lia.
Qed.
