(* ===== verification/CanonicalForm.v ===== *)
(** Normalising is canonical: what [Normalization] computes, against canonical equivalence.

    Two lists of scalar values are equivalent when for every combining class their starters and their marks
    of that class are the same list. The ordering pass returns the only ordered list of its class, and the
    composition pass stays in the class of what it composes. *)

From S2P Require Import Prelude Status Exec Utf8 UnicodeTables Normalization.
#[local] Open Scope Z_scope.

(** * Combining classes *)

#[local] Abbreviation ccc := combining_class.

(** ** Equivalence *)

(** The starters and the marks of one class. *)
Definition marks (v : Z) (l : list Z) : list Z := filter (λ x, ccc x = 0 ∨ ccc x = v) l.

Definition canon_equiv (l m : list Z) : Prop := ∀ v, v ≠ 0 → marks v l = marks v m.
Infix "≈" := canon_equiv (at level 70).

#[export] Instance canon_equiv_equivalence : Equivalence canon_equiv.
Proof.
  split.
  - by intros l v.
  - intros l m H v Hv. by rewrite H.
  - intros l m n H1 H2 v Hv. by rewrite H1, H2.
Qed.

Lemma marks_app v l m : marks v (l ++ m) = marks v l ++ marks v m.
Proof. apply filter_app. Qed.

#[export] Instance canon_equiv_app : Proper (canon_equiv ==> canon_equiv ==> canon_equiv) (@app Z).
Proof. intros l l' Hl m m' Hm v Hv. by rewrite !marks_app, Hl, Hm. Qed.

(** A mark passes marks of other classes. *)
Lemma canon_equiv_pass x l :
  ccc x ≠ 0 → Forall (λ y, ccc y ≠ 0 ∧ ccc y ≠ ccc x) l → x :: l ≈ l ++ [x].
Proof.
  intros Hx Hl v Hv. change (x :: l) with ([x] ++ l). rewrite !marks_app.
  destruct (decide (ccc x = v)) as [<-|Hne].
  - assert (marks (ccc x) l = []) as ->; [|by rewrite app_nil_r].
    unfold marks. induction Hl as [|y l [Hy0 Hy] _ IH]; [done|]. rewrite filter_cons, decide_False by tauto. done.
  - assert (marks v [x] = []) as ->; [|by rewrite app_nil_r].
    unfold marks. rewrite filter_cons, decide_False by tauto. done.
Qed.

(** ** Order *)

(** A mark does not stand behind a mark of a higher class. *)
Definition in_order (x y : Z) : Prop := ccc y = 0 ∨ ccc x ≤ ccc y.

Definition ordered : list Z → Prop := Sorted in_order.

Lemma ordered_app l m :
  ordered l → ordered m → (∀ x y, last l = Some x → head m = Some y → in_order x y) → ordered (l ++ m).
Proof.
  intros Hl Hm H. induction Hl as [|x l Hl IH Hd]; [done|]. cbn. constructor.
  - apply IH. intros a b Ha Hb. apply H; [|done]. destruct l; [done|]. done.
  - destruct l as [|y l]; cbn.
    + destruct m as [|y m]; constructor. by apply H.
    + constructor. by inversion Hd.
Qed.

Lemma ordered_app_inv l m :
  ordered (l ++ m) → ordered l ∧ ordered m ∧ (∀ x y, last l = Some x → head m = Some y → in_order x y).
Proof.
  induction l as [|x l IH]; intros H; [split_and!; [constructor|done|done]|].
  inversion H as [|? ? Hs Hd]; subst. destruct (IH Hs) as (Hl & Hm & Hb). split_and!; [|done|].
  - constructor; [done|]. destruct l; [constructor|]. inversion Hd; subst. by constructor.
  - intros a b Ha Hb'. destruct l as [|y l].
    + cbn in Ha. injection Ha as <-. destruct m; [done|]. inversion Hd; subst. cbn in Hb'. by injection Hb' as <-.
    + by apply Hb.
Qed.

(** In an ordered list the first mark of a class, before any starter, is not below the marks before it. *)
Lemma ordered_first_mark l x a rest :
  ordered (x :: l) → ccc x ≠ 0 → ccc a ≠ 0 → marks (ccc a) l = a :: rest → ccc x ≤ ccc a.
Proof.
  revert x. induction l as [|y l IH]; intros x Ho Hx Ha Hm; [done|].
  inversion Ho as [|? ? Hs Hd]; subst. inversion Hd as [|? ? Hxy]; subst.
  unfold marks in Hm. rewrite filter_cons in Hm. case_decide as Hy.
  - injection Hm as -> _. by destruct Hxy.
  - destruct Hxy as [|Hxy]; [tauto|]. pose proof (IH y Hs ltac:(tauto) Ha Hm). lia.
Qed.

(** Equivalent ordered lists are equal. *)
Lemma ordered_unique l m : ordered l → ordered m → l ≈ m → l = m.
Proof.
  revert m. induction l as [|a l IH]; intros m Hl Hm E.
  - destruct m as [|b m]; [done|]. destruct (decide (ccc b = 0)) as [H|H].
    + specialize (E 1 ltac:(done)). unfold marks in E. by rewrite (filter_cons_True _ b m) in E by tauto.
    + specialize (E (ccc b) H). unfold marks in E. by rewrite (filter_cons_True _ b m) in E by tauto.
  - destruct m as [|b m].
    { destruct (decide (ccc a = 0)) as [H|H].
      - specialize (E 1 ltac:(done)). unfold marks in E. by rewrite (filter_cons_True _ a l) in E by tauto.
      - specialize (E (ccc a) H). unfold marks in E. by rewrite (filter_cons_True _ a l) in E by tauto. }
    assert (a = b) as ->.
    { destruct (decide (ccc a = 0)) as [Ha|Ha], (decide (ccc b = 0)) as [Hb|Hb].
      - specialize (E 1 ltac:(done)). unfold marks in E. rewrite !filter_cons_True in E by tauto. by injection E.
      - specialize (E (ccc b) Hb). unfold marks in E. rewrite !filter_cons_True in E by tauto. by injection E.
      - specialize (E (ccc a) Ha). unfold marks in E. rewrite !filter_cons_True in E by tauto. by injection E.
      - pose proof (E (ccc a) Ha) as E1. pose proof (E (ccc b) Hb) as E2. unfold marks in E1, E2.
        rewrite (filter_cons_True _ a) in E1 by tauto. rewrite (filter_cons_True _ b m) in E2 by tauto.
        destruct (decide (ccc a = ccc b)) as [Hab|Hab].
        + rewrite (filter_cons_True _ b m) in E1 by (rewrite Hab; tauto). by injection E1.
        + rewrite (filter_cons_False _ b m) in E1 by (intros [?|?]; congruence).
          rewrite (filter_cons_False _ a l) in E2 by (intros [?|?]; congruence).
          pose proof (ordered_first_mark m b a _ Hm Hb Ha (eq_sym E1)).
          pose proof (ordered_first_mark l a b _ Hl Ha Hb E2). lia. }
    f_equal. apply IH; [by inversion Hl|by inversion Hm|]. intros v Hv. specialize (E v Hv).
    unfold marks in *. rewrite !filter_cons in E. case_decide; [by injection E|done].
Qed.

(** * The ordering pass *)

Lemma insert_hole (l m : list Z) x y : <[length l := x]> (l ++ y :: m) = l ++ x :: m.
Proof. by rewrite insert_app_r_alt, Nat.sub_diag. Qed.

(** Shifting a mark back, on a list with a hole where the mark was. *)
Lemma order_shift_spec pre hole post scalar value :
  0 ≤ value →
  ∃ front passed, pre = front ++ passed ∧ Forall (λ y, value < ccc y) passed ∧
    (∀ y, last front = Some y → ccc y ≤ value) ∧
    order_shift (length pre) scalar value (pre ++ hole :: post) = front ++ scalar :: passed ++ post.
Proof.
  intros Hv. revert hole post. induction pre as [|prior pre IH] using rev_ind; intros hole post.
  { exists [], []. split_and!; done. }
  rewrite length_app, Nat.add_1_r. cbn [order_shift].
  assert (((pre ++ [prior]) ++ hole :: post) !! length pre = Some prior) as Hp.
  { rewrite <- (assoc_L (++)). by apply list_lookup_middle. }
  rewrite Hp. destruct ((ccc prior =? 0) || (ccc prior <=? value)) eqn:E.
  - exists (pre ++ [prior]), []. split_and!; [by rewrite app_nil_r|done| |].
    + intros y. rewrite last_snoc. intros [= <-]. guards. lia.
    + replace (S (length pre)) with (length (pre ++ [prior])) by (rewrite length_app; cbn; lia).
      by rewrite insert_hole.
  - apply orb_false_iff in E as [_ E%Z.leb_gt].
    replace (S (length pre)) with (length (pre ++ [prior])) by (rewrite length_app; cbn; lia).
    rewrite insert_hole. cbn. rewrite <- (assoc_L (++)). cbn [app].
    destruct (IH prior (prior :: post)) as (front & passed & -> & Hpassed & Hfront & Es).
    exists front, (passed ++ [prior]). split_and!.
    + by rewrite (assoc_L (++)).
    + apply Forall_app. split; [done|]. by constructor.
    + done.
    + rewrite Es. by rewrite <- (assoc_L (++)).
Qed.

Lemma last_head_in_order_front (front passed : list Z) scalar :
  ordered (front ++ passed) → 0 ≠ ccc scalar → Forall (λ y, ccc scalar < ccc y) passed →
  (∀ y, last front = Some y → ccc y ≤ ccc scalar) → ordered (front ++ scalar :: passed).
Proof.
  intros Ho Hs Hp Hf. apply ordered_app_inv in Ho as (H1 & H2 & _). apply ordered_app; [done| |].
  - constructor; [done|]. destruct passed as [|y passed]; constructor. apply Forall_cons in Hp as [Hy _]. right. lia.
  - intros x y Hx [= <-]. right. by apply Hf.
Qed.

Lemma canonical_order_prefix l k :
  (k < length l)%nat →
  ∃ done_, foldl order_step l (seq 1 k) = done_ ++ drop (S k) l ∧ length done_ = S k ∧ ordered done_ ∧
    done_ ≈ take (S k) l ∧ done_ ≡ₚ take (S k) l.
Proof.
  induction k as [|k IH]; intros Hk.
  { exists (take 1 l). destruct l as [|x l]; [cbn in Hk; lia|]. cbn. rewrite take_0. split_and!; try done. repeat constructor. }
  destruct (IH ltac:(lia)) as (done_ & E & Hlen & Ho & He & Hp). clear IH.
  rewrite seq_S, foldl_app, E. cbn [foldl]. unfold order_step.
  destruct (l !! S k) as [scalar|] eqn:Es; [|apply lookup_ge_None in Es; lia].
  rewrite (drop_S l scalar (S k)) by done.
  replace (1 + k)%nat with (length done_) by lia. rewrite list_lookup_middle by done.
  rewrite (take_S_r l (S k) scalar) by done. cbn zeta.
  destruct (Z.eqb_spec (ccc scalar) 0) as [Hz|Hz].
  - exists (done_ ++ [scalar]). split_and!.
    + by rewrite <- (assoc_L (++)).
    + rewrite length_app. cbn. lia.
    + apply ordered_app; [done|repeat constructor|]. intros x y _ [= <-]. by left.
    + by rewrite He.
    + by rewrite Hp.
  - destruct (order_shift_spec done_ scalar (drop (S (S k)) l) scalar (ccc scalar)) as (front & passed & Ed & Hpass & Hf & ->).
    { apply combining_class_nonneg. }
    exists (front ++ scalar :: passed).
    assert (front ++ scalar :: passed ≡ₚ done_ ++ [scalar]) as Hperm.
    { rewrite Ed, <- (assoc_L (++)). f_equiv. by rewrite Permutation_cons_append. }
    split_and!.
    + by rewrite <- (assoc_L (++)).
    + rewrite Hperm, length_app. cbn. lia.
    + apply last_head_in_order_front; [by rewrite <- Ed|done|done|done].
    + rewrite <- He, Ed, <- (assoc_L (++)). f_equiv. apply canon_equiv_pass; [done|].
      eapply Forall_impl; [exact Hpass|]. intros y Hy. cbn beta in Hy. pose proof (combining_class_nonneg scalar). lia.
    + by rewrite Hperm, Hp.
Qed.

(** The ordering pass returns the ordered list of the class of its argument. *)
Lemma canonical_order_spec l :
  ordered (canonical_order l) ∧ canonical_order l ≈ l ∧ canonical_order l ≡ₚ l.
Proof.
  destruct l as [|x l]; [split_and!; [constructor|done|done]|].
  destruct (canonical_order_prefix (x :: l) (length (x :: l) - 1)) as (d & E & _ & Ho & He & Hp); [cbn; lia|].
  unfold canonical_order. rewrite E.
  replace (S (length (x :: l) - 1)) with (length (x :: l)) in * by (cbn; lia).
  rewrite drop_all, firstn_all, app_nil_r in *. done.
Qed.

Lemma canonical_order_unique l m : ordered m → m ≈ l → canonical_order l = m.
Proof.
  intros Hm E. destruct (canonical_order_spec l) as (Ho & He & _).
  apply ordered_unique; [done..|]. by rewrite He, E.
Qed.

Lemma canonical_order_equiv l m : l ≈ m → canonical_order l = canonical_order m.
Proof.
  intros E. destruct (canonical_order_spec m) as (Ho & He & _). apply canonical_order_unique; [done|]. by rewrite He, E.
Qed.

(** * The decomposition *)

Definition is_syllable (x : Z) : Prop := HANGUL_S_BASE ≤ x < HANGUL_S_BASE + HANGUL_S_COUNT.

Lemma syllable_test x :
  (HANGUL_S_BASE <=? x) && (x <? HANGUL_S_BASE + HANGUL_S_COUNT) = bool_decide (is_syllable x).
Proof.
  unfold is_syllable. case_bool_decide as H.
  - destruct H. rewrite andb_true_iff, Z.leb_le, Z.ltb_lt. done.
  - rewrite andb_false_iff, Z.leb_gt, Z.ltb_ge. lia.
Qed.

Definition stable (x : Z) : Prop := is_scalar x ∧ decomposition_find x = None ∧ ¬ is_syllable x.

Lemma is_stable_spec x : is_stable x = true ↔ stable x.
Proof.
  unfold is_stable, stable_with, stable. rewrite syllable_test, <- bool_decide_not, !andb_true_iff, !bool_decide_eq_true.
  tauto.
Qed.

(** The full decomposition of a scalar value and of a list of them. *)
Definition full (x : Z) : list Z := default [] (decompose 9 x).
Definition full_text (l : list Z) : list Z := mjoin (full <$> l).

Lemma full_text_app l m : full_text (l ++ m) = full_text l ++ full_text m.
Proof. unfold full_text. by rewrite fmap_app, join_app. Qed.

Lemma decompose_S room x :
  decompose (S room) x =
  if bool_decide (is_syllable x) then
    leading ← decompose room (HANGUL_L_BASE + (x - HANGUL_S_BASE) / HANGUL_N_COUNT);
    vowel ← decompose room (HANGUL_V_BASE + ((x - HANGUL_S_BASE) mod HANGUL_N_COUNT) / HANGUL_T_COUNT);
    trailing ← (if (x - HANGUL_S_BASE) mod HANGUL_T_COUNT =? 0 then Some []
                else decompose room (HANGUL_T_BASE + (x - HANGUL_S_BASE) mod HANGUL_T_COUNT));
    Some (leading ++ vowel ++ trailing)
  else match decomposition_find x with
  | Some (first, second) =>
      head ← decompose room first;
      tail ← (if second =? 0 then Some [] else decompose room second);
      Some (head ++ tail)
  | None => Some [x]
  end.
Proof. unfold decompose. cbn [decompose_with]. by rewrite syllable_test. Qed.

Lemma decompose_more room x l : decompose room x = Some l → decompose (S room) x = Some l.
Proof.
  revert x l. induction room as [|room IH]; intros x l; [done|]. rewrite (decompose_S (S room)), decompose_S.
  case_bool_decide.
  - destruct (decompose room (HANGUL_L_BASE + _)) as [a|] eqn:Ea; [|done].
    destruct (decompose room (HANGUL_V_BASE + _)) as [b|] eqn:Eb; [|done].
    rewrite (IH _ _ Ea), (IH _ _ Eb). cbn [mbind option_bind]. destruct (_ =? 0); [done|].
    destruct (decompose room (HANGUL_T_BASE + _)) as [c|] eqn:Ec; [|done]. by rewrite (IH _ _ Ec).
  - destruct (decomposition_find x) as [[f s]|]; [|done].
    destruct (decompose room f) as [a|] eqn:Ea; [|done]. rewrite (IH _ _ Ea). cbn [mbind option_bind].
    destruct (s =? 0); [done|]. destruct (decompose room s) as [b|] eqn:Eb; [|done]. by rewrite (IH _ _ Eb).
Qed.

Lemma decompose_le room more x l : (room ≤ more)%nat → decompose room x = Some l → decompose more x = Some l.
Proof. induction 1; [done|]. intros H'. by apply decompose_more, IHle. Qed.

Lemma stable_decompose room x : stable x → decompose (S room) x = Some [x].
Proof. intros (_ & Hf & Hs). rewrite decompose_S, bool_decide_eq_false_2, Hf by done. done. Qed.

(** The three letters of a syllable. *)
Lemma jamo_stable x :
  HANGUL_L_BASE ≤ x < HANGUL_L_BASE + HANGUL_L_COUNT ∨ HANGUL_V_BASE ≤ x < HANGUL_V_BASE + HANGUL_V_COUNT ∨
  HANGUL_T_BASE ≤ x < HANGUL_T_BASE + HANGUL_T_COUNT → stable x.
Proof.
  intros Hx. pose proof (jamo_row x Hx) as [Hf _]. split; [|split; [done|]]; unfold is_scalar, is_syllable.
  all: unfold HANGUL_S_BASE, HANGUL_S_COUNT, HANGUL_N_COUNT, HANGUL_L_BASE, HANGUL_V_BASE, HANGUL_T_BASE,
    HANGUL_L_COUNT, HANGUL_V_COUNT, HANGUL_T_COUNT in *; lia.
Qed.

Ltac hangul := unfold is_syllable, is_scalar, HANGUL_S_BASE, HANGUL_S_COUNT, HANGUL_N_COUNT, HANGUL_L_BASE,
  HANGUL_V_BASE, HANGUL_T_BASE, HANGUL_L_COUNT, HANGUL_V_COUNT, HANGUL_T_COUNT in *.

Lemma syllable_decompose room l v t :
  0 ≤ l < 19 → 0 ≤ v < 21 → 0 ≤ t < 28 →
  decompose (S (S room)) (HANGUL_S_BASE + (l * 21 + v) * 28 + t) =
  Some ([HANGUL_L_BASE + l; HANGUL_V_BASE + v] ++ (if t =? 0 then [] else [HANGUL_T_BASE + t])).
Proof.
  intros Hl Hv Ht. set (x := HANGUL_S_BASE + (l * 21 + v) * 28 + t). rewrite decompose_S.
  assert ((x - HANGUL_S_BASE) / HANGUL_N_COUNT = l) as El.
  { subst x. hangul. change (21 * 28) with 588. symmetry. apply (Z.div_unique _ _ _ (v * 28 + t)); lia. }
  assert ((x - HANGUL_S_BASE) mod HANGUL_N_COUNT = v * 28 + t) as Em.
  { subst x. hangul. change (21 * 28) with 588. symmetry. apply (Z.mod_unique _ _ l); lia. }
  assert ((x - HANGUL_S_BASE) mod HANGUL_T_COUNT = t) as Et.
  { subst x. hangul. symmetry. apply (Z.mod_unique _ _ (l * 21 + v)); lia. }
  assert ((v * 28 + t) / HANGUL_T_COUNT = v) as Ev.
  { hangul. symmetry. apply (Z.div_unique _ _ _ t); lia. }
  rewrite bool_decide_eq_true_2 by (subst x; hangul; lia). rewrite El, Em, Et, Ev.
  rewrite !stable_decompose by (apply jamo_stable; hangul; lia). cbn [mbind option_bind app].
  by destruct (t =? 0).
Qed.

Lemma syllable_parts x : is_syllable x → ∃ l v t, 0 ≤ l < 19 ∧ 0 ≤ v < 21 ∧ 0 ≤ t < 28 ∧
  x = HANGUL_S_BASE + (l * 21 + v) * 28 + t.
Proof.
  intros Hx. exists ((x - 44032) / 588), ((x - 44032) mod 588 / 28), ((x - 44032) mod 28). hangul.
  change (19 * (21 * 28)) with 11172 in *.
  pose proof (Z.div_mod (x - 44032) 588 ltac:(lia)). pose proof (Z.mod_pos_bound (x - 44032) 588 ltac:(lia)).
  pose proof (Z.div_mod ((x - 44032) mod 588) 28 ltac:(lia)). pose proof (Z.mod_pos_bound ((x - 44032) mod 588) 28 ltac:(lia)).
  assert (((x - 44032) mod 588) mod 28 = (x - 44032) mod 28) as E.
  { rewrite (Z.div_mod (x - 44032) 588) at 2 by lia. rewrite Z.add_comm, (Z.mul_comm 588).
    replace (((x - 44032) / 588) * 588) with (((x - 44032) / 588) * 21 * 28) by lia. by rewrite Z.mod_add. }
  split_and!; try (apply Z.div_pos; lia); try (apply Z.div_lt_upper_bound; lia); try apply Z.mod_pos_bound; try lia.
Qed.

(** Every scalar value decomposes, into at most four stable ones. *)
Lemma decompose_total x :
  is_scalar x → ∃ l, decompose 7 x = Some l ∧ (length l ≤ 4)%nat ∧ Forall stable l.
Proof.
  intros Hx. destruct (decide (is_syllable x)) as [Hs|Hs].
  - apply syllable_parts in Hs as (l & v & t & ? & ? & ? & ->). eexists. split; [by apply syllable_decompose|].
    split; [destruct (t =? 0); cbn; lia|]. repeat apply Forall_cons_2; [..|destruct (Z.eqb_spec t 0); [done|apply Forall_singleton]].
    all: apply jamo_stable; hangul; lia.
  - destruct (decomposition_find x) as [[f s]|] eqn:E.
    + destruct (decomposition_row x f s E) as (l & Hl & Hlen & Hst). exists l.
      split; [apply (decompose_le 6); [lia|done]|]. split; [done|].
      apply Forall_forall. intros y Hy. rewrite forallb_forall in Hst. by apply is_stable_spec, Hst, list_elem_of_In.
    + exists [x]. split; [by apply stable_decompose|]. split; [cbn; lia|]. by constructor.
Qed.

Lemma full_spec room x : is_scalar x → (7 ≤ room)%nat → decompose room x = Some (full x) ∧ Forall stable (full x).
Proof.
  intros Hx Hr. destruct (decompose_total x Hx) as (l & Hl & _ & Hst). unfold full.
  by rewrite !(decompose_le 7 _ x l) by (done || lia).
Qed.

Lemma full_stable x : stable x → full x = [x].
Proof. intros H. unfold full. by rewrite stable_decompose. Qed.

Lemma full_text_stable l : Forall stable l → full_text l = l.
Proof.
  intros H. induction H as [|x l Hx _ IH]; [done|]. change (full_text (x :: l)) with (full x ++ full_text l).
  by rewrite full_stable, IH.
Qed.

Lemma full_text_all_stable l : Forall is_scalar l → Forall stable (full_text l).
Proof.
  intros H. induction H as [|x l Hx _ IH]; [done|]. apply Forall_app. split; [|done].
  by apply (full_spec 9); [|lia].
Qed.

(** ** Composition undoes decomposition *)

(** The composite of a pair, as the pass looks it up. *)
Definition compose_pair (first second : Z) : Z :=
  if hangul_compose first second =? 0 then composition_find first second else hangul_compose first second.

Lemma composition_full first second :
  is_scalar first → is_scalar second → composition_find first second ≠ 0 →
  let composite := composition_find first second in
  full composite = full first ++ full second ∧ ccc first = 0 ∧ ccc composite = 0 ∧ is_scalar composite ∧ first ≠ 0.
Proof.
  intros H1 H2 Hne. destruct (composition_row first second Hne) as (Hf & ? & Hs0 & ? & ? & ? & Hns). cbn zeta.
  split_and!; try assumption. unfold full at 1. rewrite decompose_S, bool_decide_eq_false_2, Hf by exact Hns.
  rewrite (proj1 (full_spec 8 first H1 ltac:(lia))), (proj2 (Z.eqb_neq second 0)) by done. cbn [mbind option_bind].
  by rewrite (proj1 (full_spec 8 second H2 ltac:(lia))).
Qed.

Lemma hangul_full first second :
  hangul_compose first second ≠ 0 →
  let composite := hangul_compose first second in
  full composite = full first ++ full second ∧ ccc first = 0 ∧ ccc composite = 0 ∧ is_scalar composite ∧ first ≠ 0.
Proof.
  unfold hangul_compose.
  destruct ((HANGUL_L_BASE <=? first) && (first <? HANGUL_L_BASE + HANGUL_L_COUNT)
     && (HANGUL_V_BASE <=? second) && (second <? HANGUL_V_BASE + HANGUL_V_COUNT)) eqn:E1.
  - intros _. cbn zeta. rewrite !andb_true_iff, !Z.leb_le, !Z.ltb_lt in E1. destruct E1 as [[[? ?] ?] ?].
    set (l := first - HANGUL_L_BASE). set (v := second - HANGUL_V_BASE).
    assert (HANGUL_S_BASE + (l * HANGUL_V_COUNT + second - HANGUL_V_BASE) * HANGUL_T_COUNT =
      HANGUL_S_BASE + (l * 21 + v) * 28 + 0) as -> by (subst l v; hangul; lia).
    assert (0 ≤ l < 19 ∧ 0 ≤ v < 21) as [Hl Hv] by (subst l v; hangul; lia).
    assert (is_syllable (HANGUL_S_BASE + (l * 21 + v) * 28 + 0)) as Hsyl by (hangul; lia).
    split_and!.
    + unfold full at 1. rewrite (syllable_decompose 7) by lia. cbn [Z.eqb from_option app id].
      rewrite !full_stable by (apply jamo_stable; hangul; lia). subst l v. cbn. repeat f_equal; lia.
    + apply jamo_row. lia.
    + by apply syllable_class.
    + hangul. lia.
    + hangul. lia.
  - destruct ((HANGUL_S_BASE <=? first) && (first <? HANGUL_S_BASE + HANGUL_S_COUNT)
     && ((first - HANGUL_S_BASE) mod HANGUL_T_COUNT =? 0)
     && (HANGUL_T_BASE <? second) && (second <? HANGUL_T_BASE + HANGUL_T_COUNT)) eqn:E2; [|done]. clear E1.
    intros _. cbn zeta. rewrite !andb_true_iff, !Z.leb_le, !Z.ltb_lt, Z.eqb_eq in E2. destruct E2 as [[[[? ?] Hm] ?] ?].
    destruct (syllable_parts first) as (l & v & t & Hl & Hv & Ht & ->); [done|].
    assert (t = 0) as ->.
    { rewrite <- Hm. hangul. apply (Z.mod_unique _ _ (l * 21 + v)); lia. }
    set (u := second - HANGUL_T_BASE). assert (0 < u < 28) as Hu by (subst u; hangul; lia).
    replace (HANGUL_S_BASE + (l * 21 + v) * 28 + 0 + second - HANGUL_T_BASE)
      with (HANGUL_S_BASE + (l * 21 + v) * 28 + u) by (subst u; lia).
    assert (is_syllable (HANGUL_S_BASE + (l * 21 + v) * 28 + u)) as Hsyl by (hangul; lia).
    split_and!.
    + unfold full at 1 2. rewrite !(syllable_decompose 7) by lia. rewrite (proj2 (Z.eqb_neq u 0)) by lia.
      cbn [Z.eqb from_option app id]. rewrite full_stable by (apply jamo_stable; hangul; lia).
      subst u. repeat f_equal; lia.
    + apply syllable_class. done.
    + by apply syllable_class.
    + hangul. lia.
    + hangul. lia.
Qed.

Lemma compose_pair_full first second :
  is_scalar first → is_scalar second → compose_pair first second ≠ 0 →
  full (compose_pair first second) = full first ++ full second ∧ ccc first = 0 ∧
  ccc (compose_pair first second) = 0 ∧ is_scalar (compose_pair first second) ∧ first ≠ 0.
Proof.
  intros H1 H2. unfold compose_pair. destruct (Z.eqb_spec (hangul_compose first second) 0) as [E|E]; intros Hne.
  - by apply composition_full.
  - by apply hangul_full.
Qed.

(** * The composition pass *)

(** What the pass has kept stands for what it has read. Behind the last starter stand only marks, in order,
    none above the class of the last one written. *)
Record compose_inv (s : compose_state) (read : list Z) : Prop := ComposeInv {
  ci_equiv : full_text (cs_kept s) ≈ read;
  ci_scalars : Forall is_scalar (cs_kept s);
  ci_class : 0 ≤ cs_last_class s ≤ match last read with Some x => ccc x | None => 0 end;
  ci_starter : cs_starter s = 0 ∨ ∃ front behind,
    cs_kept s = front ++ cs_starter s :: behind ∧ cs_starter_index s = length front ∧
    Forall (λ y, stable y ∧ ccc y ≠ 0 ∧ ccc y ≤ cs_last_class s) behind ∧ (cs_last_class s = 0 → behind = []);
}.

Lemma compose_pair_zero x : is_scalar x → compose_pair 0 x = 0.
Proof.
  intros Hx. destruct (decide (compose_pair 0 x = 0)) as [|Hne]; [done|].
  destruct (compose_pair_full 0 x) as (_ & _ & _ & _ & H); [left; lia|done|done|done].
Qed.

(** One scalar value either completes the starter or is written. *)
Lemma compose_step_cases s x :
  compose_step s x =
  if negb (compose_pair (cs_starter s) x =? 0) && negb (Nat.eqb (length (cs_kept s)) 0)
     && ((cs_last_class s <? ccc x) || (cs_last_class s =? 0)) then
    ComposeState (<[cs_starter_index s := compose_pair (cs_starter s) x]> (cs_kept s)) (cs_starter_index s)
      (compose_pair (cs_starter s) x) (cs_last_class s)
  else if ccc x =? 0 then ComposeState (cs_kept s ++ [x]) (length (cs_kept s)) x (ccc x)
  else ComposeState (cs_kept s ++ [x]) (cs_starter_index s) (cs_starter s) (ccc x).
Proof.
  unfold compose_step, compose_pair. destruct (Nat.eqb (length (cs_kept s)) 0); cbn [negb andb].
  - rewrite !andb_false_r. cbn [andb negb Z.eqb]. by destruct (ccc x =? 0).
  - rewrite !andb_true_r. destruct (Z.eqb_spec (hangul_compose (cs_starter s) x) 0) as [E|E]; cbn [andb].
    + destruct (negb _ && _); [done|]. by destruct (ccc x =? 0).
    + rewrite (proj2 (Z.eqb_neq _ 0)) by done. destruct (negb _ && _); [done|]. by destruct (ccc x =? 0).
Qed.

Lemma compose_step_inv s read x :
  compose_inv s read → stable x → (∀ q, last read = Some q → in_order q x) →
  compose_inv (compose_step s x) (read ++ [x]).
Proof.
  intros [He Hsc Hcl Hst] Hx Hord. pose proof (combining_class_nonneg x) as Hnn.
  assert (is_scalar x) as Hxs by apply Hx.
  rewrite compose_step_cases. split_guard.
  - rewrite !andb_true_iff, negb_true_iff, Z.eqb_neq, orb_true_iff, Z.ltb_lt, Z.eqb_eq in E.
    destruct E as [[Hne _] Hclass].
    destruct Hst as [Hz|(front & behind & Hk & Hi & Hb & Hb0)].
    { rewrite Hz in Hne. by rewrite compose_pair_zero in Hne. }
    rewrite Hk in He, Hsc. apply Forall_app in Hsc as [Hfs [Hss Hbs]%Forall_cons].
    destruct (compose_pair_full (cs_starter s) x Hss Hxs Hne) as (Hfull & _ & Hc0 & Hcs & _).
    set (c := compose_pair (cs_starter s) x) in *.
    constructor; cbn [cs_kept cs_starter_index cs_starter cs_last_class]; rewrite ?Hk, ?Hi, ?insert_hole.
    + rewrite <- He. rewrite !full_text_app. change (full_text (?a :: behind)) with (full a ++ full_text behind).
      rewrite Hfull, (full_stable x Hx), <- !(assoc_L (++)). do 2 f_equiv.
      rewrite (full_text_stable behind) by (eapply Forall_impl; [exact Hb|]; by intros y [? _]).
      destruct Hclass as [Hlt|Hl0]; [|by rewrite (Hb0 Hl0)].
      apply canon_equiv_pass.
      * lia.
      * eapply Forall_impl; [exact Hb|]. intros y (_ & ? & ?). lia.
    + apply Forall_app. split; [done|]. by constructor.
    + rewrite last_snoc. lia.
    + right. by exists front, behind.
  - clear E. assert (full_text (cs_kept s ++ [x]) ≈ read ++ [x]) as Hw.
    { rewrite full_text_app, (full_text_stable [x]) by (by constructor). by f_equiv. }
    assert (Forall is_scalar (cs_kept s ++ [x])) as Hws by (apply Forall_app; split; [done|by constructor]).
    destruct (Z.eqb_spec (ccc x) 0) as [Hz|Hz]; constructor;
      cbn [cs_kept cs_starter_index cs_starter cs_last_class]; try done; try (rewrite last_snoc; lia).
    + right. exists (cs_kept s), []. by rewrite Hz.
    + destruct Hst as [Hs0|(front & behind & Hk & Hi & Hb & _)]; [by left|]. right.
      exists front, (behind ++ [x]). split_and!; [|done| |].
      * by rewrite Hk, <- (assoc_L (++)).
      * apply Forall_app. split; [|by apply Forall_singleton].
        eapply Forall_impl; [exact Hb|]. intros y (? & ? & Hy). split_and!; [done..|].
        destruct (last read) as [q|] eqn:Eq; [|lia]. destruct (Hord q) as [|Hq]; [done|done|lia].
      * done.
Qed.

Lemma compose_pass l done_ s rest :
  l = done_ ++ rest → ordered l → Forall stable l → compose_inv s done_ → compose_inv (foldl compose_step s rest) l.
Proof.
  revert s done_. induction rest as [|x rest IH]; intros s done_ -> Ho Hst Hi; cbn [foldl].
  { by rewrite app_nil_r. }
  apply (IH _ (done_ ++ [x])); [by rewrite <- (assoc_L (++))|done..|].
  apply Forall_app in Hst as [_ [Hx _]%Forall_cons]. apply compose_step_inv; [done..|].
  intros q Hq. apply ordered_app_inv in Ho as (_ & _ & H). by apply H.
Qed.

Lemma canonical_compose_spec l :
  ordered l → Forall stable l →
  full_text (canonical_compose l) ≈ l ∧ Forall is_scalar (canonical_compose l).
Proof.
  intros Ho Hst. destruct (compose_pass l [] (ComposeState [] 0 0 0) l) as [He Hs _ _]; [done..| |by split].
  constructor; cbn; [done|done|lia|by left].
Qed.

(** * Canonical forms *)

Definition nfd (l : list Z) : list Z := canonical_order (full_text l).
Definition nfc (l : list Z) : list Z := canonical_compose (nfd l).

Lemma nfd_spec l : Forall is_scalar l → ordered (nfd l) ∧ nfd l ≈ full_text l ∧ Forall stable (nfd l).
Proof.
  intros Hl. destruct (canonical_order_spec (full_text l)) as (Ho & He & Hp). split_and!; [done..|].
  unfold nfd. rewrite Hp. by apply full_text_all_stable.
Qed.

Lemma nfd_nfc l : Forall is_scalar l → nfd (nfc l) = nfd l ∧ Forall is_scalar (nfc l).
Proof.
  intros Hl. destruct (nfd_spec l Hl) as (Ho & He & Hs).
  destruct (canonical_compose_spec (nfd l) Ho Hs) as [Hc Hsc]. split; [|done].
  unfold nfd at 1. apply canonical_order_unique; [done|]. by symmetry.
Qed.
