(* ===== verification/NormalizationPass.v ===== *)
(** [yvex_tokenizer_nfc_normalize] as a whole: what it returns is the encoding of the canonical form of the
    text it is given, or a refusal for want of memory. *)

From S2P Require Import Prelude Status Exec Utf8 UnicodeTables Normalization CanonicalForm.
#[local] Open Scope Z_scope.

(** * Memory *)

(** Memory ran out, or an extent does not fit. *)
Definition memory_refusal {A} (o : outcome A) : Prop :=
  ∃ status reason, o = Refused status reason ∧ (status = YVEX_ERR_NOMEM ∨ status = YVEX_ERR_BOUNDS).

(** Room for [n] more scalar values, when memory never runs out. *)
Definition affords (realloc : Z → bool) (b : scalar_buffer) (n : nat) : Prop :=
  (∀ bytes, realloc bytes = true) ∧ 0 ≤ sb_capacity b ≤ 2 ^ 61 ∧ sb_count b + Z.of_nat n ≤ 2 ^ 60.

Lemma scalar_grow_total fuel capacity required :
  1 ≤ capacity ≤ 2 ^ 61 → required ≤ 2 ^ 60 → required ≤ capacity * 2 ^ Z.of_nat fuel →
  ∃ c, scalar_grow fuel capacity required = Done c ∧ 1 ≤ c ≤ 2 ^ 61.
Proof.
  revert capacity. induction fuel as [|fuel IH]; intros capacity Hc Hr Hf; cbn [scalar_grow];
    destruct (Z.ltb_spec capacity required); try (eexists; by split).
  - rewrite Z.mul_1_r in Hf. lia.
  - change (SIZE_MAX / 2) with 9223372036854775807. change (2 ^ 61) with 2305843009213693952 in *.
    change (2 ^ 60) with 1152921504606846976 in *.
    destruct (Z.ltb_spec 9223372036854775807 capacity); [lia|]. apply IH; [lia|lia|].
    rewrite Nat2Z.inj_succ, Z.pow_succ_r in Hf by lia. lia.
Qed.

Lemma scalar_reserve_total realloc b n :
  affords realloc b (S n) → ∃ b', scalar_reserve realloc b 1 = Done b' ∧ sb_data b' = sb_data b ∧ 0 ≤ sb_capacity b' ≤ 2 ^ 61.
Proof.
  intros (Hr & Hc & Hn). assert (0 ≤ sb_count b) by (unfold sb_count; lia). unfold scalar_reserve.
  change (2 ^ 61) with 2305843009213693952 in *. change (2 ^ 60) with 1152921504606846976 in *.
  destruct (Z.ltb_spec (SIZE_MAX - sb_count b) 1); [ulia|]. split_guard; [by exists b|].
  destruct (scalar_grow_total 64 (if sb_capacity b =? 0 then 32 else sb_capacity b) (sb_count b + 1)) as (c & -> & Hc').
  { change (2 ^ 61) with 2305843009213693952. destruct (Z.eqb_spec (sb_capacity b) 0); lia. }
  { change (2 ^ 60) with 1152921504606846976. lia. }
  { change (2 ^ Z.of_nat 64) with 18446744073709551616. destruct (Z.eqb_spec (sb_capacity b) 0); lia. }
  cbn [mbind outcome_bind]. change (2 ^ 61) with 2305843009213693952 in Hc'.
  destruct (Z.ltb_spec (SIZE_MAX / 4) c) as [H1|_]; [change (SIZE_MAX / 4) with 4611686018427387903 in H1; lia|].
  rewrite Hr. eexists. split; [done|]. cbn. split; [done|lia].
Qed.

Lemma scalar_grow_refuses fuel capacity required :
  (∃ c, scalar_grow fuel capacity required = Done c) ∨ memory_refusal (scalar_grow fuel capacity required).
Proof.
  revert capacity. induction fuel as [|fuel IH]; intros capacity; cbn [scalar_grow]; repeat split_guard;
    first [by left; eexists | right; do 2 eexists; split; [done|by right] | apply IH].
Qed.

Lemma scalar_reserve_refuses realloc b extra :
  (∃ b', scalar_reserve realloc b extra = Done b' ∧ sb_data b' = sb_data b) ∨
  memory_refusal (scalar_reserve realloc b extra).
Proof.
  unfold scalar_reserve. split_guard; [right; do 2 eexists; split; [done|by right]|]. split_guard; [left; by eexists|].
  destruct (scalar_grow_refuses 64 (if sb_capacity b =? 0 then 32 else sb_capacity b) (sb_count b + extra))
    as [[c ->]|(st & why & -> & H)]; cbn [mbind outcome_bind]; [|right; by do 2 eexists].
  repeat split_guard; [right; do 2 eexists; split; [done|by right]|left; by eexists|right; do 2 eexists; split; [done|by left]].
Qed.

(** What appending [l] to a buffer comes to. *)
Definition appended (realloc : Z → bool) (b : scalar_buffer) (l : list Z) (o : outcome scalar_buffer) : Prop :=
  ((∃ b', o = Done b' ∧ sb_data b' = sb_data b ++ l) ∨ memory_refusal o) ∧
  (∀ more, affords realloc b (length l + more) →
     ∃ b', o = Done b' ∧ sb_data b' = sb_data b ++ l ∧ affords realloc b' more).

Lemma appended_bind realloc b l m o f :
  appended realloc b l o → (∀ b', sb_data b' = sb_data b ++ l → appended realloc b' m (f b')) →
  appended realloc b (l ++ m) (o ≫= f).
Proof.
  intros [H1 H2] Hf. split.
  - destruct H1 as [(b' & -> & Hb)|(st & why & -> & H)]; [|right; by do 2 eexists].
    cbn [mbind outcome_bind]. destruct (Hf b' Hb) as [[(b2 & -> & Hb2)|Hr] _]; [left|by right].
    eexists. split; [done|]. by rewrite Hb2, Hb, (assoc_L (++)).
  - intros more Ha. rewrite length_app in Ha. destruct (H2 (length m + more)%nat) as (b' & -> & Hb & Ha').
    { by rewrite (assoc_L Nat.add). }
    cbn [mbind outcome_bind]. destruct (proj2 (Hf b' Hb) more Ha') as (b2 & -> & Hb2 & Ha2).
    eexists. split; [done|]. by rewrite Hb2, Hb, (assoc_L (++)).
Qed.

Lemma appended_nothing realloc b : appended realloc b [] (Done b).
Proof. split; [left; eexists; by rewrite app_nil_r|]. intros more Ha. eexists. by rewrite app_nil_r. Qed.

Lemma scalar_append_spec realloc b x : appended realloc b [x] (scalar_append true realloc b x).
Proof.
  unfold scalar_append. split.
  - destruct (scalar_reserve_refuses realloc b 1) as [(b' & -> & Hb)|(st & why & -> & H)].
    + left. eexists. split; [done|]. cbn. by rewrite Hb.
    + right. by do 2 eexists.
  - intros more Ha. destruct (scalar_reserve_total realloc b more Ha) as (b' & -> & Hb & Hc).
    eexists. split; [done|]. cbn. rewrite Hb. split; [done|]. destruct Ha as (Hr & _ & Hn).
    split_and!; try done; try apply Hc. unfold sb_count in *. cbn. rewrite length_app. cbn in *. lia.
Qed.

Lemma append_decomposed_spec realloc room b x l :
  decompose room x = Some l → appended realloc b l (scalar_append_decomposed true realloc room b x).
Proof.
  revert b x l. induction room as [|room IH]; intros b x l; [done|].
  rewrite decompose_S. cbn [scalar_append_decomposed]. rewrite syllable_test. case_bool_decide.
  - destruct (decompose room (HANGUL_L_BASE + _)) as [la|] eqn:Ea; [|done].
    destruct (decompose room (HANGUL_V_BASE + _)) as [lb|] eqn:Eb; [|done]. cbn [mbind option_bind].
    intros E. destruct ((x - HANGUL_S_BASE) mod HANGUL_T_COUNT =? 0).
    + injection E as <-. apply appended_bind; [by apply IH|]. intros b1 _. apply appended_bind; [by apply IH|].
      intros b2 _. apply appended_nothing.
    + destruct (decompose room (HANGUL_T_BASE + _)) as [lc|] eqn:Ec; [|done]. injection E as <-.
      apply appended_bind; [by apply IH|]. intros b1 _. apply appended_bind; [by apply IH|]. intros b2 _. by apply IH.
  - destruct (decomposition_find x) as [[f s]|].
    + destruct (decompose room f) as [la|] eqn:Ea; [|done]. cbn [mbind option_bind]. destruct (s =? 0).
      * intros [= <-]. apply appended_bind; [by apply IH|]. intros b1 _. apply appended_nothing.
      * destruct (decompose room s) as [lb|] eqn:Eb; [|done]. intros [= <-].
        apply appended_bind; [by apply IH|]. intros b1 _. by apply IH.
    + intros [= <-]. apply scalar_append_spec.
Qed.

(** * The span *)

Lemma decompose_span_spec realloc input fuel offset points b :
  Forall is_u8 input → 0 ≤ offset ≤ Z.of_nat (length input) → Z.of_nat (length input) - offset ≤ Z.of_nat fuel →
  Forall is_scalar points → drop (Z.to_nat offset) input = utf8_text points →
  appended realloc b (full_text points) (decompose_span fuel true realloc input offset b).
Proof.
  intros Hu. revert offset points b. induction fuel as [|fuel IH]; intros offset points b Ho Hf Hp Ht;
    cbn [decompose_span]; destruct (Z.ltb_spec offset (Z.of_nat (length input))); try lia.
  1,3: rewrite drop_ge in Ht by lia; assert (points = []) as -> by (by apply (utf8_text_inj points []));
    apply appended_nothing.
  destruct points as [|p points].
  { apply (f_equal length) in Ht. rewrite length_drop in Ht. cbn in Ht. lia. }
  apply Forall_cons in Hp as [Hp Hps]. set (next := offset + Z.of_nat (length (utf8_put p))).
  assert (yvex_tokenizer_utf8_next input offset = Some (p, next)) as E.
  { apply utf8_next_spec; [done|lia|]. split; [done|]. split; [done|]. rewrite Ht. by exists (utf8_text points). }
  pose proof (utf8_next_grows input offset p next Hu (proj1 Ho) E). rewrite E.
  change (full_text (p :: points)) with (full p ++ full_text points). apply appended_bind.
  - apply append_decomposed_spec. by apply (full_spec 9); [|lia].
  - intros b' _. apply IH; [lia|lia|done|]. subst next.
    replace (Z.to_nat (offset + Z.of_nat (length (utf8_put p)))) with (Z.to_nat offset + length (utf8_put p))%nat by lia.
    by rewrite <- drop_drop, Ht, utf8_text_cons, drop_app_length.
Qed.

(** The span is scanned as far as it is valid. *)
Lemma decompose_span_valid realloc err input fuel offset b b' :
  Forall is_u8 input → 0 ≤ offset ≤ Z.of_nat (length input) →
  decompose_span fuel err realloc input offset b = Done b' → utf8_validate_from fuel input offset = true.
Proof.
  intros Hu. revert offset b. induction fuel as [|fuel IH]; intros offset b Ho; cbn [decompose_span utf8_validate_from];
    destruct (Z.ltb_spec offset (Z.of_nat (length input))); try done.
  destruct (yvex_tokenizer_utf8_next input offset) as [[p next]|] eqn:E; [|done].
  pose proof (utf8_next_grows input offset p next Hu (proj1 Ho) E).
  destruct (scalar_append_decomposed _ _ _ _ _) as [b1|]; [|done]. cbn [mbind outcome_bind]. apply IH. lia.
Qed.

Lemma nfc_bytes_spec l bytes :
  (∃ n, nfc_bytes l bytes = Done n) ∨ memory_refusal (nfc_bytes l bytes).
Proof.
  revert bytes. induction l as [|x l IH]; intros bytes; cbn [nfc_bytes]; [left; by eexists|].
  split_guard; [right; do 2 eexists; split; [done|by right]|apply IH].
Qed.

Lemma nfc_bytes_total l bytes :
  0 ≤ bytes → bytes + 4 * Z.of_nat (length l) ≤ 2 ^ 62 → ∃ n, nfc_bytes l bytes = Done n.
Proof.
  revert bytes. change (2 ^ 62) with 4611686018427387904.
  induction l as [|x l IH]; intros bytes Hb Hl; cbn [nfc_bytes]; [by eexists|]. cbn [length] in Hl.
  assert (1 ≤ utf8_width x ≤ 4) as Hw by (unfold utf8_width; repeat case_match; lia).
  destruct (Z.ltb_spec (SIZE_MAX - utf8_width x) bytes); [ulia|]. apply IH; lia.
Qed.

(** The passes shorten the text. *)
Lemma compose_length l : (length (canonical_compose l) ≤ length l)%nat.
Proof.
  unfold canonical_compose. cut (∀ s, (length (cs_kept (foldl compose_step s l)) ≤ length (cs_kept s) + length l)%nat).
  { intros H. apply (H (ComposeState [] 0 0 0)). }
  induction l as [|x l IH]; intros s; cbn [foldl length]; [lia|]. etrans; [apply IH|].
  rewrite compose_step_cases. repeat split_guard; cbn [cs_kept]; rewrite ?length_insert, ?length_app; cbn; lia.
Qed.

Lemma full_text_length l : Forall is_scalar l → (length (full_text l) ≤ 4 * length l)%nat.
Proof.
  induction 1 as [|x l Hx _ IH]; [cbn; lia|]. change (full_text (x :: l)) with (full x ++ full_text l).
  rewrite length_app. cbn [length]. destruct (decompose_total x Hx) as (d & Hd & Hlen & _).
  assert (full x = d) as -> by (unfold full; by rewrite (decompose_le 7 9 x d) by (done || lia)). lia.
Qed.

Lemma nfc_length l : Forall is_scalar l → (length (nfc l) ≤ 4 * length l)%nat.
Proof.
  intros Hl. unfold nfc. etrans; [apply compose_length|]. unfold nfd.
  destruct (canonical_order_spec (full_text l)) as (_ & _ & Hp). rewrite Hp. by apply full_text_length.
Qed.

(** A valid span is normalised, or memory runs out. *)
Lemma nfc_normalize_text realloc malloc points :
  Forall is_scalar points →
  let o := yvex_tokenizer_nfc_normalize true realloc malloc (utf8_text points) in
  (o = Done (utf8_text (nfc points)) ∨ memory_refusal o) ∧
  ((∀ n, realloc n = true) → (∀ n, malloc n = true) → Z.of_nat (length (utf8_text points)) ≤ 2 ^ 56 →
   o = Done (utf8_text (nfc points))).
Proof.
  intros Hp. cbn zeta. unfold yvex_tokenizer_nfc_normalize.
  destruct (decompose_span_spec realloc (utf8_text points) (length (utf8_text points)) 0 points (ScalarBuffer [] 0))
    as [H1 H2]; [apply utf8_text_u8|lia|lia|done|done|]. cbn [sb_data app] in H1, H2. split.
  - destruct H1 as [(b & Eb & Ed)|(st & why & -> & H)]; [|right; by do 2 eexists].
    rewrite Eb. cbn [mbind outcome_bind]. rewrite Ed. clear H2 Eb Ed.
    destruct (nfc_bytes_spec (canonical_compose (canonical_order (full_text points))) 0) as [[n ->]|(st & why & -> & H)];
      [|right; by do 2 eexists]. cbn [mbind outcome_bind].
    split_guard; [right; do 2 eexists; split; [done|by left]|left]. by rewrite utf8_write_all.
  - intros Hr Hm Hlen. pose proof (full_text_length points Hp) as Hf. pose proof (utf8_text_length points) as Hu.
    change (2 ^ 56) with 72057594037927936 in Hlen.
    destruct (H2 0%nat) as (b & Eb & Ed & _).
    { split; [done|]. change (2 ^ 61) with 2305843009213693952. change (2 ^ 60) with 1152921504606846976.
      unfold sb_count. cbn [sb_capacity sb_data length]. lia. }
    rewrite Eb. cbn [mbind outcome_bind]. rewrite Ed.
    destruct (nfc_bytes_total (canonical_compose (canonical_order (full_text points))) 0) as [n ->].
    { lia. }
    { change (2 ^ 62) with 4611686018427387904. pose proof (nfc_length points Hp) as Hn. unfold nfc, nfd in Hn. lia. }
    cbn [mbind outcome_bind]. rewrite Hm, andb_false_r. by rewrite utf8_write_all.
Qed.

(** C18: normalising is canonical. On a valid text it returns the encoding of the canonical form, unless memory
    runs out, which it reports; whatever it returns is the canonical form of a valid text. The canonical
    decomposition of a text is the one ordered list equivalent to its full decomposition; the canonical
    form has the decomposition of the text it was made from, so it is equivalent to it, normalising twice
    changes nothing, and two texts have one canonical form exactly when they have one decomposition. *)
Theorem nfc_canonical realloc malloc bytes :
  Forall is_u8 bytes →
  (∀ out, yvex_tokenizer_nfc_normalize true realloc malloc bytes = Done out →
     ∃ points, Forall is_scalar points ∧ bytes = utf8_text points ∧ out = utf8_text (nfc points)) ∧
  (∀ points, Forall is_scalar points → bytes = utf8_text points →
     (yvex_tokenizer_nfc_normalize true realloc malloc bytes = Done (utf8_text (nfc points)) ∨
      memory_refusal (yvex_tokenizer_nfc_normalize true realloc malloc bytes)) ∧
     ((∀ n, realloc n = true) → (∀ n, malloc n = true) → Z.of_nat (length bytes) ≤ 2 ^ 56 →
      yvex_tokenizer_nfc_normalize true realloc malloc bytes = Done (utf8_text (nfc points))) ∧
     ordered (nfd points) ∧ canon_equiv (nfd points) (full_text points) ∧
     Forall is_scalar (nfc points) ∧ nfd (nfc points) = nfd points ∧ nfc (nfc points) = nfc points ∧
     (∀ others, Forall is_scalar others → nfc others = nfc points ↔ nfd others = nfd points)).
Proof.
  intros Hu.
  assert (∀ points, Forall is_scalar points → bytes = utf8_text points →
    yvex_tokenizer_nfc_normalize true realloc malloc bytes = Done (utf8_text (nfc points)) ∨
    memory_refusal (yvex_tokenizer_nfc_normalize true realloc malloc bytes)) as Hdone.
  { intros points Hp ->. by apply (nfc_normalize_text realloc malloc). }
  split.
  - intros out E. assert (utf8_validate_from (length bytes) bytes 0 = true) as Hv.
    { unfold yvex_tokenizer_nfc_normalize in E. destruct (decompose_span _ _ _ _ _ _) as [b|] eqn:Ed; [|done].
      eapply decompose_span_valid; [done|lia|exact Ed]. }
    apply utf8_validate_from_spec in Hv as (points & Hp & Et); [|done|lia|lia]. exists points.
    split; [done|]. split; [done|]. destruct (Hdone points Hp Et) as [E'|(st & why & E' & _)]; rewrite E in E'; [|done].
    by injection E'.
  - intros points Hp Et. destruct (nfd_spec points Hp) as (Ho & He & _). destruct (nfd_nfc points Hp) as [Hn Hs].
    split_and!; [by apply Hdone| |done..| |].
    + rewrite Et. by apply (nfc_normalize_text realloc malloc).
    + unfold nfc at 1. by rewrite Hn.
    + intros others Hos. split; [|unfold nfc; by intros ->]. intros E.
      destruct (nfd_nfc others Hos) as [Hno _]. by rewrite <- Hn, <- Hno, E.
Qed.
Lemma nfc_canonical_witness :
  Forall is_u8 (utf8_text [101; 803; 770]) ∧
  yvex_tokenizer_nfc_normalize true (λ _, true) (λ _, true) (utf8_text [101; 770; 803]) = Done (utf8_text [7879]).
Proof.
  split; [apply utf8_text_u8|].
  assert (Forall is_scalar [101; 770; 803]) as Hp by (repeat (apply Forall_cons_2; [left; lia|]); by apply Forall_nil_2).
  destruct (nfc_canonical (λ _, true) (λ _, true) (utf8_text [101; 770; 803])) as [_ H]; [apply utf8_text_u8|].
  destruct (H [101; 770; 803] Hp eq_refl) as (_ & E & _). rewrite E; [|done|done|vm_compute; discriminate].
  vm_compute. reflexivity.
Defined.
