(* ===== verification/HashIndex.v ===== *)
(** Open addressing: the lookup tables of the tokenizer, [src/tokenizer/execution.c].

    A table has a power of two of cells; a key starts at a cell its hash names and is searched in the cells
    that follow, round the end, until it or a vacant cell is met. The theory here is that of the walk, for any
    content of the cells: a walk over a table with a vacant cell ends, and it finds a cell exactly when the
    table has one. *)

From S2P Require Import Prelude Status Exec.
#[local] Open Scope Z_scope.

Section table.
Context {C : Type}.
Implicit Types (table : list (option C)) (c : C) (hit : C → option bool).

Definition table_capacity table : Z := Z.of_nat (length table).

(** The mask and the next cell. *)
Definition table_mask table : Z := u64 (table_capacity table - 1).
Definition table_next table (slot : Z) : Z := Z.land (u64 (slot + 1)) (table_mask table).

Inductive walk : Type :=
  | Hit (cell : C)
  | Vacant (slot : Z)
  | Astray.

(** One walk, from a cell on. [hit] says whether an occupied cell is the one searched, and fails where it
    reads outside an array.
    src/src/tokenizer/execution.c:128-137, [vocab_lookup] *)
Fixpoint index_walk (fuel : nat) hit table (slot : Z) : walk :=
  match fuel with
  | O => Astray
  | S fuel =>
      match array_get table slot with
      | None => Astray
      | Some None => Vacant slot
      | Some (Some c) =>
          match hit c with
          | None => Astray
          | Some true => Hit c
          | Some false => index_walk fuel hit table (table_next table slot)
          end
      end
  end.

(** Search round the table once. *)
Definition table_find hit table (hash : Z) : walk :=
  index_walk (length table) hit table (Z.land hash (table_mask table)).

(** ** The invariant *)

(** What a table holds. *)
Definition cells table : list C := omap id table.

(** The cell [steps] after the start. *)
Definition table_slot table (hash : Z) (steps : nat) : Z := (hash + Z.of_nat steps) mod table_capacity table.

(** The first [steps] cells from the start are occupied. *)
Definition walk_occupied table (hash : Z) (steps : nat) : Prop :=
  ∀ j, (j < steps)%nat → ∃ c, array_get table (table_slot table hash j) = Some (Some c).

(** Every cell is reached from the start of what it holds over occupied cells. *)
Record table_ok (hash_of : C → Z) table : Prop := TableOk {
  to_capacity : ∃ e, 0 ≤ e < 63 ∧ table_capacity table = 2 ^ e;
  to_hash : ∀ c, 0 ≤ hash_of c;
  to_reach : ∀ s c, array_get table s = Some (Some c) →
    ∃ k, (k < length table)%nat ∧ s = table_slot table (hash_of c) k ∧ walk_occupied table (hash_of c) k;
}.

Lemma elem_of_cells table c : c ∈ cells table ↔ ∃ s, array_get table s = Some (Some c).
Proof.
  unfold cells. rewrite list_elem_of_omap. split.
  - intros ([c'|] & Hin & E); [|done]. injection E as ->. apply list_elem_of_lookup in Hin as [i Hi].
    exists (Z.of_nat i). by rewrite array_get_nat.
  - intros [s Hs]. apply array_get_Some in Hs as [_ Hs]. exists (Some c). split; [|done].
    by eapply list_elem_of_lookup_2.
Qed.

Section ok.
Context (hash_of : C → Z) table (Hok : table_ok hash_of table).

Lemma table_capacity_range : 0 < table_capacity table < 2 ^ 63.
Proof.
  destruct (to_capacity _ _ Hok) as (e & He & ->). split; [apply Z.pow_pos_nonneg; lia|].
  apply Z.pow_lt_mono_r; lia.
Qed.

Lemma table_mask_mod x : 0 ≤ x → Z.land x (table_mask table) = x mod table_capacity table.
Proof.
  intros Hx. unfold table_mask. pose proof table_capacity_range as Hc.
  change (2 ^ 63) with 9223372036854775808 in Hc. rewrite u64_id by ulia.
  destruct (to_capacity _ _ Hok) as (e & He & ->).
  rewrite <- Z.land_ones by lia. f_equal. rewrite Z.ones_equiv. lia.
Qed.

Lemma table_slot_range hash k : 0 ≤ table_slot table hash k < table_capacity table.
Proof. apply Z.mod_pos_bound, table_capacity_range. Qed.

Lemma table_next_slot hash k : table_next table (table_slot table hash k) = table_slot table hash (S k).
Proof.
  pose proof (table_slot_range hash k). pose proof table_capacity_range as Hc. unfold table_next.
  change (2 ^ 63) with 9223372036854775808 in Hc. rewrite u64_id by ulia. rewrite table_mask_mod by lia.
  unfold table_slot. rewrite Zplus_mod_idemp_l. f_equal. lia.
Qed.

(** A vacant cell is met within one round. *)
Lemma walk_meets_vacant hash :
  (length (cells table) < length table)%nat →
  ∃ k, (k < length table)%nat ∧ array_get table (table_slot table hash k) = Some None.
Proof.
  intros Hl. assert (∃ s, table !! s = Some None) as [s Hs].
  { clear Hok. unfold cells in Hl. revert Hl. induction table as [|[c|] l IH]; cbn; intros Hl; [lia| |by exists 0%nat].
    destruct IH as [s Hs]; [lia|]. by exists (S s). }
  pose proof (lookup_lt_Some _ _ _ Hs) as Hlt. pose proof table_capacity_range as Hc.
  unfold table_capacity in Hc. set (cap := Z.of_nat (length table)) in *.
  exists (Z.to_nat ((Z.of_nat s - hash) mod cap)).
  pose proof (Z.mod_pos_bound (Z.of_nat s - hash) cap ltac:(lia)) as Hb. split; [lia|].
  unfold table_slot, table_capacity. fold cap. rewrite Z2Nat.id by lia.
  rewrite Zplus_mod_idemp_r. replace (hash + (Z.of_nat s - hash)) with (Z.of_nat s) by lia.
  rewrite Z.mod_small by lia. by rewrite array_get_nat.
Qed.

(** Where a walk ends. *)
Definition walk_post hit (hash : Z) (w : walk) : Prop :=
  match w with
  | Hit c => c ∈ cells table ∧ hit c = Some true
  | Vacant s => (∀ c, c ∈ cells table → hit c = Some false) ∧ array_get table s = Some None ∧
      ∃ k, (k < length table)%nat ∧ s = table_slot table hash k ∧ walk_occupied table hash k
  | Astray => False
  end.

Context (hit : C → option bool) (hash : Z).
Context (Hhit : ∀ c, c ∈ cells table → is_Some (hit c)).
Context (Hstart : ∀ c, c ∈ cells table → hit c = Some true → hash_of c = hash).

Lemma index_walk_spec fuel k :
  (k + fuel = length table)%nat →
  (∃ v, (k ≤ v < length table)%nat ∧ array_get table (table_slot table hash v) = Some None) →
  (∀ j, (j < k)%nat → ∃ c, array_get table (table_slot table hash j) = Some (Some c) ∧ hit c = Some false) →
  walk_post hit hash (index_walk fuel hit table (table_slot table hash k)).
Proof.
  revert k. induction fuel as [|fuel IH]; intros k Hk (v & Hv & Hvac) Hpath; [lia|]. cbn [index_walk].
  destruct (array_get_is_Some table (table_slot table hash k)) as [[c|] Hcell]; [apply table_slot_range| |].
  - rewrite Hcell. assert (c ∈ cells table) as Hin by (apply elem_of_cells; eauto).
    destruct (Hhit c Hin) as [[] E]; rewrite E; [by split|]. rewrite table_next_slot. apply IH; [lia| |].
    + exists v. split; [|done]. destruct (decide (k = v)) as [->|]; [|lia]. by rewrite Hvac in Hcell.
    + intros j Hj. destruct (decide (j = k)) as [->|]; [by exists c|]. apply Hpath. lia.
  - rewrite Hcell. split; [|split; [done|]].
    + intros c Hin. destruct (Hhit c Hin) as [[] E]; [|done]. exfalso. pose proof Hin as Hin'.
      apply elem_of_cells in Hin' as [s Hs]. destruct (to_reach _ _ Hok s c Hs) as (r & Hr & -> & Hocc).
      rewrite (Hstart c Hin E) in Hs, Hocc. destruct (lt_eq_lt_dec r k) as [[H|H]|H].
      * destruct (Hpath r H) as (c' & E1 & E2). congruence.
      * subst r. congruence.
      * destruct (Hocc k H) as [c' E']. congruence.
    + exists k. split; [lia|]. split; [done|]. intros j Hj. destruct (Hpath j Hj) as (c & E & _). by exists c.
Qed.

(** A search ends, and finds a cell exactly when the table has one. *)
Lemma table_find_spec :
  0 ≤ hash → (length (cells table) < length table)%nat → walk_post hit hash (table_find hit table hash).
Proof.
  intros Hh Hl. unfold table_find. rewrite table_mask_mod by done.
  replace (hash mod table_capacity table) with (table_slot table hash 0)
    by (unfold table_slot; by rewrite Z.add_0_r).
  apply index_walk_spec; [done| |lia]. destruct (walk_meets_vacant hash Hl) as (v & Hv & E).
  exists v. split; [lia|done].
Qed.
End ok.

(** ** Building *)

Lemma cells_replicate n : cells (replicate n None) = [].
Proof. by induction n. Qed.

Lemma table_ok_empty (hash_of : C → Z) e :
  0 ≤ e < 63 → (∀ c, 0 ≤ hash_of c) → table_ok hash_of (replicate (Z.to_nat (2 ^ e)) None).
Proof.
  intros He Hh. assert (0 < 2 ^ e) by (apply Z.pow_pos_nonneg; lia). constructor; [|done|].
  - exists e. split; [done|]. unfold table_capacity. rewrite length_replicate. lia.
  - intros s c H'. apply array_get_Some in H' as [_ H']. by apply lookup_replicate in H' as [H' _].
Qed.

Lemma cells_insert table (s : nat) c :
  table !! s = Some None → cells (<[s := Some c]> table) ≡ₚ c :: cells table.
Proof.
  revert s. induction table as [|x l IH]; intros [|s] Hs; cbn in Hs |- *; simplify_eq; [done|].
  unfold cells in IH. destruct x as [y|]; cbn; rewrite (IH s Hs); [|done]. apply Permutation_swap.
Qed.

(** Filling the vacant cell a search ended on keeps the table in order. *)
Lemma table_ok_insert (hash_of : C → Z) table hit c s :
  table_ok hash_of table → walk_post table hit (hash_of c) (Vacant s) →
  array_set table s (Some c) = Some (<[Z.to_nat s := Some c]> table) ∧
  table_ok hash_of (<[Z.to_nat s := Some c]> table) ∧
  cells (<[Z.to_nat s := Some c]> table) ≡ₚ c :: cells table.
Proof.
  intros Hok (_ & Hfree & k & Hk & Hs & Hocc).
  pose proof (table_slot_range hash_of table Hok (hash_of c) k) as Hr. rewrite <- Hs in Hr.
  set (table' := <[Z.to_nat s := Some c]> table).
  assert (Hlen : length table' = length table) by apply length_insert.
  assert (Hslot : ∀ h j, table_slot table' h j = table_slot table h j)
    by (intros h j; unfold table_slot, table_capacity; by rewrite Hlen).
  assert (Hpath : ∀ h j, walk_occupied table h j → walk_occupied table' h j).
  { intros h j H i Hi. destruct (H i Hi) as [x E]. rewrite Hslot. unfold table'.
    rewrite array_get_after_set by done. case_decide; eauto. }
  split; [|split].
  - by apply array_set_inside.
  - constructor; [|apply (to_hash _ _ Hok)|].
    + destruct (to_capacity _ _ Hok) as (e & He & Hc). exists e. split; [done|].
      unfold table_capacity. by rewrite Hlen.
    + intros i x. unfold table'. rewrite array_get_after_set by done. fold table'. rewrite Hlen.
      case_decide as E.
      * intros [= <-]. subst i. exists k. rewrite Hslot. split_and!; [done..|by apply Hpath].
      * intros H. destruct (to_reach _ _ Hok i x H) as (r & ? & ? & ?). exists r. rewrite Hslot.
        split_and!; [done..|by apply Hpath].
  - apply cells_insert. apply array_get_Some in Hfree. tauto.
Qed.
End table.

Arguments walk : clear implicits.
