(* ===== verification/Vocabulary.v ===== *)
(** The sealed lookups of a tokenizer, [src/tokenizer/execution.c]: the vocabulary by text, the merges by
    pair of tokens, and the visible form of bytes ("ByteLevel") that vocabulary texts are written in.

    A vocabulary is admitted when its texts are distinct and every byte has a token; the index then answers
    exactly as a search through the tokens. A merge table is admitted when each row names two tokens whose
    joined text is a token, and no pair twice. *)

From S2P Require Import Prelude Status Exec Sha256 Identity Gguf Utf8 HashIndex.
#[local] Open Scope Z_scope.

(** * Data *)

Definition YVEX_TOKEN_TYPE_NORMAL : Z := 1.
Definition YVEX_TOKEN_TYPE_UNK : Z := 2.
Definition YVEX_TOKEN_TYPE_CONTROL : Z := 3.
Definition YVEX_TOKEN_TYPE_USER_DEFINED : Z := 4.
Definition YVEX_TOKEN_TYPE_UNUSED : Z := 5.
Definition YVEX_TOKEN_TYPE_BYTE : Z := 6.

(** The score is not part of the model: nothing reads it.
    src/include/yvex/tokenizer.h, [yvex_token_info] *)
Record yvex_token_info := TokenInfo { tk_id : Z; tk_text : list Z; tk_type : Z }.

(** src/src/tokenizer/private.h, [tokenizer_special_id] *)
Record tokenizer_special_id := SpecialId { sp_present : bool; sp_id : Z }.

(** src/src/tokenizer/private.h, [tokenizer_vocab_slot] *)
Record tokenizer_vocab_slot := VocabSlot { vs_hash : Z; vs_id : Z }.

(** src/src/tokenizer/private.h, [tokenizer_merge_slot] *)
Record tokenizer_merge_slot := MergeSlot { ms_pair : Z; ms_rank : Z; ms_merged_id : Z }.

(** The facts of the compiled policy the execution reads.
    src/include/yvex/internal/tokenizer.h, [yvex_tokenizer_family_policy] *)
Record family_policy := FamilyPolicy {
  fp_tokenizer_pre : string;
  fp_merge_count : Z;
  fp_added_token_count : Z;
}.

(** src/include/yvex/tokenizer.h, [yvex_tokenizer_plan_summary] *)
Record tokenizer_plan := TokenizerPlan {
  tp_sealed : bool;
  tp_add_bos_token : bool;
  tp_add_eos_token : bool;
  tp_merge_count : Z;
  tp_added_token_count : Z;
  tp_special_token_count : Z;
  tp_vocabulary_identity : string;
  tp_merge_table_identity : string;
  tp_added_token_identity : string;
  tp_tokenizer_plan_identity : string;
}.

(** An index is the list of its slots, occupied or not; a count and its array are one list.
    src/src/tokenizer/private.h, [yvex_tokenizer] *)
Record yvex_tokenizer := Tokenizer {
  tz_tokens : list yvex_token_info;
  tz_bos : tokenizer_special_id;
  tz_eos : tokenizer_special_id;
  tz_unk : tokenizer_special_id;
  tz_pad : tokenizer_special_id;
  tz_policy : family_policy;
  tz_plan : tokenizer_plan;
  tz_vocab_index : list (option tokenizer_vocab_slot);
  tz_merge_index : list (option tokenizer_merge_slot);
  tz_added_token_ids : list Z;
  tz_added_bucket_start : list Z;
  tz_byte_token_ids : list Z;
}.

#[export] Instance tokenizer_plan_eta : Eta tokenizer_plan := λ p,
  TokenizerPlan (tp_sealed p) (tp_add_bos_token p) (tp_add_eos_token p) (tp_merge_count p)
    (tp_added_token_count p) (tp_special_token_count p) (tp_vocabulary_identity p)
    (tp_merge_table_identity p) (tp_added_token_identity p) (tp_tokenizer_plan_identity p).

#[export] Instance yvex_tokenizer_eta : Eta yvex_tokenizer := λ t,
  Tokenizer (tz_tokens t) (tz_bos t) (tz_eos t) (tz_unk t) (tz_pad t) (tz_policy t) (tz_plan t)
    (tz_vocab_index t) (tz_merge_index t) (tz_added_token_ids t) (tz_added_bucket_start t)
    (tz_byte_token_ids t).

Definition vocab_size (t : yvex_tokenizer) : Z := Z.of_nat (length (tz_tokens t)).

(** * The vocabulary index *)

(** src/src/tokenizer/execution.c, [lookup_hash] *)
Definition lookup_hash (data : list Z) : Z :=
  let value := foldl (λ value byte, u64 (Z.lxor value byte * 1099511628211)) 1469598103934665603 data in
  if value =? 0 then 1 else value.

(** The slot of a token with the text [data].
    src/src/tokenizer/execution.c:131-132, [vocab_lookup] *)
Definition vocab_hit (tokens : list yvex_token_info) (data : list Z) (slot : tokenizer_vocab_slot) : option bool :=
  token ← array_get tokens (vs_id slot);
  Some ((vs_hash slot =? lookup_hash data) && bool_decide (tk_text token = data)).

(** src/src/tokenizer/execution.c, [vocab_lookup] *)
Definition vocab_lookup (t : yvex_tokenizer) (data : list Z) : option (option Z) :=
  match tz_vocab_index t with
  | [] => Some None
  | index =>
      match table_find (vocab_hit (tz_tokens t) data) index (lookup_hash data) with
      | Hit slot => token ← array_get (tz_tokens t) (vs_id slot); Some (Some (tk_id token))
      | Vacant _ => Some None
      | Astray => None
      end
  end.

(** Whether the token was admitted, and the tokenizer.
    src/src/tokenizer/execution.c, [vocab_insert] *)
Definition vocab_insert (t : yvex_tokenizer) (token_id : Z) : option (bool * yvex_tokenizer) :=
  token ← array_get (tz_tokens t) token_id;
  match table_find (vocab_hit (tz_tokens t) (tk_text token)) (tz_vocab_index t) (lookup_hash (tk_text token)) with
  | Hit slot => prior ← array_get (tz_tokens t) (vs_id slot); Some (bool_decide (tk_id prior = token_id), t)
  | Vacant slot =>
      index ← array_set (tz_vocab_index t) slot (Some (VocabSlot (lookup_hash (tk_text token)) token_id));
      Some (true, t <| tz_vocab_index := index |>)
  | Astray => None
  end.

(** * Visible bytes *)

(** src/src/tokenizer/execution.c:214-215, [byte_codepoint] *)
Definition byte_visible (byte : Z) : bool :=
  ((33 <=? byte) && (byte <=? 126)) || ((161 <=? byte) && (byte <=? 172)) || ((174 <=? byte) && (byte <=? 255)).

(** src/src/tokenizer/execution.c, [byte_codepoint] *)
Definition byte_codepoint (byte : Z) : Z :=
  if byte_visible byte then byte
  else 256 + Z.of_nat (length (filter (λ candidate, byte_visible candidate = false) (seqZ 0 byte))).

(** src/src/tokenizer/decode.c:71-81, [codepoint_byte] *)
Fixpoint codepoint_byte_loop (candidates : list Z) (extra point : Z) : option Z :=
  match candidates with
  | [] => None
  | candidate :: candidates =>
      if byte_visible candidate then codepoint_byte_loop candidates extra point
      else if 256 + extra =? point then Some candidate
      else codepoint_byte_loop candidates (extra + 1) point
  end.

(** src/src/tokenizer/decode.c, [codepoint_byte] *)
Definition codepoint_byte (point : Z) : option Z :=
  if (point <=? 255) && byte_visible point then Some point
  else if point <? 256 then None
  else codepoint_byte_loop (seqZ 0 256) 0 point.

(** src/src/tokenizer/execution.c, [byte_tokens_build] *)
Definition byte_tokens_build (t : yvex_tokenizer) : run yvex_tokenizer :=
  for_range 0 256 (λ byte t,
    let! found := run_access (vocab_lookup t (utf8_put (byte_codepoint byte))) in
    match found with
    | None => run_refuse YVEX_ERR_FORMAT "ByteLevel initial unit is absent from vocabulary"
    | Some token_id =>
        let! ids := run_access (array_set (tz_byte_token_ids t) byte token_id) in
        run_ret (t <| tz_byte_token_ids := ids |>)
    end) t.

(** * Sealing the vocabulary *)

(** The least power of two reached by doubling; sixty-four doublings pass every 64-bit count.
    src/src/tokenizer/execution.c:251-252, [vocabulary_build] *)
Fixpoint index_size (fuel : nat) (capacity need : Z) : Z :=
  match fuel with
  | O => capacity
  | S fuel => if capacity <? need then index_size fuel (u64 (capacity * 2)) need else capacity
  end.

(** One token: index it, hash it.
    src/src/tokenizer/execution.c:266-277, [vocabulary_build] *)
Definition vocabulary_row (index : Z) (s : yvex_tokenizer * yvex_sha256) : run (yvex_tokenizer * yvex_sha256) :=
  let '(t, hash) := s in
  let! token := run_access (array_get (tz_tokens t) index) in
  let! (admitted, t) := run_access (vocab_insert t index) in
  let hash := if admitted : bool then
                sha256_update_fields hash [FU64Be index; FBytes (tk_text token); FU64Be (tk_type token)]
              else None in
  match hash with
  | Some hash => run_ret (t, hash)
  | None => run_refuse YVEX_ERR_FORMAT "duplicate or unhashable vocabulary entry"
  end.

(** [calloc] answers whether that many bytes can be had.
    src/src/tokenizer/execution.c, [vocabulary_build] *)
Definition vocabulary_build (calloc : Z → bool) (t : yvex_tokenizer) : run yvex_tokenizer :=
  let capacity := index_size 64 1 (u64 (vocab_size t * 2)) in
  refuse_when (SIZE_MAX / 16 <? capacity) with YVEX_ERR_NOMEM "vocabulary index exceeds address space";
  refuse_when (negb (calloc (capacity * 16))) with YVEX_ERR_NOMEM "vocabulary index allocation failed";
  let t := t <| tz_vocab_index := replicate (Z.to_nat capacity) None |> in
  match yvex_sha256_update_text yvex_sha256_init (Some "yvex.tokenizer.vocabulary.v1"%string) with
  | None => run_refuse YVEX_ERR_STATE ""
  | Some hash =>
      let! (t, hash) := for_range 0 (vocab_size t) vocabulary_row (t, hash) in
      match hash_finish hash with
      | None => run_refuse YVEX_ERR_STATE ""
      | Some identity =>
          byte_tokens_build (t <| tz_plan ::= λ plan, plan <| tp_vocabulary_identity := identity |> |>)
      end
  end.

(** * The visible form of bytes *)

(** How a vocabulary text spells a sequence of bytes. *)
Definition visible (bytes : list Z) : list Z := utf8_text (byte_codepoint <$> bytes).

Definition codepoint_ok (byte : Z) : bool :=
  ((0 <=? byte_codepoint byte) && (byte_codepoint byte <? 55296)) &&
  bool_decide (codepoint_byte (byte_codepoint byte) = Some byte).

Lemma byte_codepoint_spec byte :
  is_u8 byte → is_scalar (byte_codepoint byte) ∧ codepoint_byte (byte_codepoint byte) = Some byte.
Proof.
  intros Hb. assert (codepoint_ok byte = true) as H.
  { apply (byte_forall codepoint_ok); [vm_compute; reflexivity|done]. }
  apply andb_true_iff in H as [H1 H2]. apply bool_decide_eq_true in H2. split; [left; guards; lia|done].
Qed.

Lemma visible_scalars bytes : Forall is_u8 bytes → Forall is_scalar (byte_codepoint <$> bytes).
Proof. intros H. apply Forall_fmap. eapply Forall_impl; [exact H|]. intros b Hb. by apply byte_codepoint_spec. Qed.

Lemma visible_app l m : visible (l ++ m) = visible l ++ visible m.
Proof. unfold visible. by rewrite fmap_app, utf8_text_app. Qed.

Lemma visible_cons b l : visible (b :: l) = utf8_put (byte_codepoint b) ++ visible l.
Proof. apply utf8_text_cons. Qed.

Lemma visible_inj l m : Forall is_u8 l → Forall is_u8 m → visible l = visible m → l = m.
Proof.
  intros Hl Hm E. apply utf8_text_inj in E; [|by apply visible_scalars..].
  revert m Hm E. induction Hl as [|b l Hb Hl IH]; intros [|c m] Hm E; [done..|].
  apply Forall_cons in Hm as [Hc Hm]. injection E as E1 E2.
  f_equal; [|by apply IH]. destruct (byte_codepoint_spec b Hb) as [_ H1], (byte_codepoint_spec c Hc) as [_ H2].
  congruence.
Qed.

(** * The vocabulary index is exact *)

Lemma lookup_hash_range data : 0 ≤ lookup_hash data.
Proof.
  unfold lookup_hash.
  assert (∀ h, 0 ≤ h → 0 ≤ foldl (λ value byte, u64 (Z.lxor value byte * 1099511628211)) h data) as H.
  { induction data as [|b l IH]; intros h Hh; [done|]. cbn [foldl]. apply IH. apply u64_range. }
  specialize (H 1469598103934665603 ltac:(lia)). case_match; [done|exact H].
Qed.

(** Identifiers are positions, and there are no more than a 32-bit integer counts. *)
Record tokens_wf (tokens : list yvex_token_info) : Prop := TokensWf {
  tw_id : ∀ i token, tokens !! i = Some token → tk_id token = Z.of_nat i;
  tw_count : Z.of_nat (length tokens) ≤ UINT32_MAX;
  tw_type : Forall (λ token, 1 ≤ tk_type token ≤ 6) tokens;
}.

(** The first [count] tokens are indexed. *)
Record indexed (tokens : list yvex_token_info) (index : list (option tokenizer_vocab_slot)) (count : nat) : Prop :=
  Indexed {
    ix_table : table_ok (λ slot, Z.abs (vs_hash slot)) index;
    ix_hash : ∀ slot, slot ∈ cells index →
      ∃ token, array_get tokens (vs_id slot) = Some token ∧ vs_hash slot = lookup_hash (tk_text token);
    ix_cells : vs_id <$> cells index ≡ₚ Z.of_nat <$> seq 0 count;
    ix_nodup : NoDup (tk_text <$> take count tokens);
    ix_count : (count ≤ length tokens)%nat;
  }.

Section indexed.
Context (tokens : list yvex_token_info) (index : list (option tokenizer_vocab_slot)) (count : nat).
Context (Hix : indexed tokens index count).

Lemma indexed_cells : length (cells index) = count.
Proof.
  pose proof (Permutation_length (ix_cells _ _ _ Hix)) as H. by rewrite !length_fmap, length_seq in H.
Qed.

Lemma indexed_slot slot :
  slot ∈ cells index → ∃ i token, vs_id slot = Z.of_nat i ∧ (i < count)%nat ∧ tokens !! i = Some token ∧
    vs_hash slot = lookup_hash (tk_text token).
Proof.
  intros Hs. destruct (ix_hash _ _ _ Hix slot Hs) as (token & Ht & Hh).
  assert (vs_id slot ∈ Z.of_nat <$> seq 0 count) as Hi.
  { rewrite <- (ix_cells _ _ _ Hix). by apply list_elem_of_fmap_2. }
  apply list_elem_of_fmap in Hi as (i & E & Hi%elem_of_seq). rewrite E, array_get_nat in Ht.
  exists i, token. split_and!; [done|lia|done..].
Qed.

Lemma indexed_position i token :
  (i < count)%nat → tokens !! i = Some token → ∃ slot, slot ∈ cells index ∧ vs_id slot = Z.of_nat i.
Proof.
  intros Hi Ht. assert (Z.of_nat i ∈ vs_id <$> cells index) as H.
  { rewrite (ix_cells _ _ _ Hix). apply list_elem_of_fmap_2, elem_of_seq. lia. }
  apply list_elem_of_fmap in H as (slot & -> & H). by exists slot.
Qed.

(** A search for a text ends on the token of that text, or shows there is none. *)
Lemma indexed_find data :
  (count < length index)%nat →
  match table_find (vocab_hit tokens data) index (lookup_hash data) with
  | Hit slot => ∃ i token, vs_id slot = Z.of_nat i ∧ (i < count)%nat ∧ tokens !! i = Some token ∧ tk_text token = data
  | Vacant s => (∀ i token, (i < count)%nat → tokens !! i = Some token → tk_text token ≠ data) ∧
      walk_post index (vocab_hit tokens data) (lookup_hash data) (Vacant s)
  | Astray => False
  end.
Proof.
  intros Hroom.
  assert (∀ slot, slot ∈ cells index → ∀ i token, vs_id slot = Z.of_nat i → tokens !! i = Some token →
    vs_hash slot = lookup_hash (tk_text token) →
    vocab_hit tokens data slot = Some (bool_decide (tk_text token = data))) as Hhit.
  { intros slot _ i token Ei Et Eh. unfold vocab_hit. rewrite Ei, array_get_nat, Et. cbn. f_equal.
    destruct (decide (tk_text token = data)) as [<-|Hne].
    - by rewrite Eh, Z.eqb_refl.
    - rewrite bool_decide_false by done. by destruct (_ =? _). }
  assert (walk_post index (vocab_hit tokens data) (lookup_hash data)
    (table_find (vocab_hit tokens data) index (lookup_hash data))) as Hp.
  { apply (table_find_spec (λ slot, Z.abs (vs_hash slot)) index (ix_table _ _ _ Hix)); [| |apply lookup_hash_range|by rewrite indexed_cells].
  { intros slot Hs. destruct (indexed_slot slot Hs) as (i & token & Ei & Hi & Et & Eh).
    rewrite (Hhit slot Hs i token) by done. by eexists. }
  { intros slot Hs. destruct (indexed_slot slot Hs) as (i & token & Ei & Hi & Et & Eh).
    rewrite (Hhit slot Hs i token) by done. intros [= E%bool_decide_eq_true]. subst data.
    rewrite Eh. pose proof (lookup_hash_range (tk_text token)). lia. } }
  destruct (table_find _ _ _) as [slot|s|]; [| |done].
  - destruct Hp as [Hs E]. destruct (indexed_slot slot Hs) as (i & token & Ei & Hi & Et & Eh).
    rewrite (Hhit slot Hs i token) in E by done. injection E as E%bool_decide_eq_true. by exists i, token.
  - split; [|done]. intros i token Hi Et Ed. destruct (indexed_position i token Hi Et) as (slot & Hs & Ei).
    destruct (indexed_slot slot Hs) as (i' & token' & Ei' & _ & Et' & Eh).
    assert (i' = i) as -> by lia. assert (token' = token) as -> by congruence.
    destruct Hp as (Hn & _). specialize (Hn slot Hs). rewrite (Hhit slot Hs i token) in Hn by done.
    injection Hn as Hn%bool_decide_eq_false. done.
Qed.
End indexed.

(** ** Building *)

Lemma indexed_empty tokens e :
  0 ≤ e < 63 → indexed tokens (replicate (Z.to_nat (2 ^ e)) None) 0.
Proof.
  intros He. constructor.
  - apply table_ok_empty; [done|]. intros c. lia.
  - intros slot. rewrite cells_replicate. by intros ?%elem_of_nil.
  - by rewrite cells_replicate.
  - apply NoDup_nil_2.
  - lia.
Qed.

Lemma texts_elem tokens (count : nat) data :
  data ∈ tk_text <$> take count tokens ↔
  ∃ i token, (i < count)%nat ∧ tokens !! i = Some token ∧ tk_text token = data.
Proof.
  rewrite list_elem_of_fmap. split.
  - intros (token & -> & [i Hi]%list_elem_of_lookup). apply lookup_take_Some in Hi as [? ?]. by exists i, token.
  - intros (i & token & Hi & Ht & <-). exists token. split; [done|]. apply list_elem_of_lookup.
    exists i. by apply lookup_take_Some.
Qed.

(** Indexing the next token: refused exactly on a text already there. *)
Lemma vocab_insert_spec t (count : nat) token :
  tokens_wf (tz_tokens t) → indexed (tz_tokens t) (tz_vocab_index t) count →
  (count < length (tz_vocab_index t))%nat → tz_tokens t !! count = Some token →
  (tk_text token ∈ tk_text <$> take count (tz_tokens t) ∧ vocab_insert t (Z.of_nat count) = Some (false, t)) ∨
  (tk_text token ∉ tk_text <$> take count (tz_tokens t) ∧ ∃ index,
     vocab_insert t (Z.of_nat count) = Some (true, t <| tz_vocab_index := index |>) ∧
     indexed (tz_tokens t) index (S count) ∧ length index = length (tz_vocab_index t)).
Proof.
  intros Hwf Hix Hroom Ht. unfold vocab_insert. rewrite array_get_nat, Ht. cbn [mbind option_bind].
  pose proof (indexed_find _ _ _ Hix (tk_text token) Hroom) as Hf.
  destruct (table_find _ _ _) as [slot|s|]; [| |done].
  - left. destruct Hf as (i & prior & Ei & Hi & Ep & Etext). split; [apply texts_elem; by exists i, prior|].
    rewrite Ei, array_get_nat, Ep. cbn. rewrite bool_decide_false; [done|].
    rewrite (tw_id _ Hwf i prior Ep). lia.
  - right. destruct Hf as [Hn Hw]. split.
    { intros (i & prior & Hi & Ep & Et)%texts_elem. by apply (Hn i prior Hi Ep). }
    set (slot := VocabSlot (lookup_hash (tk_text token)) (Z.of_nat count)).
    pose proof (lookup_hash_range (tk_text token)) as Hh.
    replace (lookup_hash (tk_text token)) with (Z.abs (vs_hash slot)) in Hw by (cbn; lia).
    destruct (table_ok_insert (λ slot, Z.abs (vs_hash slot)) _ _ slot s (ix_table _ _ _ Hix) Hw) as (-> & Hok & Hc).
    cbn [mbind option_bind]. exists (<[Z.to_nat s := Some slot]> (tz_vocab_index t)). split; [done|].
    split; [|apply length_insert]. constructor.
    + done.
    + intros c. rewrite Hc. intros [->|Hin]%elem_of_cons; [|by apply (ix_hash _ _ _ Hix)].
      exists token. cbn. by rewrite array_get_nat.
    + rewrite Hc. rewrite seq_S, fmap_app. cbn. rewrite (ix_cells _ _ _ Hix). apply Permutation_cons_append.
    + rewrite (take_snoc _ _ token) by done. rewrite fmap_app. apply NoDup_app.
      split; [apply (ix_nodup _ _ _ Hix)|]. split; [|apply NoDup_singleton].
      intros x Hx ->%list_elem_of_singleton. apply texts_elem in Hx as (i & prior & Hi & Ep & Et).
      by apply (Hn i prior Hi Ep).
    + apply lookup_lt_Some in Ht. lia.
Qed.

(** Where a text is in the vocabulary. *)
Definition text_position (tokens : list yvex_token_info) (data : list Z) : option Z :=
  (λ found, Z.of_nat found.1) <$> list_find (λ token, tk_text token = data) tokens.

Lemma text_position_Some tokens data position :
  NoDup (tk_text <$> tokens) →
  text_position tokens data = Some position ↔
  ∃ i token, position = Z.of_nat i ∧ tokens !! i = Some token ∧ tk_text token = data.
Proof.
  intros Hnd. unfold text_position. split.
  - destruct (list_find _ tokens) as [[i token]|] eqn:E; [|done]. intros [= <-].
    apply list_find_Some in E as (? & ? & _). by exists i, token.
  - intros (i & token & -> & Ht & <-). destruct (list_find _ tokens) as [[j other]|] eqn:E.
    + apply list_find_Some in E as (Eo & Et & _). cbn. do 2 f_equal.
      eapply NoDup_lookup; [done|..]; rewrite list_lookup_fmap; [by rewrite Eo|]. rewrite Ht. cbn. by rewrite Et.
    + apply list_find_None in E. rewrite Forall_lookup in E. by destruct (E i token Ht).
Qed.

(** A full index answers as a search through the tokens. *)
Lemma vocab_lookup_spec t data :
  tokens_wf (tz_tokens t) → indexed (tz_tokens t) (tz_vocab_index t) (length (tz_tokens t)) →
  (length (tz_tokens t) < length (tz_vocab_index t))%nat →
  vocab_lookup t data = Some (text_position (tz_tokens t) data).
Proof.
  intros Hwf Hix Hroom. unfold vocab_lookup.
  destruct (tz_vocab_index t) as [|x index] eqn:Ei; [cbn in Hroom; lia|].
  pose proof (indexed_find _ _ _ Hix data Hroom) as Hf. pose proof (ix_nodup _ _ _ Hix) as Hnd.
  rewrite firstn_all in Hnd. destruct (table_find _ _ _) as [slot|s|]; [| |done].
  - destruct Hf as (i & token & Es & Hi & Et & Ed). rewrite Es, array_get_nat, Et. cbn. f_equal. symmetry.
    apply text_position_Some; [done|]. exists i, token. split; [|done]. by rewrite (tw_id _ Hwf i token Et).
  - destruct Hf as [Hn _]. f_equal. symmetry. destruct (text_position (tz_tokens t) data) as [p|] eqn:E; [|done].
    apply text_position_Some in E as (i & token & _ & Et & Ed); [|done].
    exfalso. apply (Hn i token); [by apply lookup_lt_Some in Et|done..].
Qed.

(** ** The whole build *)

Lemma index_size_spec fuel need k :
  0 ≤ k ≤ 62 → 0 ≤ need ≤ 2 ^ 62 → 62 - k < Z.of_nat fuel →
  ∃ e, index_size fuel (2 ^ k) need = 2 ^ e ∧ k ≤ e ≤ 62 ∧ need ≤ 2 ^ e ∧ (e = k ∨ 2 ^ e < 2 * need).
Proof.
  revert k. induction fuel as [|fuel IH]; intros k Hk Hn Hf; [lia|]. cbn [index_size].
  destruct (Z.ltb_spec (2 ^ k) need) as [Hlt|Hge]; [|exists k; split_and!; (done || lia || by left)].
  assert (k < 62) as Hk' by (apply (Z.pow_lt_mono_r_iff 2); lia).
  assert (2 ^ k ≤ 2 ^ 61) by (apply Z.pow_le_mono_r; lia). change (2 ^ 61) with 2305843009213693952 in *.
  assert (0 < 2 ^ k) by (apply Z.pow_pos_nonneg; lia).
  rewrite u64_id by ulia. replace (2 ^ k * 2) with (2 ^ (k + 1)) by (rewrite Z.pow_add_r by lia; lia).
  destruct (IH (k + 1)) as (e & -> & He & Hne & Hor); [lia..|]. exists e. split_and!; [done|lia..|].
  right. destruct Hor as [->|]; [|done]. rewrite Z.pow_add_r by lia. lia.
Qed.

(** The capacity the builds choose for [count] entries. *)
Lemma index_size_count count :
  0 ≤ count ≤ UINT32_MAX →
  ∃ e, index_size 64 1 (u64 (count * 2)) = 2 ^ e ∧ 0 ≤ e < 63 ∧ count < 2 ^ e ≤ 2 ^ 34.
Proof.
  intros Hc. rewrite u64_id by ulia. change 1 with (2 ^ 0) at 1.
  destruct (index_size_spec 64 (count * 2) 0) as (e & E & He & Hn & Hor); [lia| |lia|].
  { change (2 ^ 62) with 4611686018427387904. ulia. }
  exists e. change (2 ^ 34) with 17179869184. split_and!; [done|lia..| |].
  - assert (0 < 2 ^ e) by (apply Z.pow_pos_nonneg; lia). lia.
  - destruct Hor as [->|]; [done|]. ulia.
Qed.

Definition vocabulary_row_fields (index : nat) (token : yvex_token_info) : list field :=
  [FU64Be (Z.of_nat index); FBytes (tk_text token); FU64Be (tk_type token)].

(** What the vocabulary identity is the hash of. *)
Definition vocabulary_fields (tokens : list yvex_token_info) : list field :=
  FText "yvex.tokenizer.vocabulary.v1" :: mjoin (imap vocabulary_row_fields tokens).

(** Every byte has a token. *)
Definition bytes_present (tokens : list yvex_token_info) : Prop :=
  ∀ b, is_u8 b → is_Some (text_position tokens (visible [b])).

(** A tokenizer whose vocabulary lookups are exact. *)
Record vocabulary_ok (t : yvex_tokenizer) : Prop := VocabularyOk {
  vo_index : indexed (tz_tokens t) (tz_vocab_index t) (length (tz_tokens t));
  vo_room : (length (tz_tokens t) < length (tz_vocab_index t))%nat;
  vo_byte_count : length (tz_byte_token_ids t) = 256%nat;
  vo_bytes : ∀ b, is_u8 b → ∃ id, array_get (tz_byte_token_ids t) b = Some id ∧
    text_position (tz_tokens t) (visible [b]) = Some id;
}.

Lemma visible_one b : visible [b] = utf8_put (byte_codepoint b).
Proof. rewrite visible_cons. unfold visible. cbn. apply app_nil_r. Qed.

Lemma byte_tokens_build_spec t :
  tokens_wf (tz_tokens t) → indexed (tz_tokens t) (tz_vocab_index t) (length (tz_tokens t)) →
  (length (tz_tokens t) < length (tz_vocab_index t))%nat → length (tz_byte_token_ids t) = 256%nat →
  (∃ ids, byte_tokens_build t = Some (Done (t <| tz_byte_token_ids := ids |>)) ∧
     vocabulary_ok (t <| tz_byte_token_ids := ids |>)) ∨
  (byte_tokens_build t = Some (Refused YVEX_ERR_FORMAT "ByteLevel initial unit is absent from vocabulary") ∧
   ¬ bytes_present (tz_tokens t)).
Proof.
  intros Hwf Hix Hroom Hlen. unfold byte_tokens_build, for_range. change (256 - 0) with 256.
  match goal with |- context [for_each ?body ?l t] =>
    destruct (for_each_outcome body
      (λ done_ s, ∃ ids, s = t <| tz_byte_token_ids := ids |> ∧ length ids = 256%nat ∧
         ∀ b, b ∈ done_ → ∃ id, array_get ids b = Some id ∧ text_position (tz_tokens t) (visible [b]) = Some id)
      (λ _ b st why, st = YVEX_ERR_FORMAT ∧ why = "ByteLevel initial unit is absent from vocabulary"%string ∧
         is_u8 b ∧ text_position (tz_tokens t) (visible [b]) = None) l t)
      as [(s & -> & ids & -> & Hl & Hids)|(d & b & todo & st & why & _ & -> & -> & -> & Hb & Hn)]
  end.
  - exists (tz_byte_token_ids t). split_and!; [by destruct t|done|]. by intros b ?%elem_of_nil.
  - intros d b todo s El (ids & -> & Hl & Hids). apply seqZ_split in El as (_ & Hb & Ed).
    set (t1 := t <| tz_byte_token_ids := ids |>).
    assert (vocab_lookup t1 (utf8_put (byte_codepoint b)) = Some (text_position (tz_tokens t) (visible [b]))) as ->.
    { rewrite <- visible_one. by apply (vocab_lookup_spec t1). }
    cbn [run_bind run_access]. destruct (text_position (tz_tokens t) (visible [b])) as [id|] eqn:Ep.
    + left. change (tz_byte_token_ids t1) with ids. rewrite array_set_inside by lia.
      eexists. split; [reflexivity|]. exists (<[Z.to_nat b := id]> ids). split; [done|].
      rewrite length_insert. split; [done|]. intros b' Hb'. rewrite array_get_after_set by lia.
      case_decide; [subst b'; by exists id|].
      apply elem_of_app in Hb' as [Hb'|Hb'%list_elem_of_singleton]; [by apply Hids|done].
    + right. do 2 eexists. split; [reflexivity|]. split_and!; [done..|split; lia|done].
  - left. exists ids. split; [done|]. constructor; [done..|]. intros b Hb. apply Hids, elem_of_seqZ. unfold is_u8 in Hb. lia.
  - right. split; [done|]. intros Hall. destruct (Hall b Hb) as [? E]. congruence.
Qed.

(** What the loop over the tokens has built after [k] of them. *)
Definition vocabulary_rows_done t capacity (k : nat) (s : yvex_tokenizer * yvex_sha256) : Prop :=
  ∃ index, s.1 = t <| tz_vocab_index := index |> ∧ indexed (tz_tokens t) index k ∧
    length index = capacity ∧ sha256_repr s.2 (fields_bytes (vocabulary_fields (take k (tz_tokens t)))).

Lemma vocabulary_row_spec t capacity (k : nat) token s :
  tokens_wf (tz_tokens t) → tz_tokens t !! k = Some token → (k < capacity)%nat →
  vocabulary_rows_done t capacity k s →
  (∃ s', vocabulary_row (Z.of_nat k) s = Some (Done s') ∧ vocabulary_rows_done t capacity (S k) s') ∨
  (vocabulary_row (Z.of_nat k) s = Some (Refused YVEX_ERR_FORMAT "duplicate or unhashable vocabulary entry") ∧
   (¬ NoDup (tk_text <$> tz_tokens t) ∨ ULLONG_MAX / 8 < fields_size (vocabulary_fields (tz_tokens t)))).
Proof.
  intros Hwf Ht Hk (index & E1 & Hix & Hl & Hr). destruct s as [t1 c]. cbn [fst snd] in *. subst t1.
  unfold vocabulary_row. set (t1 := t <| tz_vocab_index := index |>).
  change (tz_tokens t1) with (tz_tokens t). rewrite array_get_nat, Ht. cbn [run_bind run_access].
  destruct (vocab_insert_spec t1 k token) as [[Hdup ->]|[Hnew (index' & -> & Hix' & Hl')]]; try done; [cbn; lia| |];
    cbn [run_bind run_access].
  - right. split; [done|]. left. intros Hnd. apply texts_elem in Hdup as (i & other & Hi & Eo & Et).
    pose proof (NoDup_lookup _ i k (tk_text token) Hnd) as H. rewrite !list_lookup_fmap in H.
    change (tz_tokens t1) with (tz_tokens t) in Eo. rewrite Eo, Ht in H. cbn in H. rewrite Et in H. specialize (H eq_refl eq_refl). lia.
  - change [FU64Be (Z.of_nat k); FBytes (tk_text token); FU64Be (tk_type token)] with (vocabulary_row_fields k token).
    destruct (sha256_update_fields c (vocabulary_row_fields k token)) as [c'|] eqn:Ec.
    + left. eexists. split; [reflexivity|]. exists index'. cbn [fst snd]. split; [done|]. split; [done|].
      split; [cbn in Hl'; lia|]. unfold vocabulary_fields. rewrite (rows_fields_snoc _ _ _ _ token), fields_bytes_app by done.
      by eapply sha256_fields_sound.
    + right. split; [done|]. right. apply Z.nle_gt. intros Hsize.
      destruct (sha256_fields_repr c _ (vocabulary_row_fields k token) Hr) as (c' & E & _); [|congruence].
      rewrite <- fields_bytes_app. unfold vocabulary_fields.
      rewrite <- (rows_fields_snoc _ _ _ _ token), fields_size_bytes by done. etrans; [apply rows_fields_take|done].
Qed.

(** What no build changes. *)
Definition same_source (t t' : yvex_tokenizer) : Prop :=
  tz_tokens t' = tz_tokens t ∧ tz_policy t' = tz_policy t ∧ tz_bos t' = tz_bos t ∧ tz_eos t' = tz_eos t ∧
  tz_unk t' = tz_unk t ∧ tz_pad t' = tz_pad t.

(** What the builds after the vocabulary do not change. *)
Definition same_vocabulary (t t' : yvex_tokenizer) : Prop :=
  same_source t t' ∧ tz_vocab_index t' = tz_vocab_index t ∧ tz_byte_token_ids t' = tz_byte_token_ids t.

(** Sealing a vocabulary never reads outside an array, and succeeds exactly on the vocabularies it should:
    distinct texts, and a token for the visible form of every byte (given memory, and a size the hash admits).
    The index it leaves answers every text as a search through the tokens, and the identity is the hash of
    the tokens in order. *)
Lemma vocabulary_build_exact calloc t :
  tokens_wf (tz_tokens t) → length (tz_byte_token_ids t) = 256%nat →
  is_Some (vocabulary_build calloc t) ∧
  (∀ t', vocabulary_build calloc t = Some (Done t') →
     NoDup (tk_text <$> tz_tokens t) ∧ bytes_present (tz_tokens t) ∧ vocabulary_ok t' ∧
     same_source t t' ∧
     (∀ data, vocab_lookup t' data = Some (text_position (tz_tokens t) data)) ∧
     tp_vocabulary_identity (tz_plan t') =
       yvex_sha256_hex (sha256_spec (fields_bytes (vocabulary_fields (tz_tokens t))))) ∧
  ((∀ n, calloc n = true) → fields_size (vocabulary_fields (tz_tokens t)) ≤ ULLONG_MAX / 8 →
   NoDup (tk_text <$> tz_tokens t) → bytes_present (tz_tokens t) →
   ∃ t', vocabulary_build calloc t = Some (Done t')).
Proof.
  intros Hwf Hlen. unfold vocabulary_build. pose proof (tw_count _ Hwf) as Hc.
  destruct (index_size_count (vocab_size t)) as (e & -> & He & Hroom); [unfold vocab_size; lia|].
  change (2 ^ 34) with 17179869184 in Hroom.
  rewrite (proj2 (Z.ltb_ge (SIZE_MAX / 16) (2 ^ e))) by (change (SIZE_MAX / 16) with 1152921504606846975; lia).
  destruct (calloc (2 ^ e * 16)) eqn:Ecalloc; cbn [negb].
  2: { split_and!; [by eexists|done|]. intros Hall. by rewrite Hall in Ecalloc. }
  set (empty := replicate (Z.to_nat (2 ^ e)) None). set (t0 := t <| tz_vocab_index := empty |>).
  destruct (sha256_fields_repr yvex_sha256_init [] [FText "yvex.tokenizer.vocabulary.v1"] sha256_init_repr)
    as (c0 & Ec0 & Hr0); [vm_compute; discriminate|]. cbn [sha256_update_fields sha256_update_field mbind option_bind] in Ec0.
  destruct (yvex_sha256_update_text yvex_sha256_init _) as [c|] eqn:Ec; [|done]. injection Ec0 as ->.
  unfold for_range. rewrite Z.sub_0_r. change (vocab_size t0) with (vocab_size t).
  destruct (for_each_outcome vocabulary_row
    (λ done_ s, vocabulary_rows_done t (length empty) (length done_) s)
    (λ _ _ st why, ¬ NoDup (tk_text <$> tz_tokens t) ∨ ULLONG_MAX / 8 < fields_size (vocabulary_fields (tz_tokens t)))
    (seqZ 0 (vocab_size t)) (t0, c0)) as [([t1 c1] & -> & index & E1 & Hix & Hl & Hr)|(d & k & todo & st & why & _ & -> & Hbad)].
  - exists empty. split_and!; [done|by apply indexed_empty|done|done].
  - intros d k todo s El Hd. apply seqZ_split in El as (-> & Hk & _). rewrite Z.add_0_l. unfold vocab_size in *.
    destruct (lookup_lt_is_Some_2 (tz_tokens t) (length d)) as [token Ht]; [lia|].
    rewrite length_app. cbn [length]. rewrite Nat.add_1_r.
    destruct (vocabulary_row_spec t (length empty) (length d) token s Hwf Ht) as [H|[-> H]]; [|done|by left|].
    + unfold empty. rewrite length_replicate. lia.
    + right. by do 2 eexists.
  - cbn [fst snd run_bind] in *. subst t1.
    assert (length (seqZ 0 (vocab_size t)) = length (tz_tokens t)) as Es
      by (rewrite length_seqZ; unfold vocab_size; lia).
    rewrite Es in Hix, Hr. rewrite firstn_all in Hr. rewrite (hash_finish_repr _ _ Hr).
    pose proof (ix_nodup _ _ _ Hix) as Hnd. rewrite firstn_all in Hnd.
    match goal with |- context [byte_tokens_build ?t] => set (t2 := t) end.
    assert (length (tz_tokens t2) < length (tz_vocab_index t2))%nat as Hroom2.
    { change (tz_vocab_index t2) with index. change (tz_tokens t2) with (tz_tokens t). rewrite Hl.
      unfold empty. rewrite length_replicate. unfold vocab_size in *. lia. }
    destruct (byte_tokens_build_spec t2) as [(ids & -> & Hok)|[-> Hn]]; [done..| |].
    + split_and!; [by eexists| |by eexists]. intros t' [= <-]. split_and!; [done| |done|done| |done].
      * intros b Hb. destruct (vo_bytes _ Hok b Hb) as (id & _ & Ep). by exists id.
      * intros data. set (t3 := t2 <| tz_byte_token_ids := ids |>) in *.
        exact (vocab_lookup_spec t3 data Hwf (vo_index _ Hok) (vo_room _ Hok)).
    + split_and!; [by eexists|done|]. intros _ _ _ Hall. by destruct Hn.
  - cbn [run_bind]. split_and!; [by eexists|done|]. intros _ Hs Hnd _. destruct Hbad as [Hbad|Hbad]; [by destruct Hbad|lia].
Qed.
