(* ===== verification/Merges.v ===== *)
(** The merge table of a tokenizer, [src/tokenizer/execution.c]: its rows are read from the container, each names
    two tokens whose joined text is a token, and the index finds the row of a pair of tokens. *)

From S2P Require Import Prelude Status Exec Sha256 Identity Gguf Utf8 HashIndex Vocabulary.
#[local] Open Scope Z_scope.

(** * The index *)

(** src/src/tokenizer/execution.c:163, [merge_lookup] *)
Definition merge_pair (left right : Z) : Z := Z.lor (u64 (Z.shiftl left 32)) right.

(** The hash is that of the eight bytes of the pair in memory, lowest first. *)
Definition merge_hash (pair : Z) : Z := lookup_hash (le_bytes 8 pair).

Definition merge_hit (pair : Z) (slot : tokenizer_merge_slot) : option bool := Some (ms_pair slot =? pair).

(** src/src/tokenizer/execution.c, [merge_lookup] *)
Definition merge_lookup (t : yvex_tokenizer) (left right : Z) : option (option tokenizer_merge_slot) :=
  let pair := merge_pair left right in
  match table_find (merge_hit pair) (tz_merge_index t) (merge_hash pair) with
  | Hit slot => Some (Some slot)
  | Vacant _ => Some None
  | Astray => None
  end.

(** src/src/tokenizer/execution.c, [merge_insert] *)
Definition merge_insert (t : yvex_tokenizer) (left right merged rank : Z) : option (bool * yvex_tokenizer) :=
  let pair := merge_pair left right in
  match table_find (merge_hit pair) (tz_merge_index t) (merge_hash pair) with
  | Hit _ => Some (false, t)
  | Vacant slot =>
      index ← array_set (tz_merge_index t) slot (Some (MergeSlot pair rank merged));
      Some (true, t <| tz_merge_index := index |>)
  | Astray => None
  end.

(** * Rows *)

(** The bytes before and after the first space, as [memchr] cuts them. *)
Definition split_space (text : list Z) : option (list Z * list Z) :=
  (λ found, (take found.1 text, drop (S found.1) text)) <$> list_find (λ byte, byte = 32) text.

(** The tokens a row names: left, right, merged. [malloc] answers whether that many bytes can be had.
    src/src/tokenizer/execution.c, [merge_parse] *)
Definition merge_parse (malloc : Z → bool) (t : yvex_tokenizer) (text : list Z) : run (Z * Z * Z) :=
  match split_space text with
  | None => run_refuse YVEX_ERR_FORMAT "merge row is not canonical"
  | Some (before, after) =>
      refuse_when (bool_decide (32 ∈ after)) with YVEX_ERR_FORMAT "merge row is not canonical";
      refuse_when (bool_decide (before = []) || bool_decide (after = []))
        with YVEX_ERR_FORMAT "merge component is absent from vocabulary";
      let! left_id := run_access (vocab_lookup t before) in
      match left_id with
      | None => run_refuse YVEX_ERR_FORMAT "merge component is absent from vocabulary"
      | Some left_id =>
          let! right_id := run_access (vocab_lookup t after) in
          match right_id with
          | None => run_refuse YVEX_ERR_FORMAT "merge component is absent from vocabulary"
          | Some right_id =>
              refuse_when (negb (malloc (Z.of_nat (length before + length after))))
                with YVEX_ERR_NOMEM "merge scratch allocation failed";
              let! merged := run_access (vocab_lookup t (before ++ after)) in
              match merged with
              | None => run_refuse YVEX_ERR_FORMAT "merged token is absent from vocabulary"
              | Some merged => run_ret (left_id, right_id, merged)
              end
          end
      end
  end.

(** src/src/tokenizer/execution.c:370-393, [merges_build] *)
Definition merges_row (malloc : Z → bool) (value : yvex_gguf_value) (rank : Z) (s : yvex_tokenizer * yvex_sha256)
    : run (yvex_tokenizer * yvex_sha256) :=
  let '(t, hash) := s in
  match yvex_gguf_value_as_string (yvex_gguf_value_array_at (Some value) rank) with
  | None => run_refuse YVEX_ERR_FORMAT ""
  | Some text =>
      let! (left_id, right_id, merged) := merge_parse malloc t text in
      let! (admitted, t) := run_access (merge_insert t left_id right_id merged (u32 rank)) in
      let hash := if admitted : bool then sha256_update_fields hash [FU64Be rank; FBytes text] else None in
      match hash with
      | Some hash => run_ret (t, hash)
      | None => run_refuse YVEX_ERR_FORMAT "duplicate merge pair or identity failure"
      end
  end.

(** A slot takes twenty-four bytes.
    src/src/tokenizer/execution.c, [merges_build] *)
Definition merges_build (calloc malloc : Z → bool) (gguf : yvex_gguf) (t : yvex_tokenizer) : run yvex_tokenizer :=
  let value := yvex_gguf_metadata_find gguf (Some "tokenizer.ggml.merges"%string) in
  match value, yvex_gguf_value_array_info value with
  | Some value, Some (element_type, count) =>
      refuse_when (negb (bool_decide (element_type = YVEX_GGUF_VALUE_STRING)) ||
                   negb (count =? fp_merge_count (tz_policy t)))
        with YVEX_ERR_FORMAT "merge table differs from the compiled tokenizer policy";
      let capacity := index_size 64 1 (u64 (count * 2)) in
      refuse_when (negb (calloc (capacity * 24))) with YVEX_ERR_NOMEM "merge index allocation failed";
      let t := t <| tz_merge_index := replicate (Z.to_nat capacity) None |> in
      match yvex_sha256_update_text yvex_sha256_init (Some "yvex.tokenizer.merges.v1"%string) with
      | None => run_refuse YVEX_ERR_STATE ""
      | Some hash =>
          let! (t, hash) := for_range 0 count (merges_row malloc value) (t, hash) in
          match hash_finish hash with
          | None => run_refuse YVEX_ERR_STATE ""
          | Some identity =>
              run_ret (t <| tz_plan ::= λ plan,
                plan <| tp_merge_table_identity := identity |> <| tp_merge_count := count |> |>)
          end
      end
  | _, _ => run_refuse YVEX_ERR_FORMAT "merge table differs from the compiled tokenizer policy"
  end.

(** * What a merge table means *)

(** A row: the tokens of its pair and the token it makes. *)
Record merge_rule := MergeRule { mr_left : Z; mr_right : Z; mr_merged : Z }.

Definition rule_pair (rule : merge_rule) : Z := merge_pair (mr_left rule) (mr_right rule).

(** The slot of the row of a rank. *)
Definition rule_slot (rank : nat) (rule : merge_rule) : tokenizer_merge_slot :=
  MergeSlot (rule_pair rule) (Z.of_nat rank) (mr_merged rule).

(** A rule joins two tokens into the token of the joined text. *)
Definition rule_ok (tokens : list yvex_token_info) (rule : merge_rule) : Prop :=
  ∃ left right merged,
    array_get tokens (mr_left rule) = Some left ∧ array_get tokens (mr_right rule) = Some right ∧
    array_get tokens (mr_merged rule) = Some merged ∧ tk_text merged = tk_text left ++ tk_text right.

(** The index holds the rules, each at its rank. *)
Record merges_ok (t : yvex_tokenizer) (rules : list merge_rule) : Prop := MergesOk {
  mo_table : table_ok (λ slot, merge_hash (ms_pair slot)) (tz_merge_index t);
  mo_cells : cells (tz_merge_index t) ≡ₚ imap rule_slot rules;
  mo_room : (length rules < length (tz_merge_index t))%nat;
  mo_rules : Forall (rule_ok (tz_tokens t)) rules;
  mo_pairs : NoDup (rule_pair <$> rules);
}.

(** The rule of a pair, with its rank. *)
Definition rule_of (rules : list merge_rule) (left right : Z) : option (nat * merge_rule) :=
  list_find (λ rule, mr_left rule = left ∧ mr_right rule = right) rules.

Lemma merge_pair_value left right : is_u32 left → is_u32 right → merge_pair left right = left * 4294967296 + right.
Proof.
  intros Hl Hr. unfold merge_pair. rewrite Z.shiftl_mul_pow2 by lia. change (2 ^ 32) with 4294967296.
  rewrite u64_id by ulia. change 4294967296 with (2 ^ 32). apply lor_high; [lia|]. ulia.
Qed.

Lemma merge_pair_inj a b c d :
  is_u32 a → is_u32 b → is_u32 c → is_u32 d → merge_pair a b = merge_pair c d → a = c ∧ b = d.
Proof. intros Ha Hb Hc Hd. rewrite !merge_pair_value by done. ulia. Qed.

Lemma rule_ok_range tokens rule :
  tokens_wf tokens → rule_ok tokens rule → is_u32 (mr_left rule) ∧ is_u32 (mr_right rule).
Proof.
  intros Hwf (l & r & m & Hl & Hr & _). apply array_get_Some in Hl as [Hl _], Hr as [Hr _].
  pose proof (tw_count _ Hwf). ulia.
Qed.

(** * Lookups are exact *)

Section merges.
Context (t : yvex_tokenizer) (rules : list merge_rule).
Context (Hwf : tokens_wf (tz_tokens t)) (Hok : merges_ok t rules).

Lemma rules_range rank rule : rules !! rank = Some rule → is_u32 (mr_left rule) ∧ is_u32 (mr_right rule).
Proof.
  intros H. apply (rule_ok_range (tz_tokens t)); [done|].
  by apply (Forall_lookup_1 _ _ _ _ (mo_rules _ _ Hok) H).
Qed.

Lemma rule_pair_at rank rule left right :
  is_u32 left → is_u32 right → rules !! rank = Some rule →
  rule_pair rule = merge_pair left right ↔ mr_left rule = left ∧ mr_right rule = right.
Proof.
  intros Hl Hr H. destruct (rules_range rank rule H) as [? ?]. unfold rule_pair. split.
  - by apply merge_pair_inj.
  - by intros [-> ->].
Qed.

(** The search for a pair. *)
Lemma merge_find left right :
  is_u32 left → is_u32 right →
  match table_find (merge_hit (merge_pair left right)) (tz_merge_index t) (merge_hash (merge_pair left right)) with
  | Hit slot => ∃ rank rule, rules !! rank = Some rule ∧ slot = rule_slot rank rule ∧
      mr_left rule = left ∧ mr_right rule = right
  | Vacant s => merge_pair left right ∉ rule_pair <$> rules ∧
      walk_post (tz_merge_index t) (merge_hit (merge_pair left right)) (merge_hash (merge_pair left right)) (Vacant s)
  | Astray => False
  end.
Proof.
  intros Hl Hr. set (pair := merge_pair left right).
  assert (∀ slot, slot ∈ cells (tz_merge_index t) → ∃ rank rule, rules !! rank = Some rule ∧ slot = rule_slot rank rule) as Hcells.
  { intros slot. rewrite (mo_cells _ _ Hok). intros [rank Hs]%list_elem_of_lookup.
    rewrite list_lookup_imap in Hs. destruct (rules !! rank) as [rule|] eqn:E; [|done]. injection Hs as <-. by exists rank, rule. }
  assert (walk_post (tz_merge_index t) (merge_hit pair) (merge_hash pair)
    (table_find (merge_hit pair) (tz_merge_index t) (merge_hash pair))) as Hp.
  { apply (table_find_spec _ _ (mo_table _ _ Hok)).
    - intros slot _. by eexists.
    - intros slot _ [= E%Z.eqb_eq]. by rewrite E.
    - apply lookup_hash_range.
    - rewrite (mo_cells _ _ Hok), length_imap. apply (mo_room _ _ Hok). }
  destruct (table_find _ _ _) as [slot|s|]; [| |done].
  - destruct Hp as [Hs [= E%Z.eqb_eq]]. destruct (Hcells slot Hs) as (rank & rule & Hrule & ->).
    exists rank, rule. split; [done|]. split; [done|]. by apply (rule_pair_at rank).
  - split; [|done]. intros (rule & E & [rank Hrule]%list_elem_of_lookup)%list_elem_of_fmap.
    destruct Hp as (Hn & _). specialize (Hn (rule_slot rank rule)). unfold merge_hit in Hn. cbn [ms_pair rule_slot] in Hn.
    rewrite E, Z.eqb_refl in Hn. assert (Some true = Some false); [|done]. apply Hn.
    rewrite (mo_cells _ _ Hok). apply list_elem_of_lookup. exists rank. by rewrite list_lookup_imap, Hrule.
Qed.

Lemma merge_lookup_spec left right :
  is_u32 left → is_u32 right →
  merge_lookup t left right = Some ((λ found, rule_slot found.1 found.2) <$> rule_of rules left right).
Proof.
  intros Hl Hr. unfold merge_lookup, rule_of. pose proof (merge_find left right Hl Hr) as Hf.
  destruct (table_find _ _ _) as [slot|s|]; [| |done].
  - destruct Hf as (rank & rule & Hrule & -> & El & Er).
    destruct (list_find _ rules) as [[rank' rule']|] eqn:E.
    + apply list_find_Some in E as (Hrule' & [El' Er'] & _). do 2 f_equal. cbn.
      assert (rank' = rank) as ->; [|congruence]. eapply NoDup_lookup; [apply (mo_pairs _ _ Hok)|..].
      * by rewrite list_lookup_fmap, Hrule'.
      * rewrite list_lookup_fmap, Hrule. unfold rule_pair. cbn. by rewrite El, Er, El', Er'.
    + apply list_find_None in E. rewrite Forall_lookup in E. by destruct (E rank rule Hrule).
  - destruct Hf as [Hn _]. destruct (list_find _ rules) as [[rank rule]|] eqn:E; [|done].
    apply list_find_Some in E as (Hrule & [<- <-] & _). destruct Hn.
    apply list_elem_of_fmap. exists rule. split; [done|]. by eapply list_elem_of_lookup_2.
Qed.
End merges.

(** * Rows *)

(** The rule a row of the container names. *)
Definition row_rule (tokens : list yvex_token_info) (item : yvex_gguf_value) : option merge_rule :=
  text ← yvex_gguf_value_as_string (Some item);
  '(before, after) ← split_space text;
  if bool_decide (32 ∈ after) || bool_decide (before = []) || bool_decide (after = []) then None
  else
    left_id ← text_position tokens before;
    right_id ← text_position tokens after;
    merged ← text_position tokens (before ++ after);
    Some (MergeRule left_id right_id merged).

Definition vocabulary_exact (t : yvex_tokenizer) : Prop :=
  tokens_wf (tz_tokens t) ∧ NoDup (tk_text <$> tz_tokens t) ∧
  ∀ data, vocab_lookup t data = Some (text_position (tz_tokens t) data).

Lemma text_position_token tokens data p :
  text_position tokens data = Some p → ∃ token, array_get tokens p = Some token ∧ tk_text token = data.
Proof.
  unfold text_position. destruct (list_find _ tokens) as [[i token]|] eqn:E; [|done]. intros [= <-].
  apply list_find_Some in E as (Ht & E & _). exists token. by rewrite array_get_nat.
Qed.

Lemma merge_parse_spec malloc t text :
  vocabulary_exact t →
  (∃ rule, merge_parse malloc t text = Some (Done (mr_left rule, mr_right rule, mr_merged rule)) ∧
     row_rule (tz_tokens t) (ValueString text) = Some rule ∧ rule_ok (tz_tokens t) rule) ∨
  (∃ st why, merge_parse malloc t text = Some (Refused st why) ∧
     (row_rule (tz_tokens t) (ValueString text) = None ∨ ∃ n, malloc n = false)).
Proof.
  intros (_ & _ & Hv). unfold merge_parse, row_rule. cbn [yvex_gguf_value_as_string mbind option_bind].
  destruct (split_space text) as [[before after]|]; [|right; do 2 eexists; split; [done|by left]].
  cbn [mbind option_bind].
  destruct (bool_decide (32 ∈ after)); [right; do 2 eexists; split; [done|by left]|].
  cbn [orb]. destruct (bool_decide (before = []) || bool_decide (after = [])); [right; do 2 eexists; split; [done|by left]|].
  rewrite !Hv. cbn [run_bind run_access].
  destruct (text_position (tz_tokens t) before) as [l|] eqn:El; [|right; do 2 eexists; split; [done|by left]].
  destruct (text_position (tz_tokens t) after) as [r|] eqn:Er; [|right; do 2 eexists; split; [done|by left]].
  destruct (malloc _) eqn:Em; cbn [negb]; [|right; do 2 eexists; split; [done|right; eauto]].
  destruct (text_position (tz_tokens t) (before ++ after)) as [m|] eqn:Ej; [|right; do 2 eexists; split; [done|by left]].
  left. exists (MergeRule l r m). split; [done|]. split; [done|].
  apply text_position_token in El as (tl & ? & <-), Er as (tr & ? & <-), Ej as (tm & ? & ?).
  by exists tl, tr, tm.
Qed.

(** * Building *)

Lemma merge_insert_spec t rules rule :
  tokens_wf (tz_tokens t) → merges_ok t rules → rule_ok (tz_tokens t) rule →
  (S (length rules) < length (tz_merge_index t))%nat →
  let answer := merge_insert t (mr_left rule) (mr_right rule) (mr_merged rule) (Z.of_nat (length rules)) in
  (rule_pair rule ∈ rule_pair <$> rules ∧ answer = Some (false, t)) ∨
  (rule_pair rule ∉ rule_pair <$> rules ∧ ∃ index, answer = Some (true, t <| tz_merge_index := index |>) ∧
     merges_ok (t <| tz_merge_index := index |>) (rules ++ [rule]) ∧ length index = length (tz_merge_index t)).
Proof.
  intros Hwf Hok Hrule Hroom. cbn zeta. destruct (rule_ok_range _ rule Hwf Hrule) as [Hl Hr]. unfold merge_insert.
  pose proof (merge_find t rules Hwf Hok _ _ Hl Hr) as Hf.
  change (merge_pair (mr_left rule) (mr_right rule)) with (rule_pair rule) in *.
  destruct (table_find _ _ _) as [slot|s|]; [| |done].
  - left. destruct Hf as (rank & other & Ho & _ & El & Er). split; [|done].
    apply list_elem_of_fmap. exists other. split; [unfold rule_pair; by rewrite El, Er|by eapply list_elem_of_lookup_2].
  - right. destruct Hf as [Hn Hw]. split; [done|].
    destruct (table_ok_insert (λ slot, merge_hash (ms_pair slot)) _ _ (rule_slot (length rules) rule) s
      (mo_table _ _ Hok) Hw) as (Eset & Htable & Hc).
    change (MergeSlot (rule_pair rule) (Z.of_nat (length rules)) (mr_merged rule)) with (rule_slot (length rules) rule).
    rewrite Eset. cbn [mbind option_bind]. eexists. split; [reflexivity|]. split; [|apply length_insert].
    constructor; cbn [tz_tokens tz_merge_index set_field].
    + done.
    + rewrite Hc, (mo_cells _ _ Hok), imap_app. cbn. rewrite Nat.add_0_r. apply Permutation_cons_append.
    + rewrite length_insert, length_app. cbn. lia.
    + apply Forall_app. split; [apply (mo_rules _ _ Hok)|by apply Forall_singleton].
    + rewrite fmap_app. apply NoDup_app. split; [apply (mo_pairs _ _ Hok)|]. split; [|apply NoDup_singleton].
      by intros x Hx ->%list_elem_of_singleton.
Qed.

(** The text of a row. *)
Definition row_text (item : yvex_gguf_value) : list Z := default [] (yvex_gguf_value_as_string (Some item)).

Definition merges_row_fields (rank : nat) (item : yvex_gguf_value) : list field :=
  [FU64Be (Z.of_nat rank); FBytes (row_text item)].

(** What the identity of the merge table is the hash of. *)
Definition merges_fields (items : list yvex_gguf_value) : list field :=
  FText "yvex.tokenizer.merges.v1" :: mjoin (imap merges_row_fields items).

Definition merges_rows_done t items capacity (k : nat) (s : yvex_tokenizer * yvex_sha256) : Prop :=
  ∃ index rules, s.1 = t <| tz_merge_index := index |> ∧ merges_ok s.1 rules ∧ length index = capacity ∧
    mapM (row_rule (tz_tokens t)) (take k items) = Some rules ∧
    sha256_repr s.2 (fields_bytes (merges_fields (take k items))).

(** Why a row may be refused. *)
Definition rows_inadmissible malloc tokens items : Prop :=
  (∀ rules, mapM (row_rule tokens) items = Some rules → ¬ NoDup (rule_pair <$> rules)) ∨
  (∃ n : Z, malloc n = false) ∨ ULLONG_MAX / 8 < fields_size (merges_fields items).

Lemma vocabulary_exact_merge t index :
  vocabulary_exact t → vocabulary_exact (t <| tz_merge_index := index |>).
Proof. done. Qed.

Lemma merges_row_spec malloc t items capacity (k : nat) item s :
  vocabulary_exact t → Z.of_nat (length items) ≤ UINT32_MAX → items !! k = Some item → (S k < capacity)%nat →
  merges_rows_done t items capacity k s →
  let answer := merges_row malloc (ValueArray YVEX_GGUF_VALUE_STRING items) (Z.of_nat k) s in
  (∃ s', answer = Some (Done s') ∧ merges_rows_done t items capacity (S k) s') ∨
  (∃ st why, answer = Some (Refused st why) ∧ rows_inadmissible malloc (tz_tokens t) items).
Proof.
  intros Hex Hcount Hi Hk (index & rules & E1 & Hok & Hl & Hm & Hr). cbn zeta. destruct s as [t1 c].
  cbn [fst snd] in *. subst t1. unfold merges_row. cbn [yvex_gguf_value_array_at]. rewrite array_get_nat, Hi.
  assert (length rules = k) as Hlen.
  { apply length_mapM in Hm. rewrite length_take_le in Hm; [done|]. apply lookup_lt_Some in Hi. lia. }
  destruct (yvex_gguf_value_as_string (Some item)) as [text|] eqn:Etext.
  2: { right. do 2 eexists. split; [done|]. left. intros all Hall.
       destruct (mapM_lookup _ _ _ _ _ Hall Hi) as (y & _ & Ey). unfold row_rule in Ey. by rewrite Etext in Ey. }
  assert (row_rule (tz_tokens t) (ValueString text) = row_rule (tz_tokens t) item) as Erow
    by (unfold row_rule; by rewrite Etext).
  set (t1 := t <| tz_merge_index := index |>) in *.
  destruct (merge_parse_spec malloc t1 text Hex) as [(rule & -> & Erule & Hrule)|(st & why & -> & Hbad)]; cbn [run_bind].
  2: { right. do 2 eexists. split; [done|]. destruct Hbad as [Hbad|Hbad]; [left|right; by left].
       intros all Hall. destruct (mapM_lookup _ _ _ _ _ Hall Hi) as (y & _ & Ey).
       change (tz_tokens t1) with (tz_tokens t) in Hbad. congruence. }
  change (tz_tokens t1) with (tz_tokens t) in Erule. rewrite Erow in Erule.
  assert (u32 (Z.of_nat k) = Z.of_nat (length rules)) as ->.
  { rewrite u32_id, Hlen; [done|]. apply lookup_lt_Some in Hi. ulia. }
  destruct (merge_insert_spec t1 rules rule) as [[Hdup ->]|(Hnew & index' & -> & Hok' & Hl')]; try done; [apply Hex|cbn; lia|..].
  - right. do 2 eexists. split; [done|]. left. intros all Hall Hnd. destruct (mapM_lookup _ _ _ _ _ Hall Hi) as (y & Hy & Ey).
    assert (y = rule) as -> by congruence. pose proof (mapM_take _ _ _ k Hall) as Htake. rewrite Hm in Htake. injection Htake as ->.
    apply list_elem_of_fmap in Hdup as (other & Eo & [j Hj]%list_elem_of_lookup). apply lookup_take_Some in Hj as [Hj Hlt].
    assert (j = k) as ->; [|lia]. eapply NoDup_lookup; [exact Hnd|..]; rewrite list_lookup_fmap; [by rewrite Hj|]. rewrite Hy. cbn. by rewrite Eo.
  - cbn [run_bind run_access].
    assert (merges_row_fields k item = [FU64Be (Z.of_nat k); FBytes text]) as Ef
      by (unfold merges_row_fields, row_text; by rewrite Etext).
    rewrite <- Ef. destruct (sha256_update_fields c (merges_row_fields k item)) as [c'|] eqn:Ec.
    + left. eexists. split; [reflexivity|]. exists index', (rules ++ [rule]). cbn [fst snd].
      split_and!; [done..|cbn in Hl'; lia| |].
      * rewrite (take_snoc _ _ item) by done. by apply mapM_snoc.
      * unfold merges_fields. rewrite (rows_fields_snoc _ _ _ _ item), fields_bytes_app by done. by eapply sha256_fields_sound.
    + right. do 2 eexists. split; [done|]. right. right. apply Z.nle_gt. intros Hsize.
      destruct (sha256_fields_repr c _ (merges_row_fields k item) Hr) as (c' & E & _); [|congruence].
      rewrite <- fields_bytes_app. unfold merges_fields. rewrite <- (rows_fields_snoc _ _ _ _ item), fields_size_bytes by done.
      etrans; [apply rows_fields_take|done].
Qed.

(** Sealing a merge table never reads outside an array, and succeeds exactly on the tables it should: as
    many rows as the policy says, each naming two tokens of the vocabulary and the token of their joined
    text, no pair twice (given memory, and a size the hash admits). The index it leaves finds, for every two
    tokens, the row that joins them with its rank, or that none does. *)
Lemma merges_build_exact calloc malloc gguf t items :
  vocabulary_exact t → Z.of_nat (length items) ≤ UINT32_MAX →
  yvex_gguf_metadata_find gguf (Some "tokenizer.ggml.merges"%string) = Some (ValueArray YVEX_GGUF_VALUE_STRING items) →
  is_Some (merges_build calloc malloc gguf t) ∧
  (∀ t', merges_build calloc malloc gguf t = Some (Done t') →
     ∃ rules, mapM (row_rule (tz_tokens t)) items = Some rules ∧ merges_ok t' rules ∧
       Z.of_nat (length items) = fp_merge_count (tz_policy t) ∧ same_vocabulary t t' ∧
       (∀ left right, is_u32 left → is_u32 right →
          merge_lookup t' left right = Some ((λ found, rule_slot found.1 found.2) <$> rule_of rules left right)) ∧
       tp_merge_table_identity (tz_plan t') = yvex_sha256_hex (sha256_spec (fields_bytes (merges_fields items)))) ∧
  (∀ rules, (∀ n, calloc n = true) → (∀ n, malloc n = true) →
     fields_size (merges_fields items) ≤ ULLONG_MAX / 8 → Z.of_nat (length items) = fp_merge_count (tz_policy t) →
     mapM (row_rule (tz_tokens t)) items = Some rules → NoDup (rule_pair <$> rules) →
     ∃ t', merges_build calloc malloc gguf t = Some (Done t')).
Proof.
  intros Hex Hcount Hfind. unfold merges_build. rewrite Hfind. cbn [yvex_gguf_value_array_info].
  rewrite bool_decide_true by done. cbn [negb orb].
  destruct (Z.eqb_spec (Z.of_nat (length items)) (fp_merge_count (tz_policy t))) as [Epolicy|Hne]; cbn [negb].
  2: { split_and!; [by eexists|done|]. by intros rules _ _ _ Hpolicy. }
  destruct (index_size_count (Z.of_nat (length items))) as (e & -> & He & Hroom); [lia|].
  destruct (calloc (2 ^ e * 24)) eqn:Ecalloc; cbn [negb].
  2: { split_and!; [by eexists|done|]. intros rules Hall. by rewrite Hall in Ecalloc. }
  set (empty := replicate (Z.to_nat (2 ^ e)) None). set (t0 := t <| tz_merge_index := empty |>).
  assert (length empty = Z.to_nat (2 ^ e)) as Hempty by apply length_replicate.
  destruct (sha256_fields_repr yvex_sha256_init [] [FText "yvex.tokenizer.merges.v1"] sha256_init_repr)
    as (c0 & Ec0 & Hr0); [vm_compute; discriminate|]. cbn [sha256_update_fields sha256_update_field mbind option_bind] in Ec0.
  destruct (yvex_sha256_update_text yvex_sha256_init _) as [c|] eqn:Ec; [|done]. injection Ec0 as ->.
  unfold for_range. rewrite Z.sub_0_r.
  destruct (for_each_outcome (merges_row malloc (ValueArray YVEX_GGUF_VALUE_STRING items))
    (λ done_ s, merges_rows_done t items (length empty) (length done_) s)
    (λ _ _ st why, rows_inadmissible malloc (tz_tokens t) items)
    (seqZ 0 (Z.of_nat (length items))) (t0, c0))
    as [([t1 c1] & -> & index & rules & E1 & Hok & Hl & Hm & Hr)|(d & k & todo & st & why & _ & -> & Hbad)].
  - exists empty, []. split_and!; [done| |done|done|done]. constructor.
    + apply table_ok_empty; [done|]. intros slot. apply lookup_hash_range.
    + change (cells empty ≡ₚ []). unfold empty. by rewrite cells_replicate.
    + change (0 < length empty)%nat. lia.
    + by apply Forall_nil.
    + apply NoDup_nil_2.
  - intros d k todo s El Hd. apply seqZ_split in El as (-> & Hk & _). rewrite Z.add_0_l.
    destruct (lookup_lt_is_Some_2 items (length d)) as [item Hi]; [lia|].
    rewrite length_app. cbn [length]. rewrite Nat.add_1_r.
    destruct (merges_row_spec malloc t items (length empty) (length d) item s) as [H|(st & why & -> & H)]; try done; [lia|by left|].
    right. by do 2 eexists.
  - cbn [fst snd run_bind] in *. rewrite length_seqZ, Nat2Z.id, firstn_all in Hm, Hr. subst t1.
    rewrite (hash_finish_repr _ _ Hr). split_and!; [by eexists| |by eexists]. intros t' [= <-].
    set (t1 := t <| tz_merge_index := index |>) in *.
    assert (merges_ok t1 rules) as Hok1 by done. exists rules. split_and!; try done.
    { by destruct Hok1. }
    intros left_id right_id Hlr Hrr. by apply (merge_lookup_spec t1 rules); [apply Hex|..].
  - cbn [run_bind]. split_and!; [by eexists|done|]. intros rules _ Hmalloc Hs _ Hm Hnd.
    destruct Hbad as [Hbad|[[n Hbad]|Hbad]]; [by destruct (Hbad rules Hm)|by rewrite Hmalloc in Hbad|lia].
Qed.
