(* ===== verification/AddedTokens.v ===== *)
(** Added tokens, [src/tokenizer/execution.c]: the tokens found in a text before any merging, sorted into
    buckets by their first byte, longest first.

    In a vocabulary whose added tokens have texts, a look at an offset finds the longest added token that
    starts there. One added token without a text hides the others: the walk that cuts the buckets stops at it. *)

From S2P Require Import Prelude Status Exec Sha256 Identity Gguf Utf8 HashIndex Vocabulary.
#[local] Open Scope Z_scope.

(** * Order *)

(** src/src/tokenizer/execution.c:403, [added_compare] *)
Definition first_byte (token : yvex_token_info) : Z := hd 0 (tk_text token).

Definition text_len (token : yvex_token_info) : Z := Z.of_nat (length (tk_text token)).

(** [Lt] for a negative answer.
    src/src/tokenizer/execution.c, [added_compare] *)
Definition added_compare (tokens : list yvex_token_info) (left right : Z) : option comparison :=
  a ← array_get tokens left;
  b ← array_get tokens right;
  Some (if negb (first_byte a =? first_byte b) then (if first_byte a <? first_byte b then Lt else Gt)
        else if negb (text_len a =? text_len b) then (if text_len b <? text_len a then Lt else Gt)
        else if left <? right then Lt else if left =? right then Eq else Gt).

(** Move a value back past the greater ones before it.
    src/src/tokenizer/execution.c:416-422, [added_sort] *)
Fixpoint added_shift (tokens : list yvex_token_info) (cursor : nat) (value : Z) (ids : list Z) : option (list Z) :=
  match cursor with
  | O => array_set ids 0 value
  | S before =>
      prior ← array_get ids (Z.of_nat before);
      order ← added_compare tokens value prior;
      match order with
      | Lt => ids ← array_set ids (Z.of_nat (S before)) prior; added_shift tokens before value ids
      | _ => array_set ids (Z.of_nat (S before)) value
      end
  end.

(** src/src/tokenizer/execution.c, [added_sort] *)
Definition added_sort (tokens : list yvex_token_info) (ids : list Z) : option (list Z) :=
  foldl (λ ids index, ids ← ids; value ← array_get ids (Z.of_nat index); added_shift tokens index value ids)
    (Some ids) (seq 1 (length ids - 1)).

(** * Buckets *)

(** src/src/tokenizer/execution.c:437-438, [added_tokens_build] *)
Definition is_added (token : yvex_token_info) : bool :=
  (tk_type token =? YVEX_TOKEN_TYPE_CONTROL) || (tk_type token =? YVEX_TOKEN_TYPE_USER_DEFINED).

(** The end of the run of tokens that start with a byte.
    src/src/tokenizer/execution.c:461-463, [added_tokens_build] *)
Fixpoint bucket_end (tokens : list yvex_token_info) (byte : Z) (ids : list Z) (cursor : Z) : option Z :=
  match ids with
  | [] => Some cursor
  | id :: ids =>
      token ← array_get tokens id;
      if negb (text_len token =? 0) && (first_byte token =? byte) then bucket_end tokens byte ids (cursor + 1)
      else Some cursor
  end.

(** src/src/tokenizer/execution.c:458-465, [added_tokens_build] *)
Definition added_buckets (tokens : list yvex_token_info) (ids : list Z) : option (list Z) :=
  state ← foldl (λ state byte,
    '(starts, cursor) ← state;
    next ← bucket_end tokens byte (drop (Z.to_nat cursor) ids) cursor;
    Some (starts ++ [cursor], next)) (Some ([], 0)) (seqZ 0 256);
  Some (state.1 ++ [Z.of_nat (length ids)]).

Definition token_test (test : yvex_token_info → bool) (tokens : list yvex_token_info) (index : Z) : bool :=
  match array_get tokens index with Some token => test token | None => false end.

(** The positions of the added tokens, in the order of the vocabulary.
    src/src/tokenizer/execution.c:449-455, [added_tokens_build] *)
Definition added_positions (tokens : list yvex_token_info) : list Z :=
  filter (λ index, token_test is_added tokens index = true) (seqZ 0 (Z.of_nat (length tokens))).

Definition is_control (token : yvex_token_info) : bool := tk_type token =? YVEX_TOKEN_TYPE_CONTROL.

Definition added_fields_of (tokens : list yvex_token_info) (id : Z) : list field :=
  match array_get tokens id with
  | Some token => [FU64Be (tk_id token); FBytes (tk_text token);
                   FU64Be (if is_control token then 1 else 0)]
  | None => []
  end.

(** [malloc] answers whether that many bytes can be had.
    src/src/tokenizer/execution.c, [added_tokens_build] *)
Definition added_tokens_build (malloc : Z → bool) (t : yvex_tokenizer) : run yvex_tokenizer :=
  let ids := added_positions (tz_tokens t) in
  let added := Z.of_nat (length ids) in
  refuse_when (negb (added =? fp_added_token_count (tz_policy t)) || (SIZE_MAX / 4 <? added))
    with YVEX_ERR_FORMAT "added-token set differs from the compiled tokenizer policy";
  refuse_when (negb (malloc (added * 4))) with YVEX_ERR_NOMEM "added-token index allocation failed";
  let special := Z.of_nat (length (filter (λ index, token_test is_control (tz_tokens t) index = true) ids)) in
  let! ids := run_access (added_sort (tz_tokens t) ids) in
  let! starts := run_access (added_buckets (tz_tokens t) ids) in
  let t := t <| tz_added_token_ids := ids |> <| tz_added_bucket_start := starts |> in
  match hash ← sha256_update_fields yvex_sha256_init
          (FText "yvex.tokenizer.added.v1" :: mjoin (added_fields_of (tz_tokens t) <$> ids));
        hash_finish hash with
  | None => run_refuse YVEX_ERR_STATE ""
  | Some identity =>
      run_ret (t <| tz_plan ::= λ plan,
        plan <| tp_added_token_identity := identity |> <| tp_added_token_count := added |>
             <| tp_special_token_count := special |> |>)
  end.

(** * Looking for an added token *)

(** Whether a token may be taken at an offset whose bytes are [rest].
    src/src/tokenizer/execution.c:1147-1151, [added_at] *)
Definition added_matches (allow_special : bool) (rest : list Z) (token : yvex_token_info) : bool :=
  if (negb allow_special && is_control token) || (text_len token =? 0) ||
     (Z.of_nat (length rest) <? text_len token) then false
  else bool_decide (take (length (tk_text token)) rest = tk_text token).

(** src/src/tokenizer/execution.c:1146-1157, [added_at] *)
Fixpoint added_scan (t : yvex_tokenizer) (allow_special : bool) (rest : list Z) (indices : list Z)
    : option (option (Z * Z)) :=
  match indices with
  | [] => Some None
  | index :: indices =>
      id ← array_get (tz_added_token_ids t) index;
      token ← array_get (tz_tokens t) id;
      if added_matches allow_special rest token then Some (Some (tk_id token, text_len token))
      else added_scan t allow_special rest indices
  end.

(** The token that starts at an offset and its length.
    src/src/tokenizer/execution.c, [added_at] *)
Definition added_at (t : yvex_tokenizer) (bytes : list Z) (offset : Z) (allow_special : bool)
    : option (option (Z * Z)) :=
  if Z.of_nat (length bytes) <=? offset then Some None
  else
    first ← array_get bytes offset;
    index ← array_get (tz_added_bucket_start t) first;
    end_ ← array_get (tz_added_bucket_start t) (first + 1);
    added_scan t allow_special (drop (Z.to_nat offset) bytes) (seqZ index (end_ - index)).

(** src/src/tokenizer/execution.c, [next_added_offset] *)
Fixpoint next_added_offset (fuel : nat) (t : yvex_tokenizer) (bytes : list Z) (offset : Z) (allow_special : bool)
    : option Z :=
  if offset <? Z.of_nat (length bytes) then
    match fuel with
    | O => None
    | S fuel =>
        found ← added_at t bytes offset allow_special;
        match found with
        | Some _ => Some offset
        | None => next_added_offset fuel t bytes (offset + 1) allow_special
        end
    end
  else Some (Z.of_nat (length bytes)).

(** * The order *)

Section order.
Context (tokens : list yvex_token_info).

Definition first_at (i : Z) : Z := from_option first_byte 0 (array_get tokens i).
Definition len_at (i : Z) : Z := from_option text_len 0 (array_get tokens i).

(** By first byte, then the longer text, then the position. *)
Definition before (i j : Z) : Prop :=
  first_at i < first_at j ∨ first_at i = first_at j ∧ (len_at j < len_at i ∨ len_at i = len_at j ∧ i < j).

Definition inside (i : Z) : Prop := 0 ≤ i < Z.of_nat (length tokens).

Lemma before_trans i j k : before i j → before j k → before i k.
Proof. unfold before. lia. Qed.

Lemma before_total i j : i ≠ j → before i j ∨ before j i.
Proof. unfold before. lia. Qed.

Lemma before_asym i j : before i j → ¬ before j i.
Proof. unfold before. lia. Qed.

Lemma inside_get i : inside i → ∃ token, array_get tokens i = Some token.
Proof. intros Hi. by apply array_get_is_Some. Qed.

Lemma added_compare_spec i j :
  inside i → inside j → ∃ order, added_compare tokens i j = Some order ∧ (order = Lt ↔ before i j).
Proof.
  intros (a & Ha)%inside_get (b & Hb)%inside_get. unfold added_compare, before, first_at, len_at.
  rewrite Ha, Hb. cbn [mbind option_bind from_option]. eexists. split; [reflexivity|].
  destruct (Z.eqb_spec (first_byte a) (first_byte b)); cbn [negb]; [|destruct (Z.ltb_spec (first_byte a) (first_byte b)); naive_solver lia].
  destruct (Z.eqb_spec (text_len a) (text_len b)); cbn [negb]; [|destruct (Z.ltb_spec (text_len b) (text_len a)); naive_solver lia].
  destruct (Z.ltb_spec i j); [naive_solver lia|]. destruct (Z.eqb_spec i j); naive_solver lia.
Qed.

(** ** The sort *)

(** A value slides back to its place among the sorted ones before it. *)
Lemma added_shift_spec pre value x post :
  StronglySorted before pre → Forall inside pre → inside value → value ∉ pre →
  ∃ low high, pre = low ++ high ∧
    added_shift tokens (length pre) value (pre ++ x :: post) = Some (low ++ value :: high ++ post) ∧
    Forall (λ y, before y value) low ∧ Forall (before value) high.
Proof.
  revert x post. induction pre as [|p pre IH] using rev_ind; intros x post Hs Hin Hv Hnot.
  { exists [], []. split; [done|]. split; [|by split; constructor]. cbn. unfold array_set. cbn [length].
    by rewrite (proj2 (Z.ltb_lt _ _)) by lia. }
  rewrite length_app. cbn [length]. rewrite Nat.add_1_r. cbn [added_shift].
  rewrite <- (assoc_L (++)). cbn [app].
  rewrite (array_get_nat _ (length pre)), list_lookup_middle by done. cbn [mbind option_bind].
  apply Forall_app in Hin as [Hin [Hp _]%Forall_cons].
  destruct (added_compare_spec value p Hv Hp) as (order & -> & Horder). cbn [mbind option_bind].
  apply StronglySorted_app in Hs as (Hsep & Hs & _). apply not_elem_of_app in Hnot as [Hnot Hne%not_elem_of_cons].
  assert (∀ v : Z, array_set (pre ++ p :: x :: post) (Z.of_nat (S (length pre))) v = Some (pre ++ p :: v :: post)) as Hset.
  { intros v. rewrite array_set_inside by (rewrite length_app; cbn; lia). f_equal.
    rewrite Nat2Z.id, insert_app_r_alt by lia. f_equal. by replace (S (length pre) - length pre)%nat with 1%nat by lia. }
  rewrite !Hset. destruct (decide (order = Lt)) as [->|Hge].
  - destruct (IH p (p :: post) Hs Hin Hv Hnot) as (low & high & -> & E & Hlow & Hhigh).
    cbn [mbind option_bind]. rewrite E. exists low, (high ++ [p]). rewrite <- !(assoc_L (++)). split_and!; [done..|].
    apply Forall_app. split; [done|]. constructor; [tauto|done].
  - exists (pre ++ [p]), []. rewrite app_nil_r. cbn [app]. split; [done|]. split.
    { destruct order; [|tauto|]; by rewrite <- (assoc_L (++)). }
    split; [|done]. assert (before p value) as Hbefore.
    { destruct (before_total p value) as [|Hb]; [intros ->; tauto|done|]. tauto. }
    apply Forall_app. split; [|by constructor]. apply Forall_forall. intros y Hy.
    apply (before_trans y p); [|done]. apply Hsep; [done|by apply list_elem_of_singleton].
Qed.

Lemma sorted_insert low value high :
  StronglySorted before (low ++ high) → Forall (λ y, before y value) low → Forall (before value) high →
  StronglySorted before (low ++ value :: high).
Proof.
  intros (Hsep & Hl & Hh)%StronglySorted_app Hlow Hhigh. apply StronglySorted_app. split_and!; [|done|by constructor].
  intros y z Hy Hz. apply elem_of_cons in Hz as [->|Hz]; [|by apply Hsep].
  rewrite Forall_forall in Hlow. by apply Hlow.
Qed.

Lemma added_sort_loop sorted rest :
  StronglySorted before sorted → Forall inside (sorted ++ rest) → NoDup (sorted ++ rest) →
  ∃ ids, foldl (λ ids index, ids ← ids; value ← array_get ids (Z.of_nat index); added_shift tokens index value ids)
      (Some (sorted ++ rest)) (seq (length sorted) (length rest)) = Some ids ∧
    StronglySorted before ids ∧ ids ≡ₚ sorted ++ rest.
Proof.
  revert sorted. induction rest as [|x rest IH]; intros sorted Hs Hin Hnd.
  { exists sorted. by rewrite app_nil_r. }
  cbn [length seq foldl mbind option_bind].
  rewrite array_get_nat, list_lookup_middle by done. cbn [mbind option_bind].
  assert (sorted ++ x :: rest = (sorted ++ [x]) ++ rest) as Eassoc by by rewrite <- (assoc_L (++)).
  pose proof Hin as Hin'. apply Forall_app in Hin' as [Hin1 [Hx Hin2]%Forall_cons].
  apply NoDup_app in Hnd as (Hnd1 & Hdis & Hnd2). apply NoDup_cons in Hnd2 as [Hx2 Hnd2].
  assert (x ∉ sorted) as Hnot by (intros H; apply (Hdis x H); by left).
  destruct (added_shift_spec sorted x x rest Hs Hin1 Hx Hnot) as (low & high & -> & -> & Hlow & Hhigh).
  assert (low ++ x :: high ++ rest = (low ++ x :: high) ++ rest) as -> by by rewrite <- (assoc_L (++)).
  assert (low ++ x :: high ≡ₚ (low ++ high) ++ [x]) as Hp by (by rewrite <- Permutation_middle, Permutation_cons_append).
  destruct (IH (low ++ x :: high)) as (ids & E & Hsorted & Hperm).
  - by apply sorted_insert.
  - apply Forall_app. split; [|done]. rewrite Hp. apply Forall_app. split; [done|by constructor].
  - rewrite Hp. rewrite <- Eassoc. apply NoDup_app. split; [done|]. split; [done|]. by constructor.
  - exists ids. rewrite length_app in E |- *. cbn [length] in E. rewrite Nat.add_succ_r in E. split; [exact E|].
    split; [done|]. rewrite Hperm, Hp, Eassoc. done.
Qed.

(** The sort orders the positions. *)
Lemma added_sort_spec ids :
  Forall inside ids → NoDup ids → ∃ sorted, added_sort tokens ids = Some sorted ∧ StronglySorted before sorted ∧ sorted ≡ₚ ids.
Proof.
  intros Hin Hnd. unfold added_sort. destruct ids as [|x ids].
  { exists []. split_and!; [done|constructor|done]. }
  cbn [length]. rewrite Nat.sub_succ, Nat.sub_0_r. apply (added_sort_loop [x] ids); [|done..].
  constructor; [constructor|done].
Qed.
End order.

(** ** The buckets *)

Section buckets.
Context (tokens : list yvex_token_info) (ids : list Z).
Context (Hsorted : StronglySorted (before tokens) ids) (Hinside : Forall (inside tokens) ids).

(** How many added tokens start with a byte below [byte]. *)
Definition below (byte : Z) : nat := length (filter (λ i, first_at tokens i < byte) ids).

Lemma sorted_split (l : list Z) byte :
  StronglySorted (before tokens) l →
  l = filter (λ i, first_at tokens i < byte) l ++ filter (λ i, ¬ first_at tokens i < byte) l.
Proof.
  induction 1 as [|x l Hs IH Hall]; [done|]. rewrite !filter_cons.
  destruct (decide (first_at tokens x < byte)) as [Hlt|Hge]; cbn.
  - rewrite decide_False by tauto. cbn. by f_equal.
  - rewrite decide_True by done. cbn.
    assert (filter (λ i, first_at tokens i < byte) l = []) as E.
    { apply filter_none. eapply Forall_impl; [exact Hall|]. intros y Hy. unfold before in Hy. cbn. lia. }
    rewrite E in IH |- *. cbn. by f_equal.
Qed.

Lemma take_below byte : take (below byte) ids = filter (λ i, first_at tokens i < byte) ids.
Proof. etrans; [apply (f_equal (take _)), (sorted_split ids byte Hsorted)|]. apply take_app_length. Qed.

Lemma drop_below byte : drop (below byte) ids = filter (λ i, ¬ first_at tokens i < byte) ids.
Proof. etrans; [apply (f_equal (drop _)), (sorted_split ids byte Hsorted)|]. apply drop_app_length. Qed.

Lemma below_next byte :
  below (byte + 1) = (below byte + length (filter (λ i, first_at tokens i = byte) ids))%nat.
Proof.
  unfold below. clear Hsorted Hinside. induction ids as [|x l IH]; [done|]. rewrite !filter_cons.
  repeat case_decide; cbn; lia.
Qed.

Context (Htexts : Forall (λ i, len_at tokens i ≠ 0) ids).

(** The run of a byte. *)
Lemma bucket_end_spec (l : list Z) byte cursor :
  StronglySorted (before tokens) l → Forall (inside tokens) l → Forall (λ i, len_at tokens i ≠ 0) l →
  Forall (λ i, ¬ first_at tokens i < byte) l →
  bucket_end tokens byte l cursor = Some (cursor + Z.of_nat (length (filter (λ i, first_at tokens i = byte) l))).
Proof.
  intros Hs. revert cursor. induction Hs as [|x l Hs IH Hall]; intros cursor Hin Ht Hge; cbn [bucket_end].
  { cbn. f_equal. lia. }
  apply Forall_cons in Hin as [Hx Hin], Ht as [Htx Ht], Hge as [Hgx Hge].
  destruct (inside_get tokens x Hx) as [token Etoken]. rewrite Etoken. cbn [mbind option_bind].
  assert (first_at tokens x = first_byte token) as Ef by (unfold first_at; by rewrite Etoken).
  assert (len_at tokens x = text_len token) as El by (unfold len_at; by rewrite Etoken).
  rewrite (proj2 (Z.eqb_neq _ _)) by (rewrite <- El; done). cbn [negb andb]. rewrite filter_cons.
  destruct (Z.eqb_spec (first_byte token) byte) as [E|Hne].
  - rewrite decide_True by lia. rewrite IH by done. cbn [length]. f_equal. lia.
  - rewrite decide_False by lia. rewrite filter_none; [cbn; f_equal; lia|].
    eapply Forall_impl; [exact Hall|]. intros y Hy. unfold before in Hy. cbn. lia.
Qed.

Lemma filter_filter_first (l : list Z) byte :
  filter (λ i, first_at tokens i = byte) (filter (λ i, ¬ first_at tokens i < byte) l) =
  filter (λ i, first_at tokens i = byte) l.
Proof.
  induction l as [|x l IH]; [done|]. rewrite !filter_cons.
  destruct (decide (first_at tokens x < byte)); [rewrite decide_False by tauto|rewrite decide_True by done].
  - rewrite IH, decide_False by lia. done.
  - rewrite filter_cons, IH. done.
Qed.

Context (Hbytes : Forall (λ i, is_u8 (first_at tokens i)) ids).

Lemma added_buckets_loop (n k : nat) (starts : list Z) :
  foldl (λ state byte,
    '(starts, cursor) ← state;
    next ← bucket_end tokens byte (drop (Z.to_nat cursor) ids) cursor;
    Some (starts ++ [cursor], next)) (Some (starts, Z.of_nat (below (Z.of_nat k)))) (seqZ (Z.of_nat k) (Z.of_nat n)) =
  Some (starts ++ ((λ byte, Z.of_nat (below byte)) <$> seqZ (Z.of_nat k) (Z.of_nat n)), Z.of_nat (below (Z.of_nat (k + n)))).
Proof.
  revert k starts. induction n as [|n IH]; intros k starts.
  { cbn. by rewrite app_nil_r, Nat.add_0_r. }
  rewrite seqZ_cons by lia. cbn [foldl mbind option_bind fmap list_fmap].
  rewrite Nat2Z.id, drop_below, bucket_end_spec.
  - cbn [mbind option_bind]. rewrite filter_filter_first.
    assert (Z.of_nat (below (Z.of_nat k)) + Z.of_nat (length (filter (λ i, first_at tokens i = Z.of_nat k) ids)) =
      Z.of_nat (below (Z.of_nat (S k)))) as E.
    { replace (Z.of_nat (S k)) with (Z.of_nat k + 1) by lia. rewrite below_next. lia. }
    rewrite E. replace (Z.succ (Z.of_nat k)) with (Z.of_nat (S k)) by lia.
    replace (Z.pred (Z.of_nat (S n))) with (Z.of_nat n) by lia.
    rewrite IH. rewrite <- (assoc_L (++)). do 2 f_equal. do 2 f_equal. lia.
  - rewrite <- drop_below. pose proof Hsorted as H. rewrite <- (take_drop (below (Z.of_nat k)) ids) in H.
    apply StronglySorted_app in H. tauto.
  - by apply filter_Forall.
  - by apply filter_Forall.
  - apply Forall_forall. intros i Hi%list_elem_of_filter. tauto.
Qed.

(** Every bucket starts after the tokens whose texts start with a smaller byte. *)
Lemma added_buckets_spec :
  added_buckets tokens ids = Some ((λ byte, Z.of_nat (below byte)) <$> seqZ 0 257).
Proof.
  unfold added_buckets. change (seqZ 0 256) with (seqZ (Z.of_nat 0) (Z.of_nat 256)).
  assert (below (Z.of_nat 0) = 0%nat) as E0.
  { unfold below. rewrite filter_none; [done|]. eapply Forall_impl; [exact Hbytes|]. intros i Hi. cbn. ulia. }
  pose proof (added_buckets_loop 256 0 []) as H. rewrite E0 in H. change (Z.of_nat 0) with 0 in *. rewrite H.
  assert (below 256 = length ids) as Eall.
  { unfold below. f_equal. apply filter_every. eapply Forall_impl; [exact Hbytes|]. intros i Hi. cbn. ulia. }
  cbn [mbind option_bind fst]. f_equal. change 257 with (Z.of_nat 256 + 1).
  rewrite seqZ_app by lia. rewrite fmap_app. cbn [app]. f_equal.
  change (seqZ (0 + Z.of_nat 256) 1) with [256]. cbn [fmap list_fmap]. by rewrite Eall.
Qed.
End buckets.

(** ** Buckets of any tokens

    Whatever the texts, the run of every byte ends inside the array. *)

Lemma bucket_end_inside tokens byte ids cursor :
  Forall (inside tokens) ids → ∃ k, (k ≤ length ids)%nat ∧ bucket_end tokens byte ids cursor = Some (cursor + Z.of_nat k).
Proof.
  intros Hin. revert cursor. induction Hin as [|i ids Hi _ IH]; intros cursor; cbn [bucket_end].
  { exists 0%nat. by rewrite Z.add_0_r. }
  destruct (inside_get tokens i Hi) as [token ->]. cbn [mbind option_bind].
  destruct (_ && _); [|exists 0%nat; rewrite Z.add_0_r; split; [lia|done]].
  destruct (IH (cursor + 1)) as (k & Hk & ->). exists (S k). split; [cbn; lia|]. f_equal. lia.
Qed.

Definition inside_array (ids : list Z) (cursor : Z) : Prop := 0 ≤ cursor ≤ Z.of_nat (length ids).

Lemma added_buckets_run tokens ids bytes : Forall (inside tokens) ids → ∀ starts cursor,
  inside_array ids cursor → Forall (inside_array ids) starts →
  ∃ starts' cursor', foldl (λ state byte,
      '(starts, cursor) ← state;
      next ← bucket_end tokens byte (drop (Z.to_nat cursor) ids) cursor;
      Some (starts ++ [cursor], next)) (Some (starts, cursor)) bytes = Some (starts', cursor') ∧
    length starts' = (length starts + length bytes)%nat ∧ Forall (inside_array ids) starts' ∧ inside_array ids cursor'.
Proof.
  intros Hin. induction bytes as [|byte bytes IH]; intros starts cursor Hc Hs; cbn [foldl mbind option_bind].
  { exists starts, cursor. cbn. by rewrite Nat.add_0_r. }
  destruct (bucket_end_inside tokens byte (drop (Z.to_nat cursor) ids) cursor) as (k & Hk & ->); [by apply Forall_drop|].
  cbn [mbind option_bind]. rewrite length_drop in Hk. unfold inside_array in *.
  destruct (IH (starts ++ [cursor]) (cursor + Z.of_nat k)) as (starts' & cursor' & -> & Hl & Hs' & Hc');
    [lia|apply Forall_app; split; [done|by constructor]|].
  exists starts', cursor'. rewrite Hl, length_app. cbn [length]. split; [done|]. split; [lia|done].
Qed.

Lemma added_buckets_inside tokens ids : Forall (inside tokens) ids →
  ∃ starts, added_buckets tokens ids = Some starts ∧ length starts = 257%nat ∧ Forall (inside_array ids) starts.
Proof.
  intros Hin. unfold added_buckets.
  destruct (added_buckets_run tokens ids (seqZ 0 256) Hin [] 0) as (starts & cursor & -> & Hl & Hs & _);
    [unfold inside_array; lia|constructor|].
  cbn [mbind option_bind fst]. eexists. split; [done|]. rewrite length_app, Hl. split; [done|].
  apply Forall_app. split; [done|]. constructor; [unfold inside_array; lia|constructor].
Qed.

Lemma filter_first_run tokens (l : list Z) byte :
  filter (λ i, first_at tokens i < byte + 1) (filter (λ i, ¬ first_at tokens i < byte) l) =
  filter (λ i, first_at tokens i = byte) l.
Proof.
  induction l as [|x l IH]; [done|]. rewrite !filter_cons.
  destruct (decide (first_at tokens x < byte)); [rewrite decide_False by tauto|rewrite decide_True by done].
  - rewrite IH, decide_False by lia. done.
  - rewrite filter_cons, IH. destruct (decide (first_at tokens x = byte)).
    + by rewrite decide_True by lia.
    + by rewrite decide_False by lia.
Qed.

(** The sorted tokens are those below a byte, its bucket, and the rest. *)
Lemma sorted_three tokens ids byte :
  StronglySorted (before tokens) ids →
  ids = filter (λ i, first_at tokens i < byte) ids ++ filter (λ i, first_at tokens i = byte) ids ++
        filter (λ i, ¬ first_at tokens i < byte + 1) ids.
Proof.
  intros Hs. etrans; [apply (sorted_split tokens ids byte Hs)|]. f_equal.
  pose proof Hs as Hs'. rewrite <- (take_drop (below tokens ids byte) ids) in Hs'.
  apply StronglySorted_app in Hs' as (_ & _ & Hs'). rewrite drop_below in Hs' by done.
  etrans; [apply (sorted_split tokens _ (byte + 1) Hs')|]. rewrite filter_first_run. f_equal.
  rewrite <- (drop_below tokens ids Hs (byte + 1)), below_next, <- drop_drop, drop_below by done.
  rewrite <- (drop_below tokens _ Hs' (byte + 1)). unfold below at 1. by rewrite filter_first_run.
Qed.

(** * Sealing, and the longest match *)

(** What sealing leaves: the added tokens in order, and where the bucket of every byte starts. *)
Record added_ok (t : yvex_tokenizer) : Prop := AddedOk {
  ao_sorted : StronglySorted (before (tz_tokens t)) (tz_added_token_ids t);
  ao_members : tz_added_token_ids t ≡ₚ added_positions (tz_tokens t);
  ao_buckets : tz_added_bucket_start t =
    (λ byte, Z.of_nat (below (tz_tokens t) (tz_added_token_ids t) byte)) <$> seqZ 0 257;
}.

(** Texts are bytes. *)
Definition texts_bytes (tokens : list yvex_token_info) : Prop := Forall (λ token, Forall is_u8 (tk_text token)) tokens.

(** An added token has a text, which neither loading nor sealing checks. *)
Definition added_named (tokens : list yvex_token_info) : Prop :=
  Forall (λ token, is_added token = true → tk_text token ≠ []) tokens.

Record texts_wf (tokens : list yvex_token_info) : Prop := TextsWf {
  xw_bytes : texts_bytes tokens;
  xw_added : added_named tokens;
}.

Lemma elem_added_positions tokens p :
  p ∈ added_positions tokens ↔ ∃ token, array_get tokens p = Some token ∧ is_added token = true.
Proof.
  unfold added_positions. rewrite list_elem_of_filter, elem_of_seqZ. unfold token_test. split.
  - intros [E _]. destruct (array_get tokens p) as [token|]; [|done]. by exists token.
  - intros (token & E & Ha). rewrite E. split; [done|]. apply array_get_Some in E as [? _]. lia.
Qed.

Lemma added_positions_inside tokens : Forall (inside tokens) (added_positions tokens).
Proof.
  apply Forall_forall. intros p (token & E & _)%elem_added_positions. apply array_get_Some in E as [E _]. exact E.
Qed.

Lemma added_positions_NoDup tokens : NoDup (added_positions tokens).
Proof. apply NoDup_filter, NoDup_seqZ. Qed.

Lemma added_positions_texts tokens :
  texts_wf tokens →
  Forall (λ p, len_at tokens p ≠ 0) (added_positions tokens) ∧
  Forall (λ p, is_u8 (first_at tokens p)) (added_positions tokens).
Proof.
  intros [Hb Ha]. split; apply Forall_forall; intros p (token & E & Hadd)%elem_added_positions;
    unfold len_at, first_at; rewrite E; cbn [from_option];
    apply array_get_Some in E as [_ E]; pose proof (Forall_lookup_1 _ _ _ _ Ha E Hadd) as Hne;
    pose proof (Forall_lookup_1 _ _ _ _ Hb E) as Hu; cbn beta in Hu; unfold text_len, first_byte;
    destruct (tk_text token) as [|b text]; try done.
  apply Forall_cons in Hu. tauto.
Qed.

Section longest.
Context (t : yvex_tokenizer) (allow_special : bool) (rest : list Z).

(** The scan of a bucket ends on the first token that matches. *)
Lemma added_scan_spec slice index :
  (∀ (k : nat) id, slice !! k = Some id → array_get (tz_added_token_ids t) (index + Z.of_nat k) = Some id) →
  Forall (inside (tz_tokens t)) slice →
  ∃ answer, added_scan t allow_special rest (seqZ index (Z.of_nat (length slice))) = Some answer ∧
    match answer with
    | Some (id, len) => ∃ done_ p todo token, slice = done_ ++ p :: todo ∧ array_get (tz_tokens t) p = Some token ∧
        id = tk_id token ∧ len = text_len token ∧ added_matches allow_special rest token = true ∧
        Forall (λ q, token_test (added_matches allow_special rest) (tz_tokens t) q = false) done_
    | None => Forall (λ q, token_test (added_matches allow_special rest) (tz_tokens t) q = false) slice
    end.
Proof.
  revert index. induction slice as [|p slice IH]; intros index Hat Hin.
  { exists None. by split. }
  apply Forall_cons in Hin as [Hp Hin]. cbn [length]. rewrite seqZ_cons by lia.
  replace (Z.pred (Z.of_nat (S (length slice)))) with (Z.of_nat (length slice)) by lia. cbn [added_scan].
  pose proof (Hat 0%nat p eq_refl) as H0. rewrite Z.add_0_r in H0. rewrite H0. cbn [mbind option_bind].
  destruct (inside_get (tz_tokens t) p Hp) as [token Etoken]. rewrite Etoken. cbn [mbind option_bind].
  destruct (added_matches allow_special rest token) eqn:Em.
  - eexists. split; [reflexivity|]. by exists [], p, slice, token.
  - destruct (IH (Z.succ index)) as (answer & -> & Ha); [|done|].
    { intros k id Hk. specialize (Hat (S k) id Hk). by replace (Z.succ index + Z.of_nat k) with (index + Z.of_nat (S k)) by lia. }
    exists answer. split; [done|].
    assert (token_test (added_matches allow_special rest) (tz_tokens t) p = false) as Hf
      by (unfold token_test; by rewrite Etoken).
    destruct answer as [[id len]|]; [|by constructor].
    destruct Ha as (d & q & todo & other & -> & Ha). exists (p :: d), q, todo, other.
    destruct Ha as (? & ? & ? & ? & Hd). split_and!; [done..|]. by constructor.
Qed.
End longest.

(** What a look at an offset answers: the longest added token that may be taken there. *)
Definition longest_added tokens allow_special rest (answer : option (Z * Z)) : Prop :=
  match answer with
  | Some (id, len) => ∃ p token, array_get tokens p = Some token ∧ is_added token = true ∧ id = tk_id token ∧
      len = text_len token ∧ added_matches allow_special rest token = true ∧
      ∀ q other, array_get tokens q = Some other → is_added other = true →
        added_matches allow_special rest other = true → text_len other ≤ len
  | None => ∀ q other, array_get tokens q = Some other → is_added other = true →
      added_matches allow_special rest other = false
  end.

Lemma added_matches_first allow_special rest token :
  added_matches allow_special rest token = true →
  ∃ b tail tail', rest = b :: tail ∧ tk_text token = b :: tail' ∧
    rest = tk_text token ++ drop (length (tk_text token)) rest.
Proof.
  unfold added_matches. destruct (_ || _ || _) eqn:E; [done|]. intros Em%bool_decide_eq_true.
  apply orb_false_iff in E as [[_ E]%orb_false_iff _]. apply Z.eqb_neq in E. unfold text_len in E.
  destruct (tk_text token) as [|b text] eqn:Et; [done|]. destruct rest as [|b' rest]; [done|].
  cbn [length take] in Em. injection Em as -> Em. exists b, rest, text. split_and!; [done..|].
  cbn [length drop app]. f_equal. rewrite <- Em at 1. by rewrite take_drop.
Qed.

Lemma added_at_spec t bytes offset allow_special :
  added_ok t → texts_wf (tz_tokens t) → Forall is_u8 bytes → 0 ≤ offset →
  ∃ answer, added_at t bytes offset allow_special = Some answer ∧
    longest_added (tz_tokens t) allow_special (drop (Z.to_nat offset) bytes) answer.
Proof.
  intros [Hs Hm Hb] Hwf Hu Ho. unfold added_at. destruct (Z.leb_spec (Z.of_nat (length bytes)) offset).
  { exists None. split; [done|]. intros q other _ _. rewrite drop_ge by lia.
    destruct (added_matches allow_special [] other) eqn:E; [|done].
    by apply added_matches_first in E as (? & ? & ? & ? & _). }
  destruct (array_get_is_Some bytes offset) as [first Efirst]; [lia|]. rewrite Efirst. cbn [mbind option_bind].
  apply array_get_Some in Efirst as [_ Efirst]. pose proof (Forall_lookup_1 _ _ _ _ Hu Efirst) as Hfirst. unfold is_u8 in Hfirst.
  set (ids := tz_added_token_ids t) in *.
  rewrite Hb, !table_get by lia. cbn [mbind option_bind].
  set (slice := filter (λ i, first_at (tz_tokens t) i = first) ids).
  assert (drop (below (tz_tokens t) ids first) ids = slice ++ filter (λ i, ¬ first_at (tz_tokens t) i < first + 1) ids) as Edrop.
  { etrans; [apply (f_equal (drop _)), (sorted_three (tz_tokens t) ids first Hs)|]. apply drop_app_length. }
  destruct (added_scan_spec t allow_special (drop (Z.to_nat offset) bytes) slice (Z.of_nat (below (tz_tokens t) ids first))) as (answer & Escan & Ha).
  { intros k id Hk. fold ids. rewrite <- Nat2Z.inj_add, array_get_nat, <- lookup_drop, Edrop. by apply lookup_app_l_Some. }
  { apply filter_Forall. rewrite Hm. apply added_positions_inside. }
  replace (Z.of_nat (below (tz_tokens t) ids (first + 1)) - Z.of_nat (below (tz_tokens t) ids first)) with (Z.of_nat (length slice))
    by (rewrite below_next; unfold slice; lia).
  exists answer. split; [exact Escan|].
  assert (∀ q other, array_get (tz_tokens t) q = Some other → is_added other = true →
    added_matches allow_special (drop (Z.to_nat offset) bytes) other = true → q ∈ slice) as Hslice.
  { intros q other Eq Hadd (b & tail & tail' & Er & Et & _)%added_matches_first. apply list_elem_of_filter. split.
    - unfold first_at, first_byte. rewrite Eq. cbn. rewrite Et. cbn.
      pose proof (lookup_drop bytes (Z.to_nat offset) 0) as Hd. rewrite Er, Nat.add_0_r, Efirst in Hd. by injection Hd.
    - rewrite Hm. apply elem_added_positions. by exists other. }
  assert (∀ q other, array_get (tz_tokens t) q = Some other →
    token_test (added_matches allow_special (drop (Z.to_nat offset) bytes)) (tz_tokens t) q =
    added_matches allow_special (drop (Z.to_nat offset) bytes) other) as Htest
    by (intros q other Eq; unfold token_test; by rewrite Eq).
  destruct answer as [[id len]|]; cbn [longest_added].
  - destruct Ha as (d & p & todo & token & Eslice & Ep & -> & -> & Em & Hd). exists p, token.
    assert (p ∈ slice) as Hp by (rewrite Eslice; apply elem_of_app; right; by left).
    split; [done|]. split.
    { apply list_elem_of_filter in Hp as [_ Hp]. rewrite Hm in Hp.
      apply elem_added_positions in Hp as (token1 & E1 & Ha1). assert (token1 = token) as -> by congruence. done. }
    split_and!; [done..|]. intros q other Eq Hadd Emq. pose proof (Hslice q other Eq Hadd Emq) as Hq.
    rewrite Eslice in Hq. apply elem_of_app in Hq as [Hq|Hq].
    { rewrite Forall_forall in Hd. specialize (Hd q Hq). rewrite (Htest q other Eq) in Hd. congruence. }
    apply elem_of_cons in Hq as [->|Hq]; [assert (other = token) as -> by congruence; lia|].
    assert (StronglySorted (before (tz_tokens t)) slice) as Hss by (by apply filter_sorted).
    rewrite Eslice in Hss. apply StronglySorted_app in Hss as (_ & _ & Hss).
    apply StronglySorted_inv in Hss as [_ Hss]. rewrite Forall_forall in Hss. specialize (Hss q Hq).
    unfold before, first_at, len_at in Hss. rewrite Ep, Eq in Hss. cbn [from_option] in Hss.
    assert (first_byte token = first_byte other); [|lia].
    apply added_matches_first in Em as (b & ? & ? & E1 & E2 & _), Emq as (b' & ? & ? & E3 & E4 & _).
    unfold first_byte. rewrite E2, E4. cbn. congruence.
  - intros q other Eq Hadd. destruct (added_matches _ _ other) eqn:Em; [|done].
    rewrite Forall_forall in Ha. specialize (Ha q (Hslice q other Eq Hadd Em)). rewrite (Htest q other Eq) in Ha. congruence.
Qed.

(** What sealing leaves whatever the texts: the added tokens, and buckets inside them. *)
Record added_inside (t : yvex_tokenizer) : Prop := AddedInside {
  ai_members : tz_added_token_ids t ≡ₚ added_positions (tz_tokens t);
  ai_count : length (tz_added_bucket_start t) = 257%nat;
  ai_starts : Forall (inside_array (tz_added_token_ids t)) (tz_added_bucket_start t);
}.

(** An answer is an added token that is there and may be taken. *)
Definition taken_added tokens allow_special rest (answer : option (Z * Z)) : Prop :=
  match answer with
  | Some (id, len) => ∃ p token, array_get tokens p = Some token ∧ is_added token = true ∧ id = tk_id token ∧
      len = text_len token ∧ added_matches allow_special rest token = true
  | None => True
  end.

Lemma added_at_inside t bytes offset allow_special :
  added_inside t → Forall is_u8 bytes → 0 ≤ offset →
  ∃ answer, added_at t bytes offset allow_special = Some answer ∧
    taken_added (tz_tokens t) allow_special (drop (Z.to_nat offset) bytes) answer.
Proof.
  intros [Hm Hc Hs] Hu Ho. unfold added_at. destruct (Z.leb_spec (Z.of_nat (length bytes)) offset); [by exists None|].
  destruct (array_get_is_Some bytes offset) as [first Efirst]; [lia|]. rewrite Efirst. cbn [mbind option_bind].
  apply array_get_Some in Efirst as [_ Efirst]. pose proof (Forall_lookup_1 _ _ _ _ Hu Efirst) as Hfirst. unfold is_u8 in Hfirst.
  set (ids := tz_added_token_ids t) in *.
  destruct (array_get_is_Some (tz_added_bucket_start t) first) as [index Ei]; [lia|].
  destruct (array_get_is_Some (tz_added_bucket_start t) (first + 1)) as [end_ Ee]; [lia|].
  rewrite Ei, Ee. cbn [mbind option_bind]. apply array_get_Some in Ei as [_ Ei], Ee as [_ Ee].
  pose proof (Forall_lookup_1 _ _ _ _ Hs Ei) as Hi. pose proof (Forall_lookup_1 _ _ _ _ Hs Ee) as He. unfold inside_array in Hi, He.
  set (slice := take (Z.to_nat (end_ - index)) (drop (Z.to_nat index) ids)).
  assert (length slice = Z.to_nat (end_ - index)) as Hl by (unfold slice; rewrite length_take, length_drop; lia).
  assert (seqZ index (end_ - index) = seqZ index (Z.of_nat (length slice))) as -> by (rewrite Hl; unfold seqZ; by rewrite Nat2Z.id).
  assert (∀ k id, slice !! k = Some id → ids !! (Z.to_nat index + k)%nat = Some id) as Hat.
  { intros k id [Hk _]%lookup_take_Some. by rewrite lookup_drop in Hk. }
  destruct (added_scan_spec t allow_special (drop (Z.to_nat offset) bytes) slice index) as (answer & -> & Ha).
  { intros k id Hk%Hat. fold ids. rewrite <- (Z2Nat.id index) by lia. by rewrite <- Nat2Z.inj_add, array_get_nat. }
  { apply Forall_take, Forall_drop. rewrite Hm. apply added_positions_inside. }
  exists answer. split; [done|]. destruct answer as [[id len]|]; [|done].
  destruct Ha as (d & p & todo & token & Eslice & Ep & -> & -> & Em & _). exists p, token. split; [done|]. split; [|done].
  assert (p ∈ ids) as Hp.
  { apply (list_elem_of_lookup_2 _ (Z.to_nat index + length d)), Hat. rewrite Eslice. by apply list_lookup_middle. }
  rewrite Hm in Hp. apply elem_added_positions in Hp as (token1 & E1 & Ha1).
  by assert (token1 = token) as -> by congruence.
Qed.

(** The search for the next added token stops at the first offset where one starts. *)
Lemma next_added_offset_spec t bytes offset allow_special fuel :
  added_inside t → Forall is_u8 bytes →
  0 ≤ offset ≤ Z.of_nat (length bytes) → Z.of_nat (length bytes) - offset ≤ Z.of_nat fuel →
  ∃ end_, next_added_offset fuel t bytes offset allow_special = Some end_ ∧
    offset ≤ end_ ≤ Z.of_nat (length bytes) ∧
    (∀ at_, offset ≤ at_ < end_ → added_at t bytes at_ allow_special = Some None) ∧
    (end_ < Z.of_nat (length bytes) → ∃ found, added_at t bytes end_ allow_special = Some (Some found)).
Proof.
  intros Hok Hu. revert offset. induction fuel as [|fuel IH]; intros offset Ho Hf; cbn [next_added_offset];
    destruct (Z.ltb_spec offset (Z.of_nat (length bytes))) as [Hlt|Hge]; try lia.
  1,3: eexists; split; [reflexivity|]; split_and!; [lia..|intros at_ H; lia|intros H; lia].
  destruct (added_at_inside t bytes offset allow_special) as ([found|] & E & _); [done..|lia| |];
    rewrite E; cbn [mbind option_bind].
  - exists offset. split; [done|]. split; [lia|]. split; [intros at_ H; lia|]. intros _. by exists found.
  - destruct (IH (offset + 1)) as (end_ & -> & Hb & Hno & Hyes); [lia..|]. exists end_.
    split; [done|]. split; [lia|]. split; [|done].
    intros at_ Hat. destruct (decide (at_ = offset)) as [->|]; [done|]. apply Hno. lia.
Qed.

(** What the identity of the added tokens is the hash of. *)
Definition added_fields (t : yvex_tokenizer) : list field :=
  FText "yvex.tokenizer.added.v1" :: mjoin (added_fields_of (tz_tokens t) <$> tz_added_token_ids t).

Lemma fields_size_permutation fs gs : fs ≡ₚ gs → fields_size fs = fields_size gs.
Proof. unfold fields_size. induction 1; cbn in *; lia. Qed.

Lemma mjoin_fmap_permutation {A B} (f : A → list B) (l m : list A) : l ≡ₚ m → mjoin (f <$> l) ≡ₚ mjoin (f <$> m).
Proof.
  induction 1 as [|x l m _ IH|x y l|l m k _ IH1 _ IH2]; cbn; [done|by rewrite IH| |by etrans].
  rewrite !(assoc_L (++)). by rewrite (Permutation_app_comm (f y) (f x)).
Qed.

(** Sealing the added tokens never reads outside an array and, given memory, succeeds exactly when there are
    as many as the policy says. A look at any offset of any bytes stays inside and answers an added token that is
    there. Where every added token has a text, it is the longest that starts there, control tokens only when they
    are allowed, and there is no answer exactly when there is none. *)
Lemma added_tokens_exact malloc t :
  tokens_wf (tz_tokens t) → texts_bytes (tz_tokens t) →
  is_Some (added_tokens_build malloc t) ∧
  (∀ t', added_tokens_build malloc t = Some (Done t') →
     same_vocabulary t t' ∧ tz_merge_index t' = tz_merge_index t ∧ added_inside t' ∧
     (added_named (tz_tokens t) → added_ok t') ∧
     Z.of_nat (length (added_positions (tz_tokens t))) = fp_added_token_count (tz_policy t) ∧
     tp_added_token_identity (tz_plan t') = yvex_sha256_hex (sha256_spec (fields_bytes (added_fields t'))) ∧
     (∀ bytes offset allow_special, Forall is_u8 bytes → 0 ≤ offset →
        ∃ answer, added_at t' bytes offset allow_special = Some answer ∧
          taken_added (tz_tokens t) allow_special (drop (Z.to_nat offset) bytes) answer ∧
          (added_named (tz_tokens t) →
           longest_added (tz_tokens t) allow_special (drop (Z.to_nat offset) bytes) answer))) ∧
  ((∀ n, malloc n = true) →
   fields_size (FText "yvex.tokenizer.added.v1" :: mjoin (added_fields_of (tz_tokens t) <$> added_positions (tz_tokens t)))
     ≤ ULLONG_MAX / 8 →
   Z.of_nat (length (added_positions (tz_tokens t))) = fp_added_token_count (tz_policy t) →
   ∃ t', added_tokens_build malloc t = Some (Done t')).
Proof.
  intros Hwf Hx. unfold added_tokens_build. set (ids := added_positions (tz_tokens t)).
  assert (Z.of_nat (length ids) ≤ UINT32_MAX) as Hcount.
  { etrans; [|apply (tw_count _ Hwf)]. unfold ids, added_positions. pose proof (filter_length_le
      (λ index, token_test is_added (tz_tokens t) index = true) (seqZ 0 (Z.of_nat (length (tz_tokens t))))) as H.
    rewrite length_seqZ in H. lia. }
  rewrite (proj2 (Z.ltb_ge (SIZE_MAX / 4) _)), orb_false_r
    by (change (SIZE_MAX / 4) with 4611686018427387903; change UINT32_MAX with 4294967295 in Hcount; lia).
  destruct (Z.eqb_spec (Z.of_nat (length ids)) (fp_added_token_count (tz_policy t))) as [Epolicy|Hne]; cbn [negb].
  2: { split_and!; [by eexists|done|]. by intros _ _ Hpolicy. }
  destruct (malloc _) eqn:Emalloc; cbn [negb].
  2: { split_and!; [by eexists|done|]. intros Hall. by rewrite Hall in Emalloc. }
  destruct (added_sort_spec (tz_tokens t) ids) as (sorted & -> & Hsorted & Hperm);
    [apply added_positions_inside|apply added_positions_NoDup|]. cbn [run_access run_bind].
  destruct (added_buckets_inside (tz_tokens t) sorted) as (starts & Estarts & Hcells & Hstarts);
    [rewrite Hperm; apply added_positions_inside|].
  rewrite Estarts. cbn [run_access run_bind].
  assert (added_named (tz_tokens t) → starts = (λ byte, Z.of_nat (below (tz_tokens t) sorted byte)) <$> seqZ 0 257) as Hexact.
  { intros Hn. destruct (added_positions_texts (tz_tokens t) (TextsWf _ Hx Hn)) as [Htexts Hbytes].
    rewrite added_buckets_spec in Estarts; [by injection Estarts|done|rewrite Hperm; apply added_positions_inside|by rewrite Hperm|by rewrite Hperm]. }
  match goal with |- context [sha256_update_fields _ ?l] => set (fields := l) end.
  destruct (sha256_update_fields yvex_sha256_init fields) as [c|] eqn:Ec; cbn [mbind option_bind].
  - pose proof (sha256_fields_sound _ _ _ _ sha256_init_repr Ec) as Hr. rewrite (hash_finish_repr _ _ Hr).
    split_and!; [by eexists| |by eexists]. intros t' [= <-]. cbn [set_field tz_tokens tz_plan tp_added_token_identity].
    match goal with |- context [added_ok ?u] => set (sealed := u) end.
    assert (added_inside sealed) as Hin by by constructor.
    assert (added_named (tz_tokens t) → added_ok sealed) as Hok by (intros Hn; constructor; [done|done|by apply Hexact]).
    split; [by repeat split|]. split; [done|]. split; [exact Hin|]. split; [exact Hok|]. split; [done|]. split; [done|]. intros bytes offset allow_special Hu Ho.
    destruct (added_at_inside _ bytes offset allow_special Hin Hu Ho) as (answer & E & Ht). exists answer. split; [done|]. split; [done|].
    intros Hn. destruct (added_at_spec _ bytes offset allow_special (Hok Hn) (TextsWf _ Hx Hn) Hu Ho) as (answer' & E' & Hlong).
    pose proof (eq_trans (eq_sym E) E') as [= ->]. exact Hlong.
  - split_and!; [by eexists|done|]. intros _ Hsize _.
    destruct (sha256_fields_repr yvex_sha256_init [] fields sha256_init_repr) as (c & E & _); [|congruence].
    cbn [app]. rewrite fields_size_bytes. etrans; [|exact Hsize]. apply Z.eq_le_incl, fields_size_permutation.
    unfold fields. apply Permutation_cons; [done|]. cbn [set_field tz_tokens]. by apply mjoin_fmap_permutation.
Qed.

(** One added token without a text hides the others: the run of the first byte stops before it, every later
    bucket but the last is empty, and a token that is there is not found. *)
Definition hidden_tokens : list yvex_token_info :=
  [TokenInfo 0 [] YVEX_TOKEN_TYPE_CONTROL; TokenInfo 1 (cstr "<s>") YVEX_TOKEN_TYPE_CONTROL].

Definition blank_tokenizer (tokens : list yvex_token_info) (merges added : Z) : yvex_tokenizer :=
  Tokenizer tokens (SpecialId false 0) (SpecialId false 0) (SpecialId false 0) (SpecialId false 0)
    (FamilyPolicy "" merges added) (TokenizerPlan false false false 0 0 0 "" "" "" "") [] [] [] [] (replicate 256 0).

Example added_empty_text_hides :
  match added_tokens_build (λ _, true) (blank_tokenizer hidden_tokens 0 2) with
  | Some (Done t) => added_at t (cstr "<s>") 0 true
  | _ => None
  end = Some None ∧
  match added_tokens_build (λ _, true) (blank_tokenizer [TokenInfo 0 (cstr "<s>") YVEX_TOKEN_TYPE_CONTROL] 0 1) with
  | Some (Done t) => added_at t (cstr "<s>") 0 true
  | _ => None
  end = Some (Some (0, 3)).
Proof. vm_compute. split; reflexivity. Qed.
