(* ===== verification/Bpe.v ===== *)
(** Byte-pair encoding of a piece, [bpe_piece] of [src/tokenizer/execution.c]: one token for each byte, then, as
    long as some rule applies, the applicable rule of the lowest rank everywhere from left to right.

    The rounds end, since each shortens the piece; what is left is the normal form of the piece under the
    rules, and the texts of its tokens spell the piece. *)

From S2P Require Import Prelude Status Exec Sha256 Identity Gguf Utf8 HashIndex Vocabulary Merges.
#[local] Open Scope Z_scope.

(** * The output *)

(** src/include/yvex/tokenizer.h, [yvex_tokens] *)
Record yvex_tokens := Tokens { tn_ids : list Z; tn_cap : Z }.

Definition tn_len (tokens : yvex_tokens) : Z := Z.of_nat (length (tn_ids tokens)).

(** [realloc] answers whether that many bytes can be had.
    src/src/tokenizer/execution.c, [encode_append] *)
Definition encode_append (realloc : Z → bool) (maximum : Z) (token_id : Z) (tokens : yvex_tokens) : run yvex_tokens :=
  refuse_when (maximum <=? tn_len tokens) with YVEX_ERR_BOUNDS "token output capacity exceeded";
  if tn_len tokens <? tn_cap tokens then run_ret (Tokens (tn_ids tokens ++ [token_id]) (tn_cap tokens))
  else
    let capacity := if tn_cap tokens =? 0 then 16 else u64 (tn_cap tokens * 2) in
    let capacity := if maximum <? capacity then maximum else capacity in
    refuse_when ((capacity <=? tn_cap tokens) || (SIZE_MAX / 4 <? capacity))
      with YVEX_ERR_NOMEM "token output allocation overflow";
    refuse_when (negb (realloc (capacity * 4))) with YVEX_ERR_NOMEM "token output allocation failed";
    run_ret (Tokens (tn_ids tokens ++ [token_id]) capacity).

(** * One piece *)

(** The slot of the lowest rank among those of the adjacent pairs, the first of them.
    src/src/tokenizer/execution.c:1108-1113, [bpe_piece] *)
Fixpoint best_merge (t : yvex_tokenizer) (best : option tokenizer_merge_slot) (symbols : list Z)
    : option (option tokenizer_merge_slot) :=
  match symbols with
  | first :: ((second :: _) as symbols) =>
      candidate ← merge_lookup t first second;
      best_merge t
        (match candidate, best with
         | Some slot, None => Some slot
         | Some slot, Some prior => if ms_rank slot <? ms_rank prior then Some slot else best
         | None, _ => best
         end) symbols
  | _ => Some best
  end.

(** Every occurrence of the pair, from left to right; the last symbol has no pair, and the code gives it one
    that no two tokens have.
    src/src/tokenizer/execution.c:1116-1125, [bpe_piece] *)
Fixpoint merge_pass (best : tokenizer_merge_slot) (symbols : list Z) : list Z :=
  match symbols with
  | [] => []
  | [last] => if ULLONG_MAX =? ms_pair best then [ms_merged_id best] else [last]
  | first :: ((second :: rest) as tail) =>
      if merge_pair first second =? ms_pair best then ms_merged_id best :: merge_pass best rest
      else first :: merge_pass best tail
  end.

(** src/src/tokenizer/execution.c:1105-1127, [bpe_piece] *)
Fixpoint bpe_rounds (fuel : nat) (t : yvex_tokenizer) (symbols : list Z) : option (list Z) :=
  if Z.of_nat (length symbols) <=? 1 then Some symbols
  else
    match fuel with
    | O => None
    | S fuel =>
        best ← best_merge t None symbols;
        match best with
        | None => Some symbols
        | Some best => bpe_rounds fuel t (merge_pass best symbols)
        end
    end.

(** src/src/tokenizer/execution.c, [bpe_piece] *)
Definition bpe_piece (realloc malloc : Z → bool) (t : yvex_tokenizer) (maximum : Z) (bytes : list Z)
    (tokens : yvex_tokens) : run yvex_tokens :=
  if bool_decide (bytes = []) then run_ret tokens
  else
    let count := Z.of_nat (length bytes) in
    refuse_when (SIZE_MAX / 4 <? count) with YVEX_ERR_NOMEM "";
    refuse_when (negb (malloc (count * 4))) with YVEX_ERR_NOMEM "piece workspace allocation failed";
    let! symbols := run_access (mapM (array_get (tz_byte_token_ids t)) bytes) in
    let! symbols := run_access (bpe_rounds (length symbols) t symbols) in
    for_each (encode_append realloc maximum) symbols tokens.

(** * Rewriting with rules *)

Definition applies (rule : merge_rule) (symbols : list Z) : Prop :=
  ∃ before after, symbols = before ++ mr_left rule :: mr_right rule :: after.

(** Every occurrence replaced, from left to right. *)
Inductive replaced (rule : merge_rule) : list Z → list Z → Prop :=
  | replaced_nil : replaced rule [] []
  | replaced_pair rest rest' :
      replaced rule rest rest' → replaced rule (mr_left rule :: mr_right rule :: rest) (mr_merged rule :: rest')
  | replaced_skip symbol rest rest' :
      ¬ (symbol = mr_left rule ∧ head rest = Some (mr_right rule)) →
      replaced rule rest rest' → replaced rule (symbol :: rest) (symbol :: rest').

(** The applicable rule of the lowest rank, everywhere. *)
Definition bpe_step (rules : list merge_rule) (symbols symbols' : list Z) : Prop :=
  ∃ rank rule, rules !! rank = Some rule ∧ applies rule symbols ∧
    (∀ lower other, (lower < rank)%nat → rules !! lower = Some other → ¬ applies other symbols) ∧
    replaced rule symbols symbols'.

Definition bpe_normal (rules : list merge_rule) (symbols : list Z) : Prop :=
  Forall (λ rule, ¬ applies rule symbols) rules.

Lemma applies_cons rule x symbols :
  applies rule (x :: symbols) ↔ (x = mr_left rule ∧ head symbols = Some (mr_right rule)) ∨ applies rule symbols.
Proof.
  split.
  - intros ([|y before] & after & E); cbn in E; simplify_eq; [by left|right]. by exists before, after.
  - intros [[-> H]|(before & after & ->)]; [|by exists (x :: before), after].
    destruct symbols as [|y symbols]; [done|]. injection H as ->. by exists [], symbols.
Qed.

Lemma replaced_functional rule s a b : replaced rule s a → replaced rule s b → a = b.
Proof.
  intros Ha. revert b. induction Ha as [|rest rest' H IH|x rest rest' Hn H IH]; intros b Hb; inversion Hb; subst; try done.
  - f_equal. auto.
  - exfalso. by match goal with H : ¬ _ |- _ => destruct H end.
  - exfalso. by destruct Hn.
  - f_equal. auto.
Qed.

(** The rounds of a list of symbols are determined. *)
Lemma bpe_step_functional rules s a b : bpe_step rules s a → bpe_step rules s b → a = b.
Proof.
  intros (r1 & rule1 & E1 & A1 & L1 & R1) (r2 & rule2 & E2 & A2 & L2 & R2).
  destruct (lt_eq_lt_dec r1 r2) as [[H|H]|H].
  - by destruct (L2 r1 rule1 H E1).
  - subst r2. assert (rule2 = rule1) as -> by congruence. by eapply replaced_functional.
  - by destruct (L1 r2 rule2 H E2).
Qed.

Lemma bpe_normal_stuck rules s a : bpe_normal rules s → ¬ bpe_step rules s a.
Proof.
  intros Hn (rank & rule & E & A & _). unfold bpe_normal in Hn. rewrite Forall_lookup in Hn. by apply (Hn rank rule E).
Qed.

(** So a list has one normal form. *)
Lemma bpe_normal_form_unique rules s a b :
  rtc (bpe_step rules) s a → bpe_normal rules a → rtc (bpe_step rules) s b → bpe_normal rules b → a = b.
Proof.
  intros Ha Na. revert b. induction Ha as [s|s s1 a Hs Ha IH]; intros b Hb Nb.
  - destruct Hb as [|s s2 b Hs _]; [done|]. by destruct (bpe_normal_stuck _ _ _ Na Hs).
  - destruct Hb as [|s s2 b Hs' Hb]; [by destruct (bpe_normal_stuck _ _ _ Nb Hs)|].
    apply IH; [done| |done]. by rewrite (bpe_step_functional _ _ _ _ Hs Hs').
Qed.

Lemma replaced_length rule s s' : replaced rule s s' → (length s' ≤ length s)%nat.
Proof. induction 1; cbn in *; lia. Qed.

Lemma replaced_shrinks rule s s' : replaced rule s s' → applies rule s → (length s' < length s)%nat.
Proof.
  induction 1 as [|rest rest' H IH|x rest rest' Hn H IH]; intros Ha.
  - by destruct Ha as ([|] & ? & ?).
  - pose proof (replaced_length _ _ _ H). cbn. lia.
  - apply applies_cons in Ha as [Ha|Ha]; [done|]. specialize (IH Ha). cbn. lia.
Qed.

Lemma replaced_Forall (P : Z → Prop) rule s s' :
  replaced rule s s' → (P (mr_left rule) → P (mr_right rule) → P (mr_merged rule)) → Forall P s → Forall P s'.
Proof.
  intros H Hm. induction H as [|rest rest' H IH|x rest rest' Hn H IH]; intros Hs; [done| |].
  - apply Forall_cons in Hs as [Hl [Hr Hs]%Forall_cons]. constructor; auto.
  - apply Forall_cons in Hs as [Hx Hs]. constructor; auto.
Qed.

(** The text a list of tokens spells. *)
Definition token_text (tokens : list yvex_token_info) (id : Z) : list Z := from_option tk_text [] (array_get tokens id).
Definition tokens_text (tokens : list yvex_token_info) (ids : list Z) : list Z := mjoin (token_text tokens <$> ids).

Lemma tokens_text_cons tokens id ids : tokens_text tokens (id :: ids) = token_text tokens id ++ tokens_text tokens ids.
Proof. done. Qed.

Lemma tokens_text_app tokens ids ids' : tokens_text tokens (ids ++ ids') = tokens_text tokens ids ++ tokens_text tokens ids'.
Proof. unfold tokens_text. by rewrite fmap_app, join_app. Qed.

Lemma replaced_text tokens rule s s' :
  rule_ok tokens rule → replaced rule s s' → tokens_text tokens s' = tokens_text tokens s.
Proof.
  intros (l & r & m & El & Er & Em & Et). induction 1 as [|rest rest' H IH|x rest rest' Hn H IH]; [done| |].
  - rewrite !tokens_text_cons, IH. unfold token_text. rewrite El, Er, Em. cbn. by rewrite Et, <- (assoc_L (++)).
  - by rewrite !tokens_text_cons, IH.
Qed.

(** * The rounds compute the normal form *)

Section rounds.
Context (t : yvex_tokenizer) (rules : list merge_rule).
Context (Hwf : tokens_wf (tz_tokens t)) (Hok : merges_ok t rules).

Definition token_id (id : Z) : Prop := 0 ≤ id < vocab_size t.

Lemma token_id_u32 id : token_id id → is_u32 id ∧ id < UINT32_MAX.
Proof. unfold token_id, vocab_size. pose proof (tw_count _ Hwf). ulia. Qed.

Lemma rule_merged rank rule : rules !! rank = Some rule → rule_ok (tz_tokens t) rule ∧ token_id (mr_merged rule).
Proof.
  intros H. pose proof (Forall_lookup_1 _ _ _ _ (mo_rules _ _ Hok) H) as Hr. split; [done|].
  destruct Hr as (? & ? & ? & _ & _ & Em & _). apply array_get_Some in Em as [Em _]. exact Em.
Qed.

Lemma rule_of_lookup left right rank rule :
  rule_of rules left right = Some (rank, rule) → rules !! rank = Some rule ∧ mr_left rule = left ∧ mr_right rule = right.
Proof. intros H. apply list_find_Some in H as (H & [E1 E2] & _). done. Qed.

(** The rules of the adjacent pairs, with their ranks. *)
Fixpoint pair_rules (symbols : list Z) : list (nat * merge_rule) :=
  match symbols with
  | first :: ((second :: _) as tail) => option_list (rule_of rules first second) ++ pair_rules tail
  | _ => []
  end.

Lemma elem_pair_rules symbols rank rule :
  (rank, rule) ∈ pair_rules symbols ↔ rules !! rank = Some rule ∧ applies rule symbols.
Proof.
  induction symbols as [|x symbols IH].
  { split; [by intros ?%elem_of_nil|]. intros (_ & before & after & E). by destruct before. }
  rewrite applies_cons. destruct symbols as [|y symbols].
  { split; [by intros ?%elem_of_nil|]. intros (_ & [[_ E]|(before & after & E)]); [done|by destruct before]. }
  cbn [pair_rules head]. rewrite elem_of_app, IH.
  assert ((rank, rule) ∈ option_list (rule_of rules x y) ↔ rules !! rank = Some rule ∧ x = mr_left rule ∧ Some y = Some (mr_right rule)) as ->.
  { destruct (rule_of rules x y) as [[rank1 rule1]|] eqn:E; [change (option_list (Some ?c)) with [c]|change (option_list None) with (@nil (nat * merge_rule))].
    - rewrite list_elem_of_singleton. apply rule_of_lookup in E as (E & El & Er). split; [intros [= -> ->]; by rewrite El, Er|].
      intros (Eo & -> & [= ->]). assert (rank = rank1) as ->; [|congruence].
      eapply NoDup_lookup; [apply (mo_pairs _ _ Hok)|..]; rewrite list_lookup_fmap; [by rewrite Eo|].
      rewrite E. unfold rule_pair. cbn. by rewrite El, Er.
    - split; [by intros ?%elem_of_nil|]. intros (Eo & -> & [= ->]). apply list_find_None in E. rewrite Forall_lookup in E.
      by destruct (E rank rule Eo). }
  naive_solver.
Qed.

Definition take_lower (best : option (nat * merge_rule)) (candidate : nat * merge_rule) : option (nat * merge_rule) :=
  match best with
  | Some prior => if (candidate.1 <? prior.1)%nat then Some candidate else best
  | None => Some candidate
  end.

Lemma take_lower_fold candidates best :
  match foldl take_lower best candidates with
  | None => best = None ∧ candidates = []
  | Some least => (best = Some least ∨ least ∈ candidates) ∧
      (∀ prior, best = Some prior → (least.1 ≤ prior.1)%nat) ∧
      ∀ candidate, candidate ∈ candidates → (least.1 ≤ candidate.1)%nat
  end.
Proof.
  revert best. induction candidates as [|c candidates IH]; intros best; cbn [foldl].
  { destruct best as [least|]; [|done]. split_and!; [by left|by intros ? [= ->]|by intros ? ?%elem_of_nil]. }
  specialize (IH (take_lower best c)). destruct (foldl take_lower _ _) as [least|].
  - destruct IH as (Hin & Hbest & Hmin). split_and!.
    + destruct Hin as [Hin|Hin]; [|right; by right]. destruct best as [prior|]; cbn [take_lower] in Hin; [destruct (c.1 <? prior.1)%nat|];
        [right; injection Hin as ->; by left|by left|right; injection Hin as ->; by left].
    + intros prior ->. cbn [take_lower] in Hbest. destruct (Nat.ltb_spec c.1 prior.1); [specialize (Hbest c eq_refl); lia|by apply Hbest].
    + intros candidate [->|Hc]%elem_of_cons; [|by apply Hmin]. destruct best as [prior|]; cbn [take_lower] in Hbest; [|by apply Hbest].
      destruct (Nat.ltb_spec c.1 prior.1); [by apply Hbest|specialize (Hbest prior eq_refl); lia].
  - destruct IH as [IH _]. by destruct best as [prior|]; cbn [take_lower] in IH; [destruct (c.1 <? prior.1)%nat|].
Qed.

Definition slot_of (found : nat * merge_rule) : tokenizer_merge_slot := rule_slot found.1 found.2.

Lemma best_merge_pair best x y symbols :
  best_merge t best (x :: y :: symbols) =
  candidate ← merge_lookup t x y;
  best_merge t
    (match candidate, best with
     | Some slot, None => Some slot
     | Some slot, Some prior => if ms_rank slot <? ms_rank prior then Some slot else best
     | None, _ => best
     end) (y :: symbols).
Proof. done. Qed.

Lemma best_merge_fold symbols best :
  Forall token_id symbols →
  best_merge t (slot_of <$> best) symbols = Some (slot_of <$> foldl take_lower best (pair_rules symbols)).
Proof.
  revert best. induction symbols as [|x symbols IH]; intros best Hs; [done|]. destruct symbols as [|y symbols]; [done|].
  apply Forall_cons in Hs as [Hx Hs]. assert (token_id y) as Hy by (by apply Forall_cons in Hs as [? _]).
  rewrite best_merge_pair, (merge_lookup_spec t rules Hwf Hok x y) by by apply token_id_u32.
  change (pair_rules (x :: y :: symbols)) with (option_list (rule_of rules x y) ++ pair_rules (y :: symbols)).
  cbn [mbind option_bind]. rewrite foldl_app, <- (IH _ Hs).
  match goal with |- best_merge t ?a _ = best_merge t ?b _ => assert (a = b) as ->; [|done] end.
  destruct (rule_of rules x y) as [found|]; cbn [fmap option_fmap option_map]; [|by destruct best].
  change (option_list (Some found)) with [found]. cbn [foldl].
  destruct best as [prior|]; cbn [take_lower fmap option_fmap option_map slot_of rule_slot ms_rank]; [|done].
  destruct (Z.ltb_spec (Z.of_nat found.1) (Z.of_nat prior.1)), (Nat.ltb_spec found.1 prior.1); (done || lia).
Qed.

(** The scan of the pairs finds the applicable rule of the lowest rank. *)
Lemma best_merge_spec symbols :
  Forall token_id symbols →
  (best_merge t None symbols = Some None ∧ bpe_normal rules symbols) ∨
  (∃ rank rule, best_merge t None symbols = Some (Some (rule_slot rank rule)) ∧
     rules !! rank = Some rule ∧ applies rule symbols ∧
     (∀ lower other, (lower < rank)%nat → rules !! lower = Some other → ¬ applies other symbols)).
Proof.
  intros Hs. pose proof (best_merge_fold symbols None Hs) as E. cbn [fmap option_fmap option_map] in E. rewrite E.
  pose proof (take_lower_fold (pair_rules symbols) None) as Hf.
  destruct (foldl take_lower None (pair_rules symbols)) as [[rank rule]|].
  - right. exists rank, rule. destruct Hf as ([?|Hin] & _ & Hmin); [done|].
    apply elem_pair_rules in Hin as [Er Ha]. split_and!; [done..|]. intros lower other Hlt Eo Ho.
    specialize (Hmin (lower, other)). cbn in Hmin. assert (rank ≤ lower)%nat; [|lia]. by apply Hmin, elem_pair_rules.
  - left. split; [done|]. destruct Hf as [_ Hf]. apply Forall_lookup. intros rank rule Er Ha.
    assert ((rank, rule) ∈ pair_rules symbols) as Hin by by apply elem_pair_rules. rewrite Hf in Hin. by apply elem_of_nil in Hin.
Qed.

(** One pass replaces every occurrence. *)
Lemma merge_pass_replaced rank rule symbols :
  rules !! rank = Some rule → Forall token_id symbols → replaced rule symbols (merge_pass (rule_slot rank rule) symbols).
Proof.
  intros Er. destruct (rules_range t rules Hwf Hok rank rule Er) as [Hl Hr].
  assert (token_id (mr_left rule)) as Hlid.
  { destruct (rule_merged rank rule Er) as [(? & ? & ? & El & _) _]. apply array_get_Some in El as [El _]. exact El. }
  remember (length symbols) as n eqn:En. revert symbols En. induction (lt_wf n) as [n _ IH]. intros symbols -> Hs.
  destruct symbols as [|x [|y rest]]; [constructor|..].
  - cbn [merge_pass rule_slot ms_pair]. rewrite (proj2 (Z.eqb_neq _ _)).
    + apply replaced_skip; [|constructor]. by intros [_ ?].
    + pose proof (token_id_u32 _ Hlid). unfold rule_pair. rewrite merge_pair_value by done. ulia.
  - apply Forall_cons in Hs as [Hx Hs]. pose proof Hs as [Hy Hrest]%Forall_cons. cbn [merge_pass rule_slot ms_pair].
    assert ((merge_pair x y =? rule_pair rule) = true ↔ x = mr_left rule ∧ y = mr_right rule) as Heq.
    { rewrite Z.eqb_eq. destruct (token_id_u32 x Hx), (token_id_u32 y Hy). split.
      - unfold rule_pair. intros E. apply merge_pair_inj in E; [exact E|assumption..].
      - intros [-> ->]. reflexivity. }
    destruct (merge_pair x y =? rule_pair rule) eqn:E.
    + destruct (proj1 Heq eq_refl) as [-> ->]. cbn [ms_merged_id]. apply replaced_pair. apply (IH (length rest)); [cbn; lia|done..].
    + apply replaced_skip.
      * intros [-> [= ->]]. by specialize (proj2 Heq (conj eq_refl eq_refl)).
      * apply (IH (length (y :: rest))); [cbn; lia|done..].
Qed.

(** The rounds end, in the normal form, which spells the same text. *)
Lemma bpe_rounds_spec (P : Z → Prop) fuel symbols :
  (∀ rule, rule ∈ rules → P (mr_left rule) → P (mr_right rule) → P (mr_merged rule)) →
  Forall token_id symbols → Forall P symbols → (length symbols ≤ fuel)%nat →
  ∃ symbols', bpe_rounds fuel t symbols = Some symbols' ∧ rtc (bpe_step rules) symbols symbols' ∧
    bpe_normal rules symbols' ∧ Forall token_id symbols' ∧ Forall P symbols' ∧
    (length symbols' ≤ length symbols)%nat ∧
    tokens_text (tz_tokens t) symbols' = tokens_text (tz_tokens t) symbols.
Proof.
  intros HP. revert symbols. induction fuel as [|fuel IH]; intros symbols Hs Hp Hf; cbn [bpe_rounds];
    destruct (Z.leb_spec (Z.of_nat (length symbols)) 1) as [Hle|Hgt]; try lia.
  1,2: exists symbols; split_and!; [done|done| |done..];
    apply Forall_forall; intros rule _ (before & after & ->); rewrite length_app in Hle; cbn in Hle; lia.
  destruct (best_merge_spec symbols Hs) as [[-> Hn]|(rank & rule & -> & Er & Ha & Hlow)]; cbn [mbind option_bind].
  { exists symbols. by split_and!. }
  pose proof (merge_pass_replaced rank rule symbols Er Hs) as Hr.
  destruct (rule_merged rank rule Er) as [Hrule Hm]. pose proof (replaced_shrinks _ _ _ Hr Ha) as Hlt.
  destruct (IH (merge_pass (rule_slot rank rule) symbols)) as (symbols' & E & Hrtc & Hn & Hi & HP' & Hlen & Htext);
    [by eapply replaced_Forall|eapply replaced_Forall; [done|by eapply HP, list_elem_of_lookup_2|done]|lia|].
  exists symbols'. split; [exact E|]. split; [|split_and!; [done..|lia|]].
  - eapply rtc_l; [|exact Hrtc]. by exists rank, rule.
  - rewrite Htext. by eapply replaced_text.
Qed.
End rounds.

(** * Appending *)

(** The output holds what it counts, and has grown by doubling. *)
Record tokens_ok (maximum : Z) (tokens : yvex_tokens) : Prop := TokensOk {
  tn_fits : tn_len tokens ≤ tn_cap tokens;
  tn_bound : tn_cap tokens ≤ maximum;
  tn_growth : tn_cap tokens ≤ 16 ∨ tn_cap tokens ≤ 2 * tn_len tokens;
}.

(** Why appending [n] tokens may be refused. *)
Definition append_refused (realloc : Z → bool) maximum tokens (n : nat) : Prop :=
  maximum < tn_len tokens + Z.of_nat n ∨ (∃ size, realloc size = false) ∨ 2 ^ 60 < tn_len tokens + Z.of_nat n.

Lemma encode_append_spec realloc maximum token_id tokens :
  is_u64 maximum → tokens_ok maximum tokens →
  (∃ cap, encode_append realloc maximum token_id tokens = Some (Done (Tokens (tn_ids tokens ++ [token_id]) cap)) ∧
     tokens_ok maximum (Tokens (tn_ids tokens ++ [token_id]) cap)) ∨
  (∃ st why, encode_append realloc maximum token_id tokens = Some (Refused st why) ∧
     append_refused realloc maximum tokens 1).
Proof.
  intros Hmax [Hf Hb Hg]. unfold encode_append, append_refused. change (2 ^ 60) with 1152921504606846976.
  assert (0 ≤ tn_len tokens) as H0 by (unfold tn_len; lia).
  assert (∀ cap, tn_len (Tokens (tn_ids tokens ++ [token_id]) cap) = tn_len tokens + 1) as Hlen
    by (intros cap; unfold tn_len; cbn; rewrite length_app; cbn; lia).
  destruct (Z.leb_spec maximum (tn_len tokens)); [right; do 2 eexists; split; [done|left; lia]|].
  destruct (Z.ltb_spec (tn_len tokens) (tn_cap tokens)).
  { left. eexists. split; [reflexivity|]. constructor; rewrite ?Hlen; cbn [tn_cap]; lia. }
  assert (tn_cap tokens = tn_len tokens) as Ecap by lia.
  set (doubled := if tn_cap tokens =? 0 then 16 else u64 (tn_cap tokens * 2)).
  assert (doubled ≤ 16 ∨ doubled ≤ 2 * tn_cap tokens) as Hd1.
  { unfold doubled. destruct (Z.eqb_spec (tn_cap tokens) 0); [by left|right]. unfold u64.
    pose proof (Z.mod_le (tn_cap tokens * 2) 18446744073709551616). lia. }
  assert (doubled ≤ tn_cap tokens → 9223372036854775808 ≤ tn_cap tokens) as Hd2.
  { unfold doubled. destruct (Z.eqb_spec (tn_cap tokens) 0); [lia|]. intros Hle.
    destruct (Z.lt_ge_cases (tn_cap tokens) 9223372036854775808); [|done]. rewrite u64_id in Hle by ulia. lia. }
  set (capacity := if maximum <? doubled then maximum else doubled).
  assert (capacity ≤ maximum ∧ capacity ≤ doubled ∧ (capacity = maximum ∨ capacity = doubled)) as Hcap.
  { unfold capacity. destruct (Z.ltb_spec maximum doubled); lia. }
  change (SIZE_MAX / 4) with 4611686018427387903.
  destruct (Z.leb_spec capacity (tn_cap tokens)); [right; do 2 eexists; split; [done|lia]|].
  destruct (Z.ltb_spec 4611686018427387903 capacity); [right; do 2 eexists; split; [done|lia]|].
  cbn [orb]. destruct (realloc (capacity * 4)) eqn:Er; cbn [negb]; [|right; do 2 eexists; split; [done|right; left; eauto]].
  left. eexists. split; [reflexivity|]. constructor; rewrite ?Hlen; cbn [tn_cap]; lia.
Qed.

Lemma append_all_spec realloc maximum symbols tokens :
  is_u64 maximum → tokens_ok maximum tokens →
  (∃ cap, for_each (encode_append realloc maximum) symbols tokens = Some (Done (Tokens (tn_ids tokens ++ symbols) cap)) ∧
     tokens_ok maximum (Tokens (tn_ids tokens ++ symbols) cap)) ∨
  (∃ st why, for_each (encode_append realloc maximum) symbols tokens = Some (Refused st why) ∧
     append_refused realloc maximum tokens (length symbols)).
Proof.
  intros Hmax. revert tokens. induction symbols as [|x symbols IH]; intros tokens Hok.
  { left. exists (tn_cap tokens). rewrite app_nil_r. by destruct tokens. }
  cbn [for_each]. destruct (encode_append_spec realloc maximum x tokens Hmax Hok) as [(cap & -> & Hok1)|(st & why & -> & Hr)];
    cbn [run_bind].
  - destruct (IH _ Hok1) as [(cap' & E & Hok2)|(st & why & E & Hr)]; cbn [tn_ids] in *;
      rewrite <- ?(assoc_L (++)) in E; cbn [app] in E.
    + left. exists cap'. split; [exact E|]. by rewrite <- (assoc_L (++)) in Hok2.
    + right. exists st, why. split; [exact E|]. unfold append_refused, tn_len in *. cbn [tn_ids] in Hr.
      rewrite length_app in Hr. cbn [length] in *. destruct Hr as [Hr|[Hr|Hr]]; [left; lia|right; by left|right; right; lia].
  - right. exists st, why. split; [done|]. unfold append_refused in *. cbn [length].
    destruct Hr as [Hr|[Hr|Hr]]; [left; lia|right; by left|right; right; lia].
Qed.

(** * A piece *)

(** The token of a byte. *)
Definition byte_unit (t : yvex_tokenizer) (b : Z) : Z := from_option id 0 (array_get (tz_byte_token_ids t) b).

Section piece.
Context (t : yvex_tokenizer) (rules : list merge_rule).
Context (Hwf : tokens_wf (tz_tokens t)) (Hv : vocabulary_ok t) (Hok : merges_ok t rules).

Lemma byte_unit_spec b :
  is_u8 b → array_get (tz_byte_token_ids t) b = Some (byte_unit t b) ∧ token_id t (byte_unit t b) ∧
  token_text (tz_tokens t) (byte_unit t b) = visible [b].
Proof.
  intros Hb. destruct (vo_bytes _ Hv b Hb) as (unit & E & Ep). unfold byte_unit. rewrite E. cbn [from_option id].
  apply text_position_token in Ep as (token & Et & Etext). split; [done|]. unfold token_text. rewrite Et. cbn. split; [|done].
  apply array_get_Some in Et as [Et _]. exact Et.
Qed.

Lemma byte_units_spec bytes :
  Forall is_u8 bytes →
  mapM (array_get (tz_byte_token_ids t)) bytes = Some (byte_unit t <$> bytes) ∧
  Forall (token_id t) (byte_unit t <$> bytes) ∧
  tokens_text (tz_tokens t) (byte_unit t <$> bytes) = visible bytes.
Proof.
  induction 1 as [|b bytes Hb Hbs (E & Hid & Etext)]; [done|]. destruct (byte_unit_spec b Hb) as (Eb & Hb' & Et).
  cbn [mapM fmap list_fmap]. rewrite Eb. cbn [mbind option_bind]. rewrite E. split; [done|]. split; [by constructor|].
  rewrite tokens_text_cons, Etext, Et. rewrite <- visible_app. done.
Qed.

(** A piece is refused only for want of memory or room; otherwise its tokens are its normal form. *)
Lemma bpe_piece_spec (P : Z → Prop) realloc malloc maximum bytes tokens :
  (∀ rule, rule ∈ rules → P (mr_left rule) → P (mr_right rule) → P (mr_merged rule)) → (∀ b, is_u8 b → P (byte_unit t b)) →
  is_u64 maximum → tokens_ok maximum tokens → Forall is_u8 bytes →
  (∃ symbols cap, bpe_piece realloc malloc t maximum bytes tokens = Some (Done (Tokens (tn_ids tokens ++ symbols) cap)) ∧
     tokens_ok maximum (Tokens (tn_ids tokens ++ symbols) cap) ∧
     rtc (bpe_step rules) (byte_unit t <$> bytes) symbols ∧ bpe_normal rules symbols ∧
     Forall (token_id t) symbols ∧ Forall P symbols ∧ (length symbols ≤ length bytes)%nat ∧
     tokens_text (tz_tokens t) symbols = visible bytes) ∨
  (∃ st why, bpe_piece realloc malloc t maximum bytes tokens = Some (Refused st why) ∧
     (append_refused realloc maximum tokens (length bytes) ∨ ∃ n, malloc n = false)).
Proof.
  intros HP1 HP2 Hmax Htok Hu. unfold bpe_piece. destruct (bool_decide (bytes = [])) eqn:Ee.
  { apply bool_decide_eq_true in Ee as ->. left. exists [], (tn_cap tokens). rewrite app_nil_r. destruct tokens as [ids cap].
    split_and!; [done|done| | |done..]; cbn; [done|]. apply Forall_forall. intros rule _ (before & after & E). by destruct before. }
  change (SIZE_MAX / 4) with 4611686018427387903.
  destruct (Z.ltb_spec 4611686018427387903 (Z.of_nat (length bytes))).
  { right. do 2 eexists. split; [done|]. left. unfold append_refused. change (2 ^ 60) with 1152921504606846976. unfold tn_len. lia. }
  destruct (malloc _) eqn:Em; cbn [negb]; [|right; do 2 eexists; split; [done|right; eauto]].
  destruct (byte_units_spec bytes Hu) as (-> & Hid & Etext). cbn [run_bind run_access].
  destruct (bpe_rounds_spec t rules Hwf Hok P (length (byte_unit t <$> bytes)) (byte_unit t <$> bytes))
    as (symbols & -> & Hrtc & Hn & Hids & HPs & Hlen & Htext); [done|done| |lia|].
  { apply Forall_fmap. eapply Forall_impl; [exact Hu|]. apply HP2. }
  cbn [run_bind run_access]. rewrite length_fmap in Hlen.
  destruct (append_all_spec realloc maximum symbols tokens Hmax Htok) as [(cap & -> & Hok')|(st & why & -> & Hr)].
  - left. exists symbols, cap. split_and!; [done..|]. by rewrite Htext, Etext.
  - right. exists st, why. split; [done|]. left. unfold append_refused in *.
    destruct Hr as [Hr|[Hr|Hr]]; [left; lia|right; by left|right; right; lia].
Qed.
End piece.
