(* ===== verification/TokenizerSeal.v ===== *)
(** Sealing the indexes of a tokenizer, the middle of [yvex_tokenizer_execution_seal] of
    [src/tokenizer/execution.c]: vocabulary, then merges, then added tokens, each over what the one before left. *)

From S2P Require Import Prelude Status Exec Sha256 Identity Gguf Utf8 HashIndex Vocabulary Merges AddedTokens Bpe.
#[local] Open Scope Z_scope.

(** What the allocator answers to the three builds. *)
Record seal_env := SealEnv { sv_calloc : Z → bool; sv_malloc : Z → bool }.

(** src/src/tokenizer/execution.c:755-759, [yvex_tokenizer_execution_seal] *)
Definition seal_indexes (env : seal_env) (gguf : yvex_gguf) (t : yvex_tokenizer) : run yvex_tokenizer :=
  let! t := vocabulary_build (sv_calloc env) t in
  let! t := merges_build (sv_calloc env) (sv_malloc env) gguf t in
  added_tokens_build (sv_malloc env) t.

(** The memory a tokenizer releases.
    src/src/tokenizer/execution.c, [yvex_tokenizer_execution_release] *)
Definition yvex_tokenizer_execution_release (t : yvex_tokenizer) : yvex_tokenizer :=
  t <| tz_vocab_index := [] |> <| tz_merge_index := [] |> <| tz_added_token_ids := [] |>
    <| tz_added_bucket_start := replicate 257 0 |>
    <| tz_plan := TokenizerPlan false false false 0 0 0 "" "" "" "" |>.

(** A tokenizer as it is loaded: identifiers are positions and texts are bytes. *)
Record tokenizer_loaded (t : yvex_tokenizer) (gguf : yvex_gguf) (rows : list yvex_gguf_value) : Prop := TokenizerLoaded {
  ld_tokens : tokens_wf (tz_tokens t);
  ld_texts : texts_bytes (tz_tokens t);
  ld_bytes : length (tz_byte_token_ids t) = 256%nat;
  ld_rows : yvex_gguf_metadata_find gguf (Some "tokenizer.ggml.merges"%string) = Some (ValueArray YVEX_GGUF_VALUE_STRING rows);
  ld_row_count : Z.of_nat (length rows) ≤ UINT32_MAX;
}.

(** What a vocabulary and its merge rows must satisfy. *)
Record tokenizer_admissible (t : yvex_tokenizer) (rows : list yvex_gguf_value) (rules : list merge_rule) : Prop :=
  TokenizerAdmissible {
    ad_distinct : NoDup (tk_text <$> tz_tokens t);
    ad_bytes : bytes_present (tz_tokens t);
    ad_rules : mapM (row_rule (tz_tokens t)) rows = Some rules;
    ad_pairs : NoDup (rule_pair <$> rules);
    ad_merge_count : Z.of_nat (length rows) = fp_merge_count (tz_policy t);
    ad_added_count : Z.of_nat (length (added_positions (tz_tokens t))) = fp_added_token_count (tz_policy t);
  }.

(** ** The builds do not disturb each other *)

Lemma vocabulary_ok_same t t' : vocabulary_ok t → same_vocabulary t t' → vocabulary_ok t'.
Proof.
  intros [Hi Hr Hc Hb] ((Et & _) & Ev & Eb). constructor; rewrite ?Et, ?Ev, ?Eb; done.
Qed.

Lemma merges_ok_same t t' rules :
  merges_ok t rules → tz_tokens t' = tz_tokens t → tz_merge_index t' = tz_merge_index t → merges_ok t' rules.
Proof. intros [Ht Hc Hr Ho Hp] Et Em. constructor; rewrite ?Et, ?Em; done. Qed.

Lemma vocabulary_ok_exact t :
  tokens_wf (tz_tokens t) → vocabulary_ok t → vocabulary_exact t.
Proof.
  intros Hwf Hv. pose proof (ix_nodup _ _ _ (vo_index _ Hv)) as Hnd. rewrite firstn_all in Hnd.
  split_and!; [done..|]. intros data. by apply vocab_lookup_spec; [|apply Hv..].
Qed.

(** What sealing leaves behind. *)
Record indexes_sealed (t t' : yvex_tokenizer) (rows : list yvex_gguf_value) (rules : list merge_rule) : Prop :=
  IndexesSealed {
    sl_source : same_source t t';
    sl_admissible : tokenizer_admissible t rows rules;
    sl_vocabulary : vocabulary_ok t';
    sl_merges : merges_ok t' rules;
    sl_inside : added_inside t';
    sl_added : added_named (tz_tokens t) → added_ok t';
  }.

Lemma seal_indexes_sound env gguf t t' rows :
  tokenizer_loaded t gguf rows → seal_indexes env gguf t = Some (Done t') → ∃ rules, indexes_sealed t t' rows rules.
Proof.
  intros [Hwf Hx Hb Hrows Hcount]. unfold seal_indexes.
  intros (t1 & E1 & (t2 & E2 & E3)%run_bind_inv)%run_bind_inv.
  destruct (vocabulary_build_exact (sv_calloc env) t Hwf Hb) as (_ & H1 & _).
  destruct (H1 t1 E1) as (Hnd & Hbytes & Hv1 & Hs1 & _). pose proof Hs1 as (Et1 & Ep1 & Hspecial).
  assert (tokens_wf (tz_tokens t1)) as Hwf1 by by rewrite Et1.
  destruct (merges_build_exact (sv_calloc env) (sv_malloc env) gguf t1 rows (vocabulary_ok_exact t1 Hwf1 Hv1) Hcount Hrows) as (_ & H2 & _).
  destruct (H2 t2 E2) as (rules & Hrules & Hm2 & Hmc & Hs2 & _). pose proof Hs2 as ((Et2 & Ep2 & Hspecial2) & _).
  assert (tz_tokens t2 = tz_tokens t) as Et by congruence.
  destruct (added_tokens_exact (sv_malloc env) t2) as (_ & H3 & _); [by rewrite Et..|].
  destruct (H3 t' E3) as (Hs3 & Em3 & Hin3 & Ha3 & Hac & _). pose proof Hs3 as ((Et3 & Ep3 & Hspecial3) & _).
  exists rules. constructor.
  - repeat split; try congruence; naive_solver congruence.
  - rewrite Et1, Ep1 in *. rewrite Et2, Ep2 in Hac. constructor; try done. by eapply (mo_pairs _ _ Hm2).
  - eapply vocabulary_ok_same; [|exact Hs3]. by eapply vocabulary_ok_same.
  - by eapply merges_ok_same.
  - done.
  - by rewrite <- Et.
Qed.

(** The sizes the hashes admit. *)
Definition seal_sizes (t : yvex_tokenizer) (rows : list yvex_gguf_value) : Prop :=
  fields_size (vocabulary_fields (tz_tokens t)) ≤ ULLONG_MAX / 8 ∧ fields_size (merges_fields rows) ≤ ULLONG_MAX / 8 ∧
  fields_size (FText "yvex.tokenizer.added.v1" :: mjoin (added_fields_of (tz_tokens t) <$> added_positions (tz_tokens t)))
    ≤ ULLONG_MAX / 8.

Lemma seal_indexes_complete env gguf t rows :
  tokenizer_loaded t gguf rows →
  is_Some (seal_indexes env gguf t) ∧
  (∀ rules, (∀ n, sv_calloc env n = true) → (∀ n, sv_malloc env n = true) → seal_sizes t rows →
     tokenizer_admissible t rows rules → ∃ t', seal_indexes env gguf t = Some (Done t')).
Proof.
  intros [Hwf Hx Hb Hrows Hcount]. unfold seal_indexes.
  destruct (vocabulary_build_exact (sv_calloc env) t Hwf Hb) as ([o1 E1] & H1 & C1). rewrite E1.
  destruct o1 as [t1|st why]; cbn [run_bind].
  2: { split; [by eexists|]. intros rules Hca _ (Hsize & _) Had. destruct Had as [Had1 Had2 _ _ _ _].
       destruct (C1 Hca Hsize Had1 Had2) as [t' E]. congruence. }
  destruct (H1 t1 E1) as (Hnd & Hbytes & Hv1 & (Et1 & Ep1 & _) & _).
  assert (tokens_wf (tz_tokens t1)) as Hwf1 by by rewrite Et1.
  destruct (merges_build_exact (sv_calloc env) (sv_malloc env) gguf t1 rows (vocabulary_ok_exact t1 Hwf1 Hv1) Hcount Hrows)
    as ([o2 E2] & H2 & C2). rewrite E2.
  destruct o2 as [t2|st why]; cbn [run_bind].
  2: { split; [by eexists|]. intros rules Hca Hma (_ & Hsize & _) Had. destruct Had as [_ _ Had3 Had4 Had5 _].
       rewrite Et1, Ep1 in C2. destruct (C2 rules Hca Hma Hsize Had5 Had3 Had4) as [t' E]. congruence. }
  destruct (H2 t2 E2) as (rules2 & _ & _ & _ & ((Et2 & Ep2 & _) & _) & _).
  assert (tz_tokens t2 = tz_tokens t) as Et by congruence. assert (tz_policy t2 = tz_policy t) as Ep by congruence.
  destruct (added_tokens_exact (sv_malloc env) t2) as (Hs3 & _ & C3); [by rewrite Et..|].
  split; [done|]. intros rules _ Hma (_ & _ & Hsize) Had. destruct Had as [_ _ _ _ _ Had6].
  rewrite Et, Ep in C3. exact (C3 Hma Hsize Had6).
Qed.

(** C17: sealing a tokenizer. For a loaded vocabulary and the merge rows of its container, sealing never reads
    outside an array. It succeeds (given memory, and sizes the hashes admit) exactly when the vocabulary is
    admissible: distinct texts, a token for every byte, merge rows that each join two tokens into a third
    with no pair twice, and the counts of the policy. Its indexes are then exact: the vocabulary answers
    every text as a search through the tokens, the merge index finds the row of two tokens and its rank
    exactly when there is one, and a look at any offset stays inside the arrays and answers an added token that
    may be taken there: the longest, whenever no added token has an empty text. Nothing checks that condition
    ([added_empty_text_hides]), so it is a hypothesis of the last clause. *)
Theorem tokenizer_seal_exact env gguf t rows :
  tokenizer_loaded t gguf rows →
  is_Some (seal_indexes env gguf t) ∧
  (∀ rules, (∀ n, sv_calloc env n = true) → (∀ n, sv_malloc env n = true) → seal_sizes t rows →
     tokenizer_admissible t rows rules → ∃ t', seal_indexes env gguf t = Some (Done t')) ∧
  (∀ t', seal_indexes env gguf t = Some (Done t') →
     same_source t t' ∧
     (∀ data, vocab_lookup t' data = Some (text_position (tz_tokens t) data)) ∧
     ∃ rules, tokenizer_admissible t rows rules ∧
     (∀ left right, is_u32 left → is_u32 right →
        merge_lookup t' left right = Some ((λ found, rule_slot found.1 found.2) <$> rule_of rules left right)) ∧
     (∀ bytes offset allow_special, Forall is_u8 bytes → 0 ≤ offset →
        ∃ answer, added_at t' bytes offset allow_special = Some answer ∧
          taken_added (tz_tokens t) allow_special (drop (Z.to_nat offset) bytes) answer ∧
          (added_named (tz_tokens t) →
           longest_added (tz_tokens t) allow_special (drop (Z.to_nat offset) bytes) answer))).
Proof.
  intros Hl. destruct (seal_indexes_complete env gguf t rows Hl) as [Hsome Hcomplete]. split_and!; [done..|].
  intros t' E. destruct (seal_indexes_sound env gguf t t' rows Hl E) as (rules & [Hs Ha Hv Hm Hin Had]).
  pose proof Hs as (Et & _). pose proof (ld_tokens _ _ _ Hl) as Hwf. rewrite <- Et in Hwf. split; [done|]. split.
  - intros data. rewrite <- Et. by apply (vocabulary_ok_exact t' Hwf Hv).
  - exists rules. split; [done|]. split.
    + intros left_id right_id. by apply merge_lookup_spec.
    + intros bytes offset allow_special Hu Ho. rewrite <- Et.
      destruct (added_at_inside t' bytes offset allow_special Hin Hu Ho) as (answer & E1 & Ht). exists answer.
      split; [done|]. split; [done|]. rewrite Et. intros Hn.
      destruct (added_at_spec t' bytes offset allow_special (Had Hn)) as (answer' & E2 & Hlong); [|done..|].
      { rewrite Et. constructor; [apply Hl|done]. }
      rewrite Et in Hlong. by assert (answer' = answer) as -> by congruence.
Qed.

(** ** A small tokenizer *)

Definition sample_texts : list (list Z * Z) :=
  ((λ b, (visible [b], YVEX_TOKEN_TYPE_NORMAL)) <$> seqZ 0 256) ++
  [(cstr "ab", YVEX_TOKEN_TYPE_NORMAL); (cstr "abc", YVEX_TOKEN_TYPE_NORMAL);
   (cstr "<s>", YVEX_TOKEN_TYPE_CONTROL); (cstr "<s>a", YVEX_TOKEN_TYPE_USER_DEFINED)].

Definition sample_tokens : list yvex_token_info :=
  imap (λ i text, TokenInfo (Z.of_nat i) text.1 text.2) sample_texts.

Definition sample_rows : list yvex_gguf_value := [ValueString (cstr "a b"); ValueString (cstr "ab c")].

Definition sample_container : yvex_gguf :=
  Gguf (GgufHeader 3 1 0) [MetadataEntry (cstr "tokenizer.ggml.merges") (ValueArray YVEX_GGUF_VALUE_STRING sample_rows)]
    [] [1; 0] [] 0 32 (ReaderStats 0 0 0 0 0 0 0 0).

Definition sample_tokenizer : yvex_tokenizer := blank_tokenizer sample_tokens 2 2.

Definition generous : seal_env := SealEnv (λ _, true) (λ _, true).

Lemma sample_loaded : tokenizer_loaded sample_tokenizer sample_container sample_rows.
Proof.
  constructor.
  - constructor.
    + intros i token. cbn [tz_tokens sample_tokenizer blank_tokenizer]. unfold sample_tokens. rewrite list_lookup_imap.
      destruct (sample_texts !! i); [|done]. by intros [= <-].
    + vm_compute. discriminate.
    + apply Forall_forall. intros token Hin. assert (forallb (λ token, (1 <=? tk_type token) && (tk_type token <=? 6)) sample_tokens = true) as H
        by (vm_compute; reflexivity).
      rewrite forallb_forall in H. apply list_elem_of_In, H in Hin. guards. lia.
  - apply Forall_forall. intros token Hin. assert (forallb (λ token, forallb (λ b, (0 <=? b) && (b <? 256)) (tk_text token)) sample_tokens = true) as H
        by (vm_compute; reflexivity).
      rewrite forallb_forall in H. apply list_elem_of_In, H in Hin. rewrite forallb_forall in Hin.
      apply Forall_forall. intros b Hb%list_elem_of_In%Hin. guards. split; lia.
  - vm_compute. reflexivity.
  - vm_compute. reflexivity.
  - vm_compute. discriminate.
Qed.

Lemma sample_named : added_named sample_tokens.
Proof.
  apply Forall_forall. intros token Hin Ha Ht. assert (forallb (λ token, negb (is_added token && (text_len token =? 0))) sample_tokens = true) as H
        by (vm_compute; reflexivity).
      rewrite forallb_forall in H. apply list_elem_of_In, H in Hin. rewrite Ha in Hin. unfold text_len in Hin. by rewrite Ht in Hin.
Qed.

Definition sample_rules : list merge_rule := [MergeRule 97 98 256; MergeRule 256 99 257].

Lemma sample_admissible : tokenizer_admissible sample_tokenizer sample_rows sample_rules ∧ seal_sizes sample_tokenizer sample_rows.
Proof.
  split; [constructor|split; [|split]].
  - apply (bool_decide_eq_true_1 (NoDup (tk_text <$> sample_tokens))). vm_compute. reflexivity.
  - intros b Hb. change (tz_tokens sample_tokenizer) with sample_tokens.
    destruct (text_position sample_tokens (visible [b])) as [id|] eqn:E; [by exists id|exfalso].
    assert ((if text_position sample_tokens (visible [b]) then true else false) = true) as H; [|by rewrite E in H].
    apply (byte_forall (λ b, if text_position sample_tokens (visible [b]) then true else false)); [vm_compute; reflexivity|done].
  - vm_compute. reflexivity.
  - apply (bool_decide_eq_true_1 (NoDup (rule_pair <$> sample_rules))). vm_compute. reflexivity.
  - vm_compute. reflexivity.
  - vm_compute. reflexivity.
  - vm_compute. discriminate.
  - vm_compute. discriminate.
  - vm_compute. discriminate.
Qed.

Lemma tokenizer_seal_exact_witness :
  tokenizer_loaded sample_tokenizer sample_container sample_rows ∧
  ∃ t', seal_indexes generous sample_container sample_tokenizer = Some (Done t') ∧
    vocab_lookup t' (cstr "abc") = Some (Some 257) ∧ vocab_lookup t' (cstr "zz") = Some None.
Proof.
  split; [apply sample_loaded|].
  destruct (tokenizer_seal_exact generous sample_container sample_tokenizer sample_rows sample_loaded) as (_ & Hc & H).
  destruct sample_admissible as [Ha Hs]. destruct (Hc sample_rules (λ _, eq_refl) (λ _, eq_refl) Hs Ha) as [t' E].
  exists t'. destruct (H t' E) as (_ & Hv & _). split; [exact E|]. split.
  - etrans; [apply Hv|]. vm_compute. reflexivity.
  - etrans; [apply Hv|]. vm_compute. reflexivity.
Defined.

(** The sample tokenizer can be sealed. *)
Lemma sample_sealed :
  ∃ t', seal_indexes generous sample_container sample_tokenizer = Some (Done t') ∧
    indexes_sealed sample_tokenizer t' sample_rows sample_rules.
Proof.
  destruct (seal_indexes_complete generous sample_container sample_tokenizer sample_rows sample_loaded) as [_ Hc].
  destruct sample_admissible as [Ha Hs]. destruct (Hc sample_rules (λ _, eq_refl) (λ _, eq_refl) Hs Ha) as [t' E].
  exists t'. split; [exact E|]. destruct (seal_indexes_sound _ _ _ _ _ sample_loaded E) as (rules & [H1 H2 H3 H4 H5]).
  assert (rules = sample_rules) as -> by (pose proof (ad_rules _ _ _ H2); pose proof (ad_rules _ _ _ Ha); congruence).
  by constructor.
Qed.

(** C16: byte-pair encoding computes normal forms. For a sealed vocabulary and merge table, encoding a piece ends
    without reading outside an array; unless memory or the admitted number of tokens runs out, it appends the
    normal form of the tokens of the bytes: the list reached by repeatedly applying, everywhere from left to
    right, the applicable rule of the lowest rank, until none applies. That list is the only one of its kind,
    is no longer than the piece, and its texts spell the piece in visible form. *)
Theorem bpe_piece_normal_form t rules realloc malloc maximum bytes tokens :
  tokens_wf (tz_tokens t) → vocabulary_ok t → merges_ok t rules →
  is_u64 maximum → tokens_ok maximum tokens → Forall is_u8 bytes →
  is_Some (bpe_piece realloc malloc t maximum bytes tokens) ∧
  (∀ tokens', bpe_piece realloc malloc t maximum bytes tokens = Some (Done tokens') →
     ∃ symbols, tn_ids tokens' = tn_ids tokens ++ symbols ∧ tn_len tokens' ≤ maximum ∧
       rtc (bpe_step rules) (byte_unit t <$> bytes) symbols ∧ bpe_normal rules symbols ∧
       (∀ other, rtc (bpe_step rules) (byte_unit t <$> bytes) other → bpe_normal rules other → other = symbols) ∧
       (length symbols ≤ length bytes)%nat ∧ tokens_text (tz_tokens t) symbols = visible bytes) ∧
  ((∀ n, realloc n = true) → (∀ n, malloc n = true) →
   tn_len tokens + Z.of_nat (length bytes) ≤ maximum → tn_len tokens + Z.of_nat (length bytes) ≤ 2 ^ 60 →
   ∃ tokens', bpe_piece realloc malloc t maximum bytes tokens = Some (Done tokens')).
Proof.
  intros Hwf Hv Hok Hmax Htok Hu.
  destruct (bpe_piece_spec t rules Hwf Hv Hok (λ _, True) realloc malloc maximum bytes tokens)
    as [(symbols & cap & -> & [Hf Hb _] & Hrtc & Hn & _ & _ & Hlen & Htext)|(st & why & -> & Hr)]; try done.
  - split_and!; [by eexists| |by eexists]. intros tokens' [= <-]. exists symbols. split_and!; [done| |done..| |done|done].
    + cbn [tn_cap] in *. lia.
    + intros other Ho Hno. by eapply bpe_normal_form_unique.
  - split_and!; [by eexists|done|]. intros Hre Hma Hroom Hbig. exfalso.
    destruct Hr as [[Hr|[[n Hr]|Hr]]|[n Hr]]; [lia|by rewrite Hre in Hr|lia|by rewrite Hma in Hr].
Qed.

Lemma bpe_piece_normal_form_witness :
  ∃ t tokens', bpe_piece (λ _, true) (λ _, true) t 100 (cstr "cab") (Tokens [] 0) = Some (Done tokens') ∧
    tokens_text sample_tokens (tn_ids tokens') = cstr "cab".
Proof.
  destruct sample_sealed as (t' & _ & [Hsource Had Hv Hm Ha]). exists t'. destruct Hsource as (Et & _).
  pose proof (ld_tokens _ _ _ sample_loaded) as Hwf.
  assert (tz_tokens t' = sample_tokens) as Etok by exact Et. change (tz_tokens sample_tokenizer) with sample_tokens in Hwf.
  rewrite <- Etok in Hwf.
  destruct (bpe_piece_normal_form t' sample_rules (λ _, true) (λ _, true) 100 (cstr "cab") (Tokens [] 0) Hwf Hv Hm) as (_ & H & Hex).
  - done.
  - constructor; unfold tn_len; cbn; lia.
  - apply cstr_range.
  - destruct Hex as [tokens' E]; [done|done|vm_compute; discriminate|vm_compute; discriminate|].
    exists tokens'. split; [exact E|]. destruct (H tokens' E) as (symbols & Es & _ & _ & _ & _ & _ & Htext).
    rewrite Es. cbn [tn_ids app]. rewrite <- Etok. etrans; [exact Htext|]. vm_compute. reflexivity.
Defined.
