(* ===== verification/TokenizerEncode.v ===== *)
(** Encoding a text, [yvex_tokenizer_encode] of [src/tokenizer/execution.c]: canonical composition where the policy
    asks for it, then added tokens wherever they are found and byte-pair encoded pieces in between. *)

From S2P Require Import Prelude Status Exec Sha256 Identity Gguf Utf8 Pretokenizer Normalization HashIndex.
From S2P Require Import Vocabulary Merges AddedTokens Bpe.
#[local] Open Scope Z_scope.

(** * Operations *)

(** src/include/yvex/tokenizer.h, [yvex_tokenizer_encode_options] *)
Record encode_options := EncodeOptions {
  eo_add_bos : bool;
  eo_add_eos : bool;
  eo_allow_special_tokens : bool;
  eo_maximum_tokens : Z;
}.

(** src/include/yvex/tokenizer.h, [yvex_tokenizer_encode_result] *)
Record encode_result := EncodeResult {
  er_tokens : yvex_tokens;
  er_input_bytes : Z;
  er_added_token_matches : Z;
  er_bos_inserted : bool;
  er_eos_inserted : bool;
  er_input_identity : string;
  er_token_ids_identity : string;
  er_tokenizer_plan_identity : string;
  er_encoding_identity : string;
}.

(** What the environment answers: whether memory of a size can be had, anew or grown, and whether the caller gave an
    error object. *)
Record encode_env := EncodeEnv { ev_realloc : Z → bool; ev_malloc : Z → bool; ev_err : bool }.

Definition is_qwen2 (t : yvex_tokenizer) : bool := String.eqb (fp_tokenizer_pre (tz_policy t)) "qwen2".

(** src/src/tokenizer/execution.c, [ordinary_encode] *)
Definition ordinary_encode (env : encode_env) (t : yvex_tokenizer) (maximum : Z) (bytes : list Z)
    (tokens : yvex_tokens) : run yvex_tokens :=
  ordinary_encode_loop (bpe_piece (ev_realloc env) (ev_malloc env) t maximum) (length bytes) bytes 0 (is_qwen2 t) tokens.

Definition span (bytes : list Z) (from to : Z) : list Z := take (Z.to_nat (to - from)) (drop (Z.to_nat from) bytes).

(** src/src/tokenizer/execution.c:1303-1320, [yvex_tokenizer_encode] *)
Fixpoint encode_spans (env : encode_env) (t : yvex_tokenizer) (allow_special : bool) (maximum : Z) (fuel : nat)
    (bytes : list Z) (offset : Z) (s : yvex_tokens * Z) : run (yvex_tokens * Z) :=
  if offset <? Z.of_nat (length bytes) then
    match fuel with
    | O => None
    | S fuel =>
        let '(tokens, matches) := s in
        let! found := run_access (added_at t bytes offset allow_special) in
        match found with
        | Some (added_id, matched) =>
            let! tokens := encode_append (ev_realloc env) maximum added_id tokens in
            encode_spans env t allow_special maximum fuel bytes (offset + matched) (tokens, u64 (matches + 1))
        | None =>
            let! end_ := run_access (next_added_offset (length bytes) t bytes (offset + 1) allow_special) in
            let! tokens := ordinary_encode env t maximum (span bytes offset end_) tokens in
            encode_spans env t allow_special maximum fuel bytes end_ (tokens, matches)
        end
    end
  else run_ret s.

(** Insert a special token when it is asked for.
    src/src/tokenizer/execution.c:1295-1302, [yvex_tokenizer_encode] *)
Definition insert_special (env : encode_env) (maximum : Z) (asked : bool) (special : tokenizer_special_id)
    (tokens : yvex_tokens) : run yvex_tokens :=
  if asked then
    refuse_when (negb (sp_present special)) with YVEX_ERR_UNSUPPORTED "";
    encode_append (ev_realloc env) maximum (sp_id special) tokens
  else run_ret tokens.

(** src/src/tokenizer/execution.c, [bytes_identity] *)
Definition bytes_identity (domain : string) (data : list Z) : option string :=
  sha256_identity [FText domain; FBytes data].

Definition token_ids_fields (ids : list Z) : list field :=
  FText "yvex.tokenizer.token-ids.v1" :: FU64Be (Z.of_nat (length ids)) :: (FU64Be <$> ids).

Definition flag (b : bool) : Z := if b then 1 else 0.

(** src/src/tokenizer/execution.c, [encoding_identity_build] *)
Definition encoding_identity_build (t : yvex_tokenizer) (result : encode_result) : option encode_result :=
  token_ids ← sha256_identity (token_ids_fields (tn_ids (er_tokens result)));
  encoding ← sha256_identity
    [FText "yvex.tokenizer.encoding.v1"; FText (tp_tokenizer_plan_identity (tz_plan t));
     FText (er_input_identity result); FText token_ids; FU64Be (er_input_bytes result);
     FU64Be (er_added_token_matches result); FU64Be (flag (er_bos_inserted result));
     FU64Be (flag (er_eos_inserted result))];
  Some (EncodeResult (er_tokens result) (er_input_bytes result) (er_added_token_matches result)
    (er_bos_inserted result) (er_eos_inserted result) (er_input_identity result) token_ids
    (er_tokenizer_plan_identity result) encoding).

(** The result, once its input is admitted; a null [options] is [None].
    src/src/tokenizer/execution.c, [yvex_tokenizer_encode] *)
Definition yvex_tokenizer_encode (env : encode_env) (t : yvex_tokenizer) (bytes : list Z)
    (options : option encode_options) : run encode_result :=
  let maximum := match options with
                 | Some o => if eo_maximum_tokens o =? 0 then ULLONG_MAX else eo_maximum_tokens o
                 | None => ULLONG_MAX
                 end in
  let allow_special := match options with Some o => eo_allow_special_tokens o | None => true end in
  let add_bos := match options with Some o => eo_add_bos o | None => false end in
  let add_eos := match options with Some o => eo_add_eos o | None => false end in
  refuse_when (negb (tp_sealed (tz_plan t))) with YVEX_ERR_STATE "tokenizer execution policy is not sealed";
  refuse_when ((add_bos && negb (tp_add_bos_token (tz_plan t))) || (add_eos && negb (tp_add_eos_token (tz_plan t))))
    with YVEX_ERR_UNSUPPORTED "requested BOS/EOS insertion is not admitted by the tokenizer policy";
  refuse_when (negb (utf8_validate bytes)) with YVEX_ERR_FORMAT "input is not canonical UTF-8";
  let normalized := if is_qwen2 t
                    then yvex_tokenizer_nfc_normalize (ev_err env) (ev_realloc env) (ev_malloc env) bytes
                    else Done bytes in
  match bytes_identity "yvex.tokenizer.input.v1" bytes with
  | None => run_refuse YVEX_ERR_STATE ""
  | Some input_identity =>
      let! normalized := Some normalized in
      let! tokens := insert_special env maximum add_bos (tz_bos t) (Tokens [] 0) in
      let! (tokens, matches) := encode_spans env t allow_special maximum (length normalized) normalized 0 (tokens, 0) in
      let! tokens := insert_special env maximum add_eos (tz_eos t) tokens in
      match encoding_identity_build t
              (EncodeResult tokens (Z.of_nat (length bytes)) matches add_bos add_eos input_identity ""
                 (tp_tokenizer_plan_identity (tz_plan t)) "") with
      | None => run_refuse YVEX_ERR_STATE "encoding identity failed"
      | Some result => run_ret result
      end
  end.

(** * Identities of the results *)

Lemma token_ids_fields_size ids : fields_size (token_ids_fields ids) ≤ 128 + 8 * Z.of_nat (length ids).
Proof.
  unfold token_ids_fields. cbn [fields_size foldr field_size]. strlen_literals.
  assert (foldr (λ f n, field_size f + n) 0 (FU64Be <$> ids) = 8 * Z.of_nat (length ids)) as ->; [|lia].
  induction ids as [|id ids IH]; [done|]. cbn [fmap list_fmap foldr field_size length]. rewrite IH. lia.
Qed.

Lemma bytes_identity_total domain data :
  strlen domain ≤ 64 → Z.of_nat (length data) ≤ 2 ^ 56 →
  ∃ id, bytes_identity domain data = Some id ∧ strlen id = 64.
Proof.
  intros Hd Hl. apply sha256_identity_total. cbn [fields_size foldr field_size].
  change (ULLONG_MAX / 8) with 2305843009213693951. change (2 ^ 56) with 72057594037927936 in Hl. lia.
Qed.

Lemma encoding_identity_total t result :
  strlen (tp_tokenizer_plan_identity (tz_plan t)) ≤ 64 → strlen (er_input_identity result) = 64 →
  tn_len (er_tokens result) ≤ 2 ^ 56 →
  ∃ result', encoding_identity_build t result = Some result' ∧ er_tokens result' = er_tokens result.
Proof.
  intros Hp Hi Hl. unfold encoding_identity_build. unfold tn_len in Hl. change (2 ^ 56) with 72057594037927936 in Hl.
  destruct (sha256_identity_total (token_ids_fields (tn_ids (er_tokens result)))) as (ids & -> & Hids).
  { pose proof (token_ids_fields_size (tn_ids (er_tokens result))). change (ULLONG_MAX / 8) with 2305843009213693951. lia. }
  cbn [mbind option_bind]. match goal with |- context [sha256_identity ?l] => destruct (sha256_identity_total l) as (id & -> & _) end.
  { cbn [fields_size foldr field_size]. strlen_literals. change (ULLONG_MAX / 8) with 2305843009213693951. lia. }
  cbn [mbind option_bind]. eexists. split; [reflexivity|done].
Qed.

Lemma encoding_identity_tokens t result result' :
  encoding_identity_build t result = Some result' →
  er_tokens result' = er_tokens result ∧ er_added_token_matches result' = er_added_token_matches result.
Proof.
  unfold encoding_identity_build. destruct (sha256_identity _); [|done]. cbn [mbind option_bind].
  destruct (sha256_identity _); [|done]. by intros [= <-].
Qed.
