(* ===== verification/TokenizerDecode.v ===== *)
(** Decoding token identifiers into bytes, [yvex_tokenizer_decode] of [src/tokenizer/decode.c], and the
    classification of tokens. *)

From S2P Require Import Prelude Status Exec Sha256 Identity Gguf Utf8 HashIndex Vocabulary Merges AddedTokens.
From S2P Require Import Bpe TokenizerEncode.
#[local] Open Scope Z_scope.

(** * Tokens *)

(** src/include/yvex/tokenizer.h, [yvex_tokenizer_token_classification] *)
Record token_classification := TokenClassification {
  tc_token_id : Z;
  tc_special : bool;
  tc_eos : bool;
  tc_pad : bool;
  tc_unknown : bool;
  tc_stop : bool;
  tc_suppressed_by_default : bool;
}.

Definition is_special_id (special : tokenizer_special_id) (id : Z) : bool := sp_present special && (id =? sp_id special).

(** src/src/tokenizer/decode.c, [yvex_tokenizer_token_classify] *)
Definition yvex_tokenizer_token_classify (t : yvex_tokenizer) (token_id : Z) : run token_classification :=
  refuse_when (vocab_size t <=? token_id) with YVEX_ERR_BOUNDS "token ID is outside vocabulary";
  let! token := run_access (array_get (tz_tokens t) token_id) in
  let eos := is_special_id (tz_eos t) token_id in
  run_ret (TokenClassification token_id (is_control token) eos (is_special_id (tz_pad t) token_id)
             (is_special_id (tz_unk t) token_id) eos (is_control token)).

(** The bytes a vocabulary text spells, if it spells any.
    src/src/tokenizer/decode.c:139-151, [tokenizer_piece_decode] *)
Fixpoint visible_decode (fuel : nat) (text : list Z) (offset : Z) (output : list Z) : option (list Z) :=
  if offset <? Z.of_nat (length text) then
    match fuel with
    | O => None
    | S fuel =>
        '(point, offset) ← yvex_tokenizer_utf8_next text offset;
        byte ← codepoint_byte point;
        visible_decode fuel text offset (output ++ [byte])
    end
  else Some output.

(** The bytes of a token, and whether it was suppressed. [malloc] answers whether that many bytes can be had.
    src/src/tokenizer/decode.c, [tokenizer_piece_decode] *)
Definition tokenizer_piece_decode (malloc : Z → bool) (t : yvex_tokenizer) (token_id : Z) (skip_special : bool)
    : run (list Z * bool) :=
  refuse_when (vocab_size t <=? token_id) with YVEX_ERR_BOUNDS "valid tokenizer, outputs, and token ID are required";
  let! token := run_access (array_get (tz_tokens t) token_id) in
  if skip_special && is_control token then run_ret ([], true)
  else
    refuse_when (negb (malloc (if text_len token =? 0 then 1 else text_len token)))
      with YVEX_ERR_NOMEM "piece allocation failed";
    if is_added token then run_ret (tk_text token, false)
    else
      match visible_decode (length (tk_text token)) (tk_text token) 0 [] with
      | Some output => run_ret (output, false)
      | None => run_refuse YVEX_ERR_FORMAT "vocabulary piece is not canonical ByteLevel text"
      end.

(** * Batches *)

(** src/src/tokenizer/decode.c, [decode_builder] *)
Record decode_builder := DecodeBuilder { db_data : list Z; db_capacity : Z }.

Definition db_count (builder : decode_builder) : Z := Z.of_nat (length (db_data builder)).

(** Sixty-four doublings pass every 64-bit extent.
    src/src/tokenizer/decode.c:171-175, [decode_reserve] *)
Fixpoint decode_grow (fuel : nat) (capacity need : Z) : outcome Z :=
  if capacity <? need then
    match fuel with
    | O => Refused YVEX_ERR_NOMEM ""
    | S fuel =>
        if ULLONG_MAX / 2 <? capacity then Refused YVEX_ERR_NOMEM ""
        else decode_grow fuel (capacity * 2) need
    end
  else Done capacity.

(** src/src/tokenizer/decode.c, [decode_reserve] *)
Definition decode_reserve (realloc : Z → bool) (builder : decode_builder) (add : Z) : outcome decode_builder :=
  if ULLONG_MAX - add <? db_count builder then Refused YVEX_ERR_BOUNDS "decoded extent overflow"
  else
    let need := db_count builder + add in
    if need <=? db_capacity builder then Done builder
    else
      capacity ← decode_grow 64 (if db_capacity builder =? 0 then 128 else db_capacity builder) need;
      if realloc capacity then Done (DecodeBuilder (db_data builder) capacity)
      else Refused YVEX_ERR_NOMEM "decoded buffer allocation failed".

(** src/src/tokenizer/decode.c, [decode_append] *)
Definition decode_append (realloc : Z → bool) (builder : decode_builder) (bytes : list Z) : outcome decode_builder :=
  builder ← decode_reserve realloc builder (Z.of_nat (length bytes));
  Done (DecodeBuilder (db_data builder ++ bytes) (db_capacity builder)).

(** The callback is polled before every token: [do_cancelled i] is its answer to the poll before token [i].
    src/include/yvex/tokenizer.h, [yvex_tokenizer_decode_options] *)
Record decode_options := DecodeOptions {
  do_skip_special_tokens : bool;
  do_require_complete_utf8 : bool;
  do_cancelled : nat → bool;
}.

(** src/include/yvex/tokenizer.h, [yvex_tokenizer_decode_result] *)
Record decode_result := DecodeResult {
  dr_bytes : list Z;
  dr_token_count : Z;
  dr_suppressed_special_count : Z;
  dr_token_ids_identity : string;
  dr_decoded_bytes_identity : string;
  dr_decoder_identity : string;
}.

(** Hash by the cryptographic library of the system when it is there, by our own otherwise. The library is an
    answer of the environment; a null [data] is [None].
    src/src/artifact/identity.c, [yvex_artifact_sha256_hex_bytes] *)
Definition yvex_artifact_sha256_hex_bytes (provider : option (list Z → option (list Z))) (data : option (list Z))
    : outcome string :=
  match data with
  | None => Refused YVEX_ERR_INVALID_ARG "data and out_hex are required"
  | Some data =>
      let digest := match provider with
                    | Some digest => digest data
                    | None =>
                        hash ← yvex_sha256_update yvex_sha256_init data;
                        '(_, digest) ← yvex_sha256_final hash;
                        Some digest
                    end in
      match digest with
      | Some digest => Done (yvex_sha256_hex digest)
      | None => Refused YVEX_ERR_BOUNDS "input length exceeds SHA-256 addressable bounds"
      end
  end.

(** A buffer never reserved is a null pointer.
    src/src/tokenizer/decode.c, [decode_identities] *)
Definition decode_identities (provider : option (list Z → option (list Z))) (t : yvex_tokenizer) (ids : list Z)
    (builder : decode_builder) (suppressed : Z) : option decode_result :=
  token_ids ← sha256_identity (token_ids_fields ids);
  match yvex_artifact_sha256_hex_bytes provider
          (if db_capacity builder =? 0 then None else Some (db_data builder)) with
  | Refused _ _ => None
  | Done decoded =>
      decoder ← sha256_identity
        [FText "yvex.tokenizer.decode.v1"; FText (tp_tokenizer_plan_identity (tz_plan t)); FText token_ids;
         FText decoded; FU64Be suppressed];
      Some (DecodeResult (db_data builder) (Z.of_nat (length ids)) suppressed token_ids decoded decoder)
  end.

(** What the environment answers to a decoder. *)
Record decode_env := DecodeEnv {
  dv_realloc : Z → bool;
  dv_malloc : Z → bool;
  dv_provider : option (list Z → option (list Z));
}.

(** src/src/tokenizer/decode.c:246-258, [yvex_tokenizer_decode] *)
Definition decode_token (env : decode_env) (t : yvex_tokenizer) (options : decode_options) (entry : nat * Z)
    (s : decode_builder * Z) : run (decode_builder * Z) :=
  let '(builder, suppressed) := s in
  refuse_when (do_cancelled options entry.1) with YVEX_ERR_CANCELLED "tokenizer decoding was cancelled before publication";
  let! (piece, skipped) := tokenizer_piece_decode (dv_malloc env) t entry.2 (do_skip_special_tokens options) in
  let! builder := Some (decode_append (dv_realloc env) builder piece) in
  run_ret (builder, u64 (suppressed + flag skipped)).

(** src/src/tokenizer/decode.c, [yvex_tokenizer_decode] *)
Definition yvex_tokenizer_decode (env : decode_env) (t : yvex_tokenizer) (ids : list Z)
    (options : option decode_options) : run decode_result :=
  let options := default (DecodeOptions false false (λ _, false)) options in
  refuse_when (negb (tp_sealed (tz_plan t))) with YVEX_ERR_INVALID_ARG "sealed tokenizer, IDs, and result are required";
  let! (builder, suppressed) := for_each (decode_token env t options) (imap pair ids) (DecodeBuilder [] 0, 0) in
  refuse_when (do_require_complete_utf8 options && negb (utf8_validate (db_data builder)))
    with YVEX_ERR_FORMAT "batch output is not complete UTF-8";
  match decode_identities (dv_provider env) t ids builder suppressed with
  | Some result => run_ret result
  | None => run_refuse YVEX_ERR_STATE "decode identity derivation failed"
  end.
