(* ===== verification/TokenizerRoundTrip.v ===== *)
(** What encoding and decoding do together: [yvex_tokenizer_encode] of [src/tokenizer/execution.c] and
    [yvex_tokenizer_decode] of [src/tokenizer/decode.c] over one sealed tokenizer.

    A list of tokens spells the bytes of its pieces. Encoding returns a list that spells its normalised input,
    and decoding returns what a list spells, so decoding an encoding gives the normalised input back. *)

From S2P Require Import Prelude Status Exec Sha256 Identity Gguf Utf8 UnicodeTables Pretokenizer Normalization.
From S2P Require Import CanonicalForm NormalizationPass HashIndex Vocabulary Merges AddedTokens Bpe.
From S2P Require Import TokenizerSeal TokenizerEncode TokenizerDecode.
#[local] Open Scope Z_scope.

(** * A sealed tokenizer *)

(** What sealing establishes. *)
Record tokenizer_sealed (t : yvex_tokenizer) (rules : list merge_rule) : Prop := TokenizerSealed {
  rd_sealed : tp_sealed (tz_plan t) = true;
  rd_tokens : tokens_wf (tz_tokens t);
  rd_texts : texts_bytes (tz_tokens t);
  rd_vocabulary : vocabulary_ok t;
  rd_merges : merges_ok t rules;
  rd_added : added_inside t;
  rd_identity : strlen (tp_tokenizer_plan_identity (tz_plan t)) ≤ 64;
}.

(** The tokens of bytes and merges are not added tokens, whose texts decode as they stand. Neither loading nor sealing
    checks this. *)
Record pieces_ordinary (t : yvex_tokenizer) (rules : list merge_rule) : Prop := PiecesOrdinary {
  po_bytes : ∀ b token, is_u8 b → array_get (tz_tokens t) (byte_unit t b) = Some token → is_added token = false;
  po_rules : ∀ rule token, rule ∈ rules → array_get (tz_tokens t) (mr_merged rule) = Some token → is_added token = false;
}.

(** The bytes of a token: its text when it is an added token, else what its text spells in visible form. *)
Definition decodes (t : yvex_tokenizer) (id : Z) (piece : list Z) : Prop :=
  ∃ token, array_get (tz_tokens t) id = Some token ∧
    (if is_added token then piece = tk_text token else Forall is_u8 piece ∧ tk_text token = visible piece).

(** The bytes a token is decoded to: none when it is suppressed. *)
Definition emits (t : yvex_tokenizer) (skip_special : bool) (id : Z) (piece : list Z) : Prop :=
  ∃ token, array_get (tz_tokens t) id = Some token ∧
    (if skip_special && is_control token then piece = []
     else if is_added token then piece = tk_text token else Forall is_u8 piece ∧ tk_text token = visible piece).

Definition spells (t : yvex_tokenizer) (ids : list Z) (bytes : list Z) : Prop :=
  ∃ pieces, Forall2 (decodes t) ids pieces ∧ mjoin pieces = bytes.

Lemma spells_nil t : spells t [] [].
Proof. exists []. by split; [constructor|]. Qed.

Lemma spells_app t ids ids' bytes bytes' :
  spells t ids bytes → spells t ids' bytes' → spells t (ids ++ ids') (bytes ++ bytes').
Proof.
  intros (ps & H & <-) (ps' & H' & <-). exists (ps ++ ps'). split; [by apply Forall2_app|]. by rewrite join_app.
Qed.

Lemma spells_one t id piece : decodes t id piece → spells t [id] piece.
Proof. intros H. exists [piece]. split; [by constructor|]. cbn. apply app_nil_r. Qed.

(** A token that may stand in an encoding without special tokens. *)
Definition plain (t : yvex_tokenizer) (id : Z) : Prop :=
  ∃ token, array_get (tz_tokens t) id = Some token ∧ is_control token = false.

(** A token of a piece: an ordinary one that spells bytes. *)
Definition ordinary (t : yvex_tokenizer) (id : Z) : Prop :=
  ∃ token piece, array_get (tz_tokens t) id = Some token ∧ is_added token = false ∧
    Forall is_u8 piece ∧ tk_text token = visible piece.

(** Tokens that spell bytes are decoded to them, when none is suppressed. *)
Lemma spells_emits t skip ids bytes :
  spells t ids bytes → (skip = true → Forall (plain t) ids) → ∃ pieces, Forall2 (emits t skip) ids pieces ∧ mjoin pieces = bytes.
Proof.
  intros (pieces & Hd & <-) Hskip. exists pieces. split; [|done].
  induction Hd as [|id piece ids pieces (token & Et & Hp) Hd IH]; [constructor|]. constructor.
  - exists token. split; [done|]. destruct skip; [|done]. specialize (Hskip eq_refl).
    apply Forall_cons in Hskip as [(token' & Et' & Hc) _]. assert (token' = token) as -> by congruence. by rewrite Hc.
  - apply IH. intros E. specialize (Hskip E). by apply Forall_cons in Hskip as [_ ?].
Qed.

Lemma ordinary_plain t id : ordinary t id → plain t id.
Proof.
  intros (token & piece & Et & Ha & _). exists token. split; [done|].
  unfold is_added in Ha. unfold is_control. by apply orb_false_iff in Ha as [Ha _].
Qed.

(** Ordinary tokens whose texts spell visible bytes spell those bytes. *)
Lemma ordinary_spells t ids bytes :
  Forall (ordinary t) ids → Forall is_u8 bytes → tokens_text (tz_tokens t) ids = visible bytes → spells t ids bytes.
Proof.
  intros Ho Hu E.
  assert (∃ pieces, Forall2 (decodes t) ids pieces ∧ Forall is_u8 (mjoin pieces) ∧
    tokens_text (tz_tokens t) ids = visible (mjoin pieces)) as (pieces & Hd & Hp & Ev).
  { clear E. induction Ho as [|id ids (token & piece & Et & Ha & Hp & Ev) Ho (pieces & Hd & Hps & IH)].
    - exists []. split_and!; [constructor|by constructor|done].
    - exists (piece :: pieces). split; [|split].
      + constructor; [|done]. exists token. by rewrite Ha.
      + change (mjoin (piece :: pieces)) with (piece ++ mjoin pieces). by apply Forall_app.
      + change (mjoin (piece :: pieces)) with (piece ++ mjoin pieces).
        rewrite tokens_text_cons, IH, visible_app. unfold token_text. rewrite Et. cbn. by rewrite Ev. }
  exists pieces. split; [done|]. apply visible_inj; [done..|]. by rewrite <- Ev, E.
Qed.

(** * Encoding spells its input *)

Section encode.
Context (t : yvex_tokenizer) (rules : list merge_rule) (Hready : tokenizer_sealed t rules) (Hordinary : pieces_ordinary t rules).
Context (env : encode_env) (allow_special : bool) (maximum : Z) (Hmax : is_u64 maximum).

(** Why encoding [n] bytes may be refused once they are admitted. *)
Definition encode_refused (tokens : yvex_tokens) (n : nat) : Prop :=
  append_refused (ev_realloc env) maximum tokens n ∨ (∃ size, ev_malloc env size = false).

(** Tokens appended that spell [bytes], none of them special unless that is allowed. *)
Definition encoded (tokens tokens' : yvex_tokens) (bytes : list Z) : Prop :=
  ∃ ids, tn_ids tokens' = tn_ids tokens ++ ids ∧ tokens_ok maximum tokens' ∧ spells t ids bytes ∧
    (length ids ≤ length bytes)%nat ∧ Forall (λ id, allow_special = true ∨ plain t id) ids.

Lemma encoded_trans a b c bytes bytes' : encoded a b bytes → encoded b c bytes' → encoded a c (bytes ++ bytes').
Proof.
  intros (ids & E & _ & Hs & Hl & Hp) (ids' & E' & Hok & Hs' & Hl' & Hp'). exists (ids ++ ids').
  rewrite E', E, !length_app. split_and!; [by rewrite <- (assoc_L (++))|done|by apply spells_app|lia|by apply Forall_app].
Qed.

Lemma encoded_refl a : tokens_ok maximum a → encoded a a [].
Proof. intros Ha. exists []. rewrite app_nil_r. split_and!; [done..|apply spells_nil|done|constructor]. Qed.

Lemma encode_refused_after a b bytes (n : nat) :
  encoded a b bytes → encode_refused b n → encode_refused a (length bytes + n).
Proof.
  intros (ids & E & _ & _ & Hl & _) [Hr|Hr]; [left|by right]. unfold append_refused, tn_len in *.
  rewrite E, length_app in Hr. destruct Hr as [Hr|[Hr|Hr]]; [left; lia|right; by left|right; right; lia].
Qed.

Lemma encode_refused_mono tokens (n m : nat) : (n ≤ m)%nat → encode_refused tokens n → encode_refused tokens m.
Proof.
  intros Hnm [Hr|Hr]; [left|by right]. unfold append_refused in *.
  destruct Hr as [Hr|[Hr|Hr]]; [left; lia|right; by left|right; right; lia].
Qed.

Lemma piece_encoded bytes tokens :
  Forall is_u8 bytes → tokens_ok maximum tokens →
  let answer := bpe_piece (ev_realloc env) (ev_malloc env) t maximum bytes tokens in
  (∃ tokens', answer = Some (Done tokens') ∧ encoded tokens tokens' bytes) ∨
  (∃ st why, answer = Some (Refused st why) ∧ encode_refused tokens (length bytes)).
Proof.
  intros Hu Htok. destruct Hready as [_ Hwf _ Hv Hm _ _], Hordinary as [Hbo Hro]. cbn zeta.
  destruct (bpe_piece_spec t rules Hwf Hv Hm (ordinary t) (ev_realloc env) (ev_malloc env) maximum bytes tokens)
    as [(symbols & cap & -> & Hok & _ & _ & _ & Ho & Hlen & Htext)|(st & why & -> & Hr)]; try done.
  - intros rule Hin (tl & pl & El & _ & Hpl & Etl) (tr & pr & Er & _ & Hpr & Etr).
    pose proof (mo_rules _ _ Hm) as Hall. rewrite Forall_forall in Hall.
    destruct (Hall rule Hin) as (tl' & tr' & tm & El' & Er' & Em & Etm). exists tm, (pl ++ pr).
    split_and!; [done|by apply (Hro rule)|by apply Forall_app|]. rewrite visible_app. congruence.
  - intros b Hb. destruct (byte_unit_spec t Hv b Hb) as (_ & Hid & Et). unfold token_text in Et.
    destruct (array_get_is_Some (tz_tokens t) (byte_unit t b)) as [token E]; [exact Hid|].
    rewrite E in Et. cbn in Et. exists token, [b]. split_and!; [done|by apply (Hbo b)|by constructor|done].
  - left. eexists. split; [reflexivity|]. exists symbols. split_and!; [done..| |done|].
    + by apply ordinary_spells.
    + eapply Forall_impl; [exact Ho|]. intros id Hid. right. by apply ordinary_plain.
  - right. by do 2 eexists.
Qed.

Lemma pieces_encoded pieces tokens :
  Forall (Forall is_u8) pieces → tokens_ok maximum tokens →
  let answer := for_each (bpe_piece (ev_realloc env) (ev_malloc env) t maximum) pieces tokens in
  (∃ tokens', answer = Some (Done tokens') ∧ encoded tokens tokens' (mjoin pieces)) ∨
  (∃ st why, answer = Some (Refused st why) ∧ encode_refused tokens (length (mjoin pieces))).
Proof.
  cbn zeta. revert tokens. induction pieces as [|piece pieces IH]; intros tokens Hu Htok.
  { left. exists tokens. split; [done|]. by apply encoded_refl. }
  apply Forall_cons in Hu as [Hp Hu]. cbn [for_each]. change (mjoin (piece :: pieces)) with (piece ++ mjoin pieces).
  rewrite length_app. destruct (piece_encoded piece tokens Hp Htok) as [(tokens1 & -> & He)|(st & why & -> & Hr)]; cbn [run_bind].
  - destruct (IH tokens1 Hu) as [(tokens2 & -> & He2)|(st & why & -> & Hr)]; [by destruct He as (? & _ & ? & _)|..].
    + left. exists tokens2. split; [done|]. by eapply encoded_trans.
    + right. exists st, why. split; [done|]. by eapply encode_refused_after.
  - right. exists st, why. split; [done|]. eapply encode_refused_mono; [|exact Hr]. lia.
Qed.

Lemma ordinary_encoded bytes tokens :
  Forall is_u8 bytes → tokens_ok maximum tokens →
  (∃ tokens', ordinary_encode env t maximum bytes tokens = Some (Done tokens') ∧ encoded tokens tokens' bytes) ∨
  (∃ st why, ordinary_encode env t maximum bytes tokens = Some (Refused st why) ∧ encode_refused tokens (length bytes)).
Proof.
  intros Hu Htok. unfold ordinary_encode. rewrite encode_loop_pieces by (done || lia).
  destruct (span_pieces_join bytes Hu (is_qwen2 t) (length bytes) 0) as [Ej _]; [lia..|]. change (drop (Z.to_nat 0) bytes) with bytes in Ej.
  set (pieces := span_pieces _ _ _ _) in *.
  assert (Forall (Forall is_u8) pieces) as Hpieces.
  { rewrite <- Ej in Hu. apply Forall_forall. intros piece Hin. rewrite Forall_forall in Hu. apply Forall_forall.
    intros x Hx. apply Hu. apply list_elem_of_join. by exists piece. }
  pose proof (pieces_encoded pieces tokens Hpieces Htok) as H. cbn zeta in H. by rewrite Ej in H.
Qed.

Lemma added_encoded bytes offset id matched tokens :
  Forall is_u8 bytes → 0 ≤ offset → added_at t bytes offset allow_special = Some (Some (id, matched)) →
  tokens_ok maximum tokens →
  0 < matched ≤ Z.of_nat (length bytes) - offset ∧
  ((∃ tokens', encode_append (ev_realloc env) maximum id tokens = Some (Done tokens') ∧
      encoded tokens tokens' (span bytes offset (offset + matched))) ∨
   (∃ st why, encode_append (ev_realloc env) maximum id tokens = Some (Refused st why) ∧
      encode_refused tokens (length (drop (Z.to_nat offset) bytes)))).
Proof.
  intros Hu Ho E Htok. destruct (added_at_inside t bytes offset allow_special) as (answer & E' & Hl);
    [apply Hready|done|done|]. rewrite E in E'. injection E' as <-.
  destruct Hl as (p & token & Ep & Ha & -> & -> & Em).
  assert (tk_id token = p) as ->.
  { apply array_get_Some in Ep as [Hp Ep]. rewrite (tw_id _ (rd_tokens _ _ Hready) _ _ Ep). lia. }
  pose proof Em as (b & tail & tail' & _ & Et & Erest)%added_matches_first.
  pose proof (f_equal length Erest) as El. rewrite length_app, length_drop in El. unfold text_len.
  assert (0 < length (tk_text token))%nat by (rewrite Et; cbn; lia). split; [lia|].
  destruct (encode_append_spec (ev_realloc env) maximum p tokens Hmax Htok) as [(cap & -> & Hok)|(st & why & -> & Hr)].
  - left. eexists. split; [reflexivity|]. exists [p]. split_and!; [done..| | |].
    + apply spells_one. exists token. split; [done|]. rewrite Ha. unfold span.
      replace (offset + Z.of_nat (length (tk_text token)) - offset) with (Z.of_nat (length (tk_text token))) by lia.
      rewrite Nat2Z.id, Erest. by rewrite take_app_length.
    + unfold span. rewrite length_take, length_drop. cbn. lia.
    + constructor; [|done]. unfold added_matches in Em. destruct allow_special; [by left|right]. exists token. split; [done|].
      cbn [negb andb] in Em. by destruct (is_control token).
  - right. exists st, why. split; [done|]. left. unfold append_refused in *. rewrite length_drop.
    destruct Hr as [Hr|[Hr|Hr]]; [left; lia|right; by left|right; right; lia].
Qed.

Lemma span_drop bytes from to :
  0 ≤ from ≤ to → to ≤ Z.of_nat (length bytes) →
  drop (Z.to_nat from) bytes = span bytes from to ++ drop (Z.to_nat to) bytes.
Proof.
  intros Hf Ht. unfold span. replace (Z.to_nat to) with (Z.to_nat from + Z.to_nat (to - from))%nat by lia.
  by rewrite <- drop_drop, take_drop.
Qed.

Lemma encode_spans_encoded fuel bytes offset tokens matches :
  Forall is_u8 bytes → 0 ≤ offset ≤ Z.of_nat (length bytes) → Z.of_nat (length bytes) - offset ≤ Z.of_nat fuel →
  tokens_ok maximum tokens →
  let answer := encode_spans env t allow_special maximum fuel bytes offset (tokens, matches) in
  (∃ tokens' matches', answer = Some (Done (tokens', matches')) ∧ encoded tokens tokens' (drop (Z.to_nat offset) bytes)) ∨
  (∃ st why, answer = Some (Refused st why) ∧ encode_refused tokens (length (drop (Z.to_nat offset) bytes))).
Proof.
  intros Hu. cbn zeta. revert offset tokens matches. induction fuel as [|fuel IH]; intros offset tokens matches Ho Hf Htok;
    cbn [encode_spans]; destruct (Z.ltb_spec offset (Z.of_nat (length bytes))) as [Hlt|Hge]; try lia.
  1,3: left; exists tokens, matches; split; [done|]; rewrite drop_ge by lia; by apply encoded_refl.
  destruct (added_at_inside t bytes offset allow_special) as ([[id matched]|] & E & _); [apply Hready|done|lia|..];
    rewrite E; cbn [run_bind run_access].
  - destruct (added_encoded bytes offset id matched tokens Hu (proj1 Ho) E Htok) as [Hm [(tokens1 & -> & He)|(st & why & -> & Hr)]];
      cbn [run_bind]; [|right; by do 2 eexists].
    rewrite (span_drop bytes offset (offset + matched)) by lia.
    destruct (IH (offset + matched) tokens1 (u64 (matches + 1))) as [(t2 & m2 & -> & He2)|(st & why & -> & Hr)];
      [lia|lia|by destruct He as (? & _ & ? & _)|..].
    + left. exists t2, m2. split; [done|]. by eapply encoded_trans.
    + right. exists st, why. split; [done|]. rewrite length_app. by eapply encode_refused_after.
  - destruct (next_added_offset_spec t bytes (offset + 1) allow_special (length bytes)) as (end_ & -> & Hend & _);
      [apply Hready|done|lia|lia|]. cbn [run_bind run_access].
    rewrite (span_drop bytes offset end_) by lia.
    destruct (ordinary_encoded (span bytes offset end_) tokens) as [(tokens1 & -> & He)|(st & why & -> & Hr)]; cbn [run_bind].
    + unfold span. by apply Forall_take, Forall_drop.
    + done.
    + destruct (IH end_ tokens1 matches) as [(t2 & m2 & -> & He2)|(st & why & -> & Hr)];
        [lia|lia|by destruct He as (? & _ & ? & _)|..].
      * left. exists t2, m2. split; [done|]. by eapply encoded_trans.
      * right. exists st, why. split; [done|]. rewrite length_app. by eapply encode_refused_after.
    + right. exists st, why. split; [done|]. eapply encode_refused_mono; [|exact Hr]. rewrite length_app. lia.
Qed.
End encode.

(** * Decoding returns what tokens spell *)

Lemma visible_u8 bytes : Forall is_u8 (visible bytes).
Proof. apply utf8_text_u8. Qed.

Lemma visible_decode_spec bytes before output fuel :
  Forall is_u8 before → Forall is_u8 bytes → (length bytes ≤ fuel)%nat →
  visible_decode fuel (before ++ visible bytes) (Z.of_nat (length before)) output = Some (output ++ bytes).
Proof.
  intros Hb Hu. revert before output fuel Hb. induction Hu as [|b bytes Hbyte Hu IH]; intros before output fuel Hb Hf.
  { rewrite app_nil_r. destruct fuel; cbn [visible_decode]; by rewrite app_nil_r, (proj2 (Z.ltb_ge _ _)) by lia. }
  rewrite visible_cons. destruct fuel as [|fuel]; [cbn in Hf; lia|]. cbn [visible_decode].
  destruct (byte_codepoint_spec b Hbyte) as [Hs Hc]. pose proof (utf8_put_length (byte_codepoint b)) as Hl.
  rewrite (proj2 (Z.ltb_lt _ _)) by (rewrite !length_app; lia).
  rewrite utf8_next_text by (done || apply visible_u8). cbn [mbind option_bind]. rewrite Hc. cbn [mbind option_bind].
  rewrite (assoc_L (++) before), <- Nat2Z.inj_add, <- length_app. rewrite IH.
  - by rewrite <- (assoc_L (++)).
  - apply Forall_app. split; [done|apply utf8_put_u8].
  - cbn in Hf. lia.
Qed.

Lemma visible_decode_whole bytes :
  Forall is_u8 bytes → visible_decode (length (visible bytes)) (visible bytes) 0 [] = Some bytes.
Proof.
  intros Hu. apply (visible_decode_spec bytes [] []); [constructor|done|].
  pose proof (utf8_text_length (byte_codepoint <$> bytes)) as H. by rewrite length_fmap in H.
Qed.

Section decode.
Context (t : yvex_tokenizer) (env : decode_env) (options : decode_options).
Context (Hpolls : ∀ i, do_cancelled options i = false).

(** Why decoding into [n] bytes may be refused. *)
Definition decode_refused (n : nat) : Prop :=
  (∃ size, dv_realloc env size = false) ∨ (∃ size, dv_malloc env size = false) ∨ 2 ^ 62 < Z.of_nat n.

Lemma piece_decoded id piece :
  emits t (do_skip_special_tokens options) id piece →
  (∃ suppressed, tokenizer_piece_decode (dv_malloc env) t id (do_skip_special_tokens options) =
     Some (Done (piece, suppressed))) ∨
  (∃ st why, tokenizer_piece_decode (dv_malloc env) t id (do_skip_special_tokens options) = Some (Refused st why) ∧
     ∃ size, dv_malloc env size = false).
Proof.
  intros (token & Et & Hd). unfold tokenizer_piece_decode.
  pose proof (array_get_Some _ _ _ Et) as [Hid _]. rewrite (proj2 (Z.leb_gt _ _)) by (unfold vocab_size; lia).
  rewrite Et. cbn [run_bind run_access].
  destruct (do_skip_special_tokens options && is_control token); [subst; left; by eexists|].
  destruct (dv_malloc env _) eqn:Em; cbn [negb]; [left|right; do 2 eexists; split; [done|eauto]].
  destruct (is_added token); [subst; by eexists|]. destruct Hd as [Hu ->]. rewrite visible_decode_whole by done. by eexists.
Qed.

Record builder_ok (builder : decode_builder) : Prop := BuilderOk {
  bo_fits : db_count builder ≤ db_capacity builder;
  bo_capacity : db_capacity builder = 0 ∨ 128 ≤ db_capacity builder;
}.

Lemma decode_grow_spec fuel capacity need :
  0 < capacity → need ≤ capacity * 2 ^ Z.of_nat fuel →
  (∃ c, decode_grow fuel capacity need = Done c ∧ need ≤ c ∧ capacity ≤ c) ∨
  (decode_grow fuel capacity need = Refused YVEX_ERR_NOMEM "" ∧ 2 ^ 62 < need).
Proof.
  revert capacity. induction fuel as [|fuel IH]; intros capacity Hc Hn; cbn [decode_grow];
    destruct (Z.ltb_spec capacity need).
  - rewrite Z.mul_1_r in Hn. lia.
  - left. by exists capacity.
  - change (ULLONG_MAX / 2) with 9223372036854775807. change (2 ^ 62) with 4611686018427387904 in *.
    destruct (Z.ltb_spec 9223372036854775807 capacity); [right; split; [done|lia]|].
    destruct (IH (capacity * 2)) as [(c & -> & Hle & Hc')|Hr]; [lia| | |by right].
    + rewrite Nat2Z.inj_succ, Z.pow_succ_r in Hn by lia. lia.
    + left. exists c. split; [done|lia].
  - left. by exists capacity.
Qed.

Lemma decode_append_spec builder bytes :
  builder_ok builder →
  (∃ capacity, decode_append (dv_realloc env) builder bytes = Done (DecodeBuilder (db_data builder ++ bytes) capacity) ∧
     builder_ok (DecodeBuilder (db_data builder ++ bytes) capacity) ∧ db_capacity builder ≤ capacity ∧
     (bytes ≠ [] → capacity ≠ 0)) ∨
  (∃ st why, decode_append (dv_realloc env) builder bytes = Refused st why ∧
     decode_refused (length (db_data builder ++ bytes))).
Proof.
  intros [Hf Hc]. unfold decode_append, decode_reserve, decode_refused. rewrite length_app. unfold db_count in *.
  change (2 ^ 62) with 4611686018427387904.
  destruct (Z.ltb_spec (ULLONG_MAX - Z.of_nat (length bytes)) (Z.of_nat (length (db_data builder)))).
  { right. do 2 eexists. split; [done|]. right. right. ulia. }
  set (need := Z.of_nat (length (db_data builder)) + Z.of_nat (length bytes)).
  destruct (Z.leb_spec need (db_capacity builder)).
  { left. eexists. split; [reflexivity|]. split; [constructor; unfold db_count; cbn; rewrite ?length_app; lia|].
    split; [lia|]. intros Hne Ezero. destruct bytes; [done|]. unfold need in *. cbn [length] in *. lia. }
  set (first := if db_capacity builder =? 0 then 128 else db_capacity builder).
  assert (128 ≤ first ∧ db_capacity builder ≤ first) as Hfirst by (unfold first; destruct (Z.eqb_spec (db_capacity builder) 0); lia).
  destruct (decode_grow_spec 64 first need) as [(c & -> & Hle & Hge)|[-> Hbig]]; [lia| | |].
  - change (2 ^ Z.of_nat 64) with 18446744073709551616. ulia.
  - cbn [mbind outcome_bind]. destruct (dv_realloc env c) eqn:Er; [|right; do 2 eexists; split; [done|left; eauto]].
    left. eexists. split; [reflexivity|]. split; [constructor; unfold db_count; cbn; rewrite ?length_app; lia|].
    cbn [db_capacity]. split; [lia|]. intros _. lia.
  - right. do 2 eexists. split; [done|]. right. right. lia.
Qed.

Lemma decode_tokens_spec ids pieces entries builder suppressed :
  entries.*2 = ids → Forall2 (emits t (do_skip_special_tokens options)) ids pieces → builder_ok builder →
  (∃ capacity suppressed', for_each (decode_token env t options) entries (builder, suppressed) =
      Some (Done (DecodeBuilder (db_data builder ++ mjoin pieces) capacity, suppressed')) ∧
     db_capacity builder ≤ capacity ∧ (mjoin pieces ≠ [] → capacity ≠ 0)) ∨
  (∃ st why, for_each (decode_token env t options) entries (builder, suppressed) = Some (Refused st why) ∧
     decode_refused (length (db_data builder ++ mjoin pieces))).
Proof.
  intros Hids Hd. revert entries builder suppressed Hids. induction Hd as [|id piece ids pieces Hid Hd IH];
    intros entries builder suppressed Hids Hok.
  { destruct entries; [|done]. left. exists (db_capacity builder), suppressed. change (mjoin (@nil (list Z))) with (@nil Z). rewrite app_nil_r.
    split; [by destruct builder|]. by split. }
  destruct entries as [|[i id'] entries]; [done|]. injection Hids as -> Hids. cbn [for_each decode_token fst snd].
  change (mjoin (piece :: pieces)) with (piece ++ mjoin pieces). rewrite (assoc_L (++)).
  rewrite Hpolls.
  destruct (piece_decoded id piece Hid) as [(skipped & ->)|(st & why & -> & Hr)].
  2: { right. do 2 eexists. split; [done|]. right. by left. }
  cbn [run_bind]. destruct (decode_append_spec builder piece Hok) as [(c & -> & Hok' & Hcap & Hne)|(st & why & -> & Hr)].
  - cbn [run_bind]. change (run_bind (run_ret ?x) ?f) with (f x). cbn beta.
    destruct (IH entries (DecodeBuilder (db_data builder ++ piece) c) (u64 (suppressed + flag skipped)) Hids)
      as [(c' & suppressed' & -> & Hcap' & Hne')|(st & why & -> & Hr)]; try done.
    + left. exists c', suppressed'. cbn [db_data db_capacity] in *. split; [done|]. split; [lia|]. intros H.
      destruct (decide (mjoin pieces = [])) as [E|E]; [|by apply Hne']. destruct Hok' as [_ Hcc]. cbn [db_capacity] in Hcc.
      assert (c ≠ 0); [|lia]. apply Hne. intros ->. by rewrite E in H.
    + right. by exists st, why.
  - right. exists st, why. split; [done|]. unfold decode_refused in *. rewrite !length_app in *. destruct Hr as [Hr|[Hr|Hr]]; [by left|right; by left|right; right; lia].
Qed.
End decode.

(** * The whole *)

Definition asks_bos (options : option encode_options) : bool := match options with Some o => eo_add_bos o | None => false end.
Definition asks_eos (options : option encode_options) : bool := match options with Some o => eo_add_eos o | None => false end.
Definition allows_special (options : option encode_options) : bool :=
  match options with Some o => eo_allow_special_tokens o | None => true end.
Definition token_limit (options : option encode_options) : Z :=
  match options with Some o => if eo_maximum_tokens o =? 0 then ULLONG_MAX else eo_maximum_tokens o | None => ULLONG_MAX end.

(** The input as it is encoded: for the qwen2 policy, in canonical composed form. *)
Definition normal_input (t : yvex_tokenizer) (bytes normalized : list Z) : Prop :=
  if is_qwen2 t then ∃ points, Forall is_scalar points ∧ bytes = utf8_text points ∧ normalized = utf8_text (nfc points)
  else normalized = bytes.

(** The bytes a special token adds when it is asked for. *)
Definition special_bytes (t : yvex_tokenizer) (asked : bool) (special : tokenizer_special_id) (bytes : list Z) : Prop :=
  if asked then sp_present special = true ∧ decodes t (sp_id special) bytes else bytes = [].

Section whole.
Context (t : yvex_tokenizer) (rules : list merge_rule) (Hready : tokenizer_sealed t rules) (Hordinary : pieces_ordinary t rules).

Lemma input_normalized env bytes :
  ev_err env = true → Forall is_u8 bytes → utf8_validate bytes = true →
  let normalize := if is_qwen2 t then yvex_tokenizer_nfc_normalize (ev_err env) (ev_realloc env) (ev_malloc env) bytes
                   else Done bytes in
  ∃ normalized, normal_input t bytes normalized ∧ Forall is_u8 normalized ∧ utf8_validate normalized = true ∧
    (length normalized ≤ 16 * length bytes)%nat ∧
    (normalize = Done normalized ∨ memory_refusal normalize) ∧
    ((∀ n, ev_realloc env n = true) → (∀ n, ev_malloc env n = true) → Z.of_nat (length bytes) ≤ 2 ^ 56 →
     normalize = Done normalized).
Proof.
  intros Herr Hu Hv. cbn zeta. unfold normal_input. destruct (is_qwen2 t).
  2: { exists bytes. split_and!; try done; [lia|by left]. }
  pose proof Hv as Hv'. unfold utf8_validate in Hv'. apply utf8_validate_from_spec in Hv' as (points & Hp & Et); [|done|lia|lia].
  change (drop (Z.to_nat 0) bytes) with bytes in Et.
  destruct (nfd_nfc points Hp) as [_ Hscalar].
  destruct (nfc_normalize_text (ev_realloc env) (ev_malloc env) points Hp) as [Hor Htotal].
  exists (utf8_text (nfc points)). rewrite Herr, Et. split_and!; [by exists points|apply utf8_text_u8| | |exact Hor|exact Htotal].
  - unfold utf8_validate. apply utf8_validate_from_spec; [apply utf8_text_u8|lia|lia|]. by exists (nfc points).
  - etrans; [apply utf8_text_bound|]. pose proof (nfc_length points Hp). pose proof (utf8_text_length points). lia.
Qed.

Lemma special_inserted env maximum asked special bytes tokens :
  is_u64 maximum → special_bytes t asked special bytes → tokens_ok maximum tokens →
  (∃ tokens', insert_special env maximum asked special tokens = Some (Done tokens') ∧ tokens_ok maximum tokens' ∧
     ∃ ids, tn_ids tokens' = tn_ids tokens ++ ids ∧ spells t ids bytes ∧ (length ids ≤ 1)%nat ∧ (asked = false → ids = [])) ∨
  (∃ st why, insert_special env maximum asked special tokens = Some (Refused st why) ∧
     encode_refused env maximum tokens 1).
Proof.
  intros Hmax Hs Htok. unfold insert_special, special_bytes in *. destruct asked.
  - destruct Hs as [Hpresent Hd]. rewrite Hpresent. cbn [negb].
    destruct (encode_append_spec (ev_realloc env) maximum (sp_id special) tokens Hmax Htok) as [(cap & -> & Hok)|(st & why & -> & Hr)].
    + left. eexists. split; [done|]. split; [done|]. exists [sp_id special]. split_and!; [done|by apply spells_one|done|done].
    + right. exists st, why. split; [done|by left].
  - subst bytes. left. exists tokens. split_and!; [done..|]. exists []. rewrite app_nil_r. split_and!; [done|apply spells_nil|cbn; lia|done].
Qed.

(** What the caller asks for is admitted. *)
Definition request_ok (bytes : list Z) (options : option encode_options) : Prop :=
  Forall is_u8 bytes ∧ utf8_validate bytes = true ∧
  (asks_bos options = true → tp_add_bos_token (tz_plan t) = true) ∧
  (asks_eos options = true → tp_add_eos_token (tz_plan t) = true).

(** Enough memory and room. *)
Definition room_ok (env : encode_env) (bytes : list Z) (options : option encode_options) : Prop :=
  (∀ n, ev_realloc env n = true) ∧ (∀ n, ev_malloc env n = true) ∧
  16 * Z.of_nat (length bytes) + 2 ≤ token_limit options ∧ Z.of_nat (length bytes) ≤ 2 ^ 50.

Lemma refused_without_room env bytes options tokens (n : nat) :
  room_ok env bytes options → tn_len tokens + Z.of_nat n ≤ 16 * Z.of_nat (length bytes) + 2 →
  ¬ encode_refused env (token_limit options) tokens n.
Proof.
  change (2 ^ 50) with 1125899906842624. intros (Hre & Hma & Hroom & Hlen) Hn [[Hr|[[k Hr]|Hr]]|[k Hr]]; [lia|by rewrite Hre in Hr| |by rewrite Hma in Hr].
  change (2 ^ 60) with 1152921504606846976 in Hr. lia.
Qed.

(** The result of an encoding: its tokens spell the input between the special tokens asked for. *)
Record encoding (bytes : list Z) (options : option encode_options) (prefix suffix : list Z) (normalized : list Z)
    (result : encode_result) : Prop := Encoding {
  en_input : normal_input t bytes normalized;
  en_valid : Forall is_u8 normalized ∧ utf8_validate normalized = true;
  en_spells : spells t (tn_ids (er_tokens result)) (prefix ++ normalized ++ suffix);
  en_limit : tn_len (er_tokens result) ≤ token_limit options;
  en_length : (length (tn_ids (er_tokens result)) ≤ 16 * length bytes + 2)%nat;
  en_plain : allows_special options = false → asks_bos options = false → asks_eos options = false →
    Forall (plain t) (tn_ids (er_tokens result));
}.

Lemma encode_outcome env bytes options prefix suffix :
  ev_err env = true → request_ok bytes options → is_u64 (token_limit options) →
  special_bytes t (asks_bos options) (tz_bos t) prefix → special_bytes t (asks_eos options) (tz_eos t) suffix →
  (∃ result normalized, yvex_tokenizer_encode env t bytes options = Some (Done result) ∧
     encoding bytes options prefix suffix normalized result) ∨
  (∃ st why, yvex_tokenizer_encode env t bytes options = Some (Refused st why) ∧ ¬ room_ok env bytes options).
Proof.
  intros Herr (Hu & Hv & Hbos & Heos) Hmax Hpre Hsuf.
  unfold yvex_tokenizer_encode. fold (token_limit options) (allows_special options) (asks_bos options) (asks_eos options).
  rewrite (rd_sealed _ _ Hready), Hv. cbn [negb].
  assert ((asks_bos options && negb (tp_add_bos_token (tz_plan t))) || (asks_eos options && negb (tp_add_eos_token (tz_plan t))) = false) as ->.
  { destruct (asks_bos options), (asks_eos options); rewrite ?Hbos, ?Heos by done; done. }
  destruct (input_normalized env bytes Herr Hu Hv) as (normalized & Hin & Hnu & Hnv & Hnl & Hor & Htotal).
  set (normalize := if is_qwen2 t then _ else _) in *.
  destruct (bytes_identity "yvex.tokenizer.input.v1" bytes) as [input|] eqn:Einput.
  2: { right. do 2 eexists. split; [done|]. intros (_ & _ & _ & Hlen).
       destruct (bytes_identity_total "yvex.tokenizer.input.v1" bytes) as (id & E & _); [vm_compute; discriminate| |congruence].
       change (2 ^ 50) with 1125899906842624 in Hlen. change (2 ^ 56) with 72057594037927936. lia. }
  destruct Hor as [E|(st & why & E & _)].
  2: { right. exists st, why. rewrite E. split; [done|]. intros (Hre & Hma & _ & Hlen). rewrite Htotal in E; [done|done|done|].
       change (2 ^ 50) with 1125899906842624 in Hlen. change (2 ^ 56) with 72057594037927936. lia. }
  rewrite E. cbn [run_bind]. clear Hbos Heos Htotal E.
  assert (tokens_ok (token_limit options) (Tokens [] 0)) as Hok0
    by (constructor; unfold tn_len; cbn; [lia|unfold is_u64 in Hmax; lia|lia]).
  destruct (special_inserted env (token_limit options) (asks_bos options) (tz_bos t) prefix (Tokens [] 0) Hmax Hpre Hok0)
    as [(t1 & -> & Hok1 & ids1 & E1 & Hs1 & Hl1 & Hnone1)|(st & why & -> & Hr)]; cbn [run_bind tn_ids app] in *.
  2: { right. do 2 eexists. split; [done|]. intros Hroom. eapply refused_without_room; [done| |exact Hr]. unfold tn_len. cbn. lia. }
  destruct (encode_spans_encoded t rules Hready Hordinary env (allows_special options) (token_limit options) Hmax
    (length normalized) normalized 0 t1 0 Hnu) as [(t2 & matches & -> & He)|(st & why & -> & Hr)]; [lia|lia|done|..]; cbn [run_bind].
  2: { right. do 2 eexists. split; [done|]. intros Hroom. eapply refused_without_room; [done| |exact Hr].
       change (drop (Z.to_nat 0) normalized) with normalized. unfold tn_len. rewrite E1. lia. }
  change (drop (Z.to_nat 0) normalized) with normalized in He. destruct He as (ids2 & E2 & Hok2 & Hs2 & Hl2 & Hplain).
  destruct (special_inserted env (token_limit options) (asks_eos options) (tz_eos t) suffix t2 Hmax Hsuf Hok2)
    as [(t3 & -> & Hok3 & ids3 & E3 & Hs3 & Hl3 & Hnone3)|(st & why & -> & Hr)]; cbn [run_bind].
  2: { right. do 2 eexists. split; [done|]. intros Hroom. eapply refused_without_room; [done| |exact Hr].
       unfold tn_len. rewrite E2, E1, length_app. lia. }
  assert (tn_ids t3 = ids1 ++ ids2 ++ ids3) as E4 by by rewrite E3, E2, E1, <- (assoc_L (++)).
  destruct (encoding_identity_build t _) as [result|] eqn:Eresult.
  2: { right. do 2 eexists. split; [done|]. intros (_ & _ & _ & Hlen).
       match type of Eresult with encoding_identity_build t ?r = _ =>
         destruct (encoding_identity_total t r) as (result' & E' & _); [apply Hready| | |congruence] end; cbn [er_input_identity er_tokens].
       - destruct (bytes_identity_total "yvex.tokenizer.input.v1" bytes) as (id & E & Hid); [vm_compute; discriminate| |congruence].
         change (2 ^ 50) with 1125899906842624 in Hlen. change (2 ^ 56) with 72057594037927936. lia.
       - unfold tn_len. rewrite E4, !length_app. change (2 ^ 50) with 1125899906842624 in Hlen.
         change (2 ^ 56) with 72057594037927936. lia. }
  apply encoding_identity_tokens in Eresult as [Et _]. cbn [er_tokens] in Et.
  left. exists result, normalized. split; [done|]. constructor; [done|by split|..]; rewrite Et, ?E4.
  - apply spells_app; [done|]. by apply spells_app.
  - destruct Hok3 as [? ? _]. lia.
  - rewrite !length_app. lia.
  - intros Hallow Hb He. rewrite Hnone1, Hnone3, app_nil_r by done. cbn [app]. eapply Forall_impl; [exact Hplain|].
    intros id [?|?]; [congruence|done].
Qed.
End whole.

(** * The whole of decoding *)

(** Enough memory, a library that answers, and a size the hashes admit. *)
Definition decode_room (env : decode_env) (ids bytes : list Z) : Prop :=
  (∀ n, dv_realloc env n = true) ∧ (∀ n, dv_malloc env n = true) ∧
  (∀ digest data, dv_provider env = Some digest → ∃ d, digest data = Some d ∧ length d = 32%nat) ∧
  Z.of_nat (length ids) ≤ 2 ^ 56 ∧ Z.of_nat (length bytes) ≤ 2 ^ 56.

Lemma imap_pair_snd {A} (l : list A) : (imap pair l).*2 = l.
Proof.
  apply list_eq. intros i. rewrite list_lookup_fmap, list_lookup_imap. by destruct (l !! i).
Qed.

Section decode_whole.
Context (t : yvex_tokenizer) (Hsealed : tp_sealed (tz_plan t) = true).
Context (Hplan : strlen (tp_tokenizer_plan_identity (tz_plan t)) ≤ 64).

Lemma decode_identities_bytes provider ids builder suppressed result :
  decode_identities provider t ids builder suppressed = Some result → dr_bytes result = db_data builder.
Proof.
  unfold decode_identities. destruct (sha256_identity _); [|done]. cbn [mbind option_bind].
  destruct (yvex_artifact_sha256_hex_bytes _ _); [|done]. destruct (sha256_identity _); [|done].
  cbn [mbind option_bind]. by intros [= <-].
Qed.

Lemma digest_text_length d : length d = 32%nat → strlen (yvex_sha256_hex d) = 64.
Proof.
  intros Hd. unfold strlen. rewrite length_cstr.
  assert (String.length (yvex_sha256_hex d) = 2 * length d)%nat as ->; [|lia].
  clear Hd. induction d as [|b d IH]; [done|].
  change (String.length (yvex_sha256_hex (b :: d))) with (S (S (String.length (yvex_sha256_hex d)))). rewrite IH. cbn. lia.
Qed.

Lemma artifact_digest_total provider data :
  (∀ digest data, provider = Some digest → ∃ d, digest data = Some d ∧ length d = 32%nat) →
  Z.of_nat (length data) ≤ 2 ^ 56 →
  ∃ digest, yvex_artifact_sha256_hex_bytes provider (Some data) = Done digest ∧ strlen digest = 64.
Proof.
  intros Hp Hl. unfold yvex_artifact_sha256_hex_bytes. destruct provider as [digest|].
  - destruct (Hp digest data eq_refl) as (d & -> & Hd). eexists. split; [done|]. by apply digest_text_length.
  - pose proof (sha256_update_repr _ [] data sha256_init_repr) as H. cbn [app] in H.
    change (2 ^ 56) with 72057594037927936 in Hl. change (ULLONG_MAX / 8) with 2305843009213693951 in H.
    destruct (yvex_sha256_update yvex_sha256_init data) as [c|]; [|lia]. cbn [mbind option_bind].
    destruct (sha256_final_repr c _ H) as (c' & -> & _). cbn [mbind option_bind]. eexists. split; [done|].
    apply digest_text_length, length_sha256_spec.
Qed.

Lemma decode_outcome env ids pieces options :
  Forall2 (emits t (do_skip_special_tokens options)) ids pieces → (∀ i, do_cancelled options i = false) →
  let bytes := mjoin pieces in
  is_Some (yvex_tokenizer_decode env t ids (Some options)) ∧
  (∀ result, yvex_tokenizer_decode env t ids (Some options) = Some (Done result) →
     dr_bytes result = bytes ∧ (do_require_complete_utf8 options = true → utf8_validate bytes = true)) ∧
  (decode_room env ids bytes → bytes ≠ [] →
   (do_require_complete_utf8 options = true → utf8_validate bytes = true) →
   ∃ result, yvex_tokenizer_decode env t ids (Some options) = Some (Done result)).
Proof.
  intros Hd Hpolls. cbn zeta. unfold yvex_tokenizer_decode. change (default ?d (Some options)) with options. rewrite Hsealed. cbn [negb].
  assert (builder_ok (DecodeBuilder [] 0)) as Hok by (constructor; unfold db_count; cbn; lia).
  destruct (decode_tokens_spec t env options Hpolls ids pieces (imap pair ids) (DecodeBuilder [] 0) 0
      (imap_pair_snd ids) Hd Hok) as [(capacity & suppressed & -> & _ & Hne)|(st & why & -> & Hr)].
  - cbn [run_bind db_data app]. set (bytes := mjoin pieces) in *.
    destruct (do_require_complete_utf8 options && negb (utf8_validate bytes)) eqn:Eutf.
    { split_and!; [by eexists|done|]. intros _ _ Hv. destruct (do_require_complete_utf8 options); [|done].
      by rewrite Hv in Eutf. }
    destruct (decode_identities _ _ _ _ _) as [result|] eqn:Eid.
    + split_and!; [by eexists| |by eexists]. intros result' [= <-]. split; [by apply decode_identities_bytes in Eid|].
      intros Erequire. rewrite Erequire in Eutf. by destruct (utf8_validate bytes).
    + split_and!; [by eexists|done|]. intros (_ & _ & Hp & Hi & Hb) Hnil _. exfalso. revert Eid.
      unfold decode_identities. cbn [db_capacity db_data]. change (2 ^ 56) with 72057594037927936 in *.
      destruct (sha256_identity_total (token_ids_fields ids)) as (token_ids & -> & Ht).
      { pose proof (token_ids_fields_size ids). change (ULLONG_MAX / 8) with 2305843009213693951. lia. }
      cbn [mbind option_bind]. rewrite (proj2 (Z.eqb_neq _ _)) by by apply Hne.
      destruct (artifact_digest_total (dv_provider env) bytes Hp) as (d & -> & Hlen); [exact Hb|].
      match goal with |- context [sha256_identity ?l] => destruct (sha256_identity_total l) as (id & -> & _) end; [|done].
      cbn [fields_size foldr field_size]. strlen_literals. change (ULLONG_MAX / 8) with 2305843009213693951. lia.
  - cbn [run_bind]. split_and!; [by eexists|done|]. intros (Hre & Hma & _ & _ & Hb) _ _. exfalso.
    destruct Hr as [[n Hr]|[[n Hr]|Hr]]; [by rewrite Hre in Hr|by rewrite Hma in Hr|].
    change (2 ^ 56) with 72057594037927936 in *. change (2 ^ 62) with 4611686018427387904 in Hr. cbn [db_data app] in Hr. lia.
Qed.

(** Nothing is never decoded: an empty output is a null buffer, whose digest is refused. *)
Lemma decode_nothing_refused env options :
  (∀ i, do_cancelled options i = false) →
  yvex_tokenizer_decode env t [] (Some options) = Some (Refused YVEX_ERR_STATE "decode identity derivation failed").
Proof.
  intros _. unfold yvex_tokenizer_decode. change (default ?d (Some options)) with options. rewrite Hsealed. cbn [negb imap for_each run_bind run_ret db_data].
  change (utf8_validate []) with true. cbn [negb]. rewrite andb_false_r. unfold decode_identities. cbn [db_capacity].
  rewrite Z.eqb_refl. cbn [yvex_artifact_sha256_hex_bytes]. by destruct (sha256_identity _).
Qed.
End decode_whole.

(** C15: encoding is exact. Take a sealed tokenizer whose tokens of bytes and merges are not added tokens, which sealing
    does not check, a call with an error argument, and special tokens that exist where they are asked for. Every
    admitted text is encoded without reading outside an array. Whenever there is an answer, its tokens spell the text
    (in canonical composed form under the qwen2 policy) between the special tokens asked for, within the limit of
    the caller, and without control tokens where none are allowed. There is one when memory is there and the limit
    leaves room. *)
Theorem tokenizer_encode_exact t rules env bytes options prefix suffix :
  tokenizer_sealed t rules → pieces_ordinary t rules → ev_err env = true → request_ok t bytes options → is_u64 (token_limit options) →
  special_bytes t (asks_bos options) (tz_bos t) prefix → special_bytes t (asks_eos options) (tz_eos t) suffix →
  is_Some (yvex_tokenizer_encode env t bytes options) ∧
  (∀ result, yvex_tokenizer_encode env t bytes options = Some (Done result) →
     ∃ normalized, encoding t bytes options prefix suffix normalized result) ∧
  (room_ok env bytes options → ∃ result, yvex_tokenizer_encode env t bytes options = Some (Done result)).
Proof.
  intros Hready Hordinary Herr Hreq Hmax Hpre Hsuf.
  destruct (encode_outcome t rules Hready Hordinary env bytes options prefix suffix Herr Hreq Hmax Hpre Hsuf)
    as [(result & normalized & -> & He)|(st & why & -> & Hr)].
  - split_and!; [by eexists| |by eexists]. intros result' [= <-]. by exists normalized.
  - split_and!; [by eexists|done|done].
Qed.

(** C11: decoding undoes encoding. Take a sealed tokenizer whose tokens of bytes and merges are not added tokens, which
    sealing does not check, a call with an error argument, and special tokens that exist where they are asked for. The
    tokens of an encoding, decoded in one batch by a caller who does not cancel, give the input back in the form it was
    encoded, with the special tokens that were asked for around it; this also holds when special tokens are skipped,
    provided none were allowed or asked for. Decoding such tokens never reads outside an array and succeeds when memory
    is there, unless the output is empty or must be complete UTF-8 and is not. *)
Theorem tokenizer_roundtrip t rules env bytes options prefix suffix result denv decoding :
  tokenizer_sealed t rules → pieces_ordinary t rules → ev_err env = true → request_ok t bytes options → is_u64 (token_limit options) →
  special_bytes t (asks_bos options) (tz_bos t) prefix → special_bytes t (asks_eos options) (tz_eos t) suffix →
  yvex_tokenizer_encode env t bytes options = Some (Done result) →
  (∀ i, do_cancelled decoding i = false) →
  (do_skip_special_tokens decoding = true →
   allows_special options = false ∧ asks_bos options = false ∧ asks_eos options = false) →
  let ids := tn_ids (er_tokens result) in
  ∃ normalized, normal_input t bytes normalized ∧
    let whole := prefix ++ normalized ++ suffix in
    is_Some (yvex_tokenizer_decode denv t ids (Some decoding)) ∧
    (∀ decoded, yvex_tokenizer_decode denv t ids (Some decoding) = Some (Done decoded) → dr_bytes decoded = whole) ∧
    (decode_room denv ids whole → whole ≠ [] →
     (do_require_complete_utf8 decoding = true → utf8_validate whole = true) →
     ∃ decoded, yvex_tokenizer_decode denv t ids (Some decoding) = Some (Done decoded)).
Proof.
  intros Hready Hordinary Herr Hreq Hmax Hpre Hsuf E Hpolls Hskip ids.
  destruct (encode_outcome t rules Hready Hordinary env bytes options prefix suffix Herr Hreq Hmax Hpre Hsuf)
    as [(result' & normalized & E' & [Hin _ Hs _ _ Hplain])|(st & why & E' & _)]; [|congruence].
  assert (result' = result) as -> by congruence. exists normalized. split; [done|].
  destruct (spells_emits t (do_skip_special_tokens decoding) _ _ Hs) as (pieces & Hd & <-).
  { intros (H1 & H2 & H3)%Hskip. by apply Hplain. }
  destruct (decode_outcome t (rd_sealed _ _ Hready) (rd_identity _ _ Hready) denv ids pieces decoding Hd Hpolls)
    as (H1 & H2 & H3).
  split_and!; [done| |done]. intros decoded Ed. by apply H2.
Qed.

(** ** A small sealed tokenizer *)

Definition sealed_plan : tokenizer_plan := TokenizerPlan true true true 2 2 2 "" "" "" "plan".

Definition sealed_sample (t : yvex_tokenizer) : yvex_tokenizer :=
  t <| tz_policy := FamilyPolicy "qwen2" 2 2 |> <| tz_plan := sealed_plan |>.

Definition byte_token_ordinary (b : Z) : bool :=
  match text_position sample_tokens (visible [b]) with
  | Some id => match array_get sample_tokens id with Some token => negb (is_added token) | None => false end
  | None => false
  end.

Lemma sample_ready : ∃ t, tokenizer_sealed (sealed_sample t) sample_rules ∧ pieces_ordinary (sealed_sample t) sample_rules ∧
  tz_tokens t = sample_tokens.
Proof.
  destruct sample_sealed as (t & _ & [(Et & _) _ Hv Hm Ha _]). exists t.
  pose proof (ld_tokens _ _ _ sample_loaded) as Hwf. pose proof (ld_texts _ _ _ sample_loaded) as Hx.
  change (tz_tokens sample_tokenizer) with sample_tokens in *. split; [|split; [|done]]; constructor.
  - done.
  - change (tz_tokens (sealed_sample t)) with (tz_tokens t). by rewrite Et.
  - change (tz_tokens (sealed_sample t)) with (tz_tokens t). by rewrite Et.
  - destruct Hv. by constructor.
  - destruct Hm. by constructor.
  - destruct Ha. by constructor.
  - vm_compute. discriminate.
  - intros b token Hb. change (tz_tokens (sealed_sample t)) with (tz_tokens t).
    change (byte_unit (sealed_sample t) b) with (byte_unit t b). unfold byte_unit.
    destruct (vo_bytes _ Hv b Hb) as (id & -> & Ep). cbn [from_option]. rewrite Et in *.
    assert (byte_token_ordinary b = true) as H by (apply byte_forall; [vm_compute; reflexivity|done]).
    unfold byte_token_ordinary in H. rewrite Ep in H. intros E. cbn [Datatypes.id] in E. rewrite E in H. by destruct (is_added token).
  - intros rule token Hin. change (tz_tokens (sealed_sample t)) with (tz_tokens t). rewrite Et.
    assert (∀ id, id = 256 ∨ id = 257 → array_get sample_tokens id = Some token → is_added token = false) as H.
    { intros id [->| ->]; vm_compute; intros [= <-]; reflexivity. }
    apply elem_of_cons in Hin as [->|Hin]; [apply H; by left|]. apply list_elem_of_singleton in Hin as ->. apply H. by right.
Qed.

Definition sample_text : list Z := utf8_text [97; 98; 99; 60; 115; 62; 101; 769].
Definition everything : encode_env := EncodeEnv (λ _, true) (λ _, true) true.

Lemma sample_request t : request_ok (sealed_sample t) sample_text None.
Proof. split_and!; [apply utf8_text_u8|vm_compute; reflexivity|done|done]. Qed.

Lemma sample_normal t normalized :
  normal_input (sealed_sample t) sample_text normalized → normalized = utf8_text [97; 98; 99; 60; 115; 62; 233].
Proof.
  intros (points & Hp & Et & ->).
  assert (Forall is_scalar [97; 98; 99; 60; 115; 62; 101; 769]) as Hs
    by (repeat (apply Forall_cons_2; [left; lia|]); by apply Forall_nil_2).
  pose proof (utf8_text_inj _ _ Hs Hp Et) as <-. vm_compute. reflexivity.
Qed.

Lemma tokenizer_encode_exact_witness :
  ∃ t result, yvex_tokenizer_encode everything (sealed_sample t) sample_text None = Some (Done result) ∧
    spells (sealed_sample t) (tn_ids (er_tokens result)) (utf8_text [97; 98; 99; 60; 115; 62; 233]).
Proof.
  destruct sample_ready as (t & Hready & Hordinary & _). exists t.
  destruct (tokenizer_encode_exact (sealed_sample t) sample_rules everything sample_text None [] [])
    as (_ & H & Hex); [done|done|done|apply sample_request|done..|].
  destruct Hex as [result E]; [split_and!; [done|done|vm_compute; discriminate..]|].
  exists result. split; [exact E|]. destruct (H result E) as (normalized & [Hin _ Hs _ _ _]).
  rewrite <- (sample_normal t normalized Hin). cbn [app] in Hs. by rewrite app_nil_r in Hs.
Defined.

Lemma tokenizer_roundtrip_witness :
  ∃ t result decoded, yvex_tokenizer_encode everything (sealed_sample t) sample_text None = Some (Done result) ∧
    yvex_tokenizer_decode (DecodeEnv (λ _, true) (λ _, true) None) (sealed_sample t) (tn_ids (er_tokens result))
      (Some (DecodeOptions false true (λ _, false))) = Some (Done decoded) ∧
    dr_bytes decoded = utf8_text [97; 98; 99; 60; 115; 62; 233].
Proof.
  assert (is_u64 (token_limit None)) as Hlimit by done.
  assert (do_skip_special_tokens (DecodeOptions false true (λ _, false)) = true →
    allows_special None = false ∧ asks_bos None = false ∧ asks_eos None = false) as Hskip by (intros Hno; discriminate Hno).
  destruct sample_ready as (t & Hready & Hordinary & _). exists t.
  destruct (encode_outcome (sealed_sample t) sample_rules Hready Hordinary everything sample_text None [] [])
    as [(result & normalized' & E & He)|(st & why & _ & Hr)]; [done|apply sample_request|done|done|done| |].
  2: { exfalso. apply Hr. split_and!; [done|done|vm_compute; discriminate..]. }
  exists result.
  destruct (tokenizer_roundtrip (sealed_sample t) sample_rules everything sample_text None [] [] result
    (DecodeEnv (λ _, true) (λ _, true) None) (DecodeOptions false true (λ _, false))
    Hready Hordinary eq_refl (sample_request t) Hlimit eq_refl eq_refl E (λ _, eq_refl) Hskip)
    as (normalized & Hin & _ & H & Hex).
  apply sample_normal in Hin. subst normalized. pose proof (en_length _ _ _ _ _ _ _ He) as Hl.
  destruct Hex as [decoded Ed].
  - clear E. split_and!; [exact (λ _, eq_refl)|exact (λ _, eq_refl)|discriminate| |vm_compute; discriminate].
    change (length sample_text) with 9%nat in Hl. change (2 ^ 56) with 72057594037927936. lia.
  - vm_compute. discriminate.
  - intros _. vm_compute. reflexivity.
  - exists decoded. split; [exact E|]. split; [exact Ed|]. rewrite (H decoded Ed). vm_compute. reflexivity.
Defined.
