(* ===== verification/TokenizerStream.v ===== *)
(** Decoding one token at a time: the incremental decoder and its transactions, in [src/tokenizer/decode.c].

    A decoder keeps the bytes of an incomplete scalar value and publishes only complete text. Its operations are
    exclusive (each enters by an atomic exchange and is refused while another is inside), so they are modelled one
    after another. *)

From S2P Require Import Prelude Status Exec Sha256 Identity Gguf Utf8 UnicodeTables Pretokenizer Normalization.
From S2P Require Import CanonicalForm NormalizationPass HashIndex Vocabulary Merges AddedTokens Bpe.
From S2P Require Import TokenizerSeal TokenizerEncode TokenizerDecode TokenizerRoundTrip.
#[local] Open Scope Z_scope.

(** * Text and its incomplete end *)

(** src/src/tokenizer/decode.c, [utf8_tail_valid] *)
Definition utf8_tail_valid (bytes : list Z) : bool :=
  match bytes with
  | [] => false
  | first :: rest =>
      let count := Z.of_nat (length bytes) in
      let needed :=
        if (194 <=? first) && (first <=? 223) then Some 2
        else if (224 <=? first) && (first <=? 239) then Some 3
        else if (240 <=? first) && (first <=? 244) then Some 4
        else None in
      match needed with
      | None => false
      | Some needed =>
          (count <=? 3) && (count <? needed) && forallb (λ byte, Z.land byte 192 =? 128) rest
      end
  end.

(** The extent of the complete text in front of an incomplete end, if there is such a split.
    src/src/tokenizer/decode.c, [utf8_prefix] *)
Fixpoint utf8_prefix (fuel : nat) (bytes : list Z) (offset : Z) : option Z :=
  if offset <? Z.of_nat (length bytes) then
    match fuel with
    | O => None
    | S fuel =>
        match yvex_tokenizer_utf8_next bytes offset with
        | Some (_, next) => utf8_prefix fuel bytes next
        | None => if utf8_tail_valid (drop (Z.to_nat offset) bytes) then Some offset else None
        end
    end
  else Some (Z.of_nat (length bytes)).

(** * The decoder *)

(** What a decoder and a transaction on it both carry: the bytes of the incomplete end (their count is the length of
    the list), the number of tokens, and the identity of the state. *)
Record stream_state := StreamState { ss_pending : list Z; ss_processed : Z; ss_identity : string }.

(** The two bits of [lifecycle] are [dc_active] and [dc_closing].
    src/src/tokenizer/decode.c, [yvex_tokenizer_decoder] *)
Record tokenizer_decoder := Decoder {
  dc_options : decode_options;
  dc_state : stream_state;
  dc_active : bool;
  dc_closing : bool;
  dc_transaction_active : bool;
}.

#[export] Instance tokenizer_decoder_eta : Eta tokenizer_decoder := λ d,
  Decoder (dc_options d) (dc_state d) (dc_active d) (dc_closing d) (dc_transaction_active d).

(** src/src/tokenizer/decode.c, [yvex_tokenizer_decoder_transaction] *)
Record decoder_transaction := DecoderTransaction {
  dt_state : stream_state;
  dt_base_identity : string;
  dt_prepared : bool;
}.

#[export] Instance decoder_transaction_eta : Eta decoder_transaction := λ x,
  DecoderTransaction (dt_state x) (dt_base_identity x) (dt_prepared x).

(** src/include/yvex/tokenizer.h, [yvex_tokenizer_fragment] *)
Record tokenizer_fragment := Fragment {
  fg_token_id : Z;
  fg_bytes : list Z;
  fg_pending_byte_count : Z;
  fg_processed_token_count : Z;
  fg_special : bool;
  fg_eos : bool;
  fg_suppressed : bool;
  fg_state_before_identity : string;
  fg_state_after_identity : string;
  fg_fragment_identity : string;
}.

(** What the environment answers to one call: which poll of the cancellation callback it makes, and whether memory
    of a size can be had. *)
Record stream_env := StreamEnv { se_poll : nat; se_malloc : Z → bool }.

Definition decoder_state_fields (t : yvex_tokenizer) (options : decode_options) (pending : list Z) (processed : Z)
    : list field :=
  [FText "yvex.tokenizer.incremental-state.v1"; FText (tp_tokenizer_plan_identity (tz_plan t));
   FU64Be (flag (do_skip_special_tokens options)); FU64Be (flag (do_require_complete_utf8 options));
   FU64Be processed; FBytes pending].

(** src/src/tokenizer/decode.c, [decoder_state_identity] *)
Definition decoder_state_identity (t : yvex_tokenizer) (options : decode_options) (pending : list Z) (processed : Z)
    : option string :=
  sha256_identity (decoder_state_fields t options pending processed).

Definition fragment_fields (fragment : tokenizer_fragment) : list field :=
  [FText "yvex.tokenizer.fragment.v1"; FU64Be (fg_token_id fragment); FBytes (fg_bytes fragment);
   FU64Be (fg_pending_byte_count fragment); FU64Be (fg_processed_token_count fragment);
   FU64Be (flag (fg_special fragment)); FU64Be (flag (fg_eos fragment)); FU64Be (flag (fg_suppressed fragment));
   FText (fg_state_before_identity fragment); FText (fg_state_after_identity fragment)].

(** src/src/tokenizer/decode.c, [fragment_identity] *)
Definition fragment_identity (fragment : tokenizer_fragment) : option tokenizer_fragment :=
  name ← sha256_identity (fragment_fields fragment);
  Some (Fragment (fg_token_id fragment) (fg_bytes fragment) (fg_pending_byte_count fragment)
          (fg_processed_token_count fragment) (fg_special fragment) (fg_eos fragment) (fg_suppressed fragment)
          (fg_state_before_identity fragment) (fg_state_after_identity fragment) name).

(** Stage one token over a state, which is the decoder's own or a transaction's. The bytes left over must fit the
    four bytes kept for them.
    src/src/tokenizer/decode.c, [decoder_stage_token] *)
Definition decoder_stage_token (env : stream_env) (t : yvex_tokenizer) (options : decode_options) (s : stream_state)
    (token_id : Z) : run (tokenizer_fragment * stream_state) :=
  refuse_when (do_cancelled options (se_poll env))
    with YVEX_ERR_CANCELLED "tokenizer decoding was cancelled before publication";
  let! class := yvex_tokenizer_token_classify t token_id in
  let! (piece, suppressed) := tokenizer_piece_decode (se_malloc env) t token_id (do_skip_special_tokens options) in
  refuse_when (4096 - Z.of_nat (length (ss_pending s)) <? Z.of_nat (length piece))
    with YVEX_ERR_BOUNDS "one token piece exceeds decoder bound";
  let combined := ss_pending s ++ piece in
  match utf8_prefix (length combined) combined 0 with
  | None => run_refuse YVEX_ERR_FORMAT "token produces malformed UTF-8 stream"
  | Some prefix =>
      refuse_when (negb (prefix =? 0) && negb (se_malloc env prefix)) with YVEX_ERR_NOMEM "fragment allocation failed";
      let pending := drop (Z.to_nat prefix) combined in
      let! _ := run_access (if Z.of_nat (length pending) <=? 4 then Some tt else None) in
      let processed := u64 (ss_processed s + 1) in
      match decoder_state_identity t options pending processed with
      | None => run_refuse YVEX_ERR_STATE "fragment state identity failed"
      | Some name =>
          match fragment_identity
                  (Fragment token_id (take (Z.to_nat prefix) combined) (Z.of_nat (length pending)) processed
                     (tc_special class) (tc_eos class) suppressed (ss_identity s) name "") with
          | None => run_refuse YVEX_ERR_STATE "fragment identity failed"
          | Some fragment => run_ret (fragment, StreamState pending processed name)
          end
      end
  end.

(** The answers to the allocations of an opening. *)
Record stream_open_env := StreamOpenEnv { so_calloc : bool; so_mutex : bool; so_condition : bool }.

(** A null [options] is [None].
    src/src/tokenizer/decode.c, [yvex_tokenizer_decoder_open] *)
Definition yvex_tokenizer_decoder_open (env : stream_open_env) (t : yvex_tokenizer) (options : option decode_options)
    : outcome tokenizer_decoder :=
  if negb (tp_sealed (tz_plan t)) then Refused YVEX_ERR_INVALID_ARG "sealed tokenizer and output are required"
  else if negb (so_calloc env) then Refused YVEX_ERR_NOMEM "decoder allocation failed"
  else
    let options := default (DecodeOptions true true (λ _, false)) options in
    if negb (so_mutex env) then Refused YVEX_ERR_STATE "decoder drain lock failed"
    else if negb (so_condition env) then Refused YVEX_ERR_STATE "decoder drain condition failed"
    else
      match decoder_state_identity t options [] 0 with
      | None => Refused YVEX_ERR_STATE "initial state identity failed"
      | Some name => Done (Decoder options (StreamState [] 0 name) false false false)
      end.

(** src/src/tokenizer/decode.c, [decoder_enter] *)
Definition decoder_enter (d : tokenizer_decoder) : outcome tokenizer_decoder :=
  if dc_active d || dc_closing d then
    Refused YVEX_ERR_STATE (if dc_closing d then "decoder is closing" else "decoder is already in use")
  else Done (d <| dc_active := true |>).

(** Who waits for the decoder to drain is woken.
    src/src/tokenizer/decode.c, [decoder_leave] *)
Definition decoder_leave (d : tokenizer_decoder) : tokenizer_decoder := d <| dc_active := false |>.

(** The decoder afterwards and the answer; [None] is a fault.
    src/src/tokenizer/decode.c, [yvex_tokenizer_decoder_push] *)
Definition yvex_tokenizer_decoder_push (env : stream_env) (t : yvex_tokenizer) (d : tokenizer_decoder) (token_id : Z)
    : option (tokenizer_decoder * outcome tokenizer_fragment) :=
  match decoder_enter d with
  | Refused st why => Some (d, Refused st why)
  | Done d =>
      let answer :=
        if dc_transaction_active d then run_refuse YVEX_ERR_STATE "decoder has an active candidate transaction"
        else decoder_stage_token env t (dc_options d) (dc_state d) token_id in
      match answer with
      | None => None
      | Some (Refused st why) => Some (decoder_leave d, Refused st why)
      | Some (Done (fragment, s)) => Some (decoder_leave (d <| dc_state := s |>), Done fragment)
      end
  end.

(** [calloc] answers for the transaction.
    src/src/tokenizer/decode.c, [yvex_tokenizer_decoder_transaction_begin] *)
Definition yvex_tokenizer_decoder_transaction_begin (calloc : bool) (d : tokenizer_decoder)
    : tokenizer_decoder * outcome decoder_transaction :=
  if dc_transaction_active d then (d, Refused YVEX_ERR_STATE "decoder cannot admit another candidate transaction")
  else
    let d := d <| dc_transaction_active := true |> in
    match decoder_enter d with
    | Refused st why => (d <| dc_transaction_active := false |>, Refused st why)
    | Done d =>
        if negb calloc then
          (decoder_leave (d <| dc_transaction_active := false |>),
           Refused YVEX_ERR_NOMEM "decoder transaction allocation failed")
        else (decoder_leave d, Done (DecoderTransaction (dc_state d) (ss_identity (dc_state d)) false))
    end.

(** Only the transaction changes: the decoder is not entered.
    src/src/tokenizer/decode.c, [yvex_tokenizer_decoder_transaction_push] *)
Definition yvex_tokenizer_decoder_transaction_push (env : stream_env) (t : yvex_tokenizer) (d : tokenizer_decoder)
    (x : decoder_transaction) (token_id : Z) : option (decoder_transaction * outcome tokenizer_fragment) :=
  if dt_prepared x then Some (x, Refused YVEX_ERR_STATE "mutable decoder transaction and fragment are required")
  else
    match decoder_stage_token env t (dc_options d) (dt_state x) token_id with
    | None => None
    | Some (Refused st why) => Some (x, Refused st why)
    | Some (Done (fragment, s)) => Some (x <| dt_state := s |>, Done fragment)
    end.

(** A prepared transaction keeps the decoder entered.
    src/src/tokenizer/decode.c, [yvex_tokenizer_decoder_transaction_prepare] *)
Definition yvex_tokenizer_decoder_transaction_prepare (d : tokenizer_decoder) (x : decoder_transaction)
    : tokenizer_decoder * outcome decoder_transaction :=
  if dt_prepared x then (d, Refused YVEX_ERR_STATE "unprepared decoder transaction is required")
  else
    match decoder_enter d with
    | Refused st why => (d, Refused st why)
    | Done d =>
        if negb (dc_transaction_active d) || negb (String.eqb (ss_identity (dc_state d)) (dt_base_identity x)) then
          (decoder_leave d, Refused YVEX_ERR_STATE "decoder state changed while the candidate was staged")
        else (d, Done (x <| dt_prepared := true |>))
    end.

(** The transaction is kept ([Some]) or consumed ([None]).
    src/src/tokenizer/decode.c, [yvex_tokenizer_decoder_transaction_publish] *)
Definition yvex_tokenizer_decoder_transaction_publish (d : tokenizer_decoder) (x : decoder_transaction)
    : tokenizer_decoder * option decoder_transaction :=
  if negb (dt_prepared x) then (d, Some x)
  else (decoder_leave (d <| dc_state := dt_state x |> <| dc_transaction_active := false |>), None).

(** src/src/tokenizer/decode.c, [yvex_tokenizer_decoder_transaction_abort] *)
Definition yvex_tokenizer_decoder_transaction_abort (d : tokenizer_decoder) (x : decoder_transaction)
    : tokenizer_decoder :=
  let d := d <| dc_transaction_active := false |> in
  if dt_prepared x then decoder_leave d else d.

(** src/src/tokenizer/decode.c, [yvex_tokenizer_decoder_finish] *)
Definition yvex_tokenizer_decoder_finish (env : stream_env) (d : tokenizer_decoder)
    : tokenizer_decoder * outcome tokenizer_fragment :=
  match decoder_enter d with
  | Refused st why => (d, Refused st why)
  | Done d =>
      let s := dc_state d in
      let answer :=
        if dc_transaction_active d then Refused YVEX_ERR_STATE "decoder has an active candidate transaction"
        else if do_cancelled (dc_options d) (se_poll env) then
          Refused YVEX_ERR_CANCELLED "tokenizer decoding was cancelled before publication"
        else if negb (Nat.eqb (length (ss_pending s)) 0) && do_require_complete_utf8 (dc_options d) then
          Refused YVEX_ERR_FORMAT "incomplete UTF-8 tail remains"
        else
          match fragment_identity
                  (Fragment 0 [] (Z.of_nat (length (ss_pending s))) (ss_processed s) false false false
                     (ss_identity s) (ss_identity s) "") with
          | None => Refused YVEX_ERR_STATE ""
          | Some fragment => Done fragment
          end in
      (decoder_leave d, answer)
  end.

(** src/src/tokenizer/decode.c, [yvex_tokenizer_decoder_reset] *)
Definition yvex_tokenizer_decoder_reset (t : yvex_tokenizer) (d : tokenizer_decoder)
    : tokenizer_decoder * outcome unit :=
  match decoder_enter d with
  | Refused st why => (d, Refused st why)
  | Done d =>
      if dc_transaction_active d then
        (decoder_leave d, Refused YVEX_ERR_STATE "decoder has an active candidate transaction")
      else
        match decoder_state_identity t (dc_options d) [] 0 with
        | None => (decoder_leave d, Refused YVEX_ERR_STATE "empty decoder identity derivation failed")
        | Some name => (decoder_leave (d <| dc_state := StreamState [] 0 name |>), Done tt)
        end
  end.

(** Closing marks the decoder, waits until nobody is inside, and releases it ([None]) unless a transaction on it is
    still open.
    src/src/tokenizer/decode.c:811-819, [yvex_tokenizer_decoder_close] *)
Definition decoder_close_begin (d : tokenizer_decoder) : tokenizer_decoder := d <| dc_closing := true |>.

(** src/src/tokenizer/decode.c:820-828, [yvex_tokenizer_decoder_close] *)
Definition decoder_close_ready (d : tokenizer_decoder) : bool := negb (dc_active d).

(** src/src/tokenizer/decode.c:829-836, [yvex_tokenizer_decoder_close] *)
Definition decoder_close_end (d : tokenizer_decoder) : option tokenizer_decoder :=
  if dc_transaction_active d then Some d else None.

(** * Complete text in front of an incomplete end *)

(** An incomplete end is no scalar value, and is short. *)
Lemma tail_valid_head tail : utf8_tail_valid tail = true → utf8_head tail = None ∧ (1 ≤ length tail ≤ 3)%nat.
Proof.
  destruct tail as [|first rest]; [done|]. unfold utf8_tail_valid, utf8_head. cbn [lookup list_lookup mbind option_bind].
  destruct ((194 <=? first) && (first <=? 223)) eqn:E1; [|destruct ((224 <=? first) && (first <=? 239)) eqn:E2;
    [|destruct ((240 <=? first) && (first <=? 244)) eqn:E3; [|done]]];
    intros [[H1 H2]%andb_true_iff _]%andb_true_iff; apply Z.leb_le in H1; apply Z.ltb_lt in H2;
    guards; (destruct (Z.leb_spec first 127); [lia|]); cbn [mbind option_bind];
    rewrite bool_decide_eq_true_2 by lia; (split; [done|]); cbn [length] in *; lia.
Qed.

(** The bytes of an incomplete end, known as digits. *)
Ltac incomplete Hc :=
  unfold utf8_tail_valid; compare_all; cbn [length forallb andb]; rewrite ?Hc by tauto; done.

(** Every proper beginning of a scalar value is an incomplete end. *)
Lemma put_prefix_tail point a b :
  is_scalar point → utf8_put point = a ++ b → a ≠ [] → b ≠ [] → utf8_tail_valid a = true.
Proof.
  intros Hs E Ha Hb. assert (Forall is_u8 (utf8_put point)) as Hu by apply utf8_put_u8.
  assert (0 ≤ point ≤ 1114111) as Hr by (destruct Hs; lia).
  rewrite utf8_put_digits in * by done. unfold utf8_digits in *.
  pose proof (Z.div_lt_upper_bound point 64 32). pose proof (Z.div_lt_upper_bound point 4096 16).
  pose proof (Z.div_lt_upper_bound point 262144 5). pose proof (Z.div_pos point 262144).
  pose proof (Z.div_pos point 4096). pose proof (Z.div_le_lower_bound point 64 2).
  assert (∀ x, is_u8 (128 + x mod 64) → (Z.land (128 + x mod 64) 192 =? 128) = true) as Hc.
  { intros x Hx. apply continuation_byte_bit; [done|]. pose proof (Z.mod_pos_bound x 64). lia. }
  destruct (Z.ltb_spec point 128); [|destruct (Z.ltb_spec point 2048); [|destruct (Z.ltb_spec point 65536)]];
    rewrite ?Forall_cons in Hu; destruct a as [|a0 a]; try done; injection E as <- E.
  - by destruct a, b.
  - destruct a as [|a1 [|]]; cbn [app] in E; simplify_list_eq; try done; incomplete Hc.
  - destruct a as [|a1 [|a2 [|]]]; cbn [app] in E; simplify_list_eq; try done; incomplete Hc.
  - destruct a as [|a1 [|a2 [|a3 [|]]]]; cbn [app] in E; simplify_list_eq; try done; incomplete Hc.
Qed.

(** Nothing, or an incomplete end. *)
Definition incomplete_end (tail : list Z) : Prop := tail = [] ∨ utf8_tail_valid tail = true.

(** Bytes that are complete text and then, perhaps, an incomplete end. *)
Definition text_and_end (bytes text tail : list Z) : Prop :=
  bytes = text ++ tail ∧ (∃ points, Forall is_scalar points ∧ text = utf8_text points) ∧ incomplete_end tail.

Lemma utf8_prefix_from_spec bytes fuel offset n :
  Forall is_u8 bytes → 0 ≤ offset ≤ Z.of_nat (length bytes) → (length bytes ≤ fuel + Z.to_nat offset)%nat →
  utf8_prefix fuel bytes offset = Some n ↔
  ∃ text tail, text_and_end (drop (Z.to_nat offset) bytes) text tail ∧ n = offset + Z.of_nat (length text).
Proof.
  intros Hu. revert offset. induction fuel as [|fuel IH]; intros offset Ho Hf; cbn [utf8_prefix];
    destruct (Z.ltb_spec offset (Z.of_nat (length bytes))); try lia.
  - rewrite drop_ge by lia. split.
    + intros [= <-]. exists [], []. split; [|cbn; lia]. split_and!; [done|by exists []|by left].
    + intros (text & tail & (E & _ & _) & ->). symmetry in E. apply app_eq_nil in E as [-> _]. cbn. f_equal. lia.
  - pose proof (Forall_drop _ (Z.to_nat offset) _ Hu) as Hud.
    destruct (yvex_tokenizer_utf8_next bytes offset) as [[p next]|] eqn:E.
    + pose proof (utf8_next_grows bytes offset p next Hu (proj1 Ho) E) as Hn.
      pose proof E as E0. apply utf8_next_spec in E as (Hs & Enext & [tl Htl]); [|done|lia]. rewrite IH by lia.
      assert (drop (Z.to_nat next) bytes = tl) as ->.
      { replace (Z.to_nat next) with (Z.to_nat offset + length (utf8_put p))%nat by lia.
        rewrite <- drop_drop, Htl. apply drop_app_length. }
      rewrite Htl in Hud |- *. apply Forall_app in Hud as [_ Htu]. split.
      * intros (text & tail & (-> & (points & Hps & ->) & He) & ->). exists (utf8_text (p :: points)), tail.
        rewrite utf8_text_cons, length_app. split; [|lia]. split_and!; [by rewrite (assoc_L (++))| |done].
        exists (p :: points). split; [by constructor|done].
      * intros (text & tail & (Et & (points & Hps & ->) & He) & ->). destruct points as [|q points].
        { exfalso. cbn [utf8_text fmap list_fmap mjoin list_join app] in Et.
          rewrite utf8_next_head in E0 by lia. rewrite Htl, Et in E0. destruct He as [->|He].
          - done.
          - apply tail_valid_head in He as [He _]. by rewrite He in E0. }
        apply Forall_cons in Hps as [Hq Hps]. rewrite utf8_text_cons, <- (assoc_L (++)) in Et.
        pose proof Htu as Htu'. apply utf8_put_inj in Et as [<- ->]; [|done..|].
        2: { assert (Forall is_u8 (utf8_put p ++ tl)) as Hall by (apply Forall_app; split; [apply utf8_put_u8|done]).
             rewrite Et in Hall. by apply Forall_app in Hall as [_ ?]. }
        exists (utf8_text points), tail. split; [|rewrite utf8_text_cons, length_app; lia].
        split_and!; [done|by exists points|done].
    + assert (∀ points tail, Forall is_scalar points → drop (Z.to_nat offset) bytes = utf8_text points ++ tail → points = []) as Hnil.
      { intros [|q points] tail Hps Et; [done|]. exfalso. apply Forall_cons in Hps as [Hq _].
        rewrite (proj2 (utf8_next_spec bytes offset q (offset + Z.of_nat (length (utf8_put q))) Hu (proj1 Ho))) in E; [done|].
        split; [done|]. split; [done|]. rewrite Et, utf8_text_cons, <- (assoc_L (++)). by eexists. }
      split.
      * destruct (utf8_tail_valid _) eqn:Ev; [|done]. intros [= <-]. exists [], (drop (Z.to_nat offset) bytes).
        split; [|cbn; lia]. split_and!; [done|by exists []|by right].
      * intros (text & tail & (Et & (points & Hps & ->) & He) & ->). pose proof (Hnil _ _ Hps Et) as ->. cbn [app] in Et.
        change (utf8_text [] ++ tail) with tail in Et. rewrite Et. destruct He as [->|He].
        -- apply (f_equal length) in Et. rewrite length_drop in Et. cbn in Et. lia.
        -- rewrite He. cbn. f_equal. lia.
  - rewrite drop_ge by lia. split.
    + intros [= <-]. exists [], []. split; [|cbn; lia]. split_and!; [done|by exists []|by left].
    + intros (text & tail & (E & _ & _) & ->). symmetry in E. apply app_eq_nil in E as [-> _]. cbn. f_equal. lia.
Qed.

(** The scan finds the split of the bytes into text and an incomplete end, if there is one. *)
Lemma utf8_prefix_spec bytes n :
  Forall is_u8 bytes →
  utf8_prefix (length bytes) bytes 0 = Some n ↔
  ∃ text tail, text_and_end bytes text tail ∧ n = Z.of_nat (length text).
Proof.
  intros Hu. rewrite utf8_prefix_from_spec by (done || lia). change (drop (Z.to_nat 0) bytes) with bytes.
  split; intros (text & tail & H & ->); exists text, tail; by split; [|lia].
Qed.

Lemma text_and_end_unique bytes text tail text' tail' :
  Forall is_u8 bytes → text_and_end bytes text tail → text_and_end bytes text' tail' → text' = text ∧ tail' = tail.
Proof.
  intros Hu H H'.
  assert (utf8_prefix (length bytes) bytes 0 = Some (Z.of_nat (length text))) as E by (apply utf8_prefix_spec; eauto).
  assert (utf8_prefix (length bytes) bytes 0 = Some (Z.of_nat (length text'))) as E' by (apply utf8_prefix_spec; eauto).
  destruct H as [-> _], H' as [Eb _]. assert (length text = length text') as El by (rewrite E in E'; injection E'; lia).
  apply app_inj_1 in Eb as [-> ->]; done.
Qed.

(** A beginning of a text is a text and an incomplete end. *)
Lemma text_prefix_split points bytes after :
  Forall is_scalar points → utf8_text points = bytes ++ after → ∃ text tail, text_and_end bytes text tail.
Proof.
  intros Hps. revert bytes. induction Hps as [|p points Hp Hps IH]; intros bytes E.
  - symmetry in E. apply app_eq_nil in E as [-> ->]. exists [], []. split_and!; [done|by exists []|by left].
  - rewrite utf8_text_cons in E. apply app_eq_inv in E as [(k & E & Ek)|(k & -> & Ek)].
    + destruct (decide (k = [])) as [->|Hk].
      { rewrite app_nil_r in E. rewrite <- E. exists (utf8_text [p]), []. rewrite utf8_text_cons, !app_nil_r.
        split_and!; [by rewrite app_nil_r| |by left]. exists [p]. split; [by constructor|by rewrite utf8_text_cons, app_nil_r]. }
      exists [], bytes. split_and!; [done|by exists []|]. destruct (decide (bytes = [])) as [->|Hne]; [by left|].
      right. by eapply put_prefix_tail.
    + destruct (IH k Ek) as (text & tail & (-> & (ps & Hps' & ->) & He)). exists (utf8_text (p :: ps)), tail.
      rewrite utf8_text_cons. split_and!; [by rewrite <- (assoc_L (++))| |done]. exists (p :: ps). split; [by constructor|done].
Qed.

(** * One token *)

(** What a state keeps: an incomplete end, and an identity as long as a digest. *)
Record stream_ok (s : stream_state) : Prop := StreamOk {
  so_pending : incomplete_end (ss_pending s);
  so_bytes : Forall is_u8 (ss_pending s);
  so_identity : strlen (ss_identity s) = 64;
}.

Lemma incomplete_end_length tail : incomplete_end tail → (length tail ≤ 3)%nat.
Proof. intros [->|H%tail_valid_head]; [cbn; lia|lia]. Qed.

(** ** What an incomplete end is the beginning of *)

(** A second byte outside the range its first byte leaves it: overlong, a surrogate, or past the last scalar value. *)
Definition second_outside (first second : Z) : Prop :=
  first = 224 ∧ second < 160 ∨ first = 237 ∧ 160 ≤ second ∨ first = 240 ∧ second < 144 ∨ first = 244 ∧ 144 ≤ second.

Definition begins_scalar (bytes : list Z) : Prop :=
  ∃ point after, is_scalar point ∧ utf8_put point = bytes ++ after ∧ after ≠ [].

(** A first byte and continuation bytes, with which no scalar value begins. *)
Definition dead_end (bytes : list Z) : Prop :=
  ∃ first second rest, bytes = first :: second :: rest ∧ 128 ≤ second < 192 ∧ second_outside first second.

Section digits.
#[local] Ltac Zify.zify_post_hook ::= Z.to_euclidean_division_equations.

Lemma two_bytes f s : 194 ≤ f ≤ 223 → 128 ≤ s < 192 →
  ∃ point, is_scalar point ∧ utf8_put point = [f; s].
Proof.
  intros Hf Hs. exists ((f - 192) * 64 + (s - 128)). assert (is_scalar ((f - 192) * 64 + (s - 128))) by (left; lia).
  split; [done|]. rewrite utf8_put_digits by done. unfold utf8_digits.
  rewrite (proj2 (Z.ltb_ge _ 128)), (proj2 (Z.ltb_lt _ 2048)) by lia. repeat f_equal; lia.
Qed.

Lemma three_bytes f s t : 224 ≤ f ≤ 239 → 128 ≤ s < 192 → 128 ≤ t < 192 → (f = 224 → 160 ≤ s) → (f = 237 → s < 160) →
  ∃ point, is_scalar point ∧ utf8_put point = [f; s; t].
Proof.
  intros Hf Hs Ht Hlow Hsur. set (point := (f - 224) * 4096 + (s - 128) * 64 + (t - 128)). exists point.
  assert (is_scalar point) by (unfold is_scalar, point; lia).
  split; [done|]. rewrite utf8_put_digits by done. unfold utf8_digits.
  rewrite (proj2 (Z.ltb_ge _ 128)), (proj2 (Z.ltb_ge _ 2048)), (proj2 (Z.ltb_lt _ 65536)) by (unfold point; lia).
  unfold point. repeat f_equal; lia.
Qed.

Lemma four_bytes f s t u : 240 ≤ f ≤ 244 → 128 ≤ s < 192 → 128 ≤ t < 192 → 128 ≤ u < 192 →
  (f = 240 → 144 ≤ s) → (f = 244 → s < 144) →
  ∃ point, is_scalar point ∧ utf8_put point = [f; s; t; u].
Proof.
  intros Hf Hs Ht Hu Hlow Hmax. set (point := (f - 240) * 262144 + (s - 128) * 4096 + (t - 128) * 64 + (u - 128)). exists point.
  assert (is_scalar point) by (unfold is_scalar, point; lia).
  split; [done|]. rewrite utf8_put_digits by done. unfold utf8_digits.
  rewrite (proj2 (Z.ltb_ge _ 128)), (proj2 (Z.ltb_ge _ 2048)), (proj2 (Z.ltb_ge _ 65536)) by (unfold point; lia).
  unfold point. repeat f_equal; lia.
Qed.

Lemma dead_end_dead bytes point after : dead_end bytes → is_scalar point → utf8_put point ≠ bytes ++ after.
Proof.
  intros (first & second & rest & -> & Hr & Ho) Hp. rewrite utf8_put_digits by done. unfold utf8_digits.
  assert (0 ≤ point ≤ 1114111) by (destruct Hp; lia). unfold second_outside, is_scalar in *.
  destruct (Z.ltb_spec point 128); [|destruct (Z.ltb_spec point 2048); [|destruct (Z.ltb_spec point 65536)]];
    intros [= E1 E2]; lia.
Qed.
End digits.

(** No text begins with a dead end. *)
Lemma dead_end_no_text bytes points after : dead_end bytes → Forall is_scalar points → utf8_text points ≠ bytes ++ after.
Proof.
  intros Hd Hps E. destruct points as [|point points].
  { by destruct Hd as (? & ? & ? & -> & _). }
  apply Forall_cons in Hps as [Hp _]. rewrite utf8_text_cons in E.
  pose proof Hd as (first & second & rest & -> & Hr & Ho).
  pose proof (utf8_put_length point). destruct (utf8_put point) as [|x [|y l]] eqn:Ep; cbn in *; [lia| |].
  - injection E as -> _. rewrite utf8_put_digits in Ep by done. unfold utf8_digits in Ep.
    destruct (Z.ltb_spec point 128); [|by destruct (Z.ltb_spec point 2048), (Z.ltb_spec point 65536)].
    injection Ep as ->.
    unfold second_outside, is_scalar in *. lia.
  - injection E as -> -> _. apply (dead_end_dead (first :: [second]) point l); [by exists first, second, []|done|by rewrite Ep].
Qed.

Lemma incomplete_end_begins bytes : Forall is_u8 bytes → utf8_tail_valid bytes = true → begins_scalar bytes ∨ dead_end bytes.
Proof.
  intros Hu H. destruct bytes as [|f bytes]; [done|]. unfold utf8_tail_valid in H.
  assert (∀ s, s ∈ bytes → 128 ≤ s < 192) as Hc.
  { intros s Hs. apply Forall_cons in Hu as [_ Hu]. rewrite Forall_forall in Hu. apply continuation_byte_bit; [by apply Hu|].
    destruct ((194 <=? f) && _); [|destruct ((224 <=? f) && _); [|destruct ((240 <=? f) && _); [|done]]];
      apply andb_true_iff in H as [_ H]; rewrite forallb_forall in H; by apply H, list_elem_of_In. }
  assert (∀ s rest, bytes = s :: rest → second_outside f s → dead_end (f :: bytes)) as Hdead.
  { intros s rest -> Ho. exists f, s, rest. split; [done|]. split; [|done]. apply Hc. by left. }
  destruct ((194 <=? f) && (f <=? 223)) eqn:E1; [|destruct ((224 <=? f) && (f <=? 239)) eqn:E2;
    [|destruct ((240 <=? f) && (f <=? 244)) eqn:E3; [|done]]]; guards.
  - assert (bytes = []) as -> by (destruct bytes; cbn [length] in *; [done|lia]). left.
    destruct (two_bytes f 128) as (point & Hs & E); [lia|lia|]. by exists point, [128].
  - destruct bytes as [|s [|]]; cbn [length] in *; [| |lia].
    + left. destruct (three_bytes f (if f =? 224 then 160 else 128) 128) as (point & Hs & E);
        [lia|destruct (f =? 224); lia|lia|intros ->; done|destruct (Z.eqb_spec f 224); lia|].
      by exists point, [if f =? 224 then 160 else 128; 128].
    + specialize (Hdead s [] eq_refl). specialize (Hc s ltac:(by left)). unfold second_outside in Hdead.
      destruct (decide (f = 224 ∧ s < 160 ∨ f = 237 ∧ 160 ≤ s)); [right; apply Hdead; lia|left].
      destruct (three_bytes f s 128) as (point & Hs & E); [lia|lia|lia|lia|lia|]. by exists point, [128].
  - specialize (Hdead). destruct bytes as [|s rest]; cbn [length] in *.
    + left. destruct (four_bytes f (if f =? 240 then 144 else 128) 128 128) as (point & Hs & E);
        [lia|destruct (f =? 240); lia|lia|lia|intros ->; done|destruct (Z.eqb_spec f 240); lia|].
      by exists point, [if f =? 240 then 144 else 128; 128; 128].
    + specialize (Hdead s rest eq_refl). pose proof (Hc s ltac:(by left)). unfold second_outside in Hdead.
      destruct (decide (f = 240 ∧ s < 144 ∨ f = 244 ∧ 144 ≤ s)); [right; apply Hdead; lia|left].
      destruct rest as [|t [|]]; cbn [length] in *; [| |lia].
      * destruct (four_bytes f s 128 128) as (point & Hs & E); [lia|lia|lia|lia|lia|lia|]. by exists point, [128; 128].
      * pose proof (Hc t ltac:(by right; left)). destruct (four_bytes f s t 128) as (point & Hs & E); [lia|lia|lia|lia|lia|lia|]. by exists point, [128].
Qed.

Lemma pending_shape bytes : Forall is_u8 bytes → incomplete_end bytes →
  bytes = [] ∨ begins_scalar bytes ∨
  dead_end bytes ∧ ∀ points after, Forall is_scalar points → utf8_text points ≠ bytes ++ after.
Proof.
  intros Hu [->|H]; [by left|]. right. destruct (incomplete_end_begins bytes Hu H) as [|Hd]; [by left|right].
  split; [done|]. intros points after. by apply dead_end_no_text.
Qed.

Section stream.
Context (t : yvex_tokenizer) (Hplan : strlen (tp_tokenizer_plan_identity (tz_plan t)) ≤ 64).
Context (Htexts : texts_bytes (tz_tokens t)) (options : decode_options).

#[local] Abbreviation skip := (do_skip_special_tokens options).

Lemma emits_u8 id piece : emits t skip id piece → Forall is_u8 piece.
Proof.
  intros (token & (i & Ei)%array_get_Some & H). destruct (skip && is_control token); [subst; constructor|].
  destruct (is_added token); [|apply H]. subst. apply (Forall_lookup_1 _ _ _ _ Htexts Ei).
Qed.

Lemma state_identity_total pending processed :
  (length pending ≤ 4)%nat → ∃ id, decoder_state_identity t options pending processed = Some id ∧ strlen id = 64.
Proof.
  intros Hl. apply sha256_identity_total. unfold decoder_state_fields. cbn [fields_size foldr field_size]. strlen_literals.
  change (ULLONG_MAX / 8) with 2305843009213693951. lia.
Qed.

Lemma fragment_identity_total fragment :
  (length (fg_bytes fragment) ≤ 4096)%nat → strlen (fg_state_before_identity fragment) = 64 →
  strlen (fg_state_after_identity fragment) = 64 →
  ∃ id, fragment_identity fragment = Some (Fragment (fg_token_id fragment) (fg_bytes fragment)
    (fg_pending_byte_count fragment) (fg_processed_token_count fragment) (fg_special fragment) (fg_eos fragment)
    (fg_suppressed fragment) (fg_state_before_identity fragment) (fg_state_after_identity fragment) id).
Proof.
  intros Hl Hb Ha. unfold fragment_identity. destruct (sha256_identity_total (fragment_fields fragment)) as (id & -> & _).
  - unfold fragment_fields. cbn [fields_size foldr field_size]. strlen_literals. change (ULLONG_MAX / 8) with 2305843009213693951. lia.
  - by exists id.
Qed.

(** What a token staged over a state publishes, and leaves. *)
Record staged (s : stream_state) (id : Z) (piece : list Z) (fragment : tokenizer_fragment) (s' : stream_state) : Prop :=
  Staged {
    sg_split : text_and_end (ss_pending s ++ piece) (fg_bytes fragment) (ss_pending s');
    sg_state : stream_ok s';
    sg_processed : ss_processed s' = u64 (ss_processed s + 1);
    sg_token : fg_token_id fragment = id ∧ fg_processed_token_count fragment = ss_processed s' ∧
      fg_pending_byte_count fragment = Z.of_nat (length (ss_pending s'));
    sg_chain : fg_state_before_identity fragment = ss_identity s ∧ fg_state_after_identity fragment = ss_identity s';
  }.

(** Why a token may be refused. *)
Definition stage_refused (env : stream_env) (s : stream_state) (piece : list Z) : Prop :=
  do_cancelled options (se_poll env) = true ∨ (∃ size, se_malloc env size = false) ∨
  4096 < Z.of_nat (length (ss_pending s ++ piece)) ∨ ¬ ∃ text tail, text_and_end (ss_pending s ++ piece) text tail.

Lemma stage_spec env s id piece :
  stream_ok s → emits t skip id piece →
  (∃ fragment s', decoder_stage_token env t options s id = Some (Done (fragment, s')) ∧ staged s id piece fragment s') ∨
  (∃ st why, decoder_stage_token env t options s id = Some (Refused st why) ∧ stage_refused env s piece).
Proof.
  intros [Hp Hu Hid] Hpiece. unfold decoder_stage_token.
  destruct (do_cancelled options (se_poll env)) eqn:Ec; [right; do 2 eexists; split; [done|by left]|].
  pose proof Hpiece as (token & Et & _). unfold yvex_tokenizer_token_classify.
  pose proof (array_get_Some _ _ _ Et) as [Hrange _].
  destruct (Z.leb_spec (vocab_size t) id); [unfold vocab_size in *; lia|]. rewrite Et. cbn [run_access run_bind].
  change (run_bind (run_ret ?x) ?f) with (f x). cbn beta.
  destruct (piece_decoded t (DecodeEnv (λ _, true) (se_malloc env) None) options id piece Hpiece)
    as [(suppressed & E)|(st & why & E & Hr)]; cbn [dv_malloc] in *; rewrite E; cbn [run_bind].
  2: { right. do 2 eexists. split; [done|]. right. by left. }
  destruct (Z.ltb_spec (4096 - Z.of_nat (length (ss_pending s))) (Z.of_nat (length piece))) as [Hb|Hb].
  { right. do 2 eexists. split; [done|]. right. right. left. rewrite length_app. lia. }
  assert (Forall is_u8 (ss_pending s ++ piece)) as Hall by (apply Forall_app; split; [done|by eapply emits_u8]).
  destruct (utf8_prefix _ _ 0) as [n|] eqn:En.
  2: { right. do 2 eexists. split; [done|]. right. right. right. intros (text & tail & H').
       pose proof (proj2 (utf8_prefix_spec _ (Z.of_nat (length text)) Hall)) as E'. rewrite E' in En; [done|].
       by exists text, tail. }
  apply utf8_prefix_spec in En as (text & tail & Hsplit & ->); [|done].
  pose proof Hsplit as (Ebytes & _ & He). pose proof (incomplete_end_length _ He) as Hl.
  rewrite Nat2Z.id, Ebytes, drop_app_length, take_app_length.
  destruct (negb _ && _) eqn:Em; [right; do 2 eexists; split; [done|]; right; left; guards; eauto|].
  rewrite (proj2 (Z.leb_le _ _)) by lia. cbn [run_access run_bind].
  destruct (state_identity_total tail (u64 (ss_processed s + 1))) as (name & -> & Hlen); [lia|].
  assert (length text ≤ 4096)%nat as Htext.
  { apply (f_equal length) in Ebytes. rewrite !length_app in Ebytes. lia. }
  match goal with |- context [fragment_identity ?f] => destruct (fragment_identity_total f) as (fid & ->) end; [done..|].
  left. do 2 eexists. split; [reflexivity|]. rewrite Ebytes in Hall. apply Forall_app in Hall as [_ Htail].
  constructor; [by rewrite Ebytes in Hsplit |- *|by constructor|done|done|done].
Qed.

(** * Many tokens *)

(** Tokens staged one after another; the first refusal ends it. *)
Fixpoint stage_all (s : stream_state) (calls : list (stream_env * Z)) : run (stream_state * list tokenizer_fragment) :=
  match calls with
  | [] => run_ret (s, [])
  | (env, id) :: calls =>
      let! (fragment, s) := decoder_stage_token env t options s id in
      let! (s, fragments) := stage_all s calls in
      run_ret (s, fragment :: fragments)
  end.

(** What fragments publish, one behind another. *)
Definition published (fragments : list tokenizer_fragment) : list Z := mjoin (fg_bytes <$> fragments).

(** Each fragment follows the state the one before it left. *)
Fixpoint chained (before : string) (fragments : list tokenizer_fragment) (after : string) : Prop :=
  match fragments with
  | [] => before = after
  | fragment :: fragments =>
      fg_state_before_identity fragment = before ∧ chained (fg_state_after_identity fragment) fragments after
  end.

(** What a run of tokens publishes, and leaves. *)
Record streamed (s : stream_state) (ids : list Z) (pieces : list (list Z)) (fragments : list tokenizer_fragment)
    (s' : stream_state) : Prop := Streamed {
  sr_bytes : published fragments ++ ss_pending s' = ss_pending s ++ mjoin pieces;
  sr_text : Forall (λ fragment, ∃ points, Forall is_scalar points ∧ fg_bytes fragment = utf8_text points) fragments;
  sr_tokens : fg_token_id <$> fragments = ids;
  sr_chain : chained (ss_identity s) fragments (ss_identity s');
  sr_state : stream_ok s';
}.

Lemma streamed_cons s id piece fragment s1 ids pieces fragments s2 :
  staged s id piece fragment s1 → streamed s1 ids pieces fragments s2 →
  streamed s (id :: ids) (piece :: pieces) (fragment :: fragments) s2.
Proof.
  intros [(Eb & Htext & _) Hok _ (Eid & _) [Hbefore Hafter]] [Hbytes Hall Htokens Hchain Hok'].
  change (published (fragment :: fragments)) with (fg_bytes fragment ++ published fragments).
  constructor; [|by constructor|cbn; congruence| |done].
  - unfold published in *. change (mjoin (fg_bytes <$> fragment :: fragments)) with (fg_bytes fragment ++ published fragments).
    change (mjoin (piece :: pieces)) with (piece ++ mjoin pieces). unfold published.
    by rewrite <- (assoc_L (++)), Hbytes, !(assoc_L (++)), Eb.
  - cbn [chained]. split; [done|]. by rewrite Hafter.
Qed.

Lemma stage_all_spec s calls pieces :
  stream_ok s → Forall2 (emits t skip) calls.*2 pieces →
  (∃ fragments s', stage_all s calls = Some (Done (s', fragments)) ∧ streamed s calls.*2 pieces fragments s') ∨
  (∃ st why, stage_all s calls = Some (Refused st why)).
Proof.
  revert s pieces. induction calls as [|[env id] calls IH]; intros s pieces Hok Hd; cbn [stage_all fmap list_fmap] in *.
  - apply Forall2_nil_inv_l in Hd as ->. left. exists [], s. split; [done|]. constructor; try done.
    cbn. by rewrite app_nil_r.
  - apply Forall2_cons_inv_l in Hd as (piece & pieces' & Hpiece & Hd & ->).
    destruct (stage_spec env s id piece Hok Hpiece) as [(fragment & s1 & -> & Hst)|(st & why & -> & _)]; cbn [run_bind].
    2: { right. by exists st, why. }
    destruct (IH s1 pieces' (sg_state _ _ _ _ _ Hst) Hd) as [(fragments & s2 & -> & Hs)|(st & why & ->)]; cbn [run_bind].
    + left. do 2 eexists. split; [done|]. by eapply streamed_cons.
    + right. by exists st, why.
Qed.

(** Calls that find memory and are not cancelled. *)
Definition calls_served (calls : list (stream_env * Z)) : Prop :=
  Forall (λ call, do_cancelled options (se_poll call.1) = false ∧ ∀ size, se_malloc call.1 size = true) calls.

(** A whole text is published, when every piece fits the decoder's buffer. *)
Lemma stage_all_text s calls pieces points :
  stream_ok s → Forall2 (emits t skip) calls.*2 pieces → calls_served calls →
  Forall (λ piece, Z.of_nat (length piece) ≤ 4093) pieces →
  Forall is_scalar points → ss_pending s ++ mjoin pieces = utf8_text points →
  ∃ fragments s', stage_all s calls = Some (Done (s', fragments)) ∧ ss_pending s' = [].
Proof.
  revert s pieces points. induction calls as [|[env id] calls IH]; intros s pieces points Hok Hd Hserved Hsize Hpoints Hwhole;
    cbn [stage_all fmap list_fmap] in *.
  - apply Forall2_nil_inv_l in Hd as ->. cbn in Hwhole. rewrite app_nil_r in Hwhole.
    exists [], s. split; [done|]. destruct Hok as [Hp Hu _].
    apply (text_and_end_unique (ss_pending s) (ss_pending s) [] [] (ss_pending s)); [done| |].
    + split_and!; [by rewrite app_nil_r|by exists points|by left].
    + split_and!; [done|by exists []|done].
  - apply Forall2_cons_inv_l in Hd as (piece & pieces' & Hpiece & Hd & ->).
    apply Forall_cons in Hserved as [[Hc Hm] Hserved]. apply Forall_cons in Hsize as [Hl Hsize]. cbn [fst] in *.
    change (mjoin (piece :: pieces')) with (piece ++ mjoin pieces') in Hwhole. rewrite (assoc_L (++)) in Hwhole.
    destruct (stage_spec env s id piece Hok Hpiece) as [(fragment & s1 & -> & Hst)|(st & why & -> & Hr)]; cbn [run_bind].
    + pose proof Hst as [(Eb & (ps & Hps & Etext) & He) Hok1 _ _ _]. rewrite Eb, Etext, <- (assoc_L (++)) in Hwhole.
      assert (Forall is_u8 (ss_pending s1 ++ mjoin pieces')) as Hrest.
      { pose proof (utf8_text_u8 points) as Hall. rewrite <- Hwhole in Hall. by apply Forall_app in Hall as [_ ?]. }
      symmetry in Hwhole. apply utf8_text_strip in Hwhole as (rest & -> & Erest); [|done..].
      apply Forall_app in Hpoints as [_ Hpoints].
      destruct (IH s1 pieces' rest Hok1 Hd Hserved Hsize Hpoints Erest) as (fragments & s2 & -> & E2). cbn [run_bind].
      by do 2 eexists.
    + exfalso. destruct Hr as [Hr|[[size Hr]|[Hr|Hr]]]; [congruence|by rewrite Hm in Hr| |].
      * pose proof (incomplete_end_length _ (so_pending _ Hok)). rewrite length_app in Hr. lia.
      * apply Hr. by eapply text_prefix_split.
Qed.
End stream.

(** * A decoder at rest *)

(** Nobody is inside, nobody closes it, and no transaction is open on it. *)
Definition idle (d : tokenizer_decoder) : Prop :=
  dc_active d = false ∧ dc_closing d = false ∧ dc_transaction_active d = false.

(** Tokens pushed one after another; the first refusal ends it. *)
Fixpoint push_all (t : yvex_tokenizer) (d : tokenizer_decoder) (calls : list (stream_env * Z))
    : run (tokenizer_decoder * list tokenizer_fragment) :=
  match calls with
  | [] => run_ret (d, [])
  | (env, id) :: calls =>
      match yvex_tokenizer_decoder_push env t d id with
      | None => None
      | Some (_, Refused st why) => run_refuse st why
      | Some (d, Done fragment) =>
          let! (d, fragments) := push_all t d calls in
          run_ret (d, fragment :: fragments)
      end
  end.

(** The same within a transaction. *)
Fixpoint transaction_push_all (t : yvex_tokenizer) (d : tokenizer_decoder) (x : decoder_transaction)
    (calls : list (stream_env * Z)) : run (decoder_transaction * list tokenizer_fragment) :=
  match calls with
  | [] => run_ret (x, [])
  | (env, id) :: calls =>
      match yvex_tokenizer_decoder_transaction_push env t d x id with
      | None => None
      | Some (_, Refused st why) => run_refuse st why
      | Some (x, Done fragment) =>
          let! (x, fragments) := transaction_push_all t d x calls in
          run_ret (x, fragment :: fragments)
      end
  end.

Lemma push_idle env t d id :
  idle d →
  yvex_tokenizer_decoder_push env t d id =
  match decoder_stage_token env t (dc_options d) (dc_state d) id with
  | None => None
  | Some (Refused st why) => Some (d, Refused st why)
  | Some (Done (fragment, s)) => Some (d <| dc_state := s |>, Done fragment)
  end.
Proof.
  destruct d as [options s active closing transaction]. unfold idle. cbn. intros (-> & -> & ->).
  unfold yvex_tokenizer_decoder_push. cbn. by destruct (decoder_stage_token _ _ _ _ _) as [[[f s']|st why]|].
Qed.

Lemma push_all_idle t d calls :
  idle d →
  push_all t d calls =
  (let! (s, fragments) := stage_all t (dc_options d) (dc_state d) calls in run_ret (d <| dc_state := s |>, fragments)).
Proof.
  revert d. induction calls as [|[env id] calls IH]; intros d Hd; cbn [push_all stage_all].
  - cbn. by destruct d.
  - rewrite push_idle by done. destruct (decoder_stage_token _ _ _ _ _) as [[[f s]|st why]|]; cbn [run_bind]; try done.
    rewrite IH by done. change (dc_options (d <| dc_state := s |>)) with (dc_options d).
    change (dc_state (d <| dc_state := s |>)) with s.
    by destruct (stage_all _ _ s calls) as [[[s' fs]|st why]|].
Qed.

Lemma transaction_push_all_staged t d x calls :
  dt_prepared x = false →
  transaction_push_all t d x calls =
  (let! (s, fragments) := stage_all t (dc_options d) (dt_state x) calls in run_ret (x <| dt_state := s |>, fragments)).
Proof.
  revert x. induction calls as [|[env id] calls IH]; intros x Hx; cbn [transaction_push_all stage_all].
  - cbn. by destruct x.
  - unfold yvex_tokenizer_decoder_transaction_push. rewrite Hx.
    destruct (decoder_stage_token _ _ _ _ _) as [[[f s]|st why]|]; cbn [run_bind]; try done.
    rewrite IH by done. change (dt_state (x <| dt_state := s |>)) with s.
    by destruct (stage_all _ _ s calls) as [[[s' fs]|st why]|].
Qed.

(** Finishing a decoder at rest. *)
Lemma finish_idle env d :
  idle d → stream_ok (dc_state d) → do_cancelled (dc_options d) (se_poll env) = false →
  (ss_pending (dc_state d) ≠ [] → do_require_complete_utf8 (dc_options d) = false) →
  ∃ fragment, yvex_tokenizer_decoder_finish env d = (d, Done fragment) ∧
    fg_bytes fragment = [] ∧ fg_pending_byte_count fragment = Z.of_nat (length (ss_pending (dc_state d))).
Proof.
  destruct d as [options s active closing transaction]. unfold idle. cbn. intros (-> & -> & ->) [_ _ Hid] Hc Hr.
  unfold yvex_tokenizer_decoder_finish, decoder_enter. cbn -[fragment_identity length]. rewrite Hc.
  assert (negb (Nat.eqb (length (ss_pending s)) 0) && do_require_complete_utf8 options = false) as ->.
  { destruct (ss_pending s); [done|]. by rewrite Hr. }
  match goal with |- context [fragment_identity ?f] => destruct (fragment_identity_total f) as (fid & ->) end; [cbn; lia|done..|].
  eexists. split; [reflexivity|]. by split.
Qed.

Lemma open_idle env t options d :
  strlen (tp_tokenizer_plan_identity (tz_plan t)) ≤ 64 →
  yvex_tokenizer_decoder_open env t options = Done d →
  idle d ∧ stream_ok (dc_state d) ∧ ss_pending (dc_state d) = [] ∧
  dc_options d = default (DecodeOptions true true (λ _, false)) options.
Proof.
  intros Hplan. unfold yvex_tokenizer_decoder_open. repeat (destruct (negb _); [done|]).
  destruct (state_identity_total t Hplan (default (DecodeOptions true true (λ _, false)) options) [] 0) as (name & -> & Hl); [cbn; lia|].
  intros [= <-]. split_and!; try done. constructor; [by left|constructor|done].
Qed.

(** Opening succeeds when the system serves it. *)
Lemma open_served t options :
  strlen (tp_tokenizer_plan_identity (tz_plan t)) ≤ 64 → tp_sealed (tz_plan t) = true →
  ∃ d, yvex_tokenizer_decoder_open (StreamOpenEnv true true true) t options = Done d.
Proof.
  intros Hplan Hs. unfold yvex_tokenizer_decoder_open. rewrite Hs. cbn [negb so_calloc so_mutex so_condition].
  destruct (state_identity_total t Hplan (default (DecodeOptions true true (λ _, false)) options) [] 0) as (name & -> & _); [cbn; lia|].
  by eexists.
Qed.

(** C12: incremental decoding is exact. Pushing tokens of a sealed tokenizer, each of which decodes to a piece, to a
    decoder at rest never reads or writes outside an array. If no push is refused, the published fragments are complete
    text, and followed by the bytes still pending they are what was pending before, followed by the pieces. At most three
    bytes stay pending: none, or the beginning of a scalar value, or a dead end, a second byte outside the range of its
    first, which the decoder's test of a tail lets through and no bytes to come can make into text. Each fragment starts
    from the state the one before left. A push that is refused leaves the decoder as it was. *)
Theorem decoder_stream_exact t rules d calls pieces :
  tokenizer_sealed t rules → idle d → stream_ok (dc_state d) →
  Forall2 (emits t (do_skip_special_tokens (dc_options d))) calls.*2 pieces →
  is_Some (push_all t d calls) ∧
  (∀ d' fragments, push_all t d calls = Some (Done (d', fragments)) →
     published fragments ++ ss_pending (dc_state d') = ss_pending (dc_state d) ++ mjoin pieces ∧
     Forall (λ fragment, utf8_validate (fg_bytes fragment) = true) fragments ∧
     (ss_pending (dc_state d') = [] ∨ begins_scalar (ss_pending (dc_state d')) ∨
      dead_end (ss_pending (dc_state d')) ∧
        ∀ points after, Forall is_scalar points → utf8_text points ≠ ss_pending (dc_state d') ++ after) ∧
     (length (ss_pending (dc_state d')) ≤ 3)%nat ∧
     fg_token_id <$> fragments = calls.*2 ∧
     chained (ss_identity (dc_state d)) fragments (ss_identity (dc_state d')) ∧ idle d' ∧ stream_ok (dc_state d')) ∧
  (∀ env id d' st why, yvex_tokenizer_decoder_push env t d id = Some (d', Refused st why) → d' = d).
Proof.
  intros Hready Hidle Hok Hd.
  pose proof (rd_identity _ _ Hready) as Hplan. pose proof (rd_texts _ _ Hready) as Htexts.
  split_and!.
  - rewrite push_all_idle by done.
    by destruct (stage_all_spec t Hplan Htexts _ _ calls pieces Hok Hd) as [(fs & s' & -> & _)|(st & why & ->)]; eexists.
  - intros d' fragments. rewrite push_all_idle by done.
    destruct (stage_all_spec t Hplan Htexts _ _ calls pieces Hok Hd) as [(fs & s' & -> & [H1 H2 H3 H4 H5])|(st & why & ->)]; [|done].
    cbn [run_bind]. intros [= <- <-]. change (dc_state (d <| dc_state := s' |>)) with s'. pose proof H5 as [Hp Hu _].
    split_and!; try done; try apply Hidle; [|by apply pending_shape|by apply incomplete_end_length].
    eapply Forall_impl; [exact H2|]. intros fragment (points & Hps & ->). unfold utf8_validate.
    apply utf8_validate_from_spec; [apply utf8_text_u8|lia|lia|by exists points].
  - intros env id d' st why. rewrite push_idle by done.
    destruct (decoder_stage_token _ _ _ _ _) as [[[f s]|st' why']|]; [done| |done]. by intros [= <- _ _].
Qed.

(** C13: decoding in steps is decoding at once. Where a batch that demands complete text decodes, an opened decoder
    takes the same tokens one by one, in calls that are served and with pieces that fit its buffer, publishes the
    same bytes, keeps nothing back, and can be finished. *)
Theorem stream_decodes_as_batch t rules options env d calls pieces denv decoded fenv :
  tokenizer_sealed t rules → yvex_tokenizer_decoder_open env t (Some options) = Done d →
  (∀ i, do_cancelled options i = false) → do_require_complete_utf8 options = true →
  Forall2 (emits t (do_skip_special_tokens options)) calls.*2 pieces →
  Forall (λ piece, Z.of_nat (length piece) ≤ 4093) pieces →
  Forall (λ call, ∀ size, se_malloc call.1 size = true) calls →
  yvex_tokenizer_decode denv t calls.*2 (Some options) = Some (Done decoded) →
  ∃ d' fragments, push_all t d calls = Some (Done (d', fragments)) ∧ published fragments = dr_bytes decoded ∧
    ss_pending (dc_state d') = [] ∧
    ∃ last, yvex_tokenizer_decoder_finish fenv d' = (d', Done last) ∧ fg_bytes last = [] ∧ fg_pending_byte_count last = 0.
Proof.
  intros Hready Hopen Hpolls Hrequire Hd Hsize Hmemory Hbatch.
  pose proof (rd_identity _ _ Hready) as Hplan. pose proof (rd_texts _ _ Hready) as Htexts.
  destruct (open_idle env t (Some options) d Hplan Hopen) as (Hidle & Hok & Hnone & Eo). change (dc_options d = options) in Eo.
  destruct (decode_outcome t (rd_sealed _ _ Hready) Hplan denv calls.*2 pieces options Hd Hpolls) as (_ & Hbytes & _).
  destruct (Hbytes decoded Hbatch) as [-> Hvalid]. specialize (Hvalid Hrequire).
  unfold utf8_validate in Hvalid.
  assert (Forall is_u8 (mjoin pieces)) as Hu.
  { clear -Hd Htexts. induction Hd as [|id piece ids pieces Hp Hd IH]; [constructor|].
    change (mjoin (piece :: pieces)) with (piece ++ mjoin pieces). apply Forall_app. split; [|done].
    by apply (emits_u8 t Htexts options id). }
  apply utf8_validate_from_spec in Hvalid as (points & Hpoints & Et); [|done|lia|lia].
  change (drop (Z.to_nat 0) (mjoin pieces)) with (mjoin pieces) in Et.
  rewrite push_all_idle, Eo by done.
  assert (calls_served options calls) as Hserved.
  { eapply Forall_impl; [exact Hmemory|]. intros call Hm. split; [apply Hpolls|done]. }
  assert (ss_pending (dc_state d) ++ mjoin pieces = utf8_text points) as Ewhole by by rewrite Hnone.
  destruct (stage_all_text t Hplan Htexts options (dc_state d) calls pieces points Hok Hd Hserved Hsize Hpoints Ewhole)
    as (fragments & s' & E & Epending).
  destruct (stage_all_spec t Hplan Htexts options (dc_state d) calls pieces Hok Hd) as [(fs & s2 & E' & [H1 _ _ _ Hok'])|(st & why & E')];
    rewrite E in E'; [|done].
  injection E' as <- <-. rewrite E. cbn [run_bind].
  exists (d <| dc_state := s' |>), fragments. change (dc_state (d <| dc_state := s' |>)) with s'.
  split_and!; [done| |done|].
  - rewrite Epending, Hnone, app_nil_r in H1. done.
  - destruct (finish_idle fenv (d <| dc_state := s' |>)) as (last & Elast & Hb & Hp); [done|done| | |].
    + change (dc_options (d <| dc_state := s' |>)) with (dc_options d). by rewrite Eo.
    + intros Hne. by destruct Hne.
    + exists last. split; [done|]. split; [done|]. rewrite Hp. change (dc_state (d <| dc_state := s' |>)) with s'.
      by rewrite Epending.
Qed.

(** Decoder transactions are atomic. A transaction on a decoder at rest stages tokens beside the decoder: while
    it is open, pushing, finishing, resetting or another transaction are refused and change nothing. If every token
    is staged, preparing succeeds and keeps everybody out, and publishing leaves the decoder exactly as pushing the
    same tokens to it would have, with the same fragments; aborting, before or after preparing, leaves it exactly as
    it was. *)
Theorem decoder_transaction_atomic t d d1 x calls x2 fragments :
  idle d → yvex_tokenizer_decoder_transaction_begin true d = (d1, Done x) →
  transaction_push_all t d1 x calls = Some (Done (x2, fragments)) →
  (∀ env id, ∃ why, yvex_tokenizer_decoder_push env t d1 id = Some (d1, Refused YVEX_ERR_STATE why)) ∧
  (∀ env, ∃ why, yvex_tokenizer_decoder_finish env d1 = (d1, Refused YVEX_ERR_STATE why)) ∧
  (∃ why, yvex_tokenizer_decoder_reset t d1 = (d1, Refused YVEX_ERR_STATE why)) ∧
  (∀ calloc, ∃ why, yvex_tokenizer_decoder_transaction_begin calloc d1 = (d1, Refused YVEX_ERR_STATE why)) ∧
  yvex_tokenizer_decoder_transaction_abort d1 x2 = d ∧
  ∃ d2 x3 d', yvex_tokenizer_decoder_transaction_prepare d1 x2 = (d2, Done x3) ∧
    (∃ why, decoder_enter d2 = Refused YVEX_ERR_STATE why) ∧
    yvex_tokenizer_decoder_transaction_abort d2 x3 = d ∧
    yvex_tokenizer_decoder_transaction_publish d2 x3 = (d', None) ∧
    push_all t d calls = Some (Done (d', fragments)).
Proof.
  intros Hidle. pose proof Hidle as (Ha & Hc & Ht). rewrite push_all_idle by done.
  destruct d as [options s active closing transaction]. cbn in Ha, Hc, Ht. subst.
  unfold yvex_tokenizer_decoder_transaction_begin. cbn. intros [= <- <-].
  rewrite transaction_push_all_staged by done. unfold decoder_leave. cbn [dc_options dt_state].
  match goal with |- context [stage_all t ?o s calls] => change o with options end.
  destruct (stage_all t options s calls) as [[[s' fs]|st why]|]; cbn [run_bind]; [|done..].
  intros [= <- <-]. split_and!.
  - intros env id. by eexists.
  - intros env. by eexists.
  - by eexists.
  - intros calloc. by eexists.
  - done.
  - unfold yvex_tokenizer_decoder_transaction_prepare. cbn. rewrite String.eqb_refl. cbn.
    do 3 eexists. split; [reflexivity|]. split; [by eexists|]. by split_and!.
Qed.

(** ** A small stream *)

(** The three bytes of a scalar value, one by one, and a merged token. *)
Definition sample_calls : list (stream_env * Z) := (λ id, (StreamEnv 0 (λ _, true), id)) <$> [226; 130; 172; 256].
Definition sample_pieces : list (list Z) := [[226]; [130]; [172]; cstr "ab"].
Definition sample_options : decode_options := DecodeOptions false true (λ _, false).

Lemma sample_emits t : tz_tokens t = sample_tokens → Forall2 (emits (sealed_sample t) false) sample_calls.*2 sample_pieces.
Proof.
  intros Et. assert (∀ id token, array_get sample_tokens id = Some token → array_get (tz_tokens (sealed_sample t)) id = Some token) as H.
  { intros id token. change (tz_tokens (sealed_sample t)) with (tz_tokens t). by rewrite Et. }
  change sample_calls.*2 with [226; 130; 172; 256].
  assert (∀ b token, array_get sample_tokens b = Some token → is_added token = false → tk_text token = visible [b] → is_u8 b →
    emits (sealed_sample t) false b [b]) as Hbyte.
  { intros b token E Ea Ev Hb. exists token. split; [by apply H|]. cbn [andb]. rewrite Ea. split; [by repeat constructor; apply Hb|done]. }
  repeat (apply Forall2_cons_2; [eapply Hbyte; vm_compute; try reflexivity; split; [discriminate|reflexivity]|]).
  apply Forall2_cons_2; [|constructor]. eexists. split; [apply H; vm_compute; reflexivity|]. cbn [andb].
  split; [apply cstr_range|vm_compute; reflexivity].
Qed.

(** The decoder of a sealed sample, and a whole stream pushed to it. *)
Lemma sample_stream :
  ∃ t d d' fragments, tokenizer_sealed (sealed_sample t) sample_rules ∧ tz_tokens t = sample_tokens ∧
    yvex_tokenizer_decoder_open (StreamOpenEnv true true true) (sealed_sample t) (Some sample_options) = Done d ∧
    idle d ∧ stream_ok (dc_state d) ∧ dc_options d = sample_options ∧ ss_pending (dc_state d) = [] ∧
    push_all (sealed_sample t) d sample_calls = Some (Done (d', fragments)).
Proof.
  destruct sample_ready as (t & Hready & _ & Et). pose proof (rd_identity _ _ Hready) as Hplan.
  destruct (open_served (sealed_sample t) (Some sample_options) Hplan eq_refl) as [d Hopen].
  destruct (open_idle _ _ _ _ Hplan Hopen) as (Hidle & Hok & Hnone & Eo). change (dc_options d = sample_options) in Eo.
  destruct (stage_all_text (sealed_sample t) Hplan (rd_texts _ _ Hready) sample_options (dc_state d) sample_calls sample_pieces
    [8364; 97; 98] Hok (sample_emits t Et)) as (fragments & s' & Es & _); [| | |rewrite Hnone; vm_compute; reflexivity|].
  - repeat (apply Forall_cons_2; [by split|]). by apply Forall_nil_2.
  - repeat (apply Forall_cons_2; [vm_compute; discriminate|]). by apply Forall_nil_2.
  - repeat (apply Forall_cons_2; [left; lia|]). by apply Forall_nil_2.
  - exists t, d, (d <| dc_state := s' |>), fragments. repeat (split; [assumption|]).
    rewrite push_all_idle, Eo, Es by assumption. reflexivity.
Qed.

Lemma decoder_stream_exact_witness :
  ∃ t d d' fragments, push_all t d sample_calls = Some (Done (d', fragments)) ∧
    published fragments ++ ss_pending (dc_state d') = utf8_text [8364; 97; 98].
Proof.
  destruct sample_stream as (t & d & d' & fragments & Hready & Et & _ & Hidle & Hok & Eo & Hnone & E).
  exists (sealed_sample t), d, d', fragments. split; [exact E|].
  pose proof (sample_emits t Et) as Hd.
  assert (Forall2 (emits (sealed_sample t) (do_skip_special_tokens (dc_options d))) sample_calls.*2 sample_pieces) as Hd'
    by (rewrite Eo; exact Hd).
  destruct (decoder_stream_exact (sealed_sample t) sample_rules d sample_calls sample_pieces Hready Hidle Hok Hd') as (_ & H & _).
  destruct (H d' fragments E) as (Hb & _). rewrite Hb, Hnone. vm_compute. reflexivity.
Defined.

Lemma stream_decodes_as_batch_witness :
  ∃ t d d' fragments decoded, push_all t d sample_calls = Some (Done (d', fragments)) ∧
    yvex_tokenizer_decode (DecodeEnv (λ _, true) (λ _, true) None) t sample_calls.*2 (Some sample_options) = Some (Done decoded) ∧
    published fragments = dr_bytes decoded.
Proof.
  destruct sample_stream as (t & d & _ & _ & Hready & Et & Hopen & _).
  pose proof (sample_emits t Et) as Hd.
  destruct (decode_outcome (sealed_sample t) (rd_sealed _ _ Hready) (rd_identity _ _ Hready) (DecodeEnv (λ _, true) (λ _, true) None)
    sample_calls.*2 sample_pieces sample_options Hd (λ _, eq_refl)) as (_ & _ & Hex).
  destruct Hex as [decoded Ed].
  { split_and!; [exact (λ _, eq_refl)|exact (λ _, eq_refl)|discriminate|vm_compute; discriminate..]. }
  { vm_compute. discriminate. }
  { intros _. vm_compute. reflexivity. }
  destruct (stream_decodes_as_batch (sealed_sample t) sample_rules sample_options (StreamOpenEnv true true true) d sample_calls
    sample_pieces (DecodeEnv (λ _, true) (λ _, true) None) decoded (StreamEnv 0 (λ _, true)) Hready Hopen (λ _, eq_refl) eq_refl Hd)
    as (d' & fragments & E & Ep & _).
  - repeat (apply Forall_cons_2; [vm_compute; discriminate|]). by apply Forall_nil_2.
  - repeat (apply Forall_cons_2; [exact (λ _, eq_refl)|]). by apply Forall_nil_2.
  - exact Ed.
  - exists (sealed_sample t), d, d', fragments, decoded. split; [exact E|]. split; [exact Ed|exact Ep].
Defined.

Lemma decoder_transaction_atomic_witness :
  ∃ t d d1 x x2 fragments, yvex_tokenizer_decoder_transaction_begin true d = (d1, Done x) ∧
    transaction_push_all t d1 x sample_calls = Some (Done (x2, fragments)) ∧
    yvex_tokenizer_decoder_transaction_abort d1 x2 = d.
Proof.
  destruct sample_stream as (t & d & d' & fragments & _ & _ & _ & Hidle & _ & _ & _ & E).
  pose proof Hidle as (Ha & Hc & Ht). rewrite push_all_idle in E by exact Hidle.
  destruct (stage_all (sealed_sample t) (dc_options d) (dc_state d) sample_calls) as [[[s fs]|st why]|] eqn:Es;
    cbn [run_bind] in E; [|discriminate E..].
  set (d1 := d <| dc_transaction_active := true |>).
  set (x := DecoderTransaction (dc_state d) (ss_identity (dc_state d)) false).
  assert (yvex_tokenizer_decoder_transaction_begin true d = (d1, Done x)) as Eb.
  { clear E Es. destruct d as [o s0 a c tr]. cbn in Ha, Hc, Ht. subst. reflexivity. }
  assert (transaction_push_all (sealed_sample t) d1 x sample_calls = Some (Done (x <| dt_state := s |>, fs))) as Ex.
  { rewrite transaction_push_all_staged by reflexivity. change (dc_options d1) with (dc_options d).
    change (dt_state x) with (dc_state d). rewrite Es. reflexivity. }
  exists (sealed_sample t), d, d1, x, (x <| dt_state := s |>), fs. split; [exact Eb|]. split; [exact Ex|].
  destruct (decoder_transaction_atomic (sealed_sample t) d d1 x sample_calls (x <| dt_state := s |>) fs Hidle Eb Ex)
    as (_ & _ & _ & _ & H & _). exact H.
Defined.
