(* ===== verification/TokenSequence.v ===== *)
(** The token directory of a generation: [yvex_token_sequence] and its transactions, in
    [src/tokenizer/execution.c]. Tokens are appended in order, and each moves through the states of its
    publication one step at a time; a transaction stages such steps beside the directory. *)

From S2P Require Import Prelude Status Exec Sha256 Identity.
#[local] Open Scope Z_scope.

(** * State *)

(** src/include/yvex/tokenizer.h:165-172, [yvex_token_append_state] *)
Definition YVEX_TOKEN_APPEND_PROPOSED : Z := 0.
Definition YVEX_TOKEN_APPEND_TEXT_PUBLISHED : Z := 5.

(** src/src/tokenizer/execution.c, [token_sequence_row] *)
Record token_sequence_row := Row { tr_token_id : Z; tr_state : Z }.

(** What [calloc] and [memset] leave in a row. *)
Definition blank_row : token_sequence_row := Row 0 0.

(** [ts_rows] is the whole array, of [ts_capacity] rows.
    src/src/tokenizer/execution.c, [yvex_token_sequence] *)
Record token_sequence := Sequence {
  ts_rows : list token_sequence_row;
  ts_count : Z;
  ts_capacity : Z;
  ts_generation : Z;
  ts_transaction_active : bool;
}.

#[export] Instance token_sequence_eta : Eta token_sequence := λ s,
  Sequence (ts_rows s) (ts_count s) (ts_capacity s) (ts_generation s) (ts_transaction_active s).

(** src/src/tokenizer/execution.c, [yvex_token_sequence_transaction] *)
Record sequence_transaction := SequenceTransaction {
  tx_rows : list token_sequence_row;
  tx_base_count : Z;
  tx_base_generation : Z;
  tx_count : Z;
  tx_capacity : Z;
  tx_generation : Z;
  tx_prepared : bool;
}.

#[export] Instance sequence_transaction_eta : Eta sequence_transaction := λ x,
  SequenceTransaction (tx_rows x) (tx_base_count x) (tx_base_generation x) (tx_count x) (tx_capacity x)
    (tx_generation x) (tx_prepared x).

(** src/include/yvex/tokenizer.h, [yvex_token_sequence_summary] *)
Record token_sequence_summary := SequenceSummary {
  sm_count : Z;
  sm_capacity : Z;
  sm_generation : Z;
  sm_token_ids_identity : string;
  sm_state_identity : string;
}.

(** * Operations *)

(** [calloc] answers whether the two objects can be had.
    src/src/tokenizer/execution.c, [yvex_token_sequence_open] *)
Definition yvex_token_sequence_open (calloc : bool) (capacity : Z) : outcome token_sequence :=
  if (capacity =? 0) || (SIZE_MAX / 8 <? capacity) then
    Refused YVEX_ERR_INVALID_ARG "bounded nonzero capacity is required"
  else if negb calloc then Refused YVEX_ERR_NOMEM "token directory allocation failed"
  else Done (Sequence (replicate (Z.to_nat capacity) blank_row) 0 capacity 0 false).

(** The sequence afterwards and the ordinal of the token.
    src/src/tokenizer/execution.c, [yvex_token_sequence_append] *)
Definition yvex_token_sequence_append (s : token_sequence) (token_id vocabulary_size : Z) : run (token_sequence * Z) :=
  refuse_when (ts_transaction_active s || (vocabulary_size <=? token_id) || (ts_capacity s <=? ts_count s))
    with YVEX_ERR_BOUNDS "token ID or directory capacity is invalid";
  match yvex_core_u64_add (ts_count s) 1, yvex_core_u64_add (ts_generation s) 1 with
  | Some next_count, Some next_generation =>
      let! rows := run_access (array_set (ts_rows s) (ts_count s) (Row token_id YVEX_TOKEN_APPEND_PROPOSED)) in
      run_ret (s <| ts_rows := rows |> <| ts_count := next_count |> <| ts_generation := next_generation |>, ts_count s)
  | _, _ => run_refuse YVEX_ERR_BOUNDS "token directory counter overflow"
  end.

(** A row moved from the state the caller expects to the next one.
    src/src/tokenizer/execution.c, [yvex_token_sequence_transition] *)
Definition yvex_token_sequence_transition (s : token_sequence) (ordinal expected next : Z) : run token_sequence :=
  refuse_when (ts_transaction_active s || (ts_count s <=? ordinal))
    with YVEX_ERR_STATE "append transition is non-contiguous or stale";
  let! row := run_access (array_get (ts_rows s) ordinal) in
  refuse_when (negb (tr_state row =? expected) || negb (next =? u32 (expected + 1)))
    with YVEX_ERR_STATE "append transition is non-contiguous or stale";
  match yvex_core_u64_add (ts_generation s) 1 with
  | None => run_refuse YVEX_ERR_BOUNDS "token directory generation overflow"
  | Some next_generation =>
      let! rows := run_access (array_set (ts_rows s) ordinal (Row (tr_token_id row) next)) in
      run_ret (s <| ts_rows := rows |> <| ts_generation := next_generation |>)
  end.

(** src/src/tokenizer/execution.c, [yvex_token_sequence_transaction_begin] *)
Definition yvex_token_sequence_transaction_begin (calloc : bool) (s : token_sequence) (maximum_rows : Z)
    : outcome (token_sequence * sequence_transaction) :=
  if (maximum_rows =? 0) || ts_transaction_active s || (u64 (ts_capacity s - ts_count s) <? maximum_rows)
     || (SIZE_MAX / 8 <? maximum_rows) then
    Refused YVEX_ERR_STATE "token sequence cannot admit the requested transaction"
  else if negb calloc then Refused YVEX_ERR_NOMEM "token transaction allocation failed"
  else
    Done (s <| ts_transaction_active := true |>,
          SequenceTransaction (replicate (Z.to_nat maximum_rows) blank_row) (ts_count s) (ts_generation s) 0
            maximum_rows (ts_generation s) false).

(** src/src/tokenizer/execution.c, [yvex_token_sequence_transaction_append] *)
Definition yvex_token_sequence_transaction_append (x : sequence_transaction) (token_id vocabulary_size : Z)
    : run (sequence_transaction * Z) :=
  refuse_when (tx_prepared x || (vocabulary_size <=? token_id) || (tx_capacity x <=? tx_count x))
    with YVEX_ERR_BOUNDS "staged token or transaction extent is invalid";
  match yvex_core_u64_add (tx_generation x) 1 with
  | None => run_refuse YVEX_ERR_BOUNDS "staged token or transaction extent is invalid"
  | Some next_generation =>
      let! rows := run_access (array_set (tx_rows x) (tx_count x) (Row token_id YVEX_TOKEN_APPEND_PROPOSED)) in
      run_ret (x <| tx_rows := rows |> <| tx_count := u64 (tx_count x + 1) |> <| tx_generation := next_generation |>,
               u64 (tx_base_count x + tx_count x))
  end.

(** src/src/tokenizer/execution.c, [yvex_token_sequence_transaction_transition] *)
Definition yvex_token_sequence_transaction_transition (x : sequence_transaction) (ordinal expected next : Z)
    : run sequence_transaction :=
  refuse_when (tx_prepared x || (ordinal <? tx_base_count x)) with YVEX_ERR_STATE "staged append transition is stale";
  let local := ordinal - tx_base_count x in
  refuse_when (tx_count x <=? local) with YVEX_ERR_STATE "staged append transition is non-contiguous";
  let! row := run_access (array_get (tx_rows x) local) in
  refuse_when (negb (tr_state row =? expected) || negb (next =? u32 (expected + 1)))
    with YVEX_ERR_STATE "staged append transition is non-contiguous";
  match yvex_core_u64_add (tx_generation x) 1 with
  | None => run_refuse YVEX_ERR_STATE "staged append transition is non-contiguous"
  | Some next_generation =>
      let! rows := run_access (array_set (tx_rows x) local (Row (tr_token_id row) next)) in
      run_ret (x <| tx_rows := rows |> <| tx_generation := next_generation |>)
  end.

(** src/src/tokenizer/execution.c, [yvex_token_sequence_transaction_prepare] *)
Definition yvex_token_sequence_transaction_prepare (s : token_sequence) (x : sequence_transaction)
    : outcome sequence_transaction :=
  if tx_prepared x || (tx_count x =? 0) || negb (ts_transaction_active s) || negb (ts_count s =? tx_base_count x)
     || negb (ts_generation s =? tx_base_generation x) || (u64 (ts_capacity s - ts_count s) <? tx_count x) then
    Refused YVEX_ERR_STATE "token transaction no longer matches its base state"
  else Done (x <| tx_prepared := true |>).

(** [memcpy] of [count] rows over an array, from an offset. *)
Definition rows_copy (target : list token_sequence_row) (offset : Z) (source : list token_sequence_row) (count : Z)
    : option (list token_sequence_row) :=
  if (0 <=? offset) && (offset + count <=? Z.of_nat (length target)) && (count <=? Z.of_nat (length source)) then
    Some (take (Z.to_nat offset) target ++ take (Z.to_nat count) source ++ drop (Z.to_nat (offset + count)) target)
  else None.

(** The transaction is kept ([Some]) or consumed ([None]).
    src/src/tokenizer/execution.c, [yvex_token_sequence_transaction_publish] *)
Definition yvex_token_sequence_transaction_publish (s : token_sequence) (x : sequence_transaction)
    : run (token_sequence * option sequence_transaction) :=
  if negb (tx_prepared x) then run_ret (s, Some x)
  else
    let! rows := run_access (rows_copy (ts_rows s) (tx_base_count x) (tx_rows x) (tx_count x)) in
    run_ret (s <| ts_rows := rows |> <| ts_count := u64 (tx_base_count x + tx_count x) |>
               <| ts_generation := tx_generation x |> <| ts_transaction_active := false |>, None).

(** src/src/tokenizer/execution.c, [yvex_token_sequence_transaction_abort] *)
Definition yvex_token_sequence_transaction_abort (s : token_sequence) (x : sequence_transaction) : token_sequence :=
  s <| ts_transaction_active := false |>.

(** src/src/tokenizer/execution.c, [sequence_identity] *)
Definition sequence_identity (s : token_sequence) : run (string * string) :=
  let! rows := run_access (if ts_count s <=? Z.of_nat (length (ts_rows s))
                           then Some (take (Z.to_nat (ts_count s)) (ts_rows s)) else None) in
  match sha256_identity (FText "yvex.tokenizer.append.ids.v1" :: FU64Be (ts_count s)
                           :: (FU64Be <$> (tr_token_id <$> rows))),
        sha256_identity (FText "yvex.tokenizer.append.state.v1" :: FU64Be (ts_count s) :: FU64Be (ts_generation s)
                           :: (rows ≫= λ row, [FU64Be (tr_token_id row); FU64Be (tr_state row)])) with
  | Some ids, Some state => run_ret (ids, state)
  | _, _ => run_refuse YVEX_ERR_STATE "append identity derivation failed"
  end.

(** src/src/tokenizer/execution.c, [yvex_token_sequence_summary_get] *)
Definition yvex_token_sequence_summary_get (s : token_sequence) : run token_sequence_summary :=
  let! (ids, state) := sequence_identity s in
  run_ret (SequenceSummary (ts_count s) (ts_capacity s) (ts_generation s) ids state).

(** src/src/tokenizer/execution.c, [yvex_token_sequence_reset] *)
Definition yvex_token_sequence_reset (s : token_sequence) : outcome token_sequence :=
  if ts_transaction_active s then Refused YVEX_ERR_INVALID_ARG "token directory is required"
  else
    match yvex_core_u64_add (ts_generation s) 1 with
    | None => Refused YVEX_ERR_BOUNDS "token directory generation overflow"
    | Some next_generation =>
        Done (s <| ts_rows := replicate (Z.to_nat (ts_capacity s)) blank_row |> <| ts_count := 0 |>
                <| ts_generation := next_generation |>)
    end.

(** * Sequences of operations *)

Inductive sequence_op :=
  | OpAppend (token_id vocabulary_size : Z)
  | OpTransition (ordinal expected next : Z).

(** What the C types hold. *)
Definition op_ok (op : sequence_op) : Prop :=
  match op with
  | OpAppend token_id vocabulary_size => is_u32 token_id ∧ is_u64 vocabulary_size
  | OpTransition ordinal expected next => is_u64 ordinal ∧ is_u32 expected ∧ is_u32 next
  end.

(** One operation on a directory, with the ordinal an append answers. *)
Definition sequence_apply (s : token_sequence) (op : sequence_op) : run (token_sequence * list Z) :=
  match op with
  | OpAppend token_id vocabulary_size =>
      let! (s, ordinal) := yvex_token_sequence_append s token_id vocabulary_size in run_ret (s, [ordinal])
  | OpTransition ordinal expected next =>
      let! s := yvex_token_sequence_transition s ordinal expected next in run_ret (s, [])
  end.

(** The same on a transaction. *)
Definition transaction_apply (x : sequence_transaction) (op : sequence_op) : run (sequence_transaction * list Z) :=
  match op with
  | OpAppend token_id vocabulary_size =>
      let! (x, ordinal) := yvex_token_sequence_transaction_append x token_id vocabulary_size in run_ret (x, [ordinal])
  | OpTransition ordinal expected next =>
      let! x := yvex_token_sequence_transaction_transition x ordinal expected next in run_ret (x, [])
  end.

(** Operations one after another, with all the ordinals; the first refusal ends it. *)
Fixpoint apply_all {S} (apply : S → sequence_op → run (S * list Z)) (s : S) (ops : list sequence_op) : run (S * list Z) :=
  match ops with
  | [] => run_ret (s, [])
  | op :: ops =>
      let! (s, answer) := apply s op in
      let! (s, answers) := apply_all apply s ops in
      run_ret (s, answer ++ answers)
  end.

(** * A well-formed directory *)

Record sequence_ok (s : token_sequence) : Prop := SequenceOk {
  sq_array : Z.of_nat (length (ts_rows s)) = ts_capacity s;
  sq_capacity : 0 < ts_capacity s ≤ SIZE_MAX / 8;
  sq_count : 0 ≤ ts_count s ≤ ts_capacity s;
  sq_generation : is_u64 (ts_generation s);
  sq_states : Forall (λ row, is_u32 (tr_state row)) (ts_rows s);
}.

(** The rows in use. *)
Definition contents (s : token_sequence) : list token_sequence_row := take (Z.to_nat (ts_count s)) (ts_rows s).

Lemma contents_length s : sequence_ok s → Z.of_nat (length (contents s)) = ts_count s.
Proof. intros [Ha _ Hc _ _]. unfold contents. rewrite length_take. lia. Qed.

Lemma sequence_open_ok calloc capacity s :
  is_u64 capacity → yvex_token_sequence_open calloc capacity = Done s →
  sequence_ok s ∧ contents s = [] ∧ ts_generation s = 0 ∧ ts_transaction_active s = false.
Proof.
  intros Hc. unfold yvex_token_sequence_open. destruct (_ || _) eqn:E; [done|].
  destruct calloc; [|done]. intros [= <-]. guards. split_and!; try done.
  constructor; cbn; rewrite ?length_replicate; try ulia. apply Forall_replicate. done.
Qed.

(** ** Single steps *)

(** Whether an append, and a transition, is admitted. *)
Definition append_admitted (s : token_sequence) (token_id vocabulary_size : Z) : Prop :=
  ts_transaction_active s = false ∧ token_id < vocabulary_size ∧ ts_count s < ts_capacity s ∧
  ts_generation s < ULLONG_MAX.

Definition transition_admitted (s : token_sequence) (ordinal expected next : Z) : Prop :=
  ts_transaction_active s = false ∧ ts_generation s < ULLONG_MAX ∧ next = u32 (expected + 1) ∧
  0 ≤ ordinal ∧ ∃ token_id, contents s !! Z.to_nat ordinal = Some (Row token_id expected).

Lemma append_spec s token_id vocabulary_size :
  sequence_ok s →
  (append_admitted s token_id vocabulary_size ∧ ∃ s',
     yvex_token_sequence_append s token_id vocabulary_size = Some (Done (s', ts_count s)) ∧
     s' = s <| ts_rows := <[Z.to_nat (ts_count s) := Row token_id 0]> (ts_rows s) |> <| ts_count := ts_count s + 1 |>
            <| ts_generation := ts_generation s + 1 |> ∧ sequence_ok s' ∧
     contents s' = contents s ++ [Row token_id 0]) ∨
  (¬ append_admitted s token_id vocabulary_size ∧ ∃ st why,
     yvex_token_sequence_append s token_id vocabulary_size = Some (Refused st why)).
Proof.
  intros [Ha Hcap Hc Hg Hst]. change (SIZE_MAX / 8) with 2305843009213693951 in Hcap.
  unfold yvex_token_sequence_append, append_admitted.
  destruct (_ || _) eqn:E.
  { right. split; [|by do 2 eexists]. intros (H1 & H2 & H3 & _). rewrite H1 in E. guards. lia. }
  guards_in E. assert (is_u64 (ts_count s)) as Hcu by ulia.
  assert (yvex_core_u64_add (ts_count s) 1 = Some (ts_count s + 1)) as -> by (apply u64_add_Some; ulia || split; ulia).
  destruct (yvex_core_u64_add (ts_generation s) 1) as [g|] eqn:Eg.
  2: { right. split; [|by do 2 eexists]. intros (_ & _ & _ & H4). apply u64_add_None in Eg; ulia. }
  apply u64_add_Some in Eg as [-> Hg']; [|ulia..]. rewrite array_set_inside by lia. cbn [run_access run_bind].
  left. split; [split_and!; [by destruct (ts_transaction_active s)|lia|lia|ulia]|].
  eexists. split; [reflexivity|]. split; [done|]. split.
  - constructor; cbn; rewrite ?length_insert; try done; try lia. apply Forall_insert; [done|]. done.
  - unfold contents. cbn [ts_rows ts_count set_field]. cbn. rewrite Z2Nat.inj_add, Nat.add_1_r by lia.
    rewrite (take_S_r _ _ (Row token_id 0)) by (apply list_lookup_insert_eq; lia). by rewrite take_insert_ge by lia.
Qed.

Lemma transition_spec s ordinal expected next :
  sequence_ok s → is_u64 ordinal →
  (transition_admitted s ordinal expected next ∧ ∃ s' token_id,
     contents s !! Z.to_nat ordinal = Some (Row token_id expected) ∧
     yvex_token_sequence_transition s ordinal expected next = Some (Done s') ∧
     s' = s <| ts_rows := <[Z.to_nat ordinal := Row token_id next]> (ts_rows s) |>
            <| ts_generation := ts_generation s + 1 |> ∧ sequence_ok s' ∧
     contents s' = <[Z.to_nat ordinal := Row token_id next]> (contents s)) ∨
  (¬ transition_admitted s ordinal expected next ∧ ∃ st why,
     yvex_token_sequence_transition s ordinal expected next = Some (Refused st why)).
Proof.
  intros Hok Ho. pose proof (contents_length s Hok) as Hl. destruct Hok as [Ha Hcap Hc Hg Hst].
  unfold yvex_token_sequence_transition, transition_admitted.
  destruct (_ || _) eqn:E.
  { right. split; [|by do 2 eexists]. intros (H1 & _ & _ & _ & token_id & Et). rewrite H1 in E. guards_in E.
    apply lookup_lt_Some in Et. ulia. }
  guards_in E. assert (0 ≤ ordinal < Z.of_nat (length (ts_rows s))) as Hr by ulia.
  destruct (array_get_is_Some (ts_rows s) ordinal Hr) as [[token_id state] Erow].
  assert (contents s !! Z.to_nat ordinal = Some (Row token_id state)) as Econtents.
  { unfold contents. rewrite lookup_take by lia. rewrite decide_True by lia. by apply array_get_Some in Erow as [_ ?]. }
  rewrite Erow. cbn [run_access run_bind tr_state tr_token_id]. destruct (_ || _) eqn:E2.
  { right. split; [|by do 2 eexists]. intros (_ & _ & Hn & _ & token & Et). rewrite Econtents in Et. injection Et as _ <-.
    rewrite Hn, !Z.eqb_refl in E2. done. }
  apply orb_false_iff in E2 as [E2 E3]. apply negb_false_iff, Z.eqb_eq in E2, E3. subst state.
  destruct (yvex_core_u64_add (ts_generation s) 1) as [g|] eqn:Eg.
  2: { right. split; [|by do 2 eexists]. intros (_ & H4 & _). apply u64_add_None in Eg; ulia. }
  apply u64_add_Some in Eg as [-> Hg']; [|ulia..]. rewrite array_set_inside by lia. cbn [run_access run_bind].
  left. split.
  { split_and!; [by destruct (ts_transaction_active s)|ulia|done|lia|by exists token_id]. }
  do 2 eexists. split; [done|]. split; [reflexivity|]. split; [done|]. split.
  - constructor; cbn; rewrite ?length_insert; try done. apply Forall_insert; [done|]. cbn. rewrite E3. apply u32_range.
  - unfold contents. cbn. by rewrite take_insert_lt by lia.
Qed.

(** ** What a run of operations does *)

Definition appended (op : sequence_op) : list Z := match op with OpAppend token_id _ => [token_id] | _ => [] end.

(** The transitions of one ordinal. *)
Definition moves (ordinal : nat) (op : sequence_op) : Z :=
  match op with OpTransition o _ _ => if Nat.eqb (Z.to_nat o) ordinal then 1 else 0 | _ => 0 end.

Definition total_moves (ordinal : nat) (ops : list sequence_op) : Z := foldr (λ op n, moves ordinal op + n) 0 ops.

(** From one directory to another: identifiers are appended and never change, every row moves one state per
    transition, the generation counts the operations. *)
Record advanced (s s' : token_sequence) (ops : list sequence_op) : Prop := Advanced {
  av_ids : tr_token_id <$> contents s' = (tr_token_id <$> contents s) ++ (ops ≫= appended);
  av_states : ∀ i row', contents s' !! i = Some row' →
    tr_state row' = u32 (from_option tr_state 0 (contents s !! i) + total_moves i ops);
  av_generation : ts_generation s' = ts_generation s + Z.of_nat (length ops);
  av_capacity : ts_capacity s' = ts_capacity s;
  av_active : ts_transaction_active s' = ts_transaction_active s;
  av_ok : sequence_ok s';
}.

Lemma sequence_apply_spec s op :
  sequence_ok s → op_ok op →
  (∃ s' answer, sequence_apply s op = Some (Done (s', answer)) ∧ advanced s s' [op] ∧
     (∀ i, contents s' !! i = None → moves i op = 0) ∧
     answer = match op with OpAppend _ _ => [ts_count s] | _ => [] end) ∨
  (∃ st why, sequence_apply s op = Some (Refused st why)).
Proof.
  intros Hok Hop.
  assert (∀ i row, contents s !! i = Some row → is_u32 (tr_state row)) as Hstates.
  { intros i row E. unfold contents in E. apply lookup_take_Some in E as [E _]. by apply (Forall_lookup_1 _ _ _ _ (sq_states _ Hok) E). }
  destruct op as [token_id vocabulary_size|ordinal expected next]; unfold sequence_apply.
  - destruct (append_spec s token_id vocabulary_size Hok) as [(_ & s' & -> & Es & Hok' & Ec)|(_ & st & why & ->)];
      cbn [run_bind]; [left|right; by do 2 eexists].
    do 2 eexists. split; [done|]. split; [|done]. constructor; try (subst s'; done).
    + rewrite Ec, fmap_app. done.
    + intros i row E. cbn [total_moves foldr moves]. rewrite Ec in E. apply lookup_app_Some in E as [E|[Hl E]].
      * rewrite E. cbn [from_option]. rewrite Z.add_0_r, u32_id by by eapply Hstates. done.
      * rewrite lookup_ge_None_2 by done. destruct (_ - _)%nat; [|done]. by injection E as <-.
  - destruct Hop as (Ho & Hexp & _).
    destruct (transition_spec s ordinal expected next Hok Ho) as [((_ & _ & Hn & _) & s' & token_id & Et & -> & Es & Hok' & Ec)|(_ & st & why & ->)];
      cbn [run_bind]; [left|right; by do 2 eexists].
    do 2 eexists. split; [done|]. split; [|split; [|done]].
    2: { intros i E. cbn [moves]. destruct (Nat.eqb_spec (Z.to_nat ordinal) i) as [<-|]; [|done]. rewrite Ec in E.
         by rewrite list_lookup_insert_eq in E by by eapply lookup_lt_Some. }
    constructor; try (subst s'; done).
    + rewrite Ec, list_fmap_insert. cbn [tr_token_id mbind list_bind appended]. rewrite !app_nil_r.
      apply list_insert_id. by rewrite list_lookup_fmap, Et.
    + intros i row E. cbn [total_moves foldr moves]. rewrite Ec in E. rewrite Z.add_0_r. destruct (Nat.eqb_spec (Z.to_nat ordinal) i) as [<-|Hne].
      * rewrite list_lookup_insert_eq in E by by eapply lookup_lt_Some. injection E as <-. rewrite Et. by rewrite Hn.
      * rewrite list_lookup_insert_ne in E by done. rewrite E. cbn [from_option]. by rewrite Z.add_0_r, u32_id by by eapply Hstates.
Qed.

Lemma u32_add_u32 a b : u32 (u32 a + b) = u32 (a + b).
Proof. unfold u32. apply Zplus_mod_idemp_l. Qed.

Lemma advanced_trans s s1 s2 op ops :
  (∀ i, contents s1 !! i = None → moves i op = 0) →
  advanced s s1 [op] → advanced s1 s2 ops → advanced s s2 (op :: ops).
Proof.
  intros Hmoves [I1 S1 G1 C1 A1 O1] [I2 S2 G2 C2 A2 O2]. constructor; [| |cbn [length] in *; lia|congruence|congruence|done].
  - rewrite I2, I1. cbn. by rewrite app_nil_r, <- (assoc_L (++)).
  - intros i row E. rewrite (S2 i row E). cbn [total_moves foldr]. unfold total_moves.
    destruct (contents s1 !! i) as [row1|] eqn:E1; cbn [from_option].
    + rewrite (S1 i row1 E1). cbn [total_moves foldr]. rewrite u32_add_u32. f_equal. lia.
    + rewrite (Hmoves i E1). destruct (contents s !! i) as [row0|] eqn:E0; [|done].
      exfalso. apply lookup_lt_Some in E0. apply lookup_ge_None in E1. apply (f_equal length) in I1.
      rewrite length_app, !length_fmap in I1. lia.
Qed.

Lemma sequence_advanced_nil s : sequence_ok s → advanced s s [].
Proof.
  intros Hok. constructor; try done.
  - cbn. by rewrite app_nil_r.
  - intros i row E. rewrite E. cbn [from_option total_moves foldr]. rewrite Z.add_0_r, u32_id; [done|].
    unfold contents in E. apply lookup_take_Some in E as [E _]. by apply (Forall_lookup_1 _ _ _ _ (sq_states _ Hok) E).
  - cbn. lia.
Qed.

(** A run of operations never leaves the array. *)
Lemma apply_all_spec s ops :
  sequence_ok s → Forall op_ok ops →
  (∃ s' answers, apply_all sequence_apply s ops = Some (Done (s', answers)) ∧ advanced s s' ops ∧
     answers = seqZ (ts_count s) (Z.of_nat (length (ops ≫= appended)))) ∨
  (∃ st why, apply_all sequence_apply s ops = Some (Refused st why)).
Proof.
  intros Hok Hops. revert s Hok. induction Hops as [|op ops Hop Hops IH]; intros s Hok; cbn [apply_all].
  { left. exists s, []. split; [done|]. split; [by apply sequence_advanced_nil|done]. }
  destruct (sequence_apply_spec s op Hok Hop) as [(s1 & answer & -> & Ha & Hmoves & Ean)|(st & why & ->)]; cbn [run_bind];
    [|right; by do 2 eexists].
  destruct (IH s1 (av_ok _ _ _ Ha)) as [(s2 & answers & -> & Ha2 & Ean2)|(st & why & ->)]; cbn [run_bind];
    [|right; by do 2 eexists].
  left. do 2 eexists. split; [done|]. split; [by eapply advanced_trans|]. subst.
  assert (ts_count s1 = ts_count s + Z.of_nat (length (appended op))) as ->.
  { rewrite <- (contents_length s1), <- (contents_length s) by (done || apply Ha). pose proof (av_ids _ _ _ Ha) as E.
    apply (f_equal length) in E. rewrite length_app, !length_fmap in E. cbn in E. rewrite app_nil_r in E. lia. }
  change ((op :: ops) ≫= appended) with (appended op ++ (ops ≫= appended)). rewrite length_app.
  destruct op; cbn [appended length]; rewrite ?Z.add_0_r; [|done].
  rewrite Nat2Z.inj_add. change (Z.of_nat 1) with 1. by rewrite seqZ_app by lia.
Qed.

(** * Transactions *)

(** An array with the first [n] rows of another written over it from [base] on. *)
Definition overlay_rows {A} (rows : list A) (base : nat) (staged : list A) (n : nat) : list A :=
  take base rows ++ take n staged ++ drop (base + n) rows.

Lemma overlay_length {A} (rows : list A) base staged n :
  (base + n ≤ length rows)%nat → (n ≤ length staged)%nat → length (overlay_rows rows base staged n) = length rows.
Proof. intros H1 H2. unfold overlay_rows. rewrite !length_app, !length_take, length_drop. lia. Qed.

Lemma overlay_nothing {A} (rows : list A) base staged : overlay_rows rows base staged 0 = rows.
Proof. unfold overlay_rows. rewrite Nat.add_0_r. change (take 0 staged) with (@nil A). apply take_drop. Qed.

Lemma overlay_push {A} (rows : list A) base staged n v :
  (base + n < length rows)%nat → (n < length staged)%nat →
  <[(base + n)%nat := v]> (overlay_rows rows base staged n) = overlay_rows rows base (<[n := v]> staged) (S n).
Proof.
  intros H1 H2. unfold overlay_rows. destruct (lookup_lt_is_Some_2 rows (base + n)%nat H1) as [r Er].
  rewrite (drop_S _ _ _ Er), insert_app_r_alt by (rewrite length_take; lia).
  rewrite length_take, Nat.min_l, insert_app_r_alt by (rewrite ?length_take; lia).
  rewrite length_take, Nat.min_l by lia. replace (base + n - base - n)%nat with 0%nat by lia. cbn [insert list_insert].
  rewrite (take_S_r _ n v) by (apply list_lookup_insert_eq; lia). rewrite take_insert_ge by lia.
  by rewrite <- (assoc_L (++) (take n staged)), Nat.add_succ_r.
Qed.

Lemma overlay_set {A} (rows : list A) base staged n k v :
  (base + n ≤ length rows)%nat → (n ≤ length staged)%nat → (k < n)%nat →
  <[(base + k)%nat := v]> (overlay_rows rows base staged n) = overlay_rows rows base (<[k := v]> staged) n.
Proof.
  intros H1 H2 H3. unfold overlay_rows. rewrite insert_app_r_alt by (rewrite length_take; lia).
  rewrite length_take, Nat.min_l, insert_app_l by (rewrite ?length_take; lia).
  replace (base + k - base)%nat with k by lia. by rewrite take_insert_lt by lia.
Qed.

Lemma overlay_get {A} (rows : list A) base staged n k :
  (base + n ≤ length rows)%nat → (n ≤ length staged)%nat → (k < n)%nat →
  overlay_rows rows base staged n !! (base + k)%nat = staged !! k.
Proof.
  intros H1 H2 H3. unfold overlay_rows. rewrite lookup_app_r by (rewrite length_take; lia).
  rewrite length_take, Nat.min_l, lookup_app_l by (rewrite ?length_take; lia).
  replace (base + k - base)%nat with k by lia. rewrite lookup_take. by rewrite decide_True by lia.
Qed.

(** A transaction under way on a directory. *)
Record transaction_ok (s : token_sequence) (x : sequence_transaction) : Prop := TransactionOk {
  to_base : tx_base_count x = ts_count s ∧ tx_base_generation x = ts_generation s;
  to_array : Z.of_nat (length (tx_rows x)) = tx_capacity x;
  to_capacity : tx_capacity x ≤ ts_capacity s - ts_count s;
  to_count : 0 ≤ tx_count x ≤ tx_capacity x;
  to_generation : is_u64 (tx_generation x);
  to_open : tx_prepared x = false;
}.

(** The directory a transaction stands for. *)
Definition overlay (s : token_sequence) (x : sequence_transaction) : token_sequence :=
  Sequence (overlay_rows (ts_rows s) (Z.to_nat (ts_count s)) (tx_rows x) (Z.to_nat (tx_count x)))
    (ts_count s + tx_count x) (ts_capacity s) (tx_generation x) false.

Section transaction.
Context (s : token_sequence) (Hok : sequence_ok s).

Lemma transaction_append_spec x token_id vocabulary_size :
  transaction_ok s x →
  (∃ x', yvex_token_sequence_transaction_append x token_id vocabulary_size =
     Some (Done (x', ts_count s + tx_count x)) ∧ transaction_ok s x' ∧
     yvex_token_sequence_append (overlay s x) token_id vocabulary_size =
     Some (Done (overlay s x', ts_count s + tx_count x))) ∨
  (∃ st why, yvex_token_sequence_transaction_append x token_id vocabulary_size = Some (Refused st why)).
Proof.
  intros [[Hb Hbg] Ha Hcap Hc Hg Ho]. destruct Hok as [Hsa Hscap Hsc Hsg _].
  change (SIZE_MAX / 8) with 2305843009213693951 in Hscap.
  unfold yvex_token_sequence_transaction_append. rewrite Ho. cbn [orb].
  destruct (_ || _) eqn:E; [right; by do 2 eexists|]. apply orb_false_iff in E as [E1 E2]. apply Z.leb_gt in E1, E2.
  destruct (yvex_core_u64_add (tx_generation x) 1) as [g|] eqn:Eg; [|right; by do 2 eexists].
  pose proof Eg as Eg'. apply u64_add_Some in Eg' as [-> Hg']; [|ulia..]. rewrite array_set_inside by lia.
  cbn [run_access run_bind]. rewrite Hb, !u64_id by ulia. left. eexists. split; [reflexivity|]. split.
  { constructor; cbn; rewrite ?length_insert; try done; lia. }
  unfold yvex_token_sequence_append, overlay. cbn [ts_transaction_active ts_capacity ts_count ts_generation ts_rows orb].
  rewrite (proj2 (orb_false_iff _ _)) by (rewrite !Z.leb_gt; lia).
  assert (yvex_core_u64_add (ts_count s + tx_count x) 1 = Some (ts_count s + tx_count x + 1)) as -> by (apply u64_add_Some; ulia || split; ulia).
  rewrite Eg, array_set_inside by (rewrite overlay_length; lia). cbn [run_access run_bind]. unfold run_ret. do 4 f_equal. cbn.
  rewrite Z2Nat.inj_add, overlay_push, (Z2Nat.inj_add (tx_count x)), Nat.add_1_r by lia. f_equal. lia.
Qed.

Lemma transaction_transition_spec x ordinal expected next :
  transaction_ok s x → is_u64 ordinal →
  (∃ x', yvex_token_sequence_transaction_transition x ordinal expected next = Some (Done x') ∧ transaction_ok s x' ∧
     yvex_token_sequence_transition (overlay s x) ordinal expected next = Some (Done (overlay s x'))) ∨
  (∃ st why, yvex_token_sequence_transaction_transition x ordinal expected next = Some (Refused st why)).
Proof.
  intros [[Hb Hbg] Ha Hcap Hc Hg Ho] Hord. destruct Hok as [Hsa Hscap Hsc Hsg _].
  unfold yvex_token_sequence_transaction_transition. rewrite Ho, Hb. cbn [orb].
  destruct (Z.ltb_spec ordinal (ts_count s)) as [?|E1]; [right; by do 2 eexists|].
  destruct (Z.leb_spec (tx_count x) (ordinal - ts_count s)) as [?|E2]; [right; by do 2 eexists|].
  destruct (array_get_is_Some (tx_rows x) (ordinal - ts_count s)) as [row Erow]; [lia|]. rewrite Erow. cbn [run_access run_bind].
  destruct (_ || _) eqn:E; [right; by do 2 eexists|].
  destruct (yvex_core_u64_add (tx_generation x) 1) as [g|] eqn:Eg; [|right; by do 2 eexists].
  pose proof Eg as Eg'. apply u64_add_Some in Eg' as [-> Hg']; [|ulia..]. rewrite array_set_inside by lia.
  cbn [run_access run_bind]. left. eexists. split; [reflexivity|]. split.
  { constructor; cbn; rewrite ?length_insert; try done. }
  unfold yvex_token_sequence_transition, overlay. cbn [ts_transaction_active ts_capacity ts_count ts_generation ts_rows orb].
  rewrite (proj2 (Z.leb_gt _ _)) by lia.
  assert (Z.to_nat ordinal = Z.to_nat (ts_count s) + Z.to_nat (ordinal - ts_count s))%nat as En by lia.
  assert (array_get (overlay_rows (ts_rows s) (Z.to_nat (ts_count s)) (tx_rows x) (Z.to_nat (tx_count x))) ordinal = Some row) as ->.
  { unfold array_get. rewrite (proj2 (Z.ltb_ge _ _)) by lia. rewrite En, overlay_get by lia. by apply array_get_Some in Erow as [_ ?]. }
  cbn [run_access run_bind]. rewrite E, Eg, array_set_inside by (rewrite overlay_length; lia). cbn [run_access run_bind].
  unfold run_ret. do 2 f_equal. cbn. by rewrite En, overlay_set by lia.
Qed.

Lemma transaction_apply_all_spec x ops :
  transaction_ok s x → Forall op_ok ops →
  (∃ x' answers, apply_all transaction_apply x ops = Some (Done (x', answers)) ∧ transaction_ok s x' ∧
     apply_all sequence_apply (overlay s x) ops = Some (Done (overlay s x', answers))) ∨
  (∃ st why, apply_all transaction_apply x ops = Some (Refused st why)).
Proof.
  intros Hx Hops. revert x Hx. induction Hops as [|op ops Hop Hops IH]; intros x Hx; cbn [apply_all].
  { left. by exists x, []. }
  assert ((∃ x' answer, transaction_apply x op = Some (Done (x', answer)) ∧ transaction_ok s x' ∧
     sequence_apply (overlay s x) op = Some (Done (overlay s x', answer))) ∨
    (∃ st why, transaction_apply x op = Some (Refused st why))) as [(x1 & answer & -> & Hx1 & ->)|(st & why & ->)].
  { destruct op as [token_id vocabulary_size|ordinal expected next]; cbn [transaction_apply sequence_apply].
    - destruct (transaction_append_spec x token_id vocabulary_size Hx) as [(x' & -> & Hx' & ->)|(st & why & ->)];
        [left|right]; by do 2 eexists.
    - destruct (transaction_transition_spec x ordinal expected next Hx (proj1 Hop)) as [(x' & -> & Hx' & ->)|(st & why & ->)];
        [left|right]; by do 2 eexists. }
  2: { right. by do 2 eexists. }
  cbn [run_bind]. destruct (IH x1 Hx1) as [(x2 & answers & -> & Hx2 & ->)|(st & why & ->)]; cbn [run_bind]; [left|right]; by do 2 eexists.
Qed.
End transaction.

(** * Properties *)

(** C14: the token directory is exact. From a well-formed directory no operation leaves its array. An append is
    accepted exactly when no transaction is open, the identifier is in the vocabulary, a row is free and the
    generation can grow; a transition exactly when no transaction is open, the generation can grow, and it names a row
    in use, the row's state and the number after it. That number is not compared with the declared states, so a row in
    the last of them, TEXT_PUBLISHED, is moved past it ([transition_past_published]). A run of accepted operations
    answers consecutive ordinals, appends the identifiers in order and changes none of them, moves each row one state
    per transition, and counts the operations in the generation. *)
Theorem token_sequence_exact s ops :
  sequence_ok s → Forall op_ok ops →
  is_Some (apply_all sequence_apply s ops) ∧
  (∀ s' answers, apply_all sequence_apply s ops = Some (Done (s', answers)) →
     advanced s s' ops ∧ answers = seqZ (ts_count s) (Z.of_nat (length (ops ≫= appended)))) ∧
  (∀ token_id vocabulary_size,
     (∃ s', yvex_token_sequence_append s token_id vocabulary_size = Some (Done s')) ↔
     append_admitted s token_id vocabulary_size) ∧
  (∀ ordinal expected next, is_u64 ordinal →
     (∃ s', yvex_token_sequence_transition s ordinal expected next = Some (Done s')) ↔
     transition_admitted s ordinal expected next).
Proof.
  intros Hok Hops. split_and!.
  - by destruct (apply_all_spec s ops Hok Hops) as [(? & ? & -> & _)|(? & ? & ->)]; eexists.
  - intros s' answers E. destruct (apply_all_spec s ops Hok Hops) as [(s2 & a2 & E2 & H)|(? & ? & E2)]; [|congruence].
    rewrite E in E2. by injection E2 as <- <-.
  - intros token_id vocabulary_size.
    destruct (append_spec s token_id vocabulary_size Hok) as [(H & s' & -> & _)|(H & st & why & ->)]; split; try done.
    + intros _. by eexists.
    + by intros [? [=]].
  - intros ordinal expected next Ho.
    destruct (transition_spec s ordinal expected next Hok Ho) as [(H & s' & id & _ & -> & _)|(H & st & why & ->)]; split; try done.
    + intros _. by eexists.
    + by intros [? [=]].
Qed.

(** Token transactions are atomic. While a transaction is open on a directory, appending to it, moving its rows,
    resetting it and opening another are refused. Staging never leaves the transaction's array. Once a token is
    staged the transaction can be prepared, and publishing it gives exactly the directory, array and generation
    included, and the ordinals that the same operations applied directly would have given; aborting gives back the
    directory as it was. *)
Theorem token_sequence_transaction_atomic s maximum_rows s1 x ops :
  sequence_ok s → ts_transaction_active s = false → is_u64 maximum_rows → Forall op_ok ops →
  yvex_token_sequence_transaction_begin true s maximum_rows = Done (s1, x) →
  (∀ op, ∃ st why, sequence_apply s1 op = Some (Refused st why)) ∧
  (∃ st why, yvex_token_sequence_reset s1 = Refused st why) ∧
  (∀ calloc n, ∃ st why, yvex_token_sequence_transaction_begin calloc s1 n = Refused st why) ∧
  (∀ x', yvex_token_sequence_transaction_abort s1 x' = s) ∧
  is_Some (apply_all transaction_apply x ops) ∧
  (∀ x2 answers, apply_all transaction_apply x ops = Some (Done (x2, answers)) → tx_count x2 ≠ 0 →
     ∃ x3 s', yvex_token_sequence_transaction_prepare s1 x2 = Done x3 ∧
       yvex_token_sequence_transaction_publish s1 x3 = Some (Done (s', None)) ∧
       apply_all sequence_apply s ops = Some (Done (s', answers))).
Proof.
  intros Hok Hactive Hmax Hops. unfold yvex_token_sequence_transaction_begin. rewrite Hactive, orb_false_r.
  destruct (_ || _) eqn:E; [done|]. cbn [negb]. intros [= <- <-].
  apply orb_false_iff in E as [E E3]. apply orb_false_iff in E as [E1 E2]. apply Z.eqb_neq in E1. apply Z.ltb_ge in E2, E3.
  pose proof Hok as [Hsa Hscap Hsc Hsg _]. change (SIZE_MAX / 8) with 2305843009213693951 in *. rewrite u64_id in E2 by ulia.
  set (x := SequenceTransaction _ _ _ _ _ _ _).
  assert (transaction_ok s x) as Hx.
  { constructor; cbn; rewrite ?length_replicate; try done; ulia. }
  assert (overlay s x = s) as Hs.
  { unfold overlay. cbn. rewrite overlay_nothing, Z.add_0_r. destruct s; cbn in *; congruence. }
  pose proof (transaction_apply_all_spec s Hok x ops Hx Hops) as Hall. rewrite Hs in Hall. split_and!.
  - intros [token_id vocabulary_size|ordinal expected next]; by do 2 eexists.
  - by do 2 eexists.
  - intros calloc n. unfold yvex_token_sequence_transaction_begin. cbn [ts_transaction_active set_field].
    destruct (n =? 0); by do 2 eexists.
  - intros x'. unfold yvex_token_sequence_transaction_abort. destruct s; cbn in *; congruence.
  - by destruct Hall as [(? & ? & -> & _)|(? & ? & ->)]; eexists.
  - intros x2 answers E Hcount. destruct Hall as [(x2' & a & E' & Hx2 & Hd)|(? & ? & E')]; [|congruence].
    rewrite E in E'. injection E' as <- <-. destruct Hx2 as [[Hb Hbg] Ha Hcap Hc Hg Ho].
    eexists. exists (overlay s x2). split_and!; [| |done].
    + unfold yvex_token_sequence_transaction_prepare. cbn [ts_transaction_active ts_count ts_generation ts_capacity set_field].
      cbn. rewrite Ho, Hb, Hbg, !Z.eqb_refl, (proj2 (Z.eqb_neq _ _) Hcount). cbn.
      rewrite u64_id by ulia. by rewrite (proj2 (Z.ltb_ge _ _)) by lia.
    + unfold yvex_token_sequence_transaction_publish, rows_copy. cbn. rewrite ?Hb.
      assert (((0 <=? ts_count s) && (ts_count s + tx_count x2 <=? Z.of_nat (length (ts_rows s))) &&
               (tx_count x2 <=? Z.of_nat (length (tx_rows x2)))) = true) as ->.
      { rewrite !andb_true_iff, !Z.leb_le. lia. }
      cbn. rewrite u64_id by ulia. unfold run_ret. do 3 f_equal. unfold overlay, overlay_rows. f_equal.
      by rewrite Z2Nat.inj_add by lia.
Qed.

(** ** A small directory *)

(** A row can be moved past the last state: only the step is checked. *)
Example transition_past_published :
  sequence_apply (Sequence [Row 7 5] 1 1 6 false) (OpTransition 0 5 6) =
  Some (Done (Sequence [Row 7 6] 1 1 7 false, [])).
Proof. reflexivity. Qed.

Definition sample_sequence : token_sequence := Sequence [Row 3 5; blank_row; blank_row; blank_row] 1 4 9 false.
Definition sample_ops : list sequence_op := [OpAppend 8 10; OpTransition 1 0 1; OpAppend 9 10].

Lemma sample_sequence_ok : sequence_ok sample_sequence.
Proof. constructor; cbn; try done. repeat (apply Forall_cons_2; [done|]). by apply Forall_nil_2. Qed.

Lemma sample_ops_ok : Forall op_ok sample_ops.
Proof. repeat (apply Forall_cons_2; [by cbn|]). by apply Forall_nil_2. Qed.

Lemma token_sequence_exact_witness :
  apply_all sequence_apply sample_sequence sample_ops =
    Some (Done (Sequence [Row 3 5; Row 8 1; Row 9 0; blank_row] 3 4 12 false, [1; 2])) ∧
  advanced sample_sequence (Sequence [Row 3 5; Row 8 1; Row 9 0; blank_row] 3 4 12 false) sample_ops.
Proof.
  split; [reflexivity|].
  destruct (token_sequence_exact sample_sequence sample_ops sample_sequence_ok sample_ops_ok) as (_ & H & _).
  exact (proj1 (H _ _ eq_refl)).
Defined.

Lemma token_sequence_transaction_atomic_witness :
  ∃ s1 x x2 x3, yvex_token_sequence_transaction_begin true sample_sequence 2 = Done (s1, x) ∧
    apply_all transaction_apply x sample_ops = Some (Done (x2, [1; 2])) ∧
    yvex_token_sequence_transaction_prepare s1 x2 = Done x3 ∧
    yvex_token_sequence_transaction_abort s1 x3 = sample_sequence ∧
    yvex_token_sequence_transaction_publish s1 x3 =
      Some (Done (Sequence [Row 3 5; Row 8 1; Row 9 0; blank_row] 3 4 12 false, None)).
Proof.
  destruct (yvex_token_sequence_transaction_begin true sample_sequence 2) as [[s1 x]|] eqn:E; [|discriminate E].
  assert (is_u64 2) as H2 by done.
  destruct (token_sequence_transaction_atomic sample_sequence 2 s1 x sample_ops sample_sequence_ok eq_refl H2 sample_ops_ok E)
    as (_ & _ & _ & Habort & _ & H).
  injection E as <- <-. destruct (H _ _ eq_refl ltac:(discriminate)) as (x3 & s' & Ep & Epub & Es).
  do 3 eexists. exists x3. split; [reflexivity|]. split; [reflexivity|]. split; [exact Ep|]. split; [apply Habort|].
  rewrite Epub. vm_compute in Es. injection Es as <-. reflexivity.
Defined.
