(* ===== verification/HttpTransport.v ===== *)
(** The HTTP transport of the compatibility gateway, [src/server/openai/http.c]: one bounded request read from a
    connection, and the bytes of the answers.

    A connection is the list of what its next [recv] calls find; a [recv] takes at most the bytes it asks for. *)

From S2P Require Import Prelude Status Exec Json JsonGrammar.
#[local] Open Scope Z_scope.

Definition CR : Z := 13.
Definition LF : Z := 10.
Definition crlf : list Z := [CR; LF].

(** src/src/server/openai/private.h:15-17, [OPENAI_HTTP_BODY_MAX] *)
Definition OPENAI_HTTP_BODY_MAX : Z := 1048576.
Definition OPENAI_HTTP_HEADER_MAX : Z := 32768.
Definition OPENAI_HTTP_HEADER_COUNT_MAX : Z := 64.

(** * Text *)

(** The first line of a text and what follows its end: [strstr] for a line end, which stops at a null byte. *)
Fixpoint cut_line (text : list Z) : option (list Z * list Z) :=
  match text with
  | [] => None
  | ch :: rest =>
      if ch =? 0 then None
      else if (ch =? CR) && bool_decide (head rest = Some LF) then Some ([], tail rest)
      else '(line, after) ← cut_line rest; Some (ch :: line, after)
  end.

(** What is before and after the first [stop]: [strchr]. *)
Fixpoint cut_char (stop : Z) (text : list Z) : option (list Z * list Z) :=
  match text with
  | [] => None
  | ch :: rest =>
      if ch =? stop then Some ([], rest) else '(before, after) ← cut_char stop rest; Some (ch :: before, after)
  end.

(** Where the empty line that ends a head is: [strstr] for two line ends. *)
Fixpoint find_head_end (text : list Z) : option Z :=
  match text with
  | [] => None
  | ch :: rest =>
      if ch =? 0 then None
      else if bool_decide (take 4 text = crlf ++ crlf) then Some 0
      else offset ← find_head_end rest; Some (offset + 1)
  end.

Definition is_blank (ch : Z) : bool := (ch =? 32) || (ch =? 9).

Fixpoint skip_blanks (text : list Z) : list Z :=
  match text with
  | ch :: rest => if is_blank ch then skip_blanks rest else text
  | [] => []
  end.

(** Blanks before and after a value are dropped. *)
Definition trim (value : list Z) : list Z := reverse (skip_blanks (reverse (skip_blanks value))).

(** src/src/server/openai/http.c:41-46, [content_length] *)
Fixpoint content_length_loop (parsed : Z) (text : list Z) : option Z :=
  match text with
  | [] => Some parsed
  | ch :: rest =>
      if (ch <? 48) || (57 <? ch) || ((ULLONG_MAX - (ch - 48)) / 10 <? parsed) then None
      else content_length_loop (u64 (parsed * 10 + (ch - 48))) rest
  end.

(** src/src/server/openai/http.c, [content_length] *)
Definition content_length (text : list Z) : option Z :=
  match text with [] => None | _ => content_length_loop 0 text end.

Definition lower (ch : Z) : Z := if (65 <=? ch) && (ch <=? 90) then u8 (ch + 32) else ch.

(** src/src/server/openai/http.c, [header_name] *)
Definition header_name (line name : list Z) : bool :=
  Nat.eqb (length line) (length name) && bool_decide (lower <$> line = name).

(** * Heads *)

Definition malformed {A} : outcome A := Refused YVEX_ERR_FORMAT "malformed bounded HTTP/1.1 request".
Definition too_large {A} : outcome A := Refused YVEX_ERR_BOUNDS "HTTP headers or body exceed the gateway limit".

(** The lines behind the request line. [length_seen] and [declared] are what has been read so far.
    src/src/server/openai/http.c:90-111, [parse_headers] *)
Fixpoint parse_fields (fuel : nat) (text : list Z) (fields : Z) (length_seen : bool) (declared : Z)
    : outcome (bool * Z) :=
  match text with
  | [] => Done (length_seen, declared)
  | ch :: _ =>
      if ch =? 0 then Done (length_seen, declared)
      else
        match fuel, cut_line text with
        | O, _ | _, None => malformed
        | S fuel, Some (line, next) =>
            if bool_decide (line = []) then Done (length_seen, declared)
            else
              let fields := u32 (fields + 1) in
              if OPENAI_HTTP_HEADER_COUNT_MAX <? fields then too_large
              else
                match cut_char 58 line with
                | None => malformed
                | Some (name, value) =>
                    if bool_decide (name = []) then malformed
                    else
                      let value := trim value in
                      if header_name name (cstr "content-length") then
                        if length_seen then malformed
                        else
                          match content_length value with
                          | None => malformed
                          | Some declared => parse_fields fuel next fields true declared
                          end
                      else if header_name name (cstr "transfer-encoding") then
                        Refused YVEX_ERR_UNSUPPORTED "Transfer-Encoding requests are unsupported"
                      else parse_fields fuel next fields length_seen declared
                end
        end
  end.

(** The method, the path and the declared extent of the body.
    src/src/server/openai/http.c, [parse_headers] *)
Definition parse_headers (header : list Z) (header_count : Z) : outcome (list Z * list Z * Z) :=
  if (header_count <? 4) || bool_decide (0 ∈ take (Z.to_nat header_count) header) then malformed
  else
    match cut_line header with
    | None => malformed
    | Some (line, next) =>
        match cut_char 32 line with
        | None => malformed
        | Some (method, line) =>
            if bool_decide (method = []) || (8 <=? Z.of_nat (length method)) then malformed
            else
              match cut_char 32 line with
              | None => malformed
              | Some (path, version) =>
                  if bool_decide (path = []) || (256 <=? Z.of_nat (length path)) then malformed
                  else if negb (bool_decide (version = cstr "HTTP/1.1")) || negb (bool_decide (head path = Some 47)) then malformed
                  else
                    '(length_seen, declared) ← parse_fields (length next) next 0 false 0;
                    if bool_decide (method = cstr "POST") && negb length_seen then malformed
                    else if OPENAI_HTTP_BODY_MAX <? declared then too_large
                    else Done (method, path, declared)
              end
        end
    end.

(** * Reading *)

(** What a [recv] finds: it is interrupted by a signal, it fails, or bytes are waiting (none: the peer is gone). *)
Inductive recv_event := RecvInterrupted | RecvFailed | RecvData (data : list Z).

Inductive recv_answer := RecvAgain | RecvGone | RecvGot (data : list Z).

(** [recv] of at most [size] bytes; a connection with nothing more to find is closed. *)
Definition recv (size : nat) (events : list recv_event) : recv_answer * list recv_event :=
  match events with
  | [] => (RecvGone, [])
  | RecvInterrupted :: events => (RecvAgain, events)
  | RecvFailed :: events => (RecvGone, events)
  | RecvData data :: events =>
      if bool_decide (data = []) then (RecvGone, events)
      else (RecvGot (take size data),
            if bool_decide (drop size data = []) then events else RecvData (drop size data) :: events)
  end.

(** src/src/server/openai/private.h, [openai_http_request] *)
Record openai_http_request := HttpRequest { hr_method : list Z; hr_path : list Z; hr_body : list Z }.

Definition incomplete {A} : outcome A := Refused YVEX_ERR_IO "HTTP client closed before the request completed".

(** Bytes are received until an empty line is among them; answers the bytes and where the body begins.
    src/src/server/openai/http.c:137-147, [openai_http_read] *)
Fixpoint read_head (fuel : nat) (events : list recv_event) (header : list Z) : outcome (list Z * Z * list recv_event) :=
  let used := Z.of_nat (length header) in
  if used <? OPENAI_HTTP_HEADER_MAX then
    match fuel with
    | O => incomplete
    | S fuel =>
        match recv (Z.to_nat (OPENAI_HTTP_HEADER_MAX - used)) events with
        | (RecvAgain, events) => read_head fuel events header
        | (RecvGone, _) => incomplete
        | (RecvGot data, events) =>
            let header := header ++ data in
            match find_head_end header with
            | None => read_head fuel events header
            | Some offset => Done (header, offset + 4, events)
            end
        end
    end
  else Refused YVEX_ERR_BOUNDS "HTTP header extent exceeds the gateway limit".

(** src/src/server/openai/http.c:160-166, [openai_http_read] *)
Fixpoint read_body (fuel : nat) (declared : Z) (events : list recv_event) (body : list Z)
    : outcome (list Z * list recv_event) :=
  let copied := Z.of_nat (length body) in
  if copied <? declared then
    match fuel with
    | O => incomplete
    | S fuel =>
        match recv (Z.to_nat (declared - copied)) events with
        | (RecvAgain, events) => read_body fuel declared events body
        | (RecvGone, _) => incomplete
        | (RecvGot data, events) => read_body fuel declared events (body ++ data)
        end
    end
  else Done (body, events).

(** How much a connection holds: every call of [recv] takes some of it. *)
Definition events_size (events : list recv_event) : nat :=
  foldr (λ event n, (S (match event with RecvData data => length data | _ => 0 end) + n)%nat) 0%nat events.

(** The request and what is left of the connection. [malloc] answers for the body.
    src/src/server/openai/http.c, [openai_http_read] *)
Definition openai_http_read (malloc : Z → bool) (events : list recv_event)
    : outcome (openai_http_request * list recv_event) :=
  '(header, body_offset, events) ← read_head (S (events_size events)) events [];
  '(method, path, declared) ← parse_headers header body_offset;
  if declared <? Z.of_nat (length header) - body_offset then
    Refused YVEX_ERR_FORMAT "bytes beyond Content-Length are refused"
  else if negb (declared =? 0) && negb (malloc declared) then Refused YVEX_ERR_NOMEM "HTTP body allocation failed"
  else
    '(body, events) ← read_body (S (events_size events)) declared events (drop (Z.to_nat body_offset) header);
    Done (HttpRequest method path body, events).

(** * Answers *)

(** What a [send] does: it is interrupted, it fails, or takes up to that many bytes. *)
Inductive send_event := SendInterrupted | SendFailed | SendTakes (count : nat).

(** A connection that is written to: what its next calls do, and the bytes it has taken. *)
Record http_wire := Wire { hw_events : list send_event; hw_output : list Z }.

(** A peer with nothing more to say is gone.
    src/src/server/openai/http.c, [write_all] *)
Fixpoint write_all (events : list send_event) (output bytes : list Z) : http_wire * outcome unit :=
  match bytes with
  | [] => (Wire events output, Done tt)
  | _ =>
      match events with
      | SendInterrupted :: events => write_all events output bytes
      | SendTakes (S count) :: events => write_all events (output ++ take (S count) bytes) (drop (S count) bytes)
      | SendTakes O :: events | SendFailed :: events =>
          (Wire events output, Refused YVEX_ERR_IO "HTTP client disconnected during response")
      | [] => (Wire [] output, Refused YVEX_ERR_IO "HTTP client disconnected during response")
      end
  end.

(** Several writes, until one fails. *)
Fixpoint write_parts (wire : http_wire) (parts : list (list Z)) : http_wire * outcome unit :=
  match parts with
  | [] => (wire, Done tt)
  | part :: parts =>
      match write_all (hw_events wire) (hw_output wire) part with
      | (wire, Done _) => write_parts wire parts
      | (wire, Refused st why) => (wire, Refused st why)
      end
  end.

(** src/src/server/openai/http.c, [status_reason] *)
Definition status_reason (status : Z) : string :=
  if status =? 200 then "OK" else if status =? 400 then "Bad Request" else if status =? 404 then "Not Found"
  else if status =? 409 then "Conflict" else if status =? 413 then "Content Too Large"
  else if status =? 422 then "Unprocessable Content" else if status =? 429 then "Too Many Requests"
  else if status =? 499 then "Client Closed Request" else if status =? 500 then "Internal Server Error"
  else if status =? 503 then "Service Unavailable" else if status =? 504 then "Gateway Timeout" else "Error".

(** The head of an answer; [status] is a status code. *)
Definition json_header (status count : Z) : list Z :=
  cstr "HTTP/1.1 " ++ cstr (decimal status) ++ cstr " " ++ cstr (status_reason status) ++ crlf ++
  cstr "Content-Type: application/json" ++ crlf ++
  cstr "Content-Length: " ++ cstr (decimal count) ++ crlf ++
  cstr "Connection: close" ++ crlf ++
  cstr "X-YVEX-OpenAI-Profile: yvex.openai.compat.v2" ++ crlf ++ crlf.

(** src/src/server/openai/http.c, [openai_http_json] *)
Definition openai_http_json (wire : http_wire) (status : Z) (body : list Z) : http_wire * outcome unit :=
  let header := json_header status (Z.of_nat (length body)) in
  if 512 <=? Z.of_nat (length header) then (wire, Refused YVEX_ERR_BOUNDS "")
  else write_parts wire [header; body].

(** src/src/server/openai/http.c, [openai_http_sse_begin] *)
Definition openai_http_sse_begin (wire : http_wire) : http_wire * outcome unit :=
  write_parts wire
    [cstr "HTTP/1.1 200 OK" ++ crlf ++ cstr "Content-Type: text/event-stream" ++ crlf ++
     cstr "Cache-Control: no-cache" ++ crlf ++ cstr "Connection: close" ++ crlf ++
     cstr "X-Accel-Buffering: no" ++ crlf ++ cstr "X-YVEX-OpenAI-Profile: yvex.openai.compat.v2" ++ crlf ++ crlf].

(** A null or empty [event] is [None].
    src/src/server/openai/http.c, [openai_http_sse_event] *)
Definition openai_http_sse_event (wire : http_wire) (event : option (list Z)) (json : list Z)
    : http_wire * outcome unit :=
  write_parts wire
    (match event with
     | Some event => if bool_decide (event = []) then [] else [cstr "event: "; event; [LF]]
     | None => []
     end ++ [cstr "data: "; json; [LF; LF]]).

(** src/src/server/openai/http.c, [openai_http_sse_done] *)
Definition openai_http_sse_done (wire : http_wire) : http_wire * outcome unit :=
  write_parts wire [cstr "data: [DONE]" ++ [LF; LF]].

(** * The grammar of a request head *)

(** A line: no null byte and no line end. *)
Definition line_ok (line : list Z) : Prop := 0 ∉ line ∧ ∀ before after, line ≠ before ++ crlf ++ after.

Definition fields_text (fields : list (list Z)) : list Z := mjoin ((λ field, field ++ crlf) <$> fields).

Definition request_line (method path : list Z) : list Z := method ++ [32] ++ path ++ [32] ++ cstr "HTTP/1.1".

Definition head_text (method path : list Z) (fields : list (list Z)) : list Z :=
  request_line method path ++ crlf ++ fields_text fields ++ crlf.

Definition field_name (field : list Z) : list Z := from_option fst [] (cut_char 58 field).
Definition field_value (field : list Z) : list Z := from_option snd [] (cut_char 58 field).

(** A field: a name, a colon and a value. *)
Definition field_ok (field : list Z) : Prop :=
  line_ok field ∧ ∃ name value, field = name ++ [58] ++ value ∧ 58 ∉ name ∧ name ≠ [].

Definition is_length (field : list Z) : bool := header_name (field_name field) (cstr "content-length").
Definition is_encoding (field : list Z) : bool := header_name (field_name field) (cstr "transfer-encoding").

(** The number a run of digits denotes, when it fits. *)
Definition denotes (text : list Z) (value : Z) : Prop := digits text ∧ digits_value 0 text = value ∧ value ≤ ULLONG_MAX.

(** The declared extent of the body: at most one field declares it, and a post must. *)
Definition extent_ok (method : list Z) (fields : list (list Z)) (declared : Z) : Prop :=
  match filter (λ field, is_length field = true) fields with
  | [] => declared = 0 ∧ method ≠ cstr "POST"
  | [field] => denotes (trim (field_value field)) declared
  | _ => False
  end.

Record http_head (method path : list Z) (fields : list (list Z)) (declared : Z) : Prop := HttpHead {
  hh_method : method ≠ [] ∧ 32 ∉ method ∧ line_ok method ∧ (length method < 8)%nat;
  hh_path : head path = Some 47 ∧ 32 ∉ path ∧ line_ok path ∧ (length path < 256)%nat;
  hh_fields : Forall field_ok fields ∧ (length fields ≤ 64)%nat;
  hh_encoding : Forall (λ field, is_encoding field = false) fields;
  hh_extent : extent_ok method fields declared;
  hh_limit : declared ≤ OPENAI_HTTP_BODY_MAX;
}.

(** ** Lines *)

Lemma line_ok_cons ch line :
  line_ok (ch :: line) ↔ ch ≠ 0 ∧ ¬ (ch = CR ∧ head line = Some LF) ∧ line_ok line.
Proof.
  unfold line_ok. rewrite not_elem_of_cons. split.
  - intros [[H1 H2] H3]. split_and!; [done| |done|].
    + intros [-> Hh]. destruct line as [|ch' line]; [done|]. injection Hh as ->. by apply (H3 [] line).
    + intros before after E. apply (H3 (ch :: before) after). by rewrite E.
  - intros (H1 & H2 & H3 & H4). split; [done|]. intros [|b before] after E.
    + injection E as -> ->. by apply H2.
    + injection E as -> ->. by apply (H4 before after).
Qed.

Lemma line_ok_nil : line_ok [].
Proof. split; [apply not_elem_of_nil|]. by intros [|] after. Qed.

Lemma line_ok_app_l a b : line_ok (a ++ b) → line_ok a.
Proof.
  intros [H1 H2]. split; [intros H; apply H1, elem_of_app; by left|]. intros before after ->.
  apply (H2 before (after ++ b)). by rewrite <- !(assoc_L (++)).
Qed.

Lemma line_ok_app_r a b : line_ok (a ++ b) → line_ok b.
Proof.
  intros [H1 H2]. split; [intros H; apply H1, elem_of_app; by right|]. intros before after ->.
  apply (H2 (a ++ before) after). by rewrite <- !(assoc_L (++)).
Qed.

(** Lines joined by a byte that ends none. *)
Lemma line_ok_join a ch b : ch ≠ 0 → ch ≠ CR → ch ≠ LF → line_ok a → line_ok b → line_ok (a ++ [ch] ++ b).
Proof.
  intros H0 Hcr Hlf. induction a as [|x a IH]; intros Ha Hb; cbn [app].
  - apply line_ok_cons. split_and!; [done|by intros [? _]|done].
  - apply line_ok_cons in Ha as (H1 & H2 & H3). apply line_ok_cons. split_and!; [done| |by apply IH].
    intros [-> Hh]. apply H2. split; [done|]. destruct a; cbn in Hh; [congruence|done].
Qed.

Lemma cut_line_app line rest : line_ok line → cut_line (line ++ crlf ++ rest) = Some (line, rest).
Proof.
  induction line as [|ch line IH]; [done|]. intros (H1 & H2 & H3)%line_ok_cons. cbn [app cut_line].
  rewrite (proj2 (Z.eqb_neq _ _) H1), (IH H3). cbn [mbind option_bind].
  destruct (Z.eqb_spec ch CR) as [->|]; [|done]. cbn [andb]. rewrite bool_decide_eq_false_2; [done|].
  intros Hh. apply H2. split; [done|]. destruct line; [by cbn in Hh|done].
Qed.

Lemma cut_line_sound text line rest : cut_line text = Some (line, rest) → text = line ++ crlf ++ rest ∧ line_ok line.
Proof.
  revert line rest. induction text as [|ch text IH]; intros line rest; [done|]. cbn [cut_line].
  destruct (Z.eqb_spec ch 0) as [|H0]; [done|]. destruct (_ && _) eqn:E.
  - apply andb_true_iff in E as [->%Z.eqb_eq Hh%bool_decide_eq_true]. intros [= <- <-].
    destruct text as [|ch' text]; [done|]. injection Hh as ->. split; [done|apply line_ok_nil].
  - destruct (cut_line text) as [[l r]|] eqn:El; [|done]. intros [= <- <-].
    destruct (IH l r eq_refl) as [-> Hl]. split; [done|]. apply line_ok_cons. split_and!; [done| |done].
    intros [-> Hh]. rewrite Z.eqb_refl in E. cbn [andb] in E. apply bool_decide_eq_false in E. apply E.
    by destruct l.
Qed.

Lemma cut_char_app stop before after : stop ∉ before → cut_char stop (before ++ [stop] ++ after) = Some (before, after).
Proof.
  induction before as [|ch before IH]; cbn [app cut_char] in *.
  - by rewrite Z.eqb_refl.
  - intros [H1 H2]%not_elem_of_cons. rewrite (proj2 (Z.eqb_neq _ _)) by done. by rewrite (IH H2).
Qed.

Lemma cut_char_sound stop text before after :
  cut_char stop text = Some (before, after) → text = before ++ [stop] ++ after ∧ stop ∉ before.
Proof.
  revert before after. induction text as [|ch text IH]; intros before after; [done|]. cbn [cut_char].
  destruct (Z.eqb_spec ch stop) as [->|Hne].
  - intros [= <- <-]. split; [done|]. apply not_elem_of_nil.
  - destruct (cut_char stop text) as [[b a]|]; [|done]. intros [= <- <-].
    destruct (IH b a eq_refl) as [-> Hb]. split; [done|]. by apply not_elem_of_cons.
Qed.

(** The end of a head is behind a line that an empty line follows. *)
Lemma find_head_end_line line rest :
  line_ok line →
  find_head_end (line ++ crlf ++ rest) =
  if bool_decide (take 2 rest = crlf) then Some (Z.of_nat (length line))
  else (λ offset, offset + Z.of_nat (length line) + 2) <$> find_head_end rest.
Proof.
  induction line as [|ch line IH].
  - intros _. cbn [app find_head_end crlf length]. change (CR =? 0) with false. change (LF =? 0) with false. cbn iota.
    change (take 4 (CR :: LF :: rest)) with (crlf ++ take 2 rest).
    destruct (decide (take 2 rest = crlf)) as [E|E].
    + rewrite E, !bool_decide_eq_true_2 by done. done.
    + rewrite (bool_decide_eq_false_2 (_ ++ _ = _)) by (intros E2; by apply (inj (app crlf)) in E2).
      rewrite (bool_decide_eq_false_2 (take 2 rest = _)) by done. rewrite bool_decide_eq_false_2 by done.
      destruct (find_head_end rest); [|done]. cbn. f_equal. lia.
  - intros (H1 & H2 & H3)%line_ok_cons. cbn [app find_head_end]. rewrite (proj2 (Z.eqb_neq _ _) H1).
    rewrite bool_decide_eq_false_2.
    + rewrite (IH H3). cbn [length]. case_bool_decide; [cbn; f_equal; lia|].
      destruct (find_head_end rest); [|done]. cbn. f_equal. lia.
    + intros E. injection E as -> E. apply H2. split; [done|].
      destruct line as [|l line]; [done|]. cbn in E. by injection E as ->.
Qed.

(** ** Fields *)

Lemma content_length_loop_spec parsed text value :
  0 ≤ parsed ≤ ULLONG_MAX →
  content_length_loop parsed text = Some value ↔
  Forall (λ ch, isdigit ch = true) text ∧ digits_value parsed text = value ∧ value ≤ ULLONG_MAX.
Proof.
  revert parsed. induction text as [|ch text IH]; intros parsed Hp; cbn [content_length_loop digits_value foldl].
  { split; [intros [= <-]; split_and!; [constructor|done|lia]|by intros (_ & -> & _)]. }
  change (foldl (λ v ch, v * 10 + (ch - 48)) ?v text) with (digits_value v text).
  pose proof (Z.mul_succ_div_gt (ULLONG_MAX - (ch - 48)) 10). pose proof (Z.mul_div_le (ULLONG_MAX - (ch - 48)) 10).
  destruct (_ || _) eqn:E.
  - split; [done|]. intros (Hall & Hv & Hle). apply Forall_cons in Hall as [Hd Hall]. pose proof (isdigit_range _ Hd) as Hr.
    apply orb_true_iff in E as [E|E%Z.ltb_lt]; [guards; lia|].
    pose proof (digits_value_le (parsed * 10 + (ch - 48)) text Hall). lia.
  - apply orb_false_iff in E as [[E1%Z.ltb_ge E2%Z.ltb_ge]%orb_false_iff E3%Z.ltb_ge]. rewrite u64_id by ulia.
    rewrite IH by lia. rewrite Forall_cons. assert (isdigit ch = true) as Hd by (unfold isdigit; lia). naive_solver.
Qed.

Lemma content_length_spec text value : content_length text = Some value ↔ denotes text value.
Proof.
  unfold content_length, denotes, digits. destruct text as [|ch text]; [split; [done|by intros [[? _] _]]|].
  rewrite content_length_loop_spec by ulia. naive_solver.
Qed.

(** What a list of fields declares, read from left to right. *)
Fixpoint scan_fields (fields : list (list Z)) (length_seen : bool) (declared : Z) : option (bool * Z) :=
  match fields with
  | [] => Some (length_seen, declared)
  | field :: fields =>
      if is_length field then
        if length_seen then None
        else declared ← content_length (trim (field_value field)); scan_fields fields true declared
      else if is_encoding field then None
      else scan_fields fields length_seen declared
  end.

Lemma field_cut field :
  field_ok field → cut_char 58 field = Some (field_name field, field_value field) ∧ field_name field ≠ [].
Proof.
  intros (_ & name & value & -> & Hn & Hne). unfold field_name, field_value. by rewrite cut_char_app.
Qed.

Lemma is_length_encoding field : is_length field = true → is_encoding field = false.
Proof.
  unfold is_length, is_encoding, header_name. intros [_ E%bool_decide_eq_true]%andb_true_iff.
  rewrite E, bool_decide_eq_false_2 by done. apply andb_false_r.
Qed.

Lemma scan_fields_seen fields declared r :
  scan_fields fields true declared = Some r ↔
  r = (true, declared) ∧ filter (λ field, is_length field = true) fields = [] ∧ Forall (λ field, is_encoding field = false) fields.
Proof.
  induction fields as [|field fields IH]; cbn [scan_fields].
  - split; [intros [= <-]; by split_and!|by intros (-> & _)].
  - rewrite filter_cons. destruct (is_length field) eqn:El.
    + rewrite decide_True by done. split; [done|by intros (_ & ? & _)].
    + rewrite decide_False by done. rewrite Forall_cons. destruct (is_encoding field).
      * split; [done|by intros (_ & _ & ? & _)].
      * rewrite IH. naive_solver.
Qed.

Lemma scan_fields_extent method fields declared :
  (∃ length_seen, scan_fields fields false 0 = Some (length_seen, declared) ∧
     bool_decide (method = cstr "POST") && negb length_seen = false) ↔
  extent_ok method fields declared ∧ Forall (λ field, is_encoding field = false) fields.
Proof.
  unfold extent_ok. induction fields as [|field fields IH]; cbn [scan_fields].
  - cbn. split.
    + intros (seen & [= <- <-] & Hm). rewrite andb_true_r in Hm. apply bool_decide_eq_false in Hm. by split_and!.
    + intros [[-> Hm] _]. exists false. split; [done|]. rewrite bool_decide_eq_false_2; done.
  - rewrite filter_cons, Forall_cons. destruct (is_length field) eqn:El.
    + rewrite decide_True by done. pose proof (is_length_encoding _ El) as Ee.
      destruct (content_length _) as [d|] eqn:Ed; cbn [mbind option_bind].
      * split.
        -- intros (seen & E & Hm). apply scan_fields_seen in E as ([= -> ->] & -> & Ht). by split_and!; [apply content_length_spec|..].
        -- intros [Hx [_ Ht]]. destruct (filter _ fields) eqn:Ef; [|done]. exists true.
           split; [|apply andb_false_r]. apply scan_fields_seen. apply content_length_spec in Hx.
           split_and!; [congruence|done|done].
      * split; [by intros (? & ? & _)|]. intros [Hx _]. destruct (filter _ fields); [|done].
        apply content_length_spec in Hx. congruence.
    + rewrite decide_False by done. destruct (is_encoding field).
      * split; [by intros (? & ? & _)|by intros [_ [? _]]].
      * rewrite IH. naive_solver.
Qed.

Lemma fields_text_cons field fields : fields_text (field :: fields) = field ++ crlf ++ fields_text fields.
Proof. unfold fields_text. cbn [fmap list_fmap]. change (mjoin (?x :: ?l)) with (x ++ mjoin l). by rewrite <- (assoc_L (++)). Qed.

(** The next step of a parse at a line that is not empty. *)
Lemma parse_fields_line fuel field text n length_seen declared :
  line_ok field → field ≠ [] → 0 ≤ n ≤ 64 →
  parse_fields (S fuel) (field ++ crlf ++ text) n length_seen declared =
  if 64 <? n + 1 then too_large
  else
    match cut_char 58 field with
    | None => malformed
    | Some (name, value) =>
        if bool_decide (name = []) then malformed
        else if header_name name (cstr "content-length") then
          if length_seen then malformed
          else match content_length (trim value) with
               | None => malformed
               | Some declared => parse_fields fuel text (n + 1) true declared
               end
        else if header_name name (cstr "transfer-encoding") then
          Refused YVEX_ERR_UNSUPPORTED "Transfer-Encoding requests are unsupported"
        else parse_fields fuel text (n + 1) length_seen declared
    end.
Proof.
  intros Hl Hne Hn. destruct field as [|ch field]; [done|]. pose proof Hl as (H0 & _)%line_ok_cons.
  cbn [app parse_fields]. rewrite (proj2 (Z.eqb_neq _ _) H0).
  change (ch :: field ++ crlf ++ text) with ((ch :: field) ++ crlf ++ text). rewrite (cut_line_app _ text Hl).
  rewrite bool_decide_eq_false_2 by done. unfold OPENAI_HTTP_HEADER_COUNT_MAX. by rewrite u32_id by ulia.
Qed.

Lemma parse_fields_end fuel text n length_seen declared :
  parse_fields (S fuel) (crlf ++ text) n length_seen declared = Done (length_seen, declared).
Proof. done. Qed.

Lemma parse_fields_complete fuel fields text n length_seen declared r :
  Forall field_ok fields → 0 ≤ n → n + Z.of_nat (length fields) ≤ 64 → (length fields < fuel)%nat →
  scan_fields fields length_seen declared = Some r →
  parse_fields fuel (fields_text fields ++ crlf ++ text) n length_seen declared = Done r.
Proof.
  intros Hf. revert fuel n length_seen declared. induction Hf as [|field fields Hfield Hf IH];
    intros fuel n length_seen declared Hn Hc Hfuel; (destruct fuel as [|fuel]; [cbn in Hfuel; lia|]).
  - intros [= <-]. apply parse_fields_end.
  - cbn [length] in *. rewrite fields_text_cons, <- !(assoc_L (++)).
    pose proof Hfield as [Hl (name & value & Ef & _ & Hne)].
    rewrite parse_fields_line; [|done|by subst; destruct name|lia]. rewrite (proj2 (Z.ltb_ge _ _)) by lia.
    destruct (field_cut field Hfield) as [-> Hname]. rewrite bool_decide_eq_false_2 by done. cbn [scan_fields].
    fold (is_length field) (is_encoding field). destruct (is_length field).
    + destruct length_seen; [done|]. destruct (content_length _) as [d|]; [|done]. cbn [mbind option_bind].
      apply IH; lia.
    + destruct (is_encoding field); [done|]. apply IH; lia.
Qed.

(** A head ends somewhere ahead. *)
Definition head_ahead (text : list Z) : Prop := take 2 text = crlf ∨ is_Some (find_head_end text).

Lemma parse_fields_sound fuel text n length_seen declared r :
  head_ahead text → 0 ≤ n ≤ 64 → parse_fields fuel text n length_seen declared = Done r →
  ∃ fields rest, text = fields_text fields ++ crlf ++ rest ∧ Forall field_ok fields ∧
    n + Z.of_nat (length fields) ≤ 64 ∧ scan_fields fields length_seen declared = Some r.
Proof.
  revert text n length_seen declared. induction fuel as [|fuel IH]; intros text n length_seen declared Ha Hn E.
  { destruct text as [|ch text]; [by destruct Ha as [|[]]|]. cbn [parse_fields] in E.
    destruct (Z.eqb_spec ch 0) as [->|]; [|done]. destruct Ha as [Ha|[? Ha]]; [|done]. by injection Ha. }
  destruct text as [|ch text]; [by destruct Ha as [|[]]|]. remember (ch :: text) as whole eqn:Ew.
  destruct (cut_line whole) as [[line next]|] eqn:Ec.
  2: { subst. cbn [parse_fields] in E. rewrite Ec in E. destruct (Z.eqb_spec ch 0) as [->|]; [|done].
       destruct Ha as [Ha|[? Ha]]; [|done]. by injection Ha. }
  apply cut_line_sound in Ec as [Et Hl]. destruct (decide (line = [])) as [->|Hne].
  { exists [], next. change (whole = crlf ++ next) in Et. rewrite Et in E. rewrite parse_fields_end in E. injection E as <-.
    split; [done|]. split; [by apply Forall_nil_2|]. split; [cbn [length]; lia|done]. }
  rewrite Et, parse_fields_line in E by done. destruct (Z.ltb_spec 64 (n + 1)); [done|].
  destruct (cut_char 58 line) as [[name value]|] eqn:Ecut; [|done]. case_bool_decide as Hname; [done|].
  assert (head_ahead next) as Ha'.
  { rewrite Et in Ha. destruct Ha as [Ha|Ha].
    - exfalso. destruct line as [|l1 [|l2 line]]; [done| |].
      + cbn in Ha. injection Ha as _ Ha. done.
      + cbn in Ha. injection Ha as -> ->. apply line_ok_cons in Hl as (_ & Hl & _). by apply Hl.
    - rewrite find_head_end_line in Ha by done. case_bool_decide as Hb; [by left|]. right. by rewrite fmap_is_Some in Ha. }
  assert (field_ok line ∧ field_name line = name ∧ field_value line = value) as (Hfield & En & Ev).
  { split; [|unfold field_name, field_value; by rewrite Ecut]. split; [done|].
    apply cut_char_sound in Ecut as [-> Hc]. by exists name, value. }
  assert (∀ seen' declared', parse_fields fuel next (n + 1) seen' declared' = Done r →
    (scan_fields [line] length_seen declared = Some (seen', declared')) →
    ∃ fields rest, whole = fields_text fields ++ crlf ++ rest ∧ Forall field_ok fields ∧
      n + Z.of_nat (length fields) ≤ 64 ∧ scan_fields fields length_seen declared = Some r) as Hnext.
  { intros seen' declared' E' Hs. destruct (IH next (n + 1) seen' declared' Ha' ltac:(lia) E') as (fields & rest & -> & Hf & Hc & Hscan).
    exists (line :: fields), rest. split_and!; [by rewrite fields_text_cons, <- !(assoc_L (++))|by constructor|cbn [length]; lia|].
    cbn [scan_fields] in Hs |- *. destruct (is_length line).
    - destruct length_seen; [done|]. destruct (content_length (trim (field_value line))); [|done]. cbn [mbind option_bind] in *. by injection Hs as <- <-.
    - destruct (is_encoding line); [done|]. by injection Hs as <- <-. }
  cbn [scan_fields] in Hnext. unfold is_length, is_encoding in Hnext. rewrite En, Ev in Hnext.
  destruct (header_name name (cstr "content-length")).
  - destruct length_seen; [done|]. destruct (content_length (trim value)) as [d|]; [|done]. by eapply Hnext.
  - destruct (header_name name (cstr "transfer-encoding")); [done|]. by eapply Hnext.
Qed.

(** ** Heads *)

Lemma field_line field : field_ok field → line_ok field ∧ field ≠ [].
Proof. intros [Hl (name & value & -> & _ & Hne)]. split; [done|by destruct name]. Qed.

Lemma line_starts_no_crlf line rest : line_ok line → line ≠ [] → take 2 (line ++ crlf ++ rest) ≠ crlf.
Proof.
  intros Hl Hne E. destruct line as [|l1 [|l2 line]]; [done| |].
  - cbn in E. injection E as _ E. done.
  - cbn in E. injection E as -> ->. apply line_ok_cons in Hl as (_ & Hl & _). by apply Hl.
Qed.

Lemma find_head_fields line fields rest :
  line_ok line → Forall field_ok fields →
  find_head_end (line ++ crlf ++ fields_text fields ++ crlf ++ rest) =
  Some (Z.of_nat (length line) + Z.of_nat (length (fields_text fields))).
Proof.
  intros Hl Hf. revert line Hl. induction Hf as [|field fields Hfield Hf IH]; intros line Hl; rewrite find_head_end_line by done.
  - rewrite bool_decide_eq_true_2 by done. f_equal. cbn. lia.
  - destruct (field_line field Hfield) as [Hfl Hne]. rewrite fields_text_cons, <- !(assoc_L (++)).
    rewrite bool_decide_eq_false_2 by by apply line_starts_no_crlf. rewrite (IH field Hfl). cbn [fmap option_fmap option_map].
    rewrite !length_app. f_equal. cbn [length crlf]. lia.
Qed.

Lemma request_line_ok method path :
  line_ok method → line_ok path → line_ok (request_line method path).
Proof.
  intros Hm Hp. apply line_ok_join; [done..|]. apply line_ok_join; [done..|].
  cbn. repeat (apply line_ok_cons; split_and!; [done|by intros [? _]|]). apply line_ok_nil.
Qed.

Lemma head_text_length method path fields :
  length (head_text method path fields) =
  (length (request_line method path) + length (fields_text fields) + 4)%nat.
Proof. unfold head_text. rewrite !length_app. cbn [length crlf]. lia. Qed.

Lemma head_text_app method path fields rest :
  head_text method path fields ++ rest = request_line method path ++ crlf ++ fields_text fields ++ crlf ++ rest.
Proof. unfold head_text. by rewrite <- !(assoc_L (++)). Qed.

(** The end of a well-formed head is found where it is. *)
Lemma find_head_text method path fields declared rest :
  http_head method path fields declared →
  find_head_end (head_text method path fields ++ rest) = Some (Z.of_nat (length (head_text method path fields)) - 4).
Proof.
  intros [(_ & _ & Hm & _) (_ & _ & Hp & _) [Hf _] _ _ _]. rewrite head_text_length, head_text_app.
  rewrite find_head_fields by (done || by apply request_line_ok). f_equal. lia.
Qed.

Lemma fields_text_length fields : (length fields ≤ length (fields_text fields))%nat.
Proof.
  induction fields as [|field fields IH]; [done|]. rewrite fields_text_cons, !length_app. cbn [length crlf]. lia.
Qed.

Lemma fields_text_no_null fields : Forall field_ok fields → 0 ∉ fields_text fields.
Proof.
  induction 1 as [|field fields Hfield Hf IH]; [apply not_elem_of_nil|]. rewrite fields_text_cons.
  destruct (field_line field Hfield) as [[Hn _] _]. rewrite !elem_of_app. intros [?|[Hc|?]]; [done| |done].
  unfold crlf, CR, LF in Hc. rewrite !elem_of_cons, elem_of_nil in Hc. lia.
Qed.

Lemma parse_headers_complete method path fields declared rest :
  http_head method path fields declared →
  parse_headers (head_text method path fields ++ rest) (Z.of_nat (length (head_text method path fields))) =
  Done (method, path, declared).
Proof.
  intros [(Hm1 & Hm2 & Hm3 & Hm4) (Hp1 & Hp2 & Hp3 & Hp4) [Hf Hcount] He Hx Hlimit]. unfold parse_headers.
  pose proof (request_line_ok method path Hm3 Hp3) as Hline.
  rewrite Nat2Z.id, take_app_length. rewrite (proj2 (orb_false_iff _ _)).
  2: { split.
       - apply Z.ltb_ge. rewrite head_text_length. lia.
       - apply bool_decide_eq_false_2. unfold head_text. rewrite !elem_of_app. destruct Hline as [Hl _].
         intros [?|[Hc|[Hc|Hc]]]; [done| |by apply fields_text_no_null in Hc|];
           unfold crlf, CR, LF in Hc; rewrite !elem_of_cons, elem_of_nil in Hc; lia. }
  rewrite head_text_app, cut_line_app by done. unfold request_line. rewrite cut_char_app by done.
  rewrite (proj2 (orb_false_iff _ _)) by (split; [by apply bool_decide_eq_false_2|apply Z.leb_gt; lia]).
  rewrite cut_char_app by done.
  rewrite (proj2 (orb_false_iff _ _)) by (split; [apply bool_decide_eq_false_2; by destruct path|apply Z.leb_gt; lia]).
  rewrite (bool_decide_eq_true_2 (cstr _ = _)), (bool_decide_eq_true_2 (head path = _)) by done. cbn [negb orb].
  destruct (proj2 (scan_fields_extent method fields declared) (conj Hx He)) as (seen & Hscan & Hpost).
  rewrite (parse_fields_complete _ fields rest 0 false 0 (seen, declared)); [|done|lia|lia| |done].
  - cbn [mbind outcome_bind]. rewrite Hpost. by rewrite (proj2 (Z.ltb_ge _ _)).
  - pose proof (fields_text_length fields). rewrite !length_app. cbn [length crlf]. lia.
Qed.

Lemma parse_headers_sound header offset method path declared :
  find_head_end header = Some offset → parse_headers header (offset + 4) = Done (method, path, declared) →
  ∃ fields rest, header = head_text method path fields ++ rest ∧ http_head method path fields declared ∧
    offset + 4 = Z.of_nat (length (head_text method path fields)).
Proof.
  intros Hend. unfold parse_headers. destruct (_ || _); [done|].
  destruct (cut_line header) as [[line next]|] eqn:Ec; [|done]. apply cut_line_sound in Ec as [-> Hl].
  destruct (cut_char 32 line) as [[m line']|] eqn:E1; [|done]. apply cut_char_sound in E1 as [-> Hm].
  destruct (_ || _) eqn:Gm; [done|]. apply orb_false_iff in Gm as [Gm1%bool_decide_eq_false Gm2%Z.leb_gt].
  destruct (cut_char 32 line') as [[p version]|] eqn:E2; [|done]. apply cut_char_sound in E2 as [-> Hp].
  destruct (_ || _) eqn:Gp; [done|]. apply orb_false_iff in Gp as [Gp1%bool_decide_eq_false Gp2%Z.leb_gt].
  destruct (_ || _) eqn:Gv; [done|]. apply orb_false_iff in Gv as [Gv1 Gv2].
  apply negb_false_iff, bool_decide_eq_true in Gv1, Gv2. subst version.
  destruct (parse_fields _ _ _ _ _) as [[seen d]|] eqn:Ef; [|done]. cbn [mbind outcome_bind].
  destruct (_ && _) eqn:Gpost; [done|]. destruct (Z.ltb_spec OPENAI_HTTP_BODY_MAX d); [done|]. intros [= <- <- <-].
  assert (head_ahead next) as Ha.
  { rewrite find_head_end_line in Hend by done. destruct (decide (take 2 next = crlf)) as [Hb|Hb]; [by left|]. right.
    rewrite bool_decide_eq_false_2 in Hend by done. destruct (find_head_end next); [by eexists|done]. }
  destruct (parse_fields_sound (length next) next 0 false 0 (seen, d) Ha ltac:(done) Ef) as (fields & rest & -> & Hf & Hcount & Hscan).
  destruct (proj1 (scan_fields_extent m fields d)) as [Hx He]; [by exists seen|].
  assert (http_head m p fields d) as Hh.
  { pose proof (line_ok_app_l _ _ Hl) as Hlm. pose proof (line_ok_app_r _ _ (line_ok_app_r _ _ Hl)) as Hlp.
    apply line_ok_app_l in Hlp. constructor; try done; split_and!; try done; lia. }
  exists fields, rest. pose proof (head_text_app m p fields rest) as E. symmetry in E.
  split_and!; [exact E|done|]. fold (request_line m p) in Hend. rewrite E, (find_head_text _ _ _ _ _ Hh) in Hend. injection Hend as <-. lia.
Qed.

(** * Receiving *)

(** The bytes a connection will give before it ends. *)
Fixpoint stream (events : list recv_event) : list Z :=
  match events with
  | [] => []
  | RecvInterrupted :: events => stream events
  | RecvFailed :: _ => []
  | RecvData data :: events => if bool_decide (data = []) then [] else data ++ stream events
  end.

Lemma recv_spec size events :
  (0 < size)%nat →
  match recv size events with
  | (RecvAgain, events') => stream events' = stream events ∧ (events_size events' < events_size events)%nat
  | (RecvGone, _) => stream events = []
  | (RecvGot data, events') => data ≠ [] ∧ (length data ≤ size)%nat ∧ stream events = data ++ stream events' ∧
      (events_size events' < events_size events)%nat
  end.
Proof.
  intros Hs. destruct events as [|[| |data] events]; cbn [recv]; [done|split; [done|unfold events_size; cbn; lia]|done|].
  cbn [stream]. destruct (decide (data = [])) as [->|Hne]; [by rewrite !bool_decide_eq_true_2|].
  rewrite !(bool_decide_eq_false_2 (data = [])) by done.
  split; [destruct data, size; done || lia|]. split; [rewrite length_take; lia|].
  unfold events_size in *. destruct (decide (drop size data = [])) as [E|E].
  - rewrite bool_decide_eq_true_2 by done. split; [|cbn; lia].
    f_equal. rewrite <- (take_drop size data) at 1. by rewrite E, app_nil_r.
  - rewrite bool_decide_eq_false_2 by done. cbn [stream]. rewrite bool_decide_eq_false_2 by done.
    split; [by rewrite (assoc_L (++)), take_drop|]. cbn [events_size foldr]. rewrite length_drop.
    assert (length data ≠ 0)%nat by (by destruct data). lia.
Qed.

Lemma find_head_end_bounds text offset :
  find_head_end text = Some offset → 0 ≤ offset ∧ offset + 4 ≤ Z.of_nat (length text).
Proof.
  revert offset. induction text as [|ch text IH]; intros offset; [done|]. cbn [find_head_end].
  destruct (ch =? 0); [done|]. case_bool_decide as E.
  - intros [= <-]. apply (f_equal length) in E. rewrite length_take in E. cbn [length app crlf] in *. lia.
  - destruct (find_head_end text) as [o|]; [|done]. intros [= <-]. specialize (IH o eq_refl). cbn [length]. lia.
Qed.

Lemma find_head_end_app text more offset :
  find_head_end text = Some offset → find_head_end (text ++ more) = Some offset.
Proof.
  revert offset. induction text as [|ch text IH]; intros offset E; [done|].
  pose proof (find_head_end_bounds _ _ E) as Hb. cbn [app find_head_end] in *. destruct (ch =? 0); [done|].
  change (ch :: text ++ more) with ((ch :: text) ++ more). rewrite take_app_le by lia.
  case_bool_decide; [done|]. destruct (find_head_end text) as [o|]; [|done]. by rewrite (IH o).
Qed.

Lemma read_head_spec fuel events header :
  (events_size events < fuel)%nat → find_head_end header = None → Z.of_nat (length header) ≤ OPENAI_HTTP_HEADER_MAX →
  match read_head fuel events header with
  | Done (header', offset, events') =>
      header' ++ stream events' = header ++ stream events ∧ find_head_end header' = Some (offset - 4) ∧
      Z.of_nat (length header') ≤ OPENAI_HTTP_HEADER_MAX
  | Refused _ _ => find_head_end (take (Z.to_nat OPENAI_HTTP_HEADER_MAX) (header ++ stream events)) = None
  end.
Proof.
  revert events header. induction fuel as [|fuel IH]; intros events header Hf Hn Hl; [lia|]. cbn [read_head].
  destruct (Z.ltb_spec (Z.of_nat (length header)) OPENAI_HTTP_HEADER_MAX) as [Hlt|Hge].
  2: { by rewrite take_app_length' by lia. }
  pose proof (recv_spec (Z.to_nat (OPENAI_HTTP_HEADER_MAX - Z.of_nat (length header))) events ltac:(lia)) as Hr.
  destruct (recv _ events) as [[| |data] events'].
  - destruct Hr as [<- Hs]. apply IH; [lia|done|done].
  - rewrite Hr, app_nil_r. by rewrite take_ge by lia.
  - destruct Hr as (Hne & Hd & -> & Hs). rewrite (assoc_L (++)).
    destruct (find_head_end (header ++ data)) as [offset|] eqn:E.
    + split; [done|]. split; [by rewrite Z.add_simpl_r|]. rewrite length_app. lia.
    + apply IH; [lia|done|]. rewrite length_app. lia.
Qed.

Lemma read_body_spec fuel declared events body :
  (events_size events < fuel)%nat → Z.of_nat (length body) ≤ declared →
  match read_body fuel declared events body with
  | Done (body', events') => body' ++ stream events' = body ++ stream events ∧ Z.of_nat (length body') = declared
  | Refused _ _ => Z.of_nat (length (body ++ stream events)) < declared
  end.
Proof.
  revert events body. induction fuel as [|fuel IH]; intros events body Hf Hl; [lia|]. cbn [read_body].
  destruct (Z.ltb_spec (Z.of_nat (length body)) declared) as [Hlt|Hge]; [|split; [done|lia]].
  pose proof (recv_spec (Z.to_nat (declared - Z.of_nat (length body))) events ltac:(lia)) as Hr.
  destruct (recv _ events) as [[| |data] events'].
  - destruct Hr as [<- Hs]. apply IH; [lia|done].
  - rewrite Hr, app_nil_r. done.
  - destruct Hr as (Hne & Hd & -> & Hs). rewrite (assoc_L (++)). apply IH; [lia|]. rewrite length_app. lia.
Qed.

(** C10: reading a request is exact, however its bytes arrive. When a request is answered, the bytes taken from the
    connection are a head of the grammar (method, path, fields; at most one declares the extent of the body, none
    encodes it otherwise) and then exactly the declared number of bytes, which are the body. Conversely, a
    connection that holds such a head, within the limits, and that body is read as that request, in however many
    pieces and with whatever interruptions the bytes arrive. *)
Theorem http_read_exact malloc events :
  (∀ request events', openai_http_read malloc events = Done (request, events') →
     ∃ fields, let head := head_text (hr_method request) (hr_path request) fields in
       stream events = head ++ hr_body request ++ stream events' ∧
       http_head (hr_method request) (hr_path request) fields (Z.of_nat (length (hr_body request))) ∧
       Z.of_nat (length head) ≤ OPENAI_HTTP_HEADER_MAX) ∧
  (∀ method path fields body,
     http_head method path fields (Z.of_nat (length body)) →
     Z.of_nat (length (head_text method path fields)) ≤ OPENAI_HTTP_HEADER_MAX →
     (body ≠ [] → malloc (Z.of_nat (length body)) = true) →
     stream events = head_text method path fields ++ body →
     ∃ events', openai_http_read malloc events = Done (HttpRequest method path body, events') ∧ stream events' = []).
Proof.
  unfold openai_http_read.
  pose proof (read_head_spec (S (events_size events)) events [] ltac:(lia) eq_refl ltac:(done)) as Hhead. cbn [app] in Hhead.
  destruct (read_head _ _ _) as [[[header offset] events1]|st why]; cbn [mbind outcome_bind].
  2: { split; [done|]. intros method path fields body Hh Hl _ E. exfalso. rewrite E in Hhead.
       rewrite take_app_ge in Hhead by lia. by rewrite (find_head_text _ _ _ _ _ Hh) in Hhead. }
  destruct Hhead as (Estream & Eend & Hlen).
  assert (∀ method path declared, parse_headers header offset = Done (method, path, declared) →
    ∃ fields extra, header = head_text method path fields ++ extra ∧ http_head method path fields declared ∧
      offset = Z.of_nat (length (head_text method path fields))) as Hsound.
  { intros method path declared Ep. destruct (parse_headers_sound header (offset - 4) method path declared Eend) as (fields & extra & H1 & H2 & H3).
    - by rewrite Z.sub_add.
    - exists fields, extra. split_and!; [done..|lia]. }
  split.
  - intros request events'. destruct (parse_headers header offset) as [[[method path] declared]|] eqn:Ep; [|done].
    cbn [mbind outcome_bind]. destruct (Hsound _ _ _ eq_refl) as (fields & extra & -> & Hh & ->).
    rewrite length_app, Nat2Z.inj_add, Z.add_simpl_l, Nat2Z.id, drop_app_length.
    destruct (Z.ltb_spec declared (Z.of_nat (length extra))) as [|Hx]; [done|]. destruct (_ && _); [done|].
    pose proof (read_body_spec (S (events_size events1)) declared events1 extra ltac:(lia) Hx) as Hbody.
    destruct (read_body _ _ _ _) as [[body events2]|]; [|done]. cbn [mbind outcome_bind]. intros [= <- <-].
    destruct Hbody as [Eb Hd]. exists fields. cbn [hr_method hr_path hr_body]. split_and!.
    + by rewrite <- Estream, <- (assoc_L (++)), <- Eb.
    + by rewrite Hd.
    + rewrite length_app in Hlen. lia.
  - intros method path fields body Hh Hl Hm E. rewrite E in Estream.
    pose proof (find_head_end_app header (stream events1) _ Eend) as Eend'. rewrite Estream, (find_head_text _ _ _ _ _ Hh) in Eend'.
    assert (offset = Z.of_nat (length (head_text method path fields))) as -> by (injection Eend'; lia).
    pose proof (find_head_end_bounds _ _ Eend) as Hb.
    assert (∃ extra, header = head_text method path fields ++ extra ∧ body = extra ++ stream events1) as (extra & -> & Ebody).
    { apply app_eq_inv in Estream as [(k & -> & Ek)|(k & Ek & E1)]; [by exists k|].
      rewrite Ek, length_app in Hb. assert (k = []) as -> by (destruct k; [done|cbn in Hb; lia]).
      exists []. rewrite app_nil_r in Ek. cbn in E1. by rewrite app_nil_r, Ek. }
    rewrite (parse_headers_complete _ _ _ _ _ Hh). cbn [mbind outcome_bind].
    rewrite length_app, Nat2Z.inj_add, Z.add_simpl_l, Nat2Z.id, drop_app_length.
    assert (length body = length extra + length (stream events1))%nat as Elen by (by rewrite Ebody, length_app).
    rewrite (proj2 (Z.ltb_ge _ _)) by lia.
    assert (negb (Z.of_nat (length body) =? 0) && negb (malloc (Z.of_nat (length body))) = false) as ->.
    { destruct body; [done|]. by rewrite Hm, andb_false_r. }
    pose proof (read_body_spec (S (events_size events1)) (Z.of_nat (length body)) events1 extra ltac:(lia) ltac:(lia)) as Hbody.
    rewrite <- Ebody in Hbody. destruct (read_body _ _ _ _) as [[body' events2]|]; [|lia]. cbn [mbind outcome_bind].
    destruct Hbody as [Eb Hd]. assert (stream events2 = [] ∧ body' = body) as [Es ->].
    { assert (stream events2 = []) as Es; [|by rewrite Es, app_nil_r in Eb].
      apply (f_equal length) in Eb. rewrite length_app in Eb. destruct (stream events2); [done|cbn in Eb; lia]. }
    by exists events2.
Qed.

(** * Sending *)

Lemma write_all_spec events output bytes :
  let answer := write_all events output bytes in
  ∃ sent, hw_output answer.1 = output ++ sent ∧ sent `prefix_of` bytes ∧ (answer.2 = Done tt → sent = bytes).
Proof.
  revert output bytes. induction events as [|event events IH]; intros output bytes.
  - destruct bytes; exists []; rewrite app_nil_r; (split; [done|]; split; [apply prefix_nil|done]).
  - destruct bytes as [|b bytes]; [exists []; rewrite app_nil_r; split; [done|]; by split; [apply prefix_nil|]|].
    destruct event as [| |[|count]]; cbn [write_all].
    + apply IH.
    + exists []. rewrite app_nil_r. split; [done|]. split; [apply prefix_nil|done].
    + exists []. rewrite app_nil_r. split; [done|]. split; [apply prefix_nil|done].
    + destruct (IH (output ++ take (S count) (b :: bytes)) (drop (S count) (b :: bytes))) as (sent & E & Hp & Hd).
      exists (take (S count) (b :: bytes) ++ sent). split; [by rewrite (assoc_L (++))|]. split.
      * rewrite <- (take_drop (S count) (b :: bytes)) at 2. by apply prefix_app.
      * intros Edone. rewrite (Hd Edone). apply take_drop.
Qed.

Lemma write_parts_spec wire parts :
  let answer := write_parts wire parts in
  ∃ sent, hw_output answer.1 = hw_output wire ++ sent ∧ sent `prefix_of` mjoin parts ∧ (answer.2 = Done tt → sent = mjoin parts).
Proof.
  revert wire. induction parts as [|part parts IH]; intros wire; cbn [write_parts].
  - exists []. rewrite app_nil_r. split; [done|]. by split.
  - change (mjoin (part :: parts)) with (part ++ mjoin parts).
    destruct (write_all_spec (hw_events wire) (hw_output wire) part) as (sent & E & Hp & Hd).
    destruct (write_all _ _ part) as [wire' [[]|st why]]; cbn [fst snd] in *.
    + rewrite (Hd eq_refl) in E. destruct (IH wire') as (sent' & E' & Hp' & Hd'). exists (part ++ sent').
      split; [by rewrite E', E, (assoc_L (++))|]. split; [by apply prefix_app|]. intros Edone. by rewrite (Hd' Edone).
    + exists sent. split; [done|]. split; [by apply prefix_app_r|done].
Qed.

(** Answers are framed. Whatever the connection takes at a time, what it has taken after an answer is a
    beginning of that answer, and all of it when the answer was sent: for a JSON answer its head, which declares
    exactly the extent of the body, and the body; for an event its name, if it has one, and its data, ended by an
    empty line. *)
Theorem http_answers_framed wire status body event json :
  0 ≤ status ≤ 999 → is_u64 (Z.of_nat (length body)) →
  (let answer := openai_http_json wire status body in
   ∃ sent, hw_output answer.1 = hw_output wire ++ sent ∧ sent `prefix_of` json_header status (Z.of_nat (length body)) ++ body ∧
     (answer.2 = Done tt → sent = json_header status (Z.of_nat (length body)) ++ body)) ∧
  (let answer := openai_http_sse_event wire event json in
   let text := from_option (λ name, if bool_decide (name = []) then [] else cstr "event: " ++ name ++ [LF]) [] event ++
     cstr "data: " ++ json ++ [LF; LF] in
   ∃ sent, hw_output answer.1 = hw_output wire ++ sent ∧ sent `prefix_of` text ∧ (answer.2 = Done tt → sent = text)) ∧
  decimal_value 0 (decimal (Z.of_nat (length body))) = Z.of_nat (length body) ∧
  Z.of_nat (length (json_header status (Z.of_nat (length body)))) < 512.
Proof.
  intros Hs Hb.
  assert (∀ fuel n acc, (String.length (decimal_go fuel n acc) ≤ fuel + String.length acc)%nat) as Hdec.
  { intros fuel. induction fuel as [|fuel IH]; intros n acc; [done|]. cbn [decimal_go]. destruct (n <? 10); [cbn; lia|].
    specialize (IH (n / 10) (String (digit_char (n mod 10)) acc)). cbn in IH. lia. }
  assert (Z.of_nat (length (json_header status (Z.of_nat (length body)))) < 512) as Hlen.
  { unfold json_header. rewrite !length_app, !length_cstr. pose proof (Hdec 20%nat status EmptyString) as H1.
    pose proof (Hdec 20%nat (Z.of_nat (length body)) EmptyString) as H2. unfold decimal.
    assert (String.length (status_reason status) ≤ 21)%nat as H3 by (unfold status_reason; repeat case_match; cbn; lia).
    cbn [String.length length crlf] in *. lia. }
  split_and!; [| | |done].
  - unfold openai_http_json. rewrite (proj2 (Z.leb_gt _ _)) by done.
    destruct (write_parts_spec wire [json_header status (Z.of_nat (length body)); body]) as (sent & H).
    exists sent. revert H. change (mjoin [?a; ?b]) with (a ++ b ++ []). by rewrite app_nil_r.
  - unfold openai_http_sse_event. match goal with |- context [write_parts wire ?l] => destruct (write_parts_spec wire l) as (sent & H) end.
    exists sent. revert H. destruct event as [name|]; cbn [from_option]; [case_bool_decide|]; cbn [app mjoin list_join];
      by rewrite ?app_nil_r, <- ?(assoc_L (++)).
  - assert (10 ^ Z.of_nat 20 = 100000000000000000000) as E by done.
    unfold decimal. by rewrite decimal_go_value by ulia.
Qed.

Lemma http_answers_framed_witness :
  (0 ≤ 200 ≤ 999 ∧ is_u64 (Z.of_nat (length (cstr "{}")))) ∧
  (openai_http_json (Wire [SendTakes 100; SendInterrupted; SendTakes 500; SendTakes 9] []) 200 (cstr "{}")).2 = Done tt ∧
  ∃ sent, sent `prefix_of` json_header 200 2 ++ cstr "{}".
Proof.
  split; [split; [lia|by vm_compute]|]. split; [vm_compute; reflexivity|].
  assert (is_u64 (Z.of_nat (length (cstr "{}")))) as Hb by by vm_compute.
  destruct (http_answers_framed (Wire [SendTakes 100; SendInterrupted; SendTakes 500; SendTakes 9] []) 200 (cstr "{}") None [] ltac:(lia) Hb)
    as ((sent & _ & Hp & _) & _).
  exists sent. exact Hp.
Defined.

(** ** Examples *)

Definition sample_fields : list (list Z) := [cstr "Host: local"; cstr "CONTENT-length:  2 "].
Definition sample_head : list Z := head_text (cstr "POST") (cstr "/v1/chat") sample_fields.

(** A request that arrives in three pieces. *)
Definition sample_events : list recv_event :=
  [RecvData (take 30 sample_head); RecvInterrupted; RecvData (drop 30 sample_head ++ cstr "{"); RecvData (cstr "}")].

Lemma sample_http_head : http_head (cstr "POST") (cstr "/v1/chat") sample_fields 2.
Proof.
  assert (∀ field, cut_line (field ++ crlf) = Some (field, []) → line_ok field) as Hline.
  { intros field E. by apply cut_line_sound in E as [_ ?]. }
  constructor.
  - split_and!; [done|by apply (bool_decide_eq_true_1 (32 ∉ cstr "POST")); vm_compute|apply Hline; by vm_compute|vm_compute; lia].
  - split_and!; [done|by apply (bool_decide_eq_true_1 (32 ∉ cstr "/v1/chat")); vm_compute|apply Hline; by vm_compute|vm_compute; lia].
  - split; [|vm_compute; lia]. apply Forall_cons_2; [|apply Forall_cons_2; [|by apply Forall_nil_2]].
    + split; [apply Hline; by vm_compute|]. exists (cstr "Host"), (cstr " local"). split; [done|]. split; [|done].
      by apply (bool_decide_eq_true_1 (58 ∉ cstr "Host")); vm_compute.
    + split; [apply Hline; by vm_compute|]. exists (cstr "CONTENT-length"), (cstr "  2 "). split; [done|]. split; [|done].
      by apply (bool_decide_eq_true_1 (58 ∉ cstr "CONTENT-length")); vm_compute.
  - repeat (apply Forall_cons_2; [by vm_compute|]). by apply Forall_nil_2.
  - change (denotes (trim (field_value (cstr "CONTENT-length:  2 "))) 2).
    change (trim _) with [50]. split; [split; [done|by repeat constructor]|]. by split.
  - vm_compute. discriminate.
Qed.

Lemma http_read_exact_witness :
  ∃ events, openai_http_read (λ _, true) sample_events = Done (HttpRequest (cstr "POST") (cstr "/v1/chat") (cstr "{}"), events).
Proof.
  destruct (http_read_exact (λ _, true) sample_events) as [_ H].
  destruct (H (cstr "POST") (cstr "/v1/chat") sample_fields (cstr "{}") sample_http_head) as (events & E & _).
  - vm_compute. discriminate.
  - reflexivity.
  - vm_compute. reflexivity.
  - exists events. exact E.
Defined.

(** A blank between the name and the colon hides the field: the body is neither declared nor refused. *)
Example spaced_length_ignored :
  openai_http_read (λ _, true)
    [RecvData (cstr "GET / HTTP/1.1" ++ crlf ++ cstr "Content-Length : 2" ++ crlf ++ crlf); RecvData (cstr "{}")] =
  Done (HttpRequest (cstr "GET") (cstr "/") [], [RecvData (cstr "{}")]).
Proof. vm_compute. reflexivity. Qed.
