(* ===== verification/NativeTable.v ===== *)
(** The table of native tensors of a source, [src/source/native_weights.c]: rows read from the headers of its
    shards, with an open-addressing index of their names.

    A C string is the list of its bytes. A slot of the index is vacant (0 in the code) or holds a row number (one
    less than the code's value). Allocator answers are parameters; [None] is an access outside an array or a search
    that does not end. *)

From S2P Require Import Prelude Status Exec HashIndex.
From stdpp Require Import gmap sorting.
#[local] Open Scope Z_scope.
#[local] Abbreviation total := Prelude.total.

(** * Data *)

(** src/include/yvex/source.h:160-177, [yvex_native_dtype] *)
Inductive yvex_native_dtype : Type :=
  | YVEX_NATIVE_DTYPE_UNKNOWN | YVEX_NATIVE_DTYPE_F64 | YVEX_NATIVE_DTYPE_F32 | YVEX_NATIVE_DTYPE_F16
  | YVEX_NATIVE_DTYPE_BF16 | YVEX_NATIVE_DTYPE_I64 | YVEX_NATIVE_DTYPE_I32 | YVEX_NATIVE_DTYPE_I16
  | YVEX_NATIVE_DTYPE_I8 | YVEX_NATIVE_DTYPE_U8 | YVEX_NATIVE_DTYPE_BOOL | YVEX_NATIVE_DTYPE_F8_E4M3
  | YVEX_NATIVE_DTYPE_F8_E5M2 | YVEX_NATIVE_DTYPE_F8_E8M0 | YVEX_NATIVE_DTYPE_FP4 | YVEX_NATIVE_DTYPE_OTHER.

#[export] Instance native_dtype_eq_dec : EqDecision yvex_native_dtype.
Proof. solve_decision. Defined.

(** The rank of a row is the number of its dimensions.
    src/include/yvex/source.h:179-189, [yvex_native_weight_info] *)
Record yvex_native_weight_info := NativeWeight {
  nw_name : list Z;
  nw_shard_path : list Z;
  nw_dtype : yvex_native_dtype;
  nw_dtype_name : list Z;
  nw_dims : list Z;
  nw_data_start : Z;
  nw_data_end : Z;
  nw_data_bytes : Z;
}.

#[export] Instance native_weight_eq_dec : EqDecision yvex_native_weight_info.
Proof. solve_decision. Defined.

(** src/include/yvex/source.h:191-197, [yvex_native_weight_summary] *)
Record yvex_native_weight_summary := NativeSummary {
  ns_shard_count : Z;
  ns_tensor_count : Z;
  ns_total_tensor_bytes : Z;
  ns_unknown_dtype_count : Z;
  ns_malformed_shard_count : Z;
}.

#[export] Instance native_summary_eta : Eta yvex_native_weight_summary := λ s,
  NativeSummary (ns_shard_count s) (ns_tensor_count s) (ns_total_tensor_bytes s) (ns_unknown_dtype_count s)
    (ns_malformed_shard_count s).

(** The count of rows is the length of the list; null slots are the empty list.
    src/include/yvex/internal/source.h:494-508, [yvex_native_weight_table] *)
Record yvex_native_weight_table := NativeTable {
  nt_items : list yvex_native_weight_info;
  nt_cap : Z;
  nt_summary : yvex_native_weight_summary;
  nt_header_read_count : Z;
  nt_header_error_count : Z;
  nt_header_bytes : Z;
  nt_name_slots : list (option Z);
  nt_lookup_count : Z;
  nt_collision_count : Z;
  nt_maximum_probe : Z;
  nt_finalized : bool;
}.

#[export] Instance native_table_eta : Eta yvex_native_weight_table := λ t,
  NativeTable (nt_items t) (nt_cap t) (nt_summary t) (nt_header_read_count t) (nt_header_error_count t)
    (nt_header_bytes t) (nt_name_slots t) (nt_lookup_count t) (nt_collision_count t) (nt_maximum_probe t)
    (nt_finalized t).

Definition nt_count (t : yvex_native_weight_table) : Z := Z.of_nat (length (nt_items t)).

(** A table fresh from [calloc]. *)
Definition native_table_empty : yvex_native_weight_table :=
  NativeTable [] 0 (NativeSummary 0 0 0 0 0) 0 0 0 [] 0 0 0 false.

(** What the allocator answers for an index, for the rows and for the texts of a row. *)
Record native_env := NativeEnv { ne_index : Z → bool; ne_items : Z → bool; ne_row : bool }.

Definition YVEX_NATIVE_WEIGHT_MAX_DIMS : nat := 8.

(** * Types of numbers *)

(** src/src/source/native_weights.c, [native_dtype_rows] *)
Definition native_dtype_rows : list (yvex_native_dtype * list (list Z)) :=
  [(YVEX_NATIVE_DTYPE_UNKNOWN, [cstr "UNKNOWN"]);
   (YVEX_NATIVE_DTYPE_F64, [cstr "F64"]);
   (YVEX_NATIVE_DTYPE_F32, [cstr "F32"]);
   (YVEX_NATIVE_DTYPE_F16, [cstr "F16"]);
   (YVEX_NATIVE_DTYPE_BF16, [cstr "BF16"]);
   (YVEX_NATIVE_DTYPE_I64, [cstr "I64"]);
   (YVEX_NATIVE_DTYPE_I32, [cstr "I32"]);
   (YVEX_NATIVE_DTYPE_I16, [cstr "I16"]);
   (YVEX_NATIVE_DTYPE_I8, [cstr "I8"]);
   (YVEX_NATIVE_DTYPE_U8, [cstr "U8"]);
   (YVEX_NATIVE_DTYPE_BOOL, [cstr "BOOL"]);
   (YVEX_NATIVE_DTYPE_F8_E4M3, [cstr "F8_E4M3"; cstr "F8_E4M3FN"]);
   (YVEX_NATIVE_DTYPE_F8_E5M2, [cstr "F8_E5M2"]);
   (YVEX_NATIVE_DTYPE_F8_E8M0, [cstr "F8_E8M0"; cstr "F8_E8M0FNU"; cstr "F8_E8M0FNUZ"]);
   (YVEX_NATIVE_DTYPE_FP4, [cstr "FP4"; cstr "F4"]);
   (YVEX_NATIVE_DTYPE_OTHER, [cstr "OTHER"])].

(** src/src/source/native_weights.c, [yvex_native_dtype_name] *)
Definition yvex_native_dtype_name (dtype : yvex_native_dtype) : list Z :=
  match list_find (λ row, row.1 = dtype) native_dtype_rows with
  | Some (_, (_, name :: _)) => name
  | _ => cstr "UNKNOWN"
  end.

(** src/src/source/native_weights.c, [nw_dtype_from_name] *)
Definition nw_dtype_from_name (name : list Z) : yvex_native_dtype :=
  match list_find (λ row, name ∈ row.2) native_dtype_rows with
  | Some (_, (dtype, _)) => dtype
  | None => YVEX_NATIVE_DTYPE_OTHER
  end.

(** * The index *)

(** src/src/source/native_weights.c, [nw_name_hash] *)
Definition nw_name_hash (name : list Z) : Z :=
  foldl (λ hash byte, u64 (Z.lxor hash byte * 1099511628211)) 1469598103934665603 name.

(** The row of a slot has the name. *)
Definition nw_hit (items : list yvex_native_weight_info) (name : list Z) (index : Z) : option bool :=
  row ← array_get items index; Some (bool_decide (nw_name row = name)).

(** The row of the name, if any, and the collisions so far; the search goes round the slots once.
    src/src/source/native_weights.c:127-134, [nw_index_find] *)
Fixpoint nw_find_loop (fuel : nat) (items : list yvex_native_weight_info) (slots : list (option Z)) (name : list Z)
    (slot collisions : Z) : option (option Z * Z) :=
  match fuel with
  | O => Some (None, collisions)
  | S fuel =>
      cell ← array_get slots slot;
      match cell with
      | None => Some (None, collisions)
      | Some index =>
          row ← array_get items index;
          if bool_decide (nw_name row = name) then Some (Some index, collisions)
          else nw_find_loop fuel items slots name (table_next slots slot) (u64 (collisions + 1))
      end
  end.

(** src/src/source/native_weights.c, [nw_index_find] *)
Definition nw_index_find (t : yvex_native_weight_table) (name : list Z)
    : option (yvex_native_weight_table * option Z) :=
  match nt_name_slots t with
  | [] => Some (t, None)
  | slots =>
      let t := t <| nt_lookup_count ::= λ n, u64 (n + 1) |> in
      '(found, collisions) ← nw_find_loop (length slots) (nt_items t) slots name
        (Z.land (nw_name_hash name) (table_mask slots)) (nt_collision_count t);
      Some (t <| nt_collision_count := collisions |>, found)
  end.

(** The first vacant slot and the probes to it. The loop of the code has no bound: [None] when a round meets none.
    src/src/source/native_weights.c:105-108, [nw_index_rebuild] *)
Fixpoint nw_vacant_loop (fuel : nat) (slots : list (option Z)) (slot probe : Z) : option (Z * Z) :=
  match fuel with
  | O => None
  | S fuel =>
      cell ← array_get slots slot;
      match cell with
      | None => Some (slot, probe)
      | Some _ => nw_vacant_loop fuel slots (table_next slots slot) (u64 (probe + 1))
      end
  end.

(** Row [index] enters the slots.
    src/src/source/native_weights.c:102-111, [nw_index_rebuild] *)
Definition nw_index_place (slots : list (option Z)) (maximum_probe : Z) (name : list Z) (index : Z)
    : option (list (option Z) * Z) :=
  '(slot, probe) ← nw_vacant_loop (length slots) slots (Z.land (nw_name_hash name) (table_mask slots)) 0;
  slots ← array_set slots slot (Some index);
  Some (slots, if maximum_probe <? probe then probe else maximum_probe).

(** src/src/source/native_weights.c:102-112, [nw_index_rebuild] *)
Fixpoint nw_index_fill (slots : list (option Z)) (maximum_probe : Z) (index : Z)
    (items : list yvex_native_weight_info) : option (list (option Z) * Z) :=
  match items with
  | [] => Some (slots, maximum_probe)
  | row :: items =>
      '(slots, maximum_probe) ← nw_index_place slots maximum_probe (nw_name row) index;
      nw_index_fill slots maximum_probe (index + 1) items
  end.

(** [calloc] refuses a product that overflows.
    src/src/source/native_weights.c, [nw_index_rebuild] *)
Definition nw_index_rebuild (env : native_env) (t : yvex_native_weight_table) (requested : Z)
    : run yvex_native_weight_table :=
  let overflow := "native tensor name index capacity overflow"%string in
  refuse_when (SIZE_MAX / 2 <? requested) with YVEX_ERR_BOUNDS overflow;
  match capacity_grow 65 128 (requested * 2) with
  | None => run_refuse YVEX_ERR_BOUNDS overflow
  | Some cap =>
      refuse_when ((SIZE_MAX / 8 <? cap) || negb (ne_index env cap)) with YVEX_ERR_NOMEM
        "native tensor name index allocation failed";
      let! (slots, maximum_probe) := run_access
        (nw_index_fill (replicate (Z.to_nat cap) None) (nt_maximum_probe t) 0 (nt_items t)) in
      run_ret (t <| nt_name_slots := slots |> <| nt_maximum_probe := maximum_probe |>)
  end.

(** * Rows *)

(** src/src/source/native_weights.c:226-239, [yvex_native_weight_table_add] *)
Definition native_row (name shard_path dtype_name dims : list Z) (data_start data_end : Z) : yvex_native_weight_info :=
  NativeWeight name shard_path (nw_dtype_from_name dtype_name) dtype_name dims data_start data_end
    (data_end - data_start).

Definition dtype_unknown (dtype : yvex_native_dtype) : bool :=
  match dtype with YVEX_NATIVE_DTYPE_UNKNOWN | YVEX_NATIVE_DTYPE_OTHER => true | _ => false end.

(** The row enters the table and its index.
    src/src/source/native_weights.c:249-267, [yvex_native_weight_table_add] *)
Definition native_row_enter (t : yvex_native_weight_table) (row : yvex_native_weight_info)
    : option yvex_native_weight_table :=
  let summary := nt_summary t <| ns_tensor_count ::= λ n, u64 (n + 1) |>
    <| ns_total_tensor_bytes ::= λ n, u64 (n + nw_data_bytes row) |>
    <| ns_unknown_dtype_count ::= λ n, if dtype_unknown (nw_dtype row) then u64 (n + 1) else n |> in
  '(slots, maximum_probe) ← nw_index_place (nt_name_slots t) (nt_maximum_probe t) (nw_name row) (nt_count t);
  Some (t <| nt_items ::= λ items, items ++ [row] |> <| nt_summary := summary |> <| nt_name_slots := slots |>
          <| nt_maximum_probe := maximum_probe |>).

(** The rows' array grows by doubling; 128 is the size of a row.
    src/src/source/native_weights.c:199-219, [yvex_native_weight_table_add] *)
Definition native_rows_reserve (env : native_env) (t : yvex_native_weight_table) : outcome yvex_native_weight_table :=
  if negb (nt_count t =? nt_cap t) then Done t
  else if (SIZE_MAX / (2 * 128) <? nt_cap t) || (ULLONG_MAX / 2 <? nt_cap t) then
    Refused YVEX_ERR_BOUNDS "native tensor table capacity overflow"
  else
    let cap := if nt_cap t =? 0 then 64 else nt_cap t * 2 in
    if negb (ne_items env (cap * 128)) then Refused YVEX_ERR_NOMEM "native tensor table allocation failed"
    else Done (t <| nt_cap := cap |>).

(** The index is kept at least twice as large as the rows.
    src/src/source/native_weights.c:189-193, [yvex_native_weight_table_add] *)
Definition native_index_reserve (env : native_env) (t : yvex_native_weight_table) : run yvex_native_weight_table :=
  if bool_decide (nt_name_slots t = []) || (table_capacity (nt_name_slots t) / 2 <=? nt_count t + 1) then
    nw_index_rebuild env t (nt_count t + 1)
  else run_ret t.

(** The table afterwards: a refusal may leave a larger index and other counters.
    src/src/source/native_weights.c, [yvex_native_weight_table_add] *)
Definition yvex_native_weight_table_add (env : native_env) (t : yvex_native_weight_table)
    (name shard_path dtype_name dims : list Z) (data_start data_end : Z)
    : option (yvex_native_weight_table * outcome unit) :=
  if (YVEX_NATIVE_WEIGHT_MAX_DIMS <? length dims)%nat || (data_end <? data_start) then
    Some (t, Refused YVEX_ERR_INVALID_ARG "invalid native tensor row")
  else if nt_finalized t then Some (t, Refused YVEX_ERR_STATE "cannot mutate a finalized native tensor table")
  else if SIZE_MAX <=? nt_count t then
    Some (t, Refused YVEX_ERR_BOUNDS "native tensor count exceeds addressable memory")
  else
    indexed ← native_index_reserve env t;
    match indexed with
    | Refused st why => Some (t, Refused st why)
    | Done t =>
        '(t, found) ← nw_index_find t name;
        if bool_decide (is_Some found) then Some (t, Refused YVEX_ERR_FORMAT "duplicate tensor name")
        else match native_rows_reserve env t with
             | Refused st why => Some (t, Refused st why)
             | Done t =>
                 if negb (ne_row env) then Some (t, Refused YVEX_ERR_NOMEM "native tensor row allocation failed")
                 else
                   let row := native_row name shard_path dtype_name dims data_start data_end in
                   if (ns_tensor_count (nt_summary t) =? ULLONG_MAX)
                      || (ULLONG_MAX - ns_total_tensor_bytes (nt_summary t) <? nw_data_bytes row) then
                     Some (t, Refused YVEX_ERR_BOUNDS "native tensor inventory overflow")
                   else t ← native_row_enter t row; Some (t, Done tt)
             end
    end.

(** src/src/source/native_weights.c, [nw_row_compare] *)
Definition nw_row_compare (a b : yvex_native_weight_info) : comparison :=
  match bytes_compare (nw_name a) (nw_name b) with
  | Eq => bytes_compare (nw_shard_path a) (nw_shard_path b)
  | c => c
  end.

Definition row_le (a b : yvex_native_weight_info) : Prop := nw_row_compare a b ≠ Gt.

#[export] Instance row_le_dec a b : Decision (row_le a b).
Proof. unfold row_le. apply _. Defined.

(** [qsort] orders the rows; no two have one name.
    src/src/source/native_weights.c, [yvex_native_weight_table_finalize] *)
Definition yvex_native_weight_table_finalize (env : native_env) (t : yvex_native_weight_table)
    : option (yvex_native_weight_table * outcome unit) :=
  if nt_finalized t then Some (t, Done tt)
  else if SIZE_MAX <? nt_count t then
    Some (t, Refused YVEX_ERR_BOUNDS "native tensor count exceeds addressable memory")
  else
    let t := t <| nt_items ::= merge_sort row_le |> <| nt_maximum_probe := 0 |> in
    match nw_index_rebuild env t (u64 (nt_count t + 1)) with
    | None => None
    | Some (Refused st why) => Some (t, Refused st why)
    | Some (Done t) => Some (t <| nt_finalized := true |>, Done tt)
    end.

(** src/src/source/native_weights.c, [yvex_native_weight_table_count] *)
Definition yvex_native_weight_table_count (t : yvex_native_weight_table) : Z := nt_count t.

(** src/src/source/native_weights.c, [yvex_native_weight_table_at] *)
Definition yvex_native_weight_table_at (t : yvex_native_weight_table) (index : Z)
    : option (option yvex_native_weight_info) :=
  if nt_count t <=? index then Some None else row ← array_get (nt_items t) index; Some (Some row).

(** src/src/source/native_weights.c, [yvex_native_weight_table_find] *)
Definition yvex_native_weight_table_find (t : yvex_native_weight_table) (name : list Z)
    : option (yvex_native_weight_table * option yvex_native_weight_info) :=
  '(t, found) ← nw_index_find t name;
  match found with
  | None => Some (t, None)
  | Some index => row ← array_get (nt_items t) index; Some (t, Some row)
  end.

(** src/src/source/native_weights.c, [yvex_native_weight_table_summary] *)
Definition yvex_native_weight_table_summary (t : yvex_native_weight_table) : yvex_native_weight_summary := nt_summary t.

(** * The index answers as a search through the rows *)

Lemma native_hash_range name : is_u64 (nw_name_hash name).
Proof.
  unfold nw_name_hash. assert (∀ h, is_u64 h → is_u64 (foldl (λ hash byte, u64 (Z.lxor hash byte * 1099511628211)) h name)) as H;
    [|by apply H]. induction name as [|b l IH]; intros h Hh; [done|]. apply IH, u64_range.
Qed.

Definition row_hash (items : list yvex_native_weight_info) (index : Z) : Z :=
  match array_get items index with Some row => nw_name_hash (nw_name row) | None => 0 end.

Lemma row_hash_nonneg items index : 0 ≤ row_hash items index.
Proof. unfold row_hash. case_match; [apply native_hash_range|done]. Qed.

(** The slots hold the first [count] rows of [items]. *)
Record index_of (items : list yvex_native_weight_info) (slots : list (option Z)) (count : Z) : Prop := IndexOf {
  io_table : table_ok (row_hash items) slots;
  io_cells : cells slots ≡ₚ seqZ 0 count;
  io_count : 0 ≤ count ≤ Z.of_nat (length items);
}.

Lemma table_ok_ext {C} (h h' : C → Z) table :
  (∀ c, c ∈ cells table → h c = h' c) → (∀ c, 0 ≤ h' c) → table_ok h table → table_ok h' table.
Proof.
  intros Heq Hh' [Hc _ Hr]. split; [done..|]. intros s c E.
  rewrite <- Heq by (apply elem_of_cells; eauto). by apply Hr.
Qed.

Section index.
Context (items : list yvex_native_weight_info) (slots : list (option Z)) (count : Z).
Context (Hix : index_of items slots count).

Lemma index_cells : Z.of_nat (length (cells slots)) = count.
Proof. rewrite (Permutation_length (io_cells _ _ _ Hix)), length_seqZ. pose proof (io_count _ _ _ Hix). lia. Qed.

Lemma index_row index : index ∈ cells slots ↔ 0 ≤ index < count.
Proof. rewrite (io_cells _ _ _ Hix), elem_of_seqZ. lia. Qed.

Lemma index_more more : index_of (items ++ more) slots count.
Proof.
  split; [|apply (io_cells _ _ _ Hix)|rewrite length_app; pose proof (io_count _ _ _ Hix); lia].
  eapply table_ok_ext; [|apply row_hash_nonneg|apply (io_table _ _ _ Hix)].
  intros i Hi%index_row. unfold row_hash. pose proof (io_count _ _ _ Hix).
  destruct (array_get_is_Some items i) as [row E]; [lia|]. rewrite E.
  apply array_get_Some in E as [Hr E]. unfold array_get. destruct (Z.ltb_spec i 0); [lia|].
  by rewrite (lookup_app_l_Some _ _ _ _ E).
Qed.

(** A search ends on the row of the name or shows there is none. *)
Lemma index_find_exact name :
  count < table_capacity slots →
  ∀ collisions, ∃ n, 
    (∃ i row, nw_find_loop (length slots) items slots name (Z.land (nw_name_hash name) (table_mask slots)) collisions = Some (Some i, n) ∧
       0 ≤ i < count ∧ array_get items i = Some row ∧ nw_name row = name) ∨
    (nw_find_loop (length slots) items slots name (Z.land (nw_name_hash name) (table_mask slots)) collisions = Some (None, n) ∧
       ∀ i row, 0 ≤ i < count → array_get items i = Some row → nw_name row ≠ name).
Proof.
  intros Hroom. assert (∀ fuel slot collisions, ∃ n, match index_walk fuel (nw_hit items name) slots slot with
    | Hit i => nw_find_loop fuel items slots name slot collisions = Some (Some i, n)
    | Vacant _ => nw_find_loop fuel items slots name slot collisions = Some (None, n)
    | Astray => True end) as Hloop.
  { induction fuel as [|fuel IH]; intros slot collisions; [by exists 0|]. cbn [index_walk nw_find_loop]. unfold nw_hit.
    destruct (array_get slots slot) as [[i|]|]; cbn [mbind option_bind]; [|by eexists|by exists 0].
    destruct (array_get items i) as [row|]; cbn [mbind option_bind]; [|by exists 0].
    case_bool_decide; [by eexists|]. apply IH. }
  intros collisions. destruct (Hloop (length slots) (Z.land (nw_name_hash name) (table_mask slots)) collisions) as [n Hn].
  exists n. fold (table_find (nw_hit items name) slots (nw_name_hash name)) in Hn.
  assert (∀ i, i ∈ cells slots → ∃ row, array_get items i = Some row ∧ nw_hit items name i = Some (bool_decide (nw_name row = name))) as Hhit.
  { intros i Hi%index_row. destruct (array_get_is_Some items i) as [row E]; [pose proof (io_count _ _ _ Hix); lia|].
    exists row. split; [done|]. unfold nw_hit. by rewrite E. }
  assert (walk_post slots (nw_hit items name) (nw_name_hash name) (table_find (nw_hit items name) slots (nw_name_hash name))) as Hpost.
  { apply (table_find_spec (row_hash items) slots (io_table _ _ _ Hix)).
    - intros i Hi. destruct (Hhit i Hi) as (row & _ & ->). by eexists.
    - intros i Hi. destruct (Hhit i Hi) as (row & E & ->). intros [= <-%bool_decide_eq_true]. unfold row_hash. by rewrite E.
    - apply native_hash_range.
    - pose proof index_cells. unfold table_capacity in Hroom. lia. }
  destruct (table_find _ _ _) as [i|s|]; [| |done].
  - left. destruct Hpost as [Hi Ei]. destruct (Hhit i Hi) as (row & E & Eh). rewrite Eh in Ei.
    injection Ei as Ei%bool_decide_eq_true. exists i, row. split_and!; [done|by apply index_row|by apply index_row|done..].
  - right. split; [done|]. intros i row Hi E En. destruct Hpost as [Hno _]. apply index_row in Hi.
    destruct (Hhit i Hi) as (row' & E' & Eh). rewrite (Hno i Hi) in Eh. injection Eh as Eh%eq_sym%bool_decide_eq_false. congruence.
Qed.

(** The next row enters at the first vacant slot. *)
Lemma index_place_exact row maximum_probe :
  count < table_capacity slots → array_get items count = Some row →
  ∃ slots' maximum_probe', nw_index_place slots maximum_probe (nw_name row) count = Some (slots', maximum_probe') ∧
    index_of items slots' (count + 1) ∧ table_capacity slots' = table_capacity slots.
Proof.
  intros Hroom Erow. pose proof (io_count _ _ _ Hix) as Hcount.
  assert (∀ fuel slot probe, match index_walk fuel (λ _ : Z, Some false) slots slot with
    | Vacant s => ∃ n, nw_vacant_loop fuel slots slot probe = Some (s, n) | _ => True end) as Hloop.
  { induction fuel as [|fuel IH]; intros slot probe; [done|]. cbn [index_walk nw_vacant_loop].
    destruct (array_get slots slot) as [[i|]|]; cbn [mbind option_bind]; [apply IH|by eexists|done]. }
  specialize (Hloop (length slots) (Z.land (nw_name_hash (nw_name row)) (table_mask slots)) 0).
  fold (table_find (λ _ : Z, Some false) slots (nw_name_hash (nw_name row))) in Hloop.
  assert (walk_post slots (λ _, Some false) (row_hash items count)
    (table_find (λ _, Some false) slots (nw_name_hash (nw_name row)))) as Hpost.
  { unfold row_hash. rewrite Erow. apply (table_find_spec (row_hash items) slots (io_table _ _ _ Hix)); [by eexists|done|apply native_hash_range|].
    pose proof index_cells. unfold table_capacity in Hroom. lia. }
  unfold nw_index_place. destruct (table_find _ _ _) as [i|s|]; [by destruct Hpost|  |done].
  destruct Hloop as [n ->]. cbn [mbind option_bind].
  destruct (table_ok_insert (row_hash items) slots _ count s (io_table _ _ _ Hix) Hpost) as (-> & Hok & Hcells).
  cbn [mbind option_bind]. eexists _, _. split; [done|]. split; [|unfold table_capacity; by rewrite length_insert].
  split; [done| |apply array_get_Some in Erow; lia].
  rewrite Hcells, (io_cells _ _ _ Hix), seqZ_app by lia. change (seqZ (0 + count) 1) with [0 + count]. rewrite Z.add_0_l.
  apply Permutation_cons_append.
Qed.
End index.

Lemma index_fill_exact items todo : ∀ done_ slots maximum_probe,
  items = done_ ++ todo → index_of items slots (Z.of_nat (length done_)) → Z.of_nat (length items) < table_capacity slots →
  ∃ slots' maximum_probe', nw_index_fill slots maximum_probe (Z.of_nat (length done_)) todo = Some (slots', maximum_probe') ∧
    index_of items slots' (Z.of_nat (length items)) ∧ table_capacity slots' = table_capacity slots.
Proof.
  induction todo as [|row todo IH]; intros done_ slots mp E Hix Hroom.
  - rewrite E, app_nil_r in *. by eexists _, _.
  - cbn [nw_index_fill]. assert (length done_ < length items)%nat by (rewrite E, length_app; simpl; lia).
    destruct (index_place_exact items slots _ Hix row mp) as (slots1 & mp1 & -> & Hix1 & Hcap); [lia| |].
    { rewrite array_get_nat, E. by apply list_lookup_middle. }
    cbn [mbind option_bind].
    assert (Z.of_nat (length done_) + 1 = Z.of_nat (length (done_ ++ [row]))) as Hlen by (rewrite length_app; simpl; lia).
    rewrite Hlen in Hix1 |- *. rewrite <- Hcap.
    apply IH; [by rewrite <- (assoc_L (++))|done|lia].
Qed.

(** The index of a table: none before the first row, then one with room for another row. *)
Definition table_indexed (t : yvex_native_weight_table) : Prop :=
  (nt_name_slots t = [] ∧ nt_items t = []) ∨
  (index_of (nt_items t) (nt_name_slots t) (nt_count t) ∧ nt_count t < table_capacity (nt_name_slots t)).

(** The rows a process can address. *)
Definition rows_maximum : Z := SIZE_MAX / 128.

(** The tables agree up to the index, the room for rows and the counters of searches. *)
Definition same_rows (t t' : yvex_native_weight_table) : Prop :=
  nt_items t' = nt_items t ∧ nt_cap t ≤ nt_cap t' ≤ Z.max (nt_cap t) rows_maximum ∧ nt_summary t' = nt_summary t ∧ nt_finalized t' = nt_finalized t ∧
  nt_header_read_count t' = nt_header_read_count t ∧ nt_header_error_count t' = nt_header_error_count t ∧
  nt_header_bytes t' = nt_header_bytes t.

Ltac same_rows := repeat split; cbn; (done || congruence || lia).

#[export] Instance same_rows_preorder : PreOrder same_rows.
Proof.
  split; [repeat split; (done || lia)|]. intros ??? (?&?&?&?&?&?&?) (?&?&?&?&?&?&?). repeat split; (congruence || lia).
Qed.

(** A rebuild refuses for want of memory or of addresses, or makes a full index with room. *)
Lemma index_rebuild_exact env t requested :
  nt_count t < requested → 
  (∃ st why, nw_index_rebuild env t requested = Some (Refused st why)) ∨
  (∃ t', nw_index_rebuild env t requested = Some (Done t') ∧ same_rows t t' ∧ table_indexed t' ∧
     requested * 2 ≤ table_capacity (nt_name_slots t')).
Proof.
  intros Hreq. unfold nw_index_rebuild. destruct (Z.ltb_spec (SIZE_MAX / 2) requested) as [|Hmax]; [left; by eexists _, _|].
  unfold nt_count in *. change (SIZE_MAX / 2) with 9223372036854775807 in Hmax.
  pose proof (capacity_grow_spec 65 7 (requested * 2)) as Hgrow. change (2 ^ 7) with 128 in Hgrow.
  destruct (capacity_grow 65 128 (requested * 2)) as [cap|]; [|left; by eexists _, _].
  destruct Hgrow as (k & Hk & -> & Hcap & _); [lia|ulia|lia|].
  destruct ((SIZE_MAX / 8 <? 2 ^ k) || negb (ne_index env (2 ^ k))) eqn:Eg; [left; by eexists _, _|].
  apply orb_false_iff in Eg as [Eg%Z.ltb_ge _]. right.
  assert (k < 63). { destruct (Z.eq_dec k 63) as [->|]; [|lia]. by change (2 ^ 63) with 9223372036854775808 in Eg. }
  set (empty := replicate (Z.to_nat (2 ^ k)) (@None Z)).
  assert (table_capacity empty = 2 ^ k) as Hce by (unfold table_capacity, empty; rewrite length_replicate; lia).
  destruct (index_fill_exact (nt_items t) (nt_items t) [] empty (nt_maximum_probe t)) as (slots & mp & E & Hix & Hc); [done| |lia|].
  { split; [by apply table_ok_empty; [lia|apply row_hash_nonneg]|by unfold empty; rewrite cells_replicate|simpl; lia]. }
  cbn [length] in E. change (Z.of_nat 0) with 0 in E. rewrite E. cbn [run_access run_bind].
  eexists. split; [done|]. split; [same_rows|]. unfold table_indexed, nt_count. cbn. rewrite Hc, Hce.
  split; [right; split; [done|lia]|done].
Qed.

(** A search leaves the rows alone and finds the row of the name. *)
Lemma index_find_spec t name :
  table_indexed t →
  ∃ t' found, nw_index_find t name = Some (t', found) ∧ same_rows t t' ∧ nt_name_slots t' = nt_name_slots t ∧
    match found with
    | Some i => 0 ≤ i < nt_count t ∧ ∃ row, array_get (nt_items t) i = Some row ∧ nw_name row = name
    | None => name ∉ nw_name <$> nt_items t
    end.
Proof.
  unfold nw_index_find. intros [[Es Ei]|[Hix Hroom]].
  - rewrite Es, Ei. eexists _, _. split; [done|]. split; [same_rows|]. split; [done|]. by intros ?%elem_of_nil.
  - destruct (nt_name_slots t) as [|cell slots] eqn:Es; [unfold table_capacity, nt_count in Hroom; simpl in Hroom; lia|].
    rewrite <- Es in *. cbn [nt_items set_field eta_expand nt_collision_count].
    destruct (index_find_exact _ _ _ Hix name Hroom (nt_collision_count t)) as (n & [(i & row & -> & Hi & Er & En)|[-> Hno]]);
      cbn [mbind option_bind]; eexists _, _; (split; [done|]; split; [same_rows|]; split; [done|]).
    + split; [done|]. by exists row.
    + intros (row & En & [i Hi]%list_elem_of_lookup)%list_elem_of_fmap.
      apply (Hno (Z.of_nat i) row); [|by rewrite array_get_nat|done]. apply lookup_lt_Some in Hi. unfold nt_count. lia.
Qed.

(** * The table *)

(** A row as [yvex_native_weight_table_add] admits it. *)
Record row_ok (r : yvex_native_weight_info) : Prop := RowOk {
  wo_rank : (length (nw_dims r) ≤ YVEX_NATIVE_WEIGHT_MAX_DIMS)%nat;
  wo_dtype : nw_dtype r = nw_dtype_from_name (nw_dtype_name r);
  wo_start : 0 ≤ nw_data_start r ≤ nw_data_end r;
  wo_end : nw_data_end r ≤ ULLONG_MAX;
  wo_bytes : nw_data_bytes r = nw_data_end r - nw_data_start r;
}.

Definition unknown_rows (items : list yvex_native_weight_info) : list yvex_native_weight_info :=
  filter (λ r, dtype_unknown (nw_dtype r) = true) items.

Record native_ok (t : yvex_native_weight_table) : Prop := NativeOk {
  no_index : table_indexed t;
  no_names : NoDup (nw_name <$> nt_items t);
  no_rows : Forall row_ok (nt_items t);
  no_count : ns_tensor_count (nt_summary t) = nt_count t ∧ nt_count t ≤ ULLONG_MAX;
  no_total : ns_total_tensor_bytes (nt_summary t) = total (nw_data_bytes <$> nt_items t) ∧
    is_u64 (ns_total_tensor_bytes (nt_summary t));
  no_unknown : ns_unknown_dtype_count (nt_summary t) = Z.of_nat (length (unknown_rows (nt_items t)));
  no_cap : nt_count t ≤ nt_cap t ≤ rows_maximum;
}.

Lemma native_ok_empty : native_ok native_table_empty.
Proof. split; cbn; [by left|constructor|constructor|done|done|done|done]. Qed.

(** A change of the index and of the counters. *)
Lemma native_ok_same t t' : native_ok t → same_rows t t' → table_indexed t' → native_ok t'.
Proof.
  intros [_ ?????] (Ei & Ec & Es & _) Hix. unfold nt_count in *. split; unfold nt_count; rewrite ?Ei, ?Es; try done. lia.
Qed.

Lemma index_rebuild_granted env t requested st why :
  (∀ n, ne_index env n = true) → 0 ≤ requested ≤ 2 ^ 51 → nw_index_rebuild env t requested ≠ Some (Refused st why).
Proof.
  intros Hmem Hreq. unfold nw_index_rebuild. change (2 ^ 51) with 2251799813685248 in Hreq.
  destruct (Z.ltb_spec (SIZE_MAX / 2) requested) as [Hbig|_]; [change (SIZE_MAX / 2) with 9223372036854775807 in Hbig; lia|].
  pose proof (capacity_grow_spec 65 7 (requested * 2)) as Hgrow. change (2 ^ 7) with 128 in Hgrow. change (2 ^ 63) with 9223372036854775808 in Hgrow.
  destruct (capacity_grow 65 128 (requested * 2)) as [cap|]; [|exfalso; specialize (Hgrow ltac:(lia) ltac:(ulia) ltac:(lia)); lia].
  destruct Hgrow as (k & Hk & -> & Hcap & Hmin); [lia|ulia|lia|]. rewrite Hmem, orb_false_r.
  destruct (Z.ltb_spec (SIZE_MAX / 8) (2 ^ k)) as [Hbig|_]; [change (SIZE_MAX / 8) with 2305843009213693951 in Hbig; lia|].
  destruct (nw_index_fill _ _ _ _) as [[slots mp]|]; by cbn.
Qed.

(** What it takes to have memory for another row. *)
Definition native_memory (env : native_env) (t : yvex_native_weight_table) : Prop :=
  (∀ n, ne_index env n = true) ∧ (∀ n, ne_items env n = true) ∧ ne_row env = true ∧ nt_count t ≤ 2 ^ 50.

Lemma index_reserve_exact env t :
  table_indexed t →
  (∃ st why, native_index_reserve env t = Some (Refused st why) ∧ ¬ native_memory env t) ∨
  (∃ t', native_index_reserve env t = Some (Done t') ∧ same_rows t t' ∧ table_indexed t' ∧
     nt_count t + 1 < table_capacity (nt_name_slots t')).
Proof.
  intros Hix. unfold native_index_reserve.
  assert (0 ≤ nt_count t) by (unfold nt_count; lia).
  destruct (bool_decide (nt_name_slots t = []) || (table_capacity (nt_name_slots t) / 2 <=? nt_count t + 1)) eqn:E.
  - destruct (index_rebuild_exact env t (nt_count t + 1)) as [(st & why & Er)|(t' & Er & Hs & Hix' & Hc)]; [lia| |].
    + left. exists st, why. split; [done|]. intros (Hm & _ & _ & Hn). change (2 ^ 50) with 1125899906842624 in Hn.
      by eapply (index_rebuild_granted env t (nt_count t + 1) st why); [|change (2 ^ 51) with 2251799813685248; lia|].
    + right. exists t'. split_and!; [done..|lia].
  - apply orb_false_iff in E as [E1%bool_decide_eq_false E2%Z.leb_gt]. right. exists t. split_and!; [done|done|done|].
    pose proof (Z.mul_div_le (table_capacity (nt_name_slots t)) 2). lia.
Qed.

Lemma rows_reserve_exact env t :
  nt_count t ≤ nt_cap t ≤ rows_maximum →
  (∃ st why, native_rows_reserve env t = Refused st why ∧ ¬ native_memory env t) ∨
  (∃ cap, native_rows_reserve env t = Done (t <| nt_cap := cap |>) ∧ nt_count t < cap ∧ nt_cap t ≤ cap ≤ rows_maximum).
Proof.
  intros Hc. unfold native_rows_reserve. destruct (Z.eqb_spec (nt_count t) (nt_cap t)) as [E|E]; cbn [negb].
  2: { right. exists (nt_cap t). split; [by destruct t|]. lia. }
  assert (0 ≤ nt_count t) by (unfold nt_count; lia). unfold native_memory. change (2 ^ 50) with 1125899906842624.
  change (SIZE_MAX / (2 * 128)) with 72057594037927935. change (ULLONG_MAX / 2) with 9223372036854775807.
  destruct (Z.ltb_spec 72057594037927935 (nt_cap t)); cbn [orb]; [left; eexists _, _; split; [done|]; lia|].
  destruct (Z.ltb_spec 9223372036854775807 (nt_cap t)); [left; eexists _, _; split; [done|]; lia|].
  destruct (ne_items env _) eqn:Em; cbn [negb].
  - right. eexists. split; [done|]. unfold rows_maximum in *. change (SIZE_MAX / 128) with 144115188075855871 in *. case_match; guards; lia.
  - left. eexists _, _. split; [done|]. intros (_ & Hm & _). by rewrite Hm in Em.
Qed.

(** The table [t'] is [t] with one more row. *)
Record row_entered (t : yvex_native_weight_table) (row : yvex_native_weight_info) (t' : yvex_native_weight_table) : Prop :=
  RowEntered {
  re_items : nt_items t' = nt_items t ++ [row];
  re_finalized : nt_finalized t' = nt_finalized t;
  re_shards : ns_shard_count (nt_summary t') = ns_shard_count (nt_summary t);
  re_malformed : ns_malformed_shard_count (nt_summary t') = ns_malformed_shard_count (nt_summary t);
  re_reads : nt_header_read_count t' = nt_header_read_count t;
  re_errors : nt_header_error_count t' = nt_header_error_count t;
  re_header_bytes : nt_header_bytes t' = nt_header_bytes t;
}.

Lemma unknown_snoc items row :
  Z.of_nat (length (unknown_rows (items ++ [row]))) =
  Z.of_nat (length (unknown_rows items)) + if dtype_unknown (nw_dtype row) then 1 else 0.
Proof.
  unfold unknown_rows. rewrite filter_app, length_app, filter_cons, filter_nil. case_decide as E; [rewrite E; simpl; lia|].
  apply not_true_is_false in E. rewrite E. simpl. lia.
Qed.

Lemma row_enter_exact t row :
  native_ok t → row_ok row → nw_name row ∉ nw_name <$> nt_items t → nt_count t + 1 < table_capacity (nt_name_slots t) →
  nt_count t < nt_cap t ≤ rows_maximum → ns_tensor_count (nt_summary t) < ULLONG_MAX →
  ns_total_tensor_bytes (nt_summary t) + nw_data_bytes row ≤ ULLONG_MAX →
  ∃ t', native_row_enter t row = Some t' ∧ native_ok t' ∧ row_entered t row t'.
Proof.
  intros [Hix Hnames Hrows [Hcount Hmax] [Htot Htu] Hunk Hcap] Hrow Hfresh Hroom Hlt Htc Hfit.
  destruct Hix as [[Es _]|[Hix _]].
  { rewrite Es in Hroom. unfold table_capacity, nt_count in Hroom. simpl in Hroom. lia. }
  unfold native_row_enter. pose proof (index_more _ _ _ Hix [row]) as Hix'.
  assert (0 ≤ nt_count t) by (unfold nt_count; lia).
  destruct (index_place_exact _ _ _ Hix' row (nt_maximum_probe t)) as (slots & mp & -> & Hix2 & Hc); [lia| |].
  { unfold nt_count. rewrite array_get_nat. by apply list_lookup_middle. }
  cbn [mbind option_bind]. eexists. split; [done|].
  assert (Z.of_nat (length (nt_items t ++ [row])) = nt_count t + 1) as Hlen by (rewrite length_app; simpl; unfold nt_count; lia).
  assert (length (unknown_rows (nt_items t)) ≤ length (nt_items t))%nat as Hul by apply length_filter.
  assert (0 ≤ nw_data_bytes row) by (destruct Hrow; lia).
  split; [split; unfold nt_count; cbn|by split].
  - right. unfold nt_count. cbn. rewrite Hlen, Hc. split; [done|lia].
  - rewrite fmap_app. apply NoDup_app. split_and!; [done| |apply NoDup_singleton].
    intros x Hx ->%list_elem_of_singleton. done.
  - apply Forall_app. split; [done|]. by apply Forall_singleton.
  - rewrite Hlen, u64_id by ulia. lia.
  - rewrite fmap_app, total_app, u64_id, Htot by ulia. split; [unfold total; simpl; lia|]. rewrite <- Htot. ulia.
  - rewrite unknown_snoc, Hunk. unfold nt_count in *. destruct (dtype_unknown _); [apply u64_id; ulia|lia].
  - rewrite Hlen. lia.
Qed.

(** When a row is admitted. *)
Record row_admissible (t : yvex_native_weight_table) (row : yvex_native_weight_info) : Prop := RowAdmissible {
  ra_open : nt_finalized t = false;
  ra_row : row_ok row;
  ra_fresh : nw_name row ∉ nw_name <$> nt_items t;
  ra_total : total (nw_data_bytes <$> nt_items t) + nw_data_bytes row ≤ ULLONG_MAX;
}.

(** What an answer of [yvex_native_weight_table_add] means. *)
Definition add_answers (env : native_env) (t : yvex_native_weight_table) (row : yvex_native_weight_info)
    (answer : option (yvex_native_weight_table * outcome unit)) : Prop :=
  ∃ t' r, answer = Some (t', r) ∧ native_ok t' ∧
    match r with
    | Done _ => row_admissible t row ∧ row_entered t row t'
    | Refused _ _ => same_rows t t' ∧ ¬ (row_admissible t row ∧ native_memory env t)
    end.

Lemma add_refuses env t row t' st why :
  native_ok t → same_rows t t' → table_indexed t' → (row_admissible t row → native_memory env t → False) →
  add_answers env t row (Some (t', Refused st why)).
Proof.
  intros Hok Hs Hix Hno. exists t', (Refused st why). split; [done|]. split; [by eapply native_ok_same|].
  split; [done|]. intros [H1 H2]. auto.
Qed.

Lemma same_indexed t t' : same_rows t t' → nt_name_slots t' = nt_name_slots t → table_indexed t → table_indexed t'.
Proof. intros (Ei & _) Es. unfold table_indexed, nt_count. by rewrite Ei, Es. Qed.

(** The row once its index has room and its name is known to be new. *)
Lemma add_entered env t t' row :
  native_ok t → same_rows t t' → table_indexed t' → row_ok row → nt_finalized t = false →
  nw_name row ∉ nw_name <$> nt_items t → nt_count t + 1 < table_capacity (nt_name_slots t') → nt_count t < SIZE_MAX →
  add_answers env t row
    (match native_rows_reserve env t' with
     | Refused st why => Some (t', Refused st why)
     | Done t =>
         if negb (ne_row env) then Some (t, Refused YVEX_ERR_NOMEM "native tensor row allocation failed")
         else
           if (ns_tensor_count (nt_summary t) =? ULLONG_MAX)
              || (ULLONG_MAX - ns_total_tensor_bytes (nt_summary t) <? nw_data_bytes row) then
             Some (t, Refused YVEX_ERR_BOUNDS "native tensor inventory overflow")
           else t ← native_row_enter t row; Some (t, Done tt)
     end).
Proof.
  intros Hok Hs Hix Hrow Hfin Hfresh Hroom Hmax. pose proof (native_ok_same t t' Hok Hs Hix) as Hok'.
  pose proof Hs as (Ei & Ecap & Esum & Efin & Hr1 & Hr2 & Hr3).
  assert (nt_count t' = nt_count t) as Ec by (unfold nt_count; by rewrite Ei).
  destruct (no_count t' Hok') as [Hcount _]. destruct (no_total t' Hok') as [Htot _].
  destruct (rows_reserve_exact env t' (no_cap t' Hok')) as [(st & why & -> & Hno)|(cap & -> & Hlt & Hgrow)].
  { apply add_refuses; [done..|]. intros _ Hm. apply Hno. unfold native_memory in *. by rewrite Ec. }
  set (t2 := t' <| nt_cap := cap |>).
  assert (same_rows t t2) as Hs2 by (etransitivity; [exact Hs|]; same_rows).
  assert (table_indexed t2) as Hix2 by done.
  pose proof (native_ok_same t t2 Hok Hs2 Hix2) as Hok2.
  destruct (ne_row env) eqn:Er; cbn [negb].
  2: { apply add_refuses; [done..|]. intros _ (_ & _ & Hm & _). congruence. }
  change (nt_summary t2) with (nt_summary t'). rewrite Hcount, Ec.
  destruct (Z.eqb_spec (nt_count t) ULLONG_MAX); [ulia|]. cbn [orb].
  destruct (Z.ltb_spec (ULLONG_MAX - ns_total_tensor_bytes (nt_summary t')) (nw_data_bytes row)) as [Hbig|Hfit].
  { apply add_refuses; [done..|]. intros [_ _ _ Hf] _. rewrite <- Ei, <- Htot in Hf. lia. }
  destruct (row_enter_exact t2 row Hok2 Hrow) as (t3 & -> & Hok3 & Hent);
    [by change (nt_items t2) with (nt_items t'); rewrite Ei|change (nt_count t2) with (nt_count t'); rewrite Ec; done| | | |].
  all: change (nt_count t2) with (nt_count t'); change (nt_summary t2) with (nt_summary t').
  - change (nt_cap t2) with cap. lia.
  - rewrite Hcount, Ec. ulia.
  - lia.
  - exists t3, (Done tt). split; [done|]. split; [done|]. split.
    + split; [done..|]. rewrite <- Ei, <- Htot. lia.
    + destruct Hent as [Hi H1 H2 H3 H4 H5 H6]. split; cbn in *; congruence.
Qed.

Lemma native_add_exact env t name shard_path dtype_name dims data_start data_end :
  native_ok t → 0 ≤ data_start → data_end ≤ ULLONG_MAX →
  add_answers env t (native_row name shard_path dtype_name dims data_start data_end)
    (yvex_native_weight_table_add env t name shard_path dtype_name dims data_start data_end).
Proof.
  intros Hok Hs He. set (row := native_row _ _ _ _ _ _). pose proof (no_index t Hok) as Hix.
  unfold yvex_native_weight_table_add.
  destruct ((YVEX_NATIVE_WEIGHT_MAX_DIMS <? length dims)%nat || (data_end <? data_start)) eqn:Eg.
  { apply add_refuses; [done..|]. intros [_ [Hr _ Hse _ _] _ _] _.
    apply orb_true_iff in Eg as [?%Nat.ltb_lt|?%Z.ltb_lt]; unfold row in *; cbn [nw_dims nw_data_start nw_data_end native_row] in *; lia. }
  apply orb_false_iff in Eg as [Hrank%Nat.ltb_ge Hse%Z.ltb_ge].
  assert (row_ok row) as Hrow by (by split).
  destruct (nt_finalized t) eqn:Ef; [apply add_refuses; [done..|]; intros [] _; congruence|].
  destruct (Z.leb_spec SIZE_MAX (nt_count t)) as [|Hc].
  { apply add_refuses; [done..|]. intros _ (_ & _ & _ & Hn). change (2 ^ 50) with 1125899906842624 in Hn. ulia. }
  destruct (index_reserve_exact env t Hix) as [(st & why & -> & Hno)|(t1 & -> & Hs1 & Hix1 & Hroom1)]; cbn [mbind option_bind].
  { apply add_refuses; [done..|]. tauto. }
  destruct (index_find_spec t1 name Hix1) as (t2 & found & -> & Hs2 & Hslots2 & Hfound). cbn [mbind option_bind].
  assert (same_rows t t2) as Hs12 by by etransitivity.
  pose proof (same_indexed t1 t2 Hs2 Hslots2 Hix1) as Hix2. pose proof Hs1 as (Ei1 & _). rewrite Ei1 in Hfound.
  destruct found as [i|].
  - rewrite bool_decide_eq_true_2 by by eexists. apply add_refuses; [done..|]. intros [_ _ Hfresh _] _. apply Hfresh.
    destruct Hfound as (_ & r & Er & En). unfold row. cbn. rewrite <- En.
    apply array_get_Some in Er as [_ Er]. apply list_elem_of_fmap_2. by eapply list_elem_of_lookup_2.
  - rewrite bool_decide_eq_false_2 by by intros []. apply add_entered; try done. by rewrite Hslots2.
Qed.

(** ** Sealing *)

#[export] Instance row_le_total : Total row_le.
Proof.
  intros a b. unfold row_le, nw_row_compare. rewrite (bytes_compare_antisym (nw_name a)), (bytes_compare_antisym (nw_shard_path a)).
  destruct (bytes_compare (nw_name a) (nw_name b)), (bytes_compare (nw_shard_path a) (nw_shard_path b)); simpl; naive_solver.
Qed.

Definition name_before (a b : yvex_native_weight_info) : Prop := bytes_compare (nw_name a) (nw_name b) = Lt.

#[export] Instance row_le_trans : Transitive row_le.
Proof.
  intros a b c. unfold row_le, nw_row_compare.
  pose proof (bytes_compare_trans (nw_name a) (nw_name b) (nw_name c)) as Hn.
  pose proof (bytes_compare_trans (nw_shard_path a) (nw_shard_path b) (nw_shard_path c)) as Hs.
  destruct (bytes_compare (nw_name a) (nw_name b)) eqn:E1; [apply bytes_compare_eq in E1 as ->| |done].
  - destruct (bytes_compare (nw_name b) (nw_name c)); [|done|done].
    destruct (bytes_compare (nw_shard_path a) (nw_shard_path b)) eqn:E2; [apply bytes_compare_eq in E2 as ->; done| |done].
    destruct (bytes_compare (nw_shard_path b) (nw_shard_path c)) eqn:E3; [apply bytes_compare_eq in E3 as <-; by rewrite E2|by rewrite Hs|done].
  - destruct (bytes_compare (nw_name b) (nw_name c)) eqn:E3; [apply bytes_compare_eq in E3 as <-; by rewrite E1|by rewrite Hn|done].
Qed.

(** With distinct names the order is that of the names. *)
Lemma sorted_by_name items :
  NoDup (nw_name <$> items) → StronglySorted row_le items → StronglySorted name_before items.
Proof.
  intros Hnd. induction 1 as [|r items _ IH Hr]; [constructor|]. rewrite fmap_cons in Hnd.
  apply NoDup_cons in Hnd as [Hni Hnd]. constructor; [by apply IH|]. rewrite Forall_forall in Hr |- *. intros x Hx.
  specialize (Hr x Hx). unfold row_le, name_before, nw_row_compare in *.
  destruct (bytes_compare (nw_name r) (nw_name x)) eqn:E; [|done|done]. apply bytes_compare_eq in E.
  destruct Hni. rewrite E. by apply list_elem_of_fmap_2.
Qed.

Lemma native_finalize_exact env t :
  native_ok t → nt_finalized t = false →
  ∃ t' r, yvex_native_weight_table_finalize env t = Some (t', r) ∧ nt_items t' ≡ₚ nt_items t ∧
    match r with
    | Done _ => native_ok t' ∧ nt_finalized t' = true ∧ StronglySorted name_before (nt_items t')
    | Refused _ _ => ¬ native_memory env t
    end.
Proof.
  intros Hok Hfin. unfold yvex_native_weight_table_finalize. rewrite Hfin.
  destruct (no_cap t Hok) as [Hc1 Hc2]. unfold rows_maximum in Hc2. change (SIZE_MAX / 128) with 144115188075855871 in Hc2.
  destruct (Z.ltb_spec SIZE_MAX (nt_count t)); [ulia|].
  set (t1 := t <| nt_items ::= merge_sort row_le |> <| nt_maximum_probe := 0 |>).
  pose proof (merge_sort_Permutation row_le (nt_items t)) as Hperm.
  assert (nt_count t1 = nt_count t) as Ec by (unfold nt_count; cbn; by rewrite (Permutation_length Hperm)).
  rewrite Ec, u64_id by (unfold nt_count in *; ulia).
  destruct (index_rebuild_exact env t1 (nt_count t + 1)) as [(st & why & Er)|(t2 & Er & Hs & Hix & _)]; [rewrite Ec; lia|..]; rewrite Er.
  - eexists _, _. split; [done|]. split; [done|]. intros (Hm & _ & _ & Hn). change (2 ^ 50) with 1125899906842624 in Hn.
    revert Er. apply index_rebuild_granted; [done|]. change (2 ^ 51) with 2251799813685248. unfold nt_count in *. lia.
  - eexists _, _. split; [done|]. pose proof Hs as (Ei & _ & Es & _). cbn [nt_items set_field eta_expand]. rewrite Ei.
    split; [done|]. destruct Hok as [_ Hnames Hrows Hcount Htot Hunk Hcap].
    assert (NoDup (nw_name <$> merge_sort row_le (nt_items t))) as Hnames' by by rewrite Hperm.
    change (nt_items t1) with (merge_sort row_le (nt_items t)) in *. change (nt_summary t1) with (nt_summary t) in *.
    split; [split|split; [done|apply sorted_by_name; [done|apply StronglySorted_merge_sort; apply _]]];
      unfold nt_count in *; cbn [nt_items nt_summary nt_cap set_field eta_expand]; rewrite ?Ei, ?Es, ?Hperm; try done.
    + unfold table_indexed, nt_count in *. cbn [nt_items nt_name_slots]. by rewrite Ei in Hix.
    + by rewrite (total_permutation _ _ _ Hperm).
    + unfold unknown_rows in *. by rewrite Hperm.
    + destruct Hs as (_ & Hcap' & _). cbn in Hcap'. lia.
Qed.

(** ** The abstract table: a map from names to rows *)

Definition rows_by_name (t : yvex_native_weight_table) : gmap (list Z) yvex_native_weight_info :=
  list_to_map ((λ r, (nw_name r, r)) <$> nt_items t).

Lemma rows_names items : ((λ r, (nw_name r, r)) <$> items).*1 = nw_name <$> items.
Proof. rewrite <- list_fmap_compose. done. Qed.

Lemma rows_by_name_Some t name row :
  NoDup (nw_name <$> nt_items t) → rows_by_name t !! name = Some row ↔ row ∈ nt_items t ∧ nw_name row = name.
Proof.
  intros Hnd. unfold rows_by_name. rewrite <- elem_of_list_to_map by by rewrite rows_names.
  rewrite list_elem_of_fmap. split; [by intros (r & [= -> ->] & Hr)|]. intros [Hr <-]. by exists row.
Qed.

Lemma rows_by_name_None t name : rows_by_name t !! name = None ↔ name ∉ nw_name <$> nt_items t.
Proof. unfold rows_by_name. rewrite <- not_elem_of_list_to_map. by rewrite rows_names. Qed.

Lemma rows_by_name_snoc t t' row :
  nt_items t' = nt_items t ++ [row] → nw_name row ∉ nw_name <$> nt_items t →
  rows_by_name t' = <[nw_name row := row]> (rows_by_name t).
Proof.
  intros E Hfresh. unfold rows_by_name. rewrite E, fmap_app, list_to_map_app. cbn [fmap list_fmap].
  change (list_to_map [(nw_name row, row)]) with (<[nw_name row := row]> (∅ : gmap (list Z) yvex_native_weight_info)).
  apply map_eq. intros k. rewrite lookup_union. destruct (decide (k = nw_name row)) as [->|Hk].
  - rewrite !lookup_insert_eq. apply rows_by_name_None in Hfresh. unfold rows_by_name in Hfresh. by rewrite Hfresh.
  - rewrite !lookup_insert_ne, lookup_empty by done. by destruct (_ !! k).
Qed.

Lemma rows_by_name_perm t t' :
  NoDup (nw_name <$> nt_items t) → nt_items t' ≡ₚ nt_items t → rows_by_name t' = rows_by_name t.
Proof.
  intros Hnd Hp. unfold rows_by_name. apply list_to_map_proper; [by rewrite rows_names, Hp|by rewrite Hp].
Qed.

Lemma native_find_exact t name :
  native_ok t →
  ∃ t', yvex_native_weight_table_find t name = Some (t', rows_by_name t !! name) ∧ native_ok t' ∧
    nt_items t' = nt_items t ∧ nt_finalized t' = nt_finalized t.
Proof.
  intros Hok. pose proof (no_names t Hok) as Hnd. unfold yvex_native_weight_table_find.
  destruct (index_find_spec t name (no_index t Hok)) as (t' & found & -> & Hs & Hslots & Hf). cbn [mbind option_bind].
  pose proof Hs as (Ei & _ & _ & Efin & _). exists t'.
  split; [|split; [by eapply native_ok_same, same_indexed, no_index|done]].
  destruct found as [i|]; [|apply rows_by_name_None in Hf; by rewrite Hf].
  destruct Hf as (_ & row & Er & En). rewrite Ei, Er. cbn [mbind option_bind]. do 2 f_equal. symmetry.
  apply rows_by_name_Some; [done|]. split; [|done]. apply array_get_Some in Er as [_ Er]. by eapply list_elem_of_lookup_2.
Qed.

(** C31: a native table is a map from names to rows, through an index that is rebuilt as it grows. Adding a row never
    faults and its searches end; it inserts a new name, and when memory suffices it refuses only a sealed table, a row of
    bad rank or extent, a name already there and a total that leaves 64 bits. A lookup answers exactly what the map
    holds, before sealing and after. Sealing sorts the rows by name and keeps the map. Counts and totals in
    the summary stay exact throughout. *)
Theorem native_table_refines env t :
  native_ok t →
  (∀ name shard_path dtype_name dims data_start data_end, 0 ≤ data_start → data_end ≤ ULLONG_MAX →
     let row := native_row name shard_path dtype_name dims data_start data_end in
     ∃ t' r, yvex_native_weight_table_add env t name shard_path dtype_name dims data_start data_end = Some (t', r) ∧
       native_ok t' ∧
       match r with
       | Done _ => nt_finalized t = false ∧ row_ok row ∧ rows_by_name t !! name = None ∧
           rows_by_name t' = <[name := row]> (rows_by_name t)
       | Refused _ _ => rows_by_name t' = rows_by_name t ∧
           (native_memory env t → nt_finalized t = true ∨ ¬ row_ok row ∨ is_Some (rows_by_name t !! name) ∨
              ULLONG_MAX < total (nw_data_bytes <$> nt_items t) + nw_data_bytes row)
       end) ∧
  (∀ name, ∃ t', yvex_native_weight_table_find t name = Some (t', rows_by_name t !! name) ∧ native_ok t' ∧
     nt_items t' = nt_items t) ∧
  (nt_finalized t = false → ∃ t' r, yvex_native_weight_table_finalize env t = Some (t', r) ∧
     rows_by_name t' = rows_by_name t ∧
     match r with
     | Done _ => native_ok t' ∧ nt_finalized t' = true ∧ StronglySorted name_before (nt_items t')
     | Refused _ _ => ¬ native_memory env t
     end).
Proof.
  intros Hok. pose proof (no_names t Hok) as Hnd. split_and!.
  - intros name shard_path dtype_name dims a b Ha Hb row.
    destruct (native_add_exact env t name shard_path dtype_name dims a b Hok Ha Hb) as (t' & r & E & Hok' & Hr).
    fold row in Hr. exists t', r. split; [done|]. split; [done|]. destruct r as [[]|st why].
    + destruct Hr as [[Hf Hrow Hfresh _] [Ei _ _ _ _ _ _]]. split_and!; [done|done|by apply rows_by_name_None|].
      by apply (rows_by_name_snoc t t' row).
    + destruct Hr as [(Ei & _) Hno]. split; [unfold rows_by_name; by rewrite Ei|]. intros Hm.
      destruct (nt_finalized t) eqn:Hf; [by left|right]. destruct (decide (name ∈ nw_name <$> nt_items t)) as [Hin|Hin].
      { right. left. destruct (rows_by_name t !! name) eqn:El; [by eexists|]. by apply rows_by_name_None in El. }
      destruct (Z.lt_ge_cases ULLONG_MAX (total (nw_data_bytes <$> nt_items t) + nw_data_bytes row)); [by right; right|].
      left. intros Hrow. apply Hno. split; [by split|done].
  - intros name. destruct (native_find_exact t name Hok) as (t' & E & Hok' & Ei & _). by exists t'.
  - intros Hf. destruct (native_finalize_exact env t Hok Hf) as (t' & r & E & Hp & Hr). exists t', r.
    split; [done|]. split; [by apply rows_by_name_perm|done].
Qed.

Definition sample_native_env : native_env := NativeEnv (λ _, true) (λ _, true) true.

(** A row is added to an empty table, refused a second time, and found. *)
Lemma native_table_refines_witness :
  (∃ t' r, yvex_native_weight_table_add sample_native_env native_table_empty (cstr "w") (cstr "a.safetensors")
      (cstr "F32") [2; 3] 0 24 = Some (t', r) ∧ native_ok t') ∧
  (∃ t, yvex_native_weight_table_add sample_native_env native_table_empty (cstr "w") (cstr "a.safetensors")
      (cstr "F32") [2; 3] 0 24 = Some (t, Done tt) ∧
    (∃ t', yvex_native_weight_table_add sample_native_env t (cstr "w") (cstr "a.safetensors") (cstr "F32") [] 0 0 =
      Some (t', Refused YVEX_ERR_FORMAT "duplicate tensor name")) ∧
    (nw_data_bytes <$> (yvex_native_weight_table_find t (cstr "w") ≫= snd)) = Some 24).
Proof.
  destruct (native_table_refines sample_native_env native_table_empty native_ok_empty) as (Hadd & _ & _).
  split.
  - destruct (Hadd (cstr "w") (cstr "a.safetensors") (cstr "F32") [2; 3] 0 24) as (t' & r & E & Hok & _); [lia|ulia|].
    exists t', r. by split.
  - eexists. split; [vm_compute; reflexivity|]. split; [eexists|]; vm_compute; reflexivity.
Defined.
