(* ===== verification/JsonObject.v ===== *)
(** Loops over the members of a JSON object whose keys the caller reads, as the source readers write them with
    [yvex_json_object_member] of [src/core/json.c]: what the loop has read is a list of members, each a key, a colon
    and a value, and every such list is read. *)

From S2P Require Import Prelude Status Exec Json JsonGrammar.
#[local] Open Scope Z_scope.

(** The C string a buffer holds. *)
Fixpoint c_text (buffer : list Z) : list Z :=
  match buffer with
  | [] => []
  | ch :: buffer => if ch =? 0 then [] else ch :: c_text buffer
  end.

Lemma c_text_terminated text spare : Forall (λ ch, ch ≠ 0) text → c_text (text ++ 0 :: spare) = text.
Proof. induction 1 as [|ch text Hch _ IH]; [done|]. cbn. rewrite (proj2 (Z.eqb_neq ch 0)) by done. by f_equal. Qed.

Lemma json_chars_nonzero raw text : json_chars raw text → Forall (λ ch, ch ≠ 0) text.
Proof.
  induction 1 as [|ch raw text ? _ _ _ IH|e ch raw text He _ IH|hex raw text _ _ _ IH]; constructor; try done; [lia|].
  unfold json_unescape in He. repeat case_match; simplify_eq; done.
Qed.

(** [while (yvex_json_object_member(..) == READY) body], with an early exit when the body fails: the last answer of the
    iterator, the cursor and the state. [None] when the body faults, or when the fuel ends. *)
Fixpoint json_members {T} (body : list Z → yvex_json → T → option (bool * yvex_json * T)) (fuel : nat)
    (iter : yvex_json_iter) (json : yvex_json) (key : list Z) (s : T)
    : option (yvex_json_item * yvex_json_iter * yvex_json * T) :=
  match fuel with
  | O => None
  | S fuel =>
      match yvex_json_object_member iter json (Some key) with
      | (YVEX_JSON_ITEM_READY, iter, json, key) =>
          let key := default [] key in
          match body (c_text key) json s with
          | None => None
          | Some (true, json, s) => json_members body fuel iter json key s
          | Some (false, json, s) => Some (YVEX_JSON_ITEM_READY, iter, json, s)
          end
      | (item, iter, json, _) => Some (item, iter, json, s)
      end
  end.

(** * Grammar *)

Section grammar.
Context {X : Type} (value : list Z → list Z → X → Prop).

(** One member: its key, as the reader decodes it, and its value. *)
Inductive json_member : list Z → X → Prop :=
  | member_of ws raw key ws1 ws2 v x :
      spaces ws → json_chars raw key → (length key < YVEX_JSON_KEY_CAP)%nat → spaces ws1 → spaces ws2 → value key v x →
      json_member (ws ++ (34 :: raw ++ [34]) ++ ws1 ++ 58 :: ws2 ++ v) x.

(** The members of an object from the first on, with the closing brace; a comma before it where [trailing] says so. *)
Inductive json_object_rest (trailing : bool) : list Z → list X → Prop :=
  | rest_last m ws x :
      json_member m x → spaces ws → trailing = false → json_object_rest trailing (m ++ ws ++ [125]) [x]
  | rest_comma m ws ws1 x :
      json_member m x → spaces ws → spaces ws1 → trailing = true →
      json_object_rest trailing (m ++ ws ++ 44 :: ws1 ++ [125]) [x]
  | rest_more m ws x text xs :
      json_member m x → spaces ws → json_object_rest trailing text xs →
      json_object_rest trailing (m ++ ws ++ 44 :: text) (x :: xs).

(** What follows the opening brace. *)
Inductive json_object_body (trailing : bool) : list Z → list X → Prop :=
  | body_empty ws : spaces ws → trailing = false → json_object_body trailing (ws ++ [125]) []
  | body_members text xs : json_object_rest trailing text xs → json_object_body trailing text xs.
End grammar.

(** * One member *)

#[local] Hint Resolve spaces_nil spaces_app : core.

Lemma object_member_ready k json buffer iter json' out :
  yvex_json_object_member (json_at YVEX_JSON_COLLECTION_OBJECT k) json (Some buffer) =
    (YVEX_JSON_ITEM_READY, iter, json', out) →
  length buffer = YVEX_JSON_KEY_CAP →
  ∃ sep ws raw key ws1 rest buffer', json_separator k sep ∧ spaces ws ∧ json_chars raw key ∧
    (length key < YVEX_JSON_KEY_CAP)%nat ∧ spaces ws1 ∧
    js_cursor json = sep ++ ws ++ (34 :: raw ++ [34]) ++ ws1 ++ 58 :: rest ∧
    json' = json <| js_cursor := rest |> ∧ iter = json_at YVEX_JSON_COLLECTION_OBJECT (u64 (k + 1)) ∧
    out = Some buffer' ∧ length buffer' = YVEX_JSON_KEY_CAP ∧ c_text buffer' = key.
Proof.
  intros E Hbuf. unfold yvex_json_object_member in E.
  destruct (json_iter_advance _ json) as [[item it] j1] eqn:Ea. destruct item; [done..|].
  destruct (advance_ready_sound _ _ _ _ _ Ea) as (sep & ws & r1 & Hs & Hws & E1 & -> & ->).
  destruct (yvex_json_string _ (Some buffer)) as [[[] j2] key] eqn:Ek; [|done].
  destruct (json_string_sound _ _ _ _ Ek) as (ws2 & raw & text & r2 & Hws2 & Hc & E2 & -> & Hfit & ->).
  unfold json_fits in Hfit. apply Z.ltb_lt in Hfit.
  rewrite string_in_room in E by lia.
  destruct (space_split (json <| js_cursor := r1 |> <| js_cursor := r2 |>)) as (ws3 & r3 & Hws3 & E3 & _ & Esp).
  rewrite Esp in E. cbn [js_cursor set_field eta_expand] in *. destruct r3 as [|ch r3]; [done|].
  destruct (Z.eqb_spec ch 58) as [->|]; [|done]. injection E as <- <- <-.
  exists sep, (ws ++ ws2), raw, text, ws3, r3, (text ++ 0 :: drop (S (length text)) buffer).
  split_and!; [done|by apply spaces_app|done|lia|done| |done|done|done| |].
  - by rewrite E1, E2, E3, <- !(assoc_L (++)).
  - rewrite length_app. cbn [length]. rewrite length_drop. lia.
  - by eapply c_text_terminated, json_chars_nonzero.
Qed.

Lemma object_member_ready_complete k json buffer sep ws raw key ws1 rest :
  js_cursor json = sep ++ ws ++ (34 :: raw ++ [34]) ++ ws1 ++ 58 :: rest → json_separator k sep → spaces ws →
  json_chars raw key → (length key < YVEX_JSON_KEY_CAP)%nat → spaces ws1 → length buffer = YVEX_JSON_KEY_CAP →
  ∃ buffer', yvex_json_object_member (json_at YVEX_JSON_COLLECTION_OBJECT k) json (Some buffer) =
    (YVEX_JSON_ITEM_READY, json_at YVEX_JSON_COLLECTION_OBJECT (u64 (k + 1)), json <| js_cursor := rest |>, Some buffer') ∧
    length buffer' = YVEX_JSON_KEY_CAP ∧ c_text buffer' = key.
Proof.
  intros E Hsep Hws Hc Hkey Hws1 Hbuf. unfold yvex_json_object_member.
  rewrite (advance_ready_complete YVEX_JSON_COLLECTION_OBJECT k json sep ws _ E Hsep Hws) by (by eexists _, _).
  erewrite (json_string_complete _ (Some buffer) [] raw key (ws1 ++ 58 :: rest)) by
    (done || (cbn [js_cursor set_field eta_expand]; by app_norm)).
  unfold json_fits. rewrite (proj2 (Z.ltb_lt _ _)) by lia. rewrite string_in_room by lia.
  match goal with |- context [yvex_json_space ?j] => rewrite (space_app j ws1 (58 :: rest)) by done end.
  eexists. split; [done|]. split; [rewrite length_app; cbn [length]; rewrite length_drop; lia|].
  by eapply c_text_terminated, json_chars_nonzero.
Qed.

(** The end of an object after [k] members: a comma may precede the brace after the first. *)
Lemma object_member_end k json buffer iter json' out :
  yvex_json_object_member (json_at YVEX_JSON_COLLECTION_OBJECT k) json (Some buffer) =
    (YVEX_JSON_ITEM_END, iter, json', out) →
  it_count iter = k ∧ ∃ ws rest, spaces ws ∧ json' = json <| js_cursor := rest |> ∧
    ((it_trailing_separator iter = false ∧ js_cursor json = ws ++ 125 :: rest) ∨
     (it_trailing_separator iter = true ∧ k ≠ 0 ∧ ∃ ws1, spaces ws1 ∧ js_cursor json = ws ++ 44 :: ws1 ++ 125 :: rest)).
Proof.
  intros E. unfold yvex_json_object_member in E.
  destruct (json_iter_advance _ json) as [[item it] j1] eqn:Ea. destruct item; [done| |].
  2: { destruct (yvex_json_string j1 (Some buffer)) as [[[] j2] key]; [|done].
       destruct (js_cursor (yvex_json_space j2)) as [|ch rest]; [done|]. by destruct (ch =? 58). }
  injection E as -> -> <-. revert Ea. unfold json_iter_advance, json_at. cbn [it_complete it_closing it_count].
  destruct (space_split json) as (ws & text & Hws & E & _ & ->).
  cbn [js_cursor set_field eta_expand json_closing]. destruct text as [|ch text]; [done|].
  destruct (Z.eqb_spec ch 125) as [->|].
  { intros [= <- <-]. split; [done|]. exists ws, text. split; [done|]. split; [done|]. by left. }
  destruct (Z.eqb_spec k 0) as [|Hk]; [done|]. cbn [negb]. destruct (Z.eqb_spec ch 44) as [->|]; [|done]. cbn [negb].
  match goal with |- context [yvex_json_space ?j] => destruct (space_split j) as (ws' & rest & Hws' & E' & _ & ->) end.
  cbn [js_cursor set_field eta_expand] in *. destruct rest as [|ch rest]; [done|].
  destruct (Z.eqb_spec ch 125) as [->|]; [|done]. intros [= <- <-]. split; [done|]. exists ws, rest. split; [done|].
  split; [done|]. right. split; [done|]. split; [done|]. exists ws'. split; [done|]. by rewrite E, E'.
Qed.

Lemma object_member_end_complete k json buffer ws rest :
  js_cursor json = ws ++ 125 :: rest → spaces ws →
  ∃ iter, yvex_json_object_member (json_at YVEX_JSON_COLLECTION_OBJECT k) json (Some buffer) =
    (YVEX_JSON_ITEM_END, iter, json <| js_cursor := rest |>, Some buffer) ∧
    it_trailing_separator iter = false ∧ it_count iter = k.
Proof.
  intros E Hws. unfold yvex_json_object_member, json_iter_advance, json_at. cbn [it_complete it_closing it_count].
  rewrite (space_app json ws (125 :: rest)) by done. by eexists.
Qed.

Lemma object_member_comma_complete k json buffer ws ws1 rest :
  js_cursor json = ws ++ 44 :: ws1 ++ 125 :: rest → spaces ws → spaces ws1 → k ≠ 0 →
  ∃ iter, yvex_json_object_member (json_at YVEX_JSON_COLLECTION_OBJECT k) json (Some buffer) =
    (YVEX_JSON_ITEM_END, iter, json <| js_cursor := rest |>, Some buffer) ∧
    it_trailing_separator iter = true ∧ it_count iter = k.
Proof.
  intros E Hws Hws1 Hk. unfold yvex_json_object_member, json_iter_advance, json_at. cbn [it_complete it_closing it_count].
  rewrite (space_app json ws (44 :: ws1 ++ 125 :: rest)) by done.
  cbn [js_cursor set_field eta_expand json_closing Z.eqb Pos.eqb negb].
  rewrite (proj2 (Z.eqb_neq _ _) Hk). cbn [negb].
  match goal with |- context [yvex_json_space ?j] => rewrite (space_app j ws1 (125 :: rest)) by done end. by eexists.
Qed.

(** * The loop *)

Ltac length_lia := repeat progress (rewrite ?length_app; cbn [length]); lia.

(** A run of a step relation over a list. *)
Fixpoint runs {T X} (R : T → X → T → Prop) (s : T) (xs : list X) (s' : T) : Prop :=
  match xs with
  | [] => s' = s
  | x :: xs => ∃ s1, R s x s1 ∧ runs R s1 xs s'
  end.

(** A cursor outside any value, without extensions. *)
Definition json_plain (json : yvex_json) : Prop :=
  js_depth json = 0 ∧ js_extensions json = 0 ∧ Z.of_nat (length (js_cursor json)) ≤ ULLONG_MAX.

Section loop.
Context {T X : Type} (body : list Z → yvex_json → T → option (bool * yvex_json * T)).
Context (value : list Z → list Z → X → Prop) (R : T → X → T → Prop).

Definition body_sound : Prop := ∀ key json s json' s',
  json_plain json → body key json s = Some (true, json', s') →
  ∃ ws v rest x, spaces ws ∧ value key v x ∧ js_cursor json = ws ++ v ++ rest ∧
    json' = json <| js_cursor := rest |> ∧ R s x s'.

Definition body_complete : Prop := ∀ key v x s s' json ws rest,
  value key v x → json_plain json → js_cursor json = ws ++ v ++ rest → spaces ws → stops rest → R s x s' →
  body key json s = Some (true, json <| js_cursor := rest |>, s').

(** What is left to read after [k] members. *)
Definition members_tail (k : Z) (trailing : bool) (text : list Z) (xs : list X) : Prop :=
  (xs = [] ∧ trailing = false ∧ ∃ ws, spaces ws ∧ text = ws ++ [125]) ∨
  (xs = [] ∧ trailing = true ∧ k ≠ 0 ∧ ∃ ws ws1, spaces ws ∧ spaces ws1 ∧ text = ws ++ 44 :: ws1 ++ [125]) ∨
  (∃ sep text', json_separator k sep ∧ text = sep ++ text' ∧ json_object_rest value trailing text' xs).

Lemma members_tail_cons k trailing sep m x text xs :
  json_separator k sep → json_member value m x → k + 1 ≠ 0 → members_tail (k + 1) trailing text xs →
  members_tail k trailing (sep ++ m ++ text) (x :: xs).
Proof.
  intros Hsep Hm Hk Htail. right. right. exists sep, (m ++ text). split; [done|]. split; [done|].
  destruct Htail as [(-> & -> & ws & Hws & ->)|[(-> & -> & _ & ws & ws1 & Hws & Hws1 & ->)|(sep' & text' & Hsep' & -> & Hrest)]].
  - by apply rest_last.
  - by apply rest_comma.
  - destruct (separator_cases _ _ Hsep') as [[? _]|(_ & ws & Hws & ->)]; [done|].
    rewrite <- (assoc_L (++)). by apply rest_more.
Qed.

Lemma members_tail_start trailing text xs :
  members_tail 0 trailing text xs → json_object_body value trailing text xs.
Proof.
  intros [(-> & -> & ws & Hws & ->)|[(_ & _ & ? & _)|(sep & text' & Hsep & -> & Hrest)]]; [by constructor|done|].
  destruct (separator_cases _ _ Hsep) as [[_ ->]|[? _]]; [by apply body_members|done].
Qed.

Lemma plain_rest json rest :
  json_plain json → (length rest ≤ length (js_cursor json))%nat → json_plain (json <| js_cursor := rest |>).
Proof. intros (Hd & He & Hl) Hr. split; [done|]. split; [done|]. cbn. lia. Qed.

Lemma members_sound fuel : body_sound → ∀ k json key s iter json' s',
  json_plain json → length key = YVEX_JSON_KEY_CAP → 0 ≤ k → k + Z.of_nat (length (js_cursor json)) ≤ ULLONG_MAX →
  json_members body fuel (json_at YVEX_JSON_COLLECTION_OBJECT k) json key s = Some (YVEX_JSON_ITEM_END, iter, json', s') →
  ∃ text rest xs, js_cursor json = text ++ rest ∧ json' = json <| js_cursor := rest |> ∧ runs R s xs s' ∧
    it_count iter = k + Z.of_nat (length xs) ∧ members_tail k (it_trailing_separator iter) text xs.
Proof.
  intros Hbody. induction fuel as [|fuel IH]; intros k json key s iter json' s' Hj Hkey Hk Hlen E; [done|]. cbn [json_members] in E.
  destruct (yvex_json_object_member _ json (Some key)) as [[[item it] j1] out] eqn:Em. destruct item; [done| |].
  - injection E as -> -> ->. destruct (object_member_end _ _ _ _ _ _ Em) as (Hc & ws & rest & Hws & -> & Hend).
    destruct Hend as [(Ht & Ec)|(Ht & Hk0 & ws1 & Hws1 & Ec)]; rewrite Ec, Ht.
    + exists (ws ++ [125]), rest, []. split_and!; [by app_norm|done|done|simpl; lia|]. left. eauto.
    + exists (ws ++ 44 :: ws1 ++ [125]), rest, []. split_and!; [by app_norm|done|done|simpl; lia|].
      right. left. split_and!; [done..|]. by exists ws, ws1.
  - destruct (object_member_ready _ _ _ _ _ _ Em Hkey)
      as (sep & ws & raw & k' & ws1 & rest & buffer & Hsep & Hws & Hc & Hkl & Hws1 & Ec & -> & -> & -> & Hbl & Hct).
    change (default [] (Some buffer)) with buffer in E. rewrite Hct in E. rewrite Ec, !length_app in Hlen. cbn [length] in Hlen. rewrite !length_app in Hlen. cbn [length] in Hlen.
    destruct (body k' _ s) as [[[[] j2] s2]|] eqn:Eb; [|done..].
    destruct (Hbody _ _ _ _ _ (plain_rest json rest Hj ltac:(rewrite Ec; length_lia)) Eb)
      as (ws2 & v & rest2 & x & Hws2 & Hv & Ec2 & -> & HR).
    cbn [js_cursor set_field eta_expand] in *. subst rest. rewrite !length_app in Hlen.
    rewrite u64_id in E by ulia.
    apply IH in E as (text & rest & xs & Et & -> & Hruns & Hcount & Htail); [| |done|lia|].
    + exists (sep ++ (ws ++ (34 :: raw ++ [34]) ++ ws1 ++ 58 :: ws2 ++ v) ++ text), rest, (x :: xs).
      split_and!; [rewrite Ec; cbn in Et; rewrite Et; by app_norm|done|by exists s2|cbn [length]; lia|].
      apply members_tail_cons; [done|by econstructor|lia|done].
    + destruct Hj as (? & ? & ?). split_and!; [done..|]. cbn. lia.
    + cbn. lia.
Qed.

Lemma members_end_complete fuel k json key s ws rest :
  js_cursor json = ws ++ 125 :: rest → spaces ws → (0 < fuel)%nat →
  ∃ iter, json_members body fuel (json_at YVEX_JSON_COLLECTION_OBJECT k) json key s =
    Some (YVEX_JSON_ITEM_END, iter, json <| js_cursor := rest |>, s) ∧
    it_trailing_separator iter = false ∧ it_count iter = k.
Proof.
  intros E Hws Hf. destruct fuel; [lia|]. cbn [json_members].
  destruct (object_member_end_complete k json key ws rest E Hws) as (iter & -> & Ht & Hc). by exists iter.
Qed.

(** One member. *)
Lemma members_step fuel k json key s sep m x rest s1 :
  body_complete → json_plain json → length key = YVEX_JSON_KEY_CAP → 0 ≤ k < ULLONG_MAX →
  js_cursor json = sep ++ m ++ rest → json_separator k sep → json_member value m x → stops rest → R s x s1 →
  ∃ key', length key' = YVEX_JSON_KEY_CAP ∧
    json_members body (S fuel) (json_at YVEX_JSON_COLLECTION_OBJECT k) json key s =
    json_members body fuel (json_at YVEX_JSON_COLLECTION_OBJECT (k + 1)) (json <| js_cursor := rest |>) key' s1.
Proof.
  intros Hbody Hj Hkey Hk E Hsep Hm Hstop HR. destruct Hm as [ws raw k' ws1 ws2 v x Hws Hc Hkl Hws1 Hws2 Hv]. cbn [json_members].
  destruct (object_member_ready_complete k json key sep ws raw k' ws1 (ws2 ++ v ++ rest))
    as (key' & -> & Hl' & Hct); [rewrite E; by app_norm|done..|].
  exists key'. split; [done|]. change (default [] (Some key')) with key'. rewrite Hct.
  rewrite (Hbody k' v x s s1 _ ws2 rest Hv); [by rewrite u64_id by ulia| |done..].
  apply plain_rest; [done|]. rewrite E. clear. length_lia.
Qed.

Lemma member_nonempty m x : json_member value m x → (0 < length m)%nat.
Proof. intros []. rewrite !length_app. cbn [length]. lia. Qed.

Lemma rest_complete trailing text xs : body_complete → json_object_rest value trailing text xs →
  ∀ fuel k json key s s' sep rest, 
  json_plain json → length key = YVEX_JSON_KEY_CAP → 0 ≤ k → k + Z.of_nat (length text) ≤ ULLONG_MAX → (length text < fuel)%nat →
  js_cursor json = sep ++ text ++ rest → json_separator k sep → runs R s xs s' →
  ∃ iter, json_members body fuel (json_at YVEX_JSON_COLLECTION_OBJECT k) json key s =
    Some (YVEX_JSON_ITEM_END, iter, json <| js_cursor := rest |>, s') ∧
    it_trailing_separator iter = trailing ∧ it_count iter = k + Z.of_nat (length xs).
Proof.
  intros Hbody H. induction H as [m ws x Hm Hws ->|m ws ws1 x Hm Hws Hws1 ->|m ws x text xs Hm Hws Hrest IH];
    intros fuel k json key s s' sep rest Hj Hkey Hk Hlen Hf E Hsep Hruns;
    pose proof (member_nonempty _ _ Hm) as Hm0; rewrite !length_app in Hlen, Hf; cbn [length] in Hlen, Hf;
    (destruct fuel as [|fuel]; [lia|]).
  - destruct Hruns as (s1 & HR & ->).
    destruct (members_step fuel k json key s sep m x (ws ++ 125 :: rest) s1) as (key' & Hkey' & ->);
      [done|done|done|lia|rewrite E; by app_norm|done|done|by apply stops_spaces, (stops_closing YVEX_JSON_COLLECTION_OBJECT)|done|].
    destruct (members_end_complete fuel (k + 1) (json <| js_cursor := ws ++ 125 :: rest |>) key' s1 ws rest)
      as (iter & -> & Ht & Hc); [done|done|lia|]. exists iter. split; [done|]. split; [done|]. cbn [length]. lia.
  - destruct Hruns as (s1 & HR & ->).
    destruct (members_step fuel k json key s sep m x (ws ++ 44 :: ws1 ++ 125 :: rest) s1) as (key' & Hkey' & ->);
      [done|done|done|lia|rewrite E; by app_norm|done|done|by apply stops_spaces|done|].
    destruct fuel as [|fuel]; [rewrite length_app in Hf; lia|]. cbn [json_members].
    destruct (object_member_comma_complete (k + 1) (json <| js_cursor := ws ++ 44 :: ws1 ++ 125 :: rest |>) key' ws ws1 rest)
      as (iter & -> & Ht & Hc); [done|done|done|lia|]. exists iter. split; [done|]. split; [done|]. cbn [length]. lia.
  - destruct Hruns as (s1 & HR & Hruns).
    destruct (members_step fuel k json key s sep m x (ws ++ 44 :: text ++ rest) s1) as (key' & Hkey' & ->);
      [done|done|done|lia|rewrite E; by app_norm|done|done|by apply stops_spaces|done|].
    destruct (IH fuel (k + 1) (json <| js_cursor := ws ++ 44 :: text ++ rest |>) key' s1 s' (ws ++ [44]) rest)
      as (iter & -> & Ht & Hc); [|done|lia|lia|lia|cbn; by app_norm| |done|].
    + apply plain_rest; [done|]. rewrite E. clear. length_lia.
    + unfold json_separator. rewrite (proj2 (Z.eqb_neq _ _)) by lia. by exists ws.
    + exists iter. split; [done|]. split; [done|]. cbn [length]. lia.
Qed.

(** A loop whose body never faults ends, and keeps what the body keeps. *)
Lemma members_total (I : T → Prop) :
  (∀ key json s, I s → json_plain json → ∃ ok json' s', body key json s = Some (ok, json', s') ∧ I s' ∧
     (ok = true → json_plain json' ∧ (length (js_cursor json') ≤ length (js_cursor json))%nat)) →
  ∀ fuel k json key s, I s → json_plain json → length key = YVEX_JSON_KEY_CAP → (length (js_cursor json) < fuel)%nat →
  ∃ item iter json' s', json_members body fuel (json_at YVEX_JSON_COLLECTION_OBJECT k) json key s = Some (item, iter, json', s') ∧
    I s'.
Proof.
  intros Hbody. induction fuel as [|fuel IH]; intros k json key s HI Hj Hkey Hf; [lia|]. cbn [json_members].
  destruct (yvex_json_object_member _ json (Some key)) as [[[item it] j1] out] eqn:Em. destruct item; [by eexists _, _, _, _..|].
  destruct (object_member_ready _ _ _ _ _ _ Em Hkey)
    as (sep & ws & raw & k' & ws1 & rest & buffer & _ & _ & _ & _ & _ & Ec & -> & -> & -> & Hbl & _).
  change (default [] (Some buffer)) with buffer.
  assert (length rest < length (js_cursor json))%nat as Hlt.
  { rewrite Ec. length_lia. }
  destruct (Hbody (c_text buffer) (json <| js_cursor := rest |>) s HI) as (ok & j2 & s2 & -> & HI2 & Hok);
    [apply plain_rest; [done|lia]|].
  destruct ok; [|by eexists _, _, _, _]. destruct (Hok eq_refl) as [Hj2 Hl2]. cbn in Hl2. apply IH; [done|done|done|lia].
Qed.
End loop.
