(* ===== verification/Safetensors.v ===== *)
(** Safetensors headers: from the bytes of a shard to rows of the native table, [src/source/safetensors_header.c] and
    the scan of [src/source/native_weights.c].

    A file is what its descriptor delivers. Reasons of refusals are given without the shard's name. *)

From S2P Require Import Prelude Status Exec Json JsonGrammar JsonObject HashIndex NativeTable.
#[local] Open Scope Z_scope.

(** * Data *)

(** src/include/yvex/internal/source.h, [yvex_safetensors_file_facts] *)
Record yvex_safetensors_file_facts := FileFacts {
  sx_file_bytes : Z;
  sx_header_json_bytes : Z;
  sx_data_region_offset : Z;
  sx_payload_bytes : Z;
}.

(** What opening a path gives: whether it is a regular file that can be opened and examined, the size it has then, whether
    it gets a stream, and the bytes the stream delivers. *)
Record header_file := HeaderFile { hf_regular : bool; hf_size : Z; hf_stream : bool; hf_bytes : list Z }.

(** Allocator answers: for the table, for the copy of a type name and for the text of a header. *)
Record st_env := StEnv { se_native : native_env; se_dtype : bool; se_header : bool; se_path : bool }.

(** The members of a tensor entry read so far; the flag [seen] of a member is its presence. *)
Record st_fields := StFields { sf_dtype : option (list Z); sf_shape : option (list Z); sf_offsets : option (Z * Z) }.

#[export] Instance st_fields_eta : Eta st_fields := λ f, StFields (sf_dtype f) (sf_shape f) (sf_offsets f).

Definition st_fields_empty : st_fields := StFields None None None.

(** * Values *)

(** src/src/source/safetensors_header.c, [st_le64] *)
Definition st_le64 (b : list Z) : Z := load_le b.

(** src/src/source/safetensors_header.c, [safetensors_json_expect] *)
Definition safetensors_json_expect (json : yvex_json) (token : Z) : bool * yvex_json :=
  let json := yvex_json_space json in
  match js_cursor json with
  | [] => (false, json)
  | ch :: rest => if ch =? token then (true, json <| js_cursor := rest |>) else (false, json)
  end.

(** [fuel] is the number of dimensions there is room for.
    src/src/source/safetensors_header.c:175-187, [safetensors_shape] *)
Fixpoint safetensors_shape_loop (fuel : nat) (json : yvex_json) (dims : list Z) : option (list Z) * yvex_json :=
  match fuel with
  | O => (None, json)
  | S fuel =>
      match yvex_json_u64 json with
      | (None, json) => (None, json)
      | (Some dim, json) =>
          let dims := dims ++ [dim] in
          let json := yvex_json_space json in
          match js_cursor json with
          | [] => (None, json)
          | ch :: rest =>
              let json := json <| js_cursor := rest |> in
              if ch =? 93 then (Some dims, json)
              else if ch =? 44 then safetensors_shape_loop fuel json dims
              else (None, json)
          end
      end
  end.

(** src/src/source/safetensors_header.c, [safetensors_shape] *)
Definition safetensors_shape (json : yvex_json) : option (list Z) * yvex_json :=
  match safetensors_json_expect json 91 with
  | (false, json) => (None, json)
  | (true, json) =>
      let json := yvex_json_space json in
      match js_cursor json with
      | ch :: rest =>
          if ch =? 93 then (Some [], json <| js_cursor := rest |>)
          else safetensors_shape_loop YVEX_NATIVE_WEIGHT_MAX_DIMS json []
      | [] => safetensors_shape_loop YVEX_NATIVE_WEIGHT_MAX_DIMS json []
      end
  end.

(** src/src/source/safetensors_header.c, [safetensors_offsets] *)
Definition safetensors_offsets (json : yvex_json) : option (Z * Z) * yvex_json :=
  match safetensors_json_expect json 91 with
  | (false, json) => (None, json)
  | (true, json) =>
      match yvex_json_u64 json with
      | (None, json) => (None, json)
      | (Some first, json) =>
          match safetensors_json_expect json 44 with
          | (false, json) => (None, json)
          | (true, json) =>
              match yvex_json_u64 json with
              | (None, json) => (None, json)
              | (Some last, json) =>
                  match safetensors_json_expect json 93 with
                  | (false, json) => (None, json)
                  | (true, json) => (if first <=? last then Some (first, last) else None, json)
                  end
              end
          end
      end
  end.

(** * Entries *)

(** One member of a tensor entry.
    src/src/source/safetensors_header.c:218-235, [safetensors_tensor] *)
Definition safetensors_field (env : st_env) (key : list Z) (json : yvex_json) (fields : st_fields)
    : option (bool * yvex_json * st_fields) :=
  if bool_decide (key = cstr "dtype") then
    match yvex_json_string_dup (se_dtype env) json 64 with
    | (Some dtype, json) => Some (true, json, fields <| sf_dtype := Some (c_text dtype) |>)
    | (None, json) => Some (false, json, fields)
    end
  else if bool_decide (key = cstr "shape") then
    match safetensors_shape json with
    | (Some dims, json) => Some (true, json, fields <| sf_shape := Some dims |>)
    | (None, json) => Some (false, json, fields)
    end
  else if bool_decide (key = cstr "data_offsets") then
    match safetensors_offsets json with
    | (Some extent, json) => Some (true, json, fields <| sf_offsets := Some extent |>)
    | (None, json) => Some (false, json, fields)
    end
  else let '(ok, json) := yvex_json_skip_value json in Some (ok, json, fields).

(** The status, the cursor and the table.
    src/src/source/safetensors_header.c, [safetensors_tensor] *)
Definition safetensors_tensor (env : st_env) (json : yvex_json) (name : list Z) (payload_bytes : Z) (shard_path : list Z)
    (table : yvex_native_weight_table) : option (outcome unit * yvex_json * yvex_native_weight_table) :=
  let missing := Refused YVEX_ERR_FORMAT "tensor entry missing dtype, shape, or data_offsets" in
  let invalid := Refused YVEX_ERR_FORMAT "invalid tensor shape or data offsets" in
  match yvex_json_iter_begin json YVEX_JSON_COLLECTION_OBJECT with
  | (None, json) => Some (missing, json, table)
  | (Some iter, json) =>
      match json_members (safetensors_field env) (S (length (js_cursor json))) iter json (replicate YVEX_JSON_KEY_CAP 0)
              st_fields_empty with
      | None => None
      | Some (item, _, json, fields) =>
          match sf_dtype fields, sf_shape fields, sf_offsets fields with
          | Some dtype, Some dims, Some (first, last) =>
              match item with
              | YVEX_JSON_ITEM_END =>
                  if payload_bytes <? last then Some (invalid, json, table)
                  else
                    '(table, rc) ← yvex_native_weight_table_add (se_native env) table name shard_path dtype dims first last;
                    Some (rc, json, table)
              | _ => Some (invalid, json, table)
              end
          | _, _, _ => Some (missing, json, table)
          end
      end
  end.

(** One member of a header.
    src/src/source/safetensors_header.c:271-279, [safetensors_parse_header] *)
Definition safetensors_entry (env : st_env) (payload_bytes : Z) (shard_path : list Z) (key : list Z) (json : yvex_json)
    (s : yvex_native_weight_table * outcome unit) : option (bool * yvex_json * (yvex_native_weight_table * outcome unit)) :=
  let '(table, _) := s in
  if bool_decide (key = cstr "__metadata__") then
    let '(ok, json) := yvex_json_skip_value json in
    Some (ok, json, (table, if ok then Done tt else Refused YVEX_ERR_FORMAT "malformed metadata value"))
  else
    '(rc, json, table) ← safetensors_tensor env json key payload_bytes shard_path table;
    Some (match rc with Done _ => true | _ => false end, json, (table, rc)).

(** The text ends at its first zero byte.
    src/src/source/safetensors_header.c, [safetensors_parse_header] *)
Definition safetensors_parse_header (env : st_env) (text : list Z) (payload_bytes : Z) (shard_path : list Z)
    (table : yvex_native_weight_table) : option (yvex_native_weight_table * outcome unit) :=
  match yvex_json_iter_begin (yvex_json_init (c_text text)) YVEX_JSON_COLLECTION_OBJECT with
  | (None, _) => Some (table, Refused YVEX_ERR_FORMAT "unexpected JSON token")
  | (Some iter, json) =>
      match json_members (safetensors_entry env payload_bytes shard_path) (S (length (js_cursor json))) iter json
              (replicate YVEX_JSON_KEY_CAP 0) (table, Done tt) with
      | None => None
      | Some (item, iter, json, (table, rc)) =>
          Some (table,
            match rc with
            | Refused st why => Refused st why
            | Done _ =>
                match item with
                | YVEX_JSON_ITEM_END =>
                    if it_trailing_separator iter then Refused YVEX_ERR_FORMAT "malformed safetensors header"
                    else if it_count iter =? 0 then Refused YVEX_ERR_FORMAT "empty safetensors header"
                    else if (yvex_json_complete json).1 then Done tt
                    else Refused YVEX_ERR_FORMAT "trailing JSON bytes"
                | _ => Refused YVEX_ERR_FORMAT "malformed safetensors header"
                end
            end)
      end
  end.

(** The table after a shard that is no safetensors file.
    src/src/source/safetensors_header.c:63-64, [yvex_safetensors_read_header_file_with_facts] *)
Definition header_malformed (table : yvex_native_weight_table) : yvex_native_weight_table :=
  table <| nt_summary ::= λ s, s <| ns_malformed_shard_count ::= λ n, u64 (n + 1) |> |>
        <| nt_header_error_count ::= λ n, u64 (n + 1) |>.

(** The table and the facts of the file.
    src/src/source/safetensors_header.c, [yvex_safetensors_read_header_file_with_facts] *)
Definition yvex_safetensors_read_header_file_with_facts (env : st_env) (file : header_file) (shard_path : list Z)
    (table : yvex_native_weight_table) : option (yvex_native_weight_table * outcome yvex_safetensors_file_facts) :=
  if negb (hf_regular file) || (hf_size file <? 8) then
    Some (header_malformed table, Refused YVEX_ERR_FORMAT "short safetensors file")
  else if negb (hf_stream file) then Some (table, Refused YVEX_ERR_IO "cannot open safetensors file")
  else if (length (hf_bytes file) <? 8)%nat then
    Some (header_malformed table, Refused YVEX_ERR_FORMAT "cannot read safetensors header length")
  else
    let header_len := st_le64 (take 8 (hf_bytes file)) in
    if (header_len =? 0) || (hf_size file - 8 <? header_len) || (64 * 1024 * 1024 <? header_len) then
      Some (header_malformed table, Refused YVEX_ERR_FORMAT "invalid safetensors header length")
    else if negb (se_header env) then Some (table, Refused YVEX_ERR_NOMEM "header allocation failed")
    else
      let json := take (Z.to_nat header_len) (drop 8 (hf_bytes file)) in
      if Z.of_nat (length json) <? header_len then
        Some (header_malformed table, Refused YVEX_ERR_FORMAT "cannot read safetensors header")
      else
        let table := table <| nt_header_read_count ::= λ n, u64 (n + 1) |>
          <| nt_header_bytes ::= λ n, u64 (n + header_len) |> in
        let payload_bytes := hf_size file - 8 - header_len in
        '(table, rc) ← safetensors_parse_header env json payload_bytes shard_path table;
        Some (match rc with
              | Refused st why => (header_malformed table, Refused st why)
              | Done _ => (table, Done (FileFacts (hf_size file) header_len (8 + header_len) payload_bytes))
              end).

(** * The grammar of a header *)

Definition st_u64 (text : list Z) (value : Z) : Prop :=
  digits text ∧ value = digits_value 0 text ∧ value ≤ ULLONG_MAX.

(** What follows the opening bracket of a shape, or a comma in it. *)
Inductive st_dims : list Z → list Z → Prop :=
  | dims_last ws ds ws' v : spaces ws → st_u64 ds v → spaces ws' → st_dims (ws ++ ds ++ ws' ++ [93]) [v]
  | dims_more ws ds ws' v text dims :
      spaces ws → st_u64 ds v → spaces ws' → st_dims text dims → st_dims (ws ++ ds ++ ws' ++ 44 :: text) (v :: dims).

Inductive st_shape : list Z → list Z → Prop :=
  | shape_scalar ws : spaces ws → st_shape (91 :: ws ++ [93]) []
  | shape_dims text dims :
      st_dims text dims → (length dims ≤ YVEX_NATIVE_WEIGHT_MAX_DIMS)%nat → st_shape (91 :: text) dims.

Inductive st_offsets : list Z → Z → Z → Prop :=
  | offsets_of ws1 first_ ws2 ws3 last_ ws4 first last :
      spaces ws1 → st_u64 first_ first → spaces ws2 → spaces ws3 → st_u64 last_ last → spaces ws4 → first ≤ last →
      st_offsets (91 :: ws1 ++ first_ ++ ws2 ++ 44 :: ws3 ++ last_ ++ ws4 ++ [93]) first last.

(** What a member says of its tensor. *)
Inductive st_fact : Type := FactDtype (name : list Z) | FactShape (dims : list Z) | FactOffsets (first last : Z) | FactOther.

(** A member of a tensor entry by its key; a key that is none of the three may hold any value. *)
Inductive st_field_value : list Z → list Z → st_fact → Prop :=
  | field_dtype raw text :
      json_chars raw text → (length raw < 64)%nat → st_field_value (cstr "dtype") (34 :: raw ++ [34]) (FactDtype text)
  | field_shape text dims : st_shape text dims → st_field_value (cstr "shape") text (FactShape dims)
  | field_offsets text first last :
      st_offsets text first last → st_field_value (cstr "data_offsets") text (FactOffsets first last)
  | field_other key text :
      key ≠ cstr "dtype" → key ≠ cstr "shape" → key ≠ cstr "data_offsets" → json_value 0 64 text →
      st_field_value key text FactOther.

(** The last member of a name counts. *)
Definition st_learn (fields : st_fields) (fact : st_fact) : st_fields :=
  match fact with
  | FactDtype name => fields <| sf_dtype := Some name |>
  | FactShape dims => fields <| sf_shape := Some dims |>
  | FactOffsets first last => fields <| sf_offsets := Some (first, last) |>
  | FactOther => fields
  end.

(** An entry of a header: the tensor it declares, if it is not the metadata. *)
Inductive st_entry_value (payload_bytes : Z) : list Z → list Z → option (list Z * list Z * list Z * Z * Z) → Prop :=
  | entry_metadata text : json_value 0 64 text → st_entry_value payload_bytes (cstr "__metadata__") text None
  | entry_tensor key trailing text facts dtype dims first last :
      key ≠ cstr "__metadata__" → json_object_body st_field_value trailing text facts →
      foldl st_learn st_fields_empty facts = StFields (Some dtype) (Some dims) (Some (first, last)) →
      last ≤ payload_bytes →
      st_entry_value payload_bytes key (123 :: text) (Some (key, dtype, dims, first, last)).

(** A header: an object of entries, not empty, between white space; only a tensor entry may end in a comma. *)
Definition st_header (payload_bytes : Z) (text : list Z) (entries : list (option (list Z * list Z * list Z * Z * Z))) : Prop :=
  ∃ ws body ws', spaces ws ∧ spaces ws' ∧ text = ws ++ 123 :: body ++ ws' ∧
    json_object_body (st_entry_value payload_bytes) false body entries ∧ entries ≠ [].

Definition st_row (shard_path : list Z) (entry : list Z * list Z * list Z * Z * Z) : yvex_native_weight_info :=
  let '(name, dtype, dims, first, last) := entry in native_row name shard_path dtype dims first last.

Definition st_rows (shard_path : list Z) (entries : list (option (list Z * list Z * list Z * Z * Z)))
    : list yvex_native_weight_info := st_row shard_path <$> omap id entries.

(** * The readers and the grammar *)

#[local] Hint Resolve spaces_nil spaces_app : core.

Lemma expect_sound json token json' :
  safetensors_json_expect json token = (true, json') →
  ∃ ws rest, spaces ws ∧ js_cursor json = ws ++ token :: rest ∧ json' = json <| js_cursor := rest |>.
Proof.
  unfold safetensors_json_expect. destruct (space_split json) as (ws & text & Hws & E & _ & ->).
  cbn [js_cursor set_field eta_expand]. destruct text as [|ch rest]; [done|].
  destruct (Z.eqb_spec ch token) as [->|]; [|done]. intros [= <-]. by exists ws, rest.
Qed.

Lemma expect_complete json token ws rest :
  js_cursor json = ws ++ token :: rest → spaces ws → isspace token = false →
  safetensors_json_expect json token = (true, json <| js_cursor := rest |>).
Proof.
  intros E Hws Ht. unfold safetensors_json_expect. rewrite (space_app json ws (token :: rest)) by done.
  cbn [js_cursor set_field eta_expand]. by rewrite Z.eqb_refl.
Qed.

Lemma u64_read_sound json v json' :
  yvex_json_u64 json = (Some v, json') →
  ∃ ws ds rest, spaces ws ∧ st_u64 ds v ∧ js_cursor json = ws ++ ds ++ rest ∧ json' = json <| js_cursor := rest |>.
Proof.
  intros (ws & ds & rest & Hws & Hds & _ & E & Hle & -> & ->)%json_u64_exact. exists ws, ds, rest. split; [done|].
  split; [by split|done].
Qed.

Lemma u64_read_complete json ws ds v rest :
  js_cursor json = ws ++ ds ++ rest → spaces ws → st_u64 ds v → not_head isdigit rest →
  yvex_json_u64 json = (Some v, json <| js_cursor := rest |>).
Proof. intros E Hws (Hds & -> & Hle) Hn. apply json_u64_exact. by exists ws, ds, rest. Qed.

Lemma spaces_not_digit ws ch rest : spaces ws → isdigit ch = false → not_head isdigit (ws ++ ch :: rest).
Proof. intros [|c ws' Hc _] Hch; [done|]. cbn. unfold isspace, isdigit in *. lia. Qed.

Lemma dims_spaces ws text dims : spaces ws → st_dims text dims → st_dims (ws ++ text) dims.
Proof.
  intros Hws []; rewrite (assoc_L (++)); constructor; auto.
Qed.

Lemma shape_loop_sound fuel json dims0 dims json' :
  safetensors_shape_loop fuel json dims0 = (Some dims, json') →
  ∃ text ds rest, st_dims text ds ∧ js_cursor json = text ++ rest ∧ json' = json <| js_cursor := rest |> ∧
    dims = dims0 ++ ds ∧ (length ds ≤ fuel)%nat.
Proof.
  revert json dims0. induction fuel as [|fuel IH]; intros json dims0 E; [done|]. cbn [safetensors_shape_loop] in E.
  destruct (yvex_json_u64 json) as [[v|] j1] eqn:Eu; [|done].
  destruct (u64_read_sound _ _ _ Eu) as (ws & ds & r1 & Hws & Hds & E1 & ->).
  destruct (space_split (json <| js_cursor := r1 |>)) as (ws' & r2 & Hws' & E2 & _ & Esp). rewrite Esp in E.
  cbn [js_cursor set_field eta_expand] in E, E2. destruct r2 as [|ch r2]; [done|].
  destruct (Z.eqb_spec ch 93) as [->|].
  - injection E as <- <-. exists (ws ++ ds ++ ws' ++ [93]), [v], r2.
    split_and!; [by constructor|rewrite E1, E2; by app_norm|done|done|cbn; lia].
  - destruct (Z.eqb_spec ch 44) as [->|]; [|done].
    apply IH in E as (text & ds' & rest & Hd & Et & -> & -> & Hl). cbn in Et. subst r2.
    exists (ws ++ ds ++ ws' ++ 44 :: text), (v :: ds'), rest.
    split_and!; [by constructor|rewrite E1, E2; by app_norm|done|by app_norm|cbn; lia].
Qed.

Lemma shape_loop_complete text ds : st_dims text ds → ∀ fuel json dims0 rest,
  js_cursor json = text ++ rest → (length ds ≤ fuel)%nat →
  safetensors_shape_loop fuel json dims0 = (Some (dims0 ++ ds), json <| js_cursor := rest |>).
Proof.
  induction 1 as [ws d ws' v Hws Hv Hws'|ws d ws' v text ds Hws Hv Hws' Hd IH]; intros fuel json dims0 rest E Hl;
    cbn [length] in Hl; (destruct fuel as [|fuel]; [lia|]); cbn [safetensors_shape_loop].
  - rewrite (u64_read_complete json ws d v (ws' ++ 93 :: rest)) by (done || (rewrite E; by app_norm) || by apply spaces_not_digit).
    rewrite (space_app (json <| js_cursor := ws' ++ 93 :: rest |>) ws' (93 :: rest)) by done. done.
  - rewrite (u64_read_complete json ws d v (ws' ++ 44 :: text ++ rest)) by (done || (rewrite E; by app_norm) || by apply spaces_not_digit).
    rewrite (space_app (json <| js_cursor := ws' ++ 44 :: text ++ rest |>) ws' (44 :: text ++ rest)) by done.
    cbn [js_cursor set_field eta_expand Z.eqb Pos.eqb]. rewrite (IH fuel _ _ rest); [by app_norm|done|lia].
Qed.

Lemma shape_sound json dims json' :
  safetensors_shape json = (Some dims, json') →
  ∃ ws text rest, spaces ws ∧ st_shape text dims ∧ js_cursor json = ws ++ text ++ rest ∧ json' = json <| js_cursor := rest |>.
Proof.
  unfold safetensors_shape. destruct (safetensors_json_expect json 91) as [[] j1] eqn:Ee; [|done].
  destruct (expect_sound _ _ _ Ee) as (ws & r1 & Hws & E1 & ->).
  destruct (space_split (json <| js_cursor := r1 |>)) as (ws1 & r2 & Hws1 & E2 & _ & ->).
  assert (∀ j', safetensors_shape_loop YVEX_NATIVE_WEIGHT_MAX_DIMS (json <| js_cursor := r1 |> <| js_cursor := r2 |>) [] = (Some dims, j') →
    ∃ ws text rest, spaces ws ∧ st_shape text dims ∧ js_cursor json = ws ++ text ++ rest ∧ j' = json <| js_cursor := rest |>) as Hloop.
  { intros j' (text & ds & rest & Hd & Et & -> & -> & Hl)%shape_loop_sound. cbn [js_cursor set_field eta_expand app] in *.
    exists ws, (91 :: ws1 ++ text), rest. split_and!; [done| |rewrite E1, E2, Et; by app_norm|done].
    by apply shape_dims; [apply dims_spaces|]. }
  cbn [js_cursor set_field eta_expand] in E2 |- *. destruct r2 as [|ch r2]; [apply Hloop|].
  destruct (Z.eqb_spec ch 93) as [->|]; [|apply Hloop]. intros [= <- <-].
  exists ws, (91 :: ws1 ++ [93]), r2. split_and!; [done|by constructor|rewrite E1, E2; by app_norm|done].
Qed.

Lemma u64_head d v : st_u64 d v → ∃ ch rest, d = ch :: rest ∧ isspace ch = false ∧ ch ≠ 93.
Proof.
  intros ([Hne Hds] & _). destruct Hds as [|ch rest Hch _]; [done|]. apply isdigit_range in Hch.
  exists ch, rest. split; [done|]. unfold isspace. lia.
Qed.

(** The first dimension without the white space before it. *)
Lemma dims_head text ds :
  st_dims text ds → ∃ ws ch rest, text = ws ++ ch :: rest ∧ spaces ws ∧ isspace ch = false ∧ ch ≠ 93 ∧ st_dims (ch :: rest) ds.
Proof.
  intros [ws d ws' v Hws Hv Hws'|ws d ws' v text' ds' Hws Hv Hws' Hd]; destruct (u64_head d v Hv) as (ch & rest & -> & Hsp & Hne);
    eexists ws, ch, _; (split; [by app_norm|]); (split_and!; [done..|]).
  - by apply (dims_last [] (ch :: rest)).
  - by apply (dims_more [] (ch :: rest)).
Qed.

Lemma shape_complete json ws text dims rest :
  js_cursor json = ws ++ text ++ rest → spaces ws → st_shape text dims →
  safetensors_shape json = (Some dims, json <| js_cursor := rest |>).
Proof.
  intros E Hws Hs. unfold safetensors_shape. destruct Hs as [ws1 Hws1|text dims Hd Hl].
  - rewrite (expect_complete json 91 ws (ws1 ++ 93 :: rest)) by (done || (rewrite E; by app_norm)).
    rewrite (space_app (json <| js_cursor := ws1 ++ 93 :: rest |>) ws1 (93 :: rest)) by done. done.
  - rewrite (expect_complete json 91 ws (text ++ rest)) by (done || (rewrite E; by app_norm)).
    destruct (dims_head _ _ Hd) as (ws1 & ch & r1 & Et & Hws1 & Hsp & Hne & Hd').
    rewrite (space_app (json <| js_cursor := text ++ rest |>) ws1 (ch :: r1 ++ rest)) by (done || (cbn; rewrite Et; by app_norm)).
    cbn [js_cursor set_field eta_expand]. rewrite (proj2 (Z.eqb_neq ch 93)) by done.
    by rewrite (shape_loop_complete (ch :: r1) dims Hd' _ _ [] rest).
Qed.

Lemma offsets_sound json first last json' :
  safetensors_offsets json = (Some (first, last), json') →
  ∃ ws text rest, spaces ws ∧ st_offsets text first last ∧ js_cursor json = ws ++ text ++ rest ∧
    json' = json <| js_cursor := rest |>.
Proof.
  unfold safetensors_offsets. destruct (safetensors_json_expect json 91) as [[] j1] eqn:E1; [|done].
  destruct (expect_sound _ _ _ E1) as (ws & r1 & Hws & C1 & ->).
  match goal with |- context [yvex_json_u64 ?j] => destruct (yvex_json_u64 j) as [[a|] j2] eqn:E2; [|done] end.
  destruct (u64_read_sound _ _ _ E2) as (ws1 & da & r2 & Hws1 & Ha & C2 & ->).
  match goal with |- context [safetensors_json_expect ?j 44] => destruct (safetensors_json_expect j 44) as [[] j3] eqn:E3; [|done] end.
  destruct (expect_sound _ _ _ E3) as (ws2 & r3 & Hws2 & C3 & ->).
  match goal with |- context [yvex_json_u64 ?j] => destruct (yvex_json_u64 j) as [[b|] j4] eqn:E4; [|done] end.
  destruct (u64_read_sound _ _ _ E4) as (ws3 & db & r4 & Hws3 & Hb & C4 & ->).
  match goal with |- context [safetensors_json_expect ?j 93] => destruct (safetensors_json_expect j 93) as [[] j5] eqn:E5; [|done] end.
  destruct (expect_sound _ _ _ E5) as (ws4 & r5 & Hws4 & C5 & ->).
  destruct (Z.leb_spec a b); [|done]. intros [= <- <- <-]. cbn [js_cursor set_field eta_expand] in *.
  exists ws, (91 :: ws1 ++ da ++ ws2 ++ 44 :: ws3 ++ db ++ ws4 ++ [93]), r5.
  split_and!; [done|by constructor|rewrite C1, C2, C3, C4, C5; by app_norm|done].
Qed.

Lemma offsets_complete json ws text first last rest :
  js_cursor json = ws ++ text ++ rest → spaces ws → st_offsets text first last →
  safetensors_offsets json = (Some (first, last), json <| js_cursor := rest |>).
Proof.
  intros E Hws Hoff. destruct Hoff as [ws1 da ws2 ws3 db ws4 a b Hws1 Ha Hws2 Hws3 Hb Hws4 Hle]. unfold safetensors_offsets.
  rewrite (expect_complete json 91 ws (ws1 ++ da ++ ws2 ++ 44 :: ws3 ++ db ++ ws4 ++ 93 :: rest)) by (done || (rewrite E; by app_norm)).
  rewrite (u64_read_complete _ ws1 da a (ws2 ++ 44 :: ws3 ++ db ++ ws4 ++ 93 :: rest)) by (done || by apply spaces_not_digit).
  rewrite (expect_complete _ 44 ws2 (ws3 ++ db ++ ws4 ++ 93 :: rest)) by done.
  rewrite (u64_read_complete _ ws3 db b (ws4 ++ 93 :: rest)) by (done || by apply spaces_not_digit).
  rewrite (expect_complete _ 93 ws4 rest) by done. by rewrite (proj2 (Z.leb_le a b)).
Qed.

Lemma skip_value_sound json json' :
  yvex_json_skip_value json = (true, json') → json_plain json →
  ∃ ws v rest, spaces ws ∧ json_value 0 64 v ∧ js_cursor json = ws ++ v ++ rest ∧ json' = json <| js_cursor := rest |>.
Proof.
  intros E (Hd & He & Hl). apply skip_nested_sound in E; [|lia|done]. by rewrite Hd, He in E.
Qed.

Lemma skip_value_complete json ws v rest :
  json_plain json → js_cursor json = ws ++ v ++ rest → spaces ws → stops rest → json_value 0 64 v →
  yvex_json_skip_value json = (true, json <| js_cursor := rest |>).
Proof.
  intros (Hd & He & Hl) E Hws Hs Hv. unfold yvex_json_skip_value. rewrite Hd.
  apply (proj1 (grammar_read 0) 64%nat v Hv _ json ws rest); [done..|unfold YVEX_JSON_DEPTH_CAP; lia| |].
  - unfold json_room. rewrite Hd, He. lia.
  - rewrite E, !length_app in Hl. lia.
Qed.

(** The copy of a short string. *)
Lemma string_dup_sound json value json' :
  yvex_json_string_dup true json 64 = (Some value, json') →
  ∃ ws raw text rest, spaces ws ∧ json_chars raw text ∧ (length raw < 64)%nat ∧
    js_cursor json = ws ++ (34 :: raw ++ [34]) ++ rest ∧ json' = json <| js_cursor := rest |> ∧ c_text value = text.
Proof.
  unfold yvex_json_string_dup. cbn [Z.eqb].
  destruct (space_split json) as (ws & r & Hws & E & Hn & ->). cbn [js_cursor set_field eta_expand].
  destruct (yvex_json_string _ None) as [[[] probe] out] eqn:Ep; [|done].
  destruct (json_string_sound _ _ _ _ Ep) as (ws0 & raw & text & rest & Hws0 & Hc & E0 & -> & _).
  cbn [js_cursor set_field eta_expand negb] in *. subst r.
  assert (ws0 = []) as ->.
  { destruct Hws0 as [|ch ws0 Hch _]; [done|]. cbn in Hn. congruence. }
  assert (Z.of_nat (length ([] ++ (34 :: raw ++ [34]) ++ rest)) - Z.of_nat (length rest) = Z.of_nat (length raw + 2)) as ->
    by length_lia.
  destruct (_ || _) eqn:Eg; [done|]. apply orb_false_iff in Eg as [_ Eg%Z.ltb_ge].
  rewrite (json_string_complete json _ ws raw text rest) by done.
  pose proof (chars_length _ _ Hc). rewrite string_in_room by (rewrite length_replicate; lia).
  unfold json_fits. rewrite length_replicate, (proj2 (Z.ltb_lt _ _)) by lia. intros [= <- <-].
  exists ws, raw, text, rest. split_and!; [done|done|lia|done|done|].
  by eapply c_text_terminated, json_chars_nonzero.
Qed.

Lemma string_dup_memory json cap : (yvex_json_string_dup false json cap).1 = None.
Proof.
  unfold yvex_json_string_dup. destruct (cap =? 0); [done|].
  destruct (yvex_json_string _ None) as [[[] probe] out]; [|done]. cbn [negb]. by destruct (_ || _).
Qed.

(** * Entries *)

Definition learns (s : st_fields) (fact : st_fact) (s' : st_fields) : Prop := s' = st_learn s fact.

Lemma runs_learns s facts s' : runs learns s facts s' ↔ s' = foldl st_learn s facts.
Proof.
  revert s. induction facts as [|fact facts IH]; intros s; [done|]. cbn [runs foldl]. rewrite <- IH. unfold learns.
  split; [by intros (? & -> & ?)|by exists (st_learn s fact)].
Qed.

Lemma field_sound env : body_sound (safetensors_field env) st_field_value learns.
Proof.
  intros key json s json' s' Hj. unfold safetensors_field.
  destruct (decide (key = cstr "dtype")) as [->|H1]; [rewrite bool_decide_eq_true_2 by done|rewrite bool_decide_eq_false_2 by done].
  { destruct (se_dtype env) eqn:Em.
    2: { pose proof (string_dup_memory json 64) as Hn. destruct (yvex_json_string_dup false json 64) as [[]]; done. }
    destruct (yvex_json_string_dup true json 64) as [[value|] j] eqn:Ed; [|done]. intros [= <- <-].
    destruct (string_dup_sound _ _ _ Ed) as (ws & raw & text & rest & Hws & Hc & Hl & E & -> & ->).
    exists ws, (34 :: raw ++ [34]), rest, (FactDtype text). by split_and!; [|constructor|..]. }
  destruct (decide (key = cstr "shape")) as [->|H2]; [rewrite bool_decide_eq_true_2 by done|rewrite bool_decide_eq_false_2 by done].
  { destruct (safetensors_shape json) as [[dims|] j] eqn:Ed; [|done]. intros [= <- <-].
    destruct (shape_sound _ _ _ Ed) as (ws & text & rest & Hws & Hs & E & ->).
    exists ws, text, rest, (FactShape dims). by split_and!; [|constructor|..]. }
  destruct (decide (key = cstr "data_offsets")) as [->|H3]; [rewrite bool_decide_eq_true_2 by done|rewrite bool_decide_eq_false_2 by done].
  { destruct (safetensors_offsets json) as [[[a b]|] j] eqn:Ed; [|done]. intros [= <- <-].
    destruct (offsets_sound _ _ _ _ Ed) as (ws & text & rest & Hws & Hs & E & ->).
    exists ws, text, rest, (FactOffsets a b). by split_and!; [|constructor|..]. }
  destruct (yvex_json_skip_value json) as [ok j] eqn:Ed. intros [= -> <- <-].
  destruct (skip_value_sound _ _ Ed Hj) as (ws & v & rest & Hws & Hv & E & ->).
  exists ws, v, rest, FactOther. by split_and!; [|constructor|..].
Qed.

Lemma field_complete env : se_dtype env = true → body_complete (safetensors_field env) st_field_value learns.
Proof.
  intros Hm key v x s s' json ws rest Hv Hj E Hws Hs ->. unfold safetensors_field. rewrite Hm.
  destruct Hv as [raw text Hc Hl|text dims Ht|text a b Ht|key text H1 H2 H3 Hv].
  - rewrite bool_decide_eq_true_2 by done. destruct (string_dup_read json ws raw text rest 64) as [spare ->]; [done..|lia|].
    rewrite c_text_terminated by by eapply json_chars_nonzero. done.
  - rewrite bool_decide_eq_false_2, bool_decide_eq_true_2 by done. by rewrite (shape_complete json ws text dims rest).
  - rewrite !bool_decide_eq_false_2, bool_decide_eq_true_2 by done. by rewrite (offsets_complete json ws text a b rest).
  - rewrite !bool_decide_eq_false_2 by done. by rewrite (skip_value_complete json ws text rest).
Qed.

(** The extent read so far is in order, and the shape within the cap. *)
Definition fields_ok (fields : st_fields) : Prop :=
  match sf_offsets fields with Some (first, last) => 0 ≤ first ≤ last | None => True end ∧
  match sf_shape fields with Some dims => (length dims ≤ YVEX_NATIVE_WEIGHT_MAX_DIMS)%nat | None => True end.

Lemma st_u64_range text v : st_u64 text v → is_u64 v.
Proof.
  intros ([_ Hd] & -> & Hle). pose proof (digits_value_le 0 text Hd ltac:(lia)). split; lia.
Qed.

Lemma field_value_ok key text fact s : st_field_value key text fact → fields_ok s → fields_ok (st_learn s fact).
Proof.
  intros [raw t _ _|t dims Hs|t a b Ho|k t _ _ _ _] [H1 H2]; [by split| | |by split].
  - split; [done|]. destruct Hs as [|? ? _ Hl]; [apply Nat.le_0_l|done].
  - destruct Ho as [? ? ? ? ? ? ? ? _ Ha _ _ _ _ Hle]. apply st_u64_range in Ha. split; [cbn; ulia|done].
Qed.

Lemma plain_shorter json ws v rest :
  json_plain json → js_cursor json = ws ++ v ++ rest →
  json_plain (json <| js_cursor := rest |>) ∧ (length (js_cursor (json <| js_cursor := rest |>)) ≤ length (js_cursor json))%nat.
Proof. intros Hj E. assert (length rest ≤ length (js_cursor json))%nat by (rewrite E; length_lia). split; [by apply plain_rest|done]. Qed.

Lemma field_total env key json s :
  fields_ok s → json_plain json → ∃ ok json' s', safetensors_field env key json s = Some (ok, json', s') ∧ fields_ok s' ∧
     (ok = true → json_plain json' ∧ (length (js_cursor json') ≤ length (js_cursor json))%nat).
Proof.
  intros Hs Hj. assert (∃ r, safetensors_field env key json s = Some r) as [[[ok json'] s'] E].
  { unfold safetensors_field. repeat case_match; by eexists. }
  exists ok, json', s'. destruct ok.
  - destruct (field_sound env key json s json' s' Hj E) as (ws & v & rest & x & _ & Hv & Ec & -> & ->).
    split; [done|]. split; [by eapply field_value_ok|]. intros _. by eapply plain_shorter.
  - split; [done|]. split; [|done]. revert E. unfold safetensors_field. repeat case_match; intros; simplify_eq; done.
Qed.

Lemma fields_empty_ok : fields_ok st_fields_empty.
Proof. done. Qed.

Lemma iter_begin_object json ws rest :
  js_cursor json = ws ++ 123 :: rest → spaces ws →
  yvex_json_iter_begin json YVEX_JSON_COLLECTION_OBJECT = (Some (json_at YVEX_JSON_COLLECTION_OBJECT 0), json <| js_cursor := rest |>).
Proof. intros E Hws. unfold yvex_json_iter_begin. by rewrite (space_app json ws (123 :: rest)). Qed.

(** An entry that is read is a tensor entry of the grammar whose row the table takes. *)
Lemma tensor_sound env json name payload_bytes shard_path t json' t' :
  safetensors_tensor env json name payload_bytes shard_path t = Some (Done tt, json', t') → json_plain json →
  ∃ ws trailing text facts dtype dims first last rest, spaces ws ∧ json_object_body st_field_value trailing text facts ∧
    foldl st_learn st_fields_empty facts = StFields (Some dtype) (Some dims) (Some (first, last)) ∧ last ≤ payload_bytes ∧
    js_cursor json = ws ++ (123 :: text) ++ rest ∧ json' = json <| js_cursor := rest |> ∧
    yvex_native_weight_table_add (se_native env) t name shard_path dtype dims first last = Some (t', Done tt).
Proof.
  unfold safetensors_tensor. intros E Hj.
  destruct (yvex_json_iter_begin json YVEX_JSON_COLLECTION_OBJECT) as [[iter|] j1] eqn:Eb; [|done].
  destruct (iter_begin_sound _ _ _ _ Eb) as (ws & rest & Hws & Ec & -> & ->). cbn [json_opening] in Ec.
  assert (json_plain (json <| js_cursor := rest |>)) as Hj1 by (apply plain_rest; [done|]; rewrite Ec; length_lia).
  destruct (json_members _ _ _ _ _ _) as [[[[item it] j2] fields]|] eqn:Em; [|done].
  destruct (sf_dtype fields) as [dtype|] eqn:E1; [|done]. destruct (sf_shape fields) as [dims|] eqn:E2; [|done].
  destruct (sf_offsets fields) as [[a b]|] eqn:E3; [|done]. destruct item; [done| |done].
  destruct (Z.ltb_spec payload_bytes b); [done|].
  eapply members_sound in Em as (text & rest' & facts & Et & -> & Hruns & _ & Htail);
    [|apply field_sound|exact Hj1|apply length_replicate|lia|destruct Hj1 as (_ & _ & ?); lia].
  apply runs_learns in Hruns. cbn [js_cursor set_field eta_expand] in Et. subst rest.
  destruct (yvex_native_weight_table_add _ _ _ _ _ _ _ _) as [[t2 rc]|] eqn:Ea; [|done].
  cbn [mbind option_bind] in E. injection E as -> <- <-.
  exists ws, (it_trailing_separator it), text, facts, dtype, dims, a, b, rest'.
  split_and!; [done|by apply members_tail_start| |lia|by rewrite Ec|done|done].
  rewrite <- Hruns. destruct fields. cbn in *. by subst.
Qed.

Lemma tensor_complete env json name payload_bytes shard_path t ws trailing text facts dtype dims first last rest t' rc :
  se_dtype env = true → json_plain json → js_cursor json = ws ++ (123 :: text) ++ rest → spaces ws →
  json_object_body st_field_value trailing text facts →
  foldl st_learn st_fields_empty facts = StFields (Some dtype) (Some dims) (Some (first, last)) → last ≤ payload_bytes →
  yvex_native_weight_table_add (se_native env) t name shard_path dtype dims first last = Some (t', rc) →
  safetensors_tensor env json name payload_bytes shard_path t = Some (rc, json <| js_cursor := rest |>, t').
Proof.
  intros Hm Hj E Hws Hbody Hfacts Hlast Hadd. unfold safetensors_tensor.
  rewrite (iter_begin_object json ws (text ++ rest)) by (done || (rewrite E; by app_norm)).
  destruct Hbody as [ws1 _ _|text facts Hrest]; [done|].
  assert (length (text ++ rest) ≤ length (js_cursor json))%nat as Hlen by (rewrite E; length_lia).
  pose proof (plain_rest json (text ++ rest) Hj Hlen) as Hj1. set (j1 := json <| js_cursor := text ++ rest |>) in *.
  change (js_cursor j1) with (text ++ rest).
  destruct (rest_complete (safetensors_field env) st_field_value learns trailing text facts (field_complete env Hm) Hrest
    (S (length (text ++ rest))) 0 j1 (replicate YVEX_JSON_KEY_CAP 0) st_fields_empty
    (foldl st_learn st_fields_empty facts) [] rest) as (iter & -> & _); [done|apply length_replicate|done| |length_lia|done|done|by apply runs_learns|].
  { destruct Hj1 as (_ & _ & Hl). cbn in Hl. rewrite length_app in Hl. lia. }
  rewrite Hfacts. cbn [sf_dtype sf_shape sf_offsets]. rewrite (proj2 (Z.ltb_ge _ _)) by done. by rewrite Hadd.
Qed.

(** What reading entries keeps: the table in order, and the rows it had. *)
Definition header_inv (t0 : yvex_native_weight_table) (t : yvex_native_weight_table) : Prop :=
  native_ok t ∧ nt_items t0 `prefix_of` nt_items t ∧ nt_finalized t = nt_finalized t0.

Lemma add_inv env t0 t row t' rc :
  header_inv t0 t → add_answers env t row (Some (t', rc)) → header_inv t0 t'.
Proof.
  intros (Hok & Hp & Hf) (t1 & r & [= <- <-] & Hok' & Hr). split; [done|]. destruct rc as [[]|].
  - destruct Hr as [_ [Hi Hfin _ _ _ _ _]]. rewrite Hi, Hfin. split; [by apply prefix_app_r|done].
  - destruct Hr as [(Hi & _ & _ & Hfin & _) _]. by rewrite Hi, Hfin.
Qed.

Lemma tensor_total env json name payload_bytes shard_path t0 t :
  header_inv t0 t → json_plain json → payload_bytes ≤ ULLONG_MAX →
  ∃ rc json' t', safetensors_tensor env json name payload_bytes shard_path t = Some (rc, json', t') ∧ header_inv t0 t'.
Proof.
  intros Hinv Hj Hpb. unfold safetensors_tensor.
  destruct (yvex_json_iter_begin json YVEX_JSON_COLLECTION_OBJECT) as [[iter|] j1] eqn:Eb; [|by eexists _, _, _].
  destruct (iter_begin_sound _ _ _ _ Eb) as (ws & rest & Hws & Ec & -> & ->).
  change (js_cursor (json <| _ := _ |>)) with rest.
  destruct (members_total (safetensors_field env) fields_ok (λ key json s Hs Hj, field_total env key json s Hs Hj)
    (S (length rest)) 0 (json <| js_cursor := rest |>) (replicate YVEX_JSON_KEY_CAP 0) st_fields_empty)
    as (item & iter & j2 & fields & -> & Hext); [done|apply plain_rest; [done|rewrite Ec; length_lia]|apply length_replicate|cbn; lia|].
  destruct (sf_dtype fields) as [dtype|]; [|by eexists _, _, _]. destruct (sf_shape fields) as [dims|]; [|by eexists _, _, _].
  destruct Hext as [Hext _]. destruct (sf_offsets fields) as [[a b]|]; [|by eexists _, _, _].
  destruct item; [by eexists _, _, _| |by eexists _, _, _]. destruct (Z.ltb_spec payload_bytes b); [by eexists _, _, _|].
  pose proof (native_add_exact (se_native env) t name shard_path dtype dims a b ltac:(apply Hinv) ltac:(lia) ltac:(lia)) as Hadd.
  pose proof Hadd as (t' & rc & E & _). rewrite E in Hadd |- *. cbn [mbind option_bind].
  exists rc, j2, t'. split; [done|]. by eapply add_inv.
Qed.

(** ** Headers *)

Definition st_takes (env : st_env) (shard_path : list Z) (s : yvex_native_weight_table * outcome unit)
    (entry : option (list Z * list Z * list Z * Z * Z)) (s' : yvex_native_weight_table * outcome unit) : Prop :=
  s'.2 = Done tt ∧
  match entry with
  | None => s'.1 = s.1
  | Some (name, dtype, dims, first, last) =>
      yvex_native_weight_table_add (se_native env) s.1 name shard_path dtype dims first last = Some (s'.1, Done tt)
  end.

Lemma entry_sound env payload_bytes shard_path :
  body_sound (safetensors_entry env payload_bytes shard_path) (st_entry_value payload_bytes) (st_takes env shard_path).
Proof.
  intros key json [t rc] json' [t' rc'] Hj. unfold safetensors_entry.
  destruct (decide (key = cstr "__metadata__")) as [->|Hk]; [rewrite bool_decide_eq_true_2 by done|rewrite bool_decide_eq_false_2 by done].
  - destruct (yvex_json_skip_value json) as [ok j] eqn:Ed. intros [= -> <- <- <-].
    destruct (skip_value_sound _ _ Ed Hj) as (ws & v & rest & Hws & Hv & E & ->).
    exists ws, v, rest, None. by split_and!; [|constructor|..].
  - destruct (safetensors_tensor _ _ _ _ _ _) as [[[r j] t1]|] eqn:Et; [|done]. cbn [mbind option_bind].
    destruct r as [[]|]; [|done]. intros [= <- <- <-].
    destruct (tensor_sound _ _ _ _ _ _ _ _ Et Hj)
      as (ws & trailing & text & facts & dtype & dims & a & b & rest & Hws & Hbody & Hf & Hb & E & -> & Hadd).
    exists ws, (123 :: text), rest, (Some (key, dtype, dims, a, b)). split; [done|].
    split; [by eapply entry_tensor|by split_and!].
Qed.

Lemma entry_complete env payload_bytes shard_path :
  se_dtype env = true →
  body_complete (safetensors_entry env payload_bytes shard_path) (st_entry_value payload_bytes) (st_takes env shard_path).
Proof.
  intros Hm key v x [t rc] [t' rc'] json ws rest Hv Hj E Hws Hs [Hrc HR]. cbn in Hrc, HR. subst rc'. unfold safetensors_entry.
  destruct Hv as [text Hv|key trailing text facts dtype dims a b Hk Hbody Hf Hb].
  - rewrite bool_decide_eq_true_2 by done. rewrite (skip_value_complete json ws text rest) by done. by subst t'.
  - rewrite bool_decide_eq_false_2 by done.
    by rewrite (tensor_complete env json key payload_bytes shard_path t ws trailing text facts dtype dims a b rest t' (Done tt)).
Qed.

Lemma entry_total env payload_bytes shard_path t0 key json s :
  payload_bytes ≤ ULLONG_MAX → header_inv t0 s.1 → json_plain json →
  ∃ ok json' s', safetensors_entry env payload_bytes shard_path key json s = Some (ok, json', s') ∧ header_inv t0 s'.1 ∧
    (ok = true → json_plain json' ∧ (length (js_cursor json') ≤ length (js_cursor json))%nat).
Proof.
  intros Hpb Hinv Hj. destruct s as [t rc]. cbn in Hinv.
  assert (∃ ok json' s', safetensors_entry env payload_bytes shard_path key json (t, rc) = Some (ok, json', s') ∧ header_inv t0 s'.1)
    as (ok & json' & s' & E & Hinv').
  { unfold safetensors_entry. case_bool_decide.
    - destruct (yvex_json_skip_value json) as [ok j]. by eexists _, _, _.
    - destruct (tensor_total env json key payload_bytes shard_path t0 t Hinv Hj Hpb) as (r & j & t' & -> & Hi).
      cbn [mbind option_bind]. by eexists _, _, _. }
  exists ok, json', s'. split; [done|]. split; [done|]. intros ->.
  destruct (entry_sound env payload_bytes shard_path key json _ _ _ Hj E) as (ws & v & rest & x & _ & _ & Ec & -> & _).
  by eapply plain_shorter.
Qed.

(** What a derivation says of each member. *)
Lemma object_rest_values {X} (value : list Z → list Z → X → Prop) trailing text xs :
  json_object_rest value trailing text xs → ∀ x, x ∈ xs → ∃ key v, value key v x.
Proof.
  induction 1 as [m ws x [? ? ? ? ? ? ? ? ? ? ? ? Hv]|m ws ws1 x [? ? ? ? ? ? ? ? ? ? ? ? Hv]|m ws x text xs [? ? ? ? ? ? ? ? ? ? ? ? Hv] _ _ IH];
    intros y; rewrite ?list_elem_of_singleton, ?elem_of_cons; naive_solver.
Qed.

Lemma object_body_values {X} (value : list Z → list Z → X → Prop) trailing text xs x :
  json_object_body value trailing text xs → x ∈ xs → ∃ key v, value key v x.
Proof. intros [|? ? H]; [by intros ?%elem_of_nil|by apply (object_rest_values value trailing _ _ H)]. Qed.

(** The row of an entry lies in the payload. *)
Lemma entry_row payload_bytes key v name dtype dims first last shard_path :
  st_entry_value payload_bytes key v (Some (name, dtype, dims, first, last)) → payload_bytes ≤ ULLONG_MAX →
  row_ok (native_row name shard_path dtype dims first last) ∧ 0 ≤ first ∧ last ≤ payload_bytes.
Proof.
  intros Hv Hpb. inversion Hv as [|? trailing text facts ? ? ? ? Hk Hbody Hf Hb]; subst.
  assert (fields_ok (foldl st_learn st_fields_empty facts)) as Hok.
  { assert (∀ x, x ∈ facts → ∃ key v, st_field_value key v x) as Hall by (intros x; by eapply object_body_values).
    clear -Hall. assert (fields_ok st_fields_empty) as H by done. revert H. generalize st_fields_empty.
    induction facts as [|fact facts IH]; intros s Hs; [done|]. cbn [foldl]. apply IH; [intros; apply Hall; by right|].
    destruct (Hall fact) as (k & v & Hv); [left|]. by eapply field_value_ok. }
  rewrite Hf in Hok. destruct Hok as [He Hd]. cbn in He, Hd. split; [split; cbn; try done; lia|lia].
Qed.

Definition rows_inside (payload_bytes : Z) (rows : list yvex_native_weight_info) : Prop :=
  Forall (λ r, row_ok r ∧ nw_data_end r ≤ payload_bytes) rows.

Lemma header_rows_inside payload_bytes shard_path entries :
  payload_bytes ≤ ULLONG_MAX → (∀ entry, entry ∈ entries → ∃ key v, st_entry_value payload_bytes key v entry) →
  rows_inside payload_bytes (st_rows shard_path entries).
Proof.
  intros Hpb H. unfold rows_inside, st_rows. apply Forall_forall. intros r ([[[[name dtype] dims] a] b] & -> & Hin)%list_elem_of_fmap.
  apply list_elem_of_omap in Hin as ([x|] & Hin & [= ->]). destruct (H _ Hin) as (key & v & Hv).
  by destruct (entry_row payload_bytes key v name dtype dims a b shard_path Hv Hpb) as (Hrow & _ & Hb).
Qed.

(** What a whole run of entries leaves in the table. *)
Lemma takes_rows env shard_path entries : ∀ s s',
  runs (st_takes env shard_path) s entries s' → native_ok s.1 → (∀ row, row ∈ st_rows shard_path entries → row_ok row) →
  native_ok s'.1 ∧ nt_items s'.1 = nt_items s.1 ++ st_rows shard_path entries ∧ nt_finalized s'.1 = nt_finalized s.1 ∧
  (s.2 = Done tt → s'.2 = Done tt).
Proof.
  induction entries as [|entry entries IH]; intros s s'.
  - cbn [runs]. intros -> Hok _. cbn. by rewrite app_nil_r.
  - cbn [runs]. intros (s1 & [Hrc HR] & Hruns) Hok Hrows. destruct entry as [[[[[name dtype] dims] a] b]|].
    + assert (row_ok (native_row name shard_path dtype dims a b)) as [_ _ Hs He _] by (apply Hrows; left). cbn in Hs, He.
      destruct (native_add_exact (se_native env) s.1 name shard_path dtype dims a b Hok ltac:(lia) He) as (t' & r & E & Hok' & Hr).
      rewrite HR in E. injection E as <- <-. destruct Hr as [_ [Hi Hf _ _ _ _ _]].
      destruct (IH s1 s' Hruns Hok') as (? & Hi' & Hf' & Hd); [intros; apply Hrows; by right|].
      rewrite Hi', Hi, Hf', Hf, <- (assoc_L (++)). split_and!; [done|done|done|]. intros _. by apply Hd.
    + rewrite <- HR in *. destruct (IH s1 s' Hruns Hok) as (? & Hi' & Hf' & Hd); [done|].
      rewrite Hi', Hf'. split_and!; [done|done|done|]. intros _. by apply Hd.
Qed.

(** When a table takes all the rows of a header. *)
Record header_admissible (env : st_env) (t : yvex_native_weight_table) (rows : list yvex_native_weight_info) : Prop :=
  HeaderAdmissible {
  ha_open : nt_finalized t = false;
  ha_names : NoDup (nw_name <$> nt_items t ++ rows);
  ha_total : total (nw_data_bytes <$> nt_items t ++ rows) ≤ ULLONG_MAX;
  ha_memory : (∀ n, ne_index (se_native env) n = true) ∧ (∀ n, ne_items (se_native env) n = true) ∧
    ne_row (se_native env) = true ∧ se_dtype env = true;
  ha_count : Z.of_nat (length (nt_items t ++ rows)) ≤ 2 ^ 50;
}.

Lemma total_nonneg_rows rows : Forall row_ok rows → 0 ≤ total (nw_data_bytes <$> rows).
Proof.
  induction 1 as [|r rows Hr _ IH]; [done|]. rewrite fmap_cons, total_cons. destruct Hr. lia.
Qed.

Lemma takes_all env shard_path entries : ∀ s,
  native_ok s.1 → s.2 = Done tt → Forall row_ok (st_rows shard_path entries) →
  header_admissible env s.1 (st_rows shard_path entries) → ∃ s', runs (st_takes env shard_path) s entries s'.
Proof.
  induction entries as [|entry entries IH]; intros s Hok Hs Hrows Hadm; [by exists s|].
  destruct entry as [[[[[name dtype] dims] a] b]|].
  - change (st_rows shard_path (Some (name, dtype, dims, a, b) :: entries)) with (native_row name shard_path dtype dims a b :: st_rows shard_path entries) in *.
    set (row := native_row name shard_path dtype dims a b) in *. apply Forall_cons in Hrows as [Hrow Hrows].
    destruct Hadm as [Hopen Hnames Htot (Hm1 & Hm2 & Hm3 & Hm4) Hcount].
    destruct (native_add_exact (se_native env) s.1 name shard_path dtype dims a b Hok) as (t' & r & E & Hok' & Hr);
      [destruct Hrow; cbn in *; lia|destruct Hrow; cbn in *; lia|].
    fold row in Hr. pose proof (total_nonneg_rows _ Hrows). destruct r as [[]|st why].
    + destruct Hr as [_ [Hi Hf _ _ _ _ _]]. destruct (IH (t', Done tt)) as [s' Hs']; [done|done|done| |].
      { rewrite (cons_middle row), (assoc_L (++)), <- Hi in Hnames, Htot, Hcount. split; [by cbn; rewrite Hf|done..]. }
      exists s', (t', Done tt). by split; [split|].
    + destruct Hr as [_ []]. split.
      * split; [done|done| |].
        -- rewrite fmap_app in Hnames. apply NoDup_app in Hnames as (_ & Hn & _). intros Hin. apply (Hn _ Hin). left.
        -- rewrite fmap_app, total_app, fmap_cons, total_cons in Htot. lia.
      * split_and!; [done..|]. unfold nt_count. rewrite length_app in Hcount. lia.
  - destruct (IH s Hok Hs Hrows Hadm) as [s' Hs']. exists s', s. by split; [split|].
Qed.

Lemma header_complete env text payload_bytes shard_path t entries :
  native_ok t → payload_bytes ≤ ULLONG_MAX → Z.of_nat (length (c_text text)) ≤ ULLONG_MAX →
  st_header payload_bytes (c_text text) entries → header_admissible env t (st_rows shard_path entries) →
  ∃ t', safetensors_parse_header env text payload_bytes shard_path t = Some (t', Done tt).
Proof.
  intros Hok Hpb Hlen (ws & body & ws' & Hws & Hws' & E & Hbody & Hne) Hadm. unfold safetensors_parse_header.
  set (json := yvex_json_init (c_text text)). assert (json_plain json) as Hj by done.
  rewrite (iter_begin_object json ws (body ++ ws')) by done.
  assert (Forall row_ok (st_rows shard_path entries)) as Hrows.
  { eapply Forall_impl; [apply (header_rows_inside payload_bytes); [done|intros entry; by eapply object_body_values]|by intros ? []]. }
  destruct Hbody as [ws1 _ _|body entries Hrest]; [done|].
  destruct (takes_all env shard_path entries (t, Done tt) Hok eq_refl Hrows Hadm) as [[t' rc] Hruns].
  destruct (takes_rows env shard_path entries _ _ Hruns Hok) as (_ & _ & _ & Hd); [by apply Forall_forall|]. specialize (Hd eq_refl). cbn in Hd. subst rc.
  set (j1 := json <| js_cursor := body ++ ws' |>). change (js_cursor j1) with (body ++ ws').
  assert (json_plain j1) as Hj1 by (apply plain_rest; [done|]; change (js_cursor json) with (c_text text); rewrite E; length_lia).
  destruct (rest_complete (safetensors_entry env payload_bytes shard_path) (st_entry_value payload_bytes) (st_takes env shard_path)
    false body entries (entry_complete env payload_bytes shard_path ltac:(apply Hadm)) Hrest
    (S (length (body ++ ws'))) 0 j1 (replicate YVEX_JSON_KEY_CAP 0) (t, Done tt) (t', Done tt) [] ws')
    as (iter & -> & -> & ->); [done|apply length_replicate|done| |length_lia|done|done|done|].
  { destruct Hj1 as (_ & _ & Hl). change (js_cursor j1) with (body ++ ws') in Hl. rewrite length_app in Hl. lia. }
  rewrite (proj2 (Z.eqb_neq _ 0)) by (destruct entries; [done|cbn [length]; lia]).
  rewrite (proj2 (complete_spec _)) by done. by exists t'.
Qed.

Lemma header_sound env text payload_bytes shard_path t t' :
  safetensors_parse_header env text payload_bytes shard_path t = Some (t', Done tt) →
  native_ok t → payload_bytes ≤ ULLONG_MAX → Z.of_nat (length (c_text text)) ≤ ULLONG_MAX →
  ∃ entries, st_header payload_bytes (c_text text) entries ∧ nt_items t' = nt_items t ++ st_rows shard_path entries ∧
    rows_inside payload_bytes (st_rows shard_path entries).
Proof.
  unfold safetensors_parse_header. set (json := yvex_json_init (c_text text)). intros E Hok Hpb Hlen.
  assert (json_plain json) as Hj by done.
  destruct (yvex_json_iter_begin json YVEX_JSON_COLLECTION_OBJECT) as [[iter|] j1] eqn:Eb; [|done].
  destruct (iter_begin_sound _ _ _ _ Eb) as (ws & rest & Hws & Ec & -> & ->).
  assert (json_plain (json <| js_cursor := rest |>)) as Hj1 by (apply plain_rest; [done|]; rewrite Ec; length_lia).
  destruct (json_members _ _ _ _ _ _) as [[[[item it] j2] [t2 rc]]|] eqn:Em; [|done].
  destruct rc as [[]|]; [|done]. destruct item; [done| |done].
  destruct (it_trailing_separator it) eqn:Et; [done|]. destruct (Z.eqb_spec (it_count it) 0) as [|Hcount]; [done|].
  destruct (yvex_json_complete j2).1 eqn:Ecomp; [|done]. injection E as <-.
  eapply members_sound in Em as (body & ws' & entries & Er & -> & Hruns & Hc & Htail);
    [|apply entry_sound|exact Hj1|apply length_replicate|lia|destruct Hj1 as (_ & _ & ?); lia].
  apply complete_spec in Ecomp as [Hws' _]. cbn [js_cursor set_field eta_expand] in *. subst rest. rewrite Et in Htail.
  apply members_tail_start in Htail.
  assert (rows_inside payload_bytes (st_rows shard_path entries)) as Hin.
  { apply header_rows_inside; [done|]. intros entry. by eapply object_body_values. }
  destruct (takes_rows env shard_path entries _ _ Hruns Hok) as (_ & Hi & _ & _).
  { intros row Hrow. unfold rows_inside in Hin. rewrite Forall_forall in Hin. by apply Hin. }
  exists entries. split; [|by split]. exists ws, body, ws'. split_and!; [done..|by intros ->].
Qed.

Lemma header_total env text payload_bytes shard_path t :
  native_ok t → payload_bytes ≤ ULLONG_MAX → Z.of_nat (length (c_text text)) ≤ ULLONG_MAX →
  ∃ t' r, safetensors_parse_header env text payload_bytes shard_path t = Some (t', r) ∧ header_inv t t'.
Proof.
  intros Hok Hpb Hlen. assert (header_inv t t) as Hinv by done. unfold safetensors_parse_header.
  set (json := yvex_json_init (c_text text)). assert (json_plain json) as Hj by done.
  destruct (yvex_json_iter_begin json YVEX_JSON_COLLECTION_OBJECT) as [[iter|] j1] eqn:Eb; [|by eexists _, _].
  destruct (iter_begin_sound _ _ _ _ Eb) as (ws & rest & Hws & Ec & -> & ->).
  change (js_cursor (json <| _ := _ |>)) with rest.
  destruct (members_total (safetensors_entry env payload_bytes shard_path) (λ s, header_inv t s.1)
    (λ key json s Hs Hj, entry_total env payload_bytes shard_path t key json s Hpb Hs Hj)
    (S (length rest)) 0 (json <| js_cursor := rest |>) (replicate YVEX_JSON_KEY_CAP 0) (t, Done tt))
    as (item & it & j2 & [t2 rc] & -> & Hinv2); [done|apply plain_rest; [done|rewrite Ec; length_lia]|apply length_replicate|cbn; lia|].
  by eexists _, _.
Qed.

(** ** Files *)

(** A file that starts with a length, a header of that length, and the payload its size leaves. *)
Record st_file (file : header_file) (header : list Z) (payload_bytes : Z) : Prop := StFile {
  fl_opens : hf_regular file = true ∧ hf_stream file = true;
  fl_bytes : le_bytes 8 (Z.of_nat (length header)) ++ header `prefix_of` hf_bytes file;
  fl_length : 0 < Z.of_nat (length header) ≤ 64 * 1024 * 1024;
  fl_size : hf_size file = 8 + Z.of_nat (length header) + payload_bytes;
  fl_payload : 0 ≤ payload_bytes;
}.

Lemma file_header file header payload_bytes :
  st_file file header payload_bytes →
  (length (hf_bytes file) <? 8)%nat = false ∧ st_le64 (take 8 (hf_bytes file)) = Z.of_nat (length header) ∧
  take (length header) (drop 8 (hf_bytes file)) = header.
Proof.
  intros [_ [rest E] Hl _ _]. pose proof (length_le_bytes 8 (Z.of_nat (length header))) as Hle.
  rewrite E, <- (assoc_L (++)). split_and!.
  - apply Nat.ltb_ge. rewrite length_app, Hle. lia.
  - rewrite take_app_length' by done. unfold st_le64. apply load_le_bytes. change (256 ^ Z.of_nat 8) with 18446744073709551616. lia.
  - rewrite drop_app_length' by done. by rewrite take_app_length.
Qed.

Lemma native_ok_malformed t : native_ok t → native_ok (header_malformed t).
Proof. intros []. by split. Qed.

Lemma c_text_length text : (length (c_text text) ≤ length text)%nat.
Proof. induction text as [|ch text IH]; [done|]. cbn. destruct (ch =? 0); cbn; lia. Qed.

(** The text of a header: its bytes up to the first zero byte, all of them if there is none. What stands behind
    that byte is part of the header's length, and is not read. *)
Definition header_text (header text : list Z) : Prop :=
  0 ∉ text ∧ (header = text ∨ ∃ unread, header = text ++ 0 :: unread).

Lemma header_text_c header text : header_text header text ↔ text = c_text header.
Proof.
  split.
  - intros [Hn H]. assert (Forall (λ ch, ch ≠ 0) text) as Hf by (rewrite Forall_forall; by intros ch Hin ->).
    destruct H as [->|[unread ->]]; [|by rewrite c_text_terminated].
    clear Hn. induction Hf as [|ch text Hch _ IH]; [done|]. cbn. rewrite (proj2 (Z.eqb_neq ch 0)) by done. by f_equal.
  - intros ->. induction header as [|ch header IH]; [by split; [apply not_elem_of_nil|left]|]. cbn.
    destruct (Z.eqb_spec ch 0) as [->|Hch]; [split; [apply not_elem_of_nil|right; by exists header]|].
    destruct IH as [Hn IH]. split; [by rewrite not_elem_of_cons|].
    destruct IH as [E|[unread E]]; [left; by rewrite <- E|right; exists unread; cbn; by rewrite <- E].
Qed.

(** What an answer of the reader means. *)
Definition read_answers (env : st_env) (file : header_file) (shard_path : list Z) (t : yvex_native_weight_table)
    (answer : option (yvex_native_weight_table * outcome yvex_safetensors_file_facts)) : Prop :=
  ∃ t' r, answer = Some (t', r) ∧ native_ok t' ∧ nt_finalized t' = nt_finalized t ∧
    match r with
    | Done facts => ∃ header text payload_bytes entries, st_file file header payload_bytes ∧ header_text header text ∧
        st_header payload_bytes text entries ∧ nt_items t' = nt_items t ++ st_rows shard_path entries ∧
        Forall (λ r, row_ok r ∧ sx_data_region_offset facts + nw_data_end r ≤ hf_size file) (st_rows shard_path entries) ∧
        facts = FileFacts (hf_size file) (Z.of_nat (length header)) (8 + Z.of_nat (length header)) payload_bytes
    | Refused _ _ => nt_items t `prefix_of` nt_items t' ∧
        (se_header env = true → ∀ header text payload_bytes entries, st_file file header payload_bytes →
           header_text header text → st_header payload_bytes text entries → ¬ header_admissible env t (st_rows shard_path entries))
    end.

Lemma read_refuses env file shard_path t t' st why :
  native_ok t → t' = t ∨ t' = header_malformed t →
  (se_header env = true → ∀ header payload_bytes, ¬ st_file file header payload_bytes) →
  read_answers env file shard_path t (Some (t', Refused st why)).
Proof.
  intros Hok Ht Hno. exists t', (Refused st why). split; [done|]. split.
  - destruct Ht as [->| ->]; [done|by apply native_ok_malformed].
  - split; [by destruct Ht as [->| ->]|]. split; [by destruct Ht as [->| ->]|]. intros Hm header text pb entries Hf. by destruct (Hno Hm header pb).
Qed.

(** The file of the bytes that were read. *)
Lemma file_read file len :
  Forall is_u8 (hf_bytes file) → hf_regular file = true → hf_stream file = true → (8 ≤ length (hf_bytes file))%nat →
  len = st_le64 (take 8 (hf_bytes file)) → 0 < len ≤ 64 * 1024 * 1024 → len ≤ hf_size file - 8 →
  len ≤ Z.of_nat (length (take (Z.to_nat len) (drop 8 (hf_bytes file)))) →
  st_file file (take (Z.to_nat len) (drop 8 (hf_bytes file))) (hf_size file - 8 - len) ∧
  Z.of_nat (length (take (Z.to_nat len) (drop 8 (hf_bytes file)))) = len.
Proof.
  intros Hb Hr Hs H8 E Hlen Hsize Hfull. pose proof (firstn_le_length (Z.to_nat len) (drop 8 (hf_bytes file))) as Hle.
  assert (Z.of_nat (length (take (Z.to_nat len) (drop 8 (hf_bytes file)))) = len) as Hl by lia.
  split; [|done]. split; rewrite ?Hl; [done| |lia|lia|lia].
  exists (drop (Z.to_nat len) (drop 8 (hf_bytes file))). rewrite <- (assoc_L (++)), take_drop.
  assert (length (take 8 (hf_bytes file)) = 8%nat) as H8' by (rewrite length_take; lia).
  rewrite E. unfold st_le64. rewrite load_le_value by by apply Forall_take.
  pose proof (le_bytes_value (take 8 (hf_bytes file)) ltac:(by apply Forall_take)) as Hb8. rewrite H8' in Hb8.
  by rewrite Hb8, take_drop.
Qed.

Lemma file_unique file header payload_bytes header' payload_bytes' :
  st_file file header payload_bytes → st_file file header' payload_bytes' → header' = header ∧ payload_bytes' = payload_bytes.
Proof.
  intros H H'. destruct (file_header _ _ _ H) as (_ & Hl & Ht). destruct (file_header _ _ _ H') as (_ & Hl' & Ht').
  assert (length header = length header') as El by lia. rewrite <- El, Ht in Ht'. subst header'. split; [done|].
  destruct H as [_ _ _ Hs _]. destruct H' as [_ _ _ Hs' _]. lia.
Qed.

(** The header of a file, parsed. *)
Lemma read_parsed env file shard_path t t1 header payload_bytes :
  native_ok t1 → nt_items t1 = nt_items t → nt_finalized t1 = nt_finalized t → is_u64 (hf_size file) →
  st_file file header payload_bytes →
  read_answers env file shard_path t
    ('(table, rc) ← safetensors_parse_header env header payload_bytes shard_path t1;
     Some (match rc with
           | Refused st why => (header_malformed table, Refused st why)
           | Done _ => (table, Done (FileFacts (hf_size file) (Z.of_nat (length header)) (8 + Z.of_nat (length header)) payload_bytes))
           end)).
Proof.
  intros Hok Hi Hf Hsize Hfile. destruct Hfile as [H1 H2 H3 H4 H5] eqn:E. clear E.
  pose proof (c_text_length header) as Hc. assert (payload_bytes ≤ ULLONG_MAX) as Hpb by ulia.
  assert (Z.of_nat (length (c_text header)) ≤ ULLONG_MAX) as Hcl by ulia.
  destruct (header_total env header payload_bytes shard_path t1 Hok Hpb Hcl) as (t' & r & Er & Hok' & Hp & Hfin).
  rewrite Er. cbn [mbind option_bind]. destruct r as [[]|st why]; eexists _, _; (split; [done|]).
  - split; [done|]. split; [congruence|]. destruct (header_sound _ _ _ _ _ _ Er Hok Hpb Hcl) as (entries & Hh & Hi' & Hin).
    exists header, (c_text header), payload_bytes, entries. rewrite Hi', Hi. split_and!; [done|by apply header_text_c|done|done| |done].
    eapply Forall_impl; [exact Hin|]. intros r [Hrow Hend]. split; [done|]. cbn. lia.
  - split; [by apply native_ok_malformed|]. split; [by cbn; congruence|]. cbn. rewrite <- Hi. split; [done|]. intros _ header' text pb' entries Hf' ->%header_text_c Hh' Hadm.
    destruct (file_unique _ _ _ _ _ Hfile Hf') as [-> ->].
    destruct (header_complete env header payload_bytes shard_path t1 entries Hok Hpb Hcl Hh') as [t2 E2]; [|congruence].
    destruct Hadm. split; by rewrite ?Hi, ?Hf.
Qed.

Lemma read_header_exact env file shard_path t :
  native_ok t → is_u64 (hf_size file) → Forall is_u8 (hf_bytes file) →
  read_answers env file shard_path t (yvex_safetensors_read_header_file_with_facts env file shard_path t).
Proof.
  intros Hok Hsize Hbytes. unfold yvex_safetensors_read_header_file_with_facts.
  destruct (negb (hf_regular file) || (hf_size file <? 8)) eqn:E1.
  { apply read_refuses; [done|by right|]. intros _ header pb [[Hr _] _ Hl Hs Hp]. rewrite Hr, Hs in E1. apply Z.ltb_lt in E1. lia. }
  apply orb_false_iff in E1 as [Hreg%negb_false_iff E1%Z.ltb_ge].
  destruct (hf_stream file) eqn:Hstream; cbn [negb].
  2: { apply read_refuses; [done|by left|]. intros _ header pb [[_ Hr] _ _ _ _]. congruence. }
  destruct (length (hf_bytes file) <? 8)%nat eqn:E2.
  { apply read_refuses; [done|by right|]. intros _ header pb Hf. destruct (file_header _ _ _ Hf) as (Hc & _). congruence. }
  set (len := st_le64 (take 8 (hf_bytes file))).
  destruct (_ || (64 * 1024 * 1024 <? len)) eqn:E3.
  { apply read_refuses; [done|by right|]. intros _ header pb Hf. destruct (file_header _ _ _ Hf) as (_ & Hlen & _).
    fold len in Hlen. destruct Hf as [_ _ Hl Hs Hp]. rewrite Hlen in E3. guards. lia. }
  destruct (se_header env) eqn:Hm; cbn [negb].
  2: { apply read_refuses; [done|by left|]. congruence. }
  set (header := take (Z.to_nat len) (drop 8 (hf_bytes file))).
  destruct (Z.ltb_spec (Z.of_nat (length header)) len) as [Hshort|Hfull].
  { apply read_refuses; [done|by right|]. intros _ header' pb Hf. destruct (file_header _ _ _ Hf) as (_ & Hlen & Ht).
    fold len in Hlen. unfold header in Hshort. rewrite Hlen, Nat2Z.id, Ht in Hshort. lia. }
  assert (len ≠ 0 ∧ len ≤ hf_size file - 8 ∧ len ≤ 64 * 1024 * 1024) as (Hl1 & Hl2 & Hl3) by (clear Hfull; guards; lia).
  assert (0 ≤ len) as Hl0.
  { unfold len, st_le64. rewrite load_le_value by by apply Forall_take.
    by destruct (le_value_range (take 8 (hf_bytes file)) ltac:(by apply Forall_take)). }
  destruct (file_read file len) as [Hfile Hl]; [done|done|done|apply Nat.ltb_ge in E2; lia|done|lia|lia|done|].
  fold header in Hfile, Hl.
  match goal with |- context [safetensors_parse_header _ _ _ _ ?t1] =>
    pose proof (read_parsed env file shard_path t t1 header (hf_size file - 8 - len)) as H end.
  rewrite Hl in H. apply H; [|done..]. destruct Hok. by split.
Qed.

(** C30: a safetensors file is read without a fault, and what is read is what the file says: after eight bytes of length
    comes a header of that length, whose text, the bytes before its first zero byte or all of them if it has none, is one
    JSON object of entries of the grammar, each tensor with a type, a shape of at most eight dimensions and an extent
    inside the payload; bytes behind a zero byte of the header are not read, whatever they are. The table gains exactly
    the rows the text declares, in its order, each inside the file, and stays in order. Conversely, once memory for the header is
    given, a file whose header has such a text is refused only when the table cannot take its rows: sealed, a name twice,
    a total over 64 bits, more than 2^50 rows, or memory refused. A refusal keeps the rows there were. *)
Theorem safetensors_read_exact env file shard_path t :
  native_ok t → is_u64 (hf_size file) → Forall is_u8 (hf_bytes file) →
  read_answers env file shard_path t (yvex_safetensors_read_header_file_with_facts env file shard_path t).
Proof. apply read_header_exact. Qed.

(** A text with its quotes written as apostrophes. *)
Definition quoted (s : string) : list Z := (λ ch, if ch =? 39 then 34 else ch) <$> cstr s.

Definition sample_file (header : list Z) (payload_bytes : Z) : header_file :=
  HeaderFile true (8 + Z.of_nat (length header) + payload_bytes) true (le_bytes 8 (Z.of_nat (length header)) ++ header).

Definition sample_header : list Z :=
  quoted "{'__metadata__':{'format':'pt'},'w':{'dtype':'F32','shape':[2,3],'data_offsets':[0,24]}}".

Definition sample_st_env : st_env := StEnv sample_native_env true true true.

(** The sample file gives one row of 24 bytes. *)
Lemma safetensors_read_exact_witness :
  read_answers sample_st_env (sample_file sample_header 24) (cstr "a.safetensors") native_table_empty
    (yvex_safetensors_read_header_file_with_facts sample_st_env (sample_file sample_header 24) (cstr "a.safetensors")
       native_table_empty) ∧
  (∃ t facts, yvex_safetensors_read_header_file_with_facts sample_st_env (sample_file sample_header 24) (cstr "a.safetensors")
       native_table_empty = Some (t, Done facts) ∧
     nt_items t = [native_row (cstr "w") (cstr "a.safetensors") (cstr "F32") [2; 3] 0 24] ∧ sx_payload_bytes facts = 24).
Proof.
  split.
  - apply (safetensors_read_exact sample_st_env (sample_file sample_header 24) (cstr "a.safetensors") native_table_empty).
    + exact native_ok_empty.
    + vm_compute. split; discriminate.
    + apply Forall_app. split; [apply le_bytes_range|]. unfold sample_header, quoted. apply Forall_fmap.
      eapply Forall_impl; [apply cstr_range|]. intros ch Hch. unfold compose. destruct (ch =? 39); [ulia|exact Hch].
  - eexists _, _. split; [vm_compute; reflexivity|]. split; vm_compute; reflexivity.
Defined.

(** A comma may end a tensor entry, and not the header; what follows a zero byte is not read. *)
Example tensor_comma :
  (λ r, match r.2 with Done _ => true | _ => false end) <$>
    (safetensors_parse_header sample_st_env (quoted "{'w':{'dtype':'F32','shape':[],'data_offsets':[0,4],}}") 4 [] native_table_empty)
    = Some true.
Proof. vm_compute. reflexivity. Qed.

Example header_comma :
  (λ r, match r.2 with Done _ => true | _ => false end) <$>
    (safetensors_parse_header sample_st_env (quoted "{'w':{'dtype':'F32','shape':[],'data_offsets':[0,4]},}") 4 [] native_table_empty)
    = Some false.
Proof. vm_compute. reflexivity. Qed.

Example header_after_zero :
  (λ r, match r.2 with Done _ => true | _ => false end) <$>
    (safetensors_parse_header sample_st_env
       (quoted "{'w':{'dtype':'F32','shape':[],'data_offsets':[0,4]}}" ++ 0 :: quoted "{[") 4 [] native_table_empty)
    = Some true.
Proof. vm_compute. reflexivity. Qed.
