(* ===== verification/SourceTable.v ===== *)
(** Opening the native table of a source directory, [yvex_native_weight_table_open] of [src/source/native_weights.c]:
    the directory is scanned, the headers of its safetensors files are read, and the table is sealed.

    The directory is a tree; a listing holds its entries in the order [readdir] gives them. *)

From S2P Require Import Prelude Status Exec Json JsonGrammar JsonObject HashIndex NativeTable Safetensors.
From stdpp Require Import sorting.
#[local] Open Scope Z_scope.

(** What [lstat] says of an entry: nothing, a directory and its listing where it can be opened, a regular file, or
    something else. *)
Inductive dir_entry : Type :=
  | EntryUnknown (name : list Z)
  | EntryDirectory (name : list Z) (listing : option (list dir_entry))
  | EntryRegular (name : list Z) (file : header_file)
  | EntryOther (name : list Z).

Definition entry_name (entry : dir_entry) : list Z :=
  match entry with EntryUnknown n | EntryDirectory n _ | EntryRegular n _ | EntryOther n => n end.

(** src/src/source/verify.c, [yvex_source_path_alloc] *)
Definition yvex_source_path (left_ right_ : list Z) : list Z :=
  left_ ++ (if bool_decide (last left_ = Some 47) then [] else [47]) ++ right_.

(** src/src/source/verify.c, [yvex_source_ends_with] *)
Definition yvex_source_ends_with (text suffix : list Z) : bool :=
  (length suffix <=? length text)%nat && bool_decide (drop (length text - length suffix) text = suffix).

(** The path of an entry below the root.
    src/src/source/native_weights.c:298-300, [nw_scan_dir] *)
Definition scan_path (rel_dir name : list Z) : list Z :=
  if bool_decide (rel_dir = []) then name else yvex_source_path rel_dir name.

(** src/src/source/safetensors_header.c, [yvex_safetensors_read_header_file] *)
Definition yvex_safetensors_read_header_file (env : st_env) (file : header_file) (shard_path : list Z)
    (table : yvex_native_weight_table) : option (yvex_native_weight_table * outcome unit) :=
  '(table, rc) ← yvex_safetensors_read_header_file_with_facts env file shard_path table;
  Some (table, match rc with Done _ => Done tt | Refused st why => Refused st why end).

(** A safetensors file met by the scan.
    src/src/source/native_weights.c:315-317, [nw_scan_dir] *)
Definition scan_file (env : st_env) (file : header_file) (path : list Z) (table : yvex_native_weight_table)
    : option (yvex_native_weight_table * outcome unit) :=
  if yvex_source_ends_with path (cstr ".safetensors") then
    yvex_safetensors_read_header_file env file path
      (table <| nt_summary ::= λ s, s <| ns_shard_count ::= λ n, u64 (n + 1) |> |>)
  else Some (table, Done tt).

(** The entries of a listing, until one is refused. *)
Fixpoint scan_listing (scan : dir_entry → yvex_native_weight_table → option (yvex_native_weight_table * outcome unit))
    (entries : list dir_entry) (table : yvex_native_weight_table) : option (yvex_native_weight_table * outcome unit) :=
  match entries with
  | [] => Some (table, Done tt)
  | entry :: entries =>
      '(table, rc) ← scan entry table;
      match rc with Refused st why => Some (table, Refused st why) | Done _ => scan_listing scan entries table end
  end.

(** One entry of a listing; a directory below is scanned with [nw_scan_dir] where the scan is recursive.
    src/src/source/native_weights.c:291-324, [nw_scan_dir] *)
Fixpoint nw_scan_entry (env : st_env) (recursive : bool) (rel_dir : list Z) (entry : dir_entry)
    (table : yvex_native_weight_table) : option (yvex_native_weight_table * outcome unit) :=
  if bool_decide (entry_name entry = cstr ".") || bool_decide (entry_name entry = cstr "..") then Some (table, Done tt)
  else if negb (se_path env) then Some (table, Refused YVEX_ERR_NOMEM "scan path allocation failed")
  else
    let path := scan_path rel_dir (entry_name entry) in
    match entry with
    | EntryUnknown _ => Some (table, Refused YVEX_ERR_IO "cannot stat path")
    | EntryDirectory _ listing =>
        if recursive then
          match listing with
          | None => Some (table, Refused YVEX_ERR_IO "cannot open source directory")
          | Some entries => scan_listing (nw_scan_entry env recursive path) entries table
          end
        else Some (table, Done tt)
    | EntryRegular _ file => scan_file env file path table
    | EntryOther _ => Some (table, Done tt)
    end.

(** src/src/source/native_weights.c, [nw_scan_dir] *)
Definition nw_scan_dir (env : st_env) (recursive : bool) (rel_dir : list Z) (listing : option (list dir_entry))
    (table : yvex_native_weight_table) : option (yvex_native_weight_table * outcome unit) :=
  if negb (se_path env) then Some (table, Refused YVEX_ERR_NOMEM "directory path allocation failed")
  else match listing with
       | None => Some (table, Refused YVEX_ERR_IO "cannot open source directory")
       | Some entries => scan_listing (nw_scan_entry env recursive rel_dir) entries table
       end.

(** The sealed table; a table that is refused is closed. [root] is the listing of the source directory where it is one,
    and [table_memory] what the allocator answers for the table.
    src/src/source/native_weights.c, [yvex_native_weight_table_open] *)
Definition yvex_native_weight_table_open (env : st_env) (table_memory : bool) (root : option (option (list dir_entry)))
    (recursive : bool) : option (outcome yvex_native_weight_table) :=
  match root with
  | None => Some (Refused YVEX_ERR_IO "source directory not found")
  | Some listing =>
      if negb table_memory then Some (Refused YVEX_ERR_NOMEM "native weight table allocation failed")
      else
        '(table, rc) ← nw_scan_dir env recursive [] listing native_table_empty;
        match rc with
        | Refused st why => Some (Refused st why)
        | Done _ =>
            '(table, rc) ← yvex_native_weight_table_finalize (se_native env) table;
            Some (match rc with Refused st why => Refused st why | Done _ => Done table end)
        end
  end.

(** * What a scan reads *)

(** The shards of a tree, in the order of the scan. *)
Fixpoint entry_shards (recursive : bool) (rel_dir : list Z) (entry : dir_entry) : list (list Z * header_file) :=
  if bool_decide (entry_name entry = cstr ".") || bool_decide (entry_name entry = cstr "..") then []
  else
    let path := scan_path rel_dir (entry_name entry) in
    match entry with
    | EntryDirectory _ (Some entries) => if recursive then entries ≫= entry_shards recursive path else []
    | EntryRegular _ file => if yvex_source_ends_with path (cstr ".safetensors") then [(path, file)] else []
    | _ => []
    end.

(** The rows a shard declares. *)
Definition shard_rows (shard : list Z * header_file) (rows : list yvex_native_weight_info) : Prop :=
  ∃ header payload_bytes entries, st_file shard.2 header payload_bytes ∧
    st_header payload_bytes (c_text header) entries ∧ rows = st_rows shard.1 entries ∧
    Forall (λ r, row_ok r ∧ 8 + Z.of_nat (length header) + nw_data_end r ≤ hf_size shard.2) rows.

(** Induction over a tree. *)
Lemma dir_entry_induction (P : dir_entry → Prop) :
  (∀ name, P (EntryUnknown name)) → (∀ name, P (EntryDirectory name None)) →
  (∀ name entries, Forall P entries → P (EntryDirectory name (Some entries))) →
  (∀ name file, P (EntryRegular name file)) → (∀ name, P (EntryOther name)) → ∀ entry, P entry.
Proof.
  intros H1 H2 H3 H4 H5. fix IH 1. intros [name|name [entries|]|name file|name]; [apply H1| |apply H2|apply H4|apply H5].
  apply H3. induction entries as [|entry entries IHe]; constructor; [apply IH|exact IHe].
Qed.

Definition shard_wf (shard : list Z * header_file) : Prop := is_u64 (hf_size shard.2) ∧ Forall is_u8 (hf_bytes shard.2).

(** What a part of the scan leaves in the table. *)
Definition scanned (shards : list (list Z * header_file)) (t : yvex_native_weight_table)
    (answer : option (yvex_native_weight_table * outcome unit)) : Prop :=
  ∃ t' rc, answer = Some (t', rc) ∧ native_ok t' ∧ nt_finalized t' = nt_finalized t ∧
    match rc with
    | Done _ => ∃ rows, Forall2 shard_rows shards rows ∧ nt_items t' = nt_items t ++ mjoin rows
    | Refused _ _ => True
    end.

Lemma scanned_refused shards t st why : native_ok t → scanned shards t (Some (t, Refused st why)).
Proof. intros Hok. by exists t, (Refused st why). Qed.

Lemma scanned_nothing t : native_ok t → scanned [] t (Some (t, Done tt)).
Proof.
  intros Hok. exists t, (Done tt). split; [done|]. split; [done|]. split; [done|]. exists []. split; [constructor|].
  cbn. by rewrite app_nil_r.
Qed.

Lemma scan_file_spec env file path t :
  native_ok t → shard_wf (path, file) →
  scanned (if yvex_source_ends_with path (cstr ".safetensors") then [(path, file)] else []) t (scan_file env file path t).
Proof.
  intros Hok [Hsize Hbytes]. unfold scan_file. destruct (yvex_source_ends_with _ _); [|by apply scanned_nothing].
  unfold yvex_safetensors_read_header_file. set (t1 := t <| nt_summary ::= _ |>).
  assert (native_ok t1) as Hok1 by (destruct Hok; by split).
  assert (read_answers env file path t1 (yvex_safetensors_read_header_file_with_facts env file path t1)) as
    (t' & r & -> & Hok' & Hfin & Hr) by by apply read_header_exact.
  cbn [mbind option_bind]. eexists t', _. split; [done|]. split; [done|]. split; [done|].
  destruct r as [facts|]; [|done]. destruct Hr as (header & text & pb & entries & Hf & ->%header_text_c & Hh & Hi & Hin & ->).
  exists [st_rows path entries]. split; [|cbn; by rewrite app_nil_r]. constructor; [|constructor].
  exists header, pb, entries. by split_and!.
Qed.

Lemma scan_listing_spec scan shards_of entries :
  Forall (λ entry, ∀ t, native_ok t → scanned (shards_of entry) t (scan entry t)) entries →
  ∀ t, native_ok t → scanned (entries ≫= shards_of) t (scan_listing scan entries t).
Proof.
  induction 1 as [|entry entries Hentry _ IH]; intros t Hok; [by apply scanned_nothing|]. cbn [scan_listing].
  destruct (Hentry t Hok) as (t1 & rc & -> & Hok1 & Hfin1 & Hrc). cbn [mbind option_bind].
  destruct rc as [[]|st why]; [|by exists t1, (Refused st why)]. destruct Hrc as (rows1 & Hrows1 & Hi1).
  destruct (IH t1 Hok1) as (t2 & rc & -> & Hok2 & Hfin2 & Hrc). exists t2, rc. split; [done|]. split; [done|].
  split; [congruence|]. destruct rc as [[]|]; [|done]. destruct Hrc as (rows2 & Hrows2 & Hi2).
  exists (rows1 ++ rows2). split; [by apply Forall2_app|]. by rewrite Hi2, Hi1, join_app, (assoc_L (++)).
Qed.

Lemma scan_entry_spec env recursive entry : ∀ rel_dir t,
  native_ok t → Forall shard_wf (entry_shards recursive rel_dir entry) →
  scanned (entry_shards recursive rel_dir entry) t (nw_scan_entry env recursive rel_dir entry t).
Proof.
  induction entry as [name|name|name entries IH|name file|name] using dir_entry_induction; intros rel_dir t Hok; cbn [entry_shards nw_scan_entry];
    (destruct (_ || _); [intros _; by apply scanned_nothing|]);
    (destruct (negb (se_path env)); [intros _; by apply scanned_refused|]); cbn [entry_name].
  - intros _. by apply scanned_refused.
  - intros _. destruct recursive; [by apply scanned_refused|by apply scanned_nothing].
  - destruct recursive; [|intros _; by apply scanned_nothing]. intros Hwf. apply scan_listing_spec; [|done].
    rewrite Forall_forall in IH |- *. intros entry Hin t' Hok'. apply IH; [done|done|].
    rewrite Forall_forall in Hwf |- *. intros shard Hs. apply Hwf, list_elem_of_bind. by exists entry.
  - destruct (yvex_source_ends_with (scan_path rel_dir name) (cstr ".safetensors")) eqn:E; intros Hwf.
    + pose proof (scan_file_spec env file (scan_path rel_dir name) t Hok) as H. rewrite E in H. apply H. by apply Forall_cons in Hwf as [Hwf _].
    + unfold scan_file. rewrite E. by apply scanned_nothing.
  - intros _. by apply scanned_nothing.
Qed.

Definition tree_shards (recursive : bool) (listing : list dir_entry) : list (list Z * header_file) :=
  listing ≫= entry_shards recursive [].

(** C32: opening a source directory never faults and its loops end. A table it gives is sealed and in order, with exactly the
    rows that the headers of the directory's safetensors files declare, one per name and sorted by name: every file of
    that suffix was read, in subdirectories too where the scan is recursive, none was malformed, and every row lies
    inside its file. *)
Theorem native_open_exact env table_memory listing recursive :
  Forall shard_wf (tree_shards recursive listing) →
  ∃ r, yvex_native_weight_table_open env table_memory (Some (Some listing)) recursive = Some r ∧
    match r with
    | Done t => native_ok t ∧ nt_finalized t = true ∧ StronglySorted name_before (nt_items t) ∧
        ∃ rows, Forall2 shard_rows (tree_shards recursive listing) rows ∧ nt_items t ≡ₚ mjoin rows
    | Refused _ _ => True
    end.
Proof.
  intros Hwf. unfold yvex_native_weight_table_open, nw_scan_dir.
  destruct table_memory; cbn [negb]; [|by eexists]. destruct (se_path env) eqn:Em; cbn [negb mbind option_bind]; [|by eexists].
  destruct (scan_listing_spec (nw_scan_entry env recursive []) (entry_shards recursive []) listing) with (t := native_table_empty)
    as (t & rc & -> & Hok & Hfin & Hrc); [|exact native_ok_empty|].
  { rewrite Forall_forall. intros entry Hin t Hok. apply scan_entry_spec; [done|].
    rewrite Forall_forall in Hwf |- *. intros shard Hs. apply Hwf, list_elem_of_bind. by exists entry. }
  cbn [mbind option_bind]. destruct rc as [[]|]; [|by eexists]. destruct Hrc as (rows & Hrows & Hi).
  destruct (native_finalize_exact (se_native env) t Hok Hfin) as (t' & r & -> & Hp & Hr). cbn [mbind option_bind].
  eexists. split; [done|]. destruct r as [[]|]; [|done]. destruct Hr as (Hok' & Hf' & Hsort). split_and!; [done..|].
  exists rows. split; [done|]. by rewrite Hp, Hi.
Qed.

(** A directory of two shards, one in a subdirectory, and a file that is none. *)
Definition sample_tree : list dir_entry :=
  [EntryRegular (cstr "b.safetensors") (sample_file (quoted "{'x':{'dtype':'I8','shape':[4],'data_offsets':[0,4]}}") 4);
   EntryOther (cstr "pipe"); EntryRegular (cstr "config.json") (HeaderFile true 2 true (cstr "{}"));
   EntryDirectory (cstr "part") (Some [EntryRegular (cstr "a.safetensors") (sample_file sample_header 24)])].

Lemma native_open_exact_witness :
  (∃ r, yvex_native_weight_table_open sample_st_env true (Some (Some sample_tree)) true = Some r ∧
    match r with
    | Done t => native_ok t ∧ nt_finalized t = true ∧ StronglySorted name_before (nt_items t) ∧
        ∃ rows, Forall2 shard_rows (tree_shards true sample_tree) rows ∧ nt_items t ≡ₚ mjoin rows
    | Refused _ _ => True
    end) ∧
  (∃ t, yvex_native_weight_table_open sample_st_env true (Some (Some sample_tree)) true = Some (Done t) ∧
    ((λ r, (nw_name r, nw_shard_path r)) <$> nt_items t) =
      [(cstr "w", cstr "part/a.safetensors"); (cstr "x", cstr "b.safetensors")]).
Proof.
  split.
  - apply (native_open_exact sample_st_env true sample_tree true).
    unfold shard_wf. repeat constructor; try (vm_compute; discriminate); apply Forall_forall; intros x Hx.
    all: vm_compute in Hx; repeat (apply elem_of_cons in Hx as [->|Hx]; [vm_compute; split; discriminate || done|]); by apply elem_of_nil in Hx.
  - eexists. split; vm_compute; reflexivity.
Defined.
