(* ===== verification/SourceSnapshot.v ===== *)
(** Tensor snapshots of a source, [src/source/inventory.c]: a sealed native table with a canonical catalog of its shards,
    shared by counted references.

    [bsearch] of the C library is the bisection of glibc; on an ordered array every implementation finds what it finds. *)

From S2P Require Import Prelude Status Exec HashIndex NativeTable.
From stdpp Require Import gmap sorting.
#[local] Open Scope Z_scope.

(** * Data *)

(** src/include/yvex/internal/source.h:247-253, [yvex_source_shard_snapshot] *)
Record yvex_source_shard_snapshot := ShardSnapshot {
  ss_canonical_id : Z;
  ss_canonical_name : option (list Z);
  ss_file_bytes : Z;
  ss_data_region_offset : Z;
  ss_payload_bytes : Z;
}.

#[export] Instance shard_snapshot_eq_dec : EqDecision yvex_source_shard_snapshot.
Proof. solve_decision. Defined.

(** src/src/source/inventory.c:65-73, [yvex_source_tensor_snapshot] *)
Record yvex_source_tensor_snapshot := TensorSnapshot {
  sn_table : yvex_native_weight_table;
  sn_shards : option (list yvex_source_shard_snapshot);
  sn_shard_count : Z;
  sn_header_scan_count : Z;
  sn_payload_bytes_read : Z;
  sn_identity : Z;
  sn_references : Z;
}.

#[export] Instance tensor_snapshot_eta : Eta yvex_source_tensor_snapshot := λ s,
  TensorSnapshot (sn_table s) (sn_shards s) (sn_shard_count s) (sn_header_scan_count s) (sn_payload_bytes_read s)
    (sn_identity s) (sn_references s).

(** What the allocator answers for the snapshot, its catalog and the names in it. *)
Record snapshot_env := SnapshotEnv { sv_native : native_env; sv_snapshot : bool; sv_shards : bool; sv_names : bool }.

(** * Identity *)

(** src/src/source/inventory.c, [source_snapshot_hash_bytes] *)
Definition source_snapshot_hash_bytes (hash : Z) (data : list Z) : Z :=
  foldl (λ hash byte, u64 (Z.lxor hash byte * 1099511628211)) hash data.

(** src/src/source/inventory.c, [source_snapshot_hash_u64] *)
Definition source_snapshot_hash_u64 (hash value : Z) : Z :=
  source_snapshot_hash_bytes hash ((λ i, Z.land (Z.shiftr value (i * 8)) 255) <$> seqZ 0 8).

(** src/src/source/inventory.c, [source_snapshot_identity] *)
Definition source_snapshot_identity (table : yvex_native_weight_table) : Z :=
  foldl (λ hash item,
    let hash := source_snapshot_hash_bytes hash (nw_name item ++ [0]) in
    let hash := source_snapshot_hash_bytes hash (nw_shard_path item ++ [0]) in
    let hash := source_snapshot_hash_bytes hash (yvex_native_dtype_name (nw_dtype item) ++ [0]) in
    let hash := source_snapshot_hash_u64 hash (Z.of_nat (length (nw_dims item))) in
    let hash := foldl source_snapshot_hash_u64 hash (nw_dims item) in
    source_snapshot_hash_u64 (source_snapshot_hash_u64 hash (nw_data_start item)) (nw_data_end item))
    1469598103934665603 (nt_items table).

(** * Construction *)

(** The table that is left to the caller, and the snapshot.
    src/src/source/inventory.c, [yvex_source_tensor_snapshot_take_table] *)
Definition yvex_source_tensor_snapshot_take_table (env : snapshot_env) (table : option yvex_native_weight_table)
    (shard_count header_scan_count : Z)
    : option (option yvex_native_weight_table * outcome yvex_source_tensor_snapshot) :=
  match table with
  | None => Some (None, Refused YVEX_ERR_INVALID_ARG "output and native tensor table are required")
  | Some table =>
      '(table, rc) ← yvex_native_weight_table_finalize (sv_native env) table;
      Some (match rc with
            | Refused st why => (Some table, Refused st why)
            | Done _ =>
                if negb (sv_snapshot env) then
                  (Some table, Refused YVEX_ERR_NOMEM "source tensor snapshot allocation failed")
                else
                  (None, Done (TensorSnapshot table None shard_count header_scan_count 0 (source_snapshot_identity table) 1))
            end)
  end.

(** 40 is the size of a row of the catalog.
    src/src/source/inventory.c, [source_snapshot_copy_shards] *)
Definition source_snapshot_copy_shards (env : snapshot_env) (snapshot : yvex_source_tensor_snapshot)
    (shards : list yvex_source_shard_snapshot) : outcome yvex_source_tensor_snapshot :=
  if bool_decide (shards = []) then Done snapshot
  else if SIZE_MAX / 40 <? Z.of_nat (length shards) then
    Refused YVEX_ERR_BOUNDS "source shard catalog allocation overflow"
  else if negb (sv_shards env) then Refused YVEX_ERR_NOMEM "source shard catalog allocation failed"
  else if negb (sv_names env) then Refused YVEX_ERR_NOMEM "source shard name allocation failed"
  else Done (snapshot <| sn_shards := Some shards |>).

(** The names of the catalog ascend, and every row knows its position.
    src/src/source/inventory.c:293-301, [yvex_source_tensor_snapshot_take_table_with_shards] *)
Fixpoint catalog_canonical (index : Z) (previous : option (list Z)) (shards : list yvex_source_shard_snapshot) : bool :=
  match shards with
  | [] => true
  | shard :: shards =>
      match ss_canonical_name shard with
      | None => false
      | Some name =>
          (ss_canonical_id shard =? index) &&
          match previous with
          | Some previous => match bytes_compare previous name with Lt => true | _ => false end
          | None => true
          end && catalog_canonical (index + 1) (Some name) shards
      end
  end.

(** A snapshot whose catalog cannot be copied is released with its table.
    src/src/source/inventory.c, [yvex_source_tensor_snapshot_take_table_with_shards] *)
Definition yvex_source_tensor_snapshot_take_table_with_shards (env : snapshot_env)
    (table : option yvex_native_weight_table) (shards : list yvex_source_shard_snapshot) (header_scan_count : Z)
    : option (option yvex_native_weight_table * outcome yvex_source_tensor_snapshot) :=
  if bool_decide (shards = []) then
    Some (table, Refused YVEX_ERR_INVALID_ARG "a nonempty canonical shard catalog is required")
  else if negb (catalog_canonical 0 None shards) then
    Some (table, Refused YVEX_ERR_FORMAT "source shard catalog is not canonical and unique")
  else
    '(table, rc) ← yvex_source_tensor_snapshot_take_table env table (Z.of_nat (length shards)) header_scan_count;
    Some (table, match rc with
                 | Refused st why => Refused st why
                 | Done snapshot => source_snapshot_copy_shards env snapshot shards
                 end).

(** * References *)

(** src/src/source/inventory.c, [yvex_source_tensor_snapshot_retain] *)
Definition yvex_source_tensor_snapshot_retain (snapshot : yvex_source_tensor_snapshot) : yvex_source_tensor_snapshot :=
  if sn_references snapshot <? UINT32_MAX then snapshot <| sn_references ::= λ n, n + 1 |> else snapshot.

(** [None] once the last reference is gone and the snapshot freed.
    src/src/source/inventory.c, [yvex_source_tensor_snapshot_release] *)
Definition yvex_source_tensor_snapshot_release (snapshot : yvex_source_tensor_snapshot)
    : option yvex_source_tensor_snapshot :=
  if sn_references snapshot =? 0 then Some snapshot
  else if sn_references snapshot - 1 =? 0 then None
  else Some (snapshot <| sn_references ::= λ n, n - 1 |>).

(** * Reading *)

(** src/src/source/inventory.c, [yvex_source_tensor_snapshot_shard_at] *)
Definition yvex_source_tensor_snapshot_shard_at (snapshot : yvex_source_tensor_snapshot) (index : Z)
    : option (option yvex_source_shard_snapshot) :=
  match sn_shards snapshot with
  | Some shards => if index <? sn_shard_count snapshot then shard ← array_get shards index; Some (Some shard) else Some None
  | None => Some None
  end.

(** [bsearch] of [<stdlib.h>] between two bounds; [compare] is the order of the key and an element. *)
Fixpoint bsearch {A} (fuel : nat) (compare : A → comparison) (base : list A) (lower upper : Z) : option (option A) :=
  if lower <? upper then
    match fuel with
    | O => None
    | S fuel =>
        let middle := (lower + upper) / 2 in
        element ← array_get base middle;
        match compare element with
        | Lt => bsearch fuel compare base lower middle
        | Gt => bsearch fuel compare base (middle + 1) upper
        | Eq => Some (Some element)
        end
    end
  else Some None.

(** src/src/source/inventory.c, [source_snapshot_shard_key_compare] *)
Definition source_snapshot_shard_key_compare (key : list Z) (row : yvex_source_shard_snapshot) : comparison :=
  bytes_compare key (default [] (ss_canonical_name row)).

(** src/src/source/inventory.c, [yvex_source_tensor_snapshot_shard_find] *)
Definition yvex_source_tensor_snapshot_shard_find (snapshot : yvex_source_tensor_snapshot) (canonical_name : list Z)
    : option (option yvex_source_shard_snapshot) :=
  match sn_shards snapshot with
  | Some shards =>
      bsearch (length shards) (source_snapshot_shard_key_compare canonical_name) shards 0 (sn_shard_count snapshot)
  | None => Some None
  end.

(** src/src/source/inventory.c, [yvex_source_tensor_snapshot_has_shard_catalog] *)
Definition yvex_source_tensor_snapshot_has_shard_catalog (snapshot : yvex_source_tensor_snapshot) : bool :=
  bool_decide (is_Some (sn_shards snapshot)) && negb (sn_shard_count snapshot =? 0).

(** src/src/source/inventory.c, [yvex_source_tensor_snapshot_at] *)
Definition yvex_source_tensor_snapshot_at (snapshot : yvex_source_tensor_snapshot) (index : Z)
    : option (option yvex_native_weight_info) :=
  yvex_native_weight_table_at (sn_table snapshot) index.

(** A lookup counts in the table.
    src/src/source/inventory.c, [yvex_source_tensor_snapshot_find] *)
Definition yvex_source_tensor_snapshot_find (snapshot : yvex_source_tensor_snapshot) (name : list Z)
    : option (yvex_source_tensor_snapshot * option yvex_native_weight_info) :=
  '(table, row) ← yvex_native_weight_table_find (sn_table snapshot) name;
  Some (snapshot <| sn_table := table |>, row).

(** * The catalog is searched exactly *)

(** A key compares along an ordered array: below, then at most once equal, then above. *)
Definition ordered_for {A} (compare : A → comparison) (base : list A) : Prop :=
  ∀ i j a b, (i < j)%nat → base !! i = Some a → base !! j = Some b → compare a ≠ Gt → compare b = Lt.

Lemma bsearch_spec {A} (compare : A → comparison) base fuel lower upper :
  ordered_for compare base → 0 ≤ lower → lower ≤ upper → upper ≤ Z.of_nat (length base) → upper - lower ≤ Z.of_nat fuel →
  ∃ r, bsearch fuel compare base lower upper = Some r ∧
    match r with
    | Some a => a ∈ base ∧ compare a = Eq
    | None => ∀ i a, lower ≤ Z.of_nat i < upper → base !! i = Some a → compare a ≠ Eq
    end.
Proof.
  intros Hord. revert lower upper. induction fuel as [|fuel IH]; intros lower upper Hl Hlu Hu Hf; cbn [bsearch];
    (destruct (Z.ltb_spec lower upper); [|exists None; split; [done|lia]]); [lia|].
  assert (lower ≤ (lower + upper) / 2 < upper) as Hm.
  { split; [apply Z.div_le_lower_bound|apply Z.div_lt_upper_bound]; lia. }
  destruct (array_get_is_Some base ((lower + upper) / 2)) as [a E]; [lia|]. rewrite E. cbn [mbind option_bind].
  apply array_get_Some in E as [_ E]. destruct (compare a) eqn:Ec.
  - exists (Some a). split; [done|]. split; [by eapply list_elem_of_lookup_2|done].
  - destruct (IH lower ((lower + upper) / 2)) as (r & -> & Hr); [lia..|]. exists r. split; [done|].
    destruct r as [b|]; [done|]. intros i b Hi Eb. destruct (Z.lt_ge_cases (Z.of_nat i) ((lower + upper) / 2)); [by eapply (Hr i); [lia|]|].
    destruct (decide (i = Z.to_nat ((lower + upper) / 2))) as [->|Hne]; [congruence|].
    rewrite (Hord (Z.to_nat ((lower + upper) / 2)) i a b ltac:(lia) E Eb); [done|by rewrite Ec].
  - destruct (IH ((lower + upper) / 2 + 1) upper) as (r & -> & Hr); [lia..|]. exists r. split; [done|].
    destruct r as [b|]; [done|]. intros i b Hi Eb. destruct (Z.le_gt_cases ((lower + upper) / 2 + 1) (Z.of_nat i)); [by eapply (Hr i); [lia|]|].
    destruct (decide (i = Z.to_nat ((lower + upper) / 2))) as [->|Hne]; [congruence|].
    intros Eq. enough (compare a = Lt) by congruence. apply (Hord i (Z.to_nat ((lower + upper) / 2)) b a); [lia|done|done|by rewrite Eq].
Qed.

(** A catalog in order: each row knows its position, and the names ascend. *)
Record canonical_catalog (shards : list yvex_source_shard_snapshot) : Prop := CanonicalCatalog {
  cc_row : ∀ i shard, shards !! i = Some shard → ss_canonical_id shard = Z.of_nat i ∧ is_Some (ss_canonical_name shard);
  cc_order : ∀ i j a b, (i < j)%nat → shards !! i = Some a → shards !! j = Some b →
    bytes_compare (default [] (ss_canonical_name a)) (default [] (ss_canonical_name b)) = Lt;
}.

Lemma catalog_canonical_from shards : ∀ index previous,
  catalog_canonical index previous shards = true ↔
  (∀ i shard, shards !! i = Some shard → ss_canonical_id shard = index + Z.of_nat i ∧ is_Some (ss_canonical_name shard)) ∧
  (∀ i j a b, (i < j)%nat → shards !! i = Some a → shards !! j = Some b →
     bytes_compare (default [] (ss_canonical_name a)) (default [] (ss_canonical_name b)) = Lt) ∧
  (∀ p shard, previous = Some p → shards !! 0%nat = Some shard → bytes_compare p (default [] (ss_canonical_name shard)) = Lt).
Proof.
  induction shards as [|shard shards IH]; intros index previous; [by split|]. cbn [catalog_canonical].
  destruct (ss_canonical_name shard) as [name|] eqn:En.
  2: { split; [done|]. intros (H & _). by destruct (H 0%nat shard eq_refl) as [_ [? ?]]; congruence. }
  rewrite !andb_true_iff, Z.eqb_eq, IH. split.
  - intros [[Hid Hprev] (Hrow & Hord & Hnext)]. split_and!.
    + intros [|i] s E; cbn in E; [injection E as <-; rewrite En; split; [lia|done]|].
      destruct (Hrow i s E) as [? ?]. split; [lia|done].
    + assert (∀ j b, shards !! j = Some b → bytes_compare name (default [] (ss_canonical_name b)) = Lt) as Hhead.
      { intros [|j] b Eb; [by apply (Hnext name b eq_refl)|]. destruct shards as [|s shards]; [done|].
        eapply bytes_compare_trans; [by apply (Hnext name s eq_refl)|]. by apply (Hord 0%nat (S j) s b ltac:(lia)). }
      intros [|i] [|j] a b Hij Ea Eb; cbn in Ea, Eb; [lia| |lia|by apply (Hord i j a b ltac:(lia))].
      injection Ea as <-. rewrite En. by apply (Hhead j).
    + intros p s -> [= <-]. rewrite En. cbn. by destruct (bytes_compare p name).
  - intros (Hrow & Hord & Hprev). split; [split|split_and!].
    + destruct (Hrow 0%nat shard eq_refl) as [? _]. lia.
    + destruct previous as [p|]; [|done]. specialize (Hprev p shard eq_refl eq_refl). rewrite En in Hprev. cbn in Hprev. by rewrite Hprev.
    + intros i s E. destruct (Hrow (S i) s E) as [? ?]. split; [lia|done].
    + intros i j a b Hij Ea Eb. by apply (Hord (S i) (S j) a b ltac:(lia)).
    + intros p s [= <-] E. pose proof (Hord 0%nat 1%nat shard s ltac:(lia) eq_refl E) as H. by rewrite En in H.
Qed.

Lemma catalog_canonical_exact shards : catalog_canonical 0 None shards = true ↔ canonical_catalog shards.
Proof.
  rewrite catalog_canonical_from. split.
  - intros (Hrow & Hord & _). split; [|done]. intros i shard E. by apply (Hrow i shard).
  - intros [Hrow Hord]. split_and!; [done..|by intros].
Qed.

(** A snapshot in order. *)
Record snapshot_ok (snapshot : yvex_source_tensor_snapshot) (shards : list yvex_source_shard_snapshot) : Prop := SnapshotOk {
  so_table : native_ok (sn_table snapshot) ∧ nt_finalized (sn_table snapshot) = true;
  so_sorted : StronglySorted name_before (nt_items (sn_table snapshot));
  so_shards : sn_shards snapshot = Some shards ∧ sn_shard_count snapshot = Z.of_nat (length shards);
  so_catalog : canonical_catalog shards;
  so_references : 0 < sn_references snapshot;
}.

(** The shard of a name, by a search from the start. *)
Definition shard_named (shards : list yvex_source_shard_snapshot) (name : list Z) : option yvex_source_shard_snapshot :=
  snd <$> list_find (λ shard, ss_canonical_name shard = Some name) shards.

Lemma shard_find_exact snapshot shards name :
  snapshot_ok snapshot shards → yvex_source_tensor_snapshot_shard_find snapshot name = Some (shard_named shards name).
Proof.
  intros [_ _ [Es Ec] [Hrow Hord] _]. unfold yvex_source_tensor_snapshot_shard_find. rewrite Es, Ec.
  assert (ordered_for (source_snapshot_shard_key_compare name) shards) as Hof.
  { intros i j a b Hij Ea Eb. unfold source_snapshot_shard_key_compare. pose proof (Hord i j a b Hij Ea Eb) as Hlt.
    destruct (bytes_compare name (default [] (ss_canonical_name a))) eqn:E; [apply bytes_compare_eq in E as ->; done| |done].
    intros _. by eapply bytes_compare_trans. }
  destruct (bsearch_spec (source_snapshot_shard_key_compare name) shards (length shards) 0 (Z.of_nat (length shards)) Hof)
    as (r & -> & Hr); [lia..|]. f_equal. unfold shard_named.
  assert (∀ i a, shards !! i = Some a → source_snapshot_shard_key_compare name a = Eq ↔ ss_canonical_name a = Some name) as Hkey.
  { intros i a E. unfold source_snapshot_shard_key_compare. rewrite bytes_compare_eq.
    destruct (Hrow i a E) as [_ [n ->]]. cbn. naive_solver. }
  destruct (list_find (λ shard, ss_canonical_name shard = Some name) shards) as [[i s]|] eqn:Ef.
  - apply list_find_Some in Ef as (E & En & _). cbn. pose proof (proj2 (Hkey i s E) En) as Hs. destruct r as [a|].
    + destruct Hr as [[j Ea]%list_elem_of_lookup Hc]. destruct (lt_eq_lt_dec i j) as [[H|H]|H].
      * rewrite (Hof i j s a H E Ea) in Hc; [done|by rewrite Hs].
      * congruence.
      * rewrite (Hof j i a s H Ea E) in Hs; [done|by rewrite Hc].
    + by destruct (Hr i s); [apply lookup_lt_Some in E; lia|done|].
  - apply list_find_None in Ef. destruct r as [a|]; [|done]. destruct Hr as [[j Ea]%list_elem_of_lookup Hc].
    rewrite Forall_lookup in Ef. destruct (Ef j a Ea). by apply (Hkey j a).
Qed.

(** What a snapshot is taken from. *)
Definition snapshot_admissible (env : snapshot_env) (t : yvex_native_weight_table) (shards : list yvex_source_shard_snapshot) : Prop :=
  shards ≠ [] ∧ canonical_catalog shards ∧ Z.of_nat (length shards) ≤ SIZE_MAX / 40 ∧ native_memory (sv_native env) t ∧
  sv_snapshot env = true ∧ sv_shards env = true ∧ sv_names env = true.

Lemma snapshot_take_exact env t shards header_scan_count :
  native_ok t → nt_finalized t = false →
  ∃ left_ r, yvex_source_tensor_snapshot_take_table_with_shards env (Some t) shards header_scan_count = Some (left_, r) ∧
    match r with
    | Done snapshot => left_ = None ∧ snapshot_ok snapshot shards ∧ sn_references snapshot = 1 ∧
        nt_items (sn_table snapshot) ≡ₚ nt_items t ∧ sn_identity snapshot = source_snapshot_identity (sn_table snapshot)
    | Refused _ _ => ¬ snapshot_admissible env t shards
    end.
Proof.
  intros Hok Hfin. unfold yvex_source_tensor_snapshot_take_table_with_shards.
  destruct (decide (shards = [])) as [->|Hne]; [rewrite bool_decide_eq_true_2 by done|rewrite bool_decide_eq_false_2 by done].
  { eexists _, _. split; [done|]. by intros [? _]. }
  destruct (catalog_canonical 0 None shards) eqn:Ec; cbn [negb].
  2: { eexists _, _. split; [done|]. intros (_ & Hc & _). apply catalog_canonical_exact in Hc. congruence. }
  apply catalog_canonical_exact in Ec. unfold yvex_source_tensor_snapshot_take_table.
  destruct (native_finalize_exact (sv_native env) t Hok Hfin) as (t' & r & -> & Hp & Hr). cbn [mbind option_bind].
  destruct r as [[]|st why]; [|eexists _, _; split; [done|]; intros (_ & _ & _ & Hm & _); by apply Hr].
  destruct (sv_snapshot env) eqn:Es; cbn [negb mbind option_bind].
  2: { eexists _, _. split; [done|]. intros (_ & _ & _ & _ & ? & _). congruence. }
  eexists _, _. split; [done|]. unfold source_snapshot_copy_shards. rewrite bool_decide_eq_false_2 by done.
  destruct (Z.ltb_spec (SIZE_MAX / 40) (Z.of_nat (length shards))); [intros (_ & _ & ? & _); lia|].
  destruct (sv_shards env) eqn:E1; cbn [negb]; [|intros (_ & _ & _ & _ & _ & ? & _); congruence].
  destruct (sv_names env) eqn:E2; cbn [negb]; [|intros (_ & _ & _ & _ & _ & _ & ?); congruence].
  destruct Hr as (Hok' & Hfin' & Hsort). split; [done|]. split; [by split|]. by split.
Qed.

(** Shared references: after [n] retains it takes [n + 1] releases to free a snapshot. *)
Lemma retains_releases n snapshot :
  0 < sn_references snapshot → sn_references snapshot + Z.of_nat n ≤ UINT32_MAX →
  let s := Nat.iter n yvex_source_tensor_snapshot_retain snapshot in
  sn_references s = sn_references snapshot + Z.of_nat n ∧
  Nat.iter n (λ s, s ≫= yvex_source_tensor_snapshot_release) (Some s) = Some snapshot.
Proof.
  intros Hpos. induction n as [|n IH]; intros Hmax; [by rewrite Z.add_0_r|]. destruct (IH ltac:(lia)) as [Hr Hrel].
  rewrite Nat.iter_succ. set (s := Nat.iter n yvex_source_tensor_snapshot_retain snapshot) in *. cbn zeta.
  assert (yvex_source_tensor_snapshot_retain s = s <| sn_references := sn_references s + 1 |>) as ->.
  { unfold yvex_source_tensor_snapshot_retain. rewrite (proj2 (Z.ltb_lt _ _)) by lia. done. }
  split; [cbn; lia|]. rewrite Nat.iter_succ_r. cbn [mbind option_bind].
  assert (yvex_source_tensor_snapshot_release (s <| sn_references := sn_references s + 1 |>) = Some s) as ->; [|done].
  unfold yvex_source_tensor_snapshot_release. cbn. rewrite !(proj2 (Z.eqb_neq _ 0)) by lia. destruct s. cbn. by rewrite Z.add_simpl_r.
Qed.

(** A snapshot is taken of a table exactly when the catalog of shards is nonempty, numbered by position and strictly
    ascending by name, and memory suffices; it then has the table's rows, sealed and sorted, and one reference.
    Its lookups are exact: the shard of a name is the one the catalog names so, and the tensor of a name the row the
    table has. [n] more references take [n] releases to give back. *)
Theorem source_snapshot_exact env t shards header_scan_count :
  native_ok t → nt_finalized t = false →
  ∃ left_ r, yvex_source_tensor_snapshot_take_table_with_shards env (Some t) shards header_scan_count = Some (left_, r) ∧
    match r with
    | Refused _ _ => ¬ snapshot_admissible env t shards
    | Done snapshot => left_ = None ∧ snapshot_ok snapshot shards ∧ nt_items (sn_table snapshot) ≡ₚ nt_items t ∧
        (∀ name, yvex_source_tensor_snapshot_shard_find snapshot name = Some (shard_named shards name)) ∧
        (∀ name, ∃ snapshot', yvex_source_tensor_snapshot_find snapshot name = Some (snapshot', rows_by_name t !! name) ∧
           snapshot_ok snapshot' shards) ∧
        (∀ n, Z.of_nat n < UINT32_MAX →
           Nat.iter n (λ s, s ≫= yvex_source_tensor_snapshot_release)
             (Some (Nat.iter n yvex_source_tensor_snapshot_retain snapshot)) = Some snapshot)
    end.
Proof.
  intros Hok Hfin. destruct (snapshot_take_exact env t shards header_scan_count Hok Hfin) as (left_ & r & E & Hr).
  exists left_, r. split; [done|]. destruct r as [snapshot|]; [|done]. destruct Hr as (-> & Hsn & Hrefs & Hp & _).
  split; [done|]. split; [done|]. split; [done|]. split; [intros name; by apply shard_find_exact|]. split.
  - intros name. unfold yvex_source_tensor_snapshot_find. destruct Hsn as [[Hokt Hf] Hs Hsh Hcat Href].
    destruct (native_find_exact (sn_table snapshot) name Hokt) as (t' & -> & Hok' & Hi & Hf').
    cbn [mbind option_bind]. eexists. rewrite (rows_by_name_perm t (sn_table snapshot)) by (done || apply no_names; done).
    split; [done|]. split; cbn; [split; [done|congruence]|by rewrite Hi|done..].
  - intros n Hn. apply (retains_releases n snapshot); rewrite Hrefs; ulia.
Qed.

Definition sample_catalog : list yvex_source_shard_snapshot :=
  [ShardSnapshot 0 (Some (cstr "a.safetensors")) 200 100 100; ShardSnapshot 1 (Some (cstr "b.safetensors")) 90 50 40].

Definition sample_snapshot_env : snapshot_env := SnapshotEnv sample_native_env true true true.

(** A table of one row. *)
Definition sample_table : yvex_native_weight_table :=
  match yvex_native_weight_table_add sample_native_env native_table_empty (cstr "w") (cstr "b.safetensors") (cstr "F32") [2; 3] 0 24 with
  | Some (t, _) => t
  | None => native_table_empty
  end.

Lemma sample_table_ok : native_ok sample_table.
Proof.
  destruct (native_add_exact sample_native_env native_table_empty (cstr "w") (cstr "b.safetensors") (cstr "F32") [2; 3] 0 24
    native_ok_empty) as (t & r & E & Hok & _); [lia|ulia|]. unfold sample_table. by rewrite E.
Qed.

Lemma source_snapshot_exact_witness :
  ∃ left_ r, yvex_source_tensor_snapshot_take_table_with_shards sample_snapshot_env (Some sample_table) sample_catalog 2 = Some (left_, r) ∧
    match r with
    | Refused _ _ => False
    | Done snapshot => snapshot_ok snapshot sample_catalog ∧ nt_count (sn_table snapshot) = 1 ∧
        (ss_canonical_id <$> mjoin (yvex_source_tensor_snapshot_shard_find snapshot (cstr "b.safetensors"))) = Some 1
    end.
Proof.
  destruct (source_snapshot_exact sample_snapshot_env sample_table sample_catalog 2) as (left_ & r & E & Hr);
    [exact sample_table_ok|reflexivity|].
  exists left_, r. split; [exact E|]. vm_compute in E. injection E as <- <-. destruct Hr as (_ & Hok & _).
  split; [exact Hok|]. split; vm_compute; reflexivity.
Defined.
