(* ===== verification/PayloadPlan.v ===== *)
(** Payload plans: the selection of tensor ranges of a source, in physical order, and its chunks, from
    [src/source/payload_plan.c].

    Sections under the session's mutex are atomic; a failed build gives the session back as it was. *)

From S2P Require Import Prelude Status Exec HashIndex NativeTable.
From stdpp Require Import sorting.
#[local] Open Scope Z_scope.
#[local] Abbreviation total := Prelude.total.

(** * Data *)

Definition YVEX_SOURCE_PAYLOAD_STATE_UNTRUSTED : Z := 1.
Definition YVEX_SOURCE_PAYLOAD_STATE_READY : Z := 3.
Definition YVEX_SOURCE_PAYLOAD_MIN_CHUNK_BYTES : Z := 4096.
Definition YVEX_SOURCE_PAYLOAD_MAX_CHUNK_BYTES : Z := 67108864.

(** The identities and the trust class of a row, the session's, are left out; the rank is the number of dimensions.
    src/include/yvex/internal/source_payload.h:50-60, [yvex_source_payload_range] *)
Record payload_range := PayloadRange {
  pr_tensor : Z;
  pr_shard : Z;
  pr_begin : Z;
  pr_end : Z;
  pr_length : Z;
  pr_tensor_name : list Z;
  pr_region_offset : Z;
  pr_relative_begin : Z;
  pr_relative_end : Z;
  pr_dtype : yvex_native_dtype;
  pr_dims : list Z;
}.

#[export] Instance payload_range_eq_dec : EqDecision payload_range.
Proof. solve_decision. Defined.

(** src/include/yvex/internal/source_payload.h:61-67, [yvex_source_payload_chunk] *)
Record payload_chunk := PayloadChunk {
  pk_ordinal : Z;
  pk_range_ordinal : Z;
  pk_tensor : Z;
  pk_tensor_name : list Z;
  pk_shard : Z;
  pk_logical_offset : Z;
  pk_absolute_offset : Z;
  pk_length : Z;
  pk_first_page : Z;
  pk_last_page : Z;
}.

Definition blank_chunk : payload_chunk := PayloadChunk 0 0 0 [] 0 0 0 0 0 0.

(** src/include/yvex/internal/source_payload.h, [yvex_source_payload_plan_summary] *)
Record payload_plan_summary := PlanSummary {
  pm_range_count : Z;
  pm_chunk_count : Z;
  pm_logical_bytes : Z;
  pm_page_count : Z;
  pm_chunk_bytes : Z;
  pm_page_bytes : Z;
}.

(** src/include/yvex/internal/source_payload.h:297-303, [yvex_source_payload_plan] *)
Record payload_plan := PayloadPlan {
  pp_ranges : list payload_range;
  pp_chunks : list payload_chunk;
  pp_summary : payload_plan_summary;
  pp_registered : bool;
}.

(** The members plans look at: the range of a tensor is at its index.
    src/include/yvex/internal/source_payload.h:272-296, [yvex_source_payload_session] *)
Record payload_session := PayloadSession {
  py_state : Z;
  py_chunk_bytes : Z;
  py_page_bytes : Z;
  py_maximum_plan_chunks : Z;
  py_ranges : list payload_range;
  py_active_plans : Z;
}.

#[export] Instance payload_session_eta : Eta payload_session := λ s,
  PayloadSession (py_state s) (py_chunk_bytes s) (py_page_bytes s) (py_maximum_plan_chunks s) (py_ranges s)
    (py_active_plans s).

Definition tensor_count (s : payload_session) : Z := Z.of_nat (length (py_ranges s)).

(** What the session's allocator answers for the plan, its ranges and its chunks. *)
Record plan_env := PlanEnv { pe_plan : bool; pe_ranges : bool; pe_chunks : Z → bool }.

(** * Planning *)

(** src/src/source/payload_plan.c, [payload_plan_range_compare] *)
Definition payload_plan_range_compare (a b : payload_range) : comparison :=
  if negb (pr_shard a =? pr_shard b) then (if pr_shard a <? pr_shard b then Lt else Gt)
  else if negb (pr_begin a =? pr_begin b) then (if pr_begin a <? pr_begin b then Lt else Gt)
  else if negb (pr_end a =? pr_end b) then (if pr_end a <? pr_end b then Lt else Gt)
  else if pr_tensor a <? pr_tensor b then Lt else if pr_tensor b <? pr_tensor a then Gt else Eq.

Definition range_le (a b : payload_range) : Prop := payload_plan_range_compare a b ≠ Gt.

#[export] Instance range_le_dec a b : Decision (range_le a b).
Proof. unfold range_le. apply _. Defined.

(** The chunks and the pages a range takes, added to the counts so far.
    src/src/source/payload_plan.c:117-138, [yvex_source_payload_plan_build] *)
Definition plan_account (chunk_bytes page_bytes : Z) (counts : Z * Z * Z) (range : payload_range)
    : option (Z * Z * Z) :=
  let '(chunk_count, logical_bytes, page_count) := counts in
  let chunks := pr_length range / chunk_bytes in
  let chunks := if pr_length range mod chunk_bytes =? 0 then chunks else u64 (chunks + 1) in
  let pages := u64 (u64 (u64 (pr_end range - 1) / page_bytes - pr_begin range / page_bytes) + 1) in
  chunk_count ← yvex_core_u64_add chunk_count chunks;
  logical_bytes ← yvex_core_u64_add logical_bytes (pr_length range);
  page_count ← yvex_core_u64_add page_count pages;
  Some (chunk_count, logical_bytes, page_count).

Fixpoint plan_account_all (chunk_bytes page_bytes : Z) (counts : Z * Z * Z) (ranges : list payload_range)
    : option (Z * Z * Z) :=
  match ranges with
  | [] => Some counts
  | range :: ranges =>
      counts ← plan_account chunk_bytes page_bytes counts range;
      plan_account_all chunk_bytes page_bytes counts ranges
  end.

(** Two neighbours of the same tensor.
    src/src/source/payload_plan.c:140-150, [yvex_source_payload_plan_build] *)
Fixpoint repeats_tensor (ranges : list payload_range) : bool :=
  match ranges with
  | a :: ((b :: _) as rest) => (pr_tensor a =? pr_tensor b) || repeats_tensor rest
  | _ => false
  end.

(** The chunks of a range, written into the plan's array from its [ordinal] on. A range has no more chunks than
    [fuel].
    src/src/source/payload_plan.c:174-196, [yvex_source_payload_plan_build] *)
Fixpoint fill_range (fuel : nat) (chunk_bytes page_bytes : Z) (range_ordinal : Z) (range : payload_range)
    (logical_offset : Z) (s : list payload_chunk * Z) : run (list payload_chunk * Z) :=
  if logical_offset <? pr_length range then
    match fuel with
    | O => None
    | S fuel =>
        let '(chunks, ordinal) := s in
        let remaining := pr_length range - logical_offset in
        let length := if chunk_bytes <? remaining then chunk_bytes else remaining in
        let absolute := u64 (pr_begin range + logical_offset) in
        let! chunks := run_access (array_set chunks ordinal
          (PayloadChunk ordinal range_ordinal (pr_tensor range) (pr_tensor_name range) (pr_shard range) logical_offset absolute length
             (absolute / page_bytes) (u64 (absolute + length - 1) / page_bytes))) in
        fill_range fuel chunk_bytes page_bytes range_ordinal range (u64 (logical_offset + length)) (chunks, ordinal + 1)
    end
  else run_ret s.

(** src/src/source/payload_plan.c:172-197, [yvex_source_payload_plan_build] *)
Definition fill_chunks (chunk_bytes page_bytes : Z) (ranges : list payload_range) (s : list payload_chunk * Z)
    : run (list payload_chunk * Z) :=
  for_each (λ entry s, fill_range (S (Z.to_nat (pr_length entry.2 / chunk_bytes))) chunk_bytes page_bytes
                         (Z.of_nat entry.1) entry.2 0 s) (imap pair ranges) s.

(** The session a plan is taken from loses it.
    src/src/source/payload_plan.c, [yvex_source_payload_plan_close] *)
Definition yvex_source_payload_plan_close (session : payload_session) (registered : bool) : payload_session :=
  if registered then
    session <| py_active_plans := if py_active_plans session =? 0 then 0 else py_active_plans session - 1 |>
  else session.

(** The build from the registration of the plan on.
    src/src/source/payload_plan.c:117-208, [yvex_source_payload_plan_build] *)
Definition plan_complete (env : plan_env) (session : payload_session) (chunk_bytes page_bytes count : Z)
    (ranges : list payload_range) : option (payload_session * outcome payload_plan) :=
  let closed st why := Some (yvex_source_payload_plan_close session true, Refused st why) in
  match plan_account_all chunk_bytes page_bytes (0, 0, 0) ranges with
  | None => closed YVEX_ERR_BOUNDS "payload plan accounting overflow"%string
  | Some (chunk_count, logical_bytes, page_count) =>
      let ranges := merge_sort range_le ranges in
      if repeats_tensor ranges then closed YVEX_ERR_FORMAT "payload plan repeats a source tensor"%string
      else if (SIZE_MAX / 80 <? chunk_count) || (py_maximum_plan_chunks session <? chunk_count) then
        closed YVEX_ERR_BOUNDS "payload chunk map exceeds addressable memory"%string
      else if negb (pe_chunks env chunk_count) then
        closed YVEX_ERR_NOMEM "payload chunk map allocation failed"%string
      else
        match fill_chunks chunk_bytes page_bytes ranges (replicate (Z.to_nat chunk_count) blank_chunk, 0) with
        | None => None
        | Some (Refused st why) => closed st why
        | Some (Done (chunks, _)) =>
            Some (session, Done (PayloadPlan ranges chunks
              (PlanSummary count chunk_count logical_bytes page_count chunk_bytes page_bytes) true))
        end
  end.

(** The session afterwards and the plan; a null selection is every tensor, and a zero size the session's own.
    src/src/source/payload_plan.c, [yvex_source_payload_plan_build] *)
Definition yvex_source_payload_plan_build (env : plan_env) (session : payload_session) (indices : option (list Z))
    (count : Z) (chunk_bytes page_bytes : Z) : option (payload_session * outcome payload_plan) :=
  let refused st why := Some (session, Refused st why) in
  if (count =? 0) || (bool_decide (indices = None) && negb (count =? tensor_count session)) then
    refused YVEX_ERR_INVALID_ARG "session and a nonempty tensor selection are required"%string
  else
    let chunk_bytes := if chunk_bytes =? 0 then py_chunk_bytes session else chunk_bytes in
    let page_bytes := if page_bytes =? 0 then py_page_bytes session else page_bytes in
    if (chunk_bytes <? YVEX_SOURCE_PAYLOAD_MIN_CHUNK_BYTES) || (YVEX_SOURCE_PAYLOAD_MAX_CHUNK_BYTES <? chunk_bytes)
       || (py_chunk_bytes session <? chunk_bytes) || (page_bytes =? 0)
       || negb (Z.land page_bytes (u64 (page_bytes - 1)) =? 0) || (SIZE_MAX / 168 <? count) then
      refused YVEX_ERR_BOUNDS "chunk or page configuration is outside session bounds"%string
    else if negb (pe_plan env) then refused YVEX_ERR_NOMEM "payload plan allocation failed"%string
    else if negb (pe_ranges env) then refused YVEX_ERR_NOMEM "payload range plan allocation failed"%string
    else if negb (py_state session =? YVEX_SOURCE_PAYLOAD_STATE_UNTRUSTED)
            && negb (py_state session =? YVEX_SOURCE_PAYLOAD_STATE_READY) then
      refused YVEX_ERR_STATE "payload plans require an idle usable session"%string
    else
      let selection := default (seqZ 0 count) indices in
      if existsb (λ index, tensor_count session <=? index) selection then
        refused YVEX_ERR_BOUNDS "selected tensor index is absent"%string
      else
        ranges ← mapM (array_get (py_ranges session)) selection;
        plan_complete env (session <| py_active_plans := u64 (py_active_plans session + 1) |>) chunk_bytes page_bytes count
          ranges.

(** src/src/source/payload_plan.c, [yvex_source_payload_plan_build_all] *)
Definition yvex_source_payload_plan_build_all (env : plan_env) (session : payload_session) (chunk_bytes page_bytes : Z)
    : option (payload_session * outcome payload_plan) :=
  yvex_source_payload_plan_build env session None (tensor_count session) chunk_bytes page_bytes.

(** A range of a plan: the session's own row once the session is trusted.
    src/src/source/payload_plan.c, [yvex_source_payload_plan_range_at] *)
Definition yvex_source_payload_plan_range_at (session : payload_session) (plan : payload_plan) (ordinal : Z)
    : option (option payload_range) :=
  if pm_range_count (pp_summary plan) <=? ordinal then Some None
  else
    planned ← array_get (pp_ranges plan) ordinal;
    if py_state session =? YVEX_SOURCE_PAYLOAD_STATE_READY then
      trusted ← array_get (py_ranges session) (pr_tensor planned); Some (Some trusted)
    else Some (Some planned).

(** src/src/source/payload_plan.c, [yvex_source_payload_plan_chunk_at] *)
Definition yvex_source_payload_plan_chunk_at (plan : payload_plan) (ordinal : Z) : option (option payload_chunk) :=
  if ordinal <? pm_chunk_count (pp_summary plan) then chunk ← array_get (pp_chunks plan) ordinal; Some (Some chunk)
  else Some None.

(** * What a plan is *)

Definition chunk_count_of (chunk_bytes : Z) (r : payload_range) : Z := (pr_length r + chunk_bytes - 1) / chunk_bytes.
Definition page_count_of (page_bytes : Z) (r : payload_range) : Z :=
  (pr_end r - 1) / page_bytes - pr_begin r / page_bytes + 1.

(** The rows a session's index holds: the row of a tensor is at the tensor's index, and its bytes are addressable. *)
Record range_row (r : payload_range) : Prop := RangeRow {
  rr_shard : is_u64 (pr_shard r);
  rr_begin : 0 ≤ pr_begin r;
  rr_length : 0 < pr_length r;
  rr_end : pr_end r = pr_begin r + pr_length r;
  rr_addressable : pr_end r ≤ ULLONG_MAX;
}.

Definition session_rows (s : payload_session) : Prop :=
  ∀ i r, py_ranges s !! i = Some r → pr_tensor r = Z.of_nat i ∧ range_row r.

(** A chunk [c] of the range [r]: full, unless it is the range's last. *)
Record chunk_of (chunk_bytes page_bytes : Z) (r : payload_range) (c : payload_chunk) : Prop := ChunkOf {
  co_tensor : pk_tensor c = pr_tensor r ∧ pk_tensor_name c = pr_tensor_name r;
  co_shard : pk_shard c = pr_shard r;
  co_offset : 0 ≤ pk_logical_offset c;
  co_length : 0 < pk_length c ≤ chunk_bytes;
  co_inside : pk_logical_offset c + pk_length c ≤ pr_length r;
  co_full : pk_length c = chunk_bytes ∨ pk_logical_offset c + pk_length c = pr_length r;
  co_absolute : pk_absolute_offset c = pr_begin r + pk_logical_offset c;
  co_first_page : pk_first_page c = pk_absolute_offset c / page_bytes;
  co_last_page : pk_last_page c = (pk_absolute_offset c + pk_length c - 1) / page_bytes;
}.

(** The byte [offset] of the range numbered [i] is in the chunk [c]. *)
Definition chunk_holds (c : payload_chunk) (i offset : Z) : Prop :=
  pk_range_ordinal c = i ∧ pk_logical_offset c ≤ offset < pk_logical_offset c + pk_length c.

Record chunks_tile (chunk_bytes page_bytes : Z) (ranges : list payload_range) (chunks : list payload_chunk) : Prop :=
  ChunksTile {
  ct_each : ∀ k c, chunks !! k = Some c →
    pk_ordinal c = Z.of_nat k ∧ 
    ∃ i r, pk_range_ordinal c = Z.of_nat i ∧ ranges !! i = Some r ∧ chunk_of chunk_bytes page_bytes r c;
  ct_cover : ∀ i r offset, ranges !! i = Some r → 0 ≤ offset < pr_length r →
    ∃ k c, chunks !! k = Some c ∧ chunk_holds c (Z.of_nat i) offset ∧
      ∀ k' c', chunks !! k' = Some c' → chunk_holds c' (Z.of_nat i) offset → k' = k;
  ct_order : ∀ k k' c c', chunks !! k = Some c → chunks !! k' = Some c' → (k < k')%nat →
    pk_range_ordinal c < pk_range_ordinal c' ∨
    pk_range_ordinal c = pk_range_ordinal c' ∧ pk_logical_offset c + pk_length c ≤ pk_logical_offset c';
}.

(** * The chunks of the ranges *)

Definition range_chunk (chunk_bytes page_bytes range_ordinal base : Z) (r : payload_range) (k : Z) : payload_chunk :=
  let offset := k * chunk_bytes in
  let absolute := pr_begin r + offset in
  let length := Z.min chunk_bytes (pr_length r - offset) in
  PayloadChunk (base + k) range_ordinal (pr_tensor r) (pr_tensor_name r) (pr_shard r) offset absolute length
    (absolute / page_bytes) ((absolute + length - 1) / page_bytes).

Fixpoint plan_chunks (chunk_bytes page_bytes range_ordinal base : Z) (ranges : list payload_range)
    : list payload_chunk :=
  match ranges with
  | [] => []
  | r :: ranges =>
      (range_chunk chunk_bytes page_bytes range_ordinal base r <$> seqZ 0 (chunk_count_of chunk_bytes r)) ++
      plan_chunks chunk_bytes page_bytes (range_ordinal + 1) (base + chunk_count_of chunk_bytes r) ranges
  end.

Section chunks.
Context (chunk_bytes page_bytes : Z).
Context (Hc : 0 < chunk_bytes).

Lemma chunk_count_bound r k : 0 < pr_length r → k < chunk_count_of chunk_bytes r ↔ k * chunk_bytes < pr_length r.
Proof.
  intros Hl. unfold chunk_count_of. split; intros H.
  - assert (k + 1 ≤ (pr_length r + chunk_bytes - 1) / chunk_bytes) as H' by lia.
    pose proof (Z.mul_div_le (pr_length r + chunk_bytes - 1) chunk_bytes Hc). nia.
  - cut (k + 1 ≤ (pr_length r + chunk_bytes - 1) / chunk_bytes); [lia|].
    apply Z.div_le_lower_bound; nia.
Qed.

Lemma chunk_count_pos r : 0 < pr_length r → 0 < chunk_count_of chunk_bytes r.
Proof. intros Hl. apply chunk_count_bound; lia. Qed.

Lemma chunk_count_source r :
  0 ≤ pr_length r →
  chunk_count_of chunk_bytes r =
  if pr_length r mod chunk_bytes =? 0 then pr_length r / chunk_bytes else pr_length r / chunk_bytes + 1.
Proof.
  intros Hl. unfold chunk_count_of.
  pose proof (Z.div_mod (pr_length r) chunk_bytes). pose proof (Z.mod_pos_bound (pr_length r) chunk_bytes Hc).
  destruct (Z.eqb_spec (pr_length r mod chunk_bytes) 0) as [E|E]; symmetry.
  - apply (Z.div_unique _ _ _ (chunk_bytes - 1)); lia.
  - apply (Z.div_unique _ _ _ (pr_length r mod chunk_bytes - 1)); lia.
Qed.

Lemma range_chunk_of r range_ordinal base k :
  0 < pr_length r → 0 ≤ k < chunk_count_of chunk_bytes r →
  chunk_of chunk_bytes page_bytes r (range_chunk chunk_bytes page_bytes range_ordinal base r k).
Proof.
  intros Hl Hk. assert (k * chunk_bytes < pr_length r) by (apply chunk_count_bound; lia).
  constructor; simpl; try done; try nia.
Qed.

Lemma plan_chunks_length range_ordinal base ranges :
  Forall range_row ranges →
  Z.of_nat (length (plan_chunks chunk_bytes page_bytes range_ordinal base ranges)) =
  total (chunk_count_of chunk_bytes <$> ranges).
Proof.
  intros H. revert range_ordinal base. induction H as [|r ranges Hr _ IH]; intros; [done|].
  cbn [plan_chunks]. rewrite length_app, length_fmap, length_seqZ, Nat2Z.inj_add, IH, fmap_cons, total_cons.
  pose proof (chunk_count_pos r (rr_length r Hr)). lia.
Qed.

Definition chunks_before (i : nat) (ranges : list payload_range) : Z := total (chunk_count_of chunk_bytes <$> take i ranges).

Lemma chunks_before_S i r ranges : chunks_before (S i) (r :: ranges) = chunk_count_of chunk_bytes r + chunks_before i ranges.
Proof. done. Qed.

Lemma chunks_before_pos i ranges : Forall range_row ranges → 0 ≤ chunks_before i ranges.
Proof. intros H. unfold chunks_before. rewrite <- (plan_chunks_length 0 0) by by apply Forall_take. lia. Qed.

(** Where a chunk of the plan comes from. *)
Lemma plan_chunks_lookup range_ordinal base ranges k c :
  Forall range_row ranges →
  plan_chunks chunk_bytes page_bytes range_ordinal base ranges !! k = Some c ↔
  ∃ i r j, ranges !! i = Some r ∧ 0 ≤ j < chunk_count_of chunk_bytes r ∧
    Z.of_nat k = chunks_before i ranges + j ∧
    c = range_chunk chunk_bytes page_bytes (range_ordinal + Z.of_nat i)
          (base + chunks_before i ranges) r j.
Proof.
  intros H. revert range_ordinal base k. induction H as [|r ranges Hr H IH]; intros range_ordinal base k.
  { split; [done|]. by intros (i & r & j & [=] & _). }
  pose proof (chunk_count_pos r (rr_length r Hr)). simpl. rewrite lookup_app_Some, length_fmap, length_seqZ, IH.
  split.
  - intros [E|(Hk & i & r' & j & E & Hj & Hkj & ->)].
    + rewrite list_lookup_fmap_Some in E. destruct E as (j & -> & [-> Hj]%lookup_seqZ).
      exists 0%nat, r, (0 + Z.of_nat k). change (chunks_before 0 (r :: ranges)) with 0. rewrite !Z.add_0_r. split_and!; [done|lia..|done].
    + exists (S i), r', j. cbn [take lookup list_lookup]. rewrite chunks_before_S. split_and!; [done|lia|lia|lia|]. f_equal; lia.
  - intros (i & r' & j & E & Hj & Hkj & ->). destruct i as [|i].
    + injection E as ->. change (chunks_before 0 (r' :: ranges)) with 0 in *. left. rewrite !Z.add_0_r.
      apply list_lookup_fmap_Some. exists j. split; [done|]. apply lookup_seqZ. lia.
    + cbn in E. rewrite chunks_before_S in *. right.
      pose proof (chunks_before_pos i ranges H).
      split; [lia|]. exists i, r', j. split_and!; [done|lia|lia|lia|]. f_equal; lia.
Qed.

Lemma count_before_mono ranges i i' r :
  Forall range_row ranges → ranges !! i = Some r → (i < i')%nat →
  chunks_before i ranges + chunk_count_of chunk_bytes r ≤
  chunks_before i' ranges.
Proof.
  intros H. revert i i'. induction H as [|r0 ranges Hr0 H IH]; intros i i' E Hlt; [done|].
  destruct i' as [|i']; [lia|]. rewrite chunks_before_S. destruct i as [|i].
  - injection E as ->. pose proof (chunks_before_pos i' ranges H). change (chunks_before 0 (r :: ranges)) with 0. lia.
  - rewrite chunks_before_S. pose proof (IH i i' E). lia.
Qed.

Lemma plan_chunks_tile ranges :
  Forall range_row ranges → chunks_tile chunk_bytes page_bytes ranges (plan_chunks chunk_bytes page_bytes 0 0 ranges).
Proof.
  intros H. split.
  - intros k c (i & r & j & E & Hj & Hk & ->)%plan_chunks_lookup; [|done]. simpl. split; [lia|].
    exists i, r. split_and!; [done..|]. apply range_chunk_of; [|done].
    apply rr_length. by eapply Forall_lookup_1.
  - intros i r offset E Ho. pose proof (Forall_lookup_1 _ _ _ _ H E) as Hr.
    pose proof (Z.mul_div_le offset chunk_bytes Hc). pose proof (Z.mul_succ_div_gt offset chunk_bytes Hc).
    assert (0 ≤ offset / chunk_bytes) by (apply Z.div_pos; lia).
    assert (Hj : 0 ≤ offset / chunk_bytes < chunk_count_of chunk_bytes r).
    { split; [done|]. apply chunk_count_bound; [apply Hr|lia]. }
    pose proof (chunks_before_pos i ranges H).
    exists (Z.to_nat (chunks_before i ranges + offset / chunk_bytes)).
    eexists. split_and!.
    + apply plan_chunks_lookup; [done|]. exists i, r, (offset / chunk_bytes). split_and!; [done|lia|lia|lia|done].
    + unfold chunk_holds. simpl. lia.
    + intros k' c' (i' & r' & j' & E' & Hj' & Hk' & ->)%plan_chunks_lookup; [|done].
      unfold chunk_holds. simpl. intros [Hi Hin]. assert (i' = i) as -> by lia. simplify_eq.
      assert (j' = offset / chunk_bytes); [|lia]. nia.
  - intros k k' c c' (i & r & j & E & Hj & Hk & ->)%plan_chunks_lookup (i' & r' & j' & E' & Hj' & Hk' & ->)%plan_chunks_lookup Hlt;
      [|done..]. simpl.
    destruct (Nat.lt_total i i') as [|[->|]]; [lia| |].
    + right. simplify_eq. split; [done|]. assert (j + 1 ≤ j') by lia. nia.
    + pose proof (count_before_mono ranges i' i r' H E'). lia.
Qed.

(** * The loops *)

Context (Hcu : chunk_bytes ≤ ULLONG_MAX).

(** The fill loop writes the chunks of a range from the [k]th on. *)
Lemma fill_range_exact r range_ordinal base fuel k arr xs :
  range_row r → 0 ≤ base → 0 ≤ k ≤ chunk_count_of chunk_bytes r → chunk_count_of chunk_bytes r - k ≤ Z.of_nat fuel →
  starts_with arr xs → Z.of_nat (length xs) = base + k →
  base + chunk_count_of chunk_bytes r ≤ Z.of_nat (length arr) →
  ∃ arr', fill_range fuel chunk_bytes page_bytes range_ordinal r (Z.min (k * chunk_bytes) (pr_length r)) (arr, base + k) =
    Some (Done (arr', base + chunk_count_of chunk_bytes r)) ∧
    starts_with arr' (xs ++ (range_chunk chunk_bytes page_bytes range_ordinal base r <$> seqZ k (chunk_count_of chunk_bytes r - k))) ∧
    length arr' = length arr.
Proof.
  intros Hr Hb. destruct Hr as [_ Hbegin Hlen Hend Haddr]. revert k arr xs.
  induction fuel as [|fuel IH]; intros k arr xs Hk Hfuel Hxs Hl Harr; pose proof (chunk_count_bound r k Hlen) as Hbound; cbn [fill_range].
  all: destruct (Z.ltb_spec (Z.min (k * chunk_bytes) (pr_length r)) (pr_length r)) as [Hlt|Hge].
  - lia.
  - exists arr. replace k with (chunk_count_of chunk_bytes r) by lia. rewrite Z.sub_diag. simpl. by rewrite app_nil_r.
  - assert (k * chunk_bytes < pr_length r) as Hin by lia. apply Hbound in Hin as Hk'.
    rewrite (Z.min_l (k * chunk_bytes)) by lia.
    replace (base + k) with (Z.of_nat (length xs)) by lia.
    set (n := if chunk_bytes <? pr_length r - k * chunk_bytes then chunk_bytes else pr_length r - k * chunk_bytes).
    assert (n = Z.min chunk_bytes (pr_length r - k * chunk_bytes)) as Hn.
    { unfold n. destruct (Z.ltb_spec chunk_bytes (pr_length r - k * chunk_bytes)); lia. }
    clearbody n.
    assert (0 ≤ k * chunk_bytes) by nia.
    rewrite (u64_id (pr_begin r + k * chunk_bytes)), (u64_id (pr_begin r + k * chunk_bytes + n - 1)), (u64_id (k * chunk_bytes + n)) by ulia.
    set (v := PayloadChunk _ _ _ _ _ _ _ _ _ _).
    destruct (array_push arr xs v) as (arr' & -> & Hp & Hlarr); [done|lia|].
    cbn [run_access run_bind].
    assert (v = range_chunk chunk_bytes page_bytes range_ordinal base r k) as ->.
    { unfold v, range_chunk. rewrite <- Hn. f_equal. lia. }
    destruct (IH (k + 1) arr' (xs ++ [range_chunk chunk_bytes page_bytes range_ordinal base r k])) as (arr2 & E & Hp2 & Hl2);
      [lia|lia|done|rewrite length_app; simpl; lia|lia|].
    exists arr2. split_and!; [| |by rewrite Hl2].
    + rewrite <- E. f_equal; [lia|]. f_equal. lia.
    + rewrite (seqZ_cons k), fmap_cons by lia. rewrite <- (assoc_L (++)) in Hp2.
      by replace (Z.succ k) with (k + 1) by lia; replace (Z.pred (chunk_count_of chunk_bytes r - k)) with (chunk_count_of chunk_bytes r - (k + 1)) by lia.
  - exists arr. replace k with (chunk_count_of chunk_bytes r) by lia. rewrite Z.sub_diag. simpl. by rewrite app_nil_r.
Qed.

Lemma fill_chunks_from ranges : Forall range_row ranges →
  ∀ (o : nat) base arr xs, 0 ≤ base → starts_with arr xs → Z.of_nat (length xs) = base →
  base + total (chunk_count_of chunk_bytes <$> ranges) = Z.of_nat (length arr) →
  for_each (λ entry s, fill_range (S (Z.to_nat (pr_length entry.2 / chunk_bytes))) chunk_bytes page_bytes
              (Z.of_nat entry.1) entry.2 0 s) (imap (λ i r, ((o + i)%nat, r)) ranges) (arr, base) =
  Some (Done (xs ++ plan_chunks chunk_bytes page_bytes (Z.of_nat o) base ranges, Z.of_nat (length arr))).
Proof.
  induction 1 as [|r ranges Hr H IH]; intros o base arr xs Hb Hxs Hl Harr.
  - change (total _) with 0 in Harr. simpl. unfold run_ret. repeat f_equal; [|lia]. rewrite app_nil_r.
    destruct Hxs as [ys ->]. rewrite length_app in Harr. destruct ys; [by rewrite app_nil_r|simpl in Harr; lia].
  - rewrite fmap_cons, total_cons in Harr. pose proof (chunk_count_pos r (rr_length r Hr)) as Hpos.
    assert (0 ≤ total (chunk_count_of chunk_bytes <$> ranges)) by (rewrite <- (plan_chunks_length 0 0) by done; lia).
    destruct (fill_range_exact r (Z.of_nat o) base (S (Z.to_nat (pr_length r / chunk_bytes))) 0 arr xs) as (arr' & E & Hp & Hl');
      [done..|lia| |done|lia|lia|].
    { rewrite chunk_count_source by (destruct Hr; lia). pose proof (rr_length r Hr).
      assert (0 ≤ pr_length r / chunk_bytes) by (apply Z.div_pos; lia). destruct (_ =? 0); lia. }
    rewrite imap_cons. cbn [for_each fst snd]. rewrite Nat.add_0_r.
    rewrite Z.mul_0_l, Z.min_l, Z.add_0_r in E by (destruct Hr; lia). rewrite E. cbn [run_bind].
    rewrite (imap_ext _ (λ i r, ((S o + i)%nat, r))) by (intros; simpl; f_equal; lia).
    rewrite (IH (S o) _ arr' (xs ++ (range_chunk chunk_bytes page_bytes (Z.of_nat o) base r <$> seqZ 0 (chunk_count_of chunk_bytes r))));
      [|lia|by rewrite Z.sub_0_r in Hp|rewrite length_app, length_fmap, length_seqZ; lia|lia].
    rewrite Hl', <- (assoc_L (++)). cbn [plan_chunks]. by replace (Z.of_nat (S o)) with (Z.of_nat o + 1) by lia.
Qed.

Lemma fill_chunks_exact ranges arr :
  Forall range_row ranges → Z.of_nat (length arr) = total (chunk_count_of chunk_bytes <$> ranges) →
  fill_chunks chunk_bytes page_bytes ranges (arr, 0) =
  Some (Done (plan_chunks chunk_bytes page_bytes 0 0 ranges, Z.of_nat (length arr))).
Proof. intros H E. apply (fill_chunks_from ranges H 0 0 arr []); [done| |done|lia]. by exists arr. Qed.

(** Accounting adds the counts of the reference, and refuses exactly where one leaves 64 bits. *)
Lemma plan_account_exact counts r :
  0 < page_bytes → range_row r → is_u64 counts.1.1 → is_u64 counts.1.2 → is_u64 counts.2 →
  plan_account chunk_bytes page_bytes counts r =
  let c := counts.1.1 + chunk_count_of chunk_bytes r in
  let l := counts.1.2 + pr_length r in
  let p := counts.2 + page_count_of page_bytes r in
  if decide (is_u64 c ∧ is_u64 l ∧ is_u64 p) then Some (c, l, p) else None.
Proof.
  intros Hp Hr. destruct counts as [[c l] p]. simpl. intros Hcc Hll Hpp. pose proof (chunk_count_pos r (rr_length r Hr)).
  destruct Hr as [_ Hb Hl He Ha]. unfold plan_account.
  assert (chunk_count_of chunk_bytes r ≤ pr_length r).
  { unfold chunk_count_of. apply Z.div_le_upper_bound; nia. }
  assert (0 ≤ pr_begin r / page_bytes ≤ (pr_end r - 1) / page_bytes) as Hpages.
  { split; [apply Z.div_pos; lia|apply Z.div_le_mono; lia]. }
  assert ((pr_end r - 1) / page_bytes ≤ pr_end r - 1) by (apply Z.div_le_upper_bound; nia).
  assert (0 ≤ pr_length r / chunk_bytes ≤ pr_length r) by (split; [apply Z.div_pos; lia|apply Z.div_le_upper_bound; nia]).
  assert ((if pr_length r mod chunk_bytes =? 0 then pr_length r / chunk_bytes else u64 (pr_length r / chunk_bytes + 1))
          = chunk_count_of chunk_bytes r) as ->.
  { pose proof (chunk_count_source r) as E. destruct (_ =? 0); [|rewrite u64_id]; ulia. }
  rewrite (u64_id (pr_end r - 1)), (u64_id (_ - _)), u64_id by ulia. fold (page_count_of page_bytes r).
  assert (0 < page_count_of page_bytes r ≤ pr_end r) by (unfold page_count_of; lia).
  unfold yvex_core_u64_add, mbind, option_bind.
  destruct (Z.ltb_spec (ULLONG_MAX - chunk_count_of chunk_bytes r) c); [rewrite decide_False by ulia; done|].
  destruct (Z.ltb_spec (ULLONG_MAX - pr_length r) l); [rewrite decide_False by ulia; done|].
  destruct (Z.ltb_spec (ULLONG_MAX - page_count_of page_bytes r) p); [rewrite decide_False by ulia; done|].
  rewrite decide_True by ulia. done.
Qed.

Definition plan_totals (ranges : list payload_range) : Z * Z * Z :=
  (total (chunk_count_of chunk_bytes <$> ranges), total (pr_length <$> ranges), total (page_count_of page_bytes <$> ranges)).

Definition u64_triple (t : Z * Z * Z) : Prop := is_u64 t.1.1 ∧ is_u64 t.1.2 ∧ is_u64 t.2.

#[local] Instance u64_triple_dec t : Decision (u64_triple t).
Proof. unfold u64_triple, is_u64. apply _. Defined.

Lemma page_count_pos r : 0 < page_bytes → range_row r → 0 < page_count_of page_bytes r.
Proof.
  intros Hp [_ Hb Hl He Ha]. unfold page_count_of.
  assert (pr_begin r / page_bytes ≤ (pr_end r - 1) / page_bytes) by (apply Z.div_le_mono; lia). lia.
Qed.

Lemma plan_totals_nonneg ranges : 0 < page_bytes → Forall range_row ranges →
  0 ≤ (plan_totals ranges).1.1 ∧ 0 ≤ (plan_totals ranges).1.2 ∧ 0 ≤ (plan_totals ranges).2.
Proof.
  intros Hp. induction 1 as [|r ranges Hr _ IH]; [done|]. unfold plan_totals in *.
  rewrite !fmap_cons, !total_cons. cbn [fst snd] in *.
  pose proof (page_count_pos r Hp Hr). pose proof (chunk_count_pos r (rr_length r Hr)). pose proof (rr_length r Hr). lia.
Qed.

Lemma plan_account_all_from ranges counts :
  0 < page_bytes → Forall range_row ranges → u64_triple counts →
  plan_account_all chunk_bytes page_bytes counts ranges =
  let t := (counts.1.1 + (plan_totals ranges).1.1, counts.1.2 + (plan_totals ranges).1.2, counts.2 + (plan_totals ranges).2) in
  if decide (u64_triple t) then Some t else None.
Proof.
  intros Hp H. revert counts. induction H as [|r ranges Hr H IH]; intros [[c l] p] (Hcc & Hll & Hpp).
  - change (plan_totals []) with (0, 0, 0). cbn [fst snd plan_account_all]. rewrite !Z.add_0_r. cbn zeta.
    by rewrite decide_True by exact (conj Hcc (conj Hll Hpp)).
  - cbn [plan_account_all]. rewrite plan_account_exact by done. cbn in Hcc, Hll, Hpp. cbn zeta. cbn [fst snd].
    pose proof (plan_totals_nonneg ranges Hp H) as Hnn. unfold plan_totals in *. cbn [fst snd] in *.
    pose proof (page_count_pos r Hp Hr). pose proof (chunk_count_pos r (rr_length r Hr)). pose proof (rr_length r Hr).
    rewrite !fmap_cons, !total_cons.
    case_decide as Hd.
    + cbn [mbind option_bind]. rewrite IH by done. cbn [fst snd]. rewrite !Z.add_assoc. done.
    + cbn [mbind option_bind]. rewrite decide_False; [done|]. unfold u64_triple. cbn [fst snd]. ulia.
Qed.

Lemma plan_account_all_exact ranges :
  0 < page_bytes → Forall range_row ranges →
  plan_account_all chunk_bytes page_bytes (0, 0, 0) ranges =
  if decide (u64_triple (plan_totals ranges)) then Some (plan_totals ranges) else None.
Proof. intros Hp H. by rewrite plan_account_all_from. Qed.
End chunks.

(** * Physical order *)

Definition range_before (a b : payload_range) : Prop := payload_plan_range_compare a b = Lt.

Ltac compare_ranges :=
  unfold range_le, range_before, payload_plan_range_compare in *;
  repeat match goal with
  | |- context [if ?a =? ?b then _ else _] => destruct (Z.eqb_spec a b)
  | |- context [if negb (?a =? ?b) then _ else _] => destruct (Z.eqb_spec a b); cbn [negb]
  | |- context [if ?a <? ?b then _ else _] => destruct (Z.ltb_spec a b)
  end.

#[export] Instance range_le_total : Total range_le.
Proof. intros a b. compare_ranges; try lia; first [by left|by right]. Qed.

Lemma range_le_spec a b :
  range_le a b ↔
  pr_shard a < pr_shard b ∨ pr_shard a = pr_shard b ∧
    (pr_begin a < pr_begin b ∨ pr_begin a = pr_begin b ∧
      (pr_end a < pr_end b ∨ pr_end a = pr_end b ∧ pr_tensor a ≤ pr_tensor b)).
Proof. compare_ranges; split; try done; lia. Qed.

Lemma range_before_spec a b :
  range_before a b ↔
  pr_shard a < pr_shard b ∨ pr_shard a = pr_shard b ∧
    (pr_begin a < pr_begin b ∨ pr_begin a = pr_begin b ∧
      (pr_end a < pr_end b ∨ pr_end a = pr_end b ∧ pr_tensor a < pr_tensor b)).
Proof. compare_ranges; split; try done; lia. Qed.

#[export] Instance range_le_trans : Transitive range_le.
Proof. intros a b c. rewrite !range_le_spec. lia. Qed.

(** After the sort a repeated tensor has a neighbour that repeats it. *)
Lemma repeats_tensor_exact ranges :
  StronglySorted range_le ranges → (∀ a b, a ∈ ranges → b ∈ ranges → pr_tensor a = pr_tensor b → a = b) →
  repeats_tensor ranges = false ↔ NoDup (pr_tensor <$> ranges).
Proof.
  intros Hs Hrow. induction Hs as [|a rest Hs IH Ha]; [by split; [constructor|]|].
  assert (repeats_tensor rest = false ↔ NoDup (pr_tensor <$> rest)) as Hrest.
  { apply IH. intros; apply Hrow; [by right..|done]. }
  rewrite fmap_cons, NoDup_cons, <- Hrest. destruct rest as [|b rest].
  { simpl. split; [intros _; split; [by apply not_elem_of_nil|done]|done]. }
  cbn [repeats_tensor]. rewrite orb_false_iff, Z.eqb_neq. split; intros [Hne Hr]; (split; [|done]).
  - intros (x & Ex & Hx)%list_elem_of_fmap. apply list_elem_of_In in Hx as Hx'. apply Hne.
    assert (a = x) as <- by (apply Hrow; [left|by right|done]).
    destruct Hx' as [->|Hin]; [done|]. apply StronglySorted_inv in Hs as [_ Hb].
    rewrite Forall_forall in Ha, Hb. specialize (Hb a (proj2 (list_elem_of_In _ _) Hin)). specialize (Ha b (list_elem_of_here _ _)).
    rewrite range_le_spec in Ha, Hb. lia.
  - intros E. apply Hne. rewrite E. rewrite fmap_cons. left.
Qed.

Lemma sorted_before ranges :
  StronglySorted range_le ranges → NoDup (pr_tensor <$> ranges) → StronglySorted range_before ranges.
Proof.
  induction 1 as [|a rest Hs IH Ha]; [by constructor|]. rewrite fmap_cons, NoDup_cons. intros [Hni Hnd].
  constructor; [by apply IH|]. rewrite Forall_forall in Ha |- *. intros b Hb. specialize (Ha b Hb).
  assert (pr_tensor a ≠ pr_tensor b) by (intros E; apply Hni; rewrite E; by apply list_elem_of_fmap_2).
  rewrite range_le_spec in Ha. rewrite range_before_spec. lia.
Qed.

(** * Building a plan *)

(** The rows a selection names. *)
Definition plan_rows (s : payload_session) (selection : list Z) : list payload_range :=
  omap (array_get (py_ranges s)) selection.

Lemma plan_rows_get s selection :
  session_rows s → Forall (λ i, 0 ≤ i < tensor_count s) selection →
  mapM (array_get (py_ranges s)) selection = Some (plan_rows s selection) ∧
  pr_tensor <$> plan_rows s selection = selection ∧
  Forall (λ r, range_row r ∧ py_ranges s !! Z.to_nat (pr_tensor r) = Some r) (plan_rows s selection).
Proof.
  intros Hs. induction 1 as [|i selection Hi _ (IHm & IHt & IHr)]; [done|].
  destruct (array_get_is_Some (py_ranges s) i Hi) as [r E]. unfold plan_rows in *. simpl.
  rewrite E, IHm. simpl. apply array_get_Some in E as [_ E]. destruct (Hs _ _ E) as [Ht Hr].
  assert (pr_tensor r = i) as Hti by lia. split_and!; [done|by f_equal|].
  constructor; [|done]. split; [done|]. by rewrite Hti.
Qed.

Record plan_admissible (env : plan_env) (s : payload_session) (indices : option (list Z)) (selection : list Z)
    (chunk_bytes page_bytes : Z) : Prop := PlanAdmissible {
  pa_nonempty : selection ≠ [];
  pa_all : indices = None → Z.of_nat (length selection) = tensor_count s;
  pa_chunk : YVEX_SOURCE_PAYLOAD_MIN_CHUNK_BYTES ≤ chunk_bytes ≤ YVEX_SOURCE_PAYLOAD_MAX_CHUNK_BYTES;
  pa_session_chunk : chunk_bytes ≤ py_chunk_bytes s;
  pa_page : ∃ k, 0 ≤ k ∧ page_bytes = 2 ^ k;
  pa_addressable : Z.of_nat (length selection) ≤ SIZE_MAX / 168;
  pa_memory : pe_plan env = true ∧ pe_ranges env = true;
  pa_state : py_state s = YVEX_SOURCE_PAYLOAD_STATE_UNTRUSTED ∨ py_state s = YVEX_SOURCE_PAYLOAD_STATE_READY;
  pa_inside : Forall (λ i, i < tensor_count s) selection;
  pa_once : NoDup selection;
  pa_totals : u64_triple (plan_totals chunk_bytes page_bytes (plan_rows s selection));
  pa_budget : (plan_totals chunk_bytes page_bytes (plan_rows s selection)).1.1 ≤ py_maximum_plan_chunks s;
  pa_map : (plan_totals chunk_bytes page_bytes (plan_rows s selection)).1.1 ≤ SIZE_MAX / 80;
  pa_chunks : pe_chunks env (plan_totals chunk_bytes page_bytes (plan_rows s selection)).1.1 = true;
}.

(** The plan of a selection: its rows once each in physical order, and chunks that tile them. *)
Record plan_of (s : payload_session) (selection : list Z) (chunk_bytes page_bytes : Z) (plan : payload_plan) : Prop :=
  PlanOf {
  po_ranges : pr_tensor <$> pp_ranges plan ≡ₚ selection;
  po_rows : Forall (λ r, py_ranges s !! Z.to_nat (pr_tensor r) = Some r) (pp_ranges plan);
  po_order : StronglySorted range_before (pp_ranges plan);
  po_chunks : chunks_tile chunk_bytes page_bytes (pp_ranges plan) (pp_chunks plan);
  po_summary : pp_summary plan = PlanSummary (Z.of_nat (length selection)) (Z.of_nat (length (pp_chunks plan)))
    (total (pr_length <$> pp_ranges plan)) (total (page_count_of page_bytes <$> pp_ranges plan)) chunk_bytes page_bytes;
  po_registered : pp_registered plan = true;
}.

Lemma page_mask_pow2 a : 0 < a → Z.land a (a - 1) = 0 ↔ ∃ k, 0 ≤ k ∧ a = 2 ^ k.
Proof.
  intros Ha. split; [intros H; exists (Z.log2 a); split; [apply Z.log2_nonneg|by apply land_pred_pow2]|].
  intros (k & Hk & ->). replace (2 ^ k - 1) with (Z.ones k) by (rewrite Z.ones_equiv; lia).
  rewrite Z.land_ones by done. apply Z.mod_same. lia.
Qed.

(** What the configuration check admits. *)
Lemma configuration_checked s chunk_bytes page_bytes count :
  is_u64 chunk_bytes → is_u64 page_bytes →
  (chunk_bytes <? YVEX_SOURCE_PAYLOAD_MIN_CHUNK_BYTES) || (YVEX_SOURCE_PAYLOAD_MAX_CHUNK_BYTES <? chunk_bytes)
     || (py_chunk_bytes s <? chunk_bytes) || (page_bytes =? 0)
     || negb (Z.land page_bytes (u64 (page_bytes - 1)) =? 0) || (SIZE_MAX / 168 <? count) = false ↔
  YVEX_SOURCE_PAYLOAD_MIN_CHUNK_BYTES ≤ chunk_bytes ≤ YVEX_SOURCE_PAYLOAD_MAX_CHUNK_BYTES ∧
  chunk_bytes ≤ py_chunk_bytes s ∧ (∃ k, 0 ≤ k ∧ page_bytes = 2 ^ k) ∧ count ≤ SIZE_MAX / 168.
Proof.
  intros Hc Hp. rewrite !orb_false_iff, !Z.ltb_ge, negb_false_iff, Z.eqb_neq, Z.eqb_eq. split.
  - intros [[[[[H1 H2] H3] H4] H5] H6]. rewrite u64_id, page_mask_pow2 in H5 by ulia. done.
  - intros ([H1 H2] & H3 & (k & Hk & ->) & H6). pose proof (Z.pow_pos_nonneg 2 k ltac:(lia) Hk).
    rewrite u64_id by ulia. split_and!; [done..|lia| |done]. apply page_mask_pow2; [done|]. eauto.
Qed.

Lemma close_registered s :
  0 ≤ py_active_plans s < ULLONG_MAX →
  yvex_source_payload_plan_close (s <| py_active_plans := u64 (py_active_plans s + 1) |>) true = s.
Proof.
  intros H. unfold yvex_source_payload_plan_close. cbn. rewrite u64_id by ulia.
  destruct (Z.eqb_spec (py_active_plans s + 1) 0); [lia|]. rewrite Z.add_simpl_r. by destruct s.
Qed.

(** The sorted rows of a selection. *)
Lemma sorted_rows s selection :
  session_rows s → Forall (λ i, 0 ≤ i < tensor_count s) selection →
  let ranges := merge_sort range_le (plan_rows s selection) in
  pr_tensor <$> ranges ≡ₚ selection ∧
  Forall (λ r, range_row r ∧ py_ranges s !! Z.to_nat (pr_tensor r) = Some r) ranges ∧
  StronglySorted range_le ranges ∧ (repeats_tensor ranges = false ↔ NoDup selection).
Proof.
  intros Hs Hsel ranges. destruct (plan_rows_get s selection Hs Hsel) as (_ & Ht & Hr).
  pose proof (merge_sort_Permutation range_le (plan_rows s selection)) as Hperm. fold ranges in Hperm.
  assert (pr_tensor <$> ranges ≡ₚ selection) as Hts by by rewrite Hperm, Ht.
  assert (Forall (λ r, range_row r ∧ py_ranges s !! Z.to_nat (pr_tensor r) = Some r) ranges) as Hrs by by rewrite Hperm.
  assert (StronglySorted range_le ranges) as Hss by (apply StronglySorted_merge_sort; apply _).
  split_and!; [done..|]. rewrite repeats_tensor_exact, Hts; [done..|].
  rewrite Forall_forall in Hrs. intros a b [_ Ha]%Hrs [_ Hb]%Hrs E. rewrite E in Ha. congruence.
Qed.

Lemma totals_sorted chunk_bytes page_bytes s selection :
  plan_totals chunk_bytes page_bytes (merge_sort range_le (plan_rows s selection)) =
  plan_totals chunk_bytes page_bytes (plan_rows s selection).
Proof. unfold plan_totals. by rewrite !(total_permutation _ _ _ (merge_sort_Permutation range_le _)). Qed.

(** What the build does with a selection it has copied. *)
Lemma planned_exact s selection chunk_bytes page_bytes :
  session_rows s → Forall (λ i, 0 ≤ i < tensor_count s) selection → NoDup selection →
  0 < chunk_bytes ≤ ULLONG_MAX → 0 < page_bytes →
  let ranges := merge_sort range_le (plan_rows s selection) in
  let t := plan_totals chunk_bytes page_bytes (plan_rows s selection) in
  ∃ chunks, fill_chunks chunk_bytes page_bytes ranges (replicate (Z.to_nat t.1.1) blank_chunk, 0) = Some (Done (chunks, t.1.1)) ∧
    plan_of s selection chunk_bytes page_bytes (PayloadPlan ranges chunks
      (PlanSummary (Z.of_nat (length selection)) t.1.1 t.1.2 t.2 chunk_bytes page_bytes) true).
Proof.
  intros Hs Hsel Hnd Hc Hp ranges t. destruct (sorted_rows s selection Hs Hsel) as (Hts & Hrs & Hss & Hrep). fold ranges in Hts, Hrs, Hss.
  pose proof (totals_sorted chunk_bytes page_bytes s selection) as Htot. fold ranges t in Htot. clearbody t.
  assert (Forall range_row ranges) as Hrows by (eapply Forall_impl; [exact Hrs|by intros ? []]).
  destruct (plan_totals_nonneg chunk_bytes page_bytes ltac:(lia) ranges Hp Hrows) as (Hn & _ & _). rewrite Htot in Hn.
  assert (t.1.1 = total (chunk_count_of chunk_bytes <$> ranges)) as Hcount by by rewrite <- Htot.
  exists (plan_chunks chunk_bytes page_bytes 0 0 ranges). split.
  - rewrite fill_chunks_exact; rewrite ?length_replicate; [|lia..|done|lia]. by rewrite Z2Nat.id.
  - split; cbn; [done| | | | |done].
    + eapply Forall_impl; [exact Hrs|by intros ? []].
    + apply sorted_before; [done|]. by rewrite Hts.
    + apply plan_chunks_tile; [lia|done].
    + rewrite plan_chunks_length; [|lia|done]. by rewrite <- Hcount, <- Htot.
Qed.

Definition build_answers (env : plan_env) (s : payload_session) (indices : option (list Z)) (selection : list Z)
    (chunk_bytes page_bytes : Z) (answer : option (payload_session * outcome payload_plan)) : Prop :=
  (∃ st why, answer = Some (s, Refused st why) ∧ ¬ plan_admissible env s indices selection chunk_bytes page_bytes) ∨
  (∃ plan, answer = Some (s <| py_active_plans := py_active_plans s + 1 |>, Done plan) ∧
     plan_admissible env s indices selection chunk_bytes page_bytes ∧ plan_of s selection chunk_bytes page_bytes plan).

(** A guard that refuses, and what the rest of the build then knows. *)
Lemma build_guard env s indices selection cb pb (g : bool) st why k :
  (g = true → ¬ plan_admissible env s indices selection cb pb) →
  (g = false → build_answers env s indices selection cb pb k) →
  build_answers env s indices selection cb pb (if g then Some (s, Refused st why) else k).
Proof. intros Ht Hf. destruct g; [|by apply Hf]. left. eauto. Qed.

Lemma selection_inside s (selection : list Z) :
  existsb (λ i, tensor_count s <=? i) selection = false ↔ Forall (λ i, i < tensor_count s) selection.
Proof.
  induction selection as [|i selection IH]; [by split|]. simpl. rewrite orb_false_iff, Z.leb_gt, IH, Forall_cons. done.
Qed.

(** The build once the checks before the selection have passed. *)
Lemma build_selected env s indices selection cb pb :
  session_rows s → 0 ≤ py_active_plans s < ULLONG_MAX → Forall (λ i, 0 ≤ i < tensor_count s) selection →
  0 < cb ≤ ULLONG_MAX → 0 < pb →
  (NoDup selection → u64_triple (plan_totals cb pb (plan_rows s selection)) →
   (plan_totals cb pb (plan_rows s selection)).1.1 ≤ py_maximum_plan_chunks s →
   (plan_totals cb pb (plan_rows s selection)).1.1 ≤ SIZE_MAX / 80 →
   pe_chunks env (plan_totals cb pb (plan_rows s selection)).1.1 = true → plan_admissible env s indices selection cb pb) →
  build_answers env s indices selection cb pb
    (ranges ← mapM (array_get (py_ranges s)) selection;
     let session := s <| py_active_plans := u64 (py_active_plans s + 1) |> in
     plan_complete env session cb pb (Z.of_nat (length selection)) ranges).
Proof.
  intros Hs Hact Hsel Hc Hp Hadm. destruct (plan_rows_get s selection Hs Hsel) as (-> & _ & Hr). cbn [mbind option_bind].
  unfold plan_complete. rewrite (close_registered s Hact).
  rewrite plan_account_all_exact; [|lia..|by eapply Forall_impl; [exact Hr|by intros ? []]].
  set (t := plan_totals cb pb (plan_rows s selection)) in *.
  case_decide as Ht; [|left; eexists _, _; split; [done|]; intros []; by apply Ht].
  destruct (sorted_rows s selection Hs Hsel) as (_ & _ & _ & Hrep).
  pose proof (planned_exact s selection cb pb Hs Hsel) as Hplan. cbn zeta in Hplan. fold t in Hplan.
  rewrite (surjective_pairing t), (surjective_pairing t.1).
  change (py_maximum_plan_chunks (s <| _ := _ |>)) with (py_maximum_plan_chunks s).
  apply build_guard; [intros E [] ; apply Hrep in pa_once0; congruence|]. intros Hnd%Hrep.
  apply build_guard; [intros [?%Z.ltb_lt|?%Z.ltb_lt]%orb_true_iff []; unfold t in *; lia|].
  intros [Hmap%Z.ltb_ge Hbudget%Z.ltb_ge]%orb_false_iff.
  apply build_guard; [intros E%negb_true_iff []; unfold t in *; congruence|]. intros Hmem%negb_false_iff.
  destruct (Hplan Hnd Hc Hp) as (chunks & -> & Hof). right. eexists. rewrite u64_id by ulia. split; [done|]. split; [auto|done].
Qed.

(** C34: over a session whose rows are indexed, [yvex_source_payload_plan_build] never writes outside the chunk array it
    allocated, and it succeeds exactly when the selection is admissible: nonempty, in range, without repetition, the
    configuration inside the session's bounds with a power of two for a page, the session idle, the memory granted, and
    the totals within 64 bits and the session's budget. A plan holds the selected rows once each in physical order and
    chunks that tile them: every byte of every row is in one chunk, no chunk crosses rows or exceeds the chunk size, the
    order is physical and the summary counts are exact; the session has one more plan. After a refusal the session
    is as it was. *)
Theorem payload_plan_exact env s indices count chunk_size page_size :
  let selection := default (seqZ 0 count) indices in
  let chunk_bytes := if chunk_size =? 0 then py_chunk_bytes s else chunk_size in
  let page_bytes := if page_size =? 0 then py_page_bytes s else page_size in
  session_rows s → 0 ≤ py_active_plans s < ULLONG_MAX →
  Z.of_nat (length selection) = count → Forall (λ i, 0 ≤ i) selection → is_u64 chunk_bytes → is_u64 page_bytes →
  build_answers env s indices selection chunk_bytes page_bytes
    (yvex_source_payload_plan_build env s indices count chunk_size page_size).
Proof.
  intros selection cb pb Hs Hact Hcount Hpos Hcb Hpb. unfold yvex_source_payload_plan_build. cbn zeta. fold selection cb pb.
  apply build_guard; [|intros [Hne%Z.eqb_neq Hall]%orb_false_iff].
  { intros [Hz%Z.eqb_eq|[E%bool_decide_eq_true Hn%negb_true_iff%Z.eqb_neq]%andb_true_iff]%orb_true_iff [].
    - apply pa_nonempty0. apply nil_length_inv. lia.
    - apply pa_all0 in E. lia. }
  apply build_guard; [|intros Hconf%configuration_checked; [|done..]].
  { intros E Ha. assert (false = true); [|done]. rewrite <- E. symmetry.
    apply configuration_checked; [done..|]. destruct Ha. rewrite <- Hcount. done. }
  apply build_guard; [intros E%negb_true_iff []; destruct pa_memory0; congruence|]. intros Hm1%negb_false_iff.
  apply build_guard; [intros E%negb_true_iff []; destruct pa_memory0; congruence|]. intros Hm2%negb_false_iff.
  apply build_guard; [intros [?%negb_true_iff%Z.eqb_neq ?%negb_true_iff%Z.eqb_neq]%andb_true_iff []; tauto|].
  rewrite andb_false_iff, !negb_false_iff, !Z.eqb_eq. intros Hst.
  apply build_guard; [intros E []; apply selection_inside in pa_inside0; congruence|]. intros Hin%selection_inside.
  rewrite <- Hcount. destruct Hconf as ([Hc1 Hc2] & Hc3 & (k & Hk & Hpk) & Hc4).
  pose proof (Z.pow_pos_nonneg 2 k ltac:(lia) Hk). change YVEX_SOURCE_PAYLOAD_MIN_CHUNK_BYTES with 4096 in *.
  apply build_selected; [done..| | |lia|].
  - apply Forall_and. done.
  - ulia.
  - intros. split; try done; [|intros Hi|by exists k|lia].
    + intros E. rewrite E in Hcount. simpl in Hcount. lia.
    + rewrite (bool_decide_eq_true_2 _ Hi) in Hall. apply negb_false_iff, Z.eqb_eq in Hall. lia.
Qed.

(** A row of bytes. *)
Definition sample_range (tensor shard first last : Z) : payload_range :=
  PayloadRange tensor shard first last (last - first) [] 64 (first - 64) (last - 64) YVEX_NATIVE_DTYPE_U8 [last - first].

(** Three tensors of two shards; a plan of two of them, out of order. *)
Definition sample_session : payload_session :=
  PayloadSession YVEX_SOURCE_PAYLOAD_STATE_READY 4096 4096 16
    [sample_range 0 1 100 10100; sample_range 1 0 8192 8193; sample_range 2 0 64 4160] 0.

Definition sample_plan_env : plan_env := PlanEnv true true (λ _, true).

Lemma sample_rows : session_rows sample_session.
Proof.
  intros i r E. destruct i as [|[|[|]]]; simplify_eq/=; (split; [done|constructor; simpl; ulia]).
Qed.

(** The sample builds: the tensor of shard 0 first, in one chunk, then the three chunks of the other. *)
Lemma payload_plan_exact_witness :
  build_answers sample_plan_env sample_session (Some [0; 2]) [0; 2] 4096 4096
    (yvex_source_payload_plan_build sample_plan_env sample_session (Some [0; 2]) 2 0 0) ∧
  (∃ s plan, yvex_source_payload_plan_build sample_plan_env sample_session (Some [0; 2]) 2 0 0 = Some (s, Done plan) ∧
    (pr_tensor <$> pp_ranges plan) = [2; 0] ∧
    (pk_length <$> pp_chunks plan) = [4096; 4096; 4096; 1808]).
Proof.
  split.
  - apply (payload_plan_exact sample_plan_env sample_session (Some [0; 2]) 2 0 0);
      [exact sample_rows|simpl; ulia|reflexivity|repeat constructor; lia|simpl; ulia|simpl; ulia].
  - eexists _, _. split; [vm_compute; reflexivity|]. split; reflexivity.
Defined.

(** A plan's rows are read inside its array, and the session's inside its own. *)
Lemma range_at_inside s selection cb pb plan ordinal :
  plan_of s selection cb pb plan → 0 ≤ ordinal → Forall (λ i, 0 ≤ i) selection →
  ∃ r, yvex_source_payload_plan_range_at s plan ordinal = Some r ∧ r = pp_ranges plan !! Z.to_nat ordinal.
Proof.
  intros [Hperm Hrows _ _ Hsum _] Ho Hsel. unfold yvex_source_payload_plan_range_at. rewrite Hsum. cbn [pm_range_count].
  apply Permutation_length in Hperm as Hl. rewrite length_fmap in Hl.
  destruct (Z.leb_spec (Z.of_nat (length selection)) ordinal).
  { eexists. split; [done|]. symmetry. apply lookup_ge_None. lia. }
  destruct (array_get_is_Some (pp_ranges plan) ordinal) as [r E]; [lia|]. rewrite E. cbn [mbind option_bind].
  apply array_get_Some in E as [_ E]. rewrite E. rewrite Forall_lookup in Hrows. specialize (Hrows _ _ E).
  assert (0 ≤ pr_tensor r).
  { rewrite Forall_forall in Hsel. apply Hsel. rewrite <- Hperm. apply list_elem_of_fmap_2. by eapply list_elem_of_lookup_2. }
  destruct (_ =? _); [|by eexists]. unfold array_get. destruct (Z.ltb_spec (pr_tensor r) 0); [lia|]. rewrite Hrows. by eexists.
Qed.

Lemma chunk_at_inside s selection cb pb plan ordinal :
  plan_of s selection cb pb plan → 0 ≤ ordinal →
  yvex_source_payload_plan_chunk_at plan ordinal = Some (pp_chunks plan !! Z.to_nat ordinal).
Proof.
  intros [_ _ _ _ Hsum _] Ho. unfold yvex_source_payload_plan_chunk_at. rewrite Hsum. cbn [pm_chunk_count].
  destruct (Z.ltb_spec ordinal (Z.of_nat (length (pp_chunks plan)))).
  - destruct (array_get_is_Some (pp_chunks plan) ordinal) as [c E]; [lia|]. rewrite E. apply array_get_Some in E as [_ ->]. done.
  - f_equal. symmetry. apply lookup_ge_None. lia.
Qed.
