(* ===== verification/PayloadIndex.v ===== *)
(** The index of the tensor ranges of a payload session, from [src/source/payload.c]: every row of a snapshot becomes an
    absolute byte range of its shard, and no two ranges of a shard overlap.

    A refused build is the end of its session, so a refusal carries no session. *)

From S2P Require Import Prelude Status Exec HashIndex NativeTable SourceSnapshot PayloadPlan.
From stdpp Require Import sorting.
#[local] Open Scope Z_scope.
#[local] Abbreviation total := Prelude.total.

(** * Data *)

(** src/src/source/payload.c:265-270, [payload_physical_row] *)
Record payload_physical_row := PhysicalRow { ph_tensor : Z; ph_shard : Z; ph_begin : Z; ph_end : Z }.

(** The members of a session the index is built in. *)
Record payload_index := PayloadIndex {
  px_snapshot : yvex_source_tensor_snapshot;
  px_ranges : list payload_range;
  px_logical_bytes : Z;
  px_shard_lookups : Z;
}.

#[export] Instance payload_index_eta : Eta payload_index := λ s,
  PayloadIndex (px_snapshot s) (px_ranges s) (px_logical_bytes s) (px_shard_lookups s).

(** Rows before they are written: zeroed memory. *)
Definition blank_range : payload_range := PayloadRange 0 0 0 0 0 [] 0 0 0 YVEX_NATIVE_DTYPE_UNKNOWN [].
Definition blank_physical : payload_physical_row := PhysicalRow 0 0 0 0.

(** * The bytes of a tensor *)

(** src/src/source/payload.c:293-297, [payload_tensor_storage] *)
Fixpoint payload_elements (elements : Z) (dims : list Z) : option Z :=
  match dims with
  | [] => Some elements
  | dim :: dims =>
      if dim =? 0 then None
      else elements ← yvex_core_u64_mul elements dim; payload_elements elements dims
  end.

(** src/src/source/payload.c, [payload_tensor_storage] *)
Definition payload_tensor_storage (tensor : yvex_native_weight_info) : option Z :=
  elements ← payload_elements 1 (nw_dims tensor);
  match nw_dtype tensor with
  | YVEX_NATIVE_DTYPE_F64 | YVEX_NATIVE_DTYPE_I64 => yvex_core_u64_mul elements 8
  | YVEX_NATIVE_DTYPE_F32 | YVEX_NATIVE_DTYPE_I32 => yvex_core_u64_mul elements 4
  | YVEX_NATIVE_DTYPE_F16 | YVEX_NATIVE_DTYPE_BF16 | YVEX_NATIVE_DTYPE_I16 => yvex_core_u64_mul elements 2
  | YVEX_NATIVE_DTYPE_I8 | YVEX_NATIVE_DTYPE_U8 | YVEX_NATIVE_DTYPE_BOOL
  | YVEX_NATIVE_DTYPE_F8_E4M3 | YVEX_NATIVE_DTYPE_F8_E5M2 | YVEX_NATIVE_DTYPE_F8_E8M0 => yvex_core_u64_mul elements 1
  | YVEX_NATIVE_DTYPE_FP4 => if negb (Z.land elements 1 =? 0) then None else Some (elements / 2)
  | YVEX_NATIVE_DTYPE_UNKNOWN | YVEX_NATIVE_DTYPE_OTHER => None
  end.

(** * The index *)

(** src/src/source/payload.c, [payload_physical_row_compare] *)
Definition payload_physical_row_compare (a b : payload_physical_row) : comparison :=
  if negb (ph_shard a =? ph_shard b) then (if ph_shard a <? ph_shard b then Lt else Gt)
  else if negb (ph_begin a =? ph_begin b) then (if ph_begin a <? ph_begin b then Lt else Gt)
  else if negb (ph_end a =? ph_end b) then (if ph_end a <? ph_end b then Lt else Gt)
  else if ph_tensor a <? ph_tensor b then Lt else if ph_tensor b <? ph_tensor a then Gt else Eq.

Definition physical_le (a b : payload_physical_row) : Prop := payload_physical_row_compare a b ≠ Gt.

#[export] Instance physical_le_dec a b : Decision (physical_le a b).
Proof. unfold physical_le. apply _. Defined.

(** The range of the tensor [index], and its physical row.
    src/src/source/payload.c, [payload_index_range] *)
Definition payload_index_range (index : Z) (s : payload_index) : run (payload_index * payload_physical_row) :=
  let! tensor := run_access (yvex_source_tensor_snapshot_at (px_snapshot s) index) in
  match tensor with
  | None => run_refuse YVEX_ERR_FORMAT "retained tensor row is absent"
  | Some tensor =>
      let! shard := run_access (yvex_source_tensor_snapshot_shard_find (px_snapshot s) (nw_shard_path tensor)) in
      match shard with
      | None => run_refuse YVEX_ERR_FORMAT "tensor refers to an absent source shard"
      | Some shard =>
          refuse_when (nw_data_end tensor <=? nw_data_start tensor) || (ss_payload_bytes shard <? nw_data_end tensor)
            with YVEX_ERR_BOUNDS "tensor range lies outside source data region"%string;
          refuse_when negb (bool_decide (payload_tensor_storage tensor = Some (nw_data_bytes tensor)))
            with YVEX_ERR_FORMAT "tensor dtype and shape disagree with verified byte range"%string;
          match yvex_core_u64_add (ss_data_region_offset shard) (nw_data_start tensor),
                yvex_core_u64_add (ss_data_region_offset shard) (nw_data_end tensor) with
          | Some absolute_begin, Some absolute_end =>
              refuse_when (ss_file_bytes shard <? absolute_end) || (absolute_end <? absolute_begin)
                with YVEX_ERR_BOUNDS "tensor range exceeds source file"%string;
              let range := PayloadRange index (ss_canonical_id shard) absolute_begin absolute_end (nw_data_bytes tensor)
                (nw_name tensor) (ss_data_region_offset shard) (nw_data_start tensor) (nw_data_end tensor) (nw_dtype tensor)
                (nw_dims tensor) in
              let! _ := run_access (if bool_decide (length (nw_dims tensor) ≤ YVEX_NATIVE_WEIGHT_MAX_DIMS)%nat then Some () else None) in
              let! ranges := run_access (array_set (px_ranges s) index range) in
              match yvex_core_u64_add (px_logical_bytes s) (pr_length range) with
              | None => run_refuse YVEX_ERR_BOUNDS "aggregate tensor byte count overflow"
              | Some logical_bytes =>
                  run_ret (PayloadIndex (px_snapshot s) ranges logical_bytes (u64 (px_shard_lookups s + 1)),
                    PhysicalRow index (pr_shard range) (pr_begin range) (pr_end range))
              end
          | _, _ => run_refuse YVEX_ERR_BOUNDS "tensor absolute range overflow"
          end
      end
  end.

(** Neighbours in physical order do not overlap.
    src/src/source/payload.c:680-700, [payload_build_indexes] *)
Fixpoint ranges_disjoint (ranges : list payload_range) (order : list payload_physical_row) : run () :=
  match order with
  | a :: ((b :: _) as rest) =>
      let! prior := run_access (array_get ranges (ph_tensor a)) in
      let! next := run_access (array_get ranges (ph_tensor b)) in
      refuse_when (pr_shard prior =? pr_shard next) && (pr_begin next <? pr_end prior)
        with YVEX_ERR_FORMAT "source tensor payload ranges overlap"%string;
      ranges_disjoint ranges rest
  | _ => run_ret ()
  end.

(** [memory] is what the allocator answers for the physical order.
    src/src/source/payload.c:665-703, [payload_build_indexes] *)
Definition payload_build_ranges (memory : bool) (tensor_count : Z) (s : payload_index) : run payload_index :=
  refuse_when negb memory with YVEX_ERR_NOMEM "range-order allocation failed"%string;
  let! (s, physical_order) := for_range 0 tensor_count (λ index '(s, physical_order),
    let! (s, row) := payload_index_range index s in
    let! physical_order := run_access (array_set physical_order index row) in
    run_ret (s, physical_order)) (s, replicate (Z.to_nat tensor_count) blank_physical) in
  let! _ := ranges_disjoint (px_ranges s) (merge_sort physical_le physical_order) in
  run_ret s.

(** * What the index is *)

(** The bits of a number. *)
Definition dtype_bits (dtype : yvex_native_dtype) : option Z :=
  match dtype with
  | YVEX_NATIVE_DTYPE_UNKNOWN | YVEX_NATIVE_DTYPE_OTHER => None
  | YVEX_NATIVE_DTYPE_F64 | YVEX_NATIVE_DTYPE_I64 => Some 64
  | YVEX_NATIVE_DTYPE_F32 | YVEX_NATIVE_DTYPE_I32 => Some 32
  | YVEX_NATIVE_DTYPE_F16 | YVEX_NATIVE_DTYPE_BF16 | YVEX_NATIVE_DTYPE_I16 => Some 16
  | YVEX_NATIVE_DTYPE_FP4 => Some 4
  | _ => Some 8
  end.

(** The tensor takes [bytes] whole bytes: its type is known, and no dimension is zero. *)
Definition takes_bytes (tensor : yvex_native_weight_info) (bytes : Z) : Prop :=
  Forall (λ dim, 0 < dim) (nw_dims tensor) ∧ product (nw_dims tensor) ≤ ULLONG_MAX ∧
  ∃ bits, dtype_bits (nw_dtype tensor) = Some bits ∧ product (nw_dims tensor) * bits = 8 * bytes.

(** A row that has its bytes in the payload of a shard of the catalog, and inside the shard's file. *)
Definition row_indexable (shards : list yvex_source_shard_snapshot) (row : yvex_native_weight_info) : Prop :=
  ∃ shard, shard_named shards (nw_shard_path row) = Some shard ∧
    nw_data_start row < nw_data_end row ≤ ss_payload_bytes shard ∧
    ss_data_region_offset shard + nw_data_end row ≤ ss_file_bytes shard ∧
    takes_bytes row (nw_data_bytes row).

(** The range of a row: its offsets moved to the data region of the shard. *)
Definition row_range (shards : list yvex_source_shard_snapshot) (index : nat) (row : yvex_native_weight_info)
    : option payload_range :=
  shard ← shard_named shards (nw_shard_path row);
  Some (PayloadRange (Z.of_nat index) (ss_canonical_id shard)
    (ss_data_region_offset shard + nw_data_start row) (ss_data_region_offset shard + nw_data_end row) (nw_data_bytes row)
    (nw_name row) (ss_data_region_offset shard) (nw_data_start row) (nw_data_end row) (nw_dtype row) (nw_dims row)).

Definition ranges_apart (a b : payload_range) : Prop :=
  pr_shard a = pr_shard b → pr_end a ≤ pr_begin b ∨ pr_end b ≤ pr_begin a.

Definition pairwise {A} (R : A → A → Prop) (l : list A) : Prop :=
  ∀ i j a b, i ≠ j → l !! i = Some a → l !! j = Some b → R a b.

(** The numbers of a shard and of a row are machine words. *)
Definition shard_words (shard : yvex_source_shard_snapshot) : Prop :=
  is_u64 (ss_canonical_id shard) ∧ is_u64 (ss_file_bytes shard) ∧ is_u64 (ss_data_region_offset shard) ∧ is_u64 (ss_payload_bytes shard).
Definition row_words (row : yvex_native_weight_info) : Prop := Forall is_u64 (nw_dims row).

(** * Storage *)

Lemma payload_elements_exact dims elements n :
  is_u64 elements → 0 < elements → Forall is_u64 dims →
  payload_elements elements dims = Some n ↔
  Forall (λ dim, 0 < dim) dims ∧ elements * product dims ≤ ULLONG_MAX ∧ n = elements * product dims.
Proof.
  intros He Hp Hd. revert elements He Hp. induction Hd as [|dim dims Hdim Hd IH]; intros elements He Hp; cbn [payload_elements product foldr].
  { rewrite Z.mul_1_r. split; [intros [= <-]; split; [constructor|ulia]|]. by intros (_ & _ & ->). }
  fold (product dims). destruct (Z.eqb_spec dim 0) as [->|Hne].
  { split; [done|]. intros (Hf%Forall_cons & _). lia. }
  assert (0 < dim) as Hpos by ulia. rewrite Forall_cons.
  destruct (yvex_core_u64_mul elements dim) as [m|] eqn:Em; cbn [mbind option_bind].
  - apply u64_mul_Some in Em as [-> Hm]; [|done..]. rewrite IH by (done || nia). rewrite !Z.mul_assoc. tauto.
  - split; [done|]. apply u64_mul_None in Em; [|done..]. intros ([_ Hf] & Hle & _).
    pose proof (product_pos dims Hf). nia.
Qed.

Lemma land_one z : 0 ≤ z → Z.land z 1 = z mod 2.
Proof. intros Hz. change 1 with (Z.ones 1). by rewrite Z.land_ones. Qed.

Lemma storage_exact tensor bytes :
  row_words tensor → is_u64 bytes → payload_tensor_storage tensor = Some bytes ↔ takes_bytes tensor bytes.
Proof.
  intros Hw Hb. unfold payload_tensor_storage, takes_bytes.
  destruct (payload_elements 1 (nw_dims tensor)) as [n|] eqn:En; cbn [mbind option_bind].
  - apply payload_elements_exact in En as (Hpos & Hle & ->); [|ulia|lia|done]. rewrite !Z.mul_1_l in *.
    pose proof (product_pos _ Hpos). assert (is_u64 (product (nw_dims tensor))) as Hp by ulia.
    assert (∀ w, is_u64 w → yvex_core_u64_mul (product (nw_dims tensor)) w = Some bytes ↔
      Forall (λ dim, 0 < dim) (nw_dims tensor) ∧ product (nw_dims tensor) ≤ ULLONG_MAX ∧
      ∃ bits, Some (8 * w) = Some bits ∧ product (nw_dims tensor) * bits = 8 * bytes) as Hmul.
    { intros w Hww. rewrite u64_mul_Some by done. split.
      - intros [-> _]. split; [done|]. split; [done|]. exists (8 * w). split; [done|lia].
      - intros (_ & _ & bits & [= <-] & E). assert (bytes = product (nw_dims tensor) * w) as -> by lia. done. }
    destruct (nw_dtype tensor); cbn [dtype_bits]; try (apply (Hmul 1); ulia); try (apply (Hmul 2); ulia);
      try (apply (Hmul 4); ulia); try (apply (Hmul 8); ulia); try (split; [done|by intros (_ & _ & ? & ? & _)]).
    rewrite land_one by lia. destruct (Z.eqb_spec (product (nw_dims tensor) mod 2) 0) as [E|E]; cbn [negb]; split.
    + intros [= <-]. split; [done|]. split; [done|]. exists 4. split; [done|]. pose proof (Z.div_mod (product (nw_dims tensor)) 2). lia.
    + intros (_ & _ & bits & [= <-] & E'). f_equal. pose proof (Z.div_mod (product (nw_dims tensor)) 2). lia.
    + done.
    + intros (_ & _ & bits & [= <-] & E'). destruct E. replace (product (nw_dims tensor)) with (bytes * 2) by lia. by rewrite Z.mod_mul.
  - split; [done|]. intros (Hpos & Hle & _).
    assert (payload_elements 1 (nw_dims tensor) = Some (1 * product (nw_dims tensor))); [|congruence].
    apply payload_elements_exact; [ulia|lia|done|]. by rewrite Z.mul_1_l.
Qed.

(** * One row *)

Definition physical (r : payload_range) : payload_physical_row :=
  PhysicalRow (pr_tensor r) (pr_shard r) (pr_begin r) (pr_end r).

Section rows.
Context (snapshot : yvex_source_tensor_snapshot) (shards : list yvex_source_shard_snapshot).
Context (Hsnapshot : snapshot_ok snapshot shards) (Hshards : Forall shard_words shards).
Context (Hrows : Forall row_words (nt_items (sn_table snapshot))).

Local Abbreviation items := (nt_items (sn_table snapshot)).

Lemma items_row i row : items !! i = Some row → row_ok row ∧ row_words row.
Proof.
  intros E. destruct Hsnapshot as [[Hok _] _ _ _ _]. split; [|by eapply Forall_lookup_1].
  eapply Forall_lookup_1; [apply (no_rows _ Hok)|done].
Qed.

Lemma shard_named_words name shard : shard_named shards name = Some shard → shard_words shard.
Proof.
  unfold shard_named. destruct (list_find _ shards) as [[i s]|] eqn:E; [|done]. intros [= <-].
  apply list_find_Some in E as (E & _ & _). by eapply Forall_lookup_1.
Qed.

Lemma row_range_row i row r :
  items !! i = Some row → row_indexable shards row → row_range shards i row = Some r → range_row r.
Proof.
  intros Ei (shard & Es & Hext & Hfile & _) Er. unfold row_range in Er. rewrite Es in Er. injection Er as <-.
  destruct (items_row i row Ei) as [[_ _ Hstart Hend Hbytes] _]. destruct (shard_named_words _ _ Es) as (? & ? & ? & ?).
  split; cbn; ulia.
Qed.

(** What the step of the row [i] does to the session, and when. *)
Lemma index_range_row i row s :
  items !! i = Some row → px_snapshot s = snapshot → is_u64 (px_logical_bytes s) → (i < length (px_ranges s))%nat →
  px_logical_bytes s + nw_data_bytes row ≤ ULLONG_MAX →
  (∃ r ranges lookups, payload_index_range (Z.of_nat i) s =
     Some (Done (PayloadIndex snapshot ranges (px_logical_bytes s + nw_data_bytes row) lookups, physical r)) ∧
     array_set (px_ranges s) (Z.of_nat i) r = Some ranges ∧ row_range shards i row = Some r ∧ row_indexable shards row) ∨
  (∃ st why, payload_index_range (Z.of_nat i) s = Some (Refused st why) ∧ ¬ row_indexable shards row).
Proof.
  intros Ei Hsn Hlog Hi Hfits. unfold payload_index_range. rewrite Hsn.
  destruct (items_row i row Ei) as [[Hrank _ Hstart Hend Hbytes] Hw].
  assert (yvex_source_tensor_snapshot_at snapshot (Z.of_nat i) = Some (Some row)) as ->.
  { unfold yvex_source_tensor_snapshot_at, yvex_native_weight_table_at, nt_count.
    pose proof (lookup_lt_Some _ _ _ Ei). rewrite (proj2 (Z.leb_gt _ _)) by lia. by rewrite array_get_nat, Ei. }
  cbn [run_access run_bind]. rewrite (shard_find_exact snapshot shards) by done. cbn [run_access run_bind].
  destruct (shard_named shards (nw_shard_path row)) as [shard|] eqn:Es.
  2: { right. eexists _, _. split; [done|]. intros (? & ? & _). congruence. }
  destruct (shard_named_words _ _ Es) as (Hid & Hfile & Hoff & Hpay).
  assert (¬ (nw_data_start row < nw_data_end row ≤ ss_payload_bytes shard ∧
    ss_data_region_offset shard + nw_data_end row ≤ ss_file_bytes shard ∧ takes_bytes row (nw_data_bytes row)) →
    ¬ row_indexable shards row) as Hinv.
  { intros HP (shard' & Es' & H). apply HP. rewrite Es in Es'. by injection Es' as <-. }
  destruct ((nw_data_end row <=? nw_data_start row) || (ss_payload_bytes shard <? nw_data_end row)) eqn:E1.
  { right. eexists _, _. split; [done|]. apply Hinv. rewrite orb_true_iff, Z.leb_le, Z.ltb_lt in E1. lia. }
  rewrite orb_false_iff, Z.leb_gt, Z.ltb_ge in E1. destruct E1 as [E1 E1'].
  assert (is_u64 (nw_data_bytes row)) as Hb by ulia.
  case_bool_decide as E2; cbn [negb].
  2: { right. eexists _, _. split; [done|]. apply Hinv. rewrite <- storage_exact by done. tauto. }
  apply storage_exact in E2; [|done..].
  destruct (yvex_core_u64_add (ss_data_region_offset shard) (nw_data_start row)) as [b|] eqn:Eb.
  2: { right. eexists _, _. split; [done|]. apply Hinv. apply u64_add_None in Eb; ulia. }
  destruct (yvex_core_u64_add (ss_data_region_offset shard) (nw_data_end row)) as [e|] eqn:Ee.
  2: { right. eexists _, _. split; [done|]. apply Hinv. apply u64_add_None in Ee; ulia. }
  apply u64_add_Some in Eb as [-> Hbw]; [|ulia..]. apply u64_add_Some in Ee as [-> Hew]; [|ulia..].
  rewrite (proj2 (Z.ltb_ge (_ + nw_data_end row) _)), orb_false_r by lia.
  destruct (Z.ltb_spec (ss_file_bytes shard) (ss_data_region_offset shard + nw_data_end row)).
  { right. eexists _, _. split; [done|]. apply Hinv. lia. }
  rewrite bool_decide_eq_true_2 by done. cbn [run_access run_bind]. cbn zeta.
  rewrite array_set_inside by lia. cbn [run_access run_bind pr_length].
  rewrite (proj2 (u64_add_Some _ (nw_data_bytes row) (px_logical_bytes s + nw_data_bytes row) Hlog Hb)) by (split; [done|ulia]).
  left. eexists (PayloadRange (Z.of_nat i) (ss_canonical_id shard) _ _ _ _ _ _ _ _ _), _, _. split; [reflexivity|].
  rewrite array_set_inside by lia. split; [done|]. split; [unfold row_range; rewrite Es; done|]. exists shard. auto.
Qed.

(** The rows indexed so far. *)
Definition indexed (done_ : list Z) (st : payload_index * list payload_physical_row) : Prop :=
  let n := length done_ in
  px_snapshot st.1 = snapshot ∧ px_logical_bytes st.1 = total (nw_data_bytes <$> take n items) ∧
  length (px_ranges st.1) = length items ∧ length st.2 = length items ∧
  Forall (row_indexable shards) (take n items) ∧
  ∃ ranges, imap (row_range shards) (take n items) = Some <$> ranges ∧
    starts_with (px_ranges st.1) ranges ∧ starts_with st.2 (physical <$> ranges).

Lemma bytes_prefix n : total (nw_data_bytes <$> take n items) ≤ ULLONG_MAX ∧ 0 ≤ total (nw_data_bytes <$> take n items).
Proof.
  destruct Hsnapshot as [[Hok _] _ _ _ _]. destruct (no_total _ Hok) as [E Hw]. rewrite E in Hw.
  pose proof (no_rows _ Hok) as Hr. rewrite <- (take_drop n items) in Hw, Hr. rewrite fmap_app, total_app in Hw.
  apply Forall_app in Hr as [Hl Hr].
  assert (∀ l, Forall row_ok l → 0 ≤ total (nw_data_bytes <$> l)) as Hpos.
  { induction 1 as [|x l Hx _ IH]; [done|]. rewrite fmap_cons, total_cons. destruct Hx. lia. }
  pose proof (Hpos _ Hl). pose proof (Hpos _ Hr). ulia.
Qed.

Lemma index_step done_ x st row :
  x = Z.of_nat (length done_) → items !! length done_ = Some row → indexed done_ st →
  let step := (let! (s, r) := payload_index_range x st.1 in
    let! physical_order := run_access (array_set st.2 x r) in run_ret (s, physical_order)) in
  (∃ st', step = Some (Done st') ∧ indexed (done_ ++ [x]) st') ∨
  (∃ s why, step = Some (Refused s why) ∧ ¬ row_indexable shards row).
Proof.
  intros -> Erow (Hsn & Hlog & Hlr & Hlp & Hall & ranges & Hrg & Hst1 & Hst2). cbn zeta.
  pose proof (lookup_lt_Some _ _ _ Erow) as Hlt. pose proof (bytes_prefix (S (length done_))) as Hnext.
  rewrite (take_S_r _ _ _ Erow), fmap_app, total_app in Hnext. cbn [fmap list_fmap] in Hnext. rewrite total_cons in Hnext.
  destruct (bytes_prefix (length done_)) as [Hfit Hpos]. rewrite <- Hlog in *.
  assert (length ranges = length done_) as Hlen.
  { apply (f_equal length) in Hrg. rewrite length_imap, length_fmap, length_take in Hrg. lia. }
  destruct (index_range_row (length done_) row st.1 Erow Hsn) as [(r & arr & lookups & -> & Harr & Er & Hri)|(s & why & -> & Hno)];
    [ulia|lia|cbn [total foldr] in Hnext; lia| |].
  2: { right. by exists s, why. }
  left. cbn [run_bind]. destruct (array_push (px_ranges st.1) ranges r Hst1) as (arr' & E & Hs' & Hl'); [lia|].
  rewrite Hlen, Harr in E. injection E as ->.
  destruct (array_push st.2 (physical <$> ranges) (physical r) Hst2) as (phys & E & Hp' & Hlp'); [rewrite length_fmap; lia|].
  rewrite length_fmap, Hlen in E. rewrite E. cbn [run_access run_bind]. eexists. split; [done|].
  unfold indexed. rewrite length_app, Nat.add_1_r, (take_S_r _ _ _ Erow). cbn.
  split; [done|]. split; [rewrite fmap_app, total_app, Hlog; cbn; lia|]. split; [lia|]. split; [lia|].
  split; [apply Forall_app; by repeat constructor|]. exists (ranges ++ [r]).
  rewrite imap_app, Hrg, !fmap_app. split; [|done]. f_equal. cbn. rewrite length_take, Nat.min_l, Nat.add_0_r by lia. by rewrite Er.
Qed.
End rows.

(** * The physical order *)

#[local] Ltac compare_physical :=
  unfold physical_le, payload_physical_row_compare;
  repeat match goal with
    | |- context [Z.eqb ?x ?y] => destruct (Z.eqb_spec x y)
    | |- context [Z.ltb ?x ?y] => destruct (Z.ltb_spec x y)
    end; cbn [negb].

Lemma physical_le_spec a b :
  physical_le a b ↔
  ph_shard a < ph_shard b ∨ ph_shard a = ph_shard b ∧
    (ph_begin a < ph_begin b ∨ ph_begin a = ph_begin b ∧
      (ph_end a < ph_end b ∨ ph_end a = ph_end b ∧ ph_tensor a ≤ ph_tensor b)).
Proof. compare_physical; split; try done; lia. Qed.

#[export] Instance physical_le_total : Total physical_le.
Proof. intros a b. rewrite !physical_le_spec. lia. Qed.
#[export] Instance physical_le_trans : Transitive physical_le.
Proof. intros a b c. rewrite !physical_le_spec. lia. Qed.

Definition physical_apart (a b : payload_physical_row) : Prop :=
  ph_shard a = ph_shard b → ph_end a ≤ ph_begin b ∨ ph_end b ≤ ph_begin a.

Lemma pairwise_permutation {A} (R : A → A → Prop) l m : l ≡ₚ m → pairwise R l → pairwise R m.
Proof.
  intros Hp. symmetry in Hp. apply Permutation_inj in Hp as [_ (f & Hf & Hl)]. intros Hpw i j a b Hij Ea Eb.
  rewrite Hl in Ea, Eb. apply (Hpw (f i) (f j)); [|done..]. intros E. by apply Hf in E.
Qed.

Lemma pairwise_cons {A} (R : A → A → Prop) x l :
  (∀ a b, R a b → R b a) → pairwise R (x :: l) ↔ Forall (R x) l ∧ pairwise R l.
Proof.
  intros Hsym. split.
  - intros H. split; [|by intros i j a b Hij Ea Eb; apply (H (S i) (S j)); [lia|..]].
    apply Forall_lookup_2. intros i a Ea. by apply (H 0%nat (S i)).
  - intros [Hx H] [|i] [|j] a b Hij Ea Eb; cbn in Ea, Eb; [done|injection Ea as <-|injection Eb as <-; apply Hsym|by apply (H i j); [lia|..]];
      by eapply Forall_lookup_1.
Qed.

Lemma ranges_disjoint_cons ranges a b rest :
  ranges_disjoint ranges (a :: b :: rest) =
  (let! prior := run_access (array_get ranges (ph_tensor a)) in
   let! next := run_access (array_get ranges (ph_tensor b)) in
   refuse_when (pr_shard prior =? pr_shard next) && (pr_begin next <? pr_end prior)
     with YVEX_ERR_FORMAT "source tensor payload ranges overlap"%string;
   ranges_disjoint ranges (b :: rest)).
Proof. done. Qed.

(** In physical order neighbours tell whether any two rows overlap. *)
Lemma ranges_disjoint_exact ranges order :
  StronglySorted physical_le order → Forall (λ p, ph_begin p < ph_end p) order →
  Forall (λ p, ∃ r, array_get ranges (ph_tensor p) = Some r ∧ physical r = p) order →
  (ranges_disjoint ranges order = Some (Done ()) ∧ pairwise physical_apart order) ∨
  (∃ st why, ranges_disjoint ranges order = Some (Refused st why) ∧ ¬ pairwise physical_apart order).
Proof.
  assert (∀ a b, physical_apart a b → physical_apart b a) as Hsym by (unfold physical_apart; intuition lia).
  intros Hs Hne Hr. induction Hs as [|a rest Hs IH Ha]; [by left|].
  apply Forall_cons in Hne as [Hna Hne]. apply Forall_cons in Hr as [(ra & Era & Hra) Hr]. specialize (IH Hne Hr).
  rewrite pairwise_cons by done. destruct rest as [|b rest]; [left; split; [done|]; split; [constructor|by intros ? ? ? ? ? [=]]|].
  pose proof (Forall_inv Hr) as (rb & Erb & Hrb). rewrite ranges_disjoint_cons, Era, Erb. cbn [run_access run_bind].
  pose proof (Forall_inv Ha) as Hab. rewrite physical_le_spec in Hab. apply StronglySorted_inv in Hs as [_ Hb].
  subst a b. cbn [physical ph_tensor ph_shard ph_begin ph_end] in *. destruct ((pr_shard ra =? pr_shard rb) && (pr_begin rb <? pr_end ra)) eqn:E.
  - right. eexists _, _. split; [done|]. rewrite andb_true_iff, Z.eqb_eq, Z.ltb_lt in E.
    rewrite pairwise_cons by done. intros [Hap _]. apply Forall_inv in Hap. unfold physical_apart in Hap. cbn in Hap. apply Forall_inv in Hne. cbn in Hne.
    destruct (Hap (proj1 E)); lia.
  - rewrite andb_false_iff, Z.eqb_neq, Z.ltb_ge in E. destruct IH as [[-> Hpw]|(st & why & -> & Hno)].
    + left. split; [done|]. split; [|done]. apply Forall_inv in Hne as Hnb. apply Forall_inv_tail in Hne. cbn in Hnb.
      constructor; [unfold physical_apart; cbn; intros; lia|].
      rewrite Forall_forall in Hb |- *. intros c Hc. specialize (Hb c Hc). rewrite physical_le_spec in Hb. cbn in Hb.
      unfold physical_apart. cbn. lia.
    + right. exists st, why. split; [done|]. rewrite pairwise_cons by done. by intros [_ ?].
Qed.

(** * The whole index *)

(** Two rows of a shard have no byte in common. *)
Definition rows_apart (a b : yvex_native_weight_info) : Prop :=
  nw_shard_path a = nw_shard_path b → nw_data_end a ≤ nw_data_start b ∨ nw_data_end b ≤ nw_data_start a.

Definition index_admissible (memory : bool) (shards : list yvex_source_shard_snapshot)
    (items : list yvex_native_weight_info) : Prop :=
  memory = true ∧ Forall (row_indexable shards) items ∧ pairwise rows_apart items.

(** A session about to be indexed. *)
Definition index_fresh (snapshot : yvex_source_tensor_snapshot) (lookups : Z) : payload_index :=
  PayloadIndex snapshot (replicate (length (nt_items (sn_table snapshot))) blank_range) 0 lookups.

(** The index of a snapshot. *)
Record index_of (snapshot : yvex_source_tensor_snapshot) (shards : list yvex_source_shard_snapshot) (s : payload_index)
    : Prop := IndexOf {
  io_snapshot : px_snapshot s = snapshot;
  io_rows : imap (row_range shards) (nt_items (sn_table snapshot)) = Some <$> px_ranges s;
  io_bytes : px_logical_bytes s = total (nw_data_bytes <$> nt_items (sn_table snapshot));
  io_session : ∀ session, py_ranges session = px_ranges s → session_rows session;
  io_apart : pairwise ranges_apart (px_ranges s);
}.

Lemma range_lookup shards items ranges i :
  imap (row_range shards) items = Some <$> ranges → items !! i ≫= row_range shards i = ranges !! i.
Proof.
  intros E. apply (f_equal (.!! i)) in E. rewrite list_lookup_imap, list_lookup_fmap in E.
  destruct (items !! i), (ranges !! i); cbn in *; congruence.
Qed.

(** Ranges are apart as their rows are: a name is the name of one shard. *)
Lemma apart_exact shards items ranges :
  canonical_catalog shards → imap (row_range shards) items = Some <$> ranges →
  pairwise rows_apart items ↔ pairwise ranges_apart ranges.
Proof.
  intros Hcat E. assert (∀ i row r, items !! i = Some row → ranges !! i = Some r → row_range shards i row = Some r) as Hrow.
  { intros i row r Ei Er. pose proof (range_lookup shards items ranges i E) as H. by rewrite Ei, Er in H. }
  assert (∀ i j a b ra rb, row_range shards i a = Some ra → row_range shards j b = Some rb →
    rows_apart a b ↔ ranges_apart ra rb) as Hone.
  { intros i j a b ra rb. unfold row_range, shard_named.
    destruct (list_find _ shards) as [[m s]|] eqn:Ea; [|done]. intros [= <-].
    destruct (list_find (λ shard, ss_canonical_name shard = Some (nw_shard_path b)) shards) as [[m' s']|] eqn:Eb; [|done].
    intros [= <-]. apply list_find_Some in Ea as (Ea & Na & _), Eb as (Eb & Nb & _). cbn.
    destruct (cc_row _ Hcat _ _ Ea) as [Ia _], (cc_row _ Hcat _ _ Eb) as [Ib _].
    unfold rows_apart, ranges_apart. cbn. split; intros H Heq.
    - assert (m = m') as -> by lia. assert (s = s') as -> by congruence. destruct H; [congruence|lia..].
    - rewrite Heq in Na.
      assert (m = m') as ->.
      { destruct (lt_eq_lt_dec m m') as [[Hlt|]|Hlt]; [|done|]; exfalso.
        - pose proof (cc_order _ Hcat m m' s s' Hlt Ea Eb) as Hc. rewrite Na, Nb in Hc. cbn in Hc.
          assert (bytes_compare (nw_shard_path b) (nw_shard_path b) = Eq) by by apply bytes_compare_eq. congruence.
        - pose proof (cc_order _ Hcat m' m s' s Hlt Eb Ea) as Hc. rewrite Na, Nb in Hc. cbn in Hc.
          assert (bytes_compare (nw_shard_path b) (nw_shard_path b) = Eq) by by apply bytes_compare_eq. congruence. }
      assert (s = s') as -> by congruence. destruct (H eq_refl); lia. }
  assert (length items = length ranges) as Hl by (apply (f_equal length) in E; by rewrite length_imap, length_fmap in E).
  split; intros H i j x y Hij Ex Ey.
  - destruct (lookup_lt_is_Some_2 items i) as [a Ea]; [rewrite Hl; by eapply lookup_lt_Some|].
    destruct (lookup_lt_is_Some_2 items j) as [b Eb]; [rewrite Hl; by eapply lookup_lt_Some|].
    apply (Hone i j a b); [by apply Hrow..|by apply (H i j)].
  - destruct (lookup_lt_is_Some_2 ranges i) as [a Ea]; [rewrite <- Hl; by eapply lookup_lt_Some|].
    destruct (lookup_lt_is_Some_2 ranges j) as [b Eb]; [rewrite <- Hl; by eapply lookup_lt_Some|].
    apply (Hone i j x y a b); [by apply Hrow..|by apply (H i j)].
Qed.

Section index.
Context (snapshot : yvex_source_tensor_snapshot) (shards : list yvex_source_shard_snapshot).
Context (Hsnapshot : snapshot_ok snapshot shards) (Hshards : Forall shard_words shards).
Context (Hrows : Forall row_words (nt_items (sn_table snapshot))).

Local Abbreviation items := (nt_items (sn_table snapshot)).

(** The loop over the rows ends with every row indexed, or at a row that cannot be. *)
Lemma index_loop lookups :
  let loop := for_range 0 (nt_count (sn_table snapshot)) (λ index '(s, physical_order),
    let! (s, row) := payload_index_range index s in
    let! physical_order := run_access (array_set physical_order index row) in
    run_ret (s, physical_order)) (index_fresh snapshot lookups, replicate (length items) blank_physical) in
  (∃ s ranges, loop = Some (Done (s, physical <$> ranges)) ∧ px_snapshot s = snapshot ∧ px_ranges s = ranges ∧
     px_logical_bytes s = total (nw_data_bytes <$> items) ∧ Forall (row_indexable shards) items ∧
     imap (row_range shards) items = Some <$> ranges) ∨
  (∃ st why, loop = Some (Refused st why) ∧ ¬ Forall (row_indexable shards) items).
Proof.
  cbn zeta. unfold for_range. rewrite Z.sub_0_r. match goal with |- context [for_each ?b] => set (body := b) end.
  destruct (for_each_outcome body (indexed snapshot shards)
    (λ done_ _ _ _, ∃ row, items !! length done_ = Some row ∧ ¬ row_indexable shards row)
    (seqZ 0 (nt_count (sn_table snapshot))) (index_fresh snapshot lookups, replicate (length items) blank_physical))
    as [([s phys] & E & Hsn & Hlog & Hl1 & Hl2 & Hall & ranges & Hrg & Hp1 & Hp2)|(done_ & x & todo & st & why & _ & E & row & Er & Hno)].
  - unfold indexed. cbn. rewrite !length_replicate. split_and!; [done..|constructor|]. exists []. split; [done|].
    split; apply prefix_nil.
  - intros done_ x todo [s phys] Hsplit Hi. apply seqZ_split in Hsplit as (-> & Hb & _). rewrite Z.add_0_l in *. unfold nt_count in Hb.
    destruct (lookup_lt_is_Some_2 items (length done_)) as [row Er]; [lia|].
    destruct (index_step snapshot shards Hsnapshot Hshards Hrows done_ _ (s, phys) row eq_refl Er Hi)
      as [H|(st & why & E & Hno)]; [by left|right; exists st, why; split; [done|by exists row]].
  - left. cbn [fst snd] in *. rewrite length_seqZ in *. unfold nt_count in *. rewrite Nat2Z.id, take_ge in * by lia.
    assert (length ranges = length items) as Hl by (apply (f_equal length) in Hrg; by rewrite length_imap, length_fmap in Hrg).
    apply prefix_length_eq in Hp1; [|lia]. apply prefix_length_eq in Hp2; [|rewrite length_fmap; lia].
    exists s, ranges. rewrite E, <- Hp2. by split_and!.
  - right. exists st, why. split; [done|]. rewrite Forall_lookup. intros H. by eapply Hno, H.
Qed.

Lemma indexed_rows ranges :
  Forall (row_indexable shards) items → imap (row_range shards) items = Some <$> ranges →
  ∀ i r, ranges !! i = Some r → pr_tensor r = Z.of_nat i ∧ range_row r.
Proof.
  intros Hall E i r Er. pose proof (range_lookup shards items ranges i E) as H. rewrite Er in H.
  destruct (items !! i) as [row|] eqn:Ei; [|done]. cbn in H. split.
  - unfold row_range in H. destruct (shard_named _ _); [|done]. by injection H as <-.
  - apply (row_range_row snapshot shards Hsnapshot Hshards Hrows i row r Ei); [|done]. by eapply Forall_lookup_1.
Qed.

(** The order of the rows decides whether they are apart. *)
Lemma index_order ranges :
  Forall (row_indexable shards) items → imap (row_range shards) items = Some <$> ranges →
  let check := ranges_disjoint ranges (merge_sort physical_le (physical <$> ranges)) in
  (check = Some (Done ()) ∧ pairwise ranges_apart ranges) ∨
  (∃ st why, check = Some (Refused st why) ∧ ¬ pairwise ranges_apart ranges).
Proof.
  intros Hall E. cbn zeta. pose proof (indexed_rows ranges Hall E) as Hr.
  pose proof (merge_sort_Permutation physical_le (physical <$> ranges)) as Hp.
  assert (pairwise ranges_apart ranges ↔ pairwise physical_apart (merge_sort physical_le (physical <$> ranges))) as Hiff.
  { transitivity (pairwise physical_apart (physical <$> ranges)); [|by split; apply pairwise_permutation].
    split; intros H i j a b Hij Ea Eb.
    - rewrite list_lookup_fmap in Ea, Eb. destruct (ranges !! i) as [x|] eqn:Ex, (ranges !! j) as [y|] eqn:Ey; try done.
      injection Ea as <-. injection Eb as <-. by apply (H i j).
    - apply (H i j (physical a) (physical b)); [done|by rewrite list_lookup_fmap, ?Ea, ?Eb..]. }
  assert (Forall (λ p, ph_begin p < ph_end p ∧ ∃ r, array_get ranges (ph_tensor p) = Some r ∧ physical r = p)
    (merge_sort physical_le (physical <$> ranges))) as Hf.
  { rewrite Hp. apply Forall_fmap, Forall_lookup_2. intros i r Er. destruct (Hr i r Er) as [Et []]. split; [cbn; lia|].
    exists r. split; [|done]. cbn. by rewrite Et, array_get_nat. }
  destruct (ranges_disjoint_exact ranges (merge_sort physical_le (physical <$> ranges))) as [[-> H]|(st & why & -> & H)];
    [apply StronglySorted_merge_sort; apply _|by eapply Forall_impl; [exact Hf|intros ? []]..|left; tauto|].
  right. exists st, why. tauto.
Qed.
End index.

(** C33: over a snapshot in order the index is built without an access outside its arrays, and exactly when memory suffices,
    every tensor has a shard of the catalog, bytes in that shard's payload and file, and as many as its type and shape take,
    and no two tensors of a shard overlap; the sum of the bytes cannot overflow. The index has the range of
    every row at the row's own index, which is what payload plans ask of a session. *)
Theorem payload_rows_exact memory snapshot shards lookups :
  snapshot_ok snapshot shards → Forall shard_words shards → Forall row_words (nt_items (sn_table snapshot)) →
  ∃ r, payload_build_ranges memory (nt_count (sn_table snapshot)) (index_fresh snapshot lookups) = Some r ∧
    match r with
    | Refused _ _ => ¬ index_admissible memory shards (nt_items (sn_table snapshot))
    | Done s => index_admissible memory shards (nt_items (sn_table snapshot)) ∧ index_of snapshot shards s
    end.
Proof.
  intros Hsn Hsh Hrows. unfold payload_build_ranges. destruct memory; cbn [negb].
  2: { eexists. split; [done|]. by intros [? _]. }
  unfold nt_count at 2. rewrite Nat2Z.id.
  destruct (index_loop snapshot shards Hsn Hsh Hrows lookups) as [(s & ranges & -> & Es & Er & Eb & Hall & Hrg)|(st & why & -> & Hno)].
  2: { eexists. split; [done|]. by intros (_ & ? & _). }
  cbn [run_bind]. pose proof (apart_exact shards _ ranges (so_catalog _ _ Hsn) Hrg) as Hap. rewrite Er.
  destruct (index_order snapshot shards Hsn Hsh Hrows ranges Hall Hrg) as [[-> Hd]|(st & why & -> & Hno)]; cbn [run_bind].
  2: { eexists. split; [done|]. intros (_ & _ & H). tauto. }
  eexists. split; [done|]. split; [split; [done|]; split; [done|tauto]|].
  split; rewrite ?Er; try done. intros session Ep i r Hi. rewrite Ep in Hi. by eapply indexed_rows.
Qed.

Definition sample_snapshot : yvex_source_tensor_snapshot :=
  match yvex_source_tensor_snapshot_take_table_with_shards sample_snapshot_env (Some sample_table) sample_catalog 2 with
  | Some (_, Done snapshot) => snapshot
  | _ => TensorSnapshot native_table_empty None 0 0 0 0 0
  end.

Lemma sample_snapshot_ok : snapshot_ok sample_snapshot sample_catalog.
Proof.
  destruct (snapshot_take_exact sample_snapshot_env sample_table sample_catalog 2 sample_table_ok) as (left_ & r & E & Hr); [reflexivity|].
  unfold sample_snapshot. rewrite E. destruct r as [s|st why]; [by destruct Hr as (_ & Hok & _)|].
  vm_compute in E. discriminate E.
Qed.

Lemma sample_words : Forall shard_words sample_catalog.
Proof. constructor; [|constructor; [|constructor]]; unfold shard_words; cbn [ss_canonical_id ss_file_bytes ss_data_region_offset ss_payload_bytes]; ulia. Qed.

Lemma sample_row_words : Forall row_words (nt_items (sn_table sample_snapshot)).
Proof.
  assert (nw_dims <$> nt_items (sn_table sample_snapshot) = [[2; 3]]) as E by (vm_compute; reflexivity).
  unfold row_words. apply (Forall_fmap nw_dims (Forall is_u64)). rewrite E.
  constructor; [|constructor]. constructor; [ulia|constructor; [ulia|constructor]].
Qed.

Lemma payload_rows_exact_witness :
  ∃ r, payload_build_ranges true (nt_count (sn_table sample_snapshot)) (index_fresh sample_snapshot 0) = Some r ∧
    match r with
    | Refused _ _ => False
    | Done s => index_of sample_snapshot sample_catalog s ∧
        (λ p, (pr_shard p, pr_begin p, pr_end p)) <$> px_ranges s = [(1, 50, 74)]
    end.
Proof.
  destruct (payload_rows_exact true sample_snapshot sample_catalog 0) as (r & E & Hr);
    [exact sample_snapshot_ok|exact sample_words|exact sample_row_words|].
  exists r. split; [exact E|]. vm_compute in E. injection E as <-. split; [exact (proj2 Hr)|reflexivity].
Defined.
