(* ===== verification/Binary.v ===== *)
(** Floating-point numbers of C as IEEE 754 has them, rounded to the nearest, ties to even: [float] is binary32 and
    [double] binary64. The operations are those of the specification of floats in the standard library of Rocq, and
    signs are what the components reason about. *)

From S2P Require Import Prelude.
From Stdlib Require Export SpecFloat.
#[local] Open Scope Z_scope.

(** * Operations *)

Definition f32_of_Z (n : Z) : spec_float := binary_normalize 24 128 n 0 false.
Definition f64_of_Z (n : Z) : spec_float := binary_normalize 53 1024 n 0 false.

Definition f64_add : spec_float → spec_float → spec_float := SFadd 53 1024.
Definition f64_sub : spec_float → spec_float → spec_float := SFsub 53 1024.
Definition f64_div : spec_float → spec_float → spec_float := SFdiv 53 1024.

(** A [float] where a [double] is wanted: every binary32 number is a binary64 number. *)
Definition widen (x : spec_float) : spec_float :=
  match x with S754_finite s m e => binary_round 53 1024 s m e | _ => x end.

(** [isfinite] *)
Definition is_finite (x : spec_float) : bool :=
  match x with S754_zero _ | S754_finite _ _ _ => true | _ => false end.

(** [fmax] and [fmin] of [<math.h>]: a number before a NaN. *)
Definition f64_fmax (x y : spec_float) : spec_float :=
  match x, y with
  | S754_nan, _ => y
  | _, S754_nan => x
  | _, _ => if SFltb x y then y else x
  end.
Definition f64_fmin (x y : spec_float) : spec_float :=
  match x, y with
  | S754_nan, _ => y
  | _, S754_nan => x
  | _, _ => if SFltb y x then y else x
  end.

(** * Signs *)

(** Zero or more, and no NaN. *)
Definition nonneg (x : spec_float) : bool :=
  match x with S754_zero _ | S754_finite false _ _ | S754_infinity false => true | _ => false end.

Definition shr_nonneg (r : shr_record) : Prop := 0 ≤ shr_m r.

Lemma shr_1_nonneg r : shr_nonneg r → shr_nonneg (shr_1 r).
Proof. unfold shr_nonneg. destruct r as [[|[]|[]] rb sb]; cbn; lia. Qed.

Lemma iter_pos_nonneg p : ∀ r, shr_nonneg r → shr_nonneg (iter_pos shr_1 p r).
Proof. induction p; intros r Hr; cbn; auto using shr_1_nonneg. Qed.

Lemma shr_fexp_nonneg prec emax m e l : 0 ≤ m → shr_nonneg (shr_fexp prec emax m e l).1.
Proof.
  intros Hm. unfold shr_fexp, shr. assert (shr_nonneg (shr_record_of_loc m l)) by (destruct l as [|[]]; done).
  destruct (_ - e); [done| |done]. by apply iter_pos_nonneg.
Qed.

Lemma round_nearest_nonneg m l : 0 ≤ m → 0 ≤ round_nearest_even m l.
Proof. destruct l as [|[]]; cbn; [lia| |lia|lia]. destruct (Z.even m); lia. Qed.

Lemma binary_round_aux_nonneg prec emax m e l : 0 ≤ m → nonneg (binary_round_aux prec emax false m e l) = true.
Proof.
  intros Hm. unfold binary_round_aux. pose proof (shr_fexp_nonneg prec emax m e l Hm) as H1.
  destruct (shr_fexp prec emax m e l) as [r1 e1]. cbn [fst] in H1.
  pose proof (shr_fexp_nonneg prec emax _ e1 loc_Exact (round_nearest_nonneg _ (loc_of_shr_record r1) H1)) as H2.
  destruct (shr_fexp prec emax _ e1 loc_Exact) as [r2 e2]. cbn [fst] in H2. unfold shr_nonneg in H2.
  destruct (shr_m r2); [done|by destruct (_ <=? _)|lia].
Qed.

Lemma binary_round_nonneg prec emax m e : nonneg (binary_round prec emax false m e) = true.
Proof. unfold binary_round. destruct (shl_align _ _ _). by apply binary_round_aux_nonneg. Qed.

Lemma widen_nonneg x : nonneg x = true → nonneg (widen x) = true.
Proof. destruct x as [| | |[] m e]; try done. intros _. apply binary_round_nonneg. Qed.

Lemma add_nonneg x y : nonneg x = true → nonneg y = true → nonneg (f64_add x y) = true.
Proof.
  destruct x as [[]|[]| |[] mx ex], y as [[]|[]| |[] my ey]; try done. intros _ _. cbn -[Z.add Z.min shl_align binary_normalize].
  destruct (Z.pos (shl_align mx ex (Z.min ex ey)).1 + Z.pos (shl_align my ey (Z.min ex ey)).1) eqn:E;
    cbn [binary_normalize]; [done|apply binary_round_nonneg|lia].
Qed.

(** What compares within zero and a number: neither below zero nor a NaN. *)
Lemma not_below_nonneg x : is_finite x = true → SFltb x (f32_of_Z 0) = false → nonneg x = true.
Proof. destruct x as [[]| | |[]]; done. Qed.

Lemma compare_antisym x y : SFcompare y x = CompOpp <$> SFcompare x y.
Proof.
  destruct x as [s|s| |s m e], y as [s'|s'| |s' m' e']; try (by destruct s); try (by destruct s'); try (by destruct s, s'); try done.
  assert (∀ p q, PosDef.Pos.compare_cont Eq q p = CompOpp (PosDef.Pos.compare_cont Eq p q)) as Hp.
  { intros p q. symmetry. apply (Pos.compare_cont_antisym p q Eq). }
  destruct s, s'; cbn; rewrite ?(Z.compare_antisym e e'), ?(Hp m m'); try done;
    destruct (e ?= e'); cbn; rewrite ?CompOpp_involutive; done.
Qed.

Lemma ltb_not_leb x y : SFltb x y = true → SFleb y x = false.
Proof. unfold SFltb, SFleb. rewrite (compare_antisym x y). by destruct (SFcompare x y) as [[]|]. Qed.

(** A sum close to one is above zero. *)
Lemma near_one_positive x bound :
  nonneg x = true → SFltb bound (f64_of_Z 1) = true →
  SFleb (SFabs (f64_sub x (f64_of_Z 1))) bound = true → SFleb x (f64_of_Z 0) = false.
Proof.
  intros Hx Hb Hle. destruct x as [s|[]| |[] m e]; try done.
  - change (SFabs (f64_sub (S754_zero s) (f64_of_Z 1))) with (f64_of_Z 1) in Hle.
    apply ltb_not_leb in Hb. congruence.
Qed.

Lemma above_positive x bound :
  nonneg bound = true → SFltb (f64_of_Z 0) bound = true → SFleb x bound = false → SFleb x (f64_of_Z 0) = false.
Proof. destruct x as [[]|[]| |[] m e], bound as [[]|[]| |[] m' e']; done. Qed.

(** * Rounding *)

(** [m] over [2^d] to the nearest integer, ties to even. *)
Definition rne (m d : Z) : Z :=
  let q := m / 2 ^ d in
  let r := m mod 2 ^ d in
  if (2 ^ d <? 2 * r) || ((2 * r =? 2 ^ d) && Z.odd q) then q + 1 else q.

(** A rounded mantissa with its exponent, carried when it has one bit too many, and infinite when too large. *)
Definition pack (prec emax : Z) (s : bool) (q f : Z) : spec_float :=
  if q =? 0 then S754_zero s
  else if q =? 2 ^ prec then
    if f + 1 <=? emax - prec then S754_finite s (Z.to_pos (2 ^ (prec - 1))) (f + 1) else S754_infinity s
  else if f <=? emax - prec then S754_finite s (Z.to_pos q) f else S754_infinity s.

Lemma iter_pos_nat {A} (f : A → A) p x : iter_pos f p x = Nat.iter (Pos.to_nat p) f x.
Proof.
  revert x. induction p as [p IH|p IH|]; intros x; cbn [iter_pos].
  - rewrite !IH, Pos2Nat.inj_xI, Nat.iter_succ_r. replace (2 * Pos.to_nat p)%nat with (Pos.to_nat p + Pos.to_nat p)%nat by lia.
    by rewrite Nat.iter_add.
  - rewrite !IH, Pos2Nat.inj_xO. replace (2 * Pos.to_nat p)%nat with (Pos.to_nat p + Pos.to_nat p)%nat by lia. by rewrite Nat.iter_add.
  - done.
Qed.

Lemma shr_1_spec a r s : 0 ≤ a → shr_1 (Build_shr_record a r s) = Build_shr_record (a / 2) (Z.odd a) (r || s).
Proof.
  intros Ha. destruct a as [|[p|p|]|]; try done; cbn [shr_1 Z.odd]; f_equal.
  - change (Z.pos p~1) with (2 * Z.pos p + 1). apply Z.div_unique with 1; lia.
  - change (Z.pos p~0) with (2 * Z.pos p). rewrite Z.mul_comm. symmetry. by apply Z.div_mul.
Qed.

Lemma mod_pow_succ m n : 0 ≤ m → m mod 2 ^ Z.of_nat (S n) = m mod 2 ^ Z.of_nat n + 2 ^ Z.of_nat n * Z.b2z (Z.testbit m (Z.of_nat n)).
Proof.
  intros Hm. rewrite Nat2Z.inj_succ, Z.pow_succ_r, Z.mul_comm, Z.rem_mul_r by lia. do 2 f_equal.
  rewrite Z.testbit_odd, Z.shiftr_div_pow2 by lia. rewrite Zmod_odd. by destruct (Z.odd _).
Qed.

Lemma shr_iter m n : 0 ≤ m →
  Nat.iter (S n) shr_1 (Build_shr_record m false false) =
  Build_shr_record (m / 2 ^ Z.of_nat (S n)) (Z.testbit m (Z.of_nat n)) (negb (m mod 2 ^ Z.of_nat n =? 0)).
Proof.
  intros Hm. induction n as [|n IH].
  - cbn [Nat.iter nat_rect]. rewrite shr_1_spec by done. change (2 ^ Z.of_nat 1) with 2. change (2 ^ Z.of_nat 0) with 1.
    rewrite Z.mod_1_r, Z.testbit_odd. by rewrite Z.shiftr_0_r.
  - rewrite Nat.iter_succ, IH, shr_1_spec by (apply Z.div_pos; lia). f_equal.
    + rewrite Z.div_div by lia. f_equal. rewrite (Nat2Z.inj_succ (S n)), Z.pow_succ_r by lia. lia.
    + by rewrite Z.testbit_odd, Z.shiftr_div_pow2 by lia.
    + rewrite mod_pow_succ by done. pose proof (Z.mod_pos_bound m (2 ^ Z.of_nat n) ltac:(lia)).
      assert (0 < 2 ^ Z.of_nat n) by lia.
      destruct (Z.testbit m (Z.of_nat n)); cbn [Z.b2z orb]; [|by rewrite Z.mul_0_r, Z.add_0_r].
      symmetry. apply negb_true_iff, Z.eqb_neq. lia.
Qed.

(** The round and sticky bits decide as the remainder does. *)
Lemma round_bits m n : 0 ≤ m →
  round_nearest_even (m / 2 ^ Z.of_nat (S n))
    (loc_of_shr_record (Build_shr_record (m / 2 ^ Z.of_nat (S n)) (Z.testbit m (Z.of_nat n)) (negb (m mod 2 ^ Z.of_nat n =? 0)))) =
  rne m (Z.of_nat (S n)).
Proof.
  intros Hm. unfold rne. rewrite mod_pow_succ by done. rewrite (Nat2Z.inj_succ n), Z.pow_succ_r by lia.
  pose proof (Z.mod_pos_bound m (2 ^ Z.of_nat n) ltac:(lia)). set (q := m / _). set (h := 2 ^ Z.of_nat n) in *. set (low := m mod h) in *.
  rewrite <- Z.negb_even. destruct (Z.testbit m (Z.of_nat n)); cbn [Z.b2z];
    destruct (Z.eqb_spec low 0); cbn [negb loc_of_shr_record round_nearest_even];
    destruct (Z.ltb_spec (2 * h) (2 * (low + h * 1))), (Z.eqb_spec (2 * (low + h * 1)) (2 * h));
    destruct (Z.ltb_spec (2 * h) (2 * (low + h * 0))), (Z.eqb_spec (2 * (low + h * 0)) (2 * h)); try lia;
    cbn [orb andb]; try done; by destruct (Z.even q).
Qed.

Lemma digits_log2 m : Z.pos (digits2_pos m) = Z.log2 (Z.pos m) + 1.
Proof.
  induction m as [p IH|p IH|]; cbn [digits2_pos].
  - rewrite Pos2Z.inj_succ, IH. change (Z.pos p~1) with (2 * Z.pos p + 1). rewrite Z.log2_succ_double by lia. lia.
  - rewrite Pos2Z.inj_succ, IH. change (Z.pos p~0) with (2 * Z.pos p). rewrite Z.log2_double by lia. lia.
  - done.
Qed.

Lemma digits_le m n : 0 ≤ n → Z.pos m < 2 ^ n → Z.pos (digits2_pos m) ≤ n.
Proof. intros Hn Hm. rewrite digits_log2. assert (Z.log2 (Z.pos m) < n); [|lia]. apply Z.log2_lt_pow2; lia. Qed.

Lemma rne_bounds m d n : 0 ≤ d → 0 ≤ n → 0 ≤ m < 2 ^ (n + d) → 0 ≤ rne m d ≤ 2 ^ n.
Proof.
  intros Hd Hn Hm. unfold rne. assert (0 ≤ m / 2 ^ d < 2 ^ n) as Hq.
  { split; [apply Z.div_pos; lia|]. apply Z.div_lt_upper_bound; [lia|]. rewrite <- Z.pow_add_r by lia. rewrite (Z.add_comm d n). lia. }
  destruct (_ || _); lia.
Qed.

(** Rounding that shifts the mantissa right, in closed form. *)
Lemma binary_round_closed prec emax s m e f :
  0 < prec → fexp prec emax (Z.pos (digits2_pos m) + e) = f → e ≤ f →
  binary_round prec emax s m e = pack prec emax s (rne (Z.pos m) (f - e)) f.
Proof.
  intros Hprec Hf He. pose proof (Z.log2_spec (Z.pos m) ltac:(lia)) as [_ Hlog]. rewrite <- Z.add_1_r, <- digits_log2 in Hlog.
  assert (emin prec emax ≤ f ∧ Z.pos (digits2_pos m) + e - prec ≤ f) as [Hmin Hdig] by (unfold fexp in Hf; lia).
  assert (0 ≤ rne (Z.pos m) (f - e) ≤ 2 ^ prec) as Hq.
  { apply rne_bounds; [lia|lia|]. split; [lia|]. eapply Z.lt_le_trans; [exact Hlog|]. apply Z.pow_le_mono_r; lia. }
  unfold binary_round. rewrite Hf. assert (shl_align m e f = (m, e)) as ->.
  { unfold shl_align. destruct (f - e) eqn:E; (done || lia). }
  unfold binary_round_aux, shr_fexp at 1. change (Zdigits2 (Z.pos m)) with (Z.pos (digits2_pos m)). rewrite Hf.
  assert (∃ r, shr (shr_record_of_loc (Z.pos m) loc_Exact) e (f - e) = (r, f) ∧
    round_nearest_even (shr_m r) (loc_of_shr_record r) = rne (Z.pos m) (f - e)) as (r & -> & ->).
  { unfold shr. cbn [shr_record_of_loc]. destruct (f - e) as [|p|p] eqn:E; [| |lia].
    - eexists. split; [f_equal; lia|]. cbn. unfold rne. change (2 ^ 0) with 1. by rewrite Z.div_1_r, Z.mod_1_r.
    - rewrite iter_pos_nat. destruct (Pos2Nat.is_succ p) as [n En]. rewrite En, shr_iter by lia.
      eexists. split; [f_equal; lia|]. cbn [shr_m]. rewrite round_bits by lia. f_equal. lia. }
  set (q := rne (Z.pos m) (f - e)) in *. unfold pack. destruct (Z.eqb_spec q 0) as [->|Hq0].
  { unfold shr_fexp, shr. cbn [Zdigits2]. assert (fexp prec emax (0 + f) - f ≤ 0) by (unfold fexp; lia).
    destruct (fexp prec emax (0 + f) - f); (done || lia). }
  destruct q as [|pq|pq] eqn:Eq; [done| |lia]. unfold shr_fexp. cbn [Zdigits2]. destruct (Z.eqb_spec (Z.pos pq) (2 ^ prec)) as [E|E].
  - assert (Z.pos (digits2_pos pq) = prec + 1) as Ed by (rewrite digits_log2, E, Z.log2_pow2 by lia; lia).
    assert (fexp prec emax (Z.pos (digits2_pos pq) + f) - f = 1) as -> by (rewrite Ed; unfold fexp; lia).
    unfold shr. cbn [iter_pos shr_record_of_loc]. rewrite shr_1_spec by lia. cbn [shr_m].
    assert (Z.pos pq / 2 = 2 ^ (prec - 1)) as ->.
    { rewrite E. replace prec with (Z.succ (prec - 1)) at 1 by lia. rewrite Z.pow_succ_r, Z.mul_comm, Z.div_mul by lia. done. }
    destruct (2 ^ (prec - 1)) eqn:Ep; [lia|done|lia].
  - assert (Z.pos (digits2_pos pq) ≤ prec) by (apply digits_le; lia).
    assert (fexp prec emax (Z.pos (digits2_pos pq) + f) - f ≤ 0) as Hle by (unfold fexp; lia).
    unfold shr. by destruct (fexp prec emax (Z.pos (digits2_pos pq) + f) - f).
Qed.

(** A number rounded to another format. *)
Definition round_to (prec emax : Z) (x : spec_float) : spec_float :=
  match x with S754_finite s m e => binary_round prec emax s m e | _ => x end.

(** * Bits *)

(** The number a pattern of a sign, [ebits] of exponent and [mbits] of mantissa denotes. *)
Definition of_bits (mbits ebits : Z) (bits : Z) : spec_float :=
  let s := Z.testbit bits (mbits + ebits) in
  let exponent := (bits / 2 ^ mbits) mod 2 ^ ebits in
  let mantissa := bits mod 2 ^ mbits in
  let bias := 2 ^ (ebits - 1) - 1 in
  if exponent =? 0 then
    match mantissa with Z.pos m => S754_finite s m (1 - bias - mbits) | _ => S754_zero s end
  else if exponent =? 2 ^ ebits - 1 then if mantissa =? 0 then S754_infinity s else S754_nan
  else S754_finite s (Z.to_pos (2 ^ mbits + mantissa)) (exponent - bias - mbits).

Definition f32_of_bits : Z → spec_float := of_bits 23 8.
Definition f16_of_bits : Z → spec_float := of_bits 10 5.
Definition bf16_of_bits : Z → spec_float := of_bits 7 8.

#[export] Instance spec_float_eq_dec : EqDecision spec_float.
Proof. solve_decision. Defined.

(** The same value, whatever the exponent it is written with. *)
Definition same_number (x y : spec_float) : Prop :=
  match x, y with
  | S754_zero s, S754_zero s' | S754_infinity s, S754_infinity s' => s = s'
  | S754_nan, S754_nan => True
  | S754_finite s m e, S754_finite s' m' e' =>
      s = s' ∧ Z.pos m * 2 ^ (e - Z.min e e') = Z.pos m' * 2 ^ (e' - Z.min e e')
  | _, _ => False
  end.

#[export] Instance same_number_dec x y : Decision (same_number x y).
Proof. destruct x, y; cbn; apply _. Defined.

(** The number of a pattern of a format that has neither infinities nor NaNs. *)
Definition of_finite_bits (mbits ebits : Z) (bits : Z) : spec_float :=
  let s := Z.testbit bits (mbits + ebits) in
  let exponent := (bits / 2 ^ mbits) mod 2 ^ ebits in
  let mantissa := bits mod 2 ^ mbits in
  let bias := 2 ^ (ebits - 1) - 1 in
  match (if exponent =? 0 then 0 else 2 ^ mbits) + mantissa with
  | Z.pos m => S754_finite s m (Z.max 1 exponent - bias - mbits)
  | _ => S754_zero s
  end.

(** A number times a power of two, exactly. *)
Definition scaled (x : spec_float) (k : Z) : spec_float :=
  match x with S754_finite s m e => S754_finite s m (e + k) | _ => x end.
