(* ===== verification/Speculation.v ===== *)
(** Speculative acceptance, [src/runtime/acceptance.c]: which of the tokens a draft proposed a target keeps, what is
    committed in place of the first one it does not, and how much of a cycle is published.

    Arrays are the caller's, of any length; an access outside one is a fault. Probabilities are binary32 numbers and
    draws binary64 numbers, as in [Binary]. *)

From S2P Require Import Prelude Status Exec Binary Sha256 Identity.
#[local] Open Scope Z_scope.

(** * Data *)

Definition YVEX_SPECULATION_SCHEMA_V1 : Z := 1.
Definition YVEX_SPECULATION_MAX_BLOCK : Z := 8.
Definition YVEX_SPECULATION_ACCEPT_GREEDY : Z := 0.
Definition YVEX_SPECULATION_ACCEPT_STOCHASTIC : Z := 1.

(** src/include/yvex/internal/decode.h:24-33, [yvex_speculation_acceptance_request] *)
Record acceptance_request := AcceptanceRequest {
  aq_schema_version : Z;
  aq_kind : Z;
  aq_candidate_count : Z;
  aq_vocabulary_size : Z;
  aq_distribution_stride : Z;
  aq_candidate_token_ids : option (list Z);
  aq_target_token_ids : option (list Z);
  aq_draft_probabilities : option (list spec_float);
  aq_target_probabilities : option (list spec_float);
  aq_acceptance_uniforms : option (list spec_float);
  aq_correction_uniform : spec_float;
}.

(** src/include/yvex/internal/decode.h:35-44, [yvex_speculation_acceptance_result] *)
Record acceptance_result := AcceptanceResult {
  as_schema_version : Z;
  as_kind : Z;
  as_proposed_count : Z;
  as_accepted_draft_count : Z;
  as_rejected_draft_count : Z;
  as_committed_count : Z;
  as_rejection_index : Z;
  as_all_candidates_accepted : Z;
  as_correction_present : Z;
  as_bonus_present : Z;
  as_correction_or_bonus_token_id : Z;
  as_policy_identity : string;
  as_acceptance_identity : string;
}.

#[export] Instance acceptance_result_eta : Eta acceptance_result := λ r,
  AcceptanceResult (as_schema_version r) (as_kind r) (as_proposed_count r) (as_accepted_draft_count r)
    (as_rejected_draft_count r) (as_committed_count r) (as_rejection_index r) (as_all_candidates_accepted r)
    (as_correction_present r) (as_bonus_present r) (as_correction_or_bonus_token_id r) (as_policy_identity r)
    (as_acceptance_identity r).

(** What [memset] leaves. *)
Definition blank_result : acceptance_result := AcceptanceResult 0 0 0 0 0 0 0 0 0 0 0 "" "".

(** src/include/yvex/internal/decode.h:46-49, [yvex_speculation_commit_plan] *)
Record commit_plan := CommitPlan { cp_state_prefix_count : Z; cp_publication_token_count : Z; cp_terminal : bool }.

(** An access through a pointer that may be null. *)
Definition pointer_get {A} (l : option (list A)) (i : Z) : option A := l ← l; array_get l i.

(** The array from an element on. *)
Definition array_from {A} (l : option (list A)) (i : Z) : option (list A) := drop (Z.to_nat i) <$> l.

(** * Distributions *)

(** The sum of the row, or [None] at a number that is no probability.
    src/src/runtime/acceptance.c:28-31, [acceptance_distribution_valid] *)
Fixpoint distribution_sum (n : nat) (row : option (list spec_float)) (index : Z) (sum : spec_float)
    : option (option spec_float) :=
  match n with
  | O => Some (Some sum)
  | S n =>
      value ← pointer_get row index;
      if negb (is_finite value) || SFltb value (f32_of_Z 0) || SFltb (f32_of_Z 1) value then Some None
      else distribution_sum n row (index + 1) (f64_add sum (widen value))
  end.

(** 1e-5 is the double nearest to the quotient.
    src/src/runtime/acceptance.c, [acceptance_distribution_valid] *)
Definition acceptance_distribution_valid (row : option (list spec_float)) (count : Z) : option bool :=
  if bool_decide (row = None) || (count =? 0) then Some false
  else
    sum ← distribution_sum (Z.to_nat count) row 0 (f64_of_Z 0);
    Some match sum with
         | None => false
         | Some sum => SFleb (SFabs (f64_sub sum (f64_of_Z 1))) (f64_div (f64_of_Z 1) (f64_of_Z 100000))
         end.

(** The weight of a token: of the target, or what it has over the draft. *)
Definition sample_weight (target draft : option (list spec_float)) (residual : bool) (index : Z) : option spec_float :=
  t ← pointer_get target index;
  if residual then d ← pointer_get draft index; Some (f64_fmax (f64_sub (widen t) (widen d)) (f64_of_Z 0))
  else Some (widen t).

Fixpoint sample_total (n : nat) (target draft : option (list spec_float)) (residual : bool) (index : Z) (total : spec_float)
    : option spec_float :=
  match n with
  | O => Some total
  | S n =>
      w ← sample_weight target draft residual index;
      sample_total n target draft residual (index + 1) (f64_add total w)
  end.

(** src/src/runtime/acceptance.c:51-57, [yvex_speculation_distribution_sample] *)
Fixpoint sample_scan (n : nat) (target draft : option (list spec_float)) (residual : bool) (count : Z)
    (uniform total : spec_float) (index : Z) (cumulative : spec_float) : option Z :=
  match n with
  | O => Some UINT32_MAX
  | S n =>
      w ← sample_weight target draft residual index;
      let cumulative := f64_add cumulative (f64_div w total) in
      if SFltb uniform cumulative || (u64 (index + 1) =? count) then Some (u32 index)
      else sample_scan n target draft residual count uniform total (index + 1) cumulative
  end.

(** 1e-8 is the double nearest to the quotient.
    src/src/runtime/acceptance.c, [yvex_speculation_distribution_sample] *)
Definition yvex_speculation_distribution_sample (target draft : option (list spec_float)) (count : Z)
    (uniform : spec_float) (residual : bool) : option Z :=
  let n := Z.to_nat count in
  total ← sample_total n target draft residual 0 (f64_of_Z 0);
  '(residual, total) ←
    (if residual && SFleb total (f64_div (f64_of_Z 1) (f64_of_Z 100000000)) then
       total ← sample_total n target None false 0 (f64_of_Z 0); Some (false, total)
     else Some (residual, total));
  if SFleb total (f64_of_Z 0) then Some UINT32_MAX
  else sample_scan n target draft residual count uniform total 0 (f64_of_Z 0).

(** * Identities *)

(** src/src/runtime/acceptance.c, [acceptance_policy_identity] *)
Definition acceptance_policy_identity (kind proposed_count vocabulary_size : Z) : option string :=
  sha256_identity [FText "yvex.speculation.policy.fixed.v1"; FU64 YVEX_SPECULATION_SCHEMA_V1; FU64 kind;
    FU64 proposed_count; FU64 vocabulary_size].

(** The tokens from the committed array are read in order.
    src/src/runtime/acceptance.c, [acceptance_identity] *)
Definition acceptance_identity (committed : list Z) (result : acceptance_result) : option (option string) :=
  tokens ← mapM (array_get committed) (seqZ 0 (as_committed_count result));
  Some (sha256_identity ([FText "yvex.speculation.acceptance.v1"; FText (as_policy_identity result);
    FU64 (as_accepted_draft_count result); FU64 (as_rejected_draft_count result); FU64 (as_committed_count result);
    FU64 (as_rejection_index result); FU64 (as_correction_present result); FU64 (as_bonus_present result)]
    ++ (FU64 <$> tokens))).

(** * Admission *)

Definition geometry : run () := run_refuse YVEX_ERR_INVALID_ARG "speculative acceptance geometry is incomplete".

(** Every token of the first [count] is in the vocabulary. *)
Definition tokens_within (tokens : option (list Z)) (count vocabulary_size : Z) (why : string) : run () :=
  for_range 0 count (λ row _,
    let! token := run_access (pointer_get tokens row) in
    refuse_when (vocabulary_size <=? token) with YVEX_ERR_BOUNDS why;
    run_ret ()) ().

(** [uniform] is finite and in [0, 1). *)
Definition draw_valid (uniform : spec_float) : bool :=
  is_finite uniform && negb (SFltb uniform (f64_of_Z 0)) && negb (SFleb (f64_of_Z 1) uniform).

(** src/src/runtime/acceptance.c:134-154, [acceptance_validate] *)
Definition draft_row_valid (request : acceptance_request) (row : Z) : option bool :=
  candidate ← pointer_get (aq_candidate_token_ids request) row;
  uniform ← pointer_get (aq_acceptance_uniforms request) row;
  if negb (draw_valid uniform) then Some false
  else
    let offset := u64 (row * aq_distribution_stride request) in
    draft_valid ← acceptance_distribution_valid (array_from (aq_draft_probabilities request) offset)
      (aq_vocabulary_size request);
    if negb draft_valid then Some false
    else
      target_valid ← acceptance_distribution_valid (array_from (aq_target_probabilities request) offset)
        (aq_vocabulary_size request);
      if negb target_valid then Some false
      else
        p ← pointer_get (aq_draft_probabilities request) (u64 (offset + candidate));
        Some (negb (SFleb p (f32_of_Z 0))).

(** src/src/runtime/acceptance.c, [acceptance_validate] *)
Definition acceptance_validate (request : acceptance_request) (committed_capacity : Z) : run () :=
  let count := aq_candidate_count request in
  let stride := aq_distribution_stride request in
  let vocabulary := aq_vocabulary_size request in
  if negb (aq_schema_version request =? YVEX_SPECULATION_SCHEMA_V1)
     || (YVEX_SPECULATION_ACCEPT_STOCHASTIC <? aq_kind request)
     || (count =? 0) || (YVEX_SPECULATION_MAX_BLOCK <? count) || (vocabulary =? 0) || (UINT32_MAX <? vocabulary)
     || (stride <? vocabulary) || (SIZE_MAX / 4 <? stride) || (SIZE_MAX / stride <? u64 (count + 1))
     || bool_decide (aq_candidate_token_ids request = None) || (committed_capacity <? u64 (count + 1)) then geometry
  else
    let! _ := tokens_within (aq_candidate_token_ids request) count vocabulary "candidate token is outside the vocabulary" in
    if aq_kind request =? YVEX_SPECULATION_ACCEPT_GREEDY then
      refuse_when bool_decide (aq_target_token_ids request = None)
        with YVEX_ERR_INVALID_ARG "greedy acceptance requires target token IDs"%string;
      tokens_within (aq_target_token_ids request) (count + 1) vocabulary "target token is outside the vocabulary"
    else
      refuse_when bool_decide (aq_draft_probabilities request = None) || bool_decide (aq_target_probabilities request = None)
          || bool_decide (aq_acceptance_uniforms request = None) || negb (draw_valid (aq_correction_uniform request))
        with YVEX_ERR_INVALID_ARG "stochastic acceptance requires distributions and draws"%string;
      let! _ := for_range 0 count (λ row _,
        let! valid := run_access (draft_row_valid request row) in
        refuse_when negb valid with YVEX_ERR_FORMAT "speculative probability row is malformed"%string;
        run_ret ()) () in
      let! valid := run_access (acceptance_distribution_valid
        (array_from (aq_target_probabilities request) (u64 (count * stride))) vocabulary) in
      refuse_when negb valid with YVEX_ERR_FORMAT "target bonus distribution is malformed"%string;
      run_ret ().

(** * Sealing *)

Definition flag (value : Z) : bool := (value =? 0) || (value =? 1).

(** src/src/runtime/acceptance.c, [yvex_speculation_acceptance_seal] *)
Definition yvex_speculation_acceptance_seal (vocabulary_size : Z) (committed : list Z) (committed_capacity : Z)
    (result : acceptance_result) : run acceptance_result :=
  let accepted := as_accepted_draft_count result in
  let proposed := as_proposed_count result in
  let inconsistent : run acceptance_result :=
    run_refuse YVEX_ERR_FORMAT "bounded speculative acceptance facts are inconsistent" in
  if negb (as_schema_version result =? YVEX_SPECULATION_SCHEMA_V1) || (as_kind result <? YVEX_SPECULATION_ACCEPT_GREEDY)
     || (YVEX_SPECULATION_ACCEPT_STOCHASTIC <? as_kind result) || (proposed =? 0) || (YVEX_SPECULATION_MAX_BLOCK <? proposed)
     || (vocabulary_size =? 0) || (UINT32_MAX <? vocabulary_size) || (as_committed_count result =? 0)
     || (committed_capacity <? as_committed_count result) || (proposed <? accepted)
     || negb (as_rejected_draft_count result =? u64 (proposed - accepted))
     || negb (as_committed_count result =? u64 (accepted + 1)) || negb (flag (as_all_candidates_accepted result))
     || negb (flag (as_correction_present result)) || negb (flag (as_bonus_present result))
     || negb (as_correction_present result + as_bonus_present result =? 1)
     || negb (as_all_candidates_accepted result =? as_bonus_present result)
     || (negb (as_correction_present result =? 0) &&
         ((proposed <=? accepted) || negb (as_rejection_index result =? accepted)))
     || (negb (as_bonus_present result =? 0) &&
         (negb (accepted =? proposed) || negb (as_rejection_index result =? proposed))) then inconsistent
  else
    let! last := run_access (array_get committed (as_committed_count result - 1)) in
    if negb (as_correction_or_bonus_token_id result =? last) then inconsistent
    else
      let! _ := tokens_within (Some committed) (as_committed_count result) vocabulary_size
        "bounded speculative acceptance token is outside the vocabulary" in
      let underived : run acceptance_result :=
        run_refuse YVEX_ERR_STATE "speculative acceptance identity derivation failed" in
      match acceptance_policy_identity (as_kind result) proposed vocabulary_size with
      | None => underived
      | Some policy =>
          let result := result <| as_policy_identity := policy |> in
          let! identity := run_access (acceptance_identity committed result) in
          match identity with
          | None => underived
          | Some acceptance => run_ret (result <| as_acceptance_identity := acceptance |>)
          end
      end.

(** * Acceptance *)

(** Whether the candidate of a row is kept.
    src/src/runtime/acceptance.c:245-256, [yvex_speculation_accept] *)
Definition candidate_accepted (request : acceptance_request) (index candidate : Z) : option bool :=
  if aq_kind request =? YVEX_SPECULATION_ACCEPT_GREEDY then
    target ← pointer_get (aq_target_token_ids request) index; Some (candidate =? target)
  else
    let offset := u64 (index * aq_distribution_stride request) in
    uniform ← pointer_get (aq_acceptance_uniforms request) index;
    target ← pointer_get (array_from (aq_target_probabilities request) offset) candidate;
    draft ← pointer_get (array_from (aq_draft_probabilities request) offset) candidate;
    Some (SFltb uniform (f64_fmin (f64_of_Z 1) (f64_div (widen target) (widen draft)))).

(** What takes the place of the candidate of a row.
    src/src/runtime/acceptance.c:261-266, [yvex_speculation_accept] *)
Definition correction_token (request : acceptance_request) (index : Z) : option Z :=
  if aq_kind request =? YVEX_SPECULATION_ACCEPT_GREEDY then pointer_get (aq_target_token_ids request) index
  else
    let offset := u64 (index * aq_distribution_stride request) in
    yvex_speculation_distribution_sample (array_from (aq_target_probabilities request) offset)
      (array_from (aq_draft_probabilities request) offset) (aq_vocabulary_size request) (aq_correction_uniform request) true.

(** What follows the candidates when all are kept.
    src/src/runtime/acceptance.c:280-285, [yvex_speculation_accept] *)
Definition bonus_token (request : acceptance_request) : option Z :=
  let count := aq_candidate_count request in
  if aq_kind request =? YVEX_SPECULATION_ACCEPT_GREEDY then pointer_get (aq_target_token_ids request) count
  else
    yvex_speculation_distribution_sample
      (array_from (aq_target_probabilities request) (u64 (count * aq_distribution_stride request))) None
      (aq_vocabulary_size request) (aq_correction_uniform request) false.

(** The candidates from [index] on, [n] of them.
    src/src/runtime/acceptance.c:241-278, [yvex_speculation_accept] *)
Fixpoint acceptance_loop (n : nat) (request : acceptance_request) (index : Z) (committed : list Z)
    (result : acceptance_result) : run (list Z * acceptance_result) :=
  match n with
  | O => run_ret (committed, result)
  | S n =>
      let! candidate := run_access (pointer_get (aq_candidate_token_ids request) index) in
      let! accepted := run_access (candidate_accepted request index candidate) in
      if negb accepted then
        let! correction := run_access (correction_token request index) in
        refuse_when (correction =? UINT32_MAX) with YVEX_ERR_FORMAT "residual target distribution is empty"%string;
        let! committed := run_access (array_set committed (as_committed_count result) correction) in
        run_ret (committed, result <| as_rejection_index := index |>
          <| as_rejected_draft_count := aq_candidate_count request - index |>
          <| as_committed_count := u64 (as_committed_count result + 1) |>
          <| as_correction_present := 1 |> <| as_correction_or_bonus_token_id := correction |>)
      else
        let! committed := run_access (array_set committed (as_committed_count result) candidate) in
        acceptance_loop n request (index + 1) committed
          (result <| as_committed_count := u64 (as_committed_count result + 1) |>
            <| as_accepted_draft_count := u64 (as_accepted_draft_count result + 1) |>)
  end.

(** The committed tokens and the result.
    src/src/runtime/acceptance.c, [yvex_speculation_accept] *)
Definition yvex_speculation_accept (request : acceptance_request) (committed : list Z) (committed_capacity : Z)
    : run (list Z * acceptance_result) :=
  let! _ := acceptance_validate request committed_capacity in
  let count := aq_candidate_count request in
  let result := blank_result <| as_schema_version := YVEX_SPECULATION_SCHEMA_V1 |> <| as_kind := aq_kind request |>
    <| as_proposed_count := count |> <| as_rejection_index := count |> in
  let! (committed, result) := acceptance_loop (Z.to_nat count) request 0 committed result in
  let! (committed, result) :=
    (if as_accepted_draft_count result =? count then
       let! bonus := run_access (bonus_token request) in
       refuse_when (bonus =? UINT32_MAX) with YVEX_ERR_FORMAT "target bonus distribution is empty"%string;
       let! committed := run_access (array_set committed (as_committed_count result) bonus) in
       run_ret (committed, result <| as_committed_count := u64 (as_committed_count result + 1) |>
         <| as_all_candidates_accepted := 1 |> <| as_bonus_present := 1 |> <| as_correction_or_bonus_token_id := bonus |>)
     else run_ret (committed, result)) in
  let! result := yvex_speculation_acceptance_seal (aq_vocabulary_size request) committed committed_capacity result in
  run_ret (committed, result).

(** * Extents *)

(** src/src/runtime/acceptance.c, [yvex_speculation_candidate_extent] *)
Definition yvex_speculation_candidate_extent (policy_block_size remaining_output_tokens remaining_context_tokens : Z)
    : outcome Z :=
  if (policy_block_size =? 0) || (YVEX_SPECULATION_MAX_BLOCK <? policy_block_size) || (remaining_output_tokens =? 0)
     || (remaining_context_tokens =? 0) then
    Refused YVEX_ERR_INVALID_ARG "speculative candidate extent requires bounded output and context"
  else if (remaining_output_tokens <=? 2) || (remaining_context_tokens <=? 2) then Done 0
  else
    let output_limit := remaining_output_tokens - 2 in
    let context_limit := remaining_context_tokens - 2 in
    let admitted := policy_block_size in
    let admitted := if output_limit <? admitted then output_limit else admitted in
    let admitted := if context_limit <? admitted then context_limit else admitted in
    Done admitted.

(** src/src/runtime/acceptance.c, [yvex_speculation_commit_plan_build] *)
Definition yvex_speculation_commit_plan_build (acceptance : acceptance_result) (terminal_index : Z) : outcome commit_plan :=
  let malformed := Refused YVEX_ERR_INVALID_ARG "speculative commit plan is malformed" in
  if negb (as_schema_version acceptance =? YVEX_SPECULATION_SCHEMA_V1) || (as_committed_count acceptance =? 0)
     || negb (as_committed_count acceptance =? u64 (as_accepted_draft_count acceptance + 1)) then malformed
  else
    match yvex_core_u64_add (as_committed_count acceptance) 1 with
    | None => malformed
    | Some output_count =>
        if output_count <? terminal_index then malformed
        else if terminal_index <? output_count then
          if terminal_index =? 0 then
            Refused YVEX_ERR_STATE "a terminal conditioning token cannot enter verification"
          else Done (CommitPlan terminal_index (u64 (terminal_index + 1)) true)
        else Done (CommitPlan output_count output_count false)
    end.

(** * Rows of probabilities *)

(** A pointer to at least [n] elements. *)
Definition reaches {A} (l : option (list A)) (n : Z) : Prop := ∃ xs, l = Some xs ∧ n ≤ Z.of_nat (length xs).

Lemma pointer_reaches {A} (l : option (list A)) n i : reaches l n → 0 ≤ i < n → is_Some (pointer_get l i).
Proof. intros (xs & -> & Hn) Hi. apply array_get_is_Some. lia. Qed.

Lemma from_reaches {A} (l : option (list A)) n i : reaches l n → 0 ≤ i → reaches (array_from l i) (n - i).
Proof. intros (xs & -> & Hn) Hi. eexists. split; [done|]. rewrite length_drop. lia. Qed.

Lemma reaches_le {A} (l : option (list A)) n m : reaches l n → m ≤ n → reaches l m.
Proof. intros (xs & -> & Hn) Hm. exists xs. split; [done|lia]. Qed.

Lemma distribution_sum_total row n index sum :
  reaches row (index + Z.of_nat n) → 0 ≤ index → nonneg sum = true →
  ∃ r, distribution_sum n row index sum = Some r ∧
    (∀ s, r = Some s → nonneg s = true ∧ ∀ draft, sample_total n row draft false index sum = Some s).
Proof.
  revert index sum. induction n as [|n IH]; intros index sum Hr Hi Hs; cbn [distribution_sum sample_total].
  { eexists. split; [done|]. by intros s [= <-]. }
  destruct (pointer_reaches row _ index Hr) as [x E]; [lia|]. unfold sample_weight. rewrite E. cbn [mbind option_bind].
  destruct (negb (is_finite x) || SFltb x (f32_of_Z 0) || SFltb (f32_of_Z 1) x) eqn:Ev.
  { eexists. split; [done|]. by intros s [=]. }
  rewrite !orb_false_iff, negb_false_iff in Ev. destruct Ev as [[Hf Hlow] _].
  apply IH; [by apply (reaches_le _ _ _ Hr); lia|lia|].
  apply add_nonneg; [done|]. by apply widen_nonneg, not_below_nonneg.
Qed.

Lemma distribution_valid_total row count :
  reaches row count → 0 < count →
  ∃ b, acceptance_distribution_valid row count = Some b ∧
    (b = true → ∃ s, SFleb s (f64_of_Z 0) = false ∧
       ∀ draft, sample_total (Z.to_nat count) row draft false 0 (f64_of_Z 0) = Some s).
Proof.
  intros Hr Hc. unfold acceptance_distribution_valid. destruct Hr as (xs & -> & Hl).
  rewrite bool_decide_eq_false_2 by done. rewrite (proj2 (Z.eqb_neq count 0)) by lia. cbn [orb].
  destruct (distribution_sum_total (Some xs) (Z.to_nat count) 0 (f64_of_Z 0)) as (r & -> & Hs);
    [exists xs; split; [done|lia]|lia|done|].
  cbn [mbind option_bind]. eexists. split; [done|]. destruct r as [s|]; [|done]. intros Hle.
  destruct (Hs s eq_refl) as [Hn Ht]. exists s. split; [|done]. eapply near_one_positive; [done| |exact Hle].
  by vm_compute.
Qed.

Lemma sample_weight_total target draft residual n i :
  reaches target n → (residual = true → reaches draft n) → 0 ≤ i < n → is_Some (sample_weight target draft residual i).
Proof.
  intros Ht Hd Hi. unfold sample_weight. destruct (pointer_reaches target n i Ht Hi) as [t ->]. cbn [mbind option_bind].
  destruct residual; [|by eexists]. destruct (pointer_reaches draft n i (Hd eq_refl) Hi) as [d ->]. by eexists.
Qed.

Lemma sample_total_total target draft residual n index total :
  reaches target (index + Z.of_nat n) → (residual = true → reaches draft (index + Z.of_nat n)) → 0 ≤ index →
  is_Some (sample_total n target draft residual index total).
Proof.
  revert index total. induction n as [|n IH]; intros index total Ht Hd Hi; cbn [sample_total]; [by eexists|].
  destruct (sample_weight_total target draft residual _ index Ht Hd) as [w ->]; [lia|]. cbn [mbind option_bind].
  apply IH; [by apply (reaches_le _ _ _ Ht); lia|intros Hr; by apply (reaches_le _ _ _ (Hd Hr)); lia|lia].
Qed.

Lemma sample_scan_total target draft residual count uniform total n index cumulative :
  reaches target count → (residual = true → reaches draft count) → 0 ≤ index → count = index + Z.of_nat n →
  0 < Z.of_nat n → count ≤ UINT32_MAX →
  ∃ token, sample_scan n target draft residual count uniform total index cumulative = Some token ∧ 0 ≤ token < count.
Proof.
  revert index cumulative. induction n as [|n IH]; intros index cumulative Ht Hd Hi Hc Hn Hmax; [lia|]. cbn [sample_scan].
  destruct (sample_weight_total target draft residual count index Ht Hd) as [w ->]; [lia|]. cbn [mbind option_bind].
  rewrite u64_id by ulia.
  match goal with |- context [if ?b then _ else _] => destruct b eqn:E end.
  { eexists. split; [done|]. rewrite u32_id by ulia. lia. }
  rewrite orb_false_iff, Z.eqb_neq in E. apply IH; [done|done|lia|lia|lia|done].
Qed.

(** From valid rows a token is always drawn, and it is one of the vocabulary. *)
Lemma sample_total_positive target draft count uniform residual :
  reaches target count → (residual = true → reaches draft count) → 0 < count ≤ UINT32_MAX →
  acceptance_distribution_valid target count = Some true →
  ∃ token, yvex_speculation_distribution_sample target draft count uniform residual = Some token ∧ 0 ≤ token < count.
Proof.
  intros Ht Hd Hc Hv. unfold yvex_speculation_distribution_sample.
  destruct (distribution_valid_total target count Ht) as (b & Eb & Hb); [lia|]. rewrite Hv in Eb. injection Eb as <-.
  destruct (Hb eq_refl) as (s & Hs & Es).
  destruct (sample_total_total target draft residual (Z.to_nat count) 0 (f64_of_Z 0)) as [total E];
    [by apply (reaches_le _ _ _ Ht); lia|intros Hr; by apply (reaches_le _ _ _ (Hd Hr)); lia|lia|].
  rewrite E. cbn [mbind option_bind].
  destruct (residual && SFleb total (f64_div (f64_of_Z 1) (f64_of_Z 100000000))) eqn:Er.
  - rewrite Es. cbn [mbind option_bind]. rewrite Hs.
    apply sample_scan_total; [done|done|lia|lia|lia|lia].
  - cbn [mbind option_bind]. assert (SFleb total (f64_of_Z 0) = false) as ->.
    { destruct residual; [|rewrite (Es draft) in E; by injection E as <-]. cbn [andb] in Er.
      eapply above_positive; [| |exact Er]; by vm_compute. }
    apply sample_scan_total; [done|done|lia|lia|lia|lia].
Qed.

(** * Admitted requests *)

(** What a caller hands over: machine words, and arrays as long as the counts say. *)
Record request_sized (request : acceptance_request) (committed : list Z) (capacity : Z) : Prop := RequestSized {
  rz_words : is_u64 (aq_candidate_count request) ∧ is_u64 (aq_vocabulary_size request) ∧
    is_u64 (aq_distribution_stride request) ∧ is_u64 capacity ∧ 0 ≤ aq_kind request;
  rz_committed : capacity ≤ Z.of_nat (length committed);
  rz_candidates : aq_candidate_token_ids request ≠ None →
    reaches (aq_candidate_token_ids request) (aq_candidate_count request);
  rz_targets : aq_target_token_ids request ≠ None →
    reaches (aq_target_token_ids request) (aq_candidate_count request + 1);
  rz_draft : aq_draft_probabilities request ≠ None →
    reaches (aq_draft_probabilities request) (aq_candidate_count request * aq_distribution_stride request);
  rz_target : aq_target_probabilities request ≠ None →
    reaches (aq_target_probabilities request) ((aq_candidate_count request + 1) * aq_distribution_stride request);
  rz_uniforms : aq_acceptance_uniforms request ≠ None →
    reaches (aq_acceptance_uniforms request) (aq_candidate_count request);
  rz_tokens : ∀ i t, pointer_get (aq_candidate_token_ids request) i = Some t ∨ pointer_get (aq_target_token_ids request) i = Some t → 0 ≤ t;
}.

Definition tokens_inside (tokens : option (list Z)) (count vocabulary_size : Z) : Prop :=
  ∀ i, 0 ≤ i < count → ∀ t, pointer_get tokens i = Some t → t < vocabulary_size.

Record geometry_ok (request : acceptance_request) (capacity : Z) : Prop := GeometryOk {
  go_schema : aq_schema_version request = YVEX_SPECULATION_SCHEMA_V1;
  go_kind : aq_kind request = YVEX_SPECULATION_ACCEPT_GREEDY ∨ aq_kind request = YVEX_SPECULATION_ACCEPT_STOCHASTIC;
  go_count : 1 ≤ aq_candidate_count request ≤ YVEX_SPECULATION_MAX_BLOCK;
  go_vocabulary : 1 ≤ aq_vocabulary_size request ≤ UINT32_MAX;
  go_stride : aq_vocabulary_size request ≤ aq_distribution_stride request ≤ SIZE_MAX / 4;
  go_rows : (aq_candidate_count request + 1) * aq_distribution_stride request ≤ SIZE_MAX;
  go_candidates : aq_candidate_token_ids request ≠ None;
  go_capacity : aq_candidate_count request + 1 ≤ capacity;
}.

Record greedy_ok (request : acceptance_request) : Prop := GreedyOk {
  gr_targets : aq_target_token_ids request ≠ None;
  gr_tokens : tokens_inside (aq_target_token_ids request) (aq_candidate_count request + 1) (aq_vocabulary_size request);
}.

Record stochastic_ok (request : acceptance_request) : Prop := StochasticOk {
  sk_arrays : aq_draft_probabilities request ≠ None ∧ aq_target_probabilities request ≠ None ∧ aq_acceptance_uniforms request ≠ None;
  sk_draw : draw_valid (aq_correction_uniform request) = true;
  sk_rows : ∀ row, 0 ≤ row < aq_candidate_count request → draft_row_valid request row = Some true;
  sk_bonus : acceptance_distribution_valid (array_from (aq_target_probabilities request)
    (u64 (aq_candidate_count request * aq_distribution_stride request))) (aq_vocabulary_size request) = Some true;
}.

(** The requests that are answered. *)
Record request_admissible (request : acceptance_request) (capacity : Z) : Prop := RequestAdmissible {
  ra_geometry : geometry_ok request capacity;
  ra_candidates : tokens_inside (aq_candidate_token_ids request) (aq_candidate_count request) (aq_vocabulary_size request);
  ra_greedy : aq_kind request = YVEX_SPECULATION_ACCEPT_GREEDY → greedy_ok request;
  ra_stochastic : aq_kind request = YVEX_SPECULATION_ACCEPT_STOCHASTIC → stochastic_ok request;
}.

(** ** Checks *)

(** A run that checks [P]: it finishes where [P] holds and refuses elsewhere. *)
Definition checks (m : run ()) (P : Prop) : Prop :=
  (m = Some (Done ()) ∧ P) ∨ (∃ st why, m = Some (Refused st why) ∧ ¬ P).

Lemma checks_iff m P Q : (P ↔ Q) → checks m P → checks m Q.
Proof. intros H [[-> ?]|(st & why & -> & ?)]; [left; tauto|right; exists st, why; tauto]. Qed.

Lemma checks_then m k P Q : checks m P → (P → checks k Q) → checks (let! _ := m in k) (P ∧ Q).
Proof.
  intros [[-> HP]|(st & why & -> & HP)] Hk; [|right; exists st, why; tauto].
  destruct (Hk HP) as [[E HQ]|(st & why & E & HQ)]; [left; tauto|right; exists st, why; tauto].
Qed.

Lemma checks_guard (b : bool) st why k P Q :
  (b = false ↔ P) → (P → checks k Q) → checks (refuse_when b with st why; k) (P ∧ Q).
Proof.
  intros Hb Hk. destruct b; [right; exists st, why; split; [done|]; intros [HP _]; by apply Hb in HP|].
  assert P as HP by by apply Hb. destruct (Hk HP) as [[E HQ]|(st' & why' & E & HQ)]; [left; tauto|right; exists st', why'; tauto].
Qed.

Lemma checks_done : checks (run_ret ()) True.
Proof. by left. Qed.

Lemma checks_range count body (P : Z → Prop) :
  (∀ i, 0 ≤ i < count → checks (body i ()) (P i)) → checks (for_range 0 count body ()) (∀ i, 0 ≤ i < count → P i).
Proof.
  intros Hb. unfold for_range. rewrite Z.sub_0_r.
  destruct (for_each_outcome body (λ done_ _, ∀ i, i ∈ done_ → P i) (λ _ x _ _, 0 ≤ x < count ∧ ¬ P x) (seqZ 0 count) ())
    as [([] & E & HI)|(done_ & x & todo & st & why & Es & E & Hx & Hno)].
  - intros i []%not_elem_of_nil.
  - intros done_ x todo [] Es HI. apply seqZ_split in Es as (_ & Hx & _).
    destruct (Hb x) as [[E HP]|(st & why & E & HP)]; [lia| |].
    + left. exists (). split; [done|]. intros i [Hi| ->%list_elem_of_singleton]%elem_of_app; [by apply HI|done].
    + right. exists st, why. split; [done|]. split; [lia|done].
  - left. split; [done|]. intros i Hi. apply HI, elem_of_seqZ. lia.
  - right. exists st, why. split; [done|]. intros H. by apply Hno, H.
Qed.

Lemma tokens_within_exact tokens count vocabulary_size why :
  reaches tokens count → checks (tokens_within tokens count vocabulary_size why) (tokens_inside tokens count vocabulary_size).
Proof.
  intros Hr. apply checks_range. intros i Hi. destruct (pointer_reaches tokens count i Hr Hi) as [t E].
  rewrite E. cbn [run_access run_bind]. apply (checks_iff _ (t < vocabulary_size ∧ True)); [|apply checks_guard].
  - split; [intros [? _] t' [= <-]; done|]. intros H. split; [by apply H|done].
  - apply Z.leb_gt.
  - intros _. apply checks_done.
Qed.

Section request.
Context (request : acceptance_request) (committed : list Z) (capacity : Z).
Context (Hsized : request_sized request committed capacity).

Local Abbreviation count := (aq_candidate_count request).
Local Abbreviation stride := (aq_distribution_stride request).
Local Abbreviation vocabulary := (aq_vocabulary_size request).

Lemma geometry_exact {A} (m k : run A) :
  (if negb (aq_schema_version request =? YVEX_SPECULATION_SCHEMA_V1)
     || (YVEX_SPECULATION_ACCEPT_STOCHASTIC <? aq_kind request)
     || (count =? 0) || (YVEX_SPECULATION_MAX_BLOCK <? count) || (vocabulary =? 0) || (UINT32_MAX <? vocabulary)
     || (stride <? vocabulary) || (SIZE_MAX / 4 <? stride) || (SIZE_MAX / stride <? u64 (count + 1))
     || bool_decide (aq_candidate_token_ids request = None) || (capacity <? u64 (count + 1)) then m else k) = k ∧
    geometry_ok request capacity ∨
  (if negb (aq_schema_version request =? YVEX_SPECULATION_SCHEMA_V1)
     || (YVEX_SPECULATION_ACCEPT_STOCHASTIC <? aq_kind request)
     || (count =? 0) || (YVEX_SPECULATION_MAX_BLOCK <? count) || (vocabulary =? 0) || (UINT32_MAX <? vocabulary)
     || (stride <? vocabulary) || (SIZE_MAX / 4 <? stride) || (SIZE_MAX / stride <? u64 (count + 1))
     || bool_decide (aq_candidate_token_ids request = None) || (capacity <? u64 (count + 1)) then m else k) = m ∧
    ¬ geometry_ok request capacity.
Proof.
  destruct Hsized as [(Hc & Hv & Hs & Hcap & Hk) _ _ _ _ _ _ _].
  match goal with |- context [if ?b then _ else _] => destruct b eqn:E end; [right|left]; (split; [done|]).
  - intros [H1 H2 H3 H4 H5 H6 H7 H8]. unfold YVEX_SPECULATION_MAX_BLOCK in *.
    assert (u64 (count + 1) = count + 1) as Hu by (apply u64_id; ulia). rewrite Hu in E.
    rewrite !orb_true_iff, negb_true_iff, !Z.ltb_lt, !Z.eqb_eq, Z.eqb_neq, bool_decide_eq_true in E.
    assert (SIZE_MAX / stride < count + 1 → False).
    { rewrite Z.lt_nge. intros Hlt. apply Hlt, Z.div_le_lower_bound; lia. }
    unfold YVEX_SPECULATION_ACCEPT_STOCHASTIC, YVEX_SPECULATION_ACCEPT_GREEDY in *. intuition lia.
  - rewrite !orb_false_iff, negb_false_iff, !Z.ltb_ge, !Z.eqb_neq, Z.eqb_eq, bool_decide_eq_false in E.
    destruct E as ((((((((((E1 & E2) & E3) & E4) & E5) & E6) & E7) & E8) & E9) & E10) & E11).
    unfold YVEX_SPECULATION_MAX_BLOCK in *. rewrite u64_id in E9, E11 by ulia.
    unfold YVEX_SPECULATION_ACCEPT_STOCHASTIC in *. split; unfold YVEX_SPECULATION_MAX_BLOCK, YVEX_SPECULATION_ACCEPT_GREEDY,
      YVEX_SPECULATION_ACCEPT_STOCHASTIC; try done; try (unfold is_u64 in *; lia).
    pose proof (Z.mul_div_le SIZE_MAX stride ltac:(unfold is_u64 in *; lia)). unfold is_u64 in *. nia.
Qed.

Context (Hgeometry : geometry_ok request capacity).
Context (Hcandidates : tokens_inside (aq_candidate_token_ids request) count vocabulary).

Lemma row_offset row : 0 ≤ row ≤ count → u64 (row * stride) = row * stride ∧ 0 ≤ row * stride.
Proof.
  intros Hr. destruct Hgeometry. assert (0 ≤ stride) by lia.
  assert (0 ≤ row * stride) by nia. assert (row * stride ≤ (count + 1) * stride) by nia.
  split; [apply u64_id; ulia|done].
Qed.

Lemma candidate_at row : 0 ≤ row < count →
  ∃ t, pointer_get (aq_candidate_token_ids request) row = Some t ∧ 0 ≤ t < vocabulary.
Proof.
  intros Hr. destruct (pointer_reaches _ _ row (rz_candidates _ _ _ Hsized (go_candidates _ _ Hgeometry)) Hr) as [t E].
  exists t. split; [done|]. split; [eapply (rz_tokens _ _ _ Hsized); eauto|by eapply Hcandidates].
Qed.

Lemma draft_row_reaches row : aq_draft_probabilities request ≠ None → 0 ≤ row < count →
  reaches (array_from (aq_draft_probabilities request) (u64 (row * stride))) stride.
Proof.
  intros Hd Hr. destruct (row_offset row) as [-> Ho]; [lia|]. destruct Hgeometry.
  eapply reaches_le; [apply from_reaches; [by apply (rz_draft _ _ _ Hsized)|done]|nia].
Qed.

Lemma target_row_reaches row : aq_target_probabilities request ≠ None → 0 ≤ row ≤ count →
  reaches (array_from (aq_target_probabilities request) (u64 (row * stride))) stride.
Proof.
  intros Hd Hr. destruct (row_offset row) as [-> Ho]; [lia|]. destruct Hgeometry.
  eapply reaches_le; [apply from_reaches; [by apply (rz_target _ _ _ Hsized)|done]|nia].
Qed.

Definition arrays_present : Prop :=
  aq_draft_probabilities request ≠ None ∧ aq_target_probabilities request ≠ None ∧ aq_acceptance_uniforms request ≠ None.

Lemma draft_row_total row : arrays_present → 0 ≤ row < count → is_Some (draft_row_valid request row).
Proof.
  intros (Hd & Ht & Hu) Hr. unfold draft_row_valid. destruct (candidate_at row Hr) as (c & -> & Hc). cbn [mbind option_bind].
  destruct (pointer_reaches _ _ row (rz_uniforms _ _ _ Hsized Hu) Hr) as [u ->]. cbn [mbind option_bind].
  destruct (draw_valid u); cbn [negb]; [|by eexists]. cbn zeta.
  pose proof (go_vocabulary _ _ Hgeometry) as Hv. pose proof (go_stride _ _ Hgeometry) as Hs.
  destruct (distribution_valid_total _ vocabulary (reaches_le _ _ _ (draft_row_reaches row Hd Hr) (proj1 Hs))) as ([] & -> & _);
    [lia| |by eexists]. cbn [mbind option_bind negb].
  destruct (distribution_valid_total _ vocabulary (reaches_le _ _ _ (target_row_reaches row Ht ltac:(lia)) (proj1 Hs)))
    as ([] & -> & _); [lia| |by eexists]. cbn [mbind option_bind negb].
  destruct (row_offset row) as [-> Ho]; [lia|]. pose proof (go_rows _ _ Hgeometry).
  assert (row * stride + c < count * stride) by nia. rewrite u64_id by ulia.
  destruct (pointer_reaches _ _ (row * stride + c) (rz_draft _ _ _ Hsized Hd)) as [p ->]; [lia|]. by eexists.
Qed.

Lemma bonus_row_total : arrays_present →
  is_Some (acceptance_distribution_valid (array_from (aq_target_probabilities request) (u64 (count * stride))) vocabulary).
Proof.
  intros (_ & Ht & _). pose proof (go_vocabulary _ _ Hgeometry) as Hv. pose proof (go_stride _ _ Hgeometry) as Hs.
  pose proof (go_count _ _ Hgeometry).
  destruct (distribution_valid_total _ vocabulary (reaches_le _ _ _ (target_row_reaches count Ht ltac:(lia)) (proj1 Hs))) as (b & -> & _);
    [lia|by eexists].
Qed.

(** Tests whose answer is [true] where they pass. *)
Lemma checks_test (valid : option bool) st why :
  is_Some valid →
  checks (let! valid := run_access valid in refuse_when negb valid with st why; run_ret ()) (valid = Some true).
Proof. intros [[] ->]; [by left|right; exists st, why; by split]. Qed.

Lemma stochastic_exact :
  checks
    (refuse_when bool_decide (aq_draft_probabilities request = None) || bool_decide (aq_target_probabilities request = None)
         || bool_decide (aq_acceptance_uniforms request = None) || negb (draw_valid (aq_correction_uniform request))
       with YVEX_ERR_INVALID_ARG "stochastic acceptance requires distributions and draws"%string;
     let! _ := for_range 0 count (λ row _,
       let! valid := run_access (draft_row_valid request row) in
       refuse_when negb valid with YVEX_ERR_FORMAT "speculative probability row is malformed"%string;
       run_ret ()) () in
     let! valid := run_access (acceptance_distribution_valid
       (array_from (aq_target_probabilities request) (u64 (count * stride))) vocabulary) in
     refuse_when negb valid with YVEX_ERR_FORMAT "target bonus distribution is malformed"%string;
     run_ret ())
    (stochastic_ok request).
Proof.
  apply (checks_iff _ ((arrays_present ∧ draw_valid (aq_correction_uniform request) = true) ∧
    (∀ row, 0 ≤ row < count → draft_row_valid request row = Some true) ∧
    acceptance_distribution_valid (array_from (aq_target_probabilities request) (u64 (count * stride))) vocabulary = Some true)).
  { split; [intros ((? & ?) & ? & ?); by split|intros [Ha Hd Hr Hb]; exact (conj (conj Ha Hd) (conj Hr Hb))]. }
  apply checks_guard.
  { rewrite !orb_false_iff, !bool_decide_eq_false, negb_false_iff. unfold arrays_present. tauto. }
  intros (Ha & _). apply checks_then.
  - apply checks_range. intros row Hr. by apply checks_test, draft_row_total.
  - intros _. by apply checks_test, bonus_row_total.
Qed.

Lemma greedy_exact :
  checks
    (refuse_when bool_decide (aq_target_token_ids request = None)
       with YVEX_ERR_INVALID_ARG "greedy acceptance requires target token IDs"%string;
     tokens_within (aq_target_token_ids request) (count + 1) vocabulary "target token is outside the vocabulary")
    (greedy_ok request).
Proof.
  apply (checks_iff _ (aq_target_token_ids request ≠ None ∧ tokens_inside (aq_target_token_ids request) (count + 1) vocabulary)).
  { split; [intros []; by split|by intros []]. }
  apply checks_guard; [apply bool_decide_eq_false|]. intros Ht. by apply tokens_within_exact, (rz_targets _ _ _ Hsized).
Qed.
End request.

Lemma validate_exact request committed capacity :
  request_sized request committed capacity → checks (acceptance_validate request capacity) (request_admissible request capacity).
Proof.
  intros Hsized. unfold acceptance_validate. cbn zeta.
  match goal with |- checks (if _ then ?m else ?k) _ => destruct (geometry_exact request committed capacity Hsized m k) as [[E Hg]|[E Hg]] end;
    rewrite E.
  2: { right. eexists _, _. split; [done|]. by intros []. }
  pose proof (go_kind _ _ Hg) as Hk.
  apply (checks_iff _ (tokens_inside (aq_candidate_token_ids request) (aq_candidate_count request) (aq_vocabulary_size request) ∧
    (aq_kind request = YVEX_SPECULATION_ACCEPT_GREEDY → greedy_ok request) ∧
    (aq_kind request = YVEX_SPECULATION_ACCEPT_STOCHASTIC → stochastic_ok request))).
  { split; [intros (? & ? & ?); by split|by intros []]. }
  apply checks_then; [by apply tokens_within_exact, (rz_candidates _ _ _ Hsized), (go_candidates _ _ Hg)|]. intros Hc.
  destruct (Z.eqb_spec (aq_kind request) YVEX_SPECULATION_ACCEPT_GREEDY) as [E1|E1].
  - eapply checks_iff; [|by eapply greedy_exact]. split; [|by intros [? _]; auto]. intros Hok. split; [done|].
    intros E2. rewrite E1 in E2. discriminate E2.
  - destruct Hk as [?|Hk]; [done|]. eapply checks_iff; [|by eapply stochastic_exact]. split; [by split|]. intros [_ ?]. auto.
Qed.

(** * What is kept *)

Definition keeps (request : acceptance_request) (index : Z) : bool :=
  bool_decide (pointer_get (aq_candidate_token_ids request) index ≫= candidate_accepted request index = Some true).

(** The candidates kept before the first that is not. *)
Fixpoint kept_from (n : nat) (request : acceptance_request) (index : Z) : nat :=
  match n with
  | O => O
  | S n => if keeps request index then S (kept_from n request (index + 1)) else O
  end.

Definition kept (request : acceptance_request) : nat := kept_from (Z.to_nat (aq_candidate_count request)) request 0.

Lemma kept_from_le n request index : (kept_from n request index ≤ n)%nat.
Proof. revert index. induction n as [|n IH]; intros index; cbn; [lia|]. destruct (keeps _ _); [|lia]. specialize (IH (index + 1)). lia. Qed.

(** The token committed after those. *)
Definition final_token (request : acceptance_request) : option Z :=
  if Z.of_nat (kept request) <? aq_candidate_count request then correction_token request (Z.of_nat (kept request))
  else bonus_token request.

(** Consecutive stores. *)
Definition array_write {A} (l : list A) (i : nat) (xs : list A) : list A := take i l ++ xs ++ drop (i + length xs) l.

Lemma array_write_one {A} (l : list A) (i : nat) v :
  (i < length l)%nat → array_set l (Z.of_nat i) v = Some (array_write l i [v]).
Proof.
  intros Hi. rewrite array_set_inside by lia. f_equal. rewrite Nat2Z.id. unfold array_write. cbn [length app].
  rewrite Nat.add_1_r. by apply insert_take_drop.
Qed.

Lemma length_array_write {A} (l : list A) i xs : (i + length xs ≤ length l)%nat → length (array_write l i xs) = length l.
Proof. intros H. unfold array_write. rewrite !length_app, length_take, length_drop. lia. Qed.

Lemma array_write_cons {A} (l : list A) i v xs :
  (i < length l)%nat → array_write (array_write l i [v]) (S i) xs = array_write l i (v :: xs).
Proof.
  intros Hi. unfold array_write at 1. cbn [length]. assert (length (take i l) = i) as Hl by (rewrite length_take; lia).
  assert (take (S i) (array_write l i [v]) = take i l ++ [v]) as ->.
  { unfold array_write. rewrite take_app_ge by lia. rewrite Hl. by replace (S i - i)%nat with 1%nat by lia. }
  assert (drop (S i + length xs) (array_write l i [v]) = drop (S (i + length xs)) l) as ->.
  { unfold array_write. rewrite drop_app_ge by lia. rewrite Hl. replace (S i + length xs - i)%nat with (S (length xs)) by lia.
    cbn [app drop]. rewrite drop_drop. f_equal. cbn. lia. }
  unfold array_write. rewrite <- (assoc_L (++)). cbn [app length]. by replace (i + S (length xs))%nat with (S (i + length xs)) by lia.
Qed.

Lemma array_write_nil {A} (l : list A) i : array_write l i [] = l.
Proof. unfold array_write. cbn. by rewrite Nat.add_0_r, take_drop. Qed.

Section accept.
Context (request : acceptance_request) (committed : list Z) (capacity : Z).
Context (Hsized : request_sized request committed capacity) (Hok : request_admissible request capacity).

Local Abbreviation count := (aq_candidate_count request).
Local Abbreviation vocabulary := (aq_vocabulary_size request).

Let Hg : geometry_ok request capacity := ra_geometry _ _ Hok.

Lemma kind_cases :
  (aq_kind request =? YVEX_SPECULATION_ACCEPT_GREEDY) = true ∧ greedy_ok request ∨
  (aq_kind request =? YVEX_SPECULATION_ACCEPT_GREEDY) = false ∧ stochastic_ok request.
Proof.
  destruct (go_kind _ _ Hg) as [E|E]; [left|right]; rewrite E; split; try done;
    [by apply (ra_greedy _ _ Hok)|by apply (ra_stochastic _ _ Hok)].
Qed.

Lemma target_at : greedy_ok request → ∀ i, 0 ≤ i ≤ count →
  ∃ t, pointer_get (aq_target_token_ids request) i = Some t ∧ 0 ≤ t < vocabulary.
Proof.
  intros [Ht Hin] i Hi. destruct (pointer_reaches _ _ i (rz_targets _ _ _ Hsized Ht)) as [t E]; [lia|].
  exists t. split; [done|]. split; [eapply (rz_tokens _ _ _ Hsized); eauto|]. by apply (Hin i); [lia|].
Qed.

Lemma probability_at i c : stochastic_ok request → 0 ≤ i < count → 0 ≤ c < vocabulary →
  is_Some (pointer_get (array_from (aq_target_probabilities request) (u64 (i * aq_distribution_stride request))) c) ∧
  is_Some (pointer_get (array_from (aq_draft_probabilities request) (u64 (i * aq_distribution_stride request))) c).
Proof.
  intros [(Hd & Ht & _) _ _ _] Hi Hc. pose proof (go_stride _ _ Hg). split; eapply pointer_reaches.
  - eapply target_row_reaches; [done|done|done|lia].
  - lia.
  - by eapply draft_row_reaches.
  - lia.
Qed.

Lemma accepted_total i : 0 ≤ i < count →
  ∃ c b, pointer_get (aq_candidate_token_ids request) i = Some c ∧ 0 ≤ c < vocabulary ∧
    candidate_accepted request i c = Some b ∧ keeps request i = b.
Proof.
  intros Hi. destruct (candidate_at request committed capacity Hsized Hg (ra_candidates _ _ Hok) i Hi) as (c & E & Hc).
  assert (is_Some (candidate_accepted request i c)) as [b Eb].
  { unfold candidate_accepted. destruct kind_cases as [[-> Hk]|[-> Hk]].
    - destruct (target_at Hk i) as (t & -> & _); [lia|]. by eexists.
    - destruct (sk_arrays _ Hk) as (_ & _ & Hu).
      destruct (pointer_reaches _ _ i (rz_uniforms _ _ _ Hsized Hu) Hi) as [u ->].
      destruct (probability_at i c Hk Hi Hc) as [[t ->] [d ->]]. by eexists. }
  exists c, b. split; [done|]. split; [done|]. split; [done|]. unfold keeps. rewrite E. cbn [mbind option_bind]. rewrite Eb.
  destruct b; [by apply bool_decide_eq_true|by apply bool_decide_eq_false].
Qed.

Lemma correction_total i : 0 ≤ i < count → ∃ t, correction_token request i = Some t ∧ 0 ≤ t < vocabulary.
Proof.
  intros Hi. unfold correction_token. destruct kind_cases as [[-> Hk]|[-> Hk]]; [apply target_at; [done|lia]|].
  destruct (sk_arrays _ Hk) as (Hd & Ht & _). pose proof (go_stride _ _ Hg). pose proof (go_vocabulary _ _ Hg).
  apply sample_total_positive; [| |lia|].
  - eapply reaches_le; [eapply target_row_reaches; [done|done|done|lia]|lia].
  - intros _. eapply reaches_le; [by eapply draft_row_reaches|lia].
  - pose proof (sk_rows _ Hk i Hi) as Hv. unfold draft_row_valid in Hv.
    apply bind_Some in Hv as (c & _ & Hv). apply bind_Some in Hv as (u & _ & Hv). destruct (draw_valid u); [|done].
    cbn [negb] in Hv. cbn zeta in Hv. apply bind_Some in Hv as ([] & _ & Hv); [|done]. cbn [negb] in Hv.
    by apply bind_Some in Hv as ([] & Hv & H').
Qed.

Lemma bonus_total : ∃ t, bonus_token request = Some t ∧ 0 ≤ t < vocabulary.
Proof.
  pose proof (go_count _ _ Hg). pose proof (go_stride _ _ Hg). pose proof (go_vocabulary _ _ Hg).
  unfold bonus_token. destruct kind_cases as [[-> Hk]|[-> Hk]]; [apply target_at; [done|lia]|].
  destruct (sk_arrays _ Hk) as (Hd & Ht & _).
  apply sample_total_positive; [|done|lia|by apply (sk_bonus _ Hk)].
  eapply reaches_le; [eapply target_row_reaches; [done|done|done|lia]|lia].
Qed.

(** What the loop makes of a result that has [index] candidates behind it. *)
Definition loop_result (result : acceptance_result) (index k n : nat) (correction : Z) : acceptance_result :=
  let result := result <| as_committed_count := Z.of_nat (index + k) |> <| as_accepted_draft_count := Z.of_nat (index + k) |> in
  if (k <? n)%nat then
    result <| as_rejection_index := Z.of_nat (index + k) |> <| as_rejected_draft_count := count - Z.of_nat (index + k) |>
      <| as_committed_count := Z.of_nat (index + k + 1) |> <| as_correction_present := 1 |>
      <| as_correction_or_bonus_token_id := correction |>
  else result.

Lemma loop_exact tokens n : aq_candidate_token_ids request = Some tokens →
  ∀ index array result, count = Z.of_nat (index + n) → (index + n < length array)%nat →
    as_committed_count result = Z.of_nat index → as_accepted_draft_count result = Z.of_nat index →
  let k := kept_from n request (Z.of_nat index) in
  ∃ t, acceptance_loop n request (Z.of_nat index) array result =
      Some (Done (array_write array index (take k (drop index tokens) ++ if (k <? n)%nat then [t] else []),
        loop_result result index k n t)) ∧
    ((k < n)%nat → correction_token request (Z.of_nat (index + k)) = Some t ∧ 0 ≤ t < vocabulary).
Proof.
  intros Et. induction n as [|n IH]; intros index array result Hc Hl Hcc Hac; cbn [acceptance_loop kept_from].
  { exists 0. cbn zeta. replace (take 0 (drop index tokens) ++ _) with (@nil Z) by done. rewrite array_write_nil.
    split; [|lia]. do 3 f_equal. unfold loop_result. rewrite (Nat.add_0_r index). destruct result. cbn in *. by subst. }
  pose proof (go_count _ _ Hg) as Hmax. unfold YVEX_SPECULATION_MAX_BLOCK in Hmax.
  destruct (accepted_total (Z.of_nat index)) as (c & b & Ec & Hcv & Eb & Ek); [lia|]. rewrite Ec. cbn [run_access run_bind].
  rewrite Eb, Ek. cbn [run_access run_bind]. destruct b; cbn [negb].
  - rewrite Hcc, array_write_one by lia. cbn [run_access run_bind]. rewrite Hac, !u64_id by ulia.
    replace (Z.of_nat index + 1) with (Z.of_nat (S index)) by lia.
    destruct (IH (S index) (array_write array index [c])
      (result <| as_committed_count := Z.of_nat (S index) |> <| as_accepted_draft_count := Z.of_nat (S index) |>)) as (t & E & Ht);
      [lia|rewrite length_array_write by (cbn; lia); lia|done|done|].
    exists t. cbn zeta in *. rewrite E. set (k := kept_from n request (Z.of_nat (S index))) in *. split.
    + rewrite array_write_cons by lia. unfold pointer_get in Ec. rewrite Et in Ec. cbn in Ec. rewrite array_get_nat in Ec.
      rewrite (drop_S tokens c index) by done. cbn [take app].
      change (S k <? S n)%nat with (k <? n)%nat. do 2 f_equal. f_equal.
      unfold loop_result. change (S k <? S n)%nat with (k <? n)%nat.
      replace (index + S k)%nat with (S index + k)%nat by lia. by destruct (k <? n)%nat.
    + intros Hlt. destruct Ht as [Ht1 Ht2]; [lia|]. split; [|done]. by replace (index + S k)%nat with (S index + k)%nat by lia.
  - destruct (correction_total (Z.of_nat index)) as (t & E & Ht); [lia|]. rewrite E. cbn [run_access run_bind].
    pose proof (go_vocabulary _ _ Hg). rewrite (proj2 (Z.eqb_neq t UINT32_MAX)) by lia.
    rewrite Hcc, array_write_one by lia. cbn [run_access run_bind]. exists t. cbn zeta. cbn [take]. rewrite Nat.add_0_r. split; [|done].
    unfold loop_result. cbn [Nat.ltb Nat.leb]. rewrite Nat.add_0_r.
    rewrite u64_id by ulia. replace (Z.of_nat (index + 1)) with (Z.of_nat index + 1) by lia. destruct result. cbn in *. by subst.
Qed.
End accept.

(** * Sealing is exact *)

(** The facts of a cycle that kept [accepted] of [proposed] candidates and committed [final] after them. *)
Definition cycle_result (kind proposed accepted final : Z) (policy acceptance : string) : acceptance_result :=
  AcceptanceResult YVEX_SPECULATION_SCHEMA_V1 kind proposed accepted (proposed - accepted) (accepted + 1) accepted
    (Z.b2z (accepted =? proposed)) (Z.b2z (accepted <? proposed)) (Z.b2z (accepted =? proposed)) final policy acceptance.

(** The identities of a cycle. *)
Definition cycle_identities (vocabulary_size : Z) (committed : list Z) (result : acceptance_result) : Prop :=
  acceptance_policy_identity (as_kind result) (as_proposed_count result) vocabulary_size = Some (as_policy_identity result) ∧
  sha256_identity ([FText "yvex.speculation.acceptance.v1"; FText (as_policy_identity result);
    FU64 (as_accepted_draft_count result); FU64 (as_rejected_draft_count result); FU64 (as_committed_count result);
    FU64 (as_rejection_index result); FU64 (as_correction_present result); FU64 (as_bonus_present result)]
    ++ (FU64 <$> take (Z.to_nat (as_committed_count result)) committed)) = Some (as_acceptance_identity result).

#[local] Opaque sha256_identity.

Lemma tokens_size tokens : fields_size (FU64 <$> tokens) = 8 * Z.of_nat (length tokens).
Proof. induction tokens as [|t tokens IH]; [done|]. cbn [fmap list_fmap fields_size foldr field_size]. fold (fields_size (FU64 <$> tokens)). cbn [length]. lia. Qed.

Section seal.
Context (vocabulary_size : Z) (committed : list Z) (capacity : Z) (result : acceptance_result).
Context (Hv : is_u64 vocabulary_size) (Hcap : capacity ≤ Z.of_nat (length committed)).
Context (Hp : is_u64 (as_proposed_count result)) (Ha : is_u64 (as_accepted_draft_count result)).
Context (Hk : 0 ≤ as_kind result) (Hr : is_u64 (as_rejected_draft_count result)) (Hc : is_u64 (as_committed_count result)).

Local Abbreviation accepted := (as_accepted_draft_count result).
Local Abbreviation proposed := (as_proposed_count result).

(** The conditions on the facts, without the committed tokens. *)
Definition seal_guard : bool :=
  negb (as_schema_version result =? YVEX_SPECULATION_SCHEMA_V1) || (as_kind result <? YVEX_SPECULATION_ACCEPT_GREEDY)
     || (YVEX_SPECULATION_ACCEPT_STOCHASTIC <? as_kind result) || (proposed =? 0) || (YVEX_SPECULATION_MAX_BLOCK <? proposed)
     || (vocabulary_size =? 0) || (UINT32_MAX <? vocabulary_size) || (as_committed_count result =? 0)
     || (capacity <? as_committed_count result) || (proposed <? accepted)
     || negb (as_rejected_draft_count result =? u64 (proposed - accepted))
     || negb (as_committed_count result =? u64 (accepted + 1)) || negb (flag (as_all_candidates_accepted result))
     || negb (flag (as_correction_present result)) || negb (flag (as_bonus_present result))
     || negb (as_correction_present result + as_bonus_present result =? 1)
     || negb (as_all_candidates_accepted result =? as_bonus_present result)
     || (negb (as_correction_present result =? 0) &&
         ((proposed <=? accepted) || negb (as_rejection_index result =? accepted)))
     || (negb (as_bonus_present result =? 0) &&
         (negb (accepted =? proposed) || negb (as_rejection_index result =? proposed))).

(** Facts that a cycle can have. *)
Record seal_ok : Prop := SealOk {
  sl_kind : as_kind result = YVEX_SPECULATION_ACCEPT_GREEDY ∨ as_kind result = YVEX_SPECULATION_ACCEPT_STOCHASTIC;
  sl_vocabulary : 1 ≤ vocabulary_size ≤ UINT32_MAX;
  sl_proposed : 1 ≤ proposed ≤ YVEX_SPECULATION_MAX_BLOCK;
  sl_accepted : 0 ≤ accepted ≤ proposed;
  sl_capacity : accepted + 1 ≤ capacity;
  sl_form : result = cycle_result (as_kind result) proposed accepted (as_correction_or_bonus_token_id result)
    (as_policy_identity result) (as_acceptance_identity result);
}.

Lemma seal_guard_exact : seal_guard = false ↔ seal_ok.
Proof.
  unfold seal_guard, flag. split.
  - rewrite !orb_false_iff, !andb_false_iff, !negb_false_iff, !orb_true_iff, !orb_false_iff, !negb_false_iff, !Z.ltb_ge, !Z.leb_gt, !Z.eqb_eq, !Z.eqb_neq.
    unfold YVEX_SPECULATION_SCHEMA_V1, YVEX_SPECULATION_ACCEPT_GREEDY, YVEX_SPECULATION_ACCEPT_STOCHASTIC, YVEX_SPECULATION_MAX_BLOCK.
    intros ((((((((((((((((((E1 & E2) & E3) & E4) & E5) & E6) & E7) & E8) & E9) & E10) & E11) & E12) & E13) & E14) & E15) & E16) & E17) & E18) & E19).
    rewrite u64_id in E11, E12 by ulia. split; unfold YVEX_SPECULATION_ACCEPT_GREEDY, YVEX_SPECULATION_ACCEPT_STOCHASTIC, YVEX_SPECULATION_MAX_BLOCK;
      try (unfold is_u64 in *; lia).
    unfold cycle_result. destruct (Z.eqb_spec accepted proposed), (Z.ltb_spec accepted proposed); cbn [Z.b2z]; try lia;
      destruct result; cbn in *; unfold YVEX_SPECULATION_SCHEMA_V1; f_equal; lia.
  - intros [H1 H2 H3 H4 H5 H6]. rewrite H6. unfold cycle_result. cbn.
    unfold YVEX_SPECULATION_SCHEMA_V1, YVEX_SPECULATION_ACCEPT_GREEDY, YVEX_SPECULATION_ACCEPT_STOCHASTIC, YVEX_SPECULATION_MAX_BLOCK in *.
    rewrite !orb_false_iff, !andb_false_iff, !negb_false_iff, !orb_true_iff, !orb_false_iff, !negb_false_iff, !Z.ltb_ge, !Z.leb_gt, !Z.eqb_eq, !Z.eqb_neq.
    rewrite !u64_id by ulia.
    destruct (Z.eqb_spec accepted proposed), (Z.ltb_spec accepted proposed); cbn [Z.b2z]; unfold is_u64 in *; lia.
Qed.
(** The facts and the committed tokens fit. *)
Record cycle_facts : Prop := CycleFacts {
  cf_facts : seal_ok;
  cf_final : array_get committed accepted = Some (as_correction_or_bonus_token_id result);
  cf_tokens : tokens_inside (Some committed) (accepted + 1) vocabulary_size;
}.

Lemma seal_exact_refused :
  ¬ cycle_facts → ∃ st why, yvex_speculation_acceptance_seal vocabulary_size committed capacity result = Some (Refused st why).
Proof.
  intros Hno. unfold yvex_speculation_acceptance_seal. cbn zeta. fold seal_guard. destruct seal_guard eqn:Eg; [by eexists _, _|].
  apply seal_guard_exact in Eg. assert (as_committed_count result = accepted + 1) as Ecc by (by rewrite (sl_form Eg)).
  pose proof (sl_accepted Eg). pose proof (sl_capacity Eg). rewrite Ecc, Z.add_simpl_r.
  destruct (array_get_is_Some committed accepted) as [last El]; [lia|]. rewrite El. cbn [run_access run_bind].
  destruct (Z.eqb_spec (as_correction_or_bonus_token_id result) last) as [<-|]; cbn [negb]; [|by eexists _, _].
  destruct (tokens_within_exact (Some committed) (accepted + 1) vocabulary_size
    "bounded speculative acceptance token is outside the vocabulary") as [[-> Ht]|(st & why & -> & Ht)];
    [exists committed; split; [done|lia]|by destruct Hno|by exists st, why].
Qed.

Lemma seal_exact_done :
  cycle_facts → ∃ result', yvex_speculation_acceptance_seal vocabulary_size committed capacity result = Some (Done result') ∧
    (∃ policy acceptance, result' = cycle_result (as_kind result) proposed accepted (as_correction_or_bonus_token_id result) policy acceptance) ∧
    cycle_identities vocabulary_size committed result'.
Proof.
  intros [Hok Hf Ht]. unfold yvex_speculation_acceptance_seal. cbn zeta. fold seal_guard.
  rewrite (proj2 seal_guard_exact Hok). assert (as_committed_count result = accepted + 1) as Ecc by (by rewrite (sl_form Hok)).
  pose proof (sl_accepted Hok). pose proof (sl_capacity Hok). pose proof (sl_proposed Hok) as Hmax. unfold YVEX_SPECULATION_MAX_BLOCK in Hmax.
  rewrite Ecc, Z.add_simpl_r, Hf. cbn [run_access run_bind]. rewrite Z.eqb_refl. cbn [negb].
  destruct (tokens_within_exact (Some committed) (accepted + 1) vocabulary_size
    "bounded speculative acceptance token is outside the vocabulary") as [[-> _]|(st & why & -> & Hno)];
    [exists committed; split; [done|lia]| |done]. cbn [run_bind].
  destruct (sha256_identity_total [FText "yvex.speculation.policy.fixed.v1"; FU64 YVEX_SPECULATION_SCHEMA_V1;
    FU64 (as_kind result); FU64 proposed; FU64 vocabulary_size]) as (policy & Ep & Hlen); [by vm_compute|].
  unfold acceptance_policy_identity at 1. rewrite Ep. unfold acceptance_identity.
  change (as_committed_count (result <| as_policy_identity := policy |>)) with (as_committed_count result). rewrite Ecc, array_prefix by lia.
  cbn [mbind option_bind run_access run_bind]. set (result1 := result <| as_policy_identity := policy |>).
  match goal with |- context [sha256_identity ?fs] => destruct (sha256_identity_total fs) as (acceptance & Ea & _) end.
  { rewrite fields_size_app, tokens_size, length_take. cbn [fields_size foldr field_size].
    change (as_policy_identity result1) with policy. strlen_literals. rewrite Hlen. change (ULLONG_MAX / 8) with 2305843009213693951. lia. }
  rewrite Ea. eexists. split; [reflexivity|]. split.
  - exists policy, acceptance. unfold result1. pose proof (sl_form Hok) as E. clear -E. destruct result. cbn in *.
    unfold cycle_result in *. injection E as -> -> -> -> -> -> ->. done.
  - unfold cycle_identities. change (as_committed_count (result1 <| as_acceptance_identity := acceptance |>)) with (as_committed_count result).
    rewrite Ecc. split; [exact Ep|exact Ea].
Qed.
End seal.

(** * Acceptance is exact *)

Lemma array_write_snoc {A} (l : list A) i xs v :
  (i + length xs < length l)%nat → array_write (array_write l i xs) (i + length xs) [v] = array_write l i (xs ++ [v]).
Proof.
  intros Hi. assert (length (take i l ++ xs) = (i + length xs)%nat) as Hl by (rewrite length_app, length_take; lia).
  unfold array_write. rewrite !(assoc_L (++)). rewrite (take_app_length' (take i l ++ xs)) by done.
  rewrite drop_app_ge by lia. rewrite Hl, drop_drop, length_app. cbn [length]. do 2 f_equal. lia.
Qed.

Lemma array_write_start {A} (l xs : list A) : array_write l 0 xs = xs ++ drop (length xs) l.
Proof. done. Qed.

Lemma kept_keeps n request index i : (i < kept_from n request index)%nat → keeps request (index + Z.of_nat i) = true.
Proof.
  revert index i. induction n as [|n IH]; intros index i; cbn [kept_from]; [lia|].
  destruct (keeps request index) eqn:E; [|lia]. destruct i as [|i]; [by rewrite Z.add_0_r|]. intros Hi.
  replace (index + Z.of_nat (S i)) with (index + 1 + Z.of_nat i) by lia. apply IH. lia.
Qed.

(** What an answered request commits. *)
Record committed_cycle (request : acceptance_request) (committed committed' : list Z) (result : acceptance_result) : Prop :=
  CommittedCycle {
  cc_result : ∃ final policy acceptance, final_token request = Some final ∧ 0 ≤ final < aq_vocabulary_size request ∧
    result = cycle_result (aq_kind request) (aq_candidate_count request) (Z.of_nat (kept request)) final policy acceptance ∧
    committed' = take (kept request) (default [] (aq_candidate_token_ids request)) ++ final :: drop (S (kept request)) committed;
  cc_identities : cycle_identities (aq_vocabulary_size request) committed' result;
}.

Section accept_exact.
Context (request : acceptance_request) (committed : list Z) (capacity : Z).
Context (Hsized : request_sized request committed capacity) (Hok : request_admissible request capacity).

Local Abbreviation count := (aq_candidate_count request).
Local Abbreviation vocabulary := (aq_vocabulary_size request).
Local Abbreviation tokens := (default [] (aq_candidate_token_ids request)).

Lemma tokens_some : aq_candidate_token_ids request = Some tokens ∧ (Z.to_nat count ≤ length tokens)%nat.
Proof.
  destruct (rz_candidates _ _ _ Hsized (go_candidates _ _ (ra_geometry _ _ Hok))) as (xs & -> & Hl). cbn. split; [done|lia].
Qed.

(** The facts of the cycle are those the seal admits. *)
Lemma cycle_sealed final :
  0 ≤ final < vocabulary →
  let committed' := array_write committed 0 (take (kept request) tokens ++ [final]) in
  ∃ result, yvex_speculation_acceptance_seal vocabulary committed' capacity
      (cycle_result (aq_kind request) count (Z.of_nat (kept request)) final "" "") = Some (Done result) ∧
    (∃ policy acceptance, result = cycle_result (aq_kind request) count (Z.of_nat (kept request)) final policy acceptance) ∧
    cycle_identities vocabulary committed' result.
Proof.
  intros Hf committed'. destruct tokens_some as [Et Hl]. destruct Hsized as [(? & ? & ? & ? & ?) Hcom _ _ _ _ _ Htok].
  pose proof (ra_geometry _ _ Hok) as [_ Hkind Hcount Hvoc _ _ _ Hcap].
  pose proof (kept_from_le (Z.to_nat count) request 0) as Hk. fold (kept request) in Hk.
  assert (length (take (kept request) tokens) = kept request) as Hlt by (rewrite length_take; lia).
  assert (length committed' = length committed) as Hlen.
  { apply length_array_write. rewrite length_app, Hlt. cbn. lia. }
  apply seal_exact_done; cbn; try done; try lia; try (unfold YVEX_SPECULATION_MAX_BLOCK in *; ulia).
  split; cbn.
  - split; cbn; (done || lia).
  - rewrite array_get_nat. unfold committed'. rewrite array_write_start, <- (assoc_L (++)).
    rewrite lookup_app_r by lia. by rewrite Hlt, Nat.sub_diag.
  - intros i Hi t Ei. unfold pointer_get in Ei. cbn in Ei. apply array_get_Some in Ei as [_ Ei].
    unfold committed' in Ei. rewrite array_write_start, <- (assoc_L (++)) in Ei.
    apply lookup_app_Some in Ei as [Ei|[Hge Ei]].
    + apply lookup_take_Some in Ei as [Ei Hlt']. apply (ra_candidates _ _ Hok i); [lia|]. unfold pointer_get. rewrite Et. cbn.
      unfold array_get. rewrite (proj2 (Z.ltb_ge i 0)) by lia. done.
    + rewrite Hlt in Hge, Ei. replace (Z.to_nat i - kept request)%nat with 0%nat in Ei by lia. injection Ei as <-. lia.
Qed.
End accept_exact.

(** The result before the loop. *)
Definition fresh_result (request : acceptance_request) : acceptance_result :=
  AcceptanceResult YVEX_SPECULATION_SCHEMA_V1 (aq_kind request) (aq_candidate_count request) 0 0 0 (aq_candidate_count request)
    0 0 0 0 "" "".

Lemma rejected_result request k n t :
  aq_candidate_count request = Z.of_nat n → (k < n)%nat →
  loop_result request (fresh_result request) 0 k n t =
  cycle_result (aq_kind request) (aq_candidate_count request) (Z.of_nat k) t "" "".
Proof.
  intros Hn Hk. unfold loop_result, cycle_result. rewrite (proj2 (Nat.ltb_lt k n) Hk), Hn.
  rewrite (proj2 (Z.eqb_neq (Z.of_nat k) (Z.of_nat n))), (proj2 (Z.ltb_lt (Z.of_nat k) (Z.of_nat n))) by lia.
  rewrite !Nat.add_0_l, Nat2Z.inj_add. unfold fresh_result. cbn. by rewrite Hn.
Qed.

Lemma accepted_result request n t bonus :
  aq_candidate_count request = Z.of_nat n →
  let result := loop_result request (fresh_result request) 0 n n t in
  as_accepted_draft_count result = Z.of_nat n ∧ as_committed_count result = Z.of_nat n ∧
  result <| as_committed_count := Z.of_nat n + 1 |> <| as_all_candidates_accepted := 1 |> <| as_bonus_present := 1 |>
    <| as_correction_or_bonus_token_id := bonus |> =
  cycle_result (aq_kind request) (aq_candidate_count request) (Z.of_nat n) bonus "" "".
Proof.
  intros Hn. unfold loop_result, cycle_result. rewrite Nat.ltb_irrefl, Hn, Z.eqb_refl, Z.ltb_irrefl, Nat.add_0_l, Z.sub_diag.
  split; [done|]. split; [done|]. unfold fresh_result. cbn. by rewrite Hn.
Qed.

Lemma accept_done request committed capacity :
  request_sized request committed capacity → request_admissible request capacity →
  ∃ committed' result, yvex_speculation_accept request committed capacity = Some (Done (committed', result)) ∧
    committed_cycle request committed committed' result.
Proof.
  intros Hsized Hok. pose proof (ra_geometry _ _ Hok) as Hg. unfold yvex_speculation_accept.
  destruct (validate_exact request committed capacity Hsized) as [[-> _]|(st & why & _ & Hno)]; [|done]. cbn [run_bind]. cbn zeta.
  destruct (tokens_some request committed capacity Hsized Hok) as [Et Hlt].
  pose proof (go_count _ _ Hg) as Hc. pose proof (go_capacity _ _ Hg) as Hcap. pose proof (rz_committed _ _ _ Hsized) as Hcom.
  match goal with |- context [acceptance_loop _ _ _ _ ?r] => change r with (fresh_result request) end.
  set (n := Z.to_nat (aq_candidate_count request)) in *. assert (aq_candidate_count request = Z.of_nat n) as Hn by lia.
  set (tokens := default [] (aq_candidate_token_ids request)) in *.
  destruct (loop_exact request committed capacity Hsized Hok tokens n Et 0%nat committed (fresh_result request)) as (t & E & Ht);
    [lia|lia|done|done|].
  cbn zeta in E, Ht. change (Z.of_nat 0) with 0 in E, Ht. change (kept_from n request 0) with (kept request) in *.
  pose proof (kept_from_le n request 0) as Hk. change (kept_from n request 0) with (kept request) in Hk.
  rewrite E. cbn [run_bind]. rewrite drop_0. clear E. unfold YVEX_SPECULATION_MAX_BLOCK in Hc.
  assert (length (take (kept request) tokens) = kept request) as Hlk by (rewrite length_take; lia).
  cut (∃ final, final_token request = Some final ∧ 0 ≤ final < aq_vocabulary_size request ∧
    (if as_accepted_draft_count (loop_result request (fresh_result request) 0 (kept request) n t) =? aq_candidate_count request then
       let! bonus := run_access (bonus_token request) in
       refuse_when (bonus =? UINT32_MAX) with YVEX_ERR_FORMAT "target bonus distribution is empty"%string;
       let! committed := run_access (array_set (array_write committed 0 (take (kept request) tokens ++
         (if (kept request <? n)%nat then [t] else [])))
           (as_committed_count (loop_result request (fresh_result request) 0 (kept request) n t)) bonus) in
       run_ret (committed, loop_result request (fresh_result request) 0 (kept request) n t
         <| as_committed_count := u64 (as_committed_count (loop_result request (fresh_result request) 0 (kept request) n t) + 1) |>
         <| as_all_candidates_accepted := 1 |> <| as_bonus_present := 1 |> <| as_correction_or_bonus_token_id := bonus |>)
     else run_ret (array_write committed 0 (take (kept request) tokens ++ (if (kept request <? n)%nat then [t] else [])),
       loop_result request (fresh_result request) 0 (kept request) n t)) =
    Some (Done (array_write committed 0 (take (kept request) tokens ++ [final]),
      cycle_result (aq_kind request) (aq_candidate_count request) (Z.of_nat (kept request)) final "" ""))).
  { intros (final & Ef & Hf & ->). cbn [run_bind].
    pose proof (cycle_sealed request committed capacity Hsized Hok final Hf) as Hseal. cbn zeta in Hseal. fold tokens in Hseal.
    destruct Hseal as (result & -> & Hres & Hid). cbn [run_bind]. eexists _, _. split; [done|]. destruct Hres as (policy & acceptance & ->).
    split; [|done]. exists final, policy, acceptance. split; [done|]. split; [done|]. split; [done|].
    rewrite array_write_start, <- (assoc_L (++)), length_app, Hlk, Nat.add_1_r. done. }
  unfold final_token. rewrite Hn. destruct (Nat.ltb_spec (kept request) n) as [Hlt'|Hge].
  - destruct (Ht Hlt') as [Ef Hfin]. exists t. rewrite (proj2 (Z.ltb_lt _ _)) by lia. split; [done|]. split; [done|].
    rewrite rejected_result by done. unfold cycle_result at 1. cbn [as_accepted_draft_count].
    rewrite (proj2 (Z.eqb_neq _ _)) by lia. by rewrite Hn.
  - assert (kept request = n) as Ek by lia. rewrite Ek. destruct (bonus_total request committed capacity Hsized Hok) as (b & Eb & Hb).
    exists b. rewrite Z.ltb_irrefl. split; [done|]. split; [done|].
    destruct (accepted_result request n t b Hn) as (-> & -> & Er). rewrite Z.eqb_refl, Eb. cbn [run_access run_bind].
    pose proof (go_vocabulary _ _ Hg). rewrite (proj2 (Z.eqb_neq b UINT32_MAX)) by lia. rewrite app_nil_r.
    rewrite u64_id by ulia. rewrite Er, Hn. rewrite Ek in Hlk.
    rewrite array_write_one by (rewrite length_array_write; lia). cbn [run_access run_bind].
    pose proof (array_write_snoc committed 0 (take n tokens) b) as Hw. rewrite Hlk in Hw. cbn [Nat.add] in Hw. by rewrite Hw by lia.
Qed.

(** The tokens the target itself would choose, where the choice is the greedy one. *)
Lemma greedy_tokens request committed capacity final :
  request_sized request committed capacity → request_admissible request capacity →
  aq_kind request = YVEX_SPECULATION_ACCEPT_GREEDY → final_token request = Some final →
  take (kept request) (default [] (aq_candidate_token_ids request)) ++ [final] =
  take (S (kept request)) (default [] (aq_target_token_ids request)).
Proof.
  intros Hsized Hok Hkind Hfinal. pose proof (ra_geometry _ _ Hok) as Hg.
  destruct (rz_candidates _ _ _ Hsized (go_candidates _ _ Hg)) as (tokens & Et & Hlt). rewrite Et. change (default [] (Some tokens)) with tokens.
  destruct (rz_targets _ _ _ Hsized (gr_targets _ (ra_greedy _ _ Hok Hkind))) as (targets & Ett & Hlen).
  pose proof (go_count _ _ Hg) as Hc. rewrite Ett. change (default [] (Some targets)) with targets.
  pose proof (kept_from_le (Z.to_nat (aq_candidate_count request)) request 0) as Hk.
  change (kept_from _ request 0) with (kept request) in Hk.
  assert (targets !! kept request = Some final) as Ef.
  { unfold final_token, correction_token, bonus_token in Hfinal. rewrite Hkind in Hfinal.
    change (YVEX_SPECULATION_ACCEPT_GREEDY =? YVEX_SPECULATION_ACCEPT_GREEDY) with true in Hfinal. cbn match in Hfinal. rewrite Ett in Hfinal.
    unfold pointer_get in Hfinal. cbn [mbind option_bind] in Hfinal. destruct (Z.ltb_spec (Z.of_nat (kept request)) (aq_candidate_count request)).
    - by rewrite array_get_nat in Hfinal.
    - apply array_get_Some in Hfinal as [_ Hfinal]. by replace (Z.to_nat (aq_candidate_count request)) with (kept request) in Hfinal by lia. }
  rewrite (take_S_r _ _ _ Ef). f_equal. apply list_eq_same_length with (kept request); rewrite ?length_take; [lia|lia|].
  intros i x y Hi Ex Ey. apply lookup_take_Some in Ex as [Ex _], Ey as [Ey _].
  pose proof (kept_keeps _ request 0 i Hi) as Hkeep. rewrite Z.add_0_l in Hkeep. unfold keeps in Hkeep. apply bool_decide_eq_true in Hkeep.
  unfold candidate_accepted in Hkeep. rewrite Hkind in Hkeep.
  change (YVEX_SPECULATION_ACCEPT_GREEDY =? YVEX_SPECULATION_ACCEPT_GREEDY) with true in Hkeep. cbn match in Hkeep.
  unfold pointer_get in Hkeep. rewrite Ett, Et in Hkeep. cbn [mbind option_bind] in Hkeep. rewrite (array_get_nat tokens), Ex in Hkeep.
  cbn [mbind option_bind] in Hkeep. rewrite (array_get_nat targets), Ey in Hkeep. cbn [mbind option_bind] in Hkeep. injection Hkeep as E%Z.eqb_eq. done.
Qed.

(** C6: speculative acceptance is exact. Over arrays as long as their counts say, no access leaves an array, and a request is
    answered exactly when it is admissible: in particular a draw from valid distributions never comes out empty. The
    committed tokens are the candidates before the first that is not kept, and one more: its correction, or the bonus when all
    are kept, which is in the vocabulary; the result says so, and the seal accepts it and gives it its identities. With greedy
    acceptance the committed tokens are the target's own choices: speculation loses nothing. *)
Theorem speculation_accept_exact request committed capacity :
  request_sized request committed capacity →
  ∃ r, yvex_speculation_accept request committed capacity = Some r ∧
    match r with
    | Refused _ _ => ¬ request_admissible request capacity
    | Done (committed', result) => request_admissible request capacity ∧ committed_cycle request committed committed' result ∧
        (aq_kind request = YVEX_SPECULATION_ACCEPT_GREEDY →
           take (S (kept request)) committed' = take (S (kept request)) (default [] (aq_target_token_ids request)))
    end.
Proof.
  intros Hsized. destruct (validate_exact request committed capacity Hsized) as [[_ Hok]|(st & why & E & Hno)].
  - destruct (accept_done request committed capacity Hsized Hok) as (committed' & result & E & Hcycle). eexists. split; [exact E|].
    split; [done|]. split; [done|]. intros Hkind. destruct Hcycle as [(final & policy & acceptance & Ef & _ & _ & ->) _].
    rewrite <- (greedy_tokens request committed capacity final) by done.
    destruct (tokens_some request committed capacity Hsized Hok) as [_ Hl].
    pose proof (kept_from_le (Z.to_nat (aq_candidate_count request)) request 0) as Hk.
    change (kept_from _ request 0) with (kept request) in Hk.
    rewrite take_app_ge by (rewrite length_take; lia). rewrite length_take, Nat.min_l by lia.
    by replace (S (kept request) - kept request)%nat with 1%nat by lia.
  - exists (Refused st why). split; [|done]. unfold yvex_speculation_accept. by rewrite E.
Qed.

(** Probabilities one half and one quarter. *)
Definition f32_half : spec_float := S754_finite false 8388608 (-24).
Definition f32_quarter : spec_float := S754_finite false 8388608 (-25).

Definition greedy_request : acceptance_request :=
  AcceptanceRequest 1 YVEX_SPECULATION_ACCEPT_GREEDY 3 10 10 (Some [5; 7; 9]) (Some [5; 7; 8; 3]) None None None S754_nan.

(** Two candidates of which the draft is surer than the target of the second. *)
Definition stochastic_request : acceptance_request :=
  AcceptanceRequest 1 YVEX_SPECULATION_ACCEPT_STOCHASTIC 2 2 2 (Some [0; 1]) None
    (Some [f32_half; f32_half; f32_quarter; binary_round 24 128 false 3 (-2)])
    (Some [f32_half; f32_half; f32_half; f32_half; f32_of_Z 0; f32_of_Z 1])
    (Some [f64_of_Z 0; binary_round 53 1024 false 3 (-2)]) (f64_of_Z 0).

Lemma greedy_sized : request_sized greedy_request [0; 0; 0; 0] 4.
Proof.
  split; cbn; try done; try (intros _; eexists; split; [done|cbn; lia]).
  intros i t [[_ E]%array_get_Some|[_ E]%array_get_Some]; apply list_elem_of_lookup_2 in E; cbn in E; set_unfold; lia.
Qed.

Lemma stochastic_sized : request_sized stochastic_request [0; 0; 0] 3.
Proof.
  split; cbn; try done; try (intros _; eexists; split; [done|cbn; lia]).
  intros i t [[_ E]%array_get_Some|E]; [|done]. apply list_elem_of_lookup_2 in E. cbn in E. set_unfold. lia.
Qed.

(** The greedy request commits its first two candidates and the target's third choice; the other one a candidate and the
    residual of the target, which is the first token. *)
Lemma speculation_accept_exact_witness :
  (∃ committed result, yvex_speculation_accept greedy_request [0; 0; 0; 0] 4 = Some (Done (committed, result)) ∧
     committed_cycle greedy_request [0; 0; 0; 0] committed result ∧ committed = [5; 7; 8; 0]) ∧
  (∃ committed result, yvex_speculation_accept stochastic_request [0; 0; 0] 3 = Some (Done (committed, result)) ∧
     committed_cycle stochastic_request [0; 0; 0] committed result ∧ committed = [0; 0; 0] ∧ as_correction_present result = 1).
Proof.
  split.
  - destruct (speculation_accept_exact greedy_request [0; 0; 0; 0] 4 greedy_sized) as (r & E & Hr).
    destruct r as [[committed result]|st why]; [|vm_compute in E; discriminate E].
    exists committed, result. split; [exact E|]. split; [exact (proj1 (proj2 Hr))|].
    clear Hr. vm_compute in E. injection E as <- _. reflexivity.
  - destruct (speculation_accept_exact stochastic_request [0; 0; 0] 3 stochastic_sized) as (r & E & Hr).
    destruct r as [[committed result]|st why]; [|vm_compute in E; discriminate E].
    exists committed, result. split; [exact E|]. split; [exact (proj1 (proj2 Hr))|].
    clear Hr. vm_compute in E. injection E as <- <-. split; reflexivity.
Defined.

(** * A cycle stays inside the turn *)

Lemma extent_exact block output context c :
  is_u64 block → is_u64 output → is_u64 context →
  yvex_speculation_candidate_extent block output context = Done c →
  c = Z.max 0 (Z.min block (Z.min (output - 2) (context - 2))) ∧ 1 ≤ block ≤ YVEX_SPECULATION_MAX_BLOCK.
Proof.
  intros Hb Ho Hc. unfold yvex_speculation_candidate_extent, YVEX_SPECULATION_MAX_BLOCK.
  match goal with |- (if ?b then _ else _) = _ → _ => destruct b eqn:E end; [done|].
  rewrite !orb_false_iff, !Z.eqb_neq, Z.ltb_ge in E. destruct E as (((E1 & E2) & E3) & E4).
  match goal with |- (if ?b then _ else _) = _ → _ => destruct b eqn:E end.
  - rewrite orb_true_iff, !Z.leb_le in E. intros [= <-]. unfold is_u64 in *. lia.
  - rewrite orb_false_iff, !Z.leb_gt in E. cbn zeta.
    destruct (Z.ltb_spec (output - 2) block); [destruct (Z.ltb_spec (context - 2) (output - 2))|destruct (Z.ltb_spec (context - 2) block)];
      intros [= <-]; unfold is_u64 in *; lia.
Qed.

(** A plan publishes the tokens up to the terminal one, or all of them. *)
Lemma plan_exact result kind proposed accepted final policy acceptance terminal_index :
  result = cycle_result kind proposed accepted final policy acceptance → 0 ≤ accepted ≤ YVEX_SPECULATION_MAX_BLOCK → 0 ≤ terminal_index →
  match yvex_speculation_commit_plan_build result terminal_index with
  | Refused _ _ => ¬ 1 ≤ terminal_index ≤ accepted + 2
  | Done plan => 1 ≤ terminal_index ≤ accepted + 2 ∧ cp_state_prefix_count plan = terminal_index ∧
      cp_terminal plan = (terminal_index <? accepted + 2) ∧
      cp_publication_token_count plan = terminal_index + Z.b2z (cp_terminal plan)
  end.
Proof.
  intros -> Ha Ht. unfold YVEX_SPECULATION_MAX_BLOCK in Ha. unfold yvex_speculation_commit_plan_build, cycle_result.
  cbn [as_schema_version as_committed_count as_accepted_draft_count]. rewrite !u64_id by ulia. rewrite !Z.eqb_refl.
  rewrite (proj2 (Z.eqb_neq (accepted + 1) 0)) by lia. cbn [negb orb].
  rewrite (proj2 (u64_add_Some (accepted + 1) 1 (accepted + 2) ltac:(ulia) ltac:(ulia))) by (split; [lia|ulia]).
  destruct (Z.ltb_spec (accepted + 2) terminal_index); [lia|].
  destruct (Z.ltb_spec terminal_index (accepted + 2)) as [Hlt|Hge].
  - destruct (Z.eqb_spec terminal_index 0); [lia|]. cbn [cp_state_prefix_count cp_terminal cp_publication_token_count Z.b2z].
    rewrite u64_id by ulia. split; [lia|]. split; [done|]. split; done.
  - cbn [cp_state_prefix_count cp_terminal cp_publication_token_count Z.b2z]. split; [lia|]. split; [lia|]. split; [done|lia].
Qed.

(** C7: a speculative cycle never publishes more than is left of the turn. The extent is the largest number of candidates that
    leaves room for the anchor and the token after them. When a request of that extent is answered, a commit plan is built
    exactly for the positions of its tokens after the anchor and the position behind the last; it publishes the tokens up
    to the terminal one, or all of them, and these are within what remains of the output and of the context. *)
Theorem speculation_cycle_bounded block output context candidate_count request committed capacity committed' result terminal_index :
  is_u64 block → is_u64 output → is_u64 context → 0 ≤ terminal_index →
  yvex_speculation_candidate_extent block output context = Done candidate_count →
  aq_candidate_count request = candidate_count → request_sized request committed capacity →
  yvex_speculation_accept request committed capacity = Some (Done (committed', result)) →
  candidate_count = Z.max 0 (Z.min block (Z.min (output - 2) (context - 2))) ∧
  as_committed_count result + 1 ≤ Z.min output context ∧
  match yvex_speculation_commit_plan_build result terminal_index with
  | Refused _ _ => ¬ 1 ≤ terminal_index ≤ as_committed_count result + 1
  | Done plan => 1 ≤ terminal_index ≤ as_committed_count result + 1 ∧ cp_state_prefix_count plan = terminal_index ∧
      cp_terminal plan = (terminal_index <? as_committed_count result + 1) ∧
      cp_publication_token_count plan = cp_state_prefix_count plan + Z.b2z (cp_terminal plan) ∧
      cp_publication_token_count plan ≤ Z.min output context
  end.
Proof.
  intros Hb Ho Hc Ht Hext Hcount Hsized Eacc. destruct (extent_exact block output context candidate_count Hb Ho Hc Hext) as [Eext _].
  destruct (validate_exact request committed capacity Hsized) as [[_ Hok]|(st & why & E & Hno)].
  2: { unfold yvex_speculation_accept in Eacc. by rewrite E in Eacc. }
  destruct (accept_done request committed capacity Hsized Hok) as (c' & r' & E & [(final & policy & acceptance & _ & _ & Er & _) _]).
  rewrite Eacc in E. injection E as <- <-. pose proof (go_count _ _ (ra_geometry _ _ Hok)) as Hcc.
  pose proof (kept_from_le (Z.to_nat (aq_candidate_count request)) request 0) as Hk.
  change (kept_from _ request 0) with (kept request) in Hk.
  assert (as_committed_count result = Z.of_nat (kept request) + 1) as Ecc by by rewrite Er.
  pose proof (plan_exact result _ _ _ _ _ _ terminal_index Er ltac:(lia) Ht) as Hplan. rewrite Ecc.
  split; [done|]. split; [lia|]. replace (Z.of_nat (kept request) + 1 + 1) with (Z.of_nat (kept request) + 2) by lia.
  destruct (yvex_speculation_commit_plan_build result terminal_index) as [plan|]; [|done].
  destruct Hplan as (H1 & -> & H3 & H4). split; [done|]. split; [done|]. split; [done|]. split; [done|].
  rewrite H4, H3. destruct (Z.ltb_spec terminal_index (Z.of_nat (kept request) + 2)); cbn [Z.b2z]; lia.
Qed.

(** Three candidates with six tokens left: the greedy request publishes its four tokens, or stops at the second. *)
Lemma speculation_cycle_bounded_witness :
  yvex_speculation_candidate_extent 3 6 5 = Done 3 ∧
  ∃ committed result, yvex_speculation_accept greedy_request [0; 0; 0; 0] 4 = Some (Done (committed, result)) ∧
    as_committed_count result + 1 ≤ 5 ∧
    yvex_speculation_commit_plan_build result 4 = Done (CommitPlan 4 4 false) ∧
    yvex_speculation_commit_plan_build result 1 = Done (CommitPlan 1 2 true).
Proof.
  split; [reflexivity|]. destruct (yvex_speculation_accept greedy_request [0; 0; 0; 0] 4) as [[[committed result]|st why]|] eqn:E;
    [|vm_compute in E; discriminate E..].
  exists committed, result. split; [reflexivity|].
  destruct (speculation_cycle_bounded 3 6 5 3 greedy_request [0; 0; 0; 0] 4 committed result 4) as (_ & H & _);
    [ulia|ulia|ulia|lia|reflexivity|reflexivity|exact greedy_sized|exact E|].
  split; [exact H|]. clear H. vm_compute in E. injection E as _ <-. split; reflexivity.
Defined.
