(* ===== verification/QuantScalar.v ===== *)
(** Scalar codecs of quantisation, [src/gguf/quant_scalar.c]: binary16 and bfloat16 to and from binary32, the small
    formats of sources, and the scalars of a source.

    A [float] that the code builds from its bits, or takes apart into them, is its bit pattern; other floats are numbers
    of [Binary]. *)

From S2P Require Import Prelude Status Exec Binary NativeTable.
#[local] Open Scope Z_scope.

(** * Binary16 *)

(** The shift that normalises a subnormal mantissa.
    src/src/gguf/quant_scalar.c:56-59, [yvex_quant_f16_decode] *)
Fixpoint f16_normalize (fuel : nat) (mantissa shift : Z) : option (Z * Z) :=
  if Z.land mantissa 1024 =? 0 then
    match fuel with
    | O => None
    | S fuel => f16_normalize fuel (u32 (Z.shiftl mantissa 1)) (shift + 1)
    end
  else Some (mantissa, shift).

(** src/src/gguf/quant_scalar.c, [yvex_quant_f16_decode] *)
Definition yvex_quant_f16_decode (bits : Z) : option Z :=
  let sign := Z.shiftl (Z.land bits 32768) 16 in
  let exponent := Z.land (Z.shiftr bits 10) 31 in
  let mantissa := Z.land bits 1023 in
  if exponent =? 0 then
    if mantissa =? 0 then Some sign
    else
      '(mantissa, shift) ← f16_normalize 32 mantissa 0;
      let mantissa := Z.land mantissa 1023 in
      Some (Z.lor (Z.lor sign (u32 (Z.shiftl (u32 (113 - shift)) 23))) (u32 (Z.shiftl mantissa 13)))
  else if exponent =? 31 then
    let out := Z.lor (Z.lor sign 2139095040) (Z.shiftl mantissa 13) in
    Some (if negb (mantissa =? 0) then Z.lor out 4194304 else out)
  else Some (Z.lor (Z.lor sign (Z.shiftl (exponent + 112) 23)) (Z.shiftl mantissa 13)).

(** Conversion to [unsigned short]. *)
Definition u16 (x : Z) : Z := x mod 65536.

(** src/src/gguf/quant_scalar.c, [yvex_quant_f16_encode] *)
Definition yvex_quant_f16_encode (bits : Z) : Z :=
  u16 (
  let sign := Z.land (Z.shiftr bits 16) 32768 in
  let exponent := Z.land (Z.shiftr bits 23) 255 in
  let mantissa := Z.land bits 8388607 in
  if exponent =? 255 then
    if mantissa =? 0 then Z.lor sign 31744
    else Z.lor (Z.lor sign 32256) (Z.land (Z.shiftr mantissa 13) 511)
  else if 142 <? exponent then Z.lor sign 31744
  else if exponent <? 113 then
    if exponent <? 102 then sign
    else
      let significand := Z.lor mantissa 8388608 in
      let shift := 126 - exponent in
      let quotient := Z.shiftr significand shift in
      let remainder := Z.land significand (Z.shiftl 1 shift - 1) in
      let halfway := Z.shiftl 1 (shift - 1) in
      let quotient :=
        if (halfway <? remainder) || ((remainder =? halfway) && negb (Z.land quotient 1 =? 0)) then quotient + 1
        else quotient in
      Z.lor sign quotient
  else
    let result := Z.lor (Z.shiftl (exponent - 112) 10) (Z.shiftr mantissa 13) in
    let remainder := Z.land mantissa 8191 in
    let result :=
      if (4096 <? remainder) || ((remainder =? 4096) && negb (Z.land result 1 =? 0)) then result + 1 else result in
    let result := if Z.land result 31744 =? 31744 then Z.land result 31744 else result in
    Z.lor sign result).

(** * Bfloat16 *)

(** src/src/gguf/quant_scalar.c, [yvex_quant_bf16_decode] *)
Definition yvex_quant_bf16_decode (bits : Z) : Z := Z.shiftl bits 16.

(** src/src/gguf/quant_scalar.c, [yvex_quant_bf16_encode] *)
Definition yvex_quant_bf16_encode (bits : Z) : Z :=
  let upper := Z.shiftr bits 16 in
  let lower := Z.land bits 65535 in
  u16 (
  if (Z.land bits 2139095040 =? 2139095040) && negb (Z.land bits 8388607 =? 0) then Z.lor upper 64
  else if (32768 <? lower) || ((lower =? 32768) && negb (Z.land upper 1 =? 0)) then upper + 1
  else upper).

(** * The formats of sources *)

(** src/src/gguf/quant_scalar.c, [yvex_quant_fp8_e4m3fn_decode] *)
Definition yvex_quant_fp8_e4m3fn_decode (bits : Z) : spec_float :=
  let magnitude := Z.land bits 127 in
  let sign := negb (Z.land bits 128 =? 0) in
  if magnitude =? 0 then S754_zero sign
  else if magnitude =? 127 then S754_nan
  else
    let exponent := Z.land (Z.shiftr bits 3) 15 in
    let mantissa := Z.land bits 7 in
    let value :=
      if exponent =? 0 then SFldexp 24 128 (f32_of_Z mantissa) (-9)
      else SFldexp 24 128 (SFadd 24 128 (f32_of_Z 1) (SFdiv 24 128 (f32_of_Z mantissa) (f32_of_Z 8))) (exponent - 7) in
    if sign then SFopp value else value.

(** src/src/gguf/quant_scalar.c, [yvex_quant_e8m0_decode] *)
Definition yvex_quant_e8m0_decode (bits : Z) : spec_float :=
  if bits =? 255 then S754_nan
  else f32_of_bits (if bits =? 0 then 4194304 else Z.shiftl bits 23).

(** src/include/yvex/internal/gguf.h, [gguf_u16le_load] *)
Definition gguf_u16le_load (bytes : list Z) : option Z := load_le <$> mapM (array_get bytes) (seqZ 0 2).

(** src/include/yvex/internal/gguf.h, [gguf_u32le_load] *)
Definition gguf_u32le_load (bytes : list Z) : option Z := load_le <$> mapM (array_get bytes) (seqZ 0 4).

(** src/include/yvex/internal/gguf.h, [gguf_i32_from_u32] *)
Definition gguf_i32_from_u32 (value : Z) : Z :=
  if value <=? 2147483647 then value else -1 - (UINT32_MAX - value).

(** src/src/gguf/quant_scalar.c, [yvex_quant_source_scalar_decode] *)
Definition yvex_quant_source_scalar_decode (dtype : yvex_native_dtype) (source : option (list Z)) : run spec_float :=
  match source with
  | None => run_refuse YVEX_ERR_INVALID_ARG "source bytes and scalar output are required"
  | Some source =>
      match dtype with
      | YVEX_NATIVE_DTYPE_F32 => bits ← gguf_u32le_load source; Some (Done (f32_of_bits bits))
      | YVEX_NATIVE_DTYPE_F16 =>
          bits ← gguf_u16le_load source; bits ← yvex_quant_f16_decode bits; Some (Done (f32_of_bits bits))
      | YVEX_NATIVE_DTYPE_BF16 => bits ← gguf_u16le_load source; Some (Done (f32_of_bits (yvex_quant_bf16_decode bits)))
      | YVEX_NATIVE_DTYPE_I32 => bits ← gguf_u32le_load source; Some (Done (f32_of_Z (gguf_i32_from_u32 bits)))
      | YVEX_NATIVE_DTYPE_F8_E4M3 => bits ← array_get source 0; Some (Done (yvex_quant_fp8_e4m3fn_decode bits))
      | YVEX_NATIVE_DTYPE_F8_E8M0 => bits ← array_get source 0; Some (Done (yvex_quant_e8m0_decode bits))
      | _ => Some (Refused YVEX_ERR_UNSUPPORTED "source dtype requires a typed paired decoder")
      end
  end.

(** src/src/gguf/quant_scalar.c, [yvex_quant_source_i64_decode] *)
Definition yvex_quant_source_i64_decode (source : option (list Z)) : run Z :=
  match source with
  | None => run_refuse YVEX_ERR_INVALID_ARG "I64 source bytes and exact output are required"
  | Some source =>
      let! bytes := run_access (mapM (array_get source) (seqZ 0 8)) in
      let bits := load_le bytes in
      run_ret (if bits <=? 9223372036854775807 then bits else -1 - (ULLONG_MAX - bits))
  end.

(** src/src/gguf/quant_scalar.c, [source_mxfp4_values] *)
Definition source_mxfp4_values : list spec_float :=
  let magnitudes := (λ halves, SFdiv 24 128 (f32_of_Z halves) (f32_of_Z 2)) <$> [0; 1; 2; 3; 4; 6; 8; 12] in
  magnitudes ++ (SFopp <$> magnitudes).

(** src/src/gguf/quant_scalar.c, [yvex_quant_source_mxfp4_decode] *)
Definition yvex_quant_source_mxfp4_decode (packed : option (list Z)) (scale : Z) : run (list spec_float) :=
  match packed with
  | None => run_refuse YVEX_ERR_INVALID_ARG "packed source block and output are required"
  | Some packed =>
      let multiplier := yvex_quant_e8m0_decode scale in
      refuse_when negb (is_finite multiplier) with YVEX_ERR_FORMAT "MXFP4 source scale is non-finite"%string;
      let! pairs := run_access (mapM (λ index,
        byte ← array_get packed index;
        low ← array_get source_mxfp4_values (Z.land byte 15);
        high ← array_get source_mxfp4_values (Z.shiftr byte 4);
        Some [SFmul 24 128 low multiplier; SFmul 24 128 high multiplier]) (seqZ 0 16)) in
      run_ret (mjoin pairs)
  end.

(** * Bit fields *)

Lemma shift_field b n len : 0 ≤ n → 0 ≤ len → Z.land (Z.shiftr b n) (Z.ones len) = b / 2 ^ n mod 2 ^ len.
Proof. intros. by rewrite Z.land_ones, Z.shiftr_div_pow2. Qed.

(** A pattern by its sign, exponent and mantissa. *)
Definition f32_pattern (s e m : Z) : Z := (s * 256 + e) * 8388608 + m.

Definition f32_fields (s e m : Z) : Prop := 0 ≤ s < 2 ∧ 0 ≤ e < 256 ∧ 0 ≤ m < 8388608.

Lemma f32_pattern_split b : is_u32 b → ∃ s e m, f32_fields s e m ∧ b = f32_pattern s e m.
Proof.
  intros Hb. exists (b / 2147483648), (b / 8388608 mod 256), (b mod 8388608). unfold f32_fields, f32_pattern.
  pose proof (Z.mod_pos_bound b 8388608). pose proof (Z.mod_pos_bound (b / 8388608) 256).
  assert (b / 2147483648 = b / 8388608 / 256) as -> by (by rewrite Z.div_div).
  pose proof (Z.div_mod b 8388608). pose proof (Z.div_mod (b / 8388608) 256).
  assert (0 ≤ b / 8388608 / 256 < 2); [|lia].
  split; [apply Z.div_pos; [apply Z.div_pos; ulia|lia]|]. apply Z.div_lt_upper_bound; [lia|]. apply Z.div_lt_upper_bound; ulia.
Qed.

Lemma land_pow2 x k : 0 ≤ k → Z.land x (2 ^ k) = Z.b2z (Z.testbit x k) * 2 ^ k.
Proof.
  intros Hk. apply Z.bits_inj'. intros i Hi. rewrite Z.land_spec, Z.pow2_bits_eqb by done.
  destruct (Z.testbit x k) eqn:E; cbn [Z.b2z].
  - rewrite Z.mul_1_l, Z.pow2_bits_eqb by done. destruct (Z.eqb_spec k i) as [->|]; [by rewrite E|apply andb_false_r].
  - rewrite Z.mul_0_l, Z.bits_0. destruct (Z.eqb_spec k i) as [->|]; [by rewrite E|apply andb_false_r].
Qed.

Lemma lor_below a b n : 0 ≤ n → 0 ≤ a < 2 ^ n → 0 ≤ b < 2 ^ n → 0 ≤ Z.lor a b < 2 ^ n.
Proof.
  intros Hn Ha Hb. split; [apply Z.lor_nonneg; lia|]. destruct (Z.eq_dec (Z.lor a b) 0) as [->|H0]; [lia|].
  assert (0 ≤ Z.lor a b) by (apply Z.lor_nonneg; lia). apply Z.log2_lt_pow2; [lia|]. rewrite Z.log2_lor by lia.
  assert (∀ c, 0 ≤ c < 2 ^ n → Z.log2 c < n ∨ c = 0) as Hl.
  { intros c Hc. destruct (Z.eq_dec c 0); [by right|left]. apply Z.log2_lt_pow2; lia. }
  assert (0 < n) by (destruct (Z.eq_dec n 0) as [->|]; [|lia]; change (2 ^ 0) with 1 in *; assert (a = 0) as -> by lia; assert (b = 0) as -> by lia; done).
  destruct (Hl a Ha) as [?| ->], (Hl b Hb) as [?| ->]; change (Z.log2 0) with 0; lia.
Qed.

Lemma land_bit_zero x : Z.land x 1 = Z.b2z (Z.odd x).
Proof. change 1 with (2 ^ 0) at 1. rewrite land_pow2 by lia. by rewrite Z.bit0_odd, Z.mul_1_r. Qed.

(** A sign in front of a magnitude, and the two back. *)
Lemma of_bits_signed mbits ebits s x :
  0 ≤ mbits → 0 < ebits → 0 ≤ s < 2 → 0 ≤ x < 2 ^ (mbits + ebits) →
  of_bits mbits ebits (s * 2 ^ (mbits + ebits) + x) =
  let bias := 2 ^ (ebits - 1) - 1 in
  if x / 2 ^ mbits =? 0 then
    match x mod 2 ^ mbits with Z.pos m => S754_finite (s =? 1) m (1 - bias - mbits) | _ => S754_zero (s =? 1) end
  else if x / 2 ^ mbits =? 2 ^ ebits - 1 then if x mod 2 ^ mbits =? 0 then S754_infinity (s =? 1) else S754_nan
  else S754_finite (s =? 1) (Z.to_pos (2 ^ mbits + x mod 2 ^ mbits)) (x / 2 ^ mbits - bias - mbits).
Proof.
  intros Hm He Hs Hx. unfold of_bits. rewrite (Z.add_comm (s * _)). set (t := 2 ^ (mbits + ebits)) in *.
  assert (t = 2 ^ ebits * 2 ^ mbits) as Et by (unfold t; rewrite Z.pow_add_r by lia; lia).
  assert (0 < 2 ^ ebits) by lia. assert (0 < 2 ^ mbits) by lia.
  assert (Z.testbit (x + s * t) (mbits + ebits) = (s =? 1)) as ->.
  { rewrite Z.testbit_odd, Z.shiftr_div_pow2 by lia. fold t. rewrite Z.div_add, (Z.div_small x) by lia.
    assert (s = 0 ∨ s = 1) as [-> | ->] by lia; done. }
  assert ((x + s * t) mod 2 ^ mbits = x mod 2 ^ mbits) as ->.
  { rewrite Et, Z.mul_assoc. by rewrite Z.mod_add by lia. }
  assert ((x + s * t) / 2 ^ mbits mod 2 ^ ebits = x / 2 ^ mbits) as ->; [|done].
  rewrite Et, Z.mul_assoc, Z.div_add, Z.mod_add by lia. apply Z.mod_small. split; [apply Z.div_pos; lia|].
  apply Z.div_lt_upper_bound; [lia|]. rewrite Z.mul_comm, <- Et. lia.
Qed.

Section fields.
Context (s e m : Z) (Hf : f32_fields s e m).

Lemma pattern_exponent : Z.land (Z.shiftr (f32_pattern s e m) 23) 255 = e.
Proof.
  destruct Hf as (? & ? & ?). change 255 with (Z.ones 8). rewrite shift_field by lia. unfold f32_pattern.
  change (2 ^ 23) with 8388608. change (2 ^ 8) with 256.
  rewrite (Z.div_add_l (s * 256 + e)), (Z.div_small m), Z.add_0_r by lia. rewrite Z.add_comm, Z.mod_add by lia. by apply Z.mod_small.
Qed.

Lemma pattern_mantissa : Z.land (f32_pattern s e m) 8388607 = m.
Proof.
  destruct Hf as (? & ? & ?). change 8388607 with (Z.ones 23). rewrite Z.land_ones by lia. unfold f32_pattern. change (2 ^ 23) with 8388608.
  rewrite Z.add_comm, Z.mod_add by lia. by apply Z.mod_small.
Qed.

Lemma pattern_upper : Z.shiftr (f32_pattern s e m) 16 = (s * 256 + e) * 128 + m / 65536.
Proof.
  rewrite Z.shiftr_div_pow2 by lia. unfold f32_pattern. change (2 ^ 16) with 65536.
  replace ((s * 256 + e) * 8388608 + m) with ((s * 256 + e) * 128 * 65536 + m) by lia. by rewrite Z.div_add_l by lia.
Qed.

Lemma pattern_sign : Z.land (Z.shiftr (f32_pattern s e m) 16) 32768 = s * 32768.
Proof.
  destruct Hf as (? & ? & ?). change 32768 with (2 ^ 15) at 1. rewrite land_pow2 by lia. change (2 ^ 15) with 32768. f_equal.
  rewrite pattern_upper, Z.testbit_odd, Z.shiftr_div_pow2 by lia. change (2 ^ 15) with 32768.
  assert (((s * 256 + e) * 128 + m / 65536) / 32768 = s) as ->.
  { pose proof (Z.div_pos m 65536). assert (m / 65536 < 128) by (apply Z.div_lt_upper_bound; lia).
    symmetry. apply Z.div_unique with (e * 128 + m / 65536); lia. }
  assert (s = 0 ∨ s = 1) as [-> | ->] by lia; done.
Qed.

Lemma pattern_value :
  f32_of_bits (f32_pattern s e m) =
  if e =? 0 then match m with Z.pos m => S754_finite (s =? 1) m (-149) | _ => S754_zero (s =? 1) end
  else if e =? 255 then if m =? 0 then S754_infinity (s =? 1) else S754_nan
  else S754_finite (s =? 1) (Z.to_pos (8388608 + m)) (e - 150).
Proof.
  destruct Hf as (? & ? & ?). unfold f32_of_bits, f32_pattern.
  replace ((s * 256 + e) * 8388608 + m) with (s * 2 ^ (23 + 8) + (e * 8388608 + m)) by lia.
  rewrite of_bits_signed by lia. cbn zeta. change (2 ^ 23) with 8388608. change (2 ^ 8 - 1) with 255. change (2 ^ (8 - 1) - 1) with 127.
  rewrite Z.div_add_l, (Z.div_small m), Z.add_0_r by lia.
  replace ((e * 8388608 + m) mod 8388608) with m by (rewrite Z.add_comm, Z.mod_add by lia; symmetry; by apply Z.mod_small).
  change (1 - 127 - 23) with (-149). by replace (e - 127 - 23) with (e - 150) by lia.
Qed.
End fields.

(** A mantissa of 24 bits, as every normal number has. *)
Lemma normal_digits m : 0 ≤ m < 8388608 → Z.pos (digits2_pos (Z.to_pos (8388608 + m))) = 24.
Proof. intros Hm. rewrite digits_log2, Z2Pos.id by lia. rewrite (Z.log2_unique _ 23); lia. Qed.

(** ** A rounded mantissa as bits *)

Section pack.
Context (mbits ebits s : Z) (Hm : 0 < mbits) (He : 2 ≤ ebits) (Hs : 0 ≤ s < 2).

Local Abbreviation bias := (2 ^ (ebits - 1) - 1).

Lemma bias_bounds : 1 ≤ bias ∧ 2 ^ ebits = 2 * (bias + 1).
Proof.
  assert (2 ^ 1 ≤ 2 ^ (ebits - 1)) by (apply Z.pow_le_mono_r; lia).
  replace ebits with (Z.succ (ebits - 1)) at 2 by lia. rewrite Z.pow_succ_r by lia. change (2 ^ 1) with 2 in *. lia.
Qed.

Lemma pack_subnormal q : 0 ≤ q ≤ 2 ^ mbits →
  of_bits mbits ebits (s * 2 ^ (mbits + ebits) + q) = pack (mbits + 1) (bias + 1) (s =? 1) q (1 - bias - mbits).
Proof.
  intros Hq. pose proof bias_bounds as [Hb Hp]. assert (0 < 2 ^ mbits) by lia.
  assert (2 ^ (mbits + ebits) = 2 ^ mbits * 2 ^ ebits) as Ht by (rewrite Z.pow_add_r by lia; lia).
  rewrite of_bits_signed by nia. unfold pack. rewrite (Z.pow_add_r 2 mbits 1) by lia. change (2 ^ 1) with 2.
  rewrite (proj2 (Z.eqb_neq q (2 ^ mbits * 2))) by lia. rewrite (proj2 (Z.leb_le (1 - bias - mbits) _)) by lia.
  destruct (Z.eq_dec q (2 ^ mbits)) as [->|].
  - rewrite Z.div_same, Z.mod_same, Z.add_0_r by lia. rewrite (proj2 (Z.eqb_neq 1 (2 ^ ebits - 1))), (proj2 (Z.eqb_neq (2 ^ mbits) 0)) by lia. done.
  - rewrite Z.div_small, Z.mod_small by lia. cbn [Z.eqb]. destruct q; (done || lia).
Qed.

Lemma pack_normal ex q : 1 ≤ ex ≤ 2 ^ ebits - 2 → 2 ^ mbits ≤ q ≤ 2 ^ (mbits + 1) →
  of_bits mbits ebits (s * 2 ^ (mbits + ebits) + (ex * 2 ^ mbits + (q - 2 ^ mbits))) =
  pack (mbits + 1) (bias + 1) (s =? 1) q (ex - bias - mbits).
Proof.
  intros Hex Hq. pose proof bias_bounds as [Hb Hp]. assert (0 < 2 ^ mbits) by lia.
  assert (2 ^ (mbits + ebits) = 2 ^ mbits * 2 ^ ebits) as Ht by (rewrite Z.pow_add_r by lia; lia).
  assert (2 ^ (mbits + 1) = 2 * 2 ^ mbits) as Hd by (rewrite Z.pow_add_r by lia; change (2 ^ 1) with 2; lia). rewrite Hd in Hq.
  rewrite of_bits_signed by nia. unfold pack. rewrite Hd. rewrite (proj2 (Z.eqb_neq q 0)) by lia.
  destruct (Z.eqb_spec q (2 * 2 ^ mbits)) as [->|].
  - replace (ex * 2 ^ mbits + (2 * 2 ^ mbits - 2 ^ mbits)) with ((ex + 1) * 2 ^ mbits) by lia.
    rewrite Z.div_mul, Z.mod_mul, Z.add_0_r by lia. rewrite (proj2 (Z.eqb_neq (ex + 1) 0)) by lia.
    replace (mbits + 1 - 1) with mbits by lia. cbn [Z.eqb].
    destruct (Z.eqb_spec (ex + 1) (2 ^ ebits - 1)); [by rewrite (proj2 (Z.leb_gt _ _)) by lia|].
    rewrite (proj2 (Z.leb_le _ _)) by lia. f_equal. lia.
  - rewrite Z.div_add_l, (Z.div_small (q - _)), Z.add_0_r by lia.
    rewrite (Z.add_comm (ex * _)), Z.mod_add, (Z.mod_small (q - _)) by lia.
    rewrite (proj2 (Z.eqb_neq ex 0)), (proj2 (Z.eqb_neq ex (2 ^ ebits - 1))) by lia. rewrite (proj2 (Z.leb_le _ _)) by lia. f_equal. f_equal. lia.
Qed.
End pack.

(** * Encoding rounds correctly *)

(** The test of the code: the bits cut off against half of the last place. *)
Lemma rne_test m d : 0 ≤ m → 0 < d →
  (if (2 ^ (d - 1) <? m mod 2 ^ d) || ((m mod 2 ^ d =? 2 ^ (d - 1)) && Z.odd (m / 2 ^ d)) then m / 2 ^ d + 1 else m / 2 ^ d) = rne m d.
Proof.
  intros Hm Hd. unfold rne. assert (2 ^ d = 2 * 2 ^ (d - 1)) as E.
  { replace d with (Z.succ (d - 1)) at 1 by lia. rewrite Z.pow_succ_r by lia. done. }
  set (h := 2 ^ (d - 1)) in *. set (r := m mod 2 ^ d). rewrite E. f_equal.
  destruct (Z.ltb_spec h r), (Z.ltb_spec (2 * h) (2 * r)), (Z.eqb_spec r h), (Z.eqb_spec (2 * r) (2 * h)); done || lia.
Qed.

(** The value of a normal number, rounded to a format with its least exponent below. *)
Lemma round_normal prec emax s e m f :
  0 < prec ≤ 24 → 0 ≤ m < 8388608 → Z.max (e - 126 - prec) (3 - emax - prec) = f → e - 150 ≤ f →
  round_to prec emax (S754_finite s (Z.to_pos (8388608 + m)) (e - 150)) = pack prec emax s (rne (8388608 + m) (f - (e - 150))) f.
Proof.
  intros Hp Hm Hf He. cbn [round_to]. rewrite <- (Z2Pos.id (8388608 + m)) at 2 by lia. apply binary_round_closed; [lia| |done].
  rewrite normal_digits by done. unfold fexp, emin. lia.
Qed.

(** Below half of the least number: nothing. *)
Lemma round_tiny m d : 0 ≤ m → 2 * m < 2 ^ d → 0 ≤ d → rne m d = 0.
Proof.
  intros Hm Hd Hd0. unfold rne. rewrite Z.div_small, Z.mod_small by lia.
  rewrite (proj2 (Z.ltb_ge _ _)), (proj2 (Z.eqb_neq _ _)) by lia. done.
Qed.

(** The reset of a mantissa under a full exponent: nothing, up to infinity. *)
Lemma infinity_field x : 0 ≤ x ≤ 31744 → (if Z.land x 31744 =? 31744 then Z.land x 31744 else x) = x.
Proof.
  intros Hx. destruct (Z.eqb_spec (Z.land x 31744) 31744) as [E|]; [|done].
  assert (x / 1024 = 31) as Ex.
  { change 31744 with (Z.shiftl 31 10) in E. apply (f_equal (λ y, Z.shiftr y 10)) in E.
    rewrite Z.shiftr_land, Z.shiftr_shiftl_l in E by lia. change (10 - 10) with 0 in E.
    rewrite Z.shiftl_0_r in E. change 31 with (Z.ones 5) in E at 1. rewrite shift_field in E by lia. change (2 ^ 10) with 1024 in E.
    change (2 ^ 5) with 32 in E. rewrite Z.mod_small in E; [done|]. split; [apply Z.div_pos; lia|apply Z.div_lt_upper_bound; lia]. }
  rewrite E. pose proof (Z.div_mod x 1024). pose proof (Z.mod_pos_bound x 1024). lia.
Qed.

Section encode.
Context (s e m : Z) (Hf : f32_fields s e m).

(** A magnitude in front of which the sign is put. *)
Lemma sign_or x : 0 ≤ x < 32768 → Z.lor (s * 32768) x = s * 32768 + x.
Proof. intros Hx. change 32768 with (2 ^ 15). rewrite <- Z.shiftl_mul_pow2 at 1 by lia. apply lor_low; [lia|]. change (2 ^ 15) with 32768. lia. Qed.

Lemma u16_small x : 0 ≤ x < 32768 → u16 (s * 32768 + x) = s * 32768 + x.
Proof. intros Hx. destruct Hf as (? & _ & _). apply Z.mod_small. lia. Qed.

Lemma f16_infinity : f16_of_bits (s * 32768 + 31744) = S754_infinity (s =? 1).
Proof. destruct Hf as (? & _ & _). unfold f16_of_bits. change 32768 with (2 ^ (10 + 5)). by rewrite of_bits_signed by lia. Qed.

Lemma significand_or : Z.lor m 8388608 = 8388608 + m.
Proof. destruct Hf as (_ & _ & ?). rewrite Z.lor_comm. change 8388608 with (Z.shiftl 1 23) at 1. rewrite lor_low by lia. lia. Qed.

Lemma encode_subnormal : 102 ≤ e < 113 →
  f16_of_bits (yvex_quant_f16_encode (f32_pattern s e m)) = round_to 11 16 (f32_of_bits (f32_pattern s e m)).
Proof.
  intros He. destruct Hf as (Hs & _ & Hm). unfold yvex_quant_f16_encode. cbn zeta.
  rewrite pattern_sign, pattern_exponent, pattern_mantissa, pattern_value by done.
  rewrite (proj2 (Z.eqb_neq e 255)), (proj2 (Z.eqb_neq e 0)), (proj2 (Z.ltb_ge 142 e)), (proj2 (Z.ltb_lt e 113)), (proj2 (Z.ltb_ge e 102)) by lia.
  rewrite significand_or, Z.shiftr_div_pow2, !Z.shiftl_mul_pow2, !Z.mul_1_l by lia.
  replace (2 ^ (126 - e) - 1) with (Z.ones (126 - e)) by (rewrite Z.ones_equiv; lia). rewrite Z.land_ones by lia. rewrite land_bit_zero, (round_normal 11 16 _ e m (-24)) by (done || lia).
  replace (-24 - (e - 150)) with (126 - e) by lia.
  match goal with |- context [negb (Z.b2z ?b =? 0)] => replace (negb (Z.b2z b =? 0)) with b by (by destruct b) end.
  rewrite rne_test by lia.
  assert (0 ≤ rne (8388608 + m) (126 - e) ≤ 2 ^ 10) as Hq.
  { apply rne_bounds; [lia|lia|]. split; [lia|]. assert (2 ^ 24 ≤ 2 ^ (10 + (126 - e))) by (apply Z.pow_le_mono_r; lia).
    change (2 ^ 24) with 16777216 in *. lia. }
  change (2 ^ 10) with 1024 in Hq. rewrite sign_or, u16_small by lia. apply (pack_subnormal 10 5); (done || lia).
Qed.

Lemma encode_normal : 113 ≤ e ≤ 142 →
  f16_of_bits (yvex_quant_f16_encode (f32_pattern s e m)) = round_to 11 16 (f32_of_bits (f32_pattern s e m)).
Proof.
  intros He. destruct Hf as (Hs & _ & Hm). unfold yvex_quant_f16_encode. cbn zeta.
  rewrite pattern_sign, pattern_exponent, pattern_mantissa, pattern_value by done.
  rewrite (proj2 (Z.eqb_neq e 255)), (proj2 (Z.eqb_neq e 0)), (proj2 (Z.ltb_ge 142 e)), (proj2 (Z.ltb_ge e 113)) by lia.
  assert (0 ≤ m / 8192 < 1024) as Hd by (split; [apply Z.div_pos; lia|apply Z.div_lt_upper_bound; lia]).
  rewrite Z.shiftr_div_pow2 by lia. change (2 ^ 13) with 8192. rewrite lor_low by (change (2 ^ 10) with 1024; lia). change (2 ^ 10) with 1024.
  change 8191 with (Z.ones 13). rewrite Z.land_ones by lia. change (2 ^ 13) with 8192. rewrite land_bit_zero.
  rewrite (round_normal 11 16 _ e m (e - 137)) by (done || lia). replace (e - 137 - (e - 150)) with 13 by lia.
  assert (Z.odd ((e - 112) * 1024 + m / 8192) = Z.odd ((8388608 + m) / 8192)) as ->.
  { replace (8388608 + m) with (1024 * 8192 + m) by lia. rewrite Z.div_add_l, !Z.odd_add, !Z.odd_mul by lia. by rewrite !andb_false_r. }
  match goal with |- context [negb (Z.b2z ?b =? 0)] => replace (negb (Z.b2z b =? 0)) with b by (by destruct b) end.
  pose proof (rne_test (8388608 + m) 13 ltac:(lia) ltac:(lia)) as Hr. change (2 ^ (13 - 1)) with 4096 in Hr. change (2 ^ 13) with 8192 in Hr.
  replace ((8388608 + m) mod 8192) with (m mod 8192) in Hr by (replace (8388608 + m) with (m + 1024 * 8192) by lia; by rewrite Z.mod_add).
  replace ((8388608 + m) / 8192) with (1024 + m / 8192) in * by (replace (8388608 + m) with (1024 * 8192 + m) by lia; by rewrite Z.div_add_l).
  set (q := rne (8388608 + m) 13) in *.
  match goal with |- context [if ?b then (e - 112) * 1024 + m / 8192 + 1 else (e - 112) * 1024 + m / 8192] => set (up := b) in * end.
  assert ((if up then (e - 112) * 1024 + m / 8192 + 1 else (e - 112) * 1024 + m / 8192) = (e - 112) * 1024 + (q - 1024)) as ->
    by (rewrite <- Hr; destruct up; lia).
  assert (1024 ≤ q ≤ 2048) as Hq by (rewrite <- Hr; destruct up; lia).
  set (x := (e - 112) * 1024 + (q - 1024)).
  assert (0 ≤ x ≤ 31744) as Hx by (unfold x; lia). rewrite infinity_field by done.
  rewrite sign_or, u16_small by lia. unfold x. change 32768 with (2 ^ (10 + 5)). change 1024 with (2 ^ 10).
  rewrite (pack_normal 10 5 s) by (try lia; change (2 ^ 10) with 1024; change (2 ^ (10 + 1)) with 2048; change (2 ^ 5) with 32; lia).
  change (2 ^ (5 - 1) - 1) with 15. change (10 + 1) with 11. change (15 + 1) with 16. f_equal. lia.
Qed.

Lemma encode_special : e = 255 →
  f16_of_bits (yvex_quant_f16_encode (f32_pattern s e m)) = round_to 11 16 (f32_of_bits (f32_pattern s e m)).
Proof.
  intros E. destruct Hf as (Hs & _ & Hm). unfold yvex_quant_f16_encode. cbn zeta.
  rewrite pattern_sign, pattern_exponent, pattern_mantissa, pattern_value by done.
  rewrite (proj2 (Z.eqb_eq e 255) E), (proj2 (Z.eqb_neq e 0)) by lia.
  destruct (Z.eqb_spec m 0); [rewrite sign_or, u16_small by lia; apply f16_infinity|]. cbn [round_to].
  rewrite <- Z.lor_assoc. change 511 with (Z.ones 9). rewrite Z.land_ones by lia.
  pose proof (Z.mod_pos_bound (Z.shiftr m 13) (2 ^ 9) ltac:(lia)) as Hlow. set (low := Z.shiftr m 13 mod 2 ^ 9) in *.
  change (2 ^ 9) with 512 in Hlow. change 32256 with (Z.shiftl 63 9). rewrite lor_low by (change (2 ^ 9) with 512; lia).
  change (63 * 2 ^ 9) with 32256. rewrite sign_or, u16_small by lia. unfold f16_of_bits.
  change 32768 with (2 ^ (10 + 5)). rewrite of_bits_signed by (change (2 ^ (10 + 5)) with 32768; lia).
  change (2 ^ 10) with 1024. cbn zeta.
  assert ((32256 + low) / 1024 = 31) as -> by (symmetry; apply Z.div_unique with (512 + low); lia).
  assert ((32256 + low) mod 1024 = 512 + low) as -> by (symmetry; apply Z.mod_unique with 31; lia).
  cbn. by rewrite (proj2 (Z.eqb_neq (512 + low) 0)) by lia.
Qed.

Lemma encode_extreme : e < 102 ∨ 142 < e < 255 →
  f16_of_bits (yvex_quant_f16_encode (f32_pattern s e m)) = round_to 11 16 (f32_of_bits (f32_pattern s e m)).
Proof.
  intros He. destruct Hf as (Hs & Hee & Hm). unfold yvex_quant_f16_encode. cbn zeta.
  rewrite pattern_sign, pattern_exponent, pattern_mantissa, pattern_value by done.
  rewrite (proj2 (Z.eqb_neq e 255)) by lia. destruct He as [He|He].
  - rewrite (proj2 (Z.ltb_ge 142 e)), (proj2 (Z.ltb_lt e 113)), (proj2 (Z.ltb_lt e 102)) by lia.
    replace (s * 32768) with (s * 32768 + 0) by lia. rewrite u16_small by lia.
    assert (f16_of_bits (s * 32768 + 0) = S754_zero (s =? 1)) as ->.
    { unfold f16_of_bits. change 32768 with (2 ^ (10 + 5)). by rewrite of_bits_signed by lia. }
    destruct (Z.eqb_spec e 0) as [->|].
    + destruct m as [|p|p] eqn:Em; [done| |done]. cbn [round_to].
      assert (Z.pos (digits2_pos p) ≤ 23) by (apply digits_le; [lia|change (2 ^ 23) with 8388608; lia]).
      rewrite (binary_round_closed 11 16 _ _ _ (-24)) by (unfold fexp, emin; lia).
      rewrite round_tiny; [done|lia| |lia]. assert (2 ^ 24 ≤ 2 ^ (-24 - -149)) by (apply Z.pow_le_mono_r; lia). change (2 ^ 24) with 16777216 in *. lia.
    + rewrite (round_normal 11 16 _ e m (-24)) by (done || lia). rewrite round_tiny; [done|lia| |lia].
      assert (2 ^ 25 ≤ 2 ^ (-24 - (e - 150))) by (apply Z.pow_le_mono_r; lia). change (2 ^ 25) with 33554432 in *. lia.
  - rewrite (proj2 (Z.eqb_neq e 0)), (proj2 (Z.ltb_lt 142 e)) by lia. rewrite sign_or, u16_small, f16_infinity by lia.
    rewrite (round_normal 11 16 _ e m (e - 137)) by (done || lia). replace (e - 137 - (e - 150)) with 13 by lia.
    assert (1024 ≤ rne (8388608 + m) 13) as Hq.
    { unfold rne. change (2 ^ 13) with 8192. assert (1024 ≤ (8388608 + m) / 8192) by (apply Z.div_le_lower_bound; lia). destruct (_ || _); lia. }
    unfold pack. rewrite (proj2 (Z.eqb_neq (rne (8388608 + m) 13) 0)) by lia.
    rewrite (proj2 (Z.leb_gt (e - 137 + 1) (16 - 11))), (proj2 (Z.leb_gt (e - 137) (16 - 11))) by lia. by destruct (_ =? 2 ^ 11).
Qed.

(** ** Bfloat16 *)

Lemma exponent_full : (Z.land (f32_pattern s e m) 2139095040 =? 2139095040) = (e =? 255).
Proof.
  destruct Hf as (? & ? & ?). change 2139095040 with (Z.shiftl 255 23).
  assert (Z.land (f32_pattern s e m) (Z.shiftl 255 23) = Z.shiftl e 23) as ->.
  { rewrite <- (pattern_exponent s e m) at 2 by done. rewrite Z.shiftl_land. apply Z.bits_inj'. intros k Hk.
    rewrite !Z.land_spec. destruct (Z.lt_ge_cases k 23).
    - by rewrite !(Z.shiftl_spec_low _ 23 k), !andb_false_r by lia.
    - rewrite (Z.shiftl_spec (Z.shiftr _ 23)), Z.shiftr_spec by lia. by replace (k - 23 + 23) with k by lia. }
  rewrite !Z.shiftl_mul_pow2 by lia. destruct (Z.eqb_spec e 255), (Z.eqb_spec (e * 2 ^ 23) (255 * 2 ^ 23)); lia.
Qed.

Lemma bf16_finite : e < 255 → ∃ q, 0 ≤ q ≤ 256 ∧ (1 ≤ e → 128 ≤ q) ∧ (e = 0 → q ≤ 128) ∧
  yvex_quant_bf16_encode (f32_pattern s e m) = s * 32768 + (if e =? 0 then q else e * 128 + (q - 128)) ∧
  round_to 8 128 (f32_of_bits (f32_pattern s e m)) =
    pack 8 128 (s =? 1) q (if e =? 0 then -133 else e - 134).
Proof.
  intros He. destruct Hf as (Hs & Hee & Hm). exists (rne (if e =? 0 then m else 8388608 + m) 16).
  assert (0 ≤ m / 65536 < 128) as Hd by (split; [apply Z.div_pos; lia|apply Z.div_lt_upper_bound; lia]).
  assert (Z.land (f32_pattern s e m) 65535 = m mod 65536) as Hlow.
  { change 65535 with (Z.ones 16). rewrite Z.land_ones by lia. change (2 ^ 16) with 65536. unfold f32_pattern.
    replace ((s * 256 + e) * 8388608 + m) with (m + (s * 256 + e) * 128 * 65536) by lia. by rewrite Z.mod_add. }
  set (q := rne (if e =? 0 then m else 8388608 + m) 16).
  set (base := if e =? 0 then 0 else 128).
  assert (rne m 16 + base = q ∧ 0 ≤ rne m 16 ≤ 128) as [Hq Hr].
  { split; [|change 128 with (2 ^ 7); apply rne_bounds; [lia|lia|change (2 ^ (7 + 16)) with 8388608; lia]].
    unfold q, base. destruct (Z.eqb_spec e 0); [lia|]. unfold rne. change (2 ^ 16) with 65536.
    replace (8388608 + m) with (m + 128 * 65536) by lia. rewrite Z.mod_add, Z.div_add, Z.odd_add by lia.
    change (Z.odd 128) with false. rewrite xorb_false_r. destruct (_ || _); lia. }
  split; [unfold base in Hq; destruct (e =? 0); lia|]. split; [unfold base in Hq; destruct (Z.eqb_spec e 0); lia|].
  split; [unfold base in Hq; destruct (Z.eqb_spec e 0); lia|]. split.
  - unfold yvex_quant_bf16_encode. cbn zeta. rewrite exponent_full, (proj2 (Z.eqb_neq e 255)), pattern_upper, Hlow, land_bit_zero by lia. cbn [andb].
    match goal with |- context [negb (Z.b2z ?b =? 0)] => replace (negb (Z.b2z b =? 0)) with b by (by destruct b) end.
    replace (Z.odd ((s * 256 + e) * 128 + m / 65536)) with (Z.odd (m / 65536)).
    2: { rewrite Z.odd_add, Z.odd_mul. change (Z.odd 128) with false. by rewrite andb_false_r, xorb_false_l. }
    pose proof (rne_test m 16 ltac:(lia) ltac:(lia)) as Ht. change (2 ^ (16 - 1)) with 32768 in Ht. change (2 ^ 16) with 65536 in Ht.
    match goal with |- context [if ?b then _ + 1 else _] => set (up := b) in * end.
    replace (if up then (s * 256 + e) * 128 + m / 65536 + 1 else (s * 256 + e) * 128 + m / 65536)
      with ((s * 256 + e) * 128 + rne m 16) by (rewrite <- Ht; destruct up; lia).
    unfold u16. rewrite Z.mod_small by lia. unfold base in Hq. destruct (Z.eqb_spec e 0); lia.
  - rewrite pattern_value by done. rewrite (proj2 (Z.eqb_neq e 255)) by lia. destruct (Z.eqb_spec e 0) as [E|E].
    + unfold q. destruct m as [|p|p]; [done| |lia]. cbn [round_to].
      assert (Z.pos (digits2_pos p) ≤ 23) by (apply digits_le; [lia|change (2 ^ 23) with 8388608; lia]).
      rewrite (binary_round_closed 8 128 _ _ _ (-133)) by (unfold fexp, emin; lia). done.
    + unfold q. rewrite (round_normal 8 128 _ e m (e - 134)) by (done || lia). do 2 f_equal. lia.
Qed.

Lemma bf16_encode_finite : e < 255 →
  bf16_of_bits (yvex_quant_bf16_encode (f32_pattern s e m)) = round_to 8 128 (f32_of_bits (f32_pattern s e m)).
Proof.
  intros He. destruct Hf as (Hs & Hee & Hm). destruct (bf16_finite He) as (q & Hq & Hn & Hz & -> & ->).
  unfold bf16_of_bits. change 32768 with (2 ^ (7 + 8)). destruct (Z.eqb_spec e 0) as [E|E].
  - apply (pack_subnormal 7 8 s); [lia|lia|lia|]. change (2 ^ 7) with 128. lia.
  - change 128 with (2 ^ 7) at 1 2. rewrite (pack_normal 7 8 s) by (try lia; change (2 ^ 7) with 128; change (2 ^ (7 + 1)) with 256; change (2 ^ 8) with 256; lia).
    change (2 ^ (8 - 1) - 1) with 127. change (7 + 1) with 8. change (127 + 1) with 128. f_equal. lia.
Qed.

Lemma bf16_encode_special : e = 255 →
  bf16_of_bits (yvex_quant_bf16_encode (f32_pattern s e m)) = f32_of_bits (f32_pattern s e m).
Proof.
  intros E. destruct Hf as (Hs & _ & Hm). unfold yvex_quant_bf16_encode. cbn zeta.
  rewrite exponent_full, pattern_mantissa, pattern_upper, pattern_value by done.
  rewrite (proj2 (Z.eqb_eq e 255) E), (proj2 (Z.eqb_neq e 0)) by lia. rewrite E. cbn [andb].
  assert (0 ≤ m / 65536 < 128) as Hd by (split; [apply Z.div_pos; lia|apply Z.div_lt_upper_bound; lia]).
  assert (∀ x, 0 ≤ x < 128 → bf16_of_bits (u16 ((s * 256 + 255) * 128 + x)) = if x =? 0 then S754_infinity (s =? 1) else S754_nan) as Hall.
  { intros x Hx. unfold u16. rewrite Z.mod_small by lia. unfold bf16_of_bits.
    replace ((s * 256 + 255) * 128 + x) with (s * 2 ^ (7 + 8) + (255 * 128 + x)) by lia.
    rewrite of_bits_signed by (change (2 ^ (7 + 8)) with 32768; lia). change (2 ^ 7) with 128. cbn zeta.
    rewrite Z.div_add_l, (Z.div_small x), Z.add_0_r by lia. rewrite (Z.add_comm (255 * 128)), Z.mod_add, Z.mod_small by lia. done. }
  destruct (Z.eqb_spec m 0) as [->|Hm0]; cbn [negb].
  - change (Z.land (f32_pattern s 255 0) 65535) with (Z.land (f32_pattern s 255 0) (Z.ones 16)). rewrite Z.land_ones by lia.
    assert (f32_pattern s 255 0 mod 2 ^ 16 = 0) as ->.
    { unfold f32_pattern. change (2 ^ 16) with 65536. replace ((s * 256 + 255) * 8388608 + 0) with ((s * 256 + 255) * 128 * 65536) by lia. by apply Z.mod_mul. }
    cbn [Z.ltb Z.compare Z.eqb andb orb]. by rewrite Hall.
  - set (x := m / 65536) in *.
    assert (∃ y, Z.lor ((s * 256 + 255) * 128 + x) 64 = (s * 256 + 255) * 128 + y ∧ 1 ≤ y < 128) as (y & -> & Hy).
    { exists (Z.lor x 64). split.
      - change 128 with (2 ^ 7). rewrite <- (lor_low (s * 256 + 255) x 7) by (change (2 ^ 7) with 128; lia). rewrite <- Z.lor_assoc.
        assert (0 ≤ Z.lor x 64 < 2 ^ 7) by (apply (lor_below x 64 7); lia). rewrite lor_low by (done || lia). done.
      - assert (0 ≤ Z.lor x 64 < 2 ^ 7) by (apply (lor_below x 64 7); lia). change (2 ^ 7) with 128 in *. split; [|lia].
        destruct (Z.eq_dec (Z.lor x 64) 0) as [E0|]; [|lia]. by apply Z.lor_eq_0_iff in E0 as [_ E0]. }
    rewrite Hall by lia. by rewrite (proj2 (Z.eqb_neq y 0)) by lia.
Qed.
End encode.

Lemma f16_encode_exact b : is_u32 b → f16_of_bits (yvex_quant_f16_encode b) = round_to 11 16 (f32_of_bits b).
Proof.
  intros (s & e & m & Hf & ->)%f32_pattern_split. pose proof Hf as (_ & He & _).
  destruct (Z.eq_dec e 255); [by apply encode_special|].
  destruct (Z.lt_ge_cases e 102); [apply encode_extreme; [done|lia]|].
  destruct (Z.lt_ge_cases e 113); [apply encode_subnormal; [done|lia]|].
  destruct (Z.le_gt_cases e 142); [apply encode_normal; [done|lia]|apply encode_extreme; [done|lia]].
Qed.

Lemma bf16_encode_exact b : is_u32 b → bf16_of_bits (yvex_quant_bf16_encode b) = round_to 8 128 (f32_of_bits b).
Proof.
  intros (s & e & m & Hf & ->)%f32_pattern_split. pose proof Hf as (_ & He & _).
  destruct (Z.eq_dec e 255) as [E|]; [|apply bf16_encode_finite; [done|lia]].
  rewrite bf16_encode_special by done. rewrite pattern_value by done.
  rewrite (proj2 (Z.eqb_eq e 255) E), (proj2 (Z.eqb_neq e 0)) by lia. by destruct (m =? 0).
Qed.

(** C19: encoding to binary16 and to bfloat16 is correct rounding. For each of the 2^32 patterns of a binary32 number, NaNs, infinities,
    subnormals and overflow included, the pattern encoded denotes the number rounded to the nearest of the format, ties to even. *)
Theorem scalar_encodings_round b :
  is_u32 b →
  f16_of_bits (yvex_quant_f16_encode b) = round_to 11 16 (f32_of_bits b) ∧ 0 ≤ yvex_quant_f16_encode b < 65536 ∧
  bf16_of_bits (yvex_quant_bf16_encode b) = round_to 8 128 (f32_of_bits b) ∧ 0 ≤ yvex_quant_bf16_encode b < 65536.
Proof.
  intros Hb. split; [by apply f16_encode_exact|]. split; [by apply Z.mod_pos_bound|].
  split; [by apply bf16_encode_exact|by apply Z.mod_pos_bound].
Qed.

(** One and a third, the least number above the greatest of binary16, and half the least subnormal. *)
Lemma scalar_encodings_round_witness :
  is_u32 1068149419 ∧ f16_of_bits (yvex_quant_f16_encode 1068149419) = S754_finite false 1365 (-10) ∧
  yvex_quant_f16_encode 1199566848 = 31744 ∧ yvex_quant_f16_encode 855638016 = 0 ∧ yvex_quant_bf16_encode 1068149419 = 16299.
Proof.
  split; [ulia|]. destruct (scalar_encodings_round 1068149419) as (E & _); [ulia|].
  split; [rewrite E; reflexivity|]. split; [reflexivity|]. split; reflexivity.
Defined.

(** * Decoding is exact *)

(** A test of every number whose bits above the lowest [k] are those of [base]. *)
Fixpoint all_below (k : nat) (test : Z → bool) (base : Z) : bool :=
  match k with
  | O => test base
  | S k => all_below k test (2 * base) && all_below k test (2 * base + 1)
  end.

Lemma all_below_sound k test : ∀ base x,
  all_below k test base = true → base * 2 ^ Z.of_nat k ≤ x < (base + 1) * 2 ^ Z.of_nat k → test x = true.
Proof.
  induction k as [|k IH]; intros base x; cbn [all_below].
  - change (2 ^ Z.of_nat 0) with 1. intros Ht Hx. by assert (x = base) as -> by lia.
  - intros [Hl Hr]%andb_true_iff Hx. rewrite Nat2Z.inj_succ, Z.pow_succ_r in Hx by lia.
    destruct (Z.lt_ge_cases x ((2 * base + 1) * 2 ^ Z.of_nat k)); [apply (IH _ _ Hl); nia|apply (IH _ _ Hr); nia].
Qed.

Lemma exhaustive (P : Z → Prop) (dec : ∀ x, Decision (P x)) k base :
  all_below k (λ x, bool_decide (P x)) base = true → ∀ x, base * 2 ^ Z.of_nat k ≤ x < (base + 1) * 2 ^ Z.of_nat k → P x.
Proof. intros Hall x Hx. pose proof (all_below_sound _ _ _ x Hall Hx) as Ht. by apply bool_decide_eq_true in Ht. Qed.

(** A NaN is quieted. *)
Definition quieted (x : spec_float) (bit h : Z) : Z := match x with S754_nan => Z.lor h bit | _ => h end.

(** What decoding a pattern is to give. *)
Definition f16_decodes (h : Z) : Prop :=
  match yvex_quant_f16_decode h with
  | Some b => 0 ≤ b < 2 ^ 32 ∧ same_number (f32_of_bits b) (f16_of_bits h) ∧
      yvex_quant_f16_encode b = quieted (f16_of_bits h) 512 h
  | None => False
  end.
#[local] Instance f16_decodes_dec h : Decision (f16_decodes h).
Proof. unfold f16_decodes. destruct (yvex_quant_f16_decode h); apply _. Defined.

(** Zeros, subnormals, infinities and NaNs one by one. *)
Lemma f16_decodes_extreme h : 0 ≤ h < 65536 → h / 1024 mod 32 = 0 ∨ h / 1024 mod 32 = 31 → f16_decodes h.
Proof.
  intros Hh He. pose proof (Z.div_mod h 1024). pose proof (Z.mod_pos_bound h 1024). pose proof (Z.div_mod (h / 1024) 32).
  assert (0 ≤ h / 1024 < 64) by (split; [apply Z.div_pos; lia|apply Z.div_lt_upper_bound; lia]).
  assert (h / 1024 = 0 ∨ h / 1024 = 31 ∨ h / 1024 = 32 ∨ h / 1024 = 63) as [E | [E | [E | E]]] by lia;
    apply (exhaustive _ f16_decodes_dec 10 (h / 1024)); try (change (2 ^ Z.of_nat 10) with 1024; lia);
    rewrite E; vm_cast_no_check (eq_refl true).
Qed.

(** A pattern by its sign, exponent and mantissa. *)
Lemma pattern_fields h mbits ebits :
  0 ≤ mbits → 0 < ebits → 0 ≤ h < 2 * 2 ^ (mbits + ebits) →
  ∃ s e m, 0 ≤ s < 2 ∧ 0 ≤ e < 2 ^ ebits ∧ 0 ≤ m < 2 ^ mbits ∧ h = s * 2 ^ (mbits + ebits) + (e * 2 ^ mbits + m).
Proof.
  intros Hm He Hh. rewrite Z.pow_add_r in Hh |- * by lia. assert (0 < 2 ^ mbits) by lia. assert (0 < 2 ^ ebits) by lia.
  exists (h / 2 ^ mbits / 2 ^ ebits), (h / 2 ^ mbits mod 2 ^ ebits), (h mod 2 ^ mbits).
  pose proof (Z.mod_pos_bound h (2 ^ mbits)). pose proof (Z.mod_pos_bound (h / 2 ^ mbits) (2 ^ ebits)).
  pose proof (Z.div_mod h (2 ^ mbits)). pose proof (Z.div_mod (h / 2 ^ mbits) (2 ^ ebits)).
  split; [|split; [lia|split; [lia|nia]]].
  split; [apply Z.div_pos; [apply Z.div_pos|]; lia|]. rewrite Z.div_div by lia. apply Z.div_lt_upper_bound; nia.
Qed.

Section decode.
Context (s e m : Z) (Hs : 0 ≤ s < 2).

Lemma f16_decode_normal : 1 ≤ e ≤ 30 → 0 ≤ m < 1024 →
  yvex_quant_f16_decode (s * 32768 + (e * 1024 + m)) = Some (f32_pattern s (e + 112) (m * 8192)).
Proof.
  intros He Hm. unfold yvex_quant_f16_decode. set (h := s * 32768 + (e * 1024 + m)). cbn zeta.
  assert (h / 1024 = s * 32 + e) as Hd by (symmetry; apply Z.div_unique with m; unfold h; lia).
  assert (Z.land (Z.shiftr h 10) 31 = e) as ->.
  { change 31 with (Z.ones 5). rewrite shift_field by lia. change (2 ^ 10) with 1024. rewrite Hd. change (2 ^ 5) with 32.
    by rewrite (Z.add_comm (s * 32)), Z.mod_add, Z.mod_small by lia. }
  assert (Z.land h 1023 = m) as ->.
  { change 1023 with (Z.ones 10). rewrite Z.land_ones by lia. symmetry. apply Z.mod_unique with (s * 32 + e); [|unfold h]; lia. }
  assert (Z.land h 32768 = s * 32768) as ->.
  { change 32768 with (2 ^ 15) at 1. rewrite land_pow2 by lia. change (2 ^ 15) with 32768. f_equal.
    rewrite Z.testbit_odd, Z.shiftr_div_pow2 by lia. change (2 ^ 15) with 32768.
    rewrite <- (Z.div_unique h 32768 s (e * 1024 + m)) by (unfold h; lia). assert (s = 0 ∨ s = 1) as [-> | ->] by lia; done. }
  rewrite (proj2 (Z.eqb_neq e 0)), (proj2 (Z.eqb_neq e 31)) by lia. f_equal.
  replace (Z.shiftl (s * 32768) 16) with (Z.shiftl s 31) by (rewrite !Z.shiftl_mul_pow2 by lia; lia).
  rewrite (Z.shiftl_mul_pow2 m) by lia. rewrite (Z.shiftl_mul_pow2 (e + 112)) by lia. change (2 ^ 23) with 8388608. change (2 ^ 13) with 8192.
  rewrite lor_low by lia. change (2 ^ 31) with (256 * 8388608). unfold f32_pattern.
  replace (s * (256 * 8388608) + (e + 112) * 8388608) with (Z.shiftl (s * 256 + (e + 112)) 23)
    by (rewrite Z.shiftl_mul_pow2 by lia; change (2 ^ 23) with 8388608; lia).
  rewrite lor_low by lia. change (2 ^ 23) with 8388608. lia.
Qed.

Lemma f16_encode_back : 1 ≤ e ≤ 30 → 0 ≤ m < 1024 →
  yvex_quant_f16_encode (f32_pattern s (e + 112) (m * 8192)) = s * 32768 + (e * 1024 + m).
Proof.
  intros He Hm. assert (f32_fields s (e + 112) (m * 8192)) as H by (unfold f32_fields; lia).
  unfold yvex_quant_f16_encode. cbn zeta. rewrite pattern_sign, pattern_exponent, pattern_mantissa by done.
  rewrite (proj2 (Z.eqb_neq (e + 112) 255)), (proj2 (Z.ltb_ge 142 (e + 112))), (proj2 (Z.ltb_ge (e + 112) 113)) by lia.
  replace (e + 112 - 112) with e by lia. rewrite Z.shiftr_div_pow2 by lia. change (2 ^ 13) with 8192. rewrite Z.div_mul by lia.
  rewrite lor_low by lia. change (2 ^ 10) with 1024. change 8191 with (Z.ones 13). rewrite Z.land_ones by lia. change (2 ^ 13) with 8192.
  rewrite Z.mod_mul by lia. cbn [Z.ltb Z.compare Z.eqb andb orb]. rewrite infinity_field by lia.
  rewrite sign_or by lia. eapply u16_small; [exact H|lia].
Qed.

Lemma f16_decodes_normal : 1 ≤ e ≤ 30 → 0 ≤ m < 1024 → f16_decodes (s * 32768 + (e * 1024 + m)).
Proof.
  intros He Hm. unfold f16_decodes. rewrite f16_decode_normal, f16_encode_back by done. unfold f16_of_bits.
  change 32768 with (2 ^ (10 + 5)). change 1024 with (2 ^ 10) in *.
  assert (1 ≤ e ≤ 30 → (e * 2 ^ 10 + m) / 2 ^ 10 = e ∧ (e * 2 ^ 10 + m) mod 2 ^ 10 = m) as Hem.
  { split; [symmetry; apply Z.div_unique with m; lia|symmetry; apply Z.mod_unique with e; lia]. }
  destruct (Hem He) as [Ed Em]. rewrite of_bits_signed by (change (2 ^ (10 + 5)) with 32768; lia). rewrite Ed, Em. cbn zeta.
  rewrite (proj2 (Z.eqb_neq e 0)), (proj2 (Z.eqb_neq e (2 ^ 5 - 1))) by lia.
  assert (f32_fields s (e + 112) (m * 8192)) by (unfold f32_fields; lia). rewrite pattern_value by done.
  rewrite (proj2 (Z.eqb_neq (e + 112) 0)), (proj2 (Z.eqb_neq (e + 112) 255)) by lia.
  split; [unfold f32_pattern; lia|]. split; [|done]. cbn [same_number]. split; [done|]. rewrite !Z2Pos.id by lia.
  replace (e - (2 ^ (5 - 1) - 1) - 10) with (e + 112 - 150 + 13) by lia. rewrite Z.min_l by lia.
  replace (e + 112 - 150 - (e + 112 - 150)) with 0 by lia. replace (e + 112 - 150 + 13 - (e + 112 - 150)) with 13 by lia. lia.
Qed.
End decode.

Lemma f16_decodes_all h : 0 ≤ h < 65536 → f16_decodes h.
Proof.
  intros Hh. destruct (pattern_fields h 10 5) as (s & e & m & Hs & He & Hm & ->); [lia|lia|done|].
  assert (e = 0 ∨ e = 31 ∨ 1 ≤ e ≤ 30) as [Ee | [Ee | Ee]] by lia; [| |by apply f16_decodes_normal].
  all: apply f16_decodes_extreme; [done|].
  all: assert ((s * 2 ^ (10 + 5) + (e * 2 ^ 10 + m)) / 1024 = s * 32 + e) as -> by (symmetry; apply Z.div_unique with m; lia).
  all: rewrite Z.add_comm, Z.mod_add, Z.mod_small by lia; tauto.
Qed.

Lemma bf16_decodes_all h : 0 ≤ h < 65536 →
  is_u32 (yvex_quant_bf16_decode h) ∧ same_number (f32_of_bits (yvex_quant_bf16_decode h)) (bf16_of_bits h) ∧
  yvex_quant_bf16_encode (yvex_quant_bf16_decode h) = quieted (bf16_of_bits h) 64 h.
Proof.
  intros Hh. destruct (pattern_fields h 7 8) as (s & e & m & Hs & He & Hm & Eh); [lia|lia|done|].
  assert (f32_fields s e (m * 65536)) as Hf by (unfold f32_fields; lia).
  assert (yvex_quant_bf16_decode h = f32_pattern s e (m * 65536)) as ->.
  { unfold yvex_quant_bf16_decode, f32_pattern. rewrite Z.shiftl_mul_pow2 by lia. lia. }
  assert (bf16_of_bits h = if e =? 0 then match m with Z.pos m => S754_finite (s =? 1) m (-133) | _ => S754_zero (s =? 1) end
    else if e =? 255 then if m =? 0 then S754_infinity (s =? 1) else S754_nan
    else S754_finite (s =? 1) (Z.to_pos (128 + m)) (e - 134)) as ->.
  { unfold bf16_of_bits. rewrite Eh, of_bits_signed by (change (2 ^ (7 + 8)) with 32768; lia).
    rewrite <- (Z.div_unique (e * 2 ^ 7 + m) (2 ^ 7) e m), <- (Z.mod_unique (e * 2 ^ 7 + m) (2 ^ 7) e m) by lia.
    cbn zeta. change (2 ^ 8 - 1) with 255. change (2 ^ 7) with 128. change (1 - (2 ^ (8 - 1) - 1) - 7) with (-133).
    by replace (e - (2 ^ (8 - 1) - 1) - 7) with (e - 134) by lia. }
  split; [unfold f32_pattern; ulia|]. rewrite pattern_value by done. split.
  - destruct (Z.eqb_spec e 0); [destruct m; (done || (cbn [same_number Z.mul]; split; [done|change (2 ^ (-149 - Z.min (-149) (-133))) with 1; change (2 ^ (-133 - Z.min (-149) (-133))) with 65536; lia]))|].
    destruct (Z.eqb_spec e 255).
    + destruct (Z.eqb_spec m 0), (Z.eqb_spec (m * 65536) 0); (done || lia).
    + cbn [same_number]. split; [done|]. rewrite !Z2Pos.id by lia. rewrite Z.min_l by lia.
      replace (e - 150 - (e - 150)) with 0 by lia. replace (e - 134 - (e - 150)) with 16 by lia. lia.
  - unfold yvex_quant_bf16_encode. cbn zeta. rewrite exponent_full, pattern_mantissa, pattern_upper by done.
    rewrite Z.div_mul by lia. replace ((s * 256 + e) * 128 + m) with h by lia.
    assert (Z.land (f32_pattern s e (m * 65536)) 65535 = 0) as ->.
    { change 65535 with (Z.ones 16). rewrite Z.land_ones by lia. unfold f32_pattern. change (2 ^ 16) with 65536.
      replace ((s * 256 + e) * 8388608 + m * 65536) with (((s * 256 + e) * 128 + m) * 65536) by lia. by apply Z.mod_mul. }
    cbn [Z.ltb Z.compare Z.eqb andb orb]. assert (Z.lor h 64 < 65536) by (apply (lor_below h 64 16); lia).
    assert (0 ≤ Z.lor h 64) by (apply Z.lor_nonneg; lia). unfold u16.
    destruct (Z.eqb_spec e 255), (Z.eqb_spec e 0), (Z.eqb_spec m 0), (Z.eqb_spec (m * 65536) 0); try lia; cbn [negb andb quieted];
      (apply Z.mod_small || (destruct m; cbn [quieted]; apply Z.mod_small)); lia.
Qed.

(** C20: decoding binary16 and bfloat16 is exact and inverts encoding. Each of the 65536 patterns decodes (the loop that normalises
    a subnormal ends), to a binary32 number of the same value, and encodes back to itself, a NaN with its quiet bit set. *)
Theorem scalar_decodings_exact h :
  0 ≤ h < 65536 →
  (∃ b, yvex_quant_f16_decode h = Some b ∧ is_u32 b ∧ same_number (f32_of_bits b) (f16_of_bits h) ∧
    yvex_quant_f16_encode b = quieted (f16_of_bits h) 512 h) ∧
  is_u32 (yvex_quant_bf16_decode h) ∧ same_number (f32_of_bits (yvex_quant_bf16_decode h)) (bf16_of_bits h) ∧
  yvex_quant_bf16_encode (yvex_quant_bf16_decode h) = quieted (bf16_of_bits h) 64 h.
Proof.
  intros Hh. pose proof (f16_decodes_all h Hh) as Hf. pose proof (bf16_decodes_all h Hh) as (Hb & Hs & He).
  unfold f16_decodes in Hf. destruct (yvex_quant_f16_decode h) as [b|]; [|done]. destruct Hf as (Hr & Hsame & Henc).
  split; [exists b; split; [done|split; [ulia|done]]|]. split; [done|done].
Qed.

(** The least subnormal of binary16. *)
Lemma scalar_decodings_exact_witness :
  0 ≤ 1 < 65536 ∧ yvex_quant_f16_decode 1 = Some 864026624 ∧
  ∃ b, yvex_quant_f16_decode 1 = Some b ∧ same_number (f32_of_bits b) (S754_finite false 1 (-24)).
Proof.
  split; [lia|]. split; [reflexivity|]. destruct (scalar_decodings_exact 1) as ((b & E & _ & Hs & _) & _); [lia|].
  exists b. split; [exact E|exact Hs].
Defined.

(** * The scalars of a source *)

Definition e4m3_decodes (b : Z) : Prop :=
  match yvex_quant_fp8_e4m3fn_decode b with
  | S754_nan => Z.land b 127 = 127
  | x => Z.land b 127 ≠ 127 ∧ same_number x (of_finite_bits 3 4 b)
  end.
#[local] Instance e4m3_decodes_dec b : Decision (e4m3_decodes b).
Proof. unfold e4m3_decodes. destruct (yvex_quant_fp8_e4m3fn_decode b); apply _. Defined.

Lemma e4m3_decodes_all b : is_u8 b → e4m3_decodes b.
Proof. intros Hb. apply (exhaustive _ e4m3_decodes_dec 8 0); [by vm_compute|change (2 ^ Z.of_nat 8) with 256; ulia]. Qed.

Definition e8m0_decodes (b : Z) : Prop :=
  b = 255 ∨ same_number (yvex_quant_e8m0_decode b) (S754_finite false 1 (b - 127)).
#[local] Instance e8m0_decodes_dec b : Decision (e8m0_decodes b).
Proof. unfold e8m0_decodes. apply _. Defined.

Lemma e8m0_decodes_all b : is_u8 b → e8m0_decodes b.
Proof.
  intros Hb. apply (exhaustive _ e8m0_decodes_dec 8 0); [by vm_compute|change (2 ^ Z.of_nat 8) with 256; ulia].
Qed.

(** The product of a nibble and the scale is the exact product, rounded. *)
Definition mxfp4_value (scale nibble : Z) : spec_float := round_to 24 128 (scaled (of_finite_bits 1 2 nibble) (scale - 127)).

Definition mxfp4_decodes (x : Z) : Prop :=
  let scale := x / 16 in
  let nibble := x mod 16 in
  scale = 255 ∨
  (λ v, SFmul 24 128 v (yvex_quant_e8m0_decode scale)) <$> array_get source_mxfp4_values nibble = Some (mxfp4_value scale nibble) ∧
  (scale ≤ 252 → same_number (mxfp4_value scale nibble) (scaled (of_finite_bits 1 2 nibble) (scale - 127))).
#[local] Instance mxfp4_decodes_dec x : Decision (mxfp4_decodes x).
Proof. unfold mxfp4_decodes. cbn zeta. apply _. Defined.

Lemma mxfp4_decodes_all x : 0 ≤ x < 4096 → mxfp4_decodes x.
Proof.
  intros Hx. apply (exhaustive _ mxfp4_decodes_dec 12 0);
    [by vm_compute|change (2 ^ Z.of_nat 12) with 4096; lia].
Qed.

(** The integers of a source in two's complement. *)
Lemma i32_signed v : -2147483648 ≤ v < 2147483648 → gguf_i32_from_u32 (v mod 4294967296) = v.
Proof.
  intros Hv. unfold gguf_i32_from_u32. destruct (Z.lt_ge_cases v 0).
  - replace (v mod 4294967296) with (v + 4294967296) by (apply Z.mod_unique with (-1); lia).
    destruct (Z.leb_spec (v + 4294967296) 2147483647); ulia.
  - rewrite Z.mod_small by lia. by rewrite (proj2 (Z.leb_le v 2147483647)) by lia.
Qed.

Lemma u16_loaded v : 0 ≤ v < 65536 → gguf_u16le_load (le_bytes 2 v) = Some v.
Proof.
  intros Hv. unfold gguf_u16le_load. rewrite array_prefix by done.
  change (take (Z.to_nat 2) (le_bytes 2 v)) with (le_bytes 2 v). cbn [fmap option_fmap option_map]. f_equal. by apply load_le_bytes.
Qed.

Lemma u32_loaded v : is_u32 v → gguf_u32le_load (le_bytes 4 v) = Some v.
Proof.
  intros Hv. unfold gguf_u32le_load. rewrite array_prefix by done.
  change (take (Z.to_nat 4) (le_bytes 4 v)) with (le_bytes 4 v). cbn [fmap option_fmap option_map]. f_equal. apply load_le_bytes. ulia.
Qed.

Lemma i64_loaded v : -9223372036854775808 ≤ v < 9223372036854775808 →
  yvex_quant_source_i64_decode (Some (le_bytes 8 (v mod 18446744073709551616))) = run_ret v.
Proof.
  intros Hv. unfold yvex_quant_source_i64_decode. rewrite array_prefix by done. cbn [run_access run_bind].
  change (take (Z.to_nat 8) (le_bytes 8 ?x)) with (le_bytes 8 x).
  rewrite load_le_bytes by (change (256 ^ Z.of_nat 8) with 18446744073709551616; apply Z.mod_pos_bound; lia). f_equal.
  destruct (Z.lt_ge_cases v 0).
  - replace (v mod 18446744073709551616) with (v + 18446744073709551616) by (apply Z.mod_unique with (-1); lia).
    destruct (Z.leb_spec (v + 18446744073709551616) 9223372036854775807); ulia.
  - rewrite Z.mod_small by lia. by rewrite (proj2 (Z.leb_le v 9223372036854775807)) by lia.
Qed.

(** The nibble of output [i]: the low one of a byte before the high one. *)
Definition nibble (packed : list Z) (i : nat) : Z :=
  let byte := default 0 (packed !! (i / 2)%nat) in if Nat.even i then byte mod 16 else byte / 16.

Lemma nibbles packed n byte : packed !! n = Some byte →
  nibble packed (n * 2) = byte mod 16 ∧ nibble packed (1 + n * 2) = byte / 16.
Proof.
  intros Eb. unfold nibble. rewrite Nat.div_mul, (Nat.div_add 1) by lia. change (1 `div` 2 + n)%nat with n. rewrite Eb.
  rewrite Nat.even_add, Nat.even_mul. change (Nat.even 2) with true. by rewrite orb_true_r.
Qed.

Lemma mxfp4_block packed scale :
  Forall is_u8 packed → length packed = 16%nat → is_u8 scale → scale ≠ 255 →
  yvex_quant_source_mxfp4_decode (Some packed) scale = run_ret ((λ i, mxfp4_value scale (nibble packed i)) <$> seq 0 32).
Proof.
  intros Hp Hl Hs Hn. unfold yvex_quant_source_mxfp4_decode.
  assert (is_finite (yvex_quant_e8m0_decode scale) = true) as ->.
  { destruct (e8m0_decodes_all scale Hs); [done|]. by destruct (yvex_quant_e8m0_decode scale). }
  cbn [negb]. assert (∀ n, 0 ≤ n < 16 → ∃ x, array_get source_mxfp4_values n = Some x ∧
    SFmul 24 128 x (yvex_quant_e8m0_decode scale) = mxfp4_value scale n) as Hv.
  { intros n Hr. destruct (mxfp4_decodes_all (scale * 16 + n)) as [E|[E _]]; [ulia| |];
      rewrite Z.div_add_l, (Z.div_small n), Z.add_0_r in E by lia; [done|].
    rewrite (Z.add_comm (scale * 16)), Z.mod_add, Z.mod_small in E by lia. destruct (array_get source_mxfp4_values n); [|done].
    eexists. split; [done|]. by injection E. }
  set (pair := λ i, [mxfp4_value scale (nibble packed (Z.to_nat (2 * i))); mxfp4_value scale (nibble packed (Z.to_nat (2 * i + 1)))]).
  match goal with |- context [mapM ?f (seqZ 0 16)] => assert (mapM f (seqZ 0 16) = Some (pair <$> seqZ 0 16)) as -> end.
  { apply mapM_Some, Forall2_fmap_r, Forall_Forall2_diag, Forall_forall. intros i Hi%elem_of_seqZ.
    destruct (lookup_lt_is_Some_2 packed (Z.to_nat i)) as [byte Eb]; [lia|]. unfold compose.
    assert (array_get packed i = Some byte) as -> by (rewrite <- (Z2Nat.id i), array_get_nat by lia; done).
    cbn [mbind option_bind]. pose proof (Forall_lookup_1 _ _ _ _ Hp Eb). change 15 with (Z.ones 4). rewrite Z.land_ones, Z.shiftr_div_pow2 by lia.
    change (2 ^ 4) with 16. destruct (Hv (byte mod 16)) as (x & -> & Ex); [by apply Z.mod_pos_bound|].
    destruct (Hv (byte / 16)) as (y & Ey & Exy); [split; [apply Z.div_pos; ulia|apply Z.div_lt_upper_bound; ulia]|].
    cbn [mbind option_bind]. rewrite Ey. cbn [mbind option_bind]. rewrite Ex, Exy. unfold pair.
    assert (nibble packed (Z.to_nat (2 * i)) = byte mod 16 ∧ nibble packed (Z.to_nat (2 * i + 1)) = byte / 16) as [-> ->]; [|done].
    replace (Z.to_nat (2 * i)) with (Z.to_nat i * 2)%nat by lia. replace (Z.to_nat (2 * i + 1)) with (1 + Z.to_nat i * 2)%nat by lia.
    by apply nibbles. }
  reflexivity.
Qed.

Lemma e4m3_byte b : is_u8 b → ∃ x, yvex_quant_source_scalar_decode YVEX_NATIVE_DTYPE_F8_E4M3 (Some [b]) = run_ret x ∧
  if Z.land b 127 =? 127 then x = S754_nan else same_number x (of_finite_bits 3 4 b).
Proof.
  intros Hb. exists (yvex_quant_fp8_e4m3fn_decode b). split; [done|]. pose proof (e4m3_decodes_all b Hb) as Hd. unfold e4m3_decodes in Hd.
  destruct (yvex_quant_fp8_e4m3fn_decode b), (Z.eqb_spec (Z.land b 127) 127); tauto.
Qed.

Lemma halves_loaded h : 0 ≤ h < 65536 →
  (∃ x, yvex_quant_source_scalar_decode YVEX_NATIVE_DTYPE_F16 (Some (le_bytes 2 h)) = run_ret x ∧ same_number x (f16_of_bits h)) ∧
  (∃ x, yvex_quant_source_scalar_decode YVEX_NATIVE_DTYPE_BF16 (Some (le_bytes 2 h)) = run_ret x ∧ same_number x (bf16_of_bits h)).
Proof.
  intros Hh. unfold yvex_quant_source_scalar_decode. rewrite u16_loaded by done. cbn [mbind option_bind].
  pose proof (f16_decodes_all h Hh) as Hf. pose proof (bf16_decodes_all h Hh) as (_ & Hb & _).
  unfold f16_decodes in Hf. destruct (yvex_quant_f16_decode h) as [b|]; [|done]. cbn [mbind option_bind]. destruct Hf as (_ & Hf & _).
  split; eexists; split; (done || reflexivity).
Qed.

(** C21: a source's scalars mean what its bytes say. Integers of 64 bits come back exactly and those of 32 rounded once; binary32 is
    its bits; binary16, bfloat16, E4M3 and E8M0 are read without error, the NaN of E4M3 as NaN; the 32 values of an MXFP4 block are
    its nibbles, low before high, times the scale, correctly rounded, and exact up to a scale of 2^125; no access leaves the bytes. *)
Theorem source_scalars_exact :
  (∀ v, -9223372036854775808 ≤ v < 9223372036854775808 →
    yvex_quant_source_i64_decode (Some (le_bytes 8 (v mod 18446744073709551616))) = run_ret v) ∧
  (∀ v, -2147483648 ≤ v < 2147483648 →
    yvex_quant_source_scalar_decode YVEX_NATIVE_DTYPE_I32 (Some (le_bytes 4 (v mod 4294967296))) = run_ret (f32_of_Z v)) ∧
  (∀ b, is_u32 b → yvex_quant_source_scalar_decode YVEX_NATIVE_DTYPE_F32 (Some (le_bytes 4 b)) = run_ret (f32_of_bits b)) ∧
  (∀ h, 0 ≤ h < 65536 →
    (∃ x, yvex_quant_source_scalar_decode YVEX_NATIVE_DTYPE_F16 (Some (le_bytes 2 h)) = run_ret x ∧ same_number x (f16_of_bits h)) ∧
    (∃ x, yvex_quant_source_scalar_decode YVEX_NATIVE_DTYPE_BF16 (Some (le_bytes 2 h)) = run_ret x ∧ same_number x (bf16_of_bits h))) ∧
  (∀ b, is_u8 b → ∃ x, yvex_quant_source_scalar_decode YVEX_NATIVE_DTYPE_F8_E4M3 (Some [b]) = run_ret x ∧
    if Z.land b 127 =? 127 then x = S754_nan else same_number x (of_finite_bits 3 4 b)) ∧
  (∀ b, is_u8 b → b ≠ 255 → ∃ x, yvex_quant_source_scalar_decode YVEX_NATIVE_DTYPE_F8_E8M0 (Some [b]) = run_ret x ∧
    same_number x (S754_finite false 1 (b - 127))) ∧
  (∀ packed scale, Forall is_u8 packed → length packed = 16%nat → is_u8 scale →
    if scale =? 255 then yvex_quant_source_mxfp4_decode (Some packed) scale = run_refuse YVEX_ERR_FORMAT "MXFP4 source scale is non-finite"
    else ∃ out, yvex_quant_source_mxfp4_decode (Some packed) scale = run_ret out ∧ length out = 32%nat ∧
      ∀ i, (i < 32)%nat → ∃ x, out !! i = Some x ∧
        let exact := scaled (of_finite_bits 1 2 (nibble packed i)) (scale - 127) in
        x = round_to 24 128 exact ∧ (scale ≤ 252 → same_number x exact)).
Proof.
  split; [exact i64_loaded|]. split.
  { intros v Hv. cbn [yvex_quant_source_scalar_decode]. rewrite u32_loaded by (pose proof (Z.mod_pos_bound v 4294967296); ulia).
    cbn [mbind option_bind]. by rewrite i32_signed. }
  split; [intros b Hb; cbn [yvex_quant_source_scalar_decode]; by rewrite u32_loaded|]. split; [exact halves_loaded|].
  split; [exact e4m3_byte|]. split.
  { intros b Hb Hn. eexists. split; [reflexivity|]. by destruct (e8m0_decodes_all b Hb). }
  intros packed scale Hp Hl Hs. destruct (Z.eqb_spec scale 255) as [->|Hn]; [reflexivity|].
  eexists. split; [by apply mxfp4_block|]. split; [done|]. intros i Hi. exists (mxfp4_value scale (nibble packed i)).
  split; [rewrite list_lookup_fmap, lookup_seq_lt by done; done|]. split; [done|]. intros Hsc.
  assert (0 ≤ nibble packed i < 16) as Hr.
  { unfold nibble. assert (is_u8 (default 0 (packed !! (i `div` 2)%nat))) as Hb.
    { destruct (packed !! (i `div` 2)%nat) eqn:E; [by apply (Forall_lookup_1 _ _ _ _ Hp E)|done]. }
    destruct (Nat.even i); [by apply Z.mod_pos_bound|]. split; [apply Z.div_pos; ulia|apply Z.div_lt_upper_bound; ulia]. }
  destruct (mxfp4_decodes_all (scale * 16 + nibble packed i)) as [E|[_ E]]; [ulia| |];
    rewrite Z.div_add_l, (Z.div_small (nibble packed i)), Z.add_0_r in E by lia; [done|].
  rewrite (Z.add_comm (scale * 16)), Z.mod_add, Z.mod_small in E by lia. by apply E.
Qed.

(** Minus two as an integer, one and a half as E4M3, and a block of threes at a scale of two. *)
Lemma source_scalars_exact_witness :
  yvex_quant_source_i64_decode (Some (le_bytes 8 ((-2) mod 18446744073709551616))) = run_ret (-2) ∧
  (∃ x, yvex_quant_source_scalar_decode YVEX_NATIVE_DTYPE_F8_E4M3 (Some [60]) = run_ret x ∧ same_number x (S754_finite false 12 (-3))) ∧
  ∃ out, yvex_quant_source_mxfp4_decode (Some (replicate 16 85)) 128 = run_ret out ∧
    out !! 31%nat = Some (S754_finite false 12582912 (-21)).
Proof.
  destruct source_scalars_exact as (Hi & _ & _ & _ & He & _ & Hx). split; [apply Hi; lia|]. split.
  { destruct (He 60) as (x & E & Hs); [ulia|]. exists x. split; [exact E|exact Hs]. }
  specialize (Hx (replicate 16 85) 128). cbn [Z.eqb] in Hx. destruct Hx as (out & E & _ & Ho).
  { apply Forall_replicate. ulia. } { reflexivity. } { ulia. }
  exists out. split; [exact E|]. destruct (Ho 31%nat) as (x & Ex & Er & _); [lia|]. rewrite Ex, Er. reflexivity.
Defined.
